(* ===== verification/_CoqProject ===== *)
-Q . S2P
Prelude.v
Slices.v
Float64.v
Utf8.v
StringUtils.v
Lexer.v
LexerFacts.v
LexerTheorems.v
Opcode.v
Constant.v
ConstantFacts.v
Operators.v
Parser.v
ParserFacts.v
ParserPrint.v
ParserRoundTrip.v
ParserTheorems.v
Value.v
Limits.v
RawTable.v
MetaOps.v
Vm.v
VmFacts.v
VmControl.v
Thread.v
ThreadFacts.v
ThreadCalls.v
ThreadSteps.v
ThreadTheorems.v
RawTableFacts.v
RawTableGrow.v
RawTableSet.v
RawTableIter.v
Buckets.v
RawTableTheorems.v
Table.v
RunVm.v
TableTheorems.v
RunVmTheorems.v
HostOp.v
Executor.v
ExecutorFacts.v
ExecutorSteps.v
ExecutorLoop.v
ExecutorFuel.v
ExecutorTheorems.v
Pattern.v
PatternFacts.v
PatternTheorems.v
Gsub.v
GsubTheorems.v
Pack.v
PackTheorems.v
RegisterAllocator.v
CompilerState.v
CompilerExpr.v
Compiler.v
CompilerCode.v
CompilerFacts.v
CompilerSteps.v
CompilerJumps.v
CompilerDischarge.v
CompilerValues.v
CompilerFunctions.v
CompilerTree.v
CompilerStatements.v
CompilerLoops.v
CompilerAssign.v
CompilerGuards.v
CompilerTheorems.v
Closure.v
CompilerRuns.v
ProgramTheorems.v
GcMetrics.v
GcArena.v
GcFacts.v
GcSweep.v
GcMutator.v
GcLoop.v
GcSafety.v
