(* ===== verification/Prelude.v ===== *)
(** * Phodopus: a verification library for the Lua runtime

    Phodopus is an interpreter for Lua in Rust: a lexer, a parser and a compiler to register
    bytecode; a stackless virtual machine whose frames, values and tables live on a
    garbage-collected heap; limits on time ("fuel") and memory; and a standard library.  This
    library translates its core into Rocq functions and proves what they promise.

    ** The parts, and where they are

    Paths are below [crates/phodopus/src/]; [gc:] is [crates/phodopus-gc-arena/src/].

    - Garbage collector ([gc:context.rs], [gc:arena.rs], [gc:metrics.rs], [gc:gc_weak.rs],
      [gc:types.rs]).  [GcMetrics] has the byte counters and the allocation debt in [f64].
      [GcArena.Gc] has the boxes, the intrusive list of allocations, the rounds of marking and
      sweeping ([do_collection]), barriers, weak pointers and [Drop]; [GcMutator] what a
      program does between collections, as a sequence of actions on the pointers it holds.
      [GcFacts], [GcSweep], [GcLoop] carry the invariant through every step; [GcSafety] states
      what follows for every reachable state.
    - Limits ([fuel.rs], [memory.rs]): [Limits.Fuel], [Limits.Memory].
    - Source text ([compiler/lexer.rs], [compiler/interning.rs], [compiler/string_utils.rs]):
      [StringUtils] reads numerals, [Lexer] makes tokens, in a monad with errors, panics and
      loops that may exhaust their fuel; [LexerFacts] proves that the last two do not happen,
      [LexerTheorems] what is read.
    - Parser ([compiler/parser.rs]): [Parser], a syntax tree and one function for each rule,
      over any source of tokens ([TokenSource]), of which the lexer is one.  [ParserFacts] says
      which trees are canonical and runs the parser on any input; [ParserPrint] prints a tree;
      [ParserRoundTrip] runs the parser on printed tokens; [ParserTheorems] has the results.
    - Constants and folding ([constant.rs], [compiler/operators.rs]): [Constant], [Operators],
      on [Float64], which computes [f64] on bit patterns.
    - Instructions ([opcode.rs], [types.rs]): [Opcode], both representations and the coding.
    - Compiler ([compiler/compiler.rs], [compiler/register_allocator.rs]):
      [RegisterAllocator]; [CompilerState], the state with its operations on code, registers,
      blocks, jumps, variables and constants; [CompilerExpr], expressions into registers;
      [Compiler], the walk of the tree, [compile_chunk].  [CompilerCode] says what well-formed
      code is; [CompilerFacts] has the invariant, [CompilerSteps] and [CompilerJumps] carry it
      through the operations, [CompilerDischarge] and [CompilerValues] through expressions,
      [CompilerFunctions] through a function, [CompilerTree] from the tree to expressions,
      [CompilerStatements], [CompilerLoops] and [CompilerAssign] through statements;
      [CompilerGuards] relates the compiler with and without its guards; [CompilerTheorems]
      ties the recursion and has the results.
    - From text to a closure ([closure.rs]): [Closure], prototypes of the machine from compiled
      functions, and loading.  [CompilerRuns] shows that well-formed code gives each group of
      instructions what it needs, and that a frame of such code stays one; [ProgramTheorems] puts lexer, parser, compiler and machine together.
    - Values and metaoperators ([value.rs], [meta_ops.rs]): [Value]; [MetaOps] on numbers and
      metamethods; [Table.MetaTable] those that go through tables.
    - Tables ([table/raw.rs], [table/table.rs]): [RawTable], an array and a hash part;
      [Table.Table], the objects with their metatables in a store.  [RawTableFacts], [...Grow],
      [...Set], [...Iter] are the lemmas, [RawTableTheorems] the results.
    - The machine ([thread/vm.rs], [thread/thread.rs], [thread/mod.rs], [closure.rs]): [Vm]
      (arithmetic and comparison), [VmControl] (loads, jumps, loops), [Thread] (frames, calls,
      upvalues, the host's operations on a thread at rest), [RunVm] (tables, and the loop of
      [run_vm] that gives each instruction to one of the four).  [VmFacts], [VmControl],
      [ThreadFacts], [ThreadCalls], [ThreadSteps], [ThreadTheorems], [TableTheorems],
      [RunVmTheorems] hold the proofs, also that no instruction gives fuel back.
    - The executor ([thread/executor.rs], [hostop.rs], and [backtrace] of [thread/thread.rs]):
      [HostOp], the registry of what a host is asked for; [Executor], the loop of [step] and
      the operations of the host.  A callback and a sequence are trait objects: their code is
      the class [Natives], and the theorems ask of it what [ExecutorLoop.code_ok] says.
      [ExecutorFacts] has the invariant of all threads of a world, [ExecutorSteps] switching
      and returning, [ExecutorLoop] a round, [ExecutorFuel] its fuel, [ExecutorTheorems] the
      results.
    - Patterns ([stdlib/string/pattern_engine.rs], [stdlib/string/patterns.rs],
      [stdlib/sandbox.rs]): [Pattern] has the lexer and parser of patterns, the matcher and the
      searches; [Gsub] the iterator of [gmatch] and the resumable [gsub].
    - Packing ([stdlib/string.rs], [stdlib/string/pack.rs], [unpack.rs], [packsize.rs]): [Pack],
      the cursor over a format, its options, and the three resumable sequences, as computations on
      a state that end at the first error ([Pack.Walk]).  [PackTheorems] reads each as a big-step
      relation ([WalkFacts.walk]), shows that the three read a format alike ([CoreFacts]), says
      what an option writes ([PlanFacts.encoded]) and has the results.

    They interact as in the program.  [Executor] runs [RunVm] and natives on the threads of
    [Thread], one of which is borrowed; [RunVm] calls [Table] and [Thread], which charge
    [Limits]; [Table] calls [RawTable], which asks [Limits.Memory] before it grows; [Vm] calls
    [MetaOps], which calls [Constant]; [Gsub] calls [Pattern], [Table] and [Limits].  An object
    on the heap is its address; tables, closures and upvalues are stores from addresses, so
    that values that are the same object see each other's changes.

    ** What is proved

    - Collector: nothing a program holds dangles and no assertion fails in any reachable
      state; the tri-colour invariant; a full collection keeps exactly what is reachable; the
      counters are exact; [do_collection] ends.
    - Machine: the inline paths of arithmetic agree with the metaoperators they bypass, and
      folding with both; arithmetic never panics; a numeric loop runs the iterations it
      should; calls put arguments and results where they belong; upvalues are variables
      (a refinement); the instructions of calls keep the invariant of a thread; the loop of
      [run_vm] can be stopped after any instruction.
    - Executor: [step] always returns, and keeps the threads well formed and each waiting for
      the one above; an error unwinds exactly the Lua frames to the nearest sequence; resuming
      a thread is a call; a host operation is resolved once; a quota pauses, then raises.
    - Tables: [set] and [get] refine a finite map, on every growth path and error; iteration
      visits each entry once and survives removals; the length is a border; the array has the
      optimal size; [SetList] stores all of its batch or none.
    - Parser: every text is answered; a tree is canonical (precedence, associativity, nesting
      below the limit); a printed canonical tree is read back, so its tokens are those of no
      other; operators bind as the manual of Lua says; parentheses nest to the limit exactly.
    - Compiler: [compile_chunk] goes wrong at three places only.  The model can be run with a
      guard at each of them ([compile_guarded]): a block of registers that ends with register
      255 ([RegisterAllocator.push_to_end]), a jump out of a loop to a label below its
      registers ([goto_out_of_for]), a folded expression that overflows
      ([ConstantFacts.modulo_overflow]).  With the guards it never panics on a tree of the
      parser, and is the code or refuses ([guards_only_refuse]); what the code makes of such a
      tree is well-formed, function by function ([compiled_well_formed]); a statement leaves
      in use exactly the registers of the variables in scope ([register_discipline]).
    - The whole way: loading text gives an error or a closure of well-formed code, and never
      panics ([load_answers]); an instruction of compiled code, those on tables aside, is
      executed without a panic and leaves a frame of the same code, or a thread in order
      ([compiled_code_runs]).
    - Lexer: no panic, termination, and a round trip for escaped strings.  Instructions: coding
      and decoding are inverse.  Registers: the allocator gives what it should.
    - Patterns: the matcher finds the first success of backtracking, a search the leftmost
      match; an escaped text is a plain search; [gsub] does not depend on how its fuel is
      sliced, and a plain [gsub] replaces what it says.
    - Packing: the three sequences answer, with the same answer for all slices of fuel
      ([sequences_answer]); [unpack] gives back what [pack] wrote ([pack_unpack]); [packsize] is the
      length of it ([packsize_exact]).

    ** Conventions

    A machine integer is a [Z] with its range and its wrapping written out ([arith] panics or
    wraps as the [BuildProfile] says, [wrap], [checked], [saturating]); bytes are [Z]; lengths
    and positions in memory are [nat].  [outcome] is a result or a panic; errors of the
    program are values of a sum.  Assertions that a build may leave out are taken as on, and
    are shown not to fail.  Code of other crates is a class of operations, with its documented
    laws as another: hashbrown, the hasher and the growth of [Vec] ([RawTable.Platform],
    implemented in [Buckets]), [powf] ([FloatLib]), interning, the printing of floats
    ([Table.DisplayFloat]), the character sets of lsonar ([Pattern.Lsonar]); the byte order of the
    target is [Pack.Target].

    Loops whose end is not structural take fuel, with a proof that it is enough: the lexer, the
    number of bytes left and one; a collection, three rounds for each box and six; the
    searches of [RawTable.length], 64 halvings of a [usize]; a repetition of a pattern, the
    bytes left and two, since each turn but the last moves on; the parser of patterns, its
    tokens and one; [gsub], the bytes left and two; a walk of a packing format, its bytes left and one; the loops of the parser, the bytes and
    tokens left and one, since each turn takes a token; the grammar, the guards left of
    [MAX_RECURSION]; the descriptors of expressions, their own depth ([depth], [call_depth],
    [method_depth]); the compiler's walk, the structure of the tree.  [run_vm] counts its instructions itself; [step] is given a number of
    rounds, of which a quarter of the fuel and one more are enough.

    ** What is not modelled

    [Collect] implementations, locks and the derive macro (the collector is given the list of
    pointers a value has); the conversions of errors and the adapter from Rust futures to
    sequences; [string.format] and the rest of the standard library, the conversions between Rust and Lua types and the registry; printing and
    debug output; I/O.  Sequences are modelled for [gsub] and packing alone; the
    memory that [pack] asks for is checked against one figure of what the arena has allocated.

    ** What the models showed

    The manifest lists the defects found.  The larger ones are theorems:
    [RawTableTheorems.equal_string_keys] (a removed key set again through an equal string at
    another address), [LexerTheorems.unicode_escape_wraps],
    [RegisterAllocator.push_to_end], [ConstantFacts.modulo_overflow],
    [VmFacts.modulo_fold_diverges], [VmControl.numeric_for_zero_step],
    [ThreadTheorems.resume_parked_panics], [PatternTheorems.repetition_limit],
    [CompilerTheorems.goto_out_of_for], [PackTheorems.pack_over_limit]. *)

From Stdlib Require Export ZArith Lia Ascii.
From stdpp Require Export base tactics list option numbers strings gmap.

Open Scope Z_scope.

(** ** Panics

    A Rust function that may panic (failed [assert!], [unreachable!],
    [unwrap] on [None], slice index out of range, overflow with the overflow
    checks on) returns an [outcome]. *)
Inductive outcome (A : Type) : Type :=
  | Ok (a : A)
  | Panic.
Arguments Ok {A} a.
Arguments Panic {A}.

#[export] Instance outcome_ret : MRet outcome := fun A a => Ok a.
#[export] Instance outcome_bind : MBind outcome := fun A B f m =>
  match m with Ok a => f a | Panic => Panic end.
#[export] Instance outcome_fmap : FMap outcome := fun A B f m =>
  match m with Ok a => Ok (f a) | Panic => Panic end.

#[export] Instance outcome_eq_dec {A} `{EqDecision A} : EqDecision (outcome A).
Proof. solve_decision. Defined.

Definition no_panic {A} (m : outcome A) : Prop := m <> Panic.

Lemma outcome_bind_Ok {A B} (f : A -> outcome B) a : (Ok a ≫= f) = f a.
Proof. reflexivity. Qed.

Lemma outcome_bind_inv {A B} (m : outcome A) (f : A -> outcome B) b :
  (m ≫= f) = Ok b -> exists a, m = Ok a /\ f a = Ok b.
Proof. destruct m; simpl; [eauto | discriminate]. Qed.

(** [assert!(b)] *)
Definition rust_assert (b : bool) : outcome unit := if b then Ok tt else Panic.

(** The [overflow-checks] flag of the Cargo profile: with it [+], [-] and [*]
    on machine integers panic when the result is out of range, without it they
    wrap.  Every definition that uses the plain operators takes the profile, so
    theorems hold of both builds. *)
Class BuildProfile : Type := { overflow_checks : bool }.

(** ** Machine integers: values in [Z], a type is a signedness and a width *)
Record int_ty : Type := IntTy { int_signed : bool; int_width : Z }.

Definition u8  : int_ty := IntTy false 8.
Definition u16 : int_ty := IntTy false 16.
Definition u32 : int_ty := IntTy false 32.
Definition u64 : int_ty := IntTy false 64.
Definition usize : int_ty := IntTy false 64.
Definition i16 : int_ty := IntTy true 16.
Definition i32 : int_ty := IntTy true 32.
Definition i64 : int_ty := IntTy true 64.

Definition int_min (t : int_ty) : Z :=
  if int_signed t then - 2 ^ (int_width t - 1) else 0.
Definition int_max (t : int_ty) : Z :=
  if int_signed t then 2 ^ (int_width t - 1) - 1 else 2 ^ int_width t - 1.

Definition in_int (t : int_ty) (z : Z) : Prop := int_min t <= z <= int_max t.
Definition in_intb (t : int_ty) (z : Z) : bool :=
  (int_min t <=? z) && (z <=? int_max t).

#[export] Instance in_int_dec t z : Decision (in_int t z).
Proof. unfold in_int. apply _. Defined.

(** [z as t] between integers, and [wrapping_*] of the exact result [z] *)
Definition wrap (t : int_ty) (z : Z) : Z :=
  (z - int_min t) mod 2 ^ int_width t + int_min t.

(** [checked_*] and [try_into] of the exact result [z] *)
Definition checked (t : int_ty) (z : Z) : option Z :=
  if in_intb t z then Some z else None.

(** [saturating_*] of the exact result [z] *)
Definition saturating (t : int_ty) (z : Z) : Z :=
  Z.max (int_min t) (Z.min (int_max t) z).

(** The plain operator whose exact result is [z] *)
Definition arith `{BuildProfile} (t : int_ty) (z : Z) : outcome Z :=
  if in_intb t z then Ok z
  else if overflow_checks then Panic else Ok (wrap t z).

Lemma in_intb_spec t z : in_intb t z = true <-> in_int t z.
Proof. unfold in_intb, in_int. rewrite andb_true_iff, !Z.leb_le. reflexivity. Qed.

Lemma in_intb_false t z : in_intb t z = false <-> ~ in_int t z.
Proof. rewrite <- in_intb_spec. destruct (in_intb t z); intuition congruence. Qed.

Lemma int_span t : 0 <= int_width t -> int_width t <> 0 \/ int_signed t = false ->
  int_max t - int_min t + 1 = 2 ^ int_width t.
Proof.
  intros Hw Hs. unfold int_max, int_min. destruct (int_signed t); [|lia].
  destruct Hs as [Hs|]; [|discriminate].
  replace (int_width t) with (Z.succ (int_width t - 1)) at 3 by lia.
  rewrite Z.pow_succ_r by lia. lia.
Qed.

Class WfInt (t : int_ty) : Prop := wf_int : 0 < int_width t.
#[export] Instance u8_wf : WfInt u8. Proof. reflexivity. Qed.
#[export] Instance u16_wf : WfInt u16. Proof. reflexivity. Qed.
#[export] Instance u32_wf : WfInt u32. Proof. reflexivity. Qed.
#[export] Instance u64_wf : WfInt u64. Proof. reflexivity. Qed.
#[export] Instance usize_wf : WfInt usize. Proof. reflexivity. Qed.
#[export] Instance i16_wf : WfInt i16. Proof. reflexivity. Qed.
#[export] Instance i32_wf : WfInt i32. Proof. reflexivity. Qed.
#[export] Instance i64_wf : WfInt i64. Proof. reflexivity. Qed.

Lemma wrap_in_int t `{WfInt t} z : in_int t (wrap t z).
Proof.
  unfold in_int, wrap. pose proof (int_span t ltac:(unfold WfInt in *; lia)
    ltac:(unfold WfInt in *; lia)) as Hs.
  pose proof (Z.mod_pos_bound (z - int_min t) (2 ^ int_width t)
    ltac:(apply Z.pow_pos_nonneg; unfold WfInt in *; lia)). lia.
Qed.

Lemma wrap_small t `{WfInt t} z : in_int t z -> wrap t z = z.
Proof.
  unfold in_int, wrap. intros Hz.
  pose proof (int_span t ltac:(unfold WfInt in *; lia)
    ltac:(unfold WfInt in *; lia)) as Hs.
  rewrite Z.mod_small; lia.
Qed.

(** [wrap] only depends on the residue, and preserves it. *)
Lemma wrap_mod t `{WfInt t} z : wrap t z mod 2 ^ int_width t = z mod 2 ^ int_width t.
Proof.
  unfold wrap. rewrite Zplus_mod_idemp_l. f_equal. lia.
Qed.

Lemma wrap_congr t a b :
  a mod 2 ^ int_width t = b mod 2 ^ int_width t -> wrap t a = wrap t b.
Proof.
  intros Hab. unfold wrap. f_equal.
  rewrite Zminus_mod, Hab, <- Zminus_mod. reflexivity.
Qed.

Lemma checked_Some t z z' : checked t z = Some z' <-> in_int t z /\ z' = z.
Proof.
  unfold checked. destruct (in_intb t z) eqn:E.
  - apply in_intb_spec in E. split; [intros [= ->]; done | by intros [_ ->]].
  - apply in_intb_false in E. split; [discriminate | intros [? _]; done].
Qed.

Lemma checked_in t z : in_int t z -> checked t z = Some z.
Proof. intros Hz. apply checked_Some. eauto. Qed.

Lemma checked_None t z : checked t z = None <-> ~ in_int t z.
Proof.
  unfold checked. destruct (in_intb t z) eqn:E.
  - apply in_intb_spec in E. split; [discriminate | done].
  - apply in_intb_false in E. done.
Qed.

Lemma saturating_in_int t `{WfInt t} z : in_int t (saturating t z).
Proof.
  unfold in_int, saturating.
  pose proof (int_span t ltac:(unfold WfInt in *; lia)
    ltac:(unfold WfInt in *; lia)) as Hs.
  pose proof (Z.pow_pos_nonneg 2 (int_width t) ltac:(lia) ltac:(unfold WfInt in *; lia)).
  lia.
Qed.

Lemma saturating_small t z : in_int t z -> saturating t z = z.
Proof. unfold in_int, saturating. lia. Qed.

Lemma arith_in `{BuildProfile} t z : in_int t z -> arith t z = Ok z.
Proof. intros Hz. unfold arith. apply in_intb_spec in Hz. by rewrite Hz. Qed.

Lemma arith_Ok `{BuildProfile} t `{WfInt t} z z' :
  arith t z = Ok z' -> z' = wrap t z.
Proof.
  unfold arith. destruct (in_intb t z) eqn:E.
  - apply in_intb_spec in E. rewrite wrap_small by done. congruence.
  - destruct overflow_checks; congruence.
Qed.

(** Unfolding of the concrete types, for [lia]. *)
Ltac unfold_ints :=
  unfold in_int, int_min, int_max, u8, u16, u32, u64, usize, i16, i32, i64 in *;
  cbn [int_signed int_width] in *;
  change (2 ^ 8) with 256 in *; change (2 ^ 16) with 65536 in *;
  change (2 ^ 32) with 4294967296 in *;
  change (2 ^ 64) with 18446744073709551616 in *;
  change (2 ^ (16 - 1)) with 32768 in *;
  change (2 ^ (32 - 1)) with 2147483648 in *;
  change (2 ^ (64 - 1)) with 9223372036854775808 in *.
Ltac int_lia := unfold_ints; lia.

(** ** Bytes

    A byte is a [Z]; [b# "x"] is the literal [b'x'] and [bs# "abc"] the literal
    [b"abc"], both evaluated when they are parsed. *)
Abbreviation byte := Z (only parsing).
Abbreviation bytes := (list Z) (only parsing).

Definition byte_of_ascii (c : ascii) : Z := Z.of_N (N_of_ascii c).
Fixpoint bytes_of_string (s : String.string) : list Z :=
  match s with
  | String.EmptyString => []
  | String.String c s => byte_of_ascii c :: bytes_of_string s
  end.

Notation "'b#' c" := (ltac:(let v := eval compute in (byte_of_ascii c%char) in exact v))
  (at level 1, c at level 0, only parsing).
Notation "'bs#' s" := (ltac:(let v := eval compute in (bytes_of_string s%string) in exact v))
  (at level 1, s at level 0, only parsing).

Definition is_byte (c : Z) : Prop := 0 <= c < 256.

(** ** Lists *)

Lemma mapM_app_Some {A B} (f : A -> option B) l k l' k' :
  mapM f l = Some l' -> mapM f k = Some k' -> mapM f (l ++ k) = Some (l' ++ k').
Proof. rewrite !mapM_Some. apply Forall2_app. Qed.

(** ** Bit fields *)

(** Tagging a field below the tag's bits is an addition. *)
Lemma lor_tag k n x : 0 <= n -> 0 <= x < 2 ^ n -> Z.lor (k * 2 ^ n) x = k * 2 ^ n + x.
Proof.
  intros Hn Hx.
  assert (Hlow : forall i, n <= i -> Z.testbit x i = false).
  { intros i Hi. rewrite <- (Z.mod_small x (2 ^ n)) by done.
    apply Z.mod_pow2_bits_high. lia. }
  rewrite <- Z.shiftl_mul_pow2 by done.
  assert (Hand : Z.land (Z.shiftl k n) x = 0).
  { apply Z.bits_inj'. intros i Hi. rewrite Z.land_spec, Z.bits_0.
    destruct (Z.ltb_spec i n); [by rewrite Z.shiftl_spec_low by done|].
    by rewrite Hlow, andb_false_r by done. }
  rewrite Z.add_nocarry_lxor by done. by rewrite Z.lxor_lor.
Qed.

(** ** Tactics *)

(** Splits every [if]/[match] on a comparison of the goal or a hypothesis. *)
Ltac case_bool :=
  match goal with
  | |- context [if ?b then _ else _] => destruct b eqn:?
  | H : context [if ?b then _ else _] |- _ => destruct b eqn:?
  end.

(** An equation between closed terms, by evaluation of both sides *)
Ltac vm_refl := match goal with |- ?a = ?b => exact (eq_refl b <: a = b) end.

Ltac bool_to_prop :=
  repeat match goal with
  | H : (_ && _) = true |- _ => apply andb_true_iff in H; destruct H
  | H : (_ || _) = false |- _ => apply orb_false_iff in H; destruct H
  | H : negb _ = true |- _ => apply negb_true_iff in H
  | H : negb _ = false |- _ => apply negb_false_iff in H
  | H : (_ =? _) = true |- _ => apply Z.eqb_eq in H
  | H : (_ =? _) = false |- _ => apply Z.eqb_neq in H
  | H : (_ <=? _) = true |- _ => apply Z.leb_le in H
  | H : (_ <=? _) = false |- _ => apply Z.leb_gt in H
  | H : (_ <? _) = true |- _ => apply Z.ltb_lt in H
  | H : (_ <? _) = false |- _ => apply Z.ltb_ge in H
  end.
