(* ===== verification/Slices.v ===== *)
(** * Slices and vectors

    The operations of the standard library on [&[T]] and [Vec<T>] that the sources use, with
    their panics, and what they give in range. *)

From S2P Require Import Prelude.

Module Slice.
Section Slice.
Context `{BuildProfile} {A : Type}.
Implicit Types l : list A.

(** [a - b] on positions *)
Definition sub (a b : nat) : outcome nat :=
  if (b <=? a)%nat then Ok (a - b)%nat
  else if overflow_checks then Panic
  else Ok (Z.to_nat (wrap usize (Z.of_nat a - Z.of_nat b))).

Definition get l (i : nat) : outcome A :=
  match l !! i with Some a => Ok a | None => Panic end.
Definition set l (i : nat) (a : A) : outcome (list A) :=
  if (i <? length l)%nat then Ok (<[i := a]> l) else Panic.
Definition slice l (from to : nat) : outcome (list A) :=
  if (from <=? to)%nat && (to <=? length l)%nat then Ok (take (to - from) (drop from l))
  else Panic.

(** [v[from..].rotate_right(n)] *)
Definition rotate_right l (from n : nat) : outcome (list A) :=
  s ← slice l from (length l);
  if (n <=? length s)%nat
  then Ok (take from l ++ drop (length s - n) s ++ take (length s - n) s)
  else Panic.

(** [v.copy_within(from..from + count, dest)] *)
Definition copy_within l (from count dest : nat) : outcome (list A) :=
  s ← slice l from (from + count);
  if (dest + count <=? length l)%nat
  then Ok (take dest l ++ s ++ drop (dest + count) l) else Panic.

(** [v.extend_from_within(from..from + count)] *)
Definition extend_from_within l (from count : nat) : outcome (list A) :=
  s ← slice l from (from + count);
  Ok (l ++ s).

(** [v[from..to].fill(a)] *)
Definition fill l (from to : nat) (a : A) : outcome (list A) :=
  s ← slice l from to;
  Ok (take from l ++ replicate (length s) a ++ drop to l).

Definition is_empty l : bool := match l with [] => true | _ => false end.

(** [v.remove(i)] *)
Definition remove l (i : nat) : outcome (list A) :=
  if (i <? length l)%nat then Ok (take i l ++ drop (i + 1) l) else Panic.

(** [v.drain(from..)]: what stays and what is taken out *)
Definition drain l (from : nat) : outcome (list A * list A) :=
  s ← slice l from (length l);
  Ok (take from l, s).
End Slice.
End Slice.

Module SliceFacts.
Section SliceFacts.
Context `{BuildProfile} {A : Type}.
Implicit Types l : list A.

Lemma sub_le a b : (b <= a)%nat -> Slice.sub a b = Ok (a - b)%nat.
Proof. intros Hle. unfold Slice.sub. by rewrite (proj2 (Nat.leb_le b a)). Qed.

Lemma get_Some l i a : l !! i = Some a -> Slice.get l i = Ok a.
Proof. unfold Slice.get. by intros ->. Qed.

Lemma get_inv l i a : Slice.get l i = Ok a -> l !! i = Some a.
Proof. unfold Slice.get. by case_match; intros [= ->]. Qed.

Lemma set_lt l i a : (i < length l)%nat -> Slice.set l i a = Ok (<[i := a]> l).
Proof. intros Hi. unfold Slice.set. by rewrite (proj2 (Nat.ltb_lt i _)). Qed.

Lemma slice_in l from to : (from <= to)%nat -> (to <= length l)%nat ->
  Slice.slice l from to = Ok (take (to - from) (drop from l)).
Proof.
  intros Hf Ht. unfold Slice.slice. by rewrite (proj2 (Nat.leb_le _ _) Hf), (proj2 (Nat.leb_le _ _) Ht).
Qed.

Lemma slice_end l from : (from <= length l)%nat ->
  Slice.slice l from (length l) = Ok (drop from l).
Proof. intros Hf. rewrite slice_in by lia. by rewrite take_ge by (rewrite length_drop; lia). Qed.

Lemma rotate_right_app pre l n : (n <= length l)%nat ->
  Slice.rotate_right (pre ++ l) (length pre) n =
    Ok (pre ++ drop (length l - n) l ++ take (length l - n) l).
Proof.
  intros Hn. unfold Slice.rotate_right. rewrite slice_end by (rewrite length_app; lia).
  rewrite outcome_bind_Ok, drop_app_length, take_app_length.
  by rewrite (proj2 (Nat.leb_le n (length l)) Hn).
Qed.

Lemma copy_within_in l from count dest : (from + count <= length l)%nat ->
  (dest + count <= length l)%nat ->
  Slice.copy_within l from count dest =
    Ok (take dest l ++ take count (drop from l) ++ drop (dest + count) l).
Proof.
  intros Hf Hd. unfold Slice.copy_within. rewrite slice_in, outcome_bind_Ok by lia.
  rewrite (proj2 (Nat.leb_le _ _) Hd). by replace (from + count - from)%nat with count by lia.
Qed.

Lemma extend_from_within_in l from count : (from + count <= length l)%nat ->
  Slice.extend_from_within l from count = Ok (l ++ take count (drop from l)).
Proof.
  intros Hf. unfold Slice.extend_from_within. rewrite slice_in, outcome_bind_Ok by lia.
  by replace (from + count - from)%nat with count by lia.
Qed.

Lemma fill_in l from to a : (from <= to)%nat -> (to <= length l)%nat ->
  Slice.fill l from to a = Ok (take from l ++ replicate (to - from) a ++ drop to l).
Proof.
  intros Hf Ht. unfold Slice.fill. rewrite slice_in, outcome_bind_Ok by lia.
  by rewrite length_take, length_drop, Nat.min_l by lia.
Qed.

Lemma remove_middle pre a l :
  Slice.remove (pre ++ a :: l) (length pre) = Ok (pre ++ l).
Proof.
  unfold Slice.remove. rewrite length_app. cbn [length].
  rewrite (proj2 (Nat.ltb_lt _ _)) by lia. rewrite take_app_length.
  rewrite drop_app_ge by lia. by replace (length pre + 1 - length pre)%nat with 1%nat by lia.
Qed.

Lemma resize_app_length (l1 l2 : list A) n a :
  resize (length l1 + n) a (l1 ++ l2) = l1 ++ resize n a l2.
Proof. rewrite resize_app_ge by lia. do 2 f_equal. lia. Qed.
End SliceFacts.
End SliceFacts.
