(* ===== verification/Float64.v ===== *)
(** * IEEE 754 binary64 as the program uses it

    An [f64] is its bit pattern, a [Z] in [0, 2^64): [to_bits], [from_bits],
    [copysign], [is_sign_negative] and unary minus are then exact, NaN payloads
    included.  Arithmetic decodes to the Standard Library's [SpecFloat], computes
    there with 53 bits of precision, and encodes the result; a NaN result is the
    canonical quiet NaN.  [powf] is a libm call and stays a parameter. *)

From Stdlib Require Import Floats.SpecFloat.
From S2P Require Import Prelude.

Abbreviation f64 := Z (only parsing).

Module F64.
Definition prec : Z := 53.
Definition emax : Z := 1024.

Definition INFINITY : f64 := 2047 * 2 ^ 52.
Definition NAN : f64 := 4095 * 2 ^ 51.
Definition ZERO : f64 := 0.

Definition is_sign_negative (x : f64) : bool := Z.testbit x 63.
Definition exp_field (x : f64) : Z := Z.land (Z.shiftr x 52) 2047.
Definition mant_field (x : f64) : Z := Z.land x (2 ^ 52 - 1).
Definition from_parts (s : bool) (e m : Z) : f64 :=
  Z.lor (Z.shiftl (Z.b2z s) 63) (Z.lor (Z.shiftl e 52) m).

Definition to_sf (x : f64) : spec_float :=
  let s := is_sign_negative x in
  let e := exp_field x in
  let m := mant_field x in
  if e =? 0 then
    match m with Zpos p => S754_finite s p (-1074) | _ => S754_zero s end
  else if e =? 2047 then
    (if m =? 0 then S754_infinity s else S754_nan)
  else
    match m + 2 ^ 52 with Zpos p => S754_finite s p (e - 1075) | _ => S754_nan end.

Definition of_sf (x : spec_float) : f64 :=
  match x with
  | S754_zero s => from_parts s 0 0
  | S754_infinity s => from_parts s 2047 0
  | S754_nan => NAN
  | S754_finite s m e =>
      if 2 ^ 52 <=? Zpos m then from_parts s (e + 1075) (Zpos m - 2 ^ 52)
      else from_parts s 0 (Zpos m)
  end.

Definition is_nan (x : f64) : bool :=
  (exp_field x =? 2047) && negb (mant_field x =? 0).

Definition neg (x : f64) : f64 := Z.lxor x (2 ^ 63).
Definition copysign (x y : f64) : f64 :=
  Z.lor (Z.land x (2 ^ 63 - 1)) (Z.land y (2 ^ 63)).

Definition lift2 (f : spec_float -> spec_float -> spec_float) (x y : f64) : f64 :=
  of_sf (f (to_sf x) (to_sf y)).
Definition add : f64 -> f64 -> f64 := lift2 (SFadd prec emax).
Definition sub : f64 -> f64 -> f64 := lift2 (SFsub prec emax).
Definition mul : f64 -> f64 -> f64 := lift2 (SFmul prec emax).
Definition div : f64 -> f64 -> f64 := lift2 (SFdiv prec emax).

Definition eqb (x y : f64) : bool := SFeqb (to_sf x) (to_sf y).
Definition ltb (x y : f64) : bool := SFltb (to_sf x) (to_sf y).
Definition leb (x y : f64) : bool := SFleb (to_sf x) (to_sf y).

(** [f64::max]: the other operand when one is NaN *)
Definition max (x y : f64) : f64 :=
  if is_nan x then y else if is_nan y then x else if ltb x y then y else x.

(** The integer [m * 2^e] rounded to nearest even; [s] is the sign of zero. *)
Definition of_scaled (s : bool) (m e : Z) : f64 :=
  of_sf (binary_normalize prec emax m e s).

(** [i as f64] *)
Definition from_int (i : Z) : f64 := of_scaled false i 0.

Definition cond_neg (s : bool) (z : Z) : Z := if s then - z else z.

(** [x as i64]: truncation, saturation, NaN to 0 *)
Definition to_i64 (x : f64) : Z :=
  match to_sf x with
  | S754_zero _ | S754_nan => 0
  | S754_infinity s => if s then int_min i64 else int_max i64
  | S754_finite s m e => saturating i64 (cond_neg s (Z.shiftl (Zpos m) e))
  end.

Definition floor (x : f64) : f64 :=
  match to_sf x with
  | S754_finite s m e =>
      if 0 <=? e then x
      else of_scaled s (Z.shiftr (cond_neg s (Zpos m)) (- e)) 0
  | _ => x
  end.

(** Rust's [%] on floats: the exact remainder of the truncated quotient, with
    the sign of the dividend. *)
Definition rem (x y : f64) : f64 :=
  match to_sf x, to_sf y with
  | S754_nan, _ | _, S754_nan | S754_infinity _, _ | _, S754_zero _ => NAN
  | S754_zero _, _ | S754_finite _ _ _, S754_infinity _ => x
  | S754_finite sx mx ex, S754_finite _ my ey =>
      let e := Z.min ex ey in
      let r := Z.shiftl (Zpos mx) (ex - e) mod Z.shiftl (Zpos my) (ey - e) in
      if r =? 0 then from_parts sx 0 0 else of_scaled sx (cond_neg sx r) e
  end.

(** [m * 10^e] correctly rounded, for [0 <= m].  Outside the clamped range the
    result is an infinity or a zero whatever the mantissa. *)
Definition of_decimal (neg : bool) (m e : Z) : f64 :=
  if m =? 0 then from_parts neg 0 0
  else if 400 <? e then from_parts neg 2047 0
  else if (e <? 0) && (Z.log2 m + 3 * e <? - 1200) then from_parts neg 0 0
  else if 0 <=? e then of_scaled neg (cond_neg neg (m * 10 ^ e)) 0
  else
    let d := 10 ^ (- e) in
    let s := Z.max 0 (66 + Z.log2 d - Z.log2 m) in
    let n := Z.shiftl m s in
    let sticky := if n mod d =? 0 then 0 else 1 in
    of_scaled neg (cond_neg neg (2 * (n / d) + sticky)) (- s - 1).

(** ** The bit layout *)

Lemma from_parts_arith s e m : 0 <= e < 2048 -> 0 <= m < 2 ^ 52 ->
  from_parts s e m = Z.b2z s * 2 ^ 63 + (e * 2 ^ 52 + m).
Proof.
  intros He Hm. unfold from_parts. rewrite !Z.shiftl_mul_pow2 by lia.
  rewrite (lor_tag e 52) by lia. apply lor_tag; lia.
Qed.

Lemma exp_field_arith x : exp_field x = x / 2 ^ 52 mod 2048.
Proof.
  unfold exp_field. change 2047 with (Z.ones 11).
  by rewrite Z.land_ones, Z.shiftr_div_pow2 by lia.
Qed.

Lemma mant_field_arith x : mant_field x = x mod 2 ^ 52.
Proof.
  unfold mant_field. change (2 ^ 52 - 1) with (Z.ones 52). by rewrite Z.land_ones by lia.
Qed.

Lemma from_parts_fields s e m : 0 <= e < 2048 -> 0 <= m < 2 ^ 52 ->
  is_sign_negative (from_parts s e m) = s /\
  exp_field (from_parts s e m) = e /\ mant_field (from_parts s e m) = m.
Proof.
  intros He Hm. rewrite exp_field_arith, mant_field_arith.
  rewrite from_parts_arith by done. split; [|split].
  - unfold is_sign_negative. apply Z.b2z_inj. rewrite Z.testbit_spec' by lia.
    rewrite Z.div_add_l, (Z.div_small (_ + _)), Z.add_0_r by lia. by destruct s.
  - replace (Z.b2z s * 2 ^ 63 + (e * 2 ^ 52 + m))
      with ((Z.b2z s * 2048 + e) * 2 ^ 52 + m) by lia.
    rewrite Z.div_add_l, (Z.div_small m), Z.add_0_r by lia.
    rewrite Z.add_comm, Z_mod_plus_full. apply Z.mod_small. lia.
  - replace (Z.b2z s * 2 ^ 63 + (e * 2 ^ 52 + m))
      with (m + (Z.b2z s * 2048 + e) * 2 ^ 52) by lia.
    rewrite Z_mod_plus_full. apply Z.mod_small. lia.
Qed.

Lemma fields_bounds x : 0 <= exp_field x < 2048 /\ 0 <= mant_field x < 2 ^ 52.
Proof.
  rewrite exp_field_arith, mant_field_arith. split; apply Z.mod_pos_bound; lia.
Qed.

(** The value of a normal number *)
Definition normal_sf (s : bool) (e m : Z) : spec_float :=
  match m + 2 ^ 52 with Zpos p => S754_finite s p (e - 1075) | _ => S754_nan end.

Lemma to_sf_normal x : 0 < exp_field x < 2047 ->
  to_sf x = normal_sf (is_sign_negative x) (exp_field x) (mant_field x).
Proof.
  intros Hx. unfold to_sf. rewrite (proj2 (Z.eqb_neq _ _)) by lia.
  by rewrite (proj2 (Z.eqb_neq _ _)) by lia.
Qed.
End F64.

(** ** [str::parse::<f64>] of the standard library

    Grammar: an optional sign, then [inf], [infinity] or [nan] in any case, or
    digits with an optional dot (at least one digit) and an optional exponent
    (at least one digit).  The exponent stops accumulating at 0x10000. *)
Module ParseF64.
Definition is_ascii_digit (c : byte) : bool := (b# "0" <=? c) && (c <=? b# "9").

Fixpoint parse_digits (s : bytes) (acc : Z) (n : Z) : Z * Z * bytes :=
  match s with
  | c :: s' =>
      if is_ascii_digit c then parse_digits s' (acc * 10 + (c - b# "0")) (n + 1)
      else (acc, n, s)
  | [] => (acc, n, s)
  end.

Fixpoint scientific_digits (s : bytes) (acc : Z) : Z * bytes :=
  match s with
  | c :: s' =>
      if is_ascii_digit c then
        scientific_digits s' (if acc <? 65536 then acc * 10 + (c - b# "0") else acc)
      else (acc, s)
  | [] => (acc, s)
  end.

Definition parse_scientific (s : bytes) : option (Z * bytes) :=
  let '(neg, s) :=
    match s with
    | c :: s' => if c =? b# "-" then (true, s') else if c =? b# "+" then (false, s')
                 else (false, s)
    | [] => (false, s)
    end in
  match s with
  | c :: _ =>
      if is_ascii_digit c then
        let '(e, s) := scientific_digits s 0 in Some (if neg then - e else e, s)
      else None
  | [] => None
  end.

(** Mantissa, decimal exponent and rest *)
Definition parse_partial_number (s : bytes) : option (Z * Z * bytes) :=
  let '(m, n, s) := parse_digits s 0 0 in
  let '(m, n_after, s) :=
    match s with
    | c :: s' => if c =? b# "." then parse_digits s' m 0 else (m, 0, s)
    | [] => (m, 0, s)
    end in
  if n + n_after =? 0 then None
  else
    match s with
    | c :: s' =>
        if (c =? b# "e") || (c =? b# "E") then
          '(e, s) ← parse_scientific s'; Some (m, e - n_after, s)
        else Some (m, - n_after, s)
    | [] => Some (m, - n_after, s)
    end.

Definition to_lower (c : byte) : byte :=
  if (b# "A" <=? c) && (c <=? b# "Z") then c + 32 else c.

Definition parse_inf_nan (neg : bool) (s : bytes) : option f64 :=
  let l := map to_lower s in
  if decide (l = bs# "inf") then Some (F64.from_parts neg 2047 0)
  else if decide (l = bs# "infinity") then Some (F64.from_parts neg 2047 0)
  else if decide (l = bs# "nan") then
    Some (if neg then F64.neg F64.NAN else F64.NAN)
  else None.

Definition from_str (s : bytes) : option f64 :=
  let '(neg, s) :=
    match s with
    | c :: s' => if c =? b# "-" then (true, s') else if c =? b# "+" then (false, s')
                 else (false, s)
    | [] => (false, s)
    end in
  match parse_partial_number s with
  | Some (m, e, []) => Some (F64.of_decimal neg m e)
  | _ => parse_inf_nan neg s
  end.
End ParseF64.

(** ** What rounding gives *)
Module Rounding.
(** A float of [prec] bits with exponents from [emin]; [binary_round_aux] gives nothing else. *)
Definition representable (prec emax : Z) (x : spec_float) : Prop :=
  match x with
  | S754_finite _ m e => Zpos m < 2 ^ prec /\ emin prec emax <= e <= emax - prec
  | _ => True
  end.

Lemma shr_1_half r : 0 <= shr_m r -> shr_m (shr_1 r) = shr_m r / 2.
Proof.
  destruct r as [m r s]. cbn [shr_m]. intros Hm. destruct m as [|[p|p|]|]; cbn [shr_1 shr_m]; try done; try lia.
  - rewrite Pos2Z.inj_xI. rewrite Z.add_comm, Z.mul_comm, Z.div_add by lia. done.
  - rewrite Pos2Z.inj_xO. rewrite Z.mul_comm, Z.div_mul by lia. done.
Qed.

Lemma iter_shr n : forall r, 0 <= shr_m r -> shr_m (SpecFloat.iter_pos shr_1 n r) = shr_m r / 2 ^ Zpos n.
Proof.
  assert (Hdiv : forall a i, 0 <= a -> 0 <= a / 2 ^ Zpos i) by (intros; apply Z.div_pos; lia).
  induction n as [n IH|n IH|]; intros r Hr; cbn [SpecFloat.iter_pos].
  - assert (H1 : 0 <= shr_m (shr_1 r)) by (rewrite shr_1_half by done; apply Z.div_pos; lia).
    rewrite !IH; [|done|rewrite IH by done; by apply Hdiv]. rewrite shr_1_half by done.
    rewrite !Z.div_div by lia. f_equal. replace (Zpos n~1) with (1 + (Zpos n + Zpos n)) by lia.
    rewrite !Z.pow_add_r by lia. ring.
  - rewrite !IH; [|done|rewrite IH by done; by apply Hdiv].
    rewrite !Z.div_div by lia. f_equal. replace (Zpos n~0) with (Zpos n + Zpos n) by lia.
    rewrite Z.pow_add_r by lia. ring.
  - by apply shr_1_half.
Qed.

Lemma digits_bound p : Zpos p < 2 ^ Zpos (digits2_pos p).
Proof.
  induction p as [p IH|p IH|]; cbn [digits2_pos]; [| |done];
    rewrite Pos2Z.inj_succ, Z.pow_succ_r by lia; lia.
Qed.

Lemma shr_fexp_bound prec emax m e l r e' : 0 <= m -> 0 < prec -> shr_fexp prec emax m e l = (r, e') ->
  0 <= shr_m r /\ (shr_m r = 0 \/ shr_m r < 2 ^ prec /\ emin prec emax <= e').
Proof.
  intros Hm Hp. unfold shr_fexp.
  assert (Hr : shr_m (shr_record_of_loc m l) = m) by (by destruct l as [|[]]).
  assert (Hd : m < 2 ^ Zdigits2 m).
  { destruct m as [|p|p]; [done|apply digits_bound|lia]. }
  assert (H0 : 0 <= Zdigits2 m) by (destruct m; cbn [Zdigits2]; lia).
  set (n := fexp prec emax (Zdigits2 m + e) - e).
  assert (Hn : fexp prec emax (Zdigits2 m + e) = Z.max (Zdigits2 m + e - prec) (emin prec emax)) by done.
  assert (Hn' : n = fexp prec emax (Zdigits2 m + e) - e) by done. clearbody n.
  destruct n as [|p|p]; cbn [shr]; intros [= <- <-].
  - rewrite Hr. split; [done|]. right. split; [|lia].
    apply Z.lt_le_trans with (1 := Hd). apply Z.pow_le_mono_r; lia.
  - rewrite iter_shr, Hr by (rewrite Hr; done). split; [apply Z.div_pos; lia|].
    right. split; [|lia].
    apply Z.div_lt_upper_bound; [lia|]. rewrite <- Z.pow_add_r by lia.
    apply Z.lt_le_trans with (1 := Hd). apply Z.pow_le_mono_r; lia.
  - rewrite Hr. split; [done|]. right. split; [|lia].
    apply Z.lt_le_trans with (1 := Hd). apply Z.pow_le_mono_r; lia.
Qed.

Lemma round_aux_representable prec emax s m e l : 0 <= m -> 0 < prec ->
  representable prec emax (binary_round_aux prec emax s m e l).
Proof.
  intros Hm Hp. unfold binary_round_aux.
  destruct (shr_fexp prec emax m e l) as [r1 e1] eqn:E1.
  destruct (shr_fexp_bound _ _ _ _ _ _ _ Hm Hp E1) as [H1 _].
  destruct (shr_fexp prec emax (round_nearest_even _ _) e1 loc_Exact) as [r2 e2] eqn:E2.
  assert (H2 : 0 <= round_nearest_even (shr_m r1) (loc_of_shr_record r1)).
  { destruct r1 as [m1 [] []]; cbn in *; repeat case_match; lia. }
  destruct (shr_fexp_bound _ _ _ _ _ _ _ H2 Hp E2) as [H3 H4].
  destruct (shr_m r2) as [|p|p]; [exact I| |exact I].
  destruct (Z.leb_spec e2 (emax - prec)); [|exact I]. cbn [representable]. lia.
Qed.

Lemma normalize_representable prec emax m e s : 0 < prec ->
  representable prec emax (binary_normalize prec emax m e s).
Proof.
  intros Hp. destruct m as [|p|p]; [exact I|..]; cbn [binary_normalize]; unfold binary_round;
    destruct (shl_align _ _ _); by apply round_aux_representable.
Qed.
End Rounding.

(** The patterns are 64 bits wide. *)
Module F64Bounds.
Lemma from_parts_in_int s e m : 0 <= e < 2048 -> 0 <= m < 2 ^ 52 -> in_int u64 (F64.from_parts s e m).
Proof. intros He Hm. rewrite F64.from_parts_arith by done. destruct s; cbn [Z.b2z]; unfold_ints; lia. Qed.

Lemma of_sf_in_int x : Rounding.representable 53 1024 x -> in_int u64 (F64.of_sf x).
Proof.
  intros Hx. destruct x as [s|s| |s m e]; cbn [F64.of_sf];
    [apply from_parts_in_int; lia|apply from_parts_in_int; lia|apply in_intb_spec; reflexivity|].
  cbn [Rounding.representable] in Hx. unfold emin in Hx.
  destruct (Z.leb_spec (2 ^ 52) (Zpos m)); apply from_parts_in_int; lia.
Qed.
Lemma of_scaled_in_int s m e : in_int u64 (F64.of_scaled s m e).
Proof. apply of_sf_in_int. by apply Rounding.normalize_representable. Qed.

Lemma to_sf_representable x : Rounding.representable 53 1024 (F64.to_sf x).
Proof.
  unfold F64.to_sf. destruct (F64.fields_bounds x) as [He Hm].
  destruct (Z.eqb_spec (F64.exp_field x) 0).
  { destruct (F64.mant_field x) as [|p|p]; [exact I| |exact I]. cbn [Rounding.representable]. unfold emin. lia. }
  destruct (Z.eqb_spec (F64.exp_field x) 2047); [by case_match|].
  destruct (F64.mant_field x + 2 ^ 52) as [|p|p] eqn:E; [exact I| |exact I].
  cbn [Rounding.representable]. unfold emin. lia.
Qed.

Lemma mul_in_int x y : in_int u64 (F64.mul x y).
Proof.
  apply of_sf_in_int. unfold SFmul. repeat case_match; try exact I. by apply Rounding.round_aux_representable.
Qed.
Lemma add_in_int x y : in_int u64 (F64.add x y).
Proof.
  apply of_sf_in_int. pose proof (to_sf_representable x) as Hx. pose proof (to_sf_representable y) as Hy.
  unfold SFadd. repeat case_match; try done; try exact I. by apply Rounding.normalize_representable.
Qed.

(** No bit above the width *)
Lemma bits_in_int x : (forall i, 64 <= i -> Z.testbit x i = false) -> in_int u64 x.
Proof.
  intros Hb. assert (x mod 2 ^ 64 = x) as <-.
  { apply Z.bits_inj'. intros i Hi. destruct (Z.lt_ge_cases i 64).
    - by rewrite Z.mod_pow2_bits_low by lia.
    - by rewrite Z.mod_pow2_bits_high, Hb by lia. }
  pose proof (Z.mod_pos_bound x (2 ^ 64) ltac:(lia)). unfold_ints. lia.
Qed.
Lemma in_int_bits x i : in_int u64 x -> 64 <= i -> Z.testbit x i = false.
Proof.
  intros Hx Hi. rewrite <- (Z.mod_small x (2 ^ 64)) by (revert Hx; unfold_ints; lia). by apply Z.mod_pow2_bits_high; lia.
Qed.
Lemma neg_in_int x : in_int u64 x -> in_int u64 (F64.neg x).
Proof.
  intros Hx. apply bits_in_int. intros i Hi. unfold F64.neg.
  by rewrite Z.lxor_spec, (in_int_bits _ _ Hx), Z.pow2_bits_false by lia.
Qed.
Lemma copysign_in_int x y : in_int u64 x -> in_int u64 (F64.copysign x y).
Proof.
  intros Hx. apply bits_in_int. intros i Hi. unfold F64.copysign.
  by rewrite Z.lor_spec, !Z.land_spec, (in_int_bits _ _ Hx), Z.pow2_bits_false, andb_false_r by lia.
Qed.

Lemma of_decimal_in_int s m e : in_int u64 (F64.of_decimal s m e).
Proof.
  unfold F64.of_decimal. repeat case_match; first [apply of_scaled_in_int | apply from_parts_in_int; lia].
Qed.
Lemma from_str_in_int s x : ParseF64.from_str s = Some x -> in_int u64 x.
Proof.
  assert (Hi : forall neg s x, ParseF64.parse_inf_nan neg s = Some x -> in_int u64 x).
  { assert (Hp : forall s, in_int u64 (F64.from_parts s 2047 0)) by (intros; apply from_parts_in_int; lia).
    assert (Hn : forall b : bool, in_int u64 (if b then F64.neg F64.NAN else F64.NAN)).
    { intros []; apply in_intb_spec; reflexivity. }
    intros neg s0 x0. unfold ParseF64.parse_inf_nan.
    destruct (decide _); [by intros [= <-]|]. destruct (decide _); [by intros [= <-]|].
    destruct (decide _); [|done]. intros E. injection E as <-. apply Hn. }
  unfold ParseF64.from_str. case_match. repeat case_match; try apply Hi; intros E; injection E as <-; apply of_decimal_in_int.
Qed.
End F64Bounds.

(** The libm functions the program calls. *)
Class FloatLib : Type := { powf : f64 -> f64 -> f64 }.
