(* ===== verification/Utf8.v ===== *)
(** * UTF-8 as the Rust standard library defines it

    [str::from_utf8] (RFC 3629: no overlong form, no surrogate, nothing above
    U+10FFFF), [char::from_u32] and [char::encode_utf8]. *)

From S2P Require Import Prelude.

Module Utf8.
Definition between (lo hi c : Z) : bool := (lo <=? c) && (c <=? hi).
Definition is_cont (c : byte) : bool := between 128 191 c.

(** Range of the second byte after a three or four byte lead. *)
Definition second_ok (lead c : byte) : bool :=
  if lead =? 224 then between 160 191 c
  else if lead =? 237 then between 128 159 c
  else if lead =? 240 then between 144 191 c
  else if lead =? 244 then between 128 143 c
  else is_cont c.

(** [str::from_utf8(s).is_ok()] *)
Fixpoint is_utf8 (s : bytes) : bool :=
  match s with
  | [] => true
  | a :: s1 =>
      if between 0 127 a then is_utf8 s1
      else if between 194 223 a then
        match s1 with
        | b :: s2 => is_cont b && is_utf8 s2
        | [] => false
        end
      else if between 224 239 a then
        match s1 with
        | b :: c :: s3 => second_ok a b && is_cont c && is_utf8 s3
        | _ => false
        end
      else if between 240 244 a then
        match s1 with
        | b :: c :: d :: s4 =>
            second_ok a b && is_cont c && is_cont d && is_utf8 s4
        | _ => false
        end
      else false
  end.

Definition from_utf8 (s : bytes) : option bytes :=
  if is_utf8 s then Some s else None.

(** [char::from_u32] *)
Definition is_scalar (u : Z) : bool :=
  (0 <=? u) && (u <? 1114112) && negb (between 55296 57343 u).
Definition from_u32 (u : Z) : option Z := if is_scalar u then Some u else None.

(** [char::encode_utf8] *)
Definition encode_utf8 (c : Z) : bytes :=
  let low6 n := Z.lor 128 (Z.land (Z.shiftr c n) 63) in
  if c <? 128 then [c]
  else if c <? 2048 then [Z.lor 192 (Z.shiftr c 6); low6 0]
  else if c <? 65536 then [Z.lor 224 (Z.shiftr c 12); low6 6; low6 0]
  else [Z.lor 240 (Z.shiftr c 18); low6 12; low6 6; low6 0].

Lemma land_63 x : Z.land x 63 = x mod 64.
Proof. change 63 with (Z.ones 6). by rewrite Z.land_ones by lia. Qed.

Lemma cont_byte x : Z.lor 128 (Z.land x 63) = 128 + x mod 64.
Proof.
  rewrite land_63. pose proof (Z.mod_pos_bound x 64 ltac:(lia)).
  change 128 with (2 * 2 ^ 6). rewrite lor_tag; lia.
Qed.

(** The arithmetic form of [encode_utf8]. *)
Lemma encode_utf8_arith c : is_scalar c = true ->
  encode_utf8 c =
    if c <? 128 then [c]
    else if c <? 2048 then [192 + c / 64; 128 + c mod 64]
    else if c <? 65536 then [224 + c / 4096; 128 + c / 64 mod 64; 128 + c mod 64]
    else [240 + c / 262144; 128 + c / 4096 mod 64; 128 + c / 64 mod 64; 128 + c mod 64].
Proof.
  unfold is_scalar, encode_utf8. intros Hc. bool_to_prop.
  rewrite !cont_byte, !Z.shiftr_div_pow2 by lia.
  change (2 ^ 0) with 1. change (2 ^ 6) with 64. change (2 ^ 12) with 4096.
  change (2 ^ 18) with 262144. rewrite Z.div_1_r.
  destruct (Z.ltb_spec c 128); [done|].
  destruct (Z.ltb_spec c 2048).
  { change 192 with (6 * 2 ^ 5) at 1. rewrite lor_tag; [done|lia|].
    split; [apply Z.div_pos; lia | apply Z.div_lt_upper_bound; lia]. }
  destruct (Z.ltb_spec c 65536).
  { change 224 with (14 * 2 ^ 4) at 1. rewrite lor_tag; [done|lia|].
    split; [apply Z.div_pos; lia | apply Z.div_lt_upper_bound; lia]. }
  change 240 with (30 * 2 ^ 3) at 1. rewrite lor_tag; [done|lia|].
  split; [apply Z.div_pos; lia | apply Z.div_lt_upper_bound; lia].
Qed.

Lemma between_true lo hi c : lo <= c <= hi -> between lo hi c = true.
Proof. unfold between. intros. apply andb_true_iff. split; apply Z.leb_le; lia. Qed.

Lemma between_false lo hi c : c < lo \/ hi < c -> between lo hi c = false.
Proof.
  unfold between. intros. apply andb_false_iff.
  destruct (Z.leb_spec lo c); [right | by left]. apply Z.leb_gt. lia.
Qed.

(** Every [char] encodes to valid UTF-8. *)
Lemma encode_utf8_valid c : is_scalar c = true -> is_utf8 (encode_utf8 c) = true.
Proof.
  intros Hc. rewrite encode_utf8_arith by done.
  unfold is_scalar in Hc. bool_to_prop.
  match goal with H : between _ _ _ = false |- _ => unfold between in H;
    apply andb_false_iff in H; rewrite !Z.leb_gt in H; rename H into Hsur end.
  assert (H64 := Z_div_mod_eq_full c 64); assert (B64 := Z.mod_pos_bound c 64 ltac:(lia)).
  assert (E1 : c / 4096 = c / 64 / 64) by (rewrite Z.div_div by lia; done).
  assert (E2 : c / 262144 = c / 64 / 64 / 64) by (rewrite !Z.div_div by lia; done).
  assert (H2 := Z_div_mod_eq_full (c / 64) 64).
  assert (B2 := Z.mod_pos_bound (c / 64) 64 ltac:(lia)).
  assert (H3 := Z_div_mod_eq_full (c / 64 / 64) 64).
  assert (B3 := Z.mod_pos_bound (c / 64 / 64) 64 ltac:(lia)).
  rewrite E1, E2. clear E1 E2.
  revert H64 B64 H2 B2 H3 B3. generalize (c mod 64), (c / 64). intros l q.
  generalize (q mod 64), (q / 64). intros m r.
  generalize (r mod 64), (r / 64). intros n t. intros.
  repeat case_bool; bool_to_prop; cbn [is_utf8].
  - rewrite between_true by lia. done.
  - rewrite between_false, between_true by lia. unfold is_cont.
    rewrite between_true by lia. done.
  - rewrite !(between_false _ _ (224 + _)), (between_true _ _ (224 + _)) by lia.
    unfold is_cont. rewrite (between_true _ _ (128 + l)), !andb_true_r by lia.
    unfold second_ok, is_cont.
    repeat case_bool; bool_to_prop; apply between_true; lia.
  - rewrite !(between_false _ _ (240 + _)), (between_true _ _ (240 + _)) by lia.
    unfold is_cont. rewrite (between_true _ _ (128 + l)), (between_true _ _ (128 + m)),
      !andb_true_r by lia.
    unfold second_ok, is_cont.
    repeat case_bool; bool_to_prop; apply between_true; lia.
Qed.
End Utf8.
