(* ===== verification/StringUtils.v ===== *)
(** * Byte classification and number reading: [compiler/string_utils.rs]

    The readers behind numerals in source text and behind the implicit
    conversion of strings to numbers. *)

From Stdlib Require Import Floats.SpecFloat.
From S2P Require Import Prelude Float64 Utf8.

Module StringUtils.
  (** ** Character classes *)
Definition ALERT_BEEP : byte := 7.
Definition BACKSPACE : byte := 8.
Definition VERTICAL_TAB : byte := 11.
Definition FORM_FEED : byte := 12.
Definition NL : byte := 10.
Definition CR : byte := 13.
Definition TAB : byte := 9.

Definition is_newline (c : byte) : bool := (c =? NL) || (c =? CR).

Definition is_space (c : byte) : bool :=
  (c =? b# " ") || (c =? TAB) || (c =? VERTICAL_TAB) || (c =? FORM_FEED) || is_newline c.

Definition is_alpha (c : byte) : bool :=
  ((b# "a" <=? c) && (c <=? b# "z")) || ((b# "A" <=? c) && (c <=? b# "Z")) || (c =? b# "_").

Definition from_digit (c : byte) : option byte :=
  if (b# "0" <=? c) && (c <=? b# "9") then Some (c - b# "0") else None.

Definition is_digit (c : byte) : bool := if from_digit c is Some _ then true else false.

Definition from_hex_digit (c : byte) : option byte :=
  if (b# "0" <=? c) && (c <=? b# "9") then Some (c - b# "0")
  else if (b# "a" <=? c) && (c <=? b# "f") then Some (10 + c - b# "a")
  else if (b# "A" <=? c) && (c <=? b# "F") then Some (10 + c - b# "A")
  else None.

Definition is_hex_digit (c : byte) : bool := if from_hex_digit c is Some _ then true else false.

(** ** Trimming *)

(** [Iterator::position] and [Iterator::rposition] on a slice *)
Fixpoint position (p : byte -> bool) (s : bytes) : option nat :=
  match s with
  | [] => None
  | c :: s => if p c then Some 0%nat else S <$> position p s
  end.
Definition rposition (p : byte -> bool) (s : bytes) : option nat :=
  (fun i => (length s - 1 - i)%nat) <$> position p (rev s).

Definition trim_whitespace (s : bytes) : bytes :=
  let s := drop (default (length s) (position (fun c => negb (is_space c)) s)) s in
  take (default 0%nat (S <$> rposition (fun c => negb (is_space c)) s)) s.

(** ** Integers *)

Definition read_neg (s : bytes) : bool * bytes :=
  match s with
  | c :: s' =>
      if c =? b# "-" then (true, s')
      else if c =? b# "+" then (false, s')
      else (false, s)
  | [] => (false, s)
  end.

(** The digit loop: [i = i.checked_mul(base)?.checked_add(d)?] on [u64] *)
Fixpoint read_digits (from : byte -> option byte) (base : Z) (s : bytes) (i : Z)
  : option Z :=
  match s with
  | [] => Some i
  | c :: s =>
      d ← from c;
      i ← checked u64 (i * base);
      i ← checked u64 (i + d);
      read_digits from base s i
  end.

(** The final sign and range step shared by both readers *)
Definition finish_integer (is_neg : bool) (i : Z) : option Z :=
  if is_neg then
    (if i <=? int_max i64 then Some (- i)
     else if i =? int_max i64 + 1 then Some (int_min i64)
     else None)
  else checked i64 i.

Definition read_dec_integer (s : bytes) : option Z :=
  let '(is_neg, s) := read_neg s in
  match s with
  | [] => None
  | _ => i ← read_digits from_digit 10 s 0; finish_integer is_neg i
  end.

(** [0x] or [0X] followed by at least one byte *)
Definition hex_prefixed (s : bytes) : option bytes :=
  match s with
  | c0 :: c1 :: (_ :: _) =>
      if (c0 =? b# "0") && ((c1 =? b# "x") || (c1 =? b# "X")) then Some (drop 2 s)
      else None
  | _ => None
  end.

Definition read_hex_integer (s : bytes) : option Z :=
  let '(is_neg, s) := read_neg s in
  s ← hex_prefixed s;
  i ← read_digits from_hex_digit 16 s 0;
  finish_integer is_neg i.

Definition read_integer (s : bytes) : option Z :=
  match read_hex_integer s with
  | Some i => Some i
  | None => read_dec_integer s
  end.

(** ** Floats *)

Definition iexp2 (exp : Z) : f64 := Z.shiftl (exp + 1023) 52.

(** [val * 2^exp] by bit manipulation.  [orig_exp] and [val] are updated for a
    subnormal input, [mantissa] is not. *)
Definition ldexp (val : f64) (exp : Z) : f64 :=
  let orig_exp := F64.exp_field val in
  let mantissa := F64.mant_field val in
  let finish (val : f64) (orig_exp : Z) : f64 :=
    let new_exp := saturating i32 (orig_exp + exp) in
    if 2047 <=? new_exp then F64.copysign F64.INFINITY val
    else if new_exp <=? -54 then F64.copysign F64.ZERO val
    else if new_exp <=? 0 then
      F64.mul (F64.from_parts (F64.is_sign_negative val) (new_exp + 54) mantissa)
        (iexp2 (-54))
    else F64.from_parts (F64.is_sign_negative val) new_exp mantissa in
  if orig_exp =? 0 then
    if mantissa =? 0 then val
    else
      let val := F64.mul val (iexp2 54) in
      finish val (F64.exp_field val - 54)
  else if orig_exp =? 2047 then val
  else finish val orig_exp.

Definition MAX_SIGNIFICANT_DIGITS : Z := 30.

(** The mutable locals of the digit loop of [read_hex_float] *)
Record hex_float_state : Type := HexFloatState {
  significant_digits : Z;
  non_significant_digits : Z;
  found_dot : bool;
  base : f64;
  exp : Z
}.

(** The loop over [s[i..]]: [None] is the [return None] of a second dot or of
    an exponent overflow, otherwise the locals and the unread bytes. *)
Fixpoint hex_float_loop (st : hex_float_state) (s : bytes)
  : option (hex_float_state * bytes) :=
  match s with
  | [] => Some (st, [])
  | c :: s' =>
      if c =? b# "." then
        if found_dot st then None
        else hex_float_loop (HexFloatState (significant_digits st)
               (non_significant_digits st) true (base st) (exp st)) s'
      else
        match from_hex_digit c with
        | Some d =>
            '(sig, nonsig, base', exp') ←
              (if (significant_digits st =? 0) && (d =? 0) then
                 Some (significant_digits st, non_significant_digits st + 1, base st, exp st)
               else if significant_digits st <? MAX_SIGNIFICANT_DIGITS then
                 Some (significant_digits st + 1, non_significant_digits st,
                       F64.add (F64.mul (base st) (F64.from_int 16)) (F64.from_int d), exp st)
               else
                 exp' ← checked i32 (exp st + 4);
                 Some (significant_digits st, non_significant_digits st, base st, exp'));
            exp' ← (if found_dot st then checked i32 (exp' - 4) else Some exp');
            hex_float_loop (HexFloatState sig nonsig (found_dot st) base' exp') s'
        | None => Some (st, s)
        end
  end.

(** [exp1 = exp1.saturating_mul(10).saturating_add(d)] over the exponent digits *)
Fixpoint hex_exponent_loop (s : bytes) (exp1 : Z) : option Z :=
  match s with
  | [] => Some exp1
  | c :: s =>
      d ← from_digit c;
      hex_exponent_loop s (saturating i32 (saturating i32 (exp1 * 10) + d))
  end.

Definition read_hex_float (s : bytes) : option f64 :=
  let '(is_neg, s) := read_neg s in
  s ← hex_prefixed s;
  '(st, rest) ← hex_float_loop (HexFloatState 0 0 false F64.ZERO 0) s;
  if non_significant_digits st + significant_digits st =? 0 then None
  else
    exp' ← (match rest with
            | p :: (_ :: _) =>
                if (p =? b# "p") || (p =? b# "P") then
                  let '(exp_neg, exp_s) := read_neg (drop 1 rest) in
                  exp1 ← hex_exponent_loop exp_s 0;
                  Some (saturating i32 (exp st + (if exp_neg then - exp1 else exp1)))
                else None
            | [] => Some (exp st)
            | _ => None
            end);
    let base := if is_neg then F64.neg (base st) else base st in
    Some (ldexp base exp').

Definition read_dec_float (s : bytes) : option f64 :=
  s ← Utf8.from_utf8 s; ParseF64.from_str s.

Definition read_float (s : bytes) : option f64 :=
  match read_hex_float s with
  | Some f => Some f
  | None => read_dec_float s
  end.

(** [i64::to_string], what [Value::into_string] prints for an integer *)
Fixpoint print_digits (fuel : nat) (n : Z) (acc : bytes) : bytes :=
  match fuel with
  | O => acc
  | S fuel =>
      let acc := b# "0" + n mod 10 :: acc in
      if n / 10 =? 0 then acc else print_digits fuel (n / 10) acc
  end.
Definition i64_to_string (i : Z) : bytes :=
  if i <? 0 then b# "-" :: print_digits 19 (- i) [] else print_digits 19 i [].

(** ** Specification of the integer readers *)

Definition digits_value (base : Z) (ds : list Z) (i : Z) : Z :=
  foldl (fun i d => i * base + d) i ds.

(** What reading an integer means: the digits, their value, the sign and the
    range of [i64], with no intermediate overflow. *)
Definition integer_spec (from : byte -> option byte) (base : Z) (is_neg : bool)
    (s : bytes) : option Z :=
  ds ← mapM from s;
  checked i64 (if is_neg then - digits_value base ds 0 else digits_value base ds 0).

Lemma from_digit_range c d : from_digit c = Some d -> 0 <= d < 10.
Proof. unfold from_digit. case_bool; [|done]. bool_to_prop. intros [= <-]. lia. Qed.

Lemma from_hex_digit_range c d : from_hex_digit c = Some d -> 0 <= d < 16.
Proof.
  unfold from_hex_digit. repeat case_bool; try done; bool_to_prop;
    intros [= <-]; lia.
Qed.

Lemma digits_value_mono base ds i :
  1 <= base -> 0 <= i -> Forall (fun d => 0 <= d) ds -> i <= digits_value base ds i.
Proof.
  intros Hb. revert i. unfold digits_value. induction ds as [|d ds IH]; intros i Hi Hds; cbn; [lia|].
  apply Forall_cons in Hds as [Hd Hds].
  specialize (IH (i * base + d) ltac:(nia) Hds). nia.
Qed.

Section read_digits.
Context (from : byte -> option byte) (base : Z).
Hypothesis base_pos : 1 <= base.
Hypothesis from_nonneg : forall c d, from c = Some d -> 0 <= d.

Lemma mapM_nonneg s ds : mapM from s = Some ds -> Forall (fun d => 0 <= d) ds.
Proof.
  intros Hm. apply mapM_Some in Hm. induction Hm; constructor; eauto.
Qed.

(** The checked loop computes the exact value, and fails exactly on a bad
    byte or when that value does not fit [u64]. *)
Lemma read_digits_spec s i : in_int u64 i ->
  read_digits from base s i = (ds ← mapM from s; checked u64 (digits_value base ds i)).
Proof.
  revert i. induction s as [|c s IH]; intros i Hi; cbn [read_digits mapM].
  { cbn. by rewrite checked_in. }
  destruct (from c) as [d|] eqn:Hc; cbn; [|done].
  assert (Hd := from_nonneg _ _ Hc).
  assert (Hbig : ~ in_int u64 (i * base + d) ->
    (ds ← mapM from s; checked u64 (digits_value base (d :: ds) i)) = None).
  { intros Hout. destruct (mapM from s) as [ds|] eqn:Hds; cbn; [|done].
    apply checked_None. pose proof (mapM_nonneg _ _ Hds) as Hf.
    pose proof (digits_value_mono base ds (i * base + d) base_pos
      ltac:(revert Hi; unfold_ints; nia) Hf) as Hm.
    unfold digits_value in Hm. revert Hi Hout. cbn. unfold_ints. nia. }
  destruct (decide (in_int u64 (i * base + d))) as [Hin|Hout].
  - rewrite (checked_in _ (i * base)) by (revert Hi Hin; unfold_ints; nia).
    cbn. rewrite (checked_in _ (i * base + d)) by done. cbn.
    rewrite IH by done. by destruct (mapM from s).
  - transitivity (None : option Z).
    { destruct (checked u64 (i * base)) as [x|] eqn:Hx; cbn; [|done].
      apply checked_Some in Hx as [_ ->]. apply checked_None in Hout. by rewrite Hout. }
    rewrite <- (Hbig Hout). by destruct (mapM from s).
Qed.

Lemma finish_integer_spec is_neg v : 0 <= v ->
  (i ← checked u64 v; finish_integer is_neg i) =
  checked i64 (if is_neg then - v else v).
Proof.
  intros Hv. unfold finish_integer.
  destruct (checked u64 v) as [i|] eqn:Hu; cbn [mbind option_bind].
  - apply checked_Some in Hu as [Hin ->]. destruct is_neg; [|done].
    destruct (Z.leb_spec v (int_max i64)).
    { symmetry. apply checked_in. revert H Hv. int_lia. }
    destruct (Z.eqb_spec v (int_max i64 + 1)) as [->|].
    { symmetry. reflexivity. }
    symmetry. apply checked_None. int_lia.
  - symmetry. apply checked_None. apply checked_None in Hu.
    destruct is_neg; int_lia.
Qed.

Lemma read_and_finish is_neg s :
  (i ← read_digits from base s 0; finish_integer is_neg i) =
  integer_spec from base is_neg s.
Proof.
  rewrite read_digits_spec by int_lia. unfold integer_spec.
  destruct (mapM from s) as [ds|] eqn:Hds; cbn; [|done].
  apply finish_integer_spec.
  apply digits_value_mono; [done|lia|]. by eapply mapM_nonneg.
Qed.
End read_digits.

Lemma digits_value_app base ds1 ds2 i :
  digits_value base (ds1 ++ ds2) i = digits_value base ds2 (digits_value base ds1 i).
Proof. apply foldl_app. Qed.

Lemma from_digit_of d : 0 <= d < 10 -> from_digit (b# "0" + d) = Some d.
Proof.
  intros Hd. unfold from_digit. rewrite (proj2 (Z.leb_le _ _)) by lia.
  rewrite (proj2 (Z.leb_le _ _)) by lia. cbn. f_equal. lia.
Qed.

(** [print_digits] prepends a non-empty run of digits whose value is [n]. *)
Lemma print_digits_spec fuel n acc : 0 <= n < 10 ^ Z.of_nat fuel -> fuel <> O ->
  exists bs ds, print_digits fuel n acc = bs ++ acc /\ bs <> [] /\
    mapM from_digit bs = Some ds /\ digits_value 10 ds 0 = n.
Proof.
  revert n acc. induction fuel as [|fuel IH]; intros n acc Hn Hf; [done|].
  cbn [print_digits]. assert (Hr := Z.mod_pos_bound n 10 ltac:(lia)).
  assert (He := Z_div_mod_eq_full n 10).
  destruct (Z.eqb_spec (n / 10) 0) as [Hz|Hz].
  - exists [b# "0" + n mod 10], [n mod 10]. split; [done|]. split; [done|]. split.
    + cbn. by rewrite from_digit_of.
    + cbn. lia.
  - rewrite Nat2Z.inj_succ, Z.pow_succ_r in Hn by lia.
    assert (0 <= n / 10 < 10 ^ Z.of_nat fuel) as Hq by lia.
    destruct (IH (n / 10) (b# "0" + n mod 10 :: acc) Hq) as (bs & ds & -> & _ & Hds & Hv).
    { intros ->. cbn in Hq. lia. }
    exists (bs ++ [b# "0" + n mod 10]), (ds ++ [n mod 10]).
    rewrite <- app_assoc. split; [done|]. split; [by destruct bs|].
    split.
    { apply mapM_app_Some; [done|]. cbn. by rewrite from_digit_of. }
    rewrite digits_value_app, Hv. cbn. lia.
Qed.

Lemma is_digit_spec c : is_digit c = true <-> 48 <= c <= 57.
Proof.
  unfold is_digit, from_digit.
  destruct (Z.leb_spec 48 c), (Z.leb_spec c 57); cbn; split; (done || lia).
Qed.

Lemma read_neg_digit c s : is_digit c = true -> read_neg (c :: s) = (false, c :: s).
Proof.
  rewrite is_digit_spec. unfold read_neg. intros Hc.
  destruct (Z.eqb_spec c 45); [lia|]. by destruct (Z.eqb_spec c 43); [lia|].
Qed.

Lemma hex_prefixed_digits s : Forall (fun c => is_digit c = true) s ->
  hex_prefixed s = None.
Proof.
  intros Hs. destruct s as [|c0 [|c1 [|c2 s]]]; try done.
  apply Forall_cons in Hs as [_ Hs]. apply Forall_cons in Hs as [H1 _].
  apply is_digit_spec in H1. cbn.
  destruct (Z.eqb_spec c1 120); [lia|]. destruct (Z.eqb_spec c1 88); [lia|].
  by rewrite andb_false_r.
Qed.

Lemma mapM_is_digit s ds : mapM from_digit s = Some ds -> Forall (fun c => is_digit c = true) s.
Proof.
  intros Hm. apply mapM_Some in Hm. induction Hm as [|c d s ds Hc]; constructor; [|done].
  unfold is_digit. by rewrite Hc.
Qed.

Lemma position_split p s :
  Forall (fun c => p c = false) s /\ position p s = None \/
  exists pre c post, s = pre ++ c :: post /\ p c = true /\
    Forall (fun c => p c = false) pre /\ position p s = Some (length pre).
Proof.
  induction s as [|c s IH]; cbn; [by left|].
  destruct (p c) eqn:Hc; [right; by exists [], c, s|].
  destruct IH as [[Hall ->]|(pre & c' & post & -> & Hc' & Hpre & ->)]; cbn.
  - left. by split; [constructor|].
  - right. exists (c :: pre), c', post. auto.
Qed.

(** ** Properties *)

(** Trimming removes the white space at both ends and nothing else. *)
Lemma trim_whitespace_spec (s : bytes) : exists pre post,
  s = pre ++ trim_whitespace s ++ post /\
  Forall (fun c => is_space c = true) pre /\ Forall (fun c => is_space c = true) post /\
  (forall c, head (trim_whitespace s) = Some c -> is_space c = false) /\
  (forall c, last (trim_whitespace s) = Some c -> is_space c = false).
Proof.
  unfold trim_whitespace. set (p := fun c => negb (is_space c)).
  assert (Hp : forall l, Forall (fun c => p c = false) l -> Forall (fun c => is_space c = true) l).
  { intros l Hl. eapply Forall_impl; [exact Hl|]. intros c. apply negb_false_iff. }
  destruct (position_split p s) as [[Hall ->]|(pre & c & post & -> & Hc & Hpre & ->)]; cbn [default].
  { exists s, []. cbn. rewrite drop_all, !take_nil. cbn. rewrite app_nil_r.
    split; [done|]. split; [by apply Hp|]. by split. }
  replace (drop _ (pre ++ c :: post)) with (c :: post) by (symmetry; apply drop_app_length).
  unfold rposition.
  apply negb_true_iff in Hc as Hc'.
  destruct (position_split p (rev (c :: post))) as [[Hall _]|(pre' & d & post' & Hr & Hd & Hpre' & ->)].
  { rewrite Forall_forall in Hall. specialize (Hall c).
    rewrite Hall in Hc; [done|]. apply list_elem_of_In, in_rev. rewrite rev_involutive. by left. }
  apply (f_equal (@rev Z)) in Hr. rewrite rev_involutive, rev_app_distr in Hr. cbn [rev] in Hr.
  replace (take _ (c :: post)) with (rev post' ++ [d]).
  2:{ symmetry. rewrite Hr, length_app, length_rev. cbn -[take length app rev].
      replace (S _) with (length (rev post' ++ [d])) by (rewrite length_app; cbn; lia).
      apply take_app_length. }
  exists pre, (rev pre').
  rewrite Hr. split; [done|]. split; [by apply Hp|]. split.
  { apply Hp, Forall_rev. done. }
  split.
  - intros e. assert (head (rev post' ++ [d]) = Some c) as ->; [|by intros [= <-]].
    apply (f_equal head) in Hr. cbn in Hr. rewrite Hr.
    by destruct (rev post').
  - intros e. rewrite last_snoc. intros [= <-]. by apply negb_true_iff.
Qed.

(** [ldexp] on a normal number multiplies by [2^exp] exactly whenever the
    result is normal. *)
Theorem ldexp_normal (val : f64) (exp : Z) :
  0 < F64.exp_field val < 2047 -> 0 < F64.exp_field val + exp < 2047 ->
  F64.to_sf (ldexp val exp) =
    F64.normal_sf (F64.is_sign_negative val) (F64.exp_field val + exp) (F64.mant_field val).
Proof.
  intros Hn Hr. unfold ldexp.
  rewrite (proj2 (Z.eqb_neq _ _)) by lia. rewrite (proj2 (Z.eqb_neq _ _)) by lia.
  rewrite saturating_small by int_lia.
  rewrite (proj2 (Z.leb_gt _ _)) by lia. rewrite !(proj2 (Z.leb_gt _ _)) by lia.
  destruct (F64.fields_bounds val) as [_ Hm].
  destruct (F64.from_parts_fields (F64.is_sign_negative val) (F64.exp_field val + exp)
    (F64.mant_field val) ltac:(lia) Hm) as (Hs & He & Hm').
  rewrite F64.to_sf_normal by (rewrite He; lia). by rewrite Hs, He, Hm'.
Qed.

Lemma ldexp_normal_witness :
  F64.to_sf (ldexp (F64.from_int 3) 4) = F64.normal_sf false 1028 (2 ^ 51).
Proof. apply (ldexp_normal (F64.from_int 3) 4); vm_compute; split; reflexivity. Defined.

(** On a subnormal input [ldexp] keeps the mantissa field of the unscaled
    value, so it is wrong even for exponent 0: 3 * 2^-1074 becomes 2 * 2^-1074. *)
Theorem ldexp_subnormal_wrong :
  F64.to_sf 3 = S754_finite false 3 (-1074) /\
  F64.to_sf (ldexp 3 0) = S754_finite false 2 (-1074).
Proof. split; vm_compute; reflexivity. Qed.

(** [read_dec_integer] and [read_hex_integer] are exact: the [u64] accumulation
    never changes the answer. *)
Lemma read_dec_integer_eq (s : bytes) :
  read_dec_integer s =
    let '(neg, ds) := read_neg s in
    match ds with [] => None | _ => integer_spec from_digit 10 neg ds end.
Proof.
  unfold read_dec_integer. destruct (read_neg s) as [neg [|c ds]]; [done|].
  apply read_and_finish; [lia|]. intros ?? ?%from_digit_range. lia.
Qed.

Lemma read_hex_integer_eq (s : bytes) :
  read_hex_integer s =
    let '(neg, s) := read_neg s in
    ds ← hex_prefixed s; integer_spec from_hex_digit 16 neg ds.
Proof.
  unfold read_hex_integer. destruct (read_neg s) as [neg s'].
  destruct (hex_prefixed s') as [ds|]; cbn [mbind option_bind]; [|done].
  apply read_and_finish; [lia|]. intros ?? ?%from_hex_digit_range. lia.
Qed.

(** [read_integer] is exact: after the sign, a [0x] prefix followed by
    hexadecimal digits denotes their base-16 value, otherwise a non-empty run of
    decimal digits their base-10 value, and the result is that signed value when
    it is an [i64] and [None] in every other case. *)
Theorem read_integer_exact (s : bytes) :
  read_integer s =
    let '(neg, ds) := read_neg s in
    match (hs ← hex_prefixed ds; integer_spec from_hex_digit 16 neg hs) with
    | Some i => Some i
    | None => match ds with [] => None | _ => integer_spec from_digit 10 neg ds end
    end.
Proof.
  unfold read_integer. rewrite read_hex_integer_eq, read_dec_integer_eq.
  by destruct (read_neg s).
Qed.

(** A printed non-negative integer is a run of digits of its value. *)
Lemma i64_to_string_digits i : 0 <= i -> in_int i64 i ->
  exists bs ds, i64_to_string i = bs /\ bs <> [] /\ mapM from_digit bs = Some ds /\
    digits_value 10 ds 0 = i.
Proof.
  intros Hpos Hi. unfold i64_to_string. rewrite (proj2 (Z.ltb_ge _ _)) by done.
  destruct (print_digits_spec 19 i []) as (bs & ds & -> & Hne & Hds & Hv);
    [change (10 ^ Z.of_nat 19) with 10000000000000000000; int_lia|done|].
  rewrite app_nil_r. by exists bs, ds.
Qed.

Lemma read_dec_integer_i64 i : 0 <= i -> in_int i64 i ->
  read_dec_integer (i64_to_string i) = Some i.
Proof.
  intros Hpos Hi. destruct (i64_to_string_digits i) as (bs & ds & -> & Hne & Hds & Hv);
    [done..|]. pose proof (mapM_is_digit _ _ Hds) as Hdig. rewrite read_dec_integer_eq.
  destruct bs as [|c bs]; [done|]. rewrite read_neg_digit by (by inversion Hdig).
  unfold integer_spec. rewrite Hds. cbn -[checked]. by rewrite Hv, checked_in.
Qed.

(** [tonumber(tostring(i))] over the whole range of [i64] *)
Lemma tostring_read_integer (i : Z) : in_int i64 i ->
  read_integer (i64_to_string i) = Some i.
Proof.
  intros Hi. unfold i64_to_string.
  assert (Hb : forall n, in_int i64 i -> n = Z.abs i -> 0 <= n < 10 ^ Z.of_nat 19)
    by (intros n Hn ->; change (10 ^ Z.of_nat 19) with 10000000000000000000; int_lia).
  destruct (Z.ltb_spec i 0) as [Hneg|Hpos].
  - destruct (print_digits_spec 19 (- i) []) as (bs & ds & -> & Hne & Hds & Hv);
      [apply Hb; [done|lia]|done|]. rewrite app_nil_r.
    unfold read_integer. rewrite read_hex_integer_eq, read_dec_integer_eq.
    cbn. rewrite (hex_prefixed_digits bs) by (by eapply mapM_is_digit). cbn.
    destruct bs as [|c bs]; [done|]. unfold integer_spec. rewrite Hds. cbn -[checked].
    rewrite Hv, checked_in by (rewrite Z.opp_involutive; done). f_equal. lia.
  - destruct (print_digits_spec 19 i []) as (bs & ds & -> & Hne & Hds & Hv);
      [apply Hb; [done|lia]|done|]. rewrite app_nil_r.
    pose proof (mapM_is_digit _ _ Hds) as Hdig.
    unfold read_integer. rewrite read_hex_integer_eq, read_dec_integer_eq.
    destruct bs as [|c bs]; [done|]. rewrite read_neg_digit by (by inversion Hdig).
    rewrite hex_prefixed_digits by done. cbn [mbind option_bind].
    unfold integer_spec. rewrite Hds. cbn -[checked]. by rewrite Hv, checked_in.
Qed.

(** A printed integer begins and ends with a byte that is not white space. *)
Lemma i64_to_string_no_space i : in_int i64 i ->
  i64_to_string i <> [] /\ Forall (fun c => is_space c = false) (i64_to_string i).
Proof.
  intros Hi.
  assert (Hdig : forall n, 0 <= n <= 9223372036854775808 ->
    print_digits 19 n [] <> [] /\ Forall (fun c => is_space c = false) (print_digits 19 n [])).
  { intros n Hn. destruct (print_digits_spec 19 n []) as (bs & ds & -> & Hne & Hds & _);
      [change (10 ^ Z.of_nat 19) with 10000000000000000000; lia|done|].
    rewrite app_nil_r. split; [done|]. apply mapM_is_digit in Hds.
    eapply Forall_impl; [exact Hds|]. intros c Hc%is_digit_spec.
    unfold is_space, is_newline, TAB, VERTICAL_TAB, FORM_FEED, NL, CR.
    by rewrite !(proj2 (Z.eqb_neq _ _)) by lia. }
  unfold i64_to_string. destruct (Z.ltb_spec i 0).
  - destruct (Hdig (- i)) as [_ Hd]; [int_lia|]. by split; [|constructor].
  - apply Hdig. int_lia.
Qed.
End StringUtils.
