(* ===== verification/Lexer.v ===== *)
(** * The lexer: [compiler/lexer.rs] and [compiler/interning.rs]

    Bytes in, tokens out.  The lexer state is explicit; a step may return a value,
    return a [LexError], panic (a failed [assert!], [unwrap] or [unreachable!]) or
    exhaust the bound given to its loop.  [LexerFacts] proves that the last two
    never happen. *)

From S2P Require Import Prelude Float64 Utf8 StringUtils.
Import StringUtils.

(** ** String interning

    The lexer is generic in the interner; what it relies on is that the interned
    string reads back as the bytes it was made from. *)
Class StringInterner : Type := {
  InternerState : Type;
  IString : Type;
  intern : InternerState -> bytes -> InternerState * IString;
  as_ref : IString -> bytes;
  intern_as_ref : forall st s, as_ref (snd (intern st s)) = s
}.

(** [BasicInterner(HashSet<Rc<[u8]>>)]: an already present string is returned,
    a new one is inserted. *)
Definition basic_intern (st : gset (list Z)) (s : bytes) : gset (list Z) * list Z :=
  if decide (s ∈ st) then (st, s) else ({[s]} ∪ st, s).

#[export] Program Instance BasicInterner : StringInterner := {|
  InternerState := gset (list Z);
  IString := list Z;
  intern := basic_intern;
  as_ref := fun s => s
|}.
Next Obligation. intros st s. unfold basic_intern. by case_decide. Qed.

(** ** Tokens and errors *)

Inductive Token (S : Type) : Type :=
  | Break | Do | Else | ElseIf | End | Function | Goto | If | In | Local | Nil | For
  | While | Repeat | Until | Return | Then | True_ | False_ | Not | And | Or
  | Minus | Add | Mul | Div | IDiv | Pow | Mod | Len | BitNotXor | BitAnd | BitOr
  | ShiftRight | ShiftLeft | Concat | Dots | Assign | LessThan | LessEqual
  | GreaterThan | GreaterEqual | Equal | NotEqual | Dot | SemiColon | Colon
  | DoubleColon | Comma | LeftParen | RightParen | LeftBracket | RightBracket
  | LeftBrace | RightBrace
  | Integer (i : Z)
  | Float (f : f64)
  | Name (s : S)
  | String (s : S).

Arguments Break {S}. Arguments Do {S}. Arguments Else {S}. Arguments ElseIf {S}.
Arguments End {S}. Arguments Function {S}. Arguments Goto {S}. Arguments If {S}.
Arguments In {S}. Arguments Local {S}. Arguments Nil {S}. Arguments For {S}.
Arguments While {S}. Arguments Repeat {S}. Arguments Until {S}. Arguments Return {S}.
Arguments Then {S}. Arguments True_ {S}. Arguments False_ {S}. Arguments Not {S}.
Arguments And {S}. Arguments Or {S}. Arguments Minus {S}. Arguments Add {S}.
Arguments Mul {S}. Arguments Div {S}. Arguments IDiv {S}. Arguments Pow {S}.
Arguments Mod {S}. Arguments Len {S}. Arguments BitNotXor {S}. Arguments BitAnd {S}.
Arguments BitOr {S}. Arguments ShiftRight {S}. Arguments ShiftLeft {S}.
Arguments Concat {S}. Arguments Dots {S}. Arguments Assign {S}. Arguments LessThan {S}.
Arguments LessEqual {S}. Arguments GreaterThan {S}. Arguments GreaterEqual {S}.
Arguments Equal {S}. Arguments NotEqual {S}. Arguments Dot {S}. Arguments SemiColon {S}.
Arguments Colon {S}. Arguments DoubleColon {S}. Arguments Comma {S}.
Arguments LeftParen {S}. Arguments RightParen {S}. Arguments LeftBracket {S}.
Arguments RightBracket {S}. Arguments LeftBrace {S}. Arguments RightBrace {S}.
Arguments Integer {S} i. Arguments Float {S} f. Arguments Name {S} s. Arguments String {S} s.

Inductive LexError : Type :=
  | UnfinishedShortString (c : byte)
  | UnexpectedCharacter (c : byte)
  | HexDigitExpected
  | EscapeUnicodeStart
  | EscapeUnicodeEnd
  | EscapeUnicodeInvalid
  | EscapeDecimalTooLarge
  | InvalidEscape
  | InvalidLongStringDelimiter
  | UnfinishedLongString
  | BadNumber.

Definition get_char_token {S} (c : byte) : option (Token S) :=
  if c =? b# "-" then Some Minus
  else if c =? b# "+" then Some Add
  else if c =? b# "*" then Some Mul
  else if c =? b# "^" then Some Pow
  else if c =? b# "%" then Some Mod
  else if c =? b# "&" then Some BitAnd
  else if c =? b# "|" then Some BitOr
  else if c =? b# "," then Some Comma
  else if c =? b# ";" then Some SemiColon
  else if c =? b# "#" then Some Len
  else if c =? b# "(" then Some LeftParen
  else if c =? b# ")" then Some RightParen
  else if c =? b# "]" then Some RightBracket
  else if c =? b# "{" then Some LeftBrace
  else if c =? b# "}" then Some RightBrace
  else None.

(** The reserved words, in the order of the match arms *)
Definition reserved_words {S} : list (bytes * Token S) :=
  [(bs# "break", Break); (bs# "do", Do); (bs# "else", Else); (bs# "elseif", ElseIf);
   (bs# "end", End); (bs# "function", Function); (bs# "goto", Goto); (bs# "if", If);
   (bs# "in", In); (bs# "local", Local); (bs# "nil", Nil); (bs# "for", For);
   (bs# "while", While); (bs# "repeat", Repeat); (bs# "until", Until);
   (bs# "return", Return); (bs# "then", Then); (bs# "true", True_);
   (bs# "false", False_); (bs# "not", Not); (bs# "and", And); (bs# "or", Or)].

Fixpoint assoc_bytes {A} (word : bytes) (l : list (bytes * A)) : option A :=
  match l with
  | [] => None
  | (k, v) :: l => if bool_decide (word = k) then Some v else assoc_bytes word l
  end.

Definition get_reserved_word_token {S} (word : bytes) : option (Token S) :=
  assoc_bytes word reserved_words.

Module Lexer.
Section Lexer.
Context `{BuildProfile} `{StringInterner}.

Abbreviation token := (Token IString).

(** ** State and the lexer monad *)

Record lexer : Type := mk_lexer {
  source : bytes;
  interner : InternerState;
  peek_count : nat;
  string_buffer : bytes;
  line_number : Z
}.

Definition new (source : bytes) (interner : InternerState) : lexer :=
  mk_lexer source interner 0 [] 0.

Inductive res (A : Type) : Type :=
  | Done (a : A) (s : lexer)
  | Fail (e : LexError) (s : lexer)
  | Panicked
  | OutOfFuel.
Arguments Done {A} a s.
Arguments Fail {A} e s.
Arguments Panicked {A}.
Arguments OutOfFuel {A}.

Definition lexM (A : Type) : Type := lexer -> res A.

#[global] Instance lexM_ret : MRet lexM := fun A a s => Done a s.
#[global] Instance lexM_bind : MBind lexM := fun A B f m s =>
  match m s with
  | Done a s => f a s
  | Fail e s => Fail e s
  | Panicked => Panicked
  | OutOfFuel => OutOfFuel
  end.

Definition err {A} (e : LexError) : lexM A := fun s => Fail e s.
Definition panic {A} : lexM A := fun _ => Panicked.
Definition unwrap {A} (o : option A) : lexM A :=
  match o with Some a => mret a | None => panic end.
Definition ok_or {A} (o : option A) (e : LexError) : lexM A :=
  match o with Some a => mret a | None => err e end.
Definition assert (b : bool) : lexM unit := if b then mret tt else panic.
Definition arithM (t : int_ty) (z : Z) : lexM Z :=
  match arith t z with Ok z => mret z | Panic => panic end.

(** A loop whose body either continues with new locals or leaves with a value.
    Each loop of the lexer reads at least one byte per round, so the number of
    unread bytes bounds the rounds. *)
Fixpoint iter {A B} (fuel : nat) (body : A -> lexM (A + B)) (a : A) : lexM B :=
  match fuel with
  | O => fun _ => OutOfFuel
  | S fuel =>
      r ← body a;
      match r with inl a => iter fuel body a | inr b => mret b end
  end.
Definition loop {A B} (body : A -> lexM (A + B)) (a : A) : lexM B :=
  fun s => iter (S (length (source s))) body a s.

(** ** Reading bytes *)

Definition peek (n : nat) : lexM (option byte) := fun s =>
  Done (source s !! n)
    (mk_lexer (source s) (interner s)
       (Nat.min (Nat.max (n + 1) (peek_count s)) (length (source s)))
       (string_buffer s) (line_number s)).

Definition advance (n : nat) : lexM unit := fun s =>
  if (n <=? peek_count s)%nat then
    if (n <=? length (source s))%nat then
      Done tt (mk_lexer (drop n (source s)) (interner s) (peek_count s - n)
                 (string_buffer s) (line_number s))
    else Panicked
  else Panicked.

Definition push (c : byte) : lexM unit := fun s =>
  Done tt (mk_lexer (source s) (interner s) (peek_count s)
             (string_buffer s ++ [c]) (line_number s)).

Definition clear_buffer : lexM unit := fun s =>
  Done tt (mk_lexer (source s) (interner s) (peek_count s) [] (line_number s)).

Definition get_buffer : lexM bytes := fun s => Done (string_buffer s) s.

Definition take_string : lexM IString := fun s =>
  let '(st, str) := intern (interner s) (string_buffer s) in
  Done str (mk_lexer (source s) st (peek_count s) [] (line_number s)).

Definition reset (s : lexer) : lexer :=
  mk_lexer [] (interner s) 0 [] (line_number s).

Definition incr_line : lexM unit := fun s =>
  match arith u64 (line_number s + 1) with
  | Ok l => Done tt (mk_lexer (source s) (interner s) (peek_count s) (string_buffer s) l)
  | Panic => Panicked
  end.

Definition is_char (o : option byte) (c : byte) : bool :=
  match o with Some d => d =? c | None => false end.
Definition sat_char (p : byte -> bool) (o : option byte) : bool :=
  match o with Some d => p d | None => false end.

(** [while let Some(c) = self.peek(0)? { if p(c) { f(c); self.advance(1) } else break }] *)
Definition read_while (p : byte -> bool) (f : byte -> lexM unit) : lexM unit :=
  loop (fun _ : unit =>
    c ← peek 0;
    match c with
    | Some c => if p c then f c ;; advance 1 ;; mret (inl tt) else mret (inr tt)
    | None => mret (inr tt)
    end) tt.

(** [while self.peek(0)? == Some(b'=') { self.advance(1); n += 1 }] with [n: i32] *)
Definition count_equals : lexM Z :=
  loop (fun n : Z =>
    c ← peek 0;
    if is_char c (b# "=") then
      advance 1 ;; n ← arithM i32 (n + 1); mret (inl n)
    else mret (inr n)) 0.

(** ** Newlines and strings *)

Definition read_line_end (append_string : bool) : lexM unit :=
  newline ← peek 0;
  newline ← unwrap newline;
  assert (is_newline newline) ;;
  advance 1 ;;
  (if append_string then push NL else mret tt) ;;
  next_newline ← peek 0;
  (match next_newline with
   | Some n => if is_newline n && negb (n =? newline) then advance 1 else mret tt
   | None => mret tt
   end) ;;
  incr_line.

Definition push_all (l : bytes) : lexM unit :=
  foldr (fun c m => push c ;; m) (mret tt) l.

(** The [\u{XXX}] digits: [u = (u << 4) | h] on [u32] *)
Definition read_unicode_digits : lexM Z :=
  loop (fun u : Z =>
    c ← peek 0;
    match c with
    | Some c =>
        if c =? b# "}" then advance 1 ;; mret (inr u)
        else
          match from_hex_digit c with
          | Some h =>
              advance 1 ;; mret (inl (Z.lor (wrap u32 (Z.shiftl u 4)) h))
          | None => err EscapeUnicodeEnd
          end
    | None => err EscapeUnicodeEnd
    end) 0.

(** [for _ in 0..n]: up to [n] decimal digits into [u: u16] *)
Fixpoint read_decimal_escape (n : nat) (u : Z) : lexM Z :=
  match n with
  | O => mret u
  | S n =>
      c ← peek 0;
      match c ≫= from_digit with
      | Some d =>
          u ← arithM u16 (10 * u);
          u ← arithM u16 (u + d);
          advance 1 ;; read_decimal_escape n u
      | None => mret u
      end
  end.

(** The match on the byte after a backslash *)
Definition read_escape (start_quote : byte) : lexM unit :=
  c ← peek 0;
  c ← ok_or c (UnfinishedShortString start_quote);
  if c =? b# "a" then advance 1 ;; push ALERT_BEEP
  else if c =? b# "b" then advance 1 ;; push BACKSPACE
  else if c =? b# "f" then advance 1 ;; push FORM_FEED
  else if c =? b# "n" then advance 1 ;; push NL
  else if c =? b# "r" then advance 1 ;; push CR
  else if c =? b# "t" then advance 1 ;; push TAB
  else if c =? b# "v" then advance 1 ;; push VERTICAL_TAB
  else if c =? b# "\" then advance 1 ;; push (b# "\")
  else if c =? b# "'" then advance 1 ;; push (b# "'")
  else if c =? 34 then advance 1 ;; push 34
  else if is_newline c then read_line_end true
  else if c =? b# "x" then
    advance 1 ;;
    first ← peek 0;
    first ← ok_or (first ≫= from_hex_digit) HexDigitExpected;
    second ← peek 1;
    second ← ok_or (second ≫= from_hex_digit) HexDigitExpected;
    push (Z.lor (wrap u8 (Z.shiftl first 4)) second) ;;
    advance 2
  else if c =? b# "u" then
    brace ← peek 1;
    if negb (is_char brace (b# "{")) then err EscapeUnicodeStart
    else
      advance 2 ;;
      u ← read_unicode_digits;
      c ← ok_or (Utf8.from_u32 u) EscapeUnicodeInvalid;
      push_all (Utf8.encode_utf8 c)
  else if c =? b# "z" then
    advance 1 ;;
    loop (fun _ : unit =>
      c ← peek 0;
      match c with
      | Some c =>
          if is_newline c then read_line_end false ;; mret (inl tt)
          else if is_space c then advance 1 ;; mret (inl tt)
          else mret (inr tt)
      | None => mret (inr tt)
      end) tt
  else if is_digit c then
    u ← read_decimal_escape 3 0;
    if 255 <? u then err EscapeDecimalTooLarge else push (wrap u8 u)
  else err InvalidEscape.

Definition read_short_string : lexM unit :=
  start_quote ← peek 0;
  start_quote ← unwrap start_quote;
  assert ((start_quote =? b# "'") || (start_quote =? 34)) ;;
  advance 1 ;;
  clear_buffer ;;
  loop (fun _ : unit =>
    c ← peek 0;
    c ← ok_or c (UnfinishedShortString start_quote);
    if is_newline c then err (UnfinishedShortString start_quote)
    else
      advance 1 ;;
      if c =? b# "\" then read_escape start_quote ;; mret (inl tt)
      else if c =? start_quote then mret (inr tt)
      else push c ;; mret (inl tt)) tt.

(** [for _ in 0..n { self.string_buffer.push(b'=') }] *)
Definition push_equals (n : Z) : lexM unit :=
  push_all (replicate (Z.to_nat n) (b# "=")).

Definition when (b : bool) (m : lexM unit) : lexM unit := if b then m else mret tt.

Definition read_long_string (into_string : bool) : lexM unit :=
  c ← peek 0;
  c ← unwrap c;
  assert (c =? b# "[") ;;
  advance 1 ;;
  when into_string clear_buffer ;;
  open_sep_length ← count_equals;
  c ← peek 0;
  if negb (is_char c (b# "[")) then err InvalidLongStringDelimiter
  else
    advance 1 ;;
    c ← peek 0;
    when (sat_char is_newline c) (read_line_end false) ;;
    loop (fun _ : unit =>
      c ← peek 0;
      c ← ok_or c UnfinishedLongString;
      if is_newline c then read_line_end into_string ;; mret (inl tt)
      else if c =? b# "]" then
        advance 1 ;;
        close_sep_length ← count_equals;
        c ← (if open_sep_length =? close_sep_length then peek 0 else mret None);
        if (open_sep_length =? close_sep_length) && is_char c (b# "]") then
          advance 1 ;; mret (inr tt)
        else
          when into_string (push (b# "]") ;; push_equals close_sep_length) ;;
          mret (inl tt)
      else
        when into_string (push c) ;; advance 1 ;; mret (inl tt)) tt.

(** ** Numerals *)

(** The optional exponent: its letter, a sign and digits; tells whether there
    was one. *)
Definition read_exponent (is_hex : bool) : lexM bool :=
  exp_begin ← peek 0;
  match exp_begin with
  | Some e =>
      if (is_hex && ((e =? b# "p") || (e =? b# "P")))
         || (negb is_hex && ((e =? b# "e") || (e =? b# "E"))) then
        push e ;; advance 1 ;;
        sign ← peek 0;
        (match sign with
         | Some sign =>
             when ((sign =? b# "+") || (sign =? b# "-")) (push sign ;; advance 1)
         | None => mret tt
         end) ;;
        read_while is_digit push ;;
        mret true
      else mret false
  | None => mret false
  end.

(** Without dot and exponent an integer if it fits, otherwise a float *)
Definition finish_numeral (is_hex has_radix has_exp : bool) : lexM token :=
  buf ← get_buffer;
  let as_integer :=
    if negb has_exp && negb has_radix then
      match (if is_hex then read_hex_integer buf else None) with
      | Some i => Some i
      | None => read_dec_integer buf
      end
    else None in
  match as_integer with
  | Some i => mret (Integer i)
  | None =>
      f ← ok_or (if is_hex then read_hex_float buf else read_dec_float buf) BadNumber;
      mret (Float f)
  end.

Definition read_numeral : lexM token :=
  p1 ← peek 0;
  p1 ← unwrap p1;
  assert ((p1 =? b# ".") || is_digit p1) ;;
  clear_buffer ;;
  p2 ← peek 1;
  let is_hex := (p1 =? b# "0") && (is_char p2 (b# "x") || is_char p2 (b# "X")) in
  when is_hex (push p1 ;; p2 ← unwrap p2; push p2 ;; advance 2) ;;
  has_radix ← loop (fun has_radix : bool =>
    c ← peek 0;
    match c with
    | Some c =>
        if (c =? b# ".") && negb has_radix then push c ;; advance 1 ;; mret (inl true)
        else if (negb is_hex && is_digit c) || (is_hex && is_hex_digit c) then
          push c ;; advance 1 ;; mret (inl has_radix)
        else mret (inr has_radix)
    | None => mret (inr has_radix)
    end) false;
  has_exp ← read_exponent is_hex;
  finish_numeral is_hex has_radix has_exp.

(** ** Whitespace, comments and tokens *)

Definition on_error_reset {A} (m : lexM A) : lexM A := fun s =>
  match m s with
  | Fail e s => Fail e (reset s)
  | r => r
  end.

Definition is_blank (c : byte) : bool :=
  (c =? b# " ") || (c =? TAB) || (c =? VERTICAL_TAB) || (c =? FORM_FEED).

Definition skip_whitespace : lexM unit :=
  on_error_reset (loop (fun _ : unit =>
    c ← peek 0;
    match c with
    | Some c =>
        if is_blank c then advance 1 ;; mret (inl tt)
        else if is_newline c then read_line_end false ;; mret (inl tt)
        else if c =? b# "-" then
          c1 ← peek 1;
          if negb (is_char c1 (b# "-")) then mret (inr tt)
          else
            advance 2 ;;
            c0 ← peek 0;
            c1 ← peek 1;
            if is_char c0 (b# "[") && (is_char c1 (b# "=") || is_char c1 (b# "[")) then
              read_long_string false ;; mret (inl tt)
            else
              read_while (fun c => negb (is_newline c)) (fun _ => mret tt) ;;
              mret (inl tt)
        else mret (inr tt)
    | None => mret (inr tt)
    end) tt).

(** One byte of look-ahead: [yes] after [c2], [no] otherwise *)
Definition read_two (c2 : byte) (yes no : token) : lexM token :=
  advance 1 ;;
  next ← peek 0;
  if is_char next c2 then advance 1 ;; mret yes else mret no.
Definition read_three (c2 : byte) (t2 : token) (c3 : byte) (t3 no : token) : lexM token :=
  advance 1 ;;
  next ← peek 0;
  if is_char next c2 then advance 1 ;; mret t2
  else if is_char next c3 then advance 1 ;; mret t3
  else mret no.

Definition read_word (c : byte) : lexM token :=
  clear_buffer ;;
  push c ;;
  advance 1 ;;
  read_while (fun c => is_alpha c || is_digit c) push ;;
  buf ← get_buffer;
  match get_reserved_word_token buf with
  | Some t => mret t
  | None => s ← take_string; mret (Name s)
  end.

Definition do_read_token : lexM (option token) :=
  c ← peek 0;
  match c with
  | None => mret None
  | Some c =>
      t ← (if is_blank c || is_newline c then panic
      else if c =? b# "-" then
        c1 ← peek 1;
        if negb (is_char c1 (b# "-")) then advance 1 ;; mret Minus else panic
      else if c =? b# "[" then
        next ← peek 1;
        if is_char next (b# "=") || is_char next (b# "[") then
          read_long_string true ;; s ← take_string; mret (String s)
        else advance 1 ;; mret LeftBracket
      else if c =? b# "=" then read_two (b# "=") Equal Assign
      else if c =? b# "<" then read_three (b# "=") LessEqual (b# "<") ShiftLeft LessThan
      else if c =? b# ">" then
        read_three (b# "=") GreaterEqual (b# ">") ShiftRight GreaterThan
      else if c =? b# "/" then read_two (b# "/") IDiv Div
      else if c =? b# "~" then read_two (b# "=") NotEqual BitNotXor
      else if c =? b# ":" then read_two (b# ":") DoubleColon Colon
      else if (c =? 34) || (c =? b# "'") then
        read_short_string ;; s ← take_string; mret (String s)
      else if c =? b# "." then
        c1 ← peek 1;
        if is_char c1 (b# ".") then
          c2 ← peek 2;
          if is_char c2 (b# ".") then advance 3 ;; mret Dots
          else advance 2 ;; mret Concat
        else
          c1 ← peek 1;
          if sat_char is_digit c1 then read_numeral
          else advance 1 ;; mret Dot
      else if is_digit c then read_numeral
      else
        match get_char_token c with
        | Some t => advance 1 ;; mret t
        | None => if is_alpha c then read_word c else err (UnexpectedCharacter c)
        end);
      mret (Some t)
  end.

(** [Ok(Some(token))] is returned as it is, [Ok(None)] and errors after a reset. *)
Definition unless_token_reset (m : lexM (option token)) : lexM (option token) := fun s =>
  match m s with
  | Done None s => Done None (reset s)
  | Fail e s => Fail e (reset s)
  | r => r
  end.

Definition read_token : lexM (option token) :=
  skip_whitespace ;; unless_token_reset do_read_token.
End Lexer.

Arguments Done {_ A} a s.
Arguments Fail {_ A} e s.
Arguments Panicked {_ A}.
Arguments OutOfFuel {_ A}.
End Lexer.
