(* ===== verification/LexerFacts.v ===== *)
(** * Safety, termination and line counting of the lexer

    A weakest-precondition calculus for the lexer monad, a specification of each
    reading routine in it, and the theorems that follow: no step panics, no loop
    exhausts its bound, every token consumes input, and the line counter is the
    number of newline sequences read. *)

From S2P Require Import Prelude Float64 Utf8 StringUtils Lexer.
Import StringUtils Lexer.

(** Newline sequences of a text: [\n], [\r], [\n\r] and [\r\n] count once. *)
Fixpoint newlines (s : bytes) : Z :=
  match s with
  | [] => 0
  | c :: s' =>
      if is_newline c then
        match s' with
        | d :: s'' =>
            if is_newline d && negb (d =? c) then 1 + newlines s'' else 1 + newlines s'
        | [] => 1
        end
      else newlines s'
  end.

Section facts.
Context `{BuildProfile} `{StringInterner}.

(** What a state must satisfy for the lexer to run safely.  The first bound is
    that the reader never looks past the input, the second that a bracket of
    [i32] many equal signs cannot be written, the third that lines fit [u64]. *)
Record wf (s : lexer) : Prop := {
  wf_peek : (peek_count s <= length (source s))%nat;
  wf_len : Z.of_nat (length (source s)) < 2 ^ 31;
  wf_line : 0 <= line_number s;
  wf_lines : line_number s + newlines (source s) < 2 ^ 64
}.

(** [s'] is a well-formed state reached from [s] by reading a prefix of the
    input, with the lines of that prefix counted. *)
Record adv (s s' : lexer) : Prop := {
  adv_wf : wf s';
  adv_suffix : source s' `suffix_of` source s;
  adv_lines : line_number s' + newlines (source s') = line_number s + newlines (source s)
}.

Definition wp {A} (m : lexM A) (Q : A -> lexer -> Prop) (E : lexer -> Prop)
    (s : lexer) : Prop :=
  match m s with
  | Done a s' => Q a s'
  | Fail _ s' => E s'
  | Panicked | OutOfFuel => False
  end.

Lemma newlines_nonneg s : 0 <= newlines s.
Proof.
  induction s as [s IH] using (induction_ltof1 _ (@length Z)).
  unfold ltof in IH. destruct s as [|c [|d s]]; cbn; [lia|by case_bool|].
  pose proof (IH s ltac:(cbn; lia)). pose proof (IH (d :: s) ltac:(cbn; lia)) as Hd.
  cbn in Hd. repeat case_bool; lia.
Qed.

Lemma newlines_other c s : is_newline c = false -> newlines (c :: s) = newlines s.
Proof. intros Hc. cbn. by rewrite Hc. Qed.

Lemma adv_refl s : wf s -> adv s s.
Proof. by split. Qed.

Lemma adv_trans s1 s2 s3 : adv s1 s2 -> adv s2 s3 -> adv s1 s3.
Proof. intros [] []. split; [done | by etransitivity | lia]. Qed.

Lemma adv_length s s' : adv s s' -> (length (source s') <= length (source s))%nat.
Proof. intros [_ Hs _]. by apply suffix_length. Qed.

(** *** Rules *)

Lemma wp_ret {A} (a : A) Q E s : Q a s -> wp (mret a) Q E s.
Proof. done. Qed.

Lemma wp_err {A} e Q E s : E s -> wp (err (A := A) e) Q E s.
Proof. done. Qed.

Lemma wp_bind {A B} (m : lexM A) (f : A -> lexM B) Q E s :
  wp m (fun a => wp (f a) Q E) E s -> wp (m ≫= f) Q E s.
Proof. unfold wp, mbind, lexM_bind. by destruct (m s). Qed.

Lemma wp_mono {A} (m : lexM A) (Q Q' : A -> lexer -> Prop) (E E' : lexer -> Prop) s :
  wp m Q' E' s -> (forall a s', Q' a s' -> Q a s') -> (forall s', E' s' -> E s') ->
  wp m Q E s.
Proof. unfold wp. destruct (m s); naive_solver. Qed.

Lemma wp_ok_or {A} (o : option A) e (Q : A -> lexer -> Prop) E s :
  (forall a, o = Some a -> Q a s) -> (o = None -> E s) -> wp (ok_or o e) Q E s.
Proof. destruct o; intros HQ HE; [by apply HQ | by apply HE]. Qed.

Lemma wp_arith t z (Q : Z -> lexer -> Prop) E s :
  in_int t z -> Q z s -> wp (arithM t z) Q E s.
Proof. intros Hz HQ. unfold arithM. by rewrite arith_in. Qed.

Lemma wp_loop {A B} (I : A -> lexer -> Prop) (body : A -> lexM (A + B))
    (Q : B -> lexer -> Prop) E a s :
  (forall a s, I a s ->
     wp (body a) (fun r s' => match r with
       | inl a' => I a' s' /\ (length (source s') < length (source s))%nat
       | inr b => Q b s' end) E s) ->
  I a s -> wp (loop body a) Q E s.
Proof.
  intros Hbody. unfold loop.
  assert (Hiter : forall n a s, (length (source s) < n)%nat -> I a s ->
    wp (iter n body a) Q E s).
  { induction n as [|n IH]; intros a' s' Hn HI; [lia|].
    cbn [iter]. apply wp_bind. eapply wp_mono; [by apply Hbody| |done].
    intros [a''|b] s'' Hr; [|by apply wp_ret].
    destruct Hr as [HI'' Hlt]. apply IH; [lia|done]. }
  intros HI. exact (Hiter _ a s (Nat.lt_succ_diag_r _) HI).
Qed.

Lemma wp_peek s0 n Q E s : adv s0 s ->
  (forall s', adv s0 s' -> source s' = source s ->
     (Nat.min (n + 1) (length (source s)) <= peek_count s')%nat ->
     Q (source s !! n) s') ->
  wp (peek n) Q E s.
Proof.
  intros [[Hp Hl Hn Hs] Hsuf Hlines] HQ. apply HQ; cbn; [|done|lia].
  split; [split; cbn; (done || lia)|done|done].
Qed.

Lemma wp_advance s0 n Q E s : adv s0 s -> (n <= peek_count s)%nat ->
  newlines (drop n (source s)) = newlines (source s) ->
  (forall s', adv s0 s' -> source s' = drop n (source s) -> Q tt s') ->
  wp (advance n) Q E s.
Proof.
  intros [[Hp Hl Hn Hs] Hsuf Hlines] Hpc Hnl HQ. unfold wp, advance.
  rewrite (proj2 (Nat.leb_le _ _)) by done. rewrite (proj2 (Nat.leb_le _ _)) by lia.
  apply HQ; [|done]. split; cbn; [split; cbn; rewrite ?length_drop; lia| |lia].
  etransitivity; [apply suffix_drop|done].
Qed.

(** Steps that only touch the string buffer *)
Lemma adv_buffer s0 s s' : adv s0 s -> source s' = source s ->
  peek_count s' = peek_count s -> line_number s' = line_number s -> adv s0 s'.
Proof.
  intros [[Hp Hl Hn Hs] Hsuf Hlines] E1 E2 E3.
  split; [split|..]; rewrite ?E1, ?E2, ?E3; done.
Qed.

Lemma wp_push s0 c Q E s : adv s0 s ->
  (forall s', adv s0 s' -> source s' = source s -> peek_count s' = peek_count s -> Q tt s') ->
  wp (push c) Q E s.
Proof. intros Ha HQ. apply HQ; [by eapply adv_buffer|done|done]. Qed.

Lemma wp_clear s0 Q E s : adv s0 s ->
  (forall s', adv s0 s' -> source s' = source s -> peek_count s' = peek_count s -> Q tt s') ->
  wp clear_buffer Q E s.
Proof. intros Ha HQ. apply HQ; [by eapply adv_buffer|done|done]. Qed.

Lemma wp_take_string s0 Q E s : adv s0 s ->
  (forall i s', adv s0 s' -> source s' = source s -> Q i s') ->
  wp take_string Q E s.
Proof.
  intros Ha HQ. unfold wp, take_string. destruct (intern _ _) as [st str].
  apply HQ; [by eapply adv_buffer|done].
Qed.

Lemma wp_push_all s0 l (Q : unit -> lexer -> Prop) E s : adv s0 s ->
  (forall s', adv s0 s' -> source s' = source s -> peek_count s' = peek_count s -> Q tt s') ->
  wp (push_all l) Q E s.
Proof.
  revert s. induction l as [|c l IH]; intros s Ha HQ; cbn [push_all foldr].
  { by apply HQ. }
  apply wp_bind. eapply wp_push; [done|]. intros s1 H1 E1 P1.
  apply IH; [done|]. intros s2 H2 E2 P2. apply HQ; congruence || done.
Qed.

(** One step of symbolic execution.  The source of the current state must be
    known as an equation [source s = _] before reading from it. *)
Ltac lnorm :=
  cbn [lookup list_lookup skipn is_char sat_char unwrap ok_or when negb andb orb mbind
       option_bind] in *; rewrite ?drop_0 in *.
Ltac lstep :=
  lazymatch goal with
  | |- wp (mbind _ _) _ _ _ => apply wp_bind
  | |- wp (mret _) _ _ _ => apply wp_ret
  | |- wp (err _) _ _ _ => apply wp_err
  | |- wp (ok_or (Some _) _) _ _ _ => apply wp_ret
  | |- wp (ok_or None _) _ _ _ => apply wp_err
  | |- wp (unwrap (Some _)) _ _ _ => apply wp_ret
  | |- wp (assert true) _ _ _ => apply wp_ret
  | |- wp (assert (?x =? ?x)) _ _ _ => rewrite Z.eqb_refl; apply wp_ret
  | Hsrc : source ?s = _ |- wp (peek _) _ _ ?s =>
      eapply wp_peek; [eassumption|];
      let s' := fresh "s" in let Hs := fresh "Hs" in let Hp := fresh "Hp" in
      intros s' ? Hs Hp; rewrite Hsrc in Hs, Hp |- *; cbn [length] in Hp; lnorm
  | Hsrc : source ?s = _ |- wp (advance _) _ _ ?s =>
      eapply wp_advance; [eassumption|cbn [length] in *; lia| |];
      [solve [rewrite Hsrc; cbn [skipn]; rewrite ?drop_0; symmetry;
        repeat first [reflexivity | rewrite newlines_other by done]]|
       let s' := fresh "s" in let Hs := fresh "Hs" in
       intros s' ? Hs; rewrite Hsrc in Hs; lnorm]
  | Hsrc : source ?s = _ |- wp (push _) _ _ ?s =>
      eapply wp_push; [eassumption|];
      let s' := fresh "s" in let Hs := fresh "Hs" in let Hp := fresh "Hp" in
      intros s' ? Hs Hp; rewrite Hsrc in Hs; lnorm
  | Hsrc : source ?s = _ |- wp clear_buffer _ _ ?s =>
      eapply wp_clear; [eassumption|];
      let s' := fresh "s" in let Hs := fresh "Hs" in let Hp := fresh "Hp" in
      intros s' ? Hs Hp; rewrite Hsrc in Hs; lnorm
  end.
Ltac lsource s := destruct (source s) as [|? ?] eqn:?.

(** Bytes the lexer compares with are not newlines. *)
Lemma not_newline c : c <> 10 -> c <> 13 -> is_newline c = false.
Proof.
  unfold is_newline, NL, CR. intros.
  by rewrite (proj2 (Z.eqb_neq _ _)), (proj2 (Z.eqb_neq _ _)).
Qed.

Lemma digit_not_newline c : is_digit c = true -> is_newline c = false.
Proof. rewrite is_digit_spec. intros. apply not_newline; lia. Qed.

Lemma hex_digit_not_newline c h : from_hex_digit c = Some h -> is_newline c = false.
Proof.
  unfold from_hex_digit. intros Hc. apply not_newline; intros ->; discriminate.
Qed.

Lemma alpha_not_newline c : is_alpha c = true -> is_newline c = false.
Proof. intros Hc. apply not_newline; intros ->; discriminate. Qed.

Lemma blank_not_newline c : is_blank c = true -> is_newline c = false.
Proof. intros Hc. apply not_newline; intros ->; discriminate. Qed.

Definition shorter (s0 s : lexer) (A : Type) : A -> lexer -> Prop := fun _ s' =>
  adv s0 s' /\ (length (source s') < length (source s))%nat.

(** *** Specifications of the reading routines *)

Lemma read_line_end_spec s0 s b c r : adv s0 s -> source s = c :: r ->
  is_newline c = true -> wp (read_line_end b) (shorter s0 s unit) (adv s0) s.
Proof.
  intros [[Hp Hl Hn Hs] Hsuf Hlines] Hsrc Hc.
  destruct s as [src int pc buf line].
  cbn [source peek_count line_number length] in *. subst src.
  pose proof (newlines_nonneg r) as Hr0.
  assert (Hfin : forall src' buf' pc', (pc' <= length src')%nat ->
    src' `suffix_of` r -> newlines (c :: r) = 1 + newlines src' ->
    wp incr_line (shorter s0 (mk_lexer (c :: r) int pc buf line) unit) (adv s0)
      (mk_lexer src' int pc' buf' line)).
  { intros src' buf' pc' Hpc' Hsrc' Hnl. pose proof (newlines_nonneg src').
    pose proof (suffix_length _ _ Hsrc').
    unfold wp, incr_line. cbn [line_number].
    rewrite arith_in by (revert Hn Hs Hnl; int_lia).
    split; [|cbn; lia].
    split; [split; cbn [source peek_count line_number]; cbn [length] in Hl; lia| |
      cbn [source line_number]; lia].
    cbn. etransitivity; [exact Hsrc'|]. etransitivity; [|exact Hsuf]. by apply suffix_cons_r. }
  unfold read_line_end. apply wp_bind. cbn [wp peek lookup list_lookup source].
  apply wp_bind, wp_ret, wp_bind. rewrite Hc. apply wp_ret, wp_bind.
  unfold wp at 1, advance. cbn [peek_count source interner string_buffer line_number length drop].
  rewrite !(proj2 (Nat.leb_le _ _)) by lia.
  set (pc1 := (_ - 1)%nat). assert (pc1 <= length r)%nat by lia. clearbody pc1.
  apply wp_bind. assert (Hgo : forall buf', wp
    (next_newline ← peek 0;
     (match next_newline with
      | Some n => if is_newline n && negb (n =? c) then advance 1 else mret tt
      | None => mret tt
      end) ;; incr_line)
    (shorter s0 (mk_lexer (c :: r) int pc buf line) unit) (adv s0)
    (mk_lexer r int pc1 buf' line)).
  { intros buf'. apply wp_bind. cbn [wp peek lookup source]. apply wp_bind.
    cbn in Hfin. rewrite Hc in Hfin.
    destruct r as [|d r]; [apply wp_ret, Hfin; try done; cbn [length]; lia|].
    cbn [lookup list_lookup]. destruct (is_newline d && negb (d =? c)) eqn:Hd.
    - unfold wp at 1, advance.
      cbn [peek_count source interner string_buffer line_number length drop].
      rewrite !(proj2 (Nat.leb_le _ _)) by lia.
      change (drop 0 r) with r.
      apply Hfin; [cbn [length] in *; lia|by apply suffix_cons_r|done].
    - apply wp_ret, Hfin; [cbn [length]; lia|done|done]. }
  destruct b; apply Hgo.
Qed.

Lemma read_while_spec p f s0 s :
  (forall c, p c = true -> is_newline c = false) ->
  (forall c s, adv s0 s -> wp (f c) (fun _ s' => adv s0 s' /\ source s' = source s /\
     peek_count s' = peek_count s) (adv s0) s) ->
  adv s0 s ->
  wp (read_while p f) (fun _ s' => adv s0 s' /\ (length (source s') <= length (source s))%nat)
    (adv s0) s.
Proof.
  intros Hp Hf Ha.
  apply (wp_loop (fun _ s' => adv s0 s' /\ (length (source s') <= length (source s))%nat));
    [|done]. intros _ s1 [Ha1 Hl1]. lsource s1; repeat lstep; [by rewrite Hs|].
  destruct (p z) eqn:Hz; repeat lstep; [|rewrite Hs; auto].
  apply Hp in Hz.
  eapply wp_mono; [by apply Hf| |done]. intros _ t (Ha2 & E2 & P2).
  rewrite Hs in E2. repeat lstep. rewrite Hs0. cbn [length] in *. auto with lia.
Qed.

Lemma push_frame s0 c s : adv s0 s ->
  wp (push c) (fun _ s' => adv s0 s' /\ source s' = source s /\
    peek_count s' = peek_count s) (adv s0) s.
Proof. intros Ha. by eapply wp_push. Qed.

Lemma count_equals_spec s0 s : adv s0 s ->
  wp count_equals (fun n s' => adv s0 s' /\ (length (source s') <= length (source s))%nat)
    (adv s0) s.
Proof.
  intros Ha. apply (wp_loop (fun n s' => adv s0 s' /\ 0 <= n /\
    n + Z.of_nat (length (source s')) <= Z.of_nat (length (source s)))); [|auto with lia].
  intros n s1 (Ha1 & Hn & Hl). pose proof (wf_len _ (adv_wf _ _ Ha)).
  lsource s1; repeat lstep; [rewrite Hs; split; [done|cbn in *; lia]|].
  destruct (Z.eqb_spec z 61) as [->|]; repeat lstep;
    [|rewrite Hs; split; [done|cbn [length] in *; lia]].
  apply wp_arith; [cbn [length] in *; int_lia|].
  repeat lstep. rewrite Hs0. cbn [length] in *. auto with lia.
Qed.

Lemma read_unicode_digits_spec s0 s : adv s0 s ->
  wp read_unicode_digits
    (fun n s' => adv s0 s' /\ (length (source s') <= length (source s))%nat) (adv s0) s.
Proof.
  intros Ha. apply (wp_loop (fun n s' => adv s0 s' /\
    (length (source s') <= length (source s))%nat)); [|auto].
  intros u s1 (Ha1 & Hl). lsource s1; repeat lstep; [done|].
  destruct (Z.eqb_spec z 125) as [->|]; repeat lstep.
  { rewrite Hs0. cbn [length] in *. auto with lia. }
  destruct (from_hex_digit z) eqn:Hz; repeat lstep; [|done].
  apply hex_digit_not_newline in Hz. repeat lstep. rewrite Hs0. cbn [length] in *. auto with lia.
Qed.

Lemma read_decimal_escape_spec n u s0 s : adv s0 s ->
  0 <= u <= 10 ^ (3 - Z.of_nat n) - 1 -> (n <= 3)%nat ->
  wp (read_decimal_escape n u)
    (fun n s' => adv s0 s' /\ (length (source s') <= length (source s))%nat) (adv s0) s.
Proof.
  revert u s. induction n as [|n IH]; intros u s Ha Hu Hn; cbn [read_decimal_escape].
  { apply wp_ret. auto. }
  lsource s; repeat lstep; [rewrite Hs; auto|].
  destruct (from_digit z) as [d|] eqn:Hz; [|apply wp_ret; by rewrite Hs].
  pose proof (from_digit_range _ _ Hz).
  assert (u <= 99) by (destruct n as [|[|[|]]]; cbn in Hu; lia).
  apply wp_bind, wp_arith; [int_lia|]. apply wp_bind, wp_arith; [int_lia|].
  assert (is_newline z = false).
  { apply digit_not_newline. unfold is_digit. by rewrite Hz. }
  repeat lstep. eapply wp_mono; [apply IH; [done| |lia]| |done].
  - replace (3 - Z.of_nat n) with (Z.succ (3 - Z.of_nat (S n))) by lia.
    rewrite Z.pow_succ_r by lia. lia.
  - intros _ s' [Ha' Hl']. rewrite Hs0 in Hl'. cbn [length]. auto with lia.
Qed.

(** Closes a final state: the accumulated relation and the length bound. *)
Ltac lfin :=
  repeat match goal with Hs : source ?s = _ |- context [source ?s] => rewrite Hs end;
  cbn [length] in *;
  repeat match goal with |- _ /\ _ => split end; first [assumption | lia].
Ltac lrew :=
  repeat match goal with Hs : source ?s = _ |- context [source ?s] => rewrite Hs end.
Ltac lrew_in H :=
  repeat match type of H with context [source ?s] =>
    match goal with Hs : source s = _ |- _ => rewrite Hs in H end end;
  cbn [length] in *.
Ltac lauto := lrew; cbn [length] in *; auto with lia.
Ltac lcase :=
  match goal with
  | |- wp (if ?c =? ?k then _ else _) _ _ _ => destruct (Z.eqb_spec c k) as [->|]
  | |- wp (if ?b then _ else _) _ _ _ => destruct b eqn:?
  end.

Lemma read_escape_spec q s0 s : adv s0 s ->
  wp (read_escape q)
    (fun _ s' => adv s0 s' /\ (length (source s') <= length (source s))%nat) (adv s0) s.
Proof.
  intros Ha. unfold read_escape. lsource s; repeat lstep; [done|].
  do 10 (lcase; [repeat lstep; lfin|]).
  lcase.
  { eapply wp_mono; [by eapply read_line_end_spec| |done].
    intros _ t [Ht Hlt]. rewrite Hs in Hlt. cbn [length] in *. auto with lia. }
  lcase.
  { repeat lstep. destruct l as [|h1 l]; lnorm; repeat lstep; [done|].
    destruct (from_hex_digit h1) as [h|] eqn:Hh1; repeat lstep; [|done].
    destruct l as [|h2 l]; lnorm; repeat lstep; [done|].
    destruct (from_hex_digit h2) as [h'|] eqn:Hh2; repeat lstep; [|done].
    apply hex_digit_not_newline in Hh1, Hh2. repeat lstep. lfin. }
  lcase.
  { repeat lstep. destruct l as [|c l]; lnorm; [repeat lstep; done|].
    destruct (Z.eqb_spec c 123) as [->|]; lnorm; repeat lstep; [|done].
    eapply wp_mono; [by apply read_unicode_digits_spec| |done].
    intros u t [Ht Hlt]. rewrite Hs1 in Hlt. apply wp_bind, wp_ok_or; [|done].
    intros ch _. eapply wp_push_all; [done|]. intros t' Ht' Et' _. rewrite Et'.
    cbn [length]. auto with lia. }
  lcase.
  { repeat lstep.
    apply (wp_loop (fun _ s' => adv s0 s' /\ (length (source s') <= length l)%nat)).
    2:{ rewrite Hs0. auto. }
    intros _ t [Ht Hlt]. lsource t; repeat lstep; [lfin|].
    lcase.
    { apply wp_bind. eapply wp_mono; [by eapply read_line_end_spec| |done].
      intros _ t' [Ht' Hlt']. apply wp_ret. rewrite Hs1 in Hlt'. cbn [length] in *.
      auto with lia. }
    lcase; [|repeat lstep; lfin]. repeat lstep. lfin. }
  lcase; [|by repeat lstep]. apply wp_bind.
  eapply wp_mono; [apply read_decimal_escape_spec; [done|cbn; lia|done]| |done].
  intros u t [Ht Hlt]. rewrite Hs in Hlt. lcase; [by repeat lstep|].
  eapply wp_push; [done|]. intros t' Ht' Et' _. rewrite Et'. cbn [length] in *. auto.
Qed.

Lemma read_short_string_spec s0 s c r : adv s0 s -> source s = c :: r ->
  c = 39 \/ c = 34 -> wp read_short_string (shorter s0 s unit) (adv s0) s.
Proof.
  intros Ha Hsrc Hc. unfold read_short_string, shorter. repeat lstep.
  assert ((c =? 39) || (c =? 34) = true) as ->.
  { destruct Hc as [-> | ->]; done. }
  assert (is_newline c = false) by (apply not_newline; lia).
  repeat lstep.
  apply (wp_loop (fun _ s' => adv s0 s' /\ (length (source s') <= length r)%nat)).
  2:{ lfin. }
  intros _ t [Ht Hlt]. lsource t; repeat lstep; [done|].
  lcase; [by repeat lstep|]. repeat lstep.
  lcase.
  { apply wp_bind. eapply wp_mono; [by apply read_escape_spec| |done].
    intros _ t' [Ht' Hlt']. apply wp_ret. rewrite Hs3 in Hlt'. cbn [length] in *. auto with lia. }
  lcase; repeat lstep; lfin.
Qed.

Lemma when_spec s0 b m s (Q : unit -> lexer -> Prop) :
  (b = true -> wp m Q (adv s0) s) -> (b = false -> Q tt s) ->
  wp (when b m) Q (adv s0) s.
Proof. destruct b; intros H1 H2; [by apply H1 | by apply H2]. Qed.

Lemma read_long_string_spec b s0 s r : adv s0 s -> source s = 91 :: r ->
  wp (read_long_string b) (shorter s0 s unit) (adv s0) s.
Proof.
  intros Ha Hsrc. unfold read_long_string, shorter. repeat lstep.
  apply (wp_mono _ _ (fun _ t => adv s0 t /\ source t = r) _ (adv s0)); [| |done].
  { apply when_spec; intros _; [repeat lstep; auto|auto]. }
  intros _ t [Ht Et]. apply wp_bind.
  eapply wp_mono; [by apply count_equals_spec| |done].
  intros n t1 [Ht1 Hl1]. rewrite Et in Hl1. lsource t1; repeat lstep; [done|].
  destruct (Z.eqb_spec z 91) as [->|]; lnorm; repeat lstep; [|done].
  cbn [length] in *.
  apply (wp_mono _ _ (fun _ t => adv s0 t /\ (length (source t) <= length l)%nat) _ (adv s0));
    [| |done].
  { apply when_spec; [|rewrite Hs3; auto].
    destruct l as [|d l]; [done|]. cbn [lookup list_lookup sat_char]. intros Hd.
    eapply wp_mono; [by eapply read_line_end_spec| |done].
    intros _ t3 [Ht3 Hl3]. rewrite Hs3 in Hl3. auto with lia. }
  intros _ t3 [Ht3 Hl3].
  apply (wp_loop (fun _ t => adv s0 t /\ (length (source t) <= length l)%nat)); [|done].
  intros _ t4 [Ht4 Hl4]. lsource t4; repeat lstep; [done|].
  lcase.
  { apply wp_bind. eapply wp_mono; [by eapply read_line_end_spec| |done].
    intros _ t5 [Ht5 Hl5]. apply wp_ret. rewrite Hs4 in Hl5. cbn [length] in *. auto with lia. }
  lcase.
  2:{ apply wp_bind.
    apply (wp_mono _ _ (fun _ t => adv s0 t /\ source t = z :: l0 /\
      (1 <= peek_count t)%nat) _ (adv s0)); [| |done].
    { apply when_spec; intros _; [|auto with lia]. eapply wp_push; [done|].
      intros t5 Ht5 Et5 Pt5. rewrite Et5, Pt5. auto with lia. }
    intros _ t5 (Ht5 & Et5 & Pt5). repeat lstep. lfin. }
  repeat lstep. eapply wp_mono; [by apply count_equals_spec| |done].
  intros n' t5 [Ht5 Hl5]. rewrite Hs5 in Hl5. apply wp_bind.
  apply (wp_mono _ _ (fun c t => adv s0 t /\ source t = source t5 /\
    (c = Some 93 -> exists l', source t = 93 :: l' /\ (1 <= peek_count t)%nat)) _ (adv s0)); [| |done].
  { lcase; [|apply wp_ret; by split_and!]. eapply wp_peek; [done|].
    intros t6 Ht6 Et6 Pt6. split; [done|]. split; [done|].
    destruct (source t5) as [|c l5] eqn:E5; [done|]. cbn. intros [= ->].
    exists l5. rewrite Et6. cbn [length] in Pt6. auto with lia. }
  intros c t6 (Ht6 & Et6 & Hc). destruct ((n =? n') && is_char c 93) eqn:Hclose.
  - apply andb_true_iff in Hclose as [_ Hc']. destruct c as [c|]; [|done].
    apply Z.eqb_eq in Hc' as ->. destruct (Hc eq_refl) as (l6 & E6 & P6).
    rewrite <- Et6, E6 in Hl5. repeat lstep. lfin.
  - apply wp_bind.
    apply (wp_mono _ _ (fun _ t => adv s0 t /\ source t = source t6) _ (adv s0)); [| |done].
    { apply when_spec; intros _; [|auto]. apply wp_bind. eapply wp_push; [done|].
      intros t7 Ht7 Et7 _. eapply wp_push_all; [done|]. intros t8 Ht8 Et8 _.
      split; [done|congruence]. }
    intros _ t7 [Ht7 Et7]. apply wp_ret. rewrite Et7, Et6. cbn [length] in *. auto with lia.
Qed.

Lemma read_exponent_spec s0 is_hex s : adv s0 s ->
  wp (read_exponent is_hex)
    (fun _ s' => adv s0 s' /\ (length (source s') <= length (source s))%nat) (adv s0) s.
Proof.
  intros Ha. unfold read_exponent. lsource s; repeat lstep; [lauto|].
  lcase; [|repeat lstep; lauto].
  assert (is_newline z = false).
  { apply not_newline; intros ->; rewrite !andb_false_r in Heqb; discriminate. }
  repeat lstep.
  apply (wp_mono _ _ (fun _ t => adv s0 t /\ (length (source t) <= length l)%nat) _ (adv s0));
    [| |done].
  { destruct l as [|sg l]; lnorm; repeat lstep; [lauto|].
    apply when_spec; intros Hsg; [|lauto].
    assert (is_newline sg = false) by (apply not_newline; intros ->; discriminate).
    repeat lstep. lauto. }
  intros _ t2 [Ht2 Hl2]. apply wp_bind.
  eapply wp_mono; [apply read_while_spec; [apply digit_not_newline| |done]| |done].
  { intros. by apply push_frame. }
  intros _ t3 [Ht3 Hl3]. apply wp_ret. cbn [length]. auto with lia.
Qed.

Lemma finish_numeral_spec s0 h hr he s : adv s0 s ->
  wp (finish_numeral h hr he) (fun _ s' => adv s0 s' /\ source s' = source s) (adv s0) s.
Proof.
  intros Ha. unfold finish_numeral. apply wp_bind. unfold get_buffer. cbn [wp].
  match goal with |- wp (match ?o with _ => _ end) _ _ _ => destruct o as [i|] end;
    [by apply wp_ret|].
  apply wp_bind, wp_ok_or; [|done]. intros f _. by apply wp_ret.
Qed.

Lemma read_numeral_spec s0 s c r : adv s0 s -> source s = c :: r ->
  (c =? 46) || is_digit c = true ->
  wp read_numeral (shorter s0 s (Token IString)) (adv s0) s.
Proof.
  intros Ha Hsrc Hc. unfold read_numeral, shorter. repeat lstep. rewrite Hc. repeat lstep.
  assert (Hcn : is_newline c = false).
  { apply orb_true_iff in Hc as [->%Z.eqb_eq|Hc]; [done|by apply digit_not_newline]. }
  set (is_hex := (c =? 48) && _).
  apply (wp_mono _ _ (fun _ t => adv s0 t /\ ((length (source t) <= length r)%nat \/
    is_hex = false /\ source t = c :: r)) _ (adv s0)); [| |done].
  { apply when_spec; intros Hhex; [|auto]. unfold is_hex in Hhex.
    destruct r as [|p2 r]; cbn [lookup list_lookup is_char] in Hhex |- *.
    { by rewrite andb_false_r in Hhex. }
    apply andb_true_iff in Hhex as [_ Hp2].
    assert (is_newline p2 = false).
    { apply not_newline; intros ->; discriminate. }
    repeat lstep. lauto. }
  intros _ t [Ht Hlt]. apply wp_bind.
  eapply (wp_mono _ _ (fun _ t => adv s0 t /\ (length (source t) <= length r)%nat) _ (adv s0));
    [| |done].
  { apply (wp_loop (fun hr t => adv s0 t /\ ((length (source t) <= length r)%nat \/
      hr = false /\ is_hex = false /\ source t = c :: r)));
      [|split; [done|]; destruct Hlt as [?|[? ?]]; auto].
    intros hr t1 [Ht1 Hl1]. lsource t1; repeat lstep.
    { lrew. split; [done|]. destruct Hl1 as [|(_ & _ & ?)]; [done|discriminate]. }
    assert (Hle : (length l <= length r)%nat).
    { destruct Hl1 as [Hl1|(_ & _ & [= -> ->])]; cbn [length] in *; lia. }
    destruct ((z =? 46) && negb hr) eqn:Hdot.
    { apply andb_true_iff in Hdot as [->%Z.eqb_eq _]. repeat lstep. lauto. }
    destruct ((negb is_hex && is_digit z) || (is_hex && is_hex_digit z)) eqn:Hd.
    { assert (is_newline z = false).
      { apply orb_true_iff in Hd as [[_ Hd]%andb_true_iff|[_ Hd]%andb_true_iff].
        - by apply digit_not_newline.
        - unfold is_hex_digit in Hd. destruct (from_hex_digit z) eqn:E; [|done].
          by eapply hex_digit_not_newline. }
      repeat lstep. lauto. }
    apply wp_ret. lrew. split; [done|].
    destruct Hl1 as [Hl1|(-> & Hh & [= -> ->])]; [done|]. exfalso.
    rewrite Hh in Hd. cbn in Hd, Hdot. rewrite andb_true_r in Hdot.
    rewrite orb_false_r in Hd. rewrite Hd, Hdot in Hc. done. }
  intros hr t1 [Ht1 Hl1]. apply wp_bind.
  eapply wp_mono; [by apply read_exponent_spec| |done]. intros he t2 [Ht2 Hl2].
  eapply wp_mono; [by apply finish_numeral_spec| |done]. intros tk t3 [Ht3 Et3].
  rewrite Et3. cbn [length]. auto with lia.
Qed.

Lemma read_word_spec s0 s c r : adv s0 s -> source s = c :: r -> is_alpha c = true ->
  (1 <= peek_count s)%nat -> wp (read_word c) (shorter s0 s (Token IString)) (adv s0) s.
Proof.
  intros Ha Hsrc Hc Hpc. unfold read_word, shorter.
  apply alpha_not_newline in Hc as Hcn. repeat lstep.
  eapply wp_mono; [apply read_while_spec; [| |done]| |done].
  { intros d [Hd|Hd]%orb_true_iff; [by apply alpha_not_newline | by apply digit_not_newline]. }
  { intros. by apply push_frame. }
  intros _ t [Ht Hlt]. lrew_in Hlt. apply wp_bind. unfold get_buffer. cbn [wp].
  destruct (get_reserved_word_token _).
  - apply wp_ret. lauto.
  - apply wp_bind. eapply wp_take_string; [done|]. intros i t1 Ht1 Et1. apply wp_ret.
    rewrite Et1. lauto.
Qed.

(** What is left when whitespace and comments have been skipped *)
Definition token_start (s : bytes) : Prop :=
  match s with
  | [] => True
  | c :: r => is_blank c = false /\ is_newline c = false /\
      (c = 45 -> is_char (r !! 0%nat) 45 = false)
  end.

Definition stopped (s0 s : lexer) : Prop := wf s /\ source s = [] /\ string_buffer s = [].

Lemma reset_stopped s0 s : adv s0 s -> stopped s0 (reset s).
Proof.
  intros [[Hp Hl Hn Hs] _ _]. pose proof (newlines_nonneg (source s)).
  split; [|done]. split; cbn; lia.
Qed.

Lemma skip_whitespace_spec s : wf s ->
  wp skip_whitespace (fun _ s' => adv s s' /\ token_start (source s')) (stopped s) s.
Proof.
  intros Hwf. assert (Hloop : forall m : lexM unit,
    wp m (fun _ s' => adv s s' /\ token_start (source s')) (adv s) s ->
    wp (on_error_reset m) (fun _ s' => adv s s' /\ token_start (source s')) (stopped s) s).
  { intros m. unfold wp, on_error_reset. destruct (m s); try done. apply reset_stopped. }
  apply Hloop. clear Hloop.
  apply (wp_loop (fun _ s' => adv s s')); [|by apply adv_refl].
  intros _ t Ht. lsource t; repeat lstep; [rewrite Hs; by split|].
  lcase; [apply blank_not_newline in Heqb as ?; repeat lstep; lfin|].
  lcase.
  { apply wp_bind. eapply wp_mono; [by eapply read_line_end_spec| |done].
    intros _ t1 [Ht1 Hl1]. apply wp_ret. lrew_in Hl1. auto with lia. }
  lcase; [|repeat lstep; lrew; split; [done|by split_and!]].
  repeat lstep. destruct (is_char (l !! 0%nat) 45) eqn:Hc1.
  2:{ lnorm. repeat lstep.
      lrew. split; [done|by split_and!]. }
  destruct l as [|d l]; [done|]. cbn in Hc1. apply Z.eqb_eq in Hc1 as ->.
  lnorm. repeat lstep. lcase.
  { apply wp_bind. destruct l as [|e l]; [done|]. cbn in Heqb1.
    apply andb_true_iff in Heqb1 as [->%Z.eqb_eq _].
    eapply wp_mono; [by eapply read_long_string_spec| |done].
    intros _ t1 [Ht1 Hl1]. apply wp_ret. lrew_in Hl1. auto with lia. }
  apply wp_bind. eapply wp_mono; [apply read_while_spec; [| |done]| |done].
  { intros c. apply negb_true_iff. }
  { intros. by apply wp_ret. }
  intros _ t1 [Ht1 Hl1]. apply wp_ret. lrew_in Hl1. auto with lia.
Qed.

Lemma read_two_spec s0 s c r c2 yes no : adv s0 s -> source s = c :: r ->
  is_newline c = false -> is_newline c2 = false -> (1 <= peek_count s)%nat ->
  wp (read_two c2 yes no) (shorter s0 s (Token IString)) (adv s0) s.
Proof.
  intros Ha Hsrc Hc Hc2 Hpc. unfold read_two, shorter. repeat lstep.
  destruct r as [|d r]; lnorm; repeat lstep; [lauto|].
  destruct (Z.eqb_spec d c2) as [->|]; repeat lstep; lauto.
Qed.

Lemma read_three_spec s0 s c r c2 t2 c3 t3 no : adv s0 s -> source s = c :: r ->
  is_newline c = false -> is_newline c2 = false -> is_newline c3 = false ->
  (1 <= peek_count s)%nat ->
  wp (read_three c2 t2 c3 t3 no) (shorter s0 s (Token IString)) (adv s0) s.
Proof.
  intros Ha Hsrc Hc Hc2 Hc3 Hpc. unfold read_three, shorter. repeat lstep.
  destruct r as [|d r]; lnorm; repeat lstep; [lauto|].
  destruct (Z.eqb_spec d c2) as [->|]; repeat lstep; [lauto|].
  destruct (Z.eqb_spec d c3) as [->|]; repeat lstep; lauto.
Qed.

Definition token_or_end (s0 s : lexer) (r : option (Token IString)) (s' : lexer) : Prop :=
  match r with
  | Some _ => adv s0 s' /\ (length (source s') < length (source s))%nat
  | None => adv s0 s' /\ source s' = []
  end.

Lemma string_token_spec s0 s (m : lexM unit) : adv s0 s ->
  wp m (shorter s0 s unit) (adv s0) s ->
  wp (m ;; (str ← take_string; mret (String str)))
    (shorter s0 s (Token IString)) (adv s0) s.
Proof.
  intros Ha Hm. apply wp_bind. eapply wp_mono; [exact Hm| |done].
  intros _ t [Ht Hlt]. apply wp_bind. eapply wp_take_string; [done|].
  intros i t1 Ht1 Et1. apply wp_ret. split; [done|]. by rewrite Et1.
Qed.

Lemma do_read_token_spec s0 s : adv s0 s -> token_start (source s) ->
  wp do_read_token (token_or_end s0 s) (adv s0) s.
Proof.
  intros Ha Hts. unfold do_read_token. lsource s; repeat lstep; [by split|].
  destruct Hts as (Hb & Hn & Hcomment). rewrite Hb, Hn. cbn [orb].
  match goal with |- wp ?m _ _ ?t =>
    enough (wp m (shorter s0 s (Token IString)) (adv s0) t) as Hm;
      [eapply wp_mono; [exact Hm| |done]; intros tk t1 Ht1; by apply wp_ret|] end.
  assert (Hlen : forall t1 A, source t1 = z :: l -> shorter s0 t1 A = shorter s0 s A).
  { intros t1 A E. unfold shorter. by rewrite E, Heql. }
  rewrite <- (Hlen s1) by done.
  assert (Hpc : (1 <= peek_count s1)%nat) by lia.
  destruct (Z.eqb_spec z 45) as [->|].
  { unfold shorter. specialize (Hcomment eq_refl).
    destruct l as [|c1 l]; cbn in Hcomment; repeat lstep; [lauto|].
    rewrite Hcomment. lnorm. repeat lstep. lauto. }
  lcase.
  { repeat lstep. rewrite (Hlen s1), <- (Hlen s2) by done.
    lcase; [|unfold shorter; repeat lstep; lauto].
    apply string_token_spec; [done|]. by eapply read_long_string_spec. }
  lcase; [by eapply read_two_spec|]. lcase; [by eapply read_three_spec|].
  lcase; [by eapply read_three_spec|]. do 3 (lcase; [by eapply read_two_spec|]).
  lcase.
  { apply string_token_spec; [done|]. eapply read_short_string_spec; [done..|].
    apply orb_true_iff in Heqb as [?%Z.eqb_eq|?%Z.eqb_eq]; auto. }
  lcase.
  { repeat lstep. change ((46 :: l) !! 1%nat) with (l !! 0%nat).
    rewrite (Hlen s1), <- (Hlen s2) by done.
    destruct l as [|c1 l]; lnorm; repeat lstep.
    { unfold shorter. repeat lstep. lauto. }
    destruct (Z.eqb_spec c1 46) as [->|]; repeat lstep.
    - unfold shorter. change ((46 :: 46 :: l) !! 2%nat) with (l !! 0%nat).
      destruct l as [|c2 l]; lnorm; repeat lstep; [lauto|].
      destruct (Z.eqb_spec c2 46) as [->|]; repeat lstep; lauto.
    - rewrite (Hlen s2), <- (Hlen s3) by done.
      lcase; [|unfold shorter; repeat lstep; lauto].
      by eapply read_numeral_spec. }
  lcase.
  { eapply read_numeral_spec; [done..|]. rewrite Heqb0. apply orb_true_r. }
  destruct (get_char_token z) as [tk|]; [unfold shorter; repeat lstep; lauto|].
  lcase; [by eapply read_word_spec|]. by repeat lstep.
Qed.

(** The whole contract of [read_token]. *)
Lemma read_token_spec s : wf s ->
  wp read_token
    (fun r s' => match r with
       | Some _ => adv s s' /\ (length (source s') < length (source s))%nat
       | None => stopped s s' /\
           line_number s' = line_number s + newlines (source s)
       end)
    (stopped s) s.
Proof.
  intros Hwf. unfold read_token. apply wp_bind.
  eapply wp_mono; [by apply skip_whitespace_spec| |done]. intros _ t [Ht Hts].
  pose proof (adv_length _ _ Ht) as Hlen.
  pose proof (do_read_token_spec s t Ht Hts) as Hd.
  unfold wp, unless_token_reset in *.
  destruct (do_read_token t) as [[tk|] t1|e t1| |]; try done.
  - destruct Hd as [Hd Hlt]. split; [done|lia].
  - destruct Hd as [Hd He]. split; [by apply reset_stopped|].
    pose proof (adv_lines _ _ Hd) as Hl. rewrite He in Hl. cbn in *. lia.
  - by apply reset_stopped.
Qed.
End facts.
