(* ===== verification/LexerTheorems.v ===== *)
(** * What the lexer reads: exact results

    An exact big-step judgement for the lexer monad, and with it the tokens that
    whole classes of source text denote. *)

From S2P Require Import Prelude Float64 Utf8 StringUtils Lexer LexerFacts.
Import StringUtils Lexer.

Section runs.
Context `{BuildProfile} `{StringInterner}.

(** [m], started on the unread input [src] with [k] bytes known to be peeked and
    [buf] in the string buffer, returns [a] and leaves [src'], [k'] and [buf'];
    it does not read a newline. *)
Definition runs {A} (m : lexM A) (k : nat) (src buf : bytes)
    (a : A) (k' : nat) (src' buf' : bytes) : Prop :=
  forall int pc line, (k <= pc <= length src)%nat ->
    exists pc', (k' <= pc' <= length src')%nat /\
      m (mk_lexer src int pc buf line) = Done a (mk_lexer src' int pc' buf' line).

Lemma runs_ret {A} (a : A) k src buf : runs (mret a) k src buf a k src buf.
Proof. intros int pc line Hk. by exists pc. Qed.

Lemma runs_bind {A B} (m : lexM A) (f : A -> lexM B) k0 s0 b0 a k1 s1 b1 b k2 s2 b2 :
  runs m k0 s0 b0 a k1 s1 b1 -> runs (f a) k1 s1 b1 b k2 s2 b2 ->
  runs (m ≫= f) k0 s0 b0 b k2 s2 b2.
Proof.
  intros Hm Hf int pc line Hk. destruct (Hm int pc line Hk) as (pc1 & Hk1 & E1).
  destruct (Hf int pc1 line Hk1) as (pc2 & Hk2 & E2). exists pc2. split; [done|].
  unfold mbind, lexM_bind. by rewrite E1.
Qed.

Lemma runs_peek n k src buf :
  runs (peek n) k src buf (src !! n) (Nat.min (n + 1) (length src)) src buf.
Proof. intros int pc line Hk. eexists. split; [|reflexivity]. cbn. lia. Qed.

Lemma runs_advance n k src buf : (n <= k)%nat ->
  runs (advance n) k src buf tt (k - n) (drop n src) buf.
Proof.
  intros Hn int pc line Hk. exists (pc - n)%nat. unfold advance.
  cbn [source peek_count interner string_buffer line_number].
  rewrite !(proj2 (Nat.leb_le _ _)) by lia. split; [rewrite length_drop; lia|done].
Qed.

Lemma runs_push c k src buf : runs (push c) k src buf tt k src (buf ++ [c]).
Proof. intros int pc line Hk. by exists pc. Qed.

Lemma runs_clear k src buf : runs clear_buffer k src buf tt k src [].
Proof. intros int pc line Hk. by exists pc. Qed.

Lemma runs_get k src buf : runs get_buffer k src buf buf k src buf.
Proof. intros int pc line Hk. by exists pc. Qed.

Lemma runs_weaken {A} (m : lexM A) k0 k1 s0 b0 a k2 k3 s2 b2 :
  runs m k0 s0 b0 a k2 s2 b2 -> (k0 <= k1)%nat -> (k3 <= k2)%nat ->
  runs m k1 s0 b0 a k3 s2 b2.
Proof.
  intros Hm Hk0 Hk2 int pc line Hk. destruct (Hm int pc line ltac:(lia)) as (pc' & Hk' & E).
  exists pc'. split; [lia|done].
Qed.

(** Rounds of a loop: with more fuel than unread bytes, a loop steps through
    rounds that consume input. *)
Definition runs_fuel {A B} (body : A -> lexM (A + B)) (a : A) (src buf : bytes)
    (b : B) (src' buf' : bytes) : Prop :=
  forall fuel, (length src < fuel)%nat -> runs (iter fuel body a) 0 src buf b 0 src' buf'.

Lemma runs_loop {A B} (body : A -> lexM (A + B)) a src buf b src' buf' :
  runs_fuel body a src buf b src' buf' -> runs (loop body a) 0 src buf b 0 src' buf'.
Proof. intros Hf int pc line Hk. apply (Hf (S (length src))); [lia|done]. Qed.

Lemma runs_fuel_step {A B} (body : A -> lexM (A + B)) a a' s0 s1 b0 b1 b s2 b2 :
  runs (body a) 0 s0 b0 (inl a') 0 s1 b1 -> (length s1 < length s0)%nat ->
  runs_fuel body a' s1 b1 b s2 b2 -> runs_fuel body a s0 b0 b s2 b2.
Proof.
  intros Hbody Hlt Hf [|fuel] Hfuel; [lia|]. cbn [iter]. eapply runs_bind; [exact Hbody|].
  apply Hf. lia.
Qed.

Lemma runs_fuel_stop {A B} (body : A -> lexM (A + B)) a s0 b0 b s1 b1 :
  runs (body a) 0 s0 b0 (inr b) 0 s1 b1 -> runs_fuel body a s0 b0 b s1 b1.
Proof.
  intros Hbody [|fuel] Hfuel; [lia|]. cbn [iter]. eapply runs_bind; [exact Hbody|].
  apply runs_ret.
Qed.
End runs.

(** One step of exact execution. *)
Ltac rstep :=
  cbn [lookup list_lookup length drop is_char sat_char mbind option_bind];
  lazymatch goal with
  | |- runs (mbind _ _) _ _ _ _ _ _ _ => eapply runs_bind
  | |- runs (mret _) _ _ _ _ _ _ _ => apply runs_ret
  | |- runs (peek _) _ _ _ _ _ _ _ => apply runs_peek
  | |- runs (push _) _ _ _ _ _ _ _ => apply runs_push
  | |- runs clear_buffer _ _ _ _ _ _ _ => apply runs_clear
  | |- runs get_buffer _ _ _ _ _ _ _ => apply runs_get
  | |- runs (advance _) _ _ _ _ _ _ _ => apply runs_advance; cbn [length]; lia
  | |- runs (unwrap (Some _)) _ _ _ _ _ _ _ => apply runs_ret
  | |- runs (ok_or (Some _) _) _ _ _ _ _ _ _ => apply runs_ret
  | |- runs (assert true) _ _ _ _ _ _ _ => apply runs_ret
  end.

Section theorems.
Context `{BuildProfile} `{StringInterner}.

(** ** Reading a whole source

    What the parser does with the lexer: tokens are read until there is none or
    one is in error. *)
Fixpoint read_all (fuel : nat) (s : lexer) : res (list (Token IString)) :=
  match fuel with
  | O => OutOfFuel
  | S fuel =>
      match read_token s with
      | Done (Some t) s =>
          match read_all fuel s with
          | Done ts s => Done (t :: ts) s
          | r => r
          end
      | Done None s => Done [] s
      | Fail e s => Fail e s
      | Panicked => Panicked
      | OutOfFuel => OutOfFuel
      end
  end.

(** What it promises: it never panics or loops; all is read, with every line
    counted, or there is an error; either way the lexer is left empty. *)
Definition reads (s : lexer) (r : res (list (Token IString))) : Prop :=
  match r with
  | Done _ s' => source s' = [] /\ line_number s' = line_number s + newlines (source s)
  | Fail _ s' => source s' = []
  | Panicked | OutOfFuel => False
  end.

Lemma read_all_reads fuel s : wf s -> (length (source s) < fuel)%nat ->
  reads s (read_all fuel s).
Proof.
  revert s. induction fuel as [|fuel IH]; intros s Hwf Hfuel; [lia|]. cbn [read_all].
  pose proof (read_token_spec s Hwf) as Ht. unfold wp in Ht.
  destruct (read_token s) as [[t|] s'|e s'| |]; [|by destruct Ht as [(_ & ? & _) ?]|
    by destruct Ht as (_ & ? & _)|done|done].
  destruct Ht as [[Hwf' _ Hl] Hlt]. specialize (IH s' Hwf' ltac:(lia)).
  destruct (read_all fuel s') as [ts s''|e s''| |]; [|exact IH|exact IH|exact IH].
  cbn in *. split; [tauto|lia].
Qed.

(** C39: reading a token never panics and its loops always end.  A token consumes at
    least one byte, leaves a suffix of the input and has every newline sequence
    it and the blanks before it span counted; at the end of the input the lexer
    is reset with all lines counted; an error also resets it. *)
Theorem read_token_safe (s : lexer) : wf s ->
  match read_token s with
  | Done (Some _) s' =>
      wf s' /\ source s' `suffix_of` source s /\
      (length (source s') < length (source s))%nat /\
      line_number s' + newlines (source s') = line_number s + newlines (source s)
  | Done None s' =>
      wf s' /\ source s' = [] /\ line_number s' = line_number s + newlines (source s)
  | Fail _ s' => wf s' /\ source s' = [] /\ string_buffer s' = []
  | Panicked | OutOfFuel => False
  end.
Proof.
  intros Hwf. pose proof (read_token_spec s Hwf) as Ht. unfold wp in Ht.
  destruct (read_token s) as [[t|] s'|e s'| |]; [|by destruct Ht as [(? & ? & _) ?]|
    exact Ht|done|done].
  by destruct Ht as [[? ? ?] ?].
Qed.

Lemma newlines_length (s : bytes) : newlines s <= Z.of_nat (length s).
Proof.
  induction s as [s IH] using (induction_ltof1 _ (@length Z)).
  unfold ltof in IH. destruct s as [|c [|d s]]; cbn; [lia|case_bool; lia|].
  pose proof (IH s ltac:(cbn; lia)). pose proof (IH (d :: s) ltac:(cbn; lia)) as Hd.
  cbn in Hd. repeat case_bool; lia.
Qed.
Lemma new_wf (src : bytes) (int : InternerState) : Z.of_nat (length src) < 2 ^ 31 -> wf (new src int).
Proof. intros Hlen. pose proof (newlines_length src). split; cbn; lia. Qed.

(** Every source of less than 2^31 bytes is read to its end, in at most one
    call more than it has bytes, into tokens or one lexical error, without a
    panic, and the final line number is the number of newline sequences. *)
Theorem read_all_total (src : bytes) (int : InternerState) :
  Z.of_nat (length src) < 2 ^ 31 ->
  match read_all (S (length src)) (new src int) with
  | Done _ s' => source s' = [] /\ line_number s' = newlines src
  | Fail _ s' => source s' = []
  | Panicked | OutOfFuel => False
  end.
Proof.
  intros Hlen. exact (read_all_reads (S (length src)) (new src int) (new_wf src int Hlen) (Nat.lt_succ_diag_r _)).
Qed.

(** ** Short strings *)

(** Any byte as a three-digit decimal escape *)
Definition escape_byte (c : byte) : bytes :=
  [b# "\"; 48 + c / 100; 48 + c / 10 mod 10; 48 + c mod 10].

Lemma from_digit_48 d : 0 <= d < 10 -> from_digit (48 + d) = Some d.
Proof. intros Hd. apply (from_digit_of d Hd). Qed.

Lemma arithM_runs t z k s b : in_int t z -> runs (arithM t z) k s b z k s b.
Proof. intros Hz. unfold arithM. rewrite arith_in by done. apply runs_ret. Qed.

Lemma runs_weaken0 {A} (m : lexM A) k s b a s' b' :
  runs m 0 s b a 0 s' b' -> runs m k s b a 0 s' b'.
Proof. intros Hm. eapply runs_weaken; [exact Hm|lia|lia]. Qed.

Lemma decimal_round n u d r buf v r' : 0 <= u <= 99 -> 0 <= d < 10 ->
  runs (read_decimal_escape n (10 * u + d)) 0 r buf v 0 r' buf ->
  runs (read_decimal_escape (S n) u) 0 (48 + d :: r) buf v 0 r' buf.
Proof.
  intros Hu Hd Hrest. cbn [read_decimal_escape].
  rstep; [rstep|]. cbn [lookup list_lookup mbind option_bind]. rewrite from_digit_48 by done.
  do 2 (rstep; [apply arithM_runs; int_lia|]). rstep; [rstep|].
  cbn [drop]. rewrite ?drop_0. by apply runs_weaken0.
Qed.

Lemma read_decimal_escape_runs x y z r buf :
  0 <= x < 10 -> 0 <= y < 10 -> 0 <= z < 10 ->
  runs (read_decimal_escape 3 0) 0 (48 + x :: 48 + y :: 48 + z :: r) buf
    (100 * x + 10 * y + z) 0 r buf.
Proof.
  intros Hx Hy Hz. do 3 (apply decimal_round; [lia|lia|]).
  replace (100 * x + 10 * y + z) with (10 * (10 * (10 * 0 + x) + y) + z) by lia.
  apply runs_ret.
Qed.

Lemma escape_byte_runs q c r buf : is_byte c ->
  runs (read_escape q) 0 (drop 1 (escape_byte c) ++ r) buf tt 0 r (buf ++ [c]).
Proof.
  unfold is_byte. intros Hc. unfold escape_byte, read_escape. cbn [drop app].
  assert (exists x y z, c / 100 = x /\ c / 10 mod 10 = y /\ c mod 10 = z /\
    0 <= x <= 2 /\ 0 <= y < 10 /\ 0 <= z < 10 /\ c = 100 * x + 10 * y + z /\
    100 * x + 10 * y + z < 256)
    as (x & y & z & Ex & Ey & Ez & Hx & Hy & Hz & Ec & Hb).
  { do 3 eexists. do 3 (split; [reflexivity|]). Z.to_euclidean_division_equations; lia. }
  rewrite Ex, Ey, Ez, Ec. clear Ex Ey Ez Ec Hc.
  rstep; [rstep|]. rstep; [rstep|].
  assert (x = 0 \/ x = 1 \/ x = 2) as Hx' by lia.
  assert (Hgo : runs
    (u ← read_decimal_escape 3 0;
     if 255 <? u then err EscapeDecimalTooLarge else push (wrap u8 u))
    0 (48 + x :: 48 + y :: 48 + z :: r) buf tt 0 r (buf ++ [100 * x + 10 * y + z])).
  { rstep; [apply read_decimal_escape_runs; lia|].
    rewrite (proj2 (Z.ltb_ge _ _)) by lia.
    rewrite wrap_small by (apply _ || int_lia). apply runs_push. }
  destruct Hx' as [->|[->| ->]]; apply runs_weaken0; exact Hgo.
Qed.

(** Any byte sequence can be written as a short string, in either kind of
    quotes, with three-digit decimal escapes: the lexer reads back exactly these
    bytes and stops right after the closing quote. *)
Theorem read_short_string_escaped (q : byte) (s r : bytes) (int : InternerState)
    (line : Z) :
  q = 34 \/ q = 39 -> Forall is_byte s ->
  exists pc, read_short_string
      (mk_lexer (q :: concat (escape_byte <$> s) ++ q :: r) int 0 [] line) =
    Done tt (mk_lexer r int pc s line).
Proof.
  intros Hq Hs.
  assert (Hq' : (q =? 39) || (q =? 34) = true) by (by destruct Hq as [-> | ->]).
  assert (Hruns : runs read_short_string 0 (q :: concat (escape_byte <$> s) ++ q :: r) []
    tt 0 r s).
  { unfold read_short_string. do 2 (rstep; [rstep|]).
    rstep; [rewrite Hq'; apply runs_ret|].
    do 2 (rstep; [rstep|]). cbn [drop]. rewrite ?drop_0. apply runs_weaken0, runs_loop.
    rewrite <- (app_nil_l s) at 2. generalize (@nil byte) as buf.
    induction Hs as [|c s Hc Hs IH]; intros buf.
    - rewrite app_nil_r. apply runs_fuel_stop. cbn [fmap list_fmap concat app].
      do 2 (rstep; [rstep|]).
      assert (is_newline q = false) as -> by (by destruct Hq as [-> | ->]).
      rstep; [rstep|]. cbn [drop]. rewrite ?drop_0.
      assert ((q =? 92) = false) as -> by (by destruct Hq as [-> | ->]).
      rewrite Z.eqb_refl. apply runs_weaken0, runs_ret.
    - cbn [fmap list_fmap concat]. rewrite <- app_assoc.
      eapply (runs_fuel_step _ _ tt).
      3:{ rewrite <- (app_assoc buf [c] s) || rewrite (cons_middle c buf s), app_assoc. apply IH. }
      + cbn [escape_byte app]. do 2 (rstep; [rstep|]).
        change (is_newline 92) with false. cbn [andb].
        rstep; [rstep|]. cbn [drop]. rewrite ?drop_0.
        change (92 =? 92) with true. cbv iota.
        rstep; [apply runs_weaken0, (escape_byte_runs q c); done|]. apply runs_ret.
      + rewrite !length_app. cbn. lia. }
  destruct (Hruns int 0%nat line) as (pc & _ & E); [cbn; lia|]. by exists pc.
Qed.

(** ** Words *)

Definition is_word (w : bytes) : Prop :=
  match w with
  | [] => False
  | c :: w => is_alpha c = true /\ Forall (fun c => (is_alpha c || is_digit c) = true) w
  end.

Lemma read_while_runs p w r buf : Forall (fun c => p c = true) w ->
  (forall c r', r = c :: r' -> p c = false) ->
  runs (read_while p push) 0 (w ++ r) buf tt 0 r (buf ++ w).
Proof.
  intros Hw Hr. apply runs_loop. revert buf.
  induction Hw as [|c w Hc Hw IH]; intros buf.
  - rewrite app_nil_r. apply runs_fuel_stop. rstep; [rstep|].
    destruct r as [|c r']; cbn [app lookup list_lookup]; [apply runs_weaken0, runs_ret|].
    rewrite (Hr c r') by done. apply runs_weaken0, runs_ret.
  - rewrite (cons_middle c buf w), app_assoc. apply (runs_fuel_step _ _ tt _ (w ++ r) _ (buf ++ [c])); [|cbn; lia|apply IH].
    rstep; [rstep|]. cbn [app lookup list_lookup]. rewrite Hc.
    do 2 (rstep; [rstep|]). cbn [drop]. rewrite ?drop_0. apply runs_weaken0, runs_ret.
Qed.

(** What may follow a word or a numeral without belonging to it *)
Definition ends_word (r : bytes) : Prop :=
  match r with
  | [] => True
  | c :: _ => is_alpha c = false /\ is_digit c = false /\ c <> b# "."
  end.

Lemma class_neq (p : byte -> bool) c k : p c = true -> p k = false -> (c =? k) = false.
Proof. intros Hc Hk. apply Z.eqb_neq. intros ->. congruence. Qed.

Lemma skip_nothing c r buf :
  is_blank c = false -> is_newline c = false -> (c =? 45) = false ->
  runs skip_whitespace 0 (c :: r) buf tt 0 (c :: r) buf.
Proof.
  intros Hb Hn Hd.
  assert (Hl : forall m : lexM unit, runs m 0 (c :: r) buf tt 0 (c :: r) buf ->
    runs (on_error_reset m) 0 (c :: r) buf tt 0 (c :: r) buf).
  { intros m Hm int pc line Hk. destruct (Hm int pc line Hk) as (pc' & Hk' & E).
    exists pc'. split; [done|]. unfold on_error_reset. by rewrite E. }
  apply Hl, runs_loop, runs_fuel_stop. rstep; [rstep|]. cbn [lookup list_lookup].
  rewrite Hb, Hn, Hd. apply runs_weaken0, runs_ret.
Qed.

(** Running [do_read_token] is running [read_token] when no blank comes first. *)
Lemma read_token_runs c r t src' buf' :
  is_blank c = false -> is_newline c = false -> (c =? 45) = false ->
  runs do_read_token 0 (c :: r) [] (Some t) 0 src' buf' ->
  runs read_token 0 (c :: r) [] (Some t) 0 src' buf'.
Proof.
  intros Hb Hn Hd Hr. unfold read_token. eapply runs_bind; [by apply skip_nothing|].
  intros int pc line Hk. destruct (Hr int pc line Hk) as (pc' & Hk' & E).
  exists pc'. split; [done|]. unfold unless_token_reset. by rewrite E.
Qed.

Lemma read_numeral_runs i r : 0 <= i -> in_int i64 i -> ends_word r ->
  runs read_numeral 0 (i64_to_string i ++ r) [] (Integer i) 0 r (i64_to_string i).
Proof.
  intros Hpos Hi Hr. pose proof (read_dec_integer_i64 i Hpos Hi) as Hrd.
  destruct (i64_to_string_digits i Hpos Hi) as (bs & ds & Ebs & Hne & Hds & _).
  rewrite Ebs in *. clear Ebs. apply mapM_is_digit in Hds as Hdig.
  destruct bs as [|c bs]; [done|]. inversion Hdig as [|?? Hc Hbs]; subst.
  unfold read_numeral. cbn [app]. do 2 (rstep; [rstep|]).
  rstep; [rewrite Hc, orb_true_r; apply runs_ret|]. do 2 (rstep; [rstep|]).
  assert (Hp2 : is_char ((c :: bs ++ r) !! 1%nat) 120 || is_char ((c :: bs ++ r) !! 1%nat) 88
    = false).
  { destruct bs as [|d bs]; cbn [app].
    - destruct r as [|d r]; [done|]. cbn. destruct Hr as (Ha & _).
      apply orb_false_iff. split; apply Z.eqb_neq; intros ->; discriminate.
    - inversion Hbs. cbn. by rewrite !(class_neq is_digit). }
  rewrite Hp2, andb_false_r. cbn [when negb andb orb].
  rstep; [apply runs_ret|].
  eapply (runs_bind _ _ _ _ _ false 0%nat r (c :: bs)).
  { apply runs_weaken0, runs_loop.
    lazymatch goal with |- runs_fuel ?b _ _ _ _ _ _ => set (body := b) end.
    assert (Hdigits : forall l buf, Forall (fun c => is_digit c = true) l ->
      runs_fuel body false (l ++ r) buf false r (buf ++ l)).
    { intros l buf Hl. revert buf. induction Hl as [|d l Hd Hl IH]; intros buf.
      - rewrite app_nil_r. apply runs_fuel_stop. unfold body. rstep; [rstep|]. cbn [app].
        destruct r as [|d r]; cbn [lookup list_lookup]; [apply runs_weaken0, runs_ret|].
        destruct Hr as (_ & Hd & Hdot%Z.eqb_neq). rewrite Hd, Hdot.
        apply runs_weaken0, runs_ret.
      - rewrite (cons_middle d buf l), app_assoc.
        apply (runs_fuel_step _ _ false _ (l ++ r) _ (buf ++ [d])); [|cbn; lia|apply IH].
        unfold body. rstep; [rstep|]. cbn [app lookup list_lookup].
        rewrite (class_neq is_digit d 46), Hd by done. cbn [andb orb negb].
        do 2 (rstep; [rstep|]). cbn [drop]. rewrite ?drop_0. apply runs_weaken0, runs_ret. }
    exact (Hdigits (c :: bs) [] Hdig). }
  eapply (runs_bind _ _ _ _ _ false 0%nat r (c :: bs)).
  { unfold read_exponent. rstep; [rstep|].
    destruct r as [|d r]; cbn [lookup list_lookup]; [apply runs_weaken0, runs_ret|].
    destruct Hr as (Ha & _).
    assert ((d =? 101) || (d =? 69) = false) as ->.
    { apply orb_false_iff. split; apply Z.eqb_neq; intros ->; discriminate. }
    apply runs_weaken0, runs_ret. }
  unfold finish_numeral. rstep; [rstep|]. cbn [negb andb app]. rewrite Hrd.
  apply runs_ret.
Qed.

Lemma runs_token c r t r' buf' int :
  runs read_token 0 (c :: r) [] (Some t) 0 r' buf' ->
  exists s', source s' = r' /\ line_number s' = 0 /\
    read_token (new (c :: r) int) = Done (Some t) s'.
Proof.
  intros Hr. destruct (Hr int 0%nat 0) as (pc & _ & E); [cbn; lia|].
  exists (mk_lexer r' int pc buf' 0). unfold new. by rewrite E.
Qed.

(** A decimal integer literal denotes its value: reading the decimal digits of
    any non-negative [i64] gives that [Integer] token, provided the literal is
    not followed by something that belongs to a numeral or a word. *)
Theorem read_token_integer (i : Z) (r : bytes) (int : InternerState) :
  0 <= i -> in_int i64 i -> ends_word r ->
  exists s', source s' = r /\ line_number s' = 0 /\
    read_token (new (i64_to_string i ++ r) int) = Done (Some (Integer i)) s'.
Proof.
  intros Hpos Hi Hr. pose proof (read_numeral_runs i r Hpos Hi Hr) as Hn.
  destruct (i64_to_string_digits i Hpos Hi) as (bs & ds & Ebs & Hne & Hds & _).
  rewrite Ebs in *. apply mapM_is_digit in Hds. destruct bs as [|c bs]; [done|].
  inversion Hds as [|?? Hc Hbs]; subst. cbn [app] in *.
  eapply runs_token, read_token_runs.
  1-3: unfold is_blank, is_newline, TAB, VERTICAL_TAB, FORM_FEED, NL, CR;
    by rewrite ?(class_neq is_digit c).
  unfold do_read_token. rstep; [rstep|]. cbn [lookup list_lookup].
  change (is_blank c) with ((c =? 32) || (c =? 9) || (c =? 11) || (c =? 12)).
  change (is_newline c) with ((c =? 10) || (c =? 13)).
  rewrite !(class_neq is_digit c) by done. rewrite Hc. cbn [orb].
  eapply runs_bind; [apply runs_weaken0; exact Hn|apply runs_ret].
Qed.

Lemma runs_prefix {A B} (m : lexM A) (f : A -> lexM B) k s b a k1 s1 b1 int pc line :
  runs m k s b a k1 s1 b1 -> (k <= pc <= length s)%nat ->
  exists pc1, (k1 <= pc1 <= length s1)%nat /\
    (m ≫= f) (mk_lexer s int pc b line) = f a (mk_lexer s1 int pc1 b1 line).
Proof.
  intros Hm Hk. destruct (Hm int pc line Hk) as (pc1 & Hk1 & E). exists pc1.
  split; [done|]. unfold mbind, lexM_bind. by rewrite E.
Qed.

Definition word_token (w : bytes) (t : Token IString) : Prop :=
  match get_reserved_word_token w with
  | Some k => t = k
  | None => exists n, t = Name n /\ as_ref n = w
  end.

Lemma read_word_run c w r int pc : Forall (fun c => (is_alpha c || is_digit c) = true) w ->
  ends_word r -> (1 <= pc <= length (c :: w ++ r))%nat ->
  exists t s', read_word c (mk_lexer (c :: w ++ r) int pc [] 0) = Done t s' /\
    source s' = r /\ line_number s' = 0 /\ word_token (c :: w) t.
Proof.
  intros Hw Hr Hpc. unfold read_word.
  assert (Hread : runs (clear_buffer ;; push c ;; advance 1 ;;
      read_while (fun c => is_alpha c || is_digit c) push ;; get_buffer)
    1 (c :: w ++ r) [] (c :: w) 0 r (c :: w)).
  { do 3 (rstep; [rstep|]). cbn [drop app]. rewrite ?drop_0.
    rstep; [apply runs_weaken0|apply runs_get]. change (c :: w) with ([c] ++ w).
    apply read_while_runs; [done|]. intros d r' ->. by destruct Hr as (-> & -> & _). }
  destruct (Hread int pc 0 Hpc) as (pc1 & Hpc1 & E). revert E.
  unfold mbind, lexM_bind.
  destruct (clear_buffer _) as [? s1|? ?| |]; try discriminate.
  destruct (push c s1) as [? s2|? ?| |]; try discriminate.
  destruct (advance 1 s2) as [? s3|? ?| |]; try discriminate.
  destruct (read_while _ push s3) as [? s4|? ?| |]; try discriminate.
  intros ->. unfold word_token.
  destruct (get_reserved_word_token (c :: w)) as [k|]; [by do 2 eexists|].
  unfold take_string. cbn [interner string_buffer source line_number].
  pose proof (intern_as_ref int (c :: w)) as Hi. destruct (intern int (c :: w)) as [st n].
  do 2 eexists. split; [done|]. split; [done|]. split; [done|]. by exists n.
Qed.

(** A word is lexed as a whole, to its keyword if it is a reserved word and
    otherwise to a [Name] whose interned string is exactly its bytes. *)
Theorem read_token_word (w r : bytes) (int : InternerState) :
  is_word w -> ends_word r ->
  exists t s', read_token (new (w ++ r) int) = Done (Some t) s' /\
    source s' = r /\ line_number s' = 0 /\ word_token w t.
Proof.
  intros Hw Hr. destruct w as [|c w]; [done|]. destruct Hw as [Hc Hw]. cbn [app].
  assert (Hneq : forall k, is_alpha k = false -> (c =? k) = false)
    by (intros; by apply (class_neq is_alpha)).
  assert (Hb : is_blank c = false /\ is_newline c = false).
  { unfold is_blank, is_newline, TAB, VERTICAL_TAB, FORM_FEED, NL, CR. by rewrite !Hneq. }
  destruct Hb as [Hb Hn].
  assert (Hd : is_digit c = false).
  { destruct (is_digit c) eqn:E; [|done]. apply is_digit_spec in E.
    unfold is_alpha in Hc. revert Hc.
    rewrite !orb_true_iff, !andb_true_iff, !Z.leb_le, Z.eqb_eq. lia. }
  assert (Hg : get_char_token (S := IString) c = None)
    by (unfold get_char_token; by rewrite !Hneq).
  unfold read_token.
  destruct (runs_prefix _ (fun _ => unless_token_reset do_read_token) 0 _ _ _ _ _ _ int 0 0
    (skip_nothing c (w ++ r) [] Hb Hn (Hneq 45 eq_refl))) as (pc & Hpc & E); [cbn; lia|].
  unfold new. rewrite E. unfold unless_token_reset, do_read_token.
  match goal with |- context [(peek 0 ≫= ?f) _] =>
    destruct (runs_prefix (peek 0) f 0 _ [] _ _ _ _ int pc 0
      (runs_peek 0 0 (c :: w ++ r) [])) as (pc2 & Hpc2 & E2); [exact Hpc|]
  end. rewrite E2. clear E E2.
  cbn [lookup list_lookup].
  rewrite Hb, Hn, !Hneq, Hd, Hg, Hc by done. cbn [orb].
  destruct (read_word_run c w r int pc2 Hw Hr) as (t & s' & Et & Hs'); [cbn in *; lia|].
  exists t, s'. unfold mbind, lexM_bind. by rewrite Et.
Qed.
End theorems.

(** ** Concrete sources *)

#[local] Instance release : BuildProfile := {| overflow_checks := false |}.

(** A fresh [BasicInterner] *)
Definition no_strings : @InternerState BasicInterner := (∅ : gset (list Z)).

Definition lex_words (src : bytes) : option (list (Token (list Z))) :=
  match read_all (S (length src)) (new src no_strings) with
  | Done ts _ => Some ts
  | _ => None
  end.

Example lex_statement :
  lex_words (bs# "local x = y // 2 -- half") =
    Some [Local; Name (bs# "x"); Assign; Name (bs# "y"); IDiv; Integer 2].
Proof. vm_compute. reflexivity. Qed.

Definition sample : lexer := new (bs# "a = [==[ x ]==]") no_strings.

Lemma read_token_safe_witness :
  wf sample /\
  match read_token sample with
  | Done (Some _) s' =>
      wf s' /\ source s' `suffix_of` source sample /\
      (length (source s') < length (source sample))%nat /\
      line_number s' + newlines (source s') = line_number sample + newlines (source sample)
  | Done None s' =>
      wf s' /\ source s' = [] /\ line_number s' = line_number sample + newlines (source sample)
  | Fail _ s' => wf s' /\ source s' = [] /\ string_buffer s' = []
  | Panicked | OutOfFuel => False
  end.
Proof.
  assert (Hwf : wf sample) by (split; vm_compute; (reflexivity || discriminate || lia)).
  split; [exact Hwf|exact (read_token_safe sample Hwf)].
Defined.

Lemma read_all_total_witness :
  match read_all (S (length (bs# "f(0x10, 1e2) -- z"))) (new (bs# "f(0x10, 1e2) -- z") no_strings) with
  | Done _ s' => source s' = [] /\ line_number s' = newlines (bs# "f(0x10, 1e2) -- z")
  | Fail _ s' => source s' = []
  | Panicked | OutOfFuel => False
  end.
Proof. apply (read_all_total (bs# "f(0x10, 1e2) -- z") no_strings). reflexivity. Defined.

Lemma read_short_string_escaped_witness :
  exists pc, read_short_string
      (mk_lexer (34 :: concat (escape_byte <$> [0; 34; 255]) ++ 34 :: bs# ";") no_strings 0 [] 3) =
    Done tt (mk_lexer (bs# ";") no_strings pc [0; 34; 255] 3).
Proof.
  apply (read_short_string_escaped 34 [0; 34; 255]); [by left|].
  repeat constructor; unfold is_byte; lia.
Defined.

Lemma read_token_integer_witness :
  exists s', source s' = bs# " " /\ line_number s' = 0 /\
    read_token (new (i64_to_string 9223372036854775807 ++ bs# " ") no_strings) =
      Done (Some (Integer 9223372036854775807)) s'.
Proof. apply read_token_integer; [lia|int_lia|by split_and!]. Defined.

Lemma read_token_word_witness :
  exists t s', read_token (new (bs# "end_" ++ bs# "=") no_strings) = Done (Some t) s' /\
    source s' = bs# "=" /\ line_number s' = 0 /\ word_token (bs# "end_") t.
Proof. apply read_token_word; [repeat constructor|by split_and!]. Defined.

(** A [\u{...}] escape whose value does not fit [u32] loses its high bits instead
    of being refused, so an escape far above the last code point is read as the
    ASCII letter of its low bits; an escape without digits is the NUL byte. *)
Theorem unicode_escape_wraps :
  lex_words (34 :: bs# "\u{100000041}" ++ [34]) = Some [String (bs# "A")] /\
  lex_words (34 :: bs# "\u{}" ++ [34]) = Some [String [0]].
Proof. split; vm_compute; reflexivity. Qed.
