(* ===== verification/Opcode.v ===== *)
(** * Instructions: [opcode.rs] and [types.rs]

    Operand types, the instruction set in its two representations, the coding
    between them and the one-byte optional counts. *)

From S2P Require Import Prelude.

(** ** [types.rs]: indexes *)

Record RegisterIndex : Type := mk_RegisterIndex { register_index : Z }.
Record ConstantIndex8 : Type := mk_ConstantIndex8 { constant_index8 : Z }.
Record ConstantIndex16 : Type := mk_ConstantIndex16 { constant_index16 : Z }.
Record UpValueIndex : Type := mk_UpValueIndex { upvalue_index : Z }.
Record PrototypeIndex : Type := mk_PrototypeIndex { prototype_index : Z }.

#[export] Instance RegisterIndex_eq_dec : EqDecision RegisterIndex.
Proof. solve_decision. Defined.
#[export] Instance ConstantIndex8_eq_dec : EqDecision ConstantIndex8.
Proof. solve_decision. Defined.
#[export] Instance UpValueIndex_eq_dec : EqDecision UpValueIndex.
Proof. solve_decision. Defined.

Inductive UpValueDescriptor : Type :=
  | Environment
  | ParentLocal (r : RegisterIndex)
  | Outer (u : UpValueIndex).

(** ** [Opt254]: an optional byte stored in a byte, 255 being [None] *)
Module Opt254.
Record t : Type := Opt254 { byte : Z }.

Definition try_new (v : option Z) : option t :=
  match v with
  | Some v => if v =? 255 then None else Some (Opt254 v)
  | None => Some (Opt254 255)
  end.

(** [expect] panics on [None]. *)
Definition new (v : option Z) : outcome t :=
  match try_new v with Some o => Ok o | None => Panic end.

Definition some (v : Z) : outcome t := new (Some v).
Definition try_some (v : Z) : option t := try_new (Some v).
Definition none : outcome t := new None.

Definition to_u8 (o : t) : option Z := if byte o =? 255 then None else Some (byte o).
Definition is_some (o : t) : bool := if to_u8 o is Some _ then true else false.
Definition is_none (o : t) : bool := if to_u8 o is None then true else false.

Definition wf (o : t) : Prop := in_int u8 (byte o).

Lemma try_new_to_u8 v o : (forall b, v = Some b -> in_int u8 b) ->
  try_new v = Some o -> to_u8 o = v /\ wf o.
Proof.
  unfold try_new, to_u8, wf. intros Hv. destruct v as [v|].
  - destruct (Z.eqb_spec v 255) as [->|Hne]; [done|]. intros [= <-]. cbn.
    apply Z.eqb_neq in Hne as ->. auto.
  - intros [= <-]. split; [done|]. cbn. int_lia.
Qed.

Lemma new_inv v o : new v = Ok o <-> try_new v = Some o.
Proof. unfold new. destruct (try_new v); split; intros [= ->]; done. Qed.

Lemma to_u8_new o : wf o -> new (to_u8 o) = Ok o.
Proof.
  intros Ho. unfold to_u8, new, try_new. destruct o as [b]. cbn.
  destruct (Z.eqb_spec b 255) as [->|Hne]; [done|]. by apply Z.eqb_neq in Hne as ->.
Qed.
End Opt254.

(** ** [VarCount]: a number of values, constant up to 254 or variable *)
Module VarCount.
Record t : Type := VarCount { opt : Opt254.t }.

Definition variable : outcome t := VarCount <$> Opt254.none.
Definition constant (constant : Z) : outcome t := VarCount <$> Opt254.some constant.
Definition try_constant (constant : Z) : option t :=
  VarCount <$> Opt254.try_some constant.
Definition is_variable (c : t) : bool := Opt254.is_none (opt c).
Definition to_constant (c : t) : option Z := Opt254.to_u8 (opt c).

Definition wf (c : t) : Prop := Opt254.wf (opt c).

(** A [VarCount] is either variable or the constant it was made from.
    [constant] succeeds for 0..254 and panics for 255 only, [try_constant] fails
    exactly there, [variable] never panics, and each well-formed count is
    rebuilt from what [to_constant] reads. *)
Theorem varcount_contract :
  (exists v, variable = Ok v /\ wf v /\ is_variable v = true /\ to_constant v = None) /\
  (forall n, in_int u8 n ->
     match constant n with
     | Ok v => n <> 255 /\ wf v /\ is_variable v = false /\ to_constant v = Some n /\
         try_constant n = Some v
     | Panic => n = 255 /\ try_constant n = None
     end) /\
  (forall v, wf v ->
     match to_constant v with Some n => constant n | None => variable end = Ok v).
Proof.
  split_and!.
  - eexists. split; [reflexivity|]. split; [|done]. unfold wf, Opt254.wf. cbn. int_lia.
  - intros n Hn. unfold constant, try_constant, Opt254.some, Opt254.try_some, Opt254.new.
    destruct (Opt254.try_new (Some n)) as [o|] eqn:E; cbn.
    + destruct (Opt254.try_new_to_u8 (Some n) o) as [Ho Hwf]; [by intros ? [= ->]|done|].
      assert (n <> 255) by (intros ->; discriminate).
      unfold is_variable, to_constant, Opt254.is_none, wf. cbn. by rewrite Ho.
    + revert E. cbn. by destruct (Z.eqb_spec n 255).
  - intros [o] Ho. pose proof (Opt254.to_u8_new o Ho) as E. revert E. unfold to_constant. cbn [opt].
    destruct (Opt254.to_u8 o) as [n|]; intros E; unfold constant, variable, Opt254.some, Opt254.none;
      by rewrite E.
Qed.
End VarCount.

(** ** [opcode.rs] *)

(** A register or a constant *)
Module RCIndex.
Inductive t : Type :=
  | Register (i : RegisterIndex)
  | Constant (i : ConstantIndex8).
End RCIndex.
Abbreviation RCIndex := RCIndex.t.
Abbreviation VarCount := VarCount.t.
Abbreviation Opt254 := Opt254.t.

(** The [From] instances, applied by [into] in [decode] *)
Definition RCIndex_from_register (value : RegisterIndex) : RCIndex := RCIndex.Register value.
Definition RCIndex_from_constant (value : ConstantIndex8) : RCIndex := RCIndex.Constant value.
Coercion RCIndex_from_register : RegisterIndex >-> RCIndex.t.
Coercion RCIndex_from_constant : ConstantIndex8 >-> RCIndex.t.

(** [Operation]: the instructions as the compiler emits them and the VM matches them *)
Module Operation.
Inductive t : Type :=
  | Move (dest : RegisterIndex) (source : RegisterIndex)
  | LoadConstant (dest : RegisterIndex) (constant : ConstantIndex16)
  | LoadBool (dest : RegisterIndex) (value : bool) (skip_next : bool)
  | LoadNil (dest : RegisterIndex) (count : Z)
  | NewTable (dest : RegisterIndex) (array_size : Z) (map_size : Z)
  | GetTable (dest : RegisterIndex) (table : RegisterIndex) (key : RCIndex)
  | SetTable (table : RegisterIndex) (key : RCIndex) (value : RCIndex)
  | GetUpTable (dest : RegisterIndex) (table : UpValueIndex) (key : RCIndex)
  | SetUpTable (table : UpValueIndex) (key : RCIndex) (value : RCIndex)
  | SetList (base : RegisterIndex) (count : VarCount)
  | Call (func : RegisterIndex) (args : VarCount) (returns : VarCount)
  | TailCall (func : RegisterIndex) (args : VarCount)
  | Return (start : RegisterIndex) (count : VarCount)
  | VarArgs (dest : RegisterIndex) (count : VarCount)
  | Jump (offset : Z) (close_upvalues : Opt254)
  | Test (value : RegisterIndex) (is_true : bool)
  | TestSet (dest : RegisterIndex) (value : RegisterIndex) (is_true : bool)
  | Closure (dest : RegisterIndex) (proto : PrototypeIndex)
  | NumericForPrep (base : RegisterIndex) (jump : Z)
  | NumericForLoop (base : RegisterIndex) (jump : Z)
  | GenericForCall (base : RegisterIndex) (var_count : Z)
  | GenericForLoop (base : RegisterIndex) (jump : Z)
  | Method (base : RegisterIndex) (table : RegisterIndex) (key : RCIndex)
  | Concat (dest : RegisterIndex) (source : RegisterIndex) (count : Z)
  | GetUpValue (dest : RegisterIndex) (source : UpValueIndex)
  | SetUpValue (dest : UpValueIndex) (source : RegisterIndex)
  | Length (dest : RegisterIndex) (source : RegisterIndex)
  | Eq (skip_if : bool) (left_ : RCIndex) (right_ : RCIndex)
  | Less (skip_if : bool) (left_ : RCIndex) (right_ : RCIndex)
  | LessEq (skip_if : bool) (left_ : RCIndex) (right_ : RCIndex)
  | Not (dest : RegisterIndex) (source : RegisterIndex)
  | Minus (dest : RegisterIndex) (source : RegisterIndex)
  | Add (dest : RegisterIndex) (left_ : RCIndex) (right_ : RCIndex)
  | Sub (dest : RegisterIndex) (left_ : RCIndex) (right_ : RCIndex)
  | Mul (dest : RegisterIndex) (left_ : RCIndex) (right_ : RCIndex)
  | Div (dest : RegisterIndex) (left_ : RCIndex) (right_ : RCIndex)
  | IDiv (dest : RegisterIndex) (left_ : RCIndex) (right_ : RCIndex)
  | Mod (dest : RegisterIndex) (left_ : RCIndex) (right_ : RCIndex)
  | Pow (dest : RegisterIndex) (left_ : RCIndex) (right_ : RCIndex)
  | BitAnd (dest : RegisterIndex) (left_ : RCIndex) (right_ : RCIndex)
  | BitOr (dest : RegisterIndex) (left_ : RCIndex) (right_ : RCIndex)
  | BitXor (dest : RegisterIndex) (left_ : RCIndex) (right_ : RCIndex)
  | ShiftLeft (dest : RegisterIndex) (left_ : RCIndex) (right_ : RCIndex)
  | ShiftRight (dest : RegisterIndex) (left_ : RCIndex) (right_ : RCIndex)
  | BitNot (dest : RegisterIndex) (source : RegisterIndex).
End Operation.

(** [OpCodeRepr]: the stored form, one variant per combination of operand kinds *)
Module OpCodeRepr.
Inductive t : Type :=
  | Move (dest : RegisterIndex) (source : RegisterIndex)
  | LoadConstant (dest : RegisterIndex) (constant : ConstantIndex16)
  | LoadBool (dest : RegisterIndex) (value : bool) (skip_next : bool)
  | LoadNil (dest : RegisterIndex) (count : Z)
  | NewTable (dest : RegisterIndex) (array_size : Z) (map_size : Z)
  | GetTableR (dest : RegisterIndex) (table : RegisterIndex) (key : RegisterIndex)
  | GetTableC (dest : RegisterIndex) (table : RegisterIndex) (key : ConstantIndex8)
  | SetTableRR (table : RegisterIndex) (key : RegisterIndex) (value : RegisterIndex)
  | SetTableRC (table : RegisterIndex) (key : RegisterIndex) (value : ConstantIndex8)
  | SetTableCR (table : RegisterIndex) (key : ConstantIndex8) (value : RegisterIndex)
  | SetTableCC (table : RegisterIndex) (key : ConstantIndex8) (value : ConstantIndex8)
  | GetUpTableR (dest : RegisterIndex) (table : UpValueIndex) (key : RegisterIndex)
  | GetUpTableC (dest : RegisterIndex) (table : UpValueIndex) (key : ConstantIndex8)
  | SetUpTableRR (table : UpValueIndex) (key : RegisterIndex) (value : RegisterIndex)
  | SetUpTableRC (table : UpValueIndex) (key : RegisterIndex) (value : ConstantIndex8)
  | SetUpTableCR (table : UpValueIndex) (key : ConstantIndex8) (value : RegisterIndex)
  | SetUpTableCC (table : UpValueIndex) (key : ConstantIndex8) (value : ConstantIndex8)
  | SetList (base : RegisterIndex) (count : VarCount)
  | Call (func : RegisterIndex) (args : VarCount) (returns : VarCount)
  | TailCall (func : RegisterIndex) (args : VarCount)
  | Return (start : RegisterIndex) (count : VarCount)
  | VarArgs (dest : RegisterIndex) (count : VarCount)
  | Jump (offset : Z) (close_upvalues : Opt254)
  | Test (value : RegisterIndex) (is_true : bool)
  | TestSet (dest : RegisterIndex) (value : RegisterIndex) (is_true : bool)
  | Closure (dest : RegisterIndex) (proto : PrototypeIndex)
  | NumericForPrep (base : RegisterIndex) (jump : Z)
  | NumericForLoop (base : RegisterIndex) (jump : Z)
  | GenericForCall (base : RegisterIndex) (var_count : Z)
  | GenericForLoop (base : RegisterIndex) (jump : Z)
  | MethodR (base : RegisterIndex) (table : RegisterIndex) (key : RegisterIndex)
  | MethodC (base : RegisterIndex) (table : RegisterIndex) (key : ConstantIndex8)
  | Concat (dest : RegisterIndex) (source : RegisterIndex) (count : Z)
  | GetUpValue (dest : RegisterIndex) (source : UpValueIndex)
  | SetUpValue (dest : UpValueIndex) (source : RegisterIndex)
  | Length (dest : RegisterIndex) (source : RegisterIndex)
  | EqRR (skip_if : bool) (left_ : RegisterIndex) (right_ : RegisterIndex)
  | EqRC (skip_if : bool) (left_ : RegisterIndex) (right_ : ConstantIndex8)
  | EqCR (skip_if : bool) (left_ : ConstantIndex8) (right_ : RegisterIndex)
  | EqCC (skip_if : bool) (left_ : ConstantIndex8) (right_ : ConstantIndex8)
  | LessRR (skip_if : bool) (left_ : RegisterIndex) (right_ : RegisterIndex)
  | LessRC (skip_if : bool) (left_ : RegisterIndex) (right_ : ConstantIndex8)
  | LessCR (skip_if : bool) (left_ : ConstantIndex8) (right_ : RegisterIndex)
  | LessCC (skip_if : bool) (left_ : ConstantIndex8) (right_ : ConstantIndex8)
  | LessEqRR (skip_if : bool) (left_ : RegisterIndex) (right_ : RegisterIndex)
  | LessEqRC (skip_if : bool) (left_ : RegisterIndex) (right_ : ConstantIndex8)
  | LessEqCR (skip_if : bool) (left_ : ConstantIndex8) (right_ : RegisterIndex)
  | LessEqCC (skip_if : bool) (left_ : ConstantIndex8) (right_ : ConstantIndex8)
  | Not (dest : RegisterIndex) (source : RegisterIndex)
  | Minus (dest : RegisterIndex) (source : RegisterIndex)
  | AddRR (dest : RegisterIndex) (left_ : RegisterIndex) (right_ : RegisterIndex)
  | AddRC (dest : RegisterIndex) (left_ : RegisterIndex) (right_ : ConstantIndex8)
  | AddCR (dest : RegisterIndex) (left_ : ConstantIndex8) (right_ : RegisterIndex)
  | AddCC (dest : RegisterIndex) (left_ : ConstantIndex8) (right_ : ConstantIndex8)
  | SubRR (dest : RegisterIndex) (left_ : RegisterIndex) (right_ : RegisterIndex)
  | SubRC (dest : RegisterIndex) (left_ : RegisterIndex) (right_ : ConstantIndex8)
  | SubCR (dest : RegisterIndex) (left_ : ConstantIndex8) (right_ : RegisterIndex)
  | SubCC (dest : RegisterIndex) (left_ : ConstantIndex8) (right_ : ConstantIndex8)
  | MulRR (dest : RegisterIndex) (left_ : RegisterIndex) (right_ : RegisterIndex)
  | MulRC (dest : RegisterIndex) (left_ : RegisterIndex) (right_ : ConstantIndex8)
  | MulCR (dest : RegisterIndex) (left_ : ConstantIndex8) (right_ : RegisterIndex)
  | MulCC (dest : RegisterIndex) (left_ : ConstantIndex8) (right_ : ConstantIndex8)
  | DivRR (dest : RegisterIndex) (left_ : RegisterIndex) (right_ : RegisterIndex)
  | DivRC (dest : RegisterIndex) (left_ : RegisterIndex) (right_ : ConstantIndex8)
  | DivCR (dest : RegisterIndex) (left_ : ConstantIndex8) (right_ : RegisterIndex)
  | DivCC (dest : RegisterIndex) (left_ : ConstantIndex8) (right_ : ConstantIndex8)
  | IDivRR (dest : RegisterIndex) (left_ : RegisterIndex) (right_ : RegisterIndex)
  | IDivRC (dest : RegisterIndex) (left_ : RegisterIndex) (right_ : ConstantIndex8)
  | IDivCR (dest : RegisterIndex) (left_ : ConstantIndex8) (right_ : RegisterIndex)
  | IDivCC (dest : RegisterIndex) (left_ : ConstantIndex8) (right_ : ConstantIndex8)
  | ModRR (dest : RegisterIndex) (left_ : RegisterIndex) (right_ : RegisterIndex)
  | ModRC (dest : RegisterIndex) (left_ : RegisterIndex) (right_ : ConstantIndex8)
  | ModCR (dest : RegisterIndex) (left_ : ConstantIndex8) (right_ : RegisterIndex)
  | ModCC (dest : RegisterIndex) (left_ : ConstantIndex8) (right_ : ConstantIndex8)
  | PowRR (dest : RegisterIndex) (left_ : RegisterIndex) (right_ : RegisterIndex)
  | PowRC (dest : RegisterIndex) (left_ : RegisterIndex) (right_ : ConstantIndex8)
  | PowCR (dest : RegisterIndex) (left_ : ConstantIndex8) (right_ : RegisterIndex)
  | PowCC (dest : RegisterIndex) (left_ : ConstantIndex8) (right_ : ConstantIndex8)
  | BitAndRR (dest : RegisterIndex) (left_ : RegisterIndex) (right_ : RegisterIndex)
  | BitAndRC (dest : RegisterIndex) (left_ : RegisterIndex) (right_ : ConstantIndex8)
  | BitAndCR (dest : RegisterIndex) (left_ : ConstantIndex8) (right_ : RegisterIndex)
  | BitAndCC (dest : RegisterIndex) (left_ : ConstantIndex8) (right_ : ConstantIndex8)
  | BitOrRR (dest : RegisterIndex) (left_ : RegisterIndex) (right_ : RegisterIndex)
  | BitOrRC (dest : RegisterIndex) (left_ : RegisterIndex) (right_ : ConstantIndex8)
  | BitOrCR (dest : RegisterIndex) (left_ : ConstantIndex8) (right_ : RegisterIndex)
  | BitOrCC (dest : RegisterIndex) (left_ : ConstantIndex8) (right_ : ConstantIndex8)
  | BitXorRR (dest : RegisterIndex) (left_ : RegisterIndex) (right_ : RegisterIndex)
  | BitXorRC (dest : RegisterIndex) (left_ : RegisterIndex) (right_ : ConstantIndex8)
  | BitXorCR (dest : RegisterIndex) (left_ : ConstantIndex8) (right_ : RegisterIndex)
  | BitXorCC (dest : RegisterIndex) (left_ : ConstantIndex8) (right_ : ConstantIndex8)
  | ShiftLeftRR (dest : RegisterIndex) (left_ : RegisterIndex) (right_ : RegisterIndex)
  | ShiftLeftRC (dest : RegisterIndex) (left_ : RegisterIndex) (right_ : ConstantIndex8)
  | ShiftLeftCR (dest : RegisterIndex) (left_ : ConstantIndex8) (right_ : RegisterIndex)
  | ShiftLeftCC (dest : RegisterIndex) (left_ : ConstantIndex8) (right_ : ConstantIndex8)
  | ShiftRightRR (dest : RegisterIndex) (left_ : RegisterIndex) (right_ : RegisterIndex)
  | ShiftRightRC (dest : RegisterIndex) (left_ : RegisterIndex) (right_ : ConstantIndex8)
  | ShiftRightCR (dest : RegisterIndex) (left_ : ConstantIndex8) (right_ : RegisterIndex)
  | ShiftRightCC (dest : RegisterIndex) (left_ : ConstantIndex8) (right_ : ConstantIndex8)
  | BitNot (dest : RegisterIndex) (source : RegisterIndex).
End OpCodeRepr.

Module OpCode.
Definition encode (operation : Operation.t) : OpCodeRepr.t :=
  match operation with
  | Operation.Move dest source => OpCodeRepr.Move dest source
  | Operation.LoadConstant dest constant => OpCodeRepr.LoadConstant dest constant
  | Operation.LoadBool dest value skip_next => OpCodeRepr.LoadBool dest value skip_next
  | Operation.LoadNil dest count => OpCodeRepr.LoadNil dest count
  | Operation.NewTable dest array_size map_size => OpCodeRepr.NewTable dest array_size map_size
  | Operation.GetTable dest table key =>
      match key with
      | RCIndex.Register key => OpCodeRepr.GetTableR dest table key
      | RCIndex.Constant key => OpCodeRepr.GetTableC dest table key
      end
  | Operation.SetTable table key value =>
      match key, value with
      | RCIndex.Register key, RCIndex.Register value => OpCodeRepr.SetTableRR table key value
      | RCIndex.Register key, RCIndex.Constant value => OpCodeRepr.SetTableRC table key value
      | RCIndex.Constant key, RCIndex.Register value => OpCodeRepr.SetTableCR table key value
      | RCIndex.Constant key, RCIndex.Constant value => OpCodeRepr.SetTableCC table key value
      end
  | Operation.GetUpTable dest table key =>
      match key with
      | RCIndex.Register key => OpCodeRepr.GetUpTableR dest table key
      | RCIndex.Constant key => OpCodeRepr.GetUpTableC dest table key
      end
  | Operation.SetUpTable table key value =>
      match key, value with
      | RCIndex.Register key, RCIndex.Register value => OpCodeRepr.SetUpTableRR table key value
      | RCIndex.Register key, RCIndex.Constant value => OpCodeRepr.SetUpTableRC table key value
      | RCIndex.Constant key, RCIndex.Register value => OpCodeRepr.SetUpTableCR table key value
      | RCIndex.Constant key, RCIndex.Constant value => OpCodeRepr.SetUpTableCC table key value
      end
  | Operation.SetList base count => OpCodeRepr.SetList base count
  | Operation.Call func args returns => OpCodeRepr.Call func args returns
  | Operation.TailCall func args => OpCodeRepr.TailCall func args
  | Operation.Return start count => OpCodeRepr.Return start count
  | Operation.VarArgs dest count => OpCodeRepr.VarArgs dest count
  | Operation.Jump offset close_upvalues => OpCodeRepr.Jump offset close_upvalues
  | Operation.Test value is_true => OpCodeRepr.Test value is_true
  | Operation.TestSet dest value is_true => OpCodeRepr.TestSet dest value is_true
  | Operation.Closure dest proto => OpCodeRepr.Closure dest proto
  | Operation.NumericForPrep base jump => OpCodeRepr.NumericForPrep base jump
  | Operation.NumericForLoop base jump => OpCodeRepr.NumericForLoop base jump
  | Operation.GenericForCall base var_count => OpCodeRepr.GenericForCall base var_count
  | Operation.GenericForLoop base jump => OpCodeRepr.GenericForLoop base jump
  | Operation.Method base table key =>
      match key with
      | RCIndex.Register key => OpCodeRepr.MethodR base table key
      | RCIndex.Constant key => OpCodeRepr.MethodC base table key
      end
  | Operation.Concat dest source count => OpCodeRepr.Concat dest source count
  | Operation.GetUpValue dest source => OpCodeRepr.GetUpValue dest source
  | Operation.SetUpValue dest source => OpCodeRepr.SetUpValue dest source
  | Operation.Length dest source => OpCodeRepr.Length dest source
  | Operation.Eq skip_if left_ right_ =>
      match left_, right_ with
      | RCIndex.Register left_, RCIndex.Register right_ => OpCodeRepr.EqRR skip_if left_ right_
      | RCIndex.Register left_, RCIndex.Constant right_ => OpCodeRepr.EqRC skip_if left_ right_
      | RCIndex.Constant left_, RCIndex.Register right_ => OpCodeRepr.EqCR skip_if left_ right_
      | RCIndex.Constant left_, RCIndex.Constant right_ => OpCodeRepr.EqCC skip_if left_ right_
      end
  | Operation.Less skip_if left_ right_ =>
      match left_, right_ with
      | RCIndex.Register left_, RCIndex.Register right_ => OpCodeRepr.LessRR skip_if left_ right_
      | RCIndex.Register left_, RCIndex.Constant right_ => OpCodeRepr.LessRC skip_if left_ right_
      | RCIndex.Constant left_, RCIndex.Register right_ => OpCodeRepr.LessCR skip_if left_ right_
      | RCIndex.Constant left_, RCIndex.Constant right_ => OpCodeRepr.LessCC skip_if left_ right_
      end
  | Operation.LessEq skip_if left_ right_ =>
      match left_, right_ with
      | RCIndex.Register left_, RCIndex.Register right_ => OpCodeRepr.LessEqRR skip_if left_ right_
      | RCIndex.Register left_, RCIndex.Constant right_ => OpCodeRepr.LessEqRC skip_if left_ right_
      | RCIndex.Constant left_, RCIndex.Register right_ => OpCodeRepr.LessEqCR skip_if left_ right_
      | RCIndex.Constant left_, RCIndex.Constant right_ => OpCodeRepr.LessEqCC skip_if left_ right_
      end
  | Operation.Not dest source => OpCodeRepr.Not dest source
  | Operation.Minus dest source => OpCodeRepr.Minus dest source
  | Operation.Add dest left_ right_ =>
      match left_, right_ with
      | RCIndex.Register left_, RCIndex.Register right_ => OpCodeRepr.AddRR dest left_ right_
      | RCIndex.Register left_, RCIndex.Constant right_ => OpCodeRepr.AddRC dest left_ right_
      | RCIndex.Constant left_, RCIndex.Register right_ => OpCodeRepr.AddCR dest left_ right_
      | RCIndex.Constant left_, RCIndex.Constant right_ => OpCodeRepr.AddCC dest left_ right_
      end
  | Operation.Sub dest left_ right_ =>
      match left_, right_ with
      | RCIndex.Register left_, RCIndex.Register right_ => OpCodeRepr.SubRR dest left_ right_
      | RCIndex.Register left_, RCIndex.Constant right_ => OpCodeRepr.SubRC dest left_ right_
      | RCIndex.Constant left_, RCIndex.Register right_ => OpCodeRepr.SubCR dest left_ right_
      | RCIndex.Constant left_, RCIndex.Constant right_ => OpCodeRepr.SubCC dest left_ right_
      end
  | Operation.Mul dest left_ right_ =>
      match left_, right_ with
      | RCIndex.Register left_, RCIndex.Register right_ => OpCodeRepr.MulRR dest left_ right_
      | RCIndex.Register left_, RCIndex.Constant right_ => OpCodeRepr.MulRC dest left_ right_
      | RCIndex.Constant left_, RCIndex.Register right_ => OpCodeRepr.MulCR dest left_ right_
      | RCIndex.Constant left_, RCIndex.Constant right_ => OpCodeRepr.MulCC dest left_ right_
      end
  | Operation.Div dest left_ right_ =>
      match left_, right_ with
      | RCIndex.Register left_, RCIndex.Register right_ => OpCodeRepr.DivRR dest left_ right_
      | RCIndex.Register left_, RCIndex.Constant right_ => OpCodeRepr.DivRC dest left_ right_
      | RCIndex.Constant left_, RCIndex.Register right_ => OpCodeRepr.DivCR dest left_ right_
      | RCIndex.Constant left_, RCIndex.Constant right_ => OpCodeRepr.DivCC dest left_ right_
      end
  | Operation.IDiv dest left_ right_ =>
      match left_, right_ with
      | RCIndex.Register left_, RCIndex.Register right_ => OpCodeRepr.IDivRR dest left_ right_
      | RCIndex.Register left_, RCIndex.Constant right_ => OpCodeRepr.IDivRC dest left_ right_
      | RCIndex.Constant left_, RCIndex.Register right_ => OpCodeRepr.IDivCR dest left_ right_
      | RCIndex.Constant left_, RCIndex.Constant right_ => OpCodeRepr.IDivCC dest left_ right_
      end
  | Operation.Mod dest left_ right_ =>
      match left_, right_ with
      | RCIndex.Register left_, RCIndex.Register right_ => OpCodeRepr.ModRR dest left_ right_
      | RCIndex.Register left_, RCIndex.Constant right_ => OpCodeRepr.ModRC dest left_ right_
      | RCIndex.Constant left_, RCIndex.Register right_ => OpCodeRepr.ModCR dest left_ right_
      | RCIndex.Constant left_, RCIndex.Constant right_ => OpCodeRepr.ModCC dest left_ right_
      end
  | Operation.Pow dest left_ right_ =>
      match left_, right_ with
      | RCIndex.Register left_, RCIndex.Register right_ => OpCodeRepr.PowRR dest left_ right_
      | RCIndex.Register left_, RCIndex.Constant right_ => OpCodeRepr.PowRC dest left_ right_
      | RCIndex.Constant left_, RCIndex.Register right_ => OpCodeRepr.PowCR dest left_ right_
      | RCIndex.Constant left_, RCIndex.Constant right_ => OpCodeRepr.PowCC dest left_ right_
      end
  | Operation.BitAnd dest left_ right_ =>
      match left_, right_ with
      | RCIndex.Register left_, RCIndex.Register right_ => OpCodeRepr.BitAndRR dest left_ right_
      | RCIndex.Register left_, RCIndex.Constant right_ => OpCodeRepr.BitAndRC dest left_ right_
      | RCIndex.Constant left_, RCIndex.Register right_ => OpCodeRepr.BitAndCR dest left_ right_
      | RCIndex.Constant left_, RCIndex.Constant right_ => OpCodeRepr.BitAndCC dest left_ right_
      end
  | Operation.BitOr dest left_ right_ =>
      match left_, right_ with
      | RCIndex.Register left_, RCIndex.Register right_ => OpCodeRepr.BitOrRR dest left_ right_
      | RCIndex.Register left_, RCIndex.Constant right_ => OpCodeRepr.BitOrRC dest left_ right_
      | RCIndex.Constant left_, RCIndex.Register right_ => OpCodeRepr.BitOrCR dest left_ right_
      | RCIndex.Constant left_, RCIndex.Constant right_ => OpCodeRepr.BitOrCC dest left_ right_
      end
  | Operation.BitXor dest left_ right_ =>
      match left_, right_ with
      | RCIndex.Register left_, RCIndex.Register right_ => OpCodeRepr.BitXorRR dest left_ right_
      | RCIndex.Register left_, RCIndex.Constant right_ => OpCodeRepr.BitXorRC dest left_ right_
      | RCIndex.Constant left_, RCIndex.Register right_ => OpCodeRepr.BitXorCR dest left_ right_
      | RCIndex.Constant left_, RCIndex.Constant right_ => OpCodeRepr.BitXorCC dest left_ right_
      end
  | Operation.ShiftLeft dest left_ right_ =>
      match left_, right_ with
      | RCIndex.Register left_, RCIndex.Register right_ => OpCodeRepr.ShiftLeftRR dest left_ right_
      | RCIndex.Register left_, RCIndex.Constant right_ => OpCodeRepr.ShiftLeftRC dest left_ right_
      | RCIndex.Constant left_, RCIndex.Register right_ => OpCodeRepr.ShiftLeftCR dest left_ right_
      | RCIndex.Constant left_, RCIndex.Constant right_ => OpCodeRepr.ShiftLeftCC dest left_ right_
      end
  | Operation.ShiftRight dest left_ right_ =>
      match left_, right_ with
      | RCIndex.Register left_, RCIndex.Register right_ => OpCodeRepr.ShiftRightRR dest left_ right_
      | RCIndex.Register left_, RCIndex.Constant right_ => OpCodeRepr.ShiftRightRC dest left_ right_
      | RCIndex.Constant left_, RCIndex.Register right_ => OpCodeRepr.ShiftRightCR dest left_ right_
      | RCIndex.Constant left_, RCIndex.Constant right_ => OpCodeRepr.ShiftRightCC dest left_ right_
      end
  | Operation.BitNot dest source => OpCodeRepr.BitNot dest source
  end.

Definition decode (op_code : OpCodeRepr.t) : Operation.t :=
  match op_code with
  | OpCodeRepr.Move dest source =>
      Operation.Move dest source
  | OpCodeRepr.LoadConstant dest constant =>
      Operation.LoadConstant dest constant
  | OpCodeRepr.LoadBool dest value skip_next =>
      Operation.LoadBool dest value skip_next
  | OpCodeRepr.LoadNil dest count =>
      Operation.LoadNil dest count
  | OpCodeRepr.NewTable dest array_size map_size =>
      Operation.NewTable dest array_size map_size
  | OpCodeRepr.GetTableR dest table key =>
      Operation.GetTable dest table (key : RCIndex)
  | OpCodeRepr.GetTableC dest table key =>
      Operation.GetTable dest table (key : RCIndex)
  | OpCodeRepr.SetTableRR table key value =>
      Operation.SetTable table (key : RCIndex) (value : RCIndex)
  | OpCodeRepr.SetTableRC table key value =>
      Operation.SetTable table (key : RCIndex) (value : RCIndex)
  | OpCodeRepr.SetTableCR table key value =>
      Operation.SetTable table (key : RCIndex) (value : RCIndex)
  | OpCodeRepr.SetTableCC table key value =>
      Operation.SetTable table (key : RCIndex) (value : RCIndex)
  | OpCodeRepr.GetUpTableR dest table key =>
      Operation.GetUpTable dest table (key : RCIndex)
  | OpCodeRepr.GetUpTableC dest table key =>
      Operation.GetUpTable dest table (key : RCIndex)
  | OpCodeRepr.SetUpTableRR table key value =>
      Operation.SetUpTable table (key : RCIndex) (value : RCIndex)
  | OpCodeRepr.SetUpTableRC table key value =>
      Operation.SetUpTable table (key : RCIndex) (value : RCIndex)
  | OpCodeRepr.SetUpTableCR table key value =>
      Operation.SetUpTable table (key : RCIndex) (value : RCIndex)
  | OpCodeRepr.SetUpTableCC table key value =>
      Operation.SetUpTable table (key : RCIndex) (value : RCIndex)
  | OpCodeRepr.SetList base count =>
      Operation.SetList base count
  | OpCodeRepr.Call func args returns =>
      Operation.Call func args returns
  | OpCodeRepr.TailCall func args =>
      Operation.TailCall func args
  | OpCodeRepr.Return start count =>
      Operation.Return start count
  | OpCodeRepr.VarArgs dest count =>
      Operation.VarArgs dest count
  | OpCodeRepr.Jump offset close_upvalues =>
      Operation.Jump offset close_upvalues
  | OpCodeRepr.Test value is_true =>
      Operation.Test value is_true
  | OpCodeRepr.TestSet dest value is_true =>
      Operation.TestSet dest value is_true
  | OpCodeRepr.Closure dest proto =>
      Operation.Closure dest proto
  | OpCodeRepr.NumericForPrep base jump =>
      Operation.NumericForPrep base jump
  | OpCodeRepr.NumericForLoop base jump =>
      Operation.NumericForLoop base jump
  | OpCodeRepr.GenericForCall base var_count =>
      Operation.GenericForCall base var_count
  | OpCodeRepr.GenericForLoop base jump =>
      Operation.GenericForLoop base jump
  | OpCodeRepr.MethodR base table key =>
      Operation.Method base table (key : RCIndex)
  | OpCodeRepr.MethodC base table key =>
      Operation.Method base table (key : RCIndex)
  | OpCodeRepr.Concat dest source count =>
      Operation.Concat dest source count
  | OpCodeRepr.GetUpValue dest source =>
      Operation.GetUpValue dest source
  | OpCodeRepr.SetUpValue dest source =>
      Operation.SetUpValue dest source
  | OpCodeRepr.Length dest source =>
      Operation.Length dest source
  | OpCodeRepr.EqRR skip_if left_ right_ =>
      Operation.Eq skip_if (left_ : RCIndex) (right_ : RCIndex)
  | OpCodeRepr.EqRC skip_if left_ right_ =>
      Operation.Eq skip_if (left_ : RCIndex) (right_ : RCIndex)
  | OpCodeRepr.EqCR skip_if left_ right_ =>
      Operation.Eq skip_if (left_ : RCIndex) (right_ : RCIndex)
  | OpCodeRepr.EqCC skip_if left_ right_ =>
      Operation.Eq skip_if (left_ : RCIndex) (right_ : RCIndex)
  | OpCodeRepr.LessRR skip_if left_ right_ =>
      Operation.Less skip_if (left_ : RCIndex) (right_ : RCIndex)
  | OpCodeRepr.LessRC skip_if left_ right_ =>
      Operation.Less skip_if (left_ : RCIndex) (right_ : RCIndex)
  | OpCodeRepr.LessCR skip_if left_ right_ =>
      Operation.Less skip_if (left_ : RCIndex) (right_ : RCIndex)
  | OpCodeRepr.LessCC skip_if left_ right_ =>
      Operation.Less skip_if (left_ : RCIndex) (right_ : RCIndex)
  | OpCodeRepr.LessEqRR skip_if left_ right_ =>
      Operation.LessEq skip_if (left_ : RCIndex) (right_ : RCIndex)
  | OpCodeRepr.LessEqRC skip_if left_ right_ =>
      Operation.LessEq skip_if (left_ : RCIndex) (right_ : RCIndex)
  | OpCodeRepr.LessEqCR skip_if left_ right_ =>
      Operation.LessEq skip_if (left_ : RCIndex) (right_ : RCIndex)
  | OpCodeRepr.LessEqCC skip_if left_ right_ =>
      Operation.LessEq skip_if (left_ : RCIndex) (right_ : RCIndex)
  | OpCodeRepr.Not dest source =>
      Operation.Not dest source
  | OpCodeRepr.Minus dest source =>
      Operation.Minus dest source
  | OpCodeRepr.AddRR dest left_ right_ =>
      Operation.Add dest (left_ : RCIndex) (right_ : RCIndex)
  | OpCodeRepr.AddRC dest left_ right_ =>
      Operation.Add dest (left_ : RCIndex) (right_ : RCIndex)
  | OpCodeRepr.AddCR dest left_ right_ =>
      Operation.Add dest (left_ : RCIndex) (right_ : RCIndex)
  | OpCodeRepr.AddCC dest left_ right_ =>
      Operation.Add dest (left_ : RCIndex) (right_ : RCIndex)
  | OpCodeRepr.SubRR dest left_ right_ =>
      Operation.Sub dest (left_ : RCIndex) (right_ : RCIndex)
  | OpCodeRepr.SubRC dest left_ right_ =>
      Operation.Sub dest (left_ : RCIndex) (right_ : RCIndex)
  | OpCodeRepr.SubCR dest left_ right_ =>
      Operation.Sub dest (left_ : RCIndex) (right_ : RCIndex)
  | OpCodeRepr.SubCC dest left_ right_ =>
      Operation.Sub dest (left_ : RCIndex) (right_ : RCIndex)
  | OpCodeRepr.MulRR dest left_ right_ =>
      Operation.Mul dest (left_ : RCIndex) (right_ : RCIndex)
  | OpCodeRepr.MulRC dest left_ right_ =>
      Operation.Mul dest (left_ : RCIndex) (right_ : RCIndex)
  | OpCodeRepr.MulCR dest left_ right_ =>
      Operation.Mul dest (left_ : RCIndex) (right_ : RCIndex)
  | OpCodeRepr.MulCC dest left_ right_ =>
      Operation.Mul dest (left_ : RCIndex) (right_ : RCIndex)
  | OpCodeRepr.DivRR dest left_ right_ =>
      Operation.Div dest (left_ : RCIndex) (right_ : RCIndex)
  | OpCodeRepr.DivRC dest left_ right_ =>
      Operation.Div dest (left_ : RCIndex) (right_ : RCIndex)
  | OpCodeRepr.DivCR dest left_ right_ =>
      Operation.Div dest (left_ : RCIndex) (right_ : RCIndex)
  | OpCodeRepr.DivCC dest left_ right_ =>
      Operation.Div dest (left_ : RCIndex) (right_ : RCIndex)
  | OpCodeRepr.IDivRR dest left_ right_ =>
      Operation.IDiv dest (left_ : RCIndex) (right_ : RCIndex)
  | OpCodeRepr.IDivRC dest left_ right_ =>
      Operation.IDiv dest (left_ : RCIndex) (right_ : RCIndex)
  | OpCodeRepr.IDivCR dest left_ right_ =>
      Operation.IDiv dest (left_ : RCIndex) (right_ : RCIndex)
  | OpCodeRepr.IDivCC dest left_ right_ =>
      Operation.IDiv dest (left_ : RCIndex) (right_ : RCIndex)
  | OpCodeRepr.ModRR dest left_ right_ =>
      Operation.Mod dest (left_ : RCIndex) (right_ : RCIndex)
  | OpCodeRepr.ModRC dest left_ right_ =>
      Operation.Mod dest (left_ : RCIndex) (right_ : RCIndex)
  | OpCodeRepr.ModCR dest left_ right_ =>
      Operation.Mod dest (left_ : RCIndex) (right_ : RCIndex)
  | OpCodeRepr.ModCC dest left_ right_ =>
      Operation.Mod dest (left_ : RCIndex) (right_ : RCIndex)
  | OpCodeRepr.PowRR dest left_ right_ =>
      Operation.Pow dest (left_ : RCIndex) (right_ : RCIndex)
  | OpCodeRepr.PowRC dest left_ right_ =>
      Operation.Pow dest (left_ : RCIndex) (right_ : RCIndex)
  | OpCodeRepr.PowCR dest left_ right_ =>
      Operation.Pow dest (left_ : RCIndex) (right_ : RCIndex)
  | OpCodeRepr.PowCC dest left_ right_ =>
      Operation.Pow dest (left_ : RCIndex) (right_ : RCIndex)
  | OpCodeRepr.BitAndRR dest left_ right_ =>
      Operation.BitAnd dest (left_ : RCIndex) (right_ : RCIndex)
  | OpCodeRepr.BitAndRC dest left_ right_ =>
      Operation.BitAnd dest (left_ : RCIndex) (right_ : RCIndex)
  | OpCodeRepr.BitAndCR dest left_ right_ =>
      Operation.BitAnd dest (left_ : RCIndex) (right_ : RCIndex)
  | OpCodeRepr.BitAndCC dest left_ right_ =>
      Operation.BitAnd dest (left_ : RCIndex) (right_ : RCIndex)
  | OpCodeRepr.BitOrRR dest left_ right_ =>
      Operation.BitOr dest (left_ : RCIndex) (right_ : RCIndex)
  | OpCodeRepr.BitOrRC dest left_ right_ =>
      Operation.BitOr dest (left_ : RCIndex) (right_ : RCIndex)
  | OpCodeRepr.BitOrCR dest left_ right_ =>
      Operation.BitOr dest (left_ : RCIndex) (right_ : RCIndex)
  | OpCodeRepr.BitOrCC dest left_ right_ =>
      Operation.BitOr dest (left_ : RCIndex) (right_ : RCIndex)
  | OpCodeRepr.BitXorRR dest left_ right_ =>
      Operation.BitXor dest (left_ : RCIndex) (right_ : RCIndex)
  | OpCodeRepr.BitXorRC dest left_ right_ =>
      Operation.BitXor dest (left_ : RCIndex) (right_ : RCIndex)
  | OpCodeRepr.BitXorCR dest left_ right_ =>
      Operation.BitXor dest (left_ : RCIndex) (right_ : RCIndex)
  | OpCodeRepr.BitXorCC dest left_ right_ =>
      Operation.BitXor dest (left_ : RCIndex) (right_ : RCIndex)
  | OpCodeRepr.ShiftLeftRR dest left_ right_ =>
      Operation.ShiftLeft dest (left_ : RCIndex) (right_ : RCIndex)
  | OpCodeRepr.ShiftLeftRC dest left_ right_ =>
      Operation.ShiftLeft dest (left_ : RCIndex) (right_ : RCIndex)
  | OpCodeRepr.ShiftLeftCR dest left_ right_ =>
      Operation.ShiftLeft dest (left_ : RCIndex) (right_ : RCIndex)
  | OpCodeRepr.ShiftLeftCC dest left_ right_ =>
      Operation.ShiftLeft dest (left_ : RCIndex) (right_ : RCIndex)
  | OpCodeRepr.ShiftRightRR dest left_ right_ =>
      Operation.ShiftRight dest (left_ : RCIndex) (right_ : RCIndex)
  | OpCodeRepr.ShiftRightRC dest left_ right_ =>
      Operation.ShiftRight dest (left_ : RCIndex) (right_ : RCIndex)
  | OpCodeRepr.ShiftRightCR dest left_ right_ =>
      Operation.ShiftRight dest (left_ : RCIndex) (right_ : RCIndex)
  | OpCodeRepr.ShiftRightCC dest left_ right_ =>
      Operation.ShiftRight dest (left_ : RCIndex) (right_ : RCIndex)
  | OpCodeRepr.BitNot dest source =>
      Operation.BitNot dest source
  end.

(** C40: [encode] and [decode] are inverse to each other: every operation, with
    register and constant operands in every combination, is what its stored form
    decodes to, and no stored form is lost or conflated with another. *)
Theorem encode_decode_bijection :
  (forall op, decode (encode op) = op) /\ (forall repr, encode (decode repr) = repr).
Proof.
  split; [|by intros []].
  intros []; repeat match goal with x : RCIndex |- _ => destruct x end; reflexivity.
Qed.
End OpCode.
