(* ===== verification/Constant.v ===== *)
(** * Constants and their arithmetic: [constant.rs]

    The values a program can write literally, the conversions between them, and
    the operators the compiler folds and the VM falls back to. *)

From Stdlib Require Import Floats.SpecFloat.
From S2P Require Import Prelude Float64 StringUtils.
Import StringUtils.

(** [AsRef<[u8]>]: what a string type must offer *)
Class AsBytes (S : Type) : Type := as_bytes : S -> bytes.
#[export] Instance bytes_as_bytes : AsBytes (list Z) := fun s => s.

(** [Ord] on byte slices *)
Fixpoint bytes_compare (a b : bytes) : comparison :=
  match a, b with
  | [], [] => Eq
  | [], _ => Lt
  | _, [] => Gt
  | x :: a, y :: b => match x ?= y with Eq => bytes_compare a b | c => c end
  end.
Definition bytes_ltb (a b : bytes) : bool :=
  if bytes_compare a b is Lt then true else false.
Definition bytes_leb (a b : bytes) : bool :=
  if bytes_compare a b is Gt then false else true.

(** [/] and [%] on [i64]: a zero divisor and [MIN / -1] panic in every build. *)
Definition i64_rem (a b : Z) : outcome Z :=
  if (b =? 0) || ((a =? int_min i64) && (b =? -1)) then Panic else Ok (Z.rem a b).

(** [wrapping_div] and [wrapping_rem] panic on a zero divisor only. *)
Definition wrapping_div (a b : Z) : outcome Z :=
  if b =? 0 then Panic else Ok (wrap i64 (Z.quot a b)).
Definition wrapping_rem (a b : Z) : outcome Z :=
  if b =? 0 then Panic else Ok (Z.rem a b).

Module Constant.
Inductive t (S : Type) : Type :=
  | Nil
  | Boolean (b : bool)
  | Integer (i : Z)
  | Number (n : f64)
  | String (s : S).
Arguments Nil {S}.
Arguments Boolean {S} b.
Arguments Integer {S} i.
Arguments Number {S} n.
Arguments String {S} s.

Section Constant.
Context `{BuildProfile} `{FloatLib} {S : Type} `{AsBytes S}.
Implicit Types a b rhs : t S.

Definition to_bool a : bool :=
  match a with Nil => false | Boolean false => false | _ => true end.

Definition not a : t S := Boolean (negb (to_bool a)).

Definition map_string {S2} (f : S -> S2) a : t S2 :=
  match a with
  | Nil => Nil
  | Boolean b => Boolean b
  | Integer i => Integer i
  | Number n => Number n
  | String s => String (f s)
  end.

Definition as_string_ref a : t S := map_string (fun s => s) a.

(** ** Conversions *)

Definition to_numeric a : option (t S) :=
  match a with
  | Integer a => Some (Integer a)
  | Number a => Some (Number a)
  | String a =>
      let a := trim_whitespace (as_bytes a) in
      match read_integer a with
      | Some i => Some (Integer i)
      | None =>
          match read_float a with
          | Some n => Some (Number n)
          | None => None
          end
      end
  | _ => None
  end.

Definition to_number a : option f64 :=
  match to_numeric a with
  | Some (Integer a) => Some (F64.from_int a)
  | Some (Number a) => Some a
  | _ => None
  end.

Definition to_integer a : option Z :=
  match to_numeric a with
  | Some (Integer a) => Some a
  | Some (Number a) =>
      if F64.eqb (F64.from_int (F64.to_i64 a)) a then Some (F64.to_i64 a) else None
  | _ => None
  end.

(** ** Arithmetic *)

Definition number_op (f : f64 -> f64 -> f64) a b : option (t S) :=
  x ← to_number a; y ← to_number b; Some (Number (f x y)).

Definition add a rhs : option (t S) :=
  match a, rhs with
  | Integer a, Integer b => Some (Integer (wrap i64 (a + b)))
  | a, b => number_op F64.add a b
  end.

Definition subtract a rhs : option (t S) :=
  match a, rhs with
  | Integer a, Integer b => Some (Integer (wrap i64 (a - b)))
  | a, b => number_op F64.sub a b
  end.

Definition multiply a rhs : option (t S) :=
  match a, rhs with
  | Integer a, Integer b => Some (Integer (wrap i64 (a * b)))
  | a, b => number_op F64.mul a b
  end.

Definition float_divide a rhs : option (t S) := number_op F64.div a rhs.

Definition floor_divide a rhs : outcome (option (t S)) :=
  match a, rhs with
  | Integer a, Integer b =>
      if b =? 0 then Ok None
      else
        d ← wrapping_div a b;
        r ← wrapping_rem a b;
        d ← (if ((0 <? r) && (b <? 0)) || ((r <? 0) && (0 <? b)) then arith i64 (d - 1)
             else Ok d);
        Ok (Some (Integer d))
  | a, b => Ok (number_op (fun x y => F64.floor (F64.div x y)) a b)
  end.

Definition modulo a rhs : outcome (option (t S)) :=
  match a, rhs with
  | Integer a, Integer b =>
      if b =? 0 then Ok None
      else
        r ← i64_rem a b;
        r ← arith i64 (r + b);
        r ← i64_rem r b;
        Ok (Some (Integer r))
  | a, b =>
      Ok (number_op (fun x y => F64.rem (F64.add (F64.rem x y) y) y) a b)
  end.

Definition exponentiate a rhs : option (t S) := number_op powf a rhs.

Definition negate a : option (t S) :=
  match a with
  | Integer a => Some (Integer (wrap i64 (- a)))
  | Number a => Some (Number (F64.neg a))
  | s => (fun x => Number (F64.neg x)) <$> to_number s
  end.

(** ** Bitwise operators *)

Definition bitwise_not a : option (t S) :=
  a ← to_integer a; Some (Integer (Z.lnot a)).

Definition integer_op (f : Z -> Z -> Z) a b : option (t S) :=
  x ← to_integer a; y ← to_integer b; Some (Integer (f x y)).

Definition bitwise_and a rhs : option (t S) := integer_op Z.land a rhs.
Definition bitwise_or a rhs : option (t S) := integer_op Z.lor a rhs.
Definition bitwise_xor a rhs : option (t S) := integer_op Z.lxor a rhs.

Definition shift_left a rhs : option (t S) :=
  rhs ← to_integer rhs;
  if rhs <? 0 then None
  else
    let rhs := default (int_max u32) (checked u32 rhs) in
    lhs ← to_integer a;
    Some (Integer (if rhs <? 64 then wrap i64 (Z.shiftl lhs rhs) else 0)).

Definition shift_right a rhs : option (t S) :=
  rhs ← to_integer rhs;
  if rhs <? 0 then None
  else
    lhs ← to_integer a;
    let lhs := wrap u64 lhs in
    let rhs := default (int_max u32) (checked u32 rhs) in
    Some (Integer (wrap i64 (if rhs <? 64 then Z.shiftr lhs rhs else 0))).

(** ** Comparison *)

Definition is_equal a other : bool :=
  match a, other with
  | Nil, Nil => true
  | Nil, _ => false
  | Boolean a, Boolean b => eqb a b
  | Boolean _, _ => false
  | Integer a, Integer b => a =? b
  | Integer a, Number b => F64.eqb (F64.from_int a) b
  | Integer _, _ => false
  | Number a, Number b => F64.eqb a b
  | Number a, Integer b => F64.eqb (F64.from_int b) a
  | Number _, _ => false
  | String a, String b => bool_decide (as_bytes a = as_bytes b)
  | String _, _ => false
  end.

Definition less_than a rhs : option bool :=
  match a, rhs with
  | Integer a, Integer b => Some (a <? b)
  | Integer a, Number b => Some (F64.ltb (F64.from_int a) b)
  | Number a, Number b => Some (F64.ltb a b)
  | Number a, Integer b => Some (F64.ltb a (F64.from_int b))
  | String a, String b => Some (bytes_ltb (as_bytes a) (as_bytes b))
  | _, _ => None
  end.

Definition less_equal a rhs : option bool :=
  match a, rhs with
  | Integer a, Integer b => Some (a <=? b)
  | Integer a, Number b => Some (F64.leb (F64.from_int a) b)
  | Number a, Number b => Some (F64.leb a b)
  | Number a, Integer b => Some (F64.leb a (F64.from_int b))
  | String a, String b => Some (bytes_leb (as_bytes a) (as_bytes b))
  | _, _ => None
  end.

(** ** [IdenticalConstant]: equality of representation, and its hash *)

Definition identical_eq a other : bool :=
  match a, other with
  | Nil, Nil => true
  | Nil, _ => false
  | Boolean a, Boolean b => eqb a b
  | Boolean _, _ => false
  | Integer a, Integer b => a =? b
  | Integer _, _ => false
  | Number a, Number b => a =? b
  | Number _, _ => false
  | String a, String b => bool_decide (as_bytes a = as_bytes b)
  | String _, _ => false
  end.

(** What is written to the hasher: the variant's number as an [i32], then a
    boolean, a 64-bit word or a byte slice *)
Inductive hash_item : Type :=
  | HashI32 (i : Z)
  | HashBool (b : bool)
  | HashI64 (i : Z)
  | HashU64 (i : Z)
  | HashBytes (s : bytes).

Definition hash a : list hash_item :=
  match a with
  | Nil => [HashI32 0]
  | Boolean b => [HashI32 1; HashBool b]
  | Integer i => [HashI32 2; HashI64 i]
  | Number n => [HashI32 3; HashU64 n]
  | String s => [HashI32 4; HashBytes (as_bytes s)]
  end.

(** Values the Rust type can hold *)
Definition wf a : Prop :=
  match a with
  | Integer i => in_int i64 i
  | Number n => in_int u64 n
  | _ => True
  end.
End Constant.
End Constant.
