(* ===== verification/ConstantFacts.v ===== *)
(** * What constant arithmetic computes

    Division, modulo, shifts, the order of constants and the identity that the
    constant tables hash by. *)

From Stdlib Require Import Floats.SpecFloat.
From S2P Require Import Prelude Float64 StringUtils Constant.
Import StringUtils Constant.

(** ** Truncated and floored division *)

Lemma quot_rem_sign a b : b <> 0 ->
  a = b * Z.quot a b + Z.rem a b /\ Z.abs (Z.rem a b) < Z.abs b /\ 0 <= Z.rem a b * a.
Proof.
  intros Hb. pose proof (Z.quot_rem' a b). pose proof (Z.rem_bound_abs a b Hb).
  pose proof (Z.rem_sign_mul a b Hb). lia.
Qed.

(** The correction step of [floor_divide] *)
Lemma floor_div_correct a b : b <> 0 ->
  a / b = if ((0 <? Z.rem a b) && (b <? 0)) || ((Z.rem a b <? 0) && (0 <? b))
          then Z.quot a b - 1 else Z.quot a b.
Proof.
  intros Hb. destruct (quot_rem_sign a b Hb) as (Ha & Hr & _). symmetry.
  destruct (_ || _) eqn:E.
  - apply Z.div_unique with (Z.rem a b + b); [|lia].
    apply orb_true_iff in E as [E|E]; bool_to_prop; lia.
  - apply Z.div_unique with (Z.rem a b); [|lia].
    apply orb_false_iff in E as [E1 E2].
    rewrite !andb_false_iff, !Z.ltb_ge in E1, E2. lia.
Qed.

Lemma quot_in_int a b : b <> 0 -> in_int i64 a -> ~ (a = int_min i64 /\ b = -1) ->
  in_int i64 (Z.quot a b).
Proof.
  intros Hb Ha Hn. destruct (quot_rem_sign a b Hb) as (E & Hr & Hs).
  destruct (decide (b = 1)) as [->|]; [by rewrite Z.quot_1_r|].
  destruct (decide (b = -1)) as [->|].
  { change (-1) with (- (1)). rewrite Z.quot_opp_r, Z.quot_1_r by lia. revert Ha Hn. int_lia. }
  assert (Hq : 2 * Z.abs (Z.quot a b) <= Z.abs a).
  { pose proof (Z.quot_abs a b Hb) as Hqa. rewrite <- Hqa.
    rewrite <- (Z.quot_mul (Z.abs a) 2) at 2 by lia.
    pose proof (Z.mul_quot_le (Z.abs a) (Z.abs b) ltac:(lia) ltac:(lia)).
    rewrite Z.quot_mul by lia.
    pose proof (Z.quot_pos (Z.abs a) (Z.abs b) ltac:(lia) ltac:(lia)). nia. }
  revert Ha. int_lia.
Qed.

(** Adding the divisor to the remainder and reducing again is the floored modulo. *)
Lemma rem_add_rem a b : b <> 0 -> Z.rem (Z.rem a b + b) b = a mod b.
Proof.
  intros Hb. destruct (quot_rem_sign a b Hb) as (E & Hr & _).
  assert (Hmod : a mod b = (Z.rem a b + b) mod b).
  { rewrite E at 1.
    replace (b * Z.quot a b + Z.rem a b) with (Z.rem a b + b + (Z.quot a b - 1) * b) by lia.
    apply Z_mod_plus_full. }
  rewrite Hmod. destruct (Z.lt_ge_cases 0 b).
  - apply Z.rem_mod_nonneg; lia.
  - rewrite <- (Z.opp_involutive (Z.rem (Z.rem a b + b) b)), <- Z.rem_opp_l, <- Z.rem_opp_r by done.
    rewrite Z.rem_mod_nonneg by lia. rewrite Zmod_opp_opp. lia.
Qed.

Section arithmetic.
Context `{BuildProfile} `{FloatLib} {S : Type} `{AsBytes S}.
Abbreviation constant := (t S).

Lemma floor_divide_eq (a b : Z) : in_int i64 a -> in_int i64 b ->
  floor_divide (Integer a : constant) (Integer b) =
    Ok (if b =? 0 then None else Some (Integer (wrap i64 (a / b)))).
Proof.
  intros Ha Hb. unfold floor_divide. destruct (Z.eqb_spec b 0) as [|Hb0]; [done|].
  unfold wrapping_div, wrapping_rem. rewrite (proj2 (Z.eqb_neq b 0)) by done.
  rewrite !outcome_bind_Ok. rewrite (floor_div_correct a b Hb0).
  destruct (decide (a = int_min i64 /\ b = -1)) as [[-> ->]|Hn]; [reflexivity|].
  pose proof (quot_in_int a b Hb0 Ha Hn) as Hq. rewrite (wrap_small i64 (Z.quot a b)) by done.
  destruct (_ || _) eqn:E; [|by rewrite outcome_bind_Ok, wrap_small by done].
  assert (Hd : in_int i64 (Z.quot a b - 1)).
  { destruct (quot_rem_sign a b Hb0) as (Eq & Hr & Hs).
    enough (Z.quot a b <> int_min i64) by (revert Hq; int_lia). intros Ei.
    assert (Z.abs b <= 1) by (revert Eq Ha; rewrite Ei; int_lia || (unfold_ints; nia)).
    apply orb_true_iff in E as [E|E]; bool_to_prop; lia. }
  by rewrite arith_in, wrap_small by done.
Qed.

Lemma modulo_eq (a b : Z) : in_int i64 a -> in_int i64 b ->
  modulo (Integer a : constant) (Integer b) =
    if b =? 0 then Ok None
    else if (a =? int_min i64) && (b =? -1) then Panic
    else if in_intb i64 (Z.rem a b + b) then Ok (Some (Integer (a mod b)))
    else if overflow_checks then Panic
    else Ok (Some (Integer (Z.rem (wrap i64 (Z.rem a b + b)) b))).
Proof.
  intros Ha Hb. unfold modulo. destruct (Z.eqb_spec b 0) as [|Hb0]; [done|].
  unfold i64_rem. rewrite (proj2 (Z.eqb_neq b 0)) by done. cbn [orb].
  destruct ((a =? int_min i64) && (b =? -1)); [done|]. rewrite outcome_bind_Ok.
  assert (Hr1 : forall z, b = -1 -> z = -1 -> (z =? int_min i64) && (b =? -1) = false).
  { intros z -> ->. done. }
  unfold arith. destruct (in_intb i64 (Z.rem a b + b)) eqn:E.
  - rewrite outcome_bind_Ok. rewrite rem_add_rem by done.
    destruct (Z.eqb_spec b (-1)) as [->|]; [|by rewrite andb_false_r].
    change (-1) with (- (1)). rewrite Z.rem_opp_r, Z.rem_1_r by lia. done.
  - destruct overflow_checks; [done|]. rewrite outcome_bind_Ok.
    destruct (Z.eqb_spec b (-1)) as [->|]; [|by rewrite andb_false_r].
    exfalso. revert E. change (-1) with (- (1)). rewrite Z.rem_opp_r, Z.rem_1_r by lia. done.
Qed.

(** Integer [//] is floored division.  It is nil-producing exactly on a zero
    divisor, never panics in either build, and its only wrap is
    [math.mininteger // -1]. *)
Theorem floor_divide_integers (a b : Z) : in_int i64 a -> in_int i64 b ->
  floor_divide (Integer a : constant) (Integer b) =
    Ok (if b =? 0 then None else Some (Integer (wrap i64 (a / b)))).
Proof. apply floor_divide_eq. Qed.

(** Integer [%] by the formula [((a % b) + b) % b], in full: nil-producing on a
    zero divisor; [math.mininteger % -1] panics in every build; when the middle
    sum fits it is the floored modulo of Lua; and when it does not, the checked
    build panics and the other computes from the wrapped sum. *)
Theorem modulo_integers (a b : Z) : in_int i64 a -> in_int i64 b ->
  modulo (Integer a : constant) (Integer b) =
    if b =? 0 then Ok None
    else if (a =? int_min i64) && (b =? -1) then Panic
    else if in_intb i64 (Z.rem a b + b) then Ok (Some (Integer (a mod b)))
    else if overflow_checks then Panic
    else Ok (Some (Integer (Z.rem (wrap i64 (Z.rem a b + b)) b))).
Proof. apply modulo_eq. Qed.

(** Shifts.  A negative count is refused; [<<] multiplies by the power of two
    modulo 2^64 and [>>] divides the unsigned pattern by it, for every count,
    past 64 and past 2^32 included. *)
Theorem shifts_integers (a n : Z) : in_int i64 a -> in_int i64 n ->
  shift_left (Integer a : constant) (Integer n) =
    (if n <? 0 then None else Some (Integer (wrap i64 (a * 2 ^ n)))) /\
  shift_right (Integer a : constant) (Integer n) =
    (if n <? 0 then None else Some (Integer (wrap i64 (a mod 2 ^ 64 / 2 ^ n)))).
Proof.
  intros Ha Hn. unfold shift_left, shift_right. cbn [to_integer to_numeric mbind option_bind].
  destruct (Z.ltb_spec n 0) as [|Hn0]; [done|].
  assert (Hc : (default (int_max u32) (checked u32 n) <? 64) = (n <? 64)).
  { destruct (checked u32 n) as [m|] eqn:E; cbn.
    - apply checked_Some in E as [_ ->]. done.
    - apply checked_None in E. symmetry. apply Z.ltb_ge. revert E. int_lia. }
  rewrite !Hc. replace (wrap u64 a) with (a mod 2 ^ 64)
    by (unfold wrap; change (int_min u64) with 0; by rewrite Z.sub_0_r, Z.add_0_r).
  destruct (Z.ltb_spec n 64) as [Hlt|Hge].
  - rewrite checked_in by int_lia. cbn [default].
    by rewrite Z.shiftl_mul_pow2, Z.shiftr_div_pow2 by done.
  - split; do 2 f_equal.
    + symmetry. rewrite (wrap_congr i64 _ 0); [done|]. change (int_width i64) with 64.
      rewrite Z.mod_0_l by lia. apply Z.mod_divide; [lia|]. apply Z.divide_mul_r.
      replace n with (64 + (n - 64)) by lia. rewrite Z.pow_add_r by lia. apply Z.divide_factor_l.
    + f_equal. symmetry. apply Z.div_small.
      pose proof (Z.mod_pos_bound a (2 ^ 64) ltac:(lia)).
      pose proof (Z.pow_le_mono_r 2 64 n ltac:(lia) Hge). lia.
Qed.
End arithmetic.

(** ** Order and equality *)

Lemma SFcompare_antisym x y :
  SFcompare y x = (CompOpp <$> SFcompare x y : option comparison).
Proof.
  destruct x as [[]|[]| |[] m e], y as [[]|[]| |[] m' e']; cbn; try done.
  all: change (Pos.compare_cont Eq m' m) with (m' ?= m)%positive;
    change (Pos.compare_cont Eq m m') with (m ?= m')%positive;
    rewrite (Z.compare_antisym e e'), (Pos.compare_antisym m m');
    by destruct (e ?= e'), (m ?= m')%positive.
Qed.

Lemma bytes_compare_antisym a b : bytes_compare b a = CompOpp (bytes_compare a b).
Proof.
  revert b. induction a as [|x a IH]; intros [|y b]; cbn; try done.
  rewrite (Z.compare_antisym x y), IH. by destruct (x ?= y).
Qed.

Lemma bytes_compare_eq a b : bytes_compare a b = Eq <-> a = b.
Proof.
  revert b. induction a as [|x a IH]; intros [|y b]; cbn; try done.
  destruct (Z.compare_spec x y) as [->|Hlt|Hlt].
  - rewrite IH. split; [by intros ->|by intros [= ->]].
  - split; [done|]. intros [= -> _]. lia.
  - split; [done|]. intros [= -> _]. lia.
Qed.

#[local] Opaque F64.to_sf F64.from_int.

Section order.
Context `{BuildProfile} `{FloatLib} {S : Type} `{AsBytes S}.
Abbreviation constant := (t S).

(** The mathematical comparison of two constants: [None] when their types do not
    compare, [Some None] when one is NaN. *)
Definition partial_cmp (a b : constant) : option (option comparison) :=
  match a, b with
  | Integer a, Integer b => Some (Some (a ?= b))
  | Integer a, Number b => Some (SFcompare (F64.to_sf (F64.from_int a)) (F64.to_sf b))
  | Number a, Integer b => Some (SFcompare (F64.to_sf a) (F64.to_sf (F64.from_int b)))
  | Number a, Number b => Some (SFcompare (F64.to_sf a) (F64.to_sf b))
  | String a, String b => Some (Some (bytes_compare (as_bytes a) (as_bytes b)))
  | _, _ => None
  end.

Definition is_lt (c : option comparison) : bool := if c is Some Lt then true else false.
Definition is_eq (c : option comparison) : bool := if c is Some Eq then true else false.

Lemma partial_cmp_antisym a b : partial_cmp b a = (fun c : option comparison => CompOpp <$> c) <$> partial_cmp a b.
Proof.
  destruct a, b; cbn; try done; rewrite 1?SFcompare_antisym; try done.
  - by rewrite Z.compare_antisym.
  - by rewrite bytes_compare_antisym.
Qed.

Lemma less_than_cmp a b : less_than a b = is_lt <$> partial_cmp a b.
Proof.
  by destruct a, b.
Qed.

Lemma less_equal_cmp a b :
  less_equal a b = (fun c => is_lt c || is_eq c) <$> partial_cmp a b.
Proof.
  destruct a, b; cbn; try done; f_equal; unfold Z.leb, F64.leb, SFleb, bytes_leb;
    lazymatch goal with
    | |- context [SFcompare ?x ?y] => by destruct (SFcompare x y) as [[]|]
    | |- context [bytes_compare ?x ?y] => by destruct (bytes_compare x y)
    | |- context [?x ?= ?y] => by destruct (x ?= y)
    end.
Qed.

Lemma is_equal_cmp a b c : partial_cmp a b = Some c -> is_equal a b = is_eq c.
Proof.
  destruct a, b; cbn [partial_cmp is_equal]; try discriminate; intros [= <-];
    try reflexivity.
  - destruct (Z.compare_spec i i0); first [by apply Z.eqb_eq | apply Z.eqb_neq; lia].
  - unfold F64.eqb, SFeqb. rewrite SFcompare_antisym. by destruct (SFcompare _ _) as [[]|].
  - case_bool_decide as Hs.
    + by rewrite (proj2 (bytes_compare_eq _ _) Hs).
    + destruct (bytes_compare _ _) eqn:E; [by apply bytes_compare_eq in E|done|done].
Qed.

(** The comparison operators agree with each other on integers, floats, mixed
    numbers and strings: [<], [<=] and [==] are the three readings of one partial
    comparison, whose converse is the comparison the other way round; so
    [a <= b] is [a < b or a == b], and unless one operand is NaN exactly one of
    [a < b], [a == b], [b < a] holds. *)
Theorem comparisons_consistent (a b : constant) :
  (is_Some (less_than a b) <-> is_Some (less_equal a b)) /\
  (less_than a b = None <-> less_than b a = None) /\
  forall c, partial_cmp a b = Some c ->
    exists lt gt : bool, less_than a b = Some lt /\ less_than b a = Some gt /\
      less_equal a b = Some (lt || is_equal a b) /\
      is_equal a b = is_equal b a /\
      (c <> None -> Z.b2z lt + Z.b2z (is_equal a b) + Z.b2z gt = 1) /\
      (c = None -> lt = false /\ is_equal a b = false /\ gt = false).
Proof.
  rewrite !less_than_cmp, less_equal_cmp, (partial_cmp_antisym a b).
  destruct (partial_cmp a b) as [c|] eqn:E; cbn.
  2:{ split; [by split; intros []|]. split; [done|]. done. }
  split; [by split; eauto|]. split; [done|]. intros ? [= <-].
  assert (E' : partial_cmp b a = Some (CompOpp <$> c)) by (by rewrite partial_cmp_antisym, E).
  rewrite (is_equal_cmp a b c E), (is_equal_cmp b a _ E').
  do 2 eexists. do 3 (split; [reflexivity|]). split; [by destruct c as [[]|]|].
  split; intros Hc; destruct c as [[]|]; done.
Qed.

(** ** Identity *)

(** [IdenticalConstant] satisfies the contract of [Eq] and [Hash] that the
    constant table relies on: two constants are identical exactly when they feed
    the hasher the same data, so identity is an equivalence; it refines [==]
    except on NaN. *)
Theorem identical_hash (a b : constant) :
  (identical_eq a b = true <-> hash a = hash b) /\
  (identical_eq a b = true ->
     (forall n, a = Number n -> F64.to_sf n <> S754_nan) -> is_equal a b = true).
Proof.
  split.
  - destruct a, b; cbn; try done.
    + destruct b0, b; cbn; split; done || congruence.
    + rewrite Z.eqb_eq. split; [by intros ->|by intros [= ->]].
    + rewrite Z.eqb_eq. split; [by intros ->|by intros [= ->]].
    + rewrite bool_decide_eq_true. split; [by intros ->|by intros [= ->]].
  - destruct a, b; cbn; try done. intros ->%Z.eqb_eq Hn. specialize (Hn _ eq_refl).
    unfold F64.eqb, SFeqb. destruct (F64.to_sf n0) as [[]|[]| |[] m e]; cbn; try done.
    + by rewrite Z.compare_refl, Pos.compare_cont_refl.
    + by rewrite Z.compare_refl, Pos.compare_cont_refl.
Qed.
End order.

(** ** Strings as numbers *)

Section strings.
Context `{BuildProfile} `{FloatLib}.

Abbreviation spaces := (Forall (fun c => is_space c = true)).

(** Trimming finds any core without white space at its ends. *)
Lemma prefix_unique (pre pre' core core' : bytes) c c' :
  spaces pre -> spaces pre' -> is_space c = false -> is_space c' = false ->
  pre ++ c :: core = pre' ++ c' :: core' -> c :: core = c' :: core'.
Proof.
  intros Hpre. revert pre'. induction Hpre as [|d pre Hd Hpre IH]; intros pre' Hpre' Hc Hc'.
  - destruct Hpre'; [done|]. intros [= -> _]. congruence.
  - destruct Hpre' as [|d' pre' Hd' Hpre']; cbn; intros [= E1 E2].
    + congruence.
    + by eapply IH.
Qed.

Lemma trim_core (pre core post : bytes) :
  spaces pre -> spaces post -> core <> [] -> Forall (fun c => is_space c = false) core ->
  trim_whitespace (pre ++ core ++ post) = core.
Proof.
  intros Hpre Hpost Hne Hcore.
  destruct (trim_whitespace_spec (pre ++ core ++ post))
    as (pre' & post' & E & Hpre' & Hpost' & Hhead & Hlast).
  destruct core as [|c core]; [done|]. clear Hne. inversion Hcore as [|?? Hc _]; subst.
  destruct (trim_whitespace (pre ++ (c :: core) ++ post)) as [|t ts] eqn:Et.
  { exfalso. assert (Hin : c ∈ pre' ++ [] ++ post') by (rewrite <- E; set_solver).
    assert (Hall : spaces (pre' ++ [] ++ post')) by (by apply Forall_app).
    rewrite Forall_forall in Hall. specialize (Hall c Hin). congruence. }
  apply (prefix_unique pre pre' (core ++ post) (ts ++ post') c t) in E;
    [|done|done|done|by apply Hhead].
  apply (f_equal (@rev Z)) in E. change (c :: core ++ post) with ((c :: core) ++ post) in E.
  change (t :: ts ++ post') with ((t :: ts) ++ post') in E. rewrite !rev_app_distr in E.
  destruct (exists_last (l := c :: core)) as (l1 & d & E1); [done|].
  destruct (exists_last (l := t :: ts)) as (l2 & d' & E2); [done|].
  rewrite E1, E2 in *. rewrite !rev_app_distr in E. cbn in E.
  apply (prefix_unique (rev post) (rev post') (rev l1) (rev l2) d d') in E;
    [|by apply Forall_rev|by apply Forall_rev| |].
  - apply (f_equal (@rev Z)) in E. cbn in E. by rewrite !rev_involutive in E.
  - apply Forall_app in Hcore as [_ Hd]. by inversion Hd.
  - apply Hlast. apply last_snoc.
Qed.

(** The printed form of any integer, with any white space around it, converts
    back to that integer, as a numeric constant and as an integer operand. *)
Theorem tonumber_tostring (i : Z) (pre post : bytes) :
  in_int i64 i -> spaces pre -> spaces post ->
  to_numeric (String (pre ++ i64_to_string i ++ post)) = Some (Integer i) /\
  to_integer (String (pre ++ i64_to_string i ++ post)) = Some i.
Proof.
  intros Hi Hpre Hpost. destruct (i64_to_string_no_space i Hi) as [Hne Hns].
  assert (Hnum : to_numeric (String (pre ++ i64_to_string i ++ post)) = Some (Integer i)).
  { unfold to_numeric, as_bytes, bytes_as_bytes.
    by rewrite trim_core, tostring_read_integer by done. }
  split; [done|]. unfold to_integer. by rewrite Hnum.
Qed.
End strings.

(** ** Concrete instances *)

Section examples.
Context `{BuildProfile} `{FloatLib}.

(** [%] departs from Lua: [math.mininteger % -1] panics in every build,
    and in a build without overflow checks [(MAX - 1) % MAX] is [-3] where the
    floored modulo is [MAX - 1]; with checks it panics. *)
Theorem modulo_overflow :
  modulo (Integer (-9223372036854775808) : t bytes) (Integer (-1)) = Panic /\
  modulo (Integer 9223372036854775806 : t bytes) (Integer 9223372036854775807) =
    (if overflow_checks then Panic else Ok (Some (Integer (-3)))).
Proof. split; vm_compute; [reflexivity|]. by destruct H as [[]]. Qed.

(** The float 2^63 is taken for the integer [i64::MAX]: the saturating cast back
    to a float rounds up to 2^63 and compares equal; and [==] on mixed numbers is
    not transitive, two different integers both equal the float 2^53. *)
Theorem integer_conversion_saturates :
  to_integer (Number (F64.from_int (2 ^ 63)) : t bytes) = Some (int_max i64) /\
  is_equal (Integer (2 ^ 53) : t bytes) (Number (F64.from_int (2 ^ 53))) = true /\
  is_equal (Number (F64.from_int (2 ^ 53)) : t bytes) (Integer (2 ^ 53 + 1)) = true /\
  is_equal (Integer (2 ^ 53) : t bytes) (Integer (2 ^ 53 + 1)) = false.
Proof. vm_compute. split_and!; reflexivity. Qed.
End examples.

#[local] Instance example_build : BuildProfile := {| overflow_checks := true |}.
#[local] Instance example_libm : FloatLib := {| powf := fun x _ => x |}.

Lemma floor_divide_integers_witness :
  in_int i64 (-7) /\ in_int i64 2 /\
  floor_divide (Integer (-7) : t bytes) (Integer 2) = Ok (Some (Integer (-4))).
Proof.
  split; [int_lia|split; [int_lia|]]. apply (floor_divide_integers (-7) 2); int_lia.
Defined.

Lemma modulo_integers_witness :
  in_int i64 (-7) /\ in_int i64 3 /\
  modulo (Integer (-7) : t bytes) (Integer 3) = Ok (Some (Integer 2)).
Proof.
  split; [int_lia|split; [int_lia|]]. apply (modulo_integers (-7) 3); int_lia.
Defined.

Lemma shifts_integers_witness :
  shift_left (Integer (-1) : t bytes) (Integer 63) = Some (Integer (-9223372036854775808)) /\
  shift_right (Integer (-1) : t bytes) (Integer 60) = Some (Integer 15).
Proof.
  split.
  - apply (shifts_integers (-1) 63); int_lia.
  - apply (shifts_integers (-1) 60); int_lia.
Defined.

Lemma tonumber_tostring_witness :
  to_numeric (String (bs# "  " ++ i64_to_string (-9223372036854775808) ++ [10])) =
    Some (Integer (-9223372036854775808)) /\
  to_integer (String (bs# "  " ++ i64_to_string (-9223372036854775808) ++ [10])) =
    Some (-9223372036854775808).
Proof. apply tonumber_tostring; [int_lia|repeat constructor|repeat constructor]. Defined.
