(* ===== verification/Operators.v ===== *)
(** * Operators of the compiler: [compiler/operators.rs]

    The classification of the source's operators, the instructions they become and
    the folding of operators applied to constants. *)

From S2P Require Import Prelude Float64 StringUtils Constant ConstantFacts Opcode.

(** ** The operators of the syntax tree ([compiler/parser.rs]) *)
Module BinaryOperator.
Inductive t : Type :=
  | Add | Sub | Mul | Mod | Pow | Div | IDiv
  | BitAnd | BitOr | BitXor | ShiftLeft | ShiftRight
  | Concat
  | NotEqual | Equal | LessThan | LessEqual | GreaterThan | GreaterEqual
  | And | Or.
End BinaryOperator.

Module UnaryOperator.
Inductive t : Type := Not | Minus | BitNot | Len.
End UnaryOperator.

(** ** Categories *)
Module SimpleBinOp.
Inductive t : Type :=
  | Add | Sub | Mul | Mod | Pow | Div | IDiv
  | BitAnd | BitOr | BitXor | ShiftLeft | ShiftRight.
End SimpleBinOp.

Module ComparisonBinOp.
Inductive t : Type :=
  | NotEqual | Equal | LessThan | LessEqual | GreaterThan | GreaterEqual.
End ComparisonBinOp.

Module ShortCircuitBinOp.
Inductive t : Type := And | Or.
End ShortCircuitBinOp.

Module BinOpCategory.
Inductive t : Type :=
  | Simple (op : SimpleBinOp.t)
  | Comparison (op : ComparisonBinOp.t)
  | ShortCircuit (op : ShortCircuitBinOp.t)
  | Concat.
End BinOpCategory.

Module Operators.
Section Operators.
Context `{BuildProfile} `{FloatLib} {S : Type} `{AsBytes S}.
Abbreviation constant := (Constant.t S).

Definition categorize_binop (binop : BinaryOperator.t) : BinOpCategory.t :=
  match binop with
  | BinaryOperator.Add => BinOpCategory.Simple SimpleBinOp.Add
  | BinaryOperator.Sub => BinOpCategory.Simple SimpleBinOp.Sub
  | BinaryOperator.Mul => BinOpCategory.Simple SimpleBinOp.Mul
  | BinaryOperator.Mod => BinOpCategory.Simple SimpleBinOp.Mod
  | BinaryOperator.Pow => BinOpCategory.Simple SimpleBinOp.Pow
  | BinaryOperator.Div => BinOpCategory.Simple SimpleBinOp.Div
  | BinaryOperator.IDiv => BinOpCategory.Simple SimpleBinOp.IDiv
  | BinaryOperator.BitAnd => BinOpCategory.Simple SimpleBinOp.BitAnd
  | BinaryOperator.BitOr => BinOpCategory.Simple SimpleBinOp.BitOr
  | BinaryOperator.BitXor => BinOpCategory.Simple SimpleBinOp.BitXor
  | BinaryOperator.ShiftLeft => BinOpCategory.Simple SimpleBinOp.ShiftLeft
  | BinaryOperator.ShiftRight => BinOpCategory.Simple SimpleBinOp.ShiftRight
  | BinaryOperator.Concat => BinOpCategory.Concat
  | BinaryOperator.NotEqual => BinOpCategory.Comparison ComparisonBinOp.NotEqual
  | BinaryOperator.Equal => BinOpCategory.Comparison ComparisonBinOp.Equal
  | BinaryOperator.LessThan => BinOpCategory.Comparison ComparisonBinOp.LessThan
  | BinaryOperator.LessEqual => BinOpCategory.Comparison ComparisonBinOp.LessEqual
  | BinaryOperator.GreaterThan => BinOpCategory.Comparison ComparisonBinOp.GreaterThan
  | BinaryOperator.GreaterEqual => BinOpCategory.Comparison ComparisonBinOp.GreaterEqual
  | BinaryOperator.And => BinOpCategory.ShortCircuit ShortCircuitBinOp.And
  | BinaryOperator.Or => BinOpCategory.ShortCircuit ShortCircuitBinOp.Or
  end.

Definition simple_binop_operation (simple_binop : SimpleBinOp.t)
    (dest : RegisterIndex) (left_ right_ : RCIndex) : Operation.t :=
  match simple_binop with
  | SimpleBinOp.Add => Operation.Add dest left_ right_
  | SimpleBinOp.Sub => Operation.Sub dest left_ right_
  | SimpleBinOp.Mul => Operation.Mul dest left_ right_
  | SimpleBinOp.Div => Operation.Div dest left_ right_
  | SimpleBinOp.IDiv => Operation.IDiv dest left_ right_
  | SimpleBinOp.Mod => Operation.Mod dest left_ right_
  | SimpleBinOp.Pow => Operation.Pow dest left_ right_
  | SimpleBinOp.BitAnd => Operation.BitAnd dest left_ right_
  | SimpleBinOp.BitOr => Operation.BitOr dest left_ right_
  | SimpleBinOp.BitXor => Operation.BitXor dest left_ right_
  | SimpleBinOp.ShiftLeft => Operation.ShiftLeft dest left_ right_
  | SimpleBinOp.ShiftRight => Operation.ShiftRight dest left_ right_
  end.

Definition simple_binop_const_fold (simple_binop : SimpleBinOp.t)
    (left_ right_ : constant) : outcome (option constant) :=
  match simple_binop with
  | SimpleBinOp.Add => Ok (Constant.add left_ right_)
  | SimpleBinOp.Sub => Ok (Constant.subtract left_ right_)
  | SimpleBinOp.Mul => Ok (Constant.multiply left_ right_)
  | SimpleBinOp.Mod => Constant.modulo left_ right_
  | SimpleBinOp.Pow => Ok (Constant.exponentiate left_ right_)
  | SimpleBinOp.Div => Ok (Constant.float_divide left_ right_)
  | SimpleBinOp.IDiv => Constant.floor_divide left_ right_
  | _ => Ok None
  end.

Definition comparison_binop_operation (comparison_binop : ComparisonBinOp.t)
    (left_ right_ : RCIndex) (skip_if : bool) : Operation.t :=
  match comparison_binop with
  | ComparisonBinOp.Equal => Operation.Eq skip_if left_ right_
  | ComparisonBinOp.NotEqual => Operation.Eq (negb skip_if) left_ right_
  | ComparisonBinOp.LessThan => Operation.Less skip_if left_ right_
  | ComparisonBinOp.LessEqual => Operation.LessEq skip_if left_ right_
  | ComparisonBinOp.GreaterThan => Operation.Less skip_if right_ left_
  | ComparisonBinOp.GreaterEqual => Operation.LessEq skip_if right_ left_
  end.

Definition comparison_binop_const_fold (comparison_binop : ComparisonBinOp.t)
    (left_ right_ : constant) : option constant :=
  match comparison_binop with
  | ComparisonBinOp.Equal => Some (Constant.Boolean (Constant.is_equal left_ right_))
  | ComparisonBinOp.NotEqual =>
      Some (Constant.Boolean (negb (Constant.is_equal left_ right_)))
  | ComparisonBinOp.LessThan => Constant.Boolean <$> Constant.less_than left_ right_
  | ComparisonBinOp.LessEqual => Constant.Boolean <$> Constant.less_equal left_ right_
  | ComparisonBinOp.GreaterThan => Constant.Boolean <$> Constant.less_than right_ left_
  | ComparisonBinOp.GreaterEqual => Constant.Boolean <$> Constant.less_equal right_ left_
  end.

Definition unop_operation (unop : UnaryOperator.t) (dest source : RegisterIndex)
  : Operation.t :=
  match unop with
  | UnaryOperator.Minus => Operation.Minus dest source
  | UnaryOperator.Not => Operation.Not dest source
  | UnaryOperator.BitNot => Operation.BitNot dest source
  | UnaryOperator.Len => Operation.Length dest source
  end.

Definition unop_const_fold (unop : UnaryOperator.t) (cons : constant) : option constant :=
  match unop with
  | UnaryOperator.Minus => Constant.negate cons
  | UnaryOperator.Not => Some (Constant.not cons)
  | UnaryOperator.BitNot => Constant.bitwise_not cons
  | UnaryOperator.Len => None
  end.
End Operators.
End Operators.
