(* ===== verification/Parser.v ===== *)
(** * The parser: [compiler/parser.rs]

    Tokens in, a syntax tree out.  The parser reaches the lexer through [TokenSource]: it
    skips blanks, reads a token, and asks for the line.  [recursion_guard] counts the calls of
    [parse_statement] and [parse_sub_expression] that are open; every cycle of the grammar goes
    through one of the two, so the guards left are what the recursion is on. *)

From S2P Require Import Prelude Float64 Constant Operators Lexer.

(** ** The syntax tree *)
Module Ast.
Record LineAnnotated (T : Type) : Type := annotate { line_number : Z; inner : T }.
Arguments annotate {T} line_number inner.
Arguments line_number {T} _.
Arguments inner {T} _.

(** [LocalAttributes]: bit 0 is [is_const], bit 1 is [is_close]. *)
Definition LocalAttributes : Type := Z.
Definition NONE : LocalAttributes := 0.
Definition CONST : LocalAttributes := 1.
Definition CONST_CLOSE : LocalAttributes := 3.
Definition is_const (a : LocalAttributes) : bool := negb (Z.land a 1 =? 0).
Definition is_close (a : LocalAttributes) : bool := negb (Z.land a 2 =? 0).

(** A record that is the payload of one constructor is written in that constructor. *)
#[warnings="-register-all"]
Inductive Expression (S : Type) : Type :=
  | mk_Expression (head : HeadExpression S) (tail : list (BinaryOperator.t * Expression S))
with HeadExpression (S : Type) : Type :=
  | Simple (e : SimpleExpression S)
  | Unary (op : UnaryOperator.t) (e : Expression S)
with SimpleExpression (S : Type) : Type :=
  | EFloat (f : f64)
  | EInteger (i : Z)
  | EString (s : S)
  | ENil
  | ETrue
  | EFalse
  | EVarArgs
  | ETableConstructor (fields : list (ConstructorField S))
  | EFunction (d : FunctionDefinition S)
  | ESuffixed (e : SuffixedExpression S)
with PrimaryExpression (S : Type) : Type :=
  | PName (s : S)
  | GroupedExpression (e : Expression S)
with FieldSuffix (S : Type) : Type :=
  | FNamed (s : S)
  | FIndexed (e : Expression S)
with CallSuffix (S : Type) : Type :=
  | CMethod (s : S) (args : list (Expression S))
  | CFunction (args : list (Expression S))
with SuffixPart (S : Type) : Type :=
  | Field (f : FieldSuffix S)
  | Call (c : CallSuffix S)
with SuffixedExpression (S : Type) : Type :=
  | mk_SuffixedExpression (primary : PrimaryExpression S) (suffixes : list (SuffixPart S))
with FunctionDefinition (S : Type) : Type :=
  | mk_FunctionDefinition (line : Z) (parameters : list S) (has_varargs : bool) (body : Block S)
with ConstructorField (S : Type) : Type :=
  | Array (e : Expression S)
  | Record_ (k : RecordKey S) (e : Expression S)
with RecordKey (S : Type) : Type :=
  | KNamed (s : S)
  | KIndexed (e : Expression S)
with Block (S : Type) : Type :=
  | mk_Block (statements : list (LineAnnotated (Statement S)))
      (return_statement : option (LineAnnotated (list (Expression S)))) (closed_on : Z)
with Statement (S : Type) : Type :=
  | SIf (if_part : Expression S * Block S) (else_if_parts : list (Expression S * Block S))
      (else_part : option (Block S))
  | SWhile (condition : Expression S) (block : Block S)
  | SDo (block : Block S)
  | SFor (f : ForStatement S)
  | SRepeat (body : Block S) (until : Expression S)
  | SFunction (name : S) (fields : list S) (method : option S) (definition : FunctionDefinition S)
  | SLocalFunction (name : S) (definition : FunctionDefinition S)
  | SLocalStatement (names : list (S * LocalAttributes)) (values : list (Expression S))
  | SLabel (name : S)
  | SBreak
  | SGoto (name : S)
  | SFunctionCall (head : SuffixedExpression S) (call : CallSuffix S)
  | SAssignment (targets : list (AssignmentTarget S)) (values : list (Expression S))
with ForStatement (S : Type) : Type :=
  | Numeric (name : S) (initial limit : Expression S) (step : option (Expression S)) (body : Block S)
  | Generic (names : list S) (arguments : list (Expression S)) (body : Block S)
with AssignmentTarget (S : Type) : Type :=
  | TName (s : S)
  | TField (e : SuffixedExpression S) (f : FieldSuffix S).

Arguments mk_Expression {S} head tail. Arguments Simple {S} e. Arguments Unary {S} op e.
Arguments EFloat {S} f. Arguments EInteger {S} i. Arguments EString {S} s. Arguments ENil {S}.
Arguments ETrue {S}. Arguments EFalse {S}. Arguments EVarArgs {S}.
Arguments ETableConstructor {S} fields. Arguments EFunction {S} d. Arguments ESuffixed {S} e.
Arguments PName {S} s. Arguments GroupedExpression {S} e. Arguments FNamed {S} s.
Arguments FIndexed {S} e. Arguments CMethod {S} s args. Arguments CFunction {S} args.
Arguments Field {S} f. Arguments Call {S} c. Arguments mk_SuffixedExpression {S} primary suffixes.
Arguments mk_FunctionDefinition {S} line parameters has_varargs body. Arguments Array {S} e.
Arguments Record_ {S} k e. Arguments KNamed {S} s. Arguments KIndexed {S} e.
Arguments mk_Block {S} statements return_statement closed_on. Arguments SIf {S} if_part else_if_parts else_part.
Arguments SWhile {S} condition block. Arguments SDo {S} block. Arguments SFor {S} f.
Arguments SRepeat {S} body until. Arguments SFunction {S} name fields method definition.
Arguments SLocalFunction {S} name definition. Arguments SLocalStatement {S} names values.
Arguments SLabel {S} name. Arguments SBreak {S}. Arguments SGoto {S} name.
Arguments SFunctionCall {S} head call. Arguments SAssignment {S} targets values.
Arguments Numeric {S} name initial limit step body. Arguments Generic {S} names arguments body.
Arguments TName {S} s. Arguments TField {S} e f.

Record Chunk (S : Type) : Type := mk_Chunk { block : Block S }.
Arguments mk_Chunk {S} block.
Arguments block {S} _.
End Ast.
Import Ast.

(** ** Equality of tokens

    The constructor, by its place in the declaration, and what it carries; [total_cmp] tells
    two floats apart exactly when their bits differ. *)
Definition token_code {S} `{AsBytes S} (t : Token S) : Z * Z * list Z :=
  match t with
  | Break => (0, 0, []) | Do => (1, 0, []) | Else => (2, 0, []) | ElseIf => (3, 0, [])
  | End => (4, 0, []) | Function => (5, 0, []) | Goto => (6, 0, []) | If => (7, 0, [])
  | In => (8, 0, []) | Local => (9, 0, []) | Nil => (10, 0, []) | For => (11, 0, [])
  | While => (12, 0, []) | Repeat => (13, 0, []) | Until => (14, 0, []) | Return => (15, 0, [])
  | Then => (16, 0, []) | True_ => (17, 0, []) | False_ => (18, 0, []) | Not => (19, 0, [])
  | And => (20, 0, []) | Or => (21, 0, []) | Minus => (22, 0, []) | Add => (23, 0, [])
  | Mul => (24, 0, []) | Div => (25, 0, []) | IDiv => (26, 0, []) | Pow => (27, 0, [])
  | Mod => (28, 0, []) | Len => (29, 0, []) | BitNotXor => (30, 0, []) | BitAnd => (31, 0, [])
  | BitOr => (32, 0, []) | ShiftRight => (33, 0, []) | ShiftLeft => (34, 0, []) | Concat => (35, 0, [])
  | Dots => (36, 0, []) | Assign => (37, 0, []) | LessThan => (38, 0, []) | LessEqual => (39, 0, [])
  | GreaterThan => (40, 0, []) | GreaterEqual => (41, 0, []) | Equal => (42, 0, []) | NotEqual => (43, 0, [])
  | Dot => (44, 0, []) | SemiColon => (45, 0, []) | Colon => (46, 0, []) | DoubleColon => (47, 0, [])
  | Comma => (48, 0, []) | LeftParen => (49, 0, []) | RightParen => (50, 0, []) | LeftBracket => (51, 0, [])
  | RightBracket => (52, 0, []) | LeftBrace => (53, 0, []) | RightBrace => (54, 0, [])
  | Integer i => (55, i, []) | Float f => (56, f, []) | Name s => (57, 0, as_bytes s) | String s => (58, 0, as_bytes s)
  end.

Definition token_eq {S} `{AsBytes S} (a b : Token S) : bool := bool_decide (token_code a = token_code b).

(** ** What the parser asks of a lexer

    [remaining] bounds the tokens that may still come.  A lexer that is [ready] answers every
    call and stays ready, each token it gives counts off, and one that has told its end stays
    there. *)
Class TokenSource (S : Type) : Type := {
  source : Type;
  skip_whitespace : source -> outcome ((unit + LexError) * source);
  read_token : source -> outcome ((option (Token S) + LexError) * source);
  source_line : source -> Z;
  remaining : source -> nat
}.

Class TokenSourceLaws (S : Type) `{TokenSource S} : Type := {
  ready : source -> Prop;
  skip_ready s : ready s -> exists r s', skip_whitespace s = Ok (r, s') /\ ready s' /\ (remaining s' <= remaining s)%nat;
  read_ready s : ready s -> exists r s', read_token s = Ok (r, s') /\ ready s' /\
    match r with inl (Some _) => (remaining s' < remaining s)%nat | _ => (remaining s' <= remaining s)%nat end;
  read_end s s' : read_token s = Ok (inl None, s') ->
    skip_whitespace s' = Ok (inl tt, s') /\ read_token s' = Ok (inl None, s')
}.

(** ** Errors *)
Module ParseErrorKind.
Inductive Expected (S : Type) : Type :=
  | Token_ (t : Token S)
  | Text (s : String.string).
Arguments Token_ {S} t.
Arguments Text {S} s.

(** [Unexpected] and [EndOfStream] hold what the message is made from. *)
Inductive t (S : Type) : Type :=
  | Unexpected (unexpected : Token S) (expected : Expected S)
  | EndOfStream (expected : option (Expected S))
  | AssignToExpression
  | ExpressionNotStatement
  | RecursionLimit
  | OfLexer (e : LexError)
  | InvalidAttribute (name : list Z).
Arguments Unexpected {S} unexpected expected.
Arguments EndOfStream {S} expected.
Arguments AssignToExpression {S}.
Arguments ExpressionNotStatement {S}.
Arguments RecursionLimit {S}.
Arguments OfLexer {S} e.
Arguments InvalidAttribute {S} name.
End ParseErrorKind.

Record ParseError (S : Type) : Type := mk_ParseError { kind : ParseErrorKind.t S; error_line : Z }.
Arguments mk_ParseError {S} kind error_line.

(** ** Priorities *)
Definition MAX_RECURSION : nat := 200.
Definition MIN_PRIORITY : Z := 0.
Definition UNARY_PRIORITY : Z := 12.

(** The left and the right priority *)
Definition binary_priority (operator : BinaryOperator.t) : Z * Z :=
  match operator with
  | BinaryOperator.Add => (10, 10)
  | BinaryOperator.Sub => (10, 10)
  | BinaryOperator.Mul => (11, 11)
  | BinaryOperator.Mod => (11, 11)
  | BinaryOperator.Pow => (14, 13)
  | BinaryOperator.Div => (11, 11)
  | BinaryOperator.IDiv => (11, 11)
  | BinaryOperator.BitAnd => (6, 6)
  | BinaryOperator.BitOr => (4, 4)
  | BinaryOperator.BitXor => (5, 5)
  | BinaryOperator.ShiftLeft => (7, 7)
  | BinaryOperator.ShiftRight => (7, 7)
  | BinaryOperator.Concat => (9, 8)
  | BinaryOperator.NotEqual => (3, 3)
  | BinaryOperator.Equal => (3, 3)
  | BinaryOperator.LessThan => (3, 3)
  | BinaryOperator.LessEqual => (3, 3)
  | BinaryOperator.GreaterThan => (3, 3)
  | BinaryOperator.GreaterEqual => (3, 3)
  | BinaryOperator.And => (2, 2)
  | BinaryOperator.Or => (1, 1)
  end.

Definition get_unary_operator {S} (token : Token S) : option UnaryOperator.t :=
  match token with
  | Not => Some UnaryOperator.Not
  | Minus => Some UnaryOperator.Minus
  | BitNotXor => Some UnaryOperator.BitNot
  | Len => Some UnaryOperator.Len
  | _ => None
  end.

Definition get_binary_operator {S} (token : Token S) : option BinaryOperator.t :=
  match token with
  | Minus => Some BinaryOperator.Sub
  | Add => Some BinaryOperator.Add
  | Mul => Some BinaryOperator.Mul
  | Mod => Some BinaryOperator.Mod
  | Pow => Some BinaryOperator.Pow
  | Div => Some BinaryOperator.Div
  | IDiv => Some BinaryOperator.IDiv
  | BitAnd => Some BinaryOperator.BitAnd
  | BitOr => Some BinaryOperator.BitOr
  | BitNotXor => Some BinaryOperator.BitXor
  | ShiftLeft => Some BinaryOperator.ShiftLeft
  | ShiftRight => Some BinaryOperator.ShiftRight
  | Concat => Some BinaryOperator.Concat
  | NotEqual => Some BinaryOperator.NotEqual
  | Equal => Some BinaryOperator.Equal
  | LessThan => Some BinaryOperator.LessThan
  | LessEqual => Some BinaryOperator.LessEqual
  | GreaterThan => Some BinaryOperator.GreaterThan
  | GreaterEqual => Some BinaryOperator.GreaterEqual
  | And => Some BinaryOperator.And
  | Or => Some BinaryOperator.Or
  | _ => None
  end.

(** ** The parser *)
Module Parser.
Section Parser.
Context {S : Type} `{AsBytes S} `{TokenSource S}.
Abbreviation token := (Token S).
Abbreviation annotated := (LineAnnotated (Token S)).

Record parser : Type := mk_parser { lexer : source; read_buffer : list annotated }.

(** An error ends the parse. *)
Definition P (A : Type) : Type := parser -> outcome ((A + ParseError S) * parser).
Definition ret {A} (a : A) : P A := fun p => Ok (inl a, p).
Definition throw {A} (e : ParseErrorKind.t S) (line : Z) : P A := fun p => Ok (inr (mk_ParseError e line), p).
Definition bind {A B} (m : P A) (k : A -> P B) : P B := fun p =>
  '(r, p) ← m p;
  match r with inl a => k a p | inr e => Ok (inr e, p) end.
#[local] Notation "'let*' x ':=' m 'in' k" := (bind m (fun x => k)) (at level 10, x pattern, m at level 100, k at level 200).

(** [self.lexer.line_number()] *)
Definition lexer_line : P Z := fun p => Ok (inl (source_line (lexer p)), p).

(** A call of the lexer *)
Definition lex {A} (m : source -> outcome ((A + LexError) * source)) : P A := fun p =>
  '(r, l) ← m (lexer p);
  let p := mk_parser l (read_buffer p) in
  match r with
  | inl a => Ok (inl a, p)
  | inr e => throw (ParseErrorKind.OfLexer e) (source_line l) p
  end.
Definition push (t : annotated) : P unit := fun p => Ok (inl tt, mk_parser (lexer p) (read_buffer p ++ [t])).

(** What bounds the turns of a loop: each takes a token. *)
Definition left_ (p : parser) : nat := (remaining (lexer p) + length (read_buffer p))%nat.

(** A loop whose body goes on with new locals or leaves with a value *)
Fixpoint iter {A B} (fuel : nat) (body : A -> P (A + B)) (a : A) : P B :=
  match fuel with
  | O => fun _ => Panic
  | Datatypes.S fuel =>
      let* r := body a in
      match r with inl a => iter fuel body a | inr b => ret b end
  end.
Definition loop {A B} (body : A -> P (A + B)) (a : A) : P B := fun p => iter (Datatypes.S (left_ p)) body a p.

(** *** The read buffer *)

(** At most [k] rounds of the loop of [read_ahead] *)
Fixpoint fill (k : nat) : P unit :=
  match k with
  | O => ret tt
  | Datatypes.S k =>
      let* _ := lex skip_whitespace in
      let* line_number := lexer_line in
      let* t := lex read_token in
      match t with
      | Some t => let* _ := push (annotate line_number t) in fill k
      | None => ret tt
      end
  end.
Definition read_ahead (n : nat) : P unit := fun p => fill (Datatypes.S n - length (read_buffer p)) p.

Definition end_of_stream {A} (expected : option (ParseErrorKind.Expected S)) : P A :=
  let* line := lexer_line in throw (ParseErrorKind.EndOfStream expected) line.

(** [self.read_buffer.get(n)] *)
Definition buffered (n : nat) : P (option annotated) := fun p => Ok (inl (read_buffer p !! n), p).

(** [self.read_buffer.remove(0)] when there is a token *)
Definition remove : P (option annotated) := fun p =>
  match read_buffer p with
  | t :: rest => Ok (inl (Some t), mk_parser (lexer p) rest)
  | [] => Ok (inl None, p)
  end.

Definition get_next : P annotated :=
  let* _ := read_ahead 1 in
  let* t := buffered 0 in
  match t with Some t => ret t | None => end_of_stream None end.

Definition expect_next (t : token) : P Z :=
  let* _ := read_ahead 1 in
  let* next := remove in
  match next with
  | None => end_of_stream (Some (ParseErrorKind.Token_ t))
  | Some next =>
      if token_eq (inner next) t then ret (line_number next)
      else throw (ParseErrorKind.Unexpected (inner next) (ParseErrorKind.Token_ t)) (line_number next)
  end.

(** [expect_name] and [expect_string]: [get] picks the token that is wanted. *)
Definition expect_text (get : token -> option S) (what : String.string) : P S :=
  let* _ := read_ahead 1 in
  let* next := remove in
  match next with
  | None => end_of_stream (Some (ParseErrorKind.Text what))
  | Some next =>
      match get (inner next) with
      | Some s => ret s
      | None =>
          let* line := lexer_line in
          throw (ParseErrorKind.Unexpected (inner next) (ParseErrorKind.Text what)) line
      end
  end.
Definition expect_name : P S := expect_text (fun t => match t with Name s => Some s | _ => None end) "name".
Definition expect_string : P S := expect_text (fun t => match t with String s => Some s | _ => None end) "string".

Definition take_next : P annotated :=
  let* _ := read_ahead 1 in
  let* next := remove in
  match next with Some t => ret t | None => end_of_stream None end.

Definition look_ahead (n : nat) : P (option annotated) :=
  let* _ := read_ahead (n + 1) in buffered n.
(** [self.look_ahead(n)?.map(AsRef::as_ref)] *)
Definition look_token (n : nat) : P (option token) :=
  let* t := look_ahead n in ret (inner <$> t).

Definition check_ahead (n : nat) (t : token) : P bool :=
  let* _ := read_ahead n in
  let* next := buffered n in
  ret (match next with Some next => token_eq (inner next) t | None => false end).

(** *** The grammar

    One function per rule.  [parse_statement] and [parse_sub_expression] are the two guarded
    ones, with one guard less than the caller has; their own bodies come last. *)
Section Grammar.
Context (parse_statement : P (Statement S)) (parse_sub_expression : Z -> P (Expression S)).

Definition parse_expression : P (Expression S) := parse_sub_expression MIN_PRIORITY.

(** [while self.check_ahead(0, Token::Comma)? { self.take_next()?; push(item()?) }] *)
Definition more_items {A} (item : P A) (first : list A) : P (list A) :=
  loop (fun items : list A =>
    let* comma := check_ahead 0 Comma in
    if comma then
      let* _ := take_next in
      let* i := item in
      ret (inl (items ++ [i]))
    else ret (inr items)) first.

Definition parse_expression_list : P (list (Expression S)) :=
  let* e := parse_expression in more_items parse_expression [e].

Definition parse_return_statement : P (list (Expression S)) :=
  let* _ := expect_next Return in
  let* next := look_token 0 in
  let* returns := (match next with
    | None | Some End | Some SemiColon | Some Else | Some ElseIf | Some Until => ret []
    | _ => parse_expression_list
    end) in
  let* semi := check_ahead 0 SemiColon in
  let* _ := (if semi then let* _ := take_next in ret tt else ret tt) in
  ret returns.

Definition parse_block : P (Block S) :=
  let* r := loop (fun statements =>
    let* next := look_ahead 0 in
    match next with
    | None => ret (inr (statements, None))
    | Some next =>
        match inner next with
        | Else | ElseIf | End | Until => ret (inr (statements, None))
        | SemiColon => let* _ := take_next in ret (inl statements)
        | Return =>
            let* r := parse_return_statement in
            ret (inr (statements, Some (annotate (line_number next) r)))
        | _ =>
            let* st := parse_statement in
            ret (inl (statements ++ [annotate (line_number next) st]))
        end
    end) [] in
  let* next := look_ahead 0 in
  let* closed_on := (match next with Some next => ret (line_number next) | None => lexer_line end) in
  ret (mk_Block (fst r) (snd r) closed_on).

Definition parse_constructor_field : P (ConstructorField S) :=
  let* next := get_next in
  match inner next with
  | Name _ =>
      let* named := check_ahead 1 Assign in
      if named then
        let* key := expect_name in
        let* _ := expect_next Assign in
        let* value := parse_expression in
        ret (Record_ (KNamed key) value)
      else let* e := parse_expression in ret (Array e)
  | LeftBracket =>
      let* _ := take_next in
      let* key := parse_expression in
      let* _ := expect_next RightBracket in
      let* _ := expect_next Assign in
      let* value := parse_expression in
      ret (Record_ (KIndexed key) value)
  | _ => let* e := parse_expression in ret (Array e)
  end.

Definition parse_table_constructor : P (list (ConstructorField S)) :=
  let* _ := expect_next LeftBrace in
  let* fields := loop (fun fields =>
    let* close := check_ahead 0 RightBrace in
    if close then ret (inr fields)
    else
      let* f := parse_constructor_field in
      let fields := fields ++ [f] in
      let* next := get_next in
      match inner next with
      | Comma | SemiColon => let* _ := take_next in ret (inl fields)
      | _ => ret (inr fields)
      end) [] in
  let* _ := expect_next RightBrace in
  ret fields.

(** The loop over the parameters: their names, and whether [...] ended them *)
Definition parse_parameters : P (list S * bool) :=
  loop (fun parameters =>
    let* next := take_next in
    match inner next with
    | Name name =>
        let parameters := parameters ++ [name] in
        let* comma := check_ahead 0 Comma in
        if comma then let* _ := take_next in ret (inl parameters)
        else ret (inr (parameters, false))
    | Dots => ret (inr (parameters, true))
    | t => throw (ParseErrorKind.Unexpected t (ParseErrorKind.Text "parameter name or '...'")) (line_number next)
    end) [].

Definition parse_function_definition (line : Z) : P (FunctionDefinition S) :=
  let* _ := expect_next LeftParen in
  let* close := check_ahead 0 RightParen in
  let* r := (if close then ret ([], false) else parse_parameters) in
  let* _ := expect_next RightParen in
  let* body := parse_block in
  let* _ := expect_next End in
  ret (mk_FunctionDefinition line (fst r) (snd r) body).

Definition parse_primary_expression : P (PrimaryExpression S) :=
  let* next := take_next in
  match inner next with
  | LeftParen =>
      let* e := parse_expression in
      let* _ := expect_next RightParen in
      ret (GroupedExpression e)
  | Name n => ret (PName n)
  | t => throw (ParseErrorKind.Unexpected t (ParseErrorKind.Text "grouped expression or name")) (line_number next)
  end.

Definition parse_field_suffix : P (FieldSuffix S) :=
  let* next := get_next in
  match inner next with
  | Dot =>
      let* _ := take_next in
      let* n := expect_name in
      ret (FNamed n)
  | LeftBracket =>
      let* _ := take_next in
      let* e := parse_expression in
      let* _ := expect_next RightBracket in
      ret (FIndexed e)
  | t => throw (ParseErrorKind.Unexpected t (ParseErrorKind.Text "field or suffix")) (line_number next)
  end.

(** The argument of a call without parentheses *)
Definition lone (e : SimpleExpression S) : list (Expression S) := [mk_Expression (Simple e) []].

Definition parse_call_suffix : P (CallSuffix S) :=
  let* next := get_next in
  let* method_name := (match inner next with
    | Colon => let* _ := take_next in let* n := expect_name in ret (Some n)
    | _ => ret None
    end) in
  let* next := get_next in
  let* args := (match inner next with
    | LeftParen =>
        let* _ := take_next in
        let* next := get_next in
        let* args := (match inner next with RightParen => ret [] | _ => parse_expression_list end) in
        let* _ := expect_next RightParen in
        ret args
    | LeftBrace => let* t := parse_table_constructor in ret (lone (ETableConstructor t))
    | String _ => let* s := expect_string in ret (lone (EString s))
    | t => throw (ParseErrorKind.Unexpected t (ParseErrorKind.Text "function arguments")) (line_number next)
    end) in
  ret (match method_name with Some n => CMethod n args | None => CFunction args end).

Definition parse_suffix_part : P (SuffixPart S) :=
  let* next := get_next in
  match inner next with
  | Dot | LeftBracket => let* f := parse_field_suffix in ret (Field f)
  | Colon | LeftParen | LeftBrace | String _ => let* c := parse_call_suffix in ret (Call c)
  | t => throw (ParseErrorKind.Unexpected t (ParseErrorKind.Text "expression suffix")) (line_number next)
  end.

Definition parse_suffixed_expression : P (SuffixedExpression S) :=
  let* primary := parse_primary_expression in
  let* suffixes := loop (fun suffixes =>
    let* next := look_token 0 in
    match next with
    | Some Dot | Some LeftBracket | Some Colon | Some LeftParen | Some LeftBrace | Some (String _) =>
        let* s := parse_suffix_part in ret (inl (suffixes ++ [s]))
    | _ => ret (inr suffixes)
    end) [] in
  ret (mk_SuffixedExpression primary suffixes).

Definition parse_simple_expression : P (SimpleExpression S) :=
  let* next := get_next in
  let take e := let* _ := take_next in ret e in
  match inner next with
  | Float f => take (EFloat f)
  | Integer i => take (EInteger i)
  | String _ => let* s := expect_string in ret (EString s)
  | Nil => take ENil
  | True_ => take ETrue
  | False_ => take EFalse
  | Dots => take EVarArgs
  | LeftBrace => let* t := parse_table_constructor in ret (ETableConstructor t)
  | Function =>
      let* t := take_next in
      let* d := parse_function_definition (line_number t) in
      ret (EFunction d)
  | _ => let* e := parse_suffixed_expression in ret (ESuffixed e)
  end.

(** *** Statements *)

Definition parse_if_statement : P (Statement S) :=
  let* _ := expect_next If in
  let* if_cond := parse_expression in
  let* _ := expect_next Then in
  let* if_block := parse_block in
  let* else_if_parts := loop (fun parts =>
    let* more := check_ahead 0 ElseIf in
    if more then
      let* _ := take_next in
      let* cond := parse_expression in
      let* _ := expect_next Then in
      let* block := parse_block in
      ret (inl (parts ++ [(cond, block)]))
    else ret (inr parts)) [] in
  let* has_else := check_ahead 0 Else in
  let* else_part := (if has_else then
      let* _ := take_next in
      let* block := parse_block in
      ret (Some block)
    else ret None) in
  let* _ := expect_next End in
  ret (SIf (if_cond, if_block) else_if_parts else_part).

Definition parse_while_statement : P (Statement S) :=
  let* _ := expect_next While in
  let* condition := parse_expression in
  let* _ := expect_next Do in
  let* block := parse_block in
  let* _ := expect_next End in
  ret (SWhile condition block).

Definition parse_do_statement : P (Statement S) :=
  let* _ := take_next in
  let* block := parse_block in
  let* _ := expect_next End in
  ret (SDo block).

Definition parse_numeric_for (name : S) : P (ForStatement S) :=
  let* _ := take_next in
  let* initial := parse_expression in
  let* _ := expect_next Comma in
  let* limit := parse_expression in
  let* has_step := check_ahead 0 Comma in
  let* step := (if has_step then
      let* _ := take_next in
      let* e := parse_expression in
      ret (Some e)
    else ret None) in
  let* _ := expect_next Do in
  let* body := parse_block in
  let* _ := expect_next End in
  ret (Numeric name initial limit step body).

Definition parse_generic_for (name : S) : P (ForStatement S) :=
  let* names := more_items expect_name [name] in
  let* _ := expect_next In in
  let* arguments := parse_expression_list in
  let* _ := expect_next Do in
  let* body := parse_block in
  let* _ := expect_next End in
  ret (Generic names arguments body).

Definition parse_for_statement : P (ForStatement S) :=
  let* _ := expect_next For in
  let* name := expect_name in
  let* next := get_next in
  match inner next with
  | Assign => parse_numeric_for name
  | Comma | In => parse_generic_for name
  | t => throw (ParseErrorKind.Unexpected t (ParseErrorKind.Text "'=' or 'in'")) (line_number next)
  end.

Definition parse_repeat_statement : P (Statement S) :=
  let* _ := expect_next Repeat in
  let* body := parse_block in
  let* _ := expect_next Until in
  let* until := parse_expression in
  ret (SRepeat body until).

(** The fields of a function's name, and its method *)
Definition parse_function_fields : P (list S * option S) :=
  loop (fun fields =>
    let* next := look_token 0 in
    match next with
    | Some Dot =>
        let* _ := take_next in
        let* f := expect_name in
        ret (inl (fields ++ [f]))
    | Some Colon =>
        let* _ := take_next in
        let* m := expect_name in
        ret (inr (fields, Some m))
    | _ => ret (inr (fields, None))
    end) [].

Definition parse_function_statement : P (Statement S) :=
  let* line := expect_next Function in
  let* name := expect_name in
  let* path := parse_function_fields in
  let* definition := parse_function_definition line in
  ret (SFunction name (fst path) (snd path) definition).

Definition parse_local_function_statement : P (Statement S) :=
  let* line := expect_next Function in
  let* name := expect_name in
  let* definition := parse_function_definition line in
  ret (SLocalFunction name definition).

Definition take_local_name_and_attr : P (S * LocalAttributes) :=
  let* name := expect_name in
  let* attributed := check_ahead 0 LessThan in
  if attributed then
    let* _ := take_next in
    let* attr := expect_name in
    let* line := lexer_line in
    let* _ := expect_next GreaterThan in
    if bool_decide (as_bytes attr = bs# "const") then ret (name, CONST)
    else if bool_decide (as_bytes attr = bs# "close") then ret (name, CONST_CLOSE)
    else throw (ParseErrorKind.InvalidAttribute (as_bytes attr)) line
  else ret (name, NONE).

Definition parse_local_statement : P (Statement S) :=
  let* _ := expect_next Local in
  let* n := take_local_name_and_attr in
  let* names := more_items take_local_name_and_attr [n] in
  let* has_values := check_ahead 0 Assign in
  let* values := (if has_values then let* _ := take_next in parse_expression_list else ret []) in
  ret (SLocalStatement names values).

Definition parse_label_statement : P (Statement S) :=
  let* _ := expect_next DoubleColon in
  let* name := expect_name in
  let* _ := expect_next DoubleColon in
  ret (SLabel name).

Definition parse_goto_statement : P (Statement S) :=
  let* _ := expect_next Goto in
  let* name := expect_name in
  ret (SGoto name).

(** [suffixes.pop()]: the last suffix, and the expression without it *)
Definition pop_suffix (e : SuffixedExpression S) : option (SuffixPart S * SuffixedExpression S) :=
  let '(mk_SuffixedExpression primary suffixes) := e in
  match rev suffixes with
  | [] => None
  | s :: rest => Some (s, mk_SuffixedExpression primary (rev rest))
  end.

(** What an expression is as the target of an assignment *)
Definition assignment_target (e : SuffixedExpression S) : option (AssignmentTarget S) :=
  match pop_suffix e with
  | Some (Field f, e) => Some (TField e f)
  | Some (Call _, _) => None
  | None => match e with mk_SuffixedExpression (PName n) _ => Some (TName n) | _ => None end
  end.

Definition parse_assignment (line : Z) (e : SuffixedExpression S) : P (Statement S) :=
  let* targets := loop (fun '(targets, e) =>
    match assignment_target e with
    | None => throw ParseErrorKind.AssignToExpression line
    | Some t =>
        let targets := targets ++ [t] in
        let* comma := check_ahead 0 Comma in
        if comma then
          let* _ := take_next in
          let* e := parse_suffixed_expression in
          ret (inl (targets, e))
        else ret (inr targets)
    end) ([], e) in
  let* _ := expect_next Assign in
  let* values := parse_expression_list in
  ret (SAssignment targets values).

Definition parse_expression_statement : P (Statement S) :=
  let* e := parse_suffixed_expression in
  let* next := look_ahead 0 in
  let* line := (match next with Some t => ret (line_number t) | None => lexer_line end) in
  let* assign := check_ahead 0 Assign in
  let* assigns := (if assign then ret true else check_ahead 0 Comma) in
  if assigns then parse_assignment line e
  else
    match pop_suffix e with
    | Some (Call c, e) => ret (SFunctionCall e c)
    | Some (Field _, _) | None => throw ParseErrorKind.ExpressionNotStatement line
    end.

Definition statement_body : P (Statement S) :=
  let* next := get_next in
  match inner next with
  | If => parse_if_statement
  | While => parse_while_statement
  | Do => parse_do_statement
  | For => let* f := parse_for_statement in ret (SFor f)
  | Repeat => parse_repeat_statement
  | Function => parse_function_statement
  | Local =>
      let* is_function := check_ahead 1 Function in
      if is_function then let* _ := take_next in parse_local_function_statement
      else parse_local_statement
  | DoubleColon => parse_label_statement
  | Break => let* _ := take_next in ret SBreak
  | Goto => parse_goto_statement
  | _ => parse_expression_statement
  end.

(** *** Expressions with operators *)
Definition sub_expression_body (priority_limit : Z) : P (Expression S) :=
  let* next := get_next in
  let* head := (match get_unary_operator (inner next) with
    | Some unary_op =>
        let* _ := take_next in
        let* e := parse_sub_expression UNARY_PRIORITY in
        ret (Unary unary_op e)
    | None => let* e := parse_simple_expression in ret (Simple e)
    end) in
  let* tail := loop (fun tail =>
    let* next := look_token 0 in
    match next ≫= get_binary_operator with
    | Some binary_op =>
        let '(left_priority, right_priority) := binary_priority binary_op in
        if left_priority <=? priority_limit then ret (inr tail)
        else
          let* _ := take_next in
          let* e := parse_sub_expression right_priority in
          ret (inl (tail ++ [(binary_op, e)]))
    | None => ret (inr tail)
    end) [] in
  ret (mk_Expression head tail).
End Grammar.

(** [recursion_guard] refuses when none of the [guards] is left. *)
Definition recursion_limit {A} : P A :=
  let* line := lexer_line in throw ParseErrorKind.RecursionLimit line.

Fixpoint parse_statement (guards : nat) : P (Statement S) :=
  match guards with
  | O => recursion_limit
  | Datatypes.S guards => statement_body (parse_statement guards) (parse_sub_expression guards)
  end
with parse_sub_expression (guards : nat) (priority_limit : Z) : P (Expression S) :=
  match guards with
  | O => recursion_limit
  | Datatypes.S guards => sub_expression_body (parse_statement guards) (parse_sub_expression guards) priority_limit
  end.

(** The parser itself holds one of the [MAX_RECURSION] references. *)
Definition guards : nat := MAX_RECURSION - 1.

Definition chunk : P (Chunk S) :=
  let* block := parse_block (parse_statement guards) (parse_sub_expression guards) in
  let* next := look_ahead 0 in
  match next with
  | Some _ => end_of_stream None
  | None => ret (mk_Chunk block)
  end.

Definition parse_chunk (lexer : source) : outcome (Chunk S + ParseError S) :=
  '(r, _) ← chunk (mk_parser lexer []); Ok r.
End Parser.
End Parser.

(** ** The lexer as a source of tokens *)
Section LexerSource.
Context `{BuildProfile} `{StringInterner}.

#[export] Instance interned_bytes : AsBytes IString := as_ref.

(** A loop that exhausts its bound counts as a panic. *)
Definition of_res {A} (r : Lexer.res A) : outcome ((A + LexError) * Lexer.lexer) :=
  match r with
  | Lexer.Done a l => Ok (inl a, l)
  | Lexer.Fail e l => Ok (inr e, l)
  | Lexer.Panicked | Lexer.OutOfFuel => Panic
  end.

#[export] Instance lexer_source : TokenSource IString := {|
  source := Lexer.lexer;
  skip_whitespace := fun l => of_res (Lexer.skip_whitespace l);
  read_token := fun l => of_res (Lexer.read_token l);
  source_line := Lexer.line_number;
  remaining := fun l => length (Lexer.source l)
|}.
End LexerSource.

(** [parse_chunk]: the text and an interner *)
Definition parse_source `{BuildProfile} `{StringInterner} (text : list Z) (interner : InternerState)
  : outcome (Chunk IString + ParseError IString) :=
  Parser.parse_chunk (Lexer.new text interner).
