(* ===== verification/ParserFacts.v ===== *)
(** * Facts on the parser

    Which trees the parser makes ([canonical_statement], [canonical_expression]), the rules by
    which it is run, and that each of its functions ends, takes tokens, and makes such trees. *)

From S2P Require Import Prelude Float64 Constant Operators Lexer LexerFacts Parser.
Import Ast.

(** ** The lexer keeps the laws of a source *)
Section LexerSource.
Context `{BuildProfile} `{StringInterner}.

#[export] Program Instance lexer_source_laws : TokenSourceLaws IString := {|
  ready := wf
|}.
Next Obligation.
  intros s Hs. cbn. pose proof (skip_whitespace_spec s Hs) as H1. unfold wp in H1.
  destruct (Lexer.skip_whitespace s) as [r s'|e s'| |]; [|by destruct H1 as (? & Hsrc & _); eexists _, _; split_and!; [reflexivity|done|rewrite Hsrc; cbn; lia]|done..].
  destruct H1 as [Ha _]. eexists _, _. split_and!; [reflexivity|apply Ha|by apply adv_length].
Qed.
Next Obligation.
  intros s Hs. cbn. pose proof (read_token_spec s Hs) as H1. unfold wp in H1.
  destruct (Lexer.read_token s) as [[t|] s'|e s'| |]; [..|done|done].
  - destruct H1 as [Ha Hl]. eexists _, _. split_and!; [reflexivity|apply Ha|done].
  - destruct H1 as [(Hw & Hsrc & _) _]. eexists _, _. split_and!; [reflexivity|done|rewrite Hsrc; cbn; lia].
  - destruct H1 as (Hw & Hsrc & _). eexists _, _. split_and!; [reflexivity|done|rewrite Hsrc; cbn; lia].
Qed.
Next Obligation.
  intros s s'. cbn. unfold Lexer.read_token. unfold mbind, Lexer.lexM_bind.
  destruct (Lexer.skip_whitespace s) as [u s1|e s1| |]; try done. unfold Lexer.unless_token_reset.
  destruct (Lexer.do_read_token s1) as [[t|] s2|e s2| |]; try done. intros [= <-]. by split.
Qed.
End LexerSource.

(** ** The trees the parser makes

    [g] is the number of guards left, as in the parser. *)
Module Canonical.
Section Canonical.
Context {S : Type} `{AsBytes S}.

Section Grammar.
Context (statement : Z -> Statement S -> Prop) (expression : Z -> Expression S -> Prop).

Definition expr : Expression S -> Prop := expression MIN_PRIORITY.
(** A list of at least one *)
Definition exprs (es : list (Expression S)) : Prop := es <> [] /\ Forall expr es.

Definition block_ (b : Block S) : Prop :=
  let '(mk_Block statements return_statement _) := b in
  Forall (fun s => statement (line_number s) (inner s)) statements /\
  match return_statement with Some r => Forall expr (inner r) | None => True end.
Definition definition (d : FunctionDefinition S) : Prop :=
  let '(mk_FunctionDefinition _ _ _ body) := d in block_ body.
Definition key (k : RecordKey S) : Prop := match k with KNamed _ => True | KIndexed e => expr e end.
Definition field (f : ConstructorField S) : Prop :=
  match f with Array e => expr e | Record_ k e => key k /\ expr e end.
Definition field_suffix (f : FieldSuffix S) : Prop := match f with FNamed _ => True | FIndexed e => expr e end.
(** A table or a string that is the only argument needs no parentheses, and then the call
    adds no level. *)
Definition arguments (args : list (Expression S)) : Prop :=
  match args with
  | [mk_Expression (Simple (ETableConstructor fields)) []] => Forall field fields
  | [mk_Expression (Simple (EString _)) []] => True
  | _ => Forall expr args
  end.
Definition call_suffix (c : CallSuffix S) : Prop :=
  match c with CMethod _ args | CFunction args => arguments args end.
Definition suffix (s : SuffixPart S) : Prop := match s with Field f => field_suffix f | Call c => call_suffix c end.
Definition primary (e : PrimaryExpression S) : Prop := match e with PName _ => True | GroupedExpression e => expr e end.
Definition suffixed (e : SuffixedExpression S) : Prop :=
  let '(mk_SuffixedExpression p suffixes) := e in primary p /\ Forall suffix suffixes.
Definition simple (e : SimpleExpression S) : Prop :=
  match e with
  | ETableConstructor fields => Forall field fields
  | EFunction d => definition d
  | ESuffixed e => suffixed e
  | _ => True
  end.

(** Operators of one level: each binds tighter than what the expression is the operand of
    ([p]) and no tighter than what comes before it ([limit]). *)
Fixpoint chain (p limit : Z) (tail : list (BinaryOperator.t * Expression S)) : Prop :=
  match tail with
  | [] => True
  | (op, e) :: tail =>
      p < fst (binary_priority op) <= limit /\ expression (snd (binary_priority op)) e /\
      chain p (snd (binary_priority op)) tail
  end.

(** No operator binds tighter than this. *)
Definition MAX_PRIORITY : Z := 14.

Definition expression_body (p : Z) (e : Expression S) : Prop :=
  let '(mk_Expression head tail) := e in
  match head with
  | Simple e => simple e /\ chain p MAX_PRIORITY tail
  | Unary _ e => expression UNARY_PRIORITY e /\ chain p UNARY_PRIORITY tail
  end.

Definition target (t : AssignmentTarget S) : Prop :=
  match t with TName _ => True | TField e f => suffixed e /\ field_suffix f end.

Definition for_statement (f : ForStatement S) : Prop :=
  match f with
  | Numeric _ initial limit step body =>
      expr initial /\ expr limit /\ match step with Some e => expr e | None => True end /\ block_ body
  | Generic names arguments body => names <> [] /\ exprs arguments /\ block_ body
  end.

(** [line] is where the statement starts. *)
Definition statement_body (line : Z) (s : Statement S) : Prop :=
  match s with
  | SIf if_part else_if_parts else_part =>
      (expr (fst if_part) /\ block_ (snd if_part)) /\
      Forall (fun part => expr (fst part) /\ block_ (snd part)) else_if_parts /\
      match else_part with Some b => block_ b | None => True end
  | SWhile condition block => expr condition /\ block_ block
  | SDo block => block_ block
  | SFor f => for_statement f
  | SRepeat body until => block_ body /\ expr until
  | SFunction _ _ _ d => (let '(mk_FunctionDefinition l _ _ _) := d in l = line) /\ definition d
  | SLocalFunction _ d => definition d
  | SLocalStatement names values =>
      names <> [] /\ Forall (fun n => snd n ∈ [NONE; CONST; CONST_CLOSE]) names /\ Forall expr values
  | SLabel _ | SBreak | SGoto _ => True
  | SFunctionCall head call => suffixed head /\ call_suffix call
  | SAssignment targets values => (targets <> [] /\ Forall target targets) /\ exprs values
  end.
End Grammar.

Fixpoint canonical_statement (g : nat) (line : Z) (s : Statement S) : Prop :=
  match g with
  | O => False
  | Datatypes.S g => statement_body (canonical_statement g) (canonical_expression g) line s
  end
with canonical_expression (g : nat) (p : Z) (e : Expression S) : Prop :=
  match g with
  | O => False
  | Datatypes.S g => expression_body (canonical_statement g) (canonical_expression g) p e
  end.

(** A chunk whose statements and operators nest less than [MAX_RECURSION] deep *)
Definition canonical_chunk (c : Chunk S) : Prop :=
  block_ (canonical_statement Parser.guards) (canonical_expression Parser.guards) (block c).
End Canonical.
End Canonical.

(** ** Running the parser *)
Module ParserFacts.
Import Parser.
Section Facts.
Context {S : Type} `{AsBytes S} `{TokenSource S} `{!TokenSourceLaws S}.
Implicit Types (p : parser (S:=S)).

Definition ok p : Prop := ready (lexer p).
(** The next token is in the buffer. *)
Definition peeked p (t : LineAnnotated (Token S)) : Prop := head (read_buffer p) = Some t.
(** The lexer has told its end. *)
Definition ended (l : source) : Prop := skip_whitespace l = Ok (inl tt, l) /\ read_token l = Ok (inl None, l).

(** A token after which an expression is over, for an operator of priority [q] before it *)
Definition no_operator (q : Z) (t : Token S) : Prop :=
  match get_binary_operator t with Some op => fst (binary_priority op) <= q | None => True end.
Definition stops_at (q : Z) p : Prop :=
  match head (read_buffer p) with Some t => no_operator q (inner t) | None => ended (lexer p) end.

Definition wp {A} (m : P A) (Q : A -> parser -> Prop) p : Prop :=
  match m p with
  | Ok (inl a, p') => Q a p'
  | Ok (inr _, _) => True
  | Panic => False
  end.

Lemma holds_ret {A} (a : A) Q p : Q a p -> wp (ret a) Q p.
Proof. done. Qed.
Lemma wp_throw {A} k line (Q : A -> parser -> Prop) p : wp (throw k line) Q p.
Proof. done. Qed.
Lemma holds_bind {A B} (m : P A) (k : A -> P B) Q p : wp m (fun a => wp (k a) Q) p -> wp (bind m k) Q p.
Proof. unfold wp, bind. by destruct (m p) as [[[a|e] p']|]. Qed.
Lemma holds_mono {A} (m : P A) (Q Q' : A -> parser -> Prop) p :
  wp m Q p -> (forall a p', Q a p' -> Q' a p') -> wp m Q' p.
Proof. unfold wp. destruct (m p) as [[[a|e] p']|]; naive_solver. Qed.
Lemma wp_line Q p : (forall l, Q l p) -> wp lexer_line Q p.
Proof. intros HQ. apply HQ. Qed.
Lemma wp_end_of_stream {A} e (Q : A -> parser -> Prop) p : wp (end_of_stream e) Q p.
Proof. done. Qed.

(** A loop whose turns keep [I] and take a token *)
Lemma holds_loop {A B} (I : A -> parser -> Prop) (body : A -> P (A + B)) (Q : B -> parser -> Prop) a p :
  (forall a p, I a p -> wp (body a) (fun r p' =>
     match r with inl a => I a p' /\ (left_ p' < left_ p)%nat | inr b => Q b p' end) p) ->
  I a p -> wp (loop body a) Q p.
Proof.
  intros Hbody. unfold loop.
  assert (Hiter : forall n a p, (left_ p < n)%nat -> I a p -> wp (iter n body a) Q p).
  { induction n as [|n IH]; intros a' p' Hn HI; [lia|]. cbn [iter]. apply holds_bind.
    eapply holds_mono; [by apply Hbody|]. intros [a2|b] p2; [|done]. intros [HI2 Hlt]. apply IH; [lia|done]. }
  intros HI. unfold wp. exact (Hiter _ a p (Nat.lt_succ_diag_r _) HI).
Qed.

(** *** Reading ahead *)

(** [p'] is [p] with more tokens in the buffer. *)
Record reads p p' : Prop := {
  reads_ok : ok p';
  reads_left : (left_ p' <= left_ p)%nat;
  reads_buffer : read_buffer p `prefix_of` read_buffer p';
  reads_ended : ended (lexer p) -> p' = p
}.

Lemma reads_refl p : ok p -> reads p p.
Proof. by split. Qed.
Lemma reads_trans p1 p2 p3 : reads p1 p2 -> reads p2 p3 -> reads p1 p3.
Proof.
  intros [? ? ? E] [? ? ? E']. split; [done|lia|by etrans|].
  intros He. rewrite <- (E He). apply E'. by rewrite (E He).
Qed.

Lemma fill_reads k p : ok p ->
  wp (fill k) (fun _ p' => reads p p' /\ ((length (read_buffer p') < length (read_buffer p) + k)%nat -> ended (lexer p'))) p.
Proof.
  revert p. induction k as [|k IH]; intros p Hp.
  { cbn. split; [by apply reads_refl|lia]. }
  cbn [fill]. apply holds_bind. unfold lex at 1, wp at 1.
  destruct (skip_ready _ Hp) as (r & l & E & Hl & Hrem). rewrite E. cbn [mbind outcome_bind]. destruct r as [[]|e]; [|done].
  apply holds_bind, wp_line. intros line. apply holds_bind. unfold lex, wp at 1. cbn [lexer read_buffer].
  destruct (read_ready _ Hl) as (r & l2 & E2 & Hl2 & Hrem2). rewrite E2. cbn [mbind outcome_bind]. destruct r as [[t|]|e]; [..|done].
  - apply holds_bind. cbn. eapply holds_mono; [apply IH; exact Hl2|]. intros _ p' [[Hok Hle Hpre _] Hend]. cbn in *.
    rewrite length_app in *. cbn in *. split.
    + split; [done|unfold left_ in *; cbn in *; rewrite length_app in *; cbn in *; lia|..].
      * etrans; [|exact Hpre]. by eexists.
      * intros [He1 He2]. rewrite E in He1. injection He1 as ->. by rewrite E2 in He2.
    + intros Hlt. apply Hend. lia.
  - cbn. split; [|intros _; by apply (read_end _ _ E2)].
    split; [done|unfold left_; cbn; lia|done|].
    intros [He1 He2]. rewrite E in He1. injection He1 as ->. rewrite E2 in He2. injection He2 as ->. by destruct p.
Qed.

Lemma wp_read_ahead n Q p : ok p ->
  (forall p', reads p p' -> ((length (read_buffer p') <= n)%nat -> ended (lexer p')) -> Q tt p') -> wp (read_ahead n) Q p.
Proof.
  intros Hp HQ. unfold read_ahead. unfold wp. eapply holds_mono; [by apply fill_reads|].
  intros [] p' [Hr Hend]. apply HQ; [done|]. intros Hn. apply Hend. lia.
Qed.

Lemma reads_peeked p p' t : reads p p' -> peeked p t -> peeked p' t.
Proof. intros [_ _ [k E] _]. unfold peeked. rewrite E. by destruct (read_buffer p). Qed.
Lemma reads_stops q p p' : reads p p' -> stops_at q p -> stops_at q p'.
Proof.
  intros [_ _ [k E] He]. unfold stops_at. destruct (read_buffer p) as [|t b] eqn:Eb; [|by rewrite E].
  intros Hend. rewrite (He Hend), Eb. exact Hend.
Qed.

(** *** The rules of the primitives *)

Lemma wp_get_next Q p : ok p ->
  (forall t p', reads p p' -> peeked p' t -> Q t p') -> wp get_next Q p.
Proof.
  intros Hp HQ. apply holds_bind, wp_read_ahead; [done|]. intros p' Hr _. apply holds_bind. unfold buffered, wp at 1.
  rewrite <- head_lookup. destruct (head (read_buffer p')) as [t|] eqn:E; [|done]. by apply HQ.
Qed.

(** A token is taken. *)
Record takes p p' (t : LineAnnotated (Token S)) : Prop := {
  takes_ok : ok p';
  takes_left : (left_ p' < left_ p)%nat;
  takes_token : forall t', peeked p t' -> t' = t
}.

Lemma wp_remove Q p0 p : reads p0 p ->
  (forall t p', takes p0 p' t -> Q (Some t) p') -> Q None p -> wp remove Q p.
Proof.
  intros Hr HQ HN. unfold remove, wp. destruct (read_buffer p) as [|t b] eqn:E; [done|]. apply HQ. split.
  - by apply Hr.
  - destruct Hr as [_ Hle _ _]. unfold left_ in *. rewrite E in Hle. cbn in *. lia.
  - intros t' Ht'. apply (reads_peeked _ _ _ Hr) in Ht'. unfold peeked in Ht'. rewrite E in Ht'. by injection Ht'.
Qed.

Lemma wp_expect_next t Q p : ok p ->
  (forall t' p', takes p p' t' -> Q (line_number t') p') -> wp (expect_next t) Q p.
Proof.
  intros Hp HQ. apply holds_bind, wp_read_ahead; [done|]. intros p1 Hr _. apply holds_bind, (wp_remove _ p); [done| |done].
  intros t' p' Ht. cbn. case_match; [by apply HQ|done].
Qed.

Lemma wp_expect_text get what Q p : ok p ->
  (forall s t p', takes p p' t -> Q s p') -> wp (expect_text get what) Q p.
Proof.
  intros Hp HQ. apply holds_bind, wp_read_ahead; [done|]. intros p1 Hr _. apply holds_bind, (wp_remove _ p); [done| |done].
  intros t' p' Ht. cbn. destruct (get (inner t')); [by eapply HQ|done].
Qed.

Lemma wp_take_next Q p : ok p -> (forall t p', takes p p' t -> Q t p') -> wp take_next Q p.
Proof.
  intros Hp HQ. apply holds_bind, wp_read_ahead; [done|]. intros p1 Hr _. apply holds_bind, (wp_remove _ p); [done| |done].
  intros t' p' Ht. by apply HQ.
Qed.

Lemma wp_look_ahead Q p : ok p ->
  (forall o p', reads p p' -> (forall t, o = Some t -> peeked p' t) ->
     (forall q, match o with Some t => no_operator q (inner t) | None => True end -> stops_at q p') ->
     (forall q t, stops_at q p -> o = Some t -> no_operator q (inner t)) -> Q o p') -> wp (look_ahead 0) Q p.
Proof.
  intros Hp HQ. apply holds_bind, wp_read_ahead; [done|]. intros p' Hr Hend. unfold buffered, wp. rewrite <- head_lookup.
  apply HQ; [done|done|..].
  - intros q. unfold stops_at. destruct (head (read_buffer p')) eqn:E; [done|]. intros _. apply Hend.
    apply head_None in E. rewrite E. cbn. lia.
  - intros q t Hs Ht. apply (reads_stops _ _ _ Hr) in Hs. unfold stops_at in Hs. by rewrite Ht in Hs.
Qed.

Lemma wp_look_token Q p : ok p ->
  (forall o p', reads p p' ->
     (forall q, match o with Some t => no_operator q t | None => True end -> stops_at q p') ->
     (forall q t, stops_at q p -> o = Some t -> no_operator q t) -> Q o p') -> wp (look_token 0) Q p.
Proof.
  intros Hp HQ. apply holds_bind, wp_look_ahead; [done|]. intros o p' Hr _ Hs Hn. apply holds_ret. apply HQ; [done|..].
  - intros q Hq. apply Hs. by destruct o.
  - intros q t Hq. destruct o as [t'|]; [|done]. intros [= <-]. by apply Hn.
Qed.

Lemma wp_check_ahead n t Q p : ok p -> (forall b p', reads p p' -> Q b p') -> wp (check_ahead n t) Q p.
Proof.
  intros Hp HQ. apply holds_bind, wp_read_ahead; [done|]. intros p' Hr _. apply holds_bind. unfold buffered, wp at 1.
  apply holds_ret. by apply HQ.
Qed.

(** *** The rules of the grammar *)

(** [m] ends, and unless it fails it takes tokens and gives what [C] says. *)
Definition step p p' : Prop := ok p' /\ (left_ p' < left_ p)%nat.
Definition makes {A} (m : P A) (C : A -> Prop) : Prop := forall p, ok p -> wp m (fun a p' => C a /\ step p p') p.

Lemma wp_makes {A} (m : P A) C Q p : makes m C -> ok p ->
  (forall a p', C a -> ok p' -> (left_ p' < left_ p)%nat -> Q a p') -> wp m Q p.
Proof. intros Hm Hp HQ. eapply holds_mono; [by apply Hm|]. intros a p' (HC & Hok & Hl). by apply HQ. Qed.

Lemma makes_weaken {A} (m : P A) (C C' : A -> Prop) : makes m C -> (forall a, C a -> C' a) -> makes m C'.
Proof. intros Hm HC p Hp. apply (wp_makes m C); [done..|]. intros a p' Ha Ho Hl. split; [by apply HC|done]. Qed.

Lemma makes_name : makes expect_name (fun _ => True).
Proof. intros p Hp. apply wp_expect_text; [done|]. intros s t p' [? ? _]. done. Qed.
Lemma makes_string : makes expect_string (fun _ => True).
Proof. intros p Hp. apply wp_expect_text; [done|]. intros s t p' [? ? _]. done. Qed.
End Facts.

(** One rule for the function that runs next *)
Ltac parse_rule :=
  match goal with
  | |- wp (bind _ _) _ _ => apply holds_bind
  | |- wp (ret _) _ _ => apply holds_ret
  | |- wp (throw _ _) _ _ => apply wp_throw
  | |- wp (end_of_stream _) _ _ => apply wp_end_of_stream
  | |- wp recursion_limit _ _ => apply wp_end_of_stream
  | |- wp lexer_line _ _ => apply wp_line; intros ?
  | |- wp get_next _ _ =>
      let Hr := fresh "Hr" in apply wp_get_next; [done|let t := fresh "t" in intros t ? Hr ?; pose proof (reads_ok _ _ Hr); pose proof (reads_left _ _ Hr)]
  | |- wp (expect_next _) _ _ => let Ht := fresh "Ht" in apply wp_expect_next; [done|let t := fresh "t" in intros t ? Ht; pose proof (takes_ok _ _ _ Ht); pose proof (takes_left _ _ _ Ht)]
  | |- wp take_next _ _ => let Ht := fresh "Ht" in apply wp_take_next; [done|let t := fresh "t" in intros t ? Ht; pose proof (takes_ok _ _ _ Ht); pose proof (takes_left _ _ _ Ht)]
  | |- wp (look_ahead 0) _ _ =>
      let Hr := fresh "Hr" in apply wp_look_ahead; [done|intros ? ? Hr ? ? ?; pose proof (reads_ok _ _ Hr); pose proof (reads_left _ _ Hr)]
  | |- wp (look_token 0) _ _ =>
      let Hr := fresh "Hr" in apply wp_look_token; [done|intros ? ? Hr ? ?; pose proof (reads_ok _ _ Hr); pose proof (reads_left _ _ Hr)]
  | |- wp (check_ahead _ _) _ _ =>
      let Hr := fresh "Hr" in apply wp_check_ahead; [done|intros ? ? Hr; pose proof (reads_ok _ _ Hr); pose proof (reads_left _ _ Hr)]
  | |- wp expect_name _ _ => eapply wp_makes; [apply makes_name|done|intros]
  | |- wp expect_string _ _ => eapply wp_makes; [apply makes_string|done|intros]
  | |- wp (match ?x with _ => _ end) _ _ => destruct x eqn:?
  end.
Ltac parse_end := repeat split; try done; try lia.
Ltac parse_made := split; [first [done | by cbn; split_and!]|split; [done|lia]].
Ltac parse_run := repeat parse_rule; try solve [parse_end].

Section Grammar.
Context {S : Type} `{AsBytes S} `{TokenSource S} `{!TokenSourceLaws S}.
Context (parse_statement : P (Statement S)) (parse_sub_expression : Z -> P (Expression S)).
Context (cs : Z -> Statement S -> Prop) (ce : Z -> Expression S -> Prop).
Context (Hs : forall p t, ok p -> peeked p t -> wp parse_statement (fun s p' => cs (line_number t) s /\ step p p') p).
Context (He : forall q p, ok p -> wp (parse_sub_expression q) (fun e p' => ce q e /\ step p p' /\ stops_at q p') p).
Context (arguments_of : forall args, Forall (Canonical.expr ce) args -> Canonical.arguments ce args).
Implicit Types (p : parser (S:=S)).
Import Canonical.

Lemma makes_expression : makes (parse_expression parse_sub_expression) (expr ce).
Proof. intros p Hp. eapply holds_mono; [by apply He|]. naive_solver. Qed.

Lemma makes_more {A} (item : P A) C first p : makes item C -> ok p -> Forall C first ->
  wp (more_items item first) (fun items p' => (first <> [] -> items <> []) /\ Forall C items /\ ok p' /\ (left_ p' <= left_ p)%nat) p.
Proof.
  intros Hi Hp Hf. unfold more_items.
  apply (holds_loop (fun items p' => (first <> [] -> items <> []) /\ Forall C items /\ ok p' /\ (left_ p' <= left_ p)%nat)); [|by split_and!].
  intros items p1 (Hne & HC & Hok & Hl). parse_run. eapply wp_makes; [done..|]. intros i p2 Hi2 Hok2 Hl2. parse_run.
  split_and!; [|by apply Forall_app; split; [|constructor]|done|lia|lia]. intros _ E. by apply app_eq_nil in E as [_ E].
Qed.

Lemma makes_list : makes (parse_expression_list parse_sub_expression) (exprs ce).
Proof.
  intros p Hp. apply holds_bind. eapply wp_makes; [apply makes_expression|done|]. intros e p1 He1 Hok1 Hl1.
  eapply holds_mono; [apply (makes_more _ (expr ce)); [apply makes_expression|done|by repeat constructor]|].
  intros es p2 (Hne & HC & Hok2 & Hl2). split_and!; [split; [by apply Hne|done]|split; [done|lia]].
Qed.

Lemma makes_return : makes (parse_return_statement parse_sub_expression) (Forall (expr ce)).
Proof.
  intros p Hp. unfold parse_return_statement. do 4 parse_rule. apply holds_bind.
  assert (Hrest : forall l, wp l (fun r p' => Forall (expr ce) r /\ ok p' /\ (left_ p' < left_ p)%nat) p'0 ->
    wp l (fun returns => wp (bind (check_ahead 0 SemiColon) (fun semi => bind (if semi then bind take_next (fun _ => ret tt) else ret tt) (fun _ => ret returns)))
      (fun a p' => Forall (expr ce) a /\ step p p')) p'0).
  { intros l Hl. eapply holds_mono; [exact Hl|]. intros r p2 (HC & Hok2 & Hl2). parse_run. }
  assert (Hlist : wp (parse_expression_list parse_sub_expression) (fun r p' => Forall (expr ce) r /\ ok p' /\ (left_ p' < left_ p)%nat) p'0).
  { eapply wp_makes; [apply makes_list|done|]. intros r p2 [_ HC] ? ?. split_and!; [done..|lia]. }
  apply Hrest. repeat case_match; try exact Hlist; apply holds_ret; (split_and!; [done..|lia]).
Qed.

Abbreviation block := (block_ cs ce).

Lemma makes_block : forall p, ok p -> wp (parse_block parse_statement parse_sub_expression) (fun b p' => block b /\ ok p' /\ (left_ p' <= left_ p)%nat) p.
Proof.
  intros p Hp. unfold parse_block. apply holds_bind.
  apply (holds_loop (fun ss p' => Forall (fun s => cs (line_number s) (inner s)) ss /\ ok p' /\ (left_ p' <= left_ p)%nat)); [|by split_and!].
  intros ss p1 (HC & Hok & Hl). apply holds_bind, wp_look_ahead; [done|]. intros o p2 Hr Hpk _ _.
  pose proof (reads_ok _ _ Hr). pose proof (reads_left _ _ Hr). destruct o as [t|]; [|by parse_run].
  assert (Hst : wp (bind parse_statement (fun st => ret (inl (ss ++ [annotate (line_number t) st])))) (fun r p' => match r with
    | inl a => (Forall (fun s => cs (line_number s) (inner s)) a /\ ok p' /\ (left_ p' <= left_ p)%nat) /\ (left_ p' < left_ p1)%nat
    | inr b => wp (bind (look_ahead 0) (fun next => bind (match next with Some next => ret (line_number next) | None => lexer_line end)
        (fun closed_on => ret (mk_Block (fst b) (snd b) closed_on)))) (fun b p' => block b /\ ok p' /\ (left_ p' <= left_ p)%nat) p' end) p2).
  { apply holds_bind. eapply holds_mono; [by apply (Hs p2 t); [|apply Hpk]|]. intros st p3 (Hst & Hok3 & Hl3). apply holds_ret.
    split_and!; [by apply Forall_app; split; [|constructor]|done|lia|lia]. }
  destruct (inner t); try exact Hst; [by parse_run..| |by parse_run].
  apply holds_bind. eapply wp_makes; [apply makes_return|done|]. intros r p3 Hr3 Hok3 Hl3. by parse_run.
Qed.

Lemma makes_table : makes (parse_table_constructor parse_sub_expression) (Forall (field ce)).
Proof.
  assert (Hf : makes (parse_constructor_field parse_sub_expression) (field ce)).
  { intros p Hp. unfold parse_constructor_field.
    assert (Harr : forall p', ok p' -> (left_ p' <= left_ p)%nat -> wp (bind (parse_expression parse_sub_expression) (fun e => ret (Array e)))
      (fun a p' => field ce a /\ step p p') p').
    { intros p' Hok Hl. parse_rule. eapply wp_makes; [apply makes_expression|done|]. intros e p2 He2 Hok2 Hl2. parse_run. }
    do 2 parse_rule. destruct (inner t); try (apply Harr; [done|lia]).
    - do 3 parse_rule. eapply wp_makes; [apply makes_expression|done|]. intros e p2 He2 Hok2 Hl2. do 5 parse_rule.
      eapply wp_makes; [apply makes_expression|done|]. intros v p4 Hv Hok4 Hl4. parse_run.
    - do 3 parse_rule; [|apply Harr; [done|lia]]. do 5 parse_rule. eapply wp_makes; [apply makes_expression|done|]. intros v p4 Hv Hok4 Hl4. parse_run. }
  intros p Hp. unfold parse_table_constructor. do 3 parse_rule.
  apply (holds_loop (fun fs p' => Forall (field ce) fs /\ ok p' /\ (left_ p' < left_ p)%nat)); [|by split_and!].
  intros fs p1 (HC & Hok & Hl). do 3 parse_rule; [by parse_run|]. apply holds_bind. eapply wp_makes; [exact Hf|done|]. intros f p2 Hf2 Hok2 Hl2.
  assert (Forall (field ce) (fs ++ [f])) by (apply Forall_app; split; [done|by constructor]). parse_run.
Qed.

Lemma makes_definition line : makes (parse_function_definition parse_statement parse_sub_expression line)
  (fun d => (let '(mk_FunctionDefinition l _ _ _) := d in l = line) /\ definition cs ce d).
Proof.
  intros p Hp. unfold parse_function_definition. do 4 parse_rule. apply holds_bind.
  assert (Hrest : forall r p1, ok p1 -> (left_ p1 < left_ p)%nat -> wp (bind (expect_next RightParen) (fun _ => bind (parse_block parse_statement parse_sub_expression)
      (fun body => bind (expect_next End) (fun _ => ret (mk_FunctionDefinition line (fst r) (snd r) body)))))
    (fun d p' => ((let '(mk_FunctionDefinition l _ _ _) := d in l = line) /\ definition cs ce d) /\ step p p') p1).
  { intros r p1 Hok1 Hl1. do 3 parse_rule. eapply holds_mono; [by apply makes_block|]. intros bd p2 (Hb & Hok2 & Hl2). parse_run. }
  parse_rule; [by apply holds_ret, Hrest; [|lia]|]. unfold parse_parameters.
  apply (holds_loop (fun (_ : list S) p' => ok p' /\ (left_ p' < left_ p)%nat)); [|by split; [|lia]].
  intros ps p2 (Hok2 & Hl2). do 2 parse_rule. destruct (inner t0); try apply wp_throw.
  - apply holds_ret, Hrest; [done|lia].
  - do 3 parse_rule; [parse_run|]. apply holds_ret, Hrest; [done|lia].
Qed.

Lemma makes_arguments next : makes (match inner next with
      | LeftParen =>
          bind take_next (fun _ => bind get_next (fun next =>
          bind (match inner next with RightParen => ret [] | _ => parse_expression_list parse_sub_expression end) (fun args =>
          bind (expect_next RightParen) (fun _ => ret args))))
      | LeftBrace => bind (parse_table_constructor parse_sub_expression) (fun t => ret (lone (ETableConstructor t)))
      | String _ => bind expect_string (fun s => ret (lone (EString s)))
      | t => throw (ParseErrorKind.Unexpected t (ParseErrorKind.Text "function arguments")) (line_number next)
      end) (arguments ce).
Proof.
  intros p Hp. destruct (inner next); try apply wp_throw.
  - do 4 parse_rule. apply holds_bind.
    assert (Hrest : forall args p1, arguments ce args -> ok p1 -> (left_ p1 < left_ p)%nat ->
      wp (bind (expect_next RightParen) (fun _ => ret args)) (fun a p' => arguments ce a /\ step p p') p1) by (intros; parse_run).
    assert (Hlist : wp (parse_expression_list parse_sub_expression) (fun args p' =>
      wp (bind (expect_next RightParen) (fun _ => ret args)) (fun a p' => arguments ce a /\ step p p') p') p'0).
    { eapply wp_makes; [apply makes_list|done|]. intros args p2 [_ HC] Hok2 Hl2. apply Hrest; [by apply arguments_of|done|lia]. }
    destruct (inner t0); try exact Hlist. apply holds_ret, Hrest; [constructor|done|lia].
  - parse_rule. eapply wp_makes; [apply makes_table|done|]. intros fs p2 HC Hok2 Hl2. by parse_run.
  - by parse_run.
Qed.

Lemma makes_call : makes (parse_call_suffix parse_sub_expression) (call_suffix ce).
Proof.
  intros p Hp. unfold parse_call_suffix. do 2 parse_rule. apply holds_bind.
  cut (wp (match inner t with Colon => bind take_next (fun _ => bind expect_name (fun n => ret (Some n))) | _ => ret None end)
    (fun _ p1 => ok p1 /\ (left_ p1 <= left_ p)%nat) p').
  { intros Hm. eapply holds_mono; [exact Hm|]. intros name p1 [Hok1 Hl1]. do 3 parse_rule.
    eapply wp_makes; [apply makes_arguments|done|]. intros args p2 HC Hok2 Hl2. apply holds_ret.
    split; [by destruct name|split; [done|lia]]. }
  destruct (inner t); try (by apply holds_ret). parse_run.
Qed.

Lemma makes_suffix : makes (parse_suffix_part parse_sub_expression) (suffix ce).
Proof.
  assert (Hf : makes (parse_field_suffix parse_sub_expression) (field_suffix ce)).
  { intros p Hp. unfold parse_field_suffix. do 2 parse_rule. destruct (inner t); try apply wp_throw; [parse_run|].
    do 3 parse_rule. eapply wp_makes; [apply makes_expression|done|]. intros e p2 He2 Hok2 Hl2. parse_run. }
  intros p Hp. unfold parse_suffix_part. do 2 parse_rule.
  assert (Hfield : wp (bind (parse_field_suffix parse_sub_expression) (fun f => ret (Field f))) (fun a p' => suffix ce a /\ step p p') p').
  { parse_rule. eapply wp_makes; [exact Hf|done|]. intros f p2 HC Hok2 Hl2. parse_run. }
  assert (Hcall : wp (bind (parse_call_suffix parse_sub_expression) (fun c => ret (Call c))) (fun a p' => suffix ce a /\ step p p') p').
  { parse_rule. eapply wp_makes; [apply makes_call|done|]. intros c p2 HC Hok2 Hl2. parse_run. }
  destruct (inner t); (exact Hfield || exact Hcall || apply wp_throw).
Qed.

Lemma makes_suffixed : makes (parse_suffixed_expression parse_sub_expression) (suffixed ce).
Proof.
  assert (Hp1 : makes (parse_primary_expression parse_sub_expression) (primary ce)).
  { intros p Hp. unfold parse_primary_expression. do 2 parse_rule. destruct (inner t); try apply wp_throw; [|parse_run].
    parse_rule. eapply wp_makes; [apply makes_expression|done|]. intros e p2 He2 Hok2 Hl2. parse_run. }
  intros p Hp. unfold parse_suffixed_expression. parse_rule. eapply wp_makes; [exact Hp1|done|]. intros e p1 HC1 Hok1 Hl1. parse_rule.
  apply (holds_loop (fun ss p' => Forall (suffix ce) ss /\ ok p' /\ (left_ p' < left_ p)%nat)); [|by split_and!].
  intros ss p2 (HC & Hok2 & Hl2). do 2 parse_rule.
  assert (Hmore : wp (bind (parse_suffix_part parse_sub_expression) (fun s => ret (inl (ss ++ [s])))) (fun r p' => match r with
    | inl a => (Forall (suffix ce) a /\ ok p' /\ (left_ p' < left_ p)%nat) /\ (left_ p' < left_ p2)%nat
    | inr b => wp (ret (mk_SuffixedExpression e b)) (fun a p' => suffixed ce a /\ step p p') p' end) p').
  { parse_rule. eapply wp_makes; [apply makes_suffix|done|]. intros x p3 Hx Hok3 Hl3. apply holds_ret.
    split_and!; [apply Forall_app; split; [done|by constructor]|done|lia|lia]. }
  repeat case_match; (exact Hmore || (apply holds_ret, holds_ret; split; [done|split; [done|lia]])).
Qed.

Lemma makes_simple : makes (parse_simple_expression parse_statement parse_sub_expression) (simple cs ce).
Proof.
  intros p Hp. unfold parse_simple_expression. do 2 parse_rule.
  assert (Hsuf : wp (bind (parse_suffixed_expression parse_sub_expression) (fun e => ret (ESuffixed e))) (fun a p' => simple cs ce a /\ step p p') p').
  { parse_rule. eapply wp_makes; [apply makes_suffixed|done|]. intros e p2 HC Hok2 Hl2. parse_run. }
  destruct (inner t); try exact Hsuf; try by parse_run.
  - do 3 parse_rule. eapply wp_makes; [apply makes_definition|done|]. intros d p2 [_ HC] Hok2 Hl2. parse_run.
  - parse_rule. eapply wp_makes; [apply makes_table|done|]. intros fs p2 HC Hok2 Hl2. parse_run.
Qed.

(** *** Operators *)

(** What comes before the next operator of a chain *)
Fixpoint last_limit (limit : Z) (tail : list (BinaryOperator.t * Expression S)) : Z :=
  match tail with [] => limit | (op, _) :: tail => last_limit (snd (binary_priority op)) tail end.

Lemma chain_snoc q limit tail op e : chain ce q limit tail ->
  q < fst (binary_priority op) <= last_limit limit tail -> ce (snd (binary_priority op)) e ->
  chain ce q limit (tail ++ [(op, e)]).
Proof. revert limit. induction tail as [|[op' e'] tail IH]; intros limit; cbn; [naive_solver|]. intros (Hp & He' & Hc) Hl Hce. split_and!; [lia|lia|done|by apply IH]. Qed.
Lemma last_limit_snoc limit tail op e : last_limit limit (tail ++ [(op, e)]) = snd (binary_priority op).
Proof. revert limit. induction tail as [|[op' e'] tail IH]; intros limit; cbn; [done|apply IH]. Qed.

Lemma makes_operators q limit (make : list (BinaryOperator.t * Expression S) -> Expression S) p0 p :
  (forall tail, chain ce q limit tail -> expression_body cs ce q (make tail)) ->
  ok p -> (left_ p < left_ p0)%nat -> (stops_at limit p \/ limit = MAX_PRIORITY) ->
  wp (bind (loop (fun tail =>
    bind (look_token 0) (fun next =>
    match next ≫= get_binary_operator with
    | Some binary_op =>
        let '(left_priority, right_priority) := binary_priority binary_op in
        if left_priority <=? q then ret (inr tail)
        else bind take_next (fun _ => bind (parse_sub_expression right_priority) (fun e => ret (inl (tail ++ [(binary_op, e)]))))
    | None => ret (inr tail)
    end)) []) (fun tail => ret (make tail)))
  (fun e p' => expression_body cs ce q e /\ step p0 p' /\ stops_at q p') p.
Proof.
  intros Hmake Hp Hl Hlim. apply holds_bind.
  apply (holds_loop (fun tail p' => chain ce q limit tail /\ (stops_at (last_limit limit tail) p' \/ last_limit limit tail = MAX_PRIORITY) /\
    ok p' /\ (left_ p' < left_ p0)%nat)); [|by split_and!].
  clear p Hp Hl Hlim. intros tail p (Hc & Hlim & Hp & Hl). apply holds_bind, wp_look_token; [done|]. intros o p1 Hr Hs1 Hn.
  pose proof (reads_ok _ _ Hr). pose proof (reads_left _ _ Hr).
  assert (Hstop : match o with Some t => no_operator q t | None => True end -> wp (ret (A:=_ + _) (inr tail)) (fun r p' => match r with
    | inl a => (chain ce q limit a /\ (stops_at (last_limit limit a) p' \/ last_limit limit a = MAX_PRIORITY) /\ ok p' /\ (left_ p' < left_ p0)%nat) /\ (left_ p' < left_ p)%nat
    | inr b => wp (ret (make b)) (fun e p' => expression_body cs ce q e /\ step p0 p' /\ stops_at q p') p' end) p1).
  { intros Ho. apply holds_ret, holds_ret. split_and!; [by apply Hmake|split; [done|lia]|by apply Hs1]. }
  destruct o as [t|]; [|by apply Hstop]. cbn [mbind option_bind]. destruct (get_binary_operator t) as [op|] eqn:Eop.
  2:{ apply Hstop. unfold no_operator. by rewrite Eop. }
  destruct (binary_priority op) as [lp rp] eqn:Ep. case_bool; bool_to_prop.
  { apply Hstop. unfold no_operator. by rewrite Eop, Ep. }
  do 3 parse_rule. eapply holds_mono; [by apply He|]. intros e p3 (Hce & [Hok3 Hl3] & Hs3). apply holds_ret.
  assert (Hle : lp <= last_limit limit tail).
  { destruct Hlim as [Hlim|Hlim]; [specialize (Hn _ _ Hlim eq_refl); unfold no_operator in Hn; by rewrite Eop, Ep in Hn|].
    rewrite Hlim. replace lp with (fst (binary_priority op)) by (by rewrite Ep). by destruct op. }
  split; [|lia]. rewrite last_limit_snoc, Ep. split_and!; [apply chain_snoc; rewrite ?Ep; cbn; [done|lia|done]|by left|done|lia].
Qed.

Lemma sub_expression_ok q p : ok p ->
  wp (sub_expression_body parse_statement parse_sub_expression q) (fun e p' => expression_body cs ce q e /\ step p p' /\ stops_at q p') p.
Proof.
  intros Hp. unfold sub_expression_body. do 4 parse_rule.
  - do 3 parse_rule. eapply holds_mono; [by apply He|]. intros e p2 (Hce & [Hok2 Hl2] & Hs2). apply holds_ret.
    apply (makes_operators q UNARY_PRIORITY); [by intros tail Hc; split|done|lia|by left].
  - parse_rule. eapply wp_makes; [apply makes_simple|done|]. intros e p2 HC Hok2 Hl2. apply holds_ret.
    apply (makes_operators q MAX_PRIORITY); [by intros tail Hc; split|done|lia|by right].
Qed.

(** *** Statements *)

(** Rules for the functions above *)
Ltac grammar_rule :=
  match goal with
  | |- wp (parse_expression _) _ _ => eapply wp_makes; [apply makes_expression|done|intros]
  | |- wp (parse_expression_list _) _ _ => eapply wp_makes; [apply makes_list|done|intros]
  | |- wp (parse_suffixed_expression _) _ _ => eapply wp_makes; [apply makes_suffixed|done|intros]
  | |- wp (parse_function_definition _ _ _) _ _ => eapply wp_makes; [apply makes_definition|done|intros ? ? [? ?] ? ?]
  | |- wp (parse_block _ _) _ _ => eapply holds_mono; [by apply makes_block|intros ? ? (? & ? & ?)]
  | _ => parse_rule
  end.
Ltac grammar_run := repeat grammar_rule; try solve [parse_end].

Abbreviation statement := (statement_body cs ce).
Abbreviation Statement_ m := (forall line, makes m (statement line)).

Lemma makes_if : Statement_ (parse_if_statement parse_statement parse_sub_expression).
Proof.
  intros line p Hp. unfold parse_if_statement. do 9 grammar_rule.
  apply (holds_loop (fun parts p' => Forall (fun part => expr ce (fst part) /\ block (snd part)) parts /\ ok p' /\ (left_ p' < left_ p)%nat)); [|split_and!; [done|done|lia]].
  intros parts p1 (HC & Hok & Hl). do 3 grammar_rule; [|grammar_run].
  do 9 grammar_rule. split_and!; [apply Forall_app; split; [done|by constructor]|done|lia|lia].
Qed.

Lemma makes_while : Statement_ (parse_while_statement parse_statement parse_sub_expression).
Proof. intros line p Hp. unfold parse_while_statement. grammar_run. Qed.
Lemma makes_do : Statement_ (parse_do_statement parse_statement parse_sub_expression).
Proof. intros line p Hp. unfold parse_do_statement. grammar_run. Qed.
Lemma makes_repeat : Statement_ (parse_repeat_statement parse_statement parse_sub_expression).
Proof. intros line p Hp. unfold parse_repeat_statement. grammar_run. Qed.
Lemma makes_label : Statement_ parse_label_statement.
Proof. intros line p Hp. unfold parse_label_statement. grammar_run. Qed.
Lemma makes_goto : Statement_ parse_goto_statement.
Proof. intros line p Hp. unfold parse_goto_statement. grammar_run. Qed.
Lemma makes_local_function : Statement_ (parse_local_function_statement parse_statement parse_sub_expression).
Proof. intros line p Hp. unfold parse_local_function_statement. grammar_run. Qed.

Lemma makes_for : makes (parse_for_statement parse_statement parse_sub_expression) (for_statement cs ce).
Proof.
  intros p Hp. unfold parse_for_statement. do 6 grammar_rule. 
  assert (Hgen : wp (parse_generic_for parse_statement parse_sub_expression a) (fun f p' => for_statement cs ce f /\ step p p') p'1).
  { unfold parse_generic_for. grammar_rule. eapply holds_mono; [apply (makes_more _ (fun _ => True)); [apply makes_name|done|by repeat constructor]|].
    intros names p2 (Hne & _ & Hok2 & Hl2). assert (names <> []) by (by apply Hne). grammar_run. parse_made. }
  destruct (inner t0); try apply wp_throw; try exact Hgen.
  unfold parse_numeric_for. grammar_run.
Qed.

(** The line of a definition is where the statement starts. *)
Lemma makes_function p t : ok p -> peeked p t ->
  wp (parse_function_statement parse_statement parse_sub_expression) (fun s p' => statement (line_number t) s /\ step p p') p.
Proof.
  intros Hp Ht. unfold parse_function_statement. do 4 grammar_rule. rewrite <- (takes_token _ _ _ Ht0 t Ht).
  grammar_rule. unfold parse_function_fields.
  apply (holds_loop (fun (_ : list S) p' => ok p' /\ (left_ p' < left_ p)%nat)); [|split; [done|lia]].
  intros fs p2 [Hok2 Hl2].
  assert (Hend : forall path p3, ok p3 -> (left_ p3 < left_ p)%nat -> wp (bind (parse_function_definition parse_statement parse_sub_expression (line_number t))
    (fun definition => ret (SFunction a (fst path) (snd path) definition))) (fun s p' => statement (line_number t) s /\ step p p') p3) by (intros; grammar_run).
  do 2 grammar_rule. repeat case_match; try (by apply holds_ret, Hend; [|lia]).
  - do 4 grammar_rule. apply holds_ret. split_and!; [done|lia|lia].
  - do 4 grammar_rule. apply holds_ret, Hend; [done|lia].
Qed.

Lemma makes_local : Statement_ (parse_local_statement parse_sub_expression).
Proof.
  assert (Ha : makes take_local_name_and_attr (fun n => snd n ∈ [NONE; CONST; CONST_CLOSE])).
  { intros p Hp. unfold take_local_name_and_attr. grammar_run; (split; [|split; [done|lia]]); cbn; set_solver. }
  intros line p Hp. unfold parse_local_statement. do 3 grammar_rule. eapply wp_makes; [exact Ha|done|]. intros n p1 Hn Hok1 Hl1.
  grammar_rule. eapply holds_mono; [apply (makes_more _ _ [n] _ Ha); [done|by constructor]|]. intros names p2 (Hne & HC & Hok2 & Hl2).
  do 2 grammar_rule. apply holds_bind.
  cut (wp (if b then bind take_next (fun _ => parse_expression_list parse_sub_expression) else ret []) (fun vs p' => Forall (expr ce) vs /\ ok p' /\ (left_ p' < left_ p)%nat) p'0).
  { intros Hm. eapply holds_mono; [exact Hm|]. intros vs p4 (Hvs & Hok4 & Hl4). apply holds_ret. assert (names <> []) by (by apply Hne). parse_made. }
  grammar_rule; [do 3 grammar_rule|apply holds_ret]; (split; [|split; [done|lia]]); [by match goal with HC : exprs _ _ |- _ => apply HC end|constructor].
Qed.

(** *** Assignments and calls *)

Lemma suffixed_pop e : suffixed ce e ->
  match pop_suffix e with Some (s, e) => suffix ce s /\ suffixed ce e | None => True end.
Proof.
  destruct e as [p ss]. intros [Hp Hss]. unfold pop_suffix. rewrite <- (rev_involutive ss) in Hss. apply Forall_rev in Hss.
  destruct (rev ss) as [|s rest]; [done|]. rewrite rev_involutive in Hss. inversion_clear Hss. split; [done|]. split; [done|by apply Forall_rev].
Qed.

Lemma suffixed_target e t : suffixed ce e -> assignment_target e = Some t -> target ce t.
Proof.
  intros Hsuf. unfold assignment_target. pose proof (suffixed_pop e Hsuf) as Hpop.
  destruct (pop_suffix e) as [[[f|c] e']|]; [..|by destruct e as [[]]; [intros [= <-]|]]; [|done].
  intros [= <-]. by destruct Hpop.
Qed.

Lemma makes_assignment line l e p0 p : suffixed ce e -> ok p -> (left_ p < left_ p0)%nat ->
  wp (parse_assignment parse_sub_expression l e) (fun s p' => statement line s /\ step p0 p') p.
Proof.
  intros Hsuf Hp Hl. unfold parse_assignment. apply holds_bind.
  apply (holds_loop (fun a p' => Forall (target ce) (fst a) /\ suffixed ce (snd a) /\ ok p' /\ (left_ p' < left_ p0)%nat)); [|by split_and!].
  clear e Hsuf p Hp Hl. intros [ts e] p (Hts & Hsuf & Hp & Hl). cbn [fst snd] in *. grammar_rule; [|by parse_rule].
  assert (Forall (target ce) (ts ++ [a])) by (apply Forall_app; split; [done|constructor; [by eapply suffixed_target|done]]).
  do 3 grammar_rule; [by grammar_run|]. apply holds_ret. grammar_run. assert (ts ++ [a] <> []) by (intros E; by apply app_eq_nil in E as [_ E]).
  parse_made.
Qed.

Lemma makes_expression_statement : Statement_ (parse_expression_statement parse_sub_expression).
Proof.
  intros line p Hp. unfold parse_expression_statement. do 5 grammar_rule.
  assert (Hrest : forall l p1, ok p1 -> (left_ p1 < left_ p)%nat -> wp (bind (check_ahead 0 Assign) (fun assign => bind (if assign then ret true else check_ahead 0 Comma) (fun assigns =>
      if assigns then parse_assignment parse_sub_expression l a
      else match pop_suffix a with
           | Some (Call c, e) => ret (SFunctionCall e c)
           | Some (Field _, _) | None => throw ParseErrorKind.ExpressionNotStatement l
           end))) (fun s p' => statement line s /\ step p p') p1).
  { intros l p1 Hp1 Hl1. do 3 grammar_rule.
    cut (wp (if b then ret true else check_ahead 0 Comma) (fun _ p2 => ok p2 /\ (left_ p2 < left_ p)%nat) p'1); [|grammar_run].
    intros Hm. eapply holds_mono; [exact Hm|]. intros assigns p2 [Hok2 Hl2]. destruct assigns; [by apply makes_assignment|].
    assert (Hsuf : suffixed ce a) by done. pose proof (suffixed_pop a Hsuf) as Hpop. destruct (pop_suffix a) as [[[f|c] e]|]; [done| |done].
    destruct Hpop. apply holds_ret. parse_made. }
  destruct o as [t|]; [apply holds_ret|apply wp_line; intros]; (apply Hrest; [done|lia]).
Qed.

Lemma statement_ok p t : ok p -> peeked p t ->
  wp (Parser.statement_body parse_statement parse_sub_expression) (fun s p' => statement (line_number t) s /\ step p p') p.
Proof.
  intros Hp Ht. unfold Parser.statement_body. apply holds_bind, wp_get_next; [done|]. intros t1 p1 Hr Hp1.
  assert (t1 = t) as -> by (apply (reads_peeked _ _ _ Hr) in Ht; unfold peeked in *; congruence).
  pose proof (reads_ok _ _ Hr). pose proof (reads_left _ _ Hr).
  assert (Hof : forall m, makes m (statement (line_number t)) -> wp m (fun s p' => statement (line_number t) s /\ step p p') p1).
  { intros m Hm. eapply wp_makes; [exact Hm|done|]. intros s p2 HC Hok2 Hl2. parse_made. }
  pose proof (Hof _ (makes_expression_statement _)) as Hexp.
  destruct (inner t); try exact Hexp; clear Hexp.
  - grammar_run.
  - apply Hof, makes_do.
  - eapply holds_mono; [by apply makes_function|]. intros s p2 (HC & Hok2 & Hl2). split; [done|split; [done|lia]].
  - apply Hof, makes_goto.
  - apply Hof, makes_if.
  - do 3 grammar_rule; [grammar_rule; grammar_rule|].
    + eapply wp_makes; [apply makes_local_function|done|]. intros s p2 HC Hok2 Hl2. split; [done|split; [done|lia]].
    + eapply wp_makes; [apply makes_local|done|]. intros s p2 HC Hok2 Hl2. split; [done|split; [done|lia]].
  - apply holds_bind. eapply wp_makes; [apply makes_for|done|]. intros f p2 HC Hok2 Hl2. apply holds_ret. split; [done|split; [done|lia]].
  - apply Hof, makes_while.
  - apply Hof, makes_repeat.
  - apply Hof, makes_label.
Qed.
End Grammar.

(** *** More guards allow more trees *)
Section Monotone.
Context {S : Type} `{AsBytes S}.
Import Canonical.

Section Grammar.
Context (cs cs' : Z -> Statement S -> Prop) (ce ce' : Z -> Expression S -> Prop).
Context (Hcs : forall line s, cs line s -> cs' line s) (Hce : forall q e, ce q e -> ce' q e).

Lemma exprs_mono es : Forall (expr ce) es -> Forall (expr ce') es.
Proof. intros HC. eapply Forall_impl; [exact HC|]. intros e. apply Hce. Qed.
Lemma block_mono b : block_ cs ce b -> block_ cs' ce' b.
Proof.
  destruct b as [ss r l]. intros [Hss Hr]. split; [eapply Forall_impl; [exact Hss|]; intros; by apply Hcs|].
  destruct r; [|done]. by apply exprs_mono.
Qed.
Lemma definition_mono d : definition cs ce d -> definition cs' ce' d.
Proof. destruct d. apply block_mono. Qed.
Lemma field_mono f : field ce f -> field ce' f.
Proof. destruct f as [e|[n|k] e]; [apply Hce| |]; intros [Hk He]; (split; [|by apply Hce]); [done|by apply Hce]. Qed.
Lemma fields_mono fs : Forall (field ce) fs -> Forall (field ce') fs.
Proof. intros HC. eapply Forall_impl; [exact HC|]. apply field_mono. Qed.
Lemma arguments_mono args : arguments ce args -> arguments ce' args.
Proof.
  unfold arguments. repeat case_match; subst; try apply exprs_mono; [done|apply fields_mono].
Qed.
Lemma field_suffix_mono f : field_suffix ce f -> field_suffix ce' f.
Proof. destruct f; [done|apply Hce]. Qed.
Lemma call_suffix_mono c : call_suffix ce c -> call_suffix ce' c.
Proof. destruct c; apply arguments_mono. Qed.
Lemma suffix_mono s : suffix ce s -> suffix ce' s.
Proof. destruct s; [apply field_suffix_mono|apply call_suffix_mono]. Qed.
Lemma suffixed_mono e : suffixed ce e -> suffixed ce' e.
Proof.
  destruct e as [p ss]. intros [Hp Hss]. split; [destruct p; [done|by apply Hce]|]. eapply Forall_impl; [exact Hss|]. apply suffix_mono.
Qed.
Lemma simple_mono e : simple cs ce e -> simple cs' ce' e.
Proof. destruct e; try done; [apply fields_mono|apply definition_mono|apply suffixed_mono]. Qed.
Lemma chain_mono q limit tail : chain ce q limit tail -> chain ce' q limit tail.
Proof. revert limit. induction tail as [|[op e] tail IH]; intros limit; [done|]. intros (Hl & He & Hc). split_and!; [lia|lia|by apply Hce|by apply IH]. Qed.
Lemma expression_body_mono q e : expression_body cs ce q e -> expression_body cs' ce' q e.
Proof. destruct e as [[e|op e] tail]; intros [He Hc]; (split; [|by apply chain_mono]); [by apply simple_mono|by apply Hce]. Qed.
Lemma target_mono t : target ce t -> target ce' t.
Proof. destruct t; [done|]. intros [He Hf]. split; [by apply suffixed_mono|by apply field_suffix_mono]. Qed.

Lemma statement_body_mono line s : statement_body cs ce line s -> statement_body cs' ce' line s.
Proof.
  pose proof block_mono as Hb. pose proof exprs_mono as Hes. pose proof definition_mono as Hd.
  destruct s as [[c b] parts els|c b|b|f|b c|n fs m d|n d|names vs|n| |n|e c|ts vs]; cbn; try done.
  - intros ((Hc & Hb1) & Hps & He). split_and!; [by apply Hce|by apply Hb| |by destruct els; [apply Hb|]].
    eapply Forall_impl; [exact Hps|]. intros [c1 b1] [? ?]. split; [by apply Hce|by apply Hb].
  - intros [Hc Hb1]. split; [by apply Hce|by apply Hb].
  - apply Hb.
  - destruct f as [n i l st b|names args b]; cbn.
    + intros (Hi & Hl & Hst & Hb1). split_and!; [by apply Hce..|by destruct st; [apply Hce|]|by apply Hb].
    + intros (Hne & [Hn Ha] & Hb1). split_and!; [done|split; [done|by apply Hes]|by apply Hb].
  - intros [Hb1 Hc]. split; [by apply Hb|by apply Hce].
  - intros [Hl Hd1]. split; [done|by apply Hd].
  - apply Hd.
  - intros (Hne & Ha & Hv). split_and!; [done|done|by apply Hes].
  - intros [He Hc]. split; [by apply suffixed_mono|by apply call_suffix_mono].
  - intros ((Hne & Ht) & [Hn Hv]). split_and!; [done|eapply Forall_impl; [exact Ht|apply target_mono]|split; [done|by apply Hes]].
Qed.
End Grammar.

Lemma canonical_mono g :
  (forall line s, canonical_statement (S:=S) g line s -> canonical_statement (Datatypes.S g) line s) /\
  (forall q e, canonical_expression (S:=S) g q e -> canonical_expression (Datatypes.S g) q e).
Proof.
  induction g as [|g [IHs IHe]]; [split; intros ? ? []|]. split; intros q x.
  - apply statement_body_mono; [exact IHs|exact IHe].
  - apply expression_body_mono; [exact IHs|exact IHe].
Qed.

Lemma arguments_of g args : Forall (expr (canonical_expression (S:=S) g)) args -> arguments (canonical_expression g) args.
Proof.
  intros HC. unfold arguments. repeat case_match; subst; try done.
  inversion_clear HC as [|? ? He _]. unfold expr in He. destruct g as [|g]; [done|]. destruct He as [He _].
  eapply fields_mono; [|exact He]. apply canonical_mono.
Qed.
End Monotone.

(** ** The whole parser *)
Section Whole.
Context {S : Type} `{AsBytes S} `{TokenSource S} `{!TokenSourceLaws S}.
Implicit Types (p : parser (S:=S)).
Import Canonical.

Lemma parse_ok g :
  (forall p t, ok p -> peeked p t -> wp (Parser.parse_statement g) (fun s p' => canonical_statement g (line_number t) s /\ step p p') p) /\
  (forall q p, ok p -> wp (Parser.parse_sub_expression g q) (fun e p' => canonical_expression g q e /\ step p p' /\ stops_at q p') p).
Proof.
  induction g as [|g [IHs IHe]]; [split; intros; exact I|]. split.
  - intros p t Hp Ht. by apply statement_ok; [exact IHs|exact IHe|apply arguments_of|..].
  - intros q p Hp. by apply sub_expression_ok; [exact IHs|exact IHe|apply arguments_of|..].
Qed.

Lemma chunk_ok l : ready l -> wp chunk (fun c _ => canonical_chunk c) (mk_parser l []).
Proof.
  intros Hl. apply holds_bind. destruct (parse_ok Parser.guards) as [Hs He].
  eapply holds_mono; [by apply (makes_block _ _ _ _ Hs He)|]. intros b p1 (Hb & Hok & _).
  do 2 parse_rule. destruct o; [done|]. exact Hb.
Qed.

Lemma parse_chunk_ok l : ready l ->
  exists r, parse_chunk l = Ok r /\ match r with inl c => canonical_chunk c | inr _ => True end.
Proof.
  intros Hl. pose proof (chunk_ok l Hl) as Hc. unfold wp in Hc. unfold parse_chunk.
  destruct (chunk (mk_parser l [])) as [[[c|e] p']|]; [by exists (inl c)|by exists (inr e)|done].
Qed.
End Whole.
End ParserFacts.
