(* ===== verification/ParserPrint.v ===== *)
(** * Printing syntax trees, and reading them back

    [print_chunk] gives the tokens of a tree, each with its line; [yields] says that a lexer
    gives some tokens, and [runs] what a function of the parser does with them. *)

From S2P Require Import Prelude Float64 Constant Operators Lexer Parser ParserFacts.
Import Ast.

(** ** The tokens of a tree *)
Module Print.
Section Print.
Context {S : Type}.
Abbreviation tokens := (list (LineAnnotated (Token S))).

Definition plain (t : Token S) : LineAnnotated (Token S) := annotate 0 t.

(** [items] with a comma between each two *)
Fixpoint commas (items : list tokens) : tokens :=
  match items with
  | [] => []
  | [i] => i
  | i :: items => i ++ plain Comma :: commas items
  end.

Definition unary_token (op : UnaryOperator.t) : Token S :=
  match op with
  | UnaryOperator.Not => Not
  | UnaryOperator.Minus => Minus
  | UnaryOperator.BitNot => BitNotXor
  | UnaryOperator.Len => Len
  end.

Definition binary_token (op : BinaryOperator.t) : Token S :=
  match op with
  | BinaryOperator.Add => Add
  | BinaryOperator.Sub => Minus
  | BinaryOperator.Mul => Mul
  | BinaryOperator.Mod => Mod
  | BinaryOperator.Pow => Pow
  | BinaryOperator.Div => Div
  | BinaryOperator.IDiv => IDiv
  | BinaryOperator.BitAnd => BitAnd
  | BinaryOperator.BitOr => BitOr
  | BinaryOperator.BitXor => BitNotXor
  | BinaryOperator.ShiftLeft => ShiftLeft
  | BinaryOperator.ShiftRight => ShiftRight
  | BinaryOperator.Concat => Concat
  | BinaryOperator.NotEqual => NotEqual
  | BinaryOperator.Equal => Equal
  | BinaryOperator.LessThan => LessThan
  | BinaryOperator.LessEqual => LessEqual
  | BinaryOperator.GreaterThan => GreaterThan
  | BinaryOperator.GreaterEqual => GreaterEqual
  | BinaryOperator.And => And
  | BinaryOperator.Or => Or
  end.

Definition closed_on (b : Block S) : Z := let '(mk_Block _ _ l) := b in l.

(** The string of an attribute *)
Context (str : list Z -> S).
Definition print_name (n : S * LocalAttributes) : tokens :=
  plain (Name (fst n)) ::
  (if snd n =? CONST then [plain LessThan; plain (Name (str (bs# "const"))); plain GreaterThan]
   else if snd n =? CONST_CLOSE then [plain LessThan; plain (Name (str (bs# "close"))); plain GreaterThan]
   else []).

Definition print_parameters (parameters : list S) (has_varargs : bool) : tokens :=
  commas (map (fun n => [plain (Name n)]) parameters ++ (if has_varargs then [[plain Dots]] else [])).

(** A statement is followed by a semicolon, a field of a table by a comma.  The token after a
    block is where it is closed. *)
Fixpoint print_expression (e : Expression S) : tokens :=
  match e with
  | mk_Expression head tail =>
      (match head with
       | Simple e => print_simple e
       | Unary op e => plain (unary_token op) :: print_expression e
       end) ++ flat_map (fun oe => plain (binary_token (fst oe)) :: print_expression (snd oe)) tail
  end
with print_simple (e : SimpleExpression S) : tokens :=
  match e with
  | EFloat f => [plain (Float f)]
  | EInteger i => [plain (Integer i)]
  | EString s => [plain (String s)]
  | ENil => [plain Nil]
  | ETrue => [plain True_]
  | EFalse => [plain False_]
  | EVarArgs => [plain Dots]
  | ETableConstructor fields =>
      plain LeftBrace :: flat_map (fun f => print_field f ++ [plain Comma]) fields ++ [plain RightBrace]
  | EFunction d => let '(mk_FunctionDefinition l _ _ _) := d in annotate l Function :: print_definition d
  | ESuffixed e => print_suffixed 0 e
  end
with print_suffixed (line : Z) (e : SuffixedExpression S) : tokens :=
  match e with
  | mk_SuffixedExpression p suffixes =>
      (match p with
       | PName n => [annotate line (Name n)]
       | GroupedExpression e => annotate line LeftParen :: print_expression e ++ [plain RightParen]
       end) ++ flat_map print_suffix suffixes
  end
with print_suffix (s : SuffixPart S) : tokens :=
  match s with Field f => print_field_suffix f | Call c => print_call c end
with print_field_suffix (f : FieldSuffix S) : tokens :=
  match f with
  | FNamed n => [plain Dot; plain (Name n)]
  | FIndexed e => plain LeftBracket :: print_expression e ++ [plain RightBracket]
  end
with print_call (c : CallSuffix S) : tokens :=
  let print_arguments (args : list (Expression S)) :=
    match args with
    | [mk_Expression (Simple (ETableConstructor _ as e)) []] | [mk_Expression (Simple (EString _ as e)) []] => print_simple e
    | _ => plain LeftParen :: commas (map print_expression args) ++ [plain RightParen]
    end in
  match c with
  | CMethod n args => plain Colon :: plain (Name n) :: print_arguments args
  | CFunction args => print_arguments args
  end
with print_field (f : ConstructorField S) : tokens :=
  match f with
  | Array e => print_expression e
  | Record_ (KNamed n) e => plain (Name n) :: plain Assign :: print_expression e
  | Record_ (KIndexed k) e => plain LeftBracket :: print_expression k ++ plain RightBracket :: plain Assign :: print_expression e
  end
with print_definition (d : FunctionDefinition S) : tokens :=
  match d with
  | mk_FunctionDefinition _ parameters has_varargs body =>
      plain LeftParen :: print_parameters parameters has_varargs ++ plain RightParen :: print_block body ++ [annotate (closed_on body) End]
  end
with print_block (b : Block S) : tokens :=
  match b with
  | mk_Block ss r _ =>
      flat_map (fun s => match s with annotate l s => print_statement l s ++ [plain SemiColon] end) ss ++
      match r with Some (annotate l es) => annotate l Return :: commas (map print_expression es) | None => [] end
  end
with print_statement (line : Z) (s : Statement S) : tokens :=
  match s with
  | SIf (c, b) parts els =>
      annotate line If :: print_expression c ++ plain Then :: print_block b ++
      (fix print_parts (open : Z) (parts : list (Expression S * Block S)) : tokens :=
        match parts with
        | [] =>
            match els with
            | Some b => annotate open Else :: print_block b ++ [annotate (closed_on b) End]
            | None => [annotate open End]
            end
        | (c, b) :: parts =>
            annotate open ElseIf :: print_expression c ++ plain Then :: print_block b ++ print_parts (closed_on b) parts
        end) (closed_on b) parts
  | SWhile c b => annotate line While :: print_expression c ++ plain Do :: print_block b ++ [annotate (closed_on b) End]
  | SDo b => annotate line Do :: print_block b ++ [annotate (closed_on b) End]
  | SFor f => annotate line For :: print_for f
  | SRepeat b c => annotate line Repeat :: print_block b ++ annotate (closed_on b) Until :: print_expression c
  | SFunction n fields m d =>
      annotate line Function :: plain (Name n) :: flat_map (fun f => [plain Dot; plain (Name f)]) fields ++
      match m with Some m => [plain Colon; plain (Name m)] | None => [] end ++ print_definition d
  | SLocalFunction n d =>
      let '(mk_FunctionDefinition l _ _ _) := d in
      annotate line Local :: annotate l Function :: plain (Name n) :: print_definition d
  | SLocalStatement names values =>
      annotate line Local :: commas (map print_name names) ++
      match values with [] => [] | _ => plain Assign :: commas (map print_expression values) end
  | SLabel n => [annotate line DoubleColon; plain (Name n); plain DoubleColon]
  | SBreak => [annotate line Break]
  | SGoto n => [annotate line Goto; plain (Name n)]
  | SFunctionCall head call => print_suffixed line head ++ print_call call
  | SAssignment targets values =>
      (fix print_targets (line : Z) (targets : list (AssignmentTarget S)) : tokens :=
        match targets with
        | [] => []
        | [t] => print_target line t
        | t :: targets => print_target line t ++ plain Comma :: print_targets 0 targets
        end) line targets ++ plain Assign :: commas (map print_expression values)
  end
with print_for (f : ForStatement S) : tokens :=
  match f with
  | Numeric n i l step b =>
      plain (Name n) :: plain Assign :: print_expression i ++ plain Comma :: print_expression l ++
      match step with Some e => plain Comma :: print_expression e | None => [] end ++
      plain Do :: print_block b ++ [annotate (closed_on b) End]
  | Generic names args b =>
      commas (map (fun n => [plain (Name n)]) names) ++ plain In :: commas (map print_expression args) ++
      plain Do :: print_block b ++ [annotate (closed_on b) End]
  end
with print_target (line : Z) (t : AssignmentTarget S) : tokens :=
  match t with
  | TName n => [annotate line (Name n)]
  | TField e f => print_suffixed line e ++ print_field_suffix f
  end.

Definition print_chunk (c : Chunk S) : tokens := print_block (block c).

(** *** One level of each *)

Definition print_tail (tail : list (BinaryOperator.t * Expression S)) : tokens :=
  flat_map (fun oe => plain (binary_token (fst oe)) :: print_expression (snd oe)) tail.
Definition print_arguments (args : list (Expression S)) : tokens :=
  match args with
  | [mk_Expression (Simple (ETableConstructor _ as e)) []] | [mk_Expression (Simple (EString _ as e)) []] => print_simple e
  | _ => plain LeftParen :: commas (map print_expression args) ++ [plain RightParen]
  end.
Definition print_statements (ss : list (LineAnnotated (Statement S))) : tokens :=
  flat_map (fun s => match s with annotate l s => print_statement l s ++ [plain SemiColon] end) ss.
Definition print_return (r : option (LineAnnotated (list (Expression S)))) : tokens :=
  match r with Some (annotate l es) => annotate l Return :: commas (map print_expression es) | None => [] end.
(** What follows the first part of an [if]; [open] is the line of the next token. *)
Fixpoint print_parts (els : option (Block S)) (open : Z) (parts : list (Expression S * Block S)) : tokens :=
  match parts with
  | [] =>
      match els with
      | Some b => annotate open Else :: print_block b ++ [annotate (closed_on b) End]
      | None => [annotate open End]
      end
  | (c, b) :: parts => annotate open ElseIf :: print_expression c ++ plain Then :: print_block b ++ print_parts els (closed_on b) parts
  end.
Fixpoint print_targets (line : Z) (targets : list (AssignmentTarget S)) : tokens :=
  match targets with
  | [] => []
  | [t] => print_target line t
  | t :: targets => print_target line t ++ plain Comma :: print_targets 0 targets
  end.

Lemma print_simple_expression e tail : print_expression (mk_Expression (Simple e) tail) = print_simple e ++ print_tail tail.
Proof. reflexivity. Qed.
Lemma print_unary_expression op e tail : print_expression (mk_Expression (Unary op e) tail) = plain (unary_token op) :: print_expression e ++ print_tail tail.
Proof. reflexivity. Qed.
Lemma print_float f : print_simple (EFloat f) = [plain (Float f)].
Proof. reflexivity. Qed.
Lemma print_integer i : print_simple (EInteger i) = [plain (Integer i)].
Proof. reflexivity. Qed.
Lemma print_string s : print_simple (EString s) = [plain (String s)].
Proof. reflexivity. Qed.
Lemma print_nil : print_simple ENil = [plain Nil].
Proof. reflexivity. Qed.
Lemma print_true : print_simple ETrue = [plain True_].
Proof. reflexivity. Qed.
Lemma print_false : print_simple EFalse = [plain False_].
Proof. reflexivity. Qed.
Lemma print_varargs : print_simple EVarArgs = [plain Dots].
Proof. reflexivity. Qed.
Lemma print_table fields : print_simple (ETableConstructor fields) =
  plain LeftBrace :: flat_map (fun f => print_field f ++ [plain Comma]) fields ++ [plain RightBrace].
Proof. reflexivity. Qed.
Lemma print_function l ps v b : print_simple (EFunction (mk_FunctionDefinition l ps v b)) =
  annotate l Function :: print_definition (mk_FunctionDefinition l ps v b).
Proof. reflexivity. Qed.
Lemma print_simple_suffixed e : print_simple (ESuffixed e) = print_suffixed 0 e.
Proof. reflexivity. Qed.
Lemma print_named line n ss : print_suffixed line (mk_SuffixedExpression (PName n) ss) = annotate line (Name n) :: flat_map print_suffix ss.
Proof. reflexivity. Qed.
Lemma print_grouped line e ss : print_suffixed line (mk_SuffixedExpression (GroupedExpression e) ss) =
  annotate line LeftParen :: (print_expression e ++ [plain RightParen]) ++ flat_map print_suffix ss.
Proof. reflexivity. Qed.
Lemma print_suffix_field f : print_suffix (Field f) = print_field_suffix f.
Proof. reflexivity. Qed.
Lemma print_suffix_call c : print_suffix (Call c) = print_call c.
Proof. reflexivity. Qed.
Lemma print_method n args : print_call (CMethod n args) = plain Colon :: plain (Name n) :: print_arguments args.
Proof. reflexivity. Qed.
Lemma print_function_call args : print_call (CFunction args) = print_arguments args.
Proof. reflexivity. Qed.
Lemma print_definition_eq l ps v b : print_definition (mk_FunctionDefinition l ps v b) =
  plain LeftParen :: print_parameters ps v ++ plain RightParen :: print_block b ++ [annotate (closed_on b) End].
Proof. reflexivity. Qed.
Lemma print_block_eq ss r l : print_block (mk_Block ss r l) = print_statements ss ++ print_return r.
Proof. reflexivity. Qed.
Lemma print_if line c b parts els : print_statement line (SIf (c, b) parts els) =
  annotate line If :: print_expression c ++ plain Then :: print_block b ++ print_parts els (closed_on b) parts.
Proof.
  cbn [print_statement]. do 4 f_equal. generalize (closed_on b). induction parts as [|[c1 b1] parts IH]; intros o; [done|].
  cbn [print_parts]. by rewrite <- IH.
Qed.
Lemma print_dot n : print_field_suffix (FNamed n) = [plain Dot; plain (Name n)].
Proof. reflexivity. Qed.
Lemma print_index e : print_field_suffix (FIndexed e) = plain LeftBracket :: print_expression e ++ [plain RightBracket].
Proof. reflexivity. Qed.
Lemma print_array e : print_field (Array e) = print_expression e.
Proof. reflexivity. Qed.
Lemma print_record n e : print_field (Record_ (KNamed n) e) = plain (Name n) :: plain Assign :: print_expression e.
Proof. reflexivity. Qed.
Lemma print_record_index k e : print_field (Record_ (KIndexed k) e) =
  plain LeftBracket :: print_expression k ++ plain RightBracket :: plain Assign :: print_expression e.
Proof. reflexivity. Qed.
Lemma print_while line c b : print_statement line (SWhile c b) =
  annotate line While :: print_expression c ++ plain Do :: print_block b ++ [annotate (closed_on b) End].
Proof. reflexivity. Qed.
Lemma print_do line b : print_statement line (SDo b) = annotate line Do :: print_block b ++ [annotate (closed_on b) End].
Proof. reflexivity. Qed.
Lemma print_for_eq line f : print_statement line (SFor f) = annotate line For :: print_for f.
Proof. reflexivity. Qed.
Lemma print_numeric n i l step b : print_for (Numeric n i l step b) =
  plain (Name n) :: plain Assign :: print_expression i ++ plain Comma :: print_expression l ++
  match step with Some e => plain Comma :: print_expression e | None => [] end ++
  plain Do :: print_block b ++ [annotate (closed_on b) End].
Proof. reflexivity. Qed.
Lemma print_generic names args b : print_for (Generic names args b) =
  commas (map (fun n => [plain (Name n)]) names) ++ plain In :: commas (map print_expression args) ++
  plain Do :: print_block b ++ [annotate (closed_on b) End].
Proof. reflexivity. Qed.
Lemma print_repeat line b c : print_statement line (SRepeat b c) =
  annotate line Repeat :: print_block b ++ annotate (closed_on b) Until :: print_expression c.
Proof. reflexivity. Qed.
Lemma print_function_statement line n fields m d : print_statement line (SFunction n fields m d) =
  annotate line Function :: plain (Name n) :: flat_map (fun f => [plain Dot; plain (Name f)]) fields ++
  match m with Some m => [plain Colon; plain (Name m)] | None => [] end ++ print_definition d.
Proof. reflexivity. Qed.
Lemma print_local_function line n l ps v b : print_statement line (SLocalFunction n (mk_FunctionDefinition l ps v b)) =
  annotate line Local :: annotate l Function :: plain (Name n) :: print_definition (mk_FunctionDefinition l ps v b).
Proof. reflexivity. Qed.
Lemma print_local line names values : print_statement line (SLocalStatement names values) =
  annotate line Local :: commas (map print_name names) ++
  match values with [] => [] | _ => plain Assign :: commas (map print_expression values) end.
Proof. reflexivity. Qed.
Lemma print_label line n : print_statement line (SLabel n) = [annotate line DoubleColon; plain (Name n); plain DoubleColon].
Proof. reflexivity. Qed.
Lemma print_break line : print_statement line SBreak = [annotate line Break].
Proof. reflexivity. Qed.
Lemma print_goto line n : print_statement line (SGoto n) = [annotate line Goto; plain (Name n)].
Proof. reflexivity. Qed.
Lemma print_call_statement line head call : print_statement line (SFunctionCall head call) = print_suffixed line head ++ print_call call.
Proof. reflexivity. Qed.
Lemma print_target_name line n : print_target line (TName n) = [annotate line (Name n)].
Proof. reflexivity. Qed.
Lemma print_target_field line e f : print_target line (TField e f) = print_suffixed line e ++ print_field_suffix f.
Proof. reflexivity. Qed.
Lemma print_assignment line targets values : print_statement line (SAssignment targets values) =
  print_targets line targets ++ plain Assign :: commas (map print_expression values).
Proof. reflexivity. Qed.
End Print.

Create Rewrite HintDb printing.
#[export] Hint Rewrite @print_simple_expression @print_unary_expression @print_table @print_function @print_simple_suffixed
  @print_named @print_grouped @print_suffix_field @print_suffix_call @print_method @print_function_call @print_definition_eq
  @print_block_eq @print_if @print_assignment @print_dot @print_index @print_array @print_record @print_record_index
  @print_while @print_do @print_for_eq @print_numeric @print_generic @print_repeat @print_function_statement
  @print_local_function @print_local @print_label @print_break @print_goto @print_call_statement @print_target_name
  @print_target_field @print_float @print_integer @print_string @print_nil @print_true @print_false @print_varargs : printing.
End Print.
(** From here on the equations stand for the functions. *)
#[global] Opaque Print.print_expression Print.print_simple Print.print_suffixed Print.print_suffix Print.print_field_suffix
  Print.print_call Print.print_field Print.print_definition Print.print_block Print.print_statement Print.print_for Print.print_target.

(** ** What a lexer gives, and what the parser does with it *)
Module Runs.
Import Parser ParserFacts Print.
Section Runs.
Context {S : Type} `{AsBytes S} `{TokenSource S} `{!TokenSourceLaws S}.
Implicit Types (p : parser (S:=S)).

(** The lexer [s] gives the tokens [ts] and ends at [line]. *)
Inductive yields : source -> list (LineAnnotated (Token S)) -> Z -> Prop :=
  | yields_end s s1 s2 :
      skip_whitespace s = Ok (inl tt, s1) -> read_token s1 = Ok (inl None, s2) -> yields s [] (source_line s2)
  | yields_token s s1 s2 t ts line :
      skip_whitespace s = Ok (inl tt, s1) -> read_token s1 = Ok (inl (Some t), s2) -> yields s2 ts line ->
      yields s (annotate (source_line s1) t :: ts) line.

Context (line : Z).

(** The tokens to come: those in the buffer, and those of the lexer *)
Record coming p (ts : list (LineAnnotated (Token S))) : Prop := {
  coming_ok : ok p;
  coming_more : exists more, ts = read_buffer p ++ more /\ yields (lexer p) more line
}.

(** [m] turns the tokens [ts] into [a] and leaves [ts']. *)
Definition runs {A} (m : P A) ts (a : A) ts' : Prop :=
  forall p, coming p ts -> exists p', m p = Ok (inl a, p') /\ coming p' ts'.

Lemma run_ret {A} (a : A) ts : runs (ret a) ts a ts.
Proof. intros p Hp. by exists p. Qed.
Lemma run_bind {A B} (m : P A) (k : A -> P B) ts a ts1 b ts2 :
  runs m ts a ts1 -> runs (k a) ts1 b ts2 -> runs (bind m k) ts b ts2.
Proof.
  intros Hm Hk p Hp. destruct (Hm p Hp) as (p1 & E1 & Hp1). destruct (Hk p1 Hp1) as (p2 & E2 & Hp2).
  exists p2. unfold bind. by rewrite E1.
Qed.

Lemma runs_line {A} (k : Z -> P A) ts a ts' : (forall l, runs (k l) ts a ts') -> runs (bind lexer_line k) ts a ts'.
Proof. intros Hk p Hp. destruct (Hk (source_line (lexer p)) p Hp) as (p' & E & Hp'). by exists p'. Qed.

Lemma yields_remaining s ts l : ready s -> yields s ts l -> (length ts <= remaining s)%nat.
Proof.
  intros Hs Hy. revert Hs. induction Hy as [|s s1 s2 t ts l E1 E2 _ IH]; intros Hs; cbn; [lia|].
  destruct (skip_ready _ Hs) as (r & s' & E & Hs1 & Hr). rewrite E1 in E. injection E as <- <-.
  destruct (read_ready _ Hs1) as (r & s' & E & Hs2 & Hr2). rewrite E2 in E. injection E as <- <-. specialize (IH Hs2). lia.
Qed.
Lemma coming_left p ts : coming p ts -> (length ts <= left_ p)%nat.
Proof.
  intros [Hok (more & -> & Hy)]. unfold left_. rewrite length_app. pose proof (yields_remaining _ _ _ Hok Hy). lia.
Qed.

(** *** Loops *)

(** Turns that take tokens, from [a], and the end of the loop *)
Definition loops {A B} (body : A -> P (A + B)) a ts b ts' : Prop :=
  forall n p, coming p ts -> (length ts < n)%nat -> exists p', iter n body a p = Ok (inl b, p') /\ coming p' ts'.

Lemma run_loop {A B} (body : A -> P (A + B)) a ts b ts' : loops body a ts b ts' -> runs (loop body a) ts b ts'.
Proof. intros Hl p Hp. apply Hl; [done|]. pose proof (coming_left _ _ Hp). lia. Qed.
Lemma loops_done {A B} (body : A -> P (A + B)) a ts b ts' : runs (body a) ts (inr b) ts' -> loops body a ts b ts'.
Proof.
  intros Hb n p Hp Hn. destruct n as [|n]; [lia|]. cbn [iter]. unfold bind. destruct (Hb p Hp) as (p' & -> & Hp'). by exists p'.
Qed.
Lemma loops_turn {A B} (body : A -> P (A + B)) a a' ts ts1 b ts' :
  runs (body a) ts (inl a') ts1 -> (length ts1 < length ts)%nat -> loops body a' ts1 b ts' -> loops body a ts b ts'.
Proof.
  intros Hb Hlt Hl n p Hp Hn. destruct n as [|n]; [lia|]. cbn [iter]. unfold bind. destruct (Hb p Hp) as (p' & -> & Hp').
  cbn. apply Hl; [done|lia].
Qed.

(** *** The primitives *)

Lemma fill_runs k p ts : coming p ts ->
  exists p', fill k p = Ok (inl tt, p') /\ coming p' ts /\ read_buffer p' = take (length (read_buffer p) + k) ts /\
    ((length ts < length (read_buffer p) + k)%nat -> source_line (lexer p') = line).
Proof.
  revert p. induction k as [|k IH]; intros p Hp.
  { exists p. split_and!; [done|done|..]; destruct Hp as [_ (more & -> & _)]; rewrite ?length_app; [|lia].
    by rewrite Nat.add_0_r, take_app_length. }
  cbn [fill]. destruct Hp as [Hok (more & -> & Hy)]. inversion Hy as [s s1 s2 E1 E2 Es|s s1 s2 t ts l E1 E2 Hy2 Es]; subst s more.
  - destruct (skip_ready _ Hok) as (r & s' & E & Hs1 & _). rewrite E1 in E. injection E as <- <-.
    destruct (read_ready _ Hs1) as (r & s' & E & Hs2 & _). rewrite E2 in E. injection E as <- <-.
    unfold bind, lex. rewrite E1. cbn [mbind outcome_bind lexer_line lexer read_buffer]. rewrite E2. cbn.
    eexists. split_and!; [reflexivity|..].
    + split; [exact Hs2|]. exists []. split; [done|]. destruct (read_end _ _ E2) as [E3 E4]. cbn. match goal with El : source_line _ = line |- _ => rewrite <- El end. by econstructor.
    + cbn. rewrite app_nil_r, take_ge by lia. done.
    + done.
  - destruct (skip_ready _ Hok) as (r & s' & E & Hs1 & _). rewrite E1 in E. injection E as <- <-.
    destruct (read_ready _ Hs1) as (r & s' & E & Hs2 & _). rewrite E2 in E. injection E as <- <-.
    unfold bind at 1, lex. rewrite E1. cbn [mbind outcome_bind]. unfold bind at 1, lexer_line. cbn [mbind outcome_bind lexer read_buffer].
    unfold bind at 1. cbn [lexer read_buffer]. rewrite E2. cbn [mbind outcome_bind]. unfold bind, push. cbn [mbind outcome_bind lexer read_buffer].
    destruct (IH (mk_parser s2 (read_buffer p ++ [annotate (source_line s1) t]))) as (p' & E & Hp' & Hb & Hl).
    { split; [exact Hs2|]. exists ts. cbn. by rewrite <- app_assoc. }
    exists p'. rewrite E. split_and!; [done|..].
    + destruct Hp' as [? (m & Em & ?)]. split; [done|]. exists m. split; [|done]. exact Em.
    + rewrite Hb. cbn. rewrite !length_app. cbn. f_equal. lia.
    + intros Hlt. apply Hl. cbn in *. rewrite !length_app in *. cbn in *. lia.
Qed.

Lemma read_ahead_runs n p ts : coming p ts ->
  exists p', read_ahead n p = Ok (inl tt, p') /\ coming p' ts /\ (forall i, (i <= n)%nat -> read_buffer p' !! i = ts !! i) /\
    ((length ts <= n)%nat -> source_line (lexer p') = line).
Proof.
  intros Hp. unfold read_ahead. destruct (fill_runs (Datatypes.S n - length (read_buffer p)) p ts Hp) as (p' & E & Hp' & Hb & Hl).
  exists p'. split_and!; [done|done|..].
  - intros i Hi. rewrite Hb. apply lookup_take_lt. lia.
  - intros Hn. apply Hl. lia.
Qed.

Lemma coming_buffer p ts : coming p ts -> read_buffer p `prefix_of` ts.
Proof. intros [_ (more & -> & _)]. by eexists. Qed.

Lemma runs_get_next t ts : runs get_next (t :: ts) t (t :: ts).
Proof.
  intros p Hp. destruct (read_ahead_runs 1 p _ Hp) as (p' & E & Hp' & Hb & _). exists p'. split; [|done].
  unfold get_next, bind. rewrite E. cbn [mbind outcome_bind buffered]. by rewrite Hb by lia.
Qed.

(** What [remove] does after [read_ahead] *)
Lemma read_remove {A} (k : option (LineAnnotated (Token S)) -> P A) t ts a ts' : runs (k (Some t)) ts a ts' ->
  runs (bind (read_ahead 1) (fun _ => bind remove k)) (t :: ts) a ts'.
Proof.
  intros Hk p Hp. destruct (read_ahead_runs 1 p _ Hp) as (p1 & E & Hp1 & Hb & _).
  assert (Hbuf : exists b, read_buffer p1 = t :: b).
  { specialize (Hb 0%nat ltac:(lia)). destruct (read_buffer p1) as [|t' b]; [done|]. cbn in Hb. injection Hb as ->. by exists b. }
  destruct Hbuf as [b Hbuf]. destruct (Hk (mk_parser (lexer p1) b)) as (p2 & E2 & Hp2).
  { destruct Hp1 as [Hok (more & Em & Hy)]. split; [done|]. exists more. rewrite Hbuf in Em. by injection Em as ->. }
  exists p2. unfold bind. rewrite E. cbn [mbind outcome_bind]. unfold remove. by rewrite Hbuf.
Qed.

Lemma runs_take_next t ts : runs take_next (t :: ts) t ts.
Proof. apply read_remove, run_ret. Qed.
Lemma token_eq_refl (t : Token S) : token_eq t t = true.
Proof. by apply bool_decide_eq_true. Qed.
Lemma runs_expect_next l t ts : runs (expect_next t) (annotate l t :: ts) l ts.
Proof. apply read_remove. cbn [inner]. rewrite token_eq_refl. apply run_ret. Qed.
Lemma runs_expect_name l n ts : runs expect_name (annotate l (Name n) :: ts) n ts.
Proof. apply read_remove, run_ret. Qed.
Lemma runs_expect_string l n ts : runs expect_string (annotate l (String n) :: ts) n ts.
Proof. apply read_remove, run_ret. Qed.

Lemma runs_look_ahead ts : runs (look_ahead 0) ts (head ts) ts.
Proof.
  intros p Hp. destruct (read_ahead_runs 1 p _ Hp) as (p' & E & Hp' & Hb & _). exists p'. split; [|done].
  unfold look_ahead, bind. cbn [Nat.add]. rewrite E. cbn [mbind outcome_bind buffered]. unfold buffered. by rewrite Hb, head_lookup by lia.
Qed.
Lemma runs_look_token ts : runs (look_token 0) ts (inner <$> head ts) ts.
Proof. eapply run_bind; [apply runs_look_ahead|apply run_ret]. Qed.
Lemma runs_check_ahead n t ts : runs (check_ahead n t) ts (match ts !! n with Some t' => token_eq (inner t') t | None => false end) ts.
Proof.
  intros p Hp. destruct (read_ahead_runs n p _ Hp) as (p' & E & Hp' & Hb & _). exists p'. split; [|done].
  unfold check_ahead, bind. rewrite E. cbn [mbind outcome_bind]. unfold buffered. cbn [mbind outcome_bind]. by rewrite Hb by lia.
Qed.

(** Where a block is closed *)
Lemma runs_closed_on {A} (k : Z -> P A) ts a ts' :
  runs (k (match ts with t :: _ => line_number t | [] => line end)) ts a ts' ->
  runs (bind (look_ahead 0) (fun next => bind (match next with Some next => ret (line_number next) | None => lexer_line end) k)) ts a ts'.
Proof.
  intros Hk. destruct ts as [|t ts].
  - intros p Hp. destruct (read_ahead_runs 1 p _ Hp) as (p1 & E & Hp1 & Hb & Hl). destruct (Hk p1 Hp1) as (p2 & E2 & Hp2).
    exists p2. split; [|done]. unfold look_ahead, bind. cbn [Nat.add]. rewrite E. cbn [mbind outcome_bind]. unfold buffered.
    rewrite Hb by lia. cbn. rewrite Hl by (cbn; lia). exact E2.
  - eapply run_bind; [apply runs_look_ahead|]. cbn [head]. eapply run_bind; [apply run_ret|exact Hk].
Qed.
End Runs.
End Runs.
