(* ===== verification/ParserRoundTrip.v ===== *)
(** * The parser reads what the printer prints

    For each function of the grammar, what it does with the tokens of the tree it makes. *)

From S2P Require Import Prelude Float64 Constant Operators Lexer Parser ParserFacts ParserPrint.
Import Ast.

Module RoundTrip.
Import Parser ParserFacts Canonical Print Runs.

(** *** Running on tokens *)

(** Decides an equality of two tokens *)
Ltac token_test :=
  match goal with
  | |- context [token_eq ?a ?b] => let v := eval vm_compute in (token_eq a b) in change (token_eq a b) with v
  end; cbv beta iota.
(** The functions of the grammar, as they are proved *)
Ltac run_grammar := fail.
Ltac run_rule :=
  match goal with
  | |- runs _ (bind (check_ahead _ _) _) _ _ _ => eapply run_bind; [apply runs_check_ahead|]; cbn [lookup list_lookup plain inner app]; try token_test
  | |- runs _ (bind (look_token _) _) _ _ _ => eapply run_bind; [apply runs_look_token|]; cbn [fmap option_fmap option_map head plain inner app]
  | |- runs _ (bind lexer_line _) _ _ _ => apply runs_line; intros ?
  | |- runs _ (bind _ _) _ _ _ => eapply run_bind
  | |- runs _ (ret _) _ _ _ => apply run_ret
  | |- runs _ (expect_next _) _ _ _ => apply runs_expect_next
  | |- runs _ take_next _ _ _ => apply runs_take_next
  | |- runs _ get_next _ _ _ => apply runs_get_next
  | |- runs _ expect_name _ _ _ => apply runs_expect_name
  | |- runs _ expect_string _ _ _ => apply runs_expect_string
  | _ => run_grammar
  end.
Ltac run := repeat (cbn [inner plain line_number]; run_rule).
Ltac side := first [done | by split | by cbn; split_and!].
(** A turn took tokens. *)
Ltac tokens_shorter := cbn [length app]; do 2 (rewrite ?length_app; cbn [length]); lia.
(** The tokens of each part, as one list, each item before the rest *)
Ltac flat := autorewrite with printing; do 4 (rewrite <- ?app_assoc; cbn [app]).

Section Tokens.
Context {S : Type} `{AsBytes S}.
Abbreviation toks := (list (LineAnnotated (Token S))).

(** A token that goes on with a suffixed expression *)
Definition suffix_start (t : Token S) : bool :=
  match t with Dot | LeftBracket | Colon | LeftParen | LeftBrace | String _ => true | _ => false end.
(** The tokens after an expression that is an operand of an operator of priority [q] *)
Definition over (q : Z) (ts : toks) : Prop :=
  match ts with t :: _ => suffix_start (inner t) = false /\ no_operator q (inner t) | [] => True end.
Definition not_comma (ts : toks) : Prop :=
  match ts with t :: _ => token_eq (inner t) Comma = false | [] => True end.

(** The tokens an expression starts with *)
Definition starts (t : Token S) : bool :=
  match t with
  | Float _ | Integer _ | String _ | Nil | True_ | False_ | Dots | LeftBrace | Function | Name _ | LeftParen
  | Not | Minus | BitNotXor | Len => true
  | _ => false
  end.

Context (str : list Z -> S).

Lemma suffixed_starts l e : exists t ts, print_suffixed str l e = t :: ts /\ line_number t = l /\
  match inner t with Name _ | LeftParen => True | _ => False end.
Proof. destruct e as [[n|e] ss]; autorewrite with printing; by eexists _, _. Qed.
Lemma simple_starts e : exists t ts, print_simple str e = t :: ts /\ starts (inner t) = true /\ get_unary_operator (inner t) = None.
Proof.
  destruct e as [f|i|s| | | | |fs|[l ps v b]|e]; autorewrite with printing; try by eexists _, _.
  destruct (suffixed_starts 0 e) as (t & ts & E & _ & Ht). exists t, ts. split; [exact E|]. by destruct (inner t).
Qed.
Lemma expression_starts e : exists t ts, print_expression str e = t :: ts /\ starts (inner t) = true.
Proof.
  destruct e as [[e|op e] tail]; autorewrite with printing.
  - destruct (simple_starts e) as (t & ts & E & Ht & _). eexists t, _. split; [|exact Ht]. by rewrite E.
  - eexists _, _. split; [reflexivity|]. by destruct op.
Qed.
Lemma tail_starts tail : match print_tail str tail with t :: _ => suffix_start (inner t) = false /\ token_eq (inner t) Assign = false | [] => True end.
Proof. destruct tail as [|[op e] tail]; [done|]. cbn. by destruct op. Qed.

(** The arguments of a call: a lone table or string, or a list in parentheses *)
Lemma arguments_view args :
  (exists fs, args = lone (ETableConstructor fs)) \/ (exists s, args = lone (EString s)) \/
  (print_arguments str args = plain LeftParen :: commas (map (print_expression str) args) ++ [plain RightParen] /\
   forall ce, arguments ce args -> Forall (expr ce) args).
Proof.
  unfold print_arguments, arguments. repeat case_match; try (by right; right); [right; left; by eexists|left; by eexists].
Qed.

Lemma over_weaken q q' ts : q <= q' -> over q ts -> over q' ts.
Proof.
  intros Hq. destruct ts as [|t ts]; [done|]. intros [Hs Ho]. split; [done|]. unfold no_operator in *.
  destruct (get_binary_operator _); [lia|done].
Qed.

Lemma commas_cons (i : toks) items : commas (i :: items) = i ++ flat_map (fun i => plain Comma :: i) items.
Proof.
  revert i. induction items as [|j items IH]; intros i; [by rewrite app_nil_r|].
  change (commas (i :: j :: items)) with (i ++ plain Comma :: commas (j :: items)). by rewrite IH.
Qed.
Lemma binary_of_token op : get_binary_operator (binary_token (S:=S) op) = Some op.
Proof. by destruct op. Qed.
Lemma unary_of_token op : get_unary_operator (unary_token (S:=S) op) = Some op.
Proof. by destruct op. Qed.
End Tokens.

Section Grammar.
Context {S : Type} `{AsBytes S} `{TokenSource S} `{!TokenSourceLaws S}.
Context (parse_statement : P (Statement S)) (parse_sub_expression : Z -> P (Expression S)).
Context (cs : Z -> Statement S -> Prop) (ce : Z -> Expression S -> Prop).
Context (str : list Z -> S) (Hstr : forall b, as_bytes (str b) = b) (eol : Z).
Context (Hs : forall line s ts, cs line s ->
  runs eol parse_statement (print_statement str line s ++ plain SemiColon :: ts) s (plain SemiColon :: ts)).
Context (He : forall q e ts, 0 <= q < MAX_PRIORITY -> ce q e -> over q ts ->
  runs eol (parse_sub_expression q) (print_expression str e ++ ts) e ts).
Abbreviation toks := (list (LineAnnotated (Token S))).
Abbreviation runs := (runs eol).
(** The tokens a statement starts with *)
Definition statement_start (t : Token S) : bool :=
  match t with Else | ElseIf | End | Until | SemiColon | Return => false | _ => true end.
Context (Hst : forall line s, cs line s ->
  exists t ts, print_statement str line s = t :: ts /\ line_number t = line /\ statement_start (inner t) = true).

Lemma runs_expression e ts : expr ce e -> over MIN_PRIORITY ts ->
  runs (parse_expression parse_sub_expression) (print_expression str e ++ ts) e ts.
Proof. intros Hc Ho. by apply He. Qed.
Ltac run_grammar ::=
  match goal with
  | |- Runs.runs _ (parse_expression _) _ _ _ => apply runs_expression; [side|side]
  end.

(** A loop that adds an item in each turn *)
Lemma runs_items {A B} (body : list A -> P (list A + B)) (pr : A -> toks) (finish : list A -> B) first items ts ts' :
  (forall items, runs (body items) ts (inr (finish items)) ts') ->
  Forall (fun i => pr i <> [] /\ forall before later,
    runs (body before) (pr i ++ flat_map pr later ++ ts) (inl (before ++ [i])) (flat_map pr later ++ ts)) items ->
  runs (loop body first) (flat_map pr items ++ ts) (finish (first ++ items)) ts'.
Proof.
  intros Hend Hitems. apply run_loop. revert first. induction Hitems as [|i items [Hne Hi] Hitems IH]; intros first; cbn [flat_map app].
  - rewrite app_nil_r. by apply loops_done.
  - rewrite <- app_assoc. eapply loops_turn; [apply Hi| |].
    + rewrite (length_app (pr i)). destruct (pr i); [done|cbn; lia].
    + rewrite (app_assoc first [i] items : first ++ i :: items = _). apply IH.
Qed.

(** Items after the first, each before a comma or the end *)
Lemma runs_more {A} (item : P A) (pr : A -> toks) (after : toks -> Prop) first items ts :
  (forall ts', after (plain Comma :: ts')) -> after ts -> not_comma ts ->
  Forall (fun i => forall ts', after ts' -> runs item (pr i ++ ts') i ts') items ->
  runs (more_items item first) (flat_map (fun i => plain Comma :: pr i) items ++ ts) (first ++ items) ts.
Proof.
  intros Hcomma Hts Hnc Hitems. apply (runs_items _ (fun i => plain Comma :: pr i) (fun items => items)).
  - intros before. eapply run_bind; [apply runs_check_ahead|]. destruct ts as [|t ts]; [apply run_ret|]. cbn. rewrite Hnc. apply run_ret.
  - eapply Forall_impl; [exact Hitems|]. intros i Hi. split; [done|]. intros before later. cbn [app]. run.
    apply Hi. destruct later; [exact Hts|apply Hcomma].
Qed.

Lemma runs_expressions es ts : exprs ce es -> over MIN_PRIORITY ts -> not_comma ts ->
  runs (parse_expression_list parse_sub_expression) (commas (map (print_expression str) es) ++ ts) es ts.
Proof.
  intros [Hne Hes] Ho Hnc. destruct Hes as [|e es He1 Hes]; [done|]. cbn [map]. rewrite commas_cons, <- app_assoc.
  eapply run_bind; [apply runs_expression; [done|]|].
  { destruct es; [exact Ho|by split]. }
  rewrite flat_map_concat_map, map_map, <- flat_map_concat_map.
  apply (runs_more _ (print_expression str) (over MIN_PRIORITY) [e]); [by intros; split|done|done|].
  eapply Forall_impl; [exact Hes|]. intros e' He' ts' Ho'. by apply runs_expression.
Qed.

(** *** Suffixes *)
Definition no_suffix (ts : toks) : Prop := match ts with t :: _ => suffix_start (inner t) = false | [] => True end.
Lemma over_no_suffix q ts : over q ts -> no_suffix ts.
Proof. destruct ts; [done|]. by intros []. Qed.

Lemma runs_field_suffix f ts : field_suffix ce f -> runs (parse_field_suffix parse_sub_expression) (print_field_suffix str f ++ ts) f ts.
Proof.
  intros Hf. destruct f as [n|e]; flat; unfold parse_field_suffix; run.
Qed.

(** After the first token of an expression *)
Lemma second_not_assign e ts' n : inner <$> head (print_expression str e) = Some (Name n) ->
  match tl (print_expression str e) ++ plain Comma :: ts' with t :: _ => token_eq (inner t) Assign = false | [] => True end.
Proof.
  destruct e as [[e|op e] tail]; autorewrite with printing; [|by destruct op].
  destruct e as [f|i|s| | | | |fs|[l' ps v b]|[[m|e] ss]]; autorewrite with printing; try discriminate. intros _. cbn [tl app].
  pose proof (tail_starts str tail) as Ht. destruct ss as [|[[k|e]|[k args|args]] ss]; cbn [flat_map app]; autorewrite with printing; try done.
  - destruct (print_tail str tail); [done|]. by destruct Ht.
  - by destruct (arguments_view str args) as [(fs & ->)|[(s & ->)|[-> _]]].
Qed.

(** A field and the comma after it *)
Lemma runs_field f ts : field ce f ->
  runs (parse_constructor_field parse_sub_expression) (print_field str f ++ plain Comma :: ts) f (plain Comma :: ts).
Proof.
  intros Hf.
  assert (Hexp : forall e (k : Expression S -> ConstructorField S), expr ce e ->
    runs (bind (parse_expression parse_sub_expression) (fun e => ret (k e))) (print_expression str e ++ plain Comma :: ts) (k e) (plain Comma :: ts)).
  { intros e k Hc. eapply run_bind; [apply runs_expression; [done|by split]|apply run_ret]. }
  destruct f as [e|[n|k] e].
  - rewrite print_array. unfold parse_constructor_field. destruct (expression_starts str e) as (t & rest & E & Ht).
    assert (Hget : runs get_next (print_expression str e ++ plain Comma :: ts) t (print_expression str e ++ plain Comma :: ts)) by (rewrite E; apply runs_get_next).
    eapply run_bind; [exact Hget|]. pose proof (second_not_assign e ts) as Hsnd. rewrite E in Hsnd. cbn [head fmap option_fmap option_map tl] in Hsnd.
    destruct (inner t) eqn:Et; try done; try (by apply Hexp). specialize (Hsnd _ eq_refl).
    eapply run_bind; [apply runs_check_ahead|]. rewrite E at 1. cbn [app lookup list_lookup].
    destruct (rest ++ plain Comma :: ts) as [|t2 rest2] eqn:E2; [by destruct rest|]. cbn [lookup list_lookup]. rewrite Hsnd. by apply Hexp.
  - destruct Hf as [_ Hf]. flat. unfold parse_constructor_field. run.
  - destruct Hf as [Hk Hf]. flat. unfold parse_constructor_field. run.
Qed.

Lemma field_starts f : exists t ts, print_field str f = t :: ts /\ token_eq (inner t) RightBrace = false.
Proof.
  destruct f as [e|[n|k] e]; autorewrite with printing; [|by eexists _, _..]. destruct (expression_starts str e) as (t & ts & E & Ht).
  exists t, ts. split; [exact E|]. by destruct (inner t).
Qed.

Lemma runs_table fs ts : Forall (field ce) fs ->
  runs (parse_table_constructor parse_sub_expression) (print_simple str (ETableConstructor fs) ++ ts) fs ts.
Proof.
  intros Hfs. unfold parse_table_constructor.
  flat. eapply run_bind; [apply runs_expect_next|].
  eapply (run_bind _ _ _ _ fs (plain RightBrace :: ts)); [|by run].
  apply (runs_items _ (fun f => print_field str f ++ [plain Comma]) (fun fs => fs) []); [intros before; by run|].
  eapply Forall_impl; [exact Hfs|]. intros f Hf. destruct (field_starts f) as (t & rest & E & Ht). split; [by rewrite E|].
  intros before later. flat. eapply run_bind; [apply runs_check_ahead|]. rewrite E. cbn [app lookup list_lookup]. rewrite Ht, app_comm_cons, <- E.
  eapply run_bind; [by apply runs_field|]. run.
Qed.

(** *** Calls *)
Lemma runs_call c ts : call_suffix ce c -> runs (parse_call_suffix parse_sub_expression) (print_call str c ++ ts) c ts.
Proof.
  intros Hc. unfold parse_call_suffix.
  assert (Hargs : forall args, arguments ce args -> exists t rest, print_arguments str args ++ ts = t :: rest /\
    match inner t with Colon => False | _ => True end /\
    runs (match inner t with
      | LeftParen =>
          bind take_next (fun _ => bind get_next (fun next =>
          bind (match inner next with RightParen => ret [] | _ => parse_expression_list parse_sub_expression end) (fun args =>
          bind (expect_next RightParen) (fun _ => ret args))))
      | LeftBrace => bind (parse_table_constructor parse_sub_expression) (fun t => ret (lone (ETableConstructor t)))
      | String _ => bind expect_string (fun s => ret (lone (EString s)))
      | t' => throw (ParseErrorKind.Unexpected t' (ParseErrorKind.Text "function arguments")) (line_number t)
      end) (print_arguments str args ++ ts) args ts).
  { intros args Ha. destruct (arguments_view str args) as [(fs & ->)|[(s & ->)|[E Hall]]].
    - eexists _, _. cbn [lone print_arguments]. rewrite print_table. cbn [app]. split; [reflexivity|]. split; [done|]. cbn [inner plain].
      eapply run_bind; [|apply run_ret]. rewrite app_comm_cons, <- print_table. by apply runs_table.
    - eexists _, _. cbn [lone print_arguments app]. split; [reflexivity|]. split; [done|]. cbn [inner plain].
      rewrite print_string. run.
    - specialize (Hall _ Ha). rewrite E. cbn [app]. eexists _, _. split; [reflexivity|]. split; [done|]. cbn [inner plain]. rewrite <- app_assoc. cbn [app].
      eapply run_bind; [apply runs_take_next|]. destruct args as [|e args].
      + cbn [map commas app]. run.
      + destruct (expression_starts str e) as (t & rest & E2 & Ht).
        assert (Hhead : exists rest2, commas (map (print_expression str) (e :: args)) ++ plain RightParen :: ts = t :: rest2).
        { cbn [map]. rewrite commas_cons, E2. by eexists. }
        destruct Hhead as [rest2 E3].
        eapply (run_bind _ _ _ _ t (commas (map (print_expression str) (e :: args)) ++ plain RightParen :: ts)); [rewrite E3; apply runs_get_next|].
        assert (Hl : runs (parse_expression_list parse_sub_expression) (commas (map (print_expression str) (e :: args)) ++ plain RightParen :: ts) (e :: args) (plain RightParen :: ts)).
        { apply runs_expressions; [by split|by split|done]. }
        destruct (inner t); try done; (eapply run_bind; [exact Hl|run]). }
  destruct c as [n args|args]; [rewrite print_method|rewrite print_function_call].
  - destruct (Hargs args Hc) as (t & rest & E & _ & Ha). cbn [app]. eapply run_bind; [apply runs_get_next|]. cbn [inner plain].
    eapply run_bind; [eapply run_bind; [apply runs_take_next|]; run|]. rewrite E in *. eapply run_bind; [apply runs_get_next|].
    eapply run_bind; [exact Ha|]. apply run_ret.
  - destruct (Hargs args Hc) as (t & rest & E & Ht & Ha). rewrite E in *. eapply run_bind; [apply runs_get_next|].
    eapply (run_bind _ _ _ _ None (t :: rest)); [by destruct (inner t); try apply run_ret|].
    eapply run_bind; [apply runs_get_next|]. eapply run_bind; [exact Ha|]. apply run_ret.
Qed.

Lemma field_suffix_starts f : exists t rest, print_field_suffix str f = t :: rest /\ match inner t with Dot | LeftBracket => True | _ => False end.
Proof. destruct f; [rewrite print_dot|rewrite print_index]; by eexists _, _. Qed.
Lemma call_starts c : exists t rest, print_call str c = t :: rest /\ match inner t with Colon | LeftParen | LeftBrace | String _ => True | _ => False end.
Proof.
  destruct c as [n args|args]; [rewrite print_method; by eexists _, _|rewrite print_function_call].
  destruct (arguments_view str args) as [(fs & ->)|[(s & ->)|[-> _]]]; cbn [lone print_arguments]; rewrite ?print_table, ?print_string; by eexists _, _.
Qed.
Lemma suffix_starts s : exists t rest, print_suffix str s = t :: rest /\ suffix_start (inner t) = true.
Proof.
  destruct s as [f|c]; [rewrite print_suffix_field; destruct (field_suffix_starts f) as (t & rest & E & Ht)|rewrite print_suffix_call; destruct (call_starts c) as (t & rest & E & Ht)].
  all: exists t, rest; split; [exact E|by destruct (inner t)].
Qed.

Lemma runs_suffix s ts : suffix ce s -> runs (parse_suffix_part parse_sub_expression) (print_suffix str s ++ ts) s ts.
Proof.
  intros Hsuf. destruct s as [f|c]; [rewrite print_suffix_field|rewrite print_suffix_call].
  - assert (Hf : runs (bind (parse_field_suffix parse_sub_expression) (fun f => ret (Field f))) (print_field_suffix str f ++ ts) (Field f) ts).
    { eapply run_bind; [by apply runs_field_suffix|apply run_ret]. }
    destruct (field_suffix_starts f) as (t & rest & E & Ht). rewrite E in *. eapply run_bind; [apply runs_get_next|]. by destruct (inner t).
  - assert (Hc : runs (bind (parse_call_suffix parse_sub_expression) (fun c => ret (Call c))) (print_call str c ++ ts) (Call c) ts).
    { eapply run_bind; [by apply runs_call|apply run_ret]. }
    destruct (call_starts c) as (t & rest & E & Ht). rewrite E in *. eapply run_bind; [apply runs_get_next|]. by destruct (inner t).
Qed.

Lemma runs_suffixed l e ts : suffixed ce e -> no_suffix ts ->
  runs (parse_suffixed_expression parse_sub_expression) (print_suffixed str l e ++ ts) e ts.
Proof.
  intros Hsuf Hns. destruct e as [p ss]. destruct Hsuf as [Hp Hss]. unfold parse_suffixed_expression.
  eapply (run_bind _ _ _ _ p (flat_map (print_suffix str) ss ++ ts)).
  { destruct p as [n|e]; flat; unfold parse_primary_expression; run. }
  eapply (run_bind _ _ _ _ ss ts); [|apply run_ret].
  apply (runs_items _ (print_suffix str) (fun ss => ss) []).
  - intros before. eapply run_bind; [apply runs_look_token|]. destruct ts as [|t ts]; cbn; [apply run_ret|].
    cbn in Hns. destruct (inner t); try done; apply run_ret.
  - eapply Forall_impl; [exact Hss|]. intros s Hs1. destruct (suffix_starts s) as (t & rest & E & Ht). split; [by rewrite E|]. intros before later.
    assert (Hmore : runs (bind (parse_suffix_part parse_sub_expression) (fun s => ret (inl (before ++ [s])))) (print_suffix str s ++ flat_map (print_suffix str) later ++ ts)
      (inl (B:=list (SuffixPart S)) (before ++ [s])) (flat_map (print_suffix str) later ++ ts)).
    { eapply run_bind; [by apply runs_suffix|apply run_ret]. }
    eapply run_bind; [apply runs_look_token|]. rewrite E in *. cbn. by destruct (inner t).
Qed.

(** *** Blocks *)

(** The token after a block, on the line where it is closed *)
Definition closer (t : Token S) : bool := match t with Else | ElseIf | End | Until => true | _ => false end.
Definition closes (l : Z) (ts : toks) : Prop :=
  match ts with t :: _ => line_number t = l /\ closer (inner t) = true | [] => eol = l end.

Lemma closes_over l ts : closes l ts -> over MIN_PRIORITY ts /\ not_comma ts /\ match ts with t :: _ => token_eq (inner t) SemiColon = false | [] => True end.
Proof. destruct ts as [|t ts]; [done|]. intros [_ Hc]. cbn. by destruct (inner t). Qed.

Lemma runs_return l es cl ts : Forall (expr ce) es -> closes cl ts ->
  runs (parse_return_statement parse_sub_expression) (annotate l Return :: commas (map (print_expression str) es) ++ ts) es ts.
Proof.
  intros Hes Hcl. destruct (closes_over _ _ Hcl) as (Ho & Hc & Hsemi). unfold parse_return_statement.
  eapply run_bind; [apply runs_expect_next|]. eapply run_bind; [apply runs_look_token|].
  eapply (run_bind _ _ _ _ es ts).
  - destruct es as [|e es].
    + cbn [map commas app]. destruct ts as [|t ts]; [apply run_ret|]. destruct Hcl as [_ Hcl]. cbn. destruct (inner t); try done; apply run_ret.
    + assert (Hl : runs (parse_expression_list parse_sub_expression) (commas (map (print_expression str) (e :: es)) ++ ts) (e :: es) ts) by (apply runs_expressions; done).
      destruct (expression_starts str e) as (t & rest & E & Ht). cbn [map] in *. rewrite commas_cons, E in *. cbn [app head fmap option_fmap option_map] in *.
      by destruct (inner t).
  - eapply run_bind; [apply runs_check_ahead|]. destruct ts as [|t ts]; cbn [lookup list_lookup]; [by run|]. rewrite Hsemi. run.
Qed.

Lemma runs_block b ts : block_ cs ce b -> closes (closed_on b) ts ->
  runs (parse_block parse_statement parse_sub_expression) (print_block str b ++ ts) b ts.
Proof.
  destruct b as [ss r l]. intros [Hss Hr] Hcl. cbn [closed_on] in Hcl. rewrite print_block_eq, <- app_assoc. unfold parse_block.
  eapply (run_bind _ _ _ _ (ss, r) ts).
  2:{ apply runs_closed_on. replace (match ts with t :: _ => line_number t | [] => eol end) with l; [apply run_ret|].
      destruct ts; [done|]. by destruct Hcl. }
  apply run_loop. match goal with |- loops _ ?body _ ?t _ _ => cut (forall before, loops eol body before t (before ++ ss, r) ts); [intros Hg; exact (Hg [])|] end.
  induction Hss as [|[line s] ss Hs1 Hss IH]; intros before.
  - rewrite app_nil_r. apply loops_done. cbn [print_statements flat_map app]. destruct r as [[rl es]|]; cbn [print_return app].
    + eapply run_bind; [apply runs_look_ahead|]. cbn. eapply run_bind; [by eapply runs_return|apply run_ret].
    + eapply run_bind; [apply runs_look_ahead|]. destruct ts as [|t ts]; [apply run_ret|]. destruct Hcl as [_ Hcl]. cbn.
      destruct (inner t); try done; apply run_ret.
  - change (print_statements str (annotate line s :: ss)) with ((print_statement str line s ++ [plain SemiColon]) ++ print_statements str ss).
    cbn [line_number inner] in Hs1. destruct (Hst _ _ Hs1) as (t & rest & E & Hl & Ht). rewrite <- !app_assoc. cbn [app].
    eapply (loops_turn _ _ _ (before ++ [annotate line s])).
    + eapply run_bind; [apply runs_look_ahead|].
      assert (Hstat : forall ts', runs (bind parse_statement (fun st => ret (inl (B:=list (LineAnnotated (Statement S)) * option (LineAnnotated (list (Expression S))))
        (before ++ [annotate (line_number t) st])))) (print_statement str line s ++ plain SemiColon :: ts') (inl (before ++ [annotate line s])) (plain SemiColon :: ts')).
      { intros ts'. eapply run_bind; [by apply Hs|]. rewrite Hl. apply run_ret. }
      specialize (Hstat (print_statements str ss ++ print_return str r ++ ts)). rewrite E in *. cbn [app head] in *. destruct (inner t); try done; exact Hstat.
    + rewrite E. tokens_shorter.
    + eapply loops_turn.
      * eapply run_bind; [apply runs_look_ahead|]. cbn [head inner plain]. run.
      * cbn [length]. lia.
      * rewrite (app_assoc before [annotate line s] ss : before ++ annotate line s :: ss = _). apply IH.
Qed.

Lemma runs_definition l ps v b ts : block_ cs ce b ->
  runs (parse_function_definition parse_statement parse_sub_expression l) (print_definition str (mk_FunctionDefinition l ps v b) ++ ts)
    (mk_FunctionDefinition l ps v b) ts.
Proof.
  intros Hb. rewrite print_definition_eq. flat. unfold parse_function_definition. eapply run_bind; [apply runs_expect_next|].
  assert (Hend : forall rest, runs (bind (expect_next RightParen) (fun _ => bind (parse_block parse_statement parse_sub_expression)
      (fun body => bind (expect_next End) (fun _ => ret (mk_FunctionDefinition l ps v body))))) (plain RightParen :: print_block str b ++ annotate (closed_on b) End :: rest)
    (mk_FunctionDefinition l ps v b) rest).
  { intros rest. eapply run_bind; [apply runs_expect_next|]. eapply run_bind; [apply runs_block; [done|by split]|]. run. }
  set (rest := plain RightParen :: _) in *.
  assert (Hps : ps <> [] \/ v = true -> runs parse_parameters (print_parameters ps v ++ rest) (ps, v) rest).
  { clear Hend. intros Hne. unfold parse_parameters. apply run_loop. unfold print_parameters.
    match goal with |- loops _ ?body _ ?t _ _ => cut (forall before, loops eol body before t (before ++ ps, v) rest); [intros Hg; exact (Hg [])|] end. revert Hne.
    induction ps as [|p ps IH]; intros Hne before; [|destruct ps as [|p2 ps]]; cbn [map app].
    - destruct Hne as [Hne| ->]; [done|]. rewrite app_nil_r. apply loops_done. cbn [app]. run.
    - destruct v; cbn [commas app].
      + eapply loops_turn; [run| |]; [cbn; lia|]. apply loops_done. run.
      + apply loops_done. unfold rest. run.
    - cbn [commas]. rewrite <- app_assoc. cbn [app]. eapply (loops_turn _ _ _ (before ++ [p])); [run| |]; [cbn; lia|].
      rewrite (app_assoc before [p] (p2 :: ps) : before ++ p :: p2 :: ps = _). apply IH. by left. }
  eapply run_bind; [apply runs_check_ahead|]. eapply (run_bind _ _ _ _ (ps, v) rest); [|apply Hend].
  destruct ps as [|p ps]; [destruct v|].
  - cbn. apply Hps. by right.
  - cbn. apply run_ret.
  - specialize (Hps ltac:(by left)). unfold print_parameters in *. cbn [map app] in *. rewrite commas_cons in *. cbn [app lookup list_lookup] in *. exact Hps.
Qed.

(** *** Simple expressions and operators *)
Lemma runs_simple e ts : simple cs ce e -> no_suffix ts ->
  runs (parse_simple_expression parse_statement parse_sub_expression) (print_simple str e ++ ts) e ts.
Proof.
  intros Hsim Hns. destruct e as [f|i|s| | | | |fs|[l ps v b]|e]; try (autorewrite with printing; unfold parse_simple_expression; cbn [app]; by run).
  - pose proof (runs_table fs ts Hsim) as Ht. rewrite print_table in *. unfold parse_simple_expression. cbn [app] in *.
    eapply run_bind; [apply runs_get_next|]. cbn [inner plain]. eapply run_bind; [exact Ht|apply run_ret].
  - rewrite print_function. unfold parse_simple_expression. cbn [app]. eapply run_bind; [apply runs_get_next|]. cbn [inner].
    eapply run_bind; [apply runs_take_next|]. eapply run_bind; [by apply runs_definition|apply run_ret].
  - pose proof (runs_suffixed 0 e ts Hsim Hns) as He2. rewrite print_simple_suffixed. unfold parse_simple_expression.
    destruct (suffixed_starts str 0 e) as (t & rest & E & _ & Ht). rewrite E in *. cbn [app] in *. eapply run_bind; [apply runs_get_next|].
    destruct (inner t); try done; (eapply run_bind; [exact He2|apply run_ret]).
Qed.

(** What may follow an operand may follow one of an operator that binds tighter. *)
Lemma over_operand q op (ts : toks) : q < fst (binary_priority op) -> over q ts -> over (snd (binary_priority op)) ts.
Proof. intros Hq. apply over_weaken. destruct op; cbn in *; lia. Qed.
Lemma over_unary q (ts : toks) : q < MAX_PRIORITY -> over q ts -> over UNARY_PRIORITY ts.
Proof.
  intros Hq. destruct ts as [|t ts]; [done|]. intros [Hs1 Ho]. split; [done|]. unfold no_operator, MAX_PRIORITY, UNARY_PRIORITY in *.
  destruct (get_binary_operator (inner t)) as [op|]; [|done]. destruct op; cbn in *; lia.
Qed.
Lemma over_tail q limit tail ts : chain ce q limit tail -> (tail = [] -> over limit ts) -> over limit (print_tail str tail ++ ts).
Proof.
  destruct tail as [|[op e] tail]; intros Hc Ho; [by apply Ho|]. destruct Hc as ((_ & Hl) & _). cbn.
  unfold no_operator. rewrite binary_of_token. split; [by destruct op|exact Hl].
Qed.

Lemma runs_tail q limit tail ts (make : list (BinaryOperator.t * Expression S) -> Expression S) : 0 <= q -> chain ce q limit tail -> over q ts ->
  runs (bind (loop (fun tail =>
    bind (look_token 0) (fun next =>
    match next ≫= get_binary_operator with
    | Some binary_op =>
        let '(left_priority, right_priority) := binary_priority binary_op in
        if left_priority <=? q then ret (inr tail)
        else bind take_next (fun _ => bind (parse_sub_expression right_priority) (fun e => ret (inl (tail ++ [(binary_op, e)]))))
    | None => ret (inr tail)
    end)) []) (fun tail => ret (make tail))) (print_tail str tail ++ ts) (make tail) ts.
Proof.
  intros Hq Hc Ho. eapply (run_bind _ _ _ _ tail ts); [|apply run_ret]. apply run_loop.
  match goal with |- loops _ ?body _ ?t _ _ => cut (forall before, loops eol body before t (before ++ tail) ts); [intros Hg; exact (Hg [])|] end.
  revert limit Hc. induction tail as [|[op e] tail IH]; intros limit Hc before.
  - rewrite app_nil_r. apply loops_done. eapply run_bind; [apply runs_look_token|]. cbn [print_tail flat_map app].
    destruct ts as [|t ts]; [apply run_ret|]. destruct Ho as [_ Ho]. cbn [head fmap option_fmap option_map mbind option_bind]. unfold no_operator in Ho.
    destruct (get_binary_operator (inner t)) as [op|]; [|apply run_ret]. destruct (binary_priority op) as [lp rp]. cbn in Ho.
    rewrite (proj2 (Z.leb_le _ _)) by lia. apply run_ret.
  - destruct Hc as ((Hp & Hl) & Hce & Hc). change (print_tail str ((op, e) :: tail)) with (plain (binary_token op) :: print_expression str e ++ print_tail str tail).
    cbn [app]. eapply (loops_turn _ _ _ (before ++ [(op, e)])).
    + eapply run_bind; [apply runs_look_token|]. cbn [head fmap option_fmap option_map mbind option_bind plain inner]. rewrite binary_of_token.
      pose proof (over_operand q op ts Hp Ho) as Ho2. assert (Hr : 0 <= snd (binary_priority op) < MAX_PRIORITY) by (unfold MAX_PRIORITY; destruct op; cbn; lia).
      destruct (binary_priority op) as [lp rp]. cbn [fst snd] in *. rewrite (proj2 (Z.leb_gt _ _)) by lia. eapply run_bind; [apply runs_take_next|].
      rewrite <- app_assoc. eapply run_bind; [|apply run_ret]. apply He; [done|done|]. by eapply over_tail.
    + tokens_shorter.
    + rewrite (app_assoc before [(op, e)] tail : before ++ (op, e) :: tail = _). by eapply IH.
Qed.

Lemma runs_sub_expression q e ts : 0 <= q < MAX_PRIORITY -> expression_body cs ce q e -> over q ts ->
  runs (sub_expression_body parse_statement parse_sub_expression q) (print_expression str e ++ ts) e ts.
Proof.
  intros Hq Hc Ho. destruct e as [[e|op e] tail]; destruct Hc as [Hce Hc].
  - rewrite print_simple_expression, <- app_assoc. unfold sub_expression_body.
    assert (Hsim : runs (bind (parse_simple_expression parse_statement parse_sub_expression) (fun e => ret (Simple e))) (print_simple str e ++ print_tail str tail ++ ts)
      (Simple e) (print_tail str tail ++ ts)).
    { eapply run_bind; [apply runs_simple; [done|]|apply run_ret]. pose proof (tail_starts str tail) as Ht.
      destruct (print_tail str tail) as [|t rest]; [by eapply over_no_suffix|]. by destruct Ht. }
    destruct (simple_starts str e) as (t & rest & E & _ & Ht). rewrite E in *. cbn [app] in *. eapply run_bind; [apply runs_get_next|]. rewrite Ht.
    eapply run_bind; [exact Hsim|]. by eapply (runs_tail q _ tail ts (mk_Expression (Simple e))); [lia|..].
  - rewrite print_unary_expression. cbn [app]. rewrite <- app_assoc. unfold sub_expression_body. eapply run_bind; [apply runs_get_next|].
    cbn [inner plain]. rewrite unary_of_token. eapply run_bind; [eapply run_bind; [apply runs_take_next|]; eapply run_bind; [|apply run_ret]|].
    + apply He; [done|done|]. eapply over_tail; [done|]. intros ->. apply (over_unary q); [lia|done].
    + by eapply (runs_tail q _ tail ts (mk_Expression (Unary op e))); [lia|..].
Qed.

(** *** Statements *)
Ltac run_grammar ::=
  match goal with
  | |- Runs.runs _ (parse_expression _) _ _ _ => apply runs_expression; [side|side]
  | |- Runs.runs _ (parse_expression_list _) _ _ _ => apply runs_expressions; [side|side|side]
  | |- Runs.runs _ (parse_block _ _) _ _ _ => apply runs_block; [side|side]
  | |- Runs.runs _ (parse_function_definition _ _ _) _ _ _ => apply runs_definition; side
  end.
Abbreviation semi ts := (plain SemiColon :: ts).
Abbreviation st_runs m line s := (forall ts, runs m (print_statement str line s ++ semi ts) s (semi ts)).

Lemma runs_while line c b : expr ce c -> block_ cs ce b -> st_runs (parse_while_statement parse_statement parse_sub_expression) line (SWhile c b).
Proof. intros Hc Hb ts. flat. unfold parse_while_statement. run. Qed.
Lemma runs_do line b : block_ cs ce b -> st_runs (parse_do_statement parse_statement parse_sub_expression) line (SDo b).
Proof. intros Hb ts. flat. unfold parse_do_statement. run. Qed.
Lemma runs_repeat line b c : expr ce c -> block_ cs ce b -> st_runs (parse_repeat_statement parse_statement parse_sub_expression) line (SRepeat b c).
Proof. intros Hc Hb ts. flat. unfold parse_repeat_statement. run. Qed.
Lemma runs_label line n : st_runs parse_label_statement line (SLabel n).
Proof. intros ts. flat. unfold parse_label_statement. run. Qed.
Lemma runs_goto line n : st_runs parse_goto_statement line (SGoto n).
Proof. intros ts. flat. unfold parse_goto_statement. run. Qed.
Lemma runs_local_function l n ps v b ts : block_ cs ce b ->
  runs (parse_local_function_statement parse_statement parse_sub_expression)
    (annotate l Function :: plain (Name n) :: print_definition str (mk_FunctionDefinition l ps v b) ++ semi ts)
    (SLocalFunction n (mk_FunctionDefinition l ps v b)) (semi ts).
Proof. intros Hb. unfold parse_local_function_statement. run. Qed.

Lemma runs_if line c b parts els : expr ce c -> block_ cs ce b -> Forall (fun part => expr ce (fst part) /\ block_ cs ce (snd part)) parts ->
  match els with Some b => block_ cs ce b | None => True end ->
  st_runs (parse_if_statement parse_statement parse_sub_expression) line (SIf (c, b) parts els).
Proof.
  intros Hc Hb Hps Hels ts. flat. unfold parse_if_statement.
  assert (Hcl : forall l parts, closes l (print_parts str els l parts ++ semi ts)).
  { intros l [|[c1 b1] ps]; [destruct els|]; by split. }
  eapply run_bind; [apply runs_expect_next|]. eapply run_bind; [apply runs_expression; [done|by split]|]. eapply run_bind; [apply runs_expect_next|].
  eapply run_bind; [apply runs_block; [done|apply Hcl]|].
  set (tail := match els with Some b => print_block str b ++ [annotate (closed_on b) End] | None => [] end).
  assert (Hloop : forall l, exists l', runs (loop (fun parts =>
      bind (check_ahead 0 ElseIf) (fun more => if more then
        bind take_next (fun _ => bind (parse_expression parse_sub_expression) (fun cond => bind (expect_next Then) (fun _ =>
        bind (parse_block parse_statement parse_sub_expression) (fun block => ret (inl (parts ++ [(cond, block)]))))))
      else ret (inr parts))) []) (print_parts str els l parts ++ semi ts) parts (print_parts str els l' [] ++ semi ts)).
  { intros l. cut (exists l', forall before, loops eol (fun parts =>
      bind (check_ahead 0 ElseIf) (fun more => if more then
        bind take_next (fun _ => bind (parse_expression parse_sub_expression) (fun cond => bind (expect_next Then) (fun _ =>
        bind (parse_block parse_statement parse_sub_expression) (fun block => ret (inl (parts ++ [(cond, block)]))))))
      else ret (inr parts))) before (print_parts str els l parts ++ semi ts) (before ++ parts) (print_parts str els l' [] ++ semi ts)).
    { intros [l' Hg]. exists l'. apply run_loop, (Hg []). }
    clear Hc Hb tail. revert l. induction Hps as [|[c1 b1] ps [Hc1 Hb1] Hps IH]; intros l.
    - exists l. intros before. rewrite app_nil_r. apply loops_done. destruct els; cbn [print_parts app]; run.
    - destruct (IH (closed_on b1)) as [l' Hl']. exists l'. intros before. cbn [print_parts]. eapply (loops_turn _ _ _ (before ++ [(c1, b1)])).
      + flat. do 2 run_rule; [apply runs_take_next|]. eapply run_bind; [apply runs_expression; [done|by split]|]. eapply run_bind; [apply runs_expect_next|].
        eapply run_bind; [apply runs_block; [done|apply Hcl]|]. apply run_ret.
      + tokens_shorter.
      + rewrite (app_assoc before [(c1, b1)] ps : before ++ (c1, b1) :: ps = _). apply Hl'. }
  destruct (Hloop (closed_on b)) as [l' Hl']. eapply run_bind; [exact Hl'|]. destruct els as [b2|]; cbn [print_parts]; flat; run.
Qed.

Lemma runs_names first names ts : not_comma ts ->
  runs (more_items expect_name first) (flat_map (fun n => plain Comma :: [plain (Name n)]) names ++ ts) (first ++ names) ts.
Proof.
  intros Hnc. apply (runs_more _ (fun n => [plain (Name n)]) (fun _ => True)); [done|done|done|].
  apply Forall_true. intros n ts' _. apply runs_expect_name.
Qed.

Lemma runs_for line f ts : for_statement cs ce f ->
  runs (parse_for_statement parse_statement parse_sub_expression) (annotate line For :: print_for str f ++ semi ts) f (semi ts).
Proof.
  intros Hf. destruct f as [n i l st b|names args b].
  - destruct Hf as (Hi & Hl & Hst' & Hb). flat. unfold parse_for_statement. run. unfold parse_numeric_for.
    destruct st as [e|]; flat; run.
  - destruct Hf as (Hne & Ha & Hb). destruct names as [|n names]; [done|]. rewrite print_generic. cbn [map]. rewrite commas_cons.
    rewrite flat_map_concat_map, map_map, <- flat_map_concat_map. flat. unfold parse_for_statement.
    eapply run_bind; [apply runs_expect_next|]. eapply run_bind; [apply runs_expect_name|].
    assert (Hgen : runs (parse_generic_for parse_statement parse_sub_expression n)
      (flat_map (fun n => plain Comma :: [plain (Name n)]) names ++ plain In :: commas (map (print_expression str) args) ++ plain Do :: print_block str b ++ annotate (closed_on b) End :: semi ts)
      (Generic (n :: names) args b) (semi ts)).
    { unfold parse_generic_for. eapply run_bind; [by apply (runs_names [n])|]. run. }
    destruct names as [|n2 names]; cbn [flat_map app] in *; (eapply run_bind; [apply runs_get_next|]; exact Hgen).
Qed.

Lemma runs_function line n fields m l ps v b ts : l = line -> block_ cs ce b ->
  runs (parse_function_statement parse_statement parse_sub_expression)
    (print_statement str line (SFunction n fields m (mk_FunctionDefinition l ps v b)) ++ semi ts) (SFunction n fields m (mk_FunctionDefinition l ps v b)) (semi ts).
Proof.
  intros -> Hb. rewrite print_function_statement. do 4 (rewrite <- ?app_assoc; cbn [app]). unfold parse_function_statement.
  eapply run_bind; [apply runs_expect_next|]. eapply run_bind; [apply runs_expect_name|].
  eapply (run_bind _ _ _ _ (fields, m) (print_definition str (mk_FunctionDefinition line ps v b) ++ semi ts)); [|run].
  assert (Hend : forall before, runs (bind (look_token 0) (fun next => match next with
    | Some Dot => bind take_next (fun _ => bind expect_name (fun f => ret (inl (before ++ [f]))))
    | Some Colon => bind take_next (fun _ => bind expect_name (fun m => ret (inr (before, Some m))))
    | _ => ret (inr (before, None)) end))
    (match m with Some m => [plain Colon; plain (Name m)] | None => [] end ++ print_definition str (mk_FunctionDefinition line ps v b) ++ semi ts)
    (inr (before, m)) (print_definition str (mk_FunctionDefinition line ps v b) ++ semi ts)).
  { intros before. rewrite print_definition_eq. destruct m; cbn [app]; run. }
  apply (runs_items _ (fun f => [plain Dot; plain (Name f)]) (fun fs => (fs, m)) []); [exact Hend|].
  apply Forall_true. intros f. split; [done|]. intros before later. cbn [app]. run.
Qed.

Lemma runs_name_and_attr n ts : snd n ∈ [NONE; CONST; CONST_CLOSE] -> match ts with t :: _ => token_eq (inner t) LessThan = false | [] => True end ->
  runs take_local_name_and_attr (print_name str n ++ ts) n ts.
Proof.
  intros Ha Hts. destruct n as [n a]. cbn [snd] in Ha. unfold take_local_name_and_attr, print_name. cbn [fst snd].
  assert (Hcases : a = NONE \/ a = CONST \/ a = CONST_CLOSE) by (repeat (apply elem_of_cons in Ha as [-> | Ha]; [tauto|]); by apply elem_of_nil in Ha). clear Ha. destruct Hcases as [-> | [-> | ->]]; cbn -[token_eq].
  - eapply run_bind; [apply runs_expect_name|]. eapply run_bind; [apply runs_check_ahead|].
    destruct ts as [|t ts]; cbn [lookup list_lookup]; [apply run_ret|]. rewrite Hts. apply run_ret.
  - run. rewrite Hstr. cbn. apply run_ret.
  - run. rewrite Hstr. cbn. apply run_ret.
Qed.

Lemma runs_local line names values ts : names <> [] -> Forall (fun n => snd n ∈ [NONE; CONST; CONST_CLOSE]) names -> Forall (expr ce) values ->
  runs (parse_local_statement parse_sub_expression) (print_statement str line (SLocalStatement names values) ++ semi ts) (SLocalStatement names values) (semi ts).
Proof.
  intros Hne Hn Hv. rewrite print_local. destruct Hn as [|n names Hn Hns]; [done|]. cbn [map]. rewrite commas_cons.
  rewrite flat_map_concat_map, map_map, <- flat_map_concat_map. cbn [app]. rewrite <- !app_assoc. unfold parse_local_statement.
  set (after := fun ts : toks => match ts with t :: _ => token_eq (inner t) LessThan = false | [] => True end).
  set (rest := match values with [] => [] | _ => plain Assign :: commas (map (print_expression str) values) end ++ semi ts).
  assert (Hrest : after rest /\ not_comma rest) by (unfold rest; by destruct values).
  eapply run_bind; [apply runs_expect_next|]. eapply run_bind; [apply runs_name_and_attr; [done|]|].
  { destruct names; [apply Hrest|done]. }
  eapply run_bind; [apply (runs_more _ (print_name str) after [n]); [done|apply Hrest|apply Hrest|]|].
  { eapply Forall_impl; [exact Hns|]. intros n' Hn' ts' Hts'. by apply runs_name_and_attr. }
  unfold rest. destruct values as [|v values]; cbn [app]; run.
Qed.

(** *** Assignments and calls *)

(** A target as the expression it is parsed from *)
Definition of_target (t : AssignmentTarget S) : SuffixedExpression S :=
  match t with
  | TName n => mk_SuffixedExpression (PName n) []
  | TField (mk_SuffixedExpression p ss) f => mk_SuffixedExpression p (ss ++ [Field f])
  end.
Lemma pop_last (p : PrimaryExpression S) ss s : pop_suffix (mk_SuffixedExpression p (ss ++ [s])) = Some (s, mk_SuffixedExpression p ss).
Proof. cbn. rewrite rev_app_distr. cbn. by rewrite rev_involutive. Qed.
Lemma target_of_target t : assignment_target (of_target t) = Some t.
Proof. destruct t as [n|[p ss] f]; [done|]. unfold of_target, assignment_target. by rewrite pop_last. Qed.
Lemma print_last l p ss s : print_suffixed str l (mk_SuffixedExpression p (ss ++ [s])) = print_suffixed str l (mk_SuffixedExpression p ss) ++ print_suffix str s.
Proof. destruct p; autorewrite with printing; rewrite flat_map_app; cbn [flat_map app]; by rewrite app_nil_r, <- ?app_assoc. Qed.
Lemma print_of_target l t : print_target str l t = print_suffixed str l (of_target t).
Proof. destruct t as [n|[p ss] f]; autorewrite with printing; [done|]. cbn [of_target]. by rewrite print_last, print_suffix_field. Qed.
Lemma suffixed_of_target t : target ce t -> suffixed ce (of_target t).
Proof. destruct t as [n|[p ss] f]; [done|]. intros [[Hp Hss] Hf]. split; [done|]. apply Forall_app. by split; [|constructor]. Qed.

Lemma print_targets_cons l t targets :
  print_targets str l (t :: targets) = print_target str l t ++ flat_map (fun t => plain Comma :: print_target str 0 t) targets.
Proof.
  revert l t. induction targets as [|t2 targets IH]; intros l t; [by rewrite app_nil_r|].
  change (print_targets str l (t :: t2 :: targets)) with (print_target str l t ++ plain Comma :: print_targets str 0 (t2 :: targets)). by rewrite IH.
Qed.

Lemma runs_assignment line t targets values ts : Forall (target ce) targets -> exprs ce values ->
  runs (parse_assignment parse_sub_expression line (of_target t))
    (flat_map (fun t => plain Comma :: print_target str 0 t) targets ++ plain Assign :: commas (map (print_expression str) values) ++ semi ts)
    (SAssignment (t :: targets) values) (semi ts).
Proof.
  intros Hts Hvs. unfold parse_assignment. eapply (run_bind _ _ _ _ (t :: targets) (plain Assign :: commas (map (print_expression str) values) ++ semi ts)); [|run]. apply run_loop.
  match goal with |- loops _ ?body _ ?l _ _ => cut (forall before, loops eol body (before, of_target t) l (before ++ t :: targets) (plain Assign :: commas (map (print_expression str) values) ++ semi ts));
    [intros Hg; exact (Hg [])|] end.
  revert t. induction Hts as [|t2 targets Ht2 Hts IH]; intros t before; cbn [flat_map app].
  - apply loops_done. rewrite target_of_target. run.
  - eapply (loops_turn _ _ _ (before ++ [t], of_target t2)).
    + rewrite target_of_target. run. rewrite print_of_target, <- app_assoc. apply runs_suffixed; [by apply suffixed_of_target|by destruct targets].
    + tokens_shorter.
    + rewrite (app_assoc before [t] (t2 :: targets) : before ++ t :: t2 :: targets = _). apply IH.
Qed.

Lemma runs_expression_statement line s : statement_body cs ce line s -> match s with SFunctionCall _ _ | SAssignment _ _ => True | _ => False end ->
  st_runs (parse_expression_statement parse_sub_expression) line s.
Proof.
  intros Hc Hk ts. unfold parse_expression_statement. destruct s as [| | | | | | | | | | |[p ss] call|targets values]; try done.
  - destruct Hc as [[Hp Hss] Hcall]. rewrite print_call_statement, <- print_suffix_call, <- print_last.
    eapply run_bind; [apply runs_suffixed; [split; [done|]|done]|]. { apply Forall_app. by split; [|constructor]. }
    eapply run_bind; [apply runs_look_ahead|]. cbn [head]. run. rewrite pop_last. apply run_ret.
  - destruct Hc as [[Hne Hts] Hvs]. destruct Hts as [|t targets Ht Hts]; [done|]. rewrite print_assignment, print_targets_cons, print_of_target, <- !app_assoc. cbn [app].
    eapply run_bind; [apply runs_suffixed; [by apply suffixed_of_target|by destruct targets]|]. 
    eapply run_bind; [apply runs_look_ahead|].
    pose proof (fun l => runs_assignment l t targets values ts Hts Hvs) as Ha. destruct targets as [|t2 targets]; cbn [flat_map app head] in *; run; apply Ha.
Qed.

(** *** All statements *)
Lemma statement_starts line s : statement_body cs ce line s ->
  exists t ts, print_statement str line s = t :: ts /\ line_number t = line /\ statement_start (inner t) = true.
Proof.
  intros Hc.
  assert (Hsuf : forall e later, exists t ts, print_suffixed str line e ++ later = t :: ts /\ line_number t = line /\ statement_start (inner t) = true).
  { intros e later. destruct (suffixed_starts str line e) as (t & ts & -> & Hl & Ht). exists t, (ts ++ later). split_and!; [done|done|]. by destruct (inner t). }
  destruct s as [[c b]| | | | | |n [l ps v b]| | | | |head call|targets values]; autorewrite with printing; try by eexists _, _.
  - apply Hsuf.
  - destruct Hc as [[Hne _] _]. destruct targets as [|t targets]; [done|]. rewrite print_targets_cons, print_of_target, <- app_assoc. apply Hsuf.
Qed.

(** The first token of the statements that have no keyword *)
Lemma expression_statement_starts line s : statement_body cs ce line s -> match s with SFunctionCall _ _ | SAssignment _ _ => True | _ => False end ->
  exists t ts, print_statement str line s = t :: ts /\ match inner t with Name _ | LeftParen => True | _ => False end.
Proof.
  intros Hc Hk. destruct s as [| | | | | | | | | | |head call|targets values]; try done; autorewrite with printing.
  - destruct (suffixed_starts str line head) as (t & ts & -> & _ & Ht). by eexists _, _.
  - destruct Hc as [[Hne _] _]. destruct targets as [|t targets]; [done|]. rewrite print_targets_cons, print_of_target, <- app_assoc.
    destruct (suffixed_starts str line (of_target t)) as (t' & ts & -> & _ & Ht). by eexists _, _.
Qed.

(** Gives the goal to [lem], after the first token. *)
Ltac dispatch lem := let Hr := fresh in
  match goal with |- Runs.runs _ _ ?ts ?s ?ts' => epose proof (lem : Runs.runs _ _ ts s ts') as Hr end;
  revert Hr; autorewrite with printing; cbn [app]; intros Hr; eapply run_bind; [apply runs_get_next|]; exact Hr.
(** Each statement by the function its first token chooses *)
Lemma runs_statement line s ts : statement_body cs ce line s ->
  runs (Parser.statement_body parse_statement parse_sub_expression) (print_statement str line s ++ semi ts) s (semi ts).
Proof.
  intros Hc. unfold Parser.statement_body.
  pose proof Hc as Hb. destruct s as [[c b] parts els|c b|b|f|b c|n fields m [l ps v b]|n [l ps v b]|names values|n| |n|head call|targets values]; cbn [statement_body] in Hb.
  - destruct Hb as ((? & ?) & ? & ?). dispatch (runs_if line c b parts els ltac:(done) ltac:(done) ltac:(done) ltac:(done) ts).
  - destruct Hb. dispatch (runs_while line c b ltac:(done) ltac:(done) ts).
  - dispatch (runs_do line b Hb ts).
  - pose proof (runs_for line f ts Hb) as Hf. autorewrite with printing. cbn [app]. eapply run_bind; [apply runs_get_next|].
    eapply run_bind; [exact Hf|apply run_ret].
  - destruct Hb. dispatch (runs_repeat line b c ltac:(done) ltac:(done) ts).
  - destruct Hb as [Hl Hb]. dispatch (runs_function line n fields m l ps v b ts Hl Hb).
  - pose proof (runs_local_function l n ps v b ts Hb) as Hf. rewrite print_local_function. cbn [app]. run. exact Hf.
  - destruct Hb as (Hne & ? & ?). pose proof (runs_local line names values ts ltac:(done) ltac:(done) ltac:(done)) as Hl. revert Hl.
    destruct names as [|n names]; [done|]. rewrite print_local. cbn [map]. rewrite commas_cons. unfold print_name at 1 4. cbn [app]. intros Hl. run. exact Hl.
  - dispatch (runs_label line n ts).
  - rewrite print_break. cbn [app]. run.
  - dispatch (runs_goto line n ts).
  - pose proof (runs_expression_statement _ _ Hc I ts) as Hf. destruct (expression_statement_starts _ _ Hc I) as (t & rest & E & Ht). rewrite E in *.
    eapply run_bind; [apply runs_get_next|]. by destruct (inner t).
  - pose proof (runs_expression_statement _ _ Hc I ts) as Hf. destruct (expression_statement_starts _ _ Hc I) as (t & rest & E & Ht). rewrite E in *.
    eapply run_bind; [apply runs_get_next|]. by destruct (inner t).
Qed.
End Grammar.

(** ** The guarded functions, and a chunk *)
Section Chunk.
Context {S : Type} `{AsBytes S} `{TokenSource S} `{!TokenSourceLaws S}.
Context (str : list Z -> S) (Hstr : forall b, as_bytes (str b) = b) (eol : Z).

Lemma canonical_starts g line s : canonical_statement g line s ->
  exists t ts, print_statement str line s = t :: ts /\ line_number t = line /\ statement_start (inner t) = true.
Proof. intros Hc. destruct g as [|g]; [done|]. exact (statement_starts _ _ str line s Hc). Qed.

Lemma guarded_runs g :
  (forall line s ts, canonical_statement g line s ->
    runs eol (Parser.parse_statement g) (print_statement str line s ++ plain SemiColon :: ts) s (plain SemiColon :: ts)) /\
  (forall q e ts, 0 <= q < MAX_PRIORITY -> canonical_expression g q e -> over q ts ->
    runs eol (Parser.parse_sub_expression g q) (print_expression str e ++ ts) e ts).
Proof.
  induction g as [|g [IHs IHe]]; [by split; intros; exfalso|]. pose proof (canonical_starts g) as Hst. split.
  - intros line s ts Hc. by eapply runs_statement.
  - intros q e ts Hq Hc Ho. by eapply runs_sub_expression.
Qed.

Lemma block_runs g b : block_ (canonical_statement g) (canonical_expression g) b -> eol = closed_on b ->
  runs eol (parse_block (Parser.parse_statement g) (Parser.parse_sub_expression g)) (print_block str b) b [].
Proof.
  intros Hb He. destruct (guarded_runs g) as [IHs IHe]. pose proof (canonical_starts g) as Hst.
  rewrite <- (app_nil_r (print_block str b)). by eapply runs_block.
Qed.

Lemma parse_print_chunk s (c : Chunk S) : ready s -> canonical_chunk c ->
  yields s (print_chunk str c) (closed_on (block c)) -> eol = closed_on (block c) -> parse_chunk s = Ok (inl c).
Proof.
  intros Hs Hc Hy He. destruct c as [b]. cbn [block] in *.
  assert (Hrun : runs eol chunk (print_block str b) (mk_Chunk b) []).
  { eapply run_bind; [apply block_runs; [exact Hc|exact He]|]. eapply run_bind; [apply runs_look_ahead|apply run_ret]. }
  destruct (Hrun (mk_parser s [])) as (p' & E & _).
  { split; [done|]. exists (print_block str b). rewrite He. by split. }
  unfold parse_chunk. by rewrite E.
Qed.
End Chunk.
End RoundTrip.
