(* ===== verification/ParserTheorems.v ===== *)
(** * What the parser does

    It answers every text, it gives only canonical trees, it reads a printed tree back, and
    its operators bind as the manual of Lua says. *)

From S2P Require Import Prelude Float64 Constant Operators Lexer LexerFacts LexerTheorems Parser ParserFacts ParserPrint ParserRoundTrip.
Import Ast.

(** ** A list of tokens as a lexer

    After the tokens, the line where the text ends *)
Module ListSource.
Definition list_source {S} : TokenSource S := {|
  source := list (LineAnnotated (Token S)) * Z;
  skip_whitespace := fun s => Ok (inl tt, s);
  read_token := fun s => match s with
    | (t :: ts, line) => Ok (inl (Some (inner t)), (ts, line))
    | ([], line) => Ok (inl None, ([], line))
    end;
  source_line := fun s => match s with (t :: _, _) => line_number t | ([], line) => line end;
  remaining := fun s => length (fst s)
|}.
#[local] Existing Instance list_source.

Program Definition list_source_laws {S} : TokenSourceLaws S := {| ready := fun _ => True |}.
Next Obligation. intros S s _. by eexists _, s. Qed.
Next Obligation. intros S [[|t ts] line] _; cbn; eexists _, _; split_and!; [reflexivity|done|cbn; lia|reflexivity|done|cbn; lia]. Qed.
Next Obligation. by intros S [[|t ts] line] s' [= <-]. Qed.

Lemma list_yields {S} ts line : Runs.yields (S:=S) ((ts, line) : source) ts line.
Proof.
  induction ts as [|[l t] ts IH]; [by eapply (Runs.yields_end _ _ (([], line) : @source S list_source))|].
  set (s := (annotate l t :: ts, line) : @source S list_source). exact (Runs.yields_token s s (ts, line) t ts line eq_refl eq_refl IH).
Qed.
End ListSource.

(** ** The precedence of the manual *)
Module Manual.
(** Section 3.4.8 of the Lua manual, from low to high *)
Definition level (op : BinaryOperator.t) : nat :=
  match op with
  | BinaryOperator.Or => 1
  | BinaryOperator.And => 2
  | BinaryOperator.LessThan | BinaryOperator.GreaterThan | BinaryOperator.LessEqual | BinaryOperator.GreaterEqual
  | BinaryOperator.NotEqual | BinaryOperator.Equal => 3
  | BinaryOperator.BitOr => 4
  | BinaryOperator.BitXor => 5
  | BinaryOperator.BitAnd => 6
  | BinaryOperator.ShiftLeft | BinaryOperator.ShiftRight => 7
  | BinaryOperator.Concat => 8
  | BinaryOperator.Add | BinaryOperator.Sub => 9
  | BinaryOperator.Mul | BinaryOperator.Div | BinaryOperator.IDiv | BinaryOperator.Mod => 10
  | BinaryOperator.Pow => 12
  end.
Definition unary_level : nat := 11.
Definition right_associative (op : BinaryOperator.t) : bool :=
  match op with BinaryOperator.Concat | BinaryOperator.Pow => true | _ => false end.

(** [a op1 b op2 c] is [(a op1 b) op2 c]. *)
Definition groups_left (op1 op2 : BinaryOperator.t) : bool :=
  (level op2 <? level op1)%nat || ((level op1 =? level op2)%nat && negb (right_associative op1)).
End Manual.

(** ** Theorems *)
Module ParserTheorems.
Import Parser ParserFacts Canonical Print Runs RoundTrip Manual.

(** *** Every text *)
Section Texts.
Context `{BuildProfile} `{StringInterner}.

(** C31: the parser answers every text of less than 2^31 bytes with a tree or an error: no
    loop of the lexer or the parser runs on, no recursion exceeds the guards, and none of the
    indices and additions on the way panics. *)
Theorem parser_total (text : list Z) (interner : InternerState) :
  Z.of_nat (length text) < 2 ^ 31 -> exists r, parse_source text interner = Ok r.
Proof.
  intros Hlen. destruct (parse_chunk_ok (Lexer.new text interner : @source IString lexer_source)) as (r & E & _); [|by exists r].
  by apply new_wf.
Qed.
End Texts.

Section Trees.
Context {S : Type} `{AsBytes S} `{TokenSource S} `{!TokenSourceLaws S}.

(** C30: the tree of a chunk is canonical: the operators in the tail of an expression bind
    tighter than the operator it is an operand of and no tighter than the one before them,
    lists that need an item have one, the attributes of a local are one of the three, a
    function statement has the line it starts on, and statements and operands nest less than
    [MAX_RECURSION] deep. *)
Theorem parsed_canonical (s : source) (c : Chunk S) :
  ready s -> parse_chunk s = Ok (inl c) -> canonical_chunk c.
Proof. intros Hs E. destruct (parse_chunk_ok s Hs) as (r & E2 & Hr). rewrite E2 in E. by injection E as ->. Qed.

Section Strings.
Context (str : list Z -> S) (Hstr : forall b, as_bytes (str b) = b).

(** C29: the parser reads back what the printer prints: from a lexer that gives the tokens of
    a canonical chunk it makes that chunk, with the line of each statement, function and end
    of a block. *)
Theorem print_parse (s : source) (c : Chunk S) :
  ready s -> canonical_chunk c -> yields s (print_chunk str c) (closed_on (block c)) -> parse_chunk s = Ok (inl c).
Proof. intros Hs Hc Hy. by eapply (parse_print_chunk str Hstr (closed_on (block c))). Qed.

(** *** Operators *)
Definition name_ (n : S) : SimpleExpression S := ESuffixed (mk_SuffixedExpression (PName n) []).
Definition operand (n : S) : Expression S := mk_Expression (Simple (name_ n)) [].
(** [return e], and nothing else *)
Definition returns (line : Z) (e : Expression S) (eol : Z) : Chunk S := mk_Chunk (mk_Block [] (Some (annotate line [e])) eol).

Lemma parse_returns s line e eol : ready s -> canonical_expression guards MIN_PRIORITY e ->
  yields s (annotate line Return :: print_expression str e) eol -> parse_chunk s = Ok (inl (returns line e eol)).
Proof.
  intros Hs Hc Hy. apply (parse_print_chunk str Hstr eol); [done| |exact Hy|done].
  split; [constructor|]. constructor; [exact Hc|constructor].
Qed.

Ltac canonical := cbn; split_and?; first [exact I | apply List.Forall_nil | unfold MIN_PRIORITY, MAX_PRIORITY, UNARY_PRIORITY; lia].
Lemma canonical_more k g :
  (forall line (st : Statement S), canonical_statement g line st -> canonical_statement (k + g) line st) /\
  (forall q (e : Expression S), canonical_expression g q e -> canonical_expression (k + g) q e).
Proof. induction k as [|k [IHs IHe]]; [done|]. split; intros; apply canonical_mono; auto. Qed.
Lemma block_more k g (b : Block S) : block_ (canonical_statement g) (canonical_expression g) b -> block_ (canonical_statement (k + g)) (canonical_expression (k + g)) b.
Proof. apply block_mono; apply canonical_more. Qed.
Lemma canonical_of_small (e : Expression S) : canonical_expression 4 MIN_PRIORITY e -> canonical_expression guards MIN_PRIORITY e.
Proof. exact (proj2 (canonical_more 195 4) MIN_PRIORITY e). Qed.

(** Two operators between three names group as the manual says, from its own table of
    levels and with [..] and [^] right associative; a unary operator takes what binds tighter
    than its level and nothing else. *)
Theorem operator_precedence :
  (forall (s : source) line op1 op2 a b c eol, ready s ->
    yields s [annotate line Return; plain (Name a); plain (binary_token op1); plain (Name b); plain (binary_token op2); plain (Name c)] eol ->
    parse_chunk s = Ok (inl (returns line (mk_Expression (Simple (name_ a))
      (if groups_left op1 op2 then [(op1, operand b); (op2, operand c)]
       else [(op1, mk_Expression (Simple (name_ b)) [(op2, operand c)])])) eol))) /\
  (forall (s : source) line op1 op2 a b eol, ready s ->
    yields s [annotate line Return; plain (unary_token op1); plain (Name a); plain (binary_token op2); plain (Name b)] eol ->
    parse_chunk s = Ok (inl (returns line
      (if (level op2 <=? unary_level)%nat then mk_Expression (Unary op1 (operand a)) [(op2, operand b)]
       else mk_Expression (Unary op1 (mk_Expression (Simple (name_ a)) [(op2, operand b)])) []) eol))).
Proof.
  split.
  - intros s line op1 op2 a b c eol Hs Hy. apply parse_returns; [done|apply canonical_of_small; destruct op1, op2; canonical|].
    rewrite print_simple_expression. destruct (groups_left op1 op2); exact Hy.
  - intros s line op1 op2 a b eol Hs Hy. apply parse_returns; [done|apply canonical_of_small; destruct op2; canonical|].
    destruct (level op2 <=? unary_level)%nat; exact Hy.
Qed.

(** *** Nesting *)








End Strings.
End Trees.

(** The tokens of a canonical chunk are those of no other: chunks that print the same and
    end on the same line are equal, so no text has two canonical trees. *)
Theorem print_unambiguous {S} `{AsBytes S} (str : list Z -> S) (c c' : Chunk S) :
  (forall b, as_bytes (str b) = b) -> canonical_chunk c -> canonical_chunk c' ->
  print_chunk str c = print_chunk str c' -> closed_on (block c) = closed_on (block c') -> c = c'.
Proof.
  intros Hstr Hc Hc' E El. pose (src := @ListSource.list_source S). pose (laws := @ListSource.list_source_laws S).
  set (s := (print_chunk str c, closed_on (block c)) : @source S src).
  assert (parse_chunk s = Ok (inl c)) as E1 by (eapply (parse_print_chunk str Hstr); [done|done|apply ListSource.list_yields|done]).
  assert (parse_chunk s = Ok (inl c')) as E2.
  { eapply (parse_print_chunk str Hstr); [done|done| |done]. unfold s. rewrite E, El. apply ListSource.list_yields. }
  rewrite E1 in E2. by injection E2.
Qed.

(** ** Witnesses *)
Section Witnesses.
#[local] Instance checked_build : BuildProfile := {| overflow_checks := true |}.
#[local] Existing Instances ListSource.list_source ListSource.list_source_laws.
Abbreviation text := (list Z).
(** A lexer with these tokens and this last line *)
Definition given (ts : list (LineAnnotated (Token text))) (line : Z) : @source text ListSource.list_source := (ts, line).
Definition x : text := bs# "x".
Definition y : text := bs# "y".
Definition sample : Chunk text :=
  mk_Chunk (mk_Block
    [annotate 0 (SLocalStatement [(x, CONST)] [operand y]);
     annotate 0 (SAssignment [TField (mk_SuffixedExpression (PName x) []) (FNamed y)]
       [mk_Expression (Simple (ETableConstructor [Array (operand y); Record_ (KIndexed (operand x)) (mk_Expression (Simple (EInteger 1)) [])])) []])]
    (Some (annotate 1 [mk_Expression (Simple (ESuffixed (mk_SuffixedExpression (PName x) [Call (CFunction [operand y])])))
       [(BinaryOperator.Concat, operand y)]])) 1).

Example sample_parsed :
  parse_source (H0:=BasicInterner) (bs# "local x <const> = y; x.y = {y, [x] = 1}
return x(y) .. y") no_strings = Ok (inl sample).
Proof. vm_compute. reflexivity. Qed.

Lemma sample_canonical : canonical_chunk sample.
Proof.
  refine (block_more 195 4 _ _). cbn. repeat (constructor; cbn); try done; try (unfold MIN_PRIORITY, MAX_PRIORITY; lia); set_solver.
Qed.

Lemma parser_total_witness : exists r, parse_source (bs# "return 1") no_strings = Ok r.
Proof. apply (parser_total (bs# "return 1") no_strings). reflexivity. Defined.

Lemma parsed_canonical_witness : canonical_chunk (returns 0 (operand x) 0).
Proof.
  apply (parsed_canonical (given [annotate 0 Return; annotate 0 (Name x)] 0)); [exact I|]. vm_compute. reflexivity.
Defined.

Lemma print_parse_witness : parse_chunk (given (print_chunk (fun b => b) sample) 1) = Ok (inl sample).
Proof. apply (print_parse (fun b => b)); [reflexivity|exact I|exact sample_canonical|apply ListSource.list_yields]. Defined.

Lemma operator_precedence_witness :
  parse_chunk (given [annotate 0 Return; Print.plain (Name x); Print.plain Concat; Print.plain (Name y); Print.plain Pow; Print.plain (Name x)] 0) =
  Ok (inl (returns 0 (mk_Expression (Simple (name_ x)) [(BinaryOperator.Concat, mk_Expression (Simple (name_ y)) [(BinaryOperator.Pow, operand x)])]) 0)).
Proof.
  apply (proj1 (operator_precedence (S:=text) (fun b => b) (fun b => eq_refl)) (given _ 0) 0 BinaryOperator.Concat BinaryOperator.Pow x y x 0); [exact I|].
  apply ListSource.list_yields.
Defined.


Lemma print_unambiguous_witness : sample = sample.
Proof. apply (print_unambiguous (fun b => b)); [reflexivity|exact sample_canonical..|reflexivity|reflexivity]. Defined.
End Witnesses.
End ParserTheorems.
