(* ===== verification/Value.v ===== *)
(** * Values: [value.rs]

    The one data type of Lua variables.  Objects on the garbage-collected heap are
    their addresses; a string stands for its bytes through [AsBytes]. *)

From S2P Require Import Prelude Float64 StringUtils Constant.

(** The address behind a [Gc] pointer: [==] on tables, functions, threads and
    user data is [Gc::ptr_eq]. *)
Abbreviation obj := positive (only parsing).

(** [function.rs]: a Lua closure or a host callback *)
Inductive Function_ : Type :=
  | Closure (p : obj)
  | Callback (p : obj).

#[export] Instance Function_eq_dec : EqDecision Function_.
Proof. solve_decision. Defined.

Module Value.
Inductive t (S : Type) : Type :=
  | Nil
  | Boolean (b : bool)
  | Integer (i : Z)
  | Number (n : f64)
  | String (s : S)
  | Table (p : obj)
  | Function (f : Function_)
  | Thread (p : obj)
  | UserData (p : obj).
Arguments Nil {S}. Arguments Boolean {S} b. Arguments Integer {S} i.
Arguments Number {S} n. Arguments String {S} s. Arguments Table {S} p.
Arguments Function {S} f. Arguments Thread {S} p. Arguments UserData {S} p.

Section Value.
Context {S : Type} `{AsBytes S}.
Implicit Types v : t S.

Definition type_name v : String.string :=
  match v with
  | Nil => "nil"
  | Boolean _ => "boolean"
  | Integer _ | Number _ => "number"
  | String _ => "string"
  | Table _ => "table"
  | Function _ => "function"
  | Thread _ => "thread"
  | UserData _ => "userdata"
  end.

Definition is_nil v : bool := match v with Nil => true | _ => false end.

Definition to_bool v : bool :=
  match v with Nil => false | Boolean false => false | _ => true end.

Definition to_constant v : option (Constant.t S) :=
  match v with
  | Nil => Some Constant.Nil
  | Boolean b => Some (Constant.Boolean b)
  | Integer i => Some (Constant.Integer i)
  | Number n => Some (Constant.Number n)
  | String s => Some (Constant.String s)
  | _ => None
  end.

Definition from_constant (c : Constant.t S) : t S :=
  match c with
  | Constant.Nil => Nil
  | Constant.Boolean b => Boolean b
  | Constant.Integer i => Integer i
  | Constant.Number n => Number n
  | Constant.String s => String s
  end.

Definition to_numeric v : option (t S) :=
  from_constant <$> (c ← to_constant v; Constant.to_numeric c).
Definition to_number v : option f64 := c ← to_constant v; Constant.to_number c.
Definition to_integer v : option Z := c ← to_constant v; Constant.to_integer c.

Definition is_implicit_string v : bool :=
  match v with Integer _ | Number _ | String _ => true | _ => false end.

Lemma to_from_constant c : to_constant (from_constant c) = Some c.
Proof. by destruct c. Qed.

Lemma from_to_constant v c : to_constant v = Some c -> from_constant c = v.
Proof. destruct v; by intros [= <-]. Qed.
End Value.
End Value.
