(* ===== verification/Limits.v ===== *)
(** * Budgets: [fuel.rs] and [memory.rs]

    The fuel counter that bounds a run, and the hard memory quota. *)

From S2P Require Import Prelude.

Module Fuel.
Record t : Type := mk { fuel : Z; interrupted : bool }.

Definition with_ (fuel : Z) : t := mk fuel false.
Definition empty : t := with_ 0.

Definition refill (amount max_fuel : Z) (f : t) : t :=
  mk (Z.min (saturating i32 (fuel f + amount)) max_fuel) false.

Definition adjust (amount : Z) (f : t) : t :=
  mk (saturating i32 (fuel f + amount)) (interrupted f).

(** [fuel.saturating_neg()] *)
Definition consume (amount : Z) (f : t) : t := adjust (saturating i32 (- amount)) f.

Definition remaining (f : t) : Z := fuel f.
Definition set_remaining (amount : Z) (f : t) : t := mk amount (interrupted f).
Definition interrupt (f : t) : t := mk (fuel f) true.
Definition is_interrupted (f : t) : bool := interrupted f.
Definition clear_interrupt (f : t) : t := mk (fuel f) false.
Definition should_continue (f : t) : bool := (0 <? fuel f) && negb (interrupted f).

(** [i32::try_from(len).unwrap_or(i32::MAX).saturating_mul(per_item)] *)
Definition count_fuel (per_item len : Z) : Z :=
  saturating i32 (default (int_max i32) (checked i32 len) * per_item).

Definition wf (f : t) : Prop := in_int i32 (fuel f).

(** Running a loop that pays before each round: the rounds it makes while
    [should_continue] holds *)
Fixpoint rounds (n : nat) (cost : Z) (f : t) : nat :=
  match n with
  | O => O
  | S n => if should_continue f then S (rounds n cost (consume cost f)) else O
  end.

Lemma consume_wf amount f : wf (consume amount f).
Proof. apply saturating_in_int, _. Qed.

Lemma consume_positive amount f : wf f -> 0 < amount -> in_int i32 amount ->
  fuel (consume amount f) = Z.max (int_min i32) (fuel f - amount).
Proof.
  unfold wf, consume, adjust. cbn [fuel]. intros Hf Ha Hi.
  rewrite (saturating_small i32 (- amount)) by (revert Hi; int_lia).
  unfold saturating. revert Hf Hi. int_lia.
Qed.

(** Fuel bounds work: every operation keeps the counter in [i32] with no wrap,
    a loop that consumes a positive cost per round while [should_continue] makes
    at most [remaining / cost + 1] rounds, and an interrupt stops it at once
    whatever the fuel, until it is refilled or cleared. *)
Theorem fuel_bounds_rounds (f : t) (cost : Z) (n : nat) : wf f -> 0 < cost ->
  in_int i32 cost ->
  Z.of_nat (rounds n cost f) <= Z.max 0 (remaining f) / cost + 1 /\
  rounds n cost (interrupt f) = O /\
  (forall amount max_fuel, in_int i32 amount -> in_int i32 max_fuel ->
     wf (refill amount max_fuel f) /\ wf (adjust amount f) /\
     remaining (refill amount max_fuel f) <= max_fuel).
Proof.
  intros Hwf Hc Hci. unfold remaining. split; [|split].
  - revert f Hwf. induction n as [|n IH]; intros f Hwf; cbn [rounds].
    { assert (0 <= Z.max 0 (fuel f) / cost) by (apply Z.div_pos; lia). lia. }
    unfold should_continue. destruct (Z.ltb_spec 0 (fuel f)) as [Hf|Hf]; cbn [andb].
    2:{ assert (0 <= Z.max 0 (fuel f) / cost) by (apply Z.div_pos; lia). lia. }
    destruct (negb (interrupted f)).
    2:{ assert (0 <= Z.max 0 (fuel f) / cost) by (apply Z.div_pos; lia). lia. }
    specialize (IH (consume cost f) (consume_wf _ _)).
    rewrite consume_positive in IH by done. rewrite Nat2Z.inj_succ, (Z.max_r 0 (fuel f)) by lia.
    destruct (Z.lt_ge_cases (fuel f) cost) as [Hlt|Hge].
    + rewrite Z.max_l in IH by (revert Hwf; unfold wf; int_lia).
      rewrite Z.div_0_l in IH by lia. rewrite Z.div_small by lia.
      destruct n; cbn [rounds] in *; [lia|].
      unfold should_continue. rewrite consume_positive by done.
      by rewrite (proj2 (Z.ltb_ge _ _)) by (revert Hwf; unfold wf; int_lia).
    + rewrite Z.max_r in IH by (revert Hwf; unfold wf; int_lia).
      replace (fuel f) with (Z.max (int_min i32) (fuel f - cost) + 1 * cost) at 1
        by (revert Hwf; unfold wf; int_lia).
      rewrite Z.div_add, Z.max_r by (revert Hwf; unfold wf; int_lia).
      rewrite Z.max_r in IH by (revert Hwf; unfold wf; int_lia). lia.
  - destruct n; cbn [rounds]; [done|]. unfold should_continue. cbn.
    by rewrite andb_false_r.
  - intros amount m Ha Hm. unfold wf, refill, adjust. cbn [fuel].
    pose proof (saturating_in_int i32 (fuel f + amount)) as Hs.
    split; [revert Hs Hm; int_lia|]. split; [done|lia].
Qed.

Lemma fuel_bounds_rounds_witness :
  Z.of_nat (rounds 100 30 (with_ 100)) <= Z.max 0 100 / 30 + 1 /\
  rounds 100 30 (with_ 100) = 4%nat.
Proof.
  split; [|reflexivity].
  apply (fuel_bounds_rounds (with_ 100) 30 100); [unfold wf; cbn; int_lia|lia|int_lia].
Defined.
End Fuel.

Module Memory.
  (** The error payload *)
Record OutOfMemory : Type := mk_OutOfMemory { requested : Z; limit : Z; current : Z }.

Record MemoryLimit : Type := mk {
  max_bytes : option Z;
  current_bytes : Z;
  exceeded : bool;
  quota_yielded : bool
}.

Definition new (max_bytes : option Z) : MemoryLimit := mk max_bytes 0 false false.

Definition set_max_bytes (max : option Z) (l : MemoryLimit) : MemoryLimit :=
  mk max (current_bytes l) (exceeded l) (quota_yielded l).
Definition clear_exceeded (l : MemoryLimit) : MemoryLimit :=
  mk (max_bytes l) (current_bytes l) false (quota_yielded l).
Definition set_quota_yielded (l : MemoryLimit) : MemoryLimit :=
  mk (max_bytes l) (current_bytes l) (exceeded l) true.
Definition clear_quota_yielded (l : MemoryLimit) : MemoryLimit :=
  mk (max_bytes l) (current_bytes l) (exceeded l) false.

Definition set_current (c : Z) (l : MemoryLimit) : MemoryLimit :=
  mk (max_bytes l) c (exceeded l) (quota_yielded l).
Definition set_exceeded (l : MemoryLimit) : MemoryLimit :=
  mk (max_bytes l) (current_bytes l) true (quota_yielded l).

Definition observe (current : Z) (l : MemoryLimit) : bool * MemoryLimit :=
  let l := set_current current l in
  let over := match max_bytes l with Some max => max <? current | None => false end in
  (over, if over then set_exceeded l else l).

Definition check (current additional : Z) (l : MemoryLimit)
  : (unit + OutOfMemory) * MemoryLimit :=
  let l := set_current current l in
  match max_bytes l with
  | None => (inl tt, l)
  | Some max =>
      match checked usize (current + additional) with
      | None => (inr (mk_OutOfMemory (int_max usize) max current), set_exceeded l)
      | Some requested =>
          if max <? requested then
            (inr (mk_OutOfMemory requested max current), set_exceeded l)
          else (inl tt, l)
      end
  end.

Definition check_current (current : Z) (l : MemoryLimit)
  : (unit + OutOfMemory) * MemoryLimit :=
  let l := set_current current l in
  match max_bytes l with
  | None => (inl tt, l)
  | Some max =>
      if max <? current then (inr (mk_OutOfMemory current max current), set_exceeded l)
      else (inl tt, l)
  end.

(** What the quota allows: no ceiling, or a total below it *)
Definition within (l : MemoryLimit) (total : Z) : Prop :=
  match max_bytes l with Some max => total <= max | None => True end.

(** A request is granted exactly when the total stays within the ceiling, with
    no wrap-around to slip through: the sum is the mathematical one.  A refusal
    reports the ceiling and the total asked for (clamped to [usize]) and sets the
    sticky flag; the observed total is recorded either way, and nothing else
    changes. *)
Theorem check_exact (l : MemoryLimit) (now additional : Z) :
  in_int usize now -> in_int usize additional ->
  (forall m, max_bytes l = Some m -> in_int usize m) ->
  let '(res, l') := check now additional l in
  (res = inl tt <-> within l (now + additional)) /\
  current_bytes l' = now /\ max_bytes l' = max_bytes l /\
  quota_yielded l' = quota_yielded l /\
  match res with
  | inl _ => exceeded l' = exceeded l
  | inr e =>
      exceeded l' = true /\ max_bytes l = Some (limit e) /\ current e = now /\
      limit e < now + additional /\ requested e = Z.min (now + additional) (int_max usize)
  end.
Proof.
  intros Hc Ha Hm. unfold check, within. cbn [max_bytes set_current].
  destruct (max_bytes l) as [m|] eqn:E; [|by split_and!].
  specialize (Hm m eq_refl). destruct (checked usize (now + additional)) as [t|] eqn:Ht.
  - apply checked_Some in Ht as [Hin ->]. destruct (Z.ltb_spec m (now + additional)).
    + split; [split; [done|lia]|]. do 3 (split; [done|]). cbn. do 4 (split; [done|]).
      revert Hin. int_lia.
    + split; [split; [done|done]|]. by split_and!.
  - apply checked_None in Ht. split; [split; [done|]|].
    { intros. exfalso. apply Ht. revert Hm Hc Ha. int_lia. }
    do 3 (split; [done|]). cbn. do 3 (split; [done|]).
    revert Ht Hm Hc Ha. int_lia.
Qed.

Lemma check_exact_witness :
  fst (check 90 20 (new (Some 100))) = inr (mk_OutOfMemory 110 100 90) /\
  (fst (check 90 20 (new (Some 100))) = inl tt <-> within (new (Some 100)) 110).
Proof.
  split; [reflexivity|].
  exact (proj1 (check_exact (new (Some 100)) 90 20 ltac:(int_lia) ltac:(int_lia)
    (fun m (E : Some 100 = Some m) =>
       eq_ind 100 (in_int usize) ltac:(int_lia) m (f_equal (default 0) E)))).
Defined.
End Memory.
