(* ===== verification/RawTable.v ===== *)
(** * The raw table: [table/raw.rs]

    A Lua table is an array and a hash map.  The hash map, the hash function and the
    allocator of vectors are other crates: [Hashbrown.Ops] and [Platform] are the
    interface the code uses, [Hashbrown.Laws] and [PlatformLaws] what it relies on.
    Lengths and capacities are naturals; counts of elements never get near [usize::MAX],
    and sums that the source saturates or that come from the program are in [Z]. *)

From S2P Require Import Prelude Float64 StringUtils Constant Value Limits.

(** ** The interface of hashbrown's raw table

    A table is a row of buckets, each full or not.  Looking up a hash visits the full
    buckets whose control byte matches it, in an order [probe] that depends on the
    control bytes alone, and takes the first that satisfies the caller's test.  What is
    in a bucket may be overwritten in place, which leaves the control bytes alone. *)
Module Hashbrown.
Class Ops (E : Type) : Type := {
  table : Type;
  with_capacity : nat -> table;
  buckets : table -> nat;
  bucket : table -> nat -> option E;
  probe : table -> Z -> list nat;
  capacity : table -> nat;
  write : table -> nat -> E -> table;
  try_insert_no_grow : table -> Z -> E -> option table;
  retain : (E -> bool) -> table -> table;
  try_reserve : table -> nat -> (E -> Z) -> option table
}.
Arguments table E {Ops}.

Section Ops.
Context {E : Type} `{Ops E}.

(** The elements in the order of iteration *)
Definition iter (t : table E) : list E := omap (bucket t) (seq 0 (buckets t)).
Definition len (t : table E) : nat := length (iter t).
Definition is_empty (t : table E) : bool := (len t =? 0)%nat.

(** The first of some buckets that satisfies a test, with what it holds *)
Fixpoint find_in (t : table E) (cs : list nat) (eq : E -> bool) : option (nat * E) :=
  match cs with
  | [] => None
  | i :: cs =>
      match bucket t i with
      | Some e => if eq e then Some (i, e) else find_in t cs eq
      | None => find_in t cs eq
      end
  end.
Definition find (t : table E) (hash : Z) (eq : E -> bool) : option (nat * E) :=
  find_in t (probe t hash) eq.

(** What the code relies on.  An insertion fills a bucket on the path of its hash; the
    other hashes may find that bucket too, and their paths may go on further than before.
    A removal takes the bucket out of the paths.  Growing re-inserts all elements by their
    hashes. *)
Class Laws : Prop := {
  bucket_lt t i e : bucket t i = Some e -> (i < buckets t)%nat;
  len_capacity t : (len t <= capacity t)%nat;
  with_capacity_spec n : iter (with_capacity n) = [] /\ (n <= capacity (with_capacity n))%nat;
  write_spec t i e : is_Some (bucket t i) ->
    buckets (write t i e) = buckets t /\ capacity (write t i e) = capacity t /\
    (forall h, probe (write t i e) h = probe t h) /\
    (forall j, bucket (write t i e) j = if decide (j = i) then Some e else bucket t j);
  insert_spec t h e t' : try_insert_no_grow t h e = Some t' ->
    buckets t' = buckets t /\
    exists i, bucket t i = None /\
      (forall j, bucket t' j = if decide (j = i) then Some e else bucket t j) /\
      (exists l1 l2, probe t' h = l1 ++ i :: l2 /\ exists l3, probe t h = l1 ++ l3) /\
      (forall h', exists l1 l2, probe t' h' = l1 ++ l2 /\ filter (fun j => j <> i) l1 = probe t h');
  insert_fits t h e : (len t < capacity t)%nat -> is_Some (try_insert_no_grow t h e);
  retain_spec p t :
    buckets (retain p t) = buckets t /\
    (forall i, bucket (retain p t) i =
       match bucket t i with Some e => if p e then Some e else None | None => None end) /\
    (forall h, probe (retain p t) h = filter (fun i => is_Some (bucket (retain p t) i)) (probe t h));
  try_reserve_spec t n hasher t' : try_reserve t n hasher = Some t' ->
    (len t + n <= capacity t')%nat /\ iter t' ≡ₚ iter t /\
    (t' = t \/ forall i e, bucket t' i = Some e -> i ∈ probe t' (hasher e))
}.
End Ops.
Arguments Laws E {_}.
End Hashbrown.

Module InvalidTableKey.
Inductive t : Type := IsNaN | IsNil.
End InvalidTableKey.

Module TableError.
Inductive t : Type :=
  | Key (e : InvalidTableKey.t)
  | OutOfMemory (e : Memory.OutOfMemory).

Definition is_out_of_memory (e : t) : bool :=
  match e with OutOfMemory _ => true | _ => false end.
End TableError.

(** [Gc::as_ptr] of a string: where it is, not what it holds *)
Class StringAddress (S : Type) : Type := string_ptr : S -> obj.

(** ** Keys *)

Definition f64_to_i64 (n : f64) : option Z :=
  let i := F64.to_i64 n in
  if F64.eqb (F64.from_int i) n then Some i else None.

Definition canonical_float_bytes (f : f64) : outcome Z :=
  _ ← rust_assert (negb (F64.is_nan f));
  Ok (if F64.eqb f F64.ZERO then F64.ZERO else f).

Definition highest_bit (i : Z) : Z := if i =? 0 then 0 else Z.log2 i + 1.

Module CanonicalKey.
Inductive t (S : Type) : Type :=
  | Boolean (b : bool)
  | Integer (i : Z)
  | Number (n : Z)
  | String (s : S)
  | Table (p : obj)
  | Closure (p : obj)
  | Callback (p : obj)
  | Thread (p : obj)
  | UserData (p : obj).
Arguments Boolean {S} b. Arguments Integer {S} i. Arguments Number {S} n.
Arguments String {S} s. Arguments Table {S} p. Arguments Closure {S} p.
Arguments Callback {S} p. Arguments Thread {S} p. Arguments UserData {S} p.

Section Key.
Context {S : Type} `{AsBytes S} `{StringAddress S}.

Definition new (v : Value.t S) : outcome (t S + InvalidTableKey.t) :=
  match v with
  | Value.Nil => Ok (inr InvalidTableKey.IsNil)
  | Value.Number n =>
      if F64.is_nan n then Ok (inr InvalidTableKey.IsNaN)
      else
        match f64_to_i64 n with
        | Some i => Ok (inl (Integer i))
        | None => b ← canonical_float_bytes n; Ok (inl (Number b))
        end
  | Value.Boolean b => Ok (inl (Boolean b))
  | Value.Integer i => Ok (inl (Integer i))
  | Value.String s => Ok (inl (String s))
  | Value.Table t => Ok (inl (Table t))
  | Value.Function (Value.Closure c) => Ok (inl (Closure c))
  | Value.Function (Value.Callback c) => Ok (inl (Callback c))
  | Value.Thread t => Ok (inl (Thread t))
  | Value.UserData u => Ok (inl (UserData u))
  end.

Definition to_value (k : t S) : Value.t S :=
  match k with
  | Boolean b => Value.Boolean b
  | Integer i => Value.Integer i
  | Number n => Value.Number n
  | String s => Value.String s
  | Table t => Value.Table t
  | Closure c => Value.Function (Value.Closure c)
  | Callback c => Value.Function (Value.Callback c)
  | Thread t => Value.Thread t
  | UserData u => Value.UserData u
  end.

(** The derived [==]: strings compare by content, other objects by address *)
Definition eq (a b : t S) : bool :=
  match a, b with
  | Boolean a, Boolean b => eqb a b
  | Integer a, Integer b => a =? b
  | Number a, Number b => a =? b
  | String a, String b => bool_decide (as_bytes a = as_bytes b)
  | Table a, Table b | Closure a, Closure b | Callback a, Callback b
  | Thread a, Thread b | UserData a, UserData b => bool_decide (a = b)
  | _, _ => false
  end.

(** The address of a key that is an object *)
Definition ptr (k : t S) : option obj :=
  match k with
  | Boolean _ | Integer _ | Number _ => None
  | String s => Some (string_ptr s)
  | Table p | Closure p | Callback p | Thread p | UserData p => Some p
  end.
End Key.
End CanonicalKey.

Module Key.
Inductive t (S : Type) : Type :=
  | Live (k : CanonicalKey.t S)
  | Dead (p : obj).
Arguments Live {S} k. Arguments Dead {S} p.

Section Key.
Context {S : Type} `{AsBytes S} `{StringAddress S}.

Definition kill (k : t S) : option (t S) :=
  match k with
  | Live v => Dead <$> CanonicalKey.ptr v
  | Dead _ => Some k
  end.

Definition live_key (k : t S) : option (CanonicalKey.t S) :=
  match k with Live v => Some v | Dead _ => None end.

Definition is_dead_key (k : t S) : bool :=
  match live_key k with None => true | Some _ => false end.

Definition eq (k : t S) (key : CanonicalKey.t S) : bool :=
  match k with
  | Live a => CanonicalKey.eq a key
  | Dead a => bool_decide (CanonicalKey.ptr key = Some a)
  end.
End Key.
End Key.

Module NextValue.
Inductive t (S : Type) : Type :=
  | Found (key value : Value.t S)
  | Last
  | NotFound.
Arguments Found {S} key value. Arguments Last {S}. Arguments NotFound {S}.
End NextValue.

(** ** The machine around a table: the map, the hash function [hash_builder.hash_one],
    [Vec::try_reserve] (the new capacity for a length, a capacity and the elements to
    come) and the sizes in memory *)
Class Platform (S : Type) : Type := {
  platform_map : Hashbrown.Ops (Key.t S * Value.t S);
  hash_one : CanonicalKey.t S -> Z;
  vec_try_reserve : nat -> nat -> Z -> option nat;
  size_of_value : Z;
  size_of_entry : Z
}.
#[export] Existing Instance platform_map.

Class PlatformLaws (S : Type) `{AsBytes S} `{Platform S} : Prop := {
  map_laws : Hashbrown.Laws (Key.t S * Value.t S);
  hash_eq a b : CanonicalKey.eq a b = true -> hash_one a = hash_one b;
  vec_try_reserve_spec len cap n cap' : (len <= cap)%nat -> 0 <= n ->
    vec_try_reserve len cap n = Some cap' ->
    Z.of_nat len + n <= Z.of_nat cap' /\ (cap <= cap')%nat /\
    Z.of_nat cap' * size_of_value <= int_max i64;
  sizes_positive : 1 < size_of_value /\ 0 < size_of_entry
}.
#[export] Existing Instance map_laws.

(** ** [RawTable] *)
Module RawTable.
Section RawTable.
Context `{BuildProfile} {S : Type} `{AsBytes S} `{StringAddress S} `{Platform S}.
Abbreviation value := (Value.t S).
Abbreviation key := (CanonicalKey.t S).
Abbreviation entry := (Key.t S * Value.t S)%type.

Record t : Type := mk {
  array : list value;
  array_capacity : nat;
  map : Hashbrown.table entry
}.

Definition set_array (a : list value) (r : t) : t := mk a (array_capacity r) (map r).
Definition set_map (m : Hashbrown.table entry) (r : t) : t := mk (array r) (array_capacity r) m.

(** The state of a fallible operation: the table as it was left and the memory limit *)
Abbreviation result A := (outcome ((A + TableError.t) * (t * Memory.MemoryLimit))).

Definition len (a : list value) : Z := Z.of_nat (length a).

(** [Vec::resize] of an empty vector reserves; it aborts when it cannot. *)
Definition with_capacity (array_capacity map_capacity : nat) : outcome t :=
  match vec_try_reserve 0 0 (Z.of_nat array_capacity) with
  | Some cap =>
      Ok (mk (resize array_capacity Value.Nil []) cap (Hashbrown.with_capacity map_capacity))
  | None => Panic
  end.
Definition new : outcome t := with_capacity 0 0.

Definition array_growth_bytes (additional : Z) : Z := saturating usize (additional * size_of_value).
Definition map_entry_bytes : Z := size_of_entry + 1.
Definition with_capacity_bytes (array_capacity map_capacity : Z) : Z :=
  saturating usize (saturating usize (array_capacity * size_of_value) +
    saturating usize (map_capacity * map_entry_bytes)).

(** The error of an allocation that failed *)
Definition allocation_failed (allocated requested : Z) (l : Memory.MemoryLimit) : TableError.t :=
  TableError.OutOfMemory
    (Memory.mk_OutOfMemory (saturating usize requested)
       (default (int_max usize) (Memory.max_bytes l)) allocated).

(** [allocated] is what the arena has allocated: [ctx.metrics().total_allocation()]. *)
Definition try_reserve_array (allocated additional : Z) (r : t) (l : Memory.MemoryLimit)
  : (unit + TableError.t) * (t * Memory.MemoryLimit) :=
  let len := len (array r) in
  let cap := Z.of_nat (array_capacity r) in
  let free := cap - len in
  let needed := Z.max 0 (additional - free) in
  if needed =? 0 then (inl tt, (r, l))
  else
    let projected := Z.max (saturating usize (cap * 2)) (saturating usize (len + additional)) in
    let '(checked, l) :=
      Memory.check allocated (array_growth_bytes (Z.max 0 (projected - cap))) l in
    match checked with
    | inr e => (inr (TableError.OutOfMemory e), (r, l))
    | inl _ =>
        match vec_try_reserve (length (array r)) (array_capacity r) additional with
        | Some cap => (inl tt, (mk (array r) cap (map r), l))
        | None => (inr (allocation_failed allocated (len + additional) l), (r, l))
        end
    end.

Definition entry_nil (e : entry) : bool := Value.is_nil (snd e).

(** [key.live_key().expect("all keys must be live when table is grown")] *)
Definition all_live (m : Hashbrown.table entry) : bool :=
  forallb (fun e => negb (Key.is_dead_key (fst e))) (Hashbrown.iter m).
Definition entry_hash (e : entry) : Z :=
  match fst e with Key.Live k => hash_one k | Key.Dead _ => 0 end.

Definition try_reserve_map (allocated : Z) (additional : nat) (r : t) (l : Memory.MemoryLimit)
  : result unit :=
  if (additional <=? Hashbrown.capacity (map r) - Hashbrown.len (map r))%nat
  then Ok (inl tt, (r, l))
  else
    let raw_needed := saturating usize (Z.of_nat additional * map_entry_bytes) in
    let '(checked, l) := Memory.check allocated raw_needed l in
    match checked with
    | inr e => Ok (inr (TableError.OutOfMemory e), (r, l))
    | inl _ =>
        let m := Hashbrown.retain (fun e => negb (entry_nil e)) (map r) in
        _ ← rust_assert (all_live m);
        match Hashbrown.try_reserve m additional entry_hash with
        | Some m => Ok (inl tt, (set_map m r, l))
        | None =>
            Ok (inr (allocation_failed allocated (Z.of_nat (Hashbrown.len m) + Z.of_nat additional) l),
                (set_map m r, l))
        end
    end.

Definition to_array_index (key : value) : option Z :=
  i ← match key with
      | Value.Integer i => Some i
      | Value.Number f => f64_to_i64 f
      | _ => None
      end;
  if 0 <? i then Some (i - 1) else None.

(** [Some] of an index within the array *)
Definition in_array (a : list value) (index : option Z) : option nat :=
  match index with
  | Some index => if index <? len a then Some (Z.to_nat index) else None
  | None => None
  end.

(** The entry of a key: [raw_entry().from_hash(hash, |k| k.eq(key))] *)
Definition find_key (m : Hashbrown.table entry) (k : key) : option (nat * entry) :=
  Hashbrown.find m (hash_one k) (fun e => Key.eq (fst e) k).

Definition map_get (m : Hashbrown.table entry) (k : key) : value :=
  match find_key m k with Some (_, (_, v)) => v | None => Value.Nil end.

Definition get (r : t) (key : value) : outcome value :=
  match in_array (array r) (to_array_index key) with
  | Some index => Ok (default Value.Nil (array r !! index))
  | None =>
      k ← CanonicalKey.new key;
      Ok (match k with inl k => map_get (map r) k | inr _ => Value.Nil end)
  end.

(** ** Growth *)

(** The closure of [retain] when the array has grown to [a]: the entry is moved or kept *)
Fixpoint move_entries (a : list value) (es : list entry) : outcome (list value) :=
  match es with
  | [] => Ok a
  | (k, v) :: es =>
      if Value.is_nil v then move_entries a es
      else
        match Key.live_key k with
        | None => Panic
        | Some key =>
            match in_array a (to_array_index (CanonicalKey.to_value key)) with
            | Some i => move_entries (<[i := v]> a) es
            | None => move_entries a es
            end
        end
  end.

Definition stays (a : list value) (e : entry) : bool :=
  negb (entry_nil e) &&
  match Key.live_key (fst e) with
  | Some key =>
      match in_array a (to_array_index (CanonicalKey.to_value key)) with
      | Some _ => false
      | None => true
      end
  | None => true
  end.

(** What both variants of [grow_array] do once the array is reserved *)
Definition take_array_keys (r : t) : outcome t :=
  let a := resize (array_capacity r) Value.Nil (array r) in
  a' ← move_entries a (Hashbrown.iter (map r));
  Ok (mk a' (array_capacity r) (Hashbrown.retain (stays a) (map r))).

Definition grow_array (additional : Z) (r : t) : outcome t :=
  match vec_try_reserve (length (array r)) (array_capacity r) additional with
  | Some cap => take_array_keys (mk (array r) cap (map r))
  | None => Panic
  end.

Definition try_grow_array (allocated additional : Z) (r : t) (l : Memory.MemoryLimit)
  : result unit :=
  let '(reserved, (r, l)) := try_reserve_array allocated additional r l in
  match reserved with
  | inr e => Ok (inr e, (r, l))
  | inl _ => r ← take_array_keys r; Ok (inl tt, (r, l))
  end.

Definition try_reserve_array_through (allocated end_index : Z) (r : t) (l : Memory.MemoryLimit)
  : result unit :=
  if end_index <? len (array r) then Ok (inl tt, (r, l))
  else
    let additional := Z.max 0 (saturating usize (end_index + 1) - len (array r)) in
    try_grow_array allocated additional r l.

Definition reserve_map (additional : nat) (r : t) : outcome t :=
  if (Hashbrown.capacity (map r) - Hashbrown.len (map r) <? additional)%nat then
    let m := Hashbrown.retain (fun e => negb (entry_nil e)) (map r) in
    _ ← rust_assert (all_live m);
    match Hashbrown.try_reserve m additional entry_hash with
    | Some m => Ok (set_map m r)
    | None => Panic
    end
  else Ok r.

(** ** The size of the array *)

Definition USIZE_BITS : nat := 64.

(** One more candidate at [index]: its count and the total *)
Definition count_index (index : Z) (counted : list Z * Z) : outcome (list Z * Z) :=
  let '(counts, total) := counted in
  match counts !! Z.to_nat (highest_bit index) with
  | Some c => Ok (<[Z.to_nat (highest_bit index) := c + 1]> counts, total + 1)
  | None => Panic
  end.

Fixpoint count_array (i : Z) (a : list value) (counted : list Z * Z) : outcome (list Z * Z) :=
  match a with
  | [] => Ok counted
  | e :: a =>
      counted ← (if Value.is_nil e then Ok counted else count_index i counted);
      count_array (i + 1) a counted
  end.

Fixpoint count_map (es : list entry) (counted : list Z * Z) : outcome (list Z * Z) :=
  match es with
  | [] => Ok counted
  | (k, v) :: es =>
      counted ←
        (if Value.is_nil v then Ok counted
         else
           match Key.live_key k with
           | None => Panic
           | Some key =>
               match to_array_index (CanonicalKey.to_value key) with
               | Some i => count_index i counted
               | None => Ok counted
               end
           end);
      count_map es counted
  end.

Fixpoint optimal_loop (i : Z) (counts : list Z) (array_total total optimal_size : Z) : Z :=
  match counts with
  | [] => optimal_size
  | c :: counts =>
      if array_total <=? Z.shiftl 1 i / 2 then optimal_size
      else if 0 <? c then
        let total := total + c in
        let optimal_size := if Z.shiftl 1 i / 2 <? total then Z.shiftl 1 i else optimal_size in
        optimal_loop (i + 1) counts array_total total optimal_size
      else optimal_loop (i + 1) counts array_total total optimal_size
  end.

(** The best size of the array once [index_key] is an element *)
Definition optimal_size (index_key : Z) (r : t) : outcome Z :=
  counted ← count_array 0 (array r) (replicate USIZE_BITS 0, 0);
  counted ← count_map (Hashbrown.iter (map r)) counted;
  '(array_counts, array_total) ← count_index index_key counted;
  Ok (optimal_loop 0 array_counts array_total 0 0).

(** ** [set] *)

(** A new element when neither part has room for it *)
Definition set_grow (allocated : Z) (index_key : option Z) (table_key : key) (v : value)
    (r : t) (l : Memory.MemoryLimit) : result value :=
  to_array ←
    match index_key with
    | Some index_key =>
        optimal_size ← optimal_size index_key r;
        Ok (if index_key <? optimal_size then Some (index_key, optimal_size) else None)
    | None => Ok None
    end;
  match to_array with
  | Some (index_key, optimal_size) =>
      '(grown, (r, l)) ← try_grow_array allocated (optimal_size - len (array r)) r l;
      match grown with
      | inr e => Ok (inr e, (r, l))
      | inl _ =>
          match in_array (array r) (Some index_key) with
          | Some i =>
              _ ← rust_assert (Value.is_nil (default Value.Nil (array r !! i)));
              Ok (inl Value.Nil, (set_array (<[i := v]> (array r)) r, l))
          | None => Panic
          end
      end
  | None =>
      '(reserved, (r, l)) ← try_reserve_map allocated (Nat.max (Hashbrown.len (map r)) 1) r l;
      match reserved with
      | inr e => Ok (inr e, (r, l))
      | inl _ =>
          match Hashbrown.try_insert_no_grow (map r) (hash_one table_key) (Key.Live table_key, v) with
          | Some m => Ok (inl Value.Nil, (set_map m r, l))
          | None => Panic
          end
      end
  end.

Definition set_in_map (allocated : Z) (index_key : option Z) (table_key : key) (v : value)
    (r : t) (l : Memory.MemoryLimit) : result value :=
  if Value.is_nil v then
    match find_key (map r) table_key with
    | Some (bucket, (k, old)) =>
        let k := default k (Key.kill k) in
        Ok (inl old, (set_map (Hashbrown.write (map r) bucket (k, Value.Nil)) r, l))
    | None => Ok (inl Value.Nil, (r, l))
    end
  else
    match find_key (map r) table_key with
    | Some (bucket, (k, old)) =>
        let k := if Key.is_dead_key k then Key.Live table_key else k in
        Ok (inl old, (set_map (Hashbrown.write (map r) bucket (k, v)) r, l))
    | None =>
        match Hashbrown.try_insert_no_grow (map r) (hash_one table_key) (Key.Live table_key, v) with
        | Some m => Ok (inl Value.Nil, (set_map m r, l))
        | None => set_grow allocated index_key table_key v r l
        end
    end.

(** [set] gives the value the key had. *)
Definition set (allocated : Z) (key v : value) (r : t) (l : Memory.MemoryLimit) : result value :=
  let index_key := to_array_index key in
  match in_array (array r) index_key with
  | Some index =>
      Ok (inl (default Value.Nil (array r !! index)), (set_array (<[index := v]> (array r)) r, l))
  | None =>
      table_key ← CanonicalKey.new key;
      match table_key with
      | inr e => Ok (inr (TableError.Key e), (r, l))
      | inl table_key => set_in_map allocated index_key table_key v r l
      end
  end.

(** ** [length] *)

(** [None] is a loop that has not ended after [fuel] rounds, or the panic of [unwrap]. *)
Fixpoint binary_search (fuel : nat) (min max : Z) (is_nil : Z -> bool) : option Z :=
  if 1 <? max - min then
    match fuel with
    | O => None
    | Datatypes.S fuel =>
        let mid := min + (max - min) / 2 in
        if is_nil mid then binary_search fuel min mid is_nil
        else binary_search fuel mid max is_nil
    end
  else Some min.

Definition map_nil (r : t) (i : Z) : bool :=
  match find_key (map r) (CanonicalKey.Integer i) with
  | Some (_, (_, v)) => Value.is_nil v
  | None => true
  end.

(** [inl] leaves [length] with that border, [inr] goes on with a [max] that is nil. *)
Fixpoint double (fuel : nat) (r : t) (max : Z) : option (Z + Z) :=
  if map_nil r max then Some (inr max)
  else
    match fuel with
    | O => None
    | Datatypes.S fuel =>
        if max =? int_max i64 then Some (inl (int_max i64))
        else
          match checked i64 (max * 2) with
          | Some double_max => double fuel r double_max
          | None => double fuel r (int_max i64)
          end
    end.

Definition array_nil (r : t) (i : Z) : bool :=
  Value.is_nil (default Value.Nil (array r !! Z.to_nat (i - 1))).

Definition LENGTH_FUEL : nat := 64.

Definition length (r : t) : option Z :=
  let array_len := len (array r) in
  if (0 <? array_len) && array_nil r array_len then
    binary_search LENGTH_FUEL 0 array_len (array_nil r)
  else if Hashbrown.is_empty (map r) then Some array_len
  else
    match checked i64 (array_len + 1) with
    | None => None
    | Some max =>
        match double LENGTH_FUEL r max with
        | None => None
        | Some (inl border) => Some border
        | Some (inr max) => binary_search LENGTH_FUEL array_len max (map_nil r)
        end
    end.

(** ** [next] *)

Fixpoint scan_array (i : nat) (a : list value) : option (value * value) :=
  match a with
  | [] => None
  | v :: a =>
      if Value.is_nil v then scan_array (i + 1) a
      else Some (Value.Integer (Z.of_nat (i + 1)), v)
  end.

Fixpoint scan_map (m : Hashbrown.table entry) (bucket_indices : list nat)
  : outcome (NextValue.t S) :=
  match bucket_indices with
  | [] => Ok NextValue.Last
  | i :: bucket_indices =>
      match Hashbrown.bucket m i with
      | None => scan_map m bucket_indices
      | Some (k, v) =>
          if Value.is_nil v then scan_map m bucket_indices
          else
            match Key.live_key k with
            | Some k => Ok (NextValue.Found (CanonicalKey.to_value k) v)
            | None => Panic
            end
      end
  end.

Definition start_index (r : t) (key : value) : option nat :=
  match to_array_index key with
  | Some index_key =>
      match in_array (array r) (Some index_key) with
      | Some index => Some (index + 1)%nat
      | None => None
      end
  | None => if Value.is_nil key then Some O else None
  end.

Definition next (r : t) (key : value) : outcome (NextValue.t S) :=
  let m := map r in
  match start_index r key with
  | Some start_index =>
      match scan_array start_index (drop start_index (array r)) with
      | Some (k, v) => Ok (NextValue.Found k v)
      | None => scan_map m (seq 0 (Hashbrown.buckets m))
      end
  | None =>
      table_key ← CanonicalKey.new key;
      match table_key with
      | inr _ => Ok NextValue.NotFound
      | inl table_key =>
          match find_key m table_key with
          | Some (bucket_index, _) =>
              scan_map m (seq (bucket_index + 1) (Hashbrown.buckets m - (bucket_index + 1)))
          | None => Ok NextValue.NotFound
          end
      end
  end.
End RawTable.
End RawTable.
