(* ===== verification/MetaOps.v ===== *)
(** * Metaoperators: [meta_ops.rs]

    Operators on values of any type: on tables and user data by metamethod, on
    everything else through [Constant].  A metamethod is not run here but returned
    as the function to call, since the VM is stackless. *)

From S2P Require Import Prelude Float64 StringUtils Constant Value Limits RawTable.

Module MetaMethod.
Inductive t : Type :=
  | Len | Index | NewIndex | Call | Pairs | ToString | Eq
  | Add | Sub | Mul | Div | Mod | Pow | Unm | IDiv
  | BAnd | BOr | BXor | BNot | Shl | Shr | Concat | Lt | Le.

Definition name (m : t) : String.string :=
  match m with
  | Len => "__len"
  | Index => "__index"
  | NewIndex => "__newindex"
  | Call => "__call"
  | Pairs => "__pairs"
  | ToString => "__tostring"
  | Eq => "__eq"
  | Add => "__add"
  | Sub => "__sub"
  | Mul => "__mul"
  | Div => "__div"
  | Mod => "__mod"
  | Pow => "__pow"
  | Unm => "__unm"
  | IDiv => "__idiv"
  | BAnd => "__band"
  | BOr => "__bor"
  | BXor => "__bxor"
  | BNot => "__bnot"
  | Shl => "__shl"
  | Shr => "__shr"
  | Concat => "__concat"
  | Lt => "__lt"
  | Le => "__le"
  end.
End MetaMethod.
Abbreviation MetaMethod := MetaMethod.t.

Module MetaOps.
Section MetaOps.
Context `{BuildProfile} `{FloatLib} {S : Type} `{AsBytes S}.
Abbreviation value := (Value.t S).

(** What the operators read of the heap: the metatable of a table or user data,
    and the raw field of a table under a metamethod's name. *)
Record Heap : Type := {
  metatable : obj -> option obj;
  get_field : obj -> String.string -> value
}.

(** A function to call: an existing one, or a callback made on the spot: for an object with
    [__call], the one that pushes [v] in front and calls [f]; those of [index] and
    [new_index], which go on with the object found; and the one that concatenates its
    arguments one by one. *)
Inductive Callee : Type :=
  | Existing (f : Function_)
  | CallWith (v f : value)
  | CallIndex
  | CallNewIndex
  | CallConcat.

Record MetaCall : Type := mk_MetaCall { function : Callee; args : list value }.

Inductive MetaResult : Type :=
  | ResultValue (v : value)
  | ResultCall (c : MetaCall).

Inductive MetaCallError : Type := mk_MetaCallError (type_name : String.string).

Inductive MetaOperatorError : Type :=
  | CallError (m : MetaMethod) (e : MetaCallError)
  | UnaryError (m : MetaMethod) (type_name : String.string)
  | BinaryError (m : MetaMethod) (lhs rhs : String.string)
  | IndexKeyError (e : InvalidTableKey.t)
  | OutOfMemory (e : Memory.OutOfMemory)
  | ConcatOverflow.

Abbreviation result A := (A + MetaOperatorError)%type.

Definition get_metatable (h : Heap) (val : value) : option obj :=
  match val with
  | Value.Table t => metatable h t
  | Value.UserData u => metatable h u
  | _ => None
  end.

Definition get_metamethod (h : Heap) (val : value) (method : MetaMethod) : option value :=
  match get_metatable h val with
  | Some mt =>
      let v := get_field h mt (MetaMethod.name method) in
      if Value.is_nil v then None else Some v
  | None => None
  end.

Definition call (h : Heap) (v : value) : Callee + MetaCallError :=
  match v with
  | Value.Function f => inl (Existing f)
  | _ =>
      match get_metatable h v with
      | None => inr (mk_MetaCallError (Value.type_name v))
      | Some metatable =>
          match get_field h metatable (MetaMethod.name MetaMethod.Call) with
          | (Value.Function _ | Value.Table _ | Value.UserData _) as f =>
              inl (CallWith v f)
          | f => inr (mk_MetaCallError (Value.type_name f))
          end
      end
  end.

(** [MetaResult::Call(MetaCall { function: call(ctx, m).map_err(..)?, args })] *)
Definition meta_call (h : Heap) (method : MetaMethod) (m : value) (args : list value)
  : result MetaResult :=
  match call h m with
  | inl function => inl (ResultCall (mk_MetaCall function args))
  | inr e => inr (CallError method e)
  end.

Definition is_object (v : value) : bool :=
  match v with Value.Table _ | Value.UserData _ => true | _ => false end.

Definition binary_error (method : MetaMethod) (lhs rhs : value) : result MetaResult :=
  inr (BinaryError method (Value.type_name lhs) (Value.type_name rhs)).

Definition meta_metaop (h : Heap) (lhs rhs : value) (method : MetaMethod)
    (const_op : value -> value -> outcome (option value)) : outcome (result MetaResult) :=
  match is_object lhs, is_object rhs with
  | true, true =>
      Ok (match get_metamethod h lhs method with
          | Some m => meta_call h method m [lhs; rhs]
          | None =>
              match get_metamethod h rhs method with
              | Some m => meta_call h method m [lhs; rhs]
              | None => binary_error method lhs rhs
              end
          end)
  | true, false =>
      Ok (match get_metamethod h lhs method with
          | Some m => meta_call h method m [lhs; rhs]
          | None => binary_error method lhs rhs
          end)
  | false, true =>
      Ok (match get_metamethod h rhs method with
          | Some m => meta_call h method m [lhs; rhs]
          | None => binary_error method lhs rhs
          end)
  | false, false =>
      r ← const_op lhs rhs;
      Ok (match r with
          | Some v => inl (ResultValue v)
          | None => binary_error method lhs rhs
          end)
  end.

Definition meta_unary_metaop (h : Heap) (arg : value) (method : MetaMethod)
    (const_op : value -> option value) : result MetaResult :=
  if is_object arg then
    match get_metamethod h arg method with
    | Some m => meta_call h method m [arg]
    | None => inr (UnaryError method (Value.type_name arg))
    end
  else
    match const_op arg with
    | Some v => inl (ResultValue v)
    | None => inr (UnaryError method (Value.type_name arg))
    end.

(** [|a, b| Some(a.to_constant()?.op(&b.to_constant()?)?.into())] *)
Definition const_outcome (op : Constant.t S -> Constant.t S -> outcome (option (Constant.t S)))
    (a b : value) : outcome (option value) :=
  match Value.to_constant a, Value.to_constant b with
  | Some a, Some b =>
      op a b ≫= fun r : option (Constant.t S) => Ok (Value.from_constant <$> r)
  | _, _ => Ok None
  end.
Definition const_binop (op : Constant.t S -> Constant.t S -> option (Constant.t S))
  : value -> value -> outcome (option value) := const_outcome (fun a b => Ok (op a b)).
Definition const_compare (op : Constant.t S -> Constant.t S -> option bool)
  : value -> value -> outcome (option value) :=
  const_binop (fun a b => Constant.Boolean <$> op a b).
Definition const_unop (op : Constant.t S -> option (Constant.t S)) (a : value)
  : option value := c ← Value.to_constant a; Value.from_constant <$> op c.

Definition add (h : Heap) (lhs rhs : value) :=
  meta_metaop h lhs rhs MetaMethod.Add (const_binop Constant.add).
Definition subtract (h : Heap) (lhs rhs : value) :=
  meta_metaop h lhs rhs MetaMethod.Sub (const_binop Constant.subtract).
Definition multiply (h : Heap) (lhs rhs : value) :=
  meta_metaop h lhs rhs MetaMethod.Mul (const_binop Constant.multiply).
Definition float_divide (h : Heap) (lhs rhs : value) :=
  meta_metaop h lhs rhs MetaMethod.Div (const_binop Constant.float_divide).
Definition floor_divide (h : Heap) (lhs rhs : value) :=
  meta_metaop h lhs rhs MetaMethod.IDiv (const_outcome Constant.floor_divide).
Definition modulo (h : Heap) (lhs rhs : value) :=
  meta_metaop h lhs rhs MetaMethod.Mod (const_outcome Constant.modulo).
Definition exponentiate (h : Heap) (lhs rhs : value) :=
  meta_metaop h lhs rhs MetaMethod.Pow (const_binop Constant.exponentiate).
Definition negate (h : Heap) (lhs : value) :=
  meta_unary_metaop h lhs MetaMethod.Unm (const_unop Constant.negate).
Definition bitwise_not (h : Heap) (lhs : value) :=
  meta_unary_metaop h lhs MetaMethod.BNot (const_unop Constant.bitwise_not).
Definition bitwise_and (h : Heap) (lhs rhs : value) :=
  meta_metaop h lhs rhs MetaMethod.BAnd (const_binop Constant.bitwise_and).
Definition bitwise_or (h : Heap) (lhs rhs : value) :=
  meta_metaop h lhs rhs MetaMethod.BOr (const_binop Constant.bitwise_or).
Definition bitwise_xor (h : Heap) (lhs rhs : value) :=
  meta_metaop h lhs rhs MetaMethod.BXor (const_binop Constant.bitwise_xor).
Definition shift_left (h : Heap) (lhs rhs : value) :=
  meta_metaop h lhs rhs MetaMethod.Shl (const_binop Constant.shift_left).
Definition shift_right (h : Heap) (lhs rhs : value) :=
  meta_metaop h lhs rhs MetaMethod.Shr (const_binop Constant.shift_right).
Definition less_than (h : Heap) (lhs rhs : value) :=
  meta_metaop h lhs rhs MetaMethod.Lt (const_compare Constant.less_than).
Definition less_equal (h : Heap) (lhs rhs : value) :=
  meta_metaop h lhs rhs MetaMethod.Le (const_compare Constant.less_equal).

(** The [__eq] dispatch shared by tables and user data *)
Definition equal_by_method (h : Heap) (lhs rhs : value) : result MetaResult :=
  match get_metamethod h lhs MetaMethod.Eq with
  | Some m => meta_call h MetaMethod.Eq m [lhs; rhs]
  | None =>
      match get_metamethod h rhs MetaMethod.Eq with
      | Some m => meta_call h MetaMethod.Eq m [lhs; rhs]
      | None => inl (ResultValue (Value.Boolean false))
      end
  end.

Definition equal (h : Heap) (lhs rhs : value) : result MetaResult :=
  let bool (b : bool) : result MetaResult := inl (ResultValue (Value.Boolean b)) in
  match lhs, rhs with
  | Value.Nil, Value.Nil => bool true
  | Value.Nil, _ => bool false
  | Value.Boolean a, Value.Boolean b => bool (eqb a b)
  | Value.Boolean _, _ => bool false
  | Value.Integer a, Value.Integer b => bool (a =? b)
  | Value.Integer a, Value.Number b => bool (F64.eqb (F64.from_int a) b)
  | Value.Integer _, _ => bool false
  | Value.Number a, Value.Number b => bool (F64.eqb a b)
  | Value.Number a, Value.Integer b => bool (F64.eqb (F64.from_int b) a)
  | Value.Number _, _ => bool false
  | Value.String a, Value.String b => bool (bool_decide (as_bytes a = as_bytes b))
  | Value.String _, _ => bool false
  | Value.Function a, Value.Function b => bool (bool_decide (a = b))
  | Value.Function _, _ => bool false
  | Value.Thread a, Value.Thread b => bool (bool_decide (a = b))
  | Value.Thread _, _ => bool false
  | Value.Table a, Value.Table b =>
      if bool_decide (a = b) then bool true else equal_by_method h lhs rhs
  | Value.Table _, _ => bool false
  | Value.UserData a, Value.UserData b =>
      if bool_decide (a = b) then bool true else equal_by_method h lhs rhs
  | Value.UserData _, _ => bool false
  end.
End MetaOps.

Arguments Heap : clear implicits.
Arguments MetaResult : clear implicits.
Arguments MetaCall : clear implicits.
Arguments Callee : clear implicits.
End MetaOps.
