(* ===== verification/Vm.v ===== *)
(** * Arithmetic and comparison instructions: [thread/vm.rs]

    The arms of [run_vm] for the unary, arithmetic, bitwise and comparison
    instructions: operand fetch, the inline path for common operand types, the
    metaoperator otherwise, and the write or the skip that follows.  Each arm runs
    with the program counter already past the instruction. *)

From S2P Require Import Prelude Float64 StringUtils Constant ConstantFacts Value MetaOps Opcode Operators Limits.

(** What to do with the result of a metamethod call *)
Module MetaReturn.
Inductive t : Type :=
  | None
  | Register (r : RegisterIndex)
  | SkipIf (b : bool).
End MetaReturn.

(** [thread/mod.rs] *)
Module VMError.
Inductive t : Type :=
  | ExpectedVariableStack (variable : bool)
  | BadSetList (table start : String.string)
  | BadCall (e : MetaOps.MetaCallError)
  | OperatorError (e : MetaOps.MetaOperatorError)
  | OutOfMemory (e : Memory.OutOfMemory)
  | BadEnvUpValue
  | BadForLoop (index limit step : String.string)
  | BadForLoopPrep (init step : String.string).
End VMError.

Module Vm.
Section Vm.
Context `{BuildProfile} `{FloatLib} {S : Type} `{AsBytes S}.
Abbreviation value := (Value.t S).
Abbreviation heap := (MetaOps.Heap S).
Abbreviation meta_result := (MetaOps.MetaResult S + MetaOps.MetaOperatorError)%type.

(** The part of a Lua frame these instructions touch *)
Record registers : Type := mk_registers { stack_frame : list value; pc : Z }.

Inductive step : Type :=
  | Next (r : registers)
  | CallMeta (c : MetaOps.MetaCall S) (ret : MetaReturn.t) (r : registers)
  | Raise (e : MetaOps.MetaOperatorError).

(** Indexing a slice panics out of bounds. *)
Definition index {A} (l : list A) (i : Z) : outcome A :=
  match l !! Z.to_nat i with Some a => Ok a | None => Panic end.

Definition get_register (r : registers) (i : RegisterIndex) : outcome value :=
  index (stack_frame r) (register_index i).

Definition set_register (r : registers) (i : RegisterIndex) (v : value)
  : outcome registers :=
  _ ← get_register r i;
  Ok (mk_registers (<[Z.to_nat (register_index i) := v]> (stack_frame r)) (pc r)).

Definition get_rc (r : registers) (constants : list (Constant.t S)) (rc : RCIndex)
  : outcome value :=
  match rc with
  | RCIndex.Register i => get_register r i
  | RCIndex.Constant i => Value.from_constant <$> index constants (constant_index8 i)
  end.

(** ** The inline paths

    [None] hands the operands to the metaoperator. *)
Abbreviation inline := (value -> value -> outcome (option value)).

(** Both operands numbers: the float operation on their conversions *)
Definition float_path (f : f64 -> f64 -> f64) (left_ right_ : value) : option value :=
  match left_, right_ with
  | Value.Number a, Value.Number b => Some (Value.Number (f a b))
  | Value.Integer a, Value.Number b => Some (Value.Number (f (F64.from_int a) b))
  | Value.Number a, Value.Integer b => Some (Value.Number (f a (F64.from_int b)))
  | _, _ => None
  end.

Definition inline_add : inline := fun left_ right_ =>
  match left_, right_ with
  | Value.Integer a, Value.Integer b => Ok (Some (Value.Integer (wrap i64 (a + b))))
  | _, _ => Ok (float_path F64.add left_ right_)
  end.

Definition inline_sub : inline := fun left_ right_ =>
  match left_, right_ with
  | Value.Integer a, Value.Integer b => Ok (Some (Value.Integer (wrap i64 (a - b))))
  | _, _ => Ok (float_path F64.sub left_ right_)
  end.

Definition inline_mul : inline := fun left_ right_ =>
  match left_, right_ with
  | Value.Integer a, Value.Integer b => Ok (Some (Value.Integer (wrap i64 (a * b))))
  | _, _ => Ok (float_path F64.mul left_ right_)
  end.

Definition inline_div : inline := fun left_ right_ =>
  match left_, right_ with
  | Value.Integer a, Value.Integer b =>
      Ok (Some (Value.Number (F64.div (F64.from_int a) (F64.from_int b))))
  | _, _ => Ok (float_path F64.div left_ right_)
  end.

Definition opposite_signs (r b : Z) : bool :=
  ((0 <? r) && (b <? 0)) || ((r <? 0) && (0 <? b)).

Definition inline_idiv : inline := fun left_ right_ =>
  match left_, right_ with
  | Value.Integer a, Value.Integer b =>
      if negb (b =? 0) then
        d ← wrapping_div a b;
        r ← wrapping_rem a b;
        let d := if opposite_signs r b then wrap i64 (d - 1) else d in
        Ok (Some (Value.Integer d))
      else Ok None
  | _, _ => Ok (float_path (fun a b => F64.floor (F64.div a b)) left_ right_)
  end.

Definition inline_mod : inline := fun left_ right_ =>
  match left_, right_ with
  | Value.Integer a, Value.Integer b =>
      if negb (b =? 0) then
        if b =? -1 then Ok (Some (Value.Integer 0))
        else
          r ← i64_rem a b;
          let res := if opposite_signs r b then wrap i64 (r + b) else r in
          Ok (Some (Value.Integer res))
      else Ok None
  | _, _ => Ok (float_path (fun a b => F64.rem (F64.add (F64.rem a b) b) b) left_ right_)
  end.

Definition no_inline : inline := fun _ _ => Ok None.

Definition integer_path (f : Z -> Z -> option Z) : inline := fun left_ right_ =>
  match left_, right_ with
  | Value.Integer a, Value.Integer b => Ok (Value.Integer <$> f a b)
  | _, _ => Ok None
  end.

Definition inline_bitand : inline := integer_path (fun a b => Some (Z.land a b)).
Definition inline_bitor : inline := integer_path (fun a b => Some (Z.lor a b)).
Definition inline_bitxor : inline := integer_path (fun a b => Some (Z.lxor a b)).

(** [(b as u64).try_into().unwrap_or(u32::MAX)] *)
Definition shift_count (b : Z) : Z := default (int_max u32) (checked u32 (wrap u64 b)).

Definition inline_shl : inline := integer_path (fun a b =>
  if 0 <=? b then
    let shift := shift_count b in
    Some (if shift <? 64 then wrap i64 (Z.shiftl a shift) else 0)
  else None).
Definition inline_shr : inline := integer_path (fun a b =>
  if 0 <=? b then
    let shift := shift_count b in
    Some (wrap i64 (if shift <? 64 then Z.shiftr (wrap u64 a) shift else 0))
  else None).

Definition inline_minus (v : value) : option value :=
  match v with
  | Value.Integer a => Some (Value.Integer (wrap i64 (- a)))
  | Value.Number a => Some (Value.Number (F64.neg a))
  | _ => None
  end.

Definition inline_bitnot (v : value) : option value :=
  match v with
  | Value.Integer a => Some (Value.Integer (Z.lnot a))
  | _ => None
  end.

Definition inline_eq (left_ right_ : value) : option bool :=
  match left_, right_ with
  | Value.Integer a, Value.Integer b => Some (a =? b)
  | Value.Number a, Value.Number b => Some (F64.eqb a b)
  | Value.Integer a, Value.Number b => Some (F64.eqb (F64.from_int a) b)
  | Value.Number a, Value.Integer b => Some (F64.eqb (F64.from_int b) a)
  | Value.Boolean a, Value.Boolean b => Some (eqb a b)
  | Value.String a, Value.String b => Some (bool_decide (as_bytes a = as_bytes b))
  | Value.Nil, Value.Nil => Some true
  | Value.Nil, _ | _, Value.Nil => Some false
  | Value.Table a, Value.Table b => if bool_decide (a = b) then Some true else None
  | Value.UserData a, Value.UserData b => if bool_decide (a = b) then Some true else None
  | _, _ => None
  end.

Definition inline_less (left_ right_ : value) : option bool :=
  match left_, right_ with
  | Value.Integer a, Value.Integer b => Some (a <? b)
  | Value.Number a, Value.Number b => Some (F64.ltb a b)
  | Value.Integer a, Value.Number b => Some (F64.ltb (F64.from_int a) b)
  | Value.Number a, Value.Integer b => Some (F64.ltb a (F64.from_int b))
  | Value.String a, Value.String b => Some (bytes_ltb (as_bytes a) (as_bytes b))
  | _, _ => None
  end.

Definition inline_less_eq (left_ right_ : value) : option bool :=
  match left_, right_ with
  | Value.Integer a, Value.Integer b => Some (a <=? b)
  | Value.Number a, Value.Number b => Some (F64.leb a b)
  | Value.Integer a, Value.Number b => Some (F64.leb (F64.from_int a) b)
  | Value.Number a, Value.Integer b => Some (F64.leb a (F64.from_int b))
  | Value.String a, Value.String b => Some (bytes_leb (as_bytes a) (as_bytes b))
  | _, _ => None
  end.

(** ** The arms *)

(** Write a metaoperator's value, or call its function and have the frame write
    the result *)
Definition finish_register (dest : RegisterIndex) (regs : registers) (m : meta_result)
  : outcome step :=
  match m with
  | inl (MetaOps.ResultValue v) => Next <$> set_register regs dest v
  | inl (MetaOps.ResultCall c) => Ok (CallMeta c (MetaReturn.Register dest) regs)
  | inr e => Ok (Raise e)
  end.

Definition skip (regs : registers) : outcome registers :=
  mk_registers (stack_frame regs) <$> arith usize (pc regs + 1).

(** [if b == skip_if { *pc += 1 }] *)
Definition skip_if_equal (b skip_if : bool) (regs : registers) : outcome step :=
  if eqb b skip_if then Next <$> skip regs else Ok (Next regs).

Definition finish_skip (skip_if : bool) (regs : registers) (m : meta_result)
  : outcome step :=
  match m with
  | inl (MetaOps.ResultValue v) => skip_if_equal (Value.to_bool v) skip_if regs
  | inl (MetaOps.ResultCall c) => Ok (CallMeta c (MetaReturn.SkipIf skip_if) regs)
  | inr e => Ok (Raise e)
  end.

Definition exec_binary (path : inline) (meta : value -> value -> outcome meta_result)
    (constants : list (Constant.t S)) (dest : RegisterIndex) (left_ right_ : RCIndex)
    (regs : registers) : outcome step :=
  l ← get_rc regs constants left_;
  r ← get_rc regs constants right_;
  v ← path l r;
  match v with
  | Some v => Next <$> set_register regs dest v
  | None => meta l r ≫= finish_register dest regs
  end.

Definition exec_unary (path : value -> option value) (meta : value -> meta_result)
    (dest source : RegisterIndex) (regs : registers) : outcome step :=
  v ← get_register regs source;
  match path v with
  | Some v => Next <$> set_register regs dest v
  | None => finish_register dest regs (meta v)
  end.

Definition exec_compare (path : value -> value -> option bool)
    (meta : value -> value -> outcome meta_result) (constants : list (Constant.t S))
    (skip_if : bool) (left_ right_ : RCIndex) (regs : registers) : outcome step :=
  l ← get_rc regs constants left_;
  r ← get_rc regs constants right_;
  match path l r with
  | Some b => skip_if_equal b skip_if regs
  | None => meta l r ≫= finish_skip skip_if regs
  end.

(** The instructions of this file; [None] for the others *)
Definition exec (h : heap) (constants : list (Constant.t S)) (op : Operation.t)
    (regs : registers) : option (outcome step) :=
  match op with
  | Operation.Not dest source => Some (
      v ← get_register regs source;
      Next <$> set_register regs dest (Value.Boolean (negb (Value.to_bool v))))
  | Operation.Minus dest source =>
      Some (exec_unary inline_minus (MetaOps.negate h) dest source regs)
  | Operation.BitNot dest source =>
      Some (exec_unary inline_bitnot (MetaOps.bitwise_not h) dest source regs)
  | Operation.Add dest l r =>
      Some (exec_binary inline_add (MetaOps.add h) constants dest l r regs)
  | Operation.Sub dest l r =>
      Some (exec_binary inline_sub (MetaOps.subtract h) constants dest l r regs)
  | Operation.Mul dest l r =>
      Some (exec_binary inline_mul (MetaOps.multiply h) constants dest l r regs)
  | Operation.Div dest l r =>
      Some (exec_binary inline_div (MetaOps.float_divide h) constants dest l r regs)
  | Operation.IDiv dest l r =>
      Some (exec_binary inline_idiv (MetaOps.floor_divide h) constants dest l r regs)
  | Operation.Mod dest l r =>
      Some (exec_binary inline_mod (MetaOps.modulo h) constants dest l r regs)
  | Operation.Pow dest l r =>
      Some (exec_binary no_inline (MetaOps.exponentiate h) constants dest l r regs)
  | Operation.BitAnd dest l r =>
      Some (exec_binary inline_bitand (MetaOps.bitwise_and h) constants dest l r regs)
  | Operation.BitOr dest l r =>
      Some (exec_binary inline_bitor (MetaOps.bitwise_or h) constants dest l r regs)
  | Operation.BitXor dest l r =>
      Some (exec_binary inline_bitxor (MetaOps.bitwise_xor h) constants dest l r regs)
  | Operation.ShiftLeft dest l r =>
      Some (exec_binary inline_shl (MetaOps.shift_left h) constants dest l r regs)
  | Operation.ShiftRight dest l r =>
      Some (exec_binary inline_shr (MetaOps.shift_right h) constants dest l r regs)
  | Operation.Eq skip_if l r =>
      Some (exec_compare inline_eq (fun a b => Ok (MetaOps.equal h a b)) constants
              skip_if l r regs)
  | Operation.Less skip_if l r =>
      Some (exec_compare inline_less (MetaOps.less_than h) constants skip_if l r regs)
  | Operation.LessEq skip_if l r =>
      Some (exec_compare inline_less_eq (MetaOps.less_equal h) constants skip_if l r regs)
  | _ => None
  end.
End Vm.
End Vm.
