(* ===== verification/VmFacts.v ===== *)
(** * The inline paths of the VM are an optimisation

    The arithmetic and comparison arms agree with the metaoperators they bypass,
    never panic, and agree with the compiler's constant folding. *)

From S2P Require Import Prelude Float64 StringUtils Constant ConstantFacts Value MetaOps Opcode Operators Vm.
Import Vm.

#[local] Instance SimpleBinOp_eq_dec : EqDecision SimpleBinOp.t.
Proof. solve_decision. Defined.

#[local] Opaque F64.from_int F64.add F64.sub F64.mul F64.div F64.rem F64.floor F64.neg
  F64.eqb F64.ltb F64.leb.

Section facts.
Context `{BuildProfile} `{FloatLib} {S : Type} `{AsBytes S}.
Abbreviation value := (Value.t S).
Abbreviation heap := (MetaOps.Heap S).
Abbreviation constant := (Constant.t S).
Abbreviation registers := (@Vm.registers S).

(** ** The two tables behind [exec] *)

Definition inline_of (op : SimpleBinOp.t) : value -> value -> outcome (option value) :=
  match op with
  | SimpleBinOp.Add => inline_add | SimpleBinOp.Sub => inline_sub
  | SimpleBinOp.Mul => inline_mul | SimpleBinOp.Mod => inline_mod
  | SimpleBinOp.Pow => no_inline | SimpleBinOp.Div => inline_div
  | SimpleBinOp.IDiv => inline_idiv | SimpleBinOp.BitAnd => inline_bitand
  | SimpleBinOp.BitOr => inline_bitor | SimpleBinOp.BitXor => inline_bitxor
  | SimpleBinOp.ShiftLeft => inline_shl | SimpleBinOp.ShiftRight => inline_shr
  end.

Definition meta_of (op : SimpleBinOp.t) (h : heap) (l r : value) :=
  match op with
  | SimpleBinOp.Add => MetaOps.add h l r | SimpleBinOp.Sub => MetaOps.subtract h l r
  | SimpleBinOp.Mul => MetaOps.multiply h l r | SimpleBinOp.Mod => MetaOps.modulo h l r
  | SimpleBinOp.Pow => MetaOps.exponentiate h l r
  | SimpleBinOp.Div => MetaOps.float_divide h l r
  | SimpleBinOp.IDiv => MetaOps.floor_divide h l r
  | SimpleBinOp.BitAnd => MetaOps.bitwise_and h l r
  | SimpleBinOp.BitOr => MetaOps.bitwise_or h l r
  | SimpleBinOp.BitXor => MetaOps.bitwise_xor h l r
  | SimpleBinOp.ShiftLeft => MetaOps.shift_left h l r
  | SimpleBinOp.ShiftRight => MetaOps.shift_right h l r
  end.

Lemma exec_simple op h constants dest l r regs :
  exec h constants (Operators.simple_binop_operation op dest l r) regs =
    Some (exec_binary (inline_of op) (meta_of op h) constants dest l r regs).
Proof. by destruct op. Qed.

(** Integers are in the range of [i64]. *)
Definition wf_value (v : value) : Prop :=
  match v with Value.Integer i => in_int i64 i | _ => True end.
Definition wf_constant (c : constant) : Prop := wf_value (Value.from_constant c).

(** The operands on which [Constant::modulo] overflows are excluded. *)
Definition mod_safe (op : SimpleBinOp.t) (l r : value) : Prop :=
  match op, l, r with
  | SimpleBinOp.Mod, Value.Integer a, Value.Integer b =>
      in_int i64 (Z.rem a b + b) /\ ~ (a = int_min i64 /\ b = -1)
  | _, _, _ => True
  end.

(** A value the metaoperator computes without a call *)
Definition computes (m : outcome (MetaOps.MetaResult S + MetaOps.MetaOperatorError))
    (v : value) : Prop := m = Ok (inl (MetaOps.ResultValue v)).

Lemma meta_metaop_scalar h l r m f v : MetaOps.is_object l = false ->
  MetaOps.is_object r = false -> f l r = Ok (Some v) ->
  computes (MetaOps.meta_metaop h l r m f) v.
Proof. intros Hl Hr Hf. unfold computes, MetaOps.meta_metaop. by rewrite Hl, Hr, Hf. Qed.

Lemma shift_count_eq b : in_int i64 b -> 0 <= b -> shift_count b = default (int_max u32) (checked u32 b).
Proof. intros Hb H0b. unfold shift_count. by rewrite wrap_small by (apply _ || int_lia). Qed.

Lemma opposite_signs_wrap a b : b <> 0 -> in_int i64 a -> in_int i64 b ->
  (if opposite_signs (Z.rem a b) b then wrap i64 (Z.rem a b + b) else Z.rem a b) = a mod b.
Proof.
  intros Hb Ha Hb'. destruct (quot_rem_sign a b Hb) as (E & Hr & Hs).
  unfold opposite_signs. destruct (_ || _) eqn:Hop.
  - rewrite wrap_small; [|apply _|].
    + apply Z.mod_unique with (Z.quot a b - 1); [|lia].
      apply orb_true_iff in Hop as [Hop|Hop]; bool_to_prop; lia.
    + apply orb_true_iff in Hop as [Hop|Hop]; bool_to_prop; revert Hb'; int_lia.
  - apply Z.mod_unique with (Z.quot a b); [|lia].
    apply orb_false_iff in Hop as [H1' H2']. rewrite !andb_false_iff, !Z.ltb_ge in H1', H2'. lia.
Qed.

(** ** Soundness of the inline paths *)

Ltac scalar_case Hi :=
  cbn in Hi; try discriminate; injection Hi as <-; by apply meta_metaop_scalar.

Lemma inline_arith_sound op h l r v : op <> SimpleBinOp.Mod -> op <> SimpleBinOp.IDiv ->
  wf_value l -> wf_value r ->
  inline_of op l r = Ok (Some v) -> computes (meta_of op h l r) v.
Proof.
  intros Hm Hd Hl Hr Hi. destruct op; try done; cbn [inline_of meta_of] in *.
  1-7: destruct l, r; scalar_case Hi.
  all: destruct l, r; cbn in Hi; try discriminate; injection Hi as Hi; revert Hi;
    cbn -[default checked wrap Z.ltb int_max shift_count];
    destruct (Z.leb_spec 0 i0); cbn -[default checked wrap Z.ltb int_max shift_count]; [|done];
    rewrite shift_count_eq by done; intros [= <-]; unfold computes;
    by rewrite (proj2 (Z.ltb_ge i0 0)).
Qed.

(** What the two integer divisions compute inline *)
Lemma inline_idiv_eq a b : in_int i64 a -> in_int i64 b ->
  inline_idiv (Value.Integer a : value) (Value.Integer b) =
    Ok (if b =? 0 then None else Some (Value.Integer (wrap i64 (a / b)))).
Proof.
  intros Ha Hb. unfold inline_idiv. destruct (Z.eqb_spec b 0) as [|Hb0]; [done|].
  cbn [negb]. unfold wrapping_div, wrapping_rem. rewrite (proj2 (Z.eqb_neq b 0)) by done.
  rewrite !outcome_bind_Ok, (floor_div_correct a b Hb0). do 3 f_equal.
  unfold opposite_signs. destruct (_ || _); [|done].
  apply wrap_congr. rewrite Zminus_mod, wrap_mod, <- Zminus_mod by apply _. done.
Qed.

Lemma inline_mod_eq a b : in_int i64 a -> in_int i64 b ->
  inline_mod (Value.Integer a : value) (Value.Integer b) =
    Ok (if b =? 0 then None else Some (Value.Integer (a mod b))).
Proof.
  intros Ha Hb. unfold inline_mod. destruct (Z.eqb_spec b 0) as [|Hb0]; [done|]. cbn [negb].
  destruct (Z.eqb_spec b (-1)) as [->|Hb1].
  { do 3 f_equal. symmetry. change (-1) with (- (1)). apply Z.mod_opp_r_z; [done|apply Z.mod_1_r]. }
  unfold i64_rem. rewrite (proj2 (Z.eqb_neq b 0)), (proj2 (Z.eqb_neq b (-1))) by done.
  rewrite andb_false_r. cbn [orb]. rewrite outcome_bind_Ok. by rewrite opposite_signs_wrap.
Qed.

Lemma inline_sound op h l r v : wf_value l -> wf_value r -> mod_safe op l r ->
  inline_of op l r = Ok (Some v) -> computes (meta_of op h l r) v.
Proof.
  intros Hl Hr Hm Hi.
  destruct (decide (op = SimpleBinOp.Mod)) as [->|]; [|destruct (decide (op = SimpleBinOp.IDiv)) as [->|]].
  3:{ by apply inline_arith_sound. }
  - destruct l, r; try (scalar_case Hi). cbn [inline_of] in Hi.
    rewrite inline_mod_eq in Hi by done. apply meta_metaop_scalar; [done..|].
    unfold MetaOps.const_outcome. cbn [Value.to_constant]. rewrite modulo_eq by done.
    destruct (Z.eqb_spec i0 0); [done|]. destruct Hm as [Hin Hn].
    rewrite (proj2 (in_intb_spec _ _) Hin).
    destruct ((i =? int_min i64) && (i0 =? -1)) eqn:E; [|by injection Hi as <-].
    exfalso. apply Hn. apply andb_true_iff in E as [?%Z.eqb_eq ?%Z.eqb_eq]. done.
  - destruct l, r; try (scalar_case Hi). cbn [inline_of] in Hi.
    rewrite inline_idiv_eq in Hi by done. apply meta_metaop_scalar; [done..|].
    unfold MetaOps.const_outcome. cbn [Value.to_constant]. rewrite floor_divide_eq by done.
    destruct (Z.eqb_spec i0 0); [done|]. by injection Hi as <-.
Qed.

Lemma inline_total op l r : wf_value l -> wf_value r -> exists v, inline_of op l r = Ok v.
Proof.
  intros Hl Hr.
  destruct op; try (by destruct l, r; eexists); destruct l, r; try (by eexists);
    cbn [inline_of]; rewrite ?inline_mod_eq, ?inline_idiv_eq by done; by eexists.
Qed.

Lemma inline_none_meta op h l r : wf_value l -> wf_value r ->
  inline_of op l r = Ok None -> exists m, meta_of op h l r = Ok m.
Proof.
  intros Hl Hr Hi.
  assert (Hmeta : forall m f, (exists v, f l r = Ok v) ->
    exists x, MetaOps.meta_metaop h l r m f = Ok x).
  { intros m f [v Hv]. unfold MetaOps.meta_metaop. rewrite Hv.
    destruct (MetaOps.is_object l), (MetaOps.is_object r); by eexists. }
  assert (Hbin : forall f, exists v, MetaOps.const_binop f l r = Ok v).
  { intros f. unfold MetaOps.const_binop, MetaOps.const_outcome.
    destruct (Value.to_constant l), (Value.to_constant r); by eexists. }
  destruct op; try (by apply Hmeta); apply Hmeta; unfold MetaOps.const_outcome;
    destruct l, r; try (by eexists); cbn [Value.to_constant].
  - cbn [inline_of] in Hi. rewrite inline_mod_eq in Hi by done. rewrite modulo_eq by done.
    destruct (i0 =? 0); [by eexists|done].
  - rewrite floor_divide_eq by done. by eexists.
Qed.

(** ** Comparisons *)

Lemma inline_eq_sound h l r b : inline_eq l r = Some b ->
  MetaOps.equal h l r = inl (MetaOps.ResultValue (Value.Boolean b)).
Proof.
  destruct l, r; cbn; try discriminate; try (by intros [= <-]);
    case_bool_decide; first [discriminate | by intros [= <-]].
Qed.

Lemma inline_less_sound h l r b : inline_less l r = Some b ->
  computes (MetaOps.less_than h l r) (Value.Boolean b).
Proof. destruct l, r; cbn; try discriminate; by intros [= <-]. Qed.

Lemma inline_less_eq_sound h l r b : inline_less_eq l r = Some b ->
  computes (MetaOps.less_equal h l r) (Value.Boolean b).
Proof. destruct l, r; cbn; try discriminate; by intros [= <-]. Qed.

Lemma compare_meta_total h l r m (f : constant -> constant -> option bool) :
  exists x, MetaOps.meta_metaop h l r m (MetaOps.const_compare f) = Ok x.
Proof.
  unfold MetaOps.meta_metaop, MetaOps.const_compare, MetaOps.const_binop, MetaOps.const_outcome.
  destruct (MetaOps.is_object l), (MetaOps.is_object r); try by eexists.
  destruct (Value.to_constant l), (Value.to_constant r); by eexists.
Qed.

(** The arm with its inline path is the arm without. *)
Lemma exec_compare_reference path meta constants skip_if l r regs :
  (forall a b c, path a b = Some c -> computes (meta a b) (Value.Boolean c)) ->
  exec_compare path meta constants skip_if l r regs =
    exec_compare (fun _ _ => None) meta constants skip_if l r regs.
Proof.
  intros Hp. unfold exec_compare. destruct (get_rc regs constants l) as [a|]; [|done].
  rewrite !outcome_bind_Ok. destruct (get_rc regs constants r) as [b|]; [|done].
  rewrite !outcome_bind_Ok. destruct (path a b) as [c|] eqn:E; [|done].
  apply Hp in E. unfold computes in E. rewrite E. by destruct c.
Qed.

(** ** Well-formed frames *)

Definition wf_frame (constants : list constant) (regs : registers) : Prop :=
  Forall wf_value (stack_frame regs) /\ Forall wf_constant constants.

Lemma get_rc_wf constants regs rc v : wf_frame constants regs ->
  get_rc regs constants rc = Ok v -> wf_value v.
Proof.
  intros [Hf Hc]. destruct rc as [i|i]; cbn; unfold get_register, index.
  - destruct (_ !! _) as [w|] eqn:E; [|done]. intros [= <-].
    by eapply Forall_lookup_1 in E.
  - destruct (constants !! _) as [w|] eqn:E; [|done]. intros [= <-].
    by eapply (Forall_lookup_1 wf_constant) in E.
Qed.

(** Registers and constants an instruction names exist. *)
Definition register_ok (regs : registers) (i : RegisterIndex) : Prop :=
  exists v, get_register regs i = Ok v.
Definition operand_ok (constants : list constant) (regs : registers) (rc : RCIndex) : Prop :=
  exists v, get_rc regs constants rc = Ok v.

Definition operands_ok (constants : list constant) (regs : registers) (op : Operation.t) : Prop :=
  match op with
  | Operation.Not d s | Operation.Minus d s | Operation.BitNot d s =>
      register_ok regs d /\ register_ok regs s
  | Operation.Add d l r | Operation.Sub d l r | Operation.Mul d l r
  | Operation.Div d l r | Operation.IDiv d l r | Operation.Mod d l r
  | Operation.Pow d l r | Operation.BitAnd d l r | Operation.BitOr d l r
  | Operation.BitXor d l r | Operation.ShiftLeft d l r | Operation.ShiftRight d l r =>
      register_ok regs d /\ operand_ok constants regs l /\ operand_ok constants regs r
  | Operation.Eq _ l r | Operation.Less _ l r | Operation.LessEq _ l r =>
      operand_ok constants regs l /\ operand_ok constants regs r
  | _ => True
  end.

Lemma set_register_ok regs d v : register_ok regs d -> exists r, set_register regs d v = Ok r.
Proof. intros [w Hw]. unfold set_register. rewrite Hw. by eexists. Qed.

Lemma finish_register_ok regs d m : register_ok regs d ->
  exists s, finish_register d regs m = Ok s.
Proof.
  intros Hd. destruct m as [[v|c]|e]; cbn; [|by eexists..].
  destruct (set_register_ok regs d v Hd) as [r ->]. by eexists.
Qed.

Lemma skip_ok (regs : registers) b c : 0 <= pc regs < 2 ^ 64 - 1 -> exists s, skip_if_equal b c regs = Ok s.
Proof.
  intros Hpc. unfold skip_if_equal, skip. rewrite arith_in by int_lia.
  destruct (eqb b c); by eexists.
Qed.

Lemma exec_binary_ok op h constants d l r regs : wf_frame constants regs ->
  register_ok regs d -> operand_ok constants regs l -> operand_ok constants regs r ->
  exists s, exec_binary (inline_of op) (meta_of op h) constants d l r regs = Ok s.
Proof.
  intros Hwf Hd [a Ha] [b Hb]. pose proof (get_rc_wf _ _ _ _ Hwf Ha).
  pose proof (get_rc_wf _ _ _ _ Hwf Hb). unfold exec_binary. rewrite Ha, Hb, !outcome_bind_Ok.
  destruct (inline_total op a b) as [[v|] Hv]; [done..| |]; rewrite Hv, outcome_bind_Ok.
  - destruct (set_register_ok regs d v Hd) as [r' ->]. by eexists.
  - destruct (inline_none_meta op h a b) as [m ->]; [done..|]. by apply finish_register_ok.
Qed.

Lemma exec_compare_ok path meta constants c l r regs : 0 <= pc regs < 2 ^ 64 - 1 ->
  (forall a b, exists m, meta a b = Ok m) ->
  operand_ok constants regs l -> operand_ok constants regs r ->
  exists s, exec_compare path meta constants c l r regs = Ok s.
Proof.
  intros Hpc Hm [a Ha] [b Hb]. unfold exec_compare. rewrite Ha, Hb, !outcome_bind_Ok.
  destruct (path a b); [by apply skip_ok|]. destruct (Hm a b) as [[[v|k]|e] ->]; cbn;
    [by apply skip_ok|by eexists..].
Qed.

Lemma exec_unary_ok path meta d s regs : register_ok regs d -> register_ok regs s ->
  exists r, exec_unary path meta d s regs = Ok r.
Proof.
  intros Hd [v Hv]. unfold exec_unary. rewrite Hv, outcome_bind_Ok.
  destruct (path v) as [w|]; [|by apply finish_register_ok].
  destruct (set_register_ok regs d w Hd) as [r ->]. by eexists.
Qed.

(** ** Properties *)

Definition div_mod_law (a b q m : Z) : Prop :=
  a = b * q + m /\ Z.abs m < Z.abs b /\ 0 <= m * b.

(** The [//] and [%] instructions on integers with a non-zero divisor never
    panic, in either build, and compute Lua's floored quotient and modulo:
    [a = b * q + m] with [m] smaller than the divisor and of its sign; only
    [math.mininteger // -1] wraps. *)
Theorem vm_div_mod (a b : Z) : in_int i64 a -> in_int i64 b -> b <> 0 ->
  exists q m, inline_idiv (Value.Integer a : value) (Value.Integer b) =
      Ok (Some (Value.Integer (wrap i64 q))) /\
    inline_mod (Value.Integer a : value) (Value.Integer b) = Ok (Some (Value.Integer m)) /\
    div_mod_law a b q m /\ (wrap i64 q = q \/ (a = int_min i64 /\ b = -1)).
Proof.
  intros Ha Hb Hb0. exists (a / b), (a mod b).
  rewrite inline_idiv_eq, inline_mod_eq, (proj2 (Z.eqb_neq b 0)) by done.
  split; [done|]. split; [done|]. unfold div_mod_law. split.
  - split; [apply Z_div_mod_eq_full|]. destruct (Z.lt_trichotomy b 0) as [Hn|[?|Hp]]; [|done|].
    + pose proof (Z.mod_neg_bound a b Hn). split; [lia|nia].
    + pose proof (Z.mod_pos_bound a b Hp). split; [lia|nia].
  - destruct (decide (a = int_min i64 /\ b = -1)) as [?|Hn]; [by right|]. left.
    apply wrap_small; [apply _|]. pose proof (quot_in_int a b Hb0 Ha Hn) as Hq.
    rewrite (floor_div_correct a b Hb0). destruct (_ || _) eqn:E; [|done].
    destruct (quot_rem_sign a b Hb0) as (Ea & Hr & Hs).
    enough (Z.quot a b <> int_min i64) by (revert Hq; int_lia). intros Ei.
    assert (Z.abs b <= 1) by (revert Ea Ha; rewrite Ei; unfold_ints; nia).
    apply orb_true_iff in E as [E|E]; bool_to_prop; lia.
Qed.

(** C8: the inline paths of the arithmetic, bitwise and comparison arms are an
    optimisation and nothing more: on any well-formed frame the arm does exactly
    what it would do by asking the metaoperator every time (for [%], where the
    metaoperator itself does not overflow). *)
Theorem inline_paths_sound (h : heap) (constants : list constant) (regs : registers) :
  wf_frame constants regs ->
  (forall op d l r,
     (forall a b, get_rc regs constants l = Ok a -> get_rc regs constants r = Ok b ->
        mod_safe op a b) ->
     exec h constants (Operators.simple_binop_operation op d l r) regs =
       Some (exec_binary no_inline (meta_of op h) constants d l r regs)) /\
  (forall b l r,
     exec h constants (Operation.Eq b l r) regs =
       Some (exec_compare (fun _ _ => None) (fun x y => Ok (MetaOps.equal h x y))
               constants b l r regs) /\
     exec h constants (Operation.Less b l r) regs =
       Some (exec_compare (fun _ _ => None) (MetaOps.less_than h) constants b l r regs) /\
     exec h constants (Operation.LessEq b l r) regs =
       Some (exec_compare (fun _ _ => None) (MetaOps.less_equal h) constants b l r regs)).
Proof.
  intros Hwf. split.
  - intros op d l r Hsafe. rewrite exec_simple. f_equal. unfold exec_binary.
    destruct (get_rc regs constants l) as [a|] eqn:Ha; [|done].
    rewrite !outcome_bind_Ok. destruct (get_rc regs constants r) as [b|] eqn:Hb; [|done].
    rewrite !outcome_bind_Ok. pose proof (get_rc_wf _ _ _ _ Hwf Ha) as Hwa.
    pose proof (get_rc_wf _ _ _ _ Hwf Hb) as Hwb. specialize (Hsafe a b eq_refl eq_refl).
    destruct (inline_total op a b Hwa Hwb) as [[v|] Hv]; rewrite Hv; [|done].
    pose proof (inline_sound op h a b v Hwa Hwb Hsafe Hv) as Hm. unfold computes in Hm.
    unfold no_inline. rewrite !outcome_bind_Ok. by rewrite Hm.
  - intros b l r. cbn [exec]. split_and!; f_equal; apply exec_compare_reference; intros x y c.
    + intros E. unfold computes. by rewrite (inline_eq_sound h x y c E).
    + apply inline_less_sound.
    + apply inline_less_eq_sound.
Qed.

Lemma exec_answers (h : heap) (constants : list constant) (regs : registers)
    (op : Operation.t) :
  wf_frame constants regs -> operands_ok constants regs op -> 0 <= pc regs < 2 ^ 64 - 1 ->
  match exec h constants op regs with
  | Some r => exists s, r = Ok s
  | None => True
  end.
Proof.
  intros Hwf Hop Hpc.
  pose proof (fun op d l r => exec_binary_ok op h constants d l r regs Hwf) as Hbin.
  destruct op; try exact I; cbn [exec operands_ok] in *;
    try (destruct Hop as [Hl Hr]; apply exec_compare_ok; [done| |done|done]; intros;
         first [by eexists | apply compare_meta_total]);
    try (destruct Hop as [Hd Hs]; by apply exec_unary_ok);
    try (destruct Hop as (Hd & Hl & Hr); by apply (Hbin SimpleBinOp.Add)
      || by apply (Hbin SimpleBinOp.Sub) || by apply (Hbin SimpleBinOp.Mul)
      || by apply (Hbin SimpleBinOp.Div) || by apply (Hbin SimpleBinOp.IDiv)
      || by apply (Hbin SimpleBinOp.Mod) || by apply (Hbin SimpleBinOp.Pow)
      || by apply (Hbin SimpleBinOp.BitAnd) || by apply (Hbin SimpleBinOp.BitOr)
      || by apply (Hbin SimpleBinOp.BitXor) || by apply (Hbin SimpleBinOp.ShiftLeft)
      || by apply (Hbin SimpleBinOp.ShiftRight)).
  destruct Hop as [Hd [v Hv]]. rewrite Hv, outcome_bind_Ok.
  destruct (set_register_ok regs dest (Value.Boolean (negb (Value.to_bool v))) Hd) as [r ->].
  by eexists.
Qed.

(** No operand can make the arithmetic and comparison instructions panic: with
    the registers and constants they name in the frame and room for the program
    counter, every arm of [exec] returns. *)
Theorem arithmetic_no_panic (h : heap) (constants : list constant) (regs : registers)
    (op : Operation.t) :
  wf_frame constants regs -> operands_ok constants regs op -> 0 <= pc regs < 2 ^ 64 - 1 ->
  match exec h constants op regs with
  | Some r => exists s, r = Ok s
  | None => True
  end.
Proof. apply exec_answers. Qed.

(** C9: constant folding is faithful to execution: a binary operator the compiler
    folds to a constant stores exactly that constant when the instruction it
    would have emitted runs on the operands instead (for [%], where folding does
    not overflow). *)
Theorem const_fold_faithful (h : heap) (constants : list constant) (regs : registers)
    (op : SimpleBinOp.t) (d : RegisterIndex) (l r : RCIndex) (a b c : constant) :
  wf_constant a -> wf_constant b ->
  get_rc regs constants l = Ok (Value.from_constant a) ->
  get_rc regs constants r = Ok (Value.from_constant b) ->
  mod_safe op (Value.from_constant a) (Value.from_constant b) ->
  Operators.simple_binop_const_fold op a b = Ok (Some c) ->
  exec h constants (Operators.simple_binop_operation op d l r) regs =
    Some (Next <$> set_register regs d (Value.from_constant c)).
Proof.
  intros Hwa Hwb Hl Hr Hsafe Hfold. rewrite exec_simple. f_equal. unfold exec_binary.
  rewrite Hl, Hr, !outcome_bind_Ok.
  assert (Hmeta : computes (meta_of op h (Value.from_constant a) (Value.from_constant b))
    (Value.from_constant c)).
  { destruct op; try discriminate; cbn [Operators.simple_binop_const_fold] in Hfold;
      (apply meta_metaop_scalar; [by destruct a|by destruct b|]);
      unfold MetaOps.const_binop, MetaOps.const_outcome;
      rewrite !Value.to_from_constant, Hfold; done. }
  destruct (inline_total op _ _ Hwa Hwb) as [[v|] Hv]; rewrite Hv, outcome_bind_Ok.
  - pose proof (inline_sound op h _ _ v Hwa Hwb Hsafe Hv) as Hm. unfold computes in *.
    rewrite Hm in Hmeta. by injection Hmeta as ->.
  - unfold computes in Hmeta. by rewrite Hmeta.
Qed.

Lemma equal_constants h (a b : constant) :
  MetaOps.equal h (Value.from_constant a) (Value.from_constant b) =
    inl (MetaOps.ResultValue (Value.Boolean (Constant.is_equal a b))).
Proof. by destruct a, b. Qed.

Lemma compare_constants h m f (a b : constant) c : f a b = Some c ->
  computes (MetaOps.meta_metaop h (Value.from_constant a) (Value.from_constant b) m
    (MetaOps.const_compare f)) (Value.Boolean c).
Proof.
  intros Hf. apply meta_metaop_scalar; [by destruct a|by destruct b|].
  unfold MetaOps.const_compare, MetaOps.const_binop, MetaOps.const_outcome.
  by rewrite !Value.to_from_constant, Hf.
Qed.

(** An arm whose metaoperator computes a boolean skips on it. *)
Lemma exec_compare_result path meta constants skip_if l r regs x y c :
  get_rc regs constants l = Ok x -> get_rc regs constants r = Ok y ->
  (forall a b c, path a b = Some c -> computes (meta a b) (Value.Boolean c)) ->
  computes (meta x y) (Value.Boolean c) ->
  exec_compare path meta constants skip_if l r regs = skip_if_equal c skip_if regs.
Proof.
  intros Hx Hy Hp Hm. rewrite exec_compare_reference by done. unfold exec_compare.
  rewrite Hx, Hy, !outcome_bind_Ok. unfold computes in Hm. rewrite Hm. by destruct c.
Qed.

(** Folded comparisons are faithful to execution: when the compiler folds a
    comparison of two constants to a boolean, the instruction it would have
    emitted (operands swapped for [>] and [>=], the sense inverted for [~=])
    skips the next instruction exactly when that boolean is [skip_if]. *)
Theorem comparison_fold_faithful (h : heap) (constants : list constant) (regs : registers)
    (op : ComparisonBinOp.t) (l r : RCIndex) (a b : constant) (c skip_if : bool) :
  get_rc regs constants l = Ok (Value.from_constant a) ->
  get_rc regs constants r = Ok (Value.from_constant b) ->
  Operators.comparison_binop_const_fold op a b = Some (Constant.Boolean c) ->
  exec h constants (Operators.comparison_binop_operation op l r skip_if) regs =
    Some (if eqb c skip_if then Next <$> skip regs else Ok (Next regs)).
Proof.
  intros Hl Hr Hfold.
  assert (Heq : forall x y c, inline_eq x y = Some c ->
    computes (Ok (MetaOps.equal h x y)) (Value.Boolean c)).
  { intros x y c' E. unfold computes. by rewrite (inline_eq_sound h x y c' E). }
  assert (Hsome : forall (o : option bool), Constant.Boolean <$> o = Some (Constant.Boolean c :
    constant) -> o = Some c) by (intros [?|]; cbn; congruence).
  destruct op; cbn [Operators.comparison_binop_const_fold] in Hfold;
    cbn [Operators.comparison_binop_operation exec]; f_equal;
    try apply Hsome in Hfold;
    (erewrite exec_compare_result;
      [|eassumption|eassumption|first [exact Heq | apply inline_less_sound
        | apply inline_less_eq_sound]
      |first [by apply compare_constants | unfold computes; by rewrite equal_constants]]);
    try reflexivity; injection Hfold as <-;
    unfold skip_if_equal; by destruct (Constant.is_equal a b), skip_if.
Qed.
End facts.

(** ** Instances *)

#[local] Instance checked_build : BuildProfile := {| overflow_checks := true |}.
#[local] Instance example_libm : FloatLib := {| powf := fun x _ => x |}.

Definition no_metatables : MetaOps.Heap (list Z) :=
  {| MetaOps.metatable := fun _ => None; MetaOps.get_field := fun _ _ => Value.Nil |}.
Definition frame : @registers (list Z) :=
  mk_registers [Value.Integer (-7); Value.String (bs# "3"); Value.Nil] 5.
Definition k (i : Z) : RCIndex := RCIndex.Constant (mk_ConstantIndex8 i).
Definition r (i : Z) : RCIndex := RCIndex.Register (mk_RegisterIndex i).

Lemma vm_div_mod_witness :
  exists q m, inline_idiv (Value.Integer (-7) : Value.t (list Z)) (Value.Integer 2) =
      Ok (Some (Value.Integer (wrap i64 q))) /\
    inline_mod (Value.Integer (-7) : Value.t (list Z)) (Value.Integer 2) =
      Ok (Some (Value.Integer m)) /\
    div_mod_law (-7) 2 q m /\ (wrap i64 q = q \/ (-7 = int_min i64 /\ 2 = -1)).
Proof. apply vm_div_mod; [int_lia|int_lia|lia]. Defined.

Lemma frame_wf : wf_frame [Constant.Integer 2] frame.
Proof. split; repeat constructor; cbn; int_lia. Qed.

Lemma inline_paths_sound_witness :
  exec no_metatables [Constant.Integer 2] (Operation.Add (mk_RegisterIndex 2) (r 0) (k 0)) frame =
    Some (exec_binary no_inline (MetaOps.add no_metatables) [Constant.Integer 2]
            (mk_RegisterIndex 2) (r 0) (k 0) frame).
Proof.
  destruct (inline_paths_sound no_metatables [Constant.Integer 2] frame frame_wf) as [Hop _].
  apply (Hop SimpleBinOp.Add). done.
Defined.

Lemma arithmetic_no_panic_witness :
  exists s, exec no_metatables [Constant.Integer 2]
    (Operation.Mod (mk_RegisterIndex 2) (r 0) (r 1)) frame = Some (Ok s).
Proof.
  pose proof (arithmetic_no_panic no_metatables [Constant.Integer 2] frame
    (Operation.Mod (mk_RegisterIndex 2) (r 0) (r 1)) frame_wf) as Hp.
  destruct Hp as [s Hs]; [repeat split; eexists; reflexivity|cbn; lia|].
  exists s. by rewrite <- Hs.
Defined.

Lemma const_fold_faithful_witness :
  exec no_metatables [Constant.Integer 2] (Operation.IDiv (mk_RegisterIndex 2) (r 0) (k 0)) frame =
    Some (Next <$> set_register frame (mk_RegisterIndex 2) (Value.Integer (-4))).
Proof.
  apply (const_fold_faithful no_metatables [Constant.Integer 2] frame SimpleBinOp.IDiv
    (mk_RegisterIndex 2) (r 0) (k 0) (Constant.Integer (-7)) (Constant.Integer 2)
    (Constant.Integer (-4))); try reflexivity; cbn; try int_lia; exact I.
Defined.

Lemma comparison_fold_faithful_witness :
  exec no_metatables [Constant.Integer 2]
    (Operators.comparison_binop_operation ComparisonBinOp.GreaterThan (r 0) (k 0) false) frame =
    Some (Next <$> skip frame).
Proof.
  apply (comparison_fold_faithful no_metatables [Constant.Integer 2] frame
    ComparisonBinOp.GreaterThan (r 0) (k 0) (Constant.Integer (-7)) (Constant.Integer 2) false false);
    reflexivity.
Defined.

(** Folding and execution part where the folded [%] overflows: for
    [math.mininteger % -1] the compiler panics while the VM computes 0, and without
    overflow checks [(MAX - 1) % MAX] folds to [-3] while the VM computes
    [MAX - 1]. *)
Theorem modulo_fold_diverges (profile : BuildProfile) :
  let const_fold := @Operators.simple_binop_const_fold profile _ (list Z) _ in
  let MIN := -9223372036854775808 in let MAX := 9223372036854775807 in
  const_fold SimpleBinOp.Mod (Constant.Integer MIN) (Constant.Integer (-1)) = Panic /\
  inline_mod (Value.Integer MIN : Value.t (list Z)) (Value.Integer (-1)) =
    Ok (Some (Value.Integer 0)) /\
  const_fold SimpleBinOp.Mod (Constant.Integer (MAX - 1)) (Constant.Integer MAX) =
    (if overflow_checks then Panic else Ok (Some (Constant.Integer (-3)))) /\
  inline_mod (Value.Integer (MAX - 1) : Value.t (list Z)) (Value.Integer MAX) =
    Ok (Some (Value.Integer (MAX - 1))).
Proof. destruct profile as [[]]; split_and!; vm_compute; reflexivity. Qed.
