(* ===== verification/VmControl.v ===== *)
(** * Loads, jumps, tests and loops: [thread/vm.rs] and the jump offsets of [compiler/compiler.rs]

    The arms of [run_vm] that move values between registers and steer the program
    counter, each run with the counter already past the instruction, and
    [jump_offset], by which the compiler makes the offsets they use. *)

From S2P Require Import Prelude Float64 StringUtils Constant ConstantFacts Value MetaOps Opcode Vm.

Module Control.

Definition unwrap {A} (o : option A) : outcome A :=
  match o with Some a => Ok a | None => Panic end.

Section Control.
Context `{BuildProfile} {S : Type} `{AsBytes S}.
Abbreviation value := (Value.t S).
Abbreviation registers := (@Vm.registers S).
Implicit Types (regs : registers) (v : value).

(** [pc.checked_add(offset as usize).unwrap()] or [pc.checked_sub(-offset as usize).unwrap()];
    the negation is on [i16]. *)
Definition add_offset (pc offset : Z) : outcome Z :=
  if 0 <? offset then unwrap (checked usize (pc + wrap usize offset))
  else if offset <? 0 then
    n ← arith i16 (- offset);
    unwrap (checked usize (pc - wrap usize n))
  else Ok pc.

(** [jump_offset]: from the instruction at [source] to the one at [target] *)
Definition jump_offset (source target : Z) : outcome (option Z) :=
  if source <? target then
    n ← arith usize (source + 1);
    n ← arith usize (target - n);
    Ok (checked i16 n)
  else
    n ← arith usize (source + 1);
    n ← arith usize (n - target);
    match checked i16 n with
    | Some i => Some <$> arith i16 (- i)
    | None => Ok None
    end.

(** How an instruction of this file ends; [Close] is [Jump] with the upvalues from a
    register on still to be closed. *)
Inductive step : Type :=
  | Next (r : registers)
  | Close (bottom : Z) (r : registers)
  | Raise (e : VMError.t).

(** Reading and writing at an index computed as [usize] *)
Definition get_at (regs : registers) (i : Z) : outcome value :=
  Vm.index (Vm.stack_frame regs) i.
Definition set_at (regs : registers) (i : Z) (v : value) : outcome registers :=
  _ ← get_at regs i;
  Ok (Vm.mk_registers (<[Z.to_nat i := v]> (Vm.stack_frame regs)) (Vm.pc regs)).
Definition set_pc (regs : registers) (pc : Z) : registers :=
  Vm.mk_registers (Vm.stack_frame regs) pc.
Definition jump (regs : registers) (offset : Z) : outcome registers :=
  set_pc regs <$> add_offset (Vm.pc regs) offset.

(** [for i in from..to { stack_frame[i] = Nil }] *)
Fixpoint fill_nil (n : nat) (from : Z) (regs : registers) : outcome registers :=
  match n with
  | O => Ok regs
  | Datatypes.S n => regs ← set_at regs from Value.Nil; fill_nil n (from + 1) regs
  end.

Definition load_nil (dest count : Z) (regs : registers) : outcome registers :=
  to ← arith u8 (dest + count);
  fill_nil (Z.to_nat (to - dest)) dest regs.

(** [raw_subtract] *)
Definition raw_subtract (lhs rhs : value) : option value :=
  l ← Value.to_constant lhs;
  r ← Value.to_constant rhs;
  Value.from_constant <$> Constant.subtract l r.

(** [NumericForPrep]: the counter starts one step early. *)
Definition for_prep (init step : value) : option value :=
  match init, step with
  | Value.Integer i, Value.Integer s => Some (Value.Integer (wrap i64 (i - s)))
  | Value.Number i, Value.Number s => Some (Value.Number (F64.sub i s))
  | Value.Integer i, Value.Number s => Some (Value.Number (F64.sub (F64.from_int i) s))
  | Value.Number i, Value.Integer s => Some (Value.Number (F64.sub i (F64.from_int s)))
  | _, _ => raw_subtract init step
  end.

Definition exec_for_prep (base jmp : Z) (regs : registers) : outcome step :=
  init ← get_at regs base;
  stp ← get_at regs (base + 2);
  match for_prep init stp with
  | Some v =>
      regs ← set_at regs base v;
      Next <$> jump regs jmp
  | None => Ok (Raise (VMError.BadForLoopPrep (Value.type_name init) (Value.type_name stp)))
  end.

(** [NumericForLoop]: the new counter and whether the loop is past its end; [None]
    for operands that are not numbers *)
Definition for_step (index limit step : value) : option (value * bool) :=
  match index, limit, step with
  | Value.Integer index, Value.Integer limit, Value.Integer step =>
      let sum := index + step in
      let overflow := negb (in_intb i64 sum) in
      let index := wrap i64 sum in
      Some (Value.Integer index,
            overflow || (if step <? 0 then index <? limit else limit <? index))
  | Value.Integer index, limit, Value.Integer step =>
      limit ← Value.to_number limit;
      let sum := index + step in
      let overflow := negb (in_intb i64 sum) in
      let index := wrap i64 sum in
      Some (Value.Integer index,
            overflow ||
            (if step <? 0 then negb (F64.leb limit (F64.from_int index))
             else negb (F64.leb (F64.from_int index) limit)))
  | index, limit, step =>
      index ← Value.to_number index;
      limit ← Value.to_number limit;
      step ← Value.to_number step;
      let index := F64.add index step in
      Some (Value.Number index,
            if F64.ltb step F64.ZERO then negb (F64.leb limit index)
            else negb (F64.leb index limit))
  end.

Definition exec_for_loop (base jmp : Z) (regs : registers) : outcome step :=
  index ← get_at regs base;
  limit ← get_at regs (base + 1);
  stp ← get_at regs (base + 2);
  match for_step index limit stp with
  | Some (index, past_end) =>
      regs ← set_at regs base index;
      if past_end : bool then Ok (Next regs)
      else
        regs ← jump regs jmp;
        Next <$> set_at regs (base + 3) index
  | None =>
      Ok (Raise (VMError.BadForLoop (Value.type_name index) (Value.type_name limit)
                   (Value.type_name stp)))
  end.

(** The instructions of this file; [None] for the others *)
Definition exec (constants : list (Constant.t S)) (op : Operation.t) (regs : registers)
  : option (outcome step) :=
  match op with
  | Operation.Move dest source => Some (
      v ← Vm.get_register regs source;
      Next <$> Vm.set_register regs dest v)
  | Operation.LoadConstant dest constant => Some (
      c ← Vm.index constants (constant_index16 constant);
      Next <$> Vm.set_register regs dest (Value.from_constant c))
  | Operation.LoadBool dest value skip_next => Some (
      regs ← Vm.set_register regs dest (Value.Boolean value);
      if skip_next : bool then Next <$> Vm.skip regs else Ok (Next regs))
  | Operation.LoadNil dest count =>
      Some (Next <$> load_nil (register_index dest) count regs)
  | Operation.Jump offset close_upvalues => Some (
      regs ← jump regs offset;
      Ok (match Opt254.to_u8 close_upvalues with
          | Some r => Close r regs
          | None => Next regs
          end))
  | Operation.Test value is_true => Some (
      v ← Vm.get_register regs value;
      if eqb (Value.to_bool v) is_true then Next <$> Vm.skip regs else Ok (Next regs))
  | Operation.TestSet dest value is_true => Some (
      v ← Vm.get_register regs value;
      if eqb (Value.to_bool v) is_true then Next <$> Vm.skip regs
      else Next <$> Vm.set_register regs dest v)
  | Operation.NumericForPrep base jmp => Some (exec_for_prep (register_index base) jmp regs)
  | Operation.NumericForLoop base jmp => Some (exec_for_loop (register_index base) jmp regs)
  | Operation.GenericForLoop base jmp => Some (
      let base := register_index base in
      v ← get_at regs (base + 1);
      if Value.to_bool v then
        regs ← set_at regs base v;
        Next <$> jump regs jmp
      else Ok (Next regs))
  | _ => None
  end.

(** ** A whole numeric loop

    [NumericForPrep], then [NumericForLoop] until it falls through, with the body run
    after each jump: [body] is what the body does to the registers before it comes
    back to the loop instruction.  The result is the values the loop variable takes and
    whether the loop is over or only the fuel; [None] is a panic or an error. *)
Fixpoint run_for (fuel : nat) (base jmp : Z) (body : list value -> list value) (regs : registers)
  : option (list value * bool) :=
  match exec_for_loop base jmp regs with
  | Ok (Next r) =>
      if Vm.pc r =? Vm.pc regs then Some ([], true)
      else
        match fuel, get_at r (base + 3) with
        | Datatypes.S fuel, Ok v =>
            prod_map (cons v) id <$> run_for fuel base jmp body
              (Vm.mk_registers (body (Vm.stack_frame r)) (Vm.pc regs))
        | O, _ => Some ([], false)
        | _, _ => None
        end
  | _ => None
  end.

Definition numeric_for (fuel : nat) (base prep_jmp jmp : Z) (body : list value -> list value)
    (regs : registers) : option (list value * bool) :=
  match exec_for_prep base prep_jmp regs with
  | Ok (Next r) => run_for fuel base jmp body (set_pc r (Vm.pc r + 1))
  | _ => None
  end.

(** The values of [for i = init, limit, step] *)
Definition for_count (init limit step : Z) : nat :=
  Z.to_nat (if step <? 0 then (init - limit) / - step + 1 else (limit - init) / step + 1).
Definition for_values (init limit step : Z) : list value :=
  (fun k : nat => Value.Integer (init + Z.of_nat k * step)) <$> seq 0 (for_count init limit step).

(** The body leaves the hidden registers of the loop alone. *)
Definition keeps_loop (base : Z) (body : list value -> list value) : Prop :=
  forall l, length (body l) = length l /\
    forall i, base <= i <= base + 2 -> body l !! Z.to_nat i = l !! Z.to_nat i.

(** ** Lemmas *)

Lemma get_at_Ok regs i v : Vm.stack_frame regs !! Z.to_nat i = Some v -> get_at regs i = Ok v.
Proof. unfold get_at, Vm.index. by intros ->. Qed.

Lemma set_at_Ok regs i v w : Vm.stack_frame regs !! Z.to_nat i = Some w ->
  set_at regs i v = Ok (Vm.mk_registers (<[Z.to_nat i := v]> (Vm.stack_frame regs)) (Vm.pc regs)).
Proof. intros Hw. unfold set_at. by rewrite (get_at_Ok _ _ _ Hw). Qed.

Definition past (limit step x : Z) : bool := if step <? 0 then x <? limit else limit <? x.

Lemma for_count_past x limit step : step <> 0 -> past limit step x = true ->
  for_count x limit step = O.
Proof.
  unfold past, for_count. intros Hs Hp. destruct (step <? 0) eqn:E; bool_to_prop.
  - assert ((x - limit) / - step < 0) by (apply Z.div_lt_upper_bound; lia). lia.
  - assert ((limit - x) / step < 0) by (apply Z.div_lt_upper_bound; lia). lia.
Qed.

Lemma for_count_next x limit step : step <> 0 -> past limit step x = false ->
  for_count x limit step = Datatypes.S (for_count (x + step) limit step).
Proof.
  unfold past, for_count. intros Hs Hp. destruct (step <? 0) eqn:E; bool_to_prop.
  - replace (x + step - limit) with (x - limit + -1 * - step) by lia.
    rewrite Z.div_add by lia. pose proof (Z.div_pos (x - limit) (- step)). lia.
  - replace (limit - (x + step)) with (limit - x + -1 * step) by lia.
    rewrite Z.div_add by lia. pose proof (Z.div_pos (limit - x) step). lia.
Qed.

Lemma for_values_past x limit step : step <> 0 -> past limit step x = true ->
  for_values x limit step = [].
Proof. intros Hs Hp. unfold for_values. by rewrite for_count_past. Qed.

Lemma for_values_next x limit step : step <> 0 -> past limit step x = false ->
  for_values x limit step = Value.Integer x :: for_values (x + step) limit step.
Proof.
  intros Hs Hp. unfold for_values. rewrite (for_count_next x) by done. cbn [seq fmap list_fmap].
  f_equal; [f_equal; lia|]. rewrite <- fmap_S_seq, <- list_fmap_compose.
  apply list_fmap_ext. intros i k _. cbn. f_equal. lia.
Qed.

(** The registers of a running loop *)
Record loop_regs (base : Z) (x limit step : Z) (regs : registers) : Prop := {
  lr_base : 0 <= base;
  lr_index : Vm.stack_frame regs !! Z.to_nat base = Some (Value.Integer x);
  lr_limit : Vm.stack_frame regs !! Z.to_nat (base + 1) = Some (Value.Integer limit);
  lr_step : Vm.stack_frame regs !! Z.to_nat (base + 2) = Some (Value.Integer step);
  lr_var : is_Some (Vm.stack_frame regs !! Z.to_nat (base + 3))
}.

Lemma loop_regs_set base x x' limit step regs pc : loop_regs base x limit step regs ->
  loop_regs base x' limit step
    (Vm.mk_registers (<[Z.to_nat base := Value.Integer x']> (Vm.stack_frame regs)) pc).
Proof.
  intros [Hb Hi Hl Hs Hv]. split; cbn; [done| | | |].
  - apply list_lookup_insert_eq. by eapply lookup_lt_Some.
  - rewrite list_lookup_insert_ne by lia. done.
  - rewrite list_lookup_insert_ne by lia. done.
  - rewrite list_lookup_insert_ne by lia. done.
Qed.

Lemma loop_regs_body base body x limit step regs pc : loop_regs base x limit step regs ->
  keeps_loop base body ->
  loop_regs base x limit step (Vm.mk_registers (body (Vm.stack_frame regs)) pc).
Proof.
  intros [Hb H1 H2 H3 [w Hw]] Hbody. destruct (Hbody (Vm.stack_frame regs)) as [Hlen Hkeep].
  split; cbn; rewrite ?Hkeep by lia; try done.
  apply lookup_lt_is_Some. rewrite Hlen. by eapply lookup_lt_Some.
Qed.

(** One [NumericForLoop] on integers *)
Lemma exec_for_loop_integers base jmp x limit step regs q : loop_regs base x limit step regs ->
  in_int i64 x -> in_int i64 limit -> in_int i64 step -> add_offset (Vm.pc regs) jmp = Ok q ->
  exists r, exec_for_loop base jmp regs = Ok (Next r) /\
    if past limit step (x + step) then Vm.pc r = Vm.pc regs
    else Vm.pc r = q /\ loop_regs base (x + step) limit step r /\
      get_at r (base + 3) = Ok (Value.Integer (x + step)).
Proof.
  intros Hr Hx Hl Hst Hj. pose proof Hr as [Hb Hi Hli Hsi [w Hw]]. unfold exec_for_loop.
  rewrite (get_at_Ok _ _ _ Hi), (get_at_Ok _ _ _ Hli), (get_at_Ok _ _ _ Hsi), !outcome_bind_Ok.
  cbn [for_step]. rewrite (set_at_Ok _ _ _ _ Hi), outcome_bind_Ok.
  destruct (in_intb i64 (x + step)) eqn:Hin; cbn [negb orb].
  - apply in_intb_spec in Hin. rewrite (wrap_small i64 _ Hin). fold (past limit step (x + step)).
    destruct (past limit step (x + step)) eqn:Hp; [by eexists|].
    unfold jump. cbn [Vm.pc set_pc]. rewrite Hj. cbn [fmap outcome_fmap]. rewrite outcome_bind_Ok.
    pose proof (loop_regs_set base x (x + step) limit step regs q Hr) as Hr'.
    destruct (lr_var _ _ _ _ _ Hr') as [w' Hw']. unfold set_pc. cbn [Vm.stack_frame] in *.
    pose proof (set_at_Ok (Vm.mk_registers _ q) (base + 3) (Value.Integer (x + step)) w' Hw') as E.
    cbn [Vm.stack_frame Vm.pc] in E |- *. rewrite E. eexists. split; [reflexivity|].
    split; [done|]. destruct Hr' as [_ H1 H2 H3 _]. cbn [Vm.stack_frame] in *. split.
    + split; cbn [Vm.stack_frame]; [done|rewrite list_lookup_insert_ne by lia; done..|].
      rewrite list_lookup_insert_eq by (by eapply lookup_lt_Some). by eexists.
    + apply get_at_Ok. cbn. apply list_lookup_insert_eq. by eapply lookup_lt_Some.
  - apply in_intb_false in Hin. eexists. split; [reflexivity|].
    assert (Hp : past limit step (x + step) = true).
    { unfold past. destruct (step <? 0) eqn:E; bool_to_prop; apply Z.ltb_lt;
        revert Hin Hx Hl Hst; int_lia. }
    by rewrite Hp.
Qed.

Lemma wrap_shift z k : in_int i64 (z + k * 2 ^ 64) -> wrap i64 z = z + k * 2 ^ 64.
Proof.
  intros Hin. rewrite <- (wrap_small i64 _ Hin). apply wrap_congr.
  symmetry. exact (Z_mod_plus_full z k _).
Qed.

Lemma wrapped_past init limit step : in_int i64 init -> in_int i64 limit -> in_int i64 step ->
  ~ in_int i64 (init - step) -> past limit step (wrap i64 (init - step) + step) = true.
Proof.
  intros Hi Hl Hs Hn. unfold past.
  destruct (step <? 0) eqn:E; bool_to_prop; apply Z.ltb_lt.
  - rewrite (wrap_shift _ (-1)); revert Hi Hl Hs Hn; int_lia.
  - rewrite (wrap_shift _ 1); revert Hi Hl Hs Hn; int_lia.
Qed.

Lemma run_for_integers n base jmp body x limit step regs q : loop_regs base x limit step regs ->
  in_int i64 x -> in_int i64 limit -> in_int i64 step -> step <> 0 ->
  add_offset (Vm.pc regs) jmp = Ok q -> q <> Vm.pc regs -> keeps_loop base body ->
  (for_count (x + step) limit step <= n)%nat ->
  run_for n base jmp body regs = Some (for_values (x + step) limit step, true).
Proof.
  intros Hr Hx Hl Hst Hs Hj Hq Hbody. revert x regs Hr Hx Hj Hq. induction n as [|n IH];
    intros x regs Hr Hx Hj Hq Hn; cbn [run_for];
    destruct (exec_for_loop_integers base jmp x limit step regs q) as (r & -> & Hres); try done;
    destruct (past limit step (x + step)) eqn:Hp.
  - rewrite Hres, Z.eqb_refl, for_values_past by done. done.
  - rewrite for_count_next in Hn by done. lia.
  - rewrite Hres, Z.eqb_refl, for_values_past by done. done.
  - destruct Hres as (Hpc & Hr' & Hv). destruct (Z.eqb_spec (Vm.pc r) (Vm.pc regs)); [congruence|].
    rewrite Hv, for_values_next by done. rewrite for_count_next in Hn by done.
    rewrite (IH (x + step)); [done| | |cbn; congruence|done|lia].
    + by apply loop_regs_body.
    + unfold past in Hp. revert Hp Hx Hst Hl.
      destruct (step <? 0) eqn:E; bool_to_prop; intros; bool_to_prop; int_lia.
Qed.

Lemma exec_for_prep_integers base jmp init limit step regs p : loop_regs base init limit step regs ->
  add_offset (Vm.pc regs) jmp = Ok p ->
  exists r, exec_for_prep base jmp regs = Ok (Next r) /\ Vm.pc r = p /\
    loop_regs base (wrap i64 (init - step)) limit step (set_pc r (p + 1)).
Proof.
  intros Hr Hp. unfold exec_for_prep.
  rewrite (get_at_Ok _ _ _ (lr_index _ _ _ _ _ Hr)), (get_at_Ok _ _ _ (lr_step _ _ _ _ _ Hr)).
  rewrite !outcome_bind_Ok. cbn [for_prep].
  rewrite (set_at_Ok _ _ _ _ (lr_index _ _ _ _ _ Hr)), outcome_bind_Ok.
  unfold jump. cbn [Vm.pc set_pc]. rewrite Hp. eexists. split; [reflexivity|]. split; [done|].
  by eapply loop_regs_set.
Qed.

Lemma run_for_zero_step n base jmp body x limit regs q : loop_regs base x limit 0 regs ->
  in_int i64 x -> in_int i64 limit -> x <= limit -> add_offset (Vm.pc regs) jmp = Ok q -> q <> Vm.pc regs ->
  keeps_loop base body -> run_for n base jmp body regs =
    Some (replicate n (Value.Integer x), false).
Proof.
  intros Hr Hx Hl Hle Hj Hq Hbody. revert regs Hr Hj Hq.
  induction n as [|n IH]; intros regs Hr Hj Hq; cbn [run_for];
    destruct (exec_for_loop_integers base jmp x limit 0 regs q) as (r & -> & Hres); try done.
  all: rewrite Z.add_0_r in Hres; unfold past in Hres; cbn [Z.ltb Z.compare] in Hres.
  all: rewrite (proj2 (Z.ltb_ge limit x) Hle) in Hres; destruct Hres as (Hpc & Hr' & Hv).
  all: destruct (Z.eqb_spec (Vm.pc r) (Vm.pc regs)); [congruence|try done].
  rewrite Hv, IH; [done|by eapply loop_regs_body|done..].
Qed.

End Control.

Section theorems.
Context `{BuildProfile} {S : Type} `{AsBytes S}.
Abbreviation registers := (@Vm.registers S).

(** C10: a numeric loop over integers ends and gives its variable exactly the values
    [init], [init + step], ... up to the limit, with no overflow at the ends of [i64]
    and in as many jumps as there are values, provided that [init - step] is an [i64];
    when it is not, the loop does not run at all (see the findings). *)
Theorem numeric_for_integers base prep_jmp jmp body (regs : registers) init limit step p q :
  loop_regs base init limit step regs ->
  in_int i64 init -> in_int i64 limit -> in_int i64 step -> step <> 0 ->
  add_offset (Vm.pc regs) prep_jmp = Ok p -> add_offset (p + 1) jmp = Ok q -> q <> p + 1 ->
  keeps_loop base body ->
  numeric_for (for_count init limit step) base prep_jmp jmp body regs =
    Some (if decide (in_int i64 (init - step)) then for_values init limit step else [], true).
Proof.
  intros Hr Hi Hl Hs Hs0 Hp Hq Hne Hbody.
  destruct (exec_for_prep_integers base prep_jmp init limit step regs p Hr Hp)
    as (r & E & Hpc & Hr').
  unfold numeric_for. rewrite E, Hpc.
  destruct (decide (in_int i64 (init - step))) as [Hin|Hin].
  - rewrite wrap_small in Hr' by done.
    rewrite (run_for_integers _ base jmp body (init - step) limit step _ q); try done;
      replace (init - step + step) with init by lia; done.
  - set (y := wrap i64 (init - step)) in *.
    assert (Hy : in_int i64 y) by apply wrap_in_int, _.
    assert (Hp' : past limit step (y + step) = true) by (by apply wrapped_past).
    rewrite (run_for_integers _ base jmp body y limit step _ q); try done.
    + by rewrite for_values_past.
    + rewrite for_count_past by done. lia.
Qed.

(** A loop with step 0 over integers does not end: after any number [fuel] of
    rounds the body has run that many times with the variable at [init], and the loop
    instruction jumps back again. *)
Theorem numeric_for_zero_step fuel base prep_jmp jmp body (regs : registers) init limit p q :
  loop_regs base init limit 0 regs -> in_int i64 init -> in_int i64 limit -> init <= limit ->
  add_offset (Vm.pc regs) prep_jmp = Ok p -> add_offset (p + 1) jmp = Ok q -> q <> p + 1 ->
  keeps_loop base body -> numeric_for fuel base prep_jmp jmp body regs =
    Some (replicate fuel (Value.Integer init), false).
Proof.
  intros Hr Hi Hl Hle Hp Hq Hne Hbody.
  destruct (exec_for_prep_integers base prep_jmp init limit 0 regs p Hr Hp) as (r & E & Hpc & Hr').
  unfold numeric_for. rewrite E, Hpc. rewrite Z.sub_0_r, wrap_small in Hr' by done.
  by apply (run_for_zero_step fuel base jmp body init limit (set_pc r (p + 1)) q).
Qed.

(** The offset the compiler writes into a jump, where it can write one, takes the
    program counter of the machine, already past the jump, exactly to the target; and it
    can whenever the target is at most 32767 instructions away. *)
Theorem jump_lands source target :
  0 <= source -> in_int usize (source + 1) -> in_int usize target ->
  let distance := target - (source + 1) in
  jump_offset source target = Ok (if decide (Z.abs distance <= 32767) then Some distance else None) /\
  (Z.abs distance <= 32767 -> add_offset (source + 1) distance = Ok target).
Proof.
  intros Hs Hs' Ht distance. subst distance. unfold jump_offset, add_offset.
  rewrite arith_in, !outcome_bind_Ok by done. split.
  - destruct (source <? target) eqn:E; bool_to_prop;
      rewrite arith_in, outcome_bind_Ok by (revert Hs' Ht; int_lia); case_decide.
    + rewrite checked_in by int_lia. done.
    + rewrite (proj2 (checked_None _ _)) by int_lia. done.
    + rewrite checked_in by int_lia. rewrite arith_in by int_lia. cbn. do 2 f_equal. lia.
    + rewrite (proj2 (checked_None _ _)) by int_lia. done.
  - intros Hd. repeat case_bool; bool_to_prop.
    + rewrite (wrap_small usize), checked_in by (revert Hs' Ht; int_lia). cbn. f_equal. lia.
    + rewrite arith_in, outcome_bind_Ok by int_lia.
      rewrite (wrap_small usize), checked_in by (revert Hs' Ht; int_lia). cbn. f_equal. lia.
    + f_equal. lia.
Qed.

(** The loop at pc 9 with its hidden registers at 0, its loop instruction at 20 *)
Definition sample (init limit step : Z) : registers :=
  Vm.mk_registers (Value.Integer <$> [init; limit; step; 0]) 10.

Lemma sample_regs init limit step : loop_regs 0 init limit step (sample init limit step).
Proof. by split. Qed.

Lemma keeps_loop_id : keeps_loop 0 (@id (list (Value.t S))).
Proof. split; done. Qed.
End theorems.

Section witnesses.
#[local] Instance checked_build : BuildProfile := {| overflow_checks := true |}.

Lemma numeric_for_integers_witness :
  numeric_for (for_count 9 3 (-2)) 0 10 (-10) id (sample (S := list Z) 9 3 (-2)) =
    Some (Value.Integer <$> [9; 7; 5; 3], true) /\
  numeric_for (for_count (int_min i64) 0 1) 0 10 (-10) id (sample (S := list Z) (int_min i64) 0 1) =
    Some ([], true).
Proof.
  split.
  - rewrite (numeric_for_integers 0 10 (-10) id (sample 9 3 (-2)) 9 3 (-2) 20 11);
      solve [done|apply sample_regs|apply keeps_loop_id].
  - rewrite (numeric_for_integers 0 10 (-10) id (sample (int_min i64) 0 1) (int_min i64) 0 1 20 11);
      solve [done|apply sample_regs|apply keeps_loop_id].
Defined.

Lemma jump_lands_witness :
  jump_offset 40 7 = Ok (Some (-34)) /\ add_offset 41 (-34) = Ok 7.
Proof. destruct (jump_lands 40 7) as [E F]; [int_lia..|]. split; [exact E|by apply F]. Defined.

Lemma numeric_for_zero_step_witness :
  numeric_for 3 0 10 (-10) id (sample (S := list Z) 1 5 0) =
    Some (Value.Integer <$> [1; 1; 1], false).
Proof.
  apply (numeric_for_zero_step 3 0 10 (-10) id (sample 1 5 0) 1 5 20 11);
    solve [done|apply sample_regs|apply keeps_loop_id].
Defined.
End witnesses.
End Control.
