(* ===== verification/Thread.v ===== *)
(** * Threads: [thread/thread.rs], [thread/mod.rs] and the closures of [closure.rs]

    A coroutine: its frames, the one stack of values they share, and the upvalues
    still open on that stack; the operations by which the machine calls, returns and
    reads or closes upvalues; and the operations of the host on a thread at rest.
    A [Vec] is a list, [frames] with its top (the last element) first.  Positions in the
    stack are naturals: the stack is far shorter than [usize::MAX], so sums of a position
    and a register are exact; differences are checked or wrap as the build says. *)

From S2P Require Import Prelude Slices Float64 StringUtils Constant Value MetaOps Opcode Operators Limits Vm.

Module ThreadMode.
Inductive t : Type := Stopped | Result | Normal | Suspended | Waiting | Running.
End ThreadMode.
#[export] Instance ThreadMode_eq_dec : EqDecision ThreadMode.t.
Proof. solve_decision. Defined.

Record BadThreadMode : Type := mk_BadThreadMode {
  found : ThreadMode.t;
  expected : option ThreadMode.t
}.

Module LuaReturn.
Inductive t : Type :=
  | Normal (count : VarCount.t)
  | Meta (ret : MetaReturn.t).
End LuaReturn.

(** ** [thread.rs] *)
Module Thread.
Section Thread.
Context `{BuildProfile} {S : Type} `{AsBytes S} {Sequence Error : Type}.
Abbreviation value := (Value.t S).
Abbreviation callee := (MetaOps.Callee S).

(** [FunctionPrototype]: what running the function needs *)
#[warnings="-register-all"]
Inductive FunctionPrototype : Type := mk_FunctionPrototype {
  fixed_params : Z;
  has_varargs : bool;
  proto_stack_size : Z;
  constants : list (Constant.t S);
  opcodes : list Operation.t;
  upvalue_descriptors : list UpValueDescriptor;
  prototypes : list FunctionPrototype
}.

Record ClosureInner : Type := mk_ClosureInner {
  proto : FunctionPrototype;
  closure_upvalues : list obj
}.

(** [Open] holds a weak pointer to the thread whose stack has the variable. *)
Inductive UpValueState : Type :=
  | Open (thread : obj) (stack_index : nat)
  | Closed (v : value).

Record lua_frame : Type := mk_lua_frame {
  bottom : nat;
  closure : obj;
  base : nat;
  is_variable : bool;
  pc : Z;
  stack_size : nat;
  expected_return : option LuaReturn.t
}.

Inductive Frame : Type :=
  | Lua (fr : lua_frame)
  | Sequence_ (bottom : nat) (sequence : Sequence) (pending_error : option Error)
  | HostSuspended (bottom : nat) (sequence : Sequence) (handle : Z)
  | Start (function : callee)
  | Callback (bottom : nat) (callback : callee)
  | Yielded
  | WaitThread
  | Result (bottom : nat)
  | Error_ (e : Error).

Record ThreadState : Type := mk_ThreadState {
  frames : list Frame;
  stack : list value;
  open_upvalues : list obj
}.

(** The objects a running thread works with.  [threads] are the threads that can be
    borrowed: a running thread is taken out of it, so that using it by another way
    fails as [borrow] and [borrow_mut] do; a dead one is not there either. *)
Record World : Type := mk_World {
  threads : gmap obj ThreadState;
  upvalues : gmap obj UpValueState;
  closures : gmap obj ClosureInner;
  memory : Memory.MemoryLimit
}.

Definition set_upvalues (u : gmap obj UpValueState) (w : World) : World :=
  mk_World (threads w) u (closures w) (memory w).
Definition set_threads (t : gmap obj ThreadState) (w : World) : World :=
  mk_World t (upvalues w) (closures w) (memory w).

Definition set_frames (f : list Frame) (st : ThreadState) : ThreadState :=
  mk_ThreadState f (stack st) (open_upvalues st).
Definition set_stack (s : list value) (st : ThreadState) : ThreadState :=
  mk_ThreadState (frames st) s (open_upvalues st).
Definition set_open (u : list obj) (st : ThreadState) : ThreadState :=
  mk_ThreadState (frames st) (stack st) u.
Definition push_frame (f : Frame) (st : ThreadState) : ThreadState :=
  set_frames (f :: frames st) st.

Definition set_expected (r : option LuaReturn.t) (fr : lua_frame) : lua_frame :=
  mk_lua_frame (bottom fr) (closure fr) (base fr) (is_variable fr) (pc fr) (stack_size fr) r.
Definition set_variable (b : bool) (fr : lua_frame) : lua_frame :=
  mk_lua_frame (bottom fr) (closure fr) (base fr) b (pc fr) (stack_size fr) (expected_return fr).
Definition set_pc (pc : Z) (fr : lua_frame) : lua_frame :=
  mk_lua_frame (bottom fr) (closure fr) (base fr) (is_variable fr) pc (stack_size fr)
    (expected_return fr).

Definition reg (r : RegisterIndex) : nat := Z.to_nat (register_index r).

(** ** [ThreadState] *)

Definition mode (st : ThreadState) : outcome ThreadMode.t :=
  match frames st with
  | [] =>
      match stack st, open_upvalues st with
      | [], [] => Ok ThreadMode.Stopped
      | _, _ => Panic
      end
  | (Lua _ | Callback _ _ | Sequence_ _ _ _) :: _ => Ok ThreadMode.Normal
  | (HostSuspended _ _ _ | Start _ | Yielded) :: _ => Ok ThreadMode.Suspended
  | WaitThread :: _ => Ok ThreadMode.Waiting
  | Result _ :: _ => Ok ThreadMode.Result
  | [Error_ _] => Ok ThreadMode.Result
  | Error_ _ :: _ => Ok ThreadMode.Normal
  end.

Definition suspended_host_op (st : ThreadState) : option Z :=
  match frames st with HostSuspended _ _ handle :: _ => Some handle | _ => None end.

Definition prototype (w : World) (c : obj) : outcome FunctionPrototype :=
  match closures w !! c with Some c => Ok (proto c) | None => Panic end.

Definition push_call (w : World) (bottom : nat) (function : callee) (st : ThreadState)
  : outcome ThreadState :=
  match function with
  | MetaOps.Existing (Closure closure) =>
      proto ← prototype w closure;
      let fixed_params := Z.to_nat (fixed_params proto) in
      let stack_size := Z.to_nat (proto_stack_size proto) in
      given_params ← Slice.sub (length (stack st)) bottom;
      let var_params :=
        if (fixed_params <? given_params)%nat then (given_params - fixed_params)%nat else O in
      s ← Slice.rotate_right (stack st) bottom var_params;
      let base := (bottom + var_params)%nat in
      let s := resize (base + stack_size) Value.Nil s in
      Ok (push_frame (Lua (mk_lua_frame bottom closure base false 0 stack_size None))
            (set_stack s st))
  | _ => Ok (push_frame (Callback bottom function) st)
  end.

Definition return_to (bottom : nat) (st : ThreadState) : outcome ThreadState :=
  match frames st with
  | Sequence_ _ _ _ :: _ => Ok st
  | Lua fr :: rest =>
      return_len ← Slice.sub (length (stack st)) bottom;
      match expected_return fr with
      | Some (LuaReturn.Normal ret_count) =>
          let return_len :=
            match VarCount.to_constant ret_count with
            | Some c => Z.to_nat c
            | None => return_len
            end in
          let s := take (bottom + return_len) (stack st) in
          let variable := VarCount.is_variable ret_count in
          let s := if variable then s else resize (base fr + stack_size fr) Value.Nil s in
          Ok (mk_ThreadState (Lua (set_variable variable (set_expected None fr)) :: rest) s
                (open_upvalues st))
      | Some (LuaReturn.Meta meta_ret) =>
          let meta_val := default Value.Nil (stack st !! bottom) in
          let s := resize (base fr + stack_size fr) Value.Nil (take bottom (stack st)) in
          let fr := set_variable false (set_expected None fr) in
          match meta_ret with
          | MetaReturn.None => Ok (mk_ThreadState (Lua fr :: rest) s (open_upvalues st))
          | MetaReturn.Register r =>
              s ← Slice.set s (base fr + reg r) meta_val;
              Ok (mk_ThreadState (Lua fr :: rest) s (open_upvalues st))
          | MetaReturn.SkipIf skip_if =>
              pc ← (if eqb (Value.to_bool meta_val) skip_if then arith usize (pc fr + 1)
                    else Ok (pc fr));
              Ok (mk_ThreadState (Lua (set_pc pc fr) :: rest) s (open_upvalues st))
          end
      | None => Panic
      end
  | [] => Ok (push_frame (Result bottom) st)
  | _ => Panic
  end.

(** The values or the error taken *)
Definition state_take_result (st : ThreadState) : outcome ((list value + Error) * ThreadState) :=
  match frames st with
  | Result bottom :: rest =>
      '(s, vals) ← Slice.drain (stack st) bottom;
      Ok (inl vals, mk_ThreadState rest s (open_upvalues st))
  | Error_ err :: rest =>
      match stack st, rest, open_upvalues st with
      | [], [], [] => Ok (inr err, mk_ThreadState [] [] [])
      | _, _, _ => Panic
      end
  | _ => Panic
  end.

(** ** Open upvalues *)

Definition open_upvalue_ind (w : World) (u : obj) : outcome nat :=
  match upvalues w !! u with
  | Some (Open _ i) => Ok i
  | _ => Panic
  end.

(** [binary_search_by(|&u| open_upvalue_ind(u).cmp(&ind))] on the upvalues in the order of
    their positions: [inl] the place of the one at [ind], [inr] the place to insert it *)
Fixpoint search (w : World) (us : list obj) (ind : nat) : outcome (nat + nat) :=
  match us with
  | [] => Ok (inr O)
  | u :: us =>
      i ← open_upvalue_ind w u;
      match Nat.compare i ind with
      | Lt =>
          r ← search w us ind;
          Ok (match r with inl k => inl (Datatypes.S k) | inr k => inr (Datatypes.S k) end)
      | Eq => Ok (inl O)
      | Gt => Ok (inr O)
      end
  end.

(** [Ok(i) => i, Err(i) => i] *)
Definition either_index (r : nat + nat) : nat := match r with inl i | inr i => i end.

(** The loop of both [close_upvalues], on the upvalues of the thread [this] *)
Fixpoint close_each (this : obj) (s : list value) (us : list obj) (w : World) : outcome World :=
  match us with
  | [] => Ok w
  | u :: us =>
      match upvalues w !! u with
      | Some (Open thread stack_index) =>
          if bool_decide (thread = this) then
            v ← Slice.get s stack_index;
            close_each this s us (set_upvalues (<[u := Closed v]> (upvalues w)) w)
          else Panic
      | _ => Panic
      end
  end.

Definition close_upvalues (this : obj) (bottom : nat) (st : ThreadState) (w : World)
  : outcome (ThreadState * World) :=
  r ← search w (open_upvalues st) bottom;
  let start := either_index r in
  w ← close_each this (stack st) (drop start (open_upvalues st)) w;
  Ok (set_open (take start (open_upvalues st)) st, w).

Definition state_reset (this : obj) (st : ThreadState) (w : World)
  : outcome (ThreadState * World) :=
  '(st, w) ← close_upvalues this 0 st w;
  match open_upvalues st with
  | [] => Ok (mk_ThreadState [] [] [], w)
  | _ => Panic
  end.

(** ** [LuaFrame]: the operations of a running Lua frame

    They return what the source does, [inr] for an error, along with the new state, which
    an error leaves as far as the code got. *)
Record LuaFrame : Type := mk_LuaFrame {
  thread : obj;
  state : ThreadState;
  world : World;
  fuel : Fuel.t
}.

Abbreviation result := (outcome ((unit + VMError.t) * LuaFrame)).
Definition done (m : LuaFrame) : result := Ok (inl tt, m).
Definition fail (e : VMError.t) (m : LuaFrame) : result := Ok (inr e, m).

Definition set_state (st : ThreadState) (m : LuaFrame) : LuaFrame :=
  mk_LuaFrame (thread m) st (world m) (fuel m).
Definition set_world (w : World) (m : LuaFrame) : LuaFrame :=
  mk_LuaFrame (thread m) (state m) w (fuel m).
Definition consume (amount : Z) (m : LuaFrame) : LuaFrame :=
  mk_LuaFrame (thread m) (state m) (world m) (Fuel.consume amount (fuel m)).

Definition FUEL_PER_CALL : Z := 4.
Definition FUEL_PER_ITEM : Z := 1.
Definition consume_items (count : nat) (m : LuaFrame) : LuaFrame :=
  consume (Fuel.count_fuel FUEL_PER_ITEM (Z.of_nat count)) m.

Definition top (m : LuaFrame) : outcome (lua_frame * list Frame) :=
  match frames (state m) with Lua fr :: rest => Ok (fr, rest) | _ => Panic end.

Definition count_or (count : VarCount.t) (otherwise : outcome nat) : outcome nat :=
  match VarCount.to_constant count with Some c => Ok (Z.to_nat c) | None => otherwise end.

(** [stack.len() - function_index - 1] *)
Definition args_above (s : list value) (function_index : nat) : outcome nat :=
  n ← Slice.sub (length s) function_index;
  Slice.sub n 1.

Definition varargs (dest : RegisterIndex) (count : VarCount.t) (m : LuaFrame) : result :=
  '(fr, rest) ← top m;
  if is_variable fr then fail (VMError.ExpectedVariableStack false) m
  else
    let m := consume FUEL_PER_CALL m in
    let varargs_start := bottom fr in
    varargs_len ← Slice.sub (base fr) varargs_start;
    let dest := (base fr + reg dest)%nat in
    let s := stack (state m) in
    match VarCount.to_constant count with
    | Some count =>
        let count := Z.to_nat count in
        let m := consume_items count m in
        s ← (if (count <=? varargs_len)%nat then Slice.copy_within s varargs_start count dest
             else
               s ← Slice.copy_within s varargs_start varargs_len dest;
               Slice.fill s (dest + varargs_len) (dest + count) Value.Nil);
        done (set_state (set_stack s (state m)) m)
    | None =>
        let m := consume_items varargs_len m in
        s ← Slice.extend_from_within (take dest s) varargs_start varargs_len;
        done (set_state (mk_ThreadState (Lua (set_variable true fr) :: rest) s
                (open_upvalues (state m))) m)
    end.

(** The frame that calls, with what it expects back *)
Definition expecting (r : LuaReturn.t) (fr : lua_frame) (rest : list Frame) (st : ThreadState)
  : ThreadState :=
  set_frames (Lua (set_expected (Some r) fr) :: rest) st.

Definition call_function (h : MetaOps.Heap S) (func : RegisterIndex) (args returns : VarCount.t)
    (m : LuaFrame) : result :=
  '(fr, rest) ← top m;
  if negb (eqb (is_variable fr) (VarCount.is_variable args))
  then fail (VMError.ExpectedVariableStack (VarCount.is_variable args)) m
  else
    let m := consume FUEL_PER_CALL m in
    let function_index := (base fr + reg func)%nat in
    arg_count ← count_or args (args_above (stack (state m)) function_index);
    f ← Slice.get (stack (state m)) function_index;
    match MetaOps.call h f with
    | inr e => fail (VMError.BadCall e) m
    | inl call =>
        let st := expecting (LuaReturn.Normal returns) fr rest (state m) in
        let m := consume_items arg_count m in
        s ← Slice.remove (stack st) function_index;
        let s := take (function_index + arg_count) s in
        st ← push_call (world m) function_index call (set_stack s st);
        done (set_state st m)
    end.

Definition call_function_keep (h : MetaOps.Heap S) (func : RegisterIndex) (arg_count : Z)
    (returns : VarCount.t) (m : LuaFrame) : result :=
  '(fr, rest) ← top m;
  if is_variable fr then fail (VMError.ExpectedVariableStack false) m
  else
    let m := consume FUEL_PER_CALL m in
    let arg_count := Z.to_nat arg_count in
    let function_index := (base fr + reg func)%nat in
    let top := (function_index + 1 + arg_count)%nat in
    f ← Slice.get (stack (state m)) function_index;
    match MetaOps.call h f with
    | inr e => fail (VMError.BadCall e) m
    | inl call =>
        let st := expecting (LuaReturn.Normal returns) fr rest (state m) in
        let m := consume_items arg_count m in
        let s := take top (stack st) in
        s ← Slice.extend_from_within s (function_index + 1) arg_count;
        st ← push_call (world m) top call (set_stack s st);
        done (set_state st m)
    end.

Definition call_meta_function (func : callee) (args : list value) (meta_ret : MetaReturn.t)
    (m : LuaFrame) : result :=
  '(fr, rest) ← top m;
  if is_variable fr then fail (VMError.ExpectedVariableStack false) m
  else
    let m := consume FUEL_PER_CALL m in
    let top := length (stack (state m)) in
    _ ← rust_assert (top =? base fr + stack_size fr)%nat;
    let st := expecting (LuaReturn.Meta meta_ret) fr rest (state m) in
    let m := consume_items (length args) m in
    st ← push_call (world m) top func (set_stack (stack st ++ args) st);
    done (set_state st m).

Definition tail_call_function (h : MetaOps.Heap S) (func : RegisterIndex) (args : VarCount.t)
    (m : LuaFrame) : result :=
  '(fr, rest) ← top m;
  if negb (eqb (is_variable fr) (VarCount.is_variable args))
  then fail (VMError.ExpectedVariableStack (VarCount.is_variable args)) m
  else
    let m := consume FUEL_PER_CALL m in
    let function_index := (base fr + reg func)%nat in
    arg_count ← count_or args (args_above (stack (state m)) function_index);
    f ← Slice.get (stack (state m)) function_index;
    match MetaOps.call h f with
    | inr e => fail (VMError.BadCall e) m
    | inl call =>
        '(st, w) ← close_upvalues (thread m) (bottom fr) (state m) (world m);
        let m := consume_items arg_count (set_world w m) in
        s ← Slice.copy_within (stack st) (function_index + 1) arg_count (bottom fr);
        let s := take (bottom fr + arg_count) s in
        st ← push_call w (bottom fr) call (set_frames rest (set_stack s st));
        done (set_state st m)
    end.

(** The frame is popped before its check. *)
Definition return_upper (start : RegisterIndex) (count : VarCount.t) (m : LuaFrame) : result :=
  '(fr, rest) ← top m;
  let m := set_state (set_frames rest (state m)) m in
  if negb (eqb (is_variable fr) (VarCount.is_variable count))
  then fail (VMError.ExpectedVariableStack (VarCount.is_variable count)) m
  else
    let m := consume FUEL_PER_CALL m in
    '(st, w) ← close_upvalues (thread m) (bottom fr) (state m) (world m);
    let start := (base fr + reg start)%nat in
    count ← count_or count (Slice.sub (length (stack st)) start);
    let m := consume_items count (set_world w m) in
    s ← Slice.copy_within (stack st) start count (bottom fr);
    let s := take (bottom fr + count) s in
    st ← return_to (bottom fr) (set_stack s st);
    done (set_state st m).

(** ** [LuaRegisters]: the registers and upvalues of the running frame *)

Definition registers (m : LuaFrame) : outcome (@Vm.registers S) :=
  '(fr, _) ← top m;
  s ← Slice.slice (stack (state m)) (base fr) (length (stack (state m)));
  Ok (Vm.mk_registers s (pc fr)).

(** What an instruction wrote through the borrowed registers *)
Definition put_registers (r : @Vm.registers S) (m : LuaFrame) : outcome LuaFrame :=
  '(fr, rest) ← top m;
  Ok (set_state (mk_ThreadState (Lua (set_pc (Vm.pc r) fr) :: rest)
        (take (base fr) (stack (state m)) ++ Vm.stack_frame r) (open_upvalues (state m))) m).

Definition new_upvalue (s : UpValueState) (w : World) : obj * World :=
  let u := fresh (dom (upvalues w)) in
  (u, set_upvalues (<[u := s]> (upvalues w)) w).

Definition insert_at {A} (i : nat) (a : A) (l : list A) : list A := take i l ++ a :: drop i l.

Definition open_upvalue (r : RegisterIndex) (m : LuaFrame) : outcome (obj * LuaFrame) :=
  '(fr, _) ← top m;
  let ind := (base fr + reg r)%nat in
  let us := open_upvalues (state m) in
  found ← search (world m) us ind;
  match found with
  | inl i => u ← Slice.get us i; Ok (u, m)
  | inr i =>
      let '(u, w) := new_upvalue (Open (thread m) ind) (world m) in
      Ok (u, set_world w (set_state (set_open (insert_at i u us) (state m)) m))
  end.

(** [thread.upgrade(mc).expect(..).borrow()] *)
Definition borrow (w : World) (t : obj) : outcome ThreadState :=
  match threads w !! t with Some st => Ok st | None => Panic end.

Definition get_upvalue (u : obj) (m : LuaFrame) : outcome value :=
  '(fr, _) ← top m;
  match upvalues (world m) !! u with
  | Some (Open t stack_index) =>
      if bool_decide (t = thread m) then
        _ ← rust_assert (stack_index <? bottom fr)%nat;
        Slice.get (take (base fr) (stack (state m))) stack_index
      else
        st ← borrow (world m) t;
        Slice.get (stack st) stack_index
  | Some (Closed v) => Ok v
  | None => Panic
  end.

Definition set_upvalue (u : obj) (v : value) (m : LuaFrame) : outcome LuaFrame :=
  '(fr, _) ← top m;
  match upvalues (world m) !! u with
  | Some (Open t stack_index) =>
      if bool_decide (t = thread m) then
        _ ← rust_assert (stack_index <? bottom fr)%nat;
        upper ← Slice.set (take (base fr) (stack (state m))) stack_index v;
        Ok (set_state (set_stack (upper ++ drop (base fr) (stack (state m))) (state m)) m)
      else
        st ← borrow (world m) t;
        s ← Slice.set (stack st) stack_index v;
        Ok (set_world (set_threads (<[t := set_stack s st]> (threads (world m))) (world m)) m)
  | Some (Closed _) =>
      Ok (set_world (set_upvalues (<[u := Closed v]> (upvalues (world m))) (world m)) m)
  | None => Panic
  end.

(** [LuaRegisters::close_upvalues]: the variables from a register on.  [upper_stack] and
    [stack_frame] are the two parts of the one stack. *)
Definition registers_close_upvalues (bottom_register : RegisterIndex) (m : LuaFrame)
  : outcome LuaFrame :=
  '(fr, _) ← top m;
  '(st, w) ← close_upvalues (thread m) (base fr + reg bottom_register) (state m) (world m);
  Ok (set_world w (set_state st m)).

(** ** [Thread]: the operations of the host

    [inr] is the [BadThreadMode] the source returns. *)
Abbreviation thread_result A := (outcome ((A + BadThreadMode) * World)).

Definition thread_mode (w : World) (t : obj) : outcome ThreadMode.t :=
  match threads w !! t with Some st => mode st | None => Ok ThreadMode.Running end.

(** [check_mode], and [put_thread] for what was written through its borrow *)
Definition check_mode (w : World) (t : obj) (expected : ThreadMode.t)
  : outcome (ThreadState + BadThreadMode) :=
  match threads w !! t with
  | Some st =>
      found ← mode st;
      Ok (if bool_decide (found = expected) then inl st
          else inr (mk_BadThreadMode found (Some expected)))
  | None => Ok (inr (mk_BadThreadMode ThreadMode.Running (Some expected)))
  end.

Definition put_thread (t : obj) (st : ThreadState) (w : World) : World :=
  set_threads (<[t := st]> (threads w)) w.

(** The world while the thread is borrowed *)
Definition borrowed (t : obj) (w : World) : World := set_threads (delete t (threads w)) w.

(** A thread operation in a mode *)
Definition in_mode {A} (w : World) (t : obj) (expected : ThreadMode.t)
    (op : ThreadState -> outcome (A * ThreadState)) : thread_result A :=
  st ← check_mode w t expected;
  match st with
  | inl st => '(a, st) ← op st; Ok (inl a, put_thread t st w)
  | inr e => Ok (inr e, w)
  end.

Definition new (w : World) : obj * World :=
  let t := fresh (dom (threads w)) in
  (t, put_thread t (mk_ThreadState [] [] []) w).

Definition start (w : World) (t : obj) (function : callee) (args : list value)
  : thread_result unit :=
  in_mode w t ThreadMode.Stopped (fun st =>
    _ ← rust_assert (Slice.is_empty (stack st));
    st ← push_call w 0 function (set_stack (stack st ++ args) st);
    Ok (tt, st)).

Definition start_suspended (w : World) (t : obj) (function : callee) : thread_result unit :=
  in_mode w t ThreadMode.Stopped (fun st => Ok (tt, push_frame (Start function) st)).

Definition take_result (w : World) (t : obj) : thread_result (list value + Error) :=
  in_mode w t ThreadMode.Result state_take_result.

Definition resume (w : World) (t : obj) (args : list value) : thread_result unit :=
  in_mode w t ThreadMode.Suspended (fun st =>
    let bottom := length (stack st) in
    let s := stack st ++ args in
    match frames st with
    | Start function :: rest =>
        _ ← rust_assert ((bottom =? 0)%nat && Slice.is_empty (open_upvalues st) &&
                         Slice.is_empty rest);
        st ← push_call w 0 function (mk_ThreadState rest s (open_upvalues st));
        Ok (tt, st)
    | Yielded :: rest =>
        st ← return_to bottom (mk_ThreadState rest s (open_upvalues st));
        Ok (tt, st)
    | _ => Panic
    end).

Definition resume_err (w : World) (t : obj) (error : Error) : thread_result unit :=
  in_mode w t ThreadMode.Suspended (fun st =>
    match frames st with
    | (Start _ | Yielded) :: rest => Ok (tt, push_frame (Error_ error) (set_frames rest st))
    | _ => Panic
    end).

Definition reset (w : World) (t : obj) : thread_result unit :=
  match threads w !! t with
  | Some st =>
      '(st, w) ← state_reset t st (borrowed t w);
      Ok (inl tt, put_thread t st w)
  | None => Ok (inr (mk_BadThreadMode ThreadMode.Running None), w)
  end.

(** ** The instructions of calls and upvalues *)

Definition current (m : LuaFrame) : outcome ClosureInner :=
  '(fr, _) ← top m;
  match closures (world m) !! closure fr with Some c => Ok c | None => Panic end.

(** The upvalues of a new closure, in the order of its descriptors *)
Fixpoint capture (outer : list obj) (descs : list UpValueDescriptor) (m : LuaFrame)
  : outcome ((list obj + VMError.t) * LuaFrame) :=
  match descs with
  | [] => Ok (inl [], m)
  | desc :: descs =>
      match desc with
      | Environment => Ok (inr VMError.BadEnvUpValue, m)
      | ParentLocal r =>
          '(u, m) ← open_upvalue r m;
          '(us, m) ← capture outer descs m;
          Ok (match us with inl us => inl (u :: us) | inr e => inr e end, m)
      | Outer i =>
          u ← Slice.get outer (Z.to_nat (upvalue_index i));
          '(us, m) ← capture outer descs m;
          Ok (match us with inl us => inl (u :: us) | inr e => inr e end, m)
      end
  end.

(** [closure_allocation_bytes], for the sizes of [ClosureInner] and [UpValue] in memory *)
Definition closure_allocation_bytes (size_of_inner size_of_upvalue count : Z) : Z :=
  saturating usize (saturating usize (size_of_inner + 8) + saturating usize (count * size_of_upvalue)).

(** [Closure::try_from_parts]; [bytes] is the charge and [allocated] what the arena has
    allocated by now. *)
Definition try_from_parts (allocated bytes : Z) (c : ClosureInner) (w : World)
  : (obj + Memory.OutOfMemory) * World :=
  let '(r, memory) := Memory.check allocated bytes (memory w) in
  let w := mk_World (threads w) (upvalues w) (closures w) memory in
  match r with
  | inl _ =>
      let p := fresh (dom (closures w)) in
      (inl p, mk_World (threads w) (upvalues w) (<[p := c]> (closures w)) memory)
  | inr e => (inr e, w)
  end.

(** Write a register through the borrowed slice. *)
Definition write (dest : RegisterIndex) (v : value) (m : LuaFrame) : outcome LuaFrame :=
  r ← registers m;
  r ← Vm.set_register r dest v;
  put_registers r m.
Definition read (source : RegisterIndex) (m : LuaFrame) : outcome value :=
  r ← registers m;
  Vm.get_register r source.

Definition exec_closure (allocated size_of_inner size_of_upvalue : Z) (p : PrototypeIndex)
    (dest : RegisterIndex) (m : LuaFrame) : result :=
  c ← current m;
  proto ← Slice.get (prototypes (proto c)) (Z.to_nat (prototype_index p));
  '(us, m) ← capture (closure_upvalues c) (upvalue_descriptors proto) m;
  match us with
  | inr e => fail e m
  | inl us =>
      let bytes := closure_allocation_bytes size_of_inner size_of_upvalue (Z.of_nat (length us)) in
      let '(r, w) := try_from_parts allocated bytes (mk_ClosureInner proto us) (world m) in
      let m := set_world w m in
      match r with
      | inr e => fail (VMError.OutOfMemory e) m
      | inl closure => m ← write dest (Value.Function (Closure closure)) m; done m
      end
  end.

(** The arms of [run_vm] for calls and upvalues; [None] for the others *)
Definition exec (h : MetaOps.Heap S) (allocated size_of_inner size_of_upvalue : Z)
    (op : Operation.t) (m : LuaFrame) : option result :=
  match op with
  | Operation.Call func args returns => Some (call_function h func args returns m)
  | Operation.TailCall func args => Some (tail_call_function h func args m)
  | Operation.Return start count => Some (return_upper start count m)
  | Operation.VarArgs dest count => Some (varargs dest count m)
  | Operation.GenericForCall base var_count => Some (
      count ← VarCount.constant var_count;
      call_function_keep h base 2 count m)
  | Operation.Closure dest proto =>
      Some (exec_closure allocated size_of_inner size_of_upvalue proto dest m)
  | Operation.GetUpValue dest source => Some (
      c ← current m;
      u ← Slice.get (closure_upvalues c) (Z.to_nat (upvalue_index source));
      v ← get_upvalue u m;
      m ← write dest v m;
      done m)
  | Operation.SetUpValue dest source => Some (
      c ← current m;
      u ← Slice.get (closure_upvalues c) (Z.to_nat (upvalue_index dest));
      v ← read source m;
      m ← set_upvalue u v m;
      done m)
  | _ => None
  end.

End Thread.
End Thread.
