(* ===== verification/ThreadFacts.v ===== *)
(** * Facts on threads: slices, frames, open upvalues

    The invariant of a thread between two steps of the machine, and what each of the
    building blocks of [Thread] does under it. *)

From S2P Require Import Prelude Slices Float64 StringUtils Constant Value MetaOps Opcode Operators Limits Vm Thread.
From stdpp Require Import sorting.

Module ThreadFacts.
Import Thread SliceFacts.
Section ThreadFacts.
Context `{BuildProfile} {S : Type} `{AsBytes S} {Sequence Error : Type}.
Abbreviation value := (Value.t S).
Abbreviation Frame := (@Thread.Frame S Sequence Error).
Abbreviation ThreadState := (@Thread.ThreadState S Sequence Error).
Abbreviation World := (@Thread.World S Sequence Error).
Abbreviation LuaFrame := (@Thread.LuaFrame S Sequence Error).
Implicit Types (w : World) (st : ThreadState) (m : LuaFrame) (t u : obj) (us : list obj).

(** ** Open upvalues

    [us] are the open upvalues of the thread [t], each a variable at a position of its
    own below [limit], in order, and there are no others. *)
Record wf_open t us (limit : nat) w : Prop := {
  wo_sorted : exists is_, Forall2 (fun u i => upvalues w !! u = Some (Open t i)) us is_ /\
    StronglySorted lt is_ /\ Forall (fun i => (i < limit)%nat) is_;
  wo_complete : forall u i, upvalues w !! u = Some (Open t i) -> u ∈ us
}.

(** The variable behind an upvalue *)
Definition variable t st w u : option value :=
  match upvalues w !! u with
  | Some (Closed v) => Some v
  | Some (Open t' i) =>
      if bool_decide (t' = t) then stack st !! i
      else threads w !! t' ≫= fun st => stack st !! i
  | None => None
  end.

(** Upvalues of the other threads are the same. *)
Record same_elsewhere t w w' : Prop := {
  se_threads : threads w' = threads w;
  se_closures : closures w' = closures w;
  se_open : forall t' u i, t' <> t ->
    upvalues w' !! u = Some (Open t' i) <-> upvalues w !! u = Some (Open t' i);
  se_dom : forall u, is_Some (upvalues w !! u) -> is_Some (upvalues w' !! u)
}.

Lemma wf_open_elsewhere t t' us limit w w' : same_elsewhere t w w' -> t' <> t ->
  wf_open t' us limit w -> wf_open t' us limit w'.
Proof.
  intros [_ _ Hiff _] Hne [(is_ & Hp & Hs & Hl) Hc]. split.
  - exists is_. split; [|done]. eapply Forall2_impl; [exact Hp|]. intros u i Hu. by apply Hiff.
  - intros u i Hu. apply (Hc u i). by apply Hiff.
Qed.

Lemma wf_open_limit t us l l' w : (l <= l')%nat -> wf_open t us l w -> wf_open t us l' w.
Proof.
  intros Hl [(is_ & Hp & Hs & Hb) Hc]. split; [|done]. exists is_. split_and!; [done..|].
  eapply Forall_impl; [exact Hb|]. cbn. lia.
Qed.

Lemma wf_open_lt t us limit w u i : wf_open t us limit w ->
  upvalues w !! u = Some (Open t i) -> (i < limit)%nat.
Proof.
  intros [(is_ & Hp & Hs & Hb) Hc] Hu. pose proof (Hc _ _ Hu) as Hin.
  apply list_elem_of_lookup in Hin as [k Hk].
  destruct (Forall2_lookup_l _ _ _ _ _ Hp Hk) as (j & Hj & Hu').
  rewrite Hu in Hu'. injection Hu' as <-. by apply (Forall_lookup_1 _ _ _ _ Hb Hj).
Qed.

Lemma sorted_lookup_lt (l : list nat) j k x y : StronglySorted lt l ->
  l !! j = Some x -> l !! k = Some y -> (j < k)%nat -> (x < y)%nat.
Proof.
  intros Hs Hj Hk Hlt. rewrite <- (take_drop k l) in Hs.
  refine (StronglySorted_app_1_elem_of _ _ _ x y Hs _ _).
  - apply list_elem_of_lookup_2 with j. by rewrite lookup_take_lt.
  - apply list_elem_of_lookup_2 with 0%nat. by rewrite lookup_drop, Nat.add_0_r.
Qed.

(** Sorted positions are distinct: an upvalue per variable. *)
Lemma wf_open_inj t us limit w u u' i : wf_open t us limit w ->
  upvalues w !! u = Some (Open t i) -> upvalues w !! u' = Some (Open t i) -> u = u'.
Proof.
  intros [(is_ & Hp & Hs & _) Hc] Hu Hu'.
  destruct (list_elem_of_lookup_1 _ _ (Hc _ _ Hu)) as [k Hk].
  destruct (list_elem_of_lookup_1 _ _ (Hc _ _ Hu')) as [k' Hk'].
  destruct (Forall2_lookup_l _ _ _ _ _ Hp Hk) as (j & Hj & E).
  destruct (Forall2_lookup_l _ _ _ _ _ Hp Hk') as (j' & Hj' & E').
  assert (j = i) as -> by congruence. assert (j' = i) as -> by congruence.
  destruct (Nat.lt_total k k') as [Hlt|[->|Hlt]]; [|congruence|].
  - pose proof (sorted_lookup_lt _ _ _ _ _ Hs Hj Hj' Hlt). lia.
  - pose proof (sorted_lookup_lt _ _ _ _ _ Hs Hj' Hj Hlt). lia.
Qed.

Lemma search_spec t w us is_ ind :
  Forall2 (fun u i => upvalues w !! u = Some (Open t i)) us is_ -> StronglySorted lt is_ ->
  exists r, search w us ind = Ok r /\
    Forall (fun i => (i < ind)%nat) (take (either_index r) is_) /\
    match r with
    | inl k => is_ !! k = Some ind
    | inr k => (k <= length is_)%nat /\ Forall (fun i => (ind < i)%nat) (drop k is_)
    end.
Proof.
  intros Hp. induction Hp as [|u i us is_ Hu Hp IH]; intros Hs; cbn [search].
  { exists (inr O). cbn. auto. }
  apply StronglySorted_cons in Hs as [Hi Hs]. unfold open_upvalue_ind. rewrite Hu, outcome_bind_Ok.
  destruct (Nat.compare_spec i ind) as [->|Hlt|Hgt].
  - exists (inl O). cbn. auto.
  - destruct (IH Hs) as (r & -> & Hbelow & Hr). rewrite outcome_bind_Ok. eexists. split; [reflexivity|].
    destruct r as [k|k]; cbn in *; [by auto|]. destruct Hr as [Hk Hr]. auto with lia.
  - exists (inr O). cbn. split_and!; [done|constructor|lia|]. constructor; [done|].
    eapply Forall_impl; [exact Hi|]. cbn. lia.
Qed.

(** From the place found on, the positions are at [ind] or above. *)
Lemma search_above (is_ : list nat) ind r : StronglySorted lt is_ ->
  match r with
  | inl k => is_ !! k = Some ind
  | inr k => (k <= length is_)%nat /\ Forall (fun i => (ind < i)%nat) (drop k is_)
  end -> Forall (fun i => (ind <= i)%nat) (drop (either_index r) is_).
Proof.
  intros Hs. destruct r as [k|k]; cbn; [|intros [_ Hf]; eapply Forall_impl; [exact Hf|cbn; lia]].
  intros Hk. rewrite (drop_S _ _ _ Hk). rewrite <- (take_drop_middle _ _ _ Hk) in Hs.
  apply StronglySorted_app in Hs as (_ & _ & Hs). apply StronglySorted_cons in Hs as [Hs _].
  constructor; [lia|]. eapply Forall_impl; [exact Hs|]. cbn. lia.
Qed.

Lemma close_each_spec t s us is_ w :
  Forall2 (fun u i => upvalues w !! u = Some (Open t i)) us is_ -> NoDup us ->
  Forall (fun i => (i < length s)%nat) is_ ->
  exists w', close_each t s us w = Ok w' /\
    threads w' = threads w /\ closures w' = closures w /\ memory w' = memory w /\
    (forall u, u ∉ us -> upvalues w' !! u = upvalues w !! u) /\
    Forall2 (fun u i => exists v, s !! i = Some v /\ upvalues w' !! u = Some (Closed v)) us is_.
Proof.
  revert is_ w. induction us as [|u us IH]; intros is_ w Hp Hd Hl; cbn [close_each].
  { exists w. apply Forall2_nil_inv_l in Hp as ->. split_and!; done. }
  apply Forall2_cons_inv_l in Hp as (i & is' & Hu & Hp & ->).
  apply NoDup_cons in Hd as [Hnin Hd]. apply Forall_cons in Hl as [Hi Hl].
  rewrite Hu, bool_decide_eq_true_2 by done.
  destruct (lookup_lt_is_Some_2 _ _ Hi) as [v Hv]. rewrite (get_Some _ _ _ Hv), outcome_bind_Ok.
  set (w1 := set_upvalues (<[u := Closed v]> (upvalues w)) w).
  assert (Hp1 : Forall2 (fun u i => upvalues w1 !! u = Some (Open t i)) us is').
  { apply Forall2_same_length_lookup_2; [by eapply Forall2_length|]. intros k u' j Hu' Hj.
    cbn. rewrite lookup_insert_ne; [exact (Forall2_lookup_lr _ _ _ _ _ _ Hp Hu' Hj)|].
    intros ->. apply Hnin. by apply list_elem_of_lookup_2 in Hu'. }
  destruct (IH is' w1 Hp1 Hd Hl) as (w' & E & Ht & Hc & Hm & Hout & Hin).
  exists w'. split_and!; [done..| |].
  - intros u' Hu'. apply not_elem_of_cons in Hu' as [Hne Hu']. rewrite Hout by done. cbn.
    by rewrite lookup_insert_ne.
  - constructor; [|done]. exists v. split; [done|]. rewrite Hout by done. cbn. apply lookup_insert_eq.
Qed.

Lemma wf_open_NoDup t us limit w : wf_open t us limit w -> NoDup us.
Proof.
  intros [(is_ & Hp & Hs & _) _]. apply NoDup_alt. intros j k u Hj Hk.
  destruct (Forall2_lookup_l _ _ _ _ _ Hp Hj) as (x & Hx & E).
  destruct (Forall2_lookup_l _ _ _ _ _ Hp Hk) as (y & Hy & E').
  assert (x = y) as -> by congruence.
  destruct (Nat.lt_total j k) as [Hlt|[->|Hlt]]; [|done|].
  - pose proof (sorted_lookup_lt _ _ _ _ _ Hs Hx Hy Hlt). lia.
  - pose proof (sorted_lookup_lt _ _ _ _ _ Hs Hy Hx Hlt). lia.
Qed.

(** What closing from [b] on makes of each upvalue: kept, or closed with its value *)
Definition closed_from t b st w w' : Prop :=
  forall u, (upvalues w' !! u = upvalues w !! u /\
      forall i, upvalues w !! u = Some (Open t i) -> (i < b)%nat) \/
    exists i v, upvalues w !! u = Some (Open t i) /\ (b <= i)%nat /\ stack st !! i = Some v /\
      upvalues w' !! u = Some (Closed v).

Lemma close_upvalues_cases t b st w : wf_open t (open_upvalues st) (length (stack st)) w ->
  exists k w' is_, close_upvalues t b st w = Ok (set_open (take k (open_upvalues st)) st, w') /\
    threads w' = threads w /\ closures w' = closures w /\ memory w' = memory w /\
    closed_from t b st w w' /\
    Forall2 (fun u i => upvalues w !! u = Some (Open t i)) (open_upvalues st) is_ /\
    StronglySorted lt is_ /\ Forall (fun i => (i < length (stack st))%nat) is_ /\
    Forall (fun i => (i < b)%nat) (take k is_) /\ Forall (fun i => (b <= i)%nat) (drop k is_).
Proof.
  intros Hwf. pose proof (wf_open_NoDup _ _ _ _ Hwf) as Hnd.
  destruct (Hwf) as [(is_ & Hp & Hs & Hl) Hc]. unfold close_upvalues.
  destruct (search_spec t w _ is_ b Hp Hs) as (r & -> & Hbelow & Hr).
  pose proof (search_above _ _ _ Hs Hr) as Habove. rewrite outcome_bind_Ok.
  set (k := either_index r) in *. set (us := open_upvalues st) in *.
  assert (Hnd' : NoDup (drop k us)).
  { rewrite <- (take_drop k us) in Hnd. by apply NoDup_app in Hnd as (_ & _ & ?). }
  pose proof (Forall2_take _ _ _ k Hp) as Hp1. pose proof (Forall2_drop _ _ _ k Hp) as Hp2.
  destruct (close_each_spec t (stack st) (drop k us) (drop k is_) w Hp2 Hnd' (Forall_drop _ _ _ Hl))
    as (w' & -> & Hth & Hcl & Hmem & Hout & Hin).
  rewrite outcome_bind_Ok. exists k, w', is_. split_and!; try done.
  intros u. destruct (decide (u ∈ drop k us)) as [Hu|Hu]; [right|left].
  - apply list_elem_of_lookup_1 in Hu as [j Hj].
    destruct (Forall2_lookup_l _ _ _ _ _ Hin Hj) as (i & Hi & v & Hv & Hu').
    destruct (Forall2_lookup_l _ _ _ _ _ Hp2 Hj) as (i' & Hi' & E).
    assert (i' = i) as -> by congruence.
    exists i, v. split_and!; try done. exact (Forall_lookup_1 _ _ _ _ Habove Hi).
  - split; [by apply Hout|]. intros i E. pose proof (Hc _ _ E) as Hu'. fold us in Hu'.
    rewrite <- (take_drop k us) in Hu'. apply elem_of_app in Hu' as [Hu'|?]; [|done].
    apply list_elem_of_lookup_1 in Hu' as [j Hj].
    destruct (Forall2_lookup_l _ _ _ _ _ Hp1 Hj) as (i' & Hi' & E').
    assert (i' = i) as -> by congruence. exact (Forall_lookup_1 _ _ _ _ Hbelow Hi').
Qed.

(** Closing: the variables at [b] and above move out of the stack, with their values. *)
Lemma close_upvalues_spec t b st w : wf_open t (open_upvalues st) (length (stack st)) w ->
  exists us w', close_upvalues t b st w = Ok (set_open us st, w') /\
    same_elsewhere t w w' /\ memory w' = memory w /\
    wf_open t us (Nat.min b (length (stack st))) w' /\
    (forall u, variable t st w' u = variable t st w u) /\
    (forall u i, upvalues w' !! u = Some (Open t i) <->
       upvalues w !! u = Some (Open t i) /\ (i < b)%nat).
Proof.
  intros Hwf. destruct (close_upvalues_cases t b st w Hwf)
    as (k & w' & is_ & -> & Hth & Hcl & Hmem & Hcase & Hp & Hs & Hl & Hbelow & Habove).
  set (us := open_upvalues st) in *. exists (take k us), w'. split; [done|].
  assert (Hiff : forall u i, upvalues w' !! u = Some (Open t i) <->
    upvalues w !! u = Some (Open t i) /\ (i < b)%nat).
  { intros u i. destruct (Hcase u) as [[-> Hu]|(i' & v & -> & Hb & _ & ->)]; [by split; [auto|intros []]|].
    split; [done|]. intros [[= <-] ?]. lia. }
  split_and!; [split; [done..| |]|done| | |done].
  - intros t' u i Hne. destruct (Hcase u) as [[-> _]|(i' & v & -> & _ & _ & ->)]; [done|].
    split; [done|]. by intros [= -> _].
  - intros u Hu. destruct (Hcase u) as [[-> _]|(? & ? & _ & _ & _ & ->)]; by eauto.
  - split.
    + exists (take k is_). split_and!.
      * pose proof (Forall2_take _ _ _ k Hp) as Hp1.
        apply Forall2_same_length_lookup_2; [by eapply Forall2_length|].
        intros j u i Hj Hi. apply Hiff. split; [exact (Forall2_lookup_lr _ _ _ _ _ _ Hp1 Hj Hi)|].
        exact (Forall_lookup_1 _ _ _ _ Hbelow Hi).
      * rewrite <- (take_drop k is_) in Hs. by eapply StronglySorted_app_1_l.
      * pose proof (Forall_take _ k _ Hl) as Hl'. apply Forall_forall. intros i Hi.
        rewrite Forall_forall in Hbelow, Hl'. specialize (Hbelow i Hi). specialize (Hl' i Hi). lia.
    + intros u i Hu. apply Hiff in Hu as [Hu Hi].
      pose proof (wo_complete _ _ _ _ Hwf _ _ Hu) as Hu'. fold us in Hu'.
      rewrite <- (take_drop k us) in Hu'. apply elem_of_app in Hu' as [?|Hu']; [done|].
      apply list_elem_of_lookup_1 in Hu' as [j Hj].
      destruct (Forall2_lookup_l _ _ _ _ _ (Forall2_drop _ _ _ k Hp) Hj) as (i' & Hi' & E').
      assert (i' = i) as -> by congruence.
      pose proof (Forall_lookup_1 _ _ _ _ Habove Hi') as Hb. cbn in Hb. lia.
  - intros u. unfold variable. rewrite Hth.
    destruct (Hcase u) as [[-> _]|(i & v & -> & _ & Hv & ->)]; [done|].
    by rewrite bool_decide_eq_true_2.
Qed.

(** ** The objects of the world, with the thread [t] running *)
Record wf_world t st w : Prop := {
  ww_self : threads w !! t = None;
  ww_open : wf_open t (open_upvalues st) (length (stack st)) w;
  ww_others : forall t' st', threads w !! t' = Some st' ->
    wf_open t' (open_upvalues st') (length (stack st')) w;
  ww_alive : forall u t' i, upvalues w !! u = Some (Open t' i) -> t' <> t ->
    is_Some (threads w !! t');
  ww_closures : forall c ci u, closures w !! c = Some ci -> u ∈ closure_upvalues ci ->
    is_Some (upvalues w !! u)
}.

(** A change of the running thread and of its own upvalues *)
Lemma wf_world_step t st w st' w' : wf_world t st w -> same_elsewhere t w w' ->
  wf_open t (open_upvalues st') (length (stack st')) w' -> wf_world t st' w'.
Proof.
  intros [Hs Ho Hot Ha Hc] He Ho'. pose proof He as [Hth Hcl Hiff Hdom]. split.
  - by rewrite Hth.
  - done.
  - intros t' st2. rewrite Hth. intros Ht'. eapply wf_open_elsewhere; [done| |by apply Hot].
    intros ->. congruence.
  - intros u t' i Hu Hne. rewrite Hth. apply (Ha u t' i); [|done]. by apply Hiff.
  - intros c ci u. rewrite Hcl. intros Hci Hu. apply Hdom. by eapply Hc.
Qed.

Lemma same_elsewhere_refl t w : same_elsewhere t w w.
Proof. by split. Qed.

Lemma wf_world_stack t st w s : wf_world t st w -> length (stack st) = length s ->
  wf_world t (set_stack s st) w.
Proof.
  intros Hw Hl. eapply wf_world_step; [done|apply same_elsewhere_refl|]. cbn. rewrite <- Hl.
  apply Hw.
Qed.

(** Every upvalue there is has a variable. *)
Lemma variable_total t st w u : wf_world t st w -> is_Some (upvalues w !! u) ->
  is_Some (variable t st w u).
Proof.
  intros Hw [[t' i|v] Hu]; unfold variable; rewrite Hu; [|by eauto].
  case_bool_decide as Ht.
  - subst. apply lookup_lt_is_Some. eapply wf_open_lt; [apply Hw|done].
  - destruct (ww_alive _ _ _ Hw _ _ _ Hu Ht) as [st' Hst']. rewrite Hst'. cbn.
    apply lookup_lt_is_Some. eapply wf_open_lt; [by eapply ww_others|done].
Qed.

(** The variables of a thread whose open ones are all below [b] only look below [b]. *)
Lemma variable_stack t st st' w u b : wf_open t (open_upvalues st) b w ->
  (forall i, (i < b)%nat -> stack st' !! i = stack st !! i) ->
  variable t st' w u = variable t st w u.
Proof.
  intros Ho Hs. unfold variable. destruct (upvalues w !! u) as [[t' i|v]|] eqn:Hu; [|done..].
  case_bool_decide; [|done]. subst. apply Hs. by eapply wf_open_lt.
Qed.

(** ** Opening an upvalue *)

Lemma insert_at_elem {A} i (a b : A) l : b ∈ insert_at i a l <-> b = a \/ b ∈ l.
Proof.
  unfold insert_at. rewrite <- (take_drop i l) at 3. rewrite !elem_of_app, elem_of_cons. tauto.
Qed.

Lemma wf_open_insert t us limit w u ind k is_ :
  Forall2 (fun u i => upvalues w !! u = Some (Open t i)) us is_ -> StronglySorted lt is_ ->
  Forall (fun i => (i < limit)%nat) is_ -> (forall u i, upvalues w !! u = Some (Open t i) -> u ∈ us) ->
  upvalues w !! u = None -> (ind < limit)%nat -> (k <= length is_)%nat ->
  Forall (fun i => (i < ind)%nat) (take k is_) -> Forall (fun i => (ind < i)%nat) (drop k is_) ->
  wf_open t (insert_at k u us) limit (set_upvalues (<[u := Open t ind]> (upvalues w)) w).
Proof.
  intros Hp Hs Hl Hc Hu Hind Hk Hbelow Habove.
  assert (Hp' : Forall2 (fun u' i => upvalues (set_upvalues (<[u := Open t ind]> (upvalues w)) w) !! u' =
    Some (Open t i)) us is_).
  { apply Forall2_same_length_lookup_2; [by eapply Forall2_length|]. intros j u' i Hj Hi. cbn.
    pose proof (Forall2_lookup_lr _ _ _ _ _ _ Hp Hj Hi) as E. cbn in E.
    rewrite lookup_insert_ne; [done|]. intros ->. congruence. }
  split.
  - exists (insert_at k ind is_). split_and!.
    + apply Forall2_app; [by apply Forall2_take|]. constructor; [|by apply Forall2_drop].
      cbn. apply lookup_insert_eq.
    + rewrite <- (take_drop k is_) in Hs. apply StronglySorted_app in Hs as (_ & H1 & H2).
      apply StronglySorted_app. rewrite StronglySorted_cons. split_and!; [|done..].
      intros x1 x2 Hx1 Hx2. rewrite Forall_forall in Hbelow, Habove. apply elem_of_cons in Hx2 as [->|Hx2].
      * by apply Hbelow.
      * specialize (Hbelow _ Hx1). specialize (Habove _ Hx2). lia.
    + unfold insert_at. apply Forall_app. split; [by apply Forall_take|].
      constructor; [done|by apply Forall_drop].
  - intros u' i. cbn. rewrite insert_at_elem. destruct (decide (u' = u)) as [->|Hne]; [by left|].
    rewrite lookup_insert_ne by done. right. by eapply Hc.
Qed.

Lemma open_upvalue_spec r m fr rest : frames (state m) = Lua fr :: rest ->
  wf_open (thread m) (open_upvalues (state m)) (length (stack (state m))) (world m) ->
  (base fr + reg r < length (stack (state m)))%nat ->
  exists u us w', open_upvalue r m = Ok (u, set_world w' (set_state (set_open us (state m)) m)) /\
    upvalues w' !! u = Some (Open (thread m) (base fr + reg r)) /\
    same_elsewhere (thread m) (world m) w' /\ memory w' = memory (world m) /\
    wf_open (thread m) us (length (stack (state m))) w' /\
    (forall u', is_Some (upvalues (world m) !! u') -> upvalues w' !! u' = upvalues (world m) !! u') /\
    (forall u', u' <> u -> upvalues w' !! u' = upvalues (world m) !! u').
Proof.
  intros Hf Hwf Hlt. pose proof Hwf as [(is_ & Hp & Hs & Hl) Hc]. unfold open_upvalue, top.
  rewrite Hf, outcome_bind_Ok.
  destruct (search_spec _ _ _ is_ (base fr + reg r) Hp Hs) as (k & -> & Hbelow & Hk).
  rewrite outcome_bind_Ok. destruct k as [k|k].
  - destruct (Forall2_lookup_r _ _ _ _ _ Hp Hk) as (u & Hu & E).
    rewrite (get_Some _ _ _ Hu), outcome_bind_Ok.
    exists u, (open_upvalues (state m)), (world m). split_and!; try done. by destruct m as [? [] ? ?].
  - destruct Hk as [Hk Habove]. unfold new_upvalue. cbv zeta.
    set (u := fresh (dom (upvalues (world m)))).
    assert (Hu : upvalues (world m) !! u = None).
    { apply not_elem_of_dom. apply is_fresh. }
    eexists _, _, _. split; [reflexivity|]. split_and!.
    + cbn. apply lookup_insert_eq.
    + split; [done..| |].
      * intros t' u' i Hne. cbn. destruct (decide (u' = u)) as [->|Hne'].
        -- rewrite lookup_insert_eq, Hu. split; [intros [= E _]; congruence|done].
        -- by rewrite lookup_insert_ne.
      * intros u' Hu'. cbn. destruct (decide (u' = u)) as [->|Hne']; [rewrite lookup_insert_eq; by eauto|].
        by rewrite lookup_insert_ne.
    + done.
    + by apply (wf_open_insert _ _ _ _ _ _ _ is_).
    + intros u' [x Hx]. cbn. rewrite lookup_insert_ne; [done|]. intros <-. congruence.
    + intros u' Hne. cbn. by rewrite lookup_insert_ne.
Qed.
End ThreadFacts.
End ThreadFacts.
