(* ===== verification/ThreadCalls.v ===== *)
(** * The frames of a thread: the invariant, and calls and returns under it

    How the frames of a thread lie on its stack, and the lemmas by which pushing a call and
    returning keep them so. *)

From S2P Require Import Prelude Slices Float64 StringUtils Constant Value MetaOps Opcode Operators Limits Vm Thread ThreadFacts.

Module ThreadCalls.
Import Thread SliceFacts ThreadFacts.
Section ThreadCalls.
Context `{BuildProfile} {S : Type} `{AsBytes S} {Sequence Error : Type}.
Abbreviation value := (Value.t S).
Abbreviation callee := (MetaOps.Callee S).
Abbreviation Frame := (@Thread.Frame S Sequence Error).
Abbreviation ThreadState := (@Thread.ThreadState S Sequence Error).
Abbreviation World := (@Thread.World S Sequence Error).
Abbreviation LuaFrame := (@Thread.LuaFrame S Sequence Error).
Implicit Types (w : World) (st : ThreadState) (m : LuaFrame) (t u : obj) (us : list obj).

(** ** How frames lie on the stack *)

(** A Lua frame that waits for the one above it, whose part of the stack starts at [limit] *)
Definition waits (fr : lua_frame) (limit : nat) : Prop :=
  (limit <= base fr + stack_size fr)%nat /\
  match expected_return fr with
  | Some (LuaReturn.Normal _) | Some (LuaReturn.Meta MetaReturn.None) => True
  | Some (LuaReturn.Meta (MetaReturn.Register r)) => (reg r < stack_size fr)%nat
  | Some (LuaReturn.Meta (MetaReturn.SkipIf _)) => in_int usize (pc fr + 1)
  | None => False
  end.

(** A variable of the thread is open at this position. *)
Definition opened t w (i : nat) : Prop := exists u, upvalues w !! u = Some (Open t i).

(** The frames below one that starts at [limit]; the lowest starts at 0.  No variable is
    open in the part of a sequence. *)
Fixpoint nested t w (fs : list Frame) (limit : nat) : Prop :=
  match fs with
  | [] => limit = O
  | Lua fr :: fs => (bottom fr <= base fr <= limit)%nat /\ waits fr limit /\ nested t w fs (bottom fr)
  | Sequence_ b _ None :: fs =>
      (b <= limit)%nat /\ (forall i, opened t w i -> (b <= i)%nat -> (limit <= i)%nat) /\ nested t w fs b
  | _ => False
  end.

(** The frames below an error *)
Definition unwinding t w (fs : list Frame) (len : nat) : Prop :=
  match fs with
  | Lua fr :: fs => (bottom fr <= base fr <= len)%nat /\ nested t w fs (bottom fr)
  | _ => nested t w fs len
  end.

Definition wf_frames t w (fs : list Frame) (len : nat) : Prop :=
  match fs with
  | [] => len = O
  | Lua fr :: rest =>
      (bottom fr <= base fr)%nat /\
      (if is_variable fr then (base fr <= len)%nat else len = base fr + stack_size fr)%nat /\
      expected_return fr = None /\ nested t w rest (bottom fr)
  | (Callback b _ | HostSuspended b _ _ | Sequence_ b _ _) :: rest => (b <= len)%nat /\ nested t w rest b
  | Start _ :: rest => rest = [] /\ len = O
  | (Yielded | WaitThread) :: rest => nested t w rest len
  | Result b :: rest =>
      (b <= len)%nat /\
      match rest with [] => b = O | Yielded :: rest => nested t w rest b | _ => False end
  | Error_ _ :: rest => unwinding t w rest len
  end.

(** Where the stack of the top frame begins: no variable of the thread is open from there
    on, unless the frame is Lua. *)
Definition open_limit st : nat :=
  match frames st with
  | (Result b | Callback b _ | Sequence_ b _ _ | HostSuspended b _ _) :: _ => b
  | _ => length (stack st)
  end.

(** The variables a frame took from outside lie below it. *)
Definition captured t w (f : Frame) : Prop :=
  match f with
  | Lua fr => exists c, closures w !! closure fr = Some c /\
      forall u i, u ∈ closure_upvalues c -> upvalues w !! u = Some (Open t i) -> (i < bottom fr)%nat
  | _ => True
  end.

Record wf_thread t st w : Prop := {
  wt_world : wf_world t st w;
  wt_open : wf_open t (open_upvalues st) (open_limit st) w;
  wt_frames : wf_frames t w (frames st) (length (stack st));
  wt_captured : Forall (captured t w) (frames st)
}.

Lemma nested_mono t w w' fs limit :
  (forall i, (i < limit)%nat -> opened t w' i -> opened t w i) ->
  nested t w fs limit -> nested t w' fs limit.
Proof.
  revert limit. induction fs as [|[fr|b q [e|]|b q h|f|b f| | |b|e] fs IH]; intros limit Hm; cbn; try done.
  - intros (Hb & Hw & Hn). split_and!; [lia..|done|]. apply IH; [|done]. intros i Hi. apply Hm. lia.
  - intros (Hb & Hg & Hn). split_and!; [done| |].
    + intros i Ho Hi. destruct (Nat.le_gt_cases limit i) as [|Hlt]; [done|]. apply Hg; [|done]. by apply Hm.
    + apply IH; [|done]. intros i Hi. apply Hm. lia.
Qed.

Lemma unwinding_mono t w w' fs len : (forall i, opened t w' i -> opened t w i) ->
  unwinding t w fs len -> unwinding t w' fs len.
Proof.
  intros Hm. assert (Hn : forall fs limit, nested t w fs limit -> nested t w' fs limit).
  { intros fs' limit. apply nested_mono. auto. }
  destruct fs as [|[]]; try apply Hn. cbn. intros [Hb Hf]. auto.
Qed.

Lemma wf_frames_mono t w w' fs len : (forall i, opened t w' i -> opened t w i) ->
  wf_frames t w fs len -> wf_frames t w' fs len.
Proof.
  intros Hm. assert (Hn : forall fs limit, nested t w fs limit -> nested t w' fs limit).
  { intros fs' limit. apply nested_mono. auto. }
  destruct fs as [|[fr|b q e|b q h|f|b f| | |b|e] rest]; cbn; try done;
    try (by intros [Hb Hf]; split; [|apply Hn]); try apply Hn.
  - intros (Hb & Hv & He & Hf). split_and!; try done. by apply Hn.
  - intros [Hb Hr]. split; [done|]. destruct rest as [|[] rest]; try done. by apply Hn.
  - by apply unwinding_mono.
Qed.

Lemma opened_lt t us limit w i : wf_open t us limit w -> opened t w i -> (i < limit)%nat.
Proof. intros Ho [u Hu]. by eapply wf_open_lt. Qed.

Lemma wf_open_below t us limit limit' w : wf_open t us limit w ->
  (forall i, opened t w i -> (i < limit')%nat) -> wf_open t us limit' w.
Proof.
  intros [(is_ & Hp & Hs & Hl) Hc] Hb. split; [|done]. exists is_. split_and!; [done..|].
  apply Forall_lookup. intros k i Hi. destruct (Forall2_lookup_r _ _ _ _ _ Hp Hi) as (u & _ & Hu).
  apply Hb. by exists u.
Qed.

Lemma captured_mono t w w' fs : closures w' = closures w ->
  (forall u i, is_Some (upvalues w !! u) -> upvalues w' !! u = Some (Open t i) ->
     upvalues w !! u = Some (Open t i)) ->
  (forall c ci u, closures w !! c = Some ci -> u ∈ closure_upvalues ci -> is_Some (upvalues w !! u)) ->
  Forall (captured t w) fs -> Forall (captured t w') fs.
Proof.
  intros Hcl Hm Hc Hf. eapply Forall_impl; [exact Hf|]. intros [fr| | | | | | | |]; cbn; try done.
  intros (c & E & Hb). exists c. rewrite Hcl. split; [done|]. intros u i Hu Hu'.
  apply (Hb u i); [done|]. apply Hm; [by eapply Hc|done].
Qed.

(** A pointer to a closure is to one. *)
Definition callee_ok w (f : callee) : Prop :=
  match f with
  | MetaOps.Existing (Closure c) => is_Some (closures w !! c)
  | _ => True
  end.

(** ** Calls *)

(** What a function makes of its arguments *)
Definition fixed (p : FunctionPrototype (S := S)) : nat := Z.to_nat (fixed_params p).
Definition extra_args (p : FunctionPrototype (S := S)) (args : list value) : list value :=
  drop (fixed p) args.
Definition first_registers (p : FunctionPrototype (S := S)) (args : list value) : list value :=
  resize (Z.to_nat (proto_stack_size p)) Value.Nil (take (fixed p) args).

Definition called_frame (p : FunctionPrototype (S := S)) (c : obj) (b : nat) (args : list value)
  : lua_frame :=
  mk_lua_frame b c (b + length (extra_args p args)) false 0 (Z.to_nat (proto_stack_size p)) None.

Lemma push_call_closure w pre args c ci fs us : closures w !! c = Some ci ->
  push_call w (length pre) (MetaOps.Existing (Closure c)) (mk_ThreadState fs (pre ++ args) us) =
    Ok (mk_ThreadState (Lua (called_frame (proto ci) c (length pre) args) :: fs)
          (pre ++ extra_args (proto ci) args ++ first_registers (proto ci) args) us).
Proof.
  intros Hc. unfold push_call, prototype. rewrite Hc, outcome_bind_Ok. cbn [stack frames open_upvalues].
  rewrite sub_le, outcome_bind_Ok by (rewrite length_app; lia).
  replace (length (pre ++ args) - length pre)%nat with (length args) by (rewrite length_app; lia).
  fold (fixed (proto ci)). set (k := fixed (proto ci)).
  assert (Hv : (if (k <? length args)%nat then (length args - k)%nat else O) =
    length (extra_args (proto ci) args)).
  { unfold extra_args. fold k. rewrite length_drop. destruct (Nat.ltb_spec k (length args)); lia. }
  rewrite Hv. rewrite rotate_right_app by (unfold extra_args; rewrite length_drop; lia).
  rewrite outcome_bind_Ok. unfold called_frame, first_registers, set_stack, push_frame, set_frames.
  cbn [stack frames open_upvalues]. do 2 f_equal.
  rewrite app_assoc, <- length_app. unfold extra_args in *. fold k in Hv |- *. rewrite length_drop in *.
  destruct (Nat.le_gt_cases k (length args)) as [Hle|Hgt].
  - replace (length args - (length args - k))%nat with k by lia.
    rewrite length_app, length_drop.
    replace (length pre + (length args - k) + Z.to_nat (proto_stack_size (proto ci)))%nat
      with (length (pre ++ drop k args) + Z.to_nat (proto_stack_size (proto ci)))%nat
      by (rewrite length_app, length_drop; lia).
    by rewrite resize_app_length, <- app_assoc.
  - replace (length args - k)%nat with 0%nat by lia.
    rewrite Nat.sub_0_r, (drop_ge args k), (drop_ge args (length args)), (take_ge args k),
      (take_ge args (length args)) by lia.
    rewrite !app_nil_r. cbn [app length]. by rewrite resize_app_length.
Qed.

Lemma first_registers_length (p : FunctionPrototype (S := S)) args :
  length (first_registers p args) = Z.to_nat (proto_stack_size p).
Proof. apply length_resize. Qed.

(** A call made where no variable is open any more *)
Lemma push_call_wf t w b f st : wf_world t st w -> wf_open t (open_upvalues st) b w ->
  (b <= length (stack st))%nat -> nested t w (frames st) b -> Forall (captured t w) (frames st) ->
  callee_ok w f ->
  exists fr s, push_call w b f st = Ok (mk_ThreadState (fr :: frames st) s (open_upvalues st)) /\
    wf_thread t (mk_ThreadState (fr :: frames st) s (open_upvalues st)) w /\
    take b s = take b (stack st).
Proof.
  intros Hw Ho Hb Hn Hcap Hf.
  assert (Hstep : forall fr s, (b <= length s)%nat -> wf_world t (mk_ThreadState fr s (open_upvalues st)) w).
  { intros fr s Hs. eapply wf_world_step; [done|apply same_elsewhere_refl|]. cbn.
    by eapply wf_open_limit. }
  destruct f as [[c|c]| | | |]; cbn [push_call].
  2-6: eexists _, (stack st); split; [reflexivity|]; split; [|done];
    split; cbn; [by apply Hstep|done..|by constructor].
  destruct Hf as [ci Hci]. set (pre := take b (stack st)). set (args := drop b (stack st)).
  assert (Hlen : length pre = b) by (unfold pre; rewrite length_take; lia).
  assert (Hst : st = mk_ThreadState (frames st) (pre ++ args) (open_upvalues st)).
  { unfold pre, args. rewrite take_drop. by destruct st. }
  pose proof (push_call_closure w pre args c ci (frames st) (open_upvalues st) Hci) as E.
  rewrite <- Hst, Hlen in E. unfold push_call in E |- *. rewrite E.
  eexists _, _. split; [reflexivity|]. split.
  - split; cbn [frames stack open_upvalues open_limit].
    + apply Hstep. rewrite length_app. lia.
    + unfold open_limit. cbn [frames stack]. eapply wf_open_limit; [|done]. rewrite length_app. lia.
    + cbn. rewrite !length_app, first_registers_length, Hlen. split_and!; [lia|lia|done|done].
    + constructor; [|done]. cbn. exists ci. split; [done|]. intros u i _ Hu.
      by eapply wf_open_lt.
  - rewrite take_app_le by lia. rewrite <- Hlen at 1. by rewrite take_ge by lia.
Qed.

(** ** Returns *)

Lemma is_variable_constant c : VarCount.is_variable c = match VarCount.to_constant c with
  | Some _ => false | None => true end.
Proof.
  unfold VarCount.is_variable, VarCount.to_constant, Opt254.is_none, Opt254.is_some, Opt254.to_u8.
  repeat case_match; try done.
Qed.

(** What the waiting frame finds of the results *)
Definition returned (count : VarCount.t) (size : nat) (lower results : list value) : list value :=
  match VarCount.to_constant count with
  | Some c => resize size Value.Nil (lower ++ take (Z.to_nat c) results)
  | None => lower ++ results
  end.

Lemma return_to_normal fr rest count b lower results us : length lower = b ->
  expected_return fr = Some (LuaReturn.Normal count) ->
  return_to b (mk_ThreadState (Lua fr :: rest) (lower ++ results) us) =
    Ok (mk_ThreadState (Lua (set_variable (VarCount.is_variable count) (set_expected None fr)) :: rest)
          (returned count (base fr + stack_size fr) lower results) us : ThreadState).
Proof.
  intros <- He. unfold return_to, returned. cbn [frames stack open_upvalues].
  rewrite sub_le, outcome_bind_Ok by (rewrite length_app; lia). rewrite He, is_variable_constant.
  do 2 f_equal. destruct (VarCount.to_constant count) as [c|].
  - rewrite take_app_ge by lia. do 2 f_equal. f_equal. lia.
  - apply take_ge. rewrite length_app. lia.
Qed.

Lemma return_to_meta fr rest ret b lower results us : length lower = b -> waits fr b ->
  expected_return fr = Some (LuaReturn.Meta ret) ->
  exists fr' s, return_to b (mk_ThreadState (Lua fr :: rest) (lower ++ results) us) =
      Ok (mk_ThreadState (Lua fr' :: rest) s us : ThreadState) /\
    let v := default Value.Nil (head results) in
    let kept := resize (base fr + stack_size fr) Value.Nil lower in
    let fr0 := set_variable false (set_expected None fr) in
    match ret with
    | MetaReturn.None => fr' = fr0 /\ s = kept
    | MetaReturn.Register r => fr' = fr0 /\ s = <[(base fr + reg r)%nat := v]> kept
    | MetaReturn.SkipIf b =>
        fr' = set_pc (if eqb (Value.to_bool v) b then pc fr + 1 else pc fr) fr0 /\ s = kept
    end.
Proof.
  intros <- [Hlim Hw] He. unfold return_to. cbn [frames stack open_upvalues].
  rewrite sub_le, outcome_bind_Ok by (rewrite length_app; lia). rewrite He in Hw |- *.
  rewrite take_app_length, lookup_app_r, Nat.sub_diag by lia.
  replace (results !! 0%nat) with (head results) by (by destruct results).
  destruct ret as [|r|b]; cbn in Hw; [by eexists _, _| |].
  - change (base (set_variable false (set_expected None fr))) with (base fr).
    rewrite set_lt by (rewrite length_resize; lia). rewrite outcome_bind_Ok. by eexists _, _.
  - destruct (eqb _ b); [rewrite arith_in by done|]; rewrite outcome_bind_Ok; by eexists _, _.
Qed.

Lemma returned_length_ge count size lower results :
  VarCount.is_variable count = true -> (length lower <= length (returned count size lower results))%nat.
Proof.
  rewrite is_variable_constant. unfold returned.
  destruct (VarCount.to_constant count); [done|]. rewrite length_app. lia.
Qed.

Lemma returned_length_eq count size lower results :
  VarCount.is_variable count = false -> length (returned count size lower results) = size.
Proof.
  rewrite is_variable_constant. unfold returned.
  destruct (VarCount.to_constant count); [|done]. intros _. apply length_resize.
Qed.

Lemma return_to_wf t w b st : wf_world t st w -> wf_open t (open_upvalues st) b w ->
  (b <= length (stack st))%nat -> nested t w (frames st) b -> Forall (captured t w) (frames st) ->
  exists st', return_to b st = Ok st' /\ open_upvalues st' = open_upvalues st /\ wf_thread t st' w.
Proof.
  intros Hw Ho Hb Hn Hcap.
  assert (Hstep : forall fs s, (b <= length s)%nat -> wf_world t (mk_ThreadState fs s (open_upvalues st)) w).
  { intros fs s Hs. eapply wf_world_step; [done|apply same_elsewhere_refl|]. cbn. by eapply wf_open_limit. }
  destruct st as [[|[fr|b' q e|b' q h|f|b' f| | |b'|e] rest] s us]; cbn [frames stack open_upvalues nested] in *; try done.
  - (* the last frame *)
    subst b. eexists. split; [reflexivity|]. split; [done|].
    split; cbn; [apply Hstep; lia|done|split; [lia|done]|by constructor].
  - (* a Lua frame *)
    destruct Hn as (Hbase & Hwait & Hn). pose proof Hwait as [Hsize Hret].
    rewrite <- (take_drop b s). set (lower := take b s) in *. set (results := drop b s).
    assert (Hlen : length lower = b) by (unfold lower; rewrite length_take; lia).
    assert (Hlua : forall fr' s', closure fr' = closure fr -> bottom fr' = bottom fr -> base fr' = base fr ->
      stack_size fr' = stack_size fr -> expected_return fr' = None ->
      (if is_variable fr' then (b <= length s')%nat else length s' = base fr + stack_size fr)%nat ->
      wf_thread t (mk_ThreadState (Lua fr' :: rest) s' us) w).
    { intros fr' s' Ec Eb Ebase Es Ee Hl.
      assert (b <= length s')%nat by (destruct (is_variable fr'); lia).
      split; [by apply Hstep|by eapply wf_open_limit| |].
      - cbn. rewrite Eb, Ebase, Es. split_and!; [lia| |done|done]. destruct (is_variable fr'); lia.
      - cbn. apply Forall_cons in Hcap as [Hc Hcap]. constructor; [|done]. cbn in *. by rewrite Ec, Eb. }
    destruct (expected_return fr) as [[count|ret]|] eqn:He; [| |done].
    + rewrite (return_to_normal fr rest count b) by done. eexists. split; [reflexivity|]. split; [done|].
      apply Hlua; try done. cbn [is_variable set_variable]. destruct (VarCount.is_variable count) eqn:Ev.
      * pose proof (returned_length_ge count (base fr + stack_size fr) lower results Ev). lia.
      * by apply returned_length_eq.
    + destruct (return_to_meta fr rest ret b lower results us Hlen Hwait He) as (fr' & s' & E & Hfr).
      rewrite E. eexists. split; [reflexivity|]. split; [done|].
      destruct ret; cbn zeta iota in Hfr; destruct Hfr as [-> ->]; apply Hlua; try done; cbn [is_variable set_variable set_pc set_expected];
        by rewrite ?length_insert, length_resize.
  - destruct e; [done|]. destruct Hn as (Hb' & Hg & Hn). eexists. split; [reflexivity|]. split; [done|].
    split; cbn; [by apply Hstep| |by split; [lia|]|done]. eapply wf_open_below; [done|].
    intros i Hi. destruct (Nat.le_gt_cases b' i) as [Hle|]; [|done]. pose proof (Hg i Hi Hle).
    pose proof (opened_lt _ _ _ _ _ Ho Hi). lia.
Qed.

(** Closing the variables of a thread from [b] on, under the invariant *)
Lemma close_wf t b st w : wf_thread t st w ->
  exists us w', close_upvalues t b st w = Ok (set_open us st, w') /\
    wf_world t (set_open us st) w' /\ wf_open t us b w' /\
    closures w' = closures w /\ memory w' = memory w /\ threads w' = threads w /\
    Forall (captured t w') (frames st) /\
    (forall fs limit, nested t w fs limit -> nested t w' fs limit) /\
    (forall u, variable t st w' u = variable t st w u) /\
    (forall u i, upvalues w' !! u = Some (Open t i) <->
       upvalues w !! u = Some (Open t i) /\ (i < b)%nat).
Proof.
  intros [Hw _ _ Hcap]. destruct (close_upvalues_spec t b st w (ww_open _ _ _ Hw))
    as (us & w' & E & He & Hmem & Ho & Hvar & Hiff).
  exists us, w'. split_and!; try done.
  - eapply wf_world_step; [done..|]. cbn. eapply wf_open_limit; [|done]. lia.
  - eapply wf_open_limit; [|done]. lia.
  - apply He.
  - apply He.
  - eapply captured_mono; [apply He| |apply Hw|done]. intros u i _ Hu. by apply Hiff.
  - intros fs limit. apply nested_mono. intros i _ [u Hu]. exists u. by apply Hiff.
Qed.

(** An error thrown in a Lua frame *)
Lemma error_wf t st w fr rest e : wf_thread t st w -> frames st = Lua fr :: rest ->
  wf_thread t (push_frame (Error_ e) st) w.
Proof.
  intros [Hw Ho Hf Hc] E. unfold open_limit in Ho. rewrite E in *. destruct Hf as (Hb & Hl & _ & Hn). split.
  - by destruct Hw.
  - done.
  - cbn. rewrite E. cbn. split; [|done]. destruct (is_variable fr); lia.
  - cbn. rewrite E. by constructor.
Qed.
End ThreadCalls.
End ThreadCalls.
