(* ===== verification/ThreadSteps.v ===== *)
(** * The instructions of calls and upvalues keep the invariant of a thread

    What the compiler guarantees of each instruction ([fits]), and for each that it neither
    panics nor leaves the thread in a bad state, errors included. *)

From S2P Require Import Prelude Slices Float64 StringUtils Constant Value MetaOps Opcode Operators Limits Vm Thread ThreadFacts ThreadCalls.

Module ThreadSteps.
Import Thread SliceFacts ThreadFacts ThreadCalls.
Section ThreadSteps.
Context `{BuildProfile} {S : Type} `{AsBytes S} {Sequence Error : Type}.
Abbreviation value := (Value.t S).
Abbreviation callee := (MetaOps.Callee S).
Abbreviation Frame := (@Thread.Frame S Sequence Error).
Abbreviation ThreadState := (@Thread.ThreadState S Sequence Error).
Abbreviation World := (@Thread.World S Sequence Error).
Abbreviation LuaFrame := (@Thread.LuaFrame S Sequence Error).
Context (h : MetaOps.Heap S).
Implicit Types (w : World) (st : ThreadState) (m : LuaFrame) (t u : obj) (us : list obj).

Definition len m : nat := length (stack (state m)).

(** Everything open of the thread is below [n]. *)
Definition open_below m (n : nat) : Prop := forall i, opened (thread m) (world m) i -> (i < n)%nat.

(** [count] values from [from] on are in the frame, or all to the top of the stack. *)
Definition range_ok (fr : lua_frame) m (from : nat) (count : VarCount.t) : Prop :=
  is_variable fr = VarCount.is_variable count /\
  match VarCount.to_constant count with
  | Some c => (from + Z.to_nat c <= stack_size fr)%nat
  | None => (base fr + from <= len m)%nat
  end.

(** What is called, if it can be called, exists. *)
Definition target_ok m (i : nat) : Prop :=
  forall f c, stack (state m) !! i = Some f -> MetaOps.call h f = inl c -> callee_ok (world m) c.

(** The obligations of an instruction of the frame [fr] *)
Definition call_ok (fr : lua_frame) m (func : RegisterIndex) (args : VarCount.t) : Prop :=
  (reg func < stack_size fr)%nat /\ range_ok fr m (reg func + 1) args /\
  target_ok m (base fr + reg func).

Definition descriptor_ok (fr : lua_frame) m (c : ClosureInner (S := S)) (d : UpValueDescriptor) : Prop :=
  match d with
  | Environment => True
  | ParentLocal r => (base fr + reg r < len m)%nat
  | Outer i => (Z.to_nat (upvalue_index i) < length (closure_upvalues c))%nat
  end.

Definition fits (fr : lua_frame) m (op : Operation.t) : Prop :=
  match op with
  | Operation.Call func args _ => call_ok fr m func args /\ open_below m (base fr + reg func)
  | Operation.TailCall func args => call_ok fr m func args
  | Operation.Return start count => range_ok fr m (reg start) count
  | Operation.VarArgs dest count =>
      is_variable fr = false /\
      match VarCount.to_constant count with
      | Some c => (reg dest + Z.to_nat c <= stack_size fr)%nat
      | None => (reg dest <= stack_size fr)%nat /\ open_below m (base fr + reg dest)
      end
  | Operation.GenericForCall base_ count =>
      is_variable fr = false /\ 0 <= count < 255 /\ (reg base_ + 3 <= stack_size fr)%nat /\
      open_below m (base fr + reg base_ + 3) /\ target_ok m (base fr + reg base_)
  | Operation.Closure dest p =>
      (base fr + reg dest < len m)%nat /\
      exists c p', closures (world m) !! closure fr = Some c /\
        prototypes (proto c) !! Z.to_nat (prototype_index p) = Some p' /\
        Forall (descriptor_ok fr m c) (upvalue_descriptors p')
  | Operation.GetUpValue r i | Operation.SetUpValue i r =>
      (base fr + reg r < len m)%nat /\
      exists c, closures (world m) !! closure fr = Some c /\
        (Z.to_nat (upvalue_index i) < length (closure_upvalues c))%nat
  | _ => False
  end.

(** The invariant of a running frame, and what an operation must leave *)
Definition running m (fr : lua_frame) (rest : list Frame) : Prop :=
  frames (state m) = Lua fr :: rest /\ wf_thread (thread m) (state m) (world m).

Definition left_ok (r : unit + VMError.t) m : Prop :=
  match r with
  | inl _ => wf_thread (thread m) (state m) (world m)
  | inr _ => forall e, wf_thread (thread m) (push_frame (Error_ e) (state m)) (world m)
  end.

Definition ends_well (r : outcome ((unit + VMError.t) * LuaFrame)) : Prop :=
  exists a m, r = Ok (a, m) /\ left_ok a m.

Lemma done_ok m : wf_thread (thread m) (state m) (world m) -> ends_well (done m).
Proof. intros Hw. by exists (inl tt), m. Qed.

Lemma fail_ok e m fr rest : frames (state m) = Lua fr :: rest ->
  wf_thread (thread m) (state m) (world m) -> ends_well (fail e m).
Proof. intros Hf Hw. exists (inr e), m. split; [done|]. intros e'. by eapply error_wf. Qed.

Lemma running_facts m fr rest : running m fr rest ->
  top m = Ok (fr, rest) /\ (bottom fr <= base fr <= len m)%nat /\
  (is_variable fr = false -> len m = base fr + stack_size fr)%nat /\
  expected_return fr = None /\ nested (thread m) (world m) rest (bottom fr) /\
  wf_world (thread m) (state m) (world m) /\ Forall (captured (thread m) (world m)) rest /\
  captured (thread m) (world m) (Lua fr).
Proof.
  intros [Hf [Hw _ Hfr Hc]]. unfold top. rewrite Hf in *. cbn in Hfr. destruct Hfr as (Hb & Hl & He & Hn).
  apply Forall_cons in Hc as [Hc1 Hc2]. unfold len. split_and!; try done.
  - destruct (is_variable fr); lia.
  - by intros E; rewrite E in Hl.
Qed.

(** The arguments, where they are *)
Lemma range_count fr m from count : range_ok fr m from count ->
  (is_variable fr = false -> len m = base fr + stack_size fr)%nat ->
  exists n, count_or count (Slice.sub (len m) (base fr + from)) = Ok n /\
    (base fr + from + n <= len m)%nat /\
    (VarCount.to_constant count = None -> base fr + from + n = len m)%nat.
Proof.
  intros [Hv Hr] Hl. rewrite is_variable_constant in Hv. unfold count_or.
  destruct (VarCount.to_constant count) as [c|].
  - eexists. split; [reflexivity|]. specialize (Hl Hv). split; [lia|done].
  - rewrite sub_le by lia. eexists. split; [reflexivity|]. lia.
Qed.

Lemma args_above_eq (s : list value) i : (i + 1 <= length s)%nat ->
  args_above s i = Slice.sub (length s) (i + 1).
Proof.
  intros Hi. unfold args_above. rewrite sub_le, outcome_bind_Ok, sub_le, sub_le by lia. f_equal. lia.
Qed.

(** A call pushed over the running frame, which then expects [r] back *)
Lemma call_pushed m fr rest r b s c : running m fr rest ->
  (base fr <= b)%nat -> (b <= length s)%nat -> waits (set_expected (Some r) fr) b ->
  open_below m b -> callee_ok (world m) c ->
  exists st, push_call (world m) b c (set_stack s (expecting r fr rest (state m))) = Ok st /\
    wf_thread (thread m) st (world m).
Proof.
  intros Hr Hbase Hb Hwait Hopen Hc.
  destruct (running_facts _ _ _ Hr) as (_ & Hbb & _ & _ & Hn & Hw & Hcap & Hcap1).
  assert (Ho : wf_open (thread m) (open_upvalues (state m)) b (world m)).
  { eapply wf_open_below; [apply Hw|done]. }
  destruct (push_call_wf (thread m) (world m) b c (set_stack s (expecting r fr rest (state m))))
    as (fr' & s' & E & Hwf & _); cbn; try done.
  - eapply wf_world_step; [done|apply same_elsewhere_refl|]. cbn. by eapply wf_open_limit.
  - split_and!; [lia|lia|done|done].
  - by constructor.
  - rewrite E. by eauto.
Qed.

Lemma call_ok_args m fr rest func args : running m fr rest -> call_ok fr m func args ->
  exists pre f post n, stack (state m) = pre ++ f :: post /\ length pre = (base fr + reg func)%nat /\
    count_or args (args_above (stack (state m)) (base fr + reg func)) = Ok n /\ (n <= length post)%nat /\
    (VarCount.to_constant args = None -> n = length post) /\
    Slice.get (stack (state m)) (base fr + reg func) = Ok f /\
    (forall c, MetaOps.call h f = inl c -> callee_ok (world m) c).
Proof.
  intros Hr (Hf & Hrange & Ht). destruct (running_facts _ _ _ Hr) as (_ & _ & Hl & _).
  destruct (range_count _ _ _ _ Hrange Hl) as (n & Hn & Hle & Heq).
  assert (Hlt : (base fr + reg func < length (stack (state m)))%nat).
  { unfold len in *. lia. }
  destruct (lookup_lt_is_Some_2 _ _ Hlt) as [f Hget].
  exists (take (base fr + reg func) (stack (state m))), f, (drop (Datatypes.S (base fr + reg func)) (stack (state m))), n.
  rewrite length_take, length_drop. unfold len in *. split_and!; try (done || lia).
  - by rewrite take_drop_middle.
  - rewrite args_above_eq by lia. by rewrite <- Nat.add_assoc.
  - intros E. specialize (Heq E). lia.
  - by apply get_Some.
  - intros c. by apply Ht.
Qed.

Lemma call_function_ok m fr rest func args returns : running m fr rest ->
  call_ok fr m func args -> open_below m (base fr + reg func) ->
  ends_well (call_function h func args returns m).
Proof.
  intros Hr Hok Hopen. destruct (running_facts _ _ _ Hr) as (Ht & Hb & _ & _).
  destruct (call_ok_args _ _ _ _ _ Hr Hok) as (pre & f & post & n & Hs & Hpre & Hn & Hle & _ & Hf & Hc).
  destruct Hok as (Hreg & [Hv _] & _).
  unfold call_function. rewrite Ht, outcome_bind_Ok, Hv, eqb_reflx. cbn [negb].
  change (state (consume FUEL_PER_CALL m)) with (state m). rewrite Hn, Hf, !outcome_bind_Ok.
  destruct (MetaOps.call h f) as [c|e] eqn:E.
  - change (stack (expecting (LuaReturn.Normal returns) fr rest (state m))) with (stack (state m)).
    rewrite Hs, <- Hpre, remove_middle, outcome_bind_Ok, Hpre.
    destruct (call_pushed m fr rest (LuaReturn.Normal returns) (base fr + reg func)
      (take (base fr + reg func + n) (pre ++ post)) c Hr) as (st & E' & Hwf);
      [lia| |split; [cbn; lia|done]|done|by apply Hc|].
    { rewrite length_take, length_app. lia. }
    change (world (consume_items n (consume FUEL_PER_CALL m))) with (world m).
    rewrite E', outcome_bind_Ok. by apply done_ok.
  - eapply fail_ok; apply Hr.
Qed.

Lemma call_function_keep_ok m fr rest func n returns : running m fr rest ->
  is_variable fr = false -> 0 <= n -> (reg func + 1 + Z.to_nat n <= stack_size fr)%nat ->
  open_below m (base fr + reg func + 1 + Z.to_nat n) -> target_ok m (base fr + reg func) ->
  ends_well (call_function_keep h func n returns m).
Proof.
  intros Hr Hv Hn Hfit Hopen Htgt. destruct (running_facts _ _ _ Hr) as (Ht & Hb & Hl & _).
  specialize (Hl Hv). unfold len in *. set (k := Z.to_nat n) in *.
  unfold call_function_keep. rewrite Ht, outcome_bind_Ok, Hv.
  change (state (consume FUEL_PER_CALL m)) with (state m).
  destruct (lookup_lt_is_Some_2 (stack (state m)) (base fr + reg func)) as [f Hf]; [lia|].
  rewrite (get_Some _ _ _ Hf), outcome_bind_Ok.
  destruct (MetaOps.call h f) as [c|e] eqn:E; [|eapply fail_ok; apply Hr].
  change (stack (expecting (LuaReturn.Normal returns) fr rest (state m))) with (stack (state m)).
  fold k. rewrite extend_from_within_in, outcome_bind_Ok by (rewrite length_take; lia).
  set (s := take _ (stack (state m)) ++ _).
  destruct (call_pushed m fr rest (LuaReturn.Normal returns) (base fr + reg func + 1 + k) s c Hr)
    as (st & E' & Hwf); [lia| |split; [cbn; lia|done]|done|by eapply Htgt|].
  { unfold s. rewrite length_app, length_take. lia. }
  change (world (consume_items k (consume FUEL_PER_CALL m))) with (world m).
  rewrite E', outcome_bind_Ok. by apply done_ok.
Qed.

Lemma call_meta_function_ok m fr rest c args ret : running m fr rest -> is_variable fr = false ->
  waits (set_expected (Some (LuaReturn.Meta ret)) fr) (len m) -> callee_ok (world m) c ->
  ends_well (call_meta_function c args ret m).
Proof.
  intros Hr Hv Hwait Hc. destruct (running_facts _ _ _ Hr) as (Ht & Hb & Hl & _ & _ & Hw & _).
  specialize (Hl Hv). unfold len in *. unfold call_meta_function. rewrite Ht, outcome_bind_Ok, Hv.
  change (state (consume FUEL_PER_CALL m)) with (state m).
  rewrite (proj2 (Nat.eqb_eq _ _) Hl). cbn [rust_assert]. rewrite outcome_bind_Ok.
  change (stack (expecting (LuaReturn.Meta ret) fr rest (state m))) with (stack (state m)).
  destruct (call_pushed m fr rest (LuaReturn.Meta ret) (length (stack (state m))) (stack (state m) ++ args) c Hr)
    as (st & E' & Hwf); [lia|rewrite length_app; lia|done| |done|].
  { intros i Hi. eapply opened_lt; [apply Hw|done]. }
  change (world (consume_items (length args) (consume FUEL_PER_CALL m))) with (world m).
  rewrite E', outcome_bind_Ok. by apply done_ok.
Qed.

Lemma tail_call_function_ok m fr rest func args : running m fr rest -> call_ok fr m func args ->
  ends_well (tail_call_function h func args m).
Proof.
  intros Hr Hok. destruct (running_facts _ _ _ Hr) as (Ht & Hb & _ & _ & Hn & _).
  destruct (call_ok_args _ _ _ _ _ Hr Hok) as (pre & f & post & n & Hs & Hpre & Hcount & Hle & _ & Hf & Hc).
  destruct Hok as (Hreg & [Hv _] & _). destruct Hr as [Hfr Hwf].
  unfold tail_call_function. rewrite Ht, outcome_bind_Ok, Hv, eqb_reflx. cbn [negb].
  change (state (consume FUEL_PER_CALL m)) with (state m). rewrite Hcount, Hf, !outcome_bind_Ok.
  destruct (MetaOps.call h f) as [c|e] eqn:E; [|by eapply fail_ok].
  change (thread (consume FUEL_PER_CALL m)) with (thread m).
  change (world (consume FUEL_PER_CALL m)) with (world m).
  destruct (close_wf (thread m) (bottom fr) _ _ Hwf)
    as (us & w' & -> & Hw & Ho & Hcl & _ & _ & Hcap & Hnest & _ & _).
  rewrite outcome_bind_Ok. cbn [stack set_open].
  assert (Hlen : length (stack (state m)) = (base fr + reg func + 1 + length post)%nat).
  { rewrite Hs, length_app. cbn. lia. }
  rewrite copy_within_in, outcome_bind_Ok by lia. set (s := take (bottom fr + n) _).
  rewrite Hfr in Hcap. apply Forall_cons in Hcap as [_ Hcap].
  assert (Hls : (bottom fr <= length s)%nat).
  { unfold s. rewrite length_take, !length_app, length_take, length_take, length_drop. lia. }
  destruct (push_call_wf (thread m) w' (bottom fr) c (set_frames rest (set_stack s (set_open us (state m)))))
    as (fr' & s' & E' & Hwf' & _); try done; cbn.
  - eapply wf_world_step; [exact Hw|apply same_elsewhere_refl|]. cbn. by eapply wf_open_limit.
  - by apply Hnest.
  - destruct c as [[c|c]| | | |]; try done. cbn. rewrite Hcl. exact (Hc _ eq_refl).
  - rewrite E', outcome_bind_Ok. by apply done_ok.
Qed.

Lemma close_upvalues_frames t b st w fs us w' :
  close_upvalues t b st w = Ok (set_open us st, w') ->
  close_upvalues t b (set_frames fs st) w = Ok (set_open us (set_frames fs st), w').
Proof.
  unfold close_upvalues. cbn [open_upvalues stack set_frames]. intros E.
  destruct (search _ _ _) as [r|]; [|done]. rewrite outcome_bind_Ok in E |- *.
  destruct (close_each _ _ _ _) as [w1|]; [|done]. rewrite outcome_bind_Ok in E |- *.
  unfold set_open in *. by injection E as -> ->.
Qed.

Lemma return_upper_ok m fr rest start count : running m fr rest -> range_ok fr m (reg start) count ->
  ends_well (return_upper start count m).
Proof.
  intros Hr Hok. destruct (running_facts _ _ _ Hr) as (Ht & Hb & Hl & _ & Hn & _).
  destruct (range_count _ _ _ _ Hok Hl) as (n & Hcount & Hle & _).
  destruct Hok as [Hv _]. destruct Hr as [Hfr Hwf].
  unfold return_upper. rewrite Ht, outcome_bind_Ok, Hv, eqb_reflx. cbn [negb].
  cbn [state world thread consume set_state].
  unfold len in *. destruct (close_wf (thread m) (bottom fr) _ _ Hwf)
    as (us & w' & Eclose & Hw & Ho & Hcl & _ & _ & Hcap & Hnest & _ & _).
  rewrite (close_upvalues_frames _ _ _ _ rest _ _ Eclose), outcome_bind_Ok.
  cbn [stack set_open set_frames]. rewrite Hcount, outcome_bind_Ok.
  rewrite copy_within_in, outcome_bind_Ok by lia. set (s := take (bottom fr + n) _).
  rewrite Hfr in Hcap. apply Forall_cons in Hcap as [_ Hcap].
  assert (Hls : (bottom fr <= length s)%nat).
  { unfold s. rewrite length_take, !length_app, length_take, length_take, length_drop. lia. }
  destruct (return_to_wf (thread m) w' (bottom fr) (mk_ThreadState rest s us))
    as (st' & E' & _ & Hwf'); try done.
  - eapply wf_world_step; [exact Hw|apply same_elsewhere_refl|]. cbn. by eapply wf_open_limit.
  - by apply Hnest.
  - unfold set_stack, set_open, set_frames. cbn [frames stack open_upvalues]. rewrite E', outcome_bind_Ok.
    by apply done_ok.
Qed.

(** Changing the values of the running frame's stack *)
Lemma running_stack m fr rest s m' : running m fr rest -> length s = len m ->
  thread m' = thread m -> world m' = world m -> state m' = set_stack s (state m) ->
  wf_thread (thread m') (state m') (world m').
Proof.
  intros [Hf [Hw Ho Hfr Hc]] Hs -> -> ->. unfold len in Hs. split; cbn.
  - by apply wf_world_stack.
  - unfold open_limit in *. cbn. rewrite Hs. done.
  - by rewrite Hs.
  - done.
Qed.

Lemma varargs_ok m fr rest dest count : running m fr rest -> fits fr m (Operation.VarArgs dest count) ->
  ends_well (varargs dest count m).
Proof.
  intros Hr [Hv Hfit]. destruct (running_facts _ _ _ Hr) as (Ht & Hb & Hl & He & Hn & Hw & Hcap & Hcap1).
  specialize (Hl Hv). unfold len in *. unfold varargs. rewrite Ht, outcome_bind_Ok, Hv, sub_le, outcome_bind_Ok by lia.
  set (k := (base fr - bottom fr)%nat). change (stack (state (consume FUEL_PER_CALL m))) with (stack (state m)).
  destruct (VarCount.to_constant count) as [c|] eqn:Ec.
  - set (n := Z.to_nat c) in *. destruct (Nat.leb_spec n k).
    + rewrite copy_within_in, outcome_bind_Ok by lia. apply done_ok. eapply running_stack; [done| |done..].
      unfold len. rewrite !length_app, !length_take, !length_drop. lia.
    + rewrite copy_within_in, outcome_bind_Ok by lia. rewrite fill_in, outcome_bind_Ok.
      * apply done_ok. eapply running_stack; [done| |done..]. unfold len.
        rewrite !length_app, length_replicate, !length_take, !length_drop, !length_app, !length_take, !length_drop. lia.
      * lia.
      * rewrite !length_app, !length_take, !length_drop. lia.
  - destruct Hfit as [Hd Hopen]. rewrite extend_from_within_in, outcome_bind_Ok by (rewrite length_take; lia).
    set (s := take _ (stack (state m)) ++ _).
    assert (Hs : (base fr + reg dest <= length s)%nat).
    { unfold s. rewrite length_app, length_take. lia. }
    assert (Ho : wf_open (thread m) (open_upvalues (state m)) (length s) (world m)).
    { eapply wf_open_below; [apply Hw|]. intros i Hi. specialize (Hopen i Hi). lia. }
    apply done_ok. split; cbn.
    + eapply wf_world_step; [done|apply same_elsewhere_refl|done].
    + done.
    + split_and!; [lia|lia|done|done].
    + by constructor.
Qed.

(** ** Upvalues and registers *)

(** The running frame may use the upvalue: its variable is not in the frame. *)
Definition accessible m (fr : lua_frame) u : Prop :=
  is_Some (upvalues (world m) !! u) /\
  forall i, upvalues (world m) !! u = Some (Open (thread m) i) -> (i < bottom fr)%nat.

(** The variable behind an upvalue, seen from the running thread *)
Definition cell m u : option value := variable (thread m) (state m) (world m) u.

Lemma captured_accessible m fr rest c u : running m fr rest ->
  closures (world m) !! closure fr = Some c -> u ∈ closure_upvalues c -> accessible m fr u.
Proof.
  intros Hr Hc Hu. destruct (running_facts _ _ _ Hr) as (_ & _ & _ & _ & _ & Hw & _ & c' & Hc' & Hb).
  assert (c' = c) as -> by congruence. split; [by eapply (ww_closures _ _ _ Hw)|]. intros i. by apply Hb.
Qed.

Lemma get_upvalue_ok m fr rest u : running m fr rest -> accessible m fr u ->
  exists v, get_upvalue u m = Ok v /\ cell m u = Some v.
Proof.
  intros Hr [Hs Hacc]. destruct (running_facts _ _ _ Hr) as (Ht & Hb & _ & _ & _ & Hw & _).
  destruct (variable_total _ _ _ _ Hw Hs) as [v Hv]. exists v. split; [|done].
  unfold get_upvalue, variable in *. rewrite Ht, outcome_bind_Ok.
  destruct Hs as [[t' i|v'] Hu]; rewrite Hu in *; [|by injection Hv as ->].
  case_bool_decide as E; [subst t'|].
  - specialize (Hacc i eq_refl). rewrite (proj2 (Nat.ltb_lt _ _) Hacc). cbn [rust_assert]. rewrite outcome_bind_Ok.
    apply get_Some. by rewrite lookup_take_lt by lia.
  - destruct (threads (world m) !! t') as [st'|] eqn:Et; [|done]. unfold borrow. rewrite Et, outcome_bind_Ok.
    by apply get_Some.
Qed.

(** The closed case of [set_upvalue] *)
Lemma wf_thread_closed t st w u v v0 : wf_thread t st w -> upvalues w !! u = Some (Closed v0) ->
  wf_thread t st (set_upvalues (<[u := Closed v]> (upvalues w)) w).
Proof.
  intros [Hw Ho Hf Hc] Hu. set (w' := set_upvalues _ _).
  assert (Hiff : forall u' t' i, upvalues w' !! u' = Some (Open t' i) <-> upvalues w !! u' = Some (Open t' i)).
  { intros u' t' i. cbn. destruct (decide (u' = u)) as [->|Hne]; [rewrite lookup_insert_eq, Hu; by split|].
    by rewrite lookup_insert_ne. }
  assert (He : same_elsewhere t w w').
  { split; [done..|by intros; apply Hiff|]. intros u' Hs. cbn. destruct (decide (u' = u)) as [->|Hne];
      [rewrite lookup_insert_eq; by eauto|by rewrite lookup_insert_ne]. }
  assert (Hopen : forall us limit, wf_open t us limit w -> wf_open t us limit w').
  { intros us limit [(is_ & Hp & Hr) Hcomp]. split; [exists is_; split; [|done]|].
    - apply Forall2_same_length_lookup_2; [by eapply Forall2_length|]. intros j u' i Hj Hi.
      apply Hiff. exact (Forall2_lookup_lr _ _ _ _ _ _ Hp Hj Hi).
    - intros u' i Hu'. apply (Hcomp u' i). by apply Hiff. }
  split.
  - eapply wf_world_step; [done..|]. apply Hopen, Hw.
  - by apply Hopen.
  - eapply wf_frames_mono; [|done]. intros i [u' Hu']. exists u'. by apply Hiff.
  - apply (captured_mono t w w'); [done| |apply (ww_closures _ _ _ Hw)|done]. intros u' i _ Hu'. by apply Hiff.
Qed.

(** The other threads' stacks: writing one at a position it has *)
Lemma wf_thread_elsewhere t st w t' st' s : wf_thread t st w -> threads w !! t' = Some st' ->
  length s = length (stack st') ->
  wf_thread t st (set_threads (<[t' := set_stack s st']> (threads w)) w).
Proof.
  intros [Hw Ho Hf Hc] Ht' Hl. assert (t' <> t) as Hne by (intros ->; by rewrite (ww_self _ _ _ Hw) in Ht').
  set (w' := set_threads _ w).
  assert (Hopen : forall t us limit, wf_open t us limit w -> wf_open t us limit w') by (by intros ??? []).
  split; [split|by apply Hopen| |done]; cbn.
  - rewrite lookup_insert_ne by done. apply Hw.
  - apply Hopen, Hw.
  - intros t2 st2. destruct (decide (t2 = t')) as [->|Hne2].
    + rewrite lookup_insert_eq. intros [= <-]. cbn. rewrite Hl. apply Hopen. by apply Hw.
    + rewrite lookup_insert_ne by done. intros E. apply Hopen. by apply Hw.
  - intros u t2 i Hu Hne2. destruct (decide (t2 = t')) as [->|Hne3]; [rewrite lookup_insert_eq; by eauto|].
    rewrite lookup_insert_ne by done. by eapply ww_alive.
  - apply Hw.
  - eapply wf_frames_mono; [|done]. by intros i [u Hu]; exists u.
Qed.

Lemma set_upvalue_ok m fr rest u v : running m fr rest -> accessible m fr u ->
  exists m', set_upvalue u v m = Ok m' /\ running m' fr rest /\
    thread m' = thread m /\ closures (world m') = closures (world m) /\
    (forall u', cell m' u' = if decide (u' = u) then Some v else cell m u').
Proof.
  intros Hr [Hs Hacc]. destruct (running_facts _ _ _ Hr) as (Ht & Hb & _ & _ & _ & Hw & _).
  destruct (variable_total _ _ _ _ Hw Hs) as [v0 Hv]. unfold cell.
  unfold set_upvalue, variable in *. rewrite Ht, outcome_bind_Ok. unfold len in *.
  destruct Hs as [[t' i|v'] Hu]; rewrite Hu in *; [case_bool_decide as E; [subst t'|]|].
  - specialize (Hacc i eq_refl). rewrite (proj2 (Nat.ltb_lt _ _) Hacc). cbn [rust_assert]. rewrite outcome_bind_Ok.
    rewrite set_lt, outcome_bind_Ok by (rewrite length_take; lia).
    rewrite <- insert_app_l, take_drop by (rewrite length_take; lia).
    eexists. split; [reflexivity|]. split_and!; try done.
    + split; [apply Hr|]. eapply running_stack; [done| |done..]. unfold len. apply length_insert.
    + intros u'. cbn. destruct (decide (u' = u)) as [->|Hne].
      * rewrite Hu, bool_decide_eq_true_2 by done. apply list_lookup_insert_eq. lia.
      * destruct (upvalues (world m) !! u') as [[t' i'|]|] eqn:Hu'; [|done..]. case_bool_decide; [|done].
        subst. rewrite list_lookup_insert_ne; [done|]. intros ->. apply Hne.
        eapply wf_open_inj; [apply Hw|done..].
  - destruct (threads (world m) !! t') as [st'|] eqn:Et; [|done]. unfold borrow. rewrite Et, outcome_bind_Ok.
    cbn in Hv. pose proof (lookup_lt_Some _ _ _ Hv). rewrite set_lt, outcome_bind_Ok by done.
    eexists. split; [reflexivity|]. split_and!; try done.
    + split; [apply Hr|]. apply wf_thread_elsewhere; [apply Hr|done|]. apply length_insert.
    + intros u'. cbn. destruct (decide (u' = u)) as [->|Hne].
      * rewrite Hu, bool_decide_eq_false_2, lookup_insert_eq by done. cbn. by apply list_lookup_insert_eq.
      * destruct (upvalues (world m) !! u') as [[t2 i'|]|] eqn:Hu'; [|done..]. case_bool_decide; [done|].
        destruct (decide (t2 = t')) as [->|]; [|by rewrite lookup_insert_ne].
        rewrite lookup_insert_eq, Et. cbn. rewrite list_lookup_insert_ne; [done|]. intros ->. apply Hne.
        eapply wf_open_inj; [by eapply ww_others|done..].
  - eexists. split; [reflexivity|]. split_and!; try done.
    + split; [apply Hr|]. eapply wf_thread_closed; [apply Hr|done].
    + intros u'. cbn. destruct (decide (u' = u)) as [->|Hne]; [by rewrite lookup_insert_eq|].
      by rewrite lookup_insert_ne.
Qed.

Lemma registers_eq m fr rest : running m fr rest ->
  registers m = Ok (Vm.mk_registers (drop (base fr) (stack (state m))) (pc fr)).
Proof.
  intros Hr. destruct (running_facts _ _ _ Hr) as (Ht & Hb & _). unfold registers, len in *.
  rewrite Ht, outcome_bind_Ok. rewrite slice_end, outcome_bind_Ok by lia. done.
Qed.

Lemma write_eq m fr rest r v : running m fr rest -> (base fr + reg r < len m)%nat ->
  write r v m = Ok (set_state (set_stack (<[(base fr + reg r)%nat := v]> (stack (state m))) (state m)) m).
Proof.
  intros Hr Hlt. destruct (running_facts _ _ _ Hr) as (Ht & Hb & _). pose proof (proj1 Hr) as Hf.
  unfold write, len in *. rewrite (registers_eq _ _ _ Hr), outcome_bind_Ok.
  unfold Vm.set_register, Vm.get_register, Vm.index. cbn [Vm.stack_frame Vm.pc].
  destruct (lookup_lt_is_Some_2 (stack (state m)) (base fr + reg r) Hlt) as [x Hx].
  fold (reg r). rewrite lookup_drop, Hx, !outcome_bind_Ok.
  unfold put_registers. rewrite Ht, outcome_bind_Ok. cbn [Vm.stack_frame Vm.pc]. do 2 f_equal.
  unfold set_stack. rewrite Hf. f_equal; [by destruct fr|].
  rewrite <- (take_drop (base fr) (stack (state m))) at 3.
  rewrite insert_app_r_alt by (rewrite length_take; lia). do 2 f_equal. rewrite length_take. lia.
Qed.

Lemma write_ok m fr rest r v : running m fr rest -> (base fr + reg r < len m)%nat ->
  exists m', write r v m = Ok m' /\ running m' fr rest /\ thread m' = thread m /\ world m' = world m /\
    stack (state m') = <[(base fr + reg r)%nat := v]> (stack (state m)).
Proof.
  intros Hr Hlt. rewrite (write_eq _ _ _ _ _ Hr Hlt). eexists. split; [reflexivity|]. split_and!; try done.
  split; [apply Hr|]. eapply running_stack; [done| |done..]. apply length_insert.
Qed.

Lemma read_ok m fr rest r : running m fr rest -> (base fr + reg r < len m)%nat ->
  exists v, read r m = Ok v /\ stack (state m) !! (base fr + reg r)%nat = Some v.
Proof.
  intros Hr Hlt. destruct (lookup_lt_is_Some_2 (stack (state m)) (base fr + reg r) Hlt) as [v Hv].
  exists v. split; [|done]. unfold read. rewrite (registers_eq _ _ _ Hr), outcome_bind_Ok.
  unfold Vm.get_register, Vm.index. cbn. fold (reg r). by rewrite lookup_drop, Hv.
Qed.

(** What opening an upvalue keeps *)
Record kept m m' : Prop := {
  k_thread : thread m' = thread m;
  k_stack : stack (state m') = stack (state m);
  k_closures : closures (world m') = closures (world m);
  k_upvalues : forall u, is_Some (upvalues (world m) !! u) ->
    upvalues (world m') !! u = upvalues (world m) !! u;
  k_threads : threads (world m') = threads (world m)
}.

Lemma kept_refl m : kept m m.
Proof. by split. Qed.

Lemma kept_trans m1 m2 m3 : kept m1 m2 -> kept m2 m3 -> kept m1 m3.
Proof.
  intros [] []. split; try congruence. intros u Hu. rewrite k_upvalues1; [auto|]. by rewrite k_upvalues0.
Qed.

Lemma kept_cell m m' u : kept m m' -> is_Some (upvalues (world m) !! u) -> cell m' u = cell m u.
Proof.
  intros [Ht Hs _ Hu Hth] Hsome. unfold cell, variable. by rewrite Ht, Hs, Hth, Hu.
Qed.

Lemma open_upvalue_ok m fr rest r : running m fr rest -> (base fr + reg r < len m)%nat ->
  exists u m', open_upvalue r m = Ok (u, m') /\ running m' fr rest /\ kept m m' /\
    upvalues (world m') !! u = Some (Open (thread m) (base fr + reg r)).
Proof.
  intros Hr Hlt. destruct (running_facts _ _ _ Hr) as (Ht & Hb & _ & He & _ & Hw & _). destruct Hr as [Hf Hwf].
  destruct (open_upvalue_spec r m fr rest Hf (ww_open _ _ _ Hw) Hlt)
    as (u & us & w' & E & Hu & Hse & _ & Ho & Hsame & Hother).
  eexists _, _. split; [exact E|]. split; [|split; [by split; try apply Hse|done]].
  split; [done|]. destruct Hwf as [_ Hol Hfr Hcap]. unfold open_limit in Hol. rewrite Hf in *. cbn.
  assert (Hopened : forall i, opened (thread m) w' i -> opened (thread m) (world m) i \/ i = (base fr + reg r)%nat).
  { intros i [u' Hu']. destruct (decide (u' = u)) as [->|Hne]; [right; congruence|left].
    exists u'. by rewrite <- Hother. }
  split.
  - eapply wf_world_step; [done..|]. exact Ho.
  - unfold open_limit. cbn. rewrite Hf. exact Ho.
  - cbn. rewrite Hf. cbn in Hfr |- *. destruct Hfr as (H1 & H2 & H3 & Hn). split_and!; try done.
    eapply nested_mono; [|done]. intros i Hi Ho'. destruct (Hopened i Ho') as [?| ->]; [done|lia].
  - cbn. rewrite Hf. eapply captured_mono; [apply Hse| |apply (ww_closures _ _ _ Hw)|done].
    intros u' i Hs Hu'. by rewrite <- Hsame.
Qed.

Lemma capture_ok m fr rest c descs : running m fr rest -> closures (world m) !! closure fr = Some c ->
  Forall (descriptor_ok fr m c) descs ->
  exists r m', capture (closure_upvalues c) descs m = Ok (r, m') /\ running m' fr rest /\ kept m m' /\
    forall us, r = inl us -> Forall (fun u => is_Some (upvalues (world m') !! u)) us.
Proof.
  intros Hr Hc Hd. revert m Hr Hc Hd. induction descs as [|d descs IH]; intros m Hr Hc Hd; cbn [capture].
  { eexists _, m. split; [reflexivity|]. split_and!; [done|apply kept_refl|]. by intros us [= <-]. }
  apply Forall_cons in Hd as [Hd Hds]. destruct d as [|r|i].
  - eexists _, m. split; [reflexivity|]. split_and!; [done|apply kept_refl|done].
  - destruct (open_upvalue_ok m fr rest r Hr Hd) as (u & m1 & -> & Hr1 & Hk1 & Hu). rewrite outcome_bind_Ok.
    destruct (IH m1 Hr1) as (us & m2 & -> & Hr2 & Hk2 & Hus).
    { by rewrite (k_closures _ _ Hk1). }
    { eapply Forall_impl; [exact Hds|]. intros [|r'|i'] Hd'; cbn in *; try done. unfold len in *.
      by rewrite (k_stack _ _ Hk1). }
    rewrite outcome_bind_Ok. eexists _, m2. split; [reflexivity|].
    split_and!; [done|by eapply kept_trans|]. intros us' E. destruct us as [us|]; [|done]. injection E as <-.
    constructor; [|by apply Hus]. rewrite (k_upvalues _ _ Hk2); rewrite Hu; by eauto.
  - destruct (lookup_lt_is_Some_2 _ _ Hd) as [u Hu]. rewrite (get_Some _ _ _ Hu), outcome_bind_Ok.
    destruct (IH m Hr Hc Hds) as (us & m2 & -> & Hr2 & Hk2 & Hus). rewrite outcome_bind_Ok.
    eexists _, m2. split; [reflexivity|]. split_and!; [done..|].
    intros us' E. destruct us as [us|]; [|done]. injection E as <-. constructor; [|by apply Hus].
    destruct (running_facts _ _ _ Hr) as (_ & _ & _ & _ & _ & Hw & _).
    assert (Hs : is_Some (upvalues (world m) !! u)).
    { eapply (ww_closures _ _ _ Hw); [done|]. by eapply list_elem_of_lookup_2. }
    by rewrite (k_upvalues _ _ Hk2).
Qed.

(** More closures *)
Lemma wf_thread_closures t st w cs mem : wf_thread t st w -> closures w ⊆ cs ->
  (forall p c u, cs !! p = Some c -> u ∈ closure_upvalues c -> is_Some (upvalues w !! u)) ->
  wf_thread t st (mk_World (threads w) (upvalues w) cs mem).
Proof.
  intros [Hw Ho Hf Hc] Hsub Hcs. set (w' := mk_World _ _ _ _).
  assert (Hopen : forall t us limit, wf_open t us limit w -> wf_open t us limit w') by (by intros ??? []).
  split; [split|by apply Hopen| |].
  - apply Hw.
  - apply Hopen, Hw.
  - intros t' st' E. apply Hopen. by apply Hw.
  - apply Hw.
  - exact Hcs.
  - eapply wf_frames_mono; [|done]. by intros i [u Hu]; exists u.
  - eapply Forall_impl; [exact Hc|]. intros [fr| | | | | | | |]; cbn; try done.
    intros (c & Ec & Hb). exists c. split; [|done]. by eapply lookup_weaken.
Qed.

Lemma exec_closure_ok m fr rest allocated size_of_inner size_of_upvalue p dest : running m fr rest ->
  fits fr m (Operation.Closure dest p) ->
  ends_well (exec_closure allocated size_of_inner size_of_upvalue p dest m).
Proof.
  intros Hr (Hdest & c & p' & Hc & Hp & Hd). destruct (running_facts _ _ _ Hr) as (Ht & _).
  unfold exec_closure, current. rewrite Ht, !outcome_bind_Ok, Hc, !outcome_bind_Ok.
  rewrite (get_Some _ _ _ Hp), !outcome_bind_Ok.
  destruct (capture_ok m fr rest c _ Hr Hc Hd) as (us & m1 & -> & Hr1 & Hk & Hus). rewrite outcome_bind_Ok.
  destruct us as [us|e]; [|eapply fail_ok; apply Hr1]. specialize (Hus us eq_refl).
  unfold try_from_parts.
  destruct (Memory.check _ _ _) as [[[]|e] mem]; cbv beta iota zeta; cbn [threads upvalues closures].
  - set (q := fresh (dom (closures (world m1)))).
    assert (Hq : closures (world m1) !! q = None) by (apply not_elem_of_dom, is_fresh).
    set (m2 := set_world _ m1).
    assert (Hr2 : running m2 fr rest).
    { split; [apply Hr1|]. apply (wf_thread_closures (thread m1) (state m1) (world m1)); [apply Hr1| |].
      - by apply insert_subseteq.
      - intros p2 c2 u. cbn. destruct (decide (p2 = q)) as [->|Hne].
        + rewrite lookup_insert_eq. intros E Hu. injection E as <-. cbn in Hu.
          rewrite Forall_forall in Hus. by apply Hus.
        + rewrite lookup_insert_ne by done. destruct (running_facts _ _ _ Hr1) as (_ & _ & _ & _ & _ & Hw & _).
          apply (ww_closures _ _ _ Hw). }
    destruct (write_ok m2 fr rest dest (Value.Function (Closure q)) Hr2) as (m3 & -> & Hr3 & _).
    { unfold len. cbn. by rewrite (k_stack _ _ Hk). }
    rewrite outcome_bind_Ok. apply done_ok. apply Hr3.
  - eapply fail_ok; [apply Hr1|].
    apply (wf_thread_closures (thread m1) (state m1) (world m1)); [apply Hr1|done|].
    destruct (running_facts _ _ _ Hr1) as (_ & _ & _ & _ & _ & Hw & _). apply (ww_closures _ _ _ Hw).
Qed.

Lemma get_upvalue_instr_ok m fr rest r i : running m fr rest ->
  fits fr m (Operation.GetUpValue r i) -> forall allocated a b,
  exists res, exec h allocated a b (Operation.GetUpValue r i) m = Some res /\ ends_well res.
Proof.
  intros Hr (Hdest & c & Hc & Hi) allocated a b. eexists. split; [reflexivity|].
  destruct (running_facts _ _ _ Hr) as (Ht & _). unfold current. rewrite Ht, !outcome_bind_Ok, Hc, !outcome_bind_Ok.
  destruct (lookup_lt_is_Some_2 _ _ Hi) as [u Hu]. rewrite (get_Some _ _ _ Hu), outcome_bind_Ok.
  destruct (get_upvalue_ok m fr rest u Hr) as (v & -> & _).
  { eapply captured_accessible; [done..|]. by eapply list_elem_of_lookup_2. }
  rewrite outcome_bind_Ok. destruct (write_ok m fr rest r v Hr Hdest) as (m' & -> & Hr' & _).
  rewrite outcome_bind_Ok. apply done_ok, Hr'.
Qed.

Lemma set_upvalue_instr_ok m fr rest r i : running m fr rest ->
  fits fr m (Operation.SetUpValue i r) -> forall allocated a b,
  exists res, exec h allocated a b (Operation.SetUpValue i r) m = Some res /\ ends_well res.
Proof.
  intros Hr (Hsrc & c & Hc & Hi) allocated a b. eexists. split; [reflexivity|].
  destruct (running_facts _ _ _ Hr) as (Ht & _). unfold current. rewrite Ht, !outcome_bind_Ok, Hc, !outcome_bind_Ok.
  destruct (lookup_lt_is_Some_2 _ _ Hi) as [u Hu]. rewrite (get_Some _ _ _ Hu), outcome_bind_Ok.
  destruct (read_ok m fr rest r Hr Hsrc) as (v & -> & _). rewrite outcome_bind_Ok.
  destruct (set_upvalue_ok m fr rest u v Hr) as (m' & -> & Hr' & _).
  { eapply captured_accessible; [done..|]. by eapply list_elem_of_lookup_2. }
  rewrite outcome_bind_Ok. apply done_ok, Hr'.
Qed.

Lemma constant_Ok n : 0 <= n < 255 -> exists c, VarCount.constant n = Ok c.
Proof.
  intros Hn. unfold VarCount.constant, Opt254.some, Opt254.new, Opt254.try_new.
  rewrite (proj2 (Z.eqb_neq n 255)) by lia. by eexists.
Qed.

(** Every instruction of this group, in its place, runs without a panic and leaves the
    thread well formed. *)
Lemma exec_ok m fr rest op allocated a b : running m fr rest -> fits fr m op ->
  exists res, exec h allocated a b op m = Some res /\ ends_well res.
Proof.
  intros Hr Hfit. destruct op; cbn in Hfit; try done.
  - eexists. split; [reflexivity|]. destruct Hfit. by eapply call_function_ok.
  - eexists. split; [reflexivity|]. by eapply tail_call_function_ok.
  - eexists. split; [reflexivity|]. by eapply return_upper_ok.
  - eexists. split; [reflexivity|]. by eapply varargs_ok.
  - eexists. split; [reflexivity|]. by eapply exec_closure_ok.
  - eexists. split; [reflexivity|]. destruct Hfit as (Hv & Hn & Hsize & Hopen & Htgt).
    destruct (constant_Ok var_count) as [c ->]; [lia|]. rewrite outcome_bind_Ok.
    eapply call_function_keep_ok; try done.
    + replace (reg base0 + 1 + Z.to_nat 2)%nat with (reg base0 + 3)%nat by lia. done.
    + replace (base fr + reg base0 + 1 + Z.to_nat 2)%nat with (base fr + reg base0 + 3)%nat by lia. done.
  - by eapply get_upvalue_instr_ok.
  - by eapply set_upvalue_instr_ok.
Qed.
End ThreadSteps.
End ThreadSteps.
