(* ===== verification/ThreadTheorems.v ===== *)
(** * Threads: what calls, returns and upvalues promise

    Arguments and results arrive where Lua puts them, metamethods disturb nothing, a tail
    call takes the place of its caller, upvalues are variables, and a thread goes through
    its modes. *)

From S2P Require Import Prelude Slices Float64 StringUtils Constant Value MetaOps Opcode Operators Limits Vm Thread ThreadFacts ThreadCalls ThreadSteps.

Module ThreadTheorems.
Import Thread SliceFacts ThreadFacts ThreadCalls ThreadSteps.
Section ThreadTheorems.
Context `{BuildProfile} {S : Type} `{AsBytes S} {Sequence Error : Type}.
Abbreviation value := (Value.t S).
Abbreviation callee := (MetaOps.Callee S).
Abbreviation Frame := (@Thread.Frame S Sequence Error).
Abbreviation ThreadState := (@Thread.ThreadState S Sequence Error).
Abbreviation World := (@Thread.World S Sequence Error).
Abbreviation LuaFrame := (@Thread.LuaFrame S Sequence Error).
Context (h : MetaOps.Heap S).
Implicit Types (w : World) (st : ThreadState) (m : LuaFrame) (t u : obj) (us : list obj).

(** ** Lemmas *)

(** The values of the frame on top *)
Definition regs m (fr : lua_frame) : list value := drop (base fr) (stack (state m)).
(** The arguments beyond the fixed ones *)
Definition extra m (fr : lua_frame) : list value :=
  take (base fr - bottom fr) (drop (bottom fr) (stack (state m))).

(** [count] values from register [from] on *)
Definition values m (fr : lua_frame) (from : nat) (count : VarCount.t) : list value :=
  match VarCount.to_constant count with
  | Some c => take (Z.to_nat c) (drop from (regs m fr))
  | None => drop from (regs m fr)
  end.

Lemma drop_take_add {A} (l : list A) n k : drop n (take (n + k) l) = take k (drop n l).
Proof. rewrite <- take_drop_commute. do 2 f_equal; lia. Qed.

Lemma call_function_exact m fr rest func args returns f c ci : running m fr rest ->
  call_ok h fr m func args -> regs m fr !! reg func = Some f ->
  MetaOps.call h f = inl (MetaOps.Existing (Closure c)) -> closures (world m) !! c = Some ci ->
  let given := values m fr (reg func + 1) args in
  let b := (base fr + reg func)%nat in
  exists m', call_function h func args returns m = Ok (inl tt, m') /\
    thread m' = thread m /\ world m' = world m /\
    state m' = mk_ThreadState
      (Lua (called_frame (proto ci) c b given) :: Lua (set_expected (Some (LuaReturn.Normal returns)) fr) :: rest)
      (take b (stack (state m)) ++ extra_args (proto ci) given ++ first_registers (proto ci) given)
      (open_upvalues (state m)).
Proof.
  intros Hr Hok Hf Hcall Hci given b. destruct (running_facts _ _ _ Hr) as (Ht & Hb & Hl & _).
  destruct (call_ok_args _ _ _ _ _ _ Hr Hok) as (pre & f' & post & n & Hs & Hpre & Hn & Hle & Hall & Hget & _).
  fold b in Hpre, Hn, Hget. destruct Hok as (Hreg & [Hv Hrange] & _).
  assert (f' = f) as ->.
  { apply get_inv in Hget. unfold regs in Hf. rewrite lookup_drop in Hf. fold b in Hf. congruence. }
  assert (Hgiven : given = take n post).
  { unfold given, values, regs. rewrite drop_drop, Hs, (Nat.add_assoc (base fr)). fold b. rewrite <- Hpre.
    rewrite drop_app_ge by lia. replace (length pre + 1 - length pre)%nat with 1%nat by lia. cbn [drop].
    unfold count_or in Hn. destruct (VarCount.to_constant args) as [k|]; [by injection Hn as ->|].
    by rewrite (Hall eq_refl), take_ge. }
  unfold call_function. rewrite Ht, outcome_bind_Ok, Hv, eqb_reflx. cbn [negb].
  change (state (consume FUEL_PER_CALL m)) with (state m). fold b. rewrite Hn, Hget, !outcome_bind_Ok, Hcall.
  change (stack (expecting (LuaReturn.Normal returns) fr rest (state m))) with (stack (state m)).
  rewrite Hs, <- Hpre, remove_middle, outcome_bind_Ok, take_app_add', take_app_length by done.
  change (world (consume_items n (consume FUEL_PER_CALL m))) with (world m).
  rewrite <- Hgiven. unfold set_stack. cbn [frames open_upvalues expecting set_frames].
  rewrite (push_call_closure _ _ _ _ ci) by done. rewrite outcome_bind_Ok. by eexists.
Qed.

Lemma take_copied {A} (l : list A) from count dest : (from + count <= length l)%nat -> (dest <= length l)%nat ->
  take (dest + count) (take dest l ++ take count (drop from l) ++ drop (dest + count) l) =
    take dest l ++ take count (drop from l).
Proof.
  intros Hf Hd. rewrite app_assoc. apply take_app_length'. rewrite length_app, !length_take, length_drop. lia.
Qed.

Lemma values_range m fr from count n : range_ok fr m from count ->
  count_or count (Slice.sub (len m) (base fr + from)) = Ok n ->
  (base fr + from + n <= len m)%nat -> (VarCount.to_constant count = None -> base fr + from + n = len m)%nat ->
  take n (drop (base fr + from) (stack (state m))) = values m fr from count.
Proof.
  intros Hr Hn Hle Hall. unfold values, regs, count_or, len in *. rewrite drop_drop.
  destruct (VarCount.to_constant count) as [c|]; [by injection Hn as ->|].
  apply take_ge. rewrite length_drop. specialize (Hall eq_refl). lia.
Qed.

(** What a return does before the frame below takes the results *)
Lemma return_upper_exact m fr rest start count : running m fr rest -> range_ok fr m (reg start) count ->
  exists us w', close_upvalues (thread m) (bottom fr) (state m) (world m) = Ok (set_open us (state m), w') /\
    let st := mk_ThreadState rest (take (bottom fr) (stack (state m)) ++ values m fr (reg start) count) us in
    exists fuel, forall st', return_to (bottom fr) st = Ok st' ->
      return_upper start count m = Ok (inl tt, mk_LuaFrame (thread m) st' w' fuel).
Proof.
  intros Hr Hok. destruct (running_facts _ _ _ Hr) as (Ht & Hb & Hl & _).
  destruct (range_count _ _ _ _ Hok Hl) as (n & Hcount & Hle & Hall).
  pose proof (values_range _ _ _ _ _ Hok Hcount Hle Hall) as Hval. unfold len in *.
  destruct (close_wf (thread m) (bottom fr) _ _ (proj2 Hr)) as (us & w' & Eclose & _).
  exists us, w'. split; [done|]. cbv zeta. eexists. intros st' Hst'.
  unfold return_upper. rewrite Ht, outcome_bind_Ok, (proj1 Hok), eqb_reflx. cbn [negb].
  cbn [state world thread consume set_state]. rewrite (close_upvalues_frames _ _ _ _ rest _ _ Eclose), outcome_bind_Ok.
  cbn [stack set_open set_frames]. rewrite Hcount, outcome_bind_Ok.
  rewrite copy_within_in, outcome_bind_Ok, take_copied, Hval by lia.
  unfold set_stack, set_open, set_frames. cbn [frames stack open_upvalues]. rewrite Hst', outcome_bind_Ok. done.
Qed.

(** What the caller is left with: the results from the function's register on *)
Definition delivered (size func : nat) (before results : list value) (returns : VarCount.t) : list value :=
  match VarCount.to_constant returns with
  | Some c => resize size Value.Nil (take func before ++ take (Z.to_nat c) results)
  | None => take func before ++ results
  end.

Lemma return_to_normal_regs m0 fr rest m b returns results us : running m0 fr rest ->
  (base fr <= b)%nat -> (b <= len m0)%nat -> (b <= base fr + stack_size fr)%nat ->
  take b (stack (state m)) = take b (stack (state m0)) -> (b <= len m)%nat ->
  let fr1 := set_expected (Some (LuaReturn.Normal returns)) fr in
  exists fr2 s, return_to b (mk_ThreadState (Lua fr1 :: rest) (take b (stack (state m)) ++ results) us) =
      Ok (mk_ThreadState (Lua fr2 :: rest) s us : ThreadState) /\
    fr2 = set_variable (VarCount.is_variable returns) fr /\
    take b s = take b (stack (state m0)) /\
    drop (base fr) s = delivered (stack_size fr) (b - base fr) (regs m0 fr) results returns.
Proof.
  intros Hr Hbase Hb Hsize Hsame Hlm fr1. destruct (running_facts _ _ _ Hr) as (_ & Hbb & _ & He & _).
  unfold len in *.
  rewrite (return_to_normal fr1 rest returns b) by (try rewrite length_take; done || lia).
  eexists _, _. split; [reflexivity|]. split; [by destruct fr; cbn in *; subst|].
  rewrite Hsame. unfold returned, delivered, regs. cbn [base stack_size fr1 set_expected].
  set (s0 := stack (state m0)) in *.
  assert (Hb0 : length (take b s0) = b) by (rewrite length_take; lia).
  assert (Hdrop : forall l, drop (base fr) (take b s0 ++ l) = take (b - base fr) (drop (base fr) s0) ++ l).
  { intros l. rewrite drop_app_le by lia. f_equal. rewrite <- drop_take_add. do 2 f_equal. lia. }
  destruct (VarCount.to_constant returns) as [c|].
  - rewrite resize_app_ge by lia. split; [by apply take_app_length'|]. rewrite Hdrop.
    rewrite resize_app_ge by (rewrite length_take, length_drop; lia). do 2 f_equal.
    rewrite !length_take, length_drop. lia.
  - split; [by apply take_app_length'|apply Hdrop].
Qed.

(** C16: calls.  A function called with [args] starts with its fixed parameters in its first
    registers, missing ones and all other registers nil, and the arguments beyond them as
    its varargs.  Whatever it does above its bottom, when it returns, its caller runs again
    with the same registers below the function's, the results from there on (cut or padded
    with nil to the number wanted), and every variable an upvalue stands for has the value
    the function left in it. *)
Theorem call_returns m0 fr rest func args returns f c ci : running m0 fr rest ->
  call_ok h fr m0 func args -> open_below m0 (base fr + reg func) ->
  regs m0 fr !! reg func = Some f -> MetaOps.call h f = inl (MetaOps.Existing (Closure c)) ->
  closures (world m0) !! c = Some ci ->
  let given := values m0 fr (reg func + 1) args in
  let b := (base fr + reg func)%nat in
  let waiting := Lua (set_expected (Some (LuaReturn.Normal returns)) fr) :: rest in
  exists m1 fr1, call_function h func args returns m0 = Ok (inl tt, m1) /\
    running m1 fr1 waiting /\ bottom fr1 = b /\ pc fr1 = 0 /\ closure fr1 = c /\
    regs m1 fr1 = first_registers (proto ci) given /\ extra m1 fr1 = extra_args (proto ci) given /\
    forall m2 fr2 start count, running m2 fr2 waiting -> bottom fr2 = b -> thread m2 = thread m0 ->
      take b (stack (state m2)) = take b (stack (state m1)) -> range_ok fr2 m2 (reg start) count ->
      exists m3 fr3, return_upper start count m2 = Ok (inl tt, m3) /\ running m3 fr3 rest /\
        fr3 = set_variable (VarCount.is_variable returns) fr /\
        regs m3 fr3 = delivered (stack_size fr) (reg func) (regs m0 fr) (values m2 fr2 (reg start) count) returns /\
        take (base fr) (stack (state m3)) = take (base fr) (stack (state m0)) /\
        (forall u, cell m3 u = cell m2 u).
Proof.
  intros Hr Hok Hopen Hf Hcall Hci given b waiting.
  destruct (call_function_exact _ _ _ _ _ returns _ _ _ Hr Hok Hf Hcall Hci) as (m1 & E & Ht1 & Hw1 & Hs1).
  destruct (call_function_ok _ _ _ _ _ _ returns Hr Hok Hopen) as (r & m' & E' & Hwf).
  rewrite E in E'. injection E' as <- <-. cbn in Hwf.
  destruct (running_facts _ _ _ Hr) as (_ & Hb & Hl & _). unfold len in *.
  assert (Hlen : (b <= length (stack (state m0)))%nat).
  { apply lookup_lt_Some in Hf. unfold regs in Hf. rewrite length_drop in Hf. lia. }
  assert (Hpre : length (take b (stack (state m0))) = b) by (rewrite length_take; lia).
  assert (Hstack1 : take b (stack (state m1)) = take b (stack (state m0))).
  { rewrite Hs1. cbn [stack]. by apply take_app_length'. }
  exists m1, (called_frame (proto ci) c b given). split_and!; try done.
  - split; [by rewrite Hs1|done].
  - unfold regs. rewrite Hs1. cbn [stack base called_frame]. rewrite app_assoc. apply drop_app_length'.
    rewrite length_app. fold b given. lia.
  - unfold extra. rewrite Hs1. cbn [stack base bottom called_frame]. rewrite drop_app_length' by done.
    apply take_app_length'. fold given. lia.
  - intros m2 fr2 start count Hr2 Hb2 Ht2 Hstack2 Hrange.
    destruct (return_upper_exact _ _ _ _ _ Hr2 Hrange) as (us & w' & Hclose & fuel & Hret).
    destruct (return_upper_ok _ _ _ _ _ Hr2 Hrange) as (r & m3 & E3 & Hwf3).
    destruct (running_facts _ _ _ Hr2) as (_ & Hb2' & _). rewrite Hb2 in *. unfold len in *.
    destruct (return_to_normal_regs m0 fr rest m2 b returns (values m2 fr2 (reg start) count) us Hr)
      as (fr3 & s & Eret & Hfr3 & Htake & Hdrop);
      [unfold len; destruct Hok; first [lia|congruence]..|].
    specialize (Hret _ Eret). rewrite Hret in E3. injection E3 as <- <-. cbn in Hwf3.
    exists (mk_LuaFrame (thread m2) (mk_ThreadState (Lua fr3 :: rest) s us) w' fuel), fr3.
    rewrite Hret. split_and!; try done.
    + unfold regs at 1. rewrite Hfr3. cbn [base set_variable stack state]. rewrite Hdrop.
      do 2 f_equal. lia.
    + cbn [state stack]. replace (base fr) with (Nat.min (base fr) b) by lia.
      by rewrite <- !take_take, Htake.
    + intros u. unfold cell. cbn [thread state world].
      destruct (close_wf (thread m2) b _ _ (proj2 Hr2)) as (us' & w2 & Ec & _ & Ho & _ & _ & _ & _ & _ & Hvar & _).
      rewrite Hclose in Ec. injection Ec as Eus Ew. assert (us' = us) as -> by (by inversion Eus).
      subst w2. rewrite <- (Hvar u). apply (variable_stack _ (set_open us (state m2)) _ _ _ b); [done|].
      intros i Hi. cbn. rewrite <- (lookup_take_lt _ _ _ Hi), Htake, <- Hstack1, <- Hstack2.
      by apply lookup_take_lt.
Qed.

Lemma extra_length m fr rest : running m fr rest -> length (extra m fr) = (base fr - bottom fr)%nat.
Proof.
  intros Hr. destruct (running_facts _ _ _ Hr) as (_ & Hb & _). unfold extra, len in *.
  rewrite length_take, length_drop. lia.
Qed.

Lemma copied_regs m fr rest dest k : running m fr rest -> (reg dest + k <= length (regs m fr))%nat ->
  (k <= length (extra m fr))%nat ->
  Slice.copy_within (stack (state m)) (bottom fr) k (base fr + reg dest) =
    Ok (take (base fr) (stack (state m)) ++
          take (reg dest) (regs m fr) ++ take k (extra m fr) ++ drop (reg dest + k) (regs m fr)).
Proof.
  intros Hr Hd Hk. pose proof (extra_length _ _ _ Hr) as He.
  destruct (running_facts _ _ _ Hr) as (_ & Hb & _). unfold len, regs in *. rewrite length_drop in Hd.
  rewrite copy_within_in by lia. f_equal. unfold extra. rewrite take_take, Nat.min_l by lia.
  rewrite drop_drop, (Nat.add_assoc (base fr)), <- (take_take_drop _ (base fr) (reg dest)).
  by rewrite <- app_assoc.
Qed.

Lemma extra_same m fr rest fr' l m' : running m fr rest -> bottom fr' = bottom fr -> base fr' = base fr ->
  stack (state m') = take (base fr) (stack (state m)) ++ l -> extra m' fr' = extra m fr.
Proof.
  intros Hr E1 E2 E3. destruct (running_facts _ _ _ Hr) as (_ & Hb & _). unfold len in *.
  unfold extra. rewrite E1, E2, E3, drop_app_le by (rewrite length_take; lia).
  rewrite take_app_length' by (rewrite length_drop, length_take; lia). apply skipn_firstn_comm.
Qed.

(** [...] gives exactly the arguments beyond the fixed ones: cut or padded with nil to
    the number wanted, or all of them, up to the top of the stack; nothing else moves. *)
Theorem varargs_exact m fr rest dest count : running m fr rest ->
  fits h fr m (Operation.VarArgs dest count) ->
  exists m' fr', varargs dest count m = Ok (inl tt, m') /\ running m' fr' rest /\
    extra m' fr' = extra m fr /\
    match VarCount.to_constant count with
    | Some c =>
        fr' = fr /\
        regs m' fr' = take (reg dest) (regs m fr) ++ resize (Z.to_nat c) Value.Nil (extra m fr) ++
          drop (reg dest + Z.to_nat c) (regs m fr)
    | None => fr' = set_variable true fr /\ regs m' fr' = take (reg dest) (regs m fr) ++ extra m fr
    end.
Proof.
  intros Hr Hfit. destruct (varargs_ok _ _ _ _ _ _ Hr Hfit) as (r & m' & E & Hwf).
  pose proof (extra_length _ _ _ Hr) as He. pose proof (proj1 Hr) as Hf.
  destruct (running_facts _ _ _ Hr) as (Ht & Hb & Hl & _). destruct Hfit as [Hv Hfit]. specialize (Hl Hv).
  revert E. unfold varargs. rewrite Ht, outcome_bind_Ok, Hv, sub_le, outcome_bind_Ok by lia. rewrite <- He.
  change (stack (state (consume FUEL_PER_CALL m))) with (stack (state m)).
  assert (Hregs : length (regs m fr) = stack_size fr) by (unfold regs; rewrite length_drop; unfold len in Hl; lia).
  assert (Htb : length (take (base fr) (stack (state m))) = base fr) by (rewrite length_take; unfold len in *; lia).
  destruct (VarCount.to_constant count) as [c|] eqn:Ec.
  - set (k := Z.to_nat c) in *. destruct (Nat.leb_spec k (length (extra m fr))) as [Hk|Hk].
    + rewrite (copied_regs _ _ _ _ _ Hr) by lia. rewrite outcome_bind_Ok. intros [= <- <-].
      eexists _, fr. split; [reflexivity|]. split_and!; [by split| |done|].
      * by eapply (extra_same _ _ _ fr _ _ Hr).
      * unfold regs at 1. cbn [stack state set_state set_stack]. rewrite drop_app_length' by done.
        by rewrite resize_le by done.
    + rewrite (copied_regs _ _ _ _ _ Hr) by lia. rewrite outcome_bind_Ok.
      rewrite (take_ge (extra m fr)) by done. rewrite fill_in, outcome_bind_Ok.
      2: lia.
      2: { rewrite !length_app, !length_take, !length_drop, Hregs. unfold len in *. lia. }
      intros [= <- <-]. eexists _, fr. split; [reflexivity|].
      assert (Hs : forall l, take (base fr + reg dest + length (extra m fr))
        (take (base fr) (stack (state m)) ++ take (reg dest) (regs m fr) ++ extra m fr ++ l) =
        take (base fr) (stack (state m)) ++ take (reg dest) (regs m fr) ++ extra m fr).
      { intros l. rewrite !app_assoc. apply take_app_length'. rewrite !length_app, Htb, length_take. lia. }
      split_and!; [by split| |done|].
      * eapply (extra_same _ _ _ fr _ _ Hr); [done..|]. cbn [stack state set_state set_stack]. rewrite Hs, <- !app_assoc. done.
      * unfold regs at 1. cbn [stack state set_state set_stack]. rewrite Hs, resize_ge by lia.
        rewrite <- !app_assoc, drop_app_length' by done. f_equal. f_equal. f_equal.
        -- f_equal. lia.
        -- rewrite !app_assoc, drop_app_ge by (rewrite !length_app, Htb, length_take; lia).
           rewrite !length_app, Htb, length_take, Nat.min_l, drop_drop by lia. f_equal. lia.
  - rewrite extend_from_within_in, outcome_bind_Ok by (rewrite length_take; unfold len in *; lia).
    intros [= <- <-]. eexists _, (set_variable true fr). split; [reflexivity|].
    assert (Hs : take (base fr + reg dest) (stack (state m)) ++
        take (length (extra m fr)) (drop (bottom fr) (take (base fr + reg dest) (stack (state m)))) =
      take (base fr) (stack (state m)) ++ take (reg dest) (regs m fr) ++ extra m fr).
    { rewrite (app_assoc (take (base fr) _)). f_equal.
      - unfold regs. by rewrite take_take_drop.
      - rewrite He, skipn_firstn_comm, take_take, Nat.min_l by lia. done. }
    split_and!; [by split| |done|].
    + eapply (extra_same _ _ _ (set_variable true fr) _ _ Hr); [done..|]. exact Hs.
    + unfold regs at 1. cbn [stack state set_state base set_variable]. rewrite Hs. by apply drop_app_length'.
Qed.

Lemma call_meta_exact m fr rest c ci args ret : running m fr rest -> is_variable fr = false ->
  closures (world m) !! c = Some ci ->
  exists m', call_meta_function (MetaOps.Existing (Closure c)) args ret m = Ok (inl tt, m') /\
    thread m' = thread m /\ world m' = world m /\
    state m' = mk_ThreadState
      (Lua (called_frame (proto ci) c (len m) args) :: Lua (set_expected (Some (LuaReturn.Meta ret)) fr) :: rest)
      (stack (state m) ++ extra_args (proto ci) args ++ first_registers (proto ci) args)
      (open_upvalues (state m)).
Proof.
  intros Hr Hv Hci. destruct (running_facts _ _ _ Hr) as (Ht & Hb & Hl & _). specialize (Hl Hv).
  unfold len in *. unfold call_meta_function. rewrite Ht, outcome_bind_Ok, Hv.
  change (state (consume FUEL_PER_CALL m)) with (state m).
  rewrite (proj2 (Nat.eqb_eq _ _) Hl). cbn [rust_assert]. rewrite outcome_bind_Ok.
  change (stack (expecting (LuaReturn.Meta ret) fr rest (state m))) with (stack (state m)).
  change (world (consume_items (length args) (consume FUEL_PER_CALL m))) with (world m).
  unfold set_stack. rewrite (push_call_closure _ _ _ _ ci) by done. rewrite outcome_bind_Ok. by eexists.
Qed.

(** What a metamethod's result does to the frame that used the operator *)
Definition meta_regs (ret : MetaReturn.t) (v : value) (before : list value) : list value :=
  match ret with MetaReturn.Register r => <[reg r := v]> before | _ => before end.
Definition meta_pc (ret : MetaReturn.t) (v : value) (pc : Z) : Z :=
  match ret with
  | MetaReturn.SkipIf b => if eqb (Value.to_bool v) b then pc + 1 else pc
  | _ => pc
  end.

Lemma running_fixed m fr rest : running m fr rest -> is_variable fr = false -> expected_return fr = None ->
  set_variable false (set_expected None fr) = fr.
Proof. intros _ Hv He. destruct fr; cbn in *; by subst. Qed.

(** A metamethod call disturbs nothing: the function gets exactly the operands as its
    arguments, and once it has returned the frame has the same registers, except that the
    one asked for holds the first result (nil if there is none), or the next instruction is
    skipped if the result is the truth value asked for.  The variables are as the function
    left them, but for the register written. *)
Theorem meta_call_disturbs_nothing m0 fr rest c ci args ret : running m0 fr rest ->
  is_variable fr = false -> waits (set_expected (Some (LuaReturn.Meta ret)) fr) (len m0) ->
  closures (world m0) !! c = Some ci ->
  let waiting := Lua (set_expected (Some (LuaReturn.Meta ret)) fr) :: rest in
  exists m1 fr1, call_meta_function (MetaOps.Existing (Closure c)) args ret m0 = Ok (inl tt, m1) /\
    running m1 fr1 waiting /\ bottom fr1 = len m0 /\
    regs m1 fr1 = first_registers (proto ci) args /\ extra m1 fr1 = extra_args (proto ci) args /\
    forall m2 fr2 start count, running m2 fr2 waiting -> bottom fr2 = len m0 -> thread m2 = thread m0 ->
      take (len m0) (stack (state m2)) = stack (state m0) -> range_ok fr2 m2 (reg start) count ->
      let v := default Value.Nil (head (values m2 fr2 (reg start) count)) in
      exists m3 fr3, return_upper start count m2 = Ok (inl tt, m3) /\ running m3 fr3 rest /\
        fr3 = set_pc (meta_pc ret v (pc fr)) fr /\ regs m3 fr3 = meta_regs ret v (regs m0 fr) /\
        take (base fr) (stack (state m3)) = take (base fr) (stack (state m0)) /\
        (forall u, (forall r, ret = MetaReturn.Register r ->
            upvalues (world m3) !! u <> Some (Open (thread m3) (base fr + reg r))) ->
          cell m3 u = cell m2 u).
Proof.
  intros Hr Hv Hwait Hci waiting. pose proof (proj1 Hr) as Hf.
  assert (Hc : callee_ok (world m0) (MetaOps.Existing (Closure c))) by (by exists ci).
  destruct (call_meta_function_ok m0 fr rest _ args ret Hr Hv Hwait Hc) as (r & m1 & E & Hwf).
  destruct (running_facts _ _ _ Hr) as (Ht & Hb & Hl & He & _). specialize (Hl Hv).
  destruct (call_meta_exact m0 fr rest c ci args ret Hr Hv Hci) as (m' & E' & Ht1 & Hw1 & Hs1).
  rewrite E in E'. injection E' as -> ->. cbn in Hwf.
  exists m', (called_frame (proto ci) c (len m0) args). split_and!; try done.
  - split; [by rewrite Hs1|done].
  - unfold regs. rewrite Hs1. cbn [stack base called_frame]. rewrite app_assoc. apply drop_app_length'.
    by rewrite length_app.
  - unfold extra. rewrite Hs1. cbn [stack base bottom called_frame]. rewrite drop_app_length' by done.
    apply take_app_length'. lia.
  - intros m2 fr2 start count Hr2 Hb2 Ht2 Hstack Hrange v.
    destruct (return_upper_exact _ _ _ _ _ Hr2 Hrange) as (us & w' & Hclose & fuel & Hret).
    destruct (return_upper_ok _ _ _ _ _ Hr2 Hrange) as (r & m3 & E3 & Hwf3).
    destruct (running_facts _ _ _ Hr2) as (_ & Hb2' & _). rewrite Hb2, Hstack in *.
    destruct (return_to_meta (set_expected (Some (LuaReturn.Meta ret)) fr) rest ret (len m0) (stack (state m0))
      (values m2 fr2 (reg start) count) us) as (fr3 & s & Eret & Hres); [done..|].
    specialize (Hret _ Eret). rewrite Hret in E3. injection E3 as <- <-. cbn in Hwf3.
    assert (Hkept : resize (base fr + stack_size fr) Value.Nil (stack (state m0)) = stack (state m0)).
    { rewrite resize_le by (unfold len in *; lia). apply take_ge. unfold len in *; lia. }
    change (set_variable false (set_expected None (set_expected (Some (LuaReturn.Meta ret)) fr)))
      with (set_variable false (set_expected None fr)) in Hres.
    rewrite (running_fixed _ _ _ Hr Hv He) in Hres. cbn [base stack_size set_expected pc] in Hres.
    rewrite Hkept in Hres. fold v in Hres. cbv zeta in Hres.
    assert (Hres' : fr3 = set_pc (meta_pc ret v (pc fr)) fr /\
      s = match ret with MetaReturn.Register r => <[(base fr + reg r)%nat := v]> (stack (state m0)) | _ => stack (state m0) end).
    { destruct ret; destruct Hres as [-> ->]; split; try done; by destruct fr. }
    destruct Hres' as [Hfr3 Hs].
    exists (mk_LuaFrame (thread m2) (mk_ThreadState (Lua fr3 :: rest) s us) w' fuel), fr3.
    rewrite Hret. split_and!; try done.
    + unfold regs, meta_regs. rewrite Hfr3, Hs. cbn [base set_pc stack state].
      destruct ret; [done| |done]. rewrite drop_insert_ge by lia. f_equal. lia.
    + cbn [state stack]. rewrite Hs. destruct ret; [done| |done]. by rewrite take_insert_ge by lia.
    + intros u Hu. unfold cell in *. cbn [thread state world] in *.
      destruct (close_wf (thread m2) (len m0) _ _ (proj2 Hr2)) as (us' & w2 & Ec & _ & Ho & _ & _ & _ & _ & _ & Hvar & _).
      rewrite Hclose in Ec. injection Ec as Eus Ew. subst w2. rewrite <- (Hvar u). unfold variable.
      destruct (upvalues w' !! u) as [[t' i|]|] eqn:Eu; [|done..]. case_bool_decide; [|done]. subst t'.
      cbn [stack]. assert (Hi : (i < len m0)%nat) by (by eapply wf_open_lt).
      rewrite <- (lookup_take_lt (stack (state m2)) _ _ Hi), Hstack, Hs.
      destruct ret as [|r|]; [done| |done]. apply list_lookup_insert_ne. intros <-. by apply (Hu r).
Qed.

Lemma tail_call_exact m fr rest func args f c ci : running m fr rest -> call_ok h fr m func args ->
  regs m fr !! reg func = Some f -> MetaOps.call h f = inl (MetaOps.Existing (Closure c)) ->
  closures (world m) !! c = Some ci ->
  let given := values m fr (reg func + 1) args in
  let b := bottom fr in
  exists m' us, tail_call_function h func args m = Ok (inl tt, m') /\
    close_upvalues (thread m) b (state m) (world m) = Ok (set_open us (state m), world m') /\
    thread m' = thread m /\
    state m' = mk_ThreadState (Lua (called_frame (proto ci) c b given) :: rest)
      (take b (stack (state m)) ++ extra_args (proto ci) given ++ first_registers (proto ci) given) us.
Proof.
  intros Hr Hok Hf Hcall Hci given b. destruct (running_facts _ _ _ Hr) as (Ht & Hb & Hl & _).
  destruct (call_ok_args _ _ _ _ _ _ Hr Hok) as (pre & f' & post & n & Hs & Hpre & Hn & Hle & Hall & Hget & _).
  destruct Hok as (Hreg & Hrange & _). destruct (range_count _ _ _ _ Hrange Hl) as (n' & Hn' & Hle' & Hall').
  assert (Hlen : (base fr + reg func + 1 <= length (stack (state m)))%nat) by (unfold len in *; lia).
  rewrite args_above_eq, <- Nat.add_assoc in Hn by done. fold (len m) in Hn.
  assert (n' = n) as -> by congruence.
  pose proof (values_range _ _ _ _ _ Hrange Hn' Hle' Hall') as Hgiven. fold given in Hgiven.
  assert (f' = f) as ->.
  { apply get_inv in Hget. unfold regs in Hf. rewrite lookup_drop in Hf. congruence. }
  destruct (close_wf (thread m) b _ _ (proj2 Hr)) as (us & w' & Eclose & _ & _ & Hcl & _).
  unfold len in *. unfold tail_call_function. rewrite Ht, outcome_bind_Ok, (proj1 Hrange), eqb_reflx. cbn [negb].
  change (state (consume FUEL_PER_CALL m)) with (state m).
  rewrite args_above_eq, <- Nat.add_assoc, Hn, Nat.add_assoc by done. rewrite Hget, !outcome_bind_Ok, Hcall.
  change (thread (consume FUEL_PER_CALL m)) with (thread m).
  change (world (consume FUEL_PER_CALL m)) with (world m). fold b. rewrite Eclose, outcome_bind_Ok.
  cbn [stack set_open].
  assert (Hbn : (b + n <= length (stack (state m)))%nat) by lia.
  rewrite copy_within_in, outcome_bind_Ok, take_copied by lia.
  rewrite <- Nat.add_assoc, Hgiven. unfold set_stack, set_frames, set_open. cbn [frames stack open_upvalues].
  assert (Hb' : length (take b (stack (state m))) = b) by (rewrite length_take; lia).
  pose proof (push_call_closure w' (take b (stack (state m))) given c ci rest us) as Hpush.
  rewrite Hb', Hcl in Hpush. rewrite Hpush, outcome_bind_Ok by done. eexists _, us. split; [reflexivity|]. done.
Qed.

(** C18: a tail call takes the place of its caller: the function's frame starts where the
    caller's did, over the same frames below, with the arguments as a call gives them; the
    caller's variables that are still wanted are kept, and the stack grows with neither
    frames nor values of the callers replaced before. *)
Theorem tail_call_replaces m fr rest func args f c ci : running m fr rest -> call_ok h fr m func args ->
  regs m fr !! reg func = Some f -> MetaOps.call h f = inl (MetaOps.Existing (Closure c)) ->
  closures (world m) !! c = Some ci ->
  let given := values m fr (reg func + 1) args in
  exists m' fr', tail_call_function h func args m = Ok (inl tt, m') /\ running m' fr' rest /\
    bottom fr' = bottom fr /\ closure fr' = c /\ pc fr' = 0 /\
    regs m' fr' = first_registers (proto ci) given /\ extra m' fr' = extra_args (proto ci) given /\
    take (bottom fr) (stack (state m')) = take (bottom fr) (stack (state m)) /\
    length (stack (state m')) =
      (bottom fr + length (extra_args (proto ci) given) + Z.to_nat (proto_stack_size (proto ci)))%nat /\
    (forall u, cell m' u = cell m u).
Proof.
  intros Hr Hok Hf Hcall Hci given.
  destruct (tail_call_exact _ _ _ _ _ _ _ _ Hr Hok Hf Hcall Hci) as (m' & us & E & Eclose & Ht' & Hs').
  destruct (tail_call_function_ok _ _ _ _ _ _ Hr Hok) as (r & m2 & E2 & Hwf).
  rewrite E in E2. injection E2 as <- <-. cbn in Hwf. fold given in Hs'.
  destruct (running_facts _ _ _ Hr) as (_ & Hb & _). unfold len in *.
  assert (Hb' : length (take (bottom fr) (stack (state m))) = bottom fr) by (rewrite length_take; lia).
  exists m', (called_frame (proto ci) c (bottom fr) given). split_and!; try done.
  - split; [by rewrite Hs'|done].
  - unfold regs. rewrite Hs'. cbn [stack base called_frame]. rewrite app_assoc. apply drop_app_length'.
    rewrite length_app. lia.
  - unfold extra. rewrite Hs'. cbn [stack base bottom called_frame]. rewrite drop_app_length' by done.
    apply take_app_length'. lia.
  - rewrite Hs'. cbn [stack]. by apply take_app_length'.
  - rewrite Hs'. cbn [stack]. rewrite !length_app, first_registers_length. lia.
  - intros u. unfold cell. destruct (close_wf (thread m) (bottom fr) _ _ (proj2 Hr))
      as (us' & w2 & Ec & _ & Ho & _ & _ & _ & _ & _ & Hvar & _).
    rewrite Eclose in Ec. injection Ec as Eus Ew. assert (us' = us) as -> by (by inversion Eus). subst w2.
    rewrite <- (Hvar u), Ht'. apply (variable_stack _ (set_open us (state m)) _ _ _ (bottom fr)); [done|].
    intros i Hi. rewrite Hs'. cbn [stack]. rewrite lookup_app_l by lia. by rewrite lookup_take_lt.
Qed.

(** No instruction of this group panics where the compiler puts it: on a well-formed
    thread, with its operands in the frame and the called object alive, it ends, and leaves
    the thread well formed, ready to go on or (on an error) to unwind. *)
Theorem instructions_safe m fr rest op allocated a b : running m fr rest -> fits h fr m op ->
  exists res, exec h allocated a b op m = Some res /\ ends_well res.
Proof. apply exec_ok. Qed.

(** An upvalue already open is found again. *)
Lemma open_upvalue_again m fr rest r u : running m fr rest ->
  upvalues (world m) !! u = Some (Open (thread m) (base fr + reg r)) -> open_upvalue r m = Ok (u, m).
Proof.
  intros Hr Hu. destruct (running_facts _ _ _ Hr) as (Ht & _ & _ & _ & _ & Hw & _).
  pose proof (ww_open _ _ _ Hw) as Ho. destruct (Ho) as [(is_ & Hp & Hs & Hl) Hc].
  unfold open_upvalue. rewrite Ht, outcome_bind_Ok.
  destruct (search_spec _ _ _ is_ (base fr + reg r) Hp Hs) as (k & -> & Hbelow & Hk).
  rewrite outcome_bind_Ok. destruct k as [k|k].
  - destruct (Forall2_lookup_r _ _ _ _ _ Hp Hk) as (u' & Hu' & E).
    rewrite (get_Some _ _ _ Hu'), outcome_bind_Ok. assert (u' = u) as -> by (by eapply wf_open_inj). done.
  - exfalso. destruct Hk as [_ Habove]. cbn [either_index] in Hbelow.
    destruct (list_elem_of_lookup_1 _ _ (Hc _ _ Hu)) as [j Hj].
    destruct (Forall2_lookup_l _ _ _ _ _ Hp Hj) as (i & Hi & E). assert (i = (base fr + reg r)%nat) as -> by congruence.
    destruct (Nat.lt_ge_cases j k) as [Hjk|Hjk].
    + rewrite <- (lookup_take_lt _ _ _ Hjk) in Hi. pose proof (Forall_lookup_1 _ _ _ _ Hbelow Hi) as Hx. cbn in Hx. lia.
    + replace j with (k + (j - k))%nat in Hi by lia. rewrite <- lookup_drop in Hi.
      pose proof (Forall_lookup_1 _ _ _ _ Habove Hi) as Hx. cbn in Hx. lia.
Qed.

(** C17: upvalues are variables.  Under the invariant, an upvalue stands for one variable of
    some thread, open or closed: opening one on a register gives that register's variable,
    the same upvalue each time; reading gives its value; writing changes it alone; writing
    the register is writing the variable; closing changes no variable, after which the
    registers closed are free. *)
Theorem upvalues_are_variables m fr rest : running m fr rest ->
  (forall r, (base fr + reg r < len m)%nat ->
     exists u m', open_upvalue r m = Ok (u, m') /\ running m' fr rest /\
       cell m' u = regs m fr !! reg r /\ open_upvalue r m' = Ok (u, m') /\
       (forall u', is_Some (cell m u') -> cell m' u' = cell m u') /\
       (forall v, exists m2, write r v m' = Ok m2 /\ running m2 fr rest /\
          forall u', cell m2 u' = if decide (u' = u) then Some v else cell m' u')) /\
  (forall u, accessible m fr u -> exists v, get_upvalue u m = Ok v /\ cell m u = Some v) /\
  (forall u v, accessible m fr u -> exists m', set_upvalue u v m = Ok m' /\ running m' fr rest /\
     forall u', cell m' u' = if decide (u' = u) then Some v else cell m u') /\
  (forall r, exists m', registers_close_upvalues r m = Ok m' /\ running m' fr rest /\
     forall s u, take (base fr + reg r) s = take (base fr + reg r) (stack (state m)) ->
       cell (set_state (set_stack s (state m')) m') u = cell m u).
Proof.
  intros Hr. destruct (running_facts _ _ _ Hr) as (Ht & Hb & _ & _ & _ & Hw & _). split_and!.
  - intros r Hlt. destruct (open_upvalue_ok m fr rest r Hr Hlt) as (u & m' & E & Hr' & Hk & Hu).
    exists u, m'. pose proof (k_thread _ _ Hk) as Et. pose proof (k_stack _ _ Hk) as Es.
    destruct (running_facts _ _ _ Hr') as (_ & _ & _ & _ & _ & Hw' & _).
    assert (Hlt' : (base fr + reg r < len m')%nat) by (unfold len in *; by rewrite Es).
    split_and!; try done.
    + unfold cell, variable. rewrite Hu, Et, bool_decide_eq_true_2, Es by done. unfold regs. by rewrite lookup_drop.
    + apply (open_upvalue_again _ _ _ _ _ Hr'). by rewrite Et.
    + intros u' Hs. apply kept_cell; [done|]. unfold cell, variable in Hs.
      destruct (upvalues (world m) !! u'); [by eauto|by destruct Hs].
    + intros v. destruct (write_ok m' fr rest r v Hr' Hlt') as (m2 & -> & Hr2 & Et2 & Ew2 & Es2).
      exists m2. split_and!; try done. intros u'. unfold cell, variable. rewrite Et2, Ew2, Es2, Et.
      destruct (decide (u' = u)) as [->|Hne].
      * rewrite Hu, bool_decide_eq_true_2 by done. by apply list_lookup_insert_eq.
      * destruct (upvalues (world m') !! u') as [[t' i|]|] eqn:Eu; [|done..]. case_bool_decide; [|done]. subst t'.
        apply list_lookup_insert_ne. intros <-. apply Hne. rewrite <- Et in *.
        eapply wf_open_inj; [apply Hw'|done..].
  - intros u Hacc. by eapply get_upvalue_ok.
  - intros u v Hacc. destruct (set_upvalue_ok m fr rest u v Hr Hacc) as (m' & E & Hr' & _ & _ & Hcell). eauto.
  - intros r. unfold registers_close_upvalues. rewrite Ht, outcome_bind_Ok.
    destruct (close_wf (thread m) (base fr + reg r) _ _ (proj2 Hr))
      as (us & w' & -> & Hw' & Ho & Hcl & _ & Hth & Hcap & Hnest & Hvar & Hiff).
    rewrite outcome_bind_Ok. eexists. split; [reflexivity|]. split.
    + destruct Hr as [Hf [_ _ Hfr _]]. split; [done|]. split; cbn; [done| | |done].
      * unfold open_limit. cbn. rewrite Hf. apply (ww_open _ _ _ Hw').
      * eapply wf_frames_mono; [|done]. intros i [u Hu]. exists u. by apply Hiff.
    + intros s u Hs. unfold cell. cbn [thread state world set_state set_world]. rewrite <- (Hvar u).
      apply (variable_stack _ (set_open us (state m)) _ _ _ (base fr + reg r)); [done|].
      intros i Hi. cbn. by rewrite <- (lookup_take_lt s _ _ Hi), Hs, lookup_take_lt.
Qed.

(** ** A thread at rest *)

Definition resting t st w : Prop := threads w !! t = Some st /\ wf_thread t st (borrowed t w).

Lemma resting_put t st w st0 w0 : wf_thread t st (borrowed t w) -> w0 = put_thread t st w ->
  threads w !! t = Some st0 -> resting t st w0.
Proof.
  intros Hwf -> Ht. split; [cbn; apply lookup_insert_eq|]. unfold borrowed, put_thread, set_threads in *.
  cbn [threads upvalues closures memory] in *. by rewrite delete_insert_eq.
Qed.

Lemma wf_open_nil t us w : wf_open t us 0 w -> us = [].
Proof.
  intros [(is_ & Hp & _ & Hl) _]. destruct is_ as [|i is_]; [by apply Forall2_nil_inv_r in Hp|].
  apply Forall_cons in Hl as [Hi _]. lia.
Qed.

Lemma mode_total t st w : wf_thread t st w -> exists md, mode st = Ok md.
Proof.
  intros [Hw Ho Hf _]. unfold mode, open_limit in *. destruct (frames st) as [|f rest] eqn:E.
  - cbn in Hf. rewrite Hf in Ho. apply wf_open_nil in Ho as ->. destruct (stack st); [by eexists|done].
  - destruct f; try by eexists. destruct rest; by eexists.
Qed.

(** The operation of a thread that is in the mode, and of one that is not *)
Lemma in_mode_right {A} w t st md (op : ThreadState -> outcome (A * ThreadState)) a st' :
  threads w !! t = Some st -> mode st = Ok md -> op st = Ok (a, st') ->
  in_mode w t md op = Ok (inl a, put_thread t st' w).
Proof.
  intros Ht Hm Hop. unfold in_mode, check_mode. rewrite Ht, Hm, !outcome_bind_Ok, bool_decide_eq_true_2 by done.
  by rewrite Hop, outcome_bind_Ok.
Qed.

Lemma in_mode_wrong {A} w t st md md' (op : ThreadState -> outcome (A * ThreadState)) :
  threads w !! t = Some st -> mode st = Ok md -> md <> md' ->
  in_mode w t md' op = Ok (inr (mk_BadThreadMode md (Some md')), w).
Proof.
  intros Ht Hm Hne. unfold in_mode, check_mode. rewrite Ht, Hm, !outcome_bind_Ok.
  by rewrite bool_decide_eq_false_2.
Qed.

Lemma stopped_inv t st w : wf_thread t st w -> mode st = Ok ThreadMode.Stopped -> st = mk_ThreadState [] [] [].
Proof.
  intros _. unfold mode. destruct st as [fs s us]. cbn.
  destruct fs as [|[] [|]]; cbn; try done. destruct s, us; done.
Qed.

(** The frame a call leaves on top is one that runs. *)
Lemma pushed_mode w b f st st' : push_call w b f st = Ok st' -> mode st' = Ok ThreadMode.Normal.
Proof.
  unfold push_call. destruct f as [[c|c]| | | |]; [|by intros [= <-]..].
  destruct (prototype w c); [|done]. rewrite outcome_bind_Ok.
  destruct (Slice.sub _ _); [|done]. rewrite outcome_bind_Ok.
  destruct (Slice.rotate_right _ _ _); [|done]. rewrite outcome_bind_Ok. by intros [= <-].
Qed.

Lemma push_call_borrowed w t b f st : push_call (borrowed t w) b f st = push_call w b f st.
Proof. done. Qed.

Lemma start_spec w t st f args : resting t st w -> mode st = Ok ThreadMode.Stopped -> callee_ok w f ->
  exists w' st', start w t f args = Ok (inl tt, w') /\ resting t st' w' /\ mode st' = Ok ThreadMode.Normal.
Proof.
  intros [Ht Hwf] Hm Hf. pose proof (stopped_inv _ _ _ Hwf Hm) as ->.
  destruct Hwf as [Hw Ho _ _].
  destruct (push_call_wf t (borrowed t w) 0 f (mk_ThreadState [] args [])) as (fr & s & E & Hwf & _);
    try done; try (cbn; lia).
  { eapply wf_world_step; [done|apply same_elsewhere_refl|]. cbn. eapply wf_open_limit; [|exact Ho]. cbn; lia. }
  rewrite push_call_borrowed in E. eexists _, _. split; [|split; [by eapply resting_put|by eapply pushed_mode]].
  unfold start. eapply in_mode_right; [done..|]. cbv beta. cbn [stack Slice.is_empty rust_assert]. rewrite outcome_bind_Ok.
  unfold set_stack. cbn [stack frames open_upvalues app]. cbn [frames open_upvalues] in E. by rewrite E, outcome_bind_Ok.
Qed.

Lemma start_suspended_spec w t st f : resting t st w -> mode st = Ok ThreadMode.Stopped ->
  exists w' st', start_suspended w t f = Ok (inl tt, w') /\ resting t st' w' /\
    mode st' = Ok ThreadMode.Suspended.
Proof.
  intros [Ht Hwf] Hm. pose proof (stopped_inv _ _ _ Hwf Hm) as ->.
  eexists _, _. split; [by eapply in_mode_right|]. split; [eapply resting_put; [|done..]|done].
  destruct Hwf as [Hw Ho Hfr _]. split; cbn; [by destruct Hw; split| | |by constructor].
  - exact Ho.
  - by split.
Qed.

(** A change of frames that keeps what is on the stack *)
Lemma wf_thread_frames t st st' w : wf_thread t st w ->
  stack st' = take (length (stack st')) (stack st) -> open_upvalues st' = open_upvalues st ->
  wf_open t (open_upvalues st) (open_limit st') w -> (open_limit st' <= length (stack st'))%nat ->
  wf_frames t w (frames st') (length (stack st')) -> Forall (captured t w) (frames st') ->
  wf_thread t st' w.
Proof.
  intros [Hw _ _ _] Hs Ho Hopen Hlim Hf Hc. split; [|by rewrite Ho|done|done].
  eapply wf_world_step; [done|apply same_elsewhere_refl|]. rewrite Ho. by eapply wf_open_limit.
Qed.

Lemma take_result_spec w t st : resting t st w -> mode st = Ok ThreadMode.Result ->
  exists r w' st' md, take_result w t = Ok (inl r, w') /\ resting t st' w' /\ mode st' = Ok md /\
    (md = ThreadMode.Stopped \/ md = ThreadMode.Suspended) /\
    match frames st with
    | Result b :: _ => r = inl (drop b (stack st))
    | Error_ e :: _ => r = inr e
    | _ => False
    end.
Proof.
  intros [Ht Hwf] Hm. unfold take_result, in_mode, check_mode. rewrite Ht, Hm, !outcome_bind_Ok.
  rewrite bool_decide_eq_true_2 by done. pose proof Hwf as [Hw Ho Hf Hc].
  unfold mode in Hm. unfold open_limit in Ho. unfold state_take_result.
  destruct (frames st) as [|[fr|b q e|b q h'|f|b f| | |b|e] rest] eqn:E; try done.
  - by destruct (stack st), (open_upvalues st).
  - (* results *)
    destruct Hf as [Hb Hrest]. unfold Slice.drain. rewrite slice_end, !outcome_bind_Ok by done.
    assert (Hlen : length (take b (stack st)) = b) by (rewrite length_take; lia).
    destruct rest as [|[] rest]; try done.
    + subst b. eexists _, _, _, ThreadMode.Stopped. split; [reflexivity|].
      split; [eapply resting_put; [|done..]|split_and!; [|by auto..]].
      * eapply wf_thread_frames; cbn; try done.
      * cbn. rewrite (wf_open_nil _ _ _ Ho). done.
    + eexists _, _, _, ThreadMode.Suspended. split; [reflexivity|].
      split; [eapply resting_put; [|done..]|split_and!; by auto].
      eapply wf_thread_frames; cbn; rewrite ?Hlen; try done.
      by apply Forall_cons in Hc as [_ Hc].
  - (* an error *)
    destruct rest as [|? rest]; [|by destruct rest]. cbn in Hf. rewrite Hf in Ho.
    rewrite (wf_open_nil _ _ _ Ho). apply length_zero_iff_nil in Hf as Hs. rewrite Hs, outcome_bind_Ok.
    eexists _, _, _, ThreadMode.Stopped. split; [reflexivity|].
    split; [eapply resting_put; [|done..]|split_and!; by auto].
    eapply wf_thread_frames; cbn; try done.
    by rewrite (wf_open_nil _ _ _ Ho).
Qed.

Lemma returned_mode b st st' : return_to b st = Ok st' ->
  mode st' = Ok (match frames st with [] => ThreadMode.Result | _ => ThreadMode.Normal end).
Proof.
  unfold return_to, mode. destruct (frames st) as [|[fr| | | | | | | |] rest] eqn:E; try done.
  - by intros [= <-].
  - destruct (Slice.sub _ _); [|done]. rewrite outcome_bind_Ok.
    destruct (expected_return fr) as [[c|[|r|k]]|]; [| | | |done]; [by intros [= <-]..| |].
    + destruct (Slice.set _ _ _); [|done]. rewrite outcome_bind_Ok. by intros [= <-].
    + destruct (if eqb _ _ then _ else _); [|done]. rewrite outcome_bind_Ok. by intros [= <-].
  - intros [= <-]. by rewrite E.
Qed.

Lemma resume_spec w t st args : resting t st w -> mode st = Ok ThreadMode.Suspended ->
  suspended_host_op st = None ->
  (forall f, frames st = [Start f] -> callee_ok w f) ->
  exists w' st', resume w t args = Ok (inl tt, w') /\ resting t st' w' /\
    (mode st' = Ok ThreadMode.Normal \/ (frames st = [Yielded] /\ mode st' = Ok ThreadMode.Result)).
Proof.
  intros [Ht Hwf] Hm Hpark Hcal. pose proof Hwf as [Hw Ho Hf Hc]. unfold mode in Hm. unfold suspended_host_op in Hpark.
  unfold open_limit in Ho.
  destruct (frames st) as [|[fr|b q e|b q h'|f|b f| | |b|e] rest] eqn:E; try done.
  - by destruct (stack st), (open_upvalues st).
  - (* the first run *)
    destruct Hf as [-> Hs]. rewrite Hs in Ho. pose proof (wf_open_nil _ _ _ Ho) as Hus.
    destruct (push_call_wf t (borrowed t w) 0 f (mk_ThreadState [] (stack st ++ args) (open_upvalues st)))
      as (fr & s & E' & Hwf' & _); cbn; try done; try lia.
    { eapply wf_world_step; [done|apply same_elsewhere_refl|]. cbn. eapply wf_open_limit; [|exact Ho]. lia. }
    { by apply Hcal. }
    rewrite push_call_borrowed in E'. cbn [frames open_upvalues] in *.
    eexists _, _. split; [|split; [by eapply resting_put|left; by eapply pushed_mode]].
    unfold resume. eapply in_mode_right; [done|unfold mode; by rewrite E|]. cbv beta zeta. rewrite E, Hs, Hus.
    cbn [Slice.is_empty Nat.eqb andb rust_assert]. rewrite outcome_bind_Ok. rewrite Hus in E'. by rewrite E', outcome_bind_Ok.
  - (* after a yield *)
    apply Forall_cons in Hc as [_ Hc].
    destruct (return_to_wf t (borrowed t w) (length (stack st)) (mk_ThreadState rest (stack st ++ args) (open_upvalues st)))
      as (st' & E' & _ & Hwf'); cbn; try done.
    { eapply wf_world_step; [done|apply same_elsewhere_refl|]. cbn. eapply wf_open_limit; [|exact Ho]. rewrite length_app. lia. }
    { rewrite length_app. lia. }
    eexists _, _. split; [|split; [by eapply resting_put|]].
    + unfold resume. eapply in_mode_right; [done|unfold mode; by rewrite E|]. cbv beta zeta.
      by rewrite E, E', outcome_bind_Ok.
    + rewrite (returned_mode _ _ _ E'). cbn. destruct rest; by auto.
  - by destruct rest.
Qed.

Lemma resume_err_spec w t st e : resting t st w -> mode st = Ok ThreadMode.Suspended ->
  suspended_host_op st = None ->
  exists w' st', resume_err w t e = Ok (inl tt, w') /\ resting t st' w' /\
    frames st' = Error_ e :: tail (frames st) /\ stack st' = stack st.
Proof.
  intros [Ht Hwf] Hm Hpark. pose proof Hwf as [Hw Ho Hf Hc]. unfold open_limit in Ho.
  assert (Hst : exists f rest, frames st = f :: rest /\ (f = Yielded \/ exists g, f = Start g)).
  { unfold mode in Hm. unfold suspended_host_op in Hpark.
    destruct (frames st) as [|[] rest]; try done; try by eauto 6.
    - by destruct (stack st), (open_upvalues st).
    - by destruct rest. }
  destruct Hst as (f & rest & E & Hfr).
  exists (put_thread t (push_frame (Error_ e) (set_frames rest st)) w), (push_frame (Error_ e) (set_frames rest st)).
  split; [|split_and!; [|by rewrite E|done]].
  - unfold resume_err. eapply in_mode_right; [done..|]. rewrite E. by destruct Hfr as [->|[g ->]].
  - eapply resting_put; [|done..]. rewrite E in Hf, Hc, Ho. apply Forall_cons in Hc as [_ Hc].
    eapply wf_thread_frames; cbn; try done; [by rewrite take_ge|by destruct Hfr as [->|[g ->]]| |by constructor].
    destruct Hfr as [->|[g ->]]; cbn in Hf; [|by destruct Hf as [-> ->]].
    destruct rest as [|[fr|b q [e'|]| | | | | | |] rest]; cbn in *; try done. by destruct Hf as (? & _ & ?).
Qed.

Lemma reset_spec w t st : resting t st w ->
  exists w' st', reset w t = Ok (inl tt, w') /\ resting t st' w' /\ st' = mk_ThreadState [] [] [] /\
    (forall u, variable t st' (borrowed t w') u = variable t st (borrowed t w) u).
Proof.
  intros [Ht Hwf]. destruct (close_wf t 0 st _ Hwf)
    as (us & w1 & E & Hw1 & Ho & Hcl & _ & Hth & _ & _ & Hvar & Hiff).
  pose proof (wf_open_nil _ _ _ Ho) as ->.
  assert (Hself : threads w1 !! t = None) by apply (ww_self _ _ _ Hw1).
  assert (Hback : borrowed t (put_thread t (mk_ThreadState [] [] []) w1) = w1).
  { unfold borrowed, put_thread, set_threads. cbn. rewrite delete_insert_id by done. by destruct w1. }
  eexists _, _. split; [|split; [|split; [reflexivity|]]].
  - unfold reset, state_reset. rewrite Ht, E, outcome_bind_Ok. cbn [open_upvalues set_open]. by rewrite outcome_bind_Ok.
  - split; [cbn; apply lookup_insert_eq|]. rewrite Hback. split; cbn; [|exact Ho|done|by constructor].
    eapply wf_world_step; [done|apply same_elsewhere_refl|exact Ho].
  - intros u. rewrite Hback, <- (Hvar u). unfold variable.
    destruct (upvalues w1 !! u) as [[t' i|]|] eqn:Hu; [|done..]. case_bool_decide; [|done]. subst.
    apply Hiff in Hu as [_ Hu]. lia.
Qed.

(** The life of a thread.  On a well-formed thread at rest each operation of the host
    works in its own mode, where it leaves the thread well formed in the next one, and in
    any other it changes nothing and reports the mode found: [start] and [start_suspended]
    take a stopped thread, [take_result] gives the values or the error of one in [Result],
    [resume] continues a suspended one, [resume_err] makes it fail, and [reset] stops it,
    whatever it was doing, with no variable of its closures lost. *)
Theorem thread_life w t st : resting t st w ->
  exists md, mode st = Ok md /\
  (forall f args, callee_ok w f ->
     if decide (md = ThreadMode.Stopped)
     then exists w' st', start w t f args = Ok (inl tt, w') /\ resting t st' w' /\ mode st' = Ok ThreadMode.Normal
     else start w t f args = Ok (inr (mk_BadThreadMode md (Some ThreadMode.Stopped)), w)) /\
  (forall f,
     if decide (md = ThreadMode.Stopped)
     then exists w' st', start_suspended w t f = Ok (inl tt, w') /\ resting t st' w' /\
       mode st' = Ok ThreadMode.Suspended
     else start_suspended w t f = Ok (inr (mk_BadThreadMode md (Some ThreadMode.Stopped)), w)) /\
  (if decide (md = ThreadMode.Result)
   then exists r w' st' md', take_result w t = Ok (inl r, w') /\ resting t st' w' /\ mode st' = Ok md' /\
     (md' = ThreadMode.Stopped \/ md' = ThreadMode.Suspended) /\
     match frames st with
     | Result b :: _ => r = inl (drop b (stack st)) | Error_ e :: _ => r = inr e | _ => False end
   else take_result w t = Ok (inr (mk_BadThreadMode md (Some ThreadMode.Result)), w)) /\
  (forall args, suspended_host_op st = None -> (forall f, frames st = [Start f] -> callee_ok w f) ->
     if decide (md = ThreadMode.Suspended)
     then exists w' st', resume w t args = Ok (inl tt, w') /\ resting t st' w' /\
       (mode st' = Ok ThreadMode.Normal \/ (frames st = [Yielded] /\ mode st' = Ok ThreadMode.Result))
     else resume w t args = Ok (inr (mk_BadThreadMode md (Some ThreadMode.Suspended)), w)) /\
  (forall e, suspended_host_op st = None ->
     if decide (md = ThreadMode.Suspended)
     then exists w' st', resume_err w t e = Ok (inl tt, w') /\ resting t st' w' /\
       frames st' = Error_ e :: tail (frames st) /\ stack st' = stack st
     else resume_err w t e = Ok (inr (mk_BadThreadMode md (Some ThreadMode.Suspended)), w)) /\
  exists w' st', reset w t = Ok (inl tt, w') /\ resting t st' w' /\ st' = mk_ThreadState [] [] [] /\
    (forall u, variable t st' (borrowed t w') u = variable t st (borrowed t w) u).
Proof.
  intros Hr. destruct (mode_total _ _ _ (proj2 Hr)) as [md Hm]. exists md. split; [done|].
  pose proof (proj1 Hr) as Ht. split_and!.
  - intros f args Hf. case_decide; [subst; by eapply start_spec|by eapply in_mode_wrong].
  - intros f. case_decide; [subst; by eapply start_suspended_spec|by eapply in_mode_wrong].
  - case_decide; [subst; by eapply take_result_spec|by eapply in_mode_wrong].
  - intros args Hp Hf. case_decide; [subst; by eapply resume_spec|by eapply in_mode_wrong].
  - intros e Hp. case_decide; [subst; by eapply resume_err_spec|by eapply in_mode_wrong].
  - by apply reset_spec.
Qed.

(** A thread parked on a host operation reports itself suspended, but [resume] panics on
    it instead of refusing (and so does [resume_err]). *)
Theorem resume_parked_panics w t b q handle rest s us args e :
  let st := mk_ThreadState (HostSuspended b q handle :: rest) s us in
  threads w !! t = Some st ->
  thread_mode w t = Ok ThreadMode.Suspended /\ suspended_host_op st = Some handle /\
  resume w t args = Panic /\ resume_err w t e = Panic.
Proof.
  intros st Ht. unfold thread_mode, resume, resume_err, in_mode, check_mode. by rewrite Ht.
Qed.
End ThreadTheorems.

(** ** A thread to try them on

    Closure 1 runs on thread 1, its first register the variable of upvalue 5; closure 2
    has two fixed parameters, three registers and that upvalue. *)
Section witnesses.
#[local] Instance checked_build : BuildProfile := {| overflow_checks := true |}.
Abbreviation V := (Value.t (list Z)).
Abbreviation I := (Value.Integer (S := list Z)).
Abbreviation Machine := (@Thread.LuaFrame (list Z) unit unit).
Abbreviation TheWorld := (@Thread.World (list Z) unit unit).

Definition no_metatables : MetaOps.Heap (list Z) :=
  {| MetaOps.metatable := fun _ => None; MetaOps.get_field := fun _ _ => Value.Nil |}.
Definition count (n : Z) : VarCount.t := VarCount.VarCount (Opt254.Opt254 n).
Definition r (n : Z) : RegisterIndex := mk_RegisterIndex n.
Definition function (params size : Z) : FunctionPrototype (S := list Z) :=
  mk_FunctionPrototype params true size [] [] [] [].
Definition sample_world : TheWorld :=
  mk_World ∅ {[ 5%positive := Open 1 0 ]}
    {[ 1%positive := mk_ClosureInner (function 0 6) []; 2%positive := mk_ClosureInner (function 2 3) [5%positive] ]}
    (Memory.new None).
Definition sample_stack : list V :=
  [I 40; Value.Function (Closure 2); I 10; I 20; I 30; I 50].
Definition machine (fr : lua_frame) : Machine :=
  mk_LuaFrame 1 (mk_ThreadState [Lua fr] sample_stack [5%positive]) sample_world (Fuel.with_ 100).
Definition sample_frame : lua_frame := mk_lua_frame 0 1 0 false 7 6 None.
Definition sample : Machine := machine sample_frame.
(** The same stack, its first two values now the varargs *)
Definition variadic_frame : lua_frame := mk_lua_frame 0 1 2 false 7 4 None.
Definition variadic : Machine := machine variadic_frame.

Lemma sample_upvalue u t i : upvalues sample_world !! u = Some (Open t i) -> u = 5%positive /\ t = 1%positive /\ i = O.
Proof. cbn. intros E. apply lookup_singleton_Some in E as [<- [= <- <-]]. done. Qed.

Lemma sample_open limit : (0 < limit)%nat -> wf_open 1 [5%positive] limit sample_world.
Proof.
  intros Hl. split.
  - exists [O]. split_and!; [by repeat constructor|by repeat constructor|by repeat constructor].
  - intros u i E. apply sample_upvalue in E as (-> & _). set_solver.
Qed.

Lemma sample_wf_world : wf_world 1 (mk_ThreadState [Lua sample_frame] sample_stack [5%positive]) sample_world.
Proof.
  split.
  - done.
  - apply sample_open. cbn. lia.
  - done.
  - intros u t i E Hne. apply sample_upvalue in E as (_ & -> & _). done.
  - intros c ci u Hc Hu. cbn in Hc. apply lookup_insert_Some in Hc as [[_ <-]|[_ Hc]]; [by apply elem_of_nil in Hu|].
    apply lookup_singleton_Some in Hc as [_ <-]. apply list_elem_of_singleton in Hu as ->. by eexists.
Qed.

Lemma machine_running fr : bottom fr = O -> closure fr = 1%positive -> is_variable fr = false ->
  expected_return fr = None -> (base fr + stack_size fr = 6)%nat -> running (machine fr) fr [].
Proof.
  intros Hb Hc Hv He Hl. split; [done|]. split; cbn.
  - destruct sample_wf_world. by split.
  - apply sample_open. cbn. lia.
  - rewrite Hv, Hb, Hl. split_and!; [lia|done|done|done].
  - constructor; [|done]. exists (mk_ClosureInner (function 0 6) []). rewrite Hc. split; [done|].
    intros u i Hu. by apply elem_of_nil in Hu.
Qed.

Lemma sample_running : running sample sample_frame [].
Proof. by apply machine_running. Qed.

Lemma sample_below n : (0 < n)%nat -> open_below sample n.
Proof. intros Hn i [u E]. apply sample_upvalue in E as (_ & _ & ->). done. Qed.

Lemma sample_call_ok : call_ok no_metatables sample_frame sample (r 1) (count 3).
Proof.
  split_and!; [by vm_compute; lia|split; [done|by vm_compute; lia]|].
  intros f c E. vm_compute in E. injection E as <-. intros [= <-]. by eexists.
Qed.

(** Called with 10, 20 and 30, closure 2 returns its three registers at once; its caller
    wants four values. *)
Lemma call_returns_witness : exists m1 m3,
  call_function no_metatables (r 1) (count 3) (count 4) sample = Ok (inl tt, m1) /\
  return_upper (r 0) (count 3) m1 = Ok (inl tt, m3) /\
  stack (state m1) = [I 40; I 30; I 10; I 20; Value.Nil] /\
  stack (state m3) = [I 40; I 10; I 20; Value.Nil; Value.Nil; Value.Nil].
Proof.
  destruct (call_returns no_metatables sample sample_frame [] (r 1) (count 3) (count 4)
    (Value.Function (Closure 2)) 2 (mk_ClosureInner (function 2 3) [5%positive]))
    as (m1 & fr1 & E & Hr & Hb & _ & _ & _ & _ & Hret);
    [apply sample_running|apply sample_call_ok|apply sample_below; vm_compute; lia|done..|].
  destruct (Hret m1 fr1 (r 0) (count 3) Hr Hb) as (m3 & fr3 & E3 & _);
    [by vm_compute in E; injection E as <-|done| |].
  - destruct Hr as [Hf _]. vm_compute in E. injection E as <-. injection Hf as <-. split; [done|vm_compute; lia].
  - exists m1, m3. split_and!; [exact E|exact E3|by vm_compute in E; injection E as <-|].
    vm_compute in E. injection E as <-. vm_compute in E3. by injection E3 as <-.
Defined.

Lemma instructions_safe_witness : exists res,
  exec no_metatables 0 48 8 (Operation.Call (r 1) (count 3) (count 4)) sample = Some res /\ ends_well res.
Proof.
  apply (instructions_safe no_metatables sample sample_frame []); [apply sample_running|].
  split; [apply sample_call_ok|apply sample_below; vm_compute; lia].
Defined.

Lemma tail_call_replaces_witness : exists m',
  tail_call_function no_metatables (r 1) (count 3) sample = Ok (inl tt, m') /\
  stack (state m') = [I 30; I 10; I 20; Value.Nil] /\ cell m' 5 = Some (I 40).
Proof.
  destruct (tail_call_replaces no_metatables sample sample_frame [] (r 1) (count 3)
    (Value.Function (Closure 2)) 2 (mk_ClosureInner (function 2 3) [5%positive]))
    as (m' & fr' & E & _ & _ & _ & _ & _ & _ & _ & _ & Hcell);
    [apply sample_running|apply sample_call_ok|done..|].
  exists m'. split_and!; [exact E|by vm_compute in E; injection E as <-|by rewrite Hcell].
Defined.

Lemma meta_call_disturbs_nothing_witness : exists m1 m3,
  call_meta_function (MetaOps.Existing (Closure 2)) [I 1; I 2] (MetaReturn.Register (r 4)) sample = Ok (inl tt, m1) /\
  return_upper (r 1) (count 1) m1 = Ok (inl tt, m3) /\
  stack (state m3) = [I 40; Value.Function (Closure 2); I 10; I 20; I 2; I 50].
Proof.
  destruct (meta_call_disturbs_nothing sample sample_frame [] 2 (mk_ClosureInner (function 2 3) [5%positive])
    [I 1; I 2] (MetaReturn.Register (r 4)))
    as (m1 & fr1 & E & Hr & Hb & _ & _ & Hret);
    [apply sample_running|done|split; [by vm_compute; lia|by vm_compute; lia]|done|].
  destruct (Hret m1 fr1 (r 1) (count 1) Hr Hb) as (m3 & fr3 & E3 & _);
    [by vm_compute in E; injection E as <-|by vm_compute in E; injection E as <-| |].
  - destruct Hr as [Hf _]. vm_compute in E. injection E as <-. injection Hf as <-. split; [done|vm_compute; lia].
  - exists m1, m3. split_and!; [exact E|exact E3|].
    vm_compute in E. injection E as <-. vm_compute in E3. by injection E3 as <-.
Defined.

Lemma varargs_exact_witness : exists m m',
  varargs (r 1) (count 3) variadic = Ok (inl tt, m) /\
  regs m variadic_frame = [I 10; I 40; Value.Function (Closure 2); Value.Nil] /\
  varargs (r 1) (count 255) variadic = Ok (inl tt, m') /\
  regs m' variadic_frame = [I 10; I 40; Value.Function (Closure 2)].
Proof.
  assert (Hr : running variadic variadic_frame []) by (by apply machine_running).
  destruct (varargs_exact no_metatables variadic variadic_frame [] (r 1) (count 3) Hr)
    as (m & fr & E & _ & _ & -> & Hregs); [split; [done|vm_compute; lia]|].
  destruct (varargs_exact no_metatables variadic variadic_frame [] (r 1) (count 255) Hr)
    as (m' & fr' & E' & _ & _ & -> & Hregs').
  { split; [done|]. split; [vm_compute; lia|]. intros i [u Hu]. apply sample_upvalue in Hu as (_ & _ & ->).
    vm_compute. lia. }
  exists m, m'. split_and!; [exact E|exact Hregs|exact E'|exact Hregs'].
Defined.

Lemma upvalues_are_variables_witness : exists u m' m2,
  open_upvalue (r 0) sample = Ok (u, m') /\ cell m' u = Some (I 40) /\
  write (r 0) (I 41) m' = Ok m2 /\ cell m2 u = Some (I 41).
Proof.
  destruct (upvalues_are_variables sample sample_frame [] sample_running) as (Hopen & _).
  destruct (Hopen (r 0)) as (u & m' & E & _ & Hcell & _ & _ & Hwrite); [vm_compute; lia|].
  destruct (Hwrite (I 41)) as (m2 & E2 & _ & Hcell2). exists u, m', m2.
  split_and!; [exact E|exact Hcell|exact E2|]. rewrite Hcell2. by rewrite decide_True.
Defined.

(** Thread 1 done, with its results from position 2 on *)
Definition finished : @Thread.ThreadState (list Z) unit unit :=
  mk_ThreadState [Result 0] [I 1; I 2] [].
Definition rest_world : TheWorld := mk_World {[ 1%positive := finished ]} ∅ ∅ (Memory.new None).

Lemma finished_resting : resting 1 finished rest_world.
Proof.
  split; [done|].
  assert (Ho : forall limit, wf_open 1 [] limit (borrowed 1 rest_world)).
  { intros limit. split; [by exists []; split_and!; constructor|]. intros u i E. done. }
  split; [split; [done|apply Ho| |done|done]|apply Ho|split; [cbn; lia|done]|by constructor].
  intros t' st' E. cbn in E. by rewrite delete_singleton_eq in E.
Qed.

Lemma thread_life_witness : exists w' w2,
  take_result rest_world 1 = Ok (inl (inl [I 1; I 2]), w') /\ thread_mode w' 1 = Ok ThreadMode.Stopped /\
  resume rest_world 1 [] = Ok (inr (mk_BadThreadMode ThreadMode.Result (Some ThreadMode.Suspended)), rest_world) /\
  reset rest_world 1 = Ok (inl tt, w2).
Proof.
  destruct (thread_life rest_world 1 finished finished_resting)
    as (md & Hm & _ & _ & Htake & Hresume & _ & w2 & st2 & Hreset & _).
  assert (md = ThreadMode.Result) as -> by (by injection Hm).
  destruct Htake as (res & w' & st' & md' & E & _ & _ & _ & ->). exists w', w2.
  split_and!; [exact E| |by apply (Hresume [])|exact Hreset].
  vm_compute in E. injection E as <-. done.
Defined.

Lemma resume_parked_panics_witness :
  let w : TheWorld := put_thread 1 (mk_ThreadState [HostSuspended 0 tt 9] [] []) rest_world in
  thread_mode w 1 = Ok ThreadMode.Suspended /\ resume w 1 [I 3] = Panic.
Proof.
  destruct (resume_parked_panics (put_thread 1 (mk_ThreadState [HostSuspended 0 tt 9] [] []) rest_world)
    1 0 tt 9 [] [] [] [I 3] tt) as (E & _ & E' & _); [done|]. split; [exact E|exact E'].
Defined.
End witnesses.
End ThreadTheorems.
