(* ===== verification/RawTableFacts.v ===== *)
(** * Facts about the raw table

    What a lookup finds, the invariant of the hash part, and that each way the code has
    of changing it keeps the invariant and changes the elements as meant. *)

From Stdlib Require Import SpecFloat.
From S2P Require Import Prelude Float64 StringUtils Constant Value Limits RawTable.
Import RawTable Datatypes(length).

(** ** Lookups in hashbrown's table *)
Module HashbrownFacts.
Section Facts.
Context {E : Type} `{Hashbrown.Ops E}.
Implicit Types (t : Hashbrown.table E) (q : E -> bool).

(** Bucket [i] does not satisfy the test. *)
Definition no_match t q (i : nat) : Prop := forall e, Hashbrown.bucket t i = Some e -> q e = false.

Lemma find_in_Some t l q i e : Hashbrown.find_in t l q = Some (i, e) ->
  Hashbrown.bucket t i = Some e /\ q e = true /\ i ∈ l.
Proof.
  induction l as [|j l IH]; cbn; [done|]. destruct (Hashbrown.bucket t j) as [e'|] eqn:Hj.
  - destruct (q e') eqn:Hq; [intros [= -> ->]; split_and!; [done..|by left]|].
    intros (? & ? & ?)%IH. split_and!; [done..|by right].
  - intros (? & ? & ?)%IH. split_and!; [done..|by right].
Qed.

Lemma find_in_None t l q : Hashbrown.find_in t l q = None <-> Forall (no_match t q) l.
Proof.
  induction l as [|j l IH]; cbn; [split; [constructor|done]|]. rewrite Forall_cons, <- IH.
  unfold no_match at 1. destruct (Hashbrown.bucket t j) as [e|];
    [|split; [intros ?; split; [done|assumption]|tauto]].
  destruct (q e) eqn:Hq; [|split; [intros ?; split; [by intros ? [= <-]|assumption]|tauto]].
  split; [done|]. intros [Hx _]. specialize (Hx e eq_refl). congruence.
Qed.

Lemma find_in_app t l1 l2 q : Hashbrown.find_in t (l1 ++ l2) q =
  match Hashbrown.find_in t l1 q with Some x => Some x | None => Hashbrown.find_in t l2 q end.
Proof.
  induction l1 as [|j l IH]; cbn; [done|]. destruct (Hashbrown.bucket t j) as [e|]; [|done].
  by destruct (q e).
Qed.

Lemma find_in_ext t l q q' : (forall i e, i ∈ l -> Hashbrown.bucket t i = Some e -> q e = q' e) ->
  Hashbrown.find_in t l q = Hashbrown.find_in t l q'.
Proof.
  induction l as [|j l IH]; cbn; intros Hq; [done|].
  rewrite IH by (intros; eapply Hq; [by right|done]).
  destruct (Hashbrown.bucket t j) as [e|] eqn:Hj; [|done]. by rewrite (Hq j e) by (done || by left).
Qed.

(** Another bucket than the one found changes, and does not match afterwards. *)
Lemma find_in_stable t t' l q i j e :
  (forall k, k <> i -> Hashbrown.bucket t' k = Hashbrown.bucket t k) -> no_match t' q i -> j <> i ->
  Hashbrown.find_in t l q = Some (j, e) -> Hashbrown.find_in t' l q = Some (j, e).
Proof.
  intros Hb Hi Hj. induction l as [|k l IH]; cbn; [done|]. destruct (decide (k = i)) as [->|Hk].
  - assert (Ht' : match Hashbrown.bucket t' i with
                  | Some e0 => if q e0 then Some (i, e0) else Hashbrown.find_in t' l q
                  | None => Hashbrown.find_in t' l q end = Hashbrown.find_in t' l q).
    { destruct (Hashbrown.bucket t' i) eqn:Hi'; [|done]. by rewrite (Hi _ Hi'). }
    rewrite Ht'. destruct (Hashbrown.bucket t i) as [e0|]; [|exact IH].
    destruct (q e0); [intros [= ? ?]; by subst|exact IH].
  - rewrite (Hb k Hk). destruct (Hashbrown.bucket t k) as [e0|]; [|exact IH]. by destruct (q e0).
Qed.

(** The bucket found changes, and still matches. *)
Lemma find_in_here t t' l q i e e' :
  (forall k, k <> i -> Hashbrown.bucket t' k = Hashbrown.bucket t k) ->
  Hashbrown.bucket t' i = Some e' -> q e' = true ->
  Hashbrown.find_in t l q = Some (i, e) -> Hashbrown.find_in t' l q = Some (i, e').
Proof.
  intros Hb Hi Hq. induction l as [|k l IH]; cbn; [done|]. destruct (decide (k = i)) as [->|Hk].
  - by rewrite Hi, Hq.
  - rewrite (Hb k Hk). destruct (Hashbrown.bucket t k) as [e0|]; [|exact IH].
    destruct (q e0); [|exact IH]. intros [= ? ?]. by subst.
Qed.

(** Buckets left out of the path that would not match *)
Lemma find_in_filter t l q (P : nat -> Prop) `{forall i, Decision (P i)} :
  (forall i, i ∈ l -> ~ P i -> no_match t q i) ->
  Hashbrown.find_in t (filter P l) q = Hashbrown.find_in t l q.
Proof.
  induction l as [|k l IH]; intros Hp; [done|]. rewrite filter_cons.
  assert (Hl : Hashbrown.find_in t (filter P l) q = Hashbrown.find_in t l q).
  { apply IH. intros. apply Hp; [by right|done]. }
  case_decide as Hk; cbn; rewrite Hl; [done|].
  destruct (Hashbrown.bucket t k) as [e|] eqn:He; [|done].
  by rewrite (Hp k ltac:(by left) Hk e He).
Qed.

Lemma elem_iter `{!Hashbrown.Laws E} t e :
  e ∈ Hashbrown.iter t <-> exists i, Hashbrown.bucket t i = Some e.
Proof.
  unfold Hashbrown.iter. rewrite list_elem_of_omap. split.
  - intros (i & _ & Hi). eauto.
  - intros (i & Hi). exists i. split; [|done]. apply elem_of_seq.
    pose proof (Hashbrown.bucket_lt t i e Hi). lia.
Qed.
End Facts.
End HashbrownFacts.
Import HashbrownFacts.

(** ** Keys *)
Module KeyFacts.
Section Facts.
Context {S : Type} `{AsBytes S} `{StringAddress S}.
Abbreviation key := (CanonicalKey.t S).

Lemma key_eq_refl (k : key) : CanonicalKey.eq k k = true.
Proof. destruct k; cbn; rewrite ?Z.eqb_refl, ?eqb_reflx; auto using bool_decide_eq_true_2. Qed.

Lemma key_eq_inv (a b : key) : CanonicalKey.eq a b = true ->
  a = b \/ exists s s', a = CanonicalKey.String s /\ b = CanonicalKey.String s' /\
    as_bytes s = as_bytes s'.
Proof.
  destruct a, b; cbn; try done; rewrite ?bool_decide_eq_true, ?Z.eqb_eq, ?eqb_true_iff;
    intros; subst; eauto 10.
Qed.

Lemma key_eq_sym (a b : key) : CanonicalKey.eq a b = CanonicalKey.eq b a.
Proof.
  destruct a, b; cbn; auto using Z.eqb_sym; try (apply bool_decide_ext; split; congruence).
  by destruct b, b0.
Qed.

Lemma key_eq_trans (a b c : key) : CanonicalKey.eq a b = true ->
  CanonicalKey.eq a c = CanonicalKey.eq b c.
Proof.
  intros [->|(s & s' & -> & -> & Hs)]%key_eq_inv; [done|]. destruct c; cbn; try done.
  by rewrite Hs.
Qed.

(** Some keys in use at a time: objects of the heap at different addresses are different
    objects, and strings are interned: of equal content only if they are the same one. *)
Record consistent (K : key -> Prop) : Prop := {
  one_object a b p : K a -> K b -> CanonicalKey.ptr a = Some p -> CanonicalKey.ptr b = Some p ->
    CanonicalKey.eq a b = true;
  interned a b : K a -> K b -> CanonicalKey.eq a b = true -> CanonicalKey.ptr a = CanonicalKey.ptr b;
  machine_integer i : K (CanonicalKey.Integer i) -> in_int i64 i
}.

Lemma key_test (K : key -> Prop) e a b : consistent K -> K a -> K b -> CanonicalKey.eq a b = true ->
  Key.eq e a = Key.eq e b.
Proof.
  intros HK Ha Hb He. destruct e as [k|p]; cbn.
  - rewrite (key_eq_sym k a), (key_eq_sym k b). by apply key_eq_trans.
  - by rewrite (interned _ HK a b).
Qed.

(** *** Canonical keys *)

Definition canonical (k : key) : Prop := CanonicalKey.new (CanonicalKey.to_value k) = Ok (inl k).

Lemma eqb_zero n : F64.eqb n F64.ZERO = true -> f64_to_i64 n = Some 0.
Proof.
  unfold F64.eqb, f64_to_i64, F64.to_i64. replace (F64.to_sf F64.ZERO) with (S754_zero false) by done.
  destruct (F64.to_sf n) as [s|s| |s m e] eqn:Hn; try (by destruct s); cbn; try done.
  intros _. unfold F64.eqb. rewrite Hn. by vm_compute.
Qed.

(** Making a key: nil and NaN are refused, nothing else; a key is canonical *)
Lemma key_new v : exists r, CanonicalKey.new v = Ok r /\
  match r with
  | inl k => canonical k /\ RawTable.to_array_index (CanonicalKey.to_value k) = RawTable.to_array_index v
  | inr InvalidTableKey.IsNil => v = Value.Nil
  | inr InvalidTableKey.IsNaN => exists n, v = Value.Number n /\ F64.is_nan n = true
  end.
Proof.
  destruct v as [| | |n| | |[]| |]; cbn; try (eexists; split; [reflexivity|cbn; done]).
  destruct (F64.is_nan n) eqn:Hn; [eexists; split; [reflexivity|by exists n]|].
  destruct (f64_to_i64 n) as [i|] eqn:Hi.
  { eexists. split; [reflexivity|]. split; done. }
  unfold canonical_float_bytes. rewrite Hn.
  destruct (F64.eqb n F64.ZERO) eqn:Hz; [apply eqb_zero in Hz; congruence|].
  eexists. split; [reflexivity|]. unfold canonical. cbn. unfold canonical_float_bytes.
  by rewrite Hn, Hi, Hz.
Qed.

Lemma array_index_key (k : key) i : canonical k ->
  RawTable.to_array_index (CanonicalKey.to_value k) = Some i ->
  k = CanonicalKey.Integer (i + 1) /\ 0 <= i.
Proof.
  unfold canonical, RawTable.to_array_index. destruct k as [|z|n| | | | | |]; cbn; try done.
  - case_match eqn:Hz; [|done]. intros _ [= <-]. bool_to_prop. split; [f_equal|]; lia.
  - destruct (F64.is_nan n); [done|]. destruct (f64_to_i64 n); [done|]. done.
Qed.

Lemma array_index_integer i : 0 <= i ->
  RawTable.to_array_index (CanonicalKey.to_value (CanonicalKey.Integer (i + 1) : key)) = Some i.
Proof.
  intros Hi. unfold RawTable.to_array_index. cbn. rewrite (proj2 (Z.ltb_lt 0 (i + 1))) by lia.
  f_equal. lia.
Qed.
End Facts.
End KeyFacts.
Import KeyFacts.

(** ** The hash part *)
Module MapFacts.
Section Facts.
Context {S : Type} `{AsBytes S} `{StringAddress S} `{Platform S} `{!PlatformLaws S}.
Abbreviation key := (CanonicalKey.t S).
Abbreviation value := (Value.t S).
Abbreviation entry := (Key.t S * Value.t S)%type.
Abbreviation map := (Hashbrown.table entry).
Implicit Types (m : map) (k : key) (v : value).

(** A dead key has no value; a live one is canonical, and is found where it is. *)
Record wf_map m : Prop := {
  wf_dead i p v : Hashbrown.bucket m i = Some (Key.Dead p, v) -> v = Value.Nil;
  wf_canonical i k v : Hashbrown.bucket m i = Some (Key.Live k, v) -> canonical k;
  wf_found i k v : Hashbrown.bucket m i = Some (Key.Live k, v) ->
    find_key m k = Some (i, (Key.Live k, v))
}.

(** The live keys are among those in use. *)
Definition live_in (K : key -> Prop) m : Prop :=
  forall i k v, Hashbrown.bucket m i = Some (Key.Live k, v) -> K k.

(** [m] has the value [v], which is not nil, under [k]. *)
Definition holds m k v : Prop :=
  exists i k', Hashbrown.bucket m i = Some (Key.Live k', v) /\ CanonicalKey.eq k' k = true.

Lemma find_key_Some m k i e : find_key m k = Some (i, e) ->
  Hashbrown.bucket m i = Some e /\ Key.eq (fst e) k = true.
Proof. intros (? & ? & _)%find_in_Some. done. Qed.

Lemma find_key_eq (K : key -> Prop) m a b : consistent K -> K a -> K b ->
  CanonicalKey.eq a b = true -> find_key m a = find_key m b.
Proof.
  intros HK Ha Hb He. unfold find_key, Hashbrown.find. rewrite (hash_eq a b He).
  apply find_in_ext. intros i [e v] _ _. by apply (key_test K).
Qed.

Lemma holds_found (K : key -> Prop) m k v : consistent K -> wf_map m -> live_in K m -> K k ->
  holds m k v -> exists i k', find_key m k = Some (i, (Key.Live k', v)) /\ CanonicalKey.eq k' k = true.
Proof.
  intros HK Hwf Hl Hk (i & k' & Hi & He). exists i, k'. split; [|done].
  rewrite <- (find_key_eq K m k' k) by eauto. by eapply wf_found.
Qed.

(** A lookup gives the value the map holds, and nil when it holds none. *)
Lemma map_get_holds (K : key -> Prop) m k v : consistent K -> wf_map m -> live_in K m -> K k ->
  v <> Value.Nil -> map_get m k = v <-> holds m k v.
Proof.
  intros HK Hwf Hl Hk Hv. unfold map_get. split.
  - destruct (find_key m k) as [[i [[k'|p] v']]|] eqn:Hf; [| |congruence].
    + intros ->. apply find_key_Some in Hf as [Hi He]. by exists i, k'.
    + intros ->. apply find_key_Some in Hf as [Hi _]. by apply (wf_dead _ Hwf) in Hi.
  - intros Hh. by destruct (holds_found K m k v HK Hwf Hl Hk Hh) as (i & k' & -> & _).
Qed.

Lemma map_get_ext (K : key -> Prop) m m' k k' : consistent K -> wf_map m -> wf_map m' ->
  live_in K m -> live_in K m' -> K k -> K k' ->
  (forall v, v <> Value.Nil -> holds m' k' v <-> holds m k v) -> map_get m' k' = map_get m k.
Proof.
  intros HK Hwf Hwf' Hl Hl' Hk Hk' Hv.
  destruct (decide (Value.is_nil (map_get m k) = true)) as [Hn|Hn].
  - destruct (map_get m k) eqn:Hm; try done.
    destruct (decide (Value.is_nil (map_get m' k') = true)) as [Hn'|Hn'];
      [by destruct (map_get m' k')|].
    assert (map_get m' k' <> Value.Nil) as Hne by (intros Hx; rewrite Hx in Hn'; done).
    assert (Hh : holds m k (map_get m' k')).
    { apply Hv; [done|]. by apply (map_get_holds K). }
    apply (map_get_holds K) in Hh; try done. congruence.
  - assert (map_get m k <> Value.Nil) as Hne by (intros Hx; rewrite Hx in Hn; done).
    apply (map_get_holds K); try done. apply Hv; [done|]. by apply (map_get_holds K).
Qed.

Lemma holds_eq m a b v : CanonicalKey.eq a b = true -> holds m a v <-> holds m b v.
Proof.
  intros He. unfold holds. split; intros (i & k & Hi & Hk); exists i, k; (split; [done|]).
  - rewrite (key_eq_sym k b), <- (key_eq_trans a b k He), key_eq_sym. done.
  - rewrite (key_eq_sym k a), (key_eq_trans a b k He), key_eq_sym. done.
Qed.

Lemma holds_functional (K : key -> Prop) m k v v' : consistent K -> wf_map m -> live_in K m -> K k ->
  holds m k v -> holds m k v' -> v = v'.
Proof.
  intros HK Hwf Hl Hk Hh Hh'.
  destruct (holds_found K m k v HK Hwf Hl Hk Hh) as (i & k1 & E1 & _).
  destruct (holds_found K m k v' HK Hwf Hl Hk Hh') as (j & k2 & E2 & _). congruence.
Qed.

(** *** Writing in a bucket *)

(** [m'] is [m] with [k] set to [v]. *)
Record updated (K : key -> Prop) m k v m' : Prop := {
  upd_wf : wf_map m';
  upd_live : live_in K m';
  upd_keys i k' v' : Hashbrown.bucket m' i = Some (Key.Live k', v') ->
    CanonicalKey.eq k' k = true \/ exists j v'', Hashbrown.bucket m j = Some (Key.Live k', v'');
  upd_holds k' v' : K k' -> v' <> Value.Nil ->
    holds m' k' v' <-> if CanonicalKey.eq k k' then v' = v else holds m k' v'
}.

(** What the code writes in the bucket found for [k], which has the key [e0]: a live key that
    stands for [k], or the dead one of the key that was there, without a value. *)
Inductive written (K : key -> Prop) k (e0 : Key.t S) v : Key.t S -> Prop :=
  | written_live k1 : K k1 -> canonical k1 -> CanonicalKey.eq k1 k = true ->
      written K k e0 v (Key.Live k1)
  | written_dead p : v = Value.Nil ->
      e0 = Key.Dead p \/ (exists k0, e0 = Key.Live k0 /\ CanonicalKey.ptr k0 = Some p) ->
      written K k e0 v (Key.Dead p).

Lemma written_kill (K : key -> Prop) m k i e0 v0 : wf_map m -> live_in K m ->
  find_key m k = Some (i, (e0, v0)) -> written K k e0 Value.Nil (default e0 (Key.kill e0)).
Proof.
  intros Hwf Hl [Hi He]%find_key_Some. destruct e0 as [k0|p]; cbn in *; [|constructor; auto].
  destruct (CanonicalKey.ptr k0) eqn:Hp; cbn; constructor; eauto. by eapply wf_canonical.
Qed.

Lemma written_set (K : key -> Prop) m k i e0 v0 v : wf_map m -> live_in K m -> K k -> canonical k ->
  find_key m k = Some (i, (e0, v0)) ->
  written K k e0 v (if Key.is_dead_key e0 then Key.Live k else e0).
Proof.
  intros Hwf Hl Hk Hc [Hi He]%find_key_Some.
  destruct e0 as [k0|p]; cbn in *; constructor; eauto using key_eq_refl. by eapply wf_canonical.
Qed.

(** No other live key is found in the bucket. *)
Lemma written_other (K : key -> Prop) m k i e0 v0 v e : consistent K -> wf_map m -> live_in K m -> K k ->
  find_key m k = Some (i, (e0, v0)) -> written K k e0 v e ->
  forall j k2 v2, j <> i -> Hashbrown.bucket m j = Some (Key.Live k2, v2) -> Key.eq e k2 = false.
Proof.
  intros HK Hwf Hl Hk Hf Hw j k2 v2 Hj Hbj. pose proof (find_key_Some _ _ _ _ Hf) as [Hi Hek].
  apply not_true_is_false. intros Ht.
  assert (K k2) as HK2 by by eapply Hl. pose proof (wf_found _ Hwf _ _ _ Hbj) as Hf2.
  destruct Hw as [k1 HK1 _ Hk1|p _ [->|(k0 & -> & Hp0)]]; cbn in Ht, Hek.
  - rewrite <- (find_key_eq K m k1 k2), (find_key_eq K m k1 k) in Hf2 by done. congruence.
  - apply bool_decide_eq_true in Ht, Hek.
    rewrite <- (find_key_eq K m k k2) in Hf2 by (try done; by eapply one_object). congruence.
  - apply bool_decide_eq_true in Ht. assert (K k0) as HK0 by by eapply Hl.
    pose proof (wf_found _ Hwf _ _ _ Hi) as Hf0.
    rewrite (find_key_eq K m k0 k2) in Hf0 by (try done; by eapply one_object). congruence.
Qed.

Lemma write_wf (K : key -> Prop) m k i e0 v0 e v : consistent K -> wf_map m -> live_in K m -> K k ->
  find_key m k = Some (i, (e0, v0)) -> written K k e0 v e ->
  let m' := Hashbrown.write m i (e, v) in
  wf_map m' /\ live_in K m' /\
  (forall j, Hashbrown.bucket m' j = if decide (j = i) then Some (e, v) else Hashbrown.bucket m j).
Proof.
  intros HK Hwf Hl Hk Hf Hw m'.
  pose proof (find_key_Some _ _ _ _ Hf) as [Hi _].
  destruct (Hashbrown.write_spec m i (e, v) ltac:(eauto)) as (_ & _ & Hp & Hb).
  fold m' in Hp, Hb. pose proof (written_other K m k i e0 v0 v e HK Hwf Hl Hk Hf Hw) as Hother.
  assert (Hrest : forall j, j <> i -> Hashbrown.bucket m' j = Hashbrown.bucket m j).
  { intros j Hj. rewrite Hb. by rewrite decide_False. }
  assert (Hat : Hashbrown.bucket m' i = Some (e, v)) by (rewrite Hb; by rewrite decide_True).
  assert (Hlive : live_in K m').
  { intros j k2 v2. destruct (decide (j = i)) as [->|Hj]; [|rewrite Hrest by done; apply Hl].
    rewrite Hat. intros [= -> ->]. by inversion Hw. }
  assert (Hwf' : wf_map m').
  { split.
    - intros j p v2. destruct (decide (j = i)) as [->|Hj]; [|rewrite Hrest by done; by eapply wf_dead].
      rewrite Hat. intros [= -> ->]. by inversion Hw.
    - intros j k2 v2. destruct (decide (j = i)) as [->|Hj];
        [|rewrite Hrest by done; by eapply wf_canonical].
      rewrite Hat. intros [= -> ->]. by inversion Hw.
    - intros j k2 v2. unfold find_key, Hashbrown.find. rewrite Hp.
      destruct (decide (j = i)) as [->|Hj].
      + rewrite Hat. intros [= -> ->]. inversion Hw as [k1 HK1 _ Hk1|]; subst.
        apply (find_in_here m m' _ _ i (e0, v0)); [done..|apply key_eq_refl|].
        rewrite <- (find_key_eq K m k2 k) in Hf by done. exact Hf.
      + intros Hbj. rewrite Hrest in Hbj by done.
        apply (find_in_stable m m' _ _ i); [done| |done|by eapply wf_found].
        intros [e1 v1]. rewrite Hat. intros [= <- <-]. by eapply Hother. }
  done.
Qed.

Lemma write_holds (K : key -> Prop) m k i e0 v0 e v m' : consistent K -> wf_map m -> live_in K m -> K k ->
  find_key m k = Some (i, (e0, v0)) -> written K k e0 v e -> wf_map m' -> live_in K m' ->
  (forall j, Hashbrown.bucket m' j = if decide (j = i) then Some (e, v) else Hashbrown.bucket m j) ->
  forall k' v', K k' -> v' <> Value.Nil ->
    holds m' k' v' <-> if CanonicalKey.eq k k' then v' = v else holds m k' v'.
Proof.
  intros HK Hwf Hl Hk Hf Hw Hwf' Hlive Hb k' v' HK' Hv'.
  pose proof (find_key_Some _ _ _ _ Hf) as [Hi Hek].
  assert (Hrest : forall j, j <> i -> Hashbrown.bucket m' j = Hashbrown.bucket m j).
  { intros j Hj. rewrite Hb. by rewrite decide_False. }
  assert (Hat : Hashbrown.bucket m' i = Some (e, v)) by (rewrite Hb; by rewrite decide_True).
  destruct (CanonicalKey.eq k k') eqn:Hkk'; split.
  - intros Hh. destruct (holds_found K m' k' v' HK Hwf' Hlive HK' Hh) as (j & k2 & Hf' & Hk2).
    apply find_key_Some in Hf' as [Hbj _]. destruct (decide (j = i)) as [->|Hj]; [congruence|].
    rewrite Hrest in Hbj by done. pose proof (wf_found _ Hwf _ _ _ Hbj) as Hf2.
    rewrite (find_key_eq K m k2 k) in Hf2; [congruence|done|by eapply Hl|done|].
    rewrite (key_eq_sym k2 k), (key_eq_trans k k' k2 Hkk'), key_eq_sym. done.
  - intros ->. destruct Hw as [k1 _ _ Hk1|p -> _]; [|done].
    exists i, k1. split; [done|]. by rewrite (key_eq_trans k1 k k' Hk1).
  - intros (j & k2 & Hbj & Hk2). destruct (decide (j = i)) as [->|Hj];
      [|exists j, k2; by rewrite <- Hrest].
    rewrite Hat in Hbj. injection Hbj as -> ->. inversion Hw as [k1 _ _ Hk1|]; subst.
    rewrite (key_eq_trans k2 k k' Hk1) in Hk2. congruence.
  - intros (j & k2 & Hbj & Hk2). exists j, k2. split; [|done]. rewrite Hrest; [done|].
    intros ->. rewrite Hi in Hbj. injection Hbj as -> ->. cbn in Hek.
    rewrite (key_eq_trans k2 k k' Hek) in Hk2. congruence.
Qed.

Lemma write_updated (K : key -> Prop) m k i e0 v0 e v : consistent K -> wf_map m -> live_in K m -> K k ->
  find_key m k = Some (i, (e0, v0)) -> written K k e0 v e ->
  updated K m k v (Hashbrown.write m i (e, v)).
Proof.
  intros HK Hwf Hl Hk Hf Hw.
  destruct (write_wf K m k i e0 v0 e v HK Hwf Hl Hk Hf Hw) as (Hwf' & Hl' & Hb).
  split; [done..| |by eapply write_holds].
  intros j k2 v2. rewrite Hb. case_decide; [|eauto]. intros [= -> ->]. left. by inversion Hw.
Qed.

(** *** A new element *)

Lemma insert_found m h k v m' i l1 l2 l3 : hash_one k = h ->
  (forall j, Hashbrown.bucket m' j = if decide (j = i) then Some (Key.Live k, v) else Hashbrown.bucket m j) ->
  Hashbrown.probe m' h = l1 ++ i :: l2 -> Hashbrown.probe m h = l1 ++ l3 -> find_key m k = None ->
  find_key m' k = Some (i, (Key.Live k, v)).
Proof.
  intros <- Hb Hp' Hp Hf. unfold find_key, Hashbrown.find in *. rewrite Hp', Hp in *. clear Hp Hp'.
  rewrite find_in_app in Hf. destruct (Hashbrown.find_in m l1 _) eqn:Hf1; [done|]. clear Hf.
  assert (Hi : Hashbrown.bucket m' i = Some (Key.Live k, v)) by (rewrite Hb; by rewrite decide_True).
  induction l1 as [|j l1 IH]; cbn in *; [rewrite Hi; cbn; by rewrite key_eq_refl|].
  destruct (decide (j = i)) as [->|Hj]; [rewrite Hi; cbn; by rewrite key_eq_refl|].
  rewrite Hb, decide_False by done. destruct (Hashbrown.bucket m j) as [e|]; [|by apply IH].
  destruct (Key.eq (fst e) k); [done|by apply IH].
Qed.

Lemma insert_wf (K : key -> Prop) m k v m' : consistent K -> wf_map m -> live_in K m -> K k ->
  canonical k -> find_key m k = None ->
  Hashbrown.try_insert_no_grow m (hash_one k) (Key.Live k, v) = Some m' ->
  updated K m k v m'.
Proof.
  intros HK Hwf Hl Hk Hc Hf Hins.
  destruct (Hashbrown.insert_spec _ _ _ _ Hins)
    as (_ & i & Hi & Hb & (l1 & l2 & Hp' & l3 & Hp) & Hpaths).
  pose proof (insert_found m _ k v m' i l1 l2 l3 eq_refl Hb Hp' Hp Hf) as Hnew.
  assert (Hrest : forall j, j <> i -> Hashbrown.bucket m' j = Hashbrown.bucket m j).
  { intros j Hj. rewrite Hb. by rewrite decide_False. }
  assert (Hat : Hashbrown.bucket m' i = Some (Key.Live k, v)) by (rewrite Hb; by rewrite decide_True).
  assert (Hne : forall j e, Hashbrown.bucket m j = Some e -> j <> i) by (intros j e ? ->; congruence).
  assert (Hno : forall j k' v', Hashbrown.bucket m j = Some (Key.Live k', v') ->
            CanonicalKey.eq k k' = false).
  { intros j k' v' Hj. apply not_true_is_false. intros Ht.
    pose proof (wf_found _ Hwf _ _ _ Hj) as Hf'.
    rewrite <- (find_key_eq K m k k') in Hf' by (try done; by eapply Hl). congruence. }
  split.
  - split.
    + intros j p v'. destruct (decide (j = i)) as [->|Hj]; [by rewrite Hat|].
      rewrite Hrest by done. by eapply wf_dead.
    + intros j k' v'. destruct (decide (j = i)) as [->|Hj]; [rewrite Hat; by intros [= -> ->]|].
      rewrite Hrest by done. by eapply wf_canonical.
    + intros j k' v'. destruct (decide (j = i)) as [->|Hj]; [rewrite Hat; by intros [= -> ->]|].
      rewrite Hrest by done. intros Hbj. pose proof (wf_found _ Hwf _ _ _ Hbj) as Hf'.
      unfold find_key, Hashbrown.find in *. destruct (Hpaths (hash_one k')) as (p1 & p2 & -> & Hflt).
      rewrite find_in_app. rewrite <- Hflt in Hf'.
      apply (find_in_stable m m' _ _ i) in Hf'; [|done| |done].
      * rewrite find_in_filter in Hf'; [by rewrite Hf'|]. intros j' _ Hj' e.
        destruct (decide (j' = i)) as [->|?]; [|tauto]. rewrite Hat. intros [= <-]. by eapply Hno.
      * intros e. rewrite Hat. intros [= <-]. by eapply Hno.
  - intros j k' v'. destruct (decide (j = i)) as [->|Hj]; [rewrite Hat; by intros [= -> ->]|].
    rewrite Hrest by done. apply Hl.
  - intros j k' v'. destruct (decide (j = i)) as [->|Hj]; [|rewrite Hrest by done; eauto].
    rewrite Hat. intros [= -> ->]. left. apply key_eq_refl.
  - intros k' v' Hk' Hv'. split.
    + intros (j & k2 & Hbj & He). destruct (decide (j = i)) as [->|Hj].
      * rewrite Hat in Hbj. injection Hbj as -> ->. by rewrite He.
      * rewrite Hrest in Hbj by done. pose proof (Hno _ _ _ Hbj) as Hx.
        rewrite (key_eq_sym k k2), (key_eq_trans k2 k' k He), key_eq_sym in Hx. rewrite Hx. by exists j, k2.
    + destruct (CanonicalKey.eq k k') eqn:He; [intros ->; by exists i, k|].
      intros (j & k2 & Hbj & Hk2). exists j, k2. rewrite Hrest; eauto.
Qed.

(** *** Elements that leave *)

Lemma retain_wf (K : key -> Prop) m p : wf_map m -> live_in K m ->
  let m' := Hashbrown.retain p m in
  wf_map m' /\ live_in K m' /\
  (forall i e, Hashbrown.bucket m' i = Some e <-> Hashbrown.bucket m i = Some e /\ p e = true).
Proof.
  intros Hwf Hl m'. destruct (Hashbrown.retain_spec p m) as (_ & Hb & Hp). fold m' in Hb, Hp.
  assert (Hsub : forall i e, Hashbrown.bucket m' i = Some e <-> Hashbrown.bucket m i = Some e /\ p e = true).
  { intros i e. rewrite Hb. destruct (Hashbrown.bucket m i) as [e'|]; [|split; [done|by intros [? _]]].
    destruct (p e') eqn:He; (split; [intros [= <-]; by split|]);
      intros [[= <-] ?]; congruence. }
  split_and!; [|intros i k v (? & _)%Hsub; by eapply Hl|done]. split.
  - intros i q v (? & _)%Hsub. by eapply wf_dead.
  - intros i k v (? & _)%Hsub. by eapply wf_canonical.
  - intros i k v Hi. pose proof (Hi) as (Hi0 & Hpe)%Hsub. pose proof (wf_found _ Hwf _ _ _ Hi0) as Hf.
    unfold find_key, Hashbrown.find in *. rewrite Hp.
    rewrite find_in_filter by (intros j _ Hn e Hj; by destruct Hn; eauto).
    revert Hf. generalize (Hashbrown.probe m (hash_one k)) as l. intros l.
    induction l as [|j l IH]; cbn; [done|].
    destruct (Hashbrown.bucket m j) as [e|] eqn:Hj; [|by rewrite Hb, Hj].
    destruct (Key.eq (fst e) k) eqn:He.
    + intros [= -> ->]. by rewrite Hi, He.
    + intros Hf. rewrite Hb, Hj. destruct (p e); [rewrite He|]; by apply IH.
Qed.

(** *** Growing *)

(** The buckets of a table with a key that [k] finds *)
Definition matching m k : list nat :=
  filter (fun i => from_option (fun e => Key.eq (fst e) k) false (Hashbrown.bucket m i) = true)
    (seq 0 (Hashbrown.buckets m)).

Lemma elem_matching m k i : i ∈ matching m k <->
  exists e, Hashbrown.bucket m i = Some e /\ Key.eq (fst e) k = true.
Proof.
  unfold matching. rewrite list_elem_of_filter. split.
  - intros [Hi _]. destruct (Hashbrown.bucket m i) as [e|]; [|done]. by exists e.
  - intros (e & Hi & He). rewrite Hi. split; [done|]. apply elem_of_seq.
    pose proof (Hashbrown.bucket_lt m i e Hi). lia.
Qed.

Lemma matching_length m k :
  length (matching m k) = length (filter (fun e : entry => Key.eq (fst e) k = true) (Hashbrown.iter m)).
Proof.
  unfold matching, Hashbrown.iter. induction (seq 0 (Hashbrown.buckets m)) as [|i l IH]; [done|].
  rewrite filter_cons. cbn. destruct (Hashbrown.bucket m i) as [e|] eqn:Hi; cbn; [|exact IH].
  case_decide; cbn; by rewrite IH.
Qed.

Lemma matching_unique m k i j : (length (matching m k) <= 1)%nat ->
  i ∈ matching m k -> j ∈ matching m k -> i = j.
Proof.
  destruct (matching m k) as [|x [|y l]]; cbn; [by intros _ ?%not_elem_of_nil|..|lia].
  rewrite !list_elem_of_singleton. congruence.
Qed.

Lemma reserve_wf (K : key -> Prop) m n m' : consistent K -> wf_map m -> live_in K m ->
  (forall i e, Hashbrown.bucket m i = Some e -> is_Some (Key.live_key (fst e))) ->
  Hashbrown.try_reserve m n entry_hash = Some m' ->
  wf_map m' /\ live_in K m' /\ (Hashbrown.len m + n <= Hashbrown.capacity m')%nat /\
  Hashbrown.iter m' ≡ₚ Hashbrown.iter m /\ forall k v, holds m' k v <-> holds m k v.
Proof.
  intros HK Hwf Hl Hlive Hres. destruct (Hashbrown.try_reserve_spec _ _ _ _ Hres) as (Hcap & Hperm & Hp).
  destruct Hp as [->|Hp]; [done|].
  assert (Hin : forall e, (exists i, Hashbrown.bucket m' i = Some e) <->
                          exists i, Hashbrown.bucket m i = Some e).
  { intros e. by rewrite <- !elem_iter, Hperm. }
  assert (Huniq : forall k i j, K k -> i ∈ matching m k -> j ∈ matching m k -> i = j).
  { intros k i j Hk ([[k1|?] v1] & Hi & Hk1)%elem_matching ([[k2|?] v2] & Hj & Hk2)%elem_matching;
      try (by destruct (Hlive _ _ Hi)); try (by destruct (Hlive _ _ Hj)).
    pose proof (wf_found _ Hwf _ _ _ Hi) as Hf1. pose proof (wf_found _ Hwf _ _ _ Hj) as Hf2.
    rewrite (find_key_eq K m k1 k) in Hf1 by eauto. rewrite (find_key_eq K m k2 k) in Hf2 by eauto.
    congruence. }
  assert (Hone : forall k, K k -> (length (matching m' k) <= 1)%nat).
  { intros k Hk. rewrite matching_length, Hperm, <- matching_length.
    assert (Hnd : NoDup (matching m k)) by apply NoDup_filter, NoDup_seq.
    specialize (Huniq k). destruct (matching m k) as [|x [|y l]]; cbn; [lia..|]. exfalso.
    apply NoDup_cons in Hnd as [Hx _]. apply Hx. rewrite (Huniq x y Hk); by set_solver. }
  split_and!; [|..|done|done|].
  - split.
    + intros i p v Hi. assert (exists j, Hashbrown.bucket m j = Some (Key.Dead p, v)) as [j Hj]
        by (apply Hin; eauto). by destruct (Hlive _ _ Hj).
    + intros i k v Hi. assert (exists j, Hashbrown.bucket m j = Some (Key.Live k, v)) as [j Hj]
        by (apply Hin; eauto). by eapply wf_canonical.
    + intros i k v Hi. assert (exists j, Hashbrown.bucket m j = Some (Key.Live k, v)) as [j Hj]
        by (apply Hin; eauto). assert (K k) as Hk by by eapply Hl.
      destruct (find_key m' k) as [[i' e]|] eqn:Hf.
      * apply find_key_Some in Hf as [Hi' He].
        assert (i' = i) as ->; [|congruence].
        apply (matching_unique m' k); [by apply Hone|apply elem_matching; eauto|].
        apply elem_matching. eexists. split; [done|apply key_eq_refl].
      * unfold find_key, Hashbrown.find in Hf. apply find_in_None in Hf.
        rewrite Forall_forall in Hf. specialize (Hf i (Hp _ _ Hi) _ Hi).
        cbn in Hf. by rewrite key_eq_refl in Hf.
  - intros i k v Hi. assert (exists j, Hashbrown.bucket m j = Some (Key.Live k, v)) as [j Hj]
      by (apply Hin; eauto). by eapply Hl.
  - intros k v. unfold holds. split; intros (i & k' & Hi & He);
      [destruct (proj1 (Hin _) (ex_intro _ i Hi)) as [j Hj]
      |destruct (proj2 (Hin _) (ex_intro _ i Hi)) as [j Hj]]; by exists j, k'.
Qed.
End Facts.
End MapFacts.
