(* ===== verification/RawTableGrow.v ===== *)
(** * The two parts of the raw table

    The invariant of the whole table, what [get] reads under it, and the growth of the
    array: entries move from the hash part, and no key changes its value. *)

From Stdlib Require Import SpecFloat.
From S2P Require Import Prelude Float64 StringUtils Constant Value Limits RawTable RawTableFacts.
Import RawTable Datatypes(length) HashbrownFacts KeyFacts MapFacts.

Module TableFacts.
Section Facts.
Context `{BuildProfile} {S : Type} `{AsBytes S} `{StringAddress S} `{Platform S} `{!PlatformLaws S}.
Implicit Types (r : t (S:=S)) (k : CanonicalKey.t S) (v : Value.t S) (a : list (Value.t S)).

(** The place of a key in the array *)
Definition slot a k : option nat := in_array a (to_array_index (CanonicalKey.to_value k)).

(** The hash part has no key that belongs in the array. *)
Record wf r : Prop := {
  wf_capacity : (length (array r) <= array_capacity r)%nat;
  wf_isize : Z.of_nat (array_capacity r) * size_of_value <= int_max i64;
  wf_hash : wf_map (map r);
  wf_range i k v : Hashbrown.bucket (map r) i = Some (Key.Live k, v) -> slot (array r) k = None
}.

Lemma wf_max r : wf r -> Z.of_nat (array_capacity r) < 2 ^ 62.
Proof.
  intros [_ Hm _ _]. destruct sizes_positive as [Hs _]. revert Hm.
  change (int_max i64) with (2 ^ 63 - 1). nia.
Qed.

Definition get_key r k : Value.t S :=
  match slot (array r) k with
  | Some i => default Value.Nil (array r !! i)
  | None => map_get (map r) k
  end.

Lemma slot_Some a k i : canonical k -> slot a k = Some i ->
  k = CanonicalKey.Integer (Z.of_nat i + 1) /\ (i < length a)%nat.
Proof.
  unfold slot, in_array, len. intros Hc. destruct (to_array_index _) as [z|] eqn:Hz; [|done].
  destruct (array_index_key k z Hc Hz) as [-> Hz0]. case_match eqn:Hlt; [|done].
  intros [= <-]. bool_to_prop. split; [f_equal|]; lia.
Qed.

Lemma slot_integer a i : slot a (CanonicalKey.Integer (Z.of_nat i + 1)) =
  if (i <? length a)%nat then Some i else None.
Proof.
  unfold slot. rewrite array_index_integer by lia. unfold in_array, len.
  rewrite Nat2Z.id. destruct (Nat.ltb_spec i (length a)), (Z.ltb_spec (Z.of_nat i) (Z.of_nat (length a)));
    lia || done.
Qed.

Lemma slot_length a a' k : length a = length a' -> slot a k = slot a' k.
Proof. unfold slot, in_array, len. by intros ->. Qed.

Lemma slot_mono a a' k i : (length a <= length a')%nat -> slot a k = Some i -> slot a' k = Some i.
Proof.
  unfold slot, in_array, len. intros Hle. destruct (to_array_index _) as [z|]; [|done].
  case_bool; [|done]. intros [= <-]. bool_to_prop. rewrite (proj2 (Z.ltb_lt _ _)); [done|lia].
Qed.

Lemma slot_eq a k k' : CanonicalKey.eq k k' = true -> slot a k = slot a k'.
Proof. by intros [->|(s & s' & -> & -> & _)]%key_eq_inv. Qed.

Lemma nan_index n : F64.is_nan n = true -> to_array_index (Value.Number n : Value.t S) = None.
Proof.
  intros Hn. assert (F64.to_sf n = S754_nan) as Hsf.
  { revert Hn. unfold F64.is_nan, F64.to_sf. rewrite andb_true_iff, Z.eqb_eq, negb_true_iff.
    intros [-> ->]. done. }
  unfold to_array_index, f64_to_i64, F64.eqb. rewrite Hsf. by destruct (F64.to_sf (F64.from_int _)).
Qed.

Lemma refused_index v e : CanonicalKey.new v = Ok (inr e) -> to_array_index v = None.
Proof.
  intros Hv. destruct (key_new v) as (res & Hres & Hspec). rewrite Hv in Hres. injection Hres as <-.
  destruct e; [destruct Hspec as (n & -> & Hn); by apply nan_index|by subst].
Qed.

(** What [get] reads *)
Lemma get_spec r v : exists res, CanonicalKey.new v = Ok res /\
  get r v = Ok (match res with inl k => get_key r k | inr _ => Value.Nil end).
Proof.
  destruct (key_new v) as (res & Hres & Hspec). exists res. split; [done|].
  unfold get, get_key, slot. destruct res as [k|e].
  - destruct Hspec as [_ ->]. destruct (in_array _ _); [done|]. by rewrite Hres.
  - rewrite (refused_index v e Hres). cbn. by rewrite Hres.
Qed.

(** *** Moving entries into the array *)

(** Entries of the hash part: those with a value are live, with canonical keys. *)
Definition entries_ok (es : list (Key.t S * Value.t S)) : Prop :=
  forall e v, (e, v) ∈ es -> v <> Value.Nil -> exists k, e = Key.Live k /\ canonical k.

(** [e] is an entry with a value for index [i] of [a]. *)
Definition entry_at a i v (e : Key.t S * Value.t S) : Prop :=
  exists k, e = (Key.Live k, v) /\ v <> Value.Nil /\ slot a k = Some i.

Lemma not_nil v : Value.is_nil v = false <-> v <> Value.Nil.
Proof. by destruct v. Qed.

Lemma move_entries_spec a es : entries_ok es ->
  exists a', move_entries a es = Ok a' /\ length a' = length a /\
    (forall i, (exists v, Exists (entry_at a i v) es /\ a' !! i = Some v) \/
               ((forall v, ~ Exists (entry_at a i v) es) /\ a' !! i = a !! i)).
Proof.
  revert a. induction es as [|[e v] es IH]; intros a Hes; cbn.
  { exists a. split_and!; [done..|]. intros i. right. split; [|done]. by intros v ?%Exists_nil. }
  assert (Hes' : entries_ok es) by (intros e' v' ?; apply Hes; by right).
  assert (Hskip : (forall i v', ~ entry_at a i v' (e, v)) -> exists a', move_entries a es = Ok a' /\
    length a' = length a /\ forall i, (exists v', Exists (entry_at a i v') ((e, v) :: es) /\ a' !! i = Some v') \/
               ((forall v', ~ Exists (entry_at a i v') ((e, v) :: es)) /\ a' !! i = a !! i)).
  { intros Hno. destruct (IH a Hes') as (a' & -> & Hlen & Hi). exists a'. split_and!; [done..|].
    intros i. destruct (Hi i) as [(v' & Hv' & Ha)|[Hn Ha]]; [left; exists v'|right]; split; try done.
    - by right.
    - intros v' [?|?]%Exists_cons; [by eapply Hno|by eapply Hn]. }
  destruct (Value.is_nil v) eqn:Hv.
  { destruct v; try done. apply Hskip. by intros i v' (k & [= -> <-] & ? & _). }
  apply not_nil in Hv. destruct (Hes e v ltac:(by left) Hv) as (k & -> & Hc). cbn.
  change (in_array a (to_array_index (CanonicalKey.to_value k))) with (slot a k).
  destruct (slot a k) as [j|] eqn:Hj.
  2:{ apply Hskip. intros i v' (k' & [= -> <-] & _ & ?). congruence. }
  destruct (slot_Some a k j Hc Hj) as [_ Hlt].
  destruct (IH (<[j := v]> a) Hes') as (a' & -> & Hlen & Hi). rewrite length_insert in Hlen.
  exists a'. split_and!; [done..|]. intros i.
  assert (Heq : forall v' e', entry_at (<[j := v]> a) i v' e' <-> entry_at a i v' e').
  { intros v' e'. unfold entry_at. setoid_rewrite (slot_length (<[j:=v]> a) a);
      [done|by rewrite length_insert]. }
  destruct (Hi i) as [(v' & Hv' & Ha)|[Hn Ha]].
  - left. exists v'. split; [|done]. right. eapply Exists_impl; [done|]. intros ? ?. by apply Heq.
  - destruct (decide (i = j)) as [->|Hne].
    + left. exists v. split; [left; by exists k|]. rewrite Ha. by apply list_lookup_insert_eq.
    + right. split; [|rewrite Ha; by apply list_lookup_insert_ne].
      intros v' [(k' & [= <- _] & _ & ?)|Hx]%Exists_cons; [congruence|].
      apply (Hn v'). eapply Exists_impl; [done|]. intros ? ?. by apply Heq.
Qed.

Lemma hash_entries_ok m : wf_map m -> entries_ok (Hashbrown.iter m).
Proof.
  intros Hwf e v (i & Hi)%elem_iter Hv. destruct e as [k|p].
  - exists k. split; [done|]. by eapply wf_canonical.
  - by apply (wf_dead _ Hwf) in Hi.
Qed.

Lemma exists_entry_at (K : CanonicalKey.t S -> Prop) r a i v : wf_map (map r) ->
  Exists (entry_at a i v) (Hashbrown.iter (map r)) <->
  v <> Value.Nil /\ (i < length a)%nat /\ holds (map r) (CanonicalKey.Integer (Z.of_nat i + 1)) v.
Proof.
  intros Hwf. rewrite Exists_exists. split.
  - intros (e & (j & Hj)%elem_iter & k & -> & Hv & Hs).
    destruct (slot_Some a k i) as [-> Hlt]; [by eapply wf_canonical|done|]. split_and!; [done..|].
    exists j, (CanonicalKey.Integer (Z.of_nat i + 1)). split; [done|apply key_eq_refl].
  - intros (Hv & Hlt & j & k & Hj & He).
    apply key_eq_inv in He as [->|(s & s' & _ & ? & _)]; [|done].
    eexists. split; [apply elem_iter; eauto|]. eexists. split_and!; [done..|].
    rewrite slot_integer. by rewrite (proj2 (Nat.ltb_lt _ _) Hlt).
Qed.

(** The array has grown to its capacity: every key keeps its value. *)
Lemma take_array_keys_spec (K : CanonicalKey.t S -> Prop) r : consistent K -> wf r -> live_in K (map r) ->
  exists r', take_array_keys r = Ok r' /\ wf r' /\ live_in K (map r') /\
    length (array r') = array_capacity r /\
    forall k, K k -> canonical k -> get_key r' k = get_key r k.
Proof.
  intros HK [Hcap Hmax Hwf Hrange] Hl. unfold take_array_keys.
  set (a := resize (array_capacity r) Value.Nil (array r)).
  assert (Hla : length a = array_capacity r) by apply length_resize.
  destruct (move_entries_spec a (Hashbrown.iter (map r)) (hash_entries_ok _ Hwf)) as (a' & -> & Hlen & Ha').
  destruct (retain_wf K (map r) (stays a) Hwf Hl) as (Hwf' & Hl' & Hb').
  eexists. split; [reflexivity|]. cbn [array map array_capacity].
  assert (Hsl : forall k, slot a' k = slot a k) by (intros; by apply slot_length).
  split_and!; [|done|congruence|].
  - split; cbn [array map array_capacity]; [lia|done..|]. intros i k v (Hi & Hst)%Hb'. rewrite Hsl.
    revert Hst. unfold stays, entry_nil. cbn. fold (slot a k). by destruct (slot a k), (Value.is_nil v).
  - intros k Hk Hc. unfold get_key. cbn [array map]. rewrite Hsl. destruct (slot a k) as [i|] eqn:Hs.
    + destruct (slot_Some a k i Hc Hs) as [-> Hlt].
      destruct (Ha' i) as [(v & (Hv & _ & Hh)%(exists_entry_at K) & ->)|[Hn ->]]; [|done|].
      * rewrite slot_integer. destruct (Nat.ltb_spec i (length (array r))) as [Hi|Hi].
        { destruct Hh as (j & k' & Hj & [->|(? & ? & _ & ? & _)]%key_eq_inv); [|done].
          apply Hrange in Hj. rewrite slot_integer, (proj2 (Nat.ltb_lt _ _) Hi) in Hj. done. }
        cbn. symmetry. by apply (map_get_holds K).
      * rewrite slot_integer. unfold a. destruct (Nat.ltb_spec i (length (array r))) as [Hi|Hi].
        { by rewrite lookup_resize by lia. }
        rewrite lookup_resize_new by lia. cbn.
        destruct (Value.is_nil (map_get (map r) (CanonicalKey.Integer (Z.of_nat i + 1)))) eqn:Hx.
        { by destruct (map_get (map r) _). }
        apply not_nil in Hx. exfalso. eapply Hn. apply (exists_entry_at K); [done|].
        split_and!; [exact Hx|lia|]. by apply (map_get_holds K).
    + assert (slot (array r) k = None) as ->.
      { destruct (slot (array r) k) as [i|] eqn:Hs'; [|done].
        apply (slot_mono _ a) in Hs'; [congruence|lia]. }
      apply (map_get_ext K); try done. intros v Hv. split; intros (j & k' & Hj & He).
      * apply Hb' in Hj as [Hj _]. by exists j, k'.
      * exists j, k'. split; [|done]. apply Hb'. split; [done|]. unfold stays, entry_nil. cbn.
        apply not_nil in Hv. rewrite Hv. fold (slot a k'). by rewrite (slot_eq a k' k He), Hs.
Qed.
End Facts.
End TableFacts.

(** * The size of the array: [set] when the table must grow

    The counts of the array candidates, and that the size chosen is the largest power of
    two of which more than half the slots would be in use. *)

Import RawTable Datatypes(length) HashbrownFacts KeyFacts MapFacts TableFacts.

Module SizeFacts.
Section Facts.
Context `{BuildProfile} {S : Type} `{AsBytes S} `{StringAddress S} `{Platform S} `{!PlatformLaws S}.
Implicit Types (r : t (S:=S)) (k : CanonicalKey.t S) (v : Value.t S) (a : list (Value.t S)) (l : list Z).

(** How many of the indices [l] have their highest bit at [b], and are below [n] *)
Definition at_bit l (b : nat) : Z := Z.of_nat (length (filter (fun x => highest_bit x = Z.of_nat b) l)).
Definition used l (n : Z) : Z := Z.of_nat (length (filter (fun x => x < n) l)).

(** The counts the code keeps of the indices [l] *)
Definition tally l : list Z := at_bit l <$> seq 0 USIZE_BITS.

#[local] Arguments tally : simpl never.
#[local] Arguments at_bit : simpl never.
#[local] Arguments count_index : simpl never.
#[local] Arguments to_array_index : simpl never.

Definition index_ok (x : Z) : Prop := 0 <= x < 2 ^ 63.

Lemma highest_bit_range x n : 0 <= x -> 0 <= n -> highest_bit x <= n <-> x < 2 ^ n.
Proof.
  intros Hx Hn. unfold highest_bit. destruct (Z.eqb_spec x 0) as [->|]; [lia|].
  rewrite (Z.log2_lt_pow2 x n) by lia. lia.
Qed.

Lemma highest_bit_index x : index_ok x -> (Z.to_nat (highest_bit x) < USIZE_BITS)%nat /\ 0 <= highest_bit x.
Proof.
  intros [Hx Hlt]. pose proof (proj2 (highest_bit_range x 63 Hx ltac:(lia)) Hlt) as Hb.
  assert (0 <= highest_bit x).
  { unfold highest_bit. destruct (x =? 0); [lia|]. pose proof (Z.log2_nonneg x). lia. }
  unfold USIZE_BITS. lia.
Qed.

Lemma lookup_tally l (b : nat) : (b < USIZE_BITS)%nat -> tally l !! b = Some (at_bit l b).
Proof. intros Hb. unfold tally. rewrite list_lookup_fmap, lookup_seq_lt by done. done. Qed.

Lemma at_bit_cons x l b : at_bit (x :: l) b =
  at_bit l b + if decide (highest_bit x = Z.of_nat b) then 1 else 0.
Proof. unfold at_bit. rewrite filter_cons. case_decide; cbn; lia. Qed.

Lemma used_cons x l n : used (x :: l) n = used l n + if decide (x < n) then 1 else 0.
Proof. unfold used. rewrite filter_cons. case_decide; cbn; lia. Qed.

Lemma count_index_tally x l : index_ok x ->
  count_index x (tally l, Z.of_nat (length l)) = Ok (tally (x :: l), Z.of_nat (length (x :: l))).
Proof.
  intros Hx. destruct (highest_bit_index x Hx) as [Hlt Hnn]. unfold count_index.
  rewrite lookup_tally by done. f_equal. f_equal; [|cbn; lia].
  apply list_eq. intros b. destruct (Nat.lt_ge_cases b USIZE_BITS) as [Hb|Hb].
  - rewrite lookup_tally by done. destruct (decide (b = Z.to_nat (highest_bit x))) as [->|Hne].
    + rewrite list_lookup_insert_eq by (unfold tally; by rewrite length_fmap, length_seq).
      rewrite at_bit_cons, decide_True by lia. done.
    + rewrite list_lookup_insert_ne, lookup_tally by done.
      rewrite at_bit_cons, decide_False by lia. f_equal. lia.
  - rewrite !lookup_ge_None_2; [done|..]; rewrite ?length_insert; unfold tally;
      by rewrite length_fmap, length_seq.
Qed.

(** *** The candidates *)

(** The indices of the elements of the array, from [i] on *)
Fixpoint array_indices (i : Z) a : list Z :=
  match a with
  | [] => []
  | v :: a => if Value.is_nil v then array_indices (i + 1) a else i :: array_indices (i + 1) a
  end.

(** The index an element of the hash part would have *)
Definition entry_index (e : Key.t S * Value.t S) : option Z :=
  match e with
  | (Key.Live k, v) => if Value.is_nil v then None else to_array_index (CanonicalKey.to_value k)
  | _ => None
  end.

Definition candidates r : list Z :=
  omap entry_index (Hashbrown.iter (map r)) ++ array_indices 0 (array r).

Lemma elem_array_indices x i a : x ∈ array_indices i a <->
  exists j v, a !! j = Some v /\ v <> Value.Nil /\ x = i + Z.of_nat j.
Proof.
  revert i. induction a as [|w a IH]; intros i; cbn.
  { rewrite elem_of_nil. split; [done|]. intros (j & v & ? & _). by destruct j. }
  assert (Hcons : (exists j v, (w :: a) !! j = Some v /\ v <> Value.Nil /\ x = i + Z.of_nat j) <->
    (w <> Value.Nil /\ x = i) \/ x ∈ array_indices (i + 1) a).
  { rewrite IH. split.
    - intros ([|j] & v & Hj & Hv & ->); [left; injection Hj as ->; split; [done|lia]|].
      right. exists j, v. split_and!; [done..|lia].
    - intros [[Hv ->]|(j & v & Hj & Hv & ->)]; [exists O, w; split_and!; [done..|lia]|].
      exists (Datatypes.S j), v. split_and!; [done..|lia]. }
  rewrite Hcons. destruct (Value.is_nil w) eqn:Hw.
  - destruct w; try done. split; [by right|]. by intros [[? _]|?].
  - apply not_nil in Hw. rewrite elem_of_cons. tauto.
Qed.

Lemma array_indices_NoDup i a : NoDup (array_indices i a).
Proof.
  revert i. induction a as [|w a IH]; intros i; cbn; [constructor|].
  destruct (Value.is_nil w); [apply IH|]. constructor; [|apply IH].
  intros (j & v & _ & _ & ?)%elem_array_indices. lia.
Qed.

Lemma count_array_tally i a l : Z.of_nat (length a) + i <= 2 ^ 63 -> 0 <= i ->
  exists l', count_array i a (tally l, Z.of_nat (length l)) = Ok (tally l', Z.of_nat (length l')) /\
    l' ≡ₚ array_indices i a ++ l.
Proof.
  revert i l. induction a as [|v a IH]; intros i l Ha Hi; cbn; [by exists l|]. cbn in Ha.
  destruct (Value.is_nil v); cbn.
  - destruct (IH (i + 1) l) as (l' & -> & Hp); [lia..|]. by exists l'.
  - rewrite count_index_tally by (unfold index_ok; lia). rewrite outcome_bind_Ok.
    destruct (IH (i + 1) (i :: l)) as (l' & -> & Hp); [lia..|]. exists l'. split; [done|].
    rewrite Hp. by rewrite Permutation_middle.
Qed.

Lemma count_map_tally es l : entries_ok es ->
  (forall e x, e ∈ es -> entry_index e = Some x -> index_ok x) ->
  exists l', count_map es (tally l, Z.of_nat (length l)) = Ok (tally l', Z.of_nat (length l')) /\
    l' ≡ₚ omap entry_index es ++ l.
Proof.
  revert l. induction es as [|[e v] es IH]; intros l Hes Hok; [by exists l|].
  assert (Hes' : entries_ok es) by (intros e' v' ?; apply Hes; by right).
  assert (Hok' : forall e' x, e' ∈ es -> entry_index e' = Some x -> index_ok x)
    by (intros e' x ?; apply Hok; by right).
  destruct (Value.is_nil v) eqn:Hv.
  { destruct e; cbn; rewrite ?Hv; by apply IH. }
  destruct (Hes e v) as (k & -> & Hc); [by left|by apply not_nil|]. cbn. rewrite Hv.
  destruct (to_array_index _) as [x|] eqn:Hx; cbn; [|by apply IH].
  rewrite count_index_tally; [|apply (Hok (Key.Live k, v)); [by left|cbn; by rewrite Hv]]. rewrite outcome_bind_Ok.
  destruct (IH (x :: l) Hes' Hok') as (l' & -> & Hp). exists l'. split; [done|].
  rewrite Hp. by rewrite Permutation_middle.
Qed.

(** *** The choice *)

(** [s] is 0 or a power of two of which more than half the slots are in use, and no larger
    power of two is. *)
Definition best l (s : Z) : Prop :=
  (s = 0 \/ exists j : nat, (j < USIZE_BITS)%nat /\ s = 2 ^ Z.of_nat j /\ s < 2 * used l s) /\
  forall j : nat, (j < USIZE_BITS)%nat -> s < 2 ^ Z.of_nat j ->
    2 * used l (2 ^ Z.of_nat j) <= 2 ^ Z.of_nat j.

(** Those with their highest bit below [i] *)
Definition below l (i : nat) : Z := Z.of_nat (length (filter (fun x => highest_bit x < Z.of_nat i) l)).

Lemma used_below l i : Forall index_ok l -> used l (2 ^ Z.of_nat i) = below l (Datatypes.S i).
Proof.
  induction 1 as [|x l [Hx _] _ IH]; [done|]. unfold below in *. rewrite used_cons, filter_cons, IH.
  pose proof (highest_bit_range x (Z.of_nat i) Hx ltac:(lia)).
  repeat case_decide; cbn [length]; lia.
Qed.

Lemma below_succ l i : below l (Datatypes.S i) = below l i + at_bit l i.
Proof.
  unfold below, at_bit. induction l as [|x l IH]; [done|]. rewrite !filter_cons.
  repeat case_decide; cbn [length]; lia.
Qed.

Lemma below_zero l : Forall index_ok l -> below l 0 = 0.
Proof.
  unfold below. induction 1 as [|x l Hx _ IH]; [done|].
  destruct (highest_bit_index x Hx). rewrite filter_cons, decide_False by lia. exact IH.
Qed.

Lemma used_mono l n n' : n <= n' -> used l n <= used l n'.
Proof.
  intros Hn. induction l as [|x l IH]; [done|]. rewrite !used_cons. repeat case_decide; lia.
Qed.

Lemma used_length l n : used l n <= Z.of_nat (length l).
Proof. induction l as [|x l IH]; [done|]. rewrite used_cons. case_decide; cbn [length]; lia. Qed.

Lemma used_bound l n : NoDup l -> Forall index_ok l -> 0 <= n -> used l n <= n.
Proof.
  intros Hnd Hok Hn. unfold used.
  assert (filter (fun x => x < n) l ⊆+ seqZ 0 n) as Hsub%submseteq_length.
  { apply NoDup_submseteq; [by apply NoDup_filter|]. intros x [Hx Hin]%list_elem_of_filter.
    apply elem_of_seqZ. rewrite Forall_forall in Hok. destruct (Hok x Hin). lia. }
  rewrite length_seqZ in Hsub. lia.
Qed.

Lemma half_power (i : nat) x : 2 ^ Z.of_nat i / 2 < x <-> 2 ^ Z.of_nat i < 2 * x.
Proof.
  destruct i as [|i]; [change (2 ^ Z.of_nat 0 / 2) with 0; change (2 ^ Z.of_nat 0) with 1; lia|].
  rewrite Nat2Z.inj_succ, Z.pow_succ_r by lia.
  rewrite (Z.mul_comm 2), Z.div_mul by lia. lia.
Qed.

Lemma optimal_loop_best l : NoDup l -> Forall index_ok l ->
  forall (n i : nat) opt, (i + n = USIZE_BITS)%nat ->
  (opt = 0 \/ exists j : nat, (j < i)%nat /\ opt = 2 ^ Z.of_nat j /\ opt < 2 * used l opt) ->
  (forall j : nat, (j < i)%nat -> opt < 2 ^ Z.of_nat j -> 2 * used l (2 ^ Z.of_nat j) <= 2 ^ Z.of_nat j) ->
  best l (optimal_loop (Z.of_nat i) (at_bit l <$> seq i n) (Z.of_nat (length l)) (below l i) opt).
Proof.
  intros Hnd Hok. induction n as [|n IH]; intros i opt Hi Hopt Hbest; cbn.
  { split; [destruct Hopt as [|(j & ? & ?)]; [by left|right; exists j; split; [lia|done]]|].
    intros j Hj. apply Hbest. lia. }
  rewrite Z.shiftl_1_l. pose proof (Z.pow_pos_nonneg 2 (Z.of_nat i) ltac:(lia) ltac:(lia)) as Hpos.
  destruct (Z.leb_spec (Z.of_nat (length l)) (2 ^ Z.of_nat i / 2)) as [Hle|Hgt].
  { split; [destruct Hopt as [|(j & ? & ?)]; [by left|right; exists j; split; [lia|done]]|].
    intros j Hj Hlt. destruct (Nat.lt_ge_cases j i) as [|Hge]; [by apply Hbest|].
    pose proof (used_length l (2 ^ Z.of_nat j)).
    assert (2 ^ Z.of_nat i <= 2 ^ Z.of_nat j) by (apply Z.pow_le_mono_r; lia).
    pose proof (Z.mul_div_le (2 ^ Z.of_nat i) 2 ltac:(lia)). lia. }
  replace (Z.of_nat i + 1) with (Z.of_nat (Datatypes.S i)) by lia.
  pose proof (used_below l i Hok) as Hu. rewrite below_succ in Hu.
  assert (Hlater : forall j : nat, (j < i)%nat -> 2 ^ Z.of_nat j < 2 ^ Z.of_nat i)
    by (intros; apply Z.pow_lt_mono_r; lia).
  destruct (Z.ltb_spec 0 (at_bit l i)) as [Hc|Hc].
  - rewrite <- Hu at 2. replace (below l i + at_bit l i) with (below l (Datatypes.S i)) by apply below_succ.
    apply IH; [lia|..].
    + case_bool; bool_to_prop; [|destruct Hopt as [|(j & ? & ?)]; [by left|right; exists j; split; [lia|done]]].
      right. exists i. split_and!; [lia|done|]. by apply half_power.
    + intros j Hj. destruct (decide (j = i)) as [->|].
      * case_bool; bool_to_prop; [lia|]. intros _. pose proof (half_power i (used l (2 ^ Z.of_nat i))). lia.
      * case_bool; [|intros; apply Hbest; [lia|done]]. intros Hx. specialize (Hlater j). lia.
  - assert (at_bit l i = 0) as Hz by (unfold at_bit in *; lia).
    replace (below l i) with (below l (Datatypes.S i)) by (rewrite below_succ; lia).
    apply IH; [lia|destruct Hopt as [|(j & ? & ?)]; [by left|right; exists j; split; [lia|done]]|].
    intros j Hj Hlt. destruct (decide (j = i)) as [->|]; [|apply Hbest; [lia|done]].
    rewrite Hu, Hz. destruct i as [|i].
    + rewrite below_zero by done. lia.
    + rewrite <- (used_below l i Hok), Z.add_0_r, Nat2Z.inj_succ, Z.pow_succ_r by lia.
      pose proof (used_bound l (2 ^ Z.of_nat i) Hnd Hok ltac:(lia)). lia.
Qed.

Lemma best_perm l l' s : l ≡ₚ l' -> best l s -> best l' s.
Proof.
  intros Hp. assert (forall n, used l' n = used l n) as Hu by (intros n; unfold used; by rewrite Hp).
  unfold best. setoid_rewrite Hu. done.
Qed.

Lemma NoDup_omap {A B} (f : A -> option B) (l : list A) : NoDup l ->
  (forall x y z, x ∈ l -> y ∈ l -> f x = Some z -> f y = Some z -> x = y) -> NoDup (omap f l).
Proof.
  induction 1 as [|x l Hx _ IH]; intros Hf; [constructor|].
  assert (NoDup (omap f l)) by (apply IH; intros; eapply Hf; eauto; by right).
  cbn. destruct (f x) as [z|] eqn:Hz; [|done]. constructor; [|done].
  intros (y & Hy & Hfy)%list_elem_of_omap. apply Hx.
  rewrite (Hf x y z); [done|by left|by right|done..].
Qed.

Lemma entry_index_key m i e x : wf_map m -> Hashbrown.bucket m i = Some e -> entry_index e = Some x ->
  exists v, e = (Key.Live (CanonicalKey.Integer (x + 1)), v) /\ v <> Value.Nil /\ 0 <= x.
Proof.
  intros Hwf Hi. unfold entry_index. destruct e as [[k|p] v]; [|done]. destruct (Value.is_nil v) eqn:Hv; [done|].
  intros Hx. destruct (array_index_key k x) as [-> ?]; [by eapply wf_canonical|done|].
  exists v. split_and!; [done|by apply not_nil|done].
Qed.

Lemma omap_omap {A B C} (f : A -> option B) (g : B -> option C) (l : list A) :
  omap g (omap f l) = omap (fun x => f x ≫= g) l.
Proof. induction l as [|x l IH]; cbn; [done|]. destruct (f x); cbn; by rewrite IH. Qed.

Lemma hash_indices_NoDup m : wf_map m -> NoDup (omap entry_index (Hashbrown.iter m)).
Proof.
  intros Hm. unfold Hashbrown.iter. rewrite omap_omap. apply NoDup_omap; [apply NoDup_seq|].
  intros i j z _ _ (e1 & Hi & He1)%bind_Some (e2 & Hj & He2)%bind_Some.
  destruct (entry_index_key m i e1 z Hm Hi He1) as (v1 & -> & _).
  destruct (entry_index_key m j e2 z Hm Hj He2) as (v2 & -> & _).
  apply (wf_found _ Hm) in Hi, Hj. congruence.
Qed.

Lemma elem_hash_indices m x : wf_map m -> x ∈ omap entry_index (Hashbrown.iter m) <->
  0 <= x /\ exists v, v <> Value.Nil /\ holds m (CanonicalKey.Integer (x + 1)) v.
Proof.
  intros Hm. rewrite list_elem_of_omap. split.
  - intros (e & (i & Hi)%elem_iter & He).
    destruct (entry_index_key m i e x Hm Hi He) as (v & -> & Hv & Hx). split; [done|]. exists v.
    split; [done|]. eexists _, _. split; [done|apply key_eq_refl].
  - intros (Hx & v & Hv & i & k & Hi & [->|(? & ? & _ & ? & _)]%key_eq_inv); [|done].
    eexists. split; [apply elem_iter; eauto|]. cbn. apply not_nil in Hv. rewrite Hv.
    by apply array_index_integer.
Qed.

(** An index of the hash part is past the array, and one a machine integer can have. *)
Lemma hash_index_range (K : CanonicalKey.t S -> Prop) r x : consistent K -> wf r -> live_in K (map r) ->
  x ∈ omap entry_index (Hashbrown.iter (map r)) -> index_ok x /\ Z.of_nat (length (array r)) <= x.
Proof.
  intros HK Hwf Hl (Hx & v & _ & i & k & Hi & [->|(? & ? & _ & ? & _)]%key_eq_inv)%elem_hash_indices;
    [|done|apply Hwf].
  pose proof (machine_integer _ HK _ (Hl _ _ _ Hi)) as Hint. pose proof (wf_range _ Hwf _ _ _ Hi) as Hs.
  split; [unfold index_ok; revert Hint; int_lia|].
  replace x with (Z.of_nat (Z.to_nat x)) in Hs by lia. rewrite slot_integer in Hs.
  destruct (Nat.ltb_spec (Z.to_nat x) (length (array r))); [done|lia].
Qed.

Lemma candidates_ok (K : CanonicalKey.t S -> Prop) r : consistent K -> wf r -> live_in K (map r) ->
  NoDup (candidates r) /\ Forall index_ok (candidates r).
Proof.
  intros HK Hwf Hl. pose proof (wf_max _ Hwf) as Hmax. pose proof (wf_capacity _ Hwf) as Hcap.
  assert (Harr : forall x, x ∈ array_indices 0 (array r) -> 0 <= x < Z.of_nat (length (array r))).
  { intros x (j & v & Hj%lookup_lt_Some & _ & ->)%elem_array_indices. lia. }
  unfold candidates. split.
  - apply NoDup_app. split_and!; [apply hash_indices_NoDup, Hwf| |apply array_indices_NoDup].
    intros x Hx Hx'%Harr. destruct (hash_index_range K r x); done || lia.
  - apply Forall_forall. intros x [Hx|Hx%Harr]%elem_of_app; [by eapply hash_index_range|].
    revert Hmax. unfold index_ok. int_lia.
Qed.

Lemma optimal_size_spec (K : CanonicalKey.t S -> Prop) r x : consistent K -> wf r -> live_in K (map r) ->
  index_ok x -> x ∉ candidates r ->
  exists s, optimal_size x r = Ok s /\ best (x :: candidates r) s.
Proof.
  intros HK Hwf Hl Hx Hnew. destruct (candidates_ok K r HK Hwf Hl) as [Hnd Hok].
  pose proof (wf_max _ Hwf) as Hmax. pose proof (wf_capacity _ Hwf) as Hcap.
  destruct (count_array_tally 0 (array r) []) as (l1 & E1 & Hp1); [revert Hmax; int_lia|done|].
  change (tally [], Z.of_nat (length [])) with (replicate USIZE_BITS 0, 0) in E1.
  unfold optimal_size. rewrite E1, outcome_bind_Ok.
  destruct (count_map_tally (Hashbrown.iter (map r)) l1) as (l2 & -> & Hp2).
  { apply hash_entries_ok, Hwf. }
  { intros e y He Hy. apply (hash_index_range K r y HK Hwf Hl). apply list_elem_of_omap. eauto. }
  rewrite outcome_bind_Ok, count_index_tally, outcome_bind_Ok by done. eexists. split; [reflexivity|].
  assert (Hp : x :: l2 ≡ₚ x :: candidates r).
  { rewrite Hp2, Hp1. unfold candidates. by rewrite app_nil_r. }
  apply (best_perm (x :: l2)); [done|].
  pose proof (optimal_loop_best (x :: l2)) as Hbest. unfold tally.
  assert (Hok' : Forall index_ok (x :: l2)) by (rewrite Hp; by constructor).
  specialize (Hbest ltac:(rewrite Hp; by constructor) Hok' USIZE_BITS O 0 eq_refl ltac:(by left)).
  rewrite below_zero in Hbest by done. apply Hbest. lia.
Qed.
End Facts.
End SizeFacts.
