(* ===== verification/RawTableSet.v ===== *)
(** * Storing in the raw table

    The fallible growth of either part, and [set] on each of its paths. *)

From S2P Require Import Prelude Float64 StringUtils Constant Value Limits RawTable RawTableFacts RawTableGrow.
Import RawTable Datatypes(length) HashbrownFacts KeyFacts MapFacts TableFacts SizeFacts.

Module SetFacts.
Section Facts.
Context `{BuildProfile} {S : Type} `{AsBytes S} `{StringAddress S} `{Platform S} `{!PlatformLaws S}.
Context (K : CanonicalKey.t S -> Prop) (HK : consistent K).
Implicit Types (r : t (S:=S)) (k : CanonicalKey.t S) (v : Value.t S) (l : Memory.MemoryLimit).

(** A table of live keys in use, well formed *)
Definition good r : Prop := wf r /\ live_in K (map r).

(** Every key in use has the same value in both. *)
Definition same r r' : Prop := forall k, K k -> canonical k -> get_key r' k = get_key r k.

(** [r'] is [r] with [k] set to [v]. *)
Definition stored r k v r' : Prop := forall k', K k' -> canonical k' ->
  get_key r' k' = if CanonicalKey.eq k k' then v else get_key r k'.

Lemma same_trans r1 r2 r3 : same r1 r2 -> same r2 r3 -> same r1 r3.
Proof. intros H12 H23 k Hk Hc. by rewrite H23, H12. Qed.

Lemma stored_same r1 r2 r3 k v : same r1 r2 -> stored r2 k v r3 -> stored r1 k v r3.
Proof. intros H12 H23 k' Hk Hc. rewrite H23, H12 by done. done. Qed.

Lemma try_reserve_array_spec allocated n r l : wf r -> 0 <= n ->
  let '(res, (r', l')) := try_reserve_array allocated n r l in
  match res with
  | inl _ => exists cap, r' = mk (array r) cap (map r) /\ Z.of_nat (length (array r)) + n <= Z.of_nat cap /\
      (array_capacity r <= cap)%nat /\ Z.of_nat cap * size_of_value <= int_max i64
  | inr e => r' = r /\ TableError.is_out_of_memory e = true
  end.
Proof.
  intros [Hcap Hmax _ _] Hn. unfold try_reserve_array, len. case_bool; bool_to_prop.
  { exists (array_capacity r). split_and!; [by destruct r|lia|done..]. }
  destruct (Memory.check _ _ l) as [[] l']; [|done].
  destruct (vec_try_reserve _ _ n) as [cap|] eqn:Hv; [|done].
  destruct (vec_try_reserve_spec _ _ _ _ Hcap Hn Hv) as (? & ? & ?). by exists cap.
Qed.

Lemma try_grow_array_spec allocated n r l : good r -> 0 <= n ->
  exists res r' l', try_grow_array allocated n r l = Ok (res, (r', l')) /\ good r' /\ same r r' /\
    match res with
    | inl _ => Z.of_nat (length (array r)) + n <= Z.of_nat (length (array r'))
    | inr e => r' = r /\ TableError.is_out_of_memory e = true
    end.
Proof.
  intros [Hwf Hl] Hn. pose proof (try_reserve_array_spec allocated n r l Hwf Hn) as Hres.
  unfold try_grow_array. destruct (try_reserve_array _ _ _ _) as [[u|e] [r1 l1]].
  - destruct Hres as (cap & -> & Hc & Hle & Hm).
    assert (Hwf1 : wf (mk (array r) cap (map r))) by (destruct Hwf; split; cbn in *; [lia|done..]).
    destruct (take_array_keys_spec K _ HK Hwf1 Hl) as (r' & -> & Hwf' & Hl' & Hlen & Hsame).
    cbn in Hlen. eexists _, _, _. split; [reflexivity|]. split_and!; [done| |lia].
    intros k Hk Hc'. by rewrite Hsame.
  - destruct Hres as [-> He]. eexists _, _, _. split; [reflexivity|]. by split_and!.
Qed.

Lemma good_map r m : good r -> wf_map m -> live_in K m ->
  (forall i k v, Hashbrown.bucket m i = Some (Key.Live k, v) -> slot (array r) k = None) ->
  good (set_map m r).
Proof. intros [Hwf _] Hm Hl Hr. split; [|done]. destruct Hwf. by split. Qed.

Lemma same_map r m : good r -> good (set_map m r) ->
  (forall k v, K k -> v <> Value.Nil -> holds m k v <-> holds (map r) k v) -> same r (set_map m r).
Proof.
  intros [Hwf Hl] [Hwf' Hl'] Hh k Hk Hc. unfold get_key. cbn [array map set_map].
  destruct (slot (array r) k); [done|].
  apply (map_get_ext K); [done|by apply wf_hash|exact (wf_hash _ Hwf')|done..|]. intros v. by apply Hh.
Qed.

(** A map where [k] has been set, [k] not being in the array *)
Lemma stored_map r k v m : good r -> K k -> canonical k -> slot (array r) k = None ->
  updated K (map r) k v m -> good (set_map m r) /\ stored r k v (set_map m r).
Proof.
  intros Hg Hk Hc Hs [Hm Hl Hkeys Hh].
  assert (Hg' : good (set_map m r)).
  { apply good_map; [done..|]. intros i k' v' [He|(j & v'' & Hj)]%Hkeys.
    - by rewrite (slot_eq _ k' k He).
    - destruct Hg as [Hwf _]. by eapply wf_range. }
  split; [done|]. destruct Hg as [Hwf Hl0]. intros k' Hk' Hc'. unfold get_key. cbn [array map set_map].
  destruct (CanonicalKey.eq k k') eqn:He.
  - rewrite <- (slot_eq _ k k' He), Hs. destruct (Value.is_nil v) eqn:Hv.
    + destruct v; try done. destruct (Value.is_nil (map_get m k')) eqn:Hn; [by destruct (map_get m k')|].
      apply not_nil in Hn. assert (holds m k' (map_get m k')) as Hx by by apply (map_get_holds K).
      apply Hh in Hx; [|done..]. by rewrite He in Hx.
    + apply not_nil in Hv. apply (map_get_holds K); try done. apply Hh; [done..|]. by rewrite He.
  - destruct (slot (array r) k'); [done|]. apply (map_get_ext K); [done|by apply wf_hash|done..|].
    intros v' Hv'. rewrite Hh by done. by rewrite He.
Qed.

(** *** Room in the hash part *)

Lemma drop_nil_spec r : good r ->
  let m := Hashbrown.retain (fun e => negb (entry_nil e)) (map r) in
  all_live m = true /\ good (set_map m r) /\ same r (set_map m r) /\
  forall i e, Hashbrown.bucket m i = Some e -> is_Some (Key.live_key (fst e)).
Proof.
  intros Hg m. pose proof Hg as [Hwf Hl]. pose proof (wf_hash _ Hwf) as Hm.
  destruct (retain_wf K (map r) (fun e => negb (entry_nil e)) Hm Hl) as (Hm' & Hl' & Hb). fold m in Hm', Hl', Hb.
  assert (Hlive : forall i e, Hashbrown.bucket m i = Some e -> is_Some (Key.live_key (fst e))).
  { intros i [[k|p] v] [Hi He]%Hb; [by eexists|].
    apply (wf_dead _ Hm) in Hi. subst. done. }
  assert (Hg' : good (set_map m r)).
  { apply good_map; [done..|]. intros i k v [Hi _]%Hb. by eapply wf_range. }
  split_and!; [|done| |done].
  - unfold all_live. apply forallb_forall. intros e He%list_elem_of_In. apply elem_iter in He as [i Hi].
    unfold Key.is_dead_key. by destruct (Hlive i e Hi) as [? ->].
  - apply same_map; [done..|]. intros k v Hk Hv. unfold holds. split; intros (i & k' & Hi & He); exists i, k'.
    + apply Hb in Hi as [Hi _]. done.
    + split; [|done]. apply Hb. split; [done|]. unfold entry_nil. cbn. apply not_nil in Hv. by rewrite Hv.
Qed.

Lemma try_reserve_map_spec allocated n r l : good r -> (1 <= n)%nat ->
  exists res r' l', try_reserve_map allocated n r l = Ok (res, (r', l')) /\ good r' /\ same r r' /\
    array r' = array r /\
    (forall k, K k -> find_key (map r) k = None -> find_key (map r') k = None) /\
    match res with
    | inl _ => (Hashbrown.len (map r') < Hashbrown.capacity (map r'))%nat
    | inr e => TableError.is_out_of_memory e = true
    end.
Proof.
  intros Hg Hn. unfold try_reserve_map. destruct (Nat.leb_spec n (Hashbrown.capacity (map r) - Hashbrown.len (map r))).
  { eexists _, _, _. split; [reflexivity|]. split_and!; [done..|]. lia. }
  destruct (Memory.check _ _ l) as [[] l'].
  2:{ eexists _, _, _. split; [reflexivity|]. by split_and!. }
  destruct (drop_nil_spec r Hg) as (Hal & Hg1 & Hsame1 & Hlive).
  set (m := Hashbrown.retain _ _) in *. rewrite Hal. cbn [rust_assert mbind outcome_bind].
  pose proof Hg1 as [Hwf1 Hl1]. pose proof (wf_hash _ Hwf1) as Hm1. cbn in Hm1, Hl1.
  pose proof Hg as [Hwf Hl]. pose proof (wf_hash _ Hwf) as Hm.
  assert (Hnone : forall m' k, wf_map m' -> live_in K m' ->
            (forall i e, Hashbrown.bucket m' i = Some e -> exists j k', e = (Key.Live k', snd e) /\
               Hashbrown.bucket (map r) j = Some e) ->
            K k -> find_key (map r) k = None -> find_key m' k = None).
  { intros m' k Hm' Hl' Hsub Hk Hf. destruct (find_key m' k) as [[i e]|] eqn:Hf'; [|done].
    apply find_key_Some in Hf' as [Hi He]. destruct (Hsub i e Hi) as (j & k' & Hek & Hj).
    rewrite Hek in Hj, He. cbn in He. apply (wf_found _ Hm) in Hj as Hf0.
    rewrite (find_key_eq K _ k' k) in Hf0 by eauto. congruence. }
  assert (Hsubm : forall i e, Hashbrown.bucket m i = Some e -> exists j k', e = (Key.Live k', snd e) /\
            Hashbrown.bucket (map r) j = Some e).
  { intros i e Hi. destruct (Hlive i e Hi) as [k' Hk']. exists i, k'. destruct e as [[k0|] v0]; [|done].
    cbn in Hk'. injection Hk' as ->. split; [done|].
    destruct (retain_wf K (map r) (fun e => negb (entry_nil e)) Hm Hl) as (_ & _ & Hb). by apply Hb in Hi as [? _]. }
  destruct (Hashbrown.try_reserve m n entry_hash) as [m'|] eqn:Hres.
  - destruct (reserve_wf K m n m' HK Hm1 Hl1 Hlive Hres) as (Hm' & Hl' & Hcap & Hperm & Hh).
    assert (Hin : forall i e, Hashbrown.bucket m' i = Some e -> exists j, Hashbrown.bucket m j = Some e).
    { intros i e Hi. apply elem_iter. rewrite <- Hperm. apply elem_iter. eauto. }
    assert (Hg' : good (set_map m' r)).
    { apply good_map; [done..|]. intros i k v [j Hj]%Hin. by eapply (wf_range _ Hwf1). }
    eexists _, _, _. split; [reflexivity|]. split_and!; [done| |done| |].
    + apply (same_trans _ (set_map m r)); [done|]. by apply (same_map (set_map m r) m').
    + intros k Hk. apply Hnone; [done..| |done]. intros i e [j Hj]%Hin. by eapply Hsubm.
    + cbn [map set_map]. unfold Hashbrown.len in *. rewrite Hperm. lia.
  - eexists _, _, _. split; [reflexivity|]. split_and!; [done..| |done]. intros k Hk. by apply Hnone.
Qed.

(** *** The paths of [set] *)

(** Storing in the array *)
Lemma stored_array r k v i : good r -> K k -> canonical k -> slot (array r) k = Some i ->
  good (set_array (<[i := v]> (array r)) r) /\ stored r k v (set_array (<[i := v]> (array r)) r).
Proof.
  intros [Hwf Hl] Hk Hc Hs. destruct (slot_Some _ _ _ Hc Hs) as [-> Hi].
  assert (Hsl : forall k', slot (<[i := v]> (array r)) k' = slot (array r) k')
    by (intros; apply slot_length; by rewrite length_insert).
  split.
  - split; [|done]. destruct Hwf as [Hcap Hmax Hm Hr].
    split; cbn [array map array_capacity set_array]; [by rewrite length_insert|done..|].
    intros j k' v' Hj. rewrite Hsl. by eapply Hr.
  - intros k' Hk' Hc'. unfold get_key. cbn [array map set_array]. rewrite Hsl.
    destruct (CanonicalKey.eq _ k') eqn:He.
    + rewrite <- (slot_eq _ _ _ He), Hs. by rewrite list_lookup_insert_eq.
    + destruct (slot (array r) k') as [j|] eqn:Hs'; [|done].
      destruct (slot_Some _ _ _ Hc' Hs') as [-> Hj]. rewrite list_lookup_insert_ne; [done|].
      intros ->. by rewrite key_eq_refl in He.
Qed.

Lemma get_key_none r k : slot (array r) k = None -> find_key (map r) k = None ->
  get_key r k = Value.Nil.
Proof. unfold get_key, map_get. by intros -> ->. Qed.

(** An array index that is not there yet is a new candidate. *)
Lemma new_candidate r k x : good r -> K k -> canonical k -> slot (array r) k = None ->
  find_key (map r) k = None -> to_array_index (CanonicalKey.to_value k) = Some x ->
  index_ok x /\ Z.of_nat (length (array r)) <= x /\ x ∉ candidates r.
Proof.
  intros [Hwf Hl] Hk Hc Hs Hf Hx. destruct (array_index_key k x Hc Hx) as [-> Hx0].
  assert (Hlen : Z.of_nat (length (array r)) <= x).
  { replace x with (Z.of_nat (Z.to_nat x)) in Hs by lia. rewrite slot_integer in Hs.
    destruct (Nat.ltb_spec (Z.to_nat x) (length (array r))); [done|lia]. }
  split_and!; [|done|].
  - pose proof (machine_integer _ HK _ Hk) as Hi. unfold index_ok. revert Hi. int_lia.
  - unfold candidates. intros [Hin|(j & w & Hj%lookup_lt_Some & _ & ->)%elem_array_indices]%elem_of_app; [|lia].
    apply elem_hash_indices in Hin as (_ & w & _ & Hh); [|apply Hwf].
    destruct (holds_found K _ _ _ HK (wf_hash _ Hwf) Hl Hk Hh) as (j & k' & Hf' & _). congruence.
Qed.

(** What [set] promises of a key [k] on its way: it always ends well formed; on success the
    table is updated and the old value given; on an error it is as before. *)
Definition set_ok r k v (out : outcome ((Value.t S + TableError.t) * (RawTable.t * Memory.MemoryLimit))) : Prop :=
  exists res r' l', out = Ok (res, (r', l')) /\ good r' /\
  match res with
  | inl old => old = get_key r k /\ stored r k v r'
  | inr e => same r r' /\ TableError.is_out_of_memory e = true /\ v <> Value.Nil /\ get_key r k = Value.Nil
  end.

Lemma set_grow_array allocated r k v l x s : good r -> K k -> canonical k -> v <> Value.Nil ->
  slot (array r) k = None -> find_key (map r) k = None ->
  to_array_index (CanonicalKey.to_value k) = Some x -> Z.of_nat (length (array r)) <= x < s ->
  set_ok r k v
    ('(grown, (r, l)) ← try_grow_array allocated (s - len (array r)) r l;
     match grown with
     | inr e => Ok (inr e, (r, l))
     | inl _ =>
         match in_array (array r) (Some x) with
         | Some i =>
             _ ← rust_assert (Value.is_nil (default Value.Nil (array r !! i)));
             Ok (inl Value.Nil, (set_array (<[i := v]> (array r)) r, l))
         | None => Panic
         end
     end).
Proof.
  intros Hg Hk Hc Hv Hs Hf Hx Hxs. pose proof (get_key_none r k Hs Hf) as Hnil.
  destruct (try_grow_array_spec allocated (s - len (array r)) r l Hg) as (res & r' & l' & -> & Hg' & Hsame & Hres);
    [unfold len; lia|]. rewrite outcome_bind_Ok. destruct res as [u|e].
  2:{ destruct Hres as [-> He]. eexists _, _, _. split; [reflexivity|]. by split_and!. }
  destruct (in_array (array r') (Some x)) as [i|] eqn:Hi.
  2:{ revert Hi. unfold in_array, len in *. case_bool; [done|]. bool_to_prop. lia. }
  assert (Hs' : slot (array r') k = Some i) by (unfold slot; by rewrite Hx).
  pose proof (Hsame k Hk Hc) as Hget. rewrite Hnil in Hget. unfold get_key in Hget. rewrite Hs' in Hget.
  rewrite Hget. cbn [rust_assert Value.is_nil mbind outcome_bind].
  destruct (stored_array r' k v i Hg' Hk Hc Hs') as [Hg2 Hst].
  eexists _, _, _. split; [reflexivity|]. split_and!; [done..|]. by eapply stored_same.
Qed.

Lemma set_grow_map allocated r k v l : good r -> K k -> canonical k -> v <> Value.Nil ->
  slot (array r) k = None -> find_key (map r) k = None ->
  set_ok r k v
    ('(reserved, (r, l)) ← try_reserve_map allocated (Nat.max (Hashbrown.len (map r)) 1) r l;
     match reserved with
     | inr e => Ok (inr e, (r, l))
     | inl _ =>
         match Hashbrown.try_insert_no_grow (map r) (hash_one k) (Key.Live k, v) with
         | Some m => Ok (inl Value.Nil, (set_map m r, l))
         | None => Panic
         end
     end).
Proof.
  intros Hg Hk Hc Hv Hs Hf. pose proof (get_key_none r k Hs Hf) as Hnil.
  destruct (try_reserve_map_spec allocated (Nat.max (Hashbrown.len (map r)) 1) r l Hg)
    as (res & r' & l' & -> & Hg' & Hsame & Harr & Hnone & Hres); [lia|].
  rewrite outcome_bind_Ok. destruct res as [u|e].
  2:{ eexists _, _, _. split; [reflexivity|]. by split_and!. }
  destruct (Hashbrown.insert_fits (map r') (hash_one k) (Key.Live k, v) Hres) as [m Hm]. rewrite Hm.
  pose proof Hg' as [Hwf' Hl'].
  pose proof (insert_wf K (map r') k v m HK (wf_hash _ Hwf') Hl' Hk Hc (Hnone k Hk Hf) Hm) as Hup.
  destruct (stored_map r' k v m Hg' Hk Hc) as [Hg2 Hst]; [by rewrite Harr|done|].
  eexists _, _, _. split; [reflexivity|]. split_and!; [done..|]. by eapply stored_same.
Qed.

Lemma set_grow_spec allocated r k v l : good r -> K k -> canonical k -> v <> Value.Nil ->
  slot (array r) k = None -> find_key (map r) k = None ->
  set_ok r k v (set_grow allocated (to_array_index (CanonicalKey.to_value k)) k v r l).
Proof.
  intros Hg Hk Hc Hv Hs Hf. unfold set_grow. destruct (to_array_index _) as [x|] eqn:Hx.
  2:{ rewrite outcome_bind_Ok. by apply set_grow_map. }
  destruct (new_candidate r k x Hg Hk Hc Hs Hf Hx) as (Hok & Hlen & Hnew). destruct Hg as [Hwf Hl].
  destruct (optimal_size_spec K r x HK Hwf Hl Hok Hnew) as (s & -> & _). rewrite !outcome_bind_Ok.
  case_bool; bool_to_prop; [by eapply set_grow_array|by apply set_grow_map].
Qed.

Lemma set_in_map_spec allocated r k v l : good r -> K k -> canonical k -> slot (array r) k = None ->
  set_ok r k v (set_in_map allocated (to_array_index (CanonicalKey.to_value k)) k v r l).
Proof.
  intros Hg Hk Hc Hs. pose proof Hg as [Hwf Hl]. pose proof (wf_hash _ Hwf) as Hm.
  assert (Hget : forall i e0 v0, find_key (map r) k = Some (i, (e0, v0)) -> get_key r k = v0).
  { intros i e0 v0 Hf. unfold get_key, map_get. by rewrite Hs, Hf. }
  unfold set_in_map. destruct (Value.is_nil v) eqn:Hv.
  - destruct v; try done. destruct (find_key (map r) k) as [[i [e0 v0]]|] eqn:Hf.
    + pose proof (written_kill K _ _ _ _ _ Hm Hl Hf) as Hw.
      pose proof (write_updated K _ _ _ _ _ _ _ HK Hm Hl Hk Hf Hw) as Hup.
      destruct (stored_map r k _ _ Hg Hk Hc Hs Hup) as [Hg' Hst].
      eexists _, _, _. split; [reflexivity|]. split_and!; [done| |done]. symmetry. by eapply Hget.
    + eexists _, _, _. split; [reflexivity|]. split_and!; [done|by rewrite get_key_none|].
      intros k' Hk' Hc'. destruct (CanonicalKey.eq k k') eqn:He; [|done].
      apply get_key_none; [by rewrite <- (slot_eq _ _ _ He)|]. by rewrite <- (find_key_eq K _ k k').
  - apply not_nil in Hv. destruct (find_key (map r) k) as [[i [e0 v0]]|] eqn:Hf.
    + pose proof (written_set K _ _ _ _ _ v Hm Hl Hk Hc Hf) as Hw.
      pose proof (write_updated K _ _ _ _ _ _ _ HK Hm Hl Hk Hf Hw) as Hup.
      destruct (stored_map r k _ _ Hg Hk Hc Hs Hup) as [Hg' Hst].
      eexists _, _, _. split; [reflexivity|]. split_and!; [done| |done]. symmetry. by eapply Hget.
    + destruct (Hashbrown.try_insert_no_grow _ _ _) as [m|] eqn:Hins; [|by apply set_grow_spec].
      pose proof (insert_wf K _ _ _ _ HK Hm Hl Hk Hc Hf Hins) as Hup.
      destruct (stored_map r k _ _ Hg Hk Hc Hs Hup) as [Hg' Hst].
      eexists _, _, _. split; [reflexivity|]. split_and!; [done|by rewrite get_key_none|done].
Qed.

(** [set] under a key that is not refused *)
Lemma set_key_spec allocated r key k v l : good r -> K k -> CanonicalKey.new key = Ok (inl k) ->
  set_ok r k v (set allocated key v r l).
Proof.
  intros Hg Hk Hnew. destruct (key_new key) as (res & Hres & Hspec).
  rewrite Hnew in Hres. injection Hres as <-. destruct Hspec as [Hc Hidx].
  unfold set. rewrite <- Hidx. fold (slot (array r) k). destruct (slot (array r) k) as [i|] eqn:Hs.
  - destruct (stored_array r k v i Hg Hk Hc Hs) as [Hg' Hst].
    eexists _, _, _. split; [reflexivity|]. split_and!; [done| |done]. unfold get_key. by rewrite Hs.
  - rewrite Hnew, outcome_bind_Ok. by apply set_in_map_spec.
Qed.
End Facts.
End SetFacts.
