(* ===== verification/RawTableIter.v ===== *)
(** * Length and iteration of the raw table *)

From S2P Require Import Prelude Float64 StringUtils Constant Value Limits RawTable RawTableFacts RawTableGrow RawTableSet.
Import RawTable Datatypes(length) HashbrownFacts KeyFacts MapFacts TableFacts SetFacts.

Module IterFacts.
Section Facts.
Context `{BuildProfile} {S : Type} `{AsBytes S} `{StringAddress S} `{Platform S} `{!PlatformLaws S}.
Context (K : CanonicalKey.t S -> Prop) (HK : consistent K).
Implicit Types (r : t (S:=S)) (k : CanonicalKey.t S) (v : Value.t S) (a : list (Value.t S)).

(** ** Borders *)

Lemma binary_search_spec fuel min max is_nil : min < max -> max - min <= 2 ^ Z.of_nat fuel ->
  exists n, binary_search fuel min max is_nil = Some n /\ min <= n < max /\
    (n = min \/ is_nil n = false) /\ (n + 1 = max \/ is_nil (n + 1) = true).
Proof.
  revert min max. induction fuel as [|fuel IH]; intros min max Hlt Hf; cbn [binary_search].
  { case_bool; bool_to_prop; [cbn in Hf; lia|]. exists min. split_and!; [done|lia..|by left|left; lia]. }
  case_bool; bool_to_prop; [|exists min; split_and!; [done|lia..|by left|left; lia]].
  rewrite Nat2Z.inj_succ, Z.pow_succ_r in Hf by lia.
  pose proof (Z.div_lt_upper_bound (max - min) 2 (max - min) ltac:(lia) ltac:(lia)).
  pose proof (Z.div_le_lower_bound (max - min) 2 1 ltac:(lia) ltac:(lia)).
  pose proof (Z.mul_div_le (max - min) 2 ltac:(lia)).
  pose proof (Z.mul_succ_div_gt (max - min) 2 ltac:(lia)).
  destruct (is_nil (min + (max - min) / 2)) eqn:Hm.
  - destruct (IH min (min + (max - min) / 2)) as (n & -> & Hn & Hlo & Hhi); [lia..|].
    exists n. split_and!; [done|lia|lia|done|]. right. destruct Hhi as [->|]; done.
  - destruct (IH (min + (max - min) / 2) max) as (n & -> & Hn & Hlo & Hhi); [lia..|].
    exists n. split_and!; [done|lia|lia| |done]. right. destruct Hlo as [->|]; done.
Qed.

Lemma double_spec r fuel max : 1 <= max <= int_max i64 ->
  2 ^ 64 <= max * 2 ^ Z.of_nat fuel \/ (max = int_max i64 /\ (0 < fuel)%nat) ->
  exists res, double fuel r max = Some res /\
    match res with
    | inl b => b = int_max i64 /\ map_nil r b = false
    | inr max' => max <= max' <= int_max i64 /\ map_nil r max' = true
    end.
Proof.
  revert max. induction fuel as [|fuel IH]; intros max Hm Hf.
  { exfalso. destruct Hf as [Hf|[_ Hf]]; [|lia]. revert Hm Hf. change (2 ^ Z.of_nat 0) with 1. int_lia. }
  cbn [double]. destruct (map_nil r max) eqn:Hn; [by eexists; split; [reflexivity|split; [lia|]]|].
  case_bool; bool_to_prop; [eexists; split; [reflexivity|split; [done|congruence]]|].
  destruct Hf as [Hf|[? _]]; [|done]. rewrite Nat2Z.inj_succ, Z.pow_succ_r in Hf by lia.
  destruct (checked i64 (max * 2)) as [d|] eqn:Hd.
  - apply checked_Some in Hd as [Hin ->].
    destruct (IH (max * 2)) as (res & -> & Hres); [revert Hin; int_lia|left; lia|].
    eexists. split; [reflexivity|]. destruct res; [done|]. split; [lia|tauto].
  - apply checked_None in Hd. destruct (IH (int_max i64)) as (res & -> & Hres); [int_lia| |].
    { right. split; [done|]. destruct fuel as [|fuel]; [|lia]. exfalso.
      revert Hf Hd Hm. change (2 ^ Z.of_nat 0) with 1. int_lia. }
    eexists. split; [reflexivity|]. destruct res; [done|]. split; [revert Hm; int_lia|tauto].
Qed.

(** The value under a positive integer *)
Abbreviation at_int r i := (get_key r (CanonicalKey.Integer i)).

Lemma array_nil_get r i : 0 < i <= Z.of_nat (length (array r)) ->
  array_nil r i = Value.is_nil (at_int r i).
Proof.
  intros Hi. unfold array_nil, get_key. replace i with (Z.of_nat (Z.to_nat (i - 1)) + 1) at 2 by lia.
  rewrite slot_integer, (proj2 (Nat.ltb_lt _ _)) by lia. done.
Qed.

Lemma map_nil_get r i : Z.of_nat (length (array r)) < i -> map_nil r i = Value.is_nil (at_int r i).
Proof.
  intros Hi. unfold map_nil, get_key, map_get. replace i with (Z.of_nat (Z.to_nat (i - 1)) + 1) at 2 by lia.
  rewrite slot_integer. rewrite (proj2 (Nat.ltb_ge _ _)) by lia.
  by destruct (find_key _ _) as [[? [? ?]]|].
Qed.

Lemma is_empty_get r i : Hashbrown.is_empty (map r) = true -> Z.of_nat (length (array r)) < i ->
  at_int r i = Value.Nil.
Proof.
  intros He Hi. unfold Hashbrown.is_empty, Hashbrown.len in He. apply Nat.eqb_eq, nil_length_inv in He.
  pose proof (map_nil_get r i Hi) as Hn. unfold map_nil in Hn.
  destruct (find_key _ _) as [[j [e v]]|] eqn:Hf; [|by destruct (at_int r i)].
  apply find_key_Some in Hf as [Hj _]. assert ((e, v) ∈ Hashbrown.iter (map r)) as Hin by (apply elem_iter; eauto).
  rewrite He in Hin. by apply not_elem_of_nil in Hin.
Qed.

Definition border r (n : Z) : Prop :=
  0 <= n <= int_max i64 /\ (n = 0 \/ at_int r n <> Value.Nil) /\
  (n = int_max i64 \/ at_int r (n + 1) = Value.Nil).

Lemma is_nil_true v : Value.is_nil v = true <-> v = Value.Nil.
Proof. by destruct v. Qed.

Lemma length_border r : good K r -> exists n, RawTable.length r = Some n /\ border r n.
Proof.
  intros [Hwf _]. pose proof (wf_capacity _ Hwf) as Hcap. pose proof (wf_max _ Hwf) as Hmax.
  set (n := Z.of_nat (length (array r))). assert (0 <= n < 2 ^ 62) as Hn by lia.
  assert (HM : int_max i64 = 2 ^ 63 - 1) by done.
  assert (Hfuel : Z.of_nat LENGTH_FUEL = 64) by done.
  unfold RawTable.length, len. fold n. revert Hfuel. generalize LENGTH_FUEL as fuel. intros fuel Hfuel.
  assert (Hlast : n = 0 \/ (0 <? n) && array_nil r n = true \/ at_int r n <> Value.Nil).
  { destruct (Z.ltb_spec 0 n); [right|left; lia]. rewrite array_nil_get by lia.
    destruct (Value.is_nil (at_int r n)) eqn:Hx; [by left|right]. by apply not_nil. }
  destruct ((0 <? n) && array_nil r n) eqn:Hend.
  { apply andb_true_iff in Hend as [Hpos%Z.ltb_lt Hend].
    destruct (binary_search_spec fuel 0 n (array_nil r)) as (b & -> & Hb & Hlo & Hhi); [lia|rewrite Hfuel; lia|].
    exists b. split; [done|]. split_and!; [lia..| |].
    - destruct Hlo as [->|Hlo]; [by left|]. destruct (decide (b = 0)); [by left|]. right.
      rewrite array_nil_get in Hlo by lia. by apply not_nil.
    - right. apply is_nil_true. destruct Hhi as [->|Hhi]; rewrite <- array_nil_get by lia; done. }
  assert (Hn0 : n = 0 \/ at_int r n <> Value.Nil) by (destruct Hlast as [|[|]]; [by left|done|by right]).
  destruct (Hashbrown.is_empty (map r)) eqn:Hem.
  { exists n. split; [done|]. split_and!; [lia..|done|right]. apply is_empty_get; [done|lia]. }
  rewrite checked_in by int_lia.
  destruct (double_spec r fuel (n + 1)) as ([b|max] & -> & Hres); [lia|left; rewrite Hfuel; lia|..].
  { destruct Hres as [-> Hb]. eexists. split; [done|]. split_and!; [lia..| |by left].
    right. rewrite map_nil_get in Hb by lia. by apply not_nil. }
  destruct Hres as [Hmx Hnil].
  destruct (binary_search_spec fuel n max (map_nil r)) as (b & -> & Hb & Hlo & Hhi); [lia|rewrite Hfuel; lia|].
  exists b. split; [done|]. split_and!; [lia..| |].
  - destruct Hlo as [->|Hlo]; [done|]. destruct (decide (b = n)) as [->|]; [done|].
    right. rewrite map_nil_get in Hlo by lia. by apply not_nil.
  - right. apply is_nil_true. destruct Hhi as [->|Hhi]; rewrite <- map_nil_get by lia; done.
Qed.

(** ** Iteration *)

Abbreviation pair := (Value.t S * Value.t S)%type.

(** The elements of the array from index [i] on, and those in some buckets *)
Fixpoint array_rest (i : nat) a : list pair :=
  match a with
  | [] => []
  | v :: a =>
      (if Value.is_nil v then [] else [(Value.Integer (Z.of_nat (i + 1)), v)]) ++ array_rest (i + 1) a
  end.

Definition element (e : Key.t S * Value.t S) : option pair :=
  match e with
  | (Key.Live k, v) => if Value.is_nil v then None else Some (CanonicalKey.to_value k, v)
  | _ => None
  end.

Definition map_rest (m : Hashbrown.table (Key.t S * Value.t S)) (bs : list nat) : list pair :=
  omap (fun i => Hashbrown.bucket m i ≫= element) bs.

(** All elements in the order of iteration *)
Definition elements r : list pair :=
  array_rest 0 (array r) ++ map_rest (map r) (seq 0 (Hashbrown.buckets (map r))).

(** The elements after a key, if there is such a place *)
Definition after r (key : Value.t S) : option (list pair) :=
  match start_index r key with
  | Some i =>
      Some (array_rest i (drop i (array r)) ++ map_rest (map r) (seq 0 (Hashbrown.buckets (map r))))
  | None =>
      match CanonicalKey.new key with
      | Ok (inl k) =>
          match find_key (map r) k with
          | Some (b, _) =>
              Some (map_rest (map r) (seq (b + 1) (Hashbrown.buckets (map r) - (b + 1))))
          | None => None
          end
      | _ => None
      end
  end.

Lemma scan_array_rest i a : scan_array i a = head (array_rest i a).
Proof.
  revert i. induction a as [|v a IH]; intros i; cbn; [done|].
  destruct (Value.is_nil v); [apply IH|done].
Qed.

Lemma scan_map_rest m bs : wf_map m ->
  scan_map m bs = Ok (match map_rest m bs with (k, v) :: _ => NextValue.Found k v | [] => NextValue.Last end).
Proof.
  intros Hm. unfold map_rest. induction bs as [|i bs IH]; cbn; [done|].
  destruct (Hashbrown.bucket m i) as [[e v]|] eqn:Hi; cbn; [|exact IH].
  destruct e as [k|p]; cbn; [by destruct (Value.is_nil v)|].
  apply (wf_dead _ Hm) in Hi. subst. exact IH.
Qed.

(** [next] gives the first element after the key. *)
Lemma next_after r key : wf r -> next r key = Ok
  match after r key with
  | Some ((k, v) :: _) => NextValue.Found k v
  | Some [] => NextValue.Last
  | None => NextValue.NotFound
  end.
Proof.
  intros Hwf. pose proof (wf_hash _ Hwf) as Hm. unfold next, after.
  destruct (start_index r key) as [i|].
  - rewrite scan_array_rest. destruct (array_rest i (drop i (array r))) as [|[k v] l]; cbn; [|done].
    rewrite scan_map_rest by done. by destruct (map_rest _ _) as [|[]].
  - destruct (key_new key) as (res & -> & _). rewrite outcome_bind_Ok. destruct res as [k|]; [|done].
    destruct (find_key (map r) k) as [[b e]|]; [|done]. rewrite scan_map_rest by done.
    by destruct (map_rest _ _) as [|[]].
Qed.

Lemma after_nil r : after r Value.Nil = Some (elements r).
Proof. unfold after. cbn. by rewrite drop_0. Qed.

(** *** Going on from an element *)

(** [next] goes on from each element of [l] with those after it. *)
Fixpoint linked r (l : list pair) : Prop :=
  match l with
  | [] => True
  | (k, v) :: l => after r k = Some l /\ linked r l
  end.

Lemma linked_map r (n i : nat) : good K r -> (i + n = Hashbrown.buckets (map r))%nat ->
  linked r (map_rest (map r) (seq i n)).
Proof.
  intros [Hwf Hl]. pose proof (wf_hash _ Hwf) as Hm. revert i. induction n as [|n IH]; intros i Hi; cbn; [done|].
  specialize (IH (Datatypes.S i) ltac:(lia)).
  destruct (Hashbrown.bucket (map r) i) as [[[k|p] v]|] eqn:Hb; cbn; [|exact IH..].
  destruct (Value.is_nil v); [exact IH|]. split; [|exact IH].
  pose proof (wf_range _ Hwf _ _ _ Hb) as Hs. pose proof (wf_found _ Hm _ _ _ Hb) as Hf.
  pose proof (wf_canonical _ Hm _ _ _ Hb) as Hc. unfold after.
  assert (start_index r (CanonicalKey.to_value k) = None) as ->.
  { unfold start_index, slot in *. destruct (to_array_index _); [by rewrite Hs|by destruct k]. }
  rewrite Hc, Hf. do 3 f_equal; lia.
Qed.

Lemma linked_array r i a l : drop i (array r) = a -> l = map_rest (map r) (seq 0 (Hashbrown.buckets (map r))) ->
  linked r l -> linked r (array_rest i a ++ l).
Proof.
  intros Ha -> Hl. revert i Ha. induction a as [|v a IH]; intros i Ha; cbn; [done|].
  assert (Hd : drop (i + 1) (array r) = a).
  { rewrite Nat.add_comm, <- skipn_skipn, Ha. done. }
  specialize (IH (i + 1)%nat Hd). destruct (Value.is_nil v); [exact IH|]. split; [|exact IH].
  unfold after. assert (Hlt : (i < length (array r))%nat).
  { destruct (Nat.lt_ge_cases i (length (array r))) as [|Hge]; [done|]. rewrite drop_ge in Ha by done. done. }
  assert (start_index r (Value.Integer (Z.of_nat (i + 1))) = Some (i + 1)%nat) as ->; [|by rewrite Hd].
  unfold start_index. pose proof (slot_integer (array r) i) as Hs.
  rewrite (proj2 (Nat.ltb_lt _ _) Hlt) in Hs. unfold slot in Hs. cbn [CanonicalKey.to_value] in Hs.
  replace (Z.of_nat (i + 1)) with (Z.of_nat i + 1) by lia.
  destruct (to_array_index (Value.Integer (Z.of_nat i + 1))); [by rewrite Hs|done].
Qed.

Lemma elements_linked r : good K r -> linked r (elements r).
Proof.
  intros Hg. apply linked_array; [by rewrite drop_0|done|]. apply linked_map; [done|lia].
Qed.

Lemma linked_after r key l : good K r -> after r key = Some l -> linked r l.
Proof.
  intros Hg. unfold after. destruct (start_index r key) as [i|].
  - intros [= <-]. apply linked_array; [done..|]. apply linked_map; [done|lia].
  - destruct (CanonicalKey.new key) as [[k|]|]; [|done..].
    destruct (find_key (map r) k) as [[b e]|] eqn:Hf; [|done]. intros [= <-].
    apply find_key_Some in Hf as [Hb _]. apply Hashbrown.bucket_lt in Hb. apply linked_map; [done|lia].
Qed.

(** *** The elements are the contents *)

Lemma elem_array_rest i a kv v : (kv, v) ∈ array_rest i a <->
  exists j, a !! j = Some v /\ v <> Value.Nil /\ kv = Value.Integer (Z.of_nat (i + j) + 1).
Proof.
  revert i. induction a as [|w a IH]; intros i; cbn.
  { rewrite elem_of_nil. split; [done|]. intros (j & ? & _). by destruct j. }
  rewrite elem_of_app, IH. split.
  - intros [Hw|(j & Hj & Hv & ->)].
    + destruct (Value.is_nil w) eqn:Hn; [by apply not_elem_of_nil in Hw|].
      apply list_elem_of_singleton in Hw. injection Hw as -> ->. exists O.
      split_and!; [done|by apply not_nil|f_equal; lia].
    + exists (Datatypes.S j). split_and!; [done..|f_equal; lia].
  - intros ([|j] & Hj & Hv & ->).
    + injection Hj as ->. left. apply not_nil in Hv. rewrite Hv. apply list_elem_of_singleton. do 2 f_equal. lia.
    + right. exists j. split_and!; [done..|f_equal; lia].
Qed.

Lemma elem_map_rest m bs kv v : (kv, v) ∈ map_rest m bs <->
  exists i k, i ∈ bs /\ Hashbrown.bucket m i = Some (Key.Live k, v) /\ v <> Value.Nil /\
    kv = CanonicalKey.to_value k.
Proof.
  unfold map_rest. rewrite list_elem_of_omap. split.
  - intros (i & Hi & ([e w] & Hb & He)%bind_Some). destruct e as [k|]; [|done]. cbn in He.
    destruct (Value.is_nil w) eqn:Hw; [done|]. injection He as <- <-. exists i, k.
    split_and!; [done..|by apply not_nil|done].
  - intros (i & k & Hi & Hb & Hv & ->). exists i. split; [done|]. rewrite Hb. cbn.
    apply not_nil in Hv. by rewrite Hv.
Qed.

Lemma to_value_inj k k' : CanonicalKey.to_value k = CanonicalKey.to_value k' -> k = k'.
Proof. by destruct k, k'; intros [= ->]. Qed.

Lemma elem_elements r k v : good K r -> K k -> canonical k -> v <> Value.Nil ->
  get_key r k = v <-> exists k', (CanonicalKey.to_value k', v) ∈ elements r /\ canonical k' /\
    CanonicalKey.eq k' k = true.
Proof.
  intros [Hwf Hl] Hk Hc Hv. pose proof (wf_hash _ Hwf) as Hm. unfold get_key, elements. split.
  - destruct (slot (array r) k) as [i|] eqn:Hs.
    + destruct (slot_Some _ _ _ Hc Hs) as [-> Hi]. intros Hget.
      exists (CanonicalKey.Integer (Z.of_nat i + 1)). split_and!; [|done|apply key_eq_refl].
      apply elem_of_app. left. apply elem_array_rest. exists i. split_and!; [|done..].
      destruct (lookup_lt_is_Some_2 (array r) i Hi) as [w Hw]. rewrite Hw in *. by subst.
    + intros (i & k' & Hb & He)%(map_get_holds K); [|done..]. exists k'.
      split_and!; [|by eapply wf_canonical|done]. apply elem_of_app. right. apply elem_map_rest.
      exists i, k'. split_and!; [|done..]. apply elem_of_seq. apply Hashbrown.bucket_lt in Hb. lia.
  - intros (k' & [(j & Hj & _ & Heq)%elem_array_rest|(i & k2 & _ & Hb & _ & Heq)%elem_map_rest]%elem_of_app & _ & He).
    + apply (to_value_inj _ (CanonicalKey.Integer _)) in Heq as ->. cbn [Nat.add] in He.
      rewrite <- (slot_eq _ _ _ He), slot_integer, (proj2 (Nat.ltb_lt _ _)) by by eapply lookup_lt_Some.
      by rewrite Hj.
    + apply to_value_inj in Heq as ->. rewrite <- (slot_eq _ _ _ He), (wf_range _ Hwf _ _ _ Hb).
      apply (map_get_holds K); try done. by exists i, k2.
Qed.

Lemma NoDup_fmap_omap {A B C} (f : A -> option B) (g : B -> C) (l : list A) : NoDup l ->
  (forall x y (u w : B), x ∈ l -> y ∈ l -> f x = Some u -> f y = Some w -> g u = g w -> x = y) ->
  NoDup (g <$> omap f l).
Proof.
  intros Hl Hf. replace (g <$> omap f l) with (omap (fun x => g <$> f x) l).
  - apply SizeFacts.NoDup_omap; [done|]. intros x y z Hx Hy (a & Ha & ->)%fmap_Some_1 (b & Hb & Hz)%fmap_Some_1.
    by eapply Hf.
  - clear. induction l as [|x l IH]; cbn; [done|]. destruct (f x); cbn; by rewrite IH.
Qed.

Lemma elements_NoDup r : good K r -> NoDup (fst <$> elements r).
Proof.
  intros [Hwf Hl]. pose proof (wf_hash _ Hwf) as Hm. unfold elements. rewrite fmap_app.
  apply NoDup_app. split_and!.
  - generalize 0%nat as i. induction (array r) as [|v a IH]; intros i; cbn; [constructor|].
    destruct (Value.is_nil v); [apply IH|]. cbn. constructor; [|apply IH].
    intros ([kv w] & Heq & (j & _ & _ & ->)%elem_array_rest)%list_elem_of_fmap. injection Heq. lia.
  - intros kv ([? v] & -> & (j & Hj & _ & ->)%elem_array_rest)%list_elem_of_fmap
      ([? w] & Heq & (i & k & _ & Hb & _ & ->)%elem_map_rest)%list_elem_of_fmap. cbn in Heq.
    apply (to_value_inj (CanonicalKey.Integer _)) in Heq as <-. apply (wf_range _ Hwf) in Hb.
    cbn [Nat.add] in Hb. rewrite slot_integer, (proj2 (Nat.ltb_lt _ _)) in Hb by by eapply lookup_lt_Some. done.
  - apply NoDup_fmap_omap; [apply NoDup_seq|].
    intros i j [k v] [k' v'] _ _ (e & Hi & He)%bind_Some (e' & Hj & He')%bind_Some Heq. cbn in Heq. subst k'.
    destruct e as [[k1|] w]; cbn in He; [|done]. destruct e' as [[k2|] w']; cbn in He'; [|done].
    destruct (Value.is_nil w); [done|]. destruct (Value.is_nil w'); [done|].
    injection He as <- <-. injection He' as Heq <-. apply to_value_inj in Heq as ->.
    apply (wf_found _ Hm) in Hi, Hj. congruence.
Qed.

(** *** Removal on the way *)

(** The elements under other keys than [k0] *)
Definition other k0 (e : pair) : Prop :=
  match CanonicalKey.new (fst e) with Ok (inl k) => CanonicalKey.eq k k0 = false | _ => True end.

#[export] Instance other_dec k0 e : Decision (other k0 e).
Proof. unfold other. destruct (CanonicalKey.new (fst e)) as [[]|]; apply _. Defined.

Lemma other_key k0 k v : canonical k -> other k0 (CanonicalKey.to_value k, v) <-> CanonicalKey.eq k k0 = false.
Proof. intros Hc. unfold other. cbn [fst]. by rewrite Hc. Qed.

Lemma filter_all {A} (P : A -> Prop) `{forall x, Decision (P x)} (l : list A) :
  (forall x, x ∈ l -> P x) -> filter P l = l.
Proof.
  induction l as [|x l IH]; intros Hp; [done|]. rewrite filter_cons, decide_True by (apply Hp; by left).
  f_equal. apply IH. intros. apply Hp. by right.
Qed.

Lemma array_rest_remove (n i : nat) a :
  array_rest i (if (i <=? n)%nat then <[(n - i)%nat := Value.Nil]> a else a) =
  filter (other (CanonicalKey.Integer (Z.of_nat n + 1))) (array_rest i a).
Proof.
  revert i. induction a as [|v a IH]; intros i; [by destruct (i <=? n)%nat|]. cbn [array_rest].
  rewrite filter_app. specialize (IH (i + 1)%nat).
  assert (Hhead : forall w, other (CanonicalKey.Integer (Z.of_nat n + 1)) (Value.Integer (Z.of_nat (i + 1)), w) <-> i <> n).
  { intros w. unfold other. cbn [fst CanonicalKey.new CanonicalKey.eq]. rewrite Z.eqb_neq. lia. }
  destruct (Nat.leb_spec i n) as [Hle|Hgt].
  - destruct (decide (i = n)) as [->|Hne].
    + rewrite Nat.sub_diag. cbn [insert list_insert array_rest Value.is_nil app]. rewrite (proj2 (Nat.leb_gt _ _)) in IH by lia.
      rewrite <- IH. destruct (Value.is_nil v); [done|]. rewrite filter_cons, decide_False; [done|].
      rewrite Hhead. lia.
    + replace (n - i)%nat with (Datatypes.S (n - (i + 1))) by lia. cbn [insert list_insert array_rest].
      rewrite (proj2 (Nat.leb_le _ _)) in IH by lia. rewrite <- IH. f_equal.
      destruct (Value.is_nil v); [done|]. by rewrite filter_cons, decide_True by by rewrite Hhead.
  - rewrite (proj2 (Nat.leb_gt _ _)) in IH by lia. cbn [array_rest]. rewrite <- IH. f_equal.
    destruct (Value.is_nil v); [done|]. rewrite filter_cons, decide_True by (rewrite Hhead; lia). done.
Qed.

Lemma drop_remove (n i : nat) a : drop i (<[n := Value.Nil]> a) =
  if (i <=? n)%nat then <[(n - i)%nat := Value.Nil]> (drop i a) else drop i a.
Proof.
  destruct (Nat.leb_spec i n); [by rewrite drop_insert_ge|by rewrite drop_insert_lt].
Qed.

Lemma start_index_length r r' key : length (array r') = length (array r) ->
  start_index r' key = start_index r key.
Proof. unfold start_index, in_array, len. by intros ->. Qed.

Lemma array_rest_other a k0 j : slot a k0 = None ->
  filter (other k0) (array_rest j (drop j a)) = array_rest j (drop j a).
Proof.
  intros Hs. apply filter_all. intros [kv v] (n & Hn & _ & ->)%elem_array_rest. rewrite lookup_drop in Hn.
  change (Value.Integer (Z.of_nat (j + n) + 1)) with
    (CanonicalKey.to_value (CanonicalKey.Integer (Z.of_nat (j + n) + 1) : CanonicalKey.t S)).
  apply other_key; [done|]. apply not_true_is_false. intros He.
  rewrite <- (slot_eq _ _ _ He), slot_integer, (proj2 (Nat.ltb_lt _ _)) in Hs by by eapply lookup_lt_Some. done.
Qed.

Lemma map_rest_other r k0 bs : wf r -> (forall i k v, Hashbrown.bucket (map r) i = Some (Key.Live k, v) ->
    CanonicalKey.eq k k0 = false) -> filter (other k0) (map_rest (map r) bs) = map_rest (map r) bs.
Proof.
  intros Hwf Hne. apply filter_all. intros [kv v] (i & k & _ & Hb & _ & ->)%elem_map_rest.
  apply other_key; [by eapply wf_canonical, Hb; apply wf_hash|by eapply Hne].
Qed.

Lemma after_remove_array r key k0 i : good K r -> canonical k0 -> slot (array r) k0 = Some i ->
  after (set_array (<[i := Value.Nil]> (array r)) r) key = filter (other k0) <$> after r key.
Proof.
  intros [Hwf Hl] Hc Hs. unfold after. rewrite (start_index_length r) by (cbn; by rewrite length_insert).
  assert (Hmap : forall bs, map_rest (map r) bs = filter (other k0) (map_rest (map r) bs)).
  { intros bs. symmetry. apply map_rest_other; [done|]. intros j k v Hb. apply not_true_is_false. intros He.
    rewrite <- (slot_eq _ _ _ He), (wf_range _ Hwf _ _ _ Hb) in Hs. done. }
  destruct (slot_Some _ _ _ Hc Hs) as [-> Hi]. cbn [array map set_array].
  destruct (start_index r key) as [j|]; cbn.
  - rewrite filter_app, <- Hmap, <- array_rest_remove, drop_remove. done.
  - destruct (CanonicalKey.new key) as [[k|]|]; [|done..]. destruct (find_key (map r) k) as [[b e]|]; [|done].
    cbn. by rewrite <- Hmap.
Qed.

(** Killing the entry of a key moves no entry. *)
Lemma find_key_killed m k0 i e0 v0 k : wf_map m -> live_in K m -> K k0 -> K k ->
  find_key m k0 = Some (i, (e0, v0)) ->
  fst <$> find_key (Hashbrown.write m i (default e0 (Key.kill e0), Value.Nil)) k = fst <$> find_key m k.
Proof.
  intros Hm Hl Hk0 Hk Hf. pose proof (find_key_Some _ _ _ _ Hf) as [Hi He0]. cbn in He0.
  set (e := default e0 (Key.kill e0)). set (m' := Hashbrown.write m i (e, Value.Nil)).
  destruct (Hashbrown.write_spec m i (e, Value.Nil) ltac:(eauto)) as (_ & _ & Hp & Hb). fold m' in Hp, Hb.
  assert (Hrest : forall j, j <> i -> Hashbrown.bucket m' j = Hashbrown.bucket m j)
    by (intros j Hj; by rewrite Hb, decide_False).
  assert (Hat : Hashbrown.bucket m' i = Some (e, Value.Nil)) by (by rewrite Hb, decide_True).
  assert (Htest : Key.eq e k = Key.eq e0 k).
  { unfold e. destruct e0 as [ke|p]; [|done]. cbn. destruct (CanonicalKey.ptr ke) as [p|] eqn:Hpt; [|done]. cbn.
    assert (K ke) as Hke by by eapply Hl. cbn. destruct (CanonicalKey.eq ke k) eqn:Hek.
    - apply bool_decide_eq_true. by rewrite <- (interned _ HK ke k).
    - apply bool_decide_eq_false. intros Hkp. rewrite (one_object _ HK ke k p) in Hek by done. done. }
  unfold find_key, Hashbrown.find. rewrite Hp. generalize (Hashbrown.probe m (hash_one k)) as l. intros l.
  induction l as [|j l IH]; cbn; [done|]. destruct (decide (j = i)) as [->|Hj].
  - rewrite Hat, Hi. cbn. rewrite Htest. by destruct (Key.eq e0 k).
  - rewrite Hrest by done. destruct (Hashbrown.bucket m j) as [e'|]; [|done].
    by destruct (Key.eq (fst e') k).
Qed.

Lemma map_rest_killed m k0 i e0 v0 bs : wf_map m -> live_in K m -> K k0 ->
  find_key m k0 = Some (i, (e0, v0)) ->
  map_rest (Hashbrown.write m i (default e0 (Key.kill e0), Value.Nil)) bs =
  filter (other k0) (map_rest m bs).
Proof.
  intros Hm Hl Hk0 Hf. pose proof (find_key_Some _ _ _ _ Hf) as [Hi He0]. cbn in He0.
  destruct (Hashbrown.write_spec m i (default e0 (Key.kill e0), Value.Nil) ltac:(eauto)) as (_ & _ & _ & Hb).
  assert (Hel : element (default e0 (Key.kill e0), Value.Nil) = None).
  { destruct e0 as [ke|]; [|done]. cbn. by destruct (CanonicalKey.ptr ke). }
  unfold map_rest. induction bs as [|j bs IH]; cbn [omap list_omap]; [done|]. rewrite Hb.
  destruct (decide (j = i)) as [->|Hj].
  - rewrite Hi. cbn [mbind option_bind]. rewrite Hel.
    destruct e0 as [ke|p]; cbn; [|done]. destruct (Value.is_nil v0); [done|].
    rewrite filter_cons, decide_False; [done|]. rewrite other_key by by eapply wf_canonical.
    cbn in He0. rewrite He0. done.
  - destruct (Hashbrown.bucket m j) as [[[k|p] v]|] eqn:Hbj; cbn; [|done..].
    destruct (Value.is_nil v); [done|]. rewrite filter_cons, decide_True; [by f_equal|].
    apply other_key; [by eapply wf_canonical|]. apply not_true_is_false. intros He.
    pose proof (wf_found _ Hm _ _ _ Hbj) as Hfj.
    rewrite (find_key_eq K m k k0) in Hfj; [congruence|done|by eapply Hl|done..].
Qed.

Lemma after_remove_map r key k0 i e0 v0 : good K r -> K k0 ->
  (forall k, CanonicalKey.new key = Ok (inl k) -> K k) -> slot (array r) k0 = None ->
  find_key (map r) k0 = Some (i, (e0, v0)) ->
  after (set_map (Hashbrown.write (map r) i (default e0 (Key.kill e0), Value.Nil)) r) key =
  filter (other k0) <$> after r key.
Proof.
  intros [Hwf Hl] Hk0 Hkey Hs Hf. pose proof (wf_hash _ Hwf) as Hm. unfold after.
  rewrite (start_index_length r) by done. cbn [array map set_map].
  set (m' := Hashbrown.write _ _ _).
  assert (Hbs : Hashbrown.buckets m' = Hashbrown.buckets (map r)).
  { apply find_key_Some in Hf as [Hi _]. by apply Hashbrown.write_spec. }
  pose proof (fun j => array_rest_other (array r) k0 j Hs) as Harr.
  rewrite Hbs. destruct (start_index r key) as [j|].
  - cbn. rewrite filter_app, Harr. unfold m'. by rewrite (map_rest_killed _ k0 i e0 v0).
  - destruct (CanonicalKey.new key) as [[k|]|] eqn:Hnew; [|done..].
    pose proof (find_key_killed (map r) k0 i e0 v0 k Hm Hl Hk0 (Hkey k eq_refl) Hf) as Hfst. fold m' in Hfst.
    destruct (find_key m' k) as [[b e]|], (find_key (map r) k) as [[b' e']|]; cbn in Hfst; try done.
    injection Hfst as ->. cbn. unfold m'. by rewrite (map_rest_killed _ k0 i e0 v0).
Qed.

Lemma after_none_other r key k0 l : good K r -> K k0 -> canonical k0 -> slot (array r) k0 = None ->
  find_key (map r) k0 = None -> after r key = Some l -> filter (other k0) l = l.
Proof.
  intros Hg Hk0 Hc0 Hs Hf Hl. pose proof Hg as [Hwf Hlive].
  assert (Hmap : forall bs, filter (other k0) (map_rest (map r) bs) = map_rest (map r) bs).
  { intros bs. apply map_rest_other; [done|]. intros j k v Hb. apply not_true_is_false. intros He.
    pose proof (wf_found _ (wf_hash _ Hwf) _ _ _ Hb) as Hfj.
    rewrite (find_key_eq K _ k k0) in Hfj; [congruence|done|by eapply Hlive|done..]. }
  revert Hl. unfold after. destruct (start_index r key) as [j|].
  - intros [= <-]. rewrite filter_app, Hmap. by rewrite array_rest_other.
  - destruct (CanonicalKey.new key) as [[k|]|]; [|done..].
    destruct (find_key (map r) k) as [[b e]|]; [|done]. intros [= <-]. apply Hmap.
Qed.

(** Setting a key to nil takes its element out of what is still to come, and nothing else. *)
Lemma after_set_nil allocated r key key0 k0 l old r' l' : good K r -> K k0 ->
  CanonicalKey.new key0 = Ok (inl k0) -> (forall k, CanonicalKey.new key = Ok (inl k) -> K k) ->
  set allocated key0 Value.Nil r l = Ok (inl old, (r', l')) ->
  after r' key = filter (other k0) <$> after r key.
Proof.
  intros Hg Hk0 Hnew Hkey Hset. destruct (key_new key0) as (res & Hres & Hspec).
  rewrite Hnew in Hres. injection Hres as <-. destruct Hspec as [Hc Hidx].
  unfold set in Hset. rewrite <- Hidx in Hset. fold (slot (array r) k0) in Hset.
  destruct (slot (array r) k0) as [i|] eqn:Hs.
  { injection Hset as _ <- _. by apply after_remove_array. }
  rewrite Hnew, outcome_bind_Ok in Hset. unfold set_in_map in Hset. cbn [Value.is_nil] in Hset.
  destruct (find_key (map r) k0) as [[i [e0 v0]]|] eqn:Hf; injection Hset as _ <- _.
  - by eapply after_remove_map.
  - destruct (after r key) as [l0|] eqn:Ha; [|done]. cbn. f_equal. symmetry. by eapply after_none_other.
Qed.
End Facts.
End IterFacts.
