(* ===== verification/Buckets.v ===== *)
(** * A hash table to instantiate [Hashbrown.Ops] with

    A row of buckets that keep the hash of what they hold, searched from the first on; and a
    [Platform] on it, for strings that are a content at an address.  It serves to run the
    tables on concrete inputs, and shows that the interface can be implemented. *)

From S2P Require Import Prelude Float64 StringUtils Constant Value Limits RawTable RawTableFacts.

Module Buckets.
Section Buckets.
Context {E : Type}.
Abbreviation row := (list (option (Z * E))).
Implicit Types t : row.

Definition slot t (i : nat) : option (Z * E) := mjoin (t !! i).
Definition at_hash t (h : Z) (i : nat) : Prop := fst <$> slot t i = Some h.
#[local] Instance at_hash_dec t h i : Decision (at_hash t h i).
Proof. unfold at_hash. apply _. Defined.
Definition probe t (h : Z) : list nat := filter (at_hash t h) (seq 0 (length t)).
Definition write t (i : nat) (e : E) : row := alter (fmap (fun he => (fst he, e))) i t.
Fixpoint first_free t : option nat :=
  match t with
  | [] => None
  | None :: _ => Some O
  | Some _ :: t => S <$> first_free t
  end.
Definition insert t (h : Z) (e : E) : option row :=
  i ← first_free t; Some (<[i := Some (h, e)]> t).
Definition keep (p : E -> bool) (he : option (Z * E)) : option (Z * E) :=
  match he with Some (h, e) => if p e then Some (h, e) else None | None => None end.
Definition rehash (hasher : E -> Z) (he : option (Z * E)) : option (Z * E) :=
  (fun he => (hasher (snd he), snd he)) <$> he.

#[export] Instance ops : Hashbrown.Ops E := {
  Hashbrown.table := row;
  Hashbrown.with_capacity n := replicate n None;
  Hashbrown.buckets t := length t;
  Hashbrown.bucket t i := snd <$> slot t i;
  Hashbrown.probe := probe;
  Hashbrown.capacity t := length t;
  Hashbrown.write := write;
  Hashbrown.try_insert_no_grow := insert;
  Hashbrown.retain p t := keep p <$> t;
  Hashbrown.try_reserve t n hasher :=
    Some ((rehash hasher <$> t) ++ replicate (length (omap id t) + n - length t) None)
}.

Lemma slot_lt t i he : slot t i = Some he -> (i < length t)%nat.
Proof. unfold slot. destruct (t !! i) eqn:Hi; [intros _; by eapply lookup_lt_Some|done]. Qed.

Lemma elem_probe t h i : i ∈ probe t h <-> fst <$> slot t i = Some h.
Proof.
  unfold probe. rewrite list_elem_of_filter, elem_of_seq. split; [by intros [? _]|].
  intros Hi. split; [done|]. destruct (slot t i) eqn:Hs; [|done]. apply slot_lt in Hs. lia.
Qed.

Lemma first_free_spec t i : first_free t = Some i -> slot t i = None /\ (i < length t)%nat.
Proof.
  revert i. induction t as [|[he|] t IH]; intros i; cbn; [done|..].
  - intros (j & Hj & ->)%fmap_Some_1. destruct (IH j Hj). split; [done|lia].
  - intros [= <-]. split; [done|lia].
Qed.

Lemma first_free_exists t : (length (omap id t) < length t)%nat -> is_Some (first_free t).
Proof.
  induction t as [|[he|] t IH]; cbn; [lia| |by eexists].
  intros Hlt. destruct IH as [i ->]; [lia|]. by eexists.
Qed.

Lemma iter_omap t : Hashbrown.iter t = snd <$> omap id t.
Proof.
  unfold Hashbrown.iter. cbn. enough (forall pre, omap (fun i => snd <$> slot (pre ++ t) i)
    (seq (length pre) (length t)) = snd <$> omap id t) as Hx by exact (Hx []).
  induction t as [|he t IH]; intros pre; cbn; [done|]. specialize (IH (pre ++ [he])).
  rewrite length_app in IH. cbn in IH. rewrite Nat.add_1_r, <- app_assoc in IH. cbn in IH.
  unfold slot at 1. rewrite list_lookup_middle by done. destruct he as [he|]; cbn; by rewrite IH.
Qed.

Lemma len_omap t : Hashbrown.len t = length (omap id t).
Proof. unfold Hashbrown.len. by rewrite iter_omap, length_fmap. Qed.

Lemma omap_id_le t : (length (omap id t) <= length t)%nat.
Proof. induction t as [|[he|] t IH]; cbn; lia. Qed.

Lemma slot_insert t i j h e : (i < length t)%nat ->
  slot (<[i := Some (h, e)]> t) j = if decide (j = i) then Some (h, e) else slot t j.
Proof.
  intros Hi. unfold slot. case_decide as Hj; [subst; by rewrite list_lookup_insert_eq|].
  by rewrite list_lookup_insert_ne.
Qed.

Lemma slot_write t i j e : is_Some (slot t i) ->
  slot (write t i e) j = if decide (j = i) then (fun he => (fst he, e)) <$> slot t i else slot t j.
Proof.
  intros Hi. unfold write, slot in *. case_decide as Hj.
  - subst. rewrite list_lookup_alter_eq. by destruct (t !! i) as [[]|].
  - by rewrite list_lookup_alter_ne.
Qed.

Lemma slot_keep p t i : slot (keep p <$> t) i = keep p (slot t i).
Proof. unfold slot. rewrite list_lookup_fmap. by destruct (t !! i). Qed.

Lemma slot_rehash hasher t n i :
  slot ((rehash hasher <$> t) ++ replicate n None) i = rehash hasher (slot t i).
Proof.
  unfold slot. destruct (Nat.lt_ge_cases i (length t)) as [Hi|Hi].
  - rewrite lookup_app_l by by rewrite length_fmap. rewrite list_lookup_fmap. by destruct (t !! i).
  - rewrite lookup_app_r by by rewrite length_fmap. rewrite (lookup_ge_None_2 t) by done.
    destruct (replicate n None !! _) as [he|] eqn:Hr; [|done]. by apply lookup_replicate in Hr as [-> _].
Qed.

Lemma probe_ext t t' h : length t' = length t ->
  (forall i, at_hash t' h i <-> at_hash t h i) -> probe t' h = probe t h.
Proof. intros Hl Hp. unfold probe. rewrite Hl. by apply list_filter_iff. Qed.

Lemma filter_ext_in {A} (P Q : A -> Prop) `{forall x, Decision (P x), forall x, Decision (Q x)} (l : list A) :
  (forall x, x ∈ l -> P x <-> Q x) -> filter P l = filter Q l.
Proof.
  induction l as [|x l IH]; intros Hp; [done|]. rewrite !filter_cons.
  rewrite IH by (intros; apply Hp; by right). pose proof (Hp x ltac:(by left)).
  do 2 case_decide; tauto || done.
Qed.

Lemma filter_filter_ext {A} (P Q R : A -> Prop) `{forall x, Decision (P x), forall x, Decision (Q x),
    forall x, Decision (R x)} (l : list A) : (forall x, Q x /\ P x <-> R x) -> filter Q (filter P l) = filter R l.
Proof.
  intros Hq. induction l as [|x l IH]; [done|]. rewrite !filter_cons. specialize (Hq x).
  destruct (decide (P x)), (decide (R x)); rewrite ?filter_cons, ?IH; try (case_decide; tauto); tauto || done.
Qed.

#[export] Instance ops_laws : Hashbrown.Laws E.
Proof.
  split; cbn [Hashbrown.table Hashbrown.bucket Hashbrown.buckets Hashbrown.probe Hashbrown.capacity
    Hashbrown.write Hashbrown.try_insert_no_grow Hashbrown.retain Hashbrown.try_reserve
    Hashbrown.with_capacity ops].
  - intros t i e Hi. destruct (slot t i) as [he|] eqn:Hs; [|done]. by eapply slot_lt.
  - intros t. rewrite len_omap. apply omap_id_le.
  - intros n. split; [|by rewrite length_replicate]. rewrite iter_omap. by induction n.
  - intros t i e Hi. assert (is_Some (slot t i)) as Hsl by (destruct Hi as [? (he & ? & _)%fmap_Some_1]; eauto).
    assert (Hlen : length (write t i e) = length t) by apply length_alter.
    split_and!; [done|done| |].
    + intros h. apply probe_ext; [done|]. intros j. unfold at_hash. rewrite slot_write by done.
      case_decide; [subst; by destruct (slot t i)|done].
    + intros j. rewrite slot_write by done. case_decide; [|done]. destruct Hsl as [he ->]. done.
  - intros t h e t' (i & Hfree & [= <-])%bind_Some. destruct (first_free_spec _ _ Hfree) as [Hn Hi].
    assert (Hsl : forall j, slot (<[i := Some (h, e)]> t) j = if decide (j = i) then Some (h, e) else slot t j)
      by (intros; by apply slot_insert).
    split; [by rewrite length_insert|]. exists i. split_and!; [by rewrite Hn|intros j; rewrite Hsl; by case_decide|..].
    + assert (Hseq : seq 0 (length t) = seq 0 i ++ i :: seq (Datatypes.S i) (length t - Datatypes.S i)).
      { replace (length t) with (i + Datatypes.S (length t - Datatypes.S i))%nat at 1 by lia. by rewrite seq_app. }
      unfold probe. rewrite length_insert, Hseq, !filter_app, !filter_cons.
      rewrite decide_True by (unfold at_hash; by rewrite Hsl, decide_True).
      eexists _, _. split; [reflexivity|]. eexists. f_equal.
      apply filter_ext_in. intros j Hj%elem_of_seq. unfold at_hash. rewrite Hsl, decide_False by lia. done.
    + intros h'. eexists _, []. split; [by rewrite app_nil_r|]. unfold probe. rewrite length_insert.
      apply filter_filter_ext. intros j. unfold at_hash. rewrite Hsl. case_decide; [|tauto].
      subst. rewrite Hn. cbn. naive_solver.
  - intros t h e Hlt. rewrite len_omap in Hlt. unfold insert. by destruct (first_free_exists t Hlt) as [i ->].
  - intros p t. split_and!; [by rewrite length_fmap|..].
    + intros i. rewrite slot_keep. destruct (slot t i) as [[h e]|]; cbn; [|done]. by destruct (p e).
    + intros h. unfold probe. rewrite length_fmap. symmetry. apply filter_filter_ext. intros i.
      unfold at_hash. rewrite slot_keep. destruct (slot t i) as [[h' e]|]; cbn; [destruct (p e); cbn|]; 
        unfold is_Some; naive_solver.
  - intros t n hasher t' [= <-]. rewrite len_omap, iter_omap, omap_app, length_app, length_fmap, length_replicate.
    split_and!; [lia| |].
    + rewrite iter_omap. replace (omap id (replicate _ None)) with (@nil (Z * E)) by (symmetry; by induction (_ - _)%nat).
      rewrite app_nil_r. clear. induction t as [|[he|] t IH]; cbn; [done|by rewrite IH|done].
    + right. intros i e Hi. apply elem_probe. rewrite slot_rehash in *.
      destruct (slot t i) as [[h e']|]; cbn in *; [|done]. by injection Hi as ->.
Qed.
End Buckets.
End Buckets.

(** ** A platform *)
Module Machine.
(** A string: its address and its bytes *)
Definition str : Type := obj * bytes.
#[export] Instance str_bytes : AsBytes str := snd.
#[export] Instance str_address : StringAddress str := fst.
#[export] Instance profile : BuildProfile := {| overflow_checks := true |}.

Definition hash (k : CanonicalKey.t str) : Z :=
  match k with
  | CanonicalKey.Boolean b => Z.b2z b
  | CanonicalKey.Integer i => i
  | CanonicalKey.Number n => n
  | CanonicalKey.String s => Z.of_nat (length (as_bytes s))
  | CanonicalKey.Table p | CanonicalKey.Closure p | CanonicalKey.Callback p
  | CanonicalKey.Thread p | CanonicalKey.UserData p => Zpos p
  end.

(** Vectors at least double, within [isize]. *)
Definition vec_grow (len cap : nat) (n : Z) : option nat :=
  if Z.of_nat len + n <=? Z.of_nat cap then Some cap
  else if (Z.of_nat len + n) * 32 <=? int_max i64
  then (if Z.of_nat cap * 64 <=? int_max i64 then Some (Nat.max (2 * cap) (Z.to_nat (Z.of_nat len + n))) else None)
  else None.

#[export] Instance platform : Platform str := {
  platform_map := Buckets.ops;
  hash_one := hash;
  vec_try_reserve := fun len cap n =>
    c ← vec_grow len cap n; if Z.of_nat c * 16 <=? int_max i64 then Some c else None;
  size_of_value := 16;
  size_of_entry := 40
}.

#[export] Instance platform_laws : PlatformLaws str.
Proof.
  split.
  - apply Buckets.ops_laws.
  - intros a b [->|(s & s' & -> & -> & Hs)]%KeyFacts.key_eq_inv; [done|]. cbn. by rewrite Hs.
  - intros len cap n cap' Hle Hn. cbn [vec_try_reserve platform size_of_value].
    intros (c & Hc & Hg)%bind_Some. revert Hg. case_bool; [intros [= <-]|done]. bool_to_prop.
    revert Hc. unfold vec_grow. case_bool; bool_to_prop; [intros [= <-]; split_and!; [lia..|done]|].
    do 2 (case_bool; bool_to_prop; [|done]). intros [= <-]. split_and!; [lia..|done].
  - done.
Qed.
End Machine.
