(* ===== verification/RawTableTheorems.v ===== *)
(** * What the raw table promises

    [set] and [get] are those of a finite map from keys to values, [length] is a border,
    [next] visits every element once and goes on over removals, and the array is as large
    as its use allows.  The last theorem shows what interned strings are needed for. *)

From S2P Require Import Prelude Float64 StringUtils Constant Value Limits RawTable RawTableFacts RawTableGrow RawTableSet RawTableIter Buckets.
Import RawTable Datatypes(length) KeyFacts MapFacts TableFacts SizeFacts SetFacts IterFacts.

Module RawTableTheorems.
Section Theorems.
Context `{BuildProfile} {S : Type} `{AsBytes S} `{StringAddress S} `{Platform S} `{!PlatformLaws S}.
Implicit Types (r : t (S:=S)) (key v : Value.t S).

(** Two values that name the same field *)
Definition same_key a b : bool :=
  match CanonicalKey.new a, CanonicalKey.new b with
  | Ok (inl a), Ok (inl b) => CanonicalKey.eq a b
  | _, _ => false
  end.

(** A value that is in use, if it can be a key *)
Definition usable (K : CanonicalKey.t S -> Prop) key : Prop :=
  forall k, CanonicalKey.new key = Ok (inl k) -> K k.

Lemma get_same K r r' key : usable K key -> same K r r' -> get r' key = get r key.
Proof.
  intros Hk Hs. destruct (get_spec r key) as (res & Hres & ->), (get_spec r' key) as (res' & Hres' & ->).
  rewrite Hres in Hres'. injection Hres' as <-. destruct res as [k|]; [|done].
  destruct (key_new key) as (res & Hres' & Hc). rewrite Hres in Hres'. injection Hres' as <-.
  f_equal. apply Hs; [by apply Hk|tauto].
Qed.

Lemma set_as_map K allocated r l key v : consistent K -> good K r -> usable K key ->
  exists res r' l', set allocated key v r l = Ok (res, (r', l')) /\ good K r' /\
  match res with
  | inl old =>
      get r key = Ok old /\
      forall key', usable K key' -> get r' key' = if same_key key key' then Ok v else get r key'
  | inr e =>
      (forall key', usable K key' -> get r' key' = get r key') /\
      match e with
      | TableError.Key InvalidTableKey.IsNil => key = Value.Nil
      | TableError.Key InvalidTableKey.IsNaN => exists n, key = Value.Number n /\ F64.is_nan n = true
      | TableError.OutOfMemory _ => v <> Value.Nil /\ get r key = Ok Value.Nil
      end
  end.
Proof.
  intros HK Hg Hk. destruct (key_new key) as (kr & Hnew & Hspec). destruct kr as [k|e].
  - destruct (set_key_spec K HK allocated r key k v l Hg (Hk k Hnew) Hnew)
      as (res & r' & l' & -> & Hg' & Hres).
    destruct (get_spec r key) as (kr & Hkr & Hget). rewrite Hnew in Hkr. injection Hkr as <-.
    exists res, r', l'. split_and!; [done..|]. destruct res as [old|e].
    + destruct Hres as [-> Hst]. split; [done|]. intros key' Hk'. unfold same_key. rewrite Hnew.
      destruct (get_spec r' key') as (kr' & Hnew' & ->), (get_spec r key') as (kr2 & Hnew2 & ->).
      rewrite Hnew' in Hnew2. injection Hnew2 as <-. rewrite Hnew'. destruct kr' as [k'|]; [|done].
      destruct (key_new key') as (kr2 & Hkr2 & Hc'). rewrite Hnew' in Hkr2. injection Hkr2 as <-.
      rewrite (Hst k' (Hk' k' Hnew') (proj1 Hc')). by destruct (CanonicalKey.eq k k').
    + destruct Hres as (Hs & He & Hv & Hn). split; [intros; by eapply get_same|].
      destruct e; [done|]. split; [done|]. rewrite Hget. by rewrite Hn.
  - exists (inr (TableError.Key e)), r, l. split_and!; [|done..|by destruct e].
    unfold set. by rewrite (refused_index key e Hnew), Hnew.
Qed.


(** C27: the length is a border: an index in use, or 0, whose successor is free (or the last
    integer there is).  Both searches end within 64 rounds. *)
Theorem length_is_border K r : consistent K -> good K r ->
  exists n, RawTable.length r = Some n /\ 0 <= n <= int_max i64 /\
    (n = 0 \/ get r (Value.Integer n) <> Ok Value.Nil) /\
    (n = int_max i64 \/ get r (Value.Integer (n + 1)) = Ok Value.Nil).
Proof.
  intros HK Hg. destruct (length_border K r Hg) as (n & Hn & Hrange & Hlo & Hhi).
  exists n. split_and!; [done|lia..| |].
  - destruct Hlo as [|Hlo]; [by left|right]. destruct (get_spec r (Value.Integer n)) as (kr & [= <-] & ->). congruence.
  - destruct Hhi as [|Hhi]; [by left|right].
    destruct (get_spec r (Value.Integer (n + 1))) as (kr & [= <-] & ->). congruence.
Qed.

(** Following [next] from a key to the end, in at most [fuel] steps *)
Fixpoint walk (fuel : nat) r key : option (list (Value.t S * Value.t S)) :=
  match next r key with
  | Ok (NextValue.Found k v) =>
      match fuel with
      | O => None
      | Datatypes.S fuel => cons (k, v) <$> walk fuel r k
      end
  | Ok NextValue.Last => Some []
  | _ => None
  end.

Lemma walk_after K r key l n : good K r -> after r key = Some l -> (length l <= n)%nat -> walk n r key = Some l.
Proof.
  intros Hg Hl. pose proof (linked_after K r key l Hg Hl) as Hlinked. destruct Hg as [Hwf _].
  revert key n Hl. induction l as [|[k v] l IH]; intros key n Hl Hn.
  - destruct n; cbn; by rewrite next_after, Hl.
  - cbn in Hn. destruct n as [|n]; [lia|]. cbn. rewrite next_after, Hl by done. destruct Hlinked as [Hk Hlinked].
    rewrite (IH Hlinked k n Hk); [done|lia].
Qed.

Lemma walk_inv K r key l n : good K r -> walk n r key = Some l -> after r key = Some l.
Proof.
  intros Hg. revert key l. induction n as [|n IH]; intros key l; cbn; rewrite next_after by apply Hg;
    destruct (after r key) as [[|[k v] l']|] eqn:Hl; try done; try (by intros [= <-]).
  intros (l2 & Hw & ->)%fmap_Some_1. apply IH in Hw.
  destruct (linked_after K r key _ Hg Hl) as [Hk _]. congruence.
Qed.

Lemma walk_length r key l n : walk n r key = Some l -> (length l <= n)%nat.
Proof.
  revert key l. induction n as [|n IH]; intros key l; cbn;
    (destruct (next r key) as [[k v| |]|]; try done; try (intros [= <-]; cbn; lia)).
  intros (l2 & Hw & ->)%fmap_Some_1. apply IH in Hw. cbn. lia.
Qed.

Lemma filter_other (k0 : CanonicalKey.t S) gone (l : list (Value.t S * Value.t S)) :
  CanonicalKey.new gone = Ok (inl k0) ->
  filter (other k0) l = List.filter (fun e => negb (same_key (fst e) gone)) l.
Proof.
  intros Hnew. induction l as [|e l IH]; [done|]. rewrite filter_cons, IH. cbn.
  assert (other k0 e <-> negb (same_key (fst e) gone) = true) as Ho.
  { unfold other, same_key. rewrite Hnew. destruct (CanonicalKey.new (fst e)) as [[k|]|]; [|done..].
    by rewrite negb_true_iff. }
  destruct (negb (same_key (fst e) gone)); [rewrite decide_True by by apply Ho|rewrite decide_False by by rewrite Ho];
    done.
Qed.


(** C26: elements may be removed while the table is traversed, the current one included: what
    is still to come is what was to come before, less the removed element.  So a loop that
    removes as it goes still sees every element that stays. *)
Theorem removal_during_iteration K allocated r limit key gone old r' limit' n l :
  consistent K -> good K r -> usable K key -> usable K gone ->
  set allocated gone Value.Nil r limit = Ok (inl old, (r', limit')) ->
  walk n r key = Some l ->
  walk n r' key = Some (List.filter (fun e => negb (same_key (fst e) gone)) l).
Proof.
  intros HK Hg Hk Hgone Hset Hw. apply (walk_inv K) in Hw as Hl; [|done].
  destruct (key_new gone) as (kr & Hnew & _). destruct kr as [k0|e].
  2:{ exfalso. revert Hset. unfold set. by rewrite (refused_index gone e Hnew), Hnew. }
  destruct (set_key_spec K HK allocated r gone k0 Value.Nil limit Hg (Hgone k0 Hnew) Hnew)
    as (res & r2 & l2 & Heq & Hg' & _). rewrite Hset in Heq. injection Heq as <- <- <-.
  pose proof (after_set_nil K HK allocated r key gone k0 limit old r' limit' Hg (Hgone k0 Hnew) Hnew Hk Hset) as Ha.
  rewrite Hl in Ha. cbn in Ha. rewrite (filter_other k0 gone) in Ha by done.
  apply (walk_after K); [done..|]. etrans; [apply List.filter_length_le|by eapply walk_length].
Qed.

Lemma elem_candidates K r i : good K r ->
  i ∈ candidates r <-> 0 <= i /\ get_key r (CanonicalKey.Integer (i + 1)) <> Value.Nil.
Proof.
  intros [Hwf Hl]. pose proof (wf_hash _ Hwf) as Hm. unfold candidates.
  rewrite elem_of_app, elem_hash_indices, elem_array_indices by done. split.
  - intros [(Hi & v & Hv & j & k & Hb & [->|(? & ? & _ & ? & _)]%key_eq_inv)|(j & v & Hj & Hv & ->)]; [|done|].
    + split; [done|]. unfold get_key, map_get. rewrite (wf_range _ Hwf _ _ _ Hb).
      by rewrite (wf_found _ Hm _ _ _ Hb).
    + split; [lia|]. unfold get_key. rewrite Z.add_0_l, slot_integer.
      rewrite (proj2 (Nat.ltb_lt _ _)) by by eapply lookup_lt_Some. by rewrite Hj.
  - intros [Hi Hget]. unfold get_key in Hget. replace i with (Z.of_nat (Z.to_nat i)) in Hget at 1 by lia.
    rewrite slot_integer in Hget. destruct (Nat.ltb_spec (Z.to_nat i) (length (array r))) as [Hlt|_].
    + right. destruct (lookup_lt_is_Some_2 (array r) _ Hlt) as [v Hv]. rewrite Hv in Hget.
      exists (Z.to_nat i), v. split_and!; [done..|lia].
    + left. split; [done|]. exists (map_get (map r) (CanonicalKey.Integer (i + 1))). split; [done|].
      unfold map_get in *. destruct (find_key (map r) _) as [[j [[k|p] v]]|] eqn:Hf; [| |done].
      * apply find_key_Some in Hf as [Hb He]. by exists j, k.
      * apply find_key_Some in Hf as [Hb _]. by apply (wf_dead _ Hm) in Hb.
Qed.

(** The array is as large as its use allows.  When a new element at [index] finds no room,
    the size considered for the array is 0 or a power of two of which more than half the
    slots would be in use, and more than half of no larger power of two would be, counting
    the elements of both parts and the new one. *)
Theorem array_size_optimal K r index : consistent K -> good K r ->
  0 <= index -> K (CanonicalKey.Integer (index + 1)) ->
  get r (Value.Integer (index + 1)) = Ok Value.Nil -> Z.of_nat (length (array r)) <= index ->
  exists size, optimal_size index r = Ok size /\
  let would_use n := if index <? n then used (candidates r) n + 1 else used (candidates r) n in
  (size = 0 \/ (exists j : nat, (j < 64)%nat /\ size = 2 ^ Z.of_nat j) /\ size < 2 * would_use size) /\
  (forall j : nat, (j < 64)%nat -> size < 2 ^ Z.of_nat j -> 2 * would_use (2 ^ Z.of_nat j) <= 2 ^ Z.of_nat j) /\
  (forall i, i ∈ candidates r <-> 0 <= i /\ exists v, v <> Value.Nil /\ get r (Value.Integer (i + 1)) = Ok v).
Proof.
  intros HK Hg Hi HKi Hget Hlen. assert (Hnil : get_key r (CanonicalKey.Integer (index + 1)) = Value.Nil).
  { destruct (get_spec r (Value.Integer (index + 1))) as (kr & [= <-] & Hs). congruence. }
  assert (Hc : index ∉ candidates r) by (intros [_ Hx]%(elem_candidates K); done).
  assert (Hok : index_ok index).
  { pose proof (machine_integer _ HK _ HKi) as Hint. unfold index_ok. revert Hint. int_lia. }
  destruct Hg as [Hwf Hl] eqn:Hg0. destruct (optimal_size_spec K r index HK Hwf Hl Hok Hc) as (s & -> & Hbest & Hmax).
  exists s. split; [done|]. assert (Hu : forall n, used (index :: candidates r) n =
      if index <? n then used (candidates r) n + 1 else used (candidates r) n).
  { intros n. rewrite used_cons. destruct (Z.ltb_spec index n); case_decide; lia. }
  cbn zeta. split_and!.
  - destruct Hbest as [->|(j & Hj & Hs & Hlt)]; [by left|right]. rewrite <- Hu. split; [by exists j|done].
  - intros j Hj Hs. rewrite <- Hu. by apply Hmax.
  - intros i. rewrite (elem_candidates K r i (conj Hwf Hl)).
    destruct (get_spec r (Value.Integer (i + 1))) as (kr & [= <-] & ->). split.
    + intros [? Hv]. split; [done|]. by eexists.
    + intros [? (v & Hv & [= <-])]. done.
Qed.

(** A new table is well formed, and empty. *)
Lemma with_capacity_good K n m r : consistent K -> with_capacity n m = Ok r ->
  good K r /\ forall key, get r key = Ok Value.Nil.
Proof.
  intros HK. unfold with_capacity. destruct (vec_try_reserve 0 0 (Z.of_nat n)) as [cap|] eqn:Hv; [|done].
  intros [= <-]. destruct (vec_try_reserve_spec 0 0 (Z.of_nat n) cap) as (Hc & _ & Hm); [lia..|done|].
  destruct (Hashbrown.with_capacity_spec (E := Key.t S * Value.t S) m) as [Hiter _].
  assert (Hnone : forall i, Hashbrown.bucket (Hashbrown.with_capacity (E := Key.t S * Value.t S) m) i = None).
  { intros i. destruct (Hashbrown.bucket _ i) as [e|] eqn:Hb; [|done].
    assert (e ∈ @nil (Key.t S * Value.t S)) as Hin; [|by apply not_elem_of_nil in Hin].
    rewrite <- Hiter. apply HashbrownFacts.elem_iter. eauto. }
  assert (Hg : good K (mk (resize n Value.Nil []) cap (Hashbrown.with_capacity m))).
  { split; [split; cbn [array array_capacity map]; [rewrite length_resize; lia|done|split|]|];
      cbn [array array_capacity map]; intros i; intros; congruence || by rewrite Hnone in *. }
  split; [done|]. intros key. destruct (get_spec (mk (resize n Value.Nil []) cap (Hashbrown.with_capacity m)) key)
    as (kr & _ & ->). destruct kr as [k|]; [|done]. f_equal. unfold get_key. cbn [array map].
  destruct (slot _ k) as [i|].
  - destruct (resize n Value.Nil [] !! i) as [v|] eqn:Hi; [|done]. cbn.
    rewrite resize_nil in Hi. by apply lookup_replicate in Hi as [-> _].
  - unfold map_get. destruct (find_key _ k) as [[i [e v]]|] eqn:Hf; [|done].
    apply find_key_Some in Hf as [Hb _]. by rewrite Hnone in Hb.
Qed.

(** A store within the array *)
Lemma set_in_array allocated r i v l : 0 <= i < Z.of_nat (length (array r)) ->
  exists old a, set allocated (Value.Integer (i + 1)) v r l = Ok (inl old, (set_array a r, l)) /\
    length a = length (array r).
Proof.
  intros Hi. unfold set.
  assert (in_array (array r) (to_array_index (Value.Integer (i + 1))) = Some (Z.to_nat i)) as ->.
  { pose proof (slot_integer (array r) (Z.to_nat i)) as Hs. rewrite (proj2 (Nat.ltb_lt _ _)) in Hs by lia.
    unfold slot in Hs. cbn [CanonicalKey.to_value] in Hs. by replace (Z.of_nat (Z.to_nat i)) with i in Hs by lia. }
  eexists _, _. split; [reflexivity|]. by rewrite length_insert.
Qed.

Lemma reserve_through_spec K allocated end_index r l : consistent K -> good K r ->
  0 <= end_index < int_max i64 ->
  exists res r' l', try_reserve_array_through allocated end_index r l = Ok (res, (r', l')) /\ good K r' /\
  (forall key, usable K key -> get r' key = get r key) /\
  match res with
  | inl _ =>
      end_index < Z.of_nat (length (array r')) /\
      forall i v allocated l, 0 <= i <= end_index ->
      exists old a, set allocated (Value.Integer (i + 1)) v r' l = Ok (inl old, (set_array a r', l)) /\
        length a = length (array r')
  | inr e => r' = r /\ TableError.is_out_of_memory e = true
  end.
Proof.
  intros HK Hg Hend.
  unfold try_reserve_array_through, len. case_bool; bool_to_prop.
  { eexists _, _, _. split; [reflexivity|]. split_and!; [done..|]. intros i v al li Hi. apply set_in_array. lia. }
  rewrite saturating_small by (revert Hend; int_lia).
  destruct (try_grow_array_spec K HK allocated (Z.max 0 (end_index + 1 - Z.of_nat (length (array r)))) r l Hg)
    as (res & r' & l' & -> & Hg' & Hsame & Hres); [lia|].
  exists res, r', l'. split_and!; [done..|intros; by eapply get_same|]. destruct res as [u|e]; [|done].
  split; [lia|]. intros i v al li Hi. apply set_in_array. lia.
Qed.

(** A batch of stores is all or nothing.  Reserving the array through an index either
    refuses, with the table as it was, or leaves every key its value and makes the stores up
    to that index ones that cannot fail, ask for no memory and move nothing. *)
Theorem reserve_through_makes_room K allocated end_index r l : consistent K -> good K r ->
  0 <= end_index < int_max i64 ->
  exists res r' l', try_reserve_array_through allocated end_index r l = Ok (res, (r', l')) /\ good K r' /\
  (forall key, usable K key -> get r' key = get r key) /\
  match res with
  | inl _ =>
      end_index < Z.of_nat (length (array r')) /\
      forall i v allocated l, 0 <= i <= end_index ->
      exists old a, set allocated (Value.Integer (i + 1)) v r' l = Ok (inl old, (set_array a r', l)) /\
        length a = length (array r')
  | inr e => r' = r /\ TableError.is_out_of_memory e = true
  end.
Proof. apply reserve_through_spec. Qed.
End Theorems.

(** ** Tables to try them on *)
Import Machine.

(** The keys in use: scalars and tables *)
Definition scalars (k : CanonicalKey.t str) : Prop :=
  match k with
  | CanonicalKey.Integer i => in_int i64 i
  | CanonicalKey.Boolean _ | CanonicalKey.Number _ | CanonicalKey.Table _ => True
  | _ => False
  end.

Lemma scalars_consistent : consistent scalars.
Proof.
  split.
  - intros a b q Ha Hb. destruct a, b; cbn in *; try done. intros [= ->] [= ->]. by apply bool_decide_eq_true.
  - intros a b Ha Hb. destruct a, b; cbn in *; try done. intros He%bool_decide_eq_true. by subst.
  - done.
Qed.

Lemma usable_integer i : in_int i64 i -> usable scalars (Value.Integer i).
Proof. intros Hi k Hk. injection Hk as <-. exact Hi. Qed.

Lemma usable_table p : usable scalars (Value.Table p).
Proof. intros k Hk. injection Hk as <-. exact I. Qed.

Lemma usable_nil : usable scalars Value.Nil.
Proof. intros k Hk. discriminate Hk. Qed.

(** Stores one after the other *)
Fixpoint sets (kvs : list (Value.t str * Value.t str)) (r : t) : outcome t :=
  match kvs with
  | [] => Ok r
  | (k, v) :: kvs =>
      '(_, (r, _)) ← set 0 k v r (Memory.new None);
      sets kvs r
  end.

Lemma sets_good kvs r r' : good scalars r -> Forall (fun kv => usable scalars (fst kv)) kvs ->
  sets kvs r = Ok r' -> good scalars r'.
Proof.
  intros Hg Hk. revert r Hg. induction Hk as [|[k v] kvs Hk _ IH]; intros r Hg; cbn; [by intros [= <-]|].
  destruct (set_as_map scalars 0 r (Memory.new None) k v scalars_consistent Hg Hk)
    as (res & r1 & l1 & -> & Hg1 & _). by apply IH.
Qed.

Definition sample_stores : list (Value.t str * Value.t str) :=
  [(Value.Integer 1, Value.Boolean true); (Value.Table 7, Value.Integer 5);
   (Value.Integer 2, Value.Integer 9); (Value.Integer 4, Value.Integer 8)].
Definition empty_table : t := default (mk [] 0 []) (match new with Ok r => Some r | Panic => None end).
Definition sample : t := match sets sample_stores empty_table with Ok r => r | Panic => empty_table end.

Lemma empty_good : good scalars empty_table.
Proof.
  refine (proj1 (with_capacity_good scalars 0 0 empty_table scalars_consistent _)).
  vm_refl.
Qed.

Lemma sample_good : good scalars sample.
Proof.
  apply (sets_good sample_stores empty_table); [apply empty_good| |vm_refl].
  repeat constructor; (apply usable_integer; int_lia) || apply usable_table.
Qed.


Lemma length_is_border_witness : RawTable.length sample = Some 4 /\
  exists n, RawTable.length sample = Some n /\ 0 <= n <= int_max i64.
Proof.
  split; [vm_refl|].
  destruct (length_is_border scalars sample scalars_consistent sample_good) as (n & E & Hn & _).
  exists n. exact (conj E Hn).
Defined.


(** The state after a store *)
Definition after_set (key v : Value.t str) (r : t) : t :=
  match set 0 key v r (Memory.new None) with Ok (_, (r, _)) => r | Panic => r end.

Lemma removal_during_iteration_witness :
  walk 10 (after_set (Value.Integer 2) Value.Nil sample) (Value.Integer 2) =
    Some [(Value.Integer 4, Value.Integer 8); (Value.Table 7, Value.Integer 5)].
Proof.
  exact (removal_during_iteration scalars 0 sample (Memory.new None) (Value.Integer 2) (Value.Integer 2)
    (Value.Integer 9) (after_set (Value.Integer 2) Value.Nil sample) (Memory.new None) 10
    [(Value.Integer 4, Value.Integer 8); (Value.Table 7, Value.Integer 5)] scalars_consistent sample_good
    (usable_integer 2 ltac:(int_lia)) (usable_integer 2 ltac:(int_lia))
    ltac:(vm_refl) ltac:(vm_refl)).
Defined.

Lemma array_size_optimal_witness :
  optimal_size 4 sample = Ok 4 /\ exists size, optimal_size 4 sample = Ok size.
Proof.
  split; [vm_refl|].
  destruct (array_size_optimal scalars sample 4 scalars_consistent sample_good ltac:(lia) ltac:(cbn; int_lia)
    ltac:(vm_refl) ltac:(vm_compute; discriminate)) as (size & E & _). by exists size.
Defined.

Lemma reserve_through_makes_room_witness :
  fst <$> try_reserve_array_through 0 9 sample (Memory.new (Some 10)) =
    Ok (inr (TableError.OutOfMemory (Memory.mk_OutOfMemory 96 10 0))) /\
  exists res r' l', try_reserve_array_through 0 9 sample (Memory.new None) = Ok (res, (r', l')) /\ good scalars r'.
Proof.
  split; [vm_refl|].
  destruct (reserve_through_makes_room scalars 0 9 sample (Memory.new None) scalars_consistent sample_good
    ltac:(int_lia)) as (res & r' & l' & E & Hg & _). exists res, r', l'. exact (conj E Hg).
Defined.

(** Strings must be interned.  Two strings of equal content at different addresses name
    one field, but once the key that was stored has been removed, the other one is stored
    beside its dead key.  The first string then no longer finds the field that the second
    has set; storing under the first gives the table a second element of that name, and an
    iteration that has reached the second element finds it again and again. *)
Theorem equal_string_keys :
  let a : Value.t str := Value.String (1%positive, bs# "print") in
  let b : Value.t str := Value.String (2%positive, bs# "print") in
  same_key a b = true /\
  (r ← (r ← with_capacity 0 2; sets [(a, Value.Integer 1); (b, Value.Nil); (b, Value.Integer 2)] r);
   x ← get r a; y ← get r b; Ok (x, y)) = Ok (Value.Nil, Value.Integer 2) /\
  (r ← (r ← with_capacity 0 2; sets [(a, Value.Integer 1); (b, Value.Nil); (b, Value.Integer 2);
                                      (a, Value.Integer 3)] r);
   x ← next r Value.Nil; y ← next r a; z ← next r b; Ok (x, y, z)) =
  Ok (NextValue.Found a (Value.Integer 3), NextValue.Found b (Value.Integer 2),
      NextValue.Found b (Value.Integer 2)).
Proof. split_and!; vm_refl. Qed.
End RawTableTheorems.
