(* ===== verification/Table.v ===== *)
(** * Tables: [table/table.rs], and the metaoperators on them: [meta_ops.rs]

    A table on the heap is a raw table with a metatable.  The tables are a store, so that two
    values that are the same table see each other's changes; a metatable is the address of a
    table.  Interning strings ([ctx.intern], [ctx.intern_static]) stays a parameter: the
    string that has some bytes. *)

From S2P Require Import Prelude Float64 StringUtils Constant Value Limits RawTable MetaOps.

(** The strings a context makes *)
Class Interning (S : Type) : Type := {
  intern : bytes -> S;
  intern_static : String.string -> S
}.

(** [write!("{}", n)] of a float: the standard library's shortest form *)
Class DisplayFloat : Type := display_f64 : f64 -> bytes.

Module Table.
Section Table.
Context `{BuildProfile} {S : Type} `{AsBytes S} `{StringAddress S} `{Platform S}.
Abbreviation value := (Value.t S).

Record TableState : Type := mk_TableState {
  raw_table : RawTable.t (S:=S);
  metatable : option obj
}.

(** What is reached from a context: the tables, the metatables of user data, and the table
    that is the metatable of strings *)
Record Tables : Type := mk_Tables {
  tables : gmap obj TableState;
  user_metatable : obj -> option obj;
  string_metatable : obj
}.

Definition put (t : obj) (s : TableState) (ts : Tables) : Tables :=
  mk_Tables (<[t := s]> (tables ts)) (user_metatable ts) (string_metatable ts).

(** [self.0.borrow()]: the table is alive, and never borrowed twice *)
Definition borrow (ts : Tables) (t : obj) : outcome TableState :=
  match tables ts !! t with Some s => Ok s | None => Panic end.

Definition from_parts (raw : RawTable.t) (metatable : option obj) (ts : Tables) : obj * Tables :=
  let t := fresh (dom (tables ts)) in (t, put t (mk_TableState raw metatable) ts).

Definition new (ts : Tables) : outcome (obj * Tables) :=
  raw ← RawTable.new; Ok (from_parts raw None ts).

(** [allocated] is what the arena has allocated, [l] the memory limit. *)
Definition try_new (allocated : Z) (array_capacity map_capacity : nat) (ts : Tables)
    (l : Memory.MemoryLimit) : outcome ((obj + Memory.OutOfMemory) * (Tables * Memory.MemoryLimit)) :=
  let bytes := RawTable.with_capacity_bytes (Z.of_nat array_capacity) (Z.of_nat map_capacity) in
  let '(checked, l) := Memory.check allocated bytes l in
  match checked with
  | inr e => Ok (inr e, (ts, l))
  | inl _ =>
      raw ← RawTable.with_capacity array_capacity map_capacity;
      let '(t, ts) := from_parts raw None ts in
      Ok (inl t, (ts, l))
  end.

Definition get_raw (ts : Tables) (t : obj) (key : value) : outcome value :=
  s ← borrow ts t; RawTable.get (raw_table s) key.

Definition set_raw (allocated : Z) (t : obj) (key v : value) (ts : Tables) (l : Memory.MemoryLimit)
  : outcome ((value + TableError.t) * (Tables * Memory.MemoryLimit)) :=
  s ← borrow ts t;
  '(res, (raw, l)) ← RawTable.set allocated key v (raw_table s) l;
  Ok (res, (put t (mk_TableState raw (metatable s)) ts, l)).

Definition reserve_array_through (allocated : Z) (t : obj) (end_index : Z) (ts : Tables)
    (l : Memory.MemoryLimit) : outcome ((unit + TableError.t) * (Tables * Memory.MemoryLimit)) :=
  s ← borrow ts t;
  '(res, (raw, l)) ← RawTable.try_reserve_array_through allocated end_index (raw_table s) l;
  Ok (res, (put t (mk_TableState raw (metatable s)) ts, l)).

(** [None] is a search that has not ended within its fuel. *)
Definition length (ts : Tables) (t : obj) : outcome Z :=
  s ← borrow ts t;
  match RawTable.length (raw_table s) with Some n => Ok n | None => Panic end.

Definition next (ts : Tables) (t : obj) (key : value) : outcome (NextValue.t S) :=
  s ← borrow ts t; RawTable.next (raw_table s) key.

Definition get_metatable (ts : Tables) (t : obj) : outcome (option obj) :=
  s ← borrow ts t; Ok (metatable s).

Definition set_metatable (t : obj) (mt : option obj) (ts : Tables) : outcome (option obj * Tables) :=
  s ← borrow ts t; Ok (metatable s, put t (mk_TableState (raw_table s) mt) ts).

(** ** [Iter] *)
Record Iter : Type := mk_Iter { iter_table : obj; prev : option value }.

Definition iter (t : obj) : Iter := mk_Iter t (Some Value.Nil).

Definition iter_next (ts : Tables) (it : Iter) : outcome (option (value * value) * Iter) :=
  match prev it with
  | None => Ok (None, it)
  | Some p =>
      n ← next ts (iter_table it) p;
      Ok (match n with
          | NextValue.Found k v => (Some (k, v), mk_Iter (iter_table it) (Some k))
          | _ => (None, mk_Iter (iter_table it) None)
          end)
  end.
End Table.
Arguments Tables S {_}. Arguments TableState S {_}.
End Table.

Module MetaTable.
Section MetaTable.
Context `{BuildProfile} {S : Type} `{AsBytes S} `{StringAddress S} `{Platform S} `{Interning S} `{DisplayFloat}.
Abbreviation value := (Value.t S).
Abbreviation meta_result := (MetaOps.MetaResult S + MetaOps.MetaOperatorError)%type.

(** The value of a metamethod's name: an interned static string *)
Definition name (m : MetaMethod) : value := Value.String (intern_static (MetaMethod.name m)).

Definition metatable_of (ts : Table.Tables S) (o : obj) : option obj :=
  match Table.tables ts !! o with
  | Some s => Table.metatable s
  | None => Table.user_metatable ts o
  end.

(** What the other metaoperators read of the tables.  [get] panics on no string. *)
Definition heap (ts : Table.Tables S) : MetaOps.Heap S :=
  {| MetaOps.metatable := metatable_of ts;
     MetaOps.get_field := fun mt n =>
       match Table.get_raw ts mt (Value.String (intern_static n)) with Ok v => v | Panic => Value.Nil end |}.

Definition from_table_error (e : TableError.t) : MetaOps.MetaOperatorError :=
  match e with
  | TableError.Key key => MetaOps.IndexKeyError key
  | TableError.OutOfMemory oom => MetaOps.OutOfMemory oom
  end.

(** The field of a metatable, nil without one *)
Definition meta_field (ts : Table.Tables S) (mt : option obj) (m : MetaMethod) : outcome value :=
  match mt with Some mt => Table.get_raw ts mt (name m) | None => Ok Value.Nil end.

(** What [index] does with the [__index] found: objects are indexed in their turn by a
    callback, anything else is called. *)
Definition index_through (ts : Table.Tables S) (idx table key : value) : meta_result :=
  match idx with
  | Value.Table _ | Value.UserData _ =>
      inl (MetaOps.ResultCall (MetaOps.mk_MetaCall MetaOps.CallIndex [idx; key]))
  | _ => MetaOps.meta_call (heap ts) MetaMethod.Index idx [table; key]
  end.

Definition index (ts : Table.Tables S) (table key : value) : outcome meta_result :=
  let unary_error : meta_result := inr (MetaOps.UnaryError MetaMethod.Index (Value.type_name table)) in
  let through idx := if Value.is_nil idx then unary_error else index_through ts idx table key in
  match table with
  | Value.Table t =>
      v ← Table.get_raw ts t key;
      if negb (Value.is_nil v) then Ok (inl (MetaOps.ResultValue v))
      else
        mt ← Table.get_metatable ts t;
        idx ← meta_field ts mt MetaMethod.Index;
        if Value.is_nil idx then Ok (inl (MetaOps.ResultValue Value.Nil))
        else Ok (index_through ts idx table key)
  | Value.UserData u =>
      match Table.user_metatable ts u with
      | Some mt => idx ← meta_field ts (Some mt) MetaMethod.Index; Ok (through idx)
      | None => Ok unary_error
      end
  | Value.String _ =>
      idx ← meta_field ts (Some (Table.string_metatable ts)) MetaMethod.Index; Ok (through idx)
  | _ => Ok unary_error
  end.

(** [Ok(None)] when the store is done, [Ok(Some(call))] when a call is to do it *)
Abbreviation new_index_result :=
  ((option (MetaOps.MetaCall S) + MetaOps.MetaOperatorError) * (Table.Tables S * Memory.MemoryLimit))%type.

Definition raw_store (allocated : Z) (t : obj) (key v : value) (ts : Table.Tables S)
    (l : Memory.MemoryLimit) : outcome new_index_result :=
  '(res, st) ← Table.set_raw allocated t key v ts l;
  Ok (match res with inl _ => inl None | inr e => inr (from_table_error e) end, st).

Definition new_index_through (ts : Table.Tables S) (idx table key v : value)
  : option (MetaOps.MetaCall S) + MetaOps.MetaOperatorError :=
  match idx with
  | Value.Table _ | Value.UserData _ =>
      inl (Some (MetaOps.mk_MetaCall MetaOps.CallNewIndex [idx; key; v]))
  | _ =>
      match MetaOps.call (heap ts) idx with
      | inl f => inl (Some (MetaOps.mk_MetaCall f [table; key; v]))
      | inr e => inr (MetaOps.CallError MetaMethod.NewIndex e)
      end
  end.

Definition new_index (allocated : Z) (table key v : value) (ts : Table.Tables S)
    (l : Memory.MemoryLimit) : outcome new_index_result :=
  let unary_error := inr (MetaOps.UnaryError MetaMethod.NewIndex (Value.type_name table)) in
  match table with
  | Value.Table t =>
      old ← Table.get_raw ts t key;
      if negb (Value.is_nil old) then raw_store allocated t key v ts l
      else
        mt ← Table.get_metatable ts t;
        idx ← meta_field ts mt MetaMethod.NewIndex;
        if Value.is_nil idx then raw_store allocated t key v ts l
        else Ok (new_index_through ts idx table key v, (ts, l))
  | Value.UserData u =>
      match Table.user_metatable ts u with
      | Some mt =>
          idx ← meta_field ts (Some mt) MetaMethod.NewIndex;
          Ok (if Value.is_nil idx then unary_error else new_index_through ts idx table key v, (ts, l))
      | None => Ok (unary_error, (ts, l))
      end
  | _ => Ok (unary_error, (ts, l))
  end.

(** ** The callbacks made by [index] and [new_index]

    A callback returns what is on its stack, or asks for a call with it. *)
Inductive CallbackReturn : Type :=
  | Return (stack : list value)
  | Call (function : MetaOps.Callee S) (stack : list value).

(** [stack.get(i)] is nil past the end. *)
Definition stack_get (stack : list value) (i : nat) : value := default Value.Nil (stack !! i).

Definition index_callback (ts : Table.Tables S) (stack : list value)
  : outcome (CallbackReturn + MetaOps.MetaOperatorError) :=
  let table := stack_get stack 0 in
  let key := stack_get stack 1 in
  r ← index ts table key;
  Ok (match r with
      | inl (MetaOps.ResultValue v) => inl (Return [v])
      | inl (MetaOps.ResultCall call) => inl (Call (MetaOps.function call) (MetaOps.args call))
      | inr e => inr e
      end).

Definition new_index_callback (allocated : Z) (stack : list value) (ts : Table.Tables S)
    (l : Memory.MemoryLimit)
  : outcome ((CallbackReturn + MetaOps.MetaOperatorError) * (Table.Tables S * Memory.MemoryLimit)) :=
  '(r, st) ← new_index allocated (stack_get stack 0) (stack_get stack 1) (stack_get stack 2) ts l;
  Ok (match r with
      | inl (Some call) => inl (Call (MetaOps.function call) (MetaOps.args call))
      | inl None => inl (Return [])
      | inr e => inr e
      end, st).

(** ** [len] and [concat] *)

Definition metatable_if_object (ts : Table.Tables S) (v : value) : outcome (option obj) :=
  match v with
  | Value.Table t => Table.get_metatable ts t
  | Value.UserData u => Ok (Table.user_metatable ts u)
  | _ => Ok None
  end.

Definition len (ts : Table.Tables S) (v : value) : outcome meta_result :=
  mt ← metatable_if_object ts v;
  m ← meta_field ts mt MetaMethod.Len;
  if negb (Value.is_nil m) then Ok (MetaOps.meta_call (heap ts) MetaMethod.Len m [v])
  else
    match v with
    | Value.String s => Ok (inl (MetaOps.ResultValue (Value.Integer (Z.of_nat (length (as_bytes s))))))
    | Value.Table t => n ← Table.length ts t; Ok (inl (MetaOps.ResultValue (Value.Integer n)))
    | f => Ok (inr (MetaOps.UnaryError MetaMethod.Len (Value.type_name f)))
    end.

(** What [write!("{}", value)] appends *)
Definition value_bytes (v : value) : option bytes :=
  match v with
  | Value.Integer i => Some (StringUtils.i64_to_string i)
  | Value.Number n => Some (display_f64 n)
  | Value.String s => Some (as_bytes s)
  | _ => None
  end.

Fixpoint join_values (vs : list value) : option bytes :=
  match vs with
  | [] => Some []
  | v :: vs => b ← value_bytes v; bs ← join_values vs; Some (b ++ bs)
  end.

Definition concat (ts : Table.Tables S) (lhs rhs : value) : outcome meta_result :=
  MetaOps.meta_metaop (heap ts) lhs rhs MetaMethod.Concat (fun a b =>
    Ok (if Value.is_implicit_string a && Value.is_implicit_string b
        then (fun bs => Value.String (intern bs)) <$> join_values [a; b]
        else None)).

(** [ilog10] of a positive [i64] *)
Fixpoint ilog10_loop (fuel : nat) (n : Z) : Z :=
  match fuel with
  | O => 0
  | Datatypes.S fuel => if n <? 10 then 0 else 1 + ilog10_loop fuel (n / 10)
  end.
Definition ilog10 (n : Z) : Z := ilog10_loop 19 n.

(** [i.abs()] overflows on the least integer. *)
Fixpoint estimate_concatenated_len (len : Z) (vs : list value)
  : outcome (option Z + MetaOps.MetaOperatorError) :=
  match vs with
  | [] => Ok (inl (Some len))
  | v :: vs =>
      value_len ←
        match v with
        | Value.Integer i => a ← arith i64 (Z.abs i); Ok (Some (ilog10 (Z.max a 1) + Z.b2z (i <? 0)))
        | Value.Number _ => Ok (Some 10)
        | Value.String s => Ok (Some (Z.of_nat (length (as_bytes s))))
        | _ => Ok None
        end;
      match value_len with
      | None => Ok (inl None)
      | Some value_len =>
          match checked usize (len + value_len) with
          | Some len => estimate_concatenated_len len vs
          | None => Ok (inr MetaOps.ConcatOverflow)
          end
      end
  end.

Inductive ConcatMetaResult : Type :=
  | ConcatValue (v : value)
  | ConcatCall (f : MetaOps.Callee S).

Definition concat_many (allocated : Z) (values : list value) (l : Memory.MemoryLimit)
  : outcome ((ConcatMetaResult + MetaOps.MetaOperatorError) * Memory.MemoryLimit) :=
  len ← estimate_concatenated_len 0 values;
  match len with
  | inr e => Ok (inr e, l)
  | inl None => Ok (inl (ConcatCall MetaOps.CallConcat), l)
  | inl (Some len) =>
      let '(checked, l) := Memory.check allocated len l in
      match checked with
      | inr e => Ok (inr (MetaOps.OutOfMemory e), l)
      | inl _ =>
          match join_values values with
          | Some bytes => Ok (inl (ConcatValue (Value.String (intern bytes))), l)
          | None => Panic
          end
      end
  end.
End MetaTable.
End MetaTable.
