(* ===== verification/RunVm.v ===== *)
(** * The instruction loop: [run_vm] of [thread/vm.rs] and [set_table_list] of [thread/thread.rs]

    The table instructions, and the loop that fetches an instruction of the running frame and
    gives it to the arm that does it: those of [Vm] on values, of [VmControl] on the program
    counter, of [Thread] on frames and upvalues, and of this file on tables. *)

From S2P Require Import Prelude Slices Float64 StringUtils Constant Value Limits RawTable MetaOps Opcode Operators Vm VmControl Thread Table.

Module RunVm.
Section RunVm.
Context `{BuildProfile} `{FloatLib} {S : Type} `{AsBytes S} `{StringAddress S} `{Platform S} `{Interning S} `{DisplayFloat}.
Context {Sequence Error : Type}.
Abbreviation value := (Value.t S).
Abbreviation LuaFrame := (Thread.LuaFrame (S:=S) (Sequence:=Sequence) (Error:=Error)).

(** A running Lua frame and the tables it can reach *)
Record Machine : Type := mk_Machine { lua : LuaFrame; tables : Table.Tables S }.

(** What the arena has allocated in a state, and the sizes of a closure and an upvalue *)
Context (allocated : Machine -> Z) (size_of_inner size_of_upvalue : Z).

Definition memory (mc : Machine) : Memory.MemoryLimit := Thread.memory (Thread.world (lua mc)).
Definition set_memory (l : Memory.MemoryLimit) (m : LuaFrame) : LuaFrame :=
  let w := Thread.world m in
  Thread.set_world (Thread.mk_World (Thread.threads w) (Thread.upvalues w) (Thread.closures w) l) m.
Definition set_tables (st : Table.Tables S * Memory.MemoryLimit) (mc : Machine) : Machine :=
  mk_Machine (set_memory (snd st) (lua mc)) (fst st).
Definition set_lua (m : LuaFrame) (mc : Machine) : Machine := mk_Machine m (tables mc).

(** [inl true] goes on, [inl false] breaks out of the loop. *)
Abbreviation flow := (outcome ((bool + VMError.t) * Machine)).
Definition go (mc : Machine) : flow := Ok (inl true, mc).
Definition break (mc : Machine) : flow := Ok (inl false, mc).
Definition throw (e : VMError.t) (mc : Machine) : flow := Ok (inr e, mc).

(** ** [set_table_list] *)

(** The loop over [count] elements of the stack [s], from register [first] on *)
Fixpoint set_elements (table : obj) (start : Z) (s : list value) (first count : nat) (mc : Machine)
  : outcome ((Z + VMError.t) * Machine) :=
  match count with
  | O => Ok (inl start, mc)
  | Datatypes.S count =>
      match checked i64 (start + 1) with
      | Some inc =>
          e ← Slice.get s first;
          '(res, st) ← Table.set_raw (allocated mc) table (Value.Integer inc) e (tables mc) (memory mc);
          let mc := set_tables st mc in
          match res with
          | inl _ => set_elements table inc s (first + 1) count mc
          | inr err => Ok (inr (VMError.OperatorError (MetaTable.from_table_error err)), mc)
          end
      | None => Ok (inl start, mc)
      end
  end.

Definition reserve_batch (table : obj) (start : Z) (set_count : nat) (mc : Machine)
  : outcome ((unit + VMError.t) * Machine) :=
  match checked i64 (start + Z.of_nat set_count) with
  | Some last =>
      if (0 <? set_count)%nat then
        end_index ← arith i64 (last - 1);
        if 0 <=? end_index then
          '(res, st) ← Table.reserve_array_through (allocated mc) table end_index (tables mc) (memory mc);
          let mc := set_tables st mc in
          Ok (match res with
              | inl _ => inl tt
              | inr err => inr (VMError.OperatorError (MetaTable.from_table_error err))
              end, mc)
        else Ok (inl tt, mc)
      else Ok (inl tt, mc)
  | None => Ok (inl tt, mc)
  end.

(** What is written when the batch is stored: the new index, and the frame of full size *)
Definition finish_list (count : VarCount.t) (start_ind : nat) (start : Z) (m : LuaFrame)
  : outcome LuaFrame :=
  '(fr, rest) ← Thread.top m;
  s ← Slice.set (Thread.stack (Thread.state m)) start_ind (Value.Integer start);
  let st := Thread.set_stack s (Thread.state m) in
  Ok (Thread.set_state
        (if VarCount.is_variable count
         then Thread.mk_ThreadState (Thread.Lua (Thread.set_variable false fr) :: rest)
                (resize (Thread.base fr + Thread.stack_size fr) Value.Nil s) (Thread.open_upvalues st)
         else st) m).

Definition set_table_list (table_base : RegisterIndex) (count : VarCount.t) (mc : Machine)
  : outcome ((unit + VMError.t) * Machine) :=
  '(fr, _) ← Thread.top (lua mc);
  if negb (eqb (VarCount.is_variable count) (Thread.is_variable fr))
  then Ok (inr (VMError.ExpectedVariableStack (VarCount.is_variable count)), mc)
  else
    let mc := set_lua (Thread.consume Thread.FUEL_PER_CALL (lua mc)) mc in
    let s := Thread.stack (Thread.state (lua mc)) in
    let table_ind := (Thread.base fr + Thread.reg table_base)%nat in
    let start_ind := (table_ind + 1)%nat in
    table ← Slice.get s table_ind;
    start ← Slice.get s start_ind;
    match table, start with
    | Value.Table table, Value.Integer start =>
        set_count ← Thread.count_or count
          (n ← Slice.sub (length s) table_ind; Slice.sub n 2);
        let mc := set_lua (Thread.consume_items set_count (lua mc)) mc in
        '(reserved, mc) ← reserve_batch table start set_count mc;
        match reserved with
        | inr e => Ok (inr e, mc)
        | inl _ =>
            '(stored, mc) ← set_elements table start s (table_ind + 2) set_count mc;
            match stored with
            | inr e => Ok (inr e, mc)
            | inl start => m ← finish_list count start_ind start (lua mc); Ok (inl tt, set_lua m mc)
            end
        end
    | _, _ => Ok (inr (VMError.BadSetList (Value.type_name table) (Value.type_name start)), mc)
    end.

(** ** The table instructions *)

(** [return] of an arm: the value in a register, or the call that will put it there *)
Definition meta_finish (dest : RegisterIndex) (r : MetaOps.MetaResult S + MetaOps.MetaOperatorError)
    (mc : Machine) : flow :=
  match r with
  | inl (MetaOps.ResultValue v) => m ← Thread.write dest v (lua mc); go (set_lua m mc)
  | inl (MetaOps.ResultCall call) =>
      '(res, m) ← Thread.call_meta_function (MetaOps.function call) (MetaOps.args call)
                    (MetaReturn.Register dest) (lua mc);
      Ok (match res with inl _ => inl false | inr e => inr e end, set_lua m mc)
  | inr e => throw (VMError.OperatorError e) mc
  end.

Definition without_metatable (ts : Table.Tables S) (table : value) : outcome (option obj) :=
  match table with
  | Value.Table t => mt ← Table.get_metatable ts t; Ok (match mt with None => Some t | Some _ => None end)
  | _ => Ok None
  end.

Definition exec_get (dest : RegisterIndex) (table key : value) (mc : Machine) : flow :=
  t ← without_metatable (tables mc) table;
  match t with
  | Some t =>
      v ← Table.get_raw (tables mc) t key;
      m ← Thread.write dest v (lua mc); go (set_lua m mc)
  | None => r ← MetaTable.index (tables mc) table key; meta_finish dest r mc
  end.

Definition exec_set (table key v : value) (mc : Machine) : flow :=
  t ← without_metatable (tables mc) table;
  match t with
  | Some t =>
      '(res, st) ← Table.set_raw (allocated mc) t key v (tables mc) (memory mc);
      Ok (match res with
          | inl _ => inl true
          | inr e => inr (VMError.OperatorError (MetaTable.from_table_error e))
          end, set_tables st mc)
  | None =>
      '(r, st) ← MetaTable.new_index (allocated mc) table key v (tables mc) (memory mc);
      let mc := set_tables st mc in
      match r with
      | inl None => go mc
      | inl (Some call) =>
          '(res, m) ← Thread.call_meta_function (MetaOps.function call) (MetaOps.args call)
                        MetaReturn.None (lua mc);
          Ok (match res with inl _ => inl false | inr e => inr e end, set_lua m mc)
      | inr e => throw (VMError.OperatorError e) mc
      end
  end.

Definition read_rc (constants : list (Constant.t S)) (rc : RCIndex) (mc : Machine) : outcome value :=
  r ← Thread.registers (lua mc); Vm.get_rc r constants rc.
Definition read_upvalue (c : Thread.ClosureInner (S:=S)) (i : UpValueIndex) (mc : Machine) : outcome value :=
  u ← Slice.get (Thread.closure_upvalues c) (Z.to_nat (upvalue_index i));
  Thread.get_upvalue u (lua mc).

Definition exec_tables (c : Thread.ClosureInner (S:=S)) (op : Operation.t) (mc : Machine) : option flow :=
  let constants := Thread.constants (Thread.proto c) in
  match op with
  | Operation.NewTable dest array_size map_size => Some (
      '(res, st) ← Table.try_new (allocated mc) (Z.to_nat array_size) (Z.to_nat map_size)
                     (tables mc) (memory mc);
      let mc := set_tables st mc in
      match res with
      | inl t => m ← Thread.write dest (Value.Table t) (lua mc); go (set_lua m mc)
      | inr e => throw (VMError.OutOfMemory e) mc
      end)
  | Operation.GetTable dest table key => Some (
      table ← Thread.read table (lua mc);
      key ← read_rc constants key mc;
      exec_get dest table key mc)
  | Operation.SetTable table key v => Some (
      table ← Thread.read table (lua mc);
      key ← read_rc constants key mc;
      v ← read_rc constants v mc;
      exec_set table key v mc)
  | Operation.GetUpTable dest table key => Some (
      table ← read_upvalue c table mc;
      key ← read_rc constants key mc;
      exec_get dest table key mc)
  | Operation.SetUpTable table key v => Some (
      table ← read_upvalue c table mc;
      key ← read_rc constants key mc;
      v ← read_rc constants v mc;
      exec_set table key v mc)
  | Operation.SetList base count => Some (
      '(res, mc) ← set_table_list base count mc;
      Ok (match res with inl _ => inl true | inr e => inr e end, mc))
  | Operation.Method base table key => Some (
      table ← Thread.read table (lua mc);
      key ← read_rc constants key mc;
      r ← Thread.registers (lua mc);
      r ← Control.set_at r (register_index base + 1) table;
      m ← Thread.put_registers r (lua mc);
      let mc := set_lua m mc in
      res ← MetaTable.index (tables mc) table key;
      meta_finish base res mc)
  | Operation.Concat dest source count => Some (
      r ← Thread.registers (lua mc);
      let base := Thread.reg source in
      values ← Slice.slice (Vm.stack_frame r) base (base + Z.to_nat count);
      '(res, l) ← MetaTable.concat_many (allocated mc) values (memory mc);
      let mc := set_lua (set_memory l (lua mc)) mc in
      match res with
      | inr e => throw (VMError.OperatorError e) mc
      | inl (MetaTable.ConcatValue v) => m ← Thread.write dest v (lua mc); go (set_lua m mc)
      | inl (MetaTable.ConcatCall f) =>
          '(res, m) ← Thread.call_meta_function f values (MetaReturn.Register dest) (lua mc);
          Ok (match res with inl _ => inl false | inr e => inr e end, set_lua m mc)
      end)
  | Operation.Length dest source => Some (
      v ← Thread.read source (lua mc);
      t ← without_metatable (tables mc) v;
      match v, t with
      | Value.String s, _ =>
          m ← Thread.write dest (Value.Integer (Z.of_nat (length (as_bytes s)))) (lua mc); go (set_lua m mc)
      | _, Some t =>
          n ← Table.length (tables mc) t;
          m ← Thread.write dest (Value.Integer n) (lua mc); go (set_lua m mc)
      | _, None => r ← MetaTable.len (tables mc) v; meta_finish dest r mc
      end)
  | _ => None
  end.

(** ** One instruction *)

(** An arm of [Vm] *)
Definition value_step (s : outcome Vm.step) (mc : Machine) : flow :=
  s ← s;
  match s with
  | Vm.Next r => m ← Thread.put_registers r (lua mc); go (set_lua m mc)
  | Vm.CallMeta call ret r =>
      m ← Thread.put_registers r (lua mc);
      '(res, m) ← Thread.call_meta_function (MetaOps.function call) (MetaOps.args call) ret m;
      Ok (match res with inl _ => inl false | inr e => inr e end, set_lua m mc)
  | Vm.Raise e => throw (VMError.OperatorError e) mc
  end.

(** An arm of [VmControl] *)
Definition control_step (s : outcome Control.step) (mc : Machine) : flow :=
  s ← s;
  match s with
  | Control.Next r => m ← Thread.put_registers r (lua mc); go (set_lua m mc)
  | Control.Close bottom r =>
      m ← Thread.put_registers r (lua mc);
      m ← Thread.registers_close_upvalues (mk_RegisterIndex bottom) m;
      go (set_lua m mc)
  | Control.Raise e => throw e mc
  end.

(** The instructions after which the frame that runs may be another *)
Definition leaves_frame (op : Operation.t) : bool :=
  match op with
  | Operation.Call _ _ _ | Operation.TailCall _ _ | Operation.Return _ _
  | Operation.GenericForCall _ _ => true
  | _ => false
  end.

Definition exec (c : Thread.ClosureInner (S:=S)) (op : Operation.t) (mc : Machine) : flow :=
  let constants := Thread.constants (Thread.proto c) in
  let h := MetaTable.heap (tables mc) in
  r ← Thread.registers (lua mc);
  match Control.exec constants op r with
  | Some s => control_step s mc
  | None =>
      match Vm.exec h constants op r with
      | Some s => value_step s mc
      | None =>
          match exec_tables c op mc with
          | Some f => f
          | None =>
              match Thread.exec h (allocated mc) size_of_inner size_of_upvalue op (lua mc) with
              | Some res =>
                  '(res, m) ← res;
                  Ok (match res with inl _ => inl (negb (leaves_frame op)) | inr e => inr e end,
                      set_lua m mc)
              | None => Panic
              end
          end
      end
  end.

(** [let op = current_prototype.opcodes[*registers.pc].decode(); *registers.pc += 1] *)
Definition fetch (c : Thread.ClosureInner (S:=S)) (mc : Machine) : outcome (Operation.t * Machine) :=
  r ← Thread.registers (lua mc);
  op ← Vm.index (Thread.opcodes (Thread.proto c)) (Vm.pc r);
  pc ← arith usize (Vm.pc r + 1);
  m ← Thread.put_registers (Vm.mk_registers (Vm.stack_frame r) pc) (lua mc);
  Ok (op, set_lua m mc).

(** ** [run_vm] *)

(** The loop; [left_] instructions may still run, [instructions_run] have. *)
Fixpoint run_loop (left_ : nat) (instructions_run : Z) (c : Thread.ClosureInner (S:=S)) (mc : Machine)
  : outcome ((Z + VMError.t) * Machine) :=
  match left_ with
  | O => Ok (inl instructions_run, mc)
  | Datatypes.S left_ =>
      '(op, mc) ← fetch c mc;
      '(res, mc) ← exec c op mc;
      match res with
      | inl true => run_loop left_ (instructions_run + 1) c mc
      | inl false => Ok (inl instructions_run, mc)
      | inr e => Ok (inr e, mc)
      end
  end.

Definition run_vm (max_instructions : Z) (mc : Machine) : outcome ((Z + VMError.t) * Machine) :=
  if max_instructions =? 0 then Ok (inl 0, mc)
  else
    c ← Thread.current (lua mc);
    run_loop (Z.to_nat max_instructions) 0 c mc.
End RunVm.
End RunVm.
