(* ===== verification/TableTheorems.v ===== *)
(** * What tables promise the machine

    [SetList] stores all of its batch or none of it; indexing through metatables finds what
    the chain of [__index] leads to; and the instruction loop may be interrupted anywhere. *)

From S2P Require Import Prelude Slices Float64 StringUtils Constant Value Limits RawTable MetaOps Opcode Operators Vm VmControl Thread ThreadFacts Table RunVm.
From S2P Require Import RawTableFacts RawTableGrow RawTableSet RawTableTheorems Buckets.
Import RawTableTheorems KeyFacts SetFacts.

Module TableTheorems.
Section Theorems.
Context `{BuildProfile} `{FloatLib} {S : Type} `{AsBytes S} `{StringAddress S} `{Platform S} `{!PlatformLaws S}.
Context `{Interning S} `{DisplayFloat} {Sequence Error : Type}.
Abbreviation value := (Value.t S).
Abbreviation Machine := (RunVm.Machine (S:=S) (Sequence:=Sequence) (Error:=Error)).
Context (allocated : Machine -> Z) (K : CanonicalKey.t S -> Prop) (HK : consistent K).
Context (Kint : forall i, in_int i64 i -> K (CanonicalKey.Integer i)).
Implicit Types (mc : Machine) (ts : Table.Tables S) (v key : value) (t : obj).

(** All tables are well formed, their keys in use. *)
Definition tables_ok ts : Prop := forall t s, Table.tables ts !! t = Some s -> good K (Table.raw_table s).

(** *** [SetList] *)

(** The element a batch stored from index [start + 1] on has under a key *)
Definition batch_at (start : Z) (elements : list value) key : option value :=
  match CanonicalKey.new key with
  | Ok (inl (CanonicalKey.Integer i)) => if start <? i then elements !! Z.to_nat (i - start - 1) else None
  | _ => None
  end.

Lemma batch_at_cons start e es key : batch_at start (e :: es) key =
  if same_key (Value.Integer (start + 1)) key then Some e else batch_at (start + 1) es key.
Proof.
  unfold batch_at, same_key. cbn [CanonicalKey.new].
  destruct (CanonicalKey.new key) as [[[| i| | | | | | |]|]|]; try done. cbn [CanonicalKey.eq].
  destruct (Z.eqb_spec (start + 1) i) as [<-|Hne].
  - rewrite (proj2 (Z.ltb_lt _ _)) by lia. by replace (start + 1 - start - 1) with 0 by lia.
  - destruct (Z.ltb_spec start i), (Z.ltb_spec (start + 1) i); try lia; [|done].
    replace (Z.to_nat (i - start - 1)) with (Datatypes.S (Z.to_nat (i - (start + 1) - 1))) by lia. done.
Qed.

Lemma batch_at_old i es key : same_key (Value.Integer i) key = true -> batch_at i es key = None.
Proof.
  unfold same_key, batch_at. cbn [CanonicalKey.new].
  destruct (CanonicalKey.new key) as [[[| j| | | | | | |]|]|]; try done. cbn [CanonicalKey.eq].
  intros ->%Z.eqb_eq. by rewrite Z.ltb_irrefl.
Qed.

Lemma set_memory_same mc : RunVm.set_memory (RunVm.memory mc) (RunVm.lua mc) = RunVm.lua mc.
Proof. by destruct mc as [[th st [] fu] ts]. Qed.

Lemma lookup_put t s ts : Table.tables (Table.put t s ts) !! t = Some s.
Proof. apply lookup_insert_eq. Qed.

Lemma put_put t s s' ts : Table.put t s (Table.put t s' ts) = Table.put t s ts.
Proof. unfold Table.put. cbn. by rewrite insert_insert_eq. Qed.

(** Stores within the array: all are done, and nothing else changes. *)
Lemma set_elements_spec t s l first es start mc : Table.tables (RunVm.tables mc) !! t = Some s ->
  good K (Table.raw_table s) -> 0 <= start -> (forall i e, es !! i = Some e -> l !! (first + i)%nat = Some e) ->
  start + Z.of_nat (length es) <= Z.of_nat (length (RawTable.array (Table.raw_table s))) ->
  exists raw, RunVm.set_elements allocated t start l first (length es) mc =
      Ok (inl (start + Z.of_nat (length es)),
          RunVm.mk_Machine (RunVm.lua mc) (Table.put t (Table.mk_TableState raw (Table.metatable s)) (RunVm.tables mc))) /\
    good K raw /\
    forall key, usable K key -> RawTable.get raw key =
      match batch_at start es key with Some v => Ok v | None => RawTable.get (Table.raw_table s) key end.
Proof.
  revert first start s mc. induction es as [|e es IH]; intros first start s mc Ht Hg Hs Hl Hlen.
  { exists (Table.raw_table s). split_and!; [|done|].
    - cbn. rewrite Z.add_0_r. do 3 f_equal. destruct mc as [m ts], s; cbn in *. f_equal.
      unfold Table.put. rewrite insert_id by done. by destruct ts.
    - intros key _. unfold batch_at. destruct (CanonicalKey.new key) as [[[]|]|]; try done. by destruct (_ <? _). }
  cbn [length] in Hlen. destruct Hg as [Hwf Hlive]. pose proof (TableFacts.wf_max _ Hwf) as Hmax.
  pose proof (TableFacts.wf_capacity _ Hwf) as Hcap.
  assert (Hin : in_int i64 (start + 1)) by int_lia.
  cbn [length RunVm.set_elements]. rewrite checked_in by done.
  rewrite <- (Nat.add_0_r first), (SliceFacts.get_Some _ _ e), outcome_bind_Ok by by apply Hl. unfold Table.set_raw, Table.borrow. rewrite Ht, outcome_bind_Ok.
  destruct (set_in_array (allocated mc) (Table.raw_table s) start e (RunVm.memory mc)) as (old & a & Hset & Ha); [lia|].
  destruct (set_as_map K (allocated mc) (Table.raw_table s) (RunVm.memory mc) (Value.Integer (start + 1)) e HK (conj Hwf Hlive))
    as (res & r' & l' & Hset' & Hg' & Hres).
  { intros k Hk. injection Hk as <-. by apply Kint. }
  rewrite Hset in Hset'. injection Hset' as <- <- <-. destruct Hres as [_ Hget]. rewrite Hset, outcome_bind_Ok.
  set (s1 := Table.mk_TableState (RawTable.set_array a (Table.raw_table s)) (Table.metatable s)).
  set (mc1 := RunVm.set_tables (Table.put t s1 (RunVm.tables mc), RunVm.memory mc) mc).
  destruct (IH (first + 1)%nat (start + 1) s1 mc1) as (raw & Hes & Hgr & Hgetr); [apply lookup_put|done|lia| |cbn; lia|].
  { intros i e' Hi. replace (first + 1 + i)%nat with (first + Datatypes.S i)%nat by lia. by apply Hl. }
  exists raw. split_and!; [|done|].
  - cbn [mbind outcome_bind]. rewrite Nat.add_0_r. fold s1 mc1. rewrite Hes. unfold mc1, RunVm.set_tables. cbn [RunVm.lua RunVm.tables fst snd].
    rewrite set_memory_same, put_put.
    by replace (start + Z.of_nat (Datatypes.S (length es))) with (start + 1 + Z.of_nat (length es)) by lia.
  - intros key Hk. rewrite Hgetr, batch_at_cons by done. cbn [Table.raw_table s1]. rewrite Hget by done.
    destruct (same_key (Value.Integer (start + 1)) key) eqn:E; [|done]. by rewrite (batch_at_old _ _ _ E).
Qed.

(** The elements that [SetList] stores *)
Definition batch (count : VarCount.t) (s : list value) (table_ind : nat) : list value :=
  match VarCount.to_constant count with
  | Some c => take (Z.to_nat c) (drop (table_ind + 2) s)
  | None => drop (table_ind + 2) s
  end.

(** The registers hold the batch that is asked for *)
Definition has_batch (count : VarCount.t) (s : list value) (table_ind : nat) : Prop :=
  match VarCount.to_constant count with Some c => (table_ind + 2 + Z.to_nat c <= length s)%nat | None => True end.

Lemma batch_length count s table_ind : (table_ind + 2 <= length s)%nat -> has_batch count s table_ind ->
  Thread.count_or count (n ← Slice.sub (length s) table_ind; Slice.sub n 2) = Ok (length (batch count s table_ind)).
Proof.
  intros Hl. unfold has_batch, batch, Thread.count_or. destruct (VarCount.to_constant count); intros Hb.
  - rewrite length_take, length_drop. f_equal. lia.
  - rewrite SliceFacts.sub_le, outcome_bind_Ok, SliceFacts.sub_le, length_drop by lia. f_equal. lia.
Qed.

Lemma batch_lookup count s table_ind i e : batch count s table_ind !! i = Some e ->
  s !! (table_ind + 2 + i)%nat = Some e.
Proof.
  unfold batch. case_match; [|by rewrite lookup_drop].
  intros Hi. pose proof (lookup_lt_Some _ _ _ Hi) as Hlt. rewrite length_take in Hlt.
  by rewrite lookup_take_lt, lookup_drop in Hi by lia.
Qed.

Lemma put_same t s ts : Table.tables ts !! t = Some s -> Table.put t s ts = ts.
Proof. intros Ht. unfold Table.put. rewrite insert_id by done. by destruct ts. Qed.

Lemma reserve_batch_spec t s start n mc : Table.tables (RunVm.tables mc) !! t = Some s ->
  good K (Table.raw_table s) -> 0 <= start -> start + Z.of_nat n <= int_max i64 ->
  exists res mc', RunVm.reserve_batch allocated t start n mc = Ok (res, mc') /\
  match res with
  | inl _ => exists raw l, mc' = RunVm.set_tables (Table.put t (Table.mk_TableState raw (Table.metatable s)) (RunVm.tables mc), l) mc /\
      good K raw /\ (n = O \/ start + Z.of_nat n <= Z.of_nat (length (RawTable.array raw))) /\
      forall key, usable K key -> RawTable.get raw key = RawTable.get (Table.raw_table s) key
  | inr e => exists oom l, e = VMError.OperatorError (MetaOps.OutOfMemory oom) /\ mc' = RunVm.set_tables (RunVm.tables mc, l) mc
  end.
Proof.
  intros Ht Hg Hs Hn. unfold RunVm.reserve_batch. rewrite checked_in by int_lia.
  destruct (Nat.ltb_spec 0 n) as [Hpos|Hzero].
  2:{ assert (n = O) as -> by lia. eexists _, mc. split; [done|]. exists (Table.raw_table s), (RunVm.memory mc).
      split_and!; [|done|by left|done]. unfold RunVm.set_tables. cbn [fst snd].
      rewrite set_memory_same, put_same by (by destruct s). by destruct mc. }
  rewrite arith_in, outcome_bind_Ok, (proj2 (Z.leb_le _ _)) by int_lia.
  unfold Table.reserve_array_through, Table.borrow. rewrite Ht, outcome_bind_Ok.
  destruct (reserve_through_spec K (allocated mc) (start + Z.of_nat n - 1) (Table.raw_table s) (RunVm.memory mc))
    as (res & r' & l' & -> & Hg' & Hget & Hres); [done..|lia|].
  cbn [mbind outcome_bind]. eexists _, _. split; [reflexivity|]. destruct res as [u|e].
  - exists r', l'. split_and!; [done..| |done]. right. lia.
  - destruct Hres as [-> He]. destruct e as [|oom]; [done|]. exists oom, l'. split; [done|].
    by rewrite put_same by (by destruct s).
Qed.

Lemma set_table_list_spec base count mc fr rest t start s
  (table_ind := (Thread.base fr + Thread.reg base)%nat) (stk := Thread.stack (Thread.state (RunVm.lua mc)))
  (es := batch count stk table_ind) :
  Thread.frames (Thread.state (RunVm.lua mc)) = Thread.Lua fr :: rest ->
  VarCount.is_variable count = Thread.is_variable fr ->
  stk !! table_ind = Some (Value.Table t) -> stk !! (table_ind + 1)%nat = Some (Value.Integer start) ->
  has_batch count stk table_ind -> Table.tables (RunVm.tables mc) !! t = Some s -> good K (Table.raw_table s) ->
  0 <= start -> start + Z.of_nat (length es) <= int_max i64 ->
  exists res mc', RunVm.set_table_list allocated base count mc = Ok (res, mc') /\
  match res with
  | inl _ => exists raw,
      RunVm.tables mc' = Table.put t (Table.mk_TableState raw (Table.metatable s)) (RunVm.tables mc) /\ good K raw /\
      (forall key, usable K key -> RawTable.get raw key =
         match batch_at start es key with Some v => Ok v | None => RawTable.get (Table.raw_table s) key end) /\
      let stk' := <[(table_ind + 1)%nat := Value.Integer (start + Z.of_nat (length es))]> stk in
      Thread.stack (Thread.state (RunVm.lua mc')) =
        if VarCount.is_variable count then resize (Thread.base fr + Thread.stack_size fr) Value.Nil stk' else stk'
  | inr e => exists oom, e = VMError.OperatorError (MetaOps.OutOfMemory oom) /\
      RunVm.tables mc' = RunVm.tables mc /\ Thread.state (RunVm.lua mc') = Thread.state (RunVm.lua mc)
  end.
Proof.
  intros Hfr Hvar Ht Hstart Hb Hts Hg Hs Hn. pose proof (lookup_lt_Some _ _ _ Hstart) as Hlt.
  unfold RunVm.set_table_list, Thread.top. rewrite Hfr, outcome_bind_Ok, Hvar, eqb_reflx. cbn [negb].
  fold table_ind. cbn [RunVm.lua RunVm.set_lua Thread.state Thread.consume]. fold stk.
  rewrite (SliceFacts.get_Some _ _ _ Ht), outcome_bind_Ok, (SliceFacts.get_Some _ _ _ Hstart), outcome_bind_Ok.
  rewrite batch_length, outcome_bind_Ok by (done || lia). fold es.
  set (mc1 := RunVm.set_lua _ _).
  destruct (reserve_batch_spec t s start (length es) mc1) as (res & mc2 & -> & Hres); [done..|].
  cbn [mbind outcome_bind]. destruct res as [u|e].
  2:{ destruct Hres as (oom & l & -> & ->). eexists _, _. split; [reflexivity|]. by exists oom. }
  destruct Hres as (raw & l & -> & Hgr & Hroom & Hget).
  set (mc2 := RunVm.set_tables _ _).
  assert (Hes : exists raw' mc3, RunVm.set_elements allocated t start stk (table_ind + 2) (length es) mc2 =
      Ok (inl (start + Z.of_nat (length es)), mc3) /\ RunVm.lua mc3 = RunVm.lua mc2 /\
      RunVm.tables mc3 = Table.put t (Table.mk_TableState raw' (Table.metatable s)) (RunVm.tables mc) /\
      good K raw' /\ forall key, usable K key -> RawTable.get raw' key =
        match batch_at start es key with Some v => Ok v | None => RawTable.get (Table.raw_table s) key end).
  { assert (Ht2 : Table.tables (RunVm.tables mc2) !! t = Some (Table.mk_TableState raw (Table.metatable s))) by apply lookup_put.
    destruct Hroom as [Hzero|Hroom].
    - apply nil_length_inv in Hzero. rewrite Hzero. exists raw, mc2. rewrite Z.add_0_r. split_and!; [done..|].
      intros key Hk. rewrite Hget by done. unfold batch_at. destruct (CanonicalKey.new key) as [[[]|]|]; try done.
      by destruct (_ <? _).
    - destruct (set_elements_spec t _ stk (table_ind + 2) es start mc2 Ht2 Hgr Hs) as (raw' & -> & Hgr' & Hget'); [apply batch_lookup|done|].
      eexists raw', _. split_and!; [done..| |done|]; cbn [RunVm.tables mc2 RunVm.set_tables fst snd]; [by rewrite put_put|].
      intros key Hk. rewrite Hget', Hget by done. done. }
  destruct Hes as (raw' & mc3 & -> & Hlua & Htab & Hgr' & Hget').
  cbn [mbind outcome_bind]. unfold RunVm.finish_list, Thread.top. rewrite Hlua.
  cbn [mc2 mc1 RunVm.lua RunVm.set_lua RunVm.set_tables RunVm.set_memory Thread.set_world Thread.state Thread.consume Thread.consume_items].
  rewrite Hfr, outcome_bind_Ok. fold stk. rewrite SliceFacts.set_lt, outcome_bind_Ok by done.
  eexists _, _. split; [reflexivity|]. exists raw'. split_and!; [done..|]. rewrite Hvar. by destruct (Thread.is_variable fr).
Qed.

(** C33: a table constructor stores its batch whole or not at all.  [SetList] ends in one of two
    ways.  Either the table has under [start + 1], [start + 2], ... exactly the elements of the
    registers, nil ones included, under all other keys what it had, its metatable, and all
    other tables are as they were; the index register then counts the elements stored.  Or
    memory is refused before the first store, and the tables and the stack are as they were. *)
Theorem set_list_exact base count mc fr rest t start s
  (table_ind := (Thread.base fr + Thread.reg base)%nat) (stk := Thread.stack (Thread.state (RunVm.lua mc)))
  (es := batch count stk table_ind) :
  Thread.frames (Thread.state (RunVm.lua mc)) = Thread.Lua fr :: rest ->
  VarCount.is_variable count = Thread.is_variable fr ->
  stk !! table_ind = Some (Value.Table t) -> stk !! (table_ind + 1)%nat = Some (Value.Integer start) ->
  has_batch count stk table_ind -> Table.tables (RunVm.tables mc) !! t = Some s -> good K (Table.raw_table s) ->
  0 <= start -> start + Z.of_nat (length es) <= int_max i64 ->
  exists res mc', RunVm.set_table_list allocated base count mc = Ok (res, mc') /\
  match res with
  | inl _ => exists raw,
      RunVm.tables mc' = Table.put t (Table.mk_TableState raw (Table.metatable s)) (RunVm.tables mc) /\ good K raw /\
      (forall key, usable K key -> RawTable.get raw key =
         match batch_at start es key with Some v => Ok v | None => RawTable.get (Table.raw_table s) key end) /\
      let stk' := <[(table_ind + 1)%nat := Value.Integer (start + Z.of_nat (length es))]> stk in
      Thread.stack (Thread.state (RunVm.lua mc')) =
        if VarCount.is_variable count then resize (Thread.base fr + Thread.stack_size fr) Value.Nil stk' else stk'
  | inr e => exists oom, e = VMError.OperatorError (MetaOps.OutOfMemory oom) /\
      RunVm.tables mc' = RunVm.tables mc /\ Thread.state (RunVm.lua mc') = Thread.state (RunVm.lua mc)
  end.
Proof. apply set_table_list_spec. Qed.
End Theorems.

(** ** Indexing through metatables *)
Section Index.
Context `{BuildProfile} `{FloatLib} {S : Type} `{AsBytes S} `{StringAddress S} `{Platform S} `{Interning S} `{DisplayFloat}.
Abbreviation value := (Value.t S).
Implicit Types (ts : Table.Tables S) (v key o idx : value).

Inductive answer : Type :=
  | Is (v : value)                                       (** the field's value *)
  | Calls (f : MetaOps.Callee S) (args : list value)     (** what this call gives *)
  | Fails (e : MetaOps.MetaOperatorError).

Definition is_object v : bool := match v with Value.Table _ | Value.UserData _ => true | _ => false end.

(** The [__index] of a value, nil without one *)
Definition handler ts o : outcome value :=
  match o with
  | Value.Table t => mt ← Table.get_metatable ts t; MetaTable.meta_field ts mt MetaMethod.Index
  | Value.UserData u => MetaTable.meta_field ts (Table.user_metatable ts u) MetaMethod.Index
  | Value.String _ => MetaTable.meta_field ts (Some (Table.string_metatable ts)) MetaMethod.Index
  | _ => Ok Value.Nil
  end.

(** The raw field of a table; other values have none. *)
Definition raw_field ts o key : outcome value :=
  match o with Value.Table t => Table.get_raw ts t key | _ => Ok Value.Nil end.

(** What the expression [o[key]] means *)
Inductive reads ts key : value -> answer -> Prop :=
  | reads_field o v : raw_field ts o key = Ok v -> v <> Value.Nil -> reads ts key o (Is v)
  | reads_absent o : raw_field ts o key = Ok Value.Nil -> handler ts o = Ok Value.Nil ->
      reads ts key o (match o with
                      | Value.Table _ => Is Value.Nil
                      | _ => Fails (MetaOps.UnaryError MetaMethod.Index (Value.type_name o))
                      end)
  | reads_through o idx a : raw_field ts o key = Ok Value.Nil -> handler ts o = Ok idx ->
      is_object idx = true -> reads ts key idx a -> reads ts key o a
  | reads_call o idx : raw_field ts o key = Ok Value.Nil -> handler ts o = Ok idx ->
      idx <> Value.Nil -> is_object idx = false ->
      reads ts key o (match MetaOps.call (MetaTable.heap ts) idx with
                      | inl f => Calls f [o; key]
                      | inr e => Fails (MetaOps.CallError MetaMethod.Index e)
                      end).

(** What the machine does with the result of [index]: the calls of its own callback are made,
    at most [fuel] of them. *)
Fixpoint follow (fuel : nat) ts (r : MetaOps.MetaResult S + MetaOps.MetaOperatorError) : outcome (option answer) :=
  match r with
  | inr e => Ok (Some (Fails e))
  | inl (MetaOps.ResultValue v) => Ok (Some (Is v))
  | inl (MetaOps.ResultCall (MetaOps.mk_MetaCall MetaOps.CallIndex args)) =>
      match fuel with
      | O => Ok None
      | Datatypes.S fuel =>
          c ← MetaTable.index_callback ts args;
          match c with
          | inl (MetaTable.Return vs) => Ok (Some (Is (MetaTable.stack_get vs 0)))
          | inl (MetaTable.Call f args) => follow fuel ts (inl (MetaOps.ResultCall (MetaOps.mk_MetaCall f args)))
          | inr e => Ok (Some (Fails e))
          end
      end
  | inl (MetaOps.ResultCall (MetaOps.mk_MetaCall f args)) => Ok (Some (Calls f args))
  end.

Lemma bind_if {A B} (o : outcome A) (b : A -> bool) (x : B) (f : A -> B) :
  (a ← o; Ok (if b a then x else f a)) = (a ← o; if b a then Ok x else Ok (f a)).
Proof. destruct o as [a|]; [cbn; by destruct (b a)|done]. Qed.

Lemma index_eq ts o key : MetaTable.index ts o key =
  (f ← raw_field ts o key;
   if negb (Value.is_nil f) then Ok (inl (MetaOps.ResultValue f))
   else
     idx ← handler ts o;
     if Value.is_nil idx then
       Ok (match o with
           | Value.Table _ => inl (MetaOps.ResultValue Value.Nil)
           | _ => inr (MetaOps.UnaryError MetaMethod.Index (Value.type_name o))
           end)
     else Ok (MetaTable.index_through ts idx o key)).
Proof.
  destruct o; try reflexivity; cbn [raw_field handler MetaTable.index mbind outcome_bind Value.is_nil negb].
  - apply bind_if.
  - destruct (Table.get_raw ts _ key) as [f|]; [|done]. cbn [mbind outcome_bind]. destruct (negb _); [done|].
    by destruct (Table.get_metatable ts _).
  - destruct (Table.user_metatable ts _) as [mt|]; [|done].
    apply bind_if.
Qed.

Lemma call_callee ts idx f : MetaOps.call (MetaTable.heap ts) idx = inl f -> f <> MetaOps.CallIndex.
Proof.
  destruct idx; cbn [MetaOps.call]; repeat case_match; by intros [= <-].
Qed.

Lemma index_through_call ts idx o key n : is_object idx = false ->
  follow n ts (MetaTable.index_through ts idx o key) =
  Ok (Some (match MetaOps.call (MetaTable.heap ts) idx with
            | inl f => Calls f [o; key]
            | inr e => Fails (MetaOps.CallError MetaMethod.Index e)
            end)).
Proof.
  intros Hidx. assert (MetaTable.index_through ts idx o key = MetaOps.meta_call (MetaTable.heap ts) MetaMethod.Index idx [o; key]) as ->
    by by destruct idx.
  unfold MetaOps.meta_call. destruct (MetaOps.call _ idx) as [f|e] eqn:Hf; [|by destruct n].
  apply call_callee in Hf. by destruct n, f.
Qed.

Definition look n ts o key : outcome (option answer) := r ← MetaTable.index ts o key; follow n ts r.

Lemma index_through_object ts idx o key n : is_object idx = true ->
  follow (Datatypes.S n) ts (MetaTable.index_through ts idx o key) = look n ts idx key.
Proof.
  intros Hidx. assert (MetaTable.index_through ts idx o key =
    inl (MetaOps.ResultCall (MetaOps.mk_MetaCall MetaOps.CallIndex [idx; key]))) as -> by by destruct idx.
  cbn [follow]. unfold MetaTable.index_callback, look, MetaTable.stack_get.
  change (default Value.Nil ([idx; key] !! 0%nat)) with idx. change (default Value.Nil ([idx; key] !! 1%nat)) with key.
  destruct (MetaTable.index ts idx key) as [[[v|[f args]]|e]|]; try by destruct n.
Qed.

Lemma look_sound n ts o key a : look n ts o key = Ok (Some a) -> reads ts key o a.
Proof.
  revert o. induction n as [n IH] using lt_wf_ind. intros o. unfold look. rewrite index_eq.
  destruct (raw_field ts o key) as [f|] eqn:Hf; [|done]. rewrite outcome_bind_Ok.
  destruct (Value.is_nil f) eqn:Hnil; cbn [negb].
  2:{ rewrite outcome_bind_Ok. destruct n; intros [= <-]; (apply reads_field; [done|by intros ->]). }
  assert (f = Value.Nil) as -> by by destruct f.
  destruct (handler ts o) as [idx|] eqn:Hh; [|done]. rewrite outcome_bind_Ok.
  destruct (Value.is_nil idx) eqn:Hi.
  { rewrite outcome_bind_Ok. assert (idx = Value.Nil) as -> by by destruct idx.
    pose proof (reads_absent ts key o Hf Hh) as Hr. destruct o, n; intros [= <-]; exact Hr. }
  rewrite outcome_bind_Ok. destruct (is_object idx) eqn:Ho.
  - destruct n as [|n]; [by destruct idx|]. rewrite index_through_object by done.
    intros Hl. apply (reads_through _ _ _ idx); try done. apply (IH n); [lia|done].
  - rewrite index_through_call by done. intros [= <-]. apply reads_call; try done. by intros ->.
Qed.

Lemma look_complete ts o key a : reads ts key o a -> exists n, look n ts o key = Ok (Some a).
Proof.
  intros Hr. induction Hr as [o v Hf Hv|o Hf Hh|o idx a Hf Hh Ho Hr (n & IH)|o idx Hf Hh Hi Ho].
  - exists O. unfold look. rewrite index_eq, Hf, outcome_bind_Ok. by destruct v.
  - exists O. unfold look. rewrite index_eq, Hf, outcome_bind_Ok. cbn [Value.is_nil negb]. rewrite Hh. by destruct o.
  - exists (Datatypes.S n). unfold look. rewrite index_eq, Hf, outcome_bind_Ok. cbn [Value.is_nil negb].
    rewrite Hh, outcome_bind_Ok. assert (Value.is_nil idx = false) as -> by by destruct idx.
    by rewrite outcome_bind_Ok, index_through_object.
  - exists O. unfold look. rewrite index_eq, Hf, outcome_bind_Ok. cbn [Value.is_nil negb].
    rewrite Hh, outcome_bind_Ok. assert (Value.is_nil idx = false) as -> by by destruct idx.
    by rewrite outcome_bind_Ok, index_through_call.
Qed.

Lemma reads_unique ts o key a a' : reads ts key o a -> reads ts key o a' -> a = a'.
Proof.
  intros Hr. revert a'. induction Hr; intros a' Hr'; inversion Hr'; subst;
    repeat match goal with
    | A : ?x = Ok ?a, B : ?x = Ok ?b |- _ => assert (a = b) by congruence; clear B; simplify_eq
    end; first [done|congruence|by eauto].
Qed.

(** [__index].  The result of [index], followed through the calls of the machine's own
    callback, is an answer exactly when the language gives it: the raw field of a table if
    there is one; else, without an [__index], nil for a table and an error for other values;
    else the field of that [__index] if it is an object, over again; else what calling it
    with the object and the key gives.  Hence there is at most one answer. *)
Theorem index_follows_chain ts o key :
  (forall a, (exists n, look n ts o key = Ok (Some a)) <-> reads ts key o a) /\
  (forall a a', reads ts key o a -> reads ts key o a' -> a = a').
Proof.
  split; [|apply reads_unique]. intros a. split; [intros (n & Hn); by eapply look_sound|apply look_complete].
Qed.
End Index.

(** ** A machine to try them on *)
Import Buckets.Machine.
#[export] Instance sample_libm : FloatLib := {| powf := fun x _ => x |}.
#[export] Instance sample_interning : Interning str := {|
  intern := fun b => (1%positive, b);
  intern_static := fun s => (1%positive, bytes_of_string s)
|}.
#[export] Instance sample_display : DisplayFloat := fun _ => bs# "0.5".

Definition r (n : Z) : RegisterIndex := mk_RegisterIndex n.
Definition k (n : Z) : ConstantIndex16 := mk_ConstantIndex16 n.
Definition key (n : Z) : RCIndex := RCIndex.Constant (mk_ConstantIndex8 n).
Definition constant_count (n : Z) : VarCount.t := VarCount.VarCount (Opt254.Opt254 n).

(** [local t = {10, 20}; local x = t[2]; local n = #t] *)
Definition sample_prototype : Thread.FunctionPrototype (S:=str) :=
  Thread.mk_FunctionPrototype 0 false 6
    [Constant.Integer 0; Constant.Integer 10; Constant.Integer 20; Constant.Integer 2]
    [Operation.NewTable (r 0) 0 0; Operation.LoadConstant (r 1) (k 0); Operation.LoadConstant (r 2) (k 1);
     Operation.LoadConstant (r 3) (k 2); Operation.SetList (r 0) (constant_count 2);
     Operation.GetTable (r 4) (r 0) (key 3); Operation.Length (r 5) (r 0)] [] [].
Definition sample_frame (pc : Z) : Thread.lua_frame := Thread.mk_lua_frame 0 1 0 false pc 6 None.
Definition sample_lua (pc : Z) (stack : list (Value.t str)) : Thread.LuaFrame (S:=str) (Sequence:=unit) (Error:=unit) :=
  Thread.mk_LuaFrame 1 (Thread.mk_ThreadState [Thread.Lua (sample_frame pc)] stack [])
    (Thread.mk_World ∅ ∅ {[ 1%positive := Thread.mk_ClosureInner sample_prototype [] ]} (Memory.new None))
    (Fuel.with_ 100).
Definition sample_tables (raw : RawTable.t) : Table.Tables str :=
  Table.mk_Tables {[ 1%positive := Table.mk_TableState raw None ]} (fun _ => None) 1.
(** The state before [SetList] *)
Definition sample_batch : RunVm.Machine :=
  RunVm.mk_Machine (sample_lua 5 [Value.Table 1; Value.Integer 0; Value.Integer 10; Value.Integer 20; Value.Nil; Value.Nil])
    (sample_tables empty_table).

Definition charge_nothing : RunVm.Machine (S:=str) (Sequence:=unit) (Error:=unit) -> Z := fun _ => 0.

Lemma set_list_exact_witness : exists mc raw,
  RunVm.set_table_list charge_nothing (r 0) (constant_count 2) sample_batch = Ok (inl tt, mc) /\
  RunVm.tables mc = Table.put 1 (Table.mk_TableState raw None) (sample_tables empty_table) /\
  RawTable.get raw (Value.Integer 2) = Ok (Value.Integer 20).
Proof.
  destruct (set_list_exact charge_nothing scalars scalars_consistent (fun i Hi => Hi) (r 0) (constant_count 2)
    sample_batch (sample_frame 5) [] 1 0 (Table.mk_TableState empty_table None) eq_refl eq_refl eq_refl eq_refl
    ltac:(vm_compute; lia) eq_refl empty_good ltac:(lia) ltac:(vm_compute; discriminate)) as (res & mc & E & Hres).
  destruct res as [[]|e].
  - destruct Hres as (raw & Ht & _ & Hget & _). exists mc, raw. split; [exact E|]. split; [exact Ht|].
    rewrite (Hget (Value.Integer 2) (usable_integer 2 ltac:(int_lia))). reflexivity.
  - assert (Hok : match RunVm.set_table_list charge_nothing (r 0) (constant_count 2) sample_batch with
      Ok (inl _, _) => true | _ => false end = true) by vm_refl.
    rewrite E in Hok. discriminate Hok.
Defined.
End TableTheorems.
