(* ===== verification/RunVmTheorems.v ===== *)
(** * The instruction loop

    Every instruction is done by exactly one of the four parts of the machine, and the loop
    may stop after any number of instructions and go on later. *)

From S2P Require Import Prelude Slices Float64 StringUtils Constant Value Limits RawTable MetaOps Opcode Operators Vm VmControl Thread Table RunVm RawTableTheorems Buckets TableTheorems.

Module RunVmTheorems.
Section Theorems.
Context `{BuildProfile} `{FloatLib} {S : Type} `{AsBytes S} `{StringAddress S} `{Platform S} `{Interning S} `{DisplayFloat}.
Context {Sequence Error : Type}.
Abbreviation value := (Value.t S).
Abbreviation LuaFrame := (Thread.LuaFrame (S:=S) (Sequence:=Sequence) (Error:=Error)).
Abbreviation Machine := (RunVm.Machine (S:=S) (Sequence:=Sequence) (Error:=Error)).
Context (allocated : Machine -> Z) (size_of_inner size_of_upvalue : Z).
Implicit Types (m : LuaFrame) (mc : Machine).

(** Take the steps of a computation that has succeeded apart. *)
Ltac ok_inv :=
  repeat match goal with
    | E : (_ ≫= _) = Ok _ |- _ => apply outcome_bind_inv in E as (? & ? & E)
    | E : (_ <$> _) = Ok _ |- _ => apply outcome_bind_inv in E as (? & ? & E)
    | p : (_ * _)%type |- _ => destruct p
    | E : Ok _ = Ok _ |- _ => injection E as E
    end; simplify_eq/=.

(** The closure that runs stays the same. *)
Definition keeps m m' : Prop := forall c, Thread.current m = Ok c -> Thread.current m' = Ok c.

#[global] Instance keeps_preorder : PreOrder keeps.
Proof. split; [by intros m c|]. intros a b c Hab Hbc p Hp. auto. Qed.

Lemma keeps_intro m m' : (forall fr rest, Thread.top m = Ok (fr, rest) ->
    exists fr' rest', Thread.top m' = Ok (fr', rest') /\ Thread.closure fr' = Thread.closure fr) ->
  Thread.closures (Thread.world m) ⊆ Thread.closures (Thread.world m') -> keeps m m'.
Proof.
  intros Hf Hc c. unfold Thread.current. destruct (Thread.top m) as [[fr rest]|]; [|done].
  destruct (Hf fr rest eq_refl) as (fr' & rest' & -> & Heq). rewrite !outcome_bind_Ok, Heq.
  destruct (Thread.closures (Thread.world m) !! _) as [c'|] eqn:E; [|done]. by rewrite (lookup_weaken _ _ _ _ E Hc).
Qed.

(** The same frames and closures *)
Lemma keeps_same m m' : Thread.frames (Thread.state m') = Thread.frames (Thread.state m) ->
  Thread.closures (Thread.world m) ⊆ Thread.closures (Thread.world m') -> keeps m m'.
Proof. intros Hf Hc. apply keeps_intro; [|done]. unfold Thread.top. rewrite Hf. eauto. Qed.

Lemma keeps_eq m m' : Thread.frames (Thread.state m') = Thread.frames (Thread.state m) ->
  Thread.closures (Thread.world m') = Thread.closures (Thread.world m) -> keeps m m'.
Proof. intros Hf Hc. apply keeps_same; [done|by rewrite Hc]. Qed.

(** The frame on top changed but for its closure *)
Lemma keeps_top fr rest m st' : Thread.top m = Ok (fr, rest) ->
  (exists fr', Thread.frames st' = Thread.Lua fr' :: rest /\ Thread.closure fr' = Thread.closure fr) ->
  keeps m (Thread.set_state st' m).
Proof.
  intros Ht (fr' & Hf & Hc). apply keeps_intro; [|done]. rewrite Ht. intros ? ? [= <- <-].
  exists fr', rest. unfold Thread.top. cbn. by rewrite Hf.
Qed.

Lemma keeps_put r m m' : Thread.put_registers r m = Ok m' -> keeps m m'.
Proof. unfold Thread.put_registers. intros E. ok_inv. eapply keeps_top; [done|by eexists]. Qed.

Lemma keeps_write dest v m m' : Thread.write dest v m = Ok m' -> keeps m m'.
Proof. unfold Thread.write. intros E. ok_inv. by eapply keeps_put. Qed.
Lemma close_each_closures this s us (w w' : @Thread.World S Sequence Error) : Thread.close_each this s us w = Ok w' ->
  Thread.closures w' = Thread.closures w.
Proof.
  revert w. induction us as [|u us IH]; intros w; cbn [Thread.close_each]; [by intros [= ->]|].
  destruct (Thread.upvalues w !! u) as [[t i|]|]; try done. case_bool_decide; [|done].
  intros E. ok_inv. by apply IH in E.
Qed.

Lemma keeps_close r m m' : Thread.registers_close_upvalues r m = Ok m' -> keeps m m'.
Proof.
  unfold Thread.registers_close_upvalues, Thread.close_upvalues. intros E. ok_inv.
  apply keeps_eq; [done|]. cbn. by eapply close_each_closures.
Qed.

Lemma keeps_varargs dest count m m' : Thread.varargs dest count m = Ok (inl tt, m') -> keeps m m'.
Proof.
  unfold Thread.varargs. intros E. ok_inv. destruct (Thread.is_variable _); [done|]. ok_inv.
  destruct (VarCount.to_constant count); unfold Thread.done in *; ok_inv.
  - by apply keeps_eq.
  - etrans; [|eapply keeps_top; [eassumption|by eexists]]. by apply keeps_eq.
Qed.

Lemma keeps_set_upvalue u v m m' : Thread.set_upvalue u v m = Ok m' -> keeps m m'.
Proof.
  unfold Thread.set_upvalue. intros E. ok_inv. repeat case_match; try done; ok_inv; by apply keeps_eq.
Qed.

Lemma keeps_open r m u m' : Thread.open_upvalue r m = Ok (u, m') -> keeps m m'.
Proof.
  unfold Thread.open_upvalue. intros E. ok_inv. case_match; ok_inv; [done|]. by apply keeps_eq.
Qed.

Lemma keeps_capture outer descs m res m' : Thread.capture outer descs m = Ok (res, m') -> keeps m m'.
Proof.
  revert m res m'. induction descs as [|[|r|i] descs IH]; intros m res m'; cbn [Thread.capture]; intros E; ok_inv; [done..| |].
  - etrans; [by eapply keeps_open|by eapply IH].
  - by eapply IH.
Qed.

Lemma keeps_closure_op al p dest m m' : Thread.exec_closure al size_of_inner size_of_upvalue p dest m = Ok (inl tt, m') ->
  keeps m m'.
Proof.
  unfold Thread.exec_closure, Thread.try_from_parts. intros E. ok_inv. case_match; [|done].
  destruct (Memory.check _ _ _) as [[|] limit]; unfold Thread.done in *; ok_inv.
  etrans; [by eapply keeps_capture|]. etrans; [|by eapply keeps_write].
  apply keeps_same; [done|]. cbn. apply insert_subseteq, not_elem_of_dom, is_fresh.
Qed.

(** ** Instructions that go on *)

Lemma keeps_set_memory l m : keeps m (RunVm.set_memory l m).
Proof. by apply keeps_eq. Qed.

Definition lua_keeps mc mc' : Prop := keeps (RunVm.lua mc) (RunVm.lua mc').

#[global] Instance lua_keeps_preorder : PreOrder lua_keeps.
Proof. split; [intros mc c Hc; exact Hc|]. intros a b c. unfold lua_keeps. apply transitivity. Qed.

Lemma control_keeps s mc mc' : RunVm.control_step s mc = Ok (inl true, mc') -> lua_keeps mc mc'.
Proof.
  unfold RunVm.control_step, lua_keeps. intros E. ok_inv. case_match; unfold RunVm.go, RunVm.throw in *; ok_inv.
  - by eapply keeps_put.
  - etrans; [by eapply keeps_put|by eapply keeps_close].
Qed.

Lemma called_stops (res : unit + VMError.t) : match res with inl _ => inl false | inr e => inr e end <> (inl true : bool + VMError.t).
Proof. by destruct res. Qed.

Lemma value_keeps s mc mc' : RunVm.value_step s mc = Ok (inl true, mc') -> lua_keeps mc mc'.
Proof.
  unfold RunVm.value_step, lua_keeps. intros E. ok_inv. case_match; unfold RunVm.go, RunVm.throw in *; ok_inv.
  - by eapply keeps_put.
  - by edestruct called_stops.
Qed.

Lemma meta_finish_keeps dest r mc mc' : RunVm.meta_finish dest r mc = Ok (inl true, mc') -> lua_keeps mc mc'.
Proof.
  unfold RunVm.meta_finish, lua_keeps. intros E. repeat case_match; unfold RunVm.go, RunVm.throw in *; ok_inv.
  - by eapply keeps_write.
  - by edestruct called_stops.
Qed.

Lemma exec_get_keeps dest table key mc mc' : RunVm.exec_get dest table key mc = Ok (inl true, mc') -> lua_keeps mc mc'.
Proof.
  unfold RunVm.exec_get. intros E. ok_inv. case_match; ok_inv; [|by eapply meta_finish_keeps].
  unfold RunVm.go in *. ok_inv. by eapply keeps_write.
Qed.

Lemma exec_set_keeps table key v mc mc' : RunVm.exec_set allocated table key v mc = Ok (inl true, mc') -> lua_keeps mc mc'.
Proof.
  unfold RunVm.exec_set, lua_keeps. intros E. ok_inv. case_match; ok_inv; [apply keeps_set_memory|].
  repeat case_match; unfold RunVm.go, RunVm.throw in *; ok_inv; try apply keeps_set_memory.
  by edestruct called_stops.
Qed.

Lemma set_elements_lua t start s first count mc res mc' :
  RunVm.set_elements allocated t start s first count mc = Ok (res, mc') -> lua_keeps mc mc'.
Proof.
  revert start first mc. induction count as [|count IH]; intros start first mc; cbn [RunVm.set_elements]; [by intros [= <- <-]|].
  case_match; [|by intros [= <- <-]]. intros E. ok_inv. unfold lua_keeps in *. case_match.
  - etrans; [|by eapply IH]. apply keeps_set_memory.
  - ok_inv. apply keeps_set_memory.
Qed.

Lemma reserve_batch_lua t start n mc res mc' : RunVm.reserve_batch allocated t start n mc = Ok (res, mc') -> lua_keeps mc mc'.
Proof.
  unfold RunVm.reserve_batch. intros E. repeat case_match; ok_inv; try done. repeat case_match; ok_inv; try done.
  apply keeps_set_memory.
Qed.

Lemma finish_list_keeps count i start m m' : RunVm.finish_list count i start m = Ok m' -> keeps m m'.
Proof.
  unfold RunVm.finish_list. intros E. ok_inv. destruct (VarCount.is_variable count).
  - eapply keeps_top; [eassumption|by eexists].
  - by apply keeps_eq.
Qed.

Lemma set_table_list_keeps base count mc mc' :
  RunVm.set_table_list allocated base count mc = Ok (inl tt, mc') -> lua_keeps mc mc'.
Proof.
  unfold RunVm.set_table_list, lua_keeps. intros E. ok_inv. case_match; [done|]. ok_inv.
  destruct x, x0; try done. ok_inv. destruct s; [|done]. ok_inv. destruct s; [|done]. ok_inv.
  etrans; [|by eapply finish_list_keeps]. etrans; [|by eapply set_elements_lua].
  etrans; [|by eapply reserve_batch_lua]. by apply keeps_eq.
Qed.

Lemma exec_tables_keeps c op mc mc' r : RunVm.exec_tables allocated c op mc = Some r -> r = Ok (inl true, mc') -> lua_keeps mc mc'.
Proof.
  unfold lua_keeps. destruct op; try done; intros [= <-] E; ok_inv.
  - case_match; unfold RunVm.go, RunVm.throw in *; ok_inv. etrans; [|by eapply keeps_write]. apply keeps_set_memory.
  - by eapply exec_get_keeps.
  - by eapply exec_set_keeps.
  - by eapply exec_get_keeps.
  - by eapply exec_set_keeps.
  - destruct s as [[]|]; [|done]. by eapply set_table_list_keeps.
  - etrans; [by eapply keeps_put|exact (meta_finish_keeps _ _ _ _ E)].
  - repeat case_match; unfold RunVm.go, RunVm.throw in *; ok_inv; [|by edestruct called_stops].
    etrans; [|by eapply keeps_write]. apply keeps_set_memory.
  - repeat case_match; unfold RunVm.go in *; ok_inv; try (by eapply keeps_write); by eapply meta_finish_keeps.
Qed.

Lemma thread_keeps h al op m m' r : Thread.exec h al size_of_inner size_of_upvalue op m = Some r ->
  RunVm.leaves_frame op = false -> r = Ok (inl tt, m') -> keeps m m'.
Proof.
  destruct op; try done; intros [= <-] _ E; ok_inv; unfold Thread.done in *; ok_inv.
  - by eapply keeps_varargs.
  - by eapply keeps_closure_op.
  - by eapply keeps_write.
  - by eapply keeps_set_upvalue.
Qed.

Lemma exec_keeps c op mc mc' : RunVm.exec allocated size_of_inner size_of_upvalue c op mc = Ok (inl true, mc') -> lua_keeps mc mc'.
Proof.
  unfold RunVm.exec. intros E. ok_inv.
  destruct (Control.exec _ _ _) eqn:E1; [by eapply control_keeps|].
  destruct (Vm.exec _ _ _ _) eqn:E2; [by eapply value_keeps|].
  destruct (RunVm.exec_tables _ _ _ _) eqn:E3; [by eapply exec_tables_keeps|].
  destruct (Thread.exec _ _ _ _ _ _) eqn:E4; [|done]. ok_inv. destruct s as [[]|]; [|done].
  destruct (RunVm.leaves_frame op) eqn:El; [done|]. by eapply thread_keeps.
Qed.

Lemma fetch_keeps c mc op mc' : RunVm.fetch c mc = Ok (op, mc') -> lua_keeps mc mc'.
Proof. unfold RunVm.fetch, lua_keeps. intros E. ok_inv. by eapply keeps_put. Qed.

(** ** The loop *)
Abbreviation run_loop := (RunVm.run_loop allocated size_of_inner size_of_upvalue).
Abbreviation run_vm := (RunVm.run_vm allocated size_of_inner size_of_upvalue).
Implicit Types (r : outcome ((Z + VMError.t) * Machine)).

(** Instructions run before, added to a result *)
Definition after (n : Z) r : outcome ((Z + VMError.t) * Machine) :=
  match r with Ok (inl k, mc) => Ok (inl (n + k), mc) | r => r end.

Lemma run_loop_after left_ n c mc : run_loop left_ n c mc = after n (run_loop left_ 0 c mc).
Proof.
  revert n mc. induction left_ as [|left_ IH]; intros n mc; cbn [RunVm.run_loop after]; [by rewrite Z.add_0_r|].
  destruct (RunVm.fetch c mc) as [[op mc1]|]; [|done]. cbn [mbind outcome_bind].
  destruct (RunVm.exec _ _ _ c op mc1) as [[[[]|e] mc2]|]; cbn [mbind outcome_bind after]; [|by rewrite Z.add_0_r|done..].
  rewrite IH, (IH (0 + 1)). destruct (run_loop left_ 0 c mc2) as [[[k|e'] mc3]|]; cbn [after]; [|done..].
  do 3 f_equal. lia.
Qed.

Lemma run_loop_count left_ n c mc k mc' : run_loop left_ n c mc = Ok (inl k, mc') -> k <= n + Z.of_nat left_.
Proof.
  revert n mc. induction left_ as [|left_ IH]; intros n mc; cbn [RunVm.run_loop]; [intros [= <- <-]; lia|].
  intros E. ok_inv. destruct s as [[]|]; ok_inv; [|lia]. apply IH in E. lia.
Qed.

(** When all its instructions went on, the loop goes on where it stopped. *)
Lemma run_loop_app n k c mc mc' : Thread.current (RunVm.lua mc) = Ok c ->
  run_loop n 0 c mc = Ok (inl (Z.of_nat n), mc') ->
  Thread.current (RunVm.lua mc') = Ok c /\ run_loop (n + k) 0 c mc = run_loop k (Z.of_nat n) c mc'.
Proof.
  revert mc. induction n as [|n IH]; intros mc Hc; cbn [RunVm.run_loop Nat.add]; [by intros [= <-]|].
  destruct (RunVm.fetch c mc) as [[op mc1]|] eqn:Ef; [|done]. cbn [mbind outcome_bind].
  destruct (RunVm.exec _ _ _ c op mc1) as [[[[]|e] mc2]|] eqn:Ee; cbn [mbind outcome_bind]; [|intros [= ?]; lia|done..].
  assert (Hc2 : Thread.current (RunVm.lua mc2) = Ok c) by (eapply exec_keeps, fetch_keeps; done).
  rewrite !(run_loop_after _ (0 + 1)). unfold after at 1.
  destruct (run_loop n 0 c mc2) as [[[j|e'] mc3]|] eqn:El; try done. intros [= Hj ->].
  assert (j = Z.of_nat n) as -> by lia. destruct (IH mc2 Hc2 El) as [Hc3 ->]. split; [done|].
  rewrite run_loop_after, (run_loop_after k (Z.of_nat (Datatypes.S n))).
  destruct (run_loop k 0 c mc') as [[[i|e'] mc4]|]; cbn [after]; [|done..]. do 3 f_equal. lia.
Qed.

(** C28: the instruction limit does not show.  When the loop has stopped because [n]
    instructions have run, running it on for [k] more ends as running it for [n + k] at once:
    the same state, the same error, and the instructions counted add up. *)
Theorem run_vm_resumes n k mc mc' : 0 <= n -> 0 <= k -> run_vm n mc = Ok (inl n, mc') ->
  run_vm (n + k) mc = after n (run_vm k mc').
Proof.
  intros Hn Hk. unfold RunVm.run_vm. destruct (Z.eqb_spec n 0) as [->|Hn0].
  { intros [= <-]. change (0 + k) with k. destruct (k =? 0); [done|]. destruct (Thread.current _); [|done].
    rewrite !outcome_bind_Ok. apply run_loop_after. }
  destruct (Z.eqb_spec (n + k) 0); [lia|]. destruct (Thread.current (RunVm.lua mc)) as [c|] eqn:Hc; [|done].
  rewrite !outcome_bind_Ok. intros El. replace n with (Z.of_nat (Z.to_nat n)) in El at 2 by lia.
  destruct (run_loop_app _ (Z.to_nat k) _ _ _ Hc El) as [Hc' Happ].
  rewrite Z2Nat.inj_add, Happ, run_loop_after, Z2Nat.id, Hc' by lia.
  destruct (Z.eqb_spec k 0) as [->|]; done.
Qed.

(** Every instruction has one arm.  Of the four parts that [exec] is put together from,
    exactly one knows an instruction. *)
Theorem exec_one_arm h al constants c op regs m mc :
  let arms := [bool_decide (is_Some (Control.exec (S:=S) constants op regs));
               bool_decide (is_Some (Vm.exec h constants op regs));
               bool_decide (is_Some (RunVm.exec_tables allocated c op mc));
               bool_decide (is_Some (Thread.exec h al size_of_inner size_of_upvalue op m))] in
  length (filter Is_true arms) = 1%nat.
Proof. by destruct op. Qed.

End Theorems.

(** ** A program *)
Import Buckets.Machine RawTableTheorems TableTheorems.

Definition run (n : Z) (mc : RunVm.Machine) : outcome ((Z + VMError.t) * RunVm.Machine) :=
  RunVm.run_vm charge_nothing 48 8 n mc.
(** The sample program before its second instruction, before its third, and before its fourth *)
Definition loading (pc : Z) (stack : list (Value.t str)) : RunVm.Machine :=
  RunVm.mk_Machine (sample_lua pc stack) (sample_tables empty_table).
Definition loading_1 : RunVm.Machine :=
  loading 1 [Value.Table 1; Value.Nil; Value.Nil; Value.Nil; Value.Nil; Value.Nil].
Definition loading_2 : RunVm.Machine :=
  loading 2 [Value.Table 1; Value.Integer 0; Value.Nil; Value.Nil; Value.Nil; Value.Nil].
Definition loading_3 : RunVm.Machine :=
  loading 3 [Value.Table 1; Value.Integer 0; Value.Integer 10; Value.Nil; Value.Nil; Value.Nil].

Lemma run_vm_resumes_witness : run 1 loading_2 = Ok (inl 1, loading_3) /\
  run (1 + 1) loading_1 = after 1 (run 1 loading_2).
Proof.
  split; [vm_refl|].
  refine (run_vm_resumes charge_nothing 48 8 1 1 loading_1 loading_2 ltac:(lia) ltac:(lia) _). vm_refl.
Defined.
End RunVmTheorems.

(** * What the virtual machine spends

    No instruction gives fuel back, and a run counts at most the instructions it was given. *)

Module RunVmFuel.
Section Fuel.
Context `{BuildProfile} `{FloatLib} {S : Type} `{AsBytes S} `{StringAddress S} `{Platform S} `{Interning S} `{DisplayFloat}.
Context {Sequence Error : Type}.
Abbreviation LuaFrame := (Thread.LuaFrame (S:=S) (Sequence:=Sequence) (Error:=Error)).
Abbreviation Machine := (RunVm.Machine (S:=S) (Sequence:=Sequence) (Error:=Error)).
Context (allocated : Machine -> Z) (size_of_inner size_of_upvalue : Z).
Implicit Types (m : LuaFrame) (mc : Machine) (f : Fuel.t).

(** Fuel is only spent. *)
Definition spent f f' : Prop := Fuel.wf f -> Fuel.wf f' /\ Fuel.fuel f' <= Fuel.fuel f.

#[global] Instance spent_preorder : PreOrder spent.
Proof. split; [by intros f Hf|]. intros f g h Hfg Hgh Hf. destruct (Hfg Hf) as [Hg ?]. destruct (Hgh Hg). split; [done|lia]. Qed.

Lemma consume_spent amount f : 0 <= amount -> spent f (Fuel.consume amount f).
Proof.
  intros Ha Hf. split; [apply Fuel.consume_wf|]. unfold Fuel.wf, Fuel.consume, Fuel.adjust, saturating in *. cbn [Fuel.fuel].
  revert Hf. int_lia.
Qed.
Lemma spent_consume f f' amount : spent f f' -> 0 <= amount -> spent f (Fuel.consume amount f').
Proof. intros Hf Ha. etrans; [exact Hf|]. by apply consume_spent. Qed.
Lemma count_fuel_nonneg n : 0 <= Fuel.count_fuel Thread.FUEL_PER_ITEM (Z.of_nat n).
Proof. unfold Fuel.count_fuel, saturating, checked. case_match; unfold Thread.FUEL_PER_ITEM; cbn; int_lia. Qed.

Definition frame_spent m m' : Prop := spent (Thread.fuel m) (Thread.fuel m').
Definition spends mc mc' : Prop := frame_spent (RunVm.lua mc) (RunVm.lua mc').
#[global] Instance frame_spent_preorder : PreOrder frame_spent.
Proof. split; [intros m; unfold frame_spent; reflexivity|]. intros a b c. unfold frame_spent. apply transitivity. Qed.
#[global] Instance spends_preorder : PreOrder spends.
Proof. split; [intros m; unfold spends; reflexivity|]. intros a b c. unfold spends. apply transitivity. Qed.

(** Take a computation that has succeeded apart, and count what it consumed. *)
Ltac spends_step :=
  repeat match goal with
    | E : (_ ≫= _) = Ok _ |- _ => apply outcome_bind_inv in E as (? & ? & E)
    | E : (_ <$> _) = Ok _ |- _ => apply outcome_bind_inv in E as (? & ? & E)
    | p : (_ * _)%type |- _ => destruct p
    | E : Ok _ = Ok _ |- _ => injection E as E
    | E : Panic = Ok _ |- _ => discriminate E
    end; simplify_eq/=.
Ltac fuel_left := unfold spends, frame_spent; cbn;
  repeat (apply spent_consume; [|first [apply count_fuel_nonneg | unfold Thread.FUEL_PER_CALL; lia]]); reflexivity.
Ltac spends_tac := let Heq := fresh "Heq" in intros Heq; unfold Thread.done, Thread.fail, RunVm.go, RunVm.throw in Heq; spends_step;
  repeat (case_match; spends_step); try done; try fuel_left.

Lemma put_spent r m m' : Thread.put_registers r m = Ok m' -> frame_spent m m'.
Proof. unfold Thread.put_registers. spends_tac. Qed.
Lemma write_spent dest v m m' : Thread.write dest v m = Ok m' -> frame_spent m m'.
Proof. unfold Thread.write. intros E. spends_step. by eapply put_spent. Qed.
Lemma close_spent r m m' : Thread.registers_close_upvalues r m = Ok m' -> frame_spent m m'.
Proof. unfold Thread.registers_close_upvalues. spends_tac. Qed.
Lemma set_upvalue_spent u v m m' : Thread.set_upvalue u v m = Ok m' -> frame_spent m m'.
Proof. unfold Thread.set_upvalue. spends_tac. Qed.
Lemma open_spent r m u m' : Thread.open_upvalue r m = Ok (u, m') -> frame_spent m m'.
Proof. unfold Thread.open_upvalue. spends_tac. Qed.
Lemma capture_spent outer descs m res m' : Thread.capture outer descs m = Ok (res, m') -> frame_spent m m'.
Proof.
  revert m res m'. induction descs as [|[|r|i] descs IH]; intros m res m'; cbn [Thread.capture]; intros E; spends_step; try reflexivity.
  - etrans; [by eapply open_spent|by eapply IH].
  - by eapply IH.
Qed.
Lemma varargs_spent dest count m res m' : Thread.varargs dest count m = Ok (res, m') -> frame_spent m m'.
Proof. unfold Thread.varargs. spends_tac. Qed.
Lemma closure_spent al p dest m res m' : Thread.exec_closure al size_of_inner size_of_upvalue p dest m = Ok (res, m') -> frame_spent m m'.
Proof.
  unfold Thread.exec_closure, Thread.try_from_parts. intros E. spends_step. unfold Thread.done, Thread.fail in *. case_match; [|spends_step; by eapply capture_spent].
  destruct (Memory.check _ _ _) as [[|] limit]; unfold Thread.done, Thread.fail in *; spends_step.
  - etrans; [by eapply capture_spent|]. by etrans; [|by eapply write_spent].
  - etrans; [by eapply capture_spent|]. fuel_left.
Qed.
Lemma call_spent h func args returns m res m' : Thread.call_function h func args returns m = Ok (res, m') -> frame_spent m m'.
Proof. unfold Thread.call_function. spends_tac. Qed.
Lemma call_keep_spent h func args returns m res m' : Thread.call_function_keep h func args returns m = Ok (res, m') -> frame_spent m m'.
Proof. unfold Thread.call_function_keep. spends_tac. Qed.
Lemma call_meta_spent g args ret m res m' : Thread.call_meta_function g args ret m = Ok (res, m') -> frame_spent m m'.
Proof. unfold Thread.call_meta_function. spends_tac. Qed.
Lemma tail_call_spent h func args m res m' : Thread.tail_call_function h func args m = Ok (res, m') -> frame_spent m m'.
Proof. unfold Thread.tail_call_function. spends_tac. Qed.
Lemma return_spent start count m res m' : Thread.return_upper start count m = Ok (res, m') -> frame_spent m m'.
Proof. unfold Thread.return_upper. spends_tac. Qed.

(** ** Instructions *)

Lemma set_elements_spends t start s first count mc res mc' :
  RunVm.set_elements allocated t start s first count mc = Ok (res, mc') -> spends mc mc'.
Proof.
  revert start first mc. induction count as [|count IH]; intros start first mc; cbn [RunVm.set_elements]; [spends_tac|].
  case_match; [|spends_tac]. intros Heq. spends_step. case_match; spends_step; [|fuel_left].
  etrans; [|by eapply IH]. fuel_left.
Qed.
Lemma reserve_batch_spends t start n mc res mc' : RunVm.reserve_batch allocated t start n mc = Ok (res, mc') -> spends mc mc'.
Proof. unfold RunVm.reserve_batch. spends_tac. Qed.
Lemma finish_list_spent count i start m m' : RunVm.finish_list count i start m = Ok m' -> frame_spent m m'.
Proof. unfold RunVm.finish_list. spends_tac. Qed.
Lemma set_table_list_spends base count mc res mc' : RunVm.set_table_list allocated base count mc = Ok (res, mc') -> spends mc mc'.
Proof.
  unfold RunVm.set_table_list. intros Heq. spends_step. case_match; [spends_step; reflexivity|]. spends_step.
  repeat (case_match; spends_step); try fuel_left.
  all: try (etrans; [|unfold spends; by eapply finish_list_spent]); try (etrans; [|by eapply set_elements_spends]).
  all: etrans; [|by eapply reserve_batch_spends]; fuel_left.
Qed.
Lemma meta_finish_spends dest r mc res mc' : RunVm.meta_finish dest r mc = Ok (res, mc') -> spends mc mc'.
Proof.
  unfold RunVm.meta_finish. intros Heq. unfold RunVm.go, RunVm.throw in Heq. repeat (case_match; spends_step); try reflexivity.
  all: first [by eapply write_spent | by eapply call_meta_spent].
Qed.

Lemma exec_get_spends dest table key mc res mc' : RunVm.exec_get dest table key mc = Ok (res, mc') -> spends mc mc'.
Proof.
  unfold RunVm.exec_get. intros Heq. spends_step. case_match; spends_step; [|by eapply meta_finish_spends].
  unfold RunVm.go in *. spends_step. by eapply write_spent.
Qed.
Lemma exec_set_spends table key v mc res mc' : RunVm.exec_set allocated table key v mc = Ok (res, mc') -> spends mc mc'.
Proof.
  unfold RunVm.exec_set. intros Heq. unfold RunVm.go, RunVm.throw in Heq. spends_step. case_match; spends_step; [fuel_left|].
  repeat (case_match; spends_step); try fuel_left.
  all: red; cbn [RunVm.lua RunVm.set_lua RunVm.set_tables]; etrans; [|by eapply call_meta_spent]; fuel_left.
Qed.

Lemma exec_tables_spends c op mc res mc' r : RunVm.exec_tables allocated c op mc = Some r -> r = Ok (res, mc') -> spends mc mc'.
Proof.
  destruct op; try done; intros [= <-] Heq; unfold RunVm.go, RunVm.throw in Heq; spends_step.
  - case_match; spends_step; [|fuel_left]. red; cbn [RunVm.lua RunVm.set_lua RunVm.set_tables]. etrans; [|by eapply write_spent]. fuel_left.
  - by eapply exec_get_spends.
  - by eapply exec_set_spends.
  - by eapply exec_get_spends.
  - by eapply exec_set_spends.
  - by eapply set_table_list_spends.
  - etrans; [|by eapply meta_finish_spends]. red; cbn [RunVm.lua RunVm.set_lua RunVm.set_tables]. by eapply put_spent.
  - repeat (case_match; spends_step); red; cbn [RunVm.lua RunVm.set_lua RunVm.set_tables]; try fuel_left.
    all: etrans; [|first [by eapply write_spent | by eapply call_meta_spent]]; fuel_left.
  - repeat (case_match; spends_step); unfold RunVm.throw in *; spends_step; try reflexivity; first [by eapply write_spent | by eapply meta_finish_spends].
Qed.

Lemma thread_spends h al op m res m' r : Thread.exec h al size_of_inner size_of_upvalue op m = Some r -> r = Ok (res, m') -> frame_spent m m'.
Proof.
  destruct op; try done; intros [= <-] Heq; unfold Thread.done in *; spends_step; try reflexivity;
  first [by eapply call_spent | by eapply tail_call_spent | by eapply return_spent | by eapply varargs_spent
    | by eapply closure_spent | by eapply write_spent | by eapply set_upvalue_spent | by eapply call_keep_spent].
Qed.

Lemma value_spends s mc res mc' : RunVm.value_step s mc = Ok (res, mc') -> spends mc mc'.
Proof.
  unfold RunVm.value_step, RunVm.go, RunVm.throw. intros Heq. spends_step. case_match; spends_step; [by eapply put_spent| |reflexivity].
  red; cbn [RunVm.lua RunVm.set_lua RunVm.set_tables]. etrans; [by eapply put_spent|]. by eapply call_meta_spent.
Qed.
Lemma control_spends s mc res mc' : RunVm.control_step s mc = Ok (res, mc') -> spends mc mc'.
Proof.
  unfold RunVm.control_step, RunVm.go, RunVm.throw. intros Heq. spends_step. case_match; spends_step; [by eapply put_spent| |reflexivity].
  red; cbn [RunVm.lua RunVm.set_lua RunVm.set_tables]. etrans; [by eapply put_spent|]. by eapply close_spent.
Qed.

Lemma exec_spends c op mc res mc' : RunVm.exec allocated size_of_inner size_of_upvalue c op mc = Ok (res, mc') -> spends mc mc'.
Proof.
  unfold RunVm.exec. intros Heq. spends_step.
  destruct (Control.exec _ _ _) eqn:E1; [by eapply control_spends|].
  destruct (Vm.exec _ _ _ _) eqn:E2; [by eapply value_spends|].
  destruct (RunVm.exec_tables _ _ _ _) eqn:E3; [by eapply exec_tables_spends|].
  destruct (Thread.exec _ _ _ _ _ _) eqn:E4; [|done]. spends_step. by eapply thread_spends.
Qed.

(** ** The loop *)

Lemma run_loop_spends left_ n c mc res mc' : RunVm.run_loop allocated size_of_inner size_of_upvalue left_ n c mc = Ok (res, mc') ->
  spends mc mc' /\ match res with inl k => n <= k <= n + Z.of_nat left_ | inr _ => True end.
Proof.
  revert n mc. induction left_ as [|left_ IH]; intros n mc; cbn [RunVm.run_loop].
  { intros [= <- <-]. split; [reflexivity|lia]. }
  intros Heq. apply outcome_bind_inv in Heq as ([op mc1] & Ef & Heq). apply outcome_bind_inv in Heq as ([res1 mc2] & Ee & Heq).
  assert (spends mc mc2).
  { etrans; [|by eapply exec_spends]. unfold RunVm.fetch in Ef. spends_step. by eapply put_spent. }
  destruct res1 as [[|]|e]; [|injection Heq as <- <-..]; [|split; [done|lia]|done].
  destruct (IH _ _ Heq) as [Hs Hk]. split; [by etrans|]. destruct res; [lia|done].
Qed.

Lemma run_vm_spends n mc res mc' : 0 <= n -> RunVm.run_vm allocated size_of_inner size_of_upvalue n mc = Ok (res, mc') ->
  spends mc mc' /\ match res with inl k => 0 <= k <= n | inr _ => True end.
Proof.
  intros Hn. unfold RunVm.run_vm. destruct (Z.eqb_spec n 0) as [->|Hne]; [intros [= <- <-]; split; [reflexivity|lia]|].
  intros Heq. apply outcome_bind_inv in Heq as (c & _ & Heq). destruct (run_loop_spends _ _ _ _ _ _ Heq) as [Hs Hk].
  split; [done|]. destruct res; [lia|done].
Qed.
End Fuel.
End RunVmFuel.
