(* ===== verification/HostOp.v ===== *)
(** * Host operations: [hostop.rs]

    The handles of operations that wait for the host, the registry of the parked ones, and the
    values the host gives back.  Atomics are the counter they hold. *)

From S2P Require Import Prelude Float64 Value.

Module HostOp.
Section HostOp.
Context {S : Type}.

(** ** Handles *)

(** [HostOpHandle::new]: the handle, and the counter left in [NEXT] *)
Definition new (next : Z) : Z * Z := (Z.max next 1, wrap u64 (next + 1)).
Definition from_raw (raw : Z) : Z := raw.

(** [n] handles in a row *)
Fixpoint mint (n : nat) (next : Z) : list Z * Z :=
  match n with
  | O => ([], next)
  | Datatypes.S n => let '(h, next) := new next in let '(hs, next) := mint n next in (h :: hs, next)
  end.

(** ** [HostOpGuard]: dropping it gives the handle to its hook, unless it was disarmed. *)
Record HostOpGuard : Type := mk_HostOpGuard { handle : Z; armed : bool }.
Definition guard (handle : Z) : HostOpGuard := mk_HostOpGuard handle true.
Definition disarm (g : HostOpGuard) : HostOpGuard := mk_HostOpGuard (handle g) false.
Definition drop_guard (g : HostOpGuard) : option Z := if armed g then Some (handle g) else None.

(** ** [HostOpRegistry]: the threads that are parked, by the handle *)

Definition register (ops : gmap Z obj) (handle : Z) (thread : obj) : outcome (gmap Z obj) :=
  _ ← rust_assert (bool_decide (ops !! handle = None));
  Ok (<[handle := thread]> ops).
Definition remove (ops : gmap Z obj) (handle : Z) : bool * gmap Z obj :=
  (bool_decide (is_Some (ops !! handle)), delete handle ops).
Definition pending_count (ops : gmap Z obj) : nat := size ops.

(** The handles whose thread is gone, and the registry without them *)
Definition abandoned_handles (alive : obj -> bool) (ops : gmap Z obj) : gset Z * gmap Z obj :=
  (dom (filter (fun '(_, t) => alive t = false) ops), filter (fun '(_, t) => alive t = true) ops).

(** ** [HostOpResult]: the values of a result; a stashed one is a handle to a root. *)
Inductive HostOpValue : Type :=
  | Nil
  | Boolean (b : bool)
  | Integer (i : Z)
  | Number (n : f64)
  | Stashed (root : obj).

Definition fetch (roots : gmap obj (Value.t S)) (v : HostOpValue) : outcome (Value.t S) :=
  match v with
  | Nil => Ok Value.Nil
  | Boolean b => Ok (Value.Boolean b)
  | Integer i => Ok (Value.Integer i)
  | Number n => Ok (Value.Number n)
  | Stashed r => match roots !! r with Some v => Ok v | None => Panic end
  end.
Definition fetch_into (roots : gmap obj (Value.t S)) (values : list HostOpValue) : outcome (list (Value.t S)) :=
  mapM (fetch roots) values.
End HostOp.
End HostOp.
