(* ===== verification/Executor.v ===== *)
(** * The executor: [thread/executor.rs], and [backtrace] of [thread/thread.rs]

    A stack of threads and the loop that runs the top one: a frame of Lua by [run_vm], a
    callback or a sequence of the host by its own code, an error by unwinding.  Callbacks and
    sequences are trait objects, so their code is an interface ([Natives]); those that
    [meta_ops.rs] makes on the spot are run as they are written there.  The thread that runs
    is taken out of the world, as its borrow does. *)

From S2P Require Import Prelude Slices Float64 StringUtils Constant Value Limits RawTable MetaOps Opcode Operators Vm VmControl Thread Table RunVm HostOp.

(** ** Errors: [error.rs] *)
Module Error.
Section Error.
Context {S E : Type}.

(** What a frame of a backtrace is rendered from *)
Inductive BacktraceFrame : Type :=
  | Lua (closure : obj) (pc : Z) (args : list (Value.t S))
  | Callback
  | Sequence
  | Internal.

(** The Rust error in a [RuntimeError]; [Other] is one of the host. *)
Inductive Cause : Type :=
  | OfVM (e : VMError.t)
  | OfCall (e : MetaOps.MetaCallError)
  | OfOperator (e : MetaOps.MetaOperatorError)
  | OfThread (e : BadThreadMode)
  | OfMemory (e : Memory.OutOfMemory)
  | Cancelled (handle : Z) (message : list Z)
  | Other (e : E).

Inductive t : Type :=
  | LuaError (value : Value.t S) (backtrace : option (list BacktraceFrame))
  | RuntimeError (error : Cause) (backtrace : option (list BacktraceFrame)).

(** [RuntimeError::new] *)
Definition runtime (c : Cause) : t := RuntimeError c None.
Definition backtrace (e : t) : option (list BacktraceFrame) :=
  match e with LuaError _ b | RuntimeError _ b => b end.
Definition with_backtrace (b : list BacktraceFrame) (e : t) : t :=
  match e with
  | LuaError v _ => LuaError v (Some b)
  | RuntimeError c _ => RuntimeError c (Some b)
  end.
End Error.
Arguments BacktraceFrame S : clear implicits.
Arguments Cause E : clear implicits.
Arguments t S E : clear implicits.
End Error.

Module ExecutorMode.
Inductive t : Type := Stopped | Result | Normal | Suspended | HostSuspended | Running.
End ExecutorMode.
#[export] Instance ExecutorMode_eq_dec : EqDecision ExecutorMode.t.
Proof. solve_decision. Defined.

Record BadExecutorMode : Type := mk_BadExecutorMode {
  mode_found : ExecutorMode.t;
  mode_expected : ExecutorMode.t
}.

Module HostOpError.
Inductive t : Type := Mode (e : BadExecutorMode) | Unknown (handle : Z) | Busy.
End HostOpError.

(** ** What callbacks and sequences ask for: [callback.rs] *)
Module Native.
Section Native.
Context {S Sequence : Type}.

Inductive CallbackReturn : Type :=
  | Return
  | Sequence_ (sequence : Sequence)
  | Call (function : MetaOps.Callee S) (next : option Sequence)
  | Yield (to_thread : option obj) (next : option Sequence)
  | Resume (thread : obj) (next : option Sequence).

Inductive SequencePoll : Type :=
  | Pending
  | Suspend (handle : Z)
  | PollCall (bottom : nat) (function : MetaOps.Callee S)
  | PollYield (bottom : nat) (to_thread : option obj)
  | PollResume (bottom : nat) (thread : obj)
  | PollReturn
  | TailCall (function : MetaOps.Callee S)
  | TailYield (to_thread : option obj)
  | TailResume (thread : obj).
End Native.
Arguments CallbackReturn S Sequence : clear implicits.
Arguments SequencePoll S : clear implicits.
End Native.

Module Executor.
Section Types.
Context `{BuildProfile} {S : Type} `{AsBytes S} `{StringAddress S} `{Platform S} {Sequence E : Type}.
Abbreviation value := (Value.t S).
Abbreviation Error := (Error.t S E).
Abbreviation Frame := (@Thread.Frame S Sequence Error).
Abbreviation World := (@Thread.World S Sequence Error).

(** What a callback reaches through its [Context] *)
Record Arena : Type := mk_Arena {
  world : World;
  tables : Table.Tables S;
  host_ops : gmap Z obj;
  roots : gmap obj value
}.

(** [Execution]: the threads of the executor, the top one first, and the frames below the
    one that runs *)
Record Execution : Type := mk_Execution { threads : list obj; upper_frames : list Frame }.

(** What a native function answers: a result, and what it has written *)
Abbreviation answer A := (outcome ((A + Error) * (Arena * Fuel.t * list value))).

(** The code of the callbacks and sequences that other files make: a callback by its
    address, or the one that concatenates values by metamethods *)
Class Natives : Type := {
  call_callback : obj -> Execution -> Arena -> Fuel.t -> list value -> answer (Native.CallbackReturn S Sequence);
  call_concat : Execution -> Arena -> Fuel.t -> list value -> answer (Native.CallbackReturn S Sequence);
  poll_sequence : Sequence -> Execution -> Arena -> Fuel.t -> list value -> answer (Native.SequencePoll S * Sequence);
  error_sequence : Sequence -> Error -> Execution -> Arena -> Fuel.t -> list value -> answer (Native.SequencePoll S * Sequence)
}.
End Types.
Arguments Arena S {_} Sequence E.
Arguments Execution S Sequence E : clear implicits.
Arguments Natives S {_} Sequence E.

Section Executor.
Context `{BuildProfile} `{FloatLib} {S : Type} `{AsBytes S} `{StringAddress S} `{Platform S} `{Interning S} `{DisplayFloat}.
Context {Sequence E : Type} `{!Natives S Sequence E}.
Abbreviation callee := (MetaOps.Callee S).
Abbreviation value := (Value.t S).
Abbreviation Error := (Error.t S E).
Abbreviation Frame := (@Thread.Frame S Sequence Error).
Abbreviation ThreadState := (@Thread.ThreadState S Sequence Error).
Abbreviation World := (@Thread.World S Sequence Error).
Abbreviation Machine := (RunVm.Machine (S:=S) (Sequence:=Sequence) (Error:=Error)).
Abbreviation Arena := (Arena S Sequence E).
Abbreviation Execution := (Execution S Sequence E).
Abbreviation answer A := (outcome ((A + Error) * (Arena * Fuel.t * list value))).

(** What the arena has allocated in a state, and the sizes of a closure and an upvalue *)
Context (allocated : Machine -> Z) (size_of_inner size_of_upvalue : Z).

(** ** [backtrace] *)

Definition frame_args (w : World) (fr : Thread.lua_frame) (s : list value) : outcome (list value) :=
  proto ← Thread.prototype w (Thread.closure fr);
  let fixed := take (Z.to_nat (Thread.fixed_params proto)) (drop (Thread.base fr) s) in
  if Thread.has_varargs proto && (Thread.bottom fr <? Thread.base fr)%nat then
    extra ← Slice.slice s (Thread.bottom fr) (Thread.base fr);
    Ok (fixed ++ extra)
  else Ok fixed.

Definition trace_frame (w : World) (s : list value) (f : Frame) : outcome (Error.BacktraceFrame S) :=
  match f with
  | Thread.Lua fr => args ← frame_args w fr s; Ok (Error.Lua (Thread.closure fr) (Thread.pc fr) args)
  | Thread.Callback _ _ => Ok Error.Callback
  | Thread.Sequence_ _ _ _ | Thread.HostSuspended _ _ _ => Ok Error.Sequence
  | _ => Ok Error.Internal
  end.
Definition trace_frames (w : World) (fs : list Frame) (s : list value) : outcome (list (Error.BacktraceFrame S)) :=
  mapM (trace_frame w s) fs.

(** The frames of the other threads, those that can be borrowed *)
Fixpoint trace_threads (w : World) (ts : list obj) : outcome (list (Error.BacktraceFrame S)) :=
  match ts with
  | [] => Ok []
  | t :: ts =>
      b ← match Thread.threads w !! t with
          | Some st => trace_frames w (Thread.frames st) (Thread.stack st)
          | None => Ok []
          end;
      bs ← trace_threads w ts;
      Ok (b ++ bs)
  end.

Definition backtrace (w : World) (fs : list Frame) (s : list value) (thread_stack : list obj)
  : outcome (list (Error.BacktraceFrame S)) :=
  b ← trace_frames w fs s;
  bs ← trace_threads w (tail thread_stack);
  Ok (b ++ bs).

(** ** A thread that runs *)

(** The machine of the top thread, the threads below it, and the rest of the arena *)
Record Running : Type := mk_Running {
  mc : Machine;
  thread_stack : list obj;
  ops : gmap Z obj;
  stashed : gmap obj value
}.

Definition lua (r : Running) := RunVm.lua (mc r).
Definition this (r : Running) : obj := Thread.thread (lua r).
Definition top (r : Running) : ThreadState := Thread.state (lua r).
Definition fuel (r : Running) : Fuel.t := Thread.fuel (lua r).
Definition world_of (r : Running) : World := Thread.world (lua r).

Definition set_mc (m : Machine) (r : Running) : Running := mk_Running m (thread_stack r) (ops r) (stashed r).
Definition set_lua (m : Thread.LuaFrame) (r : Running) : Running := set_mc (RunVm.mk_Machine m (RunVm.tables (mc r))) r.
Definition set_top (st : ThreadState) (r : Running) : Running := set_lua (Thread.set_state st (lua r)) r.
Definition set_world (w : World) (r : Running) : Running := set_lua (Thread.set_world w (lua r)) r.
Definition set_fuel (f : Fuel.t) (r : Running) : Running :=
  set_lua (Thread.mk_LuaFrame (this r) (top r) (world_of r) f) r.
Definition set_threads (ts : list obj) (r : Running) : Running := mk_Running (mc r) ts (ops r) (stashed r).
Definition set_ops (o : gmap Z obj) (r : Running) : Running := mk_Running (mc r) (thread_stack r) o (stashed r).
Definition consume (amount : Z) (r : Running) : Running := set_fuel (Fuel.consume amount (fuel r)) r.
Definition push (f : Frame) (r : Running) : Running := set_top (Thread.push_frame f (top r)) r.
(** [stack.truncate(bottom)] *)
Definition truncate (bottom : nat) (r : Running) : Running := set_top (Thread.set_stack (take bottom (Thread.stack (top r))) (top r)) r.
Definition throw (e : Error) (r : Running) : Running := push (Thread.Error_ e) r.

Definition push_call (bottom : nat) (f : callee) (r : Running) : outcome Running :=
  st ← Thread.push_call (world_of r) bottom f (top r); Ok (set_top st r).
Definition return_to (bottom : nat) (r : Running) : outcome Running :=
  st ← Thread.return_to bottom (top r); Ok (set_top st r).

Definition memory (r : Running) : Memory.MemoryLimit := RunVm.memory (mc r).
Definition set_memory (l : Memory.MemoryLimit) (r : Running) : Running := set_lua (RunVm.set_memory l (lua r)) r.
(** [ctx.check_current_memory()] *)
Definition check_current_memory (r : Running) : (unit + Memory.OutOfMemory) * Running :=
  let '(res, l) := Memory.check_current (allocated (mc r)) (memory r) in (res, set_memory l r).

Definition VM_GRANULARITY : Z := 64.
Definition FUEL_PER_CALLBACK : Z := 8.
Definition FUEL_PER_SEQ_STEP : Z := 4.
Definition FUEL_PER_STEP : Z := 4.

(** ** Callbacks and sequences *)

Definition execution (r : Running) : Execution := mk_Execution (thread_stack r) (Thread.frames (top r)).
Definition arena (r : Running) : Arena := mk_Arena (world_of r) (RunVm.tables (mc r)) (ops r) (stashed r).

(** Run native code on the stack from [bottom] on. *)
Definition run_native {A} (code : Execution -> Arena -> Fuel.t -> list value -> answer A)
    (bottom : nat) (r : Running) : outcome ((A + Error) * Running) :=
  '(below, values) ← Slice.drain (Thread.stack (top r)) bottom;
  '(res, (a, f, values)) ← code (execution r) (arena r) (fuel r) values;
  let st := Thread.set_stack (below ++ values) (top r) in
  Ok (res, mk_Running (RunVm.mk_Machine (Thread.mk_LuaFrame (this r) st (world a) f) (tables a))
             (thread_stack r) (host_ops a) (roots a)).

(** The callbacks of [meta_ops.rs]: the one of [call], of [index] and of [new_index] *)
Definition of_table_return (r : MetaTable.CallbackReturn (S:=S)) : Native.CallbackReturn S Sequence * list value :=
  match r with
  | MetaTable.Return s => (Native.Return, s)
  | MetaTable.Call f s => (Native.Call f None, s)
  end.
Definition made_callback (c : callee) (_ : Execution) (a : Arena) (f : Fuel.t) (values : list value)
  : answer (Native.CallbackReturn S Sequence) :=
  match c with
  | MetaOps.CallWith v g =>
      let values := v :: values in
      match MetaOps.call (MetaTable.heap (tables a)) g with
      | inl g => Ok (inl (Native.Call g None), (a, f, values))
      | inr e => Ok (inr (Error.runtime (Error.OfCall e)), (a, f, values))
      end
  | MetaOps.CallIndex =>
      res ← MetaTable.index_callback (tables a) values;
      match res with
      | inl ret => let '(ret, values) := of_table_return ret in Ok (inl ret, (a, f, values))
      | inr e => Ok (inr (Error.runtime (Error.OfOperator e)), (a, f, values))
      end
  | _ => Panic
  end.
(** The one of [new_index], for what the arena has allocated *)
Definition made_new_index (allocated : Z) (_ : Execution) (a : Arena) (f : Fuel.t) (values : list value)
  : answer (Native.CallbackReturn S Sequence) :=
  let w := world a in
  '(res, (ts, l)) ← MetaTable.new_index_callback allocated values (tables a) (Thread.memory w);
  let a := mk_Arena (Thread.mk_World (Thread.threads w) (Thread.upvalues w) (Thread.closures w) l) ts (host_ops a) (roots a) in
  match res with
  | inl ret => let '(ret, values) := of_table_return ret in Ok (inl ret, (a, f, values))
  | inr e => Ok (inr (Error.runtime (Error.OfOperator e)), (a, f, values))
  end.

(** [callback.call(..)]; a closure is never in a callback frame. *)
Definition call (c : callee) (bottom : nat) (r : Running) : outcome ((Native.CallbackReturn S Sequence + Error) * Running) :=
  match c with
  | MetaOps.Existing (Callback p) => run_native (call_callback p) bottom r
  | MetaOps.Existing (Closure _) => Panic
  | MetaOps.CallConcat => run_native call_concat bottom r
  | MetaOps.CallNewIndex => run_native (made_new_index (allocated (mc r))) bottom r
  | c => run_native (made_callback c) bottom r
  end.

(** ** Switching threads *)

Definition do_yield (to_thread : option obj) (bottom : nat) (r : Running) : outcome Running :=
  match to_thread with
  | Some t =>
      '(s, args) ← Slice.drain (Thread.stack (top r)) bottom;
      let r := set_top (Thread.set_stack s (top r)) r in
      '(res, w) ← Thread.resume (world_of r) t args;
      let r := set_world w r in
      match res with
      | inr e => Ok (throw (Error.runtime (Error.OfThread e)) r)
      | inl _ => Ok (set_threads (t :: tail (thread_stack r)) (push Thread.Yielded r))
      end
  | None => Ok (push (Thread.Result bottom) (push Thread.Yielded r))
  end.

Definition do_resume (t : obj) (bottom : nat) (r : Running) : outcome Running :=
  '(s, args) ← Slice.drain (Thread.stack (top r)) bottom;
  let r := set_top (Thread.set_stack s (top r)) r in
  '(res, w) ← Thread.resume (world_of r) t args;
  let r := set_world w r in
  match res with
  | inr e => Ok (throw (Error.runtime (Error.OfThread e)) r)
  | inl _ =>
      if Slice.is_empty (Thread.frames (top r))
      then Ok (set_threads (t :: tail (thread_stack r)) r)
      else Ok (set_threads (t :: thread_stack r) (push Thread.WaitThread r))
  end.

(** ** One frame *)

Definition push_sequence (bottom : nat) (q : Sequence) (pending_error : option Error) (r : Running) : Running :=
  push (Thread.Sequence_ bottom q pending_error) r.
Definition push_then (bottom : nat) (next : option Sequence) (r : Running) : Running :=
  match next with Some q => push_sequence bottom q None r | None => r end.

Definition run_callback (bottom : nat) (c : callee) (r : Running) : outcome Running :=
  '(ret, r) ← call c bottom (consume FUEL_PER_CALLBACK r);
  match ret with
  | inl Native.Return => return_to bottom r
  | inl (Native.Sequence_ q) => Ok (push_sequence bottom q None r)
  | inl (Native.Call f next) => push_call bottom f (push_then bottom next r)
  | inl (Native.Yield to next) => do_yield to bottom (push_then bottom next r)
  | inl (Native.Resume t next) => do_resume t bottom (push_then bottom next r)
  | inr e => Ok (throw e (truncate bottom r))
  end.

Definition run_sequence (bottom : nat) (q : Sequence) (pending_error : option Error) (r : Running) : outcome Running :=
  let r := consume FUEL_PER_SEQ_STEP r in
  '(res, r) ← run_native (match pending_error with Some e => error_sequence q e | None => poll_sequence q end) bottom r;
  match res with
  | inl (poll, q) =>
      let again := push_sequence bottom q None r in
      match poll with
      | Native.Pending => Ok again
      | Native.Suspend handle =>
          o ← HostOp.register (ops r) handle (this r);
          Ok (push (Thread.HostSuspended bottom q handle) (set_ops o r))
      | Native.PollReturn => return_to bottom r
      | Native.PollCall rel f => push_call (bottom + rel) f again
      | Native.TailCall f => push_call bottom f r
      | Native.PollYield rel to => do_yield to (bottom + rel) again
      | Native.TailYield to => do_yield to bottom r
      | Native.PollResume rel t => do_resume t (bottom + rel) again
      | Native.TailResume t => do_resume t bottom r
      end
  | inr e => Ok (throw e (truncate bottom r))
  end.

(** The Lua frame is the top one again. *)
Definition run_lua (r : Running) : outcome Running :=
  '(res, m) ← RunVm.run_vm allocated size_of_inner size_of_upvalue VM_GRANULARITY (mc r);
  let r := set_mc m r in
  match res with
  | inr e => Ok (throw (Error.runtime (Error.OfVM e)) r)
  | inl n => match checked i32 n with Some n => Ok (consume n r) | None => Panic end
  end.

Definition traced (e : Error) (r : Running) : outcome Error :=
  match Error.backtrace e with
  | None =>
      b ← backtrace (world_of r) (Thread.frames (top r)) (Thread.stack (top r)) (thread_stack r);
      Ok (Error.with_backtrace b e)
  | Some _ => Ok e
  end.

(** An error, at the frame below it.  [shrink_spare_capacity], after an excess of memory,
    changes capacities alone. *)
Definition unwind (e : Error) (r : Running) : outcome Running :=
  e ← traced e r;
  match Thread.frames (top r) with
  | Thread.Lua fr :: rest =>
      let st := Thread.set_frames rest (top r) in
      '(st, w) ← Thread.close_upvalues (this r) (Thread.bottom fr) st (world_of r);
      Ok (throw e (truncate (Thread.bottom fr) (set_world w (set_top st r))))
  | Thread.Sequence_ bottom q pending_error :: rest =>
      _ ← rust_assert (match pending_error with None => true | Some _ => false end);
      let r := push_sequence bottom q (Some e) (set_top (Thread.set_frames rest (top r)) r) in
      Ok (snd (check_current_memory r))
  | _ => Panic
  end.

Definition run_frame (r : Running) : outcome Running :=
  match Thread.frames (top r) with
  | [] => Panic
  | f :: rest =>
      let popped := set_top (Thread.set_frames rest (top r)) r in
      match f with
      | Thread.Callback bottom c => run_callback bottom c popped
      | Thread.Sequence_ bottom q pending_error => run_sequence bottom q pending_error popped
      | Thread.Lua _ => run_lua r
      | Thread.Error_ e => unwind e popped
      | _ => Panic
      end
  end.

(** ** The hard quota *)

Definition can_inject (r : Running) : bool :=
  match Thread.frames (top r) with
  | Thread.Lua _ :: _ | Thread.Sequence_ _ _ None :: _ => true
  | _ => false
  end.

(** [true] leaves the loop. *)
Definition chokepoint (r : Running) : bool * Running :=
  match Memory.max_bytes (memory r) with
  | None => (false, r)
  | Some _ =>
      if can_inject r then
        let '(res, r) := check_current_memory r in
        match res with
        | inr oom =>
            if Memory.quota_yielded (memory r) then
              (false, throw (Error.runtime (Error.OfMemory oom)) (set_memory (Memory.clear_quota_yielded (memory r)) r))
            else (true, set_memory (Memory.set_quota_yielded (memory r)) r)
        | inl _ => (false, set_memory (Memory.clear_quota_yielded (memory r)) r)
        end
      else (false, r)
  end.

(** ** [Executor::step] *)

Record State : Type := mk_State {
  stack_of : list obj;
  arena_of : Arena;
  fuel_of : Fuel.t
}.

(** The top thread is borrowed, and given back. *)
Definition borrow_top (t : obj) (ts : list obj) (x : State) : outcome Running :=
  let a := arena_of x in
  st ← Thread.borrow (world a) t;
  Ok (mk_Running (RunVm.mk_Machine (Thread.mk_LuaFrame t st (Thread.borrowed t (world a)) (fuel_of x)) (tables a))
        ts (host_ops a) (roots a)).
Definition give_back (r : Running) : State :=
  mk_State (thread_stack r)
    (mk_Arena (Thread.put_thread (this r) (top r) (world_of r)) (RunVm.tables (mc r)) (ops r) (stashed r))
    (fuel r).

Abbreviation leaves := (bool + BadThreadMode)%type.

(** The result of the thread [from] goes to the one that waits for it. *)
Definition deliver (from : obj) (r : Running) : outcome (leaves * State + Running) :=
  md ← Thread.mode (top r);
  if negb (bool_decide (md = ThreadMode.Waiting))
  then Ok (inl (inr (mk_BadThreadMode md (Some ThreadMode.Waiting)), give_back r))
  else
    match Thread.frames (top r) with
    | Thread.WaitThread :: rest =>
        let r := set_top (Thread.set_frames rest (top r)) r in
        from_mode ← Thread.thread_mode (world_of r) from;
        _ ← rust_assert (bool_decide (from_mode = ThreadMode.Result));
        st ← Thread.borrow (world_of r) from;
        '(res, st) ← Thread.state_take_result st;
        let r := set_world (Thread.put_thread from st (world_of r)) r in
        match res with
        | inl vals =>
            let bottom := length (Thread.stack (top r)) in
            r ← return_to bottom (set_top (Thread.set_stack (Thread.stack (top r) ++ vals) (top r)) r);
            Ok (inr r)
        | inr e => Ok (inr (throw e r))
        end
    | _ => Panic
    end.

(** What the mode of the top thread allows *)
Definition select (x : State) : outcome (leaves * State + Running) :=
  match stack_of x with
  | [] => Panic
  | t :: below =>
      md ← Thread.thread_mode (world (arena_of x)) t;
      match md, below with
      | ThreadMode.Normal, _ => r ← borrow_top t (t :: below) x; Ok (inr r)
      | ThreadMode.Running, _ => Panic
      | (ThreadMode.Stopped | ThreadMode.Suspended | ThreadMode.Result), [] => Ok (inl (inl true, x))
      | ThreadMode.Result, u :: _ => r ← borrow_top u below x; deliver t r
      | _, _ => Ok (inl (inr (mk_BadThreadMode md None), x))
      end
  end.

(** The part of the loop after the thread is chosen; [None] goes on. *)
Definition run_top (r : Running) : outcome (option leaves * State) :=
  md ← Thread.mode (top r);
  r ← (if bool_decide (md = ThreadMode.Normal) then run_frame r else Ok r);
  let '(stop, r) := chokepoint (consume FUEL_PER_STEP r) in
  Ok (if stop || negb (Fuel.should_continue (fuel r)) then Some (inl false) else None, give_back r).

Definition iteration (x : State) : outcome (option leaves * State) :=
  s ← select x;
  match s with
  | inl (l, x) => Ok (Some l, x)
  | inr r => run_top r
  end.

(** At most [n] rounds of the loop; [None] when it goes on after them *)
Fixpoint step (n : nat) (x : State) : outcome (option leaves * State) :=
  match n with
  | O => Ok (None, x)
  | Datatypes.S n =>
      '(l, x) ← iteration x;
      match l with
      | Some l => Ok (Some l, x)
      | None => step n x
      end
  end.

(** ** The operations of the host on an executor

    [ts] are its threads; [None] while it is borrowed by its own [step]. *)

(** [thread_stack[0]] *)
Definition main_thread (ts : list obj) : outcome obj :=
  match last ts with Some t => Ok t | None => Panic end.

Definition mode_of_main (w : World) (t : obj) : outcome ExecutorMode.t :=
  match Thread.threads w !! t with
  | Some st =>
      match Thread.suspended_host_op st with
      | Some _ => Ok ExecutorMode.HostSuspended
      | None =>
          md ← Thread.mode st;
          Ok (match md with
              | ThreadMode.Stopped => ExecutorMode.Stopped
              | ThreadMode.Result => ExecutorMode.Result
              | ThreadMode.Normal | ThreadMode.Waiting => ExecutorMode.Normal
              | ThreadMode.Suspended => ExecutorMode.Suspended
              | ThreadMode.Running => ExecutorMode.Running
              end)
      end
  | None => Ok ExecutorMode.Running
  end.
Definition mode (w : World) (ts : option (list obj)) : outcome ExecutorMode.t :=
  match ts with
  | Some ts =>
      if (1 <? length ts)%nat then Ok ExecutorMode.Normal
      else t ← main_thread ts; mode_of_main w t
  | None => Ok ExecutorMode.Running
  end.

(** [.unwrap()] of a thread operation *)
Definition unwrap {A} (m : outcome ((A + BadThreadMode) * World)) : outcome (A * World) :=
  '(r, w) ← m;
  match r with inl a => Ok (a, w) | inr _ => Panic end.

(** An operation on the main thread in a mode *)
Definition when {A} (expected : ExecutorMode.t) (op : obj -> outcome ((A + BadThreadMode) * World))
    (w : World) (ts : option (list obj)) : outcome ((A + BadExecutorMode) * World) :=
  md ← mode w ts;
  if bool_decide (md = expected) then
    match ts with
    | Some ts => t ← main_thread ts; '(a, w) ← unwrap (op t); Ok (inl a, w)
    | None => Panic
    end
  else Ok (inr (mk_BadExecutorMode md expected), w).

Definition take_result (w : World) (ts : option (list obj)) : outcome ((list value + Error + BadExecutorMode) * World) :=
  when ExecutorMode.Result (Thread.take_result w) w ts.
Definition resume (args : list value) (w : World) (ts : option (list obj)) : outcome ((unit + BadExecutorMode) * World) :=
  when ExecutorMode.Suspended (fun t => Thread.resume w t args) w ts.
Definition resume_err (error : Error) (w : World) (ts : option (list obj)) : outcome ((unit + BadExecutorMode) * World) :=
  when ExecutorMode.Suspended (fun t => Thread.resume_err w t error) w ts.

Definition parked_on (w : World) (t : obj) : option Z := Thread.threads w !! t ≫= Thread.suspended_host_op.
Definition pending_host_op (w : World) (ts : option (list obj)) : option Z :=
  match ts with Some [t] => parked_on w t | _ => None end.

(** The part that [resume_host_op] and [cancel_host_op] share: [resolve] makes the state of
    the thread from its frames below, the bottom and the sequence. *)
Definition resolve_host_op (handle : Z) (resolve : ThreadState -> nat -> Sequence -> outcome ThreadState)
    (a : Arena) (ts : option (list obj)) : outcome ((unit + HostOpError.t) * Arena) :=
  let w := world a in
  md ← mode w ts;
  if negb (bool_decide (md = ExecutorMode.HostSuspended))
  then Ok (inr (HostOpError.Mode (mk_BadExecutorMode md ExecutorMode.HostSuspended)), a)
  else
    match ts with
    | None => Ok (inr HostOpError.Busy, a)
    | Some ts =>
        match find (fun t => bool_decide (parked_on w t = Some handle)) (rev ts) with
        | None => Ok (inr (HostOpError.Unknown handle), a)
        | Some t =>
            st ← Thread.borrow w t;
            match Thread.frames st with
            | Thread.HostSuspended bottom q h :: rest =>
                if h =? handle then
                  st ← resolve (Thread.mk_ThreadState rest (take bottom (Thread.stack st)) (Thread.open_upvalues st)) bottom q;
                  Ok (inl tt, mk_Arena (Thread.put_thread t st w) (tables a) (snd (HostOp.remove (host_ops a) handle)) (roots a))
                else Ok (inr (HostOpError.Unknown handle), a)
            | _ => Ok (inr (HostOpError.Unknown handle), a)
            end
        end
    end.

Definition resume_host_op (handle : Z) (result : list HostOp.HostOpValue) (a : Arena) (ts : option (list obj))
  : outcome ((unit + HostOpError.t) * Arena) :=
  resolve_host_op handle (fun st bottom q =>
    fetched ← HostOp.fetch_into (roots a) result;
    Ok (Thread.push_frame (Thread.Sequence_ bottom q None) (Thread.set_stack (Thread.stack st ++ fetched) st))) a ts.
Definition cancel_host_op (handle : Z) (message : list Z) (a : Arena) (ts : option (list obj))
  : outcome ((unit + HostOpError.t) * Arena) :=
  resolve_host_op handle (fun st bottom q =>
    Ok (Thread.push_frame (Thread.Sequence_ bottom q (Some (Error.runtime (Error.Cancelled handle message)))) st)) a ts.

Definition reset (w : World) (t : obj) : outcome (list obj + BadThreadMode) :=
  md ← Thread.thread_mode w t;
  Ok (match md with
      | ThreadMode.Waiting | ThreadMode.Running => inr (mk_BadThreadMode md (Some ThreadMode.Normal))
      | _ => inl [t]
      end).
Definition run (w : World) (t : obj) : outcome (list obj + BadThreadMode) := reset w t.
Definition new (w : World) : outcome (list obj * World) :=
  let '(t, w) := Thread.new w in
  r ← run w t;
  match r with inl ts => Ok (ts, w) | inr _ => Panic end.
Definition start (function : callee) (args : list value) (w : World) : outcome (list obj * World) :=
  let '(t, w) := Thread.new w in
  '(_, w) ← unwrap (Thread.start w t function args);
  r ← run w t;
  match r with inl ts => Ok (ts, w) | inr _ => Panic end.

Definition stop (w : World) (ts : list obj) : outcome (list obj * World) :=
  t ← main_thread ts;
  '(_, w) ← unwrap (Thread.reset w t);
  Ok ([t], w).
Definition restart (function : callee) (args : list value) (w : World) (ts : list obj) : outcome (list obj * World) :=
  '(ts, w) ← stop w ts;
  t ← main_thread ts;
  '(_, w) ← unwrap (Thread.start w t function args);
  Ok (ts, w).

(** [Execution::current_thread] *)
Definition current_thread (e : Execution) : outcome (obj * bool) :=
  match threads e with
  | t :: below => Ok (t, Slice.is_empty below)
  | [] => Panic
  end.
End Executor.
End Executor.
