(* ===== verification/ExecutorFacts.v ===== *)
(** * Worlds of well-formed threads

    The invariant of all the threads of a world at once, and that a step of one of them keeps
    the others. *)

From S2P Require Import Prelude Slices Float64 StringUtils Constant Value MetaOps Opcode Operators Limits Vm Thread ThreadFacts ThreadCalls ThreadSteps ThreadTheorems.

Module ExecutorFacts.
Import Thread ThreadFacts ThreadCalls ThreadTheorems.
Section Worlds.
Context `{BuildProfile} {S : Type} `{AsBytes S} {Sequence Error : Type}.
Abbreviation value := (Value.t S).
Abbreviation Frame := (@Thread.Frame S Sequence Error).
Abbreviation ThreadState := (@Thread.ThreadState S Sequence Error).
Abbreviation World := (@Thread.World S Sequence Error).
Implicit Types (w : World) (st : ThreadState) (t u : obj) (us : list obj).

(** What a thread needs of the functions it will run: one to start with exists, and a callback
    is not a closure. *)
Definition entry_ok w st : Prop :=
  match frames st with
  | Start f :: _ => callee_ok w f
  | Callback _ (MetaOps.Existing (Closure _)) :: _ => False
  | _ => True
  end.

(** Every thread that can be borrowed is well formed. *)
Definition sound w : Prop :=
  forall t st, threads w !! t = Some st -> wf_thread t st (borrowed t w) /\ entry_ok w st.

Lemma wf_open_upvalues t us limit w w' : upvalues w' = upvalues w -> wf_open t us limit w -> wf_open t us limit w'.
Proof. intros E [Hs Hc]. by split; rewrite E. Qed.

(** Another world, with the same upvalues of the thread *)
Lemma wf_thread_transfer t st w w' : wf_thread t st w -> wf_world t st w' -> closures w' = closures w ->
  (forall u i, upvalues w' !! u = Some (Open t i) <-> upvalues w !! u = Some (Open t i)) -> wf_thread t st w'.
Proof.
  intros [Hw Ho Hf Hc] Hw' Hcl Hiff. split; [done| | |].
  - destruct Ho as [(is_ & Hp & Hs & Hl) Hcomp]. split.
    + exists is_. split; [|done]. eapply Forall2_impl; [exact Hp|]. intros u i Hu. by apply Hiff.
    + intros u i Hu. apply (Hcomp u i). by apply Hiff.
  - eapply wf_frames_mono; [|done]. intros i [u Hu]. exists u. by apply Hiff.
  - eapply captured_mono; [done| |apply Hw|done]. intros u i _ Hu. by apply Hiff.
Qed.

Lemma wf_open_same t us limit w w' : same_elsewhere t w w' -> forall t', t' <> t ->
  wf_open t' us limit w -> wf_open t' us limit w'.
Proof. intros He t' Hne. by apply (wf_open_elsewhere t). Qed.

Lemma borrowed_put t st w : threads w !! t = None -> borrowed t (put_thread t st w) = w.
Proof.
  intros Hn. unfold borrowed, put_thread, set_threads. cbn. rewrite delete_insert_id by done. by destruct w.
Qed.
Lemma put_borrowed t st w : threads w !! t = Some st -> put_thread t st (borrowed t w) = w.
Proof.
  intros Hs. unfold borrowed, put_thread, set_threads. cbn. rewrite insert_delete_id by done. by destruct w.
Qed.
Lemma borrowed_self t w : threads (borrowed t w) !! t = None.
Proof. apply lookup_delete_eq. Qed.

Lemma callee_ok_closures w w' f : closures w' = closures w -> callee_ok w f -> callee_ok w' f.
Proof. intros E. unfold callee_ok. by rewrite E. Qed.
Lemma entry_ok_closures w w' st : closures w' = closures w -> entry_ok w st -> entry_ok w' st.
Proof. intros E. unfold entry_ok. destruct (frames st) as [|[] ?]; try done. by apply callee_ok_closures. Qed.

(** A step of one thread keeps the others. *)
Lemma sound_put w t st st' w' : sound w -> threads w !! t = Some st -> same_elsewhere t (borrowed t w) w' ->
  wf_thread t st' w' -> entry_ok w' st' -> sound (put_thread t st' w').
Proof.
  intros Hs Ht He Hwf Hen t2 st2 Ht2. pose proof He as [Hth Hcl Hiff Hdom].
  assert (Hself : threads w' !! t = None) by apply Hwf. cbn in Ht2. destruct (decide (t2 = t)) as [->|Hne].
  { rewrite lookup_insert_eq in Ht2. injection Ht2 as <-. by rewrite borrowed_put. }
  rewrite lookup_insert_ne, Hth in Ht2 by done. cbn in Ht2. rewrite lookup_delete_ne in Ht2 by done.
  destruct (Hs _ _ Ht2) as [Hwf2 Hen2]. split; [|by eapply entry_ok_closures; [|exact Hen2]].
  pose proof Hwf2 as [[_ Hown Hothers Halive Hclos] _ _ _]. set (w2 := borrowed t2 (put_thread t st' w')).
  assert (Hopen : forall t3 us limit, t3 <> t -> wf_open t3 us limit (borrowed t2 w) -> wf_open t3 us limit w2).
  { intros t3 us limit Hne3 Ho. eapply wf_open_upvalues; [|eapply wf_open_elsewhere; [exact He|exact Hne3|]]; [done|].
    by eapply wf_open_upvalues; [|exact Ho]. }
  assert (Hthreads : forall t3, t3 <> t2 -> threads w2 !! t3 = if decide (t3 = t) then Some st' else threads w !! t3).
  { intros t3 Hne3. cbn. rewrite lookup_delete_ne by done. case_decide; subst; [by rewrite lookup_insert_eq|].
    rewrite lookup_insert_ne, Hth by done. cbn. by rewrite lookup_delete_ne by done. }
  eapply wf_thread_transfer; [exact Hwf2| |exact Hcl|].
  - split.
    + apply borrowed_self.
    + by apply Hopen.
    + intros t3 st3 Ht3. destruct (decide (t3 = t2)) as [->|Hne3]; [unfold w2 in Ht3; by rewrite borrowed_self in Ht3|].
      rewrite Hthreads in Ht3 by done. case_decide; subst.
      * injection Ht3 as <-. eapply wf_open_upvalues; [|apply Hwf]. done.
      * apply Hopen; [done|]. apply (Hothers t3). cbn. by rewrite lookup_delete_ne.
    + intros u t3 i Hu Hne3. rewrite Hthreads by done. case_decide; [done|].
      destruct (Halive u t3 i) as [x Hx]; [by apply Hiff|done|]. cbn in Hx. rewrite lookup_delete_ne in Hx by done. by exists x.
    + intros c ci u. change (closures w2) with (closures w'). rewrite Hcl. intros Hci Hu. apply Hdom. by eapply Hclos.
  - intros u i. by apply Hiff.
Qed.

(** Worlds that differ in the memory limit alone *)
Record same_heap w w' : Prop := {
  sh_threads : threads w' = threads w;
  sh_upvalues : upvalues w' = upvalues w;
  sh_closures : closures w' = closures w
}.
Lemma wf_world_same t st w w' : same_heap w w' -> wf_world t st w -> wf_world t st w'.
Proof.
  intros [Et Eu Ec] Hw. eapply wf_world_step; [exact Hw| |].
  - split; [done|done|by rewrite Eu|by rewrite Eu].
  - eapply wf_open_upvalues; [exact Eu|apply Hw].
Qed.
Lemma wf_thread_same t st w w' : same_heap w w' -> wf_thread t st w -> wf_thread t st w'.
Proof.
  intros Hs Hw. pose proof Hs as [Et Eu Ec]. eapply wf_thread_transfer; [exact Hw| |exact Ec|by rewrite Eu].
  eapply wf_world_same; [exact Hs|apply Hw].
Qed.
Lemma sound_same w w' : same_heap w w' -> sound w -> sound w'.
Proof.
  intros [Et Eu Ec] Hs t st Ht. rewrite Et in Ht. destruct (Hs _ _ Ht) as [Hw He].
  split; [|by eapply entry_ok_closures]. eapply wf_thread_same; [|exact Hw]. split; [cbn; by rewrite Et|done|done].
Qed.

(** ** Calls and returns *)
Lemma entry_pushed w w' b f st st' : push_call w b f st = Ok st' -> entry_ok w' st'.
Proof.
  unfold push_call. destruct f as [[c|c]| | | |]; [|by intros [= <-]..].
  destruct (prototype w c); [|done]. rewrite outcome_bind_Ok.
  destruct (Slice.sub _ _); [|done]. rewrite outcome_bind_Ok.
  destruct (Slice.rotate_right _ _ _); [|done]. rewrite outcome_bind_Ok. by intros [= <-].
Qed.
Lemma entry_returned w b st st' : return_to b st = Ok st' -> entry_ok w st'.
Proof.
  unfold return_to. destruct (frames st) as [|[fr| | | | | | | |] rest] eqn:E; try done.
  - by intros [= <-].
  - destruct (Slice.sub _ _); [|done]. rewrite outcome_bind_Ok.
    destruct (expected_return fr) as [[c|[|r|k]]|]; [| | | |done]; [by intros [= <-]..| |].
    + destruct (Slice.set _ _ _); [|done]. rewrite outcome_bind_Ok. by intros [= <-].
    + destruct (if eqb _ _ then _ else _); [|done]. rewrite outcome_bind_Ok. by intros [= <-].
  - intros [= <-]. unfold entry_ok. by rewrite E.
Qed.

(** ** Resuming a thread, in two worlds with the same closures *)
Lemma push_call_closures w w' b f st : closures w' = closures w -> push_call w' b f st = push_call w b f st.
Proof. intros E. unfold push_call, prototype. by rewrite E. Qed.

Lemma resume_moves w w1 t st args wr : closures w1 = closures w -> threads w !! t = Some st -> threads w1 !! t = Some st ->
  resume w t args = Ok (inl tt, wr) ->
  exists st', wr = put_thread t st' w /\ resume w1 t args = Ok (inl tt, put_thread t st' w1) /\ forall w2, entry_ok w2 st'.
Proof.
  intros Hcl Ht Ht1. unfold resume, in_mode, check_mode. rewrite Ht, Ht1.
  destruct (mode st) as [md|]; [|done]. rewrite !outcome_bind_Ok. case_bool_decide; [|done].
  destruct (frames st) as [|[fr|b q e|b q h|f|b f| | |b|e] rest]; try done.
  - destruct (rust_assert _); [|done]. rewrite !outcome_bind_Ok, (push_call_closures w w1) by done.
    destruct (push_call w 0 f _) as [st'|] eqn:Hp; [|done]. rewrite !outcome_bind_Ok. intros [= <-].
    exists st'. split_and!; [done|done|]. intros w2. by eapply entry_pushed.
  - destruct (return_to _ _) as [st'|] eqn:Hp; [|done]. rewrite !outcome_bind_Ok. intros [= <-].
    exists st'. split_and!; [done|done|]. intros w2. by eapply entry_returned.
Qed.

Lemma borrowed_put_eq t st w : borrowed t (put_thread t st w) = borrowed t w.
Proof. unfold borrowed, put_thread, set_threads. cbn. by rewrite delete_insert_eq. Qed.
Lemma put_borrowed_eq t st w : put_thread t st (borrowed t w) = put_thread t st w.
Proof. unfold borrowed, put_thread, set_threads. cbn. by rewrite insert_delete_eq. Qed.
Lemma put_commute t t' st st' w : t <> t' -> put_thread t st (put_thread t' st' w) = put_thread t' st' (put_thread t st w).
Proof. intros Hne. unfold put_thread, set_threads. cbn. by rewrite insert_insert_ne. Qed.

(** A thread of a sound world resumed *)
Lemma sound_resume w t st args : sound w -> threads w !! t = Some st -> mode st = Ok ThreadMode.Suspended -> suspended_host_op st = None ->
  exists st', resume w t args = Ok (inl tt, put_thread t st' w) /\ sound (put_thread t st' w) /\
    (mode st' = Ok ThreadMode.Normal \/ mode st' = Ok ThreadMode.Result).
Proof.
  intros Hs Ht Hm Hp. destruct (Hs _ _ Ht) as [Hw He].
  destruct (resume_spec w t st args) as (w' & st' & Er & [Ht' Hw'] & Hmd); [by split|done|done| |].
  { intros f Ef. unfold entry_ok in He. by rewrite Ef in He. }
  destruct (resume_moves w w t st args w' eq_refl Ht Ht Er) as (st2 & -> & _ & Hen).
  cbn in Ht'. rewrite lookup_insert_eq in Ht'. injection Ht' as ->. rewrite borrowed_put_eq in Hw'.
  exists st'. split_and!; [done| |by destruct Hmd as [Hmd|[_ Hmd]]; [left|right]]. rewrite <- put_borrowed_eq.
  eapply sound_put; [done|done|apply same_elsewhere_refl|done|apply Hen].
Qed.
(** A world without captured variables *)
Lemma sound_plain w : upvalues w = ∅ -> map_Forall (fun _ ci => closure_upvalues ci = []) (closures w) ->
  map_Forall (fun t st => open_upvalues st = [] /\ wf_frames t w (frames st) (length (stack st)) /\
    Forall (captured t w) (frames st) /\ entry_ok w st) (threads w) -> sound w.
Proof.
  intros Eu Hcl Hth t st Ht. destruct (Hth _ _ Ht) as (Eo & Hf & Hc & He).
  assert (Ho : forall t' limit, wf_open t' [] limit (borrowed t w)).
  { intros t' limit. split; [by exists []; split_and!; [|constructor|constructor]|]. intros u i Hu. cbn in Hu. by rewrite Eu in Hu. }
  split; [|done]. split; [|by rewrite Eo| |done].
  - split; [apply borrowed_self|by rewrite Eo| | |].
    + intros t' st' Ht'. cbn in Ht'. apply lookup_delete_Some in Ht' as [_ Ht']. destruct (Hth _ _ Ht') as [-> _]. apply Ho.
    + intros u t' i Hu. cbn in Hu. by rewrite Eu in Hu.
    + intros c ci u Hci Hu. rewrite (Hcl _ _ Hci) in Hu. by apply elem_of_nil in Hu.
  - eapply wf_frames_mono; [|exact Hf]. intros i Hi. exact Hi.
Qed.
End Worlds.
End ExecutorFacts.
