(* ===== verification/ExecutorSteps.v ===== *)
(** * The executor keeps its threads well formed

    What each part of the loop of [step] does to a sound world whose threads are in line, and
    what is asked of the code that a frame runs. *)

From S2P Require Import Prelude Slices Float64 StringUtils Constant Value Limits RawTable MetaOps Opcode Operators Vm VmControl Thread Table RunVm HostOp Executor ThreadFacts ThreadCalls ThreadSteps ThreadTheorems ExecutorFacts.

Module ExecutorSteps.
Import Thread ThreadFacts ThreadCalls ThreadTheorems ExecutorFacts Executor.

Section Runs.
Context `{BuildProfile} `{FloatLib} {S : Type} `{AsBytes S} `{StringAddress S} `{Platform S} `{Interning S} `{DisplayFloat}.
Context {Sequence E : Type} `{!Natives S Sequence E}.
Abbreviation value := (Value.t S).
Abbreviation Error := (Error.t S E).
Abbreviation Frame := (@Thread.Frame S Sequence Error).
Abbreviation ThreadState := (@Thread.ThreadState S Sequence Error).
Abbreviation World := (@Thread.World S Sequence Error).
Abbreviation Machine := (RunVm.Machine (S:=S) (Sequence:=Sequence) (Error:=Error)).
Abbreviation Running := (Running (S:=S) (Sequence:=Sequence) (E:=E)).
Context (allocated : Machine -> Z) (size_of_inner size_of_upvalue : Z).
Implicit Types (w : World) (st : ThreadState) (t u : obj) (r : Running).

(** The world with the running thread in it *)
Definition whole r : World := put_thread (this r) (top r) (world_of r).
Definition running r : Prop := sound (whole r) /\ Thread.threads (world_of r) !! this r = None.

Lemma running_top r : running r -> wf_thread (this r) (top r) (world_of r) /\ entry_ok (world_of r) (top r).
Proof.
  intros [Hs Hn]. destruct (Hs (this r) (top r)) as [Hw He]; [cbn; apply lookup_insert_eq|].
  unfold whole in Hw. by rewrite borrowed_put in Hw.
Qed.

(** A step of the running thread *)
Lemma running_step r r' : running r -> this r' = this r -> same_elsewhere (this r) (world_of r) (world_of r') ->
  wf_thread (this r') (top r') (world_of r') -> entry_ok (world_of r') (top r') -> running r'.
Proof.
  intros [Hs Hn] Ht He Hw Hen. split; [|apply Hw]. unfold whole. rewrite Ht in *.
  eapply sound_put; [exact Hs|cbn; apply lookup_insert_eq| |done|done]. unfold whole. by rewrite borrowed_put.
Qed.
Lemma running_top_step r st' : running r -> wf_thread (this r) st' (world_of r) -> entry_ok (world_of r) st' -> running (set_top st' r).
Proof. intros Hr Hw He. eapply running_step; [exact Hr|done|apply same_elsewhere_refl|done|done]. Qed.
Lemma running_same r r' : running r -> this r' = this r -> top r' = top r -> same_heap (world_of r) (world_of r') -> running r'.
Proof.
  intros [Hs Hn] Et Est Hh. destruct Hh as [Eth Eu Ec]. split; [|by rewrite Eth, Et].
  unfold whole. rewrite Et, Est. eapply sound_same; [|exact Hs]. split; [cbn; by rewrite Eth|done|done].
Qed.

(** The mode of another thread, and of the running one *)
Definition waiting w u : Prop := exists st, Thread.threads w !! u = Some st /\ Thread.mode st = Ok ThreadMode.Waiting.
Definition top_ok (alone : Prop) st : Prop :=
  exists md, Thread.mode st = Ok md /\ md <> ThreadMode.Waiting /\
    (md = ThreadMode.Normal \/ md = ThreadMode.Result \/ alone \/ is_Some (suspended_host_op st)).

(** The threads of an executor: the top one does not wait, each below waits for the one above. *)
Definition lined w (ts : list obj) : Prop :=
  match ts with
  | [] => False
  | t :: below =>
      NoDup ts /\ (exists st, Thread.threads w !! t = Some st /\ top_ok (below = []) st) /\ Forall (waiting w) below
  end.

(** The running thread is the top one. *)
Definition below r (us : list obj) : Prop :=
  thread_stack r = this r :: us /\ NoDup (this r :: us) /\ Forall (waiting (world_of r)) us.

Lemma waiting_put w t st u : u <> t -> waiting (put_thread t st w) u <-> waiting w u.
Proof. intros Hne. unfold waiting, put_thread, set_threads. cbn. by setoid_rewrite lookup_insert_ne. Qed.

Lemma below_lined r us : below r us -> top_ok (us = []) (top r) -> lined (whole r) (thread_stack r).
Proof.
  intros (Ets & Hd & Hw) Ht. rewrite Ets. split_and!; [done| |].
  - exists (top r). split; [cbn; apply lookup_insert_eq|done].
  - rewrite Forall_forall in Hw |- *. intros u Hu. apply waiting_put; [|by apply Hw].
    apply NoDup_cons in Hd as [Hni _]. by intros ->.
Qed.

Lemma top_ok_mode (alone : Prop) st md : Thread.mode st = Ok md -> md = ThreadMode.Normal \/ md = ThreadMode.Result -> top_ok alone st.
Proof. intros Hm Hmd. exists md. destruct Hmd as [-> | ->]; by auto. Qed.

(** What the functions below leave: a sound world and the threads in line *)
Definition in_line r : Prop := running r /\ lined (whole r) (thread_stack r).
Definition goes_well (m : outcome Running) : Prop := exists r', m = Ok r' /\ in_line r'.

(** A new state of the running thread, with the threads in place *)
Lemma in_line_top r us st' md : running r -> below r us -> wf_thread (this r) st' (world_of r) -> entry_ok (world_of r) st' ->
  Thread.mode st' = Ok md -> md = ThreadMode.Normal \/ md = ThreadMode.Result -> in_line (set_top st' r).
Proof.
  intros Hr Hb Hw He Hm Hmd. split; [by apply running_top_step|]. apply (below_lined _ us); [exact Hb|]. by eapply top_ok_mode.
Qed.

(** *** The frame that native code ran for *)

(** [r] is in the frame of a callback or a sequence whose part of the stack starts at [bottom],
    and which is no longer among the frames. *)
Record native r (bottom : nat) (us : list obj) : Prop := {
  na_world : wf_world (this r) (top r) (world_of r);
  na_open : wf_open (this r) (open_upvalues (top r)) bottom (world_of r);
  na_bottom : (bottom <= length (stack (top r)))%nat;
  na_nested : nested (this r) (world_of r) (frames (top r)) bottom;
  na_captured : Forall (captured (this r) (world_of r)) (frames (top r));
  na_sound : forall st', wf_thread (this r) st' (world_of r) -> entry_ok (world_of r) st' -> running (set_top st' r);
  na_below : below r us
}.

Lemma native_of_frame r us (f : Frame) bottom : match f with Callback b _ | Sequence_ b _ _ => b = bottom | _ => False end ->
  running (push f r) -> below r us -> native r bottom us.
Proof.
  intros Hf Hr Hb. destruct (running_top _ Hr) as [[Hw Ho Hfr Hc] _].
  change (this (push f r)) with (this r) in *. change (world_of (push f r)) with (world_of r) in *.
  change (top (push f r)) with (push_frame f (top r)) in *. unfold open_limit in Ho. cbn in Ho, Hfr, Hc.
  apply Forall_cons in Hc as [_ Hc].
  split; [by destruct Hw; split|by destruct f; subst; try done|by destruct f; subst; try done; destruct Hfr..|done| |done].
  intros st' Hw' He'. exact (running_top_step (push f r) st' Hr Hw' He').
Qed.

Lemma native_sequence r bottom rel us q : native r bottom us -> (bottom + rel <= length (stack (top r)))%nat ->
  native (push_sequence bottom q None r) (bottom + rel) us.
Proof.
  intros [Hw Ho Hb Hn Hc Hs Hl] Hrel. split; cbn; try done.
  - by destruct Hw; split.
  - eapply wf_open_limit; [|exact Ho]. lia.
  - split_and!; [lia| |done]. intros i Hi Hle. pose proof (opened_lt _ _ _ _ _ Ho Hi). lia.
  - by constructor.
Qed.
Lemma native_then r bottom us next : native r bottom us -> native (push_then bottom next r) bottom us.
Proof.
  intros Hn. destruct next as [q|]; [|done]. cbn. rewrite <- (Nat.add_0_r bottom) at 2.
  apply native_sequence; [done|]. rewrite Nat.add_0_r. apply Hn.
Qed.

Lemma native_call r bottom us f : native r bottom us -> callee_ok (world_of r) f -> goes_well (push_call bottom f r).
Proof.
  intros [Hw Ho Hb Hn Hc Hs Hl] Hf. unfold push_call.
  destruct (push_call_wf (this r) (world_of r) bottom f (top r) Hw Ho Hb Hn Hc Hf) as (fr & s & E1 & Hwf & _).
  rewrite E1, outcome_bind_Ok. eexists. split; [reflexivity|]. pose proof (entry_pushed _ (world_of r) _ _ _ _ E1) as He.
  split; [by apply Hs|]. apply (below_lined _ us); [exact Hl|]. eapply top_ok_mode; [by eapply pushed_mode|by left].
Qed.

Lemma native_return r bottom us : native r bottom us -> goes_well (return_to bottom r).
Proof.
  intros [Hw Ho Hb Hn Hc Hs Hl]. unfold return_to.
  destruct (return_to_wf (this r) (world_of r) bottom (top r) Hw Ho Hb Hn Hc) as (st' & E1 & _ & Hwf).
  rewrite E1, outcome_bind_Ok. eexists. split; [reflexivity|]. pose proof (entry_returned (world_of r) _ _ _ E1) as He.
  split; [by apply Hs|]. apply (below_lined _ us); [exact Hl|]. eapply top_ok_mode; [by eapply returned_mode|].
  destruct (frames (top r)); by auto.
Qed.

(** What is below a native frame, with the stack cut where its part starts *)
Lemma native_cut r bottom us : native r bottom us ->
  wf_world (this r) (set_stack (take bottom (stack (top r))) (top r)) (world_of r) /\
  length (take bottom (stack (top r))) = bottom.
Proof.
  intros [Hw Ho Hb _ _ _ _]. assert (Hl : length (take bottom (stack (top r))) = bottom) by (rewrite length_take; lia).
  split; [|done]. eapply wf_world_step; [exact Hw|apply same_elsewhere_refl|]. cbn. by rewrite Hl.
Qed.

(** Frames over what is below a native frame, with the stack cut *)
Lemma native_over r bottom us (fs : list Frame) : native r bottom us ->
  wf_frames (this r) (world_of r) (fs ++ frames (top r)) bottom ->
  (open_limit (mk_ThreadState (fs ++ frames (top r)) (take bottom (stack (top r))) (open_upvalues (top r))) = bottom) ->
  Forall (captured (this r) (world_of r)) fs ->
  wf_thread (this r) (mk_ThreadState (fs ++ frames (top r)) (take bottom (stack (top r))) (open_upvalues (top r))) (world_of r).
Proof.
  intros Hn Hf Hlim Hc. destruct (native_cut _ _ _ Hn) as [Hw Hl]. split; cbn [frames stack open_upvalues].
  - by destruct Hw; split.
  - rewrite Hlim. apply Hn.
  - by rewrite Hl.
  - apply Forall_app. split; [done|apply Hn].
Qed.

Lemma nested_unwinding t w fs limit : nested t w fs limit -> unwinding t w fs limit.
Proof. destruct fs as [|[] fs]; cbn; try done. by intros (? & ? & ?). Qed.

Lemma error_mode (e : Error) (fs : list Frame) s us md : Thread.mode (mk_ThreadState (Error_ e :: fs) s us) = Ok md -> md = ThreadMode.Normal \/ md = ThreadMode.Result.
Proof. destruct fs; intros [= <-]; by auto. Qed.

Lemma native_throw r bottom us e : native r bottom us -> in_line (throw e (truncate bottom r)).
Proof.
  intros Hn. destruct (native_cut _ _ _ Hn) as [_ Hl].
  pose proof (native_over r bottom us [Error_ e] Hn) as Hwf. cbn [app] in Hwf.
  specialize (Hwf (nested_unwinding _ _ _ _ (na_nested _ _ _ Hn)) Hl ltac:(by constructor)).
  split; [by apply (na_sound _ _ _ Hn)|]. apply (below_lined _ us); [apply Hn|].
  destruct (mode_total _ _ _ Hwf) as [md Hm]. eapply top_ok_mode; [exact Hm|]. by eapply error_mode.
Qed.

(** *** Switching threads *)

Lemma set_world_same r : set_world (world_of r) r = r.
Proof. by destruct r as [[[? ? ? ?] ?] ? ? ?]. Qed.

Lemma drain_at {A} (l : list A) b : (b <= length l)%nat -> Slice.drain l b = Ok (take b l, drop b l).
Proof. intros Hb. unfold Slice.drain. by rewrite SliceFacts.slice_end, outcome_bind_Ok. Qed.

(** A frame that waits, over what is below a native frame *)
Lemma native_waits r bottom us f : native r bottom us -> f = Yielded \/ f = WaitThread -> running (push f (truncate bottom r)).
Proof.
  intros Hn Hf. destruct (native_cut _ _ _ Hn) as [_ Hl]. apply (na_sound _ _ _ Hn); [|by destruct Hf as [-> | ->]].
  apply (native_over r bottom us [f] Hn); destruct Hf as [-> | ->]; try done; try apply Hn; by constructor.
Qed.

Lemma not_waiting r us t st : Forall (waiting (world_of r)) us -> Thread.threads (world_of r) !! t = Some st ->
  Thread.mode st = Ok ThreadMode.Suspended -> t ∉ us.
Proof.
  intros Hw Ht Hm Hin. rewrite Forall_forall in Hw. destruct (Hw _ Hin) as (st' & Ht' & Hm'). congruence.
Qed.

Lemma native_switch r bottom us t : native r bottom us -> parked_on (world_of r) t = None ->
  exists res w, Thread.resume (world_of r) t (drop bottom (stack (top r))) = Ok (res, w) /\
  match res with
  | inr _ => w = world_of r
  | inl _ => exists st', w = put_thread t st' (world_of r) /\ t <> this r /\ (t ∉ us) /\
      (forall alone, top_ok alone st') /\
      (forall f, f = Yielded \/ f = WaitThread -> running (push f (set_world w (truncate bottom r))))
  end.
Proof.
  intros Hn Hp. pose proof (native_waits r bottom us WaitThread Hn ltac:(by right)) as [Hs Hself].
  change (Thread.threads (world_of r) !! this r = None) in Hself.
  set (r1 := push WaitThread (truncate bottom r)) in *. set (args := drop bottom (stack (top r))).
  destruct (Thread.threads (world_of r) !! t) as [st|] eqn:Ht.
  2:{ eexists (inr _), _. split; [|reflexivity]. unfold Thread.resume, in_mode, check_mode. by rewrite Ht, outcome_bind_Ok. }
  assert (Hne : t <> this r) by (intros ->; by rewrite Ht in Hself).
  assert (Ht1 : Thread.threads (whole r1) !! t = Some st) by (cbn; rewrite lookup_insert_ne; done).
  destruct (mode_total _ _ _ (proj1 (Hs _ _ Ht1))) as [md Hm].
  destruct (decide (md = ThreadMode.Suspended)) as [->|Hmd].
  2:{ eexists (inr _), _. split; [|reflexivity]. by eapply in_mode_wrong. }
  unfold parked_on in Hp. rewrite Ht in Hp. cbn in Hp.
  destruct (sound_resume _ t st args Hs Ht1 Hm Hp) as (st' & Er & Hs' & Hmd).
  destruct (resume_moves (whole r1) (world_of r) t st args _ eq_refl Ht1 Ht Er) as (st2 & E2 & E3 & _).
  assert (st2 = st') as ->.
  { apply (f_equal (fun w => Thread.threads w !! t)) in E2. cbn in E2. rewrite !lookup_insert_eq in E2. by injection E2. }
  eexists (inl _), _. split; [exact E3|]. exists st'. split_and!; [done|done| | |].
  - eapply not_waiting; [apply (na_below _ _ _ Hn)|done|done].
  - intros alone. destruct Hmd; (eapply top_ok_mode; [done|]); by auto.
  - intros f Hf. assert (Hr2 : running (set_world (put_thread t st' (world_of r)) r1)).
    { split; [|cbn; by rewrite lookup_insert_ne]. unfold whole.
      change (sound (put_thread (this r) (top r1) (put_thread t st' (world_of r)))). rewrite put_commute by done. exact Hs'. }
    destruct Hf as [-> | ->]; [|exact Hr2]. destruct (running_top _ Hr2) as [Hw2 _].
    assert (Hst : push Yielded (set_world (put_thread t st' (world_of r)) (truncate bottom r)) =
      set_top (push_frame Yielded (Thread.set_frames (frames (top r)) (top r1))) (set_world (put_thread t st' (world_of r)) r1)) by done.
    rewrite Hst. apply running_top_step; [done| |done]. destruct Hw2 as [Hww Hwo Hwf Hwc]. split; [by destruct Hww; split|done|exact Hwf|].
    cbn in Hwc |- *. apply Forall_cons in Hwc as [_ Hwc]. by constructor.
Qed.

Lemma lined_switch r us t st' (r' : Running) : below r us -> t <> this r -> t ∉ us -> top_ok (us = []) st' ->
  world_of r' = put_thread t st' (world_of r) -> this r' = this r -> thread_stack r' = t :: us ->
  lined (whole r') (thread_stack r').
Proof.
  intros (_ & Hd & Hw) Hne Hnin Hok Ew Et Es. rewrite Es. apply NoDup_cons in Hd as [Hself Hd]. split_and!.
  - by constructor.
  - exists st'. unfold whole. rewrite Ew, Et. cbn. by rewrite lookup_insert_ne, lookup_insert_eq.
  - rewrite Forall_forall in Hw |- *. intros u Hu. unfold whole. rewrite Ew, Et.
    apply waiting_put; [by intros ->|]. apply waiting_put; [by intros ->|]. by apply Hw.
Qed.

Lemma native_yield r bottom us to : native r bottom us -> match to with Some t => parked_on (world_of r) t = None | None => True end ->
  goes_well (do_yield to bottom r).
Proof.
  intros Hn Hp. destruct to as [t|]; unfold do_yield.
  - rewrite drain_at, outcome_bind_Ok by apply Hn. change (set_top _ r) with (truncate bottom r).
    destruct (native_switch r bottom us t Hn Hp) as (res & w & Er & Hres). change (world_of (truncate bottom r)) with (world_of r).
    rewrite Er, outcome_bind_Ok. destruct res as [?|e].
    + destruct Hres as (st' & -> & Hne & Hnin & Hok & Hrun). eexists. split; [reflexivity|]. split.
      * exact (Hrun Yielded ltac:(by left)).
      * apply (lined_switch r us t st'); [apply Hn|done|done|apply Hok|done|done|]. cbn. by rewrite (proj1 (na_below _ _ _ Hn)).
    + subst w. eexists. split; [reflexivity|]. change (world_of r) with (world_of (truncate bottom r)). rewrite set_world_same. by apply native_throw with us.
  - eexists. split; [reflexivity|]. set (st' := mk_ThreadState (Result bottom :: Yielded :: frames (top r)) (stack (top r)) (open_upvalues (top r))).
    change (push (Result bottom) (push Yielded r)) with (set_top st' r).
    assert (Hw : wf_thread (this r) st' (world_of r)).
    { destruct Hn as [Hw Ho Hb Hne Hc _ _]. split; [by destruct Hw; split|done|by split|]. cbn. by repeat constructor. }
    split; [by apply (na_sound _ _ _ Hn)|]. apply (below_lined _ us); [apply Hn|]. eapply top_ok_mode; [reflexivity|by right].
Qed.

Lemma native_resume r bottom us t : native r bottom us -> parked_on (world_of r) t = None -> goes_well (do_resume t bottom r).
Proof.
  intros Hn Hp. unfold do_resume. rewrite drain_at, outcome_bind_Ok by apply Hn. change (set_top _ r) with (truncate bottom r).
  destruct (native_switch r bottom us t Hn Hp) as (res & w & Er & Hres). change (world_of (truncate bottom r)) with (world_of r).
  rewrite Er, outcome_bind_Ok. destruct res as [?|e].
  2:{ subst w. eexists. split; [reflexivity|]. change (world_of r) with (world_of (truncate bottom r)). rewrite set_world_same. by apply native_throw with us. }
  destruct Hres as (st' & -> & Hne & Hnin & Hok & Hrun). pose proof (Hrun WaitThread ltac:(by right)) as Hr2.
  pose proof (na_below _ _ _ Hn) as (Ets & Hd & Hw).
  change (frames (top (set_world _ (truncate bottom r)))) with (frames (top r)).
  destruct (frames (top r)) as [|f fs] eqn:Ef; cbn [Slice.is_empty]; eexists; (split; [reflexivity|]); split.
  - pose proof (na_nested _ _ _ Hn) as Hz. rewrite Ef in Hz. cbn in Hz. subst bottom. destruct (running_top _ Hr2) as [[Hww Hwo _ _] _].
    apply (running_top_step _ (mk_ThreadState [] [] (open_upvalues (top r)))) in Hr2; [|split; [by destruct Hww; split|done|done|done]|done].
    destruct Hr2 as [Hs2 Hn2]. split; [|done]. unfold whole in Hs2 |- *. cbn in Hs2 |- *. unfold push_frame, Thread.set_frames in Hs2. cbn in Hs2.
    unfold Thread.set_stack. cbn. by rewrite Ef.
  - apply (lined_switch r us t st'); [apply Hn|done|done|apply Hok|done|done|]. cbn. by rewrite Ets.
  - exact Hr2.
  - cbn [thread_stack set_threads]. cbn. rewrite Ets. split_and!.
    + constructor; [|done]. by rewrite not_elem_of_cons.
    + exists st'. rewrite lookup_insert_ne, lookup_insert_eq by done. by split.
    + constructor.
      * eexists. split; [apply lookup_insert_eq|]. done.
      * rewrite Forall_forall in Hw |- *. intros u' Hu. apply NoDup_cons in Hd as [Hself _].
        apply (waiting_put (put_thread t st' (world_of r))); [by intros ->|]. apply waiting_put; [by intros ->|]. by apply Hw.
Qed.
End Runs.
End ExecutorSteps.
