(* ===== verification/ExecutorLoop.v ===== *)
(** * The rounds of the executor's loop

    What the code that a frame runs must keep ([code_ok]), and that each part of a round then
    keeps the threads of the world well formed and in line. *)

From S2P Require Import Prelude Slices Float64 StringUtils Constant Value Limits RawTable MetaOps Opcode Operators Vm VmControl Thread Table RunVm HostOp Executor ThreadFacts ThreadCalls ThreadSteps ThreadTheorems ExecutorFacts ExecutorSteps RunVmTheorems.

Module ExecutorLoop.
Import Thread ThreadFacts ThreadCalls ThreadTheorems ExecutorFacts Executor ExecutorSteps.

Section Loop.
Context `{BuildProfile} `{FloatLib} {S : Type} `{AsBytes S} `{StringAddress S} `{Platform S} `{Interning S} `{DisplayFloat}.
Context {Sequence E : Type} `{!Natives S Sequence E}.
Abbreviation value := (Value.t S).
Abbreviation Error := (Error.t S E).
Abbreviation Frame := (@Thread.Frame S Sequence Error).
Abbreviation ThreadState := (@Thread.ThreadState S Sequence Error).
Abbreviation World := (@Thread.World S Sequence Error).
Abbreviation Machine := (RunVm.Machine (S:=S) (Sequence:=Sequence) (Error:=Error)).
Abbreviation Running := (Running (S:=S) (Sequence:=Sequence) (E:=E)).
Abbreviation State := (State (S:=S) (Sequence:=Sequence) (E:=E)).
Context (allocated : Machine -> Z) (size_of_inner size_of_upvalue : Z).
Implicit Types (w : World) (st : ThreadState) (t u : obj) (r : Running) (x : State).

(** ** What is asked of the code of a frame *)

(** A function that is called exists, and a thread that is resumed is not parked. *)
Definition to_ok w (to_thread : option obj) : Prop :=
  match to_thread with Some t => parked_on w t = None | None => True end.
Definition callback_asks r (ret : Native.CallbackReturn S Sequence) : Prop :=
  match ret with
  | Native.Call f _ => callee_ok (world_of r) f
  | Native.Yield to _ => to_ok (world_of r) to
  | Native.Resume t _ => parked_on (world_of r) t = None
  | Native.Return | Native.Sequence_ _ => True
  end.
Definition sequence_asks (bottom : nat) r (poll : Native.SequencePoll S * Sequence) : Prop :=
  let inside (rel : nat) := (bottom + rel <= length (stack (top r)))%nat in
  match poll.1 with
  | Native.Pending | Native.PollReturn => True
  | Native.Suspend handle => ops r !! handle = None
  | Native.PollCall rel f => inside rel /\ callee_ok (world_of r) f
  | Native.TailCall f => callee_ok (world_of r) f
  | Native.PollYield rel to => inside rel /\ to_ok (world_of r) to
  | Native.TailYield to => to_ok (world_of r) to
  | Native.PollResume rel t => inside rel /\ parked_on (world_of r) t = None
  | Native.TailResume t => parked_on (world_of r) t = None
  end.

(** Native code returns, and leaves the threads as it must. *)
Definition answers {A} (asks : Running -> A -> Prop) (bottom : nat) us (m : outcome ((A + Error) * Running)) : Prop :=
  exists res r', m = Ok (res, r') /\ native r' bottom us /\ match res with inl a => asks r' a | inr _ => True end.

(** So does the virtual machine. *)
Definition vm_answers us (m : outcome ((Z + VMError.t) * Machine)) r : Prop :=
  exists res mc', m = Ok (res, mc') /\ let r' := set_mc mc' r in below r' us /\
  match res with
  | inl _ => running r' /\ exists md, Thread.mode (top r') = Ok md /\ (md = ThreadMode.Normal \/ md = ThreadMode.Result)
  | inr e => running (throw (Error.runtime (Error.OfVM e)) r')
  end.

Definition popped r : Running := set_top (set_frames (tail (frames (top r))) (top r)) r.

(** The contract of the code that the top frame runs *)
Definition code_ok us r : Prop :=
  match frames (top r) with
  | Callback bottom c :: _ => answers callback_asks bottom us (call allocated c bottom (consume FUEL_PER_CALLBACK (popped r)))
  | Sequence_ bottom q e :: _ =>
      answers (sequence_asks bottom) bottom us
        (run_native (match e with Some e => error_sequence q e | None => poll_sequence q end) bottom (consume FUEL_PER_SEQ_STEP (popped r)))
  | Lua _ :: _ => vm_answers us (RunVm.run_vm allocated size_of_inner size_of_upvalue VM_GRANULARITY (mc r)) r
  | _ => True
  end.

(** ** Callbacks and sequences *)

Lemma consume_native n r bottom us : native r bottom us -> native (consume n r) bottom us.
Proof. by intros [Hw Ho Hb Hn Hc Hs Hl]. Qed.

(** The frame of a sequence again *)
Lemma native_frame r bottom us (f : Frame) : native r bottom us ->
  match f with Sequence_ b _ _ | HostSuspended b _ _ => b = bottom | _ => False end -> running (push f r).
Proof.
  intros [Hw Ho Hb Hn Hc Hs Hl] Hf. apply (Hs (push_frame f (top r))); [|by destruct f].
  split; [by destruct Hw; split| | |by constructor; [destruct f|]]; cbn; by destruct f; subst.
Qed.
Lemma native_again r bottom us q e : native r bottom us -> in_line (push_sequence bottom q e r).
Proof.
  intros Hn. split; [by eapply native_frame|]. apply (below_lined _ us); [apply Hn|]. by eapply top_ok_mode; [|left].
Qed.
Lemma native_park r bottom us q handle o : native r bottom us -> in_line (push (HostSuspended bottom q handle) (set_ops o r)).
Proof.
  intros Hn. assert (Hr : running (push (HostSuspended bottom q handle) r)) by by eapply native_frame.
  split; [exact Hr|]. apply (below_lined _ us); [apply Hn|]. exists ThreadMode.Suspended. split_and!; [done..|].
  right; right; right. by exists handle.
Qed.

Lemma run_callback_ok r us bottom c : answers callback_asks bottom us (call allocated c bottom (consume FUEL_PER_CALLBACK r)) ->
  goes_well (run_callback allocated bottom c r).
Proof.
  intros (res & r' & Er & Hn & Hask). unfold run_callback. rewrite Er, outcome_bind_Ok. destruct res as [ret|e].
  - pose proof (fun next => native_then r' bottom us next Hn) as Hthen.
    destruct ret as [|q|f next|to next|t next]; cbn in Hask.
    + by eapply native_return.
    + eexists. split; [done|]. by eapply native_again.
    + eapply native_call; [apply Hthen|]. by destruct next.
    + eapply native_yield; [apply Hthen|]. by destruct next, to.
    + eapply native_resume; [apply Hthen|]. by destruct next.
  - eexists. split; [done|]. by eapply native_throw.
Qed.

Lemma run_sequence_ok r us bottom q pending :
  answers (sequence_asks bottom) bottom us
    (run_native (match pending with Some e => error_sequence q e | None => poll_sequence q end) bottom (consume FUEL_PER_SEQ_STEP r)) ->
  goes_well (run_sequence bottom q pending r).
Proof.
  intros (res & r' & Er & Hn & Hask). unfold run_sequence. rewrite Er, outcome_bind_Ok. destruct res as [[poll q']|e].
  2:{ eexists. split; [done|]. by eapply native_throw. }
  pose proof (fun rel => native_sequence r' bottom rel us q' Hn) as Hseq. unfold sequence_asks in Hask. cbn in Hask.
  destruct poll as [|handle|rel f|rel to|rel t| |f|to|t]; cbn.
  - eexists. split; [done|]. by eapply native_again.
  - unfold HostOp.register. rewrite Hask, bool_decide_eq_true_2 by done. cbn.
    eexists. split; [reflexivity|]. by eapply native_park.
  - destruct Hask. eapply native_call; [by apply Hseq|done].
  - destruct Hask. eapply native_yield; [by apply Hseq|by destruct to].
  - destruct Hask. eapply native_resume; [by apply Hseq|done].
  - by eapply native_return.
  - by eapply native_call.
  - eapply native_yield; [done|by destruct to].
  - by eapply native_resume.
Qed.
(** ** Errors *)

Lemma nested_base t w fs limit fr : nested t w fs limit -> Lua fr ∈ fs -> (base fr <= limit)%nat.
Proof.
  revert limit. induction fs as [|[fr'|b q [e|]|b q h|f|b f| | |b|e] fs IH]; intros limit Hn Hin; cbn in Hn; try done.
  - by apply not_elem_of_nil in Hin.
  - destruct Hn as (Hb & Hw & Hn). apply elem_of_cons in Hin as [[= <-]|Hin]; [lia|]. specialize (IH _ Hn Hin). lia.
  - destruct Hn as (Hb & Hg & Hn). apply elem_of_cons in Hin as [?|Hin]; [done|]. specialize (IH _ Hn Hin). lia.
Qed.

(** A frame of a well-formed thread can be rendered. *)
Lemma trace_frames_ok t w fs s : Forall (captured t w) fs -> (forall fr, Lua fr ∈ fs -> (base fr <= length s)%nat) ->
  exists b, trace_frames w fs s = Ok b.
Proof.
  unfold trace_frames. induction fs as [|f fs IH]; intros Hc Hb; [by eexists|]. apply Forall_cons in Hc as [Hf Hc].
  destruct IH as [bs Ebs]; [done|intros fr Hin; apply Hb; by right|].
  assert (exists b, trace_frame w s f = Ok b) as [b Eb].
  { destruct f as [fr| | | | | | | |]; try by eexists. destruct Hf as (c & Hcl & _). pose proof (Hb fr ltac:(by left)) as Hfr.
    cbn. unfold frame_args, prototype. rewrite Hcl. cbn. case_match eqn:Hv; [|by eexists].
    apply andb_true_iff in Hv as [_ Hlt]. apply Nat.ltb_lt in Hlt. rewrite SliceFacts.slice_in by lia. by eexists. }
  exists (b :: bs). cbn [mapM]. by rewrite Eb, outcome_bind_Ok, Ebs.
Qed.

Lemma waiting_frames st : Thread.mode st = Ok ThreadMode.Waiting -> exists rest, frames st = WaitThread :: rest.
Proof.
  unfold Thread.mode. destruct (frames st) as [|[fr|b q e|b q h|f|b f| | |b|e] rest]; intros Hm; try done; [|by eexists|].
  - by destruct (stack st), (open_upvalues st).
  - by destruct rest.
Qed.

Lemma trace_threads_ok r us : running r -> Forall (waiting (world_of r)) us -> exists b, trace_threads (world_of r) us = Ok b.
Proof.
  intros [Hs Hself]. induction 1 as [|t us (st & Ht & Hm) Hw [bs Ebs]]; [by eexists|]. cbn. rewrite Ht.
  assert (Hne : t <> this r) by (intros ->; congruence).
  destruct (waiting_frames _ Hm) as [rest Ef]. destruct (Hs t st) as [[_ _ Hf Hc] _]; [cbn; by rewrite lookup_insert_ne|].
  destruct (trace_frames_ok t (world_of r) (frames st) (stack st)) as [b ->]; [by eapply Forall_impl; [exact Hc|intros []]| |].
  - rewrite Ef in Hf |- *. cbn in Hf. intros fr Hin. apply elem_of_cons in Hin as [?|Hin]; [done|]. by eapply nested_base.
  - rewrite Ebs. by eexists.
Qed.

Lemma unwinding_base t w fs len fr : unwinding t w fs len -> Lua fr ∈ fs -> (base fr <= len)%nat.
Proof.
  destruct fs as [|[fr'|b q e|b q h|f|b f| | |b|e] fs]; intros Hu Hin; try by eapply nested_base.
  destruct Hu as [Hb Hn]. apply elem_of_cons in Hin as [[= <-]|Hin]; [lia|].
  pose proof (nested_base _ _ _ _ _ Hn Hin). lia.
Qed.

Lemma traced_ok e r us : running (push (Error_ e) r) -> below r us -> exists e', traced e r = Ok e'.
Proof.
  intros Hr (Ets & _ & Hw). destruct (running_top _ Hr) as [[_ _ Hf Hc] _]. cbn in Hf, Hc. apply Forall_cons in Hc as [_ Hc].
  unfold traced. destruct (Error.backtrace e); [by eexists|]. unfold backtrace.
  destruct (trace_frames_ok (this r) (world_of r) (frames (top r)) (stack (top r))) as [b ->]; [exact Hc|intros fr; by eapply unwinding_base|].
  rewrite outcome_bind_Ok, Ets. cbn [tail].
  destruct (trace_threads_ok (push (Error_ e) r) us Hr Hw) as [bs Ebs]. change (world_of (push (Error_ e) r)) with (world_of r) in Ebs.
  rewrite Ebs. by eexists.
Qed.

(** The frames are nothing to the upvalues that are closed. *)
Lemma close_upvalues_set_frames t b fs us st w w' : close_upvalues t b st w = Ok (set_open us st, w') ->
  close_upvalues t b (set_frames fs st) w = Ok (set_open us (set_frames fs st), w').
Proof.
  unfold close_upvalues. cbn. destruct (search w (open_upvalues st) b) as [k|]; [|done]. rewrite !outcome_bind_Ok.
  destruct (close_each t (stack st) _ w) as [w2|]; [|done]. rewrite !outcome_bind_Ok.
  intros Heq. injection Heq as Eo ->. by rewrite Eo.
Qed.

(** What unwinding to [b] leaves *)
Record unwound (b : nat) r r' : Prop := {
  uw_this : this r' = this r;
  uw_threads : thread_stack r' = thread_stack r;
  uw_others : Thread.threads (world_of r') = Thread.threads (world_of r);
  uw_stack : stack (top r') = take b (stack (top r));
  uw_variables : forall u, variable (this r) (top r') (world_of r') u = variable (this r) (top r) (world_of r) u
}.
Lemma unwound_refl r : unwound (length (stack (top r))) r r.
Proof. split; try done. by rewrite take_ge. Qed.
Lemma unwound_trans b1 b2 r1 r2 r3 : unwound b1 r1 r2 -> unwound b2 r2 r3 -> (b2 <= b1)%nat -> unwound b2 r1 r3.
Proof.
  intros [E1 E2 E3 E4 E5] [F1 F2 F3 F4 F5] Hb. split; [congruence..| |].
  - rewrite F4, E4, take_take. f_equal. lia.
  - intros u. rewrite E1 in F5. by rewrite F5.
Qed.
Lemma below_unwound b r r' us : unwound b r r' -> below r us -> below r' us.
Proof.
  intros [E1 E2 E3 _ _] (Ets & Hd & Hw). unfold below. rewrite E1, E2. split_and!; [done..|].
  eapply Forall_impl; [exact Hw|]. intros u (st & Hu & Hm). exists st. by rewrite E3.
Qed.

(** The error goes through a Lua frame: its variables are closed, and keep their values. *)
Lemma unwind_lua e r us fr rest : running (push (Error_ e) r) -> below r us -> frames (top r) = Lua fr :: rest ->
  exists e' r', unwind allocated e r = Ok (push (Error_ e') r') /\ traced e r = Ok e' /\
    running (push (Error_ e') r') /\ unwound (bottom fr) r r' /\ frames (top r') = rest.
Proof.
  intros Hr Hb Ef. destruct (traced_ok _ _ _ Hr Hb) as [e' Ee]. destruct (running_top _ Hr) as [Hw _].
  set (st := push_frame (Error_ e) (top r)) in *. change (this (push (Error_ e) r)) with (this r) in Hw.
  change (wf_thread (this r) st (world_of r)) in Hw. pose proof (wt_frames _ _ _ Hw) as Hf. cbn in Hf. rewrite Ef in Hf. destruct Hf as [Hbb Hn].
  destruct (close_wf (this r) (bottom fr) st (world_of r) Hw) as (uvs & w' & Ec & Hww & Ho & Hcl & _ & Hth & Hcap & Hnest & Hvar & Hiff).
  assert (He : same_elsewhere (this r) (world_of r) w').
  { destruct (close_upvalues_spec (this r) (bottom fr) st (world_of r) (ww_open _ _ _ (wt_world _ _ _ Hw))) as (uvs2 & w2 & Ec2 & He2 & _).
    rewrite Ec in Ec2. by injection Ec2 as _ <-. }
  set (r' := truncate (bottom fr) (set_world w' (set_top (set_open uvs (set_frames rest (top r))) r))).
  assert (Hlen : length (take (bottom fr) (stack (top r))) = bottom fr) by (rewrite length_take; cbn in Hbb; lia).
  exists e', r'. split_and!.
  - unfold unwind. rewrite Ee, outcome_bind_Ok, Ef.
    assert (E2 : set_frames rest (top r) = set_frames rest st) by done.
    rewrite E2, (close_upvalues_set_frames _ _ rest _ _ _ _ Ec), outcome_bind_Ok. reflexivity.
  - done.
  - eapply (running_step (push (Error_ e) r)); [exact Hr|done|exact He| |done]. split.
    + eapply wf_world_step; [exact Hww|apply same_elsewhere_refl|]. cbn. by rewrite Hlen.
    + cbn. by rewrite Hlen.
    + cbn. rewrite Hlen. apply nested_unwinding. by apply Hnest.
    + cbn in Hcap |- *. rewrite Ef in Hcap. apply Forall_cons in Hcap as [_ Hcap]. apply Forall_cons in Hcap as [_ Hcap]. by constructor.
  - split; try done. intros u. transitivity (variable (this r) st (world_of r) u); [rewrite <- Hvar|done]. unfold variable. cbn.
    destruct (upvalues w' !! u) as [[t' i|v]|] eqn:Hu; [|done..]. case_bool_decide; [|done]. subst t'.
    apply Hiff in Hu as [_ Hi]. by rewrite lookup_take_lt.
  - done.
Qed.

Lemma memory_running l r : running r -> running (set_memory l r).
Proof. intros Hr. by apply (running_same r). Qed.
Lemma memory_lined l r ts : lined (whole r) ts -> lined (whole (set_memory l r)) ts.
Proof. done. Qed.

(** The error is handed to the sequence. *)
Lemma unwind_sequence e r us bottom q pending rest : running (push (Error_ e) r) -> below r us ->
  frames (top r) = Sequence_ bottom q pending :: rest ->
  exists e' r', unwind allocated e r = Ok r' /\ traced e r = Ok e' /\ in_line r' /\ unwound (length (stack (top r))) r r' /\
    frames (top r') = Sequence_ bottom q (Some e') :: rest.
Proof.
  intros Hr Hb Ef. destruct (traced_ok _ _ _ Hr Hb) as [e' Ee]. destruct (running_top _ Hr) as [[Hw Ho Hf Hc] _].
  change (this (push (Error_ e) r)) with (this r) in *. cbn in Hf, Hc. rewrite Ef in Hf, Hc. destruct pending as [?|]; [done|].
  destruct Hf as (Hbl & Hopen & Hn). apply Forall_cons in Hc as [_ Hc]. apply Forall_cons in Hc as [_ Hc].
  set (r1 := push_sequence bottom q (Some e') (set_top (set_frames rest (top r)) r)).
  assert (Hw1 : wf_thread (this r) (top r1) (world_of r)).
  { split; cbn; [by destruct Hw; split| |done|by constructor]. eapply wf_open_below; [exact Ho|]. intros i Hi.
    destruct (Nat.lt_ge_cases i bottom) as [|Hge]; [done|]. pose proof (opened_lt _ _ _ _ _ Ho Hi) as Hlt. pose proof (Hopen i Hi Hge). cbn in Hlt. lia. }
  assert (Hr1 : running r1) by by apply (running_top_step (push (Error_ e) r)).
  exists e', (snd (check_current_memory allocated r1)). unfold unwind. rewrite Ee, outcome_bind_Ok, Ef.
  unfold check_current_memory. destruct (Memory.check_current _ _) as [res l]. cbn [snd]. split_and!; [done..| |split; [done..|symmetry; by apply take_ge|done]|done].
  split; [by apply memory_running|]. apply memory_lined. apply (below_lined r1 us); [done|]. by eapply top_ok_mode; [|left].
Qed.

Lemma unwind_ok e r us : running (push (Error_ e) r) -> below r us -> frames (top r) <> [] -> goes_well (unwind allocated e r).
Proof.
  intros Hr Hb Hne. destruct (running_top _ Hr) as [[_ _ Hf _] _]. cbn in Hf.
  destruct (frames (top r)) as [|[fr|b q p|b q h|f|b f| | |b|e2] rest] eqn:Ef; try done.
  - destruct (unwind_lua e r us fr rest Hr Hb Ef) as (e' & r' & Er & _ & Hr' & Hu & _).
    eexists. split; [exact Er|]. split; [done|]. apply (below_lined _ us); [by eapply below_unwound in Hu|].
    destruct (mode_total _ _ _ (proj1 (running_top _ Hr'))) as [md Hm]. eapply top_ok_mode; [exact Hm|]. exact (error_mode _ _ _ _ _ Hm).
  - destruct (unwind_sequence e r us b q p rest Hr Hb Ef) as (e' & r' & Er & _ & Hr' & _). by exists r'.
Qed.

(** ** One frame *)
Lemma popped_native r us : running r -> below r us -> 
  match frames (top r) with Error_ e :: _ => running (push (Error_ e) (popped r)) | _ => True end.
Proof.
  intros Hr _. destruct (frames (top r)) as [|f rest] eqn:Ef; [done|]. destruct f; try done.
  apply (running_top_step r (push_frame (Error_ e) (top (popped r)))); [done| |done].
  destruct (running_top _ Hr) as [Hw _]. unfold push_frame, popped, set_frames. cbn. rewrite Ef. cbn.
  destruct (top r) eqn:Et; cbn in *; by subst.
Qed.

Lemma run_frame_ok r us : running r -> below r us -> Thread.mode (top r) = Ok ThreadMode.Normal -> code_ok us r ->
  goes_well (run_frame allocated size_of_inner size_of_upvalue r).
Proof.
  intros Hr Hb Hm Hcode. pose proof (popped_native r us Hr Hb) as Hp. unfold run_frame, code_ok, popped, Thread.mode in *.
  destruct (frames (top r)) as [|[fr|b q p|b q h|f|b f| | |b|e] rest] eqn:Ef; try done.
  - by destruct (stack (top r)), (open_upvalues (top r)).
  - destruct Hcode as (res & mc' & Er & Hb' & Hres). unfold run_lua. rewrite Er, outcome_bind_Ok. destruct res as [n|e].
    + destruct Hres as (Hr' & md & Hmd & Hor). destruct (RunVmFuel.run_vm_spends allocated size_of_inner size_of_upvalue VM_GRANULARITY (mc r) _ _ ltac:(done) Er) as [_ Hn].
      rewrite checked_in by (revert Hn; unfold VM_GRANULARITY; int_lia). eexists. split; [done|].
      split; [exact Hr'|]. apply (below_lined _ us); [exact Hb'|]. by eapply top_ok_mode.
    + eexists. split; [done|]. split; [done|]. apply (below_lined _ us); [exact Hb'|].
      destruct (mode_total _ _ _ (proj1 (running_top _ Hres))) as [md Hmd]. eapply top_ok_mode; [exact Hmd|]. exact (error_mode _ _ _ _ _ Hmd).
  - by eapply run_sequence_ok.
  - by eapply run_callback_ok.
  - apply (unwind_ok e _ us); [done|done|]. cbn. by destruct rest.
Qed.

(** ** The quota *)

(** Another state of the running thread, which does not wait *)
Lemma lined_put r st' ts : lined (whole r) ts -> Thread.mode (top r) <> Ok ThreadMode.Waiting -> (forall alone, top_ok alone st') ->
  lined (whole (set_top st' r)) ts.
Proof.
  destruct ts as [|t us]; [done|]. intros (Hd & (st & Ht & Hok) & Hw) Hm Hok'. split_and!; [done| |].
  - destruct (decide (t = this r)) as [->|Hne].
    + exists st'. split; [apply lookup_insert_eq|apply Hok'].
    + exists st. split; [|done]. cbn in Ht |- *. by rewrite lookup_insert_ne in Ht |- *.
  - eapply Forall_impl; [exact Hw|]. intros u Hu. destruct (decide (u = this r)) as [->|Hne].
    + destruct Hu as (st2 & Hu & Hm2). unfold whole in Hu. cbn in Hu. rewrite lookup_insert_eq in Hu. by injection Hu as <-.
    + apply (waiting_put (world_of r)); [done|]. by apply (waiting_put (world_of r)) in Hu.
Qed.

Lemma in_line_throw e r : in_line r -> can_inject r = true -> in_line (throw e r).
Proof.
  intros [Hr Hl] Hc. destruct (running_top _ Hr) as [[Hw Ho Hf Hcap] _]. unfold can_inject in Hc.
  assert (Hwt : wf_thread (this r) (push_frame (Error_ e) (top r)) (world_of r)).
  { unfold open_limit in Ho. split; cbn; [by destruct Hw; split| | |by constructor].
    - by apply Hw.
    - destruct (frames (top r)) as [|[fr|b q [?|]|b q h|f|b f| | |b|e2] rest] eqn:Ef; try done; cbn in Hf |- *.
      + destruct Hf as (Hb & Hv & _ & Hn). split; [|done]. destruct (is_variable fr); lia.
      + destruct Hf as [Hb Hn]. split_and!; [done| |done]. intros i Hi Hle. pose proof (opened_lt _ _ _ _ _ Ho Hi). lia. }
  split; [by apply running_top_step|]. apply (lined_put r); [done| |].
  - unfold Thread.mode. by destruct (frames (top r)) as [|[fr|b q [?|]|b q h|f|b f| | |b|e2] rest].
  - intros alone. destruct (mode_total _ _ _ Hwt) as [md Hm]. eapply top_ok_mode; [exact Hm|]. exact (error_mode _ _ _ _ _ Hm).
Qed.

Lemma chokepoint_ok r stop r' : in_line r -> chokepoint allocated r = (stop, r') -> in_line r'.
Proof.
  intros Hl. assert (Hset : forall l r, in_line r -> in_line (set_memory l r)).
  { intros l r2 [Hr2 Hl2]. split; [by apply memory_running|by apply memory_lined]. }
  unfold chokepoint. destruct (Memory.max_bytes _); [|by intros [= _ <-]]. destruct (can_inject r) eqn:Hc; [|by intros [= _ <-]].
  unfold check_current_memory. destruct (Memory.check_current _ _) as [[?|oom] l]; [intros [= _ <-]; by apply Hset, Hset|].
  case_match; intros [= _ <-]; [|by apply Hset, Hset]. apply in_line_throw; [by apply Hset, Hset|done].
Qed.

(** ** The top thread *)


(** A thread that is borrowed, under the threads it waits for *)
Definition taken x t (ts : list obj) st : Running :=
  mk_Running (RunVm.mk_Machine (mk_LuaFrame t st (borrowed t (world (arena_of x))) (fuel_of x)) (tables (arena_of x)))
    ts (host_ops (arena_of x)) (roots (arena_of x)).
Lemma borrow_taken x t ts st : Thread.threads (world (arena_of x)) !! t = Some st -> borrow_top t ts x = Ok (taken x t ts st).
Proof. intros Ht. unfold borrow_top, borrow. by rewrite Ht. Qed.
Lemma taken_running x t ts st : sound (world (arena_of x)) -> Thread.threads (world (arena_of x)) !! t = Some st -> running (taken x t ts st).
Proof. intros Hs Ht. split; [|apply borrowed_self]. unfold whole. cbn. by rewrite put_borrowed. Qed.
Lemma taken_below x t us st : NoDup (t :: us) -> Forall (waiting (world (arena_of x))) us -> below (taken x t (t :: us) st) us.
Proof.
  intros Hd Hw. split_and!; [done..|]. rewrite Forall_forall in Hw |- *. intros u Hu. destruct (Hw u Hu) as (stu & Htu & Hm).
  exists stu. split; [|done]. cbn. apply NoDup_cons in Hd as [Hni _]. rewrite lookup_delete_ne; [done|]. by intros ->.
Qed.

Lemma thread_mode_there w t st : Thread.threads w !! t = Some st -> thread_mode w t = Thread.mode st.
Proof. intros Ht. unfold thread_mode. by rewrite Ht. Qed.

Lemma state_take_ok w t st : sound w -> Thread.threads w !! t = Some st -> Thread.mode st = Ok ThreadMode.Result ->
  exists res st', state_take_result st = Ok (res, st') /\ sound (put_thread t st' w) /\
    match frames st with Result b :: _ => res = inl (drop b (stack st)) | Error_ e :: _ => res = inr e | _ => False end.
Proof.
  intros Hs Ht Hm. destruct (take_result_spec w t st) as (res & w' & st' & md & Er & [Ht' Hw'] & _ & _ & Hf); [by split; [|apply Hs]|done|].
  unfold Thread.take_result, in_mode, check_mode in Er. rewrite Ht, Hm in Er. rewrite outcome_bind_Ok, bool_decide_eq_true_2, outcome_bind_Ok in Er by done.
  destruct (state_take_result st) as [[res2 st2]|] eqn:Es; [|discriminate Er].
  rewrite outcome_bind_Ok in Er. injection Er as -> <-.
  cbn in Ht'. rewrite lookup_insert_eq in Ht'. injection Ht' as ->. rewrite borrowed_put_eq in Hw'.
  exists res, st'. split_and!; [done| |done]. rewrite <- put_borrowed_eq. eapply sound_put; [done|done|apply same_elsewhere_refl|done|].
  unfold state_take_result in Es. unfold entry_ok. destruct (Hs _ _ Ht) as [[_ _ Hfr _] _].
  destruct (frames st) as [|[fr|b q p|b q h|f|b f| | |b|e] rest]; try done.
  - destruct (Slice.drain _ _) as [[s vals]|]; [|done]. injection Es as _ <-. cbn. cbn in Hfr. by destruct rest as [|[] ?], Hfr.
  - destruct (stack st), rest, (open_upvalues st); try done. by injection Es as _ <-.
Qed.

(** The frame that waits is gone, and the values are on the stack. *)
Definition received (rest : list Frame) (vals : list value) r : Running :=
  set_top (mk_ThreadState rest (stack (top r) ++ vals) (open_upvalues (top r))) r.

Lemma deliver_eq from r rest st res st' : Thread.mode (top r) = Ok ThreadMode.Waiting -> frames (top r) = WaitThread :: rest ->
  Thread.threads (world_of r) !! from = Some st -> Thread.mode st = Ok ThreadMode.Result -> state_take_result st = Ok (res, st') ->
  let r1 := set_world (put_thread from st' (world_of r)) r in
  deliver from r =
    match res with
    | inl vals => r2 ← return_to (length (stack (top r))) (received rest vals r1); Ok (inr r2)
    | inr e => Ok (inr (throw e (received rest [] r1)))
    end.
Proof.
  intros Hm Ef Ht Hmt Er r1. unfold deliver. rewrite Hm, outcome_bind_Ok, bool_decide_eq_true_2 by done. cbn [negb]. rewrite Ef.
  change (world_of (set_top (set_frames rest (top r)) r)) with (world_of r).
  rewrite (thread_mode_there _ _ _ Ht), Hmt, outcome_bind_Ok, bool_decide_eq_true_2 by done. cbn [rust_assert]. rewrite outcome_bind_Ok.
  unfold borrow. rewrite Ht, outcome_bind_Ok, Er, outcome_bind_Ok. destruct res as [vals|e]; [done|].
  unfold received. by rewrite app_nil_r.
Qed.

(** A thread that waits gets values on its stack. *)
Lemma waiting_native r us rest vals : running r -> below r us -> frames (top r) = WaitThread :: rest ->
  native (received rest vals r) (length (stack (top r))) us.
Proof.
  intros Hr Hb Ef. destruct (running_top _ Hr) as [[Hw Ho Hf Hc] _]. unfold open_limit in Ho. rewrite Ef in Ho, Hf, Hc.
  apply Forall_cons in Hc as [_ Hc]. split; try done.
  - eapply wf_world_step; [exact Hw|apply same_elsewhere_refl|]. cbn. eapply wf_open_limit; [|exact Ho]. rewrite length_app. lia.
  - cbn. rewrite length_app. lia.
  - intros st' Hw' He'. exact (running_top_step r st' Hr Hw' He').
Qed.

Lemma taken_put x t st' u us stu : sound (put_thread t st' (world (arena_of x))) -> t <> u -> Thread.threads (world (arena_of x)) !! u = Some stu ->
  running (set_world (put_thread t st' (borrowed u (world (arena_of x)))) (taken x u us stu)).
Proof.
  intros Hs Hne Hu. split; [|cbn; rewrite lookup_insert_ne by done; apply lookup_delete_eq].
  change (sound (put_thread u stu (put_thread t st' (borrowed u (world (arena_of x)))))).
  by rewrite put_commute, put_borrowed.
Qed.

(** The result of [t] goes to [u], which waits for it. *)
Lemma deliver_ok x t u us st stu : sound (world (arena_of x)) -> NoDup (t :: u :: us) -> Forall (waiting (world (arena_of x))) (u :: us) ->
  Thread.threads (world (arena_of x)) !! t = Some st -> Thread.mode st = Ok ThreadMode.Result ->
  Thread.threads (world (arena_of x)) !! u = Some stu ->
  exists r, deliver t (taken x u (u :: us) stu) = Ok (inr r) /\ in_line r /\ below r us /\ this r = u /\
    exists rest res, frames stu = WaitThread :: rest /\
      match frames st with Result b :: _ => res = inl (drop b (stack st)) | Error_ e :: _ => res = inr e | _ => False end /\
      match res with
      | inl vals => Thread.return_to (length (stack stu)) (mk_ThreadState rest (stack stu ++ vals) (open_upvalues stu)) = Ok (top r)
      | inr e => top r = mk_ThreadState (Error_ e :: rest) (stack stu) (open_upvalues stu)
      end.
Proof.
  intros Hs Hd Hw Ht Hm Htu. apply NoDup_cons in Hd as [Hni Hd]. apply Forall_cons in Hw as [Hwu Hw].
  destruct Hwu as (stu' & Htu' & Hmu). assert (stu' = stu) as -> by congruence. clear Htu'.
  assert (Hne : t <> u) by (intros ->; by apply Hni; left).
  destruct (waiting_frames _ Hmu) as [rest Ef]. destruct (state_take_ok _ _ _ Hs Ht Hm) as (res & st' & Er & Hs' & Hres).
  set (r0 := taken x u (u :: us) stu).
  set (r1 := set_world (put_thread t st' (borrowed u (world (arena_of x)))) r0).
  assert (Hr1 : running r1) by by apply taken_put.
  assert (Hb1 : below r1 us).
  { destruct (taken_below x u us stu Hd Hw) as (E1 & E2 & E3). split_and!; [done..|]. rewrite Forall_forall in E3 |- *. intros v Hv.
    apply waiting_put; [|by apply E3]. intros ->. apply Hni. by right. }
  assert (Htb : Thread.threads (world_of r0) !! t = Some st) by (cbn; by rewrite lookup_delete_ne).
  rewrite (deliver_eq t r0 rest st res st' Hmu Ef Htb Hm Er). change (set_world _ r0) with r1.
  change (length (stack (top r0))) with (length (stack (top r1))). destruct res as [vals|e].
  - pose proof (waiting_native r1 us rest vals Hr1 Hb1 Ef) as Hn. destruct (native_return _ _ _ Hn) as (r2 & Er2 & Hl).
    rewrite Er2, outcome_bind_Ok. exists r2. split; [done|]. split; [done|]. unfold return_to in Er2.
    destruct (Thread.return_to _ _) as [st2|] eqn:E2; [|done]. rewrite outcome_bind_Ok in Er2. injection Er2 as <-.
    split; [exact Hb1|]. split; [done|]. exists rest, (inl vals). by split_and!.
  - pose proof (native_throw _ _ _ e (waiting_native r1 us rest [] Hr1 Hb1 Ef)) as Hl. unfold truncate in Hl.
    assert (Hlen : take (length (stack (top r1))) (stack (top (received rest [] r1))) = stack (top (received rest [] r1))).
    { apply take_ge. cbn. rewrite length_app. cbn. lia. }
    rewrite Hlen in Hl. eexists. split; [reflexivity|]. split; [exact Hl|]. split; [exact Hb1|]. split; [done|]. exists rest, (inr e).
    split_and!; [done..|]. cbn. by rewrite app_nil_r.
Qed.

(** ** One round *)

(** A state between two rounds *)
Definition ready x : Prop := sound (world (arena_of x)) /\ lined (world (arena_of x)) (stack_of x).

Lemma give_back_ready r : in_line r -> ready (give_back r).
Proof. intros [[Hs _] Hl]. by split. Qed.

(** How a round ends for good: with nothing changed, on a thread that is stopped, or that waits
    for an operation of the host while others wait for it *)
Definition over x : Prop :=
  exists t md, stack_of x = [t] /\ thread_mode (world (arena_of x)) t = Ok md /\
    (md = ThreadMode.Stopped \/ md = ThreadMode.Suspended \/ md = ThreadMode.Result).
Definition parked_below x : Prop :=
  exists t u us h, stack_of x = t :: u :: us /\ parked_on (world (arena_of x)) t = Some h.
Definition selected x (s : (bool + BadThreadMode) * State + Running) : Prop :=
  match s with
  | inl (inl b, x') => x' = x /\ b = true /\ over x
  | inl (inr e, x') => x' = x /\ e = mk_BadThreadMode ThreadMode.Suspended None /\ parked_below x
  | inr r => in_line r /\ exists us, below r us
  end.

Lemma select_over x t md : stack_of x = [t] -> thread_mode (world (arena_of x)) t = Ok md ->
  md = ThreadMode.Stopped \/ md = ThreadMode.Suspended \/ md = ThreadMode.Result ->
  exists s, Ok (inl (inl true, x)) = Ok s /\ selected x s.
Proof. intros Est Hm Hmd. eexists. split; [done|]. split_and!; [done..|]. by exists t, md. Qed.

Lemma select_ok x : ready x -> exists s, select x = Ok s /\ selected x s.
Proof.
  intros [Hs Hl]. unfold select, lined in *. destruct (stack_of x) as [|t us] eqn:Est; [done|].
  destruct Hl as (Hd & (st & Ht & md & Hm & Hnw & Hok) & Hw). 
  pose proof (thread_mode_there _ _ _ Ht) as Htm. rewrite Hm in Htm. rewrite Htm, outcome_bind_Ok.
  destruct md; try done.
  - destruct us as [|u us]; [by eapply select_over; eauto|]. exfalso. destruct Hok as [?|[?|[?|[h Hh]]]]; try done.
    unfold suspended_host_op, Thread.mode in *. by destruct (frames st) as [|[] ?].
  - destruct us as [|u us]; [by eapply select_over; eauto|]. inversion Hw as [|? ? (stu & Htu & Hmu) Hw']; subst.
    rewrite (borrow_taken _ _ _ _ Htu), outcome_bind_Ok.
    destruct (deliver_ok x t u us st stu Hs Hd Hw Ht Hm Htu) as (r & -> & Hr & Hb & _). eexists. split; [done|]. split; [done|by exists us].
  - rewrite (borrow_taken _ _ _ _ Ht), outcome_bind_Ok. eexists. split; [done|].
    pose proof (taken_below x t us st Hd Hw) as Hb. split; [|by exists us]. split; [by apply taken_running|].
    apply (below_lined _ us); [done|]. by exists ThreadMode.Normal; auto.
  - destruct us as [|u us]; [by eapply select_over; eauto|]. eexists. split; [done|]. split_and!; [done..|].
    destruct Hok as [?|[?|[?|[h Hh]]]]; try done. exists t, u, us, h. split; [done|]. unfold parked_on. by rewrite Ht.
  - unfold Thread.mode in Hm. destruct (frames st) as [|[] [|? ?]]; try done. by destruct (stack st), (open_upvalues st).
Qed.

(** The contract of the code that the next round runs *)
Definition round_ok x : Prop := forall r us, select x = Ok (inr r) -> below r us -> code_ok us r.

Lemma run_top_ok r us : in_line r -> below r us -> code_ok us r ->
  exists l x', run_top allocated size_of_inner size_of_upvalue r = Ok (l, x') /\ ready x' /\ (l = None \/ l = Some (inl false)).
Proof.
  intros [Hr Hl] Hb Hcode. unfold run_top. destruct (mode_total _ _ _ (proj1 (running_top _ Hr))) as [md Hm].
  rewrite Hm, outcome_bind_Ok.
  assert (exists r1, (if bool_decide (md = ThreadMode.Normal) then run_frame allocated size_of_inner size_of_upvalue r else Ok r) = Ok r1 /\ in_line r1)
    as (r1 & -> & Hr1).
  { case_bool_decide; [subst md|by exists r]. by eapply run_frame_ok. }
  rewrite outcome_bind_Ok. destruct (chokepoint allocated (consume FUEL_PER_STEP r1)) as [stop r2] eqn:Ec.
  pose proof (chokepoint_ok (consume FUEL_PER_STEP r1) stop r2 Hr1 Ec) as Hr2.
  eexists _, _. split; [reflexivity|]. split; [by apply give_back_ready|]. case_match; auto.
Qed.

Lemma iteration_ok x : ready x -> round_ok x ->
  exists l x', iteration allocated size_of_inner size_of_upvalue x = Ok (l, x') /\ ready x' /\
    match l with
    | Some (inl true) => x' = x /\ over x
    | Some (inr e) => x' = x /\ e = mk_BadThreadMode ThreadMode.Suspended None /\ parked_below x
    | _ => True
    end.
Proof.
  intros Hx Hcode. destruct (select_ok x Hx) as (s & Es & Hsel). unfold iteration. rewrite Es, outcome_bind_Ok.
  destruct s as [[[b|e] x']|r]; cbn in Hsel.
  - destruct Hsel as (-> & -> & Hsel). eexists _, _; by split.
  - destruct Hsel as [-> Hsel]. eexists _, _; by split.
  - destruct Hsel as (Hr & us & Hb). destruct (run_top_ok r us Hr Hb (Hcode r us Es Hb)) as (l & x' & -> & Hx' & Hl').
    exists l, x'. split_and!; [done..|]. by destruct Hl' as [-> | ->].
Qed.

End Loop.
End ExecutorLoop.
