(* ===== verification/ExecutorFuel.v ===== *)
(** * The fuel of the executor's rounds

    A round that goes on has spent fuel, so long as callbacks and sequences give none back. *)

From S2P Require Import Prelude Slices Float64 StringUtils Constant Value Limits RawTable MetaOps Opcode Operators Vm VmControl Thread Table RunVm HostOp Executor ThreadFacts ThreadCalls ThreadSteps ThreadTheorems ExecutorFacts ExecutorSteps ExecutorLoop RunVmTheorems.

Module ExecutorFuel.
Import Thread ThreadFacts ThreadCalls ThreadTheorems ExecutorFacts Executor ExecutorSteps ExecutorLoop.

Section Fuel.
Context `{BuildProfile} `{FloatLib} {S : Type} `{AsBytes S} `{StringAddress S} `{Platform S} `{Interning S} `{DisplayFloat}.
Context {Sequence E : Type} `{!Natives S Sequence E}.
Abbreviation value := (Value.t S).
Abbreviation Error := (Error.t S E).
Abbreviation Frame := (@Thread.Frame S Sequence Error).
Abbreviation ThreadState := (@Thread.ThreadState S Sequence Error).
Abbreviation World := (@Thread.World S Sequence Error).
Abbreviation Machine := (RunVm.Machine (S:=S) (Sequence:=Sequence) (Error:=Error)).
Abbreviation Running := (Running (S:=S) (Sequence:=Sequence) (E:=E)).
Abbreviation State := (State (S:=S) (Sequence:=Sequence) (E:=E)).
Context (allocated : Machine -> Z) (size_of_inner size_of_upvalue : Z).
Implicit Types (w : World) (st : ThreadState) (t u : obj) (r : Running) (x : State).

(** The code of callbacks and sequences gives no fuel back. *)
Definition spends_only {A} r (m : outcome (A * Running)) : Prop :=
  forall res r', m = Ok (res, r') -> RunVmFuel.spent (fuel r) (fuel r').
Definition code_spends r : Prop :=
  match frames (top r) with
  | Callback bottom c :: _ => spends_only r (call allocated c bottom (consume FUEL_PER_CALLBACK (popped r)))
  | Sequence_ bottom q e :: _ =>
      spends_only r (run_native (match e with Some e => error_sequence q e | None => poll_sequence q end) bottom (consume FUEL_PER_SEQ_STEP (popped r)))
  | _ => True
  end.

Abbreviation spent := RunVmFuel.spent.
Definition run_spent r (m : outcome Running) : Prop := forall r', m = Ok r' -> spent (fuel r) (fuel r').

Ltac spent_tac := let Heq := fresh "Heq" in intros ? Heq;
  repeat match goal with
    | E : (_ ≫= _) = Ok _ |- _ => apply outcome_bind_inv in E as (? & ? & E)
    | p : (_ * _)%type |- _ => destruct p
    | E : Ok _ = Ok _ |- _ => injection E as E
    | E : Panic = Ok _ |- _ => discriminate E
    | E : context [match ?x with _ => _ end] |- _ => destruct x eqn:?
    end; simplify_eq/=; try reflexivity.
Lemma push_call_spent b f r : run_spent r (push_call b f r).
Proof. unfold run_spent, push_call. spent_tac. Qed.
Lemma return_to_spent b r : run_spent r (return_to b r).
Proof. unfold run_spent, return_to. spent_tac. Qed.
Lemma yield_spent to b r : run_spent r (do_yield to b r).
Proof. unfold run_spent, do_yield. spent_tac. Qed.
Lemma resume_spent t b r : run_spent r (do_resume t b r).
Proof. unfold run_spent, do_resume. spent_tac. Qed.
Lemma unwind_spent e r : run_spent r (unwind allocated e r).
Proof. unfold run_spent, unwind. spent_tac. unfold check_current_memory. by destruct (Memory.check_current _ _). Qed.
Lemma chokepoint_spent r stop r' : chokepoint allocated r = (stop, r') -> fuel r' = fuel r.
Proof.
  unfold chokepoint, check_current_memory. destruct (Memory.max_bytes _); [|by intros [= _ <-]].
  destruct (can_inject r); [|by intros [= _ <-]]. destruct (Memory.check_current _ _) as [[?|?] l]; [by intros [= _ <-]|].
  case_match; by intros [= _ <-].
Qed.

Lemma run_callback_spent b c r : spends_only r (call allocated c b (consume FUEL_PER_CALLBACK r)) -> run_spent r (run_callback allocated b c r).
Proof.
  intros Hc r' Heq. unfold run_callback in Heq. apply outcome_bind_inv in Heq as ([ret r1] & Ec & Heq).
  etrans; [by eapply Hc|]. assert (Hthen : forall next, fuel (push_then b next r1) = fuel r1) by by intros [].
  destruct ret as [[|q|f next|to next|t next]|e].
  - by eapply return_to_spent.
  - by injection Heq as <-.
  - rewrite <- (Hthen next). by eapply push_call_spent.
  - rewrite <- (Hthen next). by eapply yield_spent.
  - rewrite <- (Hthen next). by eapply resume_spent.
  - by injection Heq as <-.
Qed.
Lemma run_sequence_spent b q p r :
  spends_only r (run_native (match p with Some e => error_sequence q e | None => poll_sequence q end) b (consume FUEL_PER_SEQ_STEP r)) ->
  run_spent r (run_sequence b q p r).
Proof.
  intros Hc r' Heq. unfold run_sequence in Heq. apply outcome_bind_inv in Heq as ([res r1] & Ec & Heq).
  etrans; [by eapply Hc|]. destruct res as [[poll q']|e]; [|by injection Heq as <-].
  change (fuel r1) with (fuel (push_sequence b q' None r1)). destruct poll as [|h|rel f|rel to|rel t| |f|to|t].
  - by injection Heq as <-.
  - apply outcome_bind_inv in Heq as (o & _ & Heq). by injection Heq as <-.
  - by eapply push_call_spent.
  - by eapply yield_spent.
  - by eapply resume_spent.
  - by apply return_to_spent in Heq.
  - by apply push_call_spent in Heq.
  - by apply yield_spent in Heq.
  - by apply resume_spent in Heq.
Qed.
Lemma run_lua_spent r : run_spent r (run_lua allocated size_of_inner size_of_upvalue r).
Proof.
  intros r' Heq. unfold run_lua in Heq. apply outcome_bind_inv in Heq as ([res mc'] & Ev & Heq).
  destruct (RunVmFuel.run_vm_spends allocated size_of_inner size_of_upvalue VM_GRANULARITY (mc r) _ _ ltac:(done) Ev) as [Hs Hk].
  destruct res as [n|e]; [|injection Heq as <-; exact Hs]. destruct (checked i32 n) as [k|] eqn:Ek; [|done].
  apply checked_Some in Ek as [_ ->]. injection Heq as <-. etrans; [exact Hs|]. apply RunVmFuel.consume_spent. lia.
Qed.
Lemma run_frame_spent r : code_spends r -> run_spent r (run_frame allocated size_of_inner size_of_upvalue r).
Proof.
  unfold code_spends, popped, run_frame. intros Hc r' Heq. destruct (frames (top r)) as [|[fr|b q p|b q h|f|b f| | |b|e] rest]; try done.
  - by eapply run_lua_spent.
  - by eapply (run_sequence_spent b q p (set_top (set_frames rest (top r)) r)).
  - by eapply (run_callback_spent b f (set_top (set_frames rest (top r)) r)).
  - by eapply (unwind_spent e (set_top (set_frames rest (top r)) r)).
Qed.

Lemma select_fuel x r : select x = Ok (inr r) -> fuel r = fuel_of x.
Proof.
  assert (Hb : forall t ts r2, borrow_top t ts x = Ok r2 -> fuel r2 = fuel_of x).
  { intros t ts r2 Heq. unfold borrow_top in Heq. apply outcome_bind_inv in Heq as (st & _ & Heq). by injection Heq as <-. }
  unfold select. destruct (stack_of x) as [|t below]; [done|]. intros Heq. apply outcome_bind_inv in Heq as (md & _ & Heq).
  destruct md, below as [|u below]; try done; apply outcome_bind_inv in Heq as (r2 & Er & Heq); apply Hb in Er; rewrite <- Er.
  - unfold deliver in Heq. apply outcome_bind_inv in Heq as (md & _ & Heq). case_match; [done|].
    destruct (frames (top r2)) as [|[] rest]; try done. apply outcome_bind_inv in Heq as (? & _ & Heq). apply outcome_bind_inv in Heq as (? & _ & Heq).
    apply outcome_bind_inv in Heq as (? & _ & Heq). apply outcome_bind_inv in Heq as ([[vals|e] st'] & _ & Heq).
    + apply outcome_bind_inv in Heq as (r3 & Er3 & Heq). injection Heq as <-. unfold return_to in Er3.
      apply outcome_bind_inv in Er3 as (? & _ & Er3). by injection Er3 as <-.
    + by injection Heq as <-.
  - by injection Heq as <-.
  - by injection Heq as <-.
Qed.

(** A round that goes on has spent what a step costs, and some fuel is left. *)
Definition round_spends x : Prop := forall r, select x = Ok (inr r) -> code_spends r.
Lemma iteration_spent x x' : iteration allocated size_of_inner size_of_upvalue x = Ok (None, x') -> round_spends x -> Fuel.wf (fuel_of x) ->
  Fuel.wf (fuel_of x') /\ 0 < Fuel.fuel (fuel_of x') <= Fuel.fuel (fuel_of x) - FUEL_PER_STEP.
Proof.
  intros Heq Hc Hwf. unfold iteration in Heq. apply outcome_bind_inv in Heq as (s & Es & Heq). destruct s as [[? ?]|r]; [done|].
  pose proof (select_fuel _ _ Es) as Hf. specialize (Hc _ Es). unfold run_top in Heq. apply outcome_bind_inv in Heq as (md & _ & Heq).
  apply outcome_bind_inv in Heq as (r1 & Er & Heq). destruct (chokepoint allocated (consume FUEL_PER_STEP r1)) as [stop r2] eqn:Ec.
  apply chokepoint_spent in Ec. assert (spent (fuel r) (fuel r1)) as Hs.
  { destruct (bool_decide (md = ThreadMode.Normal)); [by eapply run_frame_spent|by injection Er as <-]. }
  rewrite <- Hf in Hwf |- *. destruct (Hs Hwf) as [Hwf1 Hle]. injection Heq as Hstop <-.
  destruct (stop || negb (Fuel.should_continue (fuel r2))) eqn:Ego; [done|]. apply orb_false_iff in Ego as [_ Ego].
  apply negb_false_iff in Ego. unfold Fuel.should_continue in Ego. apply andb_true_iff in Ego as [Hpos _]. apply Z.ltb_lt in Hpos.
  change (fuel_of (give_back r2)) with (fuel r2). rewrite Ec in Hpos |- *. change (fuel (consume FUEL_PER_STEP r1)) with (Fuel.consume FUEL_PER_STEP (fuel r1)) in *.
  split; [apply Fuel.consume_wf|]. rewrite Fuel.consume_positive in Hpos |- * by (done || unfold FUEL_PER_STEP; int_lia).
  unfold FUEL_PER_STEP in *. revert Hpos. int_lia.
Qed.

End Fuel.
End ExecutorFuel.
