(* ===== verification/ExecutorTheorems.v ===== *)
(** * What the executor promises

    [step] returns, and keeps the threads of the world; an error unwinds the Lua frames and
    reaches the sequence below them, or the result of the thread; the results of a thread that
    was resumed are returned where it was resumed; an operation of the host is resolved once;
    a quota that is exceeded is first a pause, then an error. *)

From S2P Require Import Prelude Slices Float64 StringUtils Constant Value Limits RawTable MetaOps Opcode Operators Vm VmControl Thread Table RunVm HostOp Executor ThreadFacts ThreadCalls ThreadSteps ThreadTheorems Buckets TableTheorems ExecutorFacts ExecutorSteps ExecutorLoop ExecutorFuel RunVmTheorems.

Module ExecutorTheorems.
Import Thread ThreadFacts ThreadCalls ThreadTheorems ExecutorFacts Executor ExecutorSteps ExecutorLoop ExecutorFuel.

Section Theorems.
Context `{BuildProfile} `{FloatLib} {S : Type} `{AsBytes S} `{StringAddress S} `{Platform S} `{Interning S} `{DisplayFloat}.
Context {Sequence E : Type} `{!Natives S Sequence E}.
Abbreviation value := (Value.t S).
Abbreviation Error := (Error.t S E).
Abbreviation Frame := (@Thread.Frame S Sequence Error).
Abbreviation ThreadState := (@Thread.ThreadState S Sequence Error).
Abbreviation World := (@Thread.World S Sequence Error).
Abbreviation Machine := (RunVm.Machine (S:=S) (Sequence:=Sequence) (Error:=Error)).
Abbreviation Running := (Running (S:=S) (Sequence:=Sequence) (E:=E)).
Abbreviation State := (State (S:=S) (Sequence:=Sequence) (E:=E)).
Context (allocated : Machine -> Z) (size_of_inner size_of_upvalue : Z).
Implicit Types (w : World) (st : ThreadState) (t u : obj) (r : Running) (x : State).


Abbreviation iteration := (iteration allocated size_of_inner size_of_upvalue).
Abbreviation step := (step allocated size_of_inner size_of_upvalue).
Abbreviation run_frame := (run_frame allocated size_of_inner size_of_upvalue).
Abbreviation round_ok := (round_ok allocated size_of_inner size_of_upvalue).
Abbreviation round_spends := (round_spends allocated).
Abbreviation chokepoint := (chokepoint allocated).

(** ** [step] *)







(** ** Errors *)

(** Run the top frame [n] times. *)
Fixpoint run_frames (n : nat) r : outcome Running :=
  match n with
  | O => Ok r
  | Datatypes.S n => r ← run_frame r; run_frames n r
  end.

Lemma run_error e fs r : frames (top r) = Error_ e :: fs -> run_frame r = unwind allocated e (popped r).
Proof. intros Ef. unfold Executor.run_frame, popped. by rewrite Ef. Qed.

Lemma popped_error e fs r : frames (top r) = Error_ e :: fs -> push (Error_ e) (popped r) = r.
Proof.
  intros Ef. destruct r as [[[th [fs2 s us] w f] ts] st o ro]. cbn in Ef. subst fs2. done.
Qed.

Lemma traced_once e r e' : traced e r = Ok e' -> forall r', traced e' r' = Ok e'.
Proof.
  unfold traced. destruct (Error.backtrace e) eqn:Eb; [intros [= <-] r'; by rewrite Eb|].
  intros Heq. apply outcome_bind_inv in Heq as (b & _ & Heq). injection Heq as <-. intros r'. by destruct e.
Qed.

Lemma popped_frames f fs r : frames (top r) = f :: fs -> frames (top (popped r)) = fs.
Proof. intros Ef. change (tail (frames (top r)) = fs). by rewrite Ef. Qed.

(** One round of unwinding *)
Lemma unwind_one e fr rest r us : running r -> below r us -> frames (top r) = Error_ e :: Lua fr :: rest ->
  exists e' r', run_frame r = Ok r' /\ traced e (popped r) = Ok e' /\ running r' /\ below r' us /\
    unwound (bottom fr) r r' /\ frames (top r') = Error_ e' :: rest.
Proof.
  intros Hr Hb Ef. pose proof Hr as Hr0. rewrite <- (popped_error _ _ _ Ef) in Hr0.
  destruct (unwind_lua allocated e (popped r) us fr rest Hr0 Hb (popped_frames _ _ _ Ef)) as (e1 & r1 & E1 & Et & Hr1 & Hu & Ef1).
  exists e1, (push (Error_ e1) r1). rewrite (run_error _ _ _ Ef). split_and!; [done..| | |].
  - by eapply below_unwound in Hu.
  - by destruct Hu; split.
  - by rewrite <- Ef1.
Qed.

Lemma nested_last t w frs rest limit fr : nested t w ((Lua <$> frs) ++ rest) limit -> (bottom fr <= limit)%nat ->
  (bottom (default fr (last frs)) <= limit)%nat.
Proof.
  revert limit fr. induction frs as [|fr2 frs IH]; intros limit fr Hn Hb; [done|]. destruct Hn as (Hb2 & _ & Hn).
  rewrite last_cons. specialize (IH _ fr2 Hn ltac:(lia)). destruct (last frs); cbn in *; lia.
Qed.

Lemma unwind_all frs : forall e fr rest r us, running r -> below r us -> frames (top r) = Error_ e :: Lua fr :: (Lua <$> frs) ++ rest ->
  exists e' r', run_frames (Datatypes.S (length frs)) r = Ok r' /\ traced e (popped r) = Ok e' /\ running r' /\ below r' us /\
    unwound (bottom (default fr (last frs))) r r' /\ frames (top r') = Error_ e' :: rest.
Proof.
  induction frs as [|fr2 frs IH]; intros e fr rest r us Hr Hb Ef;
    destruct (unwind_one _ _ _ _ _ Hr Hb Ef) as (e1 & r1 & E1 & Et & Hr1 & Hb1 & Hu & Ef1);
    cbn [run_frames length]; rewrite E1, outcome_bind_Ok.
  - by exists e1, r1.
  - destruct (IH e1 fr2 rest r1 us Hr1 Hb1 Ef1) as (e' & r' & E2 & Et2 & Hr' & Hb' & Hu2 & Ef2).
    rewrite (traced_once _ _ _ Et) in Et2. injection Et2 as <-. exists e1, r'. split_and!; [done..| |done].
    destruct (running_top _ Hr1) as [[_ _ Hf _] _]. rewrite Ef1 in Hf. cbn in Hf. destruct Hf as [Hf Hnest].
    rewrite (uw_stack _ _ _ Hu), length_take in Hf. pose proof (nested_last _ _ _ _ _ fr2 Hnest ltac:(lia)) as Hle.
    assert (Hd : default fr (last (fr2 :: frs)) = default fr2 (last frs)) by (rewrite last_cons; by destruct (last frs)).
    rewrite Hd. eapply unwound_trans; [exact Hu|exact Hu2|lia].
Qed.

(** C20: An error over Lua frames goes through all of them: they are popped, their variables are
    closed and keep their values, the stack is cut where the last of them began, and the error
    carries the backtrace of the moment it was raised.  A sequence below them then gets it as
    its pending error; with no frame left, it is the result of the thread, which is empty. *)
Theorem error_unwinds e fr frs rest r us : running r -> below r us ->
  frames (top r) = Error_ e :: Lua fr :: (Lua <$> frs) ++ rest ->
  match rest with [] | Sequence_ _ _ _ :: _ => True | _ => False end ->
  exists e' r', run_frames (Datatypes.S (length frs)) r = Ok r' /\ traced e (popped r) = Ok e' /\ running r' /\
    unwound (bottom (default fr (last frs))) r r' /\ frames (top r') = Error_ e' :: rest /\
    match rest with
    | Sequence_ b q _ :: rest' => exists r2, run_frame r' = Ok r2 /\ in_line r2 /\
        frames (top r2) = Sequence_ b q (Some e') :: rest' /\ unwound (bottom (default fr (last frs))) r r2
    | _ => state_take_result (top r') = Ok (inr e', mk_ThreadState [] [] [])
    end.
Proof.
  intros Hr Hb Ef Hrest. destruct (unwind_all frs e fr rest r us Hr Hb Ef) as (e' & r' & E1 & Et & Hr' & Hb' & Hu & Ef').
  exists e', r'. split_and!; [done..|]. destruct rest as [|[] rest']; try done.
  - destruct (running_top _ Hr') as [[_ Ho Hf _] _]. unfold open_limit in Ho. rewrite Ef' in Ho, Hf. cbn in Hf. rewrite Hf in Ho.
    apply wf_open_nil in Ho. unfold state_take_result. rewrite Ef', Ho. by destruct (stack (top r')).
  - pose proof Hr' as Hr2. rewrite <- (popped_error _ _ _ Ef') in Hr2.
    destruct (unwind_sequence allocated e' (popped r') us _ _ _ rest' Hr2 Hb' (popped_frames _ _ _ Ef')) as (e2 & r2 & E2 & Et2 & Hl & Hu2 & Ef2).
    rewrite (traced_once _ _ _ Et) in Et2. injection Et2 as <-. exists r2. rewrite (run_error _ _ _ Ef'). split_and!; [done..|].
    assert (Hu3 : unwound (bottom (default fr (last frs))) r' r2).
    { destruct Hu2 as [F1 F2 F3 F4 F5]. split; [done..| |done]. rewrite F4, take_ge by done. symmetry. apply take_ge.
      change (length (stack (top r')) <= bottom (default fr (last frs)))%nat. rewrite (uw_stack _ _ _ Hu), length_take. lia. }
    by eapply unwound_trans.
Qed.

(** ** Resuming a thread *)

Lemma resumed_top r bottom us t r1 : native r bottom us -> frames (top r) <> [] -> do_resume t bottom r = Ok r1 ->
  thread_stack r1 = t :: thread_stack r ->
  top r1 = mk_ThreadState (WaitThread :: frames (top r)) (take bottom (stack (top r))) (open_upvalues (top r)).
Proof.
  intros Hn Hne Heq Ets. unfold do_resume in Heq. rewrite drain_at, outcome_bind_Ok in Heq by apply Hn.
  apply outcome_bind_inv in Heq as ([[?|e] w] & _ & Heq).
  - destruct (Slice.is_empty _) eqn:Ee; [|by injection Heq as <-]. change (Slice.is_empty (frames (top r)) = true) in Ee.
    by destruct (frames (top r)).
  - injection Heq as <-. apply (f_equal length) in Ets. cbn in Ets. lia.
Qed.

(** C21: Resuming a thread is a call: when the thread that was resumed from [bottom] has a result,
    the next round gives it to the thread that resumed it, and its values are returned to the
    frames of that thread as if a function called at [bottom] had returned them; an error of
    the thread is raised there. *)
Theorem resume_returns r bottom us t r1 x st : native r bottom us -> frames (top r) <> [] -> do_resume t bottom r = Ok r1 ->
  thread_stack r1 = t :: thread_stack r ->
  ready x -> stack_of x = thread_stack r1 -> Thread.threads (world (arena_of x)) !! this r = Some (top r1) ->
  Thread.threads (world (arena_of x)) !! t = Some st -> Thread.mode st = Ok ThreadMode.Result ->
  exists r2, select x = Ok (inr r2) /\ in_line r2 /\ this r2 = this r /\ thread_stack r2 = thread_stack r /\
    let caller := mk_ThreadState (frames (top r)) (take bottom (stack (top r))) (open_upvalues (top r)) in
    match frames st with
    | Result b :: _ => Thread.return_to bottom (set_stack (stack caller ++ drop b (stack st)) caller) = Ok (top r2)
    | Error_ e :: _ => top r2 = push_frame (Error_ e) caller
    | _ => False
    end.
Proof.
  intros Hn Hne Hres Ets [Hs Hl] Est Hu Ht Hm. pose proof (resumed_top _ _ _ _ _ Hn Hne Hres Ets) as Htop.
  pose proof (na_below _ _ _ Hn) as (Er & _). rewrite Ets, Er in Est. unfold lined in Hl. rewrite Est in Hl. destruct Hl as (Hd & _ & Hw).
  destruct (deliver_ok x t (this r) us st (top r1) Hs Hd Hw Ht Hm Hu) as (r2 & Ed & Hl2 & Hb2 & Eu & rest & res & Ef & Hst & Hend).
  assert (Hlen : length (take bottom (stack (top r))) = bottom) by (rewrite length_take; pose proof (na_bottom _ _ _ Hn); lia).
  exists r2. rewrite Htop in Ef, Hend. injection Ef as <-. cbn in Hend. rewrite Hlen in Hend.
  split_and!; [|done|done|by rewrite (proj1 Hb2), Eu, Er|].
  - unfold select. rewrite Est, (thread_mode_there _ _ _ Ht), Hm, outcome_bind_Ok.
    by rewrite (borrow_taken _ _ _ _ Hu), outcome_bind_Ok.
  - by destruct (frames st) as [|[] ?]; try done; subst res.
Qed.

(** ** Operations of the host *)

(** The sequence that waited is on top again, with values above its part of the stack. *)
Definition resolved (st : ThreadState) (bottom : nat) (q : Sequence) (pending : option Error) (vals : list value) : ThreadState :=
  mk_ThreadState (Sequence_ bottom q pending :: tail (frames st)) (take bottom (stack st) ++ vals) (open_upvalues st).
Definition resolve (t : obj) (handle : Z) (st : ThreadState) (a : Arena S Sequence E) : Arena S Sequence E :=
  mk_Arena (put_thread t st (world a)) (tables a) (delete handle (host_ops a)) (roots a).

Lemma resolved_sound w t st b q h rest p vals : sound w -> Thread.threads w !! t = Some st -> frames st = HostSuspended b q h :: rest ->
  sound (put_thread t (resolved st b q p vals) w).
Proof.
  intros Hs Ht Ef. destruct (Hs _ _ Ht) as [[Hw Ho Hf Hc] _]. rewrite <- put_borrowed_eq.
  eapply sound_put; [done|done|apply same_elsewhere_refl| |done]. unfold resolved, open_limit in *. rewrite Ef in Ho, Hf, Hc |- *.
  destruct Hf as [Hb Hn]. apply Forall_cons in Hc as [_ Hc]. split; cbn [frames stack open_upvalues tail]; [|done| |by constructor].
  - eapply wf_world_step; [exact Hw|apply same_elsewhere_refl|]. eapply wf_open_limit; [|exact Ho]. cbn. rewrite length_app, length_take. lia.
  - split; [|done]. rewrite length_app, length_take. lia.
Qed.

Lemma parked_frame w t st b q h rest : Thread.threads w !! t = Some st -> frames st = HostSuspended b q h :: rest -> parked_on w t = Some h.
Proof. intros Ht Ef. unfold parked_on. rewrite Ht. cbn. unfold suspended_host_op. by rewrite Ef. Qed.
Lemma mode_parked w t st b q h rest : Thread.threads w !! t = Some st -> frames st = HostSuspended b q h :: rest ->
  mode w (Some [t]) = Ok ExecutorMode.HostSuspended.
Proof. intros Ht Ef. unfold mode, mode_of_main, main_thread, suspended_host_op. cbn. by rewrite Ht, Ef. Qed.
Lemma mode_resolved w t st b q p vals : mode (put_thread t (resolved st b q p vals) w) (Some [t]) = Ok ExecutorMode.Normal.
Proof. unfold mode, mode_of_main, main_thread. cbn. by rewrite lookup_insert_eq. Qed.

Lemma resolve_eq a t st b q h rest resolve_with st' : Thread.threads (world a) !! t = Some st -> frames st = HostSuspended b q h :: rest ->
  resolve_with (mk_ThreadState rest (take b (stack st)) (open_upvalues st)) b q = Ok st' ->
  resolve_host_op h resolve_with a (Some [t]) = Ok (inl tt, resolve t h st' a).
Proof.
  intros Ht Ef Hres. unfold resolve_host_op. rewrite (mode_parked _ _ _ _ _ _ _ Ht Ef), outcome_bind_Ok.
  rewrite bool_decide_eq_true_2 by done. cbn [negb rev app find].
  rewrite (parked_frame _ _ _ _ _ _ _ Ht Ef), bool_decide_eq_true_2 by done. unfold borrow. rewrite Ht, outcome_bind_Ok, Ef, Z.eqb_refl, Hres.
  by rewrite outcome_bind_Ok.
Qed.

Lemma resolve_refused a t st h resolve_with : Thread.threads (world a) !! t = Some st ->
  mode (world a) (Some [t]) = Ok ExecutorMode.Normal ->
  resolve_host_op h resolve_with a (Some [t]) =
    Ok (inr (HostOpError.Mode (mk_BadExecutorMode ExecutorMode.Normal ExecutorMode.HostSuspended)), a).
Proof. intros Ht Hm. unfold resolve_host_op. rewrite Hm, outcome_bind_Ok. by rewrite bool_decide_eq_false_2. Qed.

(** C22: An operation of the host is resolved once: while the thread of an executor waits for
    it, [step] changes nothing and answers [true]; a result puts its values on the stack of
    the sequence that asked, a cancellation is its pending error, and both forget the handle
    and keep the threads well formed; a second answer to the same handle is refused, and so is
    another handle. *)
Theorem host_op_once a t st b q h rest result vals message f n :
  Thread.threads (world a) !! t = Some st -> frames st = HostSuspended b q h :: rest -> HostOp.fetch_into (roots a) result = Ok vals ->
  let resumed := resolve t h (resolved st b q None vals) a in
  let cancelled := resolve t h (resolved st b q (Some (Error.runtime (Error.Cancelled h message))) []) a in
  let refused := inr (HostOpError.Mode (mk_BadExecutorMode ExecutorMode.Normal ExecutorMode.HostSuspended)) in
  pending_host_op (world a) (Some [t]) = Some h /\
  step (Datatypes.S n) (mk_State [t] a f) = Ok (Some (inl true), mk_State [t] a f) /\
  resume_host_op h result a (Some [t]) = Ok (inl tt, resumed) /\
  cancel_host_op h message a (Some [t]) = Ok (inl tt, cancelled) /\
  (forall h' result' message', resume_host_op h' result' resumed (Some [t]) = Ok (refused, resumed) /\
     cancel_host_op h' message' resumed (Some [t]) = Ok (refused, resumed) /\
     resume_host_op h' result' cancelled (Some [t]) = Ok (refused, cancelled)) /\
  (forall h' result', h' <> h -> resume_host_op h' result' a (Some [t]) = Ok (inr (HostOpError.Unknown h'), a)) /\
  (sound (world a) -> sound (world resumed) /\ sound (world cancelled)).
Proof.
  intros Ht Ef Hvals resumed cancelled refused.
  assert (Hm : Thread.mode st = Ok ThreadMode.Suspended) by (unfold Thread.mode; by rewrite Ef).
  split_and!.
  - by eapply parked_frame.
  - cbn [Executor.step]. unfold Executor.iteration, select. cbn [stack_of arena_of]. by rewrite (thread_mode_there _ _ _ Ht), Hm, outcome_bind_Ok.
  - eapply resolve_eq; [done|done|]. rewrite Hvals, outcome_bind_Ok. unfold resolved. by rewrite Ef.
  - eapply resolve_eq; [done|done|]. unfold resolved. by rewrite Ef, app_nil_r.
  - intros h' result' message'. split_and!; (eapply resolve_refused; [apply lookup_insert_eq|apply mode_resolved]).
  - intros h' result' Hne. unfold resume_host_op, resolve_host_op. rewrite (mode_parked _ _ _ _ _ _ _ Ht Ef), outcome_bind_Ok.
    rewrite bool_decide_eq_true_2 by done. cbn [negb rev app find].
    by rewrite (parked_frame _ _ _ _ _ _ _ Ht Ef), bool_decide_eq_false_2 by congruence.
  - intros Hs. split; exact (resolved_sound _ _ _ _ _ _ _ _ _ Hs Ht Ef).
Qed.

(** The threads of a stacked executor, where the top one waits for the host *)
Lemma stacked_host_op_refused (a : Arena S Sequence E) t u us h result :
  resume_host_op h result a (Some (t :: u :: us)) =
    Ok (inr (HostOpError.Mode (mk_BadExecutorMode ExecutorMode.Normal ExecutorMode.HostSuspended)), a).
Proof. done. Qed.

(** ** The quota *)

Lemma chokepoint_over r max : Memory.max_bytes (memory r) = Some max -> can_inject r = true -> max < allocated (mc r) ->
  let used := allocated (mc r) in
  chokepoint r =
    if Memory.quota_yielded (memory r)
    then (false, throw (Error.runtime (Error.OfMemory (Memory.mk_OutOfMemory used max used))) (set_memory (Memory.mk (Some max) used true false) r))
    else (true, set_memory (Memory.mk (Some max) used true true) r).
Proof.
  intros Hmax Hc Hlt used. unfold Executor.chokepoint, check_current_memory, Memory.check_current. rewrite Hmax, Hc.
  destruct (memory r) as [m cur exc yielded]. cbn in Hmax. subst m. cbn. destruct (Z.ltb_spec max (allocated (mc r))); [|lia].
  by destruct yielded.
Qed.
Lemma chokepoint_within r max : Memory.max_bytes (memory r) = Some max -> can_inject r = true -> allocated (mc r) <= max ->
  chokepoint r = (false, set_memory (Memory.mk (Some max) (allocated (mc r)) (Memory.exceeded (memory r)) false) r).
Proof.
  intros Hmax Hc Hle. unfold Executor.chokepoint, check_current_memory, Memory.check_current. rewrite Hmax, Hc.
  destruct (memory r) as [m cur exc yielded]. cbn in Hmax. subst m. cbn. destruct (Z.ltb_spec max (allocated (mc r))); [lia|done].
Qed.

(** C23: A quota that is exceeded is first a pause, then an error: where an error can be
    injected, the first check over the limit leaves the loop with the threads unchanged, and
    the next one raises [OutOfMemory] over the frames, which keeps them well formed, and starts
    anew; a check within the limit forgets the pause; a thread that is being unwound is let
    alone. *)
Theorem quota_grace r max : Memory.max_bytes (memory r) = Some max -> (forall l, allocated (mc (set_memory l r)) = allocated (mc r)) ->
  let used := allocated (mc r) in
  let limit yielded := Memory.mk (Some max) used true yielded in
  (can_inject r = false -> chokepoint r = (false, r)) /\
  (can_inject r = true -> used <= max -> exists l, chokepoint r = (false, set_memory l r) /\ Memory.quota_yielded l = false) /\
  (can_inject r = true -> max < used -> Memory.quota_yielded (memory r) = false ->
     let stopped := set_memory (limit true) r in
     let raised := throw (Error.runtime (Error.OfMemory (Memory.mk_OutOfMemory used max used))) (set_memory (limit false) r) in
     chokepoint r = (true, stopped) /\ chokepoint stopped = (false, raised) /\ (in_line r -> in_line stopped /\ in_line raised)).
Proof.
  intros Hmax Hall used limit. split_and!.
  - intros Hc. unfold Executor.chokepoint. by rewrite Hmax, Hc.
  - intros Hc Hle. eexists. split; [by apply chokepoint_within|done].
  - intros Hc Hlt Hy stopped raised. split_and!.
    + rewrite (chokepoint_over _ _ Hmax Hc Hlt). by rewrite Hy.
    + pose proof (Hall (limit true)) as Hused. fold stopped in Hused. rewrite (chokepoint_over stopped max); [|done|done|by rewrite Hused].
      rewrite Hused. done.
    + intros [Hr Hl]. assert (Hin : forall b, in_line (set_memory (limit b) r)).
      { intros b. split; [by apply memory_running|by apply memory_lined]. }
      split; [apply Hin|]. by apply in_line_throw.
Qed.
End Theorems.

(** ** Examples *)
Import Buckets.Machine TableTheorems.

(** Callbacks return their arguments, and sequences end at once. *)
#[local] Instance echo : Natives str unit unit := {|
  call_callback := fun _ _ a f values => Ok (inl Native.Return, (a, f, values));
  call_concat := fun _ a f values => Ok (inl Native.Return, (a, f, values));
  poll_sequence := fun q _ a f values => Ok (inl (Native.PollReturn, q), (a, f, values));
  error_sequence := fun q e _ a f values => Ok (inr e, (a, f, values))
|}.
Abbreviation TheState := (Executor.State (S:=str) (Sequence:=unit) (E:=unit)).
Abbreviation TheThread := (@Thread.ThreadState str unit (Error.t str unit)).
Abbreviation TheError := (Error.t str unit).
Definition I (z : Z) : Value.t str := Value.Integer z.
Definition free : RunVm.Machine (S:=str) (Sequence:=unit) (Error:=TheError) -> Z := fun _ => 0.

Definition the_arena (threads : gmap obj TheThread) : Arena str unit unit :=
  mk_Arena (mk_World threads ∅ ∅ (Memory.new None)) (Table.mk_Tables ∅ (fun _ => None) 1) ∅ ∅.


(** A thread in a callback, and with what the callback returns *)
Definition calling : TheState := mk_State [1%positive] (the_arena {[ 1%positive := mk_ThreadState [Callback 0 (MetaOps.Existing (Value.Callback 1))] [I 5] [] ]}) (Fuel.with_ 100).


Definition the_call : Running (S:=str) (Sequence:=unit) (E:=unit) :=
  taken calling 1 [1%positive] (mk_ThreadState [Callback 0 (MetaOps.Existing (Value.Callback 1))] [I 5] []).



(** An error over a Lua frame, above a sequence *)
Definition the_error : TheError := Error.LuaError (I 7) None.
Definition the_frame : Thread.lua_frame := Thread.mk_lua_frame 1 1 2 false 0 1 None.
Definition failing : TheState := mk_State [1%positive]
  (mk_Arena (mk_World {[ 1%positive := mk_ThreadState [Error_ the_error; Lua the_frame; Sequence_ 0 tt None] [I 1; I 2; I 3] [] ]} ∅
     {[ 1%positive := mk_ClosureInner sample_prototype [] ]} (Memory.new None)) (Table.mk_Tables ∅ (fun _ => None) 1) ∅ ∅)
  (Fuel.with_ 100).
Lemma failing_sound : sound (world (arena_of failing)).
Proof.
  apply sound_plain; [done|by apply map_Forall_insert_2, map_Forall_empty|]. apply map_Forall_insert_2; [|apply map_Forall_empty].
  split_and!; [done|cbn; split_and!; try lia; intros i [u Hu]; cbn in Hu; by rewrite lookup_empty in Hu| |done]. constructor; [done|]. constructor; [|by repeat constructor].
  exists (mk_ClosureInner sample_prototype []). split; [done|]. intros u i Hu. by apply elem_of_nil in Hu.
Qed.
Definition the_failure : Running (S:=str) (Sequence:=unit) (E:=unit) :=
  taken failing 1 [1%positive] (mk_ThreadState [Error_ the_error; Lua the_frame; Sequence_ 0 tt None] [I 1; I 2; I 3] []).

Lemma alone_below x st : below (E:=unit) (taken (S:=str) (Sequence:=unit) x 1 [1%positive] st) [].
Proof. split_and!; [done|by constructor; [apply not_elem_of_nil|constructor]|constructor]. Qed.

Lemma error_unwinds_witness : exists e' r' r2, run_frames free 48 8 1 the_failure = Ok r' /\ frames (top r') = [Error_ e'; Sequence_ 0 tt None] /\
  run_frame free 48 8 r' = Ok r2 /\ frames (top r2) = [Sequence_ 0 tt (Some e')] /\ stack (top r2) = [I 1].
Proof.
  destruct (error_unwinds free 48 8 the_error the_frame [] [Sequence_ 0 tt None] the_failure []) as (e' & r' & E1 & _ & _ & _ & Ef & r2 & E2 & _ & Ef2 & Hu).
  - apply taken_running; [exact failing_sound|apply lookup_insert_eq].
  - apply alone_below.
  - done.
  - done.
  - exists e', r', r2. split_and!; [done..|exact (uw_stack _ _ _ Hu)].
Defined.

(** A callback of the main thread that resumes another *)
Definition resuming : TheState := mk_State [1%positive]
  (the_arena {[ 1%positive := mk_ThreadState [Callback 1 (MetaOps.Existing (Value.Callback 1)); Sequence_ 0 tt None] [I 1; I 9] [];
                2%positive := mk_ThreadState [Yielded] [] [] ]}) (Fuel.with_ 100).
Lemma resuming_sound : sound (world (arena_of resuming)).
Proof.
  apply sound_plain; [done|done|]. apply map_Forall_insert_2; [|apply map_Forall_insert_2, map_Forall_empty].
  - split_and!; [done|cbn; split_and!; try lia; intros i [u Hu]; cbn in Hu; by rewrite lookup_empty in Hu|by repeat constructor|done].
  - split_and!; [done|done|by repeat constructor|done].
Qed.
Definition the_resumer : Running (S:=str) (Sequence:=unit) (E:=unit) :=
  popped (taken resuming 1 [1%positive] (mk_ThreadState [Callback 1 (MetaOps.Existing (Value.Callback 1)); Sequence_ 0 tt None] [I 1; I 9] [])).
Lemma resumer_native : native the_resumer 1 [].
Proof.
  apply (native_of_frame _ _ (Callback 1 (MetaOps.Existing (Value.Callback 1)))); [done| |apply alone_below].
  change (running (taken resuming 1 [1%positive] (mk_ThreadState [Callback 1 (MetaOps.Existing (Value.Callback 1)); Sequence_ 0 tt None] [I 1; I 9] []))).
  apply taken_running; [exact resuming_sound|apply lookup_insert_eq].
Qed.
Definition the_caller : TheThread := mk_ThreadState [Sequence_ 0 tt None] [I 1; I 9] [].
Definition resumed_state : TheState := mk_State [2%positive; 1%positive]
  (the_arena {[ 1%positive := mk_ThreadState [WaitThread; Sequence_ 0 tt None] [I 1] [];
                2%positive := mk_ThreadState [Result 0] [I 9] [] ]}) (Fuel.with_ 100).

Definition after_resume : Running (S:=str) (Sequence:=unit) (E:=unit) :=
  match do_resume 2 1 the_resumer with Ok r => r | Panic => the_resumer end.

Lemma resume_returns_witness : exists r2, select resumed_state = Ok (inr r2) /\ top r2 = the_caller.
Proof.
  destruct (native_resume the_resumer 1 [] 2 resumer_native ltac:(vm_refl)) as (r1 & Er & Hl).
  assert (r1 = after_resume) as -> by (unfold after_resume; by rewrite Er).
  assert (Ex : give_back after_resume = resumed_state) by vm_refl.
  assert (Es : thread_stack after_resume = [2%positive; 1%positive]) by vm_refl.
  assert (Et : top after_resume = mk_ThreadState [WaitThread; Sequence_ 0 tt None] [I 1] []) by vm_refl.
  pose proof (give_back_ready _ Hl) as Hready. rewrite Ex in Hready.
  destruct (resume_returns the_resumer 1 [] 2 after_resume resumed_state (mk_ThreadState [Result 0] [I 9] []) resumer_native ltac:(done) Er Es Hready)
    as (r2 & E2 & _ & _ & _ & Hret); [by rewrite Es|by rewrite Et|done|done|].
  exists r2. split; [exact E2|]. cbn in Hret. by injection Hret as <-.
Defined.

(** A thread that waits for operation 7 of the host *)
Definition parked : Arena str unit unit :=
  mk_Arena (mk_World {[ 1%positive := mk_ThreadState [HostSuspended 1 tt 7] [I 1; I 2] [] ]} ∅ ∅ (Memory.new None))
    (Table.mk_Tables ∅ (fun _ => None) 1) {[ 7 := 1%positive ]} ∅.
Lemma host_op_once_witness : exists a',
  resume_host_op 7 [HostOp.Integer 4] parked (Some [1%positive]) = Ok (inl tt, a') /\ host_ops a' = ∅ /\
  exists e, resume_host_op 7 [HostOp.Nil] a' (Some [1%positive]) = Ok (inr e, a').
Proof.
  destruct (host_op_once free 48 8 parked 1 (mk_ThreadState [HostSuspended 1 tt 7] [I 1; I 2] []) 1 tt 7 [] [HostOp.Integer 4] [I 4] [] (Fuel.with_ 0) 0)
    as (_ & _ & Er & _ & Hagain & _); [vm_refl|done|done|].
  eexists. split; [exact Er|]. split; [vm_refl|]. eexists. apply (Hagain 7 [HostOp.Nil] []).
Defined.

(** A quota of 10 bytes, of which 20 are in use *)
Definition over_quota : Running (S:=str) (Sequence:=unit) (E:=unit) :=
  set_memory (Memory.new (Some 10)) (set_top (mk_ThreadState [Sequence_ 0 tt None] [] []) the_call).
Lemma quota_grace_witness : exists r1 r2, chokepoint (fun _ => 20) over_quota = (true, r1) /\ chokepoint (fun _ => 20) r1 = (false, r2) /\
  frames (top r2) = [Error_ (Error.runtime (Error.OfMemory (Memory.mk_OutOfMemory 20 10 20))); Sequence_ 0 tt None].
Proof.
  destruct (quota_grace (fun _ => 20) over_quota 10 ltac:(vm_refl) ltac:(done)) as (_ & _ & Hover).
  destruct (Hover ltac:(vm_refl) ltac:(done) ltac:(vm_refl)) as (E1 & E2 & _).
  eexists _, _. split; [exact E1|]. split; [exact E2|]. vm_refl.
Defined.
End ExecutorTheorems.
