(* ===== verification/Pattern.v ===== *)
(** * Lua patterns: [stdlib/string/pattern_engine.rs]

    A lexer and a parser over bytes, the flattening of captures into markers, the
    backtracking matcher with its recursion limit, and the searches.  The character sets and
    the limit of captures are those of the [lsonar] crate, reached through [Lsonar]. *)

From S2P Require Import Prelude Slices.

(** What the code uses of the crate: [CharSet], its errors, [LUA_MAXCAPTURES] *)
Class Lsonar : Type := {
  CharSet : Type;
  SetError : Type;
  charset_new : CharSet;
  invert : CharSet -> CharSet;
  add_byte : Z -> CharSet -> CharSet;
  add_class : Z -> CharSet -> CharSet + SetError;
  add_range : Z -> Z -> CharSet -> CharSet + SetError;
  charset_contains : CharSet -> Z -> bool;
  LUA_MAXCAPTURES : nat
}.

(** [lsonar::Token], as [token_to_byte] matches it exhaustively *)
Module Token.
Inductive t : Type :=
  | Literal (b : Z)
  | EscapedLiteral (b : Z)
  | Any
  | LParen
  | RParen
  | LBracket
  | RBracket
  | Caret
  | Dollar
  | Star
  | Plus
  | Question
  | Minus
  | Percent
  | Class_ (c : Z)
  | Balanced (first second : Z)
  | Frontier
  | CaptureRef (d : Z).

#[global] Instance eq_dec : EqDecision t.
Proof. solve_decision. Defined.
End Token.

(** [lsonar::Quantifier], as [match_recursive] matches it *)
Module Quantifier.
Inductive t : Type := Star | Plus | Question | Minus.
End Quantifier.

(** The errors raised, a constructor per message *)
Module PatternError.
Inductive t `{Lsonar} : Type :=
  | EndsWithPercent
  | EndsWithPercentInSet
  | InvalidEscape (b : Z)
  | BalancedNeedsTwo
  | UnexpectedToken (token : Token.t)
  | TooManyCaptures
  | UnexpectedEndExpected (token : option Token.t)
  | CannotBeQuantified
  | UnexpectedEnd
  | MalformedParen
  | MalformedBracket
  | MissingBracketAfterFrontier
  | InvalidParen
  | InvalidBracket
  | QuantifierMustFollow (b : Z)
  | PercentToken
  | UnfinishedClass
  | UnclosedCapture
  | OfSet (e : SetError).
End PatternError.

(** ** The lexer *)
Module ByteLexer.
Section ByteLexer.
Context `{Lsonar}.

Definition is_class_byte (c : Z) : bool :=
  existsb (Z.eqb c) (bs# "acdglpsuwxACDGLPSUWX").
Definition is_escapable_magic_byte (c : Z) : bool :=
  existsb (Z.eqb c) (bs# "().%[]*+-?^$").

(** [input] is what is left from [pos] on.  The counters are at most its length, so that
    they do not overflow. *)
Record t : Type := mk {
  input : list Z;
  capture_depth : nat;
  set_depth : nat
}.

Definition new (input : list Z) : t := mk input 0 0.
Definition set_input (i : list Z) (l : t) : t := mk i (capture_depth l) (set_depth l).

Definition in_set (l : t) : bool := (0 <? set_depth l)%nat.

(** [Token] in a set is a literal. *)
Definition quantifier_token (b : Z) (token : Token.t) (l : t) : Token.t :=
  if in_set l then Token.Literal b else token.

Abbreviation result := ((option Token.t + PatternError.t) * t)%type.
Definition token (k : Token.t) (l : t) : result := (inl (Some k), l).
Definition fail (e : PatternError.t) (l : t) : result := (inr e, l).

(** [%] in a set: the next byte is looked at before it is taken. *)
Definition escape_in_set (l : t) : result :=
  match input l with
  | next :: rest =>
      if is_class_byte next then token (Token.Class_ next) (set_input rest l)
      else if is_escapable_magic_byte next then token (Token.EscapedLiteral next) (set_input rest l)
      else if next =? b# "%" then token (Token.EscapedLiteral (b# "%")) (set_input rest l)
      else fail (PatternError.InvalidEscape next) l
  | [] => fail PatternError.EndsWithPercentInSet l
  end.

Definition balanced (l : t) : result :=
  match input l with
  | d1 :: d2 :: rest => token (Token.Balanced d1 d2) (set_input rest l)
  | _ => fail PatternError.BalancedNeedsTwo (set_input [] l)
  end.

Definition escape (l : t) : result :=
  match input l with
  | [] => fail PatternError.EndsWithPercent l
  | next :: rest =>
      let l := set_input rest l in
      if is_escapable_magic_byte next then token (Token.EscapedLiteral next) l
      else if is_class_byte next then token (Token.Class_ next) l
      else if next =? b# "%" then token (Token.EscapedLiteral (b# "%")) (set_input (drop 1 rest) l)
      else if next =? b# "b" then balanced l
      else if next =? b# "f" then token Token.Frontier l
      else if (b# "1" <=? next) && (next <=? b# "9") then token (Token.CaptureRef (next - b# "0")) l
      else fail (PatternError.InvalidEscape next) l
  end.

Definition next_token (l : t) : result :=
  match input l with
  | [] => (inl None, l)
  | byte :: rest =>
      let l := set_input rest l in
      if byte =? b# "(" then
        token Token.LParen (mk (input l) (capture_depth l + 1) (set_depth l))
      else if byte =? b# ")" then
        if (0 <? capture_depth l)%nat then token Token.RParen (mk (input l) (capture_depth l - 1) (set_depth l))
        else token (Token.Literal byte) l
      else if byte =? b# "." then token Token.Any l
      else if byte =? b# "[" then
        token Token.LBracket (mk (input l) (capture_depth l) (set_depth l + 1))
      else if byte =? b# "]" then
        if in_set l then token Token.RBracket (mk (input l) (capture_depth l) (set_depth l - 1))
        else token (Token.Literal byte) l
      else if byte =? b# "^" then token Token.Caret l
      else if byte =? b# "$" then token Token.Dollar l
      else if byte =? b# "*" then token (quantifier_token byte Token.Star l) l
      else if byte =? b# "+" then token (quantifier_token byte Token.Plus l) l
      else if byte =? b# "?" then token (quantifier_token byte Token.Question l) l
      else if byte =? b# "-" then token (quantifier_token byte Token.Minus l) l
      else if byte =? b# "%" then (if in_set l then escape_in_set l else escape l)
      else token (Token.Literal byte) l
  end.

(** The loop of [ByteParser::new]; it panics when its fuel is spent. *)
Fixpoint tokens (fuel : nat) (l : t) : outcome (list Token.t + PatternError.t) :=
  match fuel with
  | O => Panic
  | S fuel =>
      let '(r, l) := next_token l in
      match r with
      | inl None => Ok (inl [])
      | inl (Some k) =>
          ks ← tokens fuel l;
          Ok (match ks with inl ks => inl (k :: ks) | inr e => inr e end)
      | inr e => Ok (inr e)
      end
  end.
End ByteLexer.
End ByteLexer.

Definition token_to_byte (k : Token.t) : Z :=
  match k with
  | Token.Literal b | Token.EscapedLiteral b | Token.Class_ b => b
  | Token.Any => b# "."
  | Token.LParen => b# "("
  | Token.RParen => b# ")"
  | Token.LBracket => b# "["
  | Token.RBracket => b# "]"
  | Token.Caret => b# "^"
  | Token.Dollar => b# "$"
  | Token.Star => b# "*"
  | Token.Plus => b# "+"
  | Token.Question => b# "?"
  | Token.Minus => b# "-"
  | Token.Percent => b# "%"
  | Token.Balanced _ _ => b# "b"
  | Token.Frontier => b# "f"
  | Token.CaptureRef d => b# "0" + d
  end.

(** [lsonar::AstNode], as [convert_single] matches it exhaustively *)
Module AstNode.
#[warnings="-register-all"]
Inductive t `{Lsonar} : Type :=
  | Literal (b : Z)
  | Any
  | Class_ (c : Z) (negated : bool)
  | Set_ (charset : CharSet)
  | Balanced (first second : Z)
  | Frontier (charset : CharSet)
  | AnchorStart
  | AnchorEnd
  | CaptureRef (n : Z)
  | Capture (index : nat) (inner : list t)
  | Quantified (item : t) (quantifier : Quantifier.t).
End AstNode.

(** ** The parser

    Its operations pass the parser's state and stop at the first error. *)
Module ByteParser.
Section ByteParser.
Context `{Lsonar}.

Record t : Type := mk { tokens : list Token.t; capture_count : nat }.

Definition P (A : Type) : Type := t -> outcome ((A + PatternError.t) * t).
Definition ret {A} (a : A) : P A := fun p => Ok (inl a, p).
Definition throw {A} (e : PatternError.t) : P A := fun p => Ok (inr e, p).
Definition bind {A B} (m : P A) (f : A -> P B) : P B := fun p =>
  '(r, p) ← m p;
  match r with inl a => f a p | inr e => Ok (inr e, p) end.
Definition peek : P (option Token.t) := fun p => Ok (inl (head (tokens p)), p).
Definition next : P (option Token.t) := fun p =>
  Ok (inl (head (tokens p)), mk (tail (tokens p)) (capture_count p)).
Definition panic {A} : P A := fun _ => Panic.
Definition lift {A} (r : A + SetError) : P A :=
  match r with inl a => ret a | inr e => throw (PatternError.OfSet e) end.
#[local] Notation "'let*' x ':=' m 'in' k" := (bind m (fun x => k)) (at level 10, x pattern, m at level 100, k at level 200).

Definition peek_is (k : option Token.t) : P bool :=
  let* next := peek in ret (bool_decide (next = k)).

Definition new (pattern : list Z) : outcome (t + PatternError.t) :=
  ks ← ByteLexer.tokens (S (length pattern)) (ByteLexer.new pattern);
  Ok (match ks with inl ks => inl (mk ks 0) | inr e => inr e end).

(** *** Sets *)

Definition set_node (negated : bool) (set : CharSet) : AstNode.t :=
  AstNode.Set_ (if negated then invert set else set).

(** The loop of [parse_set].  Each turn takes a token, so [fuel] may be their number. *)
Fixpoint set_items (fuel : nat) (set : CharSet) : P CharSet :=
  match fuel with
  | O => panic
  | S fuel =>
      let* first := peek in
      match first with
      | None | Some Token.RBracket => ret set
      | Some (Token.Class_ c) =>
          let* _ := next in
          let* set := lift (add_class c set) in
          set_items fuel set
      | Some (Token.Literal current) =>
          let* _ := next in
          let* range := peek_is (Some (Token.Literal (b# "-"))) in
          if range : bool then
            let* next_b := (fun p => Ok (inl (tokens p !! 1%nat), p)) in
            match next_b with
            | Some (Token.Literal next_b) =>
                let* _ := next in
                let* _ := next in
                let* set := lift (add_range current next_b set) in
                set_items fuel set
            | _ => set_items fuel (add_byte current set)
            end
          else set_items fuel (add_byte current set)
      | Some Token.Minus => let* _ := next in set_items fuel (add_byte (b# "-") set)
      | Some Token.Percent => let* _ := next in set_items fuel (add_byte (b# "%") set)
      | Some token => let* _ := next in set_items fuel (add_byte (token_to_byte token) set)
      end
  end.

(** The second test for [RBracket] is never met: the first has returned. *)
Definition parse_set : P AstNode.t :=
  let* negated := peek_is (Some Token.Caret) in
  let* _ := (if negated : bool then next else ret None) in
  let* closed := peek_is (Some Token.RBracket) in
  if closed : bool then
    let* _ := next in
    ret (set_node negated charset_new)
  else
    let* again := peek_is (Some Token.RBracket) in
    let* set := (if again : bool then let* _ := next in ret (add_byte (b# "]") charset_new)
                 else ret charset_new) in
    let* set := (fun p => set_items (S (length (tokens p))) set p) in
    let* closed := peek_is (Some Token.RBracket) in
    if closed : bool then
      let* _ := next in
      ret (set_node negated set)
    else throw PatternError.UnfinishedClass.

(** *** Items.  [parse_sequence] is the parser for what a capture holds. *)

Definition to_ascii_lowercase (c : Z) : Z := if (b# "A" <=? c) && (c <=? b# "Z") then c + 32 else c.
Definition is_ascii_uppercase (c : Z) : bool := (b# "A" <=? c) && (c <=? b# "Z").

Definition class_node (c : Z) : AstNode.t :=
  let negated := is_ascii_uppercase c in
  let base := if negated then to_ascii_lowercase c else c in
  if existsb (Z.eqb base) (bs# "acdglpsuwx") then AstNode.Class_ base negated else AstNode.Literal c.

Definition parse_capture (parse_sequence : option Token.t -> P (list AstNode.t)) : P AstNode.t :=
  let* index := (fun p => Ok (inl (S (capture_count p)), mk (tokens p) (S (capture_count p)))) in
  if (LUA_MAXCAPTURES <? index)%nat then throw PatternError.TooManyCaptures
  else
    let* inner := parse_sequence (Some Token.RParen) in
    let* close := next in
    if bool_decide (close = Some Token.RParen) then ret (AstNode.Capture index inner)
    else throw PatternError.UnclosedCapture.

Definition parse_base (parse_sequence : option Token.t -> P (list AstNode.t)) : P AstNode.t :=
  let* token := next in
  match token with
  | None => throw PatternError.UnexpectedEnd
  | Some token =>
      match token with
      | Token.Literal b =>
          if b =? b# ")" then throw PatternError.MalformedParen
          else if b =? b# "]" then throw PatternError.MalformedBracket
          else ret (AstNode.Literal b)
      | Token.EscapedLiteral b => ret (AstNode.Literal b)
      | Token.Any => ret AstNode.Any
      | Token.Caret => ret AstNode.AnchorStart
      | Token.Dollar => ret AstNode.AnchorEnd
      | Token.Class_ c => ret (class_node c)
      | Token.LBracket => parse_set
      | Token.LParen => parse_capture parse_sequence
      | Token.Balanced d1 d2 => ret (AstNode.Balanced d1 d2)
      | Token.Frontier =>
          let* open := peek_is (Some Token.LBracket) in
          if open : bool then
            let* _ := next in
            let* node := parse_set in
            match node with AstNode.Set_ set => ret (AstNode.Frontier set) | _ => panic end
          else throw PatternError.MissingBracketAfterFrontier
      | Token.RParen => throw PatternError.InvalidParen
      | Token.RBracket => throw PatternError.InvalidBracket
      | Token.Star | Token.Plus | Token.Question => throw (PatternError.QuantifierMustFollow (token_to_byte token))
      | Token.Minus => ret (AstNode.Literal (b# "-"))
      | Token.Percent => throw PatternError.PercentToken
      | Token.CaptureRef n => ret (AstNode.CaptureRef n)
      end
  end.

Definition quantifier_of (k : option Token.t) : option Quantifier.t :=
  match k with
  | Some Token.Star => Some Quantifier.Star
  | Some Token.Plus => Some Quantifier.Plus
  | Some Token.Question => Some Quantifier.Question
  | Some Token.Minus => Some Quantifier.Minus
  | _ => None
  end.

Definition quantifiable (node : AstNode.t) : bool :=
  match node with AstNode.AnchorStart | AstNode.AnchorEnd | AstNode.Frontier _ => false | _ => true end.

Definition parse_item (parse_sequence : option Token.t -> P (list AstNode.t)) : P AstNode.t :=
  let* base := parse_base parse_sequence in
  let* k := peek in
  match quantifier_of k with
  | Some q =>
      let* _ := next in
      if quantifiable base then ret (AstNode.Quantified base q) else throw PatternError.CannotBeQuantified
  | None => ret base
  end.

(** The loop, and the test after it; it panics when its fuel is spent. *)
Fixpoint parse_sequence (fuel : nat) (end_token : option Token.t) : P (list AstNode.t) :=
  match fuel with
  | O => panic
  | S fuel =>
      let* k := peek in
      if bool_decide (k = None) || bool_decide (k = end_token) then
        if bool_decide (end_token <> None) && negb (bool_decide (k = end_token))
        then throw (PatternError.UnexpectedEndExpected end_token)
        else ret []
      else
        let* item := parse_item (parse_sequence fuel) in
        let* items := parse_sequence fuel end_token in
        ret (item :: items)
  end.

Definition parse : P (list AstNode.t) :=
  let* ast := (fun p => parse_sequence (S (length (tokens p))) None p) in
  let* k := peek in
  match k with
  | Some k => throw (PatternError.UnexpectedToken k)
  | None =>
      fun p =>
        if (LUA_MAXCAPTURES <? capture_count p)%nat then throw PatternError.TooManyCaptures p
        else ret ast p
  end.
End ByteParser.
End ByteParser.

Definition parse_pattern `{Lsonar} (pattern : list Z) : outcome (list AstNode.t + PatternError.t) :=
  p ← ByteParser.new pattern;
  match p with
  | inl p => '(r, _) ← ByteParser.parse p; Ok r
  | inr e => Ok (inr e)
  end.

(** ** The flat form *)
Module Pat.
#[warnings="-register-all"]
Inductive t `{Lsonar} : Type :=
  | Literal (b : Z)
  | Any
  | Class_ (c : Z) (negated : bool)
  | Set_ (charset : CharSet)
  | Balanced (first second : Z)
  | Frontier (charset : CharSet)
  | AnchorStart
  | AnchorEnd
  | CaptureStart (index : nat)
  | CaptureEnd (index : nat)
  | CaptureRef
  | Quantified (body : list t) (quant : Quantifier.t).
End Pat.

(** What [convert_single] pushes *)
Fixpoint convert_single `{Lsonar} (node : AstNode.t) : list Pat.t :=
  match node with
  | AstNode.Literal b => [Pat.Literal b]
  | AstNode.Any => [Pat.Any]
  | AstNode.Class_ c negated => [Pat.Class_ c negated]
  | AstNode.Set_ charset => [Pat.Set_ charset]
  | AstNode.Balanced first second => [Pat.Balanced first second]
  | AstNode.Frontier charset => [Pat.Frontier charset]
  | AstNode.AnchorStart => [Pat.AnchorStart]
  | AstNode.AnchorEnd => [Pat.AnchorEnd]
  | AstNode.CaptureRef _ => [Pat.CaptureRef]
  | AstNode.Capture index inner =>
      Pat.CaptureStart (index - 1) :: flat_map convert_single inner ++ [Pat.CaptureEnd (index - 1)]
  | AstNode.Quantified item quantifier => [Pat.Quantified (convert_single item) quantifier]
  end.

Definition convert_ast `{Lsonar} (ast : list AstNode.t) : list Pat.t := flat_map convert_single ast.

(** ** The matcher *)
Module Matcher.
Section Matcher.
Context `{Lsonar}.

Definition range : Type := nat * nat.

(** [input] is shared by all copies of a state.  The depth stays below [MAX_RECURSION_DEPTH + 2]. *)
Record State : Type := mk_State {
  input : list Z;
  current_pos : nat;
  search_start_pos : nat;
  captures : list (option range);
  capture_starts : list (option nat);
  recursion_depth : nat
}.

Definition MAX_RECURSION_DEPTH : nat := 500.

Definition new (input : list Z) (start_pos : nat) : State :=
  mk_State input start_pos start_pos (replicate LUA_MAXCAPTURES None) (replicate LUA_MAXCAPTURES None) 0.

Definition set_pos (pos : nat) (st : State) : State :=
  mk_State (input st) pos (search_start_pos st) (captures st) (capture_starts st) (recursion_depth st).
Definition set_captures (cs : list (option range)) (ss : list (option nat)) (st : State) : State :=
  mk_State (input st) (current_pos st) (search_start_pos st) cs ss (recursion_depth st).
Definition deeper (st : State) : State :=
  mk_State (input st) (current_pos st) (search_start_pos st) (captures st) (capture_starts st)
    (S (recursion_depth st)).

Definition current_byte (st : State) : option Z := input st !! current_pos st.
Definition previous_byte (st : State) : option Z :=
  match current_pos st with O => None | S pos => input st !! pos end.

(** [u8::is_ascii_*] *)
Definition between (a b byte : Z) : bool := (a <=? byte) && (byte <=? b).
Definition is_ascii_lowercase : Z -> bool := between (b# "a") (b# "z").
Definition is_ascii_uppercase : Z -> bool := between (b# "A") (b# "Z").
Definition is_ascii_alphabetic (byte : Z) : bool := is_ascii_lowercase byte || is_ascii_uppercase byte.
Definition is_ascii_digit : Z -> bool := between (b# "0") (b# "9").
Definition is_ascii_alphanumeric (byte : Z) : bool := is_ascii_alphabetic byte || is_ascii_digit byte.
Definition is_ascii_hexdigit (byte : Z) : bool :=
  is_ascii_digit byte || between (b# "a") (b# "f") byte || between (b# "A") (b# "F") byte.
Definition is_ascii_control (byte : Z) : bool := between 0 31 byte || (byte =? 127).
Definition is_ascii_graphic : Z -> bool := between 33 126.
Definition is_ascii_punctuation (byte : Z) : bool := is_ascii_graphic byte && negb (is_ascii_alphanumeric byte).
Definition is_ascii_whitespace (byte : Z) : bool := existsb (Z.eqb byte) [9; 10; 12; 13; 32].

Definition class_matches (class_byte byte : Z) : bool :=
  if class_byte =? b# "a" then is_ascii_alphabetic byte
  else if class_byte =? b# "c" then is_ascii_control byte
  else if class_byte =? b# "d" then is_ascii_digit byte
  else if class_byte =? b# "g" then is_ascii_graphic byte && negb (byte =? 32)
  else if class_byte =? b# "l" then is_ascii_lowercase byte
  else if class_byte =? b# "p" then is_ascii_punctuation byte
  else if class_byte =? b# "s" then is_ascii_whitespace byte
  else if class_byte =? b# "u" then is_ascii_uppercase byte
  else if class_byte =? b# "w" then is_ascii_alphanumeric byte
  else if class_byte =? b# "x" then is_ascii_hexdigit byte
  else false.

Definition check_class (class_byte : Z) (negated : bool) (st : State) : bool :=
  match current_byte st with
  | Some byte => xorb (class_matches class_byte byte) negated
  | None => false
  end.

(** A pattern as what matching it does *)
Definition matcher : Type := State -> option State.

(** A node that takes one byte when [b] holds of the state *)
Definition one_byte (b : bool) (remaining : matcher) (st : State) : option State :=
  if b then remaining (set_pos (S (current_pos st)) st) else None.
Definition guard_ (b : bool) (remaining : matcher) (st : State) : option State :=
  if b then remaining st else None.

(** The loop of [Balanced] over what is left of the input: the position after the close *)
Fixpoint find_close (open close : Z) (balance : nat) (pos : nat) (rest : list Z) : option nat :=
  match rest with
  | [] => None
  | byte :: rest =>
      if byte =? close then
        match balance with
        | 1%nat => Some (S pos)
        | _ => find_close open close (balance - 1) (S pos) rest
        end
      else find_close open close (if byte =? open then S balance else balance) (S pos) rest
  end.

(** *** Quantifiers.  A position that does not move ends a loop; each loop panics, here by
    giving [None], when its fuel is spent. *)

(** The matches of the body that are compulsory *)
Fixpoint repeat_minimum (body : matcher) (minimum : nat) (current : State) : option State :=
  match minimum with
  | O => Some current
  | S minimum =>
      next ← body current;
      if (current_pos next =? current_pos current)%nat then None else repeat_minimum body minimum next
  end.

(** The candidates after [current], the last one first; [count] are there. *)
Fixpoint expand (fuel : nat) (body : matcher) (count : nat) (candidates : list State) (current : State)
  : option (list State) :=
  match fuel with
  | O => None
  | S fuel =>
      match body current with
      | Some next =>
          let candidates := next :: candidates in
          if (current_pos next =? current_pos current)%nat then Some candidates
          else if 10000 <? Z.of_nat (S count) then Some candidates
          else expand fuel body (S count) candidates next
      | None => Some candidates
      end
  end.

(** The first candidate from which the rest matches *)
Fixpoint first_match (remaining : matcher) (candidates : list State) : option State :=
  match candidates with
  | [] => None
  | c :: candidates =>
      match remaining c with Some final => Some final | None => first_match remaining candidates end
  end.

(** What bounds the turns of a loop: each but the last moves on in the input. *)
Definition turns (st : State) : nat := S (S (length (input st) - current_pos st)).

Definition match_greedy (body remaining : matcher) (initial : State) (minimum : nat) : option State :=
  current ← repeat_minimum body minimum initial;
  candidates ← expand (turns current) body 1 [current] current;
  first_match remaining candidates.

Fixpoint non_greedy_loop (fuel : nat) (body remaining : matcher) (current : State) : option State :=
  match fuel with
  | O => None
  | S fuel =>
      match remaining current with
      | Some final => Some final
      | None =>
          next ← body current;
          if (current_pos next =? current_pos current)%nat then remaining next
          else non_greedy_loop fuel body remaining next
      end
  end.
Definition match_non_greedy (body remaining : matcher) (initial : State) : option State :=
  non_greedy_loop (turns initial) body remaining initial.

Definition match_question (body remaining : matcher) (st : State) : option State :=
  match (after_one ← body st; remaining after_one) with
  | Some final => Some final
  | None => remaining st
  end.

(** *** The nodes *)

Definition capture_start (index : nat) (st : State) : State :=
  set_captures (<[index := None]> (captures st)) (<[index := Some (current_pos st)]> (capture_starts st)) st.
Definition capture_end (index : nat) (st : State) : option State :=
  start ← mjoin (capture_starts st !! index);
  Some (set_captures (<[index := Some (start, current_pos st)]> (captures st)) (capture_starts st) st).

Definition contains_at (charset : CharSet) (byte : option Z) : bool :=
  match byte with Some b => charset_contains charset b | None => false end.

(** The limit of the recursion, and the end of a pattern *)
Definition enter (continue : matcher) (st : State) : option State :=
  if (MAX_RECURSION_DEPTH <? recursion_depth st)%nat then None else continue (deeper st).

(** One arm of [match_recursive]; [remaining] matches the remaining nodes.  The nested
    function is [match_recursive] on the body. *)
Fixpoint match_node (node : Pat.t) (remaining : matcher) (st : State) : option State :=
  match node with
  | Pat.Literal expected => one_byte (bool_decide (current_byte st = Some expected)) remaining st
  | Pat.Any => one_byte (bool_decide (is_Some (current_byte st))) remaining st
  | Pat.Class_ class negated => one_byte (check_class class negated st) remaining st
  | Pat.Set_ charset => one_byte (contains_at charset (current_byte st)) remaining st
  | Pat.AnchorStart => guard_ (current_pos st =? search_start_pos st)%nat remaining st
  | Pat.AnchorEnd => guard_ (current_pos st =? length (input st))%nat remaining st
  | Pat.CaptureStart index => remaining (capture_start index st)
  | Pat.CaptureEnd index => capture_end index st ≫= remaining
  | Pat.CaptureRef => None
  | Pat.Balanced open close =>
      if bool_decide (current_byte st = Some open) then
        let pos := S (current_pos st) in
        pos ← find_close open close 1 pos (drop pos (input st));
        remaining (set_pos pos st)
      else None
  | Pat.Frontier charset =>
      guard_ (negb (contains_at charset (previous_byte st)) && contains_at charset (current_byte st)) remaining st
  | Pat.Quantified body quant =>
      let body := (fix match_body (body : list Pat.t) : matcher :=
        match body with
        | [] => enter Some
        | node :: nodes => enter (match_node node (match_body nodes))
        end) body in
      match quant with
      | Quantifier.Star => match_greedy body remaining st 0
      | Quantifier.Plus => match_greedy body remaining st 1
      | Quantifier.Question => match_question body remaining st
      | Quantifier.Minus => match_non_greedy body remaining st
      end
  end.

Fixpoint match_recursive (pattern : list Pat.t) : matcher :=
  match pattern with
  | [] => enter Some
  | node :: nodes => enter (match_node node (match_recursive nodes))
  end.
End Matcher.
End Matcher.

(** ** Searches *)
Module Pattern.
Section Pattern.
Context `{Lsonar}.
Import Matcher.

Definition anchored (ast : list AstNode.t) : bool :=
  match ast with AstNode.AnchorStart :: _ => true | _ => false end.

(** The loop over [count] positions from [start] on.  The last test of its body, which
    continues, changes nothing. *)
Fixpoint search_from (count : nat) (ast : list AstNode.t) (flat : list Pat.t) (input : list Z)
    (start_index start : nat) : option (range * list (option range)) :=
  match count with
  | O => None
  | S count =>
      match match_recursive flat (Matcher.new input start) with
      | Some final => Some ((start, current_pos final), captures final)
      | None =>
          if anchored ast && (start =? start_index)%nat then None
          else search_from count ast flat input start_index (S start)
      end
  end.

Definition find_first_match (ast : list AstNode.t) (input : list Z) (start_index : nat)
  : option (range * list (option range)) :=
  search_from (S (length input) - start_index) ast (convert_ast ast) input start_index start_index.

Definition calculate_start_index (text_len : nat) (init : option Z) : nat :=
  match init with
  | Some i =>
      if 0 <? i then
        let index := Z.to_nat (i - 1) in
        if (text_len <=? index)%nat then text_len else index
      else if i <? 0 then
        let distance := Z.to_nat (- i) in
        if (text_len <? distance)%nat then 0%nat else (text_len - distance)%nat
      else 0%nat
  | None => 0%nat
  end.

(** [windows(n).position(|window| window == pattern)] *)
Fixpoint position (pattern text : list Z) : option nat :=
  if (length text <? length pattern)%nat then None
  else if bool_decide (take (length pattern) text = pattern) then Some 0%nat
  else match text with [] => None | _ :: text => S <$> position pattern text end.

Definition text_at (text : list Z) (r : range) : outcome (list Z) := Slice.slice text (fst r) (snd r).

(** The captures that were made, in the order of their numbers *)
Fixpoint made (text : list Z) (cs : list (option range)) : outcome (list (list Z)) :=
  match cs with
  | [] => Ok []
  | None :: cs => made text cs
  | Some r :: cs => c ← text_at text r; rest ← made text cs; Ok (c :: rest)
  end.

Abbreviation found := (nat * nat * list (list Z))%type.

Definition find_plain (text pattern : list Z) (start : nat) : option found :=
  match pattern with
  | [] => Some (S start, start, [])
  | _ =>
      if (length text <=? start)%nat then None
      else
        relative ← position pattern (drop start text);
        let zero_start := (start + relative)%nat in
        Some (S zero_start, (zero_start + length pattern)%nat, [])
  end.

Definition find (text pattern : list Z) (init : option Z) (plain : bool)
  : outcome (option found + PatternError.t) :=
  let start := calculate_start_index (length text) init in
  if plain then Ok (inl (find_plain text pattern start))
  else
    ast ← parse_pattern pattern;
    match ast with
    | inr e => Ok (inr e)
    | inl ast =>
        match find_first_match ast text start with
        | Some (r, cs) => cs ← made text cs; Ok (inl (Some (S (fst r), snd r, cs)))
        | None => Ok (inl None)
        end
    end.

(** What a match yields: its captures, or all of it when there is none *)
Definition captures_or_all (text : list Z) (r : range) (cs : list (option range)) : outcome (list (list Z)) :=
  cs ← made text cs;
  match cs with
  | [] => full ← text_at text r; Ok [full]
  | _ => Ok cs
  end.

Definition pattern_match (text pattern : list Z) (init : option Z)
  : outcome (option (list (list Z)) + PatternError.t) :=
  let start := calculate_start_index (length text) init in
  ast ← parse_pattern pattern;
  match ast with
  | inr e => Ok (inr e)
  | inl ast =>
      match find_first_match ast text start with
      | Some (r, cs) => cs ← captures_or_all text r cs; Ok (inl (Some cs))
      | None => Ok (inl None)
      end
  end.
End Pattern.
End Pattern.
