(* ===== verification/PatternFacts.v ===== *)
(** * Facts on patterns

    Matching moves forward and stays within the text, the loops end, the parser always
    answers. *)

From S2P Require Import Prelude Slices Pattern.

Module PatternFacts.
Import Matcher.
Section PatternFacts.
Context `{Lsonar}.
Implicit Types (st : State) (m : matcher) (node : Pat.t).

Lemma pat_ind (P : Pat.t -> Prop) :
  (forall body q, Forall P body -> P (Pat.Quantified body q)) ->
  (forall node, (forall body q, node <> Pat.Quantified body q) -> P node) -> forall node, P node.
Proof.
  intros HQ HO. refine (fix IH node := _).
  destruct node as [| | | | | | | | | | |body q]; try (by apply HO). apply HQ.
  induction body as [|n body IHb]; constructor; [apply IH|exact IHb].
Qed.

(** The nested function of [match_node] *)
Lemma match_quantified body q remaining st : match_node (Pat.Quantified body q) remaining st =
  match q with
  | Quantifier.Star => match_greedy (match_recursive body) remaining st 0
  | Quantifier.Plus => match_greedy (match_recursive body) remaining st 1
  | Quantifier.Question => match_question (match_recursive body) remaining st
  | Quantifier.Minus => match_non_greedy (match_recursive body) remaining st
  end.
Proof. done. Qed.

(** ** States *)

(** The positions of a state are within its text. *)
Record wf st : Prop := {
  wf_pos : (current_pos st <= length (input st))%nat;
  wf_capture i a b : captures st !! i = Some (Some (a, b)) -> (a <= b <= current_pos st)%nat;
  wf_start i a : capture_starts st !! i = Some (Some a) -> (a <= current_pos st)%nat
}.

(** A later state of the same match *)
Record later st st' : Prop := {
  later_input : input st' = input st;
  later_search : search_start_pos st' = search_start_pos st;
  later_pos : (current_pos st <= current_pos st')%nat
}.

#[global] Instance later_preorder : PreOrder later.
Proof. split; [by split|]. intros a b c [] []. split; [congruence..|lia]. Qed.

Definition sound m : Prop := forall st st', wf st -> m st = Some st' -> wf st' /\ later st st'.

Lemma wf_new text start : (start <= length text)%nat -> wf (new text start).
Proof.
  intros Hs. split; [done|..]; intros i; cbn.
  - intros a b [E _]%lookup_replicate. discriminate E.
  - intros a [E _]%lookup_replicate. discriminate E.
Qed.

Lemma set_pos_ok st pos : wf st -> (current_pos st <= pos <= length (input st))%nat ->
  wf (set_pos pos st) /\ later st (set_pos pos st).
Proof.
  intros Hw Hp. split; [|by split; cbn; lia || done]. split; cbn; [lia|..].
  - intros i a b Hi%(wf_capture st Hw). lia.
  - intros i a Hi%(wf_start st Hw). lia.
Qed.

Lemma capture_start_ok st i : wf st -> wf (capture_start i st) /\ later st (capture_start i st).
Proof.
  intros Hw. split; [|by split]. split; cbn; [by apply Hw|..]; intros j.
  - intros a b [(_ & E & _)|[_ Hj]]%list_lookup_insert_Some; [discriminate E|]. by eapply wf_capture.
  - intros a [(_ & [= <-] & _)|[_ Hj]]%list_lookup_insert_Some; [done|]. by eapply wf_start.
Qed.

Lemma capture_end_ok st i st' : wf st -> capture_end i st = Some st' -> wf st' /\ later st st'.
Proof.
  unfold capture_end. intros Hw E. destruct (capture_starts st !! i) as [[a|]|] eqn:Ea; [|done..]. injection E as <-.
  pose proof (wf_start st Hw _ _ Ea). split; [|by split]. split; cbn; [by apply Hw|..]; intros j.
  - intros b c [(_ & [= <- <-] & _)|[_ Hj]]%list_lookup_insert_Some; [lia|]. by eapply wf_capture.
  - intros b. by apply wf_start.
Qed.

Lemma deeper_ok st : wf st -> wf (deeper st) /\ later st (deeper st).
Proof. intros []. by split. Qed.

Lemma current_byte_lt st b : current_byte st = Some b -> (current_pos st < length (input st))%nat.
Proof. apply lookup_lt_Some. Qed.

(** ** Matching moves forward. *)

Lemma sound_bind st st1 st2 m : sound m -> wf st1 /\ later st st1 -> m st1 = Some st2 -> wf st2 /\ later st st2.
Proof. intros Hm [Hw Hl] E. destruct (Hm _ _ Hw E) as [Hw2 Hl2]. split; [done|by etrans]. Qed.

Lemma sound_enter m : sound m -> sound (enter m).
Proof.
  intros Hm st st' Hw. unfold enter. destruct (_ <? _)%nat; [done|].
  apply sound_bind; [done|by apply deeper_ok].
Qed.

Lemma sound_Some : sound Some.
Proof. by intros st st' Hw [= ->]. Qed.

Lemma one_byte_ok b m st st' : sound m -> wf st -> (b = true -> is_Some (current_byte st)) ->
  one_byte b m st = Some st' -> wf st' /\ later st st'.
Proof.
  unfold one_byte. intros Hm Hw Hb. destruct b; [|done].
  destruct (Hb eq_refl) as [c Hc%current_byte_lt]. apply sound_bind; [done|]. by apply set_pos_ok; [|lia].
Qed.

Lemma guard_ok b m st st' : sound m -> wf st -> guard_ b m st = Some st' -> wf st' /\ later st st'.
Proof. intros Hm Hw. unfold guard_. destruct b; [|done]. by apply Hm. Qed.

Lemma find_close_range open close n pos rest p : find_close open close n pos rest = Some p ->
  (pos < p <= pos + length rest)%nat.
Proof.
  revert n pos. induction rest as [|c rest IH]; intros n pos; cbn [find_close length]; [done|].
  destruct (c =? close); [destruct n as [|[|n]]|]; try (by intros E%IH; lia). intros [= <-]. lia.
Qed.

Lemma first_match_ok m st cs st' : sound m -> Forall (fun c => wf c /\ later st c) cs ->
  first_match m cs = Some st' -> wf st' /\ later st st'.
Proof.
  intros Hm. induction 1 as [|c cs Hc _ IH]; cbn; [done|].
  destruct (m c) eqn:E; [|done]. intros [= ->]. by eapply sound_bind.
Qed.

Lemma repeat_minimum_ok body n : sound body -> sound (repeat_minimum body n).
Proof.
  intros Hb. induction n as [|n IH]; intros st st' Hw; cbn; [by intros [= ->]|].
  destruct (body st) as [next|] eqn:E; [|done]. cbn. destruct (_ =? _)%nat; [done|].
  apply sound_bind; [done|by eapply Hb].
Qed.

Lemma expand_ok fuel body n cs st0 cur cs' : sound body -> Forall (fun c => wf c /\ later st0 c) cs ->
  wf cur /\ later st0 cur -> expand fuel body n cs cur = Some cs' -> Forall (fun c => wf c /\ later st0 c) cs'.
Proof.
  intros Hb. revert n cs cur. induction fuel as [|fuel IH]; intros n cs cur Hcs Hc; cbn [expand]; [done|].
  destruct (body cur) as [next|] eqn:E; [|by intros [= <-]].
  assert (wf next /\ later st0 next) by by eapply sound_bind.
  assert (Forall (fun c => wf c /\ later st0 c) (next :: cs)) by by constructor.
  repeat case_match; try (by intros [= <-]). by apply IH.
Qed.

Lemma greedy_sound body m n : sound body -> sound m -> sound (fun st => match_greedy body m st n).
Proof.
  intros Hb Hm st st' Hw. unfold match_greedy.
  destruct (repeat_minimum body n st) as [cur|] eqn:Er; cbn [mbind option_bind]; [|done].
  pose proof (repeat_minimum_ok body n Hb st cur Hw Er) as Hc.
  destruct (expand (turns cur) body 1 [cur] cur) as [cs|] eqn:Ee; cbn [mbind option_bind]; [|done].
  apply first_match_ok; [done|]. apply (expand_ok (turns cur) body 1 [cur] st cur cs); [done| |exact Hc|exact Ee].
  by apply Forall_singleton.
Qed.

Lemma non_greedy_sound fuel body m : sound body -> sound m -> sound (non_greedy_loop fuel body m).
Proof.
  intros Hb Hm. induction fuel as [|fuel IH]; intros st st' Hw; cbn [non_greedy_loop]; [done|].
  destruct (m st) as [final|] eqn:Em; [intros [= <-]; by eapply Hm|].
  destruct (body st) as [next|] eqn:E; [|done]. cbn. pose proof (Hb _ _ Hw E) as Hn.
  destruct (_ =? _)%nat; [by apply sound_bind|]. by apply sound_bind.
Qed.

Lemma question_sound body m : sound body -> sound m -> sound (match_question body m).
Proof.
  intros Hb Hm st st' Hw. unfold match_question. destruct (body st) as [next|] eqn:E; cbn; [|by apply Hm].
  destruct (m next) eqn:En; [|by apply Hm]. intros [= <-]. eapply sound_bind; [done|by eapply Hb|done].
Qed.

Lemma sound_node node : forall m, sound m -> sound (match_node node m).
Proof.
  induction node as [body q IH|node Hn] using pat_ind; intros m Hm.
  - assert (Hb : sound (match_recursive body)).
    { induction IH as [|n body Hn _ IHb]; cbn; apply sound_enter; [apply sound_Some|by apply Hn]. }
    intros st st' Hw. rewrite match_quantified.
    destruct q; [by apply greedy_sound|by apply greedy_sound|by apply question_sound|by apply non_greedy_sound].
  - intros st st' Hw. destruct node; cbn [match_node]; try (by edestruct Hn);
      try (by apply guard_ok); try (apply one_byte_ok; try done).
    + intros ->%bool_decide_eq_true. by eexists.
    + by intros ?%bool_decide_eq_true.
    + unfold check_class. by destruct (current_byte st).
    + by destruct (current_byte st).
    + case_bool_decide as Eo; [|done]. apply current_byte_lt in Eo.
      destruct (find_close _ _ _ _ _) as [p|] eqn:E; [|done]. cbn. apply find_close_range in E.
      rewrite length_drop in E. apply sound_bind; [done|]. apply set_pos_ok; [done|lia].
    + apply sound_bind; [done|by apply capture_start_ok].
    + destruct (capture_end _ _) as [st1|] eqn:E; [|done]. cbn. apply sound_bind; [done|by eapply capture_end_ok].
    + done.
Qed.

Lemma sound_recursive pattern : sound (match_recursive pattern).
Proof. induction pattern; cbn; apply sound_enter; [apply sound_Some|by apply sound_node]. Qed.
(** ** The loops end: their fuel does not show. *)

Lemma expand_enough fuel fuel' body n cs cur : sound body -> wf cur ->
  (length (input cur) - current_pos cur < fuel)%nat -> (length (input cur) - current_pos cur < fuel')%nat ->
  is_Some (expand fuel body n cs cur) /\ expand fuel body n cs cur = expand fuel' body n cs cur.
Proof.
  intros Hb. revert fuel' n cs cur. induction fuel as [|fuel IH]; intros fuel' n cs cur Hw Hf Hf'; [lia|].
  destruct fuel' as [|fuel']; [lia|]. cbn [expand].
  destruct (body cur) as [next|] eqn:E; [|done]. destruct (Hb _ _ Hw E) as [Hn [Hi _ Hp]].
  destruct (Nat.eqb_spec (current_pos next) (current_pos cur)); [done|]. destruct (_ <? _); [done|].
  pose proof (wf_pos _ Hn). rewrite Hi in *. apply IH; [done|rewrite Hi; lia..].
Qed.

Lemma non_greedy_enough fuel fuel' body m cur : sound body -> wf cur ->
  (length (input cur) - current_pos cur < fuel)%nat -> (length (input cur) - current_pos cur < fuel')%nat ->
  non_greedy_loop fuel body m cur = non_greedy_loop fuel' body m cur.
Proof.
  intros Hb. revert fuel' cur. induction fuel as [|fuel IH]; intros fuel' cur Hw Hf Hf'; [lia|].
  destruct fuel' as [|fuel']; [lia|]. cbn [non_greedy_loop]. destruct (m cur); [done|].
  destruct (body cur) as [next|] eqn:E; [|done]. cbn [mbind option_bind]. destruct (Hb _ _ Hw E) as [Hn [Hi _ Hp]].
  destruct (Nat.eqb_spec (current_pos next) (current_pos cur)); [done|].
  pose proof (wf_pos _ Hn). rewrite Hi in *. apply IH; [done|rewrite Hi; lia..].
Qed.

(** ** Searches stay within the text. *)

Definition in_text (text : list Z) (from : nat) (r : range) : Prop := (from <= fst r <= snd r)%nat /\ (snd r <= length text)%nat.

Lemma match_new flat text start final : (start <= length text)%nat ->
  match_recursive flat (new text start) = Some final ->
  in_text text start (start, current_pos final) /\
  forall i r, captures final !! i = Some (Some r) -> in_text text 0 r.
Proof.
  intros Hs E. destruct (sound_recursive flat _ _ (wf_new text start Hs) E) as [Hw [Hi _ Hp]].
  pose proof (wf_pos _ Hw) as Hend. rewrite Hi in Hend. cbn in *. split; [split; cbn; lia|].
  intros i [a b] Hr%(wf_capture _ Hw). split; cbn; lia.
Qed.

(** The match found at [r] *)
Definition match_at flat text (r : range) (cs : list (option range)) : Prop :=
  exists final, match_recursive flat (new text (fst r)) = Some final /\ snd r = current_pos final /\ cs = captures final.

Lemma search_from_spec count ast flat text start_index start :
  (Pattern.anchored ast = true -> start = start_index) ->
  match Pattern.search_from count ast flat text start_index start with
  | Some (r, cs) =>
      match_at flat text r cs /\ (start <= fst r < start + count)%nat /\ (Pattern.anchored ast = true -> fst r = start) /\
      forall p, (start <= p < fst r)%nat -> match_recursive flat (new text p) = None
  | None =>
      forall p, (start <= p < start + count)%nat -> (Pattern.anchored ast = true -> p = start) ->
        match_recursive flat (new text p) = None
  end.
Proof.
  revert start. induction count as [|count IH]; intros start Ha; cbn [Pattern.search_from]; [lia|].
  destruct (match_recursive flat (new text start)) as [final|] eqn:E.
  { split_and!; [by exists final|cbn; lia..|done|cbn; lia]. }
  destruct (Pattern.anchored ast) eqn:Han; cbn [andb].
  { pose proof (Ha eq_refl) as Hstart. rewrite (proj2 (Nat.eqb_eq _ _) Hstart). intros p _ Hp. by rewrite (Hp eq_refl). }
  specialize (IH (S start)). destruct (Pattern.search_from _ _ _ _ _ (S start)) as [[r cs]|].
  - destruct IH as (Hm & Hr & _ & Hp); [done|]. split_and!; [done|lia..|done|].
    intros p Hlt. destruct (decide (p = start)) as [->|]; [done|]. apply Hp. lia.
  - intros p Hlt _. destruct (decide (p = start)) as [->|]; [done|]. apply IH; [done|lia|done].
Qed.

Lemma find_first_match_spec ast text start : (start <= length text)%nat ->
  let flat := convert_ast ast in
  match Pattern.find_first_match ast text start with
  | Some (r, cs) =>
      match_at flat text r cs /\ in_text text start r /\ (forall i r', cs !! i = Some (Some r') -> in_text text 0 r') /\
      (Pattern.anchored ast = true -> fst r = start) /\
      forall p, (start <= p < fst r)%nat -> match_recursive flat (new text p) = None
  | None =>
      forall p, (start <= p <= length text)%nat -> (Pattern.anchored ast = true -> p = start) ->
        match_recursive flat (new text p) = None
  end.
Proof.
  intros Hs flat. unfold Pattern.find_first_match.
  pose proof (search_from_spec (S (length text) - start) ast flat text start start (fun _ => eq_refl)) as Hspec.
  fold flat. destruct (Pattern.search_from _ _ _ _ _ _) as [[r cs]|].
  - destruct Hspec as ((final & E & Hend & ->) & Hr & Ha & Hp). destruct r as [a b]. cbn [fst snd] in *. subst b.
    destruct (match_new flat text a final) as [Hin Hcs]; [lia|done|].
    split_and!; [by exists final|split; [|apply Hin]; cbn; destruct Hin as [[? ?] ?]; cbn in *; lia|done..].
  - intros p Hp. apply Hspec. lia.
Qed.

Lemma text_at_in text r from : in_text text from r ->
  Pattern.text_at text r = Ok (take (snd r - fst r) (drop (fst r) text)).
Proof. intros [[_ Hr] Hl]. by apply SliceFacts.slice_in. Qed.

Lemma made_ok text cs : (forall i r, cs !! i = Some (Some r) -> in_text text 0 r) ->
  exists vs, Pattern.made text cs = Ok vs.
Proof.
  induction cs as [|c cs IH]; intros Hcs; cbn [Pattern.made]; [by eexists|].
  destruct IH as (vs & E); [intros i; apply (Hcs (S i))|]. destruct c as [r|]; [|by eexists].
  erewrite text_at_in by by apply (Hcs O). rewrite outcome_bind_Ok, E. by eexists.
Qed.

Lemma start_index_le n init : (Pattern.calculate_start_index n init <= n)%nat.
Proof.
  unfold Pattern.calculate_start_index. destruct init as [i|]; [|lia]. destruct (0 <? i).
  - destruct (Nat.leb_spec n (Z.to_nat (i - 1))); lia.
  - destruct (i <? 0); [|lia]. destruct (_ <? _)%nat; lia.
Qed.

(** ** The parser answers. *)

Lemma next_token_eats l k l' : ByteLexer.next_token l = (inl (Some k), l') ->
  (length (ByteLexer.input l') < length (ByteLexer.input l))%nat.
Proof.
  destruct l as [[|b rest] cd sd]; [done|].
  unfold ByteLexer.next_token, ByteLexer.token, ByteLexer.escape_in_set, ByteLexer.escape, ByteLexer.balanced, ByteLexer.token, ByteLexer.fail.
  cbn [ByteLexer.input ByteLexer.set_input]. intros E.
  repeat case_match; simplify_eq; cbn [ByteLexer.input length ByteLexer.set_input] in *; rewrite ?length_drop; lia.
Qed.

Lemma tokens_ok fuel l : (length (ByteLexer.input l) < fuel)%nat -> exists r, ByteLexer.tokens fuel l = Ok r.
Proof.
  revert l. induction fuel as [|fuel IH]; intros l Hl; [lia|]. cbn [ByteLexer.tokens].
  destruct (ByteLexer.next_token l) as [[[k|]|e] l'] eqn:E; [|by eexists..].
  apply next_token_eats in E. destruct (IH l') as (r & ->); [lia|]. by eexists.
Qed.

Import ByteParser.

(** [m] answers from [p]; when it succeeds it has taken at least [k] tokens. *)
Definition safe {A} (k : nat) (m : P A) (p : t) : Prop :=
  exists r p', m p = Ok (r, p') /\
    match r with inl _ => (length (tokens p') + k <= length (tokens p))%nat | inr _ => True end.

Lemma safe_bind {A B} k1 k2 (m : P A) (f : A -> P B) p : safe k1 m p ->
  (forall a p', (length (tokens p') + k1 <= length (tokens p))%nat -> safe k2 (f a) p') -> safe (k1 + k2) (bind m f) p.
Proof.
  intros (r & p1 & E & Hr) Hf. unfold safe, bind. rewrite E, outcome_bind_Ok. destruct r as [a|e]; [|by eexists _, _].
  destruct (Hf a p1 Hr) as (r2 & p2 & E2 & Hr2). rewrite E2. eexists _, _. split; [done|]. destruct r2; [lia|done].
Qed.

Lemma safe_weaken {A} k k' (m : P A) p : safe k m p -> (k' <= k)%nat -> safe k' m p.
Proof. intros (r & p' & E & Hr) Hk. exists r, p'. split; [done|]. destruct r; [lia|done]. Qed.

Lemma safe_ret {A} (a : A) p : safe 0 (ret a) p.
Proof. eexists _, _. split; [done|]. cbn. lia. Qed.
Lemma safe_throw {A} k e p : safe k (throw e : P A) p.
Proof. by eexists _, _. Qed.
Lemma safe_peek p : safe 0 peek p.
Proof. eexists _, _. split; [done|]. cbn. lia. Qed.
Lemma safe_peek_is k p : safe 0 (peek_is k) p.
Proof. eexists _, _. split; [done|]. cbn. lia. Qed.
Lemma safe_next p : safe 0 next p.
Proof. eexists _, _. split; [done|]. cbn. destruct (tokens p); cbn; lia. Qed.
Lemma safe_lift {A} (r : A + SetError) p : safe 0 (lift r) p.
Proof. destruct r; [apply safe_ret|apply safe_throw]. Qed.
Hint Resolve safe_ret safe_throw safe_peek safe_peek_is safe_next safe_lift : core.

Lemma safe_then {A B} (m : P A) (f : A -> P B) p : safe 0 m p ->
  (forall a p', (length (tokens p') <= length (tokens p))%nat -> safe 0 (f a) p') -> safe 0 (bind m f) p.
Proof. intros Hm Hf. apply (safe_bind 0 0); [done|]. intros a p' Hp. apply Hf. lia. Qed.

(** One token is there and is taken. *)
Lemma safe_next_then {B} k ks c (f : option Token.t -> P B) : safe 0 (f (Some k)) (mk ks c) ->
  safe 1 (bind next f) (mk (k :: ks) c).
Proof.
  intros (r & p' & E & Hr). exists r, p'. split; [done|]. destruct r; [cbn in *; lia|done].
Qed.

Lemma safe_peek_then {B} k (f : option Token.t -> P B) p : safe k (f (head (tokens p))) p -> safe k (bind peek f) p.
Proof. done. Qed.

Lemma set_items_safe fuel set p : (length (tokens p) < fuel)%nat -> safe 0 (set_items fuel set) p.
Proof.
  revert set p. induction fuel as [|fuel IH]; intros set [ks c] Hf; [cbn in *; lia|].
  destruct ks as [|k ks]; [apply safe_ret|]. cbn [tokens length] in Hf.
  assert (Hstep : forall A (m : P A) (f : A -> CharSet), (forall p, safe 0 m p) ->
    safe 0 (bind next (fun _ => bind m (fun a => set_items fuel (f a)))) (mk (k :: ks) c)).
  { intros A m f Hm. eapply safe_weaken; [apply safe_next_then|lia]. apply safe_then; [done|].
    intros a p' Hp. apply IH. cbn in Hp. lia. }
  assert (Hbyte : forall b, safe 0 (bind next (fun _ => set_items fuel (add_byte b set))) (mk (k :: ks) c)).
  { intros b. eapply safe_weaken; [apply safe_next_then|lia]. apply IH. cbn. lia. }
  cbn [set_items]. destruct k; try apply Hbyte; try apply safe_ret.
  - (* a literal: perhaps a range *)
    eapply safe_weaken; [apply safe_next_then|lia]. apply safe_then; [done|]. intros [] p' Hp; [|apply IH; cbn in Hp; lia].
    apply safe_then; [eexists _, _; split; [done|cbn; lia]|]. intros nb p2 Hp2.
    destruct nb as [[]|]; try (apply IH; cbn in *; lia).
    apply safe_then; [done|]. intros _ p3 Hp3. apply safe_then; [done|]. intros _ p4 Hp4.
    apply safe_then; [done|]. intros set' p5 Hp5. apply IH. cbn in *; lia.
  - by apply (Hstep _ (lift (add_class c0 set)) (fun s => s)).
Qed.

(** A set is a set. *)
Definition is_set (m : P AstNode.t) : Prop := forall p (node : AstNode.t) p', m p = Ok (inl node, p') -> exists s, node = AstNode.Set_ s.

Lemma bind_inv {A B} (m : P A) (f : A -> P B) p b p' : bind m f p = Ok (inl b, p') ->
  exists a p1, m p = Ok (inl a, p1) /\ f a p1 = Ok (inl b, p').
Proof.
  unfold bind. destruct (m p) as [[[a|e] p1]|]; [|done..]. rewrite outcome_bind_Ok. eauto.
Qed.

Lemma is_set_bind {A} (m : P A) (f : A -> P AstNode.t) : (forall a, is_set (f a)) -> is_set (bind m f).
Proof. intros Hf p node p' (a & p1 & _ & E)%bind_inv. by eapply Hf. Qed.

Lemma parse_set_is_set : is_set parse_set.
Proof.
  assert (Hret : forall n s, is_set (ret (set_node n s))) by (intros n s p node p' [= <- _]; by eexists).
  unfold parse_set. repeat (apply is_set_bind; intros ?); repeat case_match;
    repeat (apply is_set_bind; intros ?); repeat case_match; repeat (apply is_set_bind; intros ?); try done.
Qed.

Lemma parse_set_safe p : safe 0 parse_set p.
Proof.
  unfold parse_set. apply safe_then; [done|]. intros negated p1 _. apply safe_then; [by destruct negated|]. intros _ p2 _.
  apply safe_then; [done|]. intros closed p3 _. destruct closed; [by apply safe_then|].
  apply safe_then; [done|]. intros again p4 _.
  apply safe_then; [destruct again; [by apply safe_then|done]|]. intros set p5 _.
  apply safe_then; [apply set_items_safe; lia|]. intros set' p6 _.
  apply safe_then; [done|]. intros closed p7 _. destruct closed; [by apply safe_then|done].
Qed.

Section Items.
Context (seq : option Token.t -> P (list AstNode.t)) (bound : nat).
Context (Hseq : forall e p, (length (tokens p) < bound)%nat -> safe 0 (seq e) p).

Lemma parse_capture_safe p : (length (tokens p) < bound)%nat -> safe 0 (parse_capture seq) p.
Proof.
  intros Hp. unfold parse_capture. apply safe_then; [eexists _, _; split; [done|cbn; lia]|].
  intros index p1 Hp1. destruct (_ <? _)%nat; [done|]. apply safe_then; [apply Hseq; lia|].
  intros inner p2 _. apply safe_then; [done|]. intros close p3 _. by case_bool_decide.
Qed.

Lemma parse_base_safe p : (length (tokens p) <= bound)%nat -> tokens p <> [] -> safe 1 (parse_base seq) p.
Proof.
  destruct p as [[|k ks] c]; [done|]. cbn [tokens length]. intros Hb _. apply safe_next_then.
  destruct k; try done; try (by repeat case_match).
  - apply parse_capture_safe. cbn. lia.
  - apply parse_set_safe.
  - apply safe_then; [done|]. intros open p1 _. destruct open; [|done]. apply safe_then; [done|]. intros _ p2 _.
    destruct (parse_set_safe p2) as (r & p3 & E & Hr). destruct r as [node|e].
    + destruct (parse_set_is_set _ _ _ E) as (s & ->). unfold safe, bind. rewrite E. by eexists _, _.
    + unfold safe, bind. rewrite E. by eexists _, _.
Qed.

Lemma parse_item_safe p : (length (tokens p) <= bound)%nat -> tokens p <> [] -> safe 1 (parse_item seq) p.
Proof.
  intros Hb Hne. unfold parse_item. apply (safe_bind 1 0); [by apply parse_base_safe|].
  intros base p1 _. apply safe_then; [done|]. intros k p2 _. destruct (quantifier_of k); [|done].
  apply safe_then; [done|]. intros _ p3 _. by destruct (quantifiable base).
Qed.
End Items.

Lemma parse_sequence_safe fuel e p : (length (tokens p) < fuel)%nat -> safe 0 (parse_sequence fuel e) p.
Proof.
  revert e p. induction fuel as [|fuel IH]; intros e [ks c] Hf; [lia|].
  cbn [parse_sequence]. apply safe_peek_then.
  destruct ks as [|k ks].
  - cbn [head tokens]. rewrite bool_decide_eq_true_2 by done. cbn [orb]. by destruct (_ && _).
  - cbn [head tokens length] in *. destruct (_ || _); [by destruct (_ && _)|].
    eapply safe_weaken; [eapply (safe_bind 1 0)|lia].
    + apply (parse_item_safe _ fuel); [intros; by apply IH|cbn; lia|done].
    + intros item p1 Hp1. apply safe_then; [|done]. apply IH. cbn in Hp1. lia.
Qed.

Lemma parse_pattern_ok pattern : exists r, parse_pattern pattern = Ok r.
Proof.
  unfold parse_pattern, new. destruct (tokens_ok (S (length pattern)) (ByteLexer.new pattern)) as ([ks|e] & ->); [cbn; lia| |by eexists].
  rewrite !outcome_bind_Ok. assert (Hs : safe 0 parse (mk ks 0)).
  { unfold parse. apply safe_then; [apply parse_sequence_safe; lia|]. intros ast p1 _. apply safe_then; [done|].
    intros [k|] p2 _; [done|]. unfold safe. destruct (_ <? _)%nat; [apply safe_throw|apply safe_ret]. }
  destruct Hs as (r & p' & -> & _). by eexists.
Qed.
End PatternFacts.
End PatternFacts.
