(* ===== verification/PatternTheorems.v ===== *)
(** * What patterns promise

    A search always answers and finds the leftmost match; the matcher finds the first of the
    successes of the language's backtracking, as long as its recursion limit is not met; an
    escaped text is a plain search; and the idiom that trims a text trims it. *)

From S2P Require Import Prelude Slices Pattern PatternFacts.

Module PatternTheorems.
Import Matcher PatternFacts.
Section Theorems.
Context `{Lsonar}.
Implicit Types (st : State) (m : matcher) (node : Pat.t).

(** ** The successes of a pattern, in the order in which the language tries them *)

(** The nodes that take one byte *)
Definition byte_test node : option (Z -> bool) :=
  match node with
  | Pat.Literal e => Some (Z.eqb e)
  | Pat.Any => Some (fun _ => true)
  | Pat.Class_ c negated => Some (fun b => xorb (class_matches c b) negated)
  | Pat.Set_ s => Some (charset_contains s)
  | _ => None
  end.

(** How many bytes in a row pass a test *)
Fixpoint run_length (test : Z -> bool) (text : list Z) : nat :=
  match text with
  | b :: text => if test b then S (run_length test text) else 0%nat
  | [] => 0%nat
  end.

Definition rest_of st : list Z := drop (current_pos st) (input st).
Definition advance (k : nat) st : State := set_pos (current_pos st + k) st.

(** The numbers of repetitions to try, the preferred one first *)
Definition choices (q : Quantifier.t) (longest : nat) : list nat :=
  match q with
  | Quantifier.Star => rev (seq 0 (S longest))
  | Quantifier.Plus => rev (seq 1 longest)
  | Quantifier.Question => if (longest =? 0)%nat then [0%nat] else [1; 0]%nat
  | Quantifier.Minus => seq 0 (S longest)
  end.

Fixpoint successes (pattern : list Pat.t) (st : State) : list State :=
  match pattern with
  | [] => [st]
  | node :: rest =>
      match node with
      | Pat.Quantified [item] q =>
          let longest := match byte_test item with Some test => run_length test (rest_of st) | None => 0%nat end in
          flat_map (fun i => successes rest (advance i st)) (choices q longest)
      | Pat.AnchorStart => if (current_pos st =? search_start_pos st)%nat then successes rest st else []
      | Pat.AnchorEnd => if (current_pos st =? length (input st))%nat then successes rest st else []
      | Pat.CaptureStart i => successes rest (capture_start i st)
      | Pat.CaptureEnd i => match capture_end i st with Some st => successes rest st | None => [] end
      | Pat.Balanced open close =>
          match rest_of st with
          | b :: text =>
              if b =? open then
                match find_close open close 1 (S (current_pos st)) text with
                | Some pos => successes rest (set_pos pos st)
                | None => []
                end
              else []
          | [] => []
          end
      | Pat.Frontier s =>
          if negb (contains_at s (previous_byte st)) && contains_at s (current_byte st) then successes rest st else []
      | node =>
          match byte_test node, rest_of st with
          | Some test, b :: _ => if test b then successes rest (advance 1 st) else []
          | _, _ => []
          end
      end
  end.

(** The patterns of the language: only items of one byte are repeated. *)
Definition simple_node node : Prop :=
  match node with
  | Pat.Quantified body _ => exists item, body = [item] /\ is_Some (byte_test item)
  | _ => True
  end.
Definition is_quantified node : bool := match node with Pat.Quantified _ _ => true | _ => false end.

(** The depth that matching may come to: a level for a node, two for a repetition *)
Definition cost (pattern : list Pat.t) st : nat :=
  (length pattern + if existsb is_quantified pattern then 2 * (length (input st) - current_pos st) else 0)%nat.

(** A state at another depth *)
Definition at_depth (d : nat) st : State :=
  mk_State (input st) (current_pos st) (search_start_pos st) (captures st) (capture_starts st) d.
Definition erase st : State := at_depth 0 st.

Lemma rest_cases st : (rest_of st = [] /\ current_byte st = None) \/
  exists b text, rest_of st = b :: text /\ current_byte st = Some b /\ text = rest_of (advance 1 st).
Proof.
  unfold rest_of, current_byte, advance. cbn. rewrite Nat.add_1_r. destruct (input st !! current_pos st) as [b|] eqn:E.
  - right. exists b, (drop (S (current_pos st)) (input st)). by rewrite (drop_S _ b).
  - left. apply lookup_ge_None in E. by rewrite drop_ge.
Qed.

Lemma match_byte node test m st : byte_test node = Some test ->
  match_node node m st = match rest_of st with b :: _ => if test b then m (advance 1 st) else None | [] => None end.
Proof.
  unfold advance. rewrite Nat.add_1_r. intros Ht.
  destruct (rest_cases st) as [[-> Hc]|(b & text & -> & Hc & _)]; destruct node as [e| |c ng|s|o cl|s| | |i|i| |body q]; try done;
    injection Ht as <-; cbn [match_node]; unfold one_byte, check_class, contains_at; rewrite Hc; try done.
  destruct (Z.eqb_spec e b) as [->|Hne]; [by rewrite bool_decide_eq_true_2|by rewrite bool_decide_eq_false_2 by congruence].
Qed.

Lemma length_rest st : length (rest_of st) = (length (input st) - current_pos st)%nat.
Proof. apply length_drop. Qed.

Lemma run_length_le test text : (run_length test text <= length text)%nat.
Proof. induction text as [|b text IH]; cbn; [done|]. destruct (test b); lia. Qed.

Lemma advance_advance i j st : advance i (advance j st) = advance (j + i) st.
Proof. unfold advance, set_pos. cbn. by rewrite Nat.add_assoc. Qed.
Lemma advance_0 st : advance 0 st = st.
Proof. unfold advance, set_pos. rewrite Nat.add_0_r. by destruct st. Qed.

Lemma run_length_S test st k : run_length test (rest_of st) = S k ->
  exists b, head (rest_of st) = Some b /\ test b = true /\ run_length test (rest_of (advance 1 st)) = k.
Proof.
  destruct (rest_cases st) as [[-> _]|(b & text & -> & _ & ->)]; cbn; [done|].
  destruct (test b) eqn:E; [|done]. intros [= <-]. eauto.
Qed.

(** One more repetition, or none *)
Lemma body_step item test st d k : byte_test item = Some test -> run_length test (rest_of st) = k -> (d + Nat.min 1 k <= MAX_RECURSION_DEPTH)%nat ->
  match_recursive [item] (at_depth d st) = match k with O => None | S _ => Some (at_depth (d + 2) (advance 1 st)) end.
Proof.
  intros Ht Hk Hd. cbn [match_recursive]. unfold enter at 1. cbn [recursion_depth at_depth].
  rewrite (proj2 (Nat.ltb_ge _ _)) by lia. rewrite (match_byte _ _ _ _ Ht). change (rest_of (deeper (at_depth d st))) with (rest_of st).
  destruct k as [|k].
  - destruct (rest_of st) as [|b text]; [done|]. cbn in Hk. by destruct (test b).
  - apply run_length_S in Hk as (b & Hb & Hp & _). destruct (rest_of st) as [|? text]; [done|]. injection Hb as ->. rewrite Hp.
    unfold enter. cbn [recursion_depth advance set_pos deeper at_depth].
    rewrite (proj2 (Nat.ltb_ge _ _)) by lia. f_equal.
    unfold at_depth, deeper, advance, set_pos. cbn. f_equal. lia.
Qed.

Lemma expand_run item test k : byte_test item = Some test -> forall fuel n cs d st, run_length test (rest_of st) = k ->
  (k < fuel)%nat -> (d + 2 * k <= MAX_RECURSION_DEPTH)%nat -> Z.of_nat (n + k) <= 10000 ->
  expand fuel (match_recursive [item]) n cs (at_depth d st) =
    Some (map (fun i => at_depth (d + 2 * i) (advance i st)) (rev (seq 1 k)) ++ cs).
Proof.
  intros Ht. induction k as [|k IH]; intros fuel n cs d st Hk Hf Hd Hn; (destruct fuel as [|fuel]; [lia|]); cbn [expand];
    rewrite (body_step _ _ _ _ _ Ht Hk) by lia; [done|].
  cbn [current_pos at_depth advance set_pos]. rewrite (proj2 (Nat.eqb_neq _ _)), (proj2 (Z.ltb_ge _ _)) by lia.
  apply run_length_S in Hk as (b & _ & _ & Hk).
  rewrite (IH fuel (S n) (at_depth (d + 2) (advance 1 st) :: cs) (d + 2)%nat (advance 1 st)) by (done || lia).
  f_equal. cbn [seq rev]. rewrite map_app, <- app_assoc. cbn [map app].
  replace (d + 2 * 1)%nat with (d + 2)%nat by lia. f_equal. rewrite !map_rev, <- (seq_shift k 1), map_map. f_equal.
  apply map_ext. intros i. rewrite advance_advance.
  by replace (d + 2 * S i)%nat with (d + 2 + 2 * i)%nat by lia.
Qed.

(** The first success over a list of starts *)
Lemma first_match_flat {A} m (f : A -> list State) (g : A -> State) is_ :
  (forall i, i ∈ is_ -> erase <$> m (g i) = head (f i)) ->
  erase <$> first_match m (map g is_) = head (flat_map f is_).
Proof.
  induction is_ as [|i is_ IH]; intros Hi; [done|]. pose proof (Hi i ltac:(set_solver)) as E. cbn [map first_match flat_map].
  destruct (m (g i)) as [final|], (f i) as [|s l]; try discriminate E; [exact E|]. apply IH. set_solver.
Qed.

Lemma enter_at m d st : (d <= MAX_RECURSION_DEPTH)%nat -> enter m (at_depth d st) = m (at_depth (S d) st).
Proof. intros Hd. unfold enter. cbn [recursion_depth at_depth]. by rewrite (proj2 (Nat.ltb_ge _ _)) by lia. Qed.

Section Quantifiers.
Context (item : Pat.t) (test : Z -> bool) (Ht : byte_test item = Some test) (m : matcher) (f : State -> list State).

(** What the rest of the pattern does after [i] repetitions *)
Definition goes_on (d k : nat) st : Prop := forall i, (i <= k)%nat ->
  erase <$> m (at_depth (d + 2 * i) (advance i st)) = head (f (advance i st)).

Lemma goes_on_S d k st : goes_on d (S k) st -> goes_on (d + 2) k (advance 1 st).
Proof.
  intros Hg i Hi. rewrite advance_advance. replace (d + 2 + 2 * i)%nat with (d + 2 * (1 + i))%nat by lia. apply Hg. lia.
Qed.

Lemma greedy_star d st k : run_length test (rest_of st) = k -> (d + 2 * k <= MAX_RECURSION_DEPTH)%nat -> goes_on d k st ->
  erase <$> match_greedy (match_recursive [item]) m (at_depth d st) 0 =
    head (flat_map (fun i => f (advance i st)) (rev (seq 0 (S k)))).
Proof.
  intros Hk Hd Hg. unfold match_greedy. cbn [repeat_minimum mbind option_bind].
  pose proof (run_length_le test (rest_of st)) as Hle. rewrite length_rest in Hle.
  rewrite (expand_run _ _ k Ht) by (done || unfold turns, MAX_RECURSION_DEPTH in *; cbn; lia). cbn [mbind option_bind].
  replace [at_depth d st] with (map (fun i => at_depth (d + 2 * i) (advance i st)) [0%nat])
    by (cbn; by rewrite Nat.add_0_r, advance_0).
  rewrite <- map_app. cbn [seq rev]. apply first_match_flat.
  intros i Hi. apply Hg. apply elem_of_app in Hi as [Hi|Hi%list_elem_of_singleton]; [|lia].
  rewrite list_elem_of_In, <- in_rev, in_seq in Hi. lia.
Qed.

Lemma greedy_plus d st k : run_length test (rest_of st) = k -> (d + 2 * k <= MAX_RECURSION_DEPTH)%nat -> goes_on d k st ->
  erase <$> match_greedy (match_recursive [item]) m (at_depth d st) 1 =
    head (flat_map (fun i => f (advance i st)) (rev (seq 1 k))).
Proof.
  intros Hk Hd Hg. unfold match_greedy. cbn [repeat_minimum]. rewrite (body_step _ _ _ _ _ Ht Hk) by lia.
  destruct k as [|k]; [done|]. cbn [mbind option_bind]. change (current_pos (at_depth (d + 2) (advance 1 st))) with (current_pos st + 1)%nat.
  change (current_pos (at_depth d st)) with (current_pos st).
  rewrite (proj2 (Nat.eqb_neq _ _)) by lia. apply run_length_S in Hk as (b & _ & _ & Hk).
  pose proof (greedy_star (d + 2) (advance 1 st) k Hk ltac:(lia) (goes_on_S _ _ _ Hg)) as E.
  unfold match_greedy in E. cbn [repeat_minimum mbind option_bind] in E. etrans; [exact E|]. f_equal.
  rewrite <- (seq_shift (S k) 0), <- map_rev, flat_map_concat_map, (flat_map_concat_map _ (map S _)), map_map. f_equal.
  apply map_ext. intros i. by rewrite advance_advance.
Qed.

Lemma non_greedy_run k : forall fuel d st, run_length test (rest_of st) = k -> (k < fuel)%nat ->
  (d + 2 * k <= MAX_RECURSION_DEPTH)%nat -> goes_on d k st ->
  erase <$> non_greedy_loop fuel (match_recursive [item]) m (at_depth d st) =
    head (flat_map (fun i => f (advance i st)) (seq 0 (S k))).
Proof.
  induction k as [|k IH]; intros fuel d st Hk Hf Hd Hg; (destruct fuel as [|fuel]; [lia|]); cbn [non_greedy_loop];
    pose proof (Hg 0%nat ltac:(lia)) as H0; rewrite Nat.mul_0_r, Nat.add_0_r, advance_0 in H0;
    rewrite <- cons_seq; cbn [flat_map]; rewrite advance_0;
    (destruct (m (at_depth d st)) as [final|], (f st) as [|s l]; try discriminate H0; [done|]);
    rewrite (body_step _ _ _ _ _ Ht Hk) by lia; [done|].
  cbn [mbind option_bind]. change (current_pos (at_depth (d + 2) (advance 1 st))) with (current_pos st + 1)%nat.
  change (current_pos (at_depth d st)) with (current_pos st).
  rewrite (proj2 (Nat.eqb_neq _ _)) by lia.
  apply run_length_S in Hk as (b & _ & _ & Hk).
  rewrite (IH fuel (d + 2)%nat (advance 1 st)) by (try done; try lia; by apply goes_on_S). f_equal. cbn [app].
  rewrite <- (seq_shift (S k) 0), flat_map_concat_map, (flat_map_concat_map _ (map S _)), map_map. f_equal.
  apply map_ext. intros i. by rewrite advance_advance.
Qed.

Lemma question_run d st k : run_length test (rest_of st) = k -> (d + 2 * Nat.min 1 k <= MAX_RECURSION_DEPTH)%nat -> goes_on d (Nat.min 1 k) st ->
  erase <$> match_question (match_recursive [item]) m (at_depth d st) =
    head (flat_map (fun i => f (advance i st)) (choices Quantifier.Question k)).
Proof.
  intros Hk Hd Hg. unfold match_question. rewrite (body_step _ _ _ _ _ Ht Hk) by lia.
  pose proof (Hg 0%nat ltac:(lia)) as E0. rewrite Nat.mul_0_r, Nat.add_0_r, advance_0 in E0.
  destruct k as [|k]; cbn [mbind option_bind choices Nat.eqb flat_map]; rewrite advance_0, app_nil_r; [done|].
  pose proof (Hg 1%nat ltac:(lia)) as E1. change (d + 2 * 1)%nat with (d + 2)%nat in E1.
  destruct (m (at_depth (d + 2) (advance 1 st))) as [final|], (f (advance 1 st)) as [|s l]; try discriminate E1; done.
Qed.
End Quantifiers.

Lemma cost_later node rest st st' : input st' = input st -> (current_pos st <= current_pos st')%nat ->
  (cost rest st' < cost (node :: rest) st)%nat.
Proof.
  intros Hi Hp. unfold cost. rewrite Hi. cbn [length existsb]. destruct (existsb _ rest), (is_quantified node); cbn [orb]; lia.
Qed.

Lemma cost_repeat body q rest st i : (i <= length (input st) - current_pos st)%nat ->
  (2 * i + cost rest (advance i st) < cost (Pat.Quantified body q :: rest) st)%nat.
Proof. intros Hi. unfold cost, advance. cbn [length existsb is_quantified orb input current_pos set_pos]. destruct (existsb _ rest); lia. Qed.

(** [erase] and [at_depth] commute with what the nodes do. *)
Lemma match_first pattern : Forall simple_node pattern -> forall st d, erase st = st ->
  (d + cost pattern st <= MAX_RECURSION_DEPTH)%nat ->
  erase <$> match_recursive pattern (at_depth d st) = head (successes pattern st).
Proof.
  induction 1 as [|node rest Hs _ IH]; intros st d He Hd.
  { cbn [match_recursive successes head]. rewrite enter_at by (unfold cost in Hd; lia). cbn [fmap option_fmap option_map]. f_equal. exact He. }
  cbn [match_recursive]. rewrite enter_at by (unfold cost in Hd; cbn [length] in Hd; lia).
  assert (Hrest : forall st', erase st' = st' -> input st' = input st -> (current_pos st <= current_pos st')%nat ->
      erase <$> match_recursive rest (at_depth (S d) st') = head (successes rest st')).
  { intros st' He' Hi Hp. apply IH; [done|]. pose proof (cost_later node rest st st' Hi Hp). lia. }
  destruct (byte_test node) as [test|] eqn:Ht.
  { rewrite (match_byte _ _ _ _ Ht). change (rest_of (at_depth (S d) st)) with (rest_of st).
    transitivity (head (match rest_of st with b :: _ => if test b then successes rest (advance 1 st) else [] | [] => [] end)).
    - destruct (rest_of st) as [|b text]; [done|]. destruct (test b); [|done].
      apply (Hrest (advance 1 st)); [by rewrite <- He|done|cbn; lia].
    - destruct node; try discriminate Ht; by injection Ht as <-. }
  destruct node as [e| |c ng|s|o cl|s| | |i|i| |body q]; try discriminate Ht; cbn [successes];
    lazymatch goal with |- context [Pat.Quantified] => idtac | |- _ => cbn [match_node]; unfold guard_ end.
  - unfold rest_of. change (current_byte (at_depth (S d) st)) with (current_byte st).
    change (current_pos (at_depth (S d) st)) with (current_pos st). change (input (at_depth (S d) st)) with (input st).
    destruct (rest_cases st) as [[Hr Hc]|(b & text & Hr & Hc & Htext)]; unfold rest_of in Hr; rewrite Hr, Hc; [done|].
    rewrite (drop_S _ _ _ Hc) in Hr. injection Hr as Htl. rewrite Htl.
    destruct (Z.eqb_spec b o) as [->|Hne]; [rewrite bool_decide_eq_true_2 by done|by rewrite bool_decide_eq_false_2 by congruence].
    destruct (find_close o cl 1 (S (current_pos st)) text) as [pos|] eqn:Ef; [|done]. apply find_close_range in Ef.
    apply (Hrest (set_pos pos st)); [by rewrite <- He|done|cbn; lia].
  - destruct (negb _ && _); [|done]. by apply Hrest.
  - destruct (_ =? _)%nat; [|done]. by apply Hrest.
  - destruct (_ =? _)%nat; [|done]. by apply Hrest.
  - apply (Hrest (capture_start i st)); [by rewrite <- He|done|cbn; lia].
  - unfold capture_end. change (capture_starts (at_depth (S d) st)) with (capture_starts st).
    destruct (mjoin (capture_starts st !! i)) as [a|]; [|done]. cbn [mbind option_bind].
    apply (Hrest (set_captures _ _ st)); [by rewrite <- He|done|cbn; lia].
  - done.
  - destruct Hs as (item & -> & [test Hi]). rewrite Hi.
    pose proof (run_length_le test (rest_of st)) as Hle. rewrite length_rest in Hle.
    set (k := run_length test (rest_of st)) in *.
    assert (Hgo : goes_on (match_recursive rest) (successes rest) (S d) k st).
    { intros i Hik. apply IH; [by rewrite <- He|]. pose proof (cost_repeat [item] q rest st i ltac:(lia)). lia. }
    assert (Hdepth : (S d + 2 * k <= MAX_RECURSION_DEPTH)%nat).
    { pose proof (cost_repeat [item] q rest st k ltac:(lia)). lia. }
    rewrite match_quantified. destruct q.
    + by apply (greedy_star item test Hi).
    + by apply (greedy_plus item test Hi).
    + apply (question_run item test Hi); [done|lia|]. intros i Hik. apply Hgo. lia.
    + apply (non_greedy_run item test Hi); [done| |lia|done]. unfold turns. cbn. lia.
Qed.

Lemma match_is_first_success_spec pattern text start : Forall simple_node pattern ->
  (cost pattern (Matcher.new text start) <= MAX_RECURSION_DEPTH)%nat ->
  erase <$> match_recursive pattern (Matcher.new text start) = head (successes pattern (Matcher.new text start)).
Proof. intros Hs Hc. exact (match_first pattern Hs (Matcher.new text start) 0 eq_refl Hc). Qed.

(** C34: the matcher backtracks as the language does.  For a pattern whose repeated items take
    one byte each, and a text short enough for the recursion limit, [match_recursive] gives
    the first state of all those that the pattern can lead to, in the order in which the
    language tries them: the longest repetition first for [*] and [+], one before none for
    [?], the shortest first for [-].  It gives none only if there is none. *)
Theorem match_is_first_success pattern text start : Forall simple_node pattern ->
  (cost pattern (Matcher.new text start) <= MAX_RECURSION_DEPTH)%nat ->
  erase <$> match_recursive pattern (Matcher.new text start) = head (successes pattern (Matcher.new text start)).
Proof. apply match_is_first_success_spec. Qed.

(** ** Searches *)

Lemma pattern_match_ok text pattern init : exists r, Pattern.pattern_match text pattern init = Ok r.
Proof.
  unfold Pattern.pattern_match. destruct (parse_pattern_ok pattern) as ([ast|e] & ->); rewrite outcome_bind_Ok; [|by eexists].
  pose proof (find_first_match_spec ast text _ (start_index_le (length text) init)) as Hm.
  destruct (Pattern.find_first_match ast text _) as [[r cs]|]; [|by eexists]. destruct Hm as (_ & Hin & Hcs & _).
  unfold Pattern.captures_or_all. destruct (made_ok text cs Hcs) as (vs & ->). rewrite outcome_bind_Ok.
  destruct vs; [erewrite text_at_in by done|]; by eexists.
Qed.

Lemma find_ok text pattern init plain : exists r, Pattern.find text pattern init plain = Ok r.
Proof.
  unfold Pattern.find. destruct plain; [by eexists|].
  destruct (parse_pattern_ok pattern) as ([ast|e] & ->); rewrite outcome_bind_Ok; [|by eexists].
  pose proof (find_first_match_spec ast text _ (start_index_le (length text) init)) as Hm.
  destruct (Pattern.find_first_match ast text _) as [[r cs]|]; [|by eexists]. destruct Hm as (_ & _ & Hcs & _).
  destruct (made_ok text cs Hcs) as (vs & ->). by eexists.
Qed.

(** Searches answer, within the text, with the leftmost match.  [find] and
    [pattern_match] return for every text, pattern and initial position: the pattern is
    parsed or refused, no index is out of bounds, no loop goes on.  From a start within the
    text, the search finds the first position where the pattern matches, only the start
    itself for an anchored pattern; the match and all captures lie in the text. *)
Theorem search_leftmost text pattern init plain :
  (exists r, Pattern.find text pattern init plain = Ok r) /\
  (exists r, Pattern.pattern_match text pattern init = Ok r) /\
  forall ast start, parse_pattern pattern = Ok (inl ast) -> (start <= length text)%nat ->
    match Pattern.find_first_match ast text start with
    | Some (r, cs) =>
        match_at (convert_ast ast) text r cs /\ in_text text start r /\
        (forall i r', cs !! i = Some (Some r') -> in_text text 0 r') /\
        (Pattern.anchored ast = true -> fst r = start) /\
        forall p, (start <= p < fst r)%nat -> match_recursive (convert_ast ast) (Matcher.new text p) = None
    | None =>
        forall p, (start <= p <= length text)%nat -> (Pattern.anchored ast = true -> p = start) ->
          match_recursive (convert_ast ast) (Matcher.new text p) = None
    end.
Proof.
  split; [apply find_ok|]. split; [apply pattern_match_ok|]. intros ast start _ Hs. by apply find_first_match_spec.
Qed.

(** ** Plain text *)

Definition escape (text : list Z) : list Z :=
  flat_map (fun b => if ByteLexer.is_escapable_magic_byte b then [b# "%"; b] else [b]) text.

Definition literal_token (b : Z) : Token.t :=
  if ByteLexer.is_escapable_magic_byte b then Token.EscapedLiteral b else Token.Literal b.

Lemma next_token_literal b rest : ByteLexer.next_token (ByteLexer.new (escape [b] ++ rest)) =
  (inl (Some (literal_token b)), ByteLexer.new rest).
Proof.
  unfold escape, literal_token. cbn [flat_map app]. destruct (ByteLexer.is_escapable_magic_byte b) eqn:Em; cbn [app].
  - change (ByteLexer.next_token (ByteLexer.new (b# "%" :: b :: rest))) with (ByteLexer.escape (ByteLexer.new (b :: rest))).
    unfold ByteLexer.escape. cbn [ByteLexer.input ByteLexer.new]. by rewrite Em.
  - unfold ByteLexer.is_escapable_magic_byte in Em. cbn [existsb] in Em. rewrite !orb_false_iff in Em.
    destruct_and!. unfold ByteLexer.next_token. cbn [ByteLexer.input ByteLexer.new ByteLexer.set_input].
    repeat match goal with E : (b =? _) = false |- _ => rewrite E; clear E end. done.
Qed.

Lemma escape_cons b text : escape (b :: text) = escape [b] ++ escape text.
Proof. unfold escape. cbn [flat_map]. by rewrite app_nil_r. Qed.

Lemma tokens_escape text fuel : (length (escape text) < fuel)%nat ->
  ByteLexer.tokens fuel (ByteLexer.new (escape text)) = Ok (inl (map literal_token text)).
Proof.
  revert fuel. induction text as [|b text IH]; intros fuel Hf; (destruct fuel as [|fuel]; [lia|]); [done|].
  rewrite escape_cons in *. cbn [ByteLexer.tokens map]. rewrite next_token_literal. rewrite length_app in Hf.
  assert (0 < length (escape [b]))%nat by (unfold escape; cbn [flat_map app]; destruct (ByteLexer.is_escapable_magic_byte b); cbn [app length]; lia).
  rewrite IH by lia. done.
Qed.

Lemma parse_literals text fuel c : (length text < fuel)%nat ->
  ByteParser.parse_sequence fuel None (ByteParser.mk (map literal_token text) c) =
    Ok (inl (map AstNode.Literal text), ByteParser.mk [] c).
Proof.
  revert fuel. induction text as [|b text IH]; intros fuel Hf; (destruct fuel as [|fuel]; [cbn in Hf; lia|]); [done|].
  cbn [map length] in *. cbn [ByteParser.parse_sequence].
  assert (Hitem : forall seq, ByteParser.parse_item seq (ByteParser.mk (literal_token b :: map literal_token text) c) =
    Ok (inl (AstNode.Literal b), ByteParser.mk (map literal_token text) c)).
  { intros seq. assert (Hbase : ByteParser.parse_base seq (ByteParser.mk (literal_token b :: map literal_token text) c) =
      Ok (inl (AstNode.Literal b), ByteParser.mk (map literal_token text) c)).
    { unfold literal_token. destruct (ByteLexer.is_escapable_magic_byte b) eqn:Em; [done|].
      unfold ByteParser.parse_base, ByteParser.bind, ByteParser.next. cbn.
      destruct (Z.eqb_spec b (b# ")")) as [->|]; [discriminate Em|]. destruct (Z.eqb_spec b (b# "]")) as [->|]; [discriminate Em|]. done. }
    unfold ByteParser.parse_item, ByteParser.bind at 1. rewrite Hbase, outcome_bind_Ok.
    destruct text as [|b' text]; [done|]. cbn [map]. unfold literal_token. by destruct (ByteLexer.is_escapable_magic_byte b'). }
  unfold ByteParser.bind at 1. cbn [ByteParser.peek mbind outcome_bind ByteParser.tokens head].
  rewrite !bool_decide_eq_false_2 by done. cbn [orb]. unfold ByteParser.bind at 1. rewrite Hitem, outcome_bind_Ok.
  unfold ByteParser.bind. rewrite IH by lia. done.
Qed.

Lemma parse_escape text : parse_pattern (escape text) = Ok (inl (map AstNode.Literal text)).
Proof.
  unfold parse_pattern, ByteParser.new. rewrite tokens_escape by lia. rewrite !outcome_bind_Ok.
  unfold ByteParser.parse, ByteParser.bind at 1. cbn [ByteParser.tokens].
  rewrite parse_literals by (rewrite length_map; lia). done.
Qed.

Lemma successes_literals pattern st : successes (map Pat.Literal pattern) st =
  if bool_decide (take (length pattern) (rest_of st) = pattern) then [advance (length pattern) st] else [].
Proof.
  revert st. induction pattern as [|b pattern IH]; intros st; [by rewrite advance_0|]. cbn [map successes byte_test length].
  destruct (rest_cases st) as [[-> _]|(b' & text & -> & _ & ->)]; [done|]. cbn [take].
  destruct (Z.eqb_spec b b') as [->|Hne]; [|by rewrite bool_decide_eq_false_2 by congruence].
  rewrite IH, advance_advance. do 2 case_bool_decide; done || congruence.
Qed.

Lemma literals_simple pattern : Forall simple_node (map Pat.Literal pattern).
Proof. induction pattern; by constructor. Qed.

Lemma literals_cost pattern st : cost (map Pat.Literal pattern) st = length pattern.
Proof.
  unfold cost. rewrite length_map. assert (existsb is_quantified (map Pat.Literal pattern) = false) as -> by by induction pattern. lia.
Qed.

Lemma position_drop pattern text start b : text !! start = Some b ->
  Pattern.position pattern (drop start text) =
    if bool_decide (take (length pattern) (drop start text) = pattern) then Some 0%nat
    else S <$> Pattern.position pattern (drop (S start) text).
Proof.
  intros Hb. rewrite (drop_S _ _ _ Hb). cbn [Pattern.position].
  destruct (Nat.ltb_spec (length (b :: drop (S start) text)) (length pattern)) as [Hlt|]; [|done].
  rewrite bool_decide_eq_false_2; [|intros E; apply (f_equal length) in E; rewrite length_take in E; lia].
  destruct (drop (S start) text) as [|b' rest]; cbn [Pattern.position] in *; cbn [length] in *;
    (rewrite (proj2 (Nat.ltb_lt _ _)) by lia; done).
Qed.

Definition no_captures : list (option range) := replicate LUA_MAXCAPTURES None.

Lemma made_none text : Pattern.made text no_captures = Ok [].
Proof. unfold no_captures. by induction LUA_MAXCAPTURES. Qed.

Lemma match_literals pattern text start : (length pattern <= MAX_RECURSION_DEPTH)%nat ->
  match_recursive (map Pat.Literal pattern) (Matcher.new text start) =
    if bool_decide (take (length pattern) (drop start text) = pattern)
    then Some (at_depth (S (length pattern)) (advance (length pattern) (Matcher.new text start))) else None.
Proof.
  intros Hl. enough (Hd : forall d st, (d + length pattern <= MAX_RECURSION_DEPTH)%nat ->
    match_recursive (map Pat.Literal pattern) (at_depth d st) =
      if bool_decide (take (length pattern) (rest_of st) = pattern)
      then Some (at_depth (S (d + length pattern)) (advance (length pattern) st)) else None) by exact (Hd 0%nat (Matcher.new text start) Hl).
  clear Hl. induction pattern as [|b pattern IH]; intros d st Hl; cbn [map match_recursive length] in *; rewrite enter_at by lia.
  { rewrite advance_0, Nat.add_0_r. done. }
  erewrite match_byte by reflexivity. change (rest_of (at_depth (S d) st)) with (rest_of st).
  destruct (rest_cases st) as [[-> _]|(b' & rest & -> & _ & ->)]; [done|]. cbn [take].
  destruct (Z.eqb_spec b b') as [->|Hne]; [|by rewrite bool_decide_eq_false_2 by congruence].
  change (advance 1 (at_depth (S d) st)) with (at_depth (S d) (advance 1 st)). rewrite IH by lia.
  rewrite advance_advance. replace (S d + length pattern)%nat with (d + S (length pattern))%nat by lia.
  do 2 case_bool_decide; done || congruence.
Qed.

Lemma convert_literals pattern : convert_ast (map AstNode.Literal pattern) = map Pat.Literal pattern.
Proof. induction pattern as [|b pattern IH]; [done|]. cbn. by f_equal. Qed.

Lemma search_literals pattern text count start start_index : (length pattern <= MAX_RECURSION_DEPTH)%nat ->
  (count + start = S (length text))%nat ->
  Pattern.search_from count (map AstNode.Literal pattern) (map Pat.Literal pattern) text start_index start =
    (fun r => ((start + r, start + r + length pattern)%nat, no_captures)) <$>
      (if (length text <? start)%nat then None else Pattern.position pattern (drop start text)).
Proof.
  intros Hl. revert start. induction count as [|count IH]; intros start Hc; cbn [Pattern.search_from].
  { by rewrite (proj2 (Nat.ltb_lt _ _)) by lia. }
  rewrite (proj2 (Nat.ltb_ge _ _)) by lia. rewrite match_literals by done.
  assert (Hanch : Pattern.anchored (map AstNode.Literal pattern) = false) by by destruct pattern. rewrite Hanch. cbn [andb].
  destruct (text !! start) as [b|] eqn:Hb.
  - rewrite (position_drop _ _ _ _ Hb). pose proof (lookup_lt_Some _ _ _ Hb). case_bool_decide.
    + cbn [fmap option_fmap option_map]. by rewrite Nat.add_0_r.
    + rewrite IH, (proj2 (Nat.ltb_ge _ _)) by lia. destruct (Pattern.position _ _) as [r|]; [|done].
      cbn [fmap option_fmap option_map]. do 3 f_equal; lia.
  - apply lookup_ge_None in Hb. rewrite drop_ge by lia. assert (count = 0)%nat as -> by lia.
    destruct pattern as [|b pattern]; [|done]. cbn. rewrite bool_decide_eq_true_2 by done. cbn. by rewrite !Nat.add_0_r.
Qed.

(** An escaped text is searched for as it is.  With the bytes that mean something in a
    pattern escaped by [%], [string.find] gives for every text and initial position what its
    plain search gives, as long as the searched text is no longer than the recursion limit. *)
Theorem find_escaped text pattern init : (length pattern <= MAX_RECURSION_DEPTH)%nat ->
  Pattern.find text (escape pattern) init false = Pattern.find text pattern init true.
Proof.
  intros Hl. unfold Pattern.find. rewrite parse_escape, outcome_bind_Ok.
  set (start := Pattern.calculate_start_index (length text) init).
  pose proof (start_index_le (length text) init) as Hs. fold start in Hs. unfold Pattern.find_first_match.
  rewrite convert_literals, search_literals, (proj2 (Nat.ltb_ge _ _)) by (done || lia).
  unfold Pattern.find_plain. destruct pattern as [|b pattern].
  - assert (Pattern.position [] (drop start text) = Some 0%nat) as -> by by destruct (drop start text).
    cbn [fmap option_fmap option_map length fst snd]. by rewrite made_none, !Nat.add_0_r.
  - destruct (Nat.leb_spec (length text) start).
    + by rewrite drop_ge by lia.
    + destruct (Pattern.position _ _) as [r|]; [|done]. cbn [fmap option_fmap option_map mbind option_bind].
      by rewrite made_none.
Qed.

(** ** The limit of repetitions *)

Lemma expand_limit item test k : byte_test item = Some test -> forall fuel n cs d st,
  (k <= run_length test (rest_of st))%nat -> (k < fuel)%nat -> (d + 2 * k = S MAX_RECURSION_DEPTH)%nat -> Z.of_nat (n + k) <= 10000 ->
  expand fuel (match_recursive [item]) n cs (at_depth d st) =
    Some (map (fun i => at_depth (d + 2 * i) (advance i st)) (rev (seq 1 k)) ++ cs).
Proof.
  intros Ht. induction k as [|k IH]; intros fuel n cs d st Hk Hf Hd Hn; (destruct fuel as [|fuel]; [lia|]); cbn [expand].
  - cbn [match_recursive]. unfold enter. cbn [recursion_depth at_depth]. by rewrite (proj2 (Nat.ltb_lt _ _)) by lia.
  - rewrite (body_step _ _ _ _ _ Ht eq_refl) by lia. destruct (run_length test (rest_of st)) as [|j] eqn:Hj; [lia|].
    change (current_pos (at_depth (d + 2) (advance 1 st))) with (current_pos st + 1)%nat.
    change (current_pos (at_depth d st)) with (current_pos st).
    rewrite (proj2 (Nat.eqb_neq _ _)), (proj2 (Z.ltb_ge _ _)) by lia. apply run_length_S in Hj as (b & _ & _ & Hj).
    rewrite (IH fuel (S n) (at_depth (d + 2) (advance 1 st) :: cs) (d + 2)%nat (advance 1 st)) by lia.
    f_equal. cbn [seq rev]. rewrite map_app, <- app_assoc. cbn [map app].
    replace (d + 2 * 1)%nat with (d + 2)%nat by lia. f_equal. rewrite !map_rev, <- (seq_shift k 1), map_map. f_equal.
    apply map_ext. intros i. rewrite advance_advance. by replace (d + 2 * S i)%nat with (d + 2 + 2 * i)%nat by lia.
Qed.

Lemma run_length_all test n b : test b = true -> run_length test (replicate n b) = n.
Proof. intros Hb. induction n as [|n IH]; cbn; [done|]. by rewrite Hb, IH. Qed.

Lemma run_limit n : (250 <= n)%nat ->
  match_recursive [Pat.Quantified [Pat.Literal (b# "a")] Quantifier.Star] (Matcher.new (replicate n (b# "a")) 0) =
    Some (at_depth 500 (advance 249 (Matcher.new (replicate n (b# "a")) 0))).
Proof.
  intros Hn. set (st := Matcher.new (replicate n (b# "a")) 0). cbn [match_recursive]. change st with (at_depth 0 st) at 1.
  rewrite enter_at by (unfold MAX_RECURSION_DEPTH; lia). rewrite match_quantified. unfold match_greedy. cbn [repeat_minimum mbind option_bind].
  assert (Hrun : run_length (Z.eqb (b# "a")) (rest_of st) = n) by by apply run_length_all.
  rewrite (expand_limit _ (Z.eqb (b# "a")) 250); [|done|rewrite Hrun; lia|unfold turns; cbn; rewrite length_replicate; lia|done|lia].
  cbn [mbind option_bind]. rewrite (seq_S 249), (seq_S 248), !rev_app_distr. cbn [rev app map first_match].
  unfold enter at 1. cbn [recursion_depth at_depth]. rewrite (proj2 (Nat.ltb_lt _ _)) by (unfold MAX_RECURSION_DEPTH; lia).
  by rewrite enter_at by (unfold MAX_RECURSION_DEPTH; lia).
Qed.

(** A repetition stops at 249 bytes.  Each repetition takes two levels of the recursion
    limit that are not given back, so that a greedy match of a longer run of one byte gives
    its first 249 bytes only, where the language gives the run. *)
Theorem repetition_limit n : (250 <= n)%nat ->
  Pattern.pattern_match (replicate n (b# "a")) (bs# "a*") None = Ok (inl (Some [replicate 249 (b# "a")])).
Proof.
  intros Hn. unfold Pattern.pattern_match.
  assert (parse_pattern (bs# "a*") = Ok (inl [AstNode.Quantified (AstNode.Literal (b# "a")) Quantifier.Star])) as -> by reflexivity.
  rewrite outcome_bind_Ok. unfold Pattern.find_first_match. rewrite length_replicate, Nat.sub_0_r. cbn [Pattern.search_from convert_ast flat_map app convert_single].
  rewrite run_limit by done. cbn [captures at_depth advance set_pos Matcher.new]. unfold Pattern.captures_or_all. fold no_captures.
  rewrite made_none, outcome_bind_Ok. unfold Pattern.text_at. cbn [fst snd current_pos].
  change (Pattern.calculate_start_index n None) with 0%nat.
  change (current_pos (at_depth 500 (advance 249 (Matcher.new (replicate n (b# "a")) 0)))) with 249%nat.
  rewrite SliceFacts.slice_in by (rewrite ?length_replicate; lia). rewrite Nat.sub_0_r, drop_0, take_replicate.
  by replace (249 `min` n)%nat with 249%nat by lia.
Qed.

(** ** Trimming *)

Definition trim_pattern : list Z := bs# "^%s*(.-)%s*$".
Definition spaces : Pat.t := Pat.Quantified [Pat.Class_ (b# "s") false] Quantifier.Star.
Definition trim_flat : list Pat.t :=
  [Pat.AnchorStart; spaces; Pat.CaptureStart 0; Pat.Quantified [Pat.Any] Quantifier.Minus; Pat.CaptureEnd 0; spaces; Pat.AnchorEnd].

Lemma parse_trim (L : Lsonar) : (1 <= LUA_MAXCAPTURES)%nat -> exists ast, parse_pattern trim_pattern = Ok (inl ast) /\
  Pattern.anchored ast = true /\ convert_ast ast = [Pat.AnchorStart; Pat.Quantified [Pat.Class_ (b# "s") false] Quantifier.Star;
    Pat.CaptureStart 0; Pat.Quantified [Pat.Any] Quantifier.Minus; Pat.CaptureEnd 0;
    Pat.Quantified [Pat.Class_ (b# "s") false] Quantifier.Star; Pat.AnchorEnd].
Proof.
  intros Hc. exists [AstNode.AnchorStart; AstNode.Quantified (AstNode.Class_ (b# "s") false) Quantifier.Star;
    AstNode.Capture 1 [AstNode.Quantified AstNode.Any Quantifier.Minus];
    AstNode.Quantified (AstNode.Class_ (b# "s") false) Quantifier.Star; AstNode.AnchorEnd].
  split; [|done]. destruct L as [CS SE new inv ab ac ar cc [|captures]]; [cbn in Hc; lia|]. reflexivity.
Qed.

Lemma trim_simple : Forall simple_node trim_flat.
Proof. repeat constructor; cbn; eauto. Qed.

Lemma run_length_app test pre post : Forall (fun b => test b = true) pre ->
  (forall b, head post = Some b -> test b = false) -> run_length test (pre ++ post) = length pre.
Proof.
  intros Hpre Hpost. induction Hpre as [|b pre Hb _ IH]; cbn; [|by rewrite Hb, IH].
  destruct post as [|b post]; [done|]. cbn. by rewrite (Hpost b).
Qed.

Lemma run_length_any l : run_length (fun _ => true) l = length l.
Proof. induction l; cbn; congruence. Qed.

Lemma head_flat_map {A B} (f : A -> list B) l i a pre post : l = pre ++ i :: post -> (forall j, j ∈ pre -> f j = []) ->
  head (f i) = Some a -> head (flat_map f l) = Some a.
Proof.
  intros -> Hpre Hi. rewrite flat_map_app. assert (flat_map f pre = []) as ->.
  { induction pre as [|j pre IH]; cbn; [done|]. rewrite Hpre by set_solver. apply IH. set_solver. }
  cbn. by destruct (f i).
Qed.

(** The last run of spaces reaches the end of the text only from spaces. *)
Lemma to_end_fails st : ~ Forall (fun b => is_ascii_whitespace b = true) (rest_of st) ->
  successes [spaces; Pat.AnchorEnd] st = [].
Proof.
  intros Hno. unfold spaces. cbn [successes byte_test]. set (k := run_length _ (rest_of st)).
  assert (Hk : (k < length (rest_of st))%nat).
  { subst k. revert Hno. generalize (rest_of st). intros l. induction l as [|b l IH]; [intros []; constructor|].
    cbn [run_length length]. destruct (xorb _ _) eqn:E; [|lia]. intros Hno. apply (proj1 (Nat.succ_lt_mono _ _)), IH.
    intros Hl. apply Hno. constructor; [|done]. by rewrite xorb_false_r in E. }
  rewrite length_rest in Hk. cbn [choices].
  assert (Hall : forall is_, (forall i, i ∈ is_ -> (i <= k)%nat) -> flat_map (fun i =>
    if (current_pos (advance i st) =? length (input (advance i st)))%nat then [advance i st] else []) is_ = []).
  { induction is_ as [|i is_ IH]; intros Hi; [done|]. cbn [flat_map]. rewrite IH by set_solver.
    specialize (Hi i ltac:(set_solver)). cbn [current_pos input advance set_pos]. by rewrite (proj2 (Nat.eqb_neq _ _)) by lia. }
  apply Hall. intros i Hi. rewrite list_elem_of_In, <- in_rev, in_seq in Hi. lia.
Qed.

Lemma to_end_ok st : Forall (fun b => is_ascii_whitespace b = true) (rest_of st) -> (current_pos st <= length (input st))%nat ->
  head (successes [spaces; Pat.AnchorEnd] st) = Some (advance (length (rest_of st)) st).
Proof.
  intros Hs Hp. unfold spaces. cbn [successes byte_test choices].
  assert (run_length (fun b => xorb (class_matches 115 b) false) (rest_of st) = length (rest_of st)) as ->.
  { rewrite <- (app_nil_r (rest_of st)) at 1. apply run_length_app; [|done]. eapply Forall_impl; [exact Hs|].
    intros b Hb. by rewrite xorb_false_r. }
  rewrite seq_S, rev_app_distr. cbn [rev app flat_map Nat.add]. rewrite length_rest. cbn [current_pos input advance set_pos].
  rewrite (proj2 (Nat.eqb_eq _ _)) by lia. done.
Qed.

Definition trimmed (st : State) (pre mid : list Z) : State :=
  set_captures (<[0%nat := Some (length pre, (length pre + length mid)%nat)]> (captures st))
    (<[0%nat := Some (length pre)]> (capture_starts st)) (set_pos (length (input st)) st).

Lemma trim_successes pre mid post : (1 <= LUA_MAXCAPTURES)%nat ->
  Forall (fun b => is_ascii_whitespace b = true) pre -> Forall (fun b => is_ascii_whitespace b = true) post ->
  (forall b, head mid = Some b -> is_ascii_whitespace b = false) ->
  (forall b, last mid = Some b -> is_ascii_whitespace b = false) -> (mid = [] -> post = []) ->
  let st := Matcher.new (pre ++ mid ++ post) 0 in
  head (successes trim_flat st) = Some (trimmed st pre mid).
Proof.
  intros Hc Hpre Hpost Hhead Hlast Hnil st. unfold trim_flat, spaces at 1. cbn [successes byte_test].
  change (current_pos st =? search_start_pos st)%nat with true. cbn match.
  assert (run_length (fun b => xorb (class_matches 115 b) false) (rest_of st) = length pre) as ->.
  { apply run_length_app; [eapply Forall_impl; [exact Hpre|]; intros b Hb; by rewrite xorb_false_r|].
    intros b Hb. rewrite xorb_false_r. apply Hhead. destruct mid; [by rewrite (Hnil eq_refl) in Hb|done]. }
  cbn [choices]. eapply (head_flat_map _ _ (length pre) _ []); [rewrite seq_S, rev_app_distr; reflexivity|set_solver|].
  set (st1 := capture_start 0 (advance (length pre) st)).
  assert (Hrest : rest_of st1 = mid ++ post) by apply drop_app_length.
  rewrite run_length_any, Hrest, length_app.
  assert (Hdrop : forall j, drop (0 + length pre + j) (pre ++ mid ++ post) = drop j (mid ++ post)).
  { intros j. rewrite Nat.add_0_l, <- drop_drop, drop_app_length. done. }
  assert (Hstart : forall j, capture_end 0 (advance j st1) =
    Some (set_captures (<[0%nat := Some (length pre, length pre + j)%nat]> (captures st1)) (capture_starts st1) (advance j st1))).
  { intros j. unfold capture_end. replace (mjoin (capture_starts (advance j st1) !! 0%nat)) with (Some (length pre)); [done|].
    cbn. destruct LUA_MAXCAPTURES; [lia|done]. }
  eapply (head_flat_map _ _ (length mid) _ (seq 0 (length mid)) (seq (S (length mid)) (length post))).
  { rewrite <- Nat.add_succ_r, seq_app. done. }
  - intros j Hj. rewrite list_elem_of_In, in_seq in Hj. rewrite Hstart.
    apply to_end_fails. unfold rest_of. cbn [current_pos input set_captures advance set_pos st1 capture_start st Matcher.new].
    rewrite Hdrop. destruct (last mid) as [b|] eqn:Hb; [|apply last_None in Hb; subst; cbn in Hj; lia].
    apply last_Some in Hb as Hb'. destruct Hb' as [l ->]. rewrite <- app_assoc, drop_app_le by (rewrite length_app in Hj; cbn in Hj; lia).
    rewrite !Forall_app, Forall_cons. intros (_ & (Hws & _) & _). specialize (Hlast b eq_refl). congruence.
  - rewrite Hstart. set (st2 := set_captures _ _ _).
    assert (Hrest2 : rest_of st2 = post).
    { unfold rest_of. cbn [current_pos input set_captures advance set_pos st1 st2 capture_start st Matcher.new].
      by rewrite Hdrop, drop_app_length. }
    etrans; [apply (to_end_ok st2); [by rewrite Hrest2|cbn; rewrite !length_app; lia]|]. rewrite Hrest2. f_equal. unfold trimmed, st2, advance, set_captures, set_pos.
    cbn. rewrite !length_app, !list_insert_insert_eq. f_equal. lia.
Qed.

(** The trimming idiom trims.  [^%s*(.-)%s*$] captures of every text, up to the length
    that the recursion limit allows, all but the white space at its ends. *)
Theorem trim_idiom pre mid post : (1 <= LUA_MAXCAPTURES)%nat ->
  Forall (fun b => is_ascii_whitespace b = true) pre -> Forall (fun b => is_ascii_whitespace b = true) post ->
  (forall b, head mid = Some b -> is_ascii_whitespace b = false) ->
  (forall b, last mid = Some b -> is_ascii_whitespace b = false) -> (mid = [] -> post = []) ->
  (length (pre ++ mid ++ post) <= 246)%nat ->
  Pattern.pattern_match (pre ++ mid ++ post) trim_pattern None = Ok (inl (Some [mid])).
Proof.
  intros Hc Hpre Hpost Hhead Hlast Hnil Hlen. set (text := pre ++ mid ++ post) in *.
  destruct (parse_trim _ Hc) as (ast & Hparse & Hanch & Hflat).
  unfold Pattern.pattern_match. rewrite Hparse, outcome_bind_Ok. change (Pattern.calculate_start_index _ None) with 0%nat.
  pose proof (match_is_first_success_spec trim_flat text 0 trim_simple ltac:(unfold cost; cbn; unfold MAX_RECURSION_DEPTH; lia)) as Hm.
  pose proof (trim_successes pre mid post Hc Hpre Hpost Hhead Hlast Hnil) as Hsucc. fold text in Hsucc. cbv zeta in Hsucc.
  rewrite Hsucc in Hm. unfold Pattern.find_first_match. rewrite Hflat, Nat.sub_0_r. fold trim_flat. cbn [Pattern.search_from].
  fold spaces. fold trim_flat. destruct (match_recursive trim_flat (Matcher.new text 0)) as [final|]; [|discriminate Hm].
  pose proof (f_equal (fmap captures) Hm) as Hcap. injection Hcap as Hcap. cbn [captures erase at_depth trimmed set_captures Matcher.new] in Hcap.
  unfold Pattern.captures_or_all. rewrite Hcap. destruct LUA_MAXCAPTURES as [|n] eqn:En; [lia|].
  cbn [captures set_pos Matcher.new]. cbn [replicate]. change (<[0%nat:=?x]> (?y :: ?l)) with (x :: l). cbn [Pattern.made].
  assert (Hn : Pattern.made text (replicate n None) = Ok []) by (clear; induction n as [|n IH]; [done|exact IH]).
  rewrite (text_at_in text (length pre, (length pre + length mid)%nat) 0), outcome_bind_Ok, Hn by (unfold in_text, text; cbn [fst snd]; rewrite !length_app; lia).
  cbn [fst snd mbind outcome_bind]. unfold text. rewrite drop_app_length. replace (length pre + length mid - length pre)%nat with (length mid) by lia.
  by rewrite take_app_length.
Qed.
End Theorems.

(** ** Character sets to try them with *)
Section witnesses.
#[local] Instance sample_lsonar : Lsonar := {|
  CharSet := Z -> bool;
  SetError := Empty_set;
  charset_new := fun _ => false;
  invert := fun s b => negb (s b);
  add_byte := fun c s b => (b =? c) || s b;
  add_class := fun c s => inl (fun b => class_matches c b || s b);
  add_range := fun first last s => inl (fun b => between first last b || s b);
  charset_contains := fun s b => s b;
  LUA_MAXCAPTURES := 32
|}.

(** [a*ab] in [aab]: one repetition, not two *)
Lemma match_is_first_success_witness :
  let pattern := [Pat.Quantified [Pat.Literal (b# "a")] Quantifier.Star; Pat.Literal (b# "a"); Pat.Literal (b# "b")] in
  current_pos <$> head (successes pattern (Matcher.new (bs# "aab") 0)) = Some 3%nat /\
  erase <$> match_recursive pattern (Matcher.new (bs# "aab") 0) = head (successes pattern (Matcher.new (bs# "aab") 0)).
Proof.
  intros pattern. split; [reflexivity|]. apply match_is_first_success.
  - repeat constructor. exists (Pat.Literal (b# "a")). split; [reflexivity|]. by eexists.
  - unfold cost, MAX_RECURSION_DEPTH. cbn. lia.
Defined.

Lemma search_leftmost_witness :
  Pattern.find_first_match [AstNode.Literal (b# "b")] (bs# "abb") 0 = Some ((1, 2)%nat, replicate 32 None) /\
  match_recursive [Pat.Literal (b# "b")] (Matcher.new (bs# "abb") 0) = None.
Proof.
  split; [reflexivity|].
  destruct (search_leftmost (bs# "abb") (bs# "b") None false) as (_ & _ & Hs).
  specialize (Hs [AstNode.Literal (b# "b")] 0%nat eq_refl ltac:(cbn; lia)).
  destruct Hs as (_ & _ & _ & _ & Hleft). apply (Hleft 0%nat). cbn. lia.
Defined.

Lemma find_escaped_witness :
  Pattern.find (bs# "f(x)=1.5") (escape (bs# "1.5")) (Some 2) false = Pattern.find (bs# "f(x)=1.5") (bs# "1.5") (Some 2) true /\
  Pattern.find (bs# "f(x)=1.5") (bs# "1.5") (Some 2) true = Ok (inl (Some (6, 8, [])%nat)).
Proof. split; [apply find_escaped; unfold MAX_RECURSION_DEPTH; cbn; lia|reflexivity]. Defined.

Lemma trim_idiom_witness :
  Pattern.pattern_match (bs# "  a b ") trim_pattern None = Ok (inl (Some [bs# "a b"])).
Proof.
  refine (trim_idiom (bs# "  ") (bs# "a b") (bs# " ") _ _ _ _ _ _ _); try (cbn; lia); try done.
  - by repeat constructor.
  - by repeat constructor.
  - by intros b [= <-].
  - by intros b [= <-].
Defined.

Lemma repetition_limit_witness : (250 <= 1000)%nat /\
  Pattern.pattern_match (replicate 1000 (b# "a")) (bs# "a*") None = Ok (inl (Some [replicate 249 (b# "a")])).
Proof. split; [lia|]. apply (repetition_limit 1000). lia. Defined.
End witnesses.
End PatternTheorems.
