(* ===== verification/Gsub.v ===== *)
(** * [string.gmatch] and [string.gsub]: [stdlib/string/patterns.rs]

    The iterator of [gmatch], the replacement string, and [gsub] as a sequence that is polled
    until it is done, its output checked against the ceiling of [stdlib/sandbox.rs] and the
    memory quota, its work charged as fuel. *)

From S2P Require Import Prelude Float64 StringUtils Slices Constant Value Limits RawTable Table Pattern.

(** ** [sandbox.rs] *)
Module Sandbox.
Definition FUEL_PER_OUTPUT_BYTE : Z := 1.
Definition FUEL_PER_SCANNED_BYTE : Z := 1.
Definition FUEL_PER_PATTERN_ATTEMPT : Z := 16.
Definition MIN_WORK_BATCH : Z := 1024.
Definition MAX_STDLIB_STRING_BYTES : Z := 16 * 1024 * 1024.

Definition checked_output_growth (total additional : Z) : option Z :=
  value ← checked usize (total + additional);
  if value <=? MAX_STDLIB_STRING_BYTES then Some value else None.
Definition scanned_cost (len : Z) : Z := Fuel.count_fuel FUEL_PER_SCANNED_BYTE len.
Definition output_cost (len : Z) : Z := Fuel.count_fuel FUEL_PER_OUTPUT_BYTE len.
Definition count_pattern_attempts (attempts : Z) : Z := Fuel.count_fuel FUEL_PER_PATTERN_ATTEMPT attempts.
Definition work_batch (f : Fuel.t) (per_item : Z) : Z :=
  let budget := Z.max 0 (Fuel.remaining f) in
  Z.max (budget / Z.max 1 per_item) MIN_WORK_BATCH.
End Sandbox.

Definition len_z (s : list Z) : Z := Z.of_nat (length s).

(** ** [GMatchInner] *)
Module GMatch.
Section GMatch.
Context `{BuildProfile} `{Lsonar}.

Record t : Type := mk {
  bytes : list Z;
  pattern_ast : list AstNode.t;
  current_pos : nat;
  is_empty_pattern : bool;
  prepaid_until : nat
}.

(** [(-i) as usize] overflows on the least integer. *)
Definition start_pos (text_len : nat) (init : option Z) : outcome nat :=
  match init with
  | Some i =>
      if 0 <? i then
        let idx := Z.to_nat (i - 1) in
        Ok (if (text_len <? idx)%nat then S text_len else idx)
      else if i <? 0 then
        abs_i ← arith i64 (- i);
        let abs_i := Z.to_nat (wrap usize abs_i) in
        Ok (if (text_len <? abs_i)%nat then 0%nat else (text_len - abs_i)%nat)
      else Ok 0%nat
  | None => Ok 0%nat
  end.

Definition new (text pattern : list Z) (init : option Z) : outcome (t + PatternError.t) :=
  let empty := match pattern with [] => true | _ => false end in
  ast ← (if empty then Ok (inl []) else parse_pattern pattern);
  match ast with
  | inl ast => pos ← start_pos (length text) init; Ok (inl (mk text ast pos empty pos))
  | inr e => Ok (inr e)
  end.

Definition set_pos (pos : nat) (g : t) : t :=
  mk (bytes g) (pattern_ast g) pos (is_empty_pattern g) (prepaid_until g).

(** The captures of the next match; the search itself never fails. *)
Definition next (g : t) : outcome (option (list (list Z)) * t) :=
  if (length (bytes g) <? current_pos g)%nat then Ok (None, g)
  else if is_empty_pattern g then Ok (Some [[]], set_pos (S (current_pos g)) g)
  else
    match Pattern.find_first_match (pattern_ast g) (bytes g) (current_pos g) with
    | Some (r, cs) =>
        let empty := (fst r =? snd r)%nat in
        let g := set_pos (if empty then S (snd r) else snd r) g in
        if empty && (length (bytes g) <? current_pos g)%nat then Ok (None, g)
        else result ← Pattern.captures_or_all (bytes g) r cs; Ok (Some result, g)
    | None => Ok (None, g)
    end.

Definition unpaid_window (g : t) : nat := (length (bytes g) - prepaid_until g)%nat.
Definition mark_prepaid (g : t) : t :=
  mk (bytes g) (pattern_ast g) (current_pos g) (is_empty_pattern g) (length (bytes g)).

(** All matches, at most [fuel] *)
Fixpoint all (fuel : nat) (g : t) : outcome (list (list (list Z))) :=
  match fuel with
  | O => Ok []
  | S fuel =>
      '(r, g) ← next g;
      match r with
      | Some m => ms ← all fuel g; Ok (m :: ms)
      | None => Ok []
      end
  end.
End GMatch.
End GMatch.

(** ** [gsub] *)
Module GsubError.
Inductive t `{Lsonar} : Type :=
  | TooLarge
  | OutOfMemory (e : Memory.OutOfMemory)
  | InvalidUseOfPercent
  | InvalidCaptureIndex (d : Z)
  | InvalidReplacementValue (type_name : String.string)
  | FunctionReplacement
  | BadArgument (type_name : String.string)
  | OfPattern (e : PatternError.t).
End GsubError.

Module Gsub.
Section Gsub.
Context `{BuildProfile} `{Lsonar} {S : Type} `{AsBytes S} `{StringAddress S} `{Platform S} `{Interning S} `{DisplayFloat}.

Inductive ReplMode : Type :=
  | String_ (bytes : list Z)
  | Table_ (t : obj).

Record t : Type := mk {
  text_bytes : list Z;
  pattern_ast : list AstNode.t;
  repl : ReplMode;
  max_replacements : Z;
  last_pos : nat;
  prepaid_until : nat;
  replacements : Z;
  result : list Z
}.

(** *** The replacement string *)

Definition push_replacement (out chunk : list Z) : list Z + GsubError.t :=
  match Sandbox.checked_output_growth (len_z out) (len_z chunk) with
  | Some _ => inl (out ++ chunk)
  | None => inr GsubError.TooLarge
  end.

(** What [%d] stands for *)
Definition directive (d : Z) (full_match : list Z) (captures : list (list Z)) : list Z + GsubError.t :=
  if d =? b# "%" then inl [b# "%"]
  else if d =? b# "0" then inl full_match
  else if (b# "1" <=? d) && (d <=? b# "9") then
    let idx := Z.to_nat (d - b# "1") in
    match captures with
    | [] => if d =? b# "1" then inl full_match else inr (GsubError.InvalidCaptureIndex d)
    | _ => match captures !! idx with Some c => inl c | None => inr (GsubError.InvalidCaptureIndex d) end
    end
  else inr GsubError.InvalidUseOfPercent.

Fixpoint process_replacement_bytes (repl full_match : list Z) (captures : list (list Z)) (out : list Z)
  : list Z + GsubError.t :=
  match repl with
  | [] => inl out
  | b :: repl =>
      if b =? b# "%" then
        match repl with
        | [] => inr GsubError.InvalidUseOfPercent
        | d :: repl =>
            match directive d full_match captures with
            | inl chunk =>
                match push_replacement out chunk with
                | inl out => process_replacement_bytes repl full_match captures out
                | inr e => inr e
                end
            | inr e => inr e
            end
        end
      else
        match push_replacement out [b] with
        | inl out => process_replacement_bytes repl full_match captures out
        | inr e => inr e
        end
  end.

(** *** The sequence *)

(** [create]; [None] for [n] is no limit. *)
Definition create (text pattern : list Z) (r : Value.t S) (n : option Z) : outcome (t + GsubError.t) :=
  let max_replacements :=
    match n with Some n => if n <=? 0 then 0 else n | None => int_max usize end in
  ast ← (match pattern with [] => Ok (inl []) | _ => parse_pattern pattern end);
  match ast with
  | inr e => Ok (inr (GsubError.OfPattern e))
  | inl ast =>
      let make r := inl (mk text ast r max_replacements 0 0 0 []) in
      Ok (match r with
          | Value.String s => make (String_ (as_bytes s))
          | Value.Integer i => make (String_ (StringUtils.i64_to_string i))
          | Value.Number f => make (String_ (display_f64 f))
          | Value.Table t => make (Table_ t)
          | Value.Function _ => inr GsubError.FunctionReplacement
          | _ => inr (GsubError.BadArgument (Value.type_name r))
          end)
  end.

(** Computations on the fuel and the memory limit that end at the first error; the sequence
    of a computation that has failed is dropped. *)
Definition env : Type := Fuel.t * Memory.MemoryLimit.
Definition M (A : Type) : Type := env -> outcome ((A + GsubError.t) * env).
Definition ret {A} (a : A) : M A := fun e => Ok (inl a, e).
Definition throw {A} (err : GsubError.t) : M A := fun e => Ok (inr err, e).
Definition bind {A B} (m : M A) (k : A -> M B) : M B := fun e =>
  '(r, e) ← m e;
  match r with inl a => k a e | inr err => Ok (inr err, e) end.
Definition lift {A} (m : outcome A) : M A := fun e => a ← m; Ok (inl a, e).
Definition try_ {A} (r : A + GsubError.t) : M A := match r with inl a => ret a | inr err => throw err end.
#[local] Notation "'let*' x ':=' m 'in' k" := (bind m (fun x => k)) (at level 10, x pattern, m at level 100, k at level 200).

Definition consume (amount : Z) : M unit := fun e => Ok (inl tt, (Fuel.consume amount (fst e), snd e)).

(** [check_memory]; [allocated] is what the arena has allocated. *)
Definition check_memory (allocated bytes : Z) : M unit := fun e =>
  let '(r, l) := Memory.check allocated bytes (snd e) in
  Ok (match r with inl _ => inl tt | inr oom => inr (GsubError.OutOfMemory oom) end, (fst e, l)).

Definition push_checked (allocated : Z) (result s : list Z) : M (list Z) :=
  match Sandbox.checked_output_growth (len_z result) (len_z s) with
  | None => throw GsubError.TooLarge
  | Some _ =>
      let* _ := check_memory allocated (saturating usize (len_z result + len_z s)) in
      let* _ := consume (Sandbox.output_cost (len_z s)) in
      ret (result ++ s)
  end.

(** The replacement of a match *)
Definition replacement (ts : Table.Tables S) (r : ReplMode) (full_match : list Z) (captures : list (list Z))
  : outcome (list Z + GsubError.t) :=
  match r with
  | String_ repl_bytes => Ok (process_replacement_bytes repl_bytes full_match captures [])
  | Table_ table =>
      let key_bytes := match captures with c :: _ => c | [] => full_match end in
      val ← Table.get_raw ts table (Value.String (intern key_bytes));
      Ok (match val with
          | Value.String s => inl (as_bytes s)
          | Value.Integer i => inl (StringUtils.i64_to_string i)
          | Value.Number n => inl (display_f64 n)
          | Value.Nil | Value.Boolean false => inl full_match
          | _ => inr (GsubError.InvalidReplacementValue (Value.type_name val))
          end)
  end.

Inductive turn : Type :=
  | Go             (** another turn may follow *)
  | Break.         (** the loop is left *)

Definition advance_ (pos : nat) (out : list Z) (s : t) : t :=
  mk (text_bytes s) (pattern_ast s) (repl s) (max_replacements s) pos (prepaid_until s) (replacements s + 1) out.
Definition set_prepaid (s : t) : t :=
  mk (text_bytes s) (pattern_ast s) (repl s) (max_replacements s) (last_pos s) (length (text_bytes s))
    (replacements s) (result s).

(** One turn of the loop, up to the test of the fuel *)
Definition search_and_replace (allocated : Z) (ts : Table.Tables S) (s : t) : M (turn * t) :=
  let unpaid := Z.of_nat (length (text_bytes s) - prepaid_until s) in
  let* _ := consume (Sandbox.count_pattern_attempts (unpaid + 1)) in
  let s := set_prepaid s in
  match Pattern.find_first_match (pattern_ast s) (text_bytes s) (last_pos s) with
  | None => ret (Break, s)
  | Some ((start, stop), cs) =>
      let* before := lift (Slice.slice (text_bytes s) (last_pos s) start) in
      let* out := push_checked allocated (result s) before in
      let* full_match := lift (Slice.slice (text_bytes s) start stop) in
      let* captures := lift (Pattern.made (text_bytes s) cs) in
      let* r := lift (replacement ts (repl s) full_match captures) in
      let* r := try_ r in
      let* out := push_checked allocated out r in
      if (start =? stop)%nat then
        if (length (text_bytes s) <=? stop)%nat then ret (Break, advance_ stop out s)
        else
          let* byte := lift (Slice.slice (text_bytes s) stop (stop + 1)) in
          let* out := push_checked allocated out byte in
          ret (Go, advance_ (stop + 1) out s)
      else ret (Go, advance_ stop out s)
  end.

Inductive SequencePoll : Type :=
  | Pending (s : t)
  | Return (text : list Z) (count : Z).

(** What follows the loop *)
Definition finish (allocated : Z) (s : t) : M SequencePoll :=
  if (last_pos s <? length (text_bytes s))%nat then
    let* rest := lift (Slice.slice (text_bytes s) (last_pos s) (length (text_bytes s))) in
    let* out := push_checked allocated (result s) rest in
    ret (Return out (replacements s))
  else ret (Return (result s) (replacements s)).

Definition remaining_fuel : M Fuel.t := fun e => Ok (inl (fst e), e).

(** The loop.  [yields] tells from the fuel whether to stop between two turns; [turns]
    bounds them, and the loop panics beyond. *)
Fixpoint loop (turns : nat) (yields : Fuel.t -> bool) (allocated : Z) (ts : Table.Tables S) (s : t) : M SequencePoll :=
  match turns with
  | O => fun _ => Panic
  | Datatypes.S turns =>
      if replacements s <? max_replacements s then
        let* (next, s) := search_and_replace allocated ts s in
        match next with
        | Break => finish allocated s
        | Go =>
            let* f := remaining_fuel in
            if yields f then ret (Pending s) else loop turns yields allocated ts s
        end
      else finish allocated s
  end.

(** A turn that goes on moves on in the text. *)
Definition turns (s : t) : nat := Datatypes.S (Datatypes.S (length (text_bytes s) - last_pos s)).

Definition poll_with (yields : Fuel.t -> bool) (allocated : Z) (ts : Table.Tables S) (s : t) : M SequencePoll :=
  if max_replacements s =? 0 then
    let* out := push_checked allocated (result s) (text_bytes s) in
    ret (Return out 0)
  else loop (turns s) yields allocated ts s.

Definition poll : Z -> Table.Tables S -> t -> M SequencePoll := poll_with (fun f => negb (Fuel.should_continue f)).
End Gsub.
End Gsub.
