(* ===== verification/GsubTheorems.v ===== *)
(** * What [gsub] and [gmatch] promise

    The fuel a substitution is given changes when it stops, never what it gives; replacing
    every match by itself changes nothing; and a plain substitution replaces what it says. *)

From S2P Require Import Prelude Float64 StringUtils Slices Constant Value Limits RawTable RawTableFacts RawTableGrow Table Pattern PatternFacts PatternTheorems Gsub Buckets.

Module GsubTheorems.
Import Gsub PatternFacts.
Section Theorems.
Context `{BuildProfile} `{Lsonar} {S : Type} `{AsBytes S} `{StringAddress S} `{Platform S} `{!PlatformLaws S} `{Interning S} `{DisplayFloat}.
Context (allocated : Z) (ts : Table.Tables S).
Implicit Types (s : Gsub.t) (l : Memory.MemoryLimit) (f : Fuel.t).

(** The positions of a substitution are within its text, and its table exists. *)
Definition wf s : Prop := (last_pos s <= length (text_bytes s))%nat.
Definition table_ok (r : ReplMode) : Prop := match r with Table_ t => is_Some (Table.tables ts !! t) | String_ _ => True end.

(** *** The fuel does not matter

    A computation that does the same whatever the fuel, never panics, and whose results
    satisfy [Q] *)
Definition blind {A} (m : M A) (Q : A -> Prop) : Prop :=
  forall l, exists r l', (forall f, exists f', m (f, l) = Ok (r, (f', l'))) /\
    match r with inl a => Q a | inr _ => True end.

Lemma blind_ret {A} (a : A) (Q : A -> Prop) : Q a -> blind (ret a) Q.
Proof. intros HQ l. exists (inl a), l. split; [|done]. intros f. by exists f. Qed.

Lemma blind_bind {A B} (m : M A) (k : A -> M B) P Q : blind m P -> (forall a, P a -> blind (k a) Q) -> blind (bind m k) Q.
Proof.
  intros Hm Hk l. destruct (Hm l) as (r & l1 & E & Hr). destruct r as [a|err].
  - destruct (Hk a Hr l1) as (r & l2 & E2 & Hr2). exists r, l2. split; [|done]. intros f.
    destruct (E f) as (f1 & E1). destruct (E2 f1) as (f2 & E3). exists f2. unfold bind. rewrite E1, outcome_bind_Ok. exact E3.
  - exists (inr err), l1. split; [|done]. intros f. destruct (E f) as (f1 & E1). exists f1. unfold bind. by rewrite E1.
Qed.

Lemma blind_lift {A B} (m : outcome A) (a : A) (k : A -> M B) Q : m = Ok a -> blind (k a) Q -> blind (bind (lift m) k) Q.
Proof. intros -> Hk. exact Hk. Qed.

Lemma blind_try {A} (r : A + GsubError.t) (Q : A -> Prop) : (forall a, r = inl a -> Q a) -> blind (try_ r) Q.
Proof.
  intros HQ. destruct r as [a|err]; [by apply blind_ret, HQ|]. intros l. exists (inr err), l. split; [|done]. intros f. by exists f.
Qed.

Lemma blind_consume n : blind (consume n) (fun _ => True).
Proof. intros l. exists (inl tt), l. split; [|done]. by eexists. Qed.

Lemma blind_check bytes : blind (check_memory allocated bytes) (fun _ => True).
Proof.
  intros l. unfold check_memory. cbn [snd fst]. destruct (Memory.check allocated bytes l) as [r l']. eexists _, l'.
  split; [by eexists|]. by destruct r.
Qed.

Lemma blind_push out x : blind (push_checked allocated out x) (fun out' => out' = out ++ x).
Proof.
  unfold push_checked. destruct (Sandbox.checked_output_growth _ _); [|apply (blind_try (inr GsubError.TooLarge)); intros a E; discriminate E].
  eapply blind_bind; [apply blind_check|]. intros _ _. eapply blind_bind; [apply blind_consume|]. intros _ _. by apply blind_ret.
Qed.

Lemma replacement_ok r full captures : table_ok r -> exists res, replacement ts r full captures = Ok res.
Proof.
  destruct r as [b|t]; cbn [replacement table_ok]; [by eexists|]. intros [st Ht].
  unfold Table.get_raw, Table.borrow. rewrite Ht, outcome_bind_Ok.
  destruct (TableFacts.get_spec (Table.raw_table st) (Value.String (intern match captures with c :: _ => c | [] => full end)))
    as (res & _ & ->). by eexists.
Qed.

(** The text, the pattern, the replacement and the limit stay. *)
Record same_job s s' : Prop := {
  job_text : text_bytes s' = text_bytes s;
  job_ast : pattern_ast s' = pattern_ast s;
  job_repl : repl s' = repl s;
  job_max : max_replacements s' = max_replacements s
}.

#[global] Instance same_job_preorder : PreOrder same_job.
Proof. split; [by split|]. intros a b c [] []. split; congruence. Qed.

(** Where a turn gets with a match and its replacement *)
Definition moved s (start stop : nat) (rep : list Z) : turn * t :=
  let text := text_bytes s in
  let out := (result s ++ take (start - last_pos s) (drop (last_pos s) text)) ++ rep in
  if (start =? stop)%nat then
    if (length text <=? stop)%nat then (Break, advance_ stop out (set_prepaid s))
    else (Go, advance_ (stop + 1) (out ++ take (stop + 1 - stop) (drop stop text)) (set_prepaid s))
  else (Go, advance_ stop out (set_prepaid s)).

(** What a turn that succeeds has done *)
Definition turned s (p : turn * t) : Prop :=
  let text := text_bytes s in
  match Pattern.find_first_match (pattern_ast s) text (last_pos s) with
  | None => p = (Break, set_prepaid s)
  | Some ((start, stop), cs) =>
      (last_pos s <= start <= stop)%nat /\ (stop <= length text)%nat /\
      exists captures rep, Pattern.made text cs = Ok captures /\
        replacement ts (repl s) (take (stop - start) (drop start text)) captures = Ok (inl rep) /\ p = moved s start stop rep
  end.

Lemma turn_turned s : wf s -> table_ok (repl s) -> blind (search_and_replace allocated ts s) (turned s).
Proof.
  intros Hw Ht. unfold search_and_replace. eapply blind_bind; [apply blind_consume|]. intros _ _.
  set (s1 := set_prepaid s). change (text_bytes s1) with (text_bytes s). change (pattern_ast s1) with (pattern_ast s).
  change (last_pos s1) with (last_pos s). change (repl s1) with (repl s). change (result s1) with (result s).
  pose proof (find_first_match_spec (pattern_ast s) (text_bytes s) (last_pos s) Hw) as Hm. unfold turned.
  destruct (Pattern.find_first_match _ _ _) as [[[start stop] cs]|]; [|by apply blind_ret].
  destruct Hm as (_ & [[Hstart Hstop] Hlen] & Hcs & _). cbn [fst snd] in *.
  destruct (made_ok (text_bytes s) cs Hcs) as (captures & Hmade).
  eapply blind_lift; [apply SliceFacts.slice_in; lia|]. eapply blind_bind; [apply blind_push|]. intros out1 ->.
  eapply blind_lift; [apply SliceFacts.slice_in; lia|]. eapply blind_lift; [exact Hmade|].
  destruct (replacement_ok (repl s) (take (stop - start) (drop start (text_bytes s))) captures Ht) as (res & Hres).
  eapply blind_lift; [exact Hres|].
  eapply blind_bind; [apply (blind_try _ (fun rep => res = inl rep)); done|]. intros rep ->.
  eapply blind_bind; [apply blind_push|]. intros out2 ->.
  assert (Hdone : forall p, p = moved s start stop rep -> (last_pos s <= start <= stop)%nat /\ (stop <= length (text_bytes s))%nat /\
    exists captures0 rep0, Pattern.made (text_bytes s) cs = Ok captures0 /\
      replacement ts (repl s) (take (stop - start) (drop start (text_bytes s))) captures0 = Ok (inl rep0) /\ p = moved s start stop rep0).
  { intros p ->. split; [lia|]. split; [lia|]. by exists captures, rep. }
  destruct (start =? stop)%nat eqn:Ee.
  2:{ apply blind_ret, Hdone. unfold moved. by rewrite Ee. }
  destruct (length (text_bytes s) <=? stop)%nat eqn:El.
  { apply blind_ret, Hdone. unfold moved. by rewrite Ee, El. }
  apply Nat.leb_gt in El as El'. eapply blind_lift; [apply SliceFacts.slice_in; lia|]. eapply blind_bind; [apply blind_push|]. intros out3 ->.
  apply blind_ret, Hdone. unfold moved. by rewrite Ee, El.
Qed.

(** A turn that goes on moves on in the text. *)
Lemma turned_on s next s' : wf s -> turned s (next, s') -> same_job s s' /\ wf s' /\
  match next with Go => (last_pos s < last_pos s')%nat | Break => True end.
Proof.
  unfold turned, wf. intros Hw. destruct (Pattern.find_first_match _ _ _) as [[[start stop] cs]|]; [|by intros [= -> ->]].
  intros (Hs & Hl & captures & rep & _ & _ & E). unfold moved in E.
  destruct (Nat.eqb_spec start stop), (Nat.leb_spec (length (text_bytes s)) stop); injection E as -> ->;
    (split_and!; [by split|cbn; lia|done || cbn; lia]).
Qed.

Lemma blind_weaken {A} (m : M A) (P Q : A -> Prop) : blind m P -> (forall a, P a -> Q a) -> blind m Q.
Proof. intros Hm HPQ l. destruct (Hm l) as (r & l' & E & Hr). exists r, l'. split; [done|]. destruct r; auto. Qed.

Lemma turn_blind s : wf s -> table_ok (repl s) ->
  blind (search_and_replace allocated ts s) (fun '(next, s') => same_job s s' /\ wf s' /\
    match next with Go => (last_pos s < last_pos s')%nat | Break => True end).
Proof. intros Hw Ht. eapply blind_weaken; [by apply turn_turned|]. intros [next s']. by apply turned_on. Qed.

(** The output of a substitution that ends in [s] *)
Definition ending s : list Z := result s ++ drop (last_pos s) (text_bytes s).

Lemma finish_blind s : wf s -> blind (finish allocated s) (fun r => r = Return (ending s) (replacements s)).
Proof.
  intros Hw. unfold finish, ending. destruct (Nat.ltb_spec (last_pos s) (length (text_bytes s))).
  - eapply blind_lift; [apply SliceFacts.slice_end; lia|]. eapply blind_bind; [apply blind_push|]. intros out ->.
    by apply blind_ret.
  - apply blind_ret. by rewrite drop_ge, app_nil_r by lia.
Qed.

(** The loop that never stops between two turns *)
Definition whole (n : nat) s : M SequencePoll := loop n (fun _ => false) allocated ts s.

(** How much of the text is left *)
Definition left_ s : nat := (length (text_bytes s) - last_pos s)%nat.

(** What the whole loop gives from [s] with the limit [l] *)
Definition gives s l (r : SequencePoll + GsubError.t) l' : Prop :=
  forall n f, (left_ s < n)%nat -> exists f', whole n s (f, l) = Ok (r, (f', l')).

Definition final (r : SequencePoll + GsubError.t) : Prop := match r with inl (Pending _) => False | _ => True end.
Lemma returned_final (r : SequencePoll + GsubError.t) n :
  match r with inl a => a = Return (ending n) (replacements n) | inr _ => True end -> final r.
Proof. by destruct r as [[]|]. Qed.

Lemma gives_finish s l : wf s -> (forall n, whole (Datatypes.S n) s = finish allocated s) ->
  exists r l', final r /\ gives s l r l' /\ forall f, exists f', finish allocated s (f, l) = Ok (r, (f', l')).
Proof.
  intros Hw E. destruct (finish_blind s Hw l) as (r & l' & Hf & Hr). exists r, l'. split_and!; [by eapply returned_final| |done].
  intros n f Hn. destruct n as [|n]; [lia|]. rewrite E. apply Hf.
Qed.

(** A loop that may stop either gives what the whole loop gives, or stops further on in the
    text, where the whole loop gives the same. *)
Lemma loop_sliced yields n s l : wf s -> table_ok (repl s) -> (left_ s < n)%nat ->
  exists r l', final r /\ gives s l r l' /\ forall f,
    (exists f1, loop n yields allocated ts s (f, l) = Ok (r, (f1, l'))) \/
    (exists s1 f1 l1, loop n yields allocated ts s (f, l) = Ok (inl (Pending s1), (f1, l1)) /\
      (last_pos s < last_pos s1)%nat /\ wf s1 /\ same_job s s1 /\ gives s1 l1 r l').
Proof.
  revert s l. induction n as [|n IH]; intros s l Hw Ht Hn; [lia|]. cbn [loop].
  destruct (replacements s <? max_replacements s) eqn:Emax.
  2:{ destruct (gives_finish s l Hw) as (r & l' & Hfin & Hg & Hf); [intros; cbn; by rewrite Emax|].
      exists r, l'. split_and!; [done..|]. intros f. left. apply Hf. }
  destruct (turn_blind s Hw Ht l) as (rt & lt & Et & Hrt).
  destruct rt as [[next s1]|err].
  2:{ exists (inr err), lt. split_and!; [done|..].
      - intros [|m] f Hm; [lia|]. unfold whole. cbn [loop]. rewrite Emax. destruct (Et f) as (f' & E).
        exists f'. unfold bind. by rewrite E.
      - intros f. left. destruct (Et f) as (f' & E). exists f'. unfold bind. by rewrite E. }
  destruct Hrt as (Hjob & Hw1 & Hnext). destruct next.
  - (* the loop goes on *)
    assert (Hleft : (left_ s1 < left_ s)%nat) by (unfold left_, wf in *; rewrite (job_text _ _ Hjob) in *; lia).
    destruct (IH s1 lt Hw1) as (r & l' & Hfin & Hg & Hf); [by rewrite (job_repl _ _ Hjob)|lia|].
    exists r, l'. split_and!; [done|..].
    + intros [|m] f Hm; [lia|]. unfold whole. cbn [loop]. rewrite Emax. destruct (Et f) as (f1 & E).
      unfold bind at 1. rewrite E, outcome_bind_Ok. cbn [bind remaining_fuel mbind outcome_bind fst]. apply Hg. lia.
    + intros f. destruct (Et f) as (f1 & E). unfold bind at 1 3. rewrite E, !outcome_bind_Ok.
      cbn [bind remaining_fuel mbind outcome_bind fst]. destruct (yields f1).
      * right. exists s1, f1, lt. by split_and!.
      * destruct (Hf f1) as [(f2 & E2)|(s2 & f2 & l2 & E2 & Hpos & Hw2 & Hjob2 & Hg2)]; [left; by exists f2|].
        right. exists s2, f2, l2. split_and!; [done|lia|done|by etrans|done].
  - (* the loop is left *)
    destruct (finish_blind s1 Hw1 lt) as (r & l' & Hf & Hr). exists r, l'. split_and!; [by eapply returned_final|..].
    + intros [|m] f Hm; [lia|]. unfold whole. cbn [loop]. rewrite Emax. destruct (Et f) as (f1 & E).
      unfold bind. rewrite E, outcome_bind_Ok. apply Hf.
    + intros f. left. destruct (Et f) as (f1 & E). unfold bind. rewrite E, outcome_bind_Ok. apply Hf.
Qed.

(** A substitution polled with one amount of fuel after the other, until it is done *)
Fixpoint polls (fuels : list Fuel.t) s l : outcome (option ((list Z * Z + GsubError.t) * Memory.MemoryLimit)) :=
  match fuels with
  | [] => Ok None
  | f :: fuels =>
      '(r, (_, l)) ← poll allocated ts s (f, l);
      match r with
      | inl (Pending s) => polls fuels s l
      | inl (Return out n) => Ok (Some (inl (out, n), l))
      | inr err => Ok (Some (inr err, l))
      end
  end.

(** A substitution that is not interrupted *)
Definition at_once s l : outcome (option ((list Z * Z + GsubError.t) * Memory.MemoryLimit)) :=
  '(r, (_, l)) ← poll_with (fun _ => false) allocated ts s (Fuel.empty, l);
  Ok (match r with
      | inl (Pending _) => None
      | inl (Return out n) => Some (inl (out, n), l)
      | inr err => Some (inr err, l)
      end).

Lemma polls_loop fuels s l : max_replacements s <> 0 -> wf s -> table_ok (repl s) -> (left_ s < length fuels)%nat ->
  exists r l', final r /\ gives s l r l' /\ polls fuels s l =
    Ok (match r with
        | inl (Pending _) => None
        | inl (Return out n) => Some (inl (out, n), l')
        | inr err => Some (inr err, l')
        end).
Proof.
  revert s l. induction fuels as [|f fuels IH]; intros s l Hmax Hw Ht Hn; cbn [length] in Hn; [lia|]. cbn [polls].
  unfold poll, poll_with. rewrite (proj2 (Z.eqb_neq _ _)) by done.
  destruct (loop_sliced (fun f => negb (Fuel.should_continue f)) (turns s) s l Hw Ht) as (r & l' & Hfin & Hg & Hf);
    [unfold turns, left_; lia|].
  exists r, l'. split_and!; [done..|]. destruct (Hf f) as [(f1 & ->)|(s1 & f1 & l1 & -> & Hpos & Hw1 & Hjob & Hg1)]; rewrite outcome_bind_Ok.
  { destruct r as [[]|]; done. }
  destruct (IH s1 l1) as (r1 & l2 & Hfin1 & Hg2 & ->).
  { by rewrite (job_max _ _ Hjob). } { done. } { by rewrite (job_repl _ _ Hjob). }
  { unfold left_, wf in *. rewrite (job_text _ _ Hjob) in *. lia. }
  destruct (Hg1 (Datatypes.S (left_ s1)) f ltac:(lia)) as (g1 & E1), (Hg2 (Datatypes.S (left_ s1)) f ltac:(lia)) as (g2 & E2).
  rewrite E1 in E2. by injection E2 as <- _ <-.
Qed.

Lemma slicing fuels s l : wf s -> table_ok (repl s) -> (left_ s < length fuels)%nat ->
  exists r, at_once s l = Ok (Some r) /\ polls fuels s l = Ok (Some r).
Proof.
  intros Hw Ht Hn. unfold at_once. destruct (Z.eqb_spec (max_replacements s) 0) as [Hmax|Hmax].
  - destruct fuels as [|f fuels]; [cbn in Hn; lia|]. cbn [polls]. unfold poll, poll_with. rewrite Hmax. cbn [Z.eqb].
    destruct (blind_push (result s) (text_bytes s) l) as (r & l' & E & Hr). unfold bind.
    destruct (E f) as (f1 & ->), (E Fuel.empty) as (f2 & ->). rewrite !outcome_bind_Ok.
    destruct r as [out|err]; (eexists; split; reflexivity).
  - destruct (polls_loop fuels s l Hmax Hw Ht Hn) as (r & l' & Hfin & Hg & ->). unfold poll_with.
    rewrite (proj2 (Z.eqb_neq _ _)) by done.
    destruct (Hg (turns s) Fuel.empty) as (f' & E); [unfold turns, left_; lia|]. unfold whole in E. rewrite E, outcome_bind_Ok.
    destruct r as [[s1|out n]|err]; [done|eexists; split; reflexivity..].
Qed.

(** C35: fuel decides when [gsub] stops, not what it gives.  Polled with any amounts of fuel,
    one after the other, a substitution is done after at most as many polls as there are
    bytes left, and one; its text and count, or its error, and what it asked of the memory
    limit are those of the substitution that is never interrupted.  It never panics. *)
Theorem gsub_slicing fuels s l : wf s -> table_ok (repl s) ->
  (length (text_bytes s) - last_pos s < length fuels)%nat ->
  exists r, at_once s l = Ok (Some r) /\ polls fuels s l = Ok (Some r).
Proof. apply slicing. Qed.

(** A property of what a substitution gives, from what its turns do *)
Lemma whole_ind (P : t -> list Z -> Z -> Prop) :
  (forall s, wf s -> max_replacements s <= replacements s -> P s (ending s) (replacements s)) ->
  (forall s s', wf s -> replacements s < max_replacements s -> turned s (Break, s') -> P s (ending s') (replacements s')) ->
  (forall s s' out k, wf s -> replacements s < max_replacements s -> turned s (Go, s') -> P s' out k -> P s out k) ->
  forall n s f l out k e, wf s -> table_ok (repl s) -> whole n s (f, l) = Ok (inl (Return out k), e) -> P s out k.
Proof.
  intros Hend Hbreak Hgo. induction n as [|n IH]; intros s f l out k e Hw Ht; unfold whole; cbn [loop]; [done|].
  destruct (Z.ltb_spec (replacements s) (max_replacements s)) as [Hlt|Hge].
  2:{ destruct (finish_blind s Hw l) as (r & l' & E & Hr). destruct (E f) as (f' & ->). intros [= -> _].
      injection Hr as -> ->. by apply Hend. }
  destruct (turn_turned s Hw Ht l) as (r & l1 & E & Hr). destruct (E f) as (f1 & E1). unfold bind at 1. rewrite E1, outcome_bind_Ok.
  destruct r as [[next s1]|err]; [|done]. destruct (turned_on s next s1 Hw Hr) as (Hjob & Hw1 & _). destruct next.
  - cbn [bind remaining_fuel mbind outcome_bind]. intros Hrun. apply (Hgo s s1); [done..|].
    eapply (IH s1); [done|by rewrite (job_repl _ _ Hjob)|exact Hrun].
  - destruct (finish_blind s1 Hw1 l1) as (r & l' & Ef & Hrf). destruct (Ef f1) as (f' & ->). intros [= -> _].
    injection Hrf as -> ->. by apply Hbreak.
Qed.

Lemma at_once_ind (P : t -> list Z -> Z -> Prop) s l out k l' :
  (forall s, wf s -> max_replacements s <= replacements s -> P s (ending s) (replacements s)) ->
  (forall s s', wf s -> replacements s < max_replacements s -> turned s (Break, s') -> P s (ending s') (replacements s')) ->
  (forall s s' out k, wf s -> replacements s < max_replacements s -> turned s (Go, s') -> P s' out k -> P s out k) ->
  wf s -> table_ok (repl s) -> replacements s = 0 -> last_pos s = O ->
  at_once s l = Ok (Some (inl (out, k), l')) -> P s out k.
Proof.
  intros Hend Hbreak Hgo Hw Ht Hr Hp. unfold at_once, poll_with. destruct (Z.eqb_spec (max_replacements s) 0) as [Hmax|Hmax].
  - destruct (blind_push (result s) (text_bytes s) l) as (r & l1 & E & Hres). destruct (E Fuel.empty) as (f' & E').
    unfold bind. rewrite E', outcome_bind_Ok. destruct r as [out'|err]; [|done]. intros [= <- <- _]. subst out'.
    pose proof (Hend s Hw ltac:(lia)) as H1'. unfold ending in H1'. by rewrite Hr, Hp, drop_0 in H1'.
  - destruct (loop _ _ _ _ _ _) as [[[[s1|out' k']|err] [f1 l1]]|] eqn:E; cbn [mbind outcome_bind]; intros [= <- <- _].
    by apply (whole_ind P Hend Hbreak Hgo (turns s) s Fuel.empty l out' k' (f1, l1)).
Qed.

(** *** Replacing a match by itself *)

Definition kept s : Prop := result s = take (last_pos s) (text_bytes s).

Lemma process_percent_0 full captures rep : process_replacement_bytes (bs# "%0") full captures [] = inl rep -> rep = full.
Proof.
  cbn [process_replacement_bytes]. change (37 =? 37) with true. cbn match.
  change (directive 48 full captures) with (inl (B:=GsubError.t) full). cbn match. unfold push_replacement.
  destruct (Sandbox.checked_output_growth _ _); [|done]. by intros [= <-].
Qed.

Lemma turned_kept s p : wf s -> repl s = String_ (bs# "%0") -> kept s -> turned s p -> kept (snd p).
Proof.
  unfold turned, kept. intros Hw Hr Hk. destruct (Pattern.find_first_match _ _ _) as [[[start stop] cs]|]; [|by intros ->].
  intros (Hs & Hl & captures & rep & _ & Hrep & ->). rewrite Hr in Hrep.
  assert (rep = take (stop - start) (drop start (text_bytes s))) as -> by (apply (process_percent_0 _ captures); by injection Hrep).
  assert (Hout : (result s ++ take (start - last_pos s) (drop (last_pos s) (text_bytes s))) ++
    take (stop - start) (drop start (text_bytes s)) = take stop (text_bytes s)).
  { rewrite Hk, take_take_drop. replace (last_pos s + (start - last_pos s))%nat with start by lia.
    rewrite take_take_drop. f_equal. lia. }
  unfold moved. rewrite Hout. destruct (start =? stop)%nat; [|done]. destruct (_ <=? _)%nat; [done|].
  cbn [snd result last_pos advance_ text_bytes set_prepaid]. rewrite take_take_drop. f_equal. lia.
Qed.

(** Replacing every match by itself changes nothing.  Whatever the pattern and the limit
    of replacements, a substitution by [%0] that succeeds gives the text. *)
Theorem gsub_identity text pattern r n s l out k l' :
  create text pattern (Value.String r) n = Ok (inl s) -> as_bytes r = bs# "%0" ->
  at_once s l = Ok (Some (inl (out, k), l')) -> out = text.
Proof.
  intros Hc Hr Ho.
  assert (Hs : repl s = String_ (bs# "%0") /\ kept s /\ wf s /\ replacements s = 0 /\ last_pos s = O /\ text_bytes s = text).
  { unfold create in Hc. destruct (match pattern with [] => _ | _ => _ end) as [[ast|err]|]; try done.
    injection Hc as <-. rewrite Hr. split_and!; try done. unfold wf. cbn. lia. }
  destruct Hs as (Hrep & Hk & Hw & Hn & Hp & <-).
  revert Ho. intros Ho. cut (repl s = String_ (bs# "%0") -> kept s -> out = text_bytes s); [by intros HP; apply HP|].
  apply (at_once_ind (fun s out _ => repl s = String_ (bs# "%0") -> kept s -> out = text_bytes s) s l out k l'); try done.
  - intros s1 Hw1 _ _ Hk1. unfold ending. by rewrite Hk1, take_drop.
  - intros s1 s2 Hw1 _ Ht Hr1 Hk1. destruct (turned_on _ _ _ Hw1 Ht) as (Hjob & _).
    pose proof (turned_kept _ _ Hw1 Hr1 Hk1 Ht) as Hk2. unfold ending, kept in *. cbn [snd] in Hk2.
    by rewrite Hk2, take_drop, (job_text _ _ Hjob).
  - intros s1 s2 out1 k1 Hw1 _ Ht IH Hr1 Hk1. destruct (turned_on _ _ _ Hw1 Ht) as (Hjob & _).
    rewrite <- (job_text _ _ Hjob). apply IH; [by rewrite (job_repl _ _ Hjob)|]. by apply (turned_kept _ _ Hw1 Hr1 Hk1 Ht).
  - by rewrite Hrep.
Qed.

(** *** Plain substitution *)

(** The first [n] occurrences, from left to right, each after the end of the one before *)
Fixpoint replace_all (fuel : nat) (pattern r : list Z) (n : Z) (text : list Z) : list Z * Z :=
  match fuel with
  | O => (text, 0)
  | Datatypes.S fuel =>
      match (if 0 <? n then Pattern.position pattern text else None) with
      | Some k =>
          let rest := replace_all fuel pattern r (n - 1) (drop (k + length pattern) text) in
          (take k text ++ r ++ fst rest, 1 + snd rest)
      | None => (text, 0)
      end
  end.

Lemma process_plain r full captures out rep : Forall (fun b => b <> b# "%") r ->
  process_replacement_bytes r full captures out = inl rep -> rep = out ++ r.
Proof.
  intros Hr. revert out. induction Hr as [|b r Hb _ IH]; intros out; cbn [process_replacement_bytes].
  { intros [= <-]. by rewrite app_nil_r. }
  rewrite (proj2 (Z.eqb_neq _ _)) by done. unfold push_replacement. destruct (Sandbox.checked_output_growth _ _); [|done].
  intros ->%IH. by rewrite <- app_assoc.
Qed.

Lemma find_literals pattern text start : (length pattern <= Matcher.MAX_RECURSION_DEPTH)%nat -> (start <= length text)%nat ->
  Pattern.find_first_match (map AstNode.Literal pattern) text start =
    (fun k => ((start + k, start + k + length pattern)%nat, PatternTheorems.no_captures)) <$> Pattern.position pattern (drop start text).
Proof.
  intros Hl Hs. unfold Pattern.find_first_match. rewrite PatternTheorems.convert_literals, PatternTheorems.search_literals by (done || lia).
  by rewrite (proj2 (Nat.ltb_ge _ _)) by lia.
Qed.

Section Plain.
Context (pattern r : list Z) (Hne : pattern <> []) (Hlen : (length pattern <= Matcher.MAX_RECURSION_DEPTH)%nat).
Context (Hr : Forall (fun b => b <> b# "%") r).

Definition plain s : Prop := pattern_ast s = map AstNode.Literal pattern /\ repl s = String_ r.

(** What is still to be done in [s] *)
Definition rest_replaced s : list Z * Z :=
  replace_all (Datatypes.S (left_ s)) pattern r (max_replacements s - replacements s) (drop (last_pos s) (text_bytes s)).

Lemma replace_all_fuel fuel fuel' n text : (length text < fuel)%nat -> (length text < fuel')%nat ->
  replace_all fuel pattern r n text = replace_all fuel' pattern r n text.
Proof.
  revert fuel' n text. induction fuel as [|fuel IH]; intros fuel' n text Hf Hf'; [lia|]. destruct fuel' as [|fuel']; [lia|].
  cbn [replace_all]. destruct (if 0 <? n then _ else _) as [k|] eqn:E; [|done].
  assert (0 < length pattern)%nat by (destruct pattern; cbn; [done|lia]).
  assert (text <> []) as Htext.
  { intros ->. destruct (0 <? n); [|done]. cbn [Pattern.position length] in E. by rewrite (proj2 (Nat.ltb_lt _ _)) in E by lia. }
  assert (0 < length text)%nat by (destruct text; cbn; [done|lia]).
  by rewrite (IH fuel') by (rewrite length_drop; lia).
Qed.

Lemma turned_plain s p : wf s -> plain s -> replacements s < max_replacements s -> turned s p ->
  (p = (Break, set_prepaid s) /\ rest_replaced s = (drop (last_pos s) (text_bytes s), 0)) \/
  exists s', p = (Go, s') /\ result s' ++ fst (rest_replaced s') = result s ++ fst (rest_replaced s) /\
    replacements s' + snd (rest_replaced s') = replacements s + snd (rest_replaced s) /\ plain s'.
Proof.
  intros Hw [Hast Hrepl] Hlt. unfold turned. rewrite Hast, find_literals by done.
  unfold rest_replaced at 1 3 5. cbn [replace_all]. rewrite (proj2 (Z.ltb_lt _ _)) by lia.
  destruct (Pattern.position pattern (drop (last_pos s) (text_bytes s))) as [k|]; cbn [fmap option_fmap option_map]; [|by left].
  intros (Hs & Hl & captures & rep & _ & Hrep & ->). right. rewrite Hrepl in Hrep.
  assert (rep = r) as ->.
  { cbn [replacement] in Hrep. destruct (process_replacement_bytes r _ captures []) eqn:E; [|done].
    injection Hrep as <-. exact (process_plain r _ captures [] _ Hr E). }
  assert (0 < length pattern)%nat by (destruct pattern; cbn; [done|lia]).
  unfold moved. rewrite (proj2 (Nat.eqb_neq _ _)) by lia. eexists. split; [reflexivity|].
  set (s' := advance_ _ _ _). assert (Hrest : rest_replaced s' =
    replace_all (left_ s) pattern r (max_replacements s - replacements s - 1) (drop (k + length pattern) (drop (last_pos s) (text_bytes s)))).
  { unfold rest_replaced, s'. cbn [max_replacements replacements last_pos text_bytes advance_ set_prepaid].
    rewrite drop_drop. replace (last_pos s + (k + length pattern))%nat with (last_pos s + k + length pattern)%nat by lia.
    replace (max_replacements s - (replacements s + 1)) with (max_replacements s - replacements s - 1) by lia.
    apply replace_all_fuel; rewrite length_drop; unfold left_; cbn; lia. }
  rewrite Hrest. cbn [fst snd]. split_and!; [|cbn; lia|done].
  unfold s'. cbn [result advance_]. rewrite <- !app_assoc. do 2 f_equal. f_equal. lia.
Qed.
End Plain.

(** A plain substitution replaces what it says.  With the bytes that mean something in a
    pattern escaped and no [%] in the replacement, a substitution that succeeds gives the
    text with the first [n] occurrences replaced, and their number. *)
Theorem gsub_plain text pattern r n s l out k l' :
  pattern <> [] -> (length pattern <= Matcher.MAX_RECURSION_DEPTH)%nat ->
  create text (PatternTheorems.escape pattern) (Value.String r) n = Ok (inl s) -> Forall (fun b => b <> b# "%") (as_bytes r) ->
  at_once s l = Ok (Some (inl (out, k), l')) ->
  (out, k) = replace_all (Datatypes.S (length text)) pattern (as_bytes r)
    (match n with Some n => Z.max 0 n | None => int_max usize end) text.
Proof.
  intros Hne Hlen Hc Hr Ho.
  assert (Hs : plain pattern (as_bytes r) s /\ wf s /\ replacements s = 0 /\ last_pos s = O /\ text_bytes s = text /\ result s = [] /\
    max_replacements s = match n with Some n => Z.max 0 n | None => int_max usize end).
  { unfold create in Hc. assert (match PatternTheorems.escape pattern with [] => Ok (inl []) | _ => parse_pattern (PatternTheorems.escape pattern) end =
      Ok (inl (map AstNode.Literal pattern))) as E by (rewrite <- PatternTheorems.parse_escape; by destruct pattern as [|b]; [|unfold PatternTheorems.escape; cbn [flat_map]; destruct (ByteLexer.is_escapable_magic_byte b)]).
    rewrite E, outcome_bind_Ok in Hc. injection Hc as <-. split_and!; try done; [unfold wf; cbn; lia|].
    cbn. destruct n as [n|]; [|done]. destruct (Z.leb_spec n 0); lia. }
  destruct Hs as (Hp & Hw & Hn & Hpos & <- & Hres & <-).
  cut (plain pattern (as_bytes r) s -> (out, k) = (result s ++ fst (rest_replaced pattern (as_bytes r) s), replacements s + snd (rest_replaced pattern (as_bytes r) s))).
  { intros HP. rewrite (HP Hp). unfold rest_replaced. rewrite Hres, Hn, Hpos, drop_0, Z.sub_0_r. cbn [app]. rewrite Z.add_0_l.
    unfold left_. rewrite Hpos, Nat.sub_0_r. by destruct (replace_all _ _ _ _ _). }
  apply (at_once_ind (fun s out k => plain pattern (as_bytes r) s ->
    (out, k) = (result s ++ fst (rest_replaced pattern (as_bytes r) s), replacements s + snd (rest_replaced pattern (as_bytes r) s))) s l out k l'); try done.
  - intros s1 Hw1 Hmax _. unfold rest_replaced. cbn [replace_all]. rewrite (proj2 (Z.ltb_ge _ _)) by lia. cbn [fst snd]. by rewrite Z.add_0_r.
  - intros s1 s2 Hw1 Hlt Ht Hp1. destruct (turned_plain pattern (as_bytes r) Hne Hlen Hr s1 _ Hw1 Hp1 Hlt Ht) as [[E Hrest]|(s' & E & _)]; [|done].
    injection E as ->. rewrite Hrest. cbn [fst snd]. by rewrite Z.add_0_r.
  - intros s1 s2 out1 k1 Hw1 Hlt Ht IH Hp1.
    destruct (turned_plain pattern (as_bytes r) Hne Hlen Hr s1 _ Hw1 Hp1 Hlt Ht) as [[E _]|(s' & E & Hout & Hk & Hp2)]; [done|].
    injection E as <-. by rewrite (IH Hp2), Hout, Hk.
  - by rewrite (proj2 Hp).
Qed.
End Theorems.

(** ** Substitutions to try them on *)
Section witnesses.
Import Buckets.Machine.
#[local] Instance sample_lsonar : Lsonar := {|
  CharSet := Z -> bool;
  SetError := Empty_set;
  charset_new := fun _ => false;
  invert := fun s b => negb (s b);
  add_byte := fun c s b => (b =? c) || s b;
  add_class := fun c s => inl (fun b => Matcher.class_matches c b || s b);
  add_range := fun first last s => inl (fun b => Matcher.between first last b || s b);
  charset_contains := fun s b => s b;
  LUA_MAXCAPTURES := 32
|}.
#[local] Instance sample_interning : Interning str := {|
  intern := fun b => (1%positive, b);
  intern_static := fun s => (1%positive, bytes_of_string s)
|}.
#[local] Instance sample_display : DisplayFloat := fun _ => bs# "0.5".

Definition no_tables : Table.Tables str := Table.mk_Tables ∅ (fun _ => None) 1.
(** [ab] to [x], at most [n] times *)
Definition sample_gsub (text : list Z) (r : list Z) (n : Z) : Gsub.t :=
  Gsub.mk text [AstNode.Literal (b# "a"); AstNode.Literal (b# "b")] (String_ r) n 0 0 0 [].

Lemma gsub_slicing_witness :
  let s := sample_gsub (bs# "abcab") (bs# "x") 9 in
  let fuels := replicate 6 (Fuel.with_ 0) in
  exists r, at_once (S:=str) 0 no_tables s (Memory.new None) = Ok (Some r) /\ polls (S:=str) 0 no_tables fuels s (Memory.new None) = Ok (Some r).
Proof. intros s fuels. apply gsub_slicing; [unfold wf; cbn; lia|exact I|cbn; lia]. Defined.

Lemma gsub_identity_witness :
  let s := sample_gsub (bs# "abcab") (bs# "%0") 1 in
  at_once (S:=str) 0 no_tables s (Memory.new None) = Ok (Some (inl (bs# "abcab", 1), Memory.new None)) /\ bs# "abcab" = bs# "abcab".
Proof.
  intros s. assert (E : at_once (S:=str) 0 no_tables s (Memory.new None) = Ok (Some (inl (bs# "abcab", 1), Memory.new None))) by reflexivity.
  split; [exact E|]. apply (gsub_identity 0 no_tables (bs# "abcab") (bs# "ab") (1%positive, bs# "%0") (Some 1) s (Memory.new None) _ 1 (Memory.new None)); [reflexivity|reflexivity|exact E].
Defined.

Lemma gsub_plain_witness :
  let s := sample_gsub (bs# "abcab") (bs# "x") 9 in
  at_once (S:=str) 0 no_tables s (Memory.new None) = Ok (Some (inl (bs# "xcx", 2), Memory.new None)) /\
  (bs# "xcx", 2) = replace_all 6 (bs# "ab") (bs# "x") 9 (bs# "abcab").
Proof.
  intros s. assert (E : at_once (S:=str) 0 no_tables s (Memory.new None) = Ok (Some (inl (bs# "xcx", 2), Memory.new None))) by reflexivity.
  split; [exact E|].
  refine (gsub_plain 0 no_tables (bs# "abcab") (bs# "ab") (1%positive, bs# "x") (Some 9) s (Memory.new None) (bs# "xcx") 2 (Memory.new None)
    _ _ _ _ E); [done|cbn; unfold Matcher.MAX_RECURSION_DEPTH; lia|reflexivity|by repeat constructor].
Defined.
End witnesses.
End GsubTheorems.
