(* ===== verification/Pack.v ===== *)
(** * [string.pack], [string.unpack], [string.packsize]: [stdlib/string.rs], [stdlib/string/pack.rs],
      [unpack.rs] and [packsize.rs]

    The cursor over a format, the state a format sets, and the three sequences that walk it,
    polled until they are done. *)

From Stdlib Require Import SpecFloat.
From stdpp Require Import list_numbers.
From S2P Require Import Prelude Slices Float64 Utf8 StringUtils Constant Value Limits RawTable Table.

(** [cfg!(target_endian = "little")] *)
Class Target : Type := { target_little_endian : bool }.

(** ** [f32], as its bit pattern

    The casts [as f32] and [as f64] round to nearest even; a NaN becomes the canonical one. *)
Module F32.
Definition to_sf (x : Z) : spec_float :=
  let s := Z.testbit x 31 in
  let e := Z.land (Z.shiftr x 23) 255 in
  let m := Z.land x (2 ^ 23 - 1) in
  if e =? 0 then match m with Zpos p => S754_finite s p (-149) | _ => S754_zero s end
  else if e =? 255 then (if m =? 0 then S754_infinity s else S754_nan)
  else match m + 2 ^ 23 with Zpos p => S754_finite s p (e - 150) | _ => S754_nan end.

Definition from_parts (s : bool) (e m : Z) : Z :=
  Z.lor (Z.shiftl (Z.b2z s) 31) (Z.lor (Z.shiftl e 23) m).

Definition of_sf (x : spec_float) : Z :=
  match x with
  | S754_zero s => from_parts s 0 0
  | S754_infinity s => from_parts s 255 0
  | S754_nan => 1023 * 2 ^ 22
  | S754_finite s m e =>
      if 2 ^ 23 <=? Zpos m then from_parts s (e + 150) (Zpos m - 2 ^ 23) else from_parts s 0 (Zpos m)
  end.

Definition of_f64 (x : f64) : Z :=
  of_sf (match F64.to_sf x with
         | S754_finite s m e => binary_normalize 24 128 (F64.cond_neg s (Zpos m)) e s
         | y => y
         end).
Definition to_f64 (x : Z) : f64 :=
  match to_sf x with
  | S754_finite s m e => F64.of_scaled s (F64.cond_neg s (Zpos m)) e
  | y => F64.of_sf y
  end.
End F32.

(** What the sequences report *)
Module PackError.
Inductive t : Type :=
  | InvalidNumber
  | Alignment (n : Z)
  | MissingAfterX
  | InvalidAfterX (op : Z)
  | IntegralSize (n : Z)
  | IntegerOverflow (arg : Z)
  | UnsignedOverflow (arg : Z)
  | TooLarge
  | MissingSize
  | StringLonger (arg : Z)
  | StringContainsZeros (arg : Z)
  | StringLength
  | InvalidOption (op : Z)
  | NoInteger (arg : Z)
  | NumberExpected (arg : Z) (got : String.string)
  | StringExpected (arg : Z) (got : String.string)
  | ValueExpected (arg : Z)
  | OutOfMemory (e : Memory.OutOfMemory)
  | TooShort
  | TooShortFor (op : Z)
  | DoesNotFit (size : Z)
  | UnsignedDoesNotFit (v : Z) (op : Z)
  | MissingTerminator
  | LengthTooLarge
  | VariableLength (op : Z)
  | InitialPosition.
End PackError.

(** ** [FormatCursor] *)
Module FormatCursor.
Record t : Type := mk { bytes : list Z; pos : nat }.

Definition create (fmt : list Z) : t := mk fmt 0.

(** The first [char] of UTF-8, and its [len_utf8] *)
Definition first_char (s : list Z) : option (Z * nat) :=
  match s with
  | a :: s1 =>
      if a <? 128 then Some (a, 1%nat)
      else
        match s1 with
        | b :: s2 =>
            if a <? 224 then Some (Z.lor (Z.shiftl (Z.land a 31) 6) (Z.land b 63), 2%nat)
            else
              match s2 with
              | c :: s3 =>
                  let bc := Z.lor (Z.shiftl (Z.land b 63) 6) (Z.land c 63) in
                  if a <? 240 then Some (Z.lor (Z.shiftl (Z.land a 15) 12) bc, 3%nat)
                  else
                    match s3 with
                    | d :: _ => Some (Z.lor (Z.shiftl (Z.land a 7) 18) (Z.lor (Z.shiftl bc 6) (Z.land d 63)), 4%nat)
                    | [] => None
                    end
              | [] => None
              end
        | [] => None
        end
  | [] => None
  end.

Definition next_char (c : t) : outcome (option (Z * t)) :=
  rest ← Slice.slice (bytes c) (pos c) (length (bytes c));
  Ok (rest ← Utf8.from_utf8 rest;
      '(ch, n) ← first_char rest;
      Some (ch, mk (bytes c) (pos c + n))).

Definition is_done (c : t) : bool := (length (bytes c) <=? pos c)%nat.

(** The digits at the start of [s]: the number, and how many; [None] is one that does not fit. *)
Fixpoint digits (s : list Z) (val : Z) (n : nat) : option (Z * nat) :=
  match s with
  | byte :: s =>
      if (b# "0" <=? byte) && (byte <=? b# "9") then
        v ← checked usize (val * 10);
        v ← checked usize (v + (byte - b# "0"));
        digits s v (S n)
      else Some (val, n)
  | [] => Some (val, n)
  end.

Definition parse_number (c : t) : (option Z * t) + PackError.t :=
  match digits (drop (pos c) (bytes c)) 0 0 with
  | Some (val, n) => inl (if (n =? 0)%nat then None else Some val, mk (bytes c) (pos c + n))
  | None => inr PackError.InvalidNumber
  end.
End FormatCursor.

(** ** Options and the state they set *)
Inductive Endianness : Type :=
  | Little
  | Big
  | Native.

Record FormatState : Type := mk_FormatState { endianness : Endianness; max_alignment : Z }.
Definition default_state : FormatState := mk_FormatState Native 1.

(** The arms of the three [match format_char]: characters that are treated alike *)
Module Conversion.
Inductive t : Type :=
  | Little_ | Big_ | Native_ | Align | Blank | Zero | AlignTo
  | I8 | U8 | I16 | U16 | I64 | U64 | Int | UInt
  | Float | Double | Chars | ZString | LString | Invalid.

Definition of_char (c : Z) : t :=
  if c =? b# "<" then Little_ else if c =? b# ">" then Big_ else if c =? b# "=" then Native_
  else if c =? b# "!" then Align
  else if (c =? b# " ") || (c =? 9) || (c =? 13) || (c =? 10) then Blank
  else if c =? b# "x" then Zero else if c =? b# "X" then AlignTo
  else if c =? b# "b" then I8 else if c =? b# "B" then U8
  else if c =? b# "h" then I16 else if c =? b# "H" then U16
  else if (c =? b# "l") || (c =? b# "j") then I64
  else if (c =? b# "L") || (c =? b# "J") || (c =? b# "T") then U64
  else if c =? b# "i" then Int else if c =? b# "I" then UInt
  else if c =? b# "f" then Float else if (c =? b# "d") || (c =? b# "n") then Double
  else if c =? b# "c" then Chars else if c =? b# "z" then ZString else if c =? b# "s" then LString
  else Invalid.
End Conversion.

Definition MAX_STRING_PACK_BYTES : Z := 16 * 1024 * 1024.
Definition FUEL_PER_FORMAT_BYTE : Z := 1.

(** [usize::is_power_of_two] *)
Definition is_power_of_two (n : Z) : bool := (0 <? n) && (Z.land n (n - 1) =? 0).

Definition calculate_padding (current_pos data_size max_alignment : Z) : Z :=
  if (max_alignment <=? 1) || (data_size <=? 1) then 0
  else
    let alignment := Z.min data_size max_alignment in
    if negb (is_power_of_two alignment) then 0
    else (alignment - current_pos mod alignment) mod alignment.

Definition get_format_size (c : Conversion.t) (num_opt : option Z) : option Z :=
  match c with
  | Conversion.I8 | Conversion.U8 | Conversion.Zero => Some 1
  | Conversion.I16 | Conversion.U16 => Some 2
  | Conversion.I64 | Conversion.U64 | Conversion.Double => Some 8
  | Conversion.Int | Conversion.UInt => Some (default 4 num_opt)
  | Conversion.Float => Some 4
  | Conversion.Chars => num_opt
  | _ => None
  end.

(** [(1..=16).contains(&n)] *)
Definition integral_size (n : Z) : Z + PackError.t :=
  if (n <? 1) || (16 <? n) then inr (PackError.IntegralSize n) else inl n.

Definition get_align_size_for_option (op : Z) (num_opt : option Z) : Z + PackError.t :=
  match Conversion.of_char op with
  | Conversion.I8 | Conversion.U8 | Conversion.Zero | Conversion.Chars | Conversion.ZString => inl 1
  | Conversion.I16 | Conversion.U16 => inl 2
  | Conversion.I64 | Conversion.U64 | Conversion.Double => inl 8
  | Conversion.Float => inl 4
  | Conversion.Int | Conversion.UInt => integral_size (default 4 num_opt)
  | Conversion.LString => integral_size (default 8 num_opt)
  | _ => inr (PackError.InvalidAfterX op)
  end.

(** ** Walking a format

    A computation on the state of a sequence, which ends at the first error *)
Module Walk.
Class Formatted (St : Type) : Type := {
  cursor : St -> FormatCursor.t;
  set_cursor : FormatCursor.t -> St -> St;
  state : St -> FormatState;
  set_state : FormatState -> St -> St
}.

Section Walk.
Context {St : Type} `{Formatted St}.

Definition M (A : Type) : Type := St -> outcome ((A + PackError.t) * St).
Definition ret {A} (a : A) : M A := fun s => Ok (inl a, s).
Definition throw {A} (e : PackError.t) : M A := fun s => Ok (inr e, s).
Definition bind {A B} (m : M A) (k : A -> M B) : M B := fun s =>
  '(r, s) ← m s;
  match r with inl a => k a s | inr e => Ok (inr e, s) end.
Definition lift {A} (o : outcome A) : M A := fun s => a ← o; Ok (inl a, s).
Definition try_ {A} (r : A + PackError.t) : M A := match r with inl a => ret a | inr e => throw e end.
Definition get : M St := fun s => Ok (inl s, s).
Definition modify (f : St -> St) : M unit := fun s => Ok (inl tt, f s).
#[local] Notation "'let*' x ':=' m 'in' k" := (bind m (fun x => k)) (at level 10, x pattern, m at level 100, k at level 200).
#[local] Notation "m ';;;' k" := (bind m (fun _ => k)) (at level 100, k at level 200, right associativity).

Definition next_char : M (option Z) :=
  let* s := get in
  let* r := lift (FormatCursor.next_char (cursor s)) in
  match r with
  | Some (ch, c) => modify (set_cursor c) ;;; ret (Some ch)
  | None => ret None
  end.

Definition parse_number : M (option Z) :=
  let* s := get in
  let* (n, c) := try_ (FormatCursor.parse_number (cursor s)) in
  modify (set_cursor c) ;;; ret n.

Definition set_endianness (e : Endianness) : M unit :=
  modify (fun s => set_state (mk_FormatState e (max_alignment (state s))) s).

(** The arm of ['!'] *)
Definition set_alignment : M unit :=
  let* num_opt := parse_number in
  let n := default 8 num_opt in
  if (n <? 1) || (16 <? n) || negb (is_power_of_two n) then throw (PackError.Alignment n)
  else modify (fun s => set_state (mk_FormatState (endianness (state s)) n) s).

(** The arm of ['X'], up to the padding: the size to align to *)
Definition align_size : M Z :=
  let* op := next_char in
  match op with
  | None => throw PackError.MissingAfterX
  | Some op =>
      let* num_opt :=
        (match Conversion.of_char op with
         | Conversion.Int | Conversion.UInt | Conversion.LString | Conversion.Chars => parse_number
         | _ => ret None
         end) in
      try_ (get_align_size_for_option op num_opt)
  end.

(** [parse_number()?.unwrap_or(default)], within the limits *)
Definition parse_size (default_size : Z) : M Z :=
  let* num_opt := parse_number in
  try_ (integral_size (default default_size num_opt)).

Definition padding (pos size : Z) : M Z :=
  let* s := get in ret (calculate_padding pos size (max_alignment (state s))).

(** The loop of [run]: an option is paid for and processed; [true] is the end of the format,
    [false] a stop between two options because [yields] says so.  [turns] bounds the loop,
    which panics beyond. *)
Fixpoint run (turns : nat) (yields : Fuel.t -> bool) (process_option : Z -> M unit) (f : Fuel.t) (s : St)
  : outcome ((bool + PackError.t) * St * Fuel.t) :=
  match turns with
  | O => Panic
  | S turns =>
      '(r, s) ← next_char s;
      match r with
      | inr e => Ok (inr e, s, f)
      | inl None => Ok (inl true, s, f)
      | inl (Some ch) =>
          let f := Fuel.consume FUEL_PER_FORMAT_BYTE f in
          '(r, s) ← process_option ch s;
          match r with
          | inr e => Ok (inr e, s, f)
          | inl _ =>
              if yields f && negb (FormatCursor.is_done (cursor s)) then Ok (inl false, s, f)
              else run turns yields process_option f s
          end
      end
  end.

(** Each turn takes a byte of the format. *)
Definition turns (s : St) : nat := S (length (FormatCursor.bytes (cursor s)) - FormatCursor.pos (cursor s)).
End Walk.
Arguments M St A : clear implicits.
End Walk.

(** What a poll gives *)
Inductive SequencePoll (St A : Type) : Type :=
  | Pending (s : St)
  | Return (a : A).
Arguments Pending {St A} s.
Arguments Return {St A} a.

(** The bytes of a number in memory, and back *)
Section Endian.
Context `{Target}.

(** [to_le_bytes] of [size] bytes *)
Definition to_le_bytes (size : nat) (value : Z) : list Z := Z_to_little_endian (Z.of_nat size) 8 value.
Definition from_le_bytes (le : list Z) : Z := little_endian_to_Z 8 le.

(** Little-endian bytes in the order of the format, and the other way round *)
Definition in_order (e : Endianness) (le : list Z) : list Z :=
  match e with
  | Little => le
  | Big => rev le
  | Native => if target_little_endian then le else rev le
  end.
End Endian.

(** ** [pack.rs] *)
Module Pack.
Import Walk.
#[local] Notation "'let*' x ':=' m 'in' k" := (bind m (fun x => k)) (at level 10, x pattern, m at level 100, k at level 200).
#[local] Notation "m ';;;' k" := (bind m (fun _ => k)) (at level 100, k at level 200, right associativity).
Section Pack.
Context `{Target} {S : Type} `{AsBytes S} `{DisplayFloat}.
Abbreviation value := (Value.t S).

(** [PackSequence], and the memory limit its buffer is checked against *)
Record t : Type := mk {
  fmt : FormatCursor.t;
  state : FormatState;
  writer : list Z;
  args : list value;
  arg_index : nat;
  limit : Memory.MemoryLimit
}.

#[global] Instance pack_formatted : Formatted t := {|
  Walk.cursor := fmt;
  Walk.set_cursor := fun c s => mk c (state s) (writer s) (args s) (arg_index s) (limit s);
  Walk.state := state;
  Walk.set_state := fun st s => mk (fmt s) st (writer s) (args s) (arg_index s) (limit s)
|}.
Definition set_writer (w : list Z) (s : t) : t := mk (fmt s) (state s) w (args s) (arg_index s) (limit s).
Definition set_arg_index (i : nat) (s : t) : t := mk (fmt s) (state s) (writer s) (args s) i (limit s).
Definition set_limit (l : Memory.MemoryLimit) (s : t) : t := mk (fmt s) (state s) (writer s) (args s) (arg_index s) l.

Definition create (format : list Z) (args : list value) (l : Memory.MemoryLimit) : t :=
  mk (FormatCursor.create format) default_state [] args 0 l.

Definition len (s : t) : Z := Z.of_nat (length (writer s)).

(** [allocated] is what the arena has allocated. *)
Context (allocated : Z).

Definition ensure_capacity (additional : Z) : M t unit := fun s =>
  let n := saturating usize (len s + additional) in
  if MAX_STRING_PACK_BYTES <? n then Ok (inr PackError.TooLarge, s)
  else
    let '(r, l) := Memory.check allocated n (limit s) in
    Ok (match r with inl _ => inl tt | inr e => inr (PackError.OutOfMemory e) end, set_limit l s).

Definition extend (bytes : list Z) : M t unit := modify (fun s => set_writer (writer s ++ bytes) s).
Definition zeros (n : Z) : list Z := replicate (Z.to_nat n) 0.

Definition push_zeros (count : Z) : M t unit :=
  ensure_capacity count ;;; extend (zeros count).

(** Padding before an item of [size] bytes *)
Definition push_padding (size : Z) : M t unit :=
  let* s := get in
  let* n := padding (len s) size in
  push_zeros n.

(** *** Arguments *)
Definition arg_num : M t Z := let* s := get in ret (Z.of_nat (arg_index s) + 2).

Definition get_arg : M t value :=
  let* s := get in
  match args s !! arg_index s with
  | Some v => modify (set_arg_index (Datatypes.S (arg_index s))) ;;; ret v
  | None => throw (PackError.ValueExpected (Z.of_nat (arg_index s) + 2))
  end.

Definition take_integer : M t Z :=
  let* n := arg_num in
  let* v := get_arg in
  match Value.to_integer v with Some i => ret i | None => throw (PackError.NoInteger n) end.

Definition take_number : M t f64 :=
  let* n := arg_num in
  let* v := get_arg in
  match Value.to_number v with
  | Some x => ret x
  | None => throw (PackError.NumberExpected n (Value.type_name v))
  end.

(** [Value::into_string], as bytes *)
Definition into_string (v : value) : option (list Z) :=
  match v with
  | Value.String s => Some (as_bytes s)
  | Value.Integer i => Some (StringUtils.i64_to_string i)
  | Value.Number x => Some (display_f64 x)
  | _ => None
  end.

Definition take_string : M t (list Z) :=
  let* n := arg_num in
  let* v := get_arg in
  match into_string v with
  | Some b => ret b
  | None => throw (PackError.StringExpected n (Value.type_name v))
  end.

(** *** Numbers *)

(** [write_int] and [write_uint]: the low [size] bytes of sixteen *)
Definition write_int (value size : Z) : M t unit :=
  let* s := get in
  let* le := lift (Slice.slice (to_le_bytes 16 value) 0 (Z.to_nat size)) in
  extend (in_order (endianness (state s)) le).

Definition write_bits (size : nat) (bits : Z) : M t unit :=
  let* s := get in extend (in_order (endianness (state s)) (to_le_bytes size bits)).

(** An integer in [min, max], written in [size] bytes *)
Definition pack_signed (size min max : Z) : M t unit :=
  let* n := arg_num in
  let* val := take_integer in
  if (val <? min) || (max <? val) then throw (PackError.IntegerOverflow n)
  else push_padding size ;;; write_int val size.

Definition pack_unsigned (size max : Z) : M t unit :=
  let* n := arg_num in
  let* val := take_integer in
  if (val <? 0) || (max <? val) then throw (PackError.UnsignedOverflow n)
  else push_padding size ;;; write_int (wrap u64 val) size.

Definition process_option (format_char : Z) : M t unit :=
  match Conversion.of_char format_char with
  | Conversion.Little_ => set_endianness Little
  | Conversion.Big_ => set_endianness Big
  | Conversion.Native_ => set_endianness Native
  | Conversion.Align => set_alignment
  | Conversion.Blank => ret tt
  | Conversion.Zero => push_zeros 1
  | Conversion.AlignTo => let* size := align_size in push_padding size
  | Conversion.I8 => pack_signed 1 (-128) 127
  | Conversion.U8 => pack_unsigned 1 255
  | Conversion.I16 => pack_signed 2 (-32768) 32767
  | Conversion.U16 => pack_unsigned 2 65535
  | Conversion.I64 => let* val := take_integer in push_padding 8 ;;; write_int val 8
  | Conversion.U64 => let* val := take_integer in push_padding 8 ;;; write_int (wrap u64 val) 8
  | Conversion.Int =>
      let* size := parse_size 4 in
      if size <? 8 then pack_signed size (- 2 ^ (size * 8 - 1)) (2 ^ (size * 8 - 1) - 1)
      else let* val := take_integer in push_padding size ;;; write_int val size
  | Conversion.UInt =>
      let* size := parse_size 4 in
      if size <? 8 then pack_unsigned size (2 ^ (size * 8) - 1)
      else
        let* n := arg_num in
        let* val := take_integer in
        if (8 <? size) && (val <? 0) then throw (PackError.UnsignedOverflow n)
        else push_padding size ;;; write_int (wrap u64 val) size
  | Conversion.Float => let* val := take_number in push_padding 4 ;;; write_bits 4 (F32.of_f64 val)
  | Conversion.Double => let* val := take_number in push_padding 8 ;;; write_bits 8 val
  | Conversion.Chars =>
      let* num_opt := parse_number in
      match num_opt with
      | None => throw PackError.MissingSize
      | Some n =>
          if MAX_STRING_PACK_BYTES <? n then throw PackError.TooLarge
          else
            let* arg := arg_num in
            let* bytes := take_string in
            let count := Z.of_nat (length bytes) in
            if n <? count then throw (PackError.StringLonger arg)
            else ensure_capacity n ;;; extend bytes ;;; extend (zeros (n - count))
      end
  | Conversion.ZString =>
      let* arg := arg_num in
      let* bytes := take_string in
      if existsb (Z.eqb 0) bytes then throw (PackError.StringContainsZeros arg)
      else ensure_capacity (Z.of_nat (length bytes) + 1) ;;; extend bytes ;;; extend [0]
  | Conversion.LString =>
      let* len_size := parse_size 8 in
      let* bytes := take_string in
      let count := Z.of_nat (length bytes) in
      let max_len := if 16 <=? len_size then 2 ^ 128 - 1 else 2 ^ (len_size * 8) - 1 in
      if max_len <? count then throw PackError.StringLength
      else
        let* s := get in
        let* n := padding (len s) len_size in
        ensure_capacity (n + len_size + count) ;;;
        extend (zeros n) ;;; write_int count len_size ;;; extend bytes
  | Conversion.Invalid => throw (PackError.InvalidOption format_char)
  end.

(** [poll]: the bytes when the format is done *)
Definition poll_with (yields : Fuel.t -> bool) (f : Fuel.t) (s : t)
  : outcome ((SequencePoll t (list Z) + PackError.t) * Fuel.t) :=
  '(r, s, f) ← run (turns s) yields process_option f s;
  Ok (match r with
      | inr e => inr e
      | inl _ => inl (if FormatCursor.is_done (fmt s) then Return (writer s) else Pending s)
      end, f).
Definition poll : Fuel.t -> t -> outcome ((SequencePoll t (list Z) + PackError.t) * Fuel.t) :=
  poll_with (fun f => negb (Fuel.should_continue f)).
End Pack.
End Pack.

(** ** [unpack.rs] *)
Module Unpack.
Import Walk.
#[local] Notation "'let*' x ':=' m 'in' k" := (bind m (fun x => k)) (at level 10, x pattern, m at level 100, k at level 200).
#[local] Notation "m ';;;' k" := (bind m (fun _ => k)) (at level 100, k at level 200, right associativity).

(** The position where the callback starts to read [len] bytes, counted from zero *)
Definition start (init : option Z) (len : nat) : nat + PackError.t :=
  let init := default 1 init in
  let len := Z.of_nat len in
  let pos :=
    if 0 <? init then init
    else if init <? 0 then (if len <? Z.abs init then 0 else len - Z.abs init + 1)
    else 0 in
  if (pos <? 1) || (len + 1 <? pos) then inr PackError.InitialPosition else inl (Z.to_nat (pos - 1)).

Section Unpack.
Context `{BuildProfile} `{Target} {S : Type} `{Interning S}.
Abbreviation value := (Value.t S).

(** [UnpackSequence] *)
Record t : Type := mk {
  fmt : FormatCursor.t;
  state : FormatState;
  bytes : list Z;
  pos : nat;
  values : list value
}.

#[global] Instance unpack_formatted : Formatted t := {|
  Walk.cursor := fmt;
  Walk.set_cursor := fun c s => mk c (state s) (bytes s) (pos s) (values s);
  Walk.state := state;
  Walk.set_state := fun st s => mk (fmt s) st (bytes s) (pos s) (values s)
|}.
Definition set_pos (p : nat) (s : t) : t := mk (fmt s) (state s) (bytes s) p (values s).
Definition push (v : value) : M t unit := modify (fun s => mk (fmt s) (state s) (bytes s) (pos s) (values s ++ [v])).

Definition create (format data : list Z) (start_pos : nat) : t :=
  mk (FormatCursor.create format) default_state data start_pos [].

(** The position [count] bytes further *)
Definition advance (count : Z) (short : PackError.t) : M t nat :=
  let* s := get in
  match checked usize (Z.of_nat (pos s) + count) with
  | None => throw PackError.TooShort
  | Some end_ =>
      if Z.of_nat (length (bytes s)) <? end_ then throw short
      else modify (set_pos (Z.to_nat end_)) ;;; ret (Z.to_nat end_)
  end.

Definition read_exact (count op : Z) : M t (list Z) :=
  let* s := get in
  let* end_ := advance count (PackError.TooShortFor op) in
  lift (Slice.slice (bytes s) (pos s) end_).

Definition skip_padding (n : Z) : M t unit :=
  if 0 <? n then advance n PackError.TooShort ;;; ret tt else ret tt.

(** Padding before an item of [size] bytes *)
Definition skip_to (size : Z) : M t unit :=
  let* s := get in
  let* n := padding (Z.of_nat (pos s)) size in
  skip_padding n.

(** [size] bytes, the lowest first *)
Definition read_le (size op : Z) : M t (list Z) :=
  let* s := get in
  let* slice := read_exact size op in
  ret (in_order (endianness (state s)) slice).

(** [le] and [fill] up to sixteen bytes *)
Definition extended (le : list Z) (fill : Z) : list Z := le ++ replicate (16 - length le) fill.

Definition read_int (size op : Z) : M t Z :=
  let* le := read_le size op in
  let* top := lift (Slice.get le (Z.to_nat (size - 1))) in
  let sign := if Z.land top 128 =? 0 then 0 else 255 in
  let val128 := wrap (IntTy true 128) (from_le_bytes (extended le sign)) in
  match checked i64 val128 with
  | Some val => ret val
  | None => throw (PackError.DoesNotFit size)
  end.

Definition read_uint (size op : Z) : M t Z :=
  let* le := read_le size op in
  let val128 := from_le_bytes (extended le 0) in
  if size <=? 8 then ret (wrap i64 (wrap u64 val128))
  else if int_max i64 <? val128 then throw (PackError.UnsignedDoesNotFit val128 op)
  else ret (wrap i64 val128).

(** The arms of the numbers *)
Definition unpack_int (size op : Z) : M t unit :=
  skip_to size ;;; let* val := read_int size op in push (Value.Integer val).
Definition unpack_uint (size op : Z) : M t unit :=
  skip_to size ;;; let* val := read_uint size op in push (Value.Integer val).

(** The bytes before the first zero *)
Fixpoint until_zero (l : list Z) : option (list Z) :=
  match l with
  | [] => None
  | b :: l => if b =? 0 then Some [] else cons b <$> until_zero l
  end.

Definition process_option (format_char : Z) : M t unit :=
  match Conversion.of_char format_char with
  | Conversion.Little_ => set_endianness Little
  | Conversion.Big_ => set_endianness Big
  | Conversion.Native_ => set_endianness Native
  | Conversion.Align => set_alignment
  | Conversion.Blank => ret tt
  | Conversion.Zero => skip_padding 1
  | Conversion.AlignTo => let* size := align_size in skip_to size
  | Conversion.I8 => unpack_int 1 format_char
  | Conversion.U8 => unpack_uint 1 format_char
  | Conversion.I16 => unpack_int 2 format_char
  | Conversion.U16 => unpack_uint 2 format_char
  | Conversion.I64 => unpack_int 8 format_char
  | Conversion.U64 => unpack_uint 8 format_char
  | Conversion.Int => let* size := parse_size 4 in unpack_int size format_char
  | Conversion.UInt => let* size := parse_size 4 in unpack_uint size format_char
  | Conversion.Float =>
      skip_to 4 ;;; let* le := read_le 4 format_char in
      push (Value.Number (F32.to_f64 (from_le_bytes le)))
  | Conversion.Double =>
      skip_to 8 ;;; let* le := read_le 8 format_char in push (Value.Number (from_le_bytes le))
  | Conversion.Chars =>
      let* num_opt := parse_number in
      match num_opt with
      | None => throw PackError.MissingSize
      | Some n => let* slice := read_exact n format_char in push (Value.String (intern slice))
      end
  | Conversion.ZString =>
      let* s := get in
      let* remaining := lift (Slice.slice (bytes s) (pos s) (length (bytes s))) in
      match until_zero remaining with
      | Some str_bytes =>
          push (Value.String (intern str_bytes)) ;;;
          modify (set_pos (pos s + (length str_bytes + 1)))
      | None => throw PackError.MissingTerminator
      end
  | Conversion.LString =>
      let* len_size := parse_size 8 in
      skip_to len_size ;;;
      let* le := read_le len_size format_char in
      match checked usize (from_le_bytes (extended le 0)) with
      | None => throw PackError.LengthTooLarge
      | Some str_len =>
          let* str_slice := read_exact str_len format_char in
          push (Value.String (intern str_slice))
      end
  | Conversion.Invalid => throw (PackError.InvalidOption format_char)
  end.

(** [poll]: the values, and the position after the last byte read, when the format is done *)
Definition result (s : t) : outcome (list value) :=
  next ← arith i64 (wrap i64 (Z.of_nat (pos s)) + 1);
  Ok (values s ++ [Value.Integer next]).

Definition poll_with (yields : Fuel.t -> bool) (f : Fuel.t) (s : t)
  : outcome ((SequencePoll t (list value) + PackError.t) * Fuel.t) :=
  '(r, s, f) ← run (turns s) yields process_option f s;
  match r with
  | inr e => Ok (inr e, f)
  | inl _ =>
      if FormatCursor.is_done (fmt s) then vs ← result s; Ok (inl (Return vs), f)
      else Ok (inl (Pending s), f)
  end.
Definition poll : Fuel.t -> t -> outcome ((SequencePoll t (list value) + PackError.t) * Fuel.t) :=
  poll_with (fun f => negb (Fuel.should_continue f)).
End Unpack.
End Unpack.

(** ** [packsize.rs] *)
Module PackSize.
Import Walk.
#[local] Notation "'let*' x ':=' m 'in' k" := (bind m (fun x => k)) (at level 10, x pattern, m at level 100, k at level 200).
#[local] Notation "m ';;;' k" := (bind m (fun _ => k)) (at level 100, k at level 200, right associativity).

(** [PacksizeSequence] *)
Record t : Type := mk { fmt : FormatCursor.t; state : FormatState; total_size : Z }.

#[global] Instance packsize_formatted : Formatted t := {|
  Walk.cursor := fmt;
  Walk.set_cursor := fun c s => mk c (state s) (total_size s);
  Walk.state := state;
  Walk.set_state := fun st s => mk (fmt s) st (total_size s)
|}.

Definition create (format : list Z) : t := mk (FormatCursor.create format) default_state 0.

Definition add (amount : Z) : M t unit :=
  let* s := get in
  match checked usize (total_size s + amount) with
  | Some n =>
      if n <=? MAX_STRING_PACK_BYTES then modify (fun s => mk (fmt s) (state s) n)
      else throw PackError.TooLarge
  | None => throw PackError.TooLarge
  end.

Definition add_padding (size : Z) : M t unit :=
  let* s := get in
  let* n := padding (total_size s) size in
  add n.

Definition process_option (format_char : Z) : M t unit :=
  let c := Conversion.of_char format_char in
  match c with
  | Conversion.Little_ => set_endianness Little
  | Conversion.Big_ => set_endianness Big
  | Conversion.Native_ => set_endianness Native
  | Conversion.Align => set_alignment
  | Conversion.Blank => ret tt
  | Conversion.Zero => add 1
  | Conversion.AlignTo => let* size := align_size in add_padding size
  | Conversion.I8 | Conversion.U8 | Conversion.I16 | Conversion.U16 | Conversion.I64 | Conversion.U64
  | Conversion.Float | Conversion.Double =>
      let* data_size := lift (match get_format_size c None with Some n => Ok n | None => Panic end) in
      add_padding data_size ;;; add data_size
  | Conversion.Int | Conversion.UInt =>
      let* size := parse_size 4 in add_padding size ;;; add size
  | Conversion.Chars =>
      let* num_opt := parse_number in
      match num_opt with
      | None => throw PackError.MissingSize
      | Some n => add n
      end
  | Conversion.ZString | Conversion.LString => throw (PackError.VariableLength format_char)
  | Conversion.Invalid => throw (PackError.InvalidOption format_char)
  end.

(** [poll]: the size when the loop has ended *)
Definition poll_with (yields : Fuel.t -> bool) (f : Fuel.t) (s : t)
  : outcome ((SequencePoll t Z + PackError.t) * Fuel.t) :=
  '(r, s, f) ← run (turns s) yields process_option f s;
  Ok (match r with
      | inr e => inr e
      | inl true => inl (Return (wrap i64 (total_size s)))
      | inl false => inl (Pending s)
      end, f).
Definition poll : Fuel.t -> t -> outcome ((SequencePoll t Z + PackError.t) * Fuel.t) :=
  poll_with (fun f => negb (Fuel.should_continue f)).
End PackSize.
