(* ===== verification/PackTheorems.v ===== *)
(** * [string.pack], [string.unpack] and [string.packsize]: proofs

    [WalkFacts]: a walk of a format as a big-step relation, and polling it.  Then the sequences:
    that they answer, what [unpack] gives back of what [pack] wrote, and the size. *)

From Stdlib Require Import SpecFloat.
From stdpp Require Import list_numbers.
From S2P Require Import Prelude Slices Float64 Utf8 StringUtils Constant Value Limits RawTable Table Pack.

(** ** Numbers read from text are in range. *)
Module ReadRange.
Import F64Bounds StringUtils.
Lemma finish_in_int neg i r : 0 <= i -> finish_integer neg i = Some r -> in_int i64 r.
Proof.
  unfold finish_integer. intros Hi. destruct neg; [|intros [E ->]%checked_Some; exact E].
  destruct (Z.leb_spec i (int_max i64)); [intros [= <-]; int_lia|].
  case_match; [|done]. intros [= <-]. int_lia.
Qed.

Lemma read_digits_nonneg from base s : forall i r, read_digits from base s i = Some r -> 0 <= i -> 0 <= r.
Proof.
  induction s as [|c s IH]; intros i r; cbn [read_digits]; [by intros [= <-]|].
  destruct (from c) as [d|]; [|done]. cbn [mbind option_bind].
  destruct (checked u64 (i * base)) as [i1|]; [|done]. cbn [mbind option_bind].
  destruct (checked u64 (i1 + d)) as [i2|] eqn:E; [|done]. cbn [mbind option_bind].
  apply checked_Some in E as [E ->]. intros Hr Hi. apply IH in Hr; [done|]. revert E. int_lia.
Qed.

Lemma read_integer_in_int s i : read_integer s = Some i -> in_int i64 i.
Proof.
  assert (Hd : forall s i, read_dec_integer s = Some i -> in_int i64 i).
  { intros s0 i0. unfold read_dec_integer. destruct (read_neg s0) as [neg [|c l]]; [done|].
    destruct (read_digits _ _ _ _) as [r|] eqn:E; [|done]. intros Hf. apply finish_in_int in Hf; [done|].
    by apply read_digits_nonneg in E. }
  assert (Hh : forall s i, read_hex_integer s = Some i -> in_int i64 i).
  { intros s0 i0. unfold read_hex_integer. destruct (read_neg s0) as [neg l]. destruct (hex_prefixed l) as [l'|]; [|done].
    cbn [mbind option_bind]. destruct (read_digits _ _ _ _) as [r|] eqn:E; [|done]. intros Hf. apply finish_in_int in Hf; [done|].
    by apply read_digits_nonneg in E. }
  unfold read_integer. destruct (read_hex_integer s) as [j|] eqn:E; [intros [= <-]; by apply Hh in E|apply Hd].
Qed.

Lemma ldexp_in_int x e : in_int u64 x -> in_int u64 (ldexp x e).
Proof.
  intros Hx. assert (Hmant := F64.fields_bounds x).
  assert (Hf : forall (v : f64) o m, 0 <= m < 2 ^ 52 ->
    in_int u64 (let new_exp := saturating i32 (o + e) in
      if 2047 <=? new_exp then F64.copysign F64.INFINITY v
      else if new_exp <=? -54 then F64.copysign F64.ZERO v
      else if new_exp <=? 0 then F64.mul (F64.from_parts (F64.is_sign_negative v) (new_exp + 54) m) (iexp2 (-54))
      else F64.from_parts (F64.is_sign_negative v) new_exp m)).
  { intros v o m Hm. cbn zeta. destruct (Z.leb_spec 2047 (saturating i32 (o + e))).
    { apply copysign_in_int, in_intb_spec. reflexivity. }
    destruct (Z.leb_spec (saturating i32 (o + e)) (-54)); [apply copysign_in_int, in_intb_spec; reflexivity|].
    destruct (Z.leb_spec (saturating i32 (o + e)) 0); [apply mul_in_int|]. apply from_parts_in_int; lia. }
  unfold ldexp. destruct (F64.exp_field x =? 0).
  - destruct (F64.mant_field x =? 0); [done|]. apply Hf. lia.
  - destruct (F64.exp_field x =? 2047); [done|]. apply Hf. lia.
Qed.

Lemma hex_loop_in_int s : forall st st' rest, hex_float_loop st s = Some (st', rest) -> in_int u64 (base st) -> in_int u64 (base st').
Proof.
  induction s as [|c s IH]; intros st st' rest; cbn [hex_float_loop]; [by intros [= <- _]|].
  destruct (c =? _); [case_match; [done|]; intros Hl Hb; by apply IH in Hl|].
  destruct (from_hex_digit c) as [d|]; [|by intros [= <- _]].
  match goal with |- context [(if ?a && ?b then _ else _)] => destruct (a && b) end; cbn [mbind option_bind].
  { destruct (if found_dot st then _ else _) as [e'|]; [|done]; cbn [mbind option_bind]. intros Hl Hb. by apply IH in Hl. }
  destruct (significant_digits st <? _); cbn [mbind option_bind].
  { destruct (if found_dot st then _ else _) as [e'|]; [|done]; cbn [mbind option_bind]. intros Hl _. apply IH in Hl; [done|]. apply add_in_int. }
  destruct (checked i32 (exp st + 4)); [|done]. cbn [mbind option_bind].
  destruct (if found_dot st then _ else _) as [e'|]; [|done]; cbn [mbind option_bind]. intros Hl Hb. by apply IH in Hl.
Qed.

Lemma read_float_in_int s x : read_float s = Some x -> in_int u64 x.
Proof.
  assert (Hh : forall s x, read_hex_float s = Some x -> in_int u64 x).
  { intros s0 x0. unfold read_hex_float. destruct (read_neg s0) as [neg l]. destruct (hex_prefixed l) as [l'|]; [|done].
    cbn [mbind option_bind]. destruct (hex_float_loop _ l') as [[st rest]|] eqn:E; [|done].
    apply hex_loop_in_int in E; [|apply in_intb_spec; reflexivity]. cbn [mbind option_bind].
    case_match; [done|]. match goal with |- (?m ≫= _) = _ -> _ => destruct m end; [|done]. cbn [mbind option_bind].
    intros Hs. injection Hs as <-. apply ldexp_in_int. case_match; [by apply neg_in_int|done]. }
  unfold read_float, read_dec_float. destruct (read_hex_float s) as [y|] eqn:E; [intros [= <-]; by apply Hh in E|].
  destruct (Utf8.from_utf8 s); [|done]. apply from_str_in_int.
Qed.

(** What a well-formed constant is as a number *)
Lemma numbers_in_int {S} `{AsBytes S} (c : Constant.t S) : Constant.wf c ->
  (forall i, Constant.to_integer c = Some i -> in_int i64 i) /\ (forall x, Constant.to_number c = Some x -> in_int u64 x).
Proof.
  intros Hc. assert (Hn : forall d, Constant.to_numeric c = Some d -> Constant.wf d).
  { destruct c as [|b|i|n|s]; intros d; cbn [Constant.to_numeric]; try done; try by intros [= <-].
    destruct (read_integer _) as [j|] eqn:E; [intros [= <-]; by apply read_integer_in_int in E|].
    destruct (read_float _) as [y|] eqn:E2; [|done]. intros Hd. injection Hd as <-. by apply read_float_in_int in E2. }
  unfold Constant.to_integer, Constant.to_number. destruct (Constant.to_numeric c) as [d|] eqn:E; [|done].
  specialize (Hn d eq_refl). destruct d as [|b|i|n|s]; try done.
  - split; intros r; intros Hr; injection Hr as <-; [exact Hn|apply of_scaled_in_int].
  - split; intros r; [|intros Hr; injection Hr as <-; exact Hn]. case_match; [|done]. intros Hr. injection Hr as <-.
    unfold F64.to_i64. repeat case_match; try (apply in_intb_spec; reflexivity). apply saturating_in_int, _.
Qed.
End ReadRange.

(** ** The cursor *)
Module CursorFacts.
(** What is left of the format is text. *)
Definition ready (c : FormatCursor.t) : Prop :=
  (FormatCursor.pos c <= length (FormatCursor.bytes c))%nat /\
  Utf8.is_utf8 (drop (FormatCursor.pos c) (FormatCursor.bytes c)) = true.
Definition further (c c' : FormatCursor.t) : Prop :=
  FormatCursor.bytes c' = FormatCursor.bytes c /\ (FormatCursor.pos c <= FormatCursor.pos c')%nat.

#[export] Instance further_preorder : PreOrder further.
Proof. split; [done|]. intros x y z [H1 H2] [H3 H4]. split; [congruence|lia]. Qed.

Lemma create_ready fmt : Utf8.is_utf8 fmt = true -> ready (FormatCursor.create fmt).
Proof. intros Hf. split; cbn; [lia|done]. Qed.

Lemma first_char_ok s : s <> [] -> Utf8.is_utf8 s = true ->
  exists c n, FormatCursor.first_char s = Some (c, n) /\ (0 < n <= length s)%nat /\ Utf8.is_utf8 (drop n s) = true.
Proof.
  intros Hs Hu. destruct s as [|a s]; [done|]. cbn [FormatCursor.first_char Utf8.is_utf8] in *.
  unfold Utf8.between in Hu.
  repeat case_match; bool_to_prop; subst; try discriminate; try lia;
    (eexists _, _; split; [reflexivity|]; cbn [drop length]; split; [lia|];
     repeat match goal with H : _ && _ = true |- _ => apply andb_true_iff in H as [? ?] end; done).
Qed.

Lemma next_char_ok c : ready c ->
  (FormatCursor.is_done c = true /\ FormatCursor.next_char c = Ok None) \/
  (FormatCursor.is_done c = false /\
   exists ch c', FormatCursor.next_char c = Ok (Some (ch, c')) /\ ready c' /\ further c c' /\
     (FormatCursor.pos c < FormatCursor.pos c')%nat).
Proof.
  intros [Hp Hu]. unfold FormatCursor.is_done, FormatCursor.next_char.
  rewrite SliceFacts.slice_end, outcome_bind_Ok by done. unfold Utf8.from_utf8. rewrite Hu. cbn [mbind option_bind].
  destruct (Nat.leb_spec (length (FormatCursor.bytes c)) (FormatCursor.pos c)) as [Hl|Hl].
  { left. split; [done|]. by rewrite drop_ge by lia. }
  right. split; [done|]. destruct (first_char_ok (drop (FormatCursor.pos c) (FormatCursor.bytes c))) as (ch & n & -> & Hn & Hd).
  { intros E. apply (f_equal length) in E. rewrite length_drop in E. cbn in E. lia. }
  { done. }
  rewrite length_drop in Hn. eexists _, _. split; [reflexivity|]. rewrite drop_drop in Hd.
  split; [split; cbn; [lia|done]|]. split; [split; cbn; [done|lia]|]. cbn. lia.
Qed.

Lemma digits_ok s : forall v k v' k', FormatCursor.digits s v k = Some (v', k') -> 0 <= v <= int_max usize ->
  Utf8.is_utf8 s = true ->
  exists j, k' = (k + j)%nat /\ (j <= length s)%nat /\ Utf8.is_utf8 (drop j s) = true /\ 0 <= v' <= int_max usize.
Proof.
  induction s as [|b s IH]; intros v k v' k'; cbn [FormatCursor.digits].
  { intros [= <- <-] Hv Hu. exists O. split; [lia|]. done. }
  destruct (_ && _) eqn:Eb.
  2:{ intros [= <- <-] Hv Hu. exists O. split; [lia|]. split; [lia|]. done. }
  destruct (checked usize (v * 10)) as [v1|] eqn:E1; [|done]. cbn [mbind option_bind].
  destruct (checked usize (v1 + _)) as [v2|] eqn:E2; [|done]. cbn [mbind option_bind].
  intros Hd Hv Hu. apply checked_Some in E2 as [E2 ->]. apply IH in Hd as (j & -> & Hj & Hu' & Hv').
  - exists (S j). split; [lia|]. split; [cbn; lia|]. done.
  - exact E2.
  - bool_to_prop. cbn [Utf8.is_utf8] in Hu. by rewrite Utf8.between_true in Hu by lia.
Qed.

Lemma parse_number_ok c : ready c ->
  match FormatCursor.parse_number c with
  | inl (n, c') => ready c' /\ further c c' /\ (forall v, n = Some v -> in_int usize v)
  | inr _ => True
  end.
Proof.
  intros [Hp Hu]. unfold FormatCursor.parse_number.
  destruct (FormatCursor.digits _ 0 0) as [[v k]|] eqn:E; [|done].
  apply digits_ok in E as (j & -> & Hj & Hd & Hv); [|unfold int_max; cbn; lia|done].
  rewrite length_drop in Hj. rewrite drop_drop in Hd. split; [split; cbn; [lia|done]|].
  split; [split; cbn; [done|lia]|]. intros w. case_match; [done|]. intros [= <-]. exact Hv.
Qed.
End CursorFacts.

(** ** Walks *)
Module WalkFacts.
Import Walk CursorFacts.
Class FormattedLaws (St : Type) `{Formatted St} : Prop := {
  cursor_set_cursor c s : cursor (set_cursor c s) = c;
  cursor_set_state st s : cursor (set_state st s) = cursor s;
  state_set_cursor c s : state (set_cursor c s) = state s;
  state_set_state st s : state (set_state st s) = st
}.

Section Rules.
Context {St : Type} `{FormattedLaws St}.
(** An invariant of the rest of the state *)
Context (I : St -> Prop) (I_cursor : forall c s, I s -> I (set_cursor c s)) (I_state : forall st s, I s -> I (set_state st s)).

Definition good (s : St) : Prop := I s /\ ready (cursor s).

(** From [s], the computation gives an answer that satisfies [Q], or an error, and no panic. *)
Definition gives {A} (s : St) (m : M St A) (Q : A -> St -> Prop) : Prop :=
  exists r s', m s = Ok (r, s') /\ good s' /\ further (cursor s) (cursor s') /\
    match r with inl a => Q a s' | inr _ => True end.

Lemma gives_ret {A} s (a : A) Q : good s -> Q a s -> gives s (ret a) Q.
Proof. intros Hs HQ. by exists (inl a), s. Qed.
Lemma gives_throw {A} s e (Q : A -> St -> Prop) : good s -> gives s (throw e) Q.
Proof. intros Hs. by exists (inr e), s. Qed.
Lemma gives_lift {A} s (o : outcome A) a (Q : A -> St -> Prop) : good s -> o = Ok a -> Q a s -> gives s (lift o) Q.
Proof. intros Hs -> HQ. by exists (inl a), s. Qed.
Lemma gives_get s (Q : St -> St -> Prop) : good s -> Q s s -> gives s get Q.
Proof. intros Hs HQ. by exists (inl s), s. Qed.
Lemma gives_modify s f (Q : unit -> St -> Prop) : good (f s) -> further (cursor s) (cursor (f s)) -> Q tt (f s) ->
  gives s (modify f) Q.
Proof. intros Hs Hf HQ. by exists (inl tt), (f s). Qed.
Lemma gives_try {A} s (r : A + PackError.t) (Q : A -> St -> Prop) : good s ->
  (forall a, r = inl a -> Q a s) -> gives s (try_ r) Q.
Proof. intros Hs HQ. destruct r as [a|e]; [apply gives_ret; auto|by apply gives_throw]. Qed.

Lemma gives_bind {A B} s (m : M St A) (k : A -> M St B) Q Q' : gives s m Q ->
  (forall a s', good s' -> Q a s' -> gives s' (k a) Q') -> gives s (bind m k) Q'.
Proof.
  intros (r & s1 & Hm & Hg & Hf & HQ) Hk. unfold gives, bind. rewrite Hm, outcome_bind_Ok.
  destruct r as [a|e]; [|by exists (inr e), s1].
  destruct (Hk a s1 Hg HQ) as (r & s2 & E & Hg2 & Hf2 & HQ2). exists r, s2.
  do 2 (split; [done|]). split; [by etrans|done].
Qed.

Lemma gives_mono {A} s (m : M St A) (Q Q' : A -> St -> Prop) : gives s m Q -> (forall a s', Q a s' -> Q' a s') -> gives s m Q'.
Proof. intros (r & s1 & Hm & Hg & Hf & HQ) Hi. exists r, s1. do 3 (split; [done|]). destruct r; auto. Qed.

Lemma gives_next_char s : good s -> gives s next_char (fun _ _ => True).
Proof.
  intros Hg. unfold next_char. eapply gives_bind with (Q := fun a b => a = b); [by apply gives_get|].
  intros s' s1 Hg1 ->. destruct (next_char_ok (cursor s1)) as [[_ E]|(_ & ch & c' & E & Hr & Hf & Hp)]; [apply Hg1|..].
  - eapply gives_bind with (Q := fun a _ => a = None); [by eapply gives_lift|].
    intros a s2 Hg2 ->. by apply gives_ret.
  - eapply gives_bind with (Q := fun a b => a = Some (ch, c') /\ b = s1); [by eapply gives_lift|].
    intros a s2 Hg2 [-> ->]. eapply gives_bind with (Q := fun _ _ => True).
    + apply gives_modify; [|by rewrite cursor_set_cursor|done]. split; [apply I_cursor, Hg1|by rewrite cursor_set_cursor].
    + intros ? s3 Hg3 _. by apply gives_ret.
Qed.

Lemma gives_parse_number s : good s -> gives s parse_number (fun n _ => forall v, n = Some v -> in_int usize v).
Proof.
  intros Hg. unfold parse_number. eapply gives_bind with (Q := fun a b => a = b); [by apply gives_get|].
  intros s' s1 Hg1 ->. pose proof (parse_number_ok (cursor s1) (proj2 Hg1)) as Hn.
  destruct (FormatCursor.parse_number (cursor s1)) as [[n c]|e].
  - destruct Hn as (Hr & Hf & Hv).
    eapply gives_bind with (Q := fun a b => a = (n, c) /\ b = s1); [by apply gives_ret|].
    intros a s2 Hg2 [-> ->]. eapply gives_bind with (Q := fun _ _ => True).
    + apply gives_modify; [|by rewrite cursor_set_cursor|done]. split; [apply I_cursor, Hg1|by rewrite cursor_set_cursor].
    + intros ? s3 Hg3 _. by apply gives_ret.
  - eapply gives_bind with (Q := fun _ _ => False); [by apply gives_throw|done].
Qed.

Lemma gives_set_state s f : good s -> gives s (modify (fun s => set_state (f s) s)) (fun _ _ => True).
Proof.
  intros Hg. apply gives_modify; [|by rewrite cursor_set_state|done].
  split; [apply I_state, Hg|rewrite cursor_set_state; apply Hg].
Qed.

Lemma gives_set_alignment s : good s -> gives s set_alignment (fun _ _ => True).
Proof.
  intros Hg. unfold set_alignment. eapply gives_bind; [by apply gives_parse_number|]. intros n s1 Hg1 _. cbn beta.
  case_match; [by apply gives_throw|]. by apply (gives_set_state s1 (fun s => mk_FormatState (endianness (state s)) _)).
Qed.

Lemma gives_align_size s : good s -> gives s align_size (fun _ _ => True).
Proof.
  intros Hg. unfold align_size. eapply gives_bind; [by apply gives_next_char|]. intros [op|] s1 Hg1 _; [|by apply gives_throw].
  eapply gives_bind with (Q := fun _ _ => True).
  - destruct (Conversion.of_char op);
      first [by apply gives_ret | eapply gives_mono; [by apply gives_parse_number|done]].
  - intros n s2 Hg2 _. by apply gives_try.
Qed.

Lemma gives_parse_size s d : good s -> gives s (parse_size d) (fun n _ => 1 <= n <= 16).
Proof.
  intros Hg. unfold parse_size. eapply gives_bind; [by apply gives_parse_number|]. intros n s1 Hg1 _.
  apply gives_try; [done|]. unfold integral_size. intros a. case_match; [done|]. intros [= <-]. bool_to_prop. lia.
Qed.

Lemma gives_padding s p n (Q : Z -> St -> Prop) : good s -> (forall a, Q a s) -> gives s (padding p n) Q.
Proof.
  intros Hg HQ. unfold padding. eapply gives_bind with (Q := fun a b => a = b /\ b = s); [by apply gives_get|].
  intros s' s1 Hg1 [-> ->]. by apply gives_ret.
Qed.
End Rules.

(** The whole walk, however it is cut into slices *)
Section Loop.
Context {St : Type} `{FormattedLaws St} (process : Z -> M St unit).

Inductive walk : St -> (unit + PackError.t) -> St -> Prop :=
  | walk_end s : next_char s = Ok (inl None, s) -> walk s (inl tt) s
  | walk_error s ch s1 e s2 : next_char s = Ok (inl (Some ch), s1) -> process ch s1 = Ok (inr e, s2) ->
      walk s (inr e) s2
  | walk_next s ch s1 s2 r s3 : next_char s = Ok (inl (Some ch), s1) -> process ch s1 = Ok (inl tt, s2) ->
      walk s2 r s3 -> walk s r s3.

Lemma walk_deterministic s r s' : walk s r s' -> forall r2 s2, walk s r2 s2 -> r = r2 /\ s' = s2.
Proof.
  assert (Heq : forall {A} (m : outcome A) a b, m = Ok a -> m = Ok b -> a = b) by congruence.
  induction 1; intros q t Hw; inversion Hw; subst;
    repeat match goal with H1 : ?m = Ok _, H2 : ?m = Ok _ |- _ =>
      pose proof (Heq _ _ _ _ H1 H2); clear H2; simplify_eq end; eauto.
Qed.

Lemma next_char_no_error s e s' : next_char s <> Ok (inr e, s').
Proof.
  unfold next_char, bind, get, lift, ret, modify, throw. rewrite outcome_bind_Ok.
  destruct (FormatCursor.next_char (cursor s)) as [[[ch c]|]|]; cbn; congruence.
Qed.

Lemma next_char_end s s' : next_char s = Ok (inl None, s') -> s' = s.
Proof.
  unfold next_char, bind, get, lift, ret, modify, throw. rewrite outcome_bind_Ok.
  destruct (FormatCursor.next_char (cursor s)) as [[[ch c]|]|]; cbn; congruence.
Qed.

(** A run is a part of the walk. *)
Lemma run_walk turns yields : forall f s b s' f', run turns yields process f s = Ok (b, s', f') ->
  match b with
  | inr e => walk s (inr e) s'
  | inl true => walk s (inl tt) s' /\ next_char s' = Ok (inl None, s')
  | inl false => forall r s2, walk s' r s2 -> walk s r s2
  end.
Proof.
  induction turns as [|turns IH]; intros f s b s' f'; cbn [run]; [done|].
  destruct (next_char s) as [[[[ch|]|e] s1]|] eqn:En; rewrite ?outcome_bind_Ok; [..|done].
  - destruct (process ch s1) as [[[[]|e] s2]|] eqn:Ep; rewrite ?outcome_bind_Ok; [..|done].
    + case_match.
      * intros [= <- <- <-] r s3 Hw. by eapply walk_next.
      * intros Hr. apply IH in Hr. destruct b as [[|]|e].
        -- destruct Hr as [Hr Hn]. split; [by eapply walk_next|done].
        -- intros r s3 Hw. eapply walk_next; eauto.
        -- by eapply walk_next.
    + intros [= <- <- <-]. by eapply walk_error.
  - intros [= <- <- <-]. pose proof (next_char_end _ _ En) as ->. split; [by apply walk_end|done].
  - by destruct (next_char_no_error _ _ _ En).
Qed.
End Loop.

Section Answers.
Context {St : Type} `{FormattedLaws St} (process : Z -> M St unit).
Context (I : St -> Prop) (I_cursor : forall c s, I s -> I (set_cursor c s)).
Context (process_gives : forall ch s, good I s -> gives I s (process ch) (fun _ _ => True)).

(** The loop comes to its end or to an error. *)
Lemma run_answers turns yields : forall f s, good I s ->
  (length (FormatCursor.bytes (cursor s)) - FormatCursor.pos (cursor s) < turns)%nat ->
  exists b s' f', run turns yields process f s = Ok (b, s', f') /\ good I s' /\ further (cursor s) (cursor s') /\
    match b with
    | inl b => FormatCursor.is_done (cursor s') = b /\
        (b = false -> (FormatCursor.pos (cursor s) < FormatCursor.pos (cursor s'))%nat)
    | inr _ => True
    end.
Proof.
  induction turns as [|turns IH]; intros f s Hg Ht; [lia|]. cbn [run].
  unfold next_char, bind, get, lift, ret, modify. rewrite outcome_bind_Ok.
  destruct (next_char_ok (cursor s)) as [[Hd ->]|(Hd & ch & c & -> & Hr & Hf & Hp)]; [apply Hg|..]; rewrite !outcome_bind_Ok.
  { eexists (inl true), s, f. do 2 (split; [done|]). done. }
  set (s1 := set_cursor c s).
  assert (Hs1 : good I s1) by (split; unfold s1; [apply I_cursor, Hg|by rewrite cursor_set_cursor]).
  assert (Hc1 : cursor s1 = c) by apply cursor_set_cursor.
  destruct (process_gives ch s1 Hs1) as (r & s2 & -> & Hg2 & Hf2 & _). rewrite outcome_bind_Ok, Hc1 in *.
  assert (Hss : further (cursor s) (cursor s2)) by (by etrans). destruct Hf, Hf2.
  destruct r as [[]|e]; [|by eexists (inr e), s2, _].
  destruct (yields _ && negb (FormatCursor.is_done (cursor s2))) eqn:Ey.
  - apply andb_true_iff in Ey as [_ Ey%negb_true_iff]. eexists (inl false), s2, _. split; [done|].
    do 3 (split; [done|]). lia.
  - destruct (IH (Fuel.consume FUEL_PER_FORMAT_BYTE f) s2 Hg2) as (b & s3 & f3 & E & Hg3 & Hf3 & Hb).
    { unfold FormatCursor.is_done in Hd. apply Nat.leb_gt in Hd. destruct Hss as [-> _]. lia. }
    exists b, s3, f3. split; [done|]. split; [done|]. split; [by etrans|].
    destruct b as [b|]; [|done]. destruct Hb as [Hb Hl]. split; [done|]. intros Hf. specialize (Hl Hf). lia.
Qed.
End Answers.

(** Polls with one slice of fuel after the other *)
Fixpoint polls {St A} (poll : Fuel.t -> St -> outcome ((SequencePoll St A + PackError.t) * Fuel.t)) (fs : list Fuel.t) (s : St)
  : outcome (SequencePoll St A + PackError.t) :=
  match fs with
  | [] => Ok (inl (Pending s))
  | f :: fs =>
      '(r, _) ← poll f s;
      match r with
      | inl (Pending s) => polls poll fs s
      | r => Ok r
      end
  end.

Section Polls.
Context {St A : Type} `{FormattedLaws St} (process : Z -> M St unit) (I : St -> Prop) (result : St -> outcome A).
Abbreviation walk := (walk process).

(** What a poll of the sequence does: it gives what the walk gives, or a state further on the walk. *)
Definition poll_ok (poll : Fuel.t -> St -> outcome ((SequencePoll St A + PackError.t) * Fuel.t)) : Prop :=
  forall f s, good I s -> exists r f', poll f s = Ok (r, f') /\
    match r with
    | inl (Pending s') => good I s' /\ further (cursor s) (cursor s') /\ FormatCursor.is_done (cursor s') = false /\
        (FormatCursor.pos (cursor s) < FormatCursor.pos (cursor s'))%nat /\
        (forall r s2, walk s' r s2 -> walk s r s2)
    | inl (Return a) => exists s', walk s (inl tt) s' /\ result s' = Ok a
    | inr e => exists s', walk s (inr e) s'
    end.

Lemma polls_answer poll fs : poll_ok poll -> forall s, good I s ->
  (length (FormatCursor.bytes (cursor s)) - FormatCursor.pos (cursor s) < length fs)%nat ->
  exists r, polls poll fs s = Ok r /\
    match r with
    | inl (Pending _) => False
    | inl (Return a) => exists s', walk s (inl tt) s' /\ result s' = Ok a
    | inr e => exists s', walk s (inr e) s'
    end.
Proof.
  intros Hp. induction fs as [|f fs IH]; intros s Hg Hl; cbn [length] in Hl; [lia|]. cbn [polls].
  destruct (Hp f s Hg) as (r & f' & -> & Hr). rewrite outcome_bind_Ok.
  destruct r as [[s'|a]|e]; [|by eexists (inl (Return a))|by eexists (inr e)].
  destruct Hr as (Hg' & [Hb _] & Hd & Hpos & Hw). unfold FormatCursor.is_done in Hd. apply Nat.leb_gt in Hd.
  destruct (IH s' Hg') as (r & E & Hr); [rewrite Hb in *; lia|].
  exists r. split; [done|]. destruct r as [[|a]|e]; [done|..].
  - destruct Hr as (s2 & H2 & Ha). eauto.
  - destruct Hr as (s2 & H2). eauto.
Qed.

(** The answer is that of the walk, so it does not depend on the slices. *)
Lemma polls_agree poll poll' fs fs' s r : poll_ok poll -> poll_ok poll' -> good I s ->
  (length (FormatCursor.bytes (cursor s)) - FormatCursor.pos (cursor s) < length fs)%nat ->
  (length (FormatCursor.bytes (cursor s)) - FormatCursor.pos (cursor s) < length fs')%nat ->
  polls poll fs s = Ok r -> polls poll' fs' s = Ok r.
Proof.
  intros Hp Hp' Hg Hl Hl' E.
  destruct (polls_answer poll fs Hp s Hg Hl) as (r1 & E1 & H1).
  destruct (polls_answer poll' fs' Hp' s Hg Hl') as (r2 & E2 & H2).
  assert (r1 = r) as -> by congruence. rewrite E2. f_equal.
  destruct r as [[|a]|e]; [done|..]; destruct r2 as [[|a2]|e2]; try done.
  - destruct H1 as (s1 & W1 & R1), H2 as (s2 & W2 & R2).
    destruct (walk_deterministic _ _ _ _ W1 _ _ W2) as [_ ->]. congruence.
  - destruct H1 as (s1 & W1 & _), H2 as (s2 & W2). by destruct (walk_deterministic _ _ _ _ W1 _ _ W2).
  - destruct H1 as (s1 & W1), H2 as (s2 & W2 & _). by destruct (walk_deterministic _ _ _ _ W1 _ _ W2).
  - destruct H1 as (s1 & W1), H2 as (s2 & W2). destruct (walk_deterministic _ _ _ _ W1 _ _ W2). congruence.
Qed.
End Polls.
End WalkFacts.

(** ** The three sequences answer *)
Module PackFacts.
Import Walk CursorFacts WalkFacts.

(** A bind whose first part gives anything *)
Ltac step := eapply gives_bind with (Q := fun _ _ => True).
Ltac got := eapply gives_bind with (Q := fun a b => a = b); [by apply gives_get|]; intros ? ? ? ->.

Section Pack.
Context `{Target} {S : Type} `{AsBytes S} `{DisplayFloat} (allocated : Z).
#[local] Instance pack_laws : FormattedLaws (Pack.t (S := S)).
Proof. by split. Qed.
Abbreviation gives := (gives (St := Pack.t (S := S)) (fun _ => True)).
Abbreviation good := (good (St := Pack.t (S := S)) (fun _ => True)).

(** A change of the state that leaves the cursor *)
Lemma pack_modify s (f : Pack.t -> Pack.t (S := S)) : good s -> Walk.cursor (f s) = Walk.cursor s -> gives s (modify f) (fun _ _ => True).
Proof. intros [_ Hg] Hc. apply gives_modify; [split; [done|by rewrite Hc]|by rewrite Hc|done]. Qed.

Lemma pack_extend s b : good s -> gives s (Pack.extend b) (fun _ _ => True).
Proof. intros Hg. by apply pack_modify. Qed.

Lemma pack_ensure s n : good s -> gives s (Pack.ensure_capacity allocated n) (fun _ _ => True).
Proof.
  intros Hg. unfold Pack.ensure_capacity, WalkFacts.gives. case_match; [by eexists _, s|].
  destruct (Memory.check _ _ _) as [r l]. eexists _, _. split; [done|]. split; [by split; [|apply Hg]|].
  split; [done|]. by destruct r.
Qed.

Lemma pack_zeros s n : good s -> gives s (Pack.push_zeros allocated n) (fun _ _ => True).
Proof. intros Hg. step; [by apply pack_ensure|]. intros _ s1 Hg1 _. by apply pack_extend. Qed.

Lemma pack_padding s n : good s -> gives s (Pack.push_padding allocated n) (fun _ _ => True).
Proof.
  intros Hg. unfold Pack.push_padding. got. step; [by apply gives_padding|]. intros ? ? ? _. by apply pack_zeros.
Qed.

Lemma pack_arg_num s : good s -> gives s Pack.arg_num (fun _ _ => True).
Proof. intros Hg. unfold Pack.arg_num. got. by apply gives_ret. Qed.

Lemma pack_get_arg s : good s -> gives s Pack.get_arg (fun _ _ => True).
Proof.
  intros Hg. unfold Pack.get_arg. got. case_match; [|by apply gives_throw].
  step; [by apply pack_modify|]. intros _ ? ? _. by apply gives_ret.
Qed.

Lemma pack_take {A} (take : M (Pack.t (S := S)) A) (f : Value.t S -> option A) (e : Z -> Value.t S -> PackError.t) s :
  take = bind Pack.arg_num (fun n => bind Pack.get_arg (fun v =>
    match f v with Some a => ret a | None => throw (e n v) end)) ->
  good s -> gives s take (fun _ _ => True).
Proof.
  intros -> Hg. step; [by apply pack_arg_num|]. intros n s1 Hg1 _. step; [by apply pack_get_arg|].
  intros v s2 Hg2 _. case_match; [by apply gives_ret|by apply gives_throw].
Qed.
Lemma pack_integer s : good s -> gives s Pack.take_integer (fun _ _ => True).
Proof. by apply (pack_take _ Value.to_integer (fun n _ => PackError.NoInteger n)). Qed.
Lemma pack_number s : good s -> gives s Pack.take_number (fun _ _ => True).
Proof. by apply (pack_take _ Value.to_number (fun n v => PackError.NumberExpected n (Value.type_name v))). Qed.
Lemma pack_string s : good s -> gives s Pack.take_string (fun _ _ => True).
Proof. by apply (pack_take _ Pack.into_string (fun n v => PackError.StringExpected n (Value.type_name v))). Qed.

Lemma length_le n v : length (to_le_bytes n v) = n.
Proof. pose proof (length_Z_to_little_endian (Z.of_nat n) 8 v ltac:(lia)). unfold to_le_bytes. lia. Qed.

Lemma pack_int s v size : 0 <= size <= 16 -> good s -> gives s (Pack.write_int v size) (fun _ _ => True).
Proof.
  intros Hs Hg. unfold Pack.write_int. got. step.
  - eapply gives_lift; [done|apply SliceFacts.slice_in; [lia|rewrite length_le; lia]|done].
  - intros le s1 Hg1 _. by apply pack_extend.
Qed.
Lemma pack_bits s v size : good s -> gives s (Pack.write_bits size v) (fun _ _ => True).
Proof. intros Hg. unfold Pack.write_bits. got. by apply pack_extend. Qed.

Lemma pack_padded_int s v size : 0 <= size <= 16 -> good s ->
  gives s (bind (Pack.push_padding allocated size) (fun _ => Pack.write_int v size)) (fun _ _ => True).
Proof. intros Hs Hg. step; [by apply pack_padding|]. intros _ ? ? _. by apply pack_int. Qed.

Lemma pack_signed s size lo hi : 0 <= size <= 16 -> good s ->
  gives s (Pack.pack_signed allocated size lo hi) (fun _ _ => True).
Proof.
  intros Hs Hg. step; [by apply pack_arg_num|]. intros n s1 Hg1 _. step; [by apply pack_integer|].
  intros v s2 Hg2 _. case_match; [by apply gives_throw|]. by apply pack_padded_int.
Qed.
Lemma pack_unsigned s size hi : 0 <= size <= 16 -> good s ->
  gives s (Pack.pack_unsigned allocated size hi) (fun _ _ => True).
Proof.
  intros Hs Hg. step; [by apply pack_arg_num|]. intros n s1 Hg1 _. step; [by apply pack_integer|].
  intros v s2 Hg2 _. case_match; [by apply gives_throw|]. by apply pack_padded_int.
Qed.

Lemma pack_process ch s : good s -> gives s (Pack.process_option allocated ch) (fun _ _ => True).
Proof.
  intros Hg. unfold Pack.process_option. destruct (Conversion.of_char ch);
    try (by apply (gives_set_state _ (fun _ _ _ => I) _ (fun s => mk_FormatState _ (max_alignment (Walk.state s)))));
    try (by apply pack_signed; [lia|]); try (by apply pack_unsigned; [lia|]).
  - by apply gives_set_alignment.
  - by apply gives_ret.
  - by apply pack_zeros.
  - step; [by apply gives_align_size|]. intros ? ? ? _. by apply pack_padding.
  - step; [by apply pack_integer|]. intros ? ? ? _. by apply pack_padded_int; [lia|].
  - step; [by apply pack_integer|]. intros ? ? ? _. by apply pack_padded_int; [lia|].
  - eapply gives_bind; [by apply gives_parse_size|]. intros size s1 Hg1 Hs. cbn beta in Hs. case_match.
    + apply pack_signed; [lia|done].
    + step; [by apply pack_integer|]. intros ? ? ? _. apply pack_padded_int; [lia|done].
  - eapply gives_bind; [by apply gives_parse_size|]. intros size s1 Hg1 Hs. cbn beta in Hs. case_match.
    + apply pack_unsigned; [lia|done].
    + step; [by apply pack_arg_num|]. intros n s2 Hg2 _. step; [by apply pack_integer|]. intros v s3 Hg3 _.
      case_match; [by apply gives_throw|]. apply pack_padded_int; [lia|done].
  - step; [by apply pack_number|]. intros ? ? ? _. step; [by apply pack_padding|]. intros ? ? ? _. by apply pack_bits.
  - step; [by apply pack_number|]. intros ? ? ? _. step; [by apply pack_padding|]. intros ? ? ? _. by apply pack_bits.
  - eapply gives_bind; [by apply gives_parse_number|]. intros [n|] s1 Hg1 _; [|by apply gives_throw].
    case_match; [by apply gives_throw|]. step; [by apply pack_arg_num|]. intros ? ? ? _.
    step; [by apply pack_string|]. intros b ? ? _. cbn beta. case_match; [by apply gives_throw|].
    step; [by apply pack_ensure|]. intros _ ? ? _. step; [by apply pack_extend|]. intros _ ? ? _. by apply pack_extend.
  - step; [by apply pack_arg_num|]. intros ? ? ? _. step; [by apply pack_string|]. intros b ? ? _. cbn beta.
    case_match; [by apply gives_throw|].
    step; [by apply pack_ensure|]. intros _ ? ? _. step; [by apply pack_extend|]. intros _ ? ? _. by apply pack_extend.
  - eapply gives_bind; [by apply gives_parse_size|]. intros size s1 Hg1 Hs. cbn beta in Hs.
    step; [by apply pack_string|]. intros b ? ? _. cbn beta. case_match; [by apply gives_throw|]. got.
    step; [by apply gives_padding|]. intros pad ? ? _. step; [by apply pack_ensure|]. intros _ ? ? _.
    step; [by apply pack_extend|]. intros _ ? ? _. step; [apply pack_int; [lia|done]|]. intros _ ? ? _. by apply pack_extend.
  - by apply gives_throw.
Qed.

Lemma pack_poll_ok yields : poll_ok (Pack.process_option allocated) (fun _ => True) (fun s => Ok (Pack.writer s))
  (Pack.poll_with (S := S) allocated yields).
Proof.
  intros f s Hg. unfold Pack.poll_with.
  destruct (run_answers (Pack.process_option allocated) (fun _ => True) (fun _ _ _ => I) pack_process
    (turns s) yields f s Hg) as (b & s' & f' & E & Hg' & Hf & Hb); [unfold turns; lia|].
  pose proof (run_walk _ _ _ _ _ _ _ _ E) as Hw. rewrite E, outcome_bind_Ok. eexists _, _. split; [done|].
  destruct b as [b|e]; [|by exists s']. destruct Hb as [Hd Hp]. cbn [Walk.cursor Pack.pack_formatted] in Hd. rewrite Hd.
  destruct b; [exists s'; by destruct Hw|]. do 4 (split; [by auto|]). exact Hw.
Qed.
End Pack.

Section Unpack.
Context `{BuildProfile} `{Target} {S : Type} `{Interning S}.
#[local] Instance unpack_laws : FormattedLaws (Unpack.t (S := S)).
Proof. by split. Qed.

(** The position is in the data, which fits into memory. *)
Definition inside (s : Unpack.t (S := S)) : Prop :=
  (Unpack.pos s <= length (Unpack.bytes s))%nat /\ Z.of_nat (length (Unpack.bytes s)) < int_max i64.
Abbreviation gives := (gives (St := Unpack.t (S := S)) inside).
Abbreviation good := (good (St := Unpack.t (S := S)) inside).

Lemma inside_cursor c s : inside s -> inside (Walk.set_cursor c s).
Proof. done. Qed.
Lemma inside_state st s : inside s -> inside (Walk.set_state st s).
Proof. done. Qed.
#[local] Hint Resolve inside_cursor inside_state : core.

Lemma unpack_advance s n e : 0 <= n -> good s ->
  gives s (Unpack.advance n e) (fun end_ s' => end_ = (Unpack.pos s + Z.to_nat n)%nat /\ (end_ <= length (Unpack.bytes s))%nat).
Proof.
  intros Hn Hg. unfold Unpack.advance. eapply gives_bind with (Q := fun a b => a = b /\ b = s); [by apply gives_get|].
  intros ? s1 _ [-> ->].
  destruct (checked usize _) as [m|] eqn:E; [|by apply gives_throw]. apply checked_Some in E as [_ ->].
  destruct (Z.ltb_spec (Z.of_nat (length (Unpack.bytes s))) (Z.of_nat (Unpack.pos s) + n)); [by apply gives_throw|].
  destruct Hg as [[Hp Hl] Hr]. step.
  - apply gives_modify; [|done|done]. split; [split; cbn; [lia|done]|done].
  - intros _ s1 Hg1 _. apply gives_ret; [done|]. lia.
Qed.

Lemma unpack_exact s n op : 0 <= n -> good s ->
  gives s (Unpack.read_exact n op) (fun l _ => length l = Z.to_nat n).
Proof.
  intros Hn Hg. unfold Unpack.read_exact. eapply gives_bind with (Q := fun a b => a = b /\ b = s); [by apply gives_get|].
  intros ? s1 _ [-> ->]. eapply gives_bind; [by apply unpack_advance|]. intros end_ s1 Hg1 [-> Hl].
  eapply gives_lift; [done|apply SliceFacts.slice_in; lia|]. rewrite length_take, length_drop. lia.
Qed.

Lemma unpack_skip s n : good s -> gives s (Unpack.skip_padding n) (fun _ _ => True).
Proof.
  intros Hg. unfold Unpack.skip_padding. destruct (Z.ltb_spec 0 n); [|by apply gives_ret].
  eapply gives_bind; [apply unpack_advance; [lia|done]|]. intros ? ? ? _. by apply gives_ret.
Qed.

Lemma unpack_skip_to s n : good s -> gives s (Unpack.skip_to n) (fun _ _ => True).
Proof.
  intros Hg. unfold Unpack.skip_to. got. step; [by apply gives_padding|]. intros ? ? ? _. by apply unpack_skip.
Qed.

Lemma length_in_order e l : length (in_order e l) = length l.
Proof. destruct e; cbn; [done|by rewrite length_rev|]. case_match; [done|by rewrite length_rev]. Qed.

Lemma unpack_le s n op : 0 <= n -> good s -> gives s (Unpack.read_le n op) (fun l _ => length l = Z.to_nat n).
Proof.
  intros Hn Hg. unfold Unpack.read_le. got. eapply gives_bind; [by apply unpack_exact|]. intros l ? ? Hl.
  apply gives_ret; [done|]. by rewrite length_in_order.
Qed.

Lemma unpack_push s v : good s -> gives s (Unpack.push v) (fun _ _ => True).
Proof. intros Hg. by apply gives_modify. Qed.

Lemma unpack_read_int s n op : 1 <= n -> good s -> gives s (Unpack.read_int n op) (fun _ _ => True).
Proof.
  intros Hn Hg. unfold Unpack.read_int. eapply gives_bind; [apply unpack_le; [lia|done]|]. intros le s1 Hg1 Hl. cbn beta in Hl.
  destruct (lookup_lt_is_Some_2 le (Z.to_nat (n - 1))) as [top Ht]; [lia|].
  step; [eapply gives_lift; [done|by apply SliceFacts.get_Some|done]|]. intros ? ? ? _. cbn zeta.
  case_match; [by apply gives_ret|by apply gives_throw].
Qed.

Lemma unpack_read_uint s n op : 0 <= n -> good s -> gives s (Unpack.read_uint n op) (fun _ _ => True).
Proof.
  intros Hn Hg. unfold Unpack.read_uint. step; [eapply gives_mono; [by apply unpack_le|done]|]. intros le s1 Hg1 _. cbn zeta.
  case_match; [by apply gives_ret|]. case_match; [by apply gives_throw|by apply gives_ret].
Qed.

Lemma unpack_int s n op : 1 <= n -> good s -> gives s (Unpack.unpack_int n op) (fun _ _ => True).
Proof.
  intros Hn Hg. step; [by apply unpack_skip_to|]. intros _ ? ? _. step; [by apply unpack_read_int|].
  intros ? ? ? _. by apply unpack_push.
Qed.
Lemma unpack_uint s n op : 0 <= n -> good s -> gives s (Unpack.unpack_uint n op) (fun _ _ => True).
Proof.
  intros Hn Hg. step; [by apply unpack_skip_to|]. intros _ ? ? _. step; [by apply unpack_read_uint|].
  intros ? ? ? _. by apply unpack_push.
Qed.

Lemma until_zero_length l m : Unpack.until_zero l = Some m -> (length m < length l)%nat.
Proof.
  revert m. induction l as [|b l IH]; cbn; [done|]. intros m. case_match; [intros [= <-]; cbn; lia|].
  destruct (Unpack.until_zero l) as [k|]; [|done]. intros [= <-]. specialize (IH k eq_refl). cbn. lia.
Qed.

Lemma unpack_process ch s : good s -> gives s (Unpack.process_option ch) (fun _ _ => True).
Proof.
  intros Hg. unfold Unpack.process_option. destruct (Conversion.of_char ch);
    try (by apply (gives_set_state inside inside_state _ (fun s => mk_FormatState _ (max_alignment (Walk.state s)))));
    try (by apply unpack_int; [lia|]); try (by apply unpack_uint; [lia|]).
  - by apply gives_set_alignment.
  - by apply gives_ret.
  - by apply unpack_skip.
  - step; [by apply gives_align_size|]. intros ? ? ? _. by apply unpack_skip_to.
  - eapply gives_bind; [by apply gives_parse_size|]. intros size s1 Hg1 Hs. cbn beta in Hs. apply unpack_int; [lia|done].
  - eapply gives_bind; [by apply gives_parse_size|]. intros size s1 Hg1 Hs. cbn beta in Hs. apply unpack_uint; [lia|done].
  - step; [by apply unpack_skip_to|]. intros ? ? ? _. step; [eapply gives_mono; [by apply unpack_le|done]|].
    intros ? ? ? _. by apply unpack_push.
  - step; [by apply unpack_skip_to|]. intros ? ? ? _. step; [eapply gives_mono; [by apply unpack_le|done]|].
    intros ? ? ? _. by apply unpack_push.
  - eapply gives_bind; [by apply gives_parse_number|]. intros [n|] s1 Hg1 Hn; [|by apply gives_throw].
    specialize (Hn n eq_refl). step; [eapply gives_mono; [apply unpack_exact; [apply Hn|done]|done]|].
    intros ? ? ? _. by apply unpack_push.
  - eapply gives_bind with (Q := fun a b => a = b /\ b = s); [by apply gives_get|]. intros ? s1 _ [-> ->].
    destruct Hg as [[Hp Hl] Hr].
    eapply gives_bind with (Q := fun a b => a = drop (Unpack.pos s) (Unpack.bytes s) /\ b = s).
    { eapply gives_lift; [done|apply SliceFacts.slice_end; lia|done]. }
    intros ? ? ? [-> ->]. destruct (Unpack.until_zero _) as [m|] eqn:Em; [|by apply gives_throw].
    apply until_zero_length in Em. rewrite length_drop in Em.
    eapply gives_bind with (Q := fun _ b => Unpack.bytes b = Unpack.bytes s); [by apply gives_modify|].
    intros _ s1 [[_ _] Hr1] Hb. apply gives_modify; [|done|done]. split; [|done]. split; cbn; rewrite Hb; [lia|done].
  - eapply gives_bind; [by apply gives_parse_size|]. intros size s1 Hg1 Hs. cbn beta in Hs.
    step; [by apply unpack_skip_to|]. intros ? ? ? _. step; [eapply gives_mono; [apply unpack_le; [lia|done]|done]|].
    intros le ? ? _. destruct (checked usize _) as [n|] eqn:En; [|by apply gives_throw].
    apply checked_Some in En as [En ->]. step; [eapply gives_mono; [apply unpack_exact; [apply En|done]|done]|].
    intros ? ? ? _. by apply unpack_push.
  - by apply gives_throw.
Qed.

Lemma unpack_result s : inside s ->
  Unpack.result s = Ok (Unpack.values s ++ [Value.Integer (Z.of_nat (Unpack.pos s) + 1)]).
Proof.
  intros [Hp Hl]. unfold Unpack.result. rewrite wrap_small by (try apply _; int_lia).
  by rewrite arith_in by int_lia.
Qed.

Lemma unpack_poll_ok yields : poll_ok Unpack.process_option inside Unpack.result (Unpack.poll_with (S := S) yields).
Proof.
  intros f s Hg. unfold Unpack.poll_with.
  destruct (run_answers Unpack.process_option inside inside_cursor unpack_process
    (turns s) yields f s Hg) as (b & s' & f' & E & Hg' & Hf & Hb); [unfold turns; lia|].
  pose proof (run_walk _ _ _ _ _ _ _ _ E) as Hw. rewrite E, outcome_bind_Ok.
  destruct b as [b|e]; [|eexists _, _; split; [done|by exists s']].
  destruct Hb as [Hd Hp]. cbn [Walk.cursor Unpack.unpack_formatted] in Hd. rewrite Hd.
  destruct b.
  - rewrite unpack_result, outcome_bind_Ok by apply Hg'. eexists _, _. split; [done|]. exists s'. split; [apply Hw|].
    apply unpack_result, Hg'.
  - eexists _, _. split; [done|]. do 4 (split; [by auto|]). exact Hw.
Qed.
End Unpack.

Section PackSize.
#[local] Instance packsize_laws : FormattedLaws PackSize.t.
Proof. by split. Qed.
Abbreviation gives := (gives (St := PackSize.t) (fun _ => True)).
Abbreviation good := (good (St := PackSize.t) (fun _ => True)).

Lemma size_add s n : good s -> gives s (PackSize.add n) (fun _ _ => True).
Proof.
  intros Hg. unfold PackSize.add. got. case_match; [|by apply gives_throw]. case_match; [|by apply gives_throw].
  by apply gives_modify; [|done|].
Qed.
Lemma size_add_padding s n : good s -> gives s (PackSize.add_padding n) (fun _ _ => True).
Proof. intros Hg. unfold PackSize.add_padding. got. step; [by apply gives_padding|]. intros ? ? ? _. by apply size_add. Qed.

Lemma size_process ch s : good s -> gives s (PackSize.process_option ch) (fun _ _ => True).
Proof.
  intros Hg. unfold PackSize.process_option. destruct (Conversion.of_char ch); cbn zeta iota; cbn [get_format_size];
    try (by apply (gives_set_state _ (fun _ _ _ => I) _ (fun s => mk_FormatState _ (max_alignment (Walk.state s)))));
    try (step; [by eapply gives_lift|]; intros ? ? ? _; step; [by apply size_add_padding|]; intros ? ? ? _; by apply size_add);
    try (step; [eapply gives_mono; [by apply gives_parse_size|done]|]; intros ? ? ? _;
         step; [by apply size_add_padding|]; intros ? ? ? _; by apply size_add);
    try (by apply gives_throw).
  - by apply gives_set_alignment.
  - by apply gives_ret.
  - by apply size_add.
  - step; [by apply gives_align_size|]. intros ? ? ? _. by apply size_add_padding.
  - eapply gives_bind; [by apply gives_parse_number|]. intros [n|] s1 Hg1 Hn; [|by apply gives_throw]. by apply size_add.
Qed.

Lemma size_poll_ok yields : poll_ok PackSize.process_option (fun _ => True)
  (fun s => Ok (wrap i64 (PackSize.total_size s))) (PackSize.poll_with yields).
Proof.
  intros f s Hg. unfold PackSize.poll_with.
  destruct (run_answers PackSize.process_option (fun _ => True) (fun _ _ _ => I) size_process
    (turns s) yields f s Hg) as (b & s' & f' & E & Hg' & Hf & Hb); [unfold turns; lia|].
  pose proof (run_walk _ _ _ _ _ _ _ _ E) as Hw. rewrite E, outcome_bind_Ok. eexists _, _. split; [done|].
  destruct b as [[|]|e]; [exists s'; by destruct Hw|..]; [|by exists s'].
  destruct Hb as [Hd Hp]. do 4 (split; [by auto|]). exact Hw.
Qed.
End PackSize.
End PackFacts.

(** ** What the sequences share: the cursor and the options *)
Module CoreFacts.
Import Walk CursorFacts WalkFacts.
Definition core : Type := FormatCursor.t * FormatState.
#[export] Instance core_formatted : Formatted core := {|
  cursor := fst; set_cursor := fun c s => (c, snd s); state := snd; set_state := fun st s => (fst s, st)
|}.

Class CoreLaws (St : Type) `{FormattedLaws St} : Prop := {
  put_same s : set_state (state s) (set_cursor (cursor s) s) = s;
  put_cursor c c' st s : set_cursor c (set_state st (set_cursor c' s)) = set_state st (set_cursor c s);
  put_state st st' s : set_state st (set_state st' s) = set_state st s
}.

Section Via.
Context {St : Type} `{CoreLaws St}.
Definition core_of (s : St) : core := (cursor s, state s).
Definition put (k : core) (s : St) : St := set_state (snd k) (set_cursor (fst k) s).

Lemma core_of_put k s : core_of (put k s) = k.
Proof.
  unfold core_of, put. rewrite cursor_set_state, cursor_set_cursor, state_set_state. by destruct k.
Qed.
Lemma put_twice k k' s : put k (put k' s) = put k s.
Proof. unfold put. by rewrite put_cursor, put_state. Qed.
Lemma put_core s : put (core_of s) s = s.
Proof. apply put_same. Qed.

(** The computation reads and writes the core alone. *)
Definition via {A} (m : M St A) (m0 : M core A) : Prop :=
  forall s, m s = ('(r, k) ← m0 (core_of s); Ok (r, put k s)).

Lemma via_ret {A} (a : A) : via (ret a) (ret a).
Proof. intros s. unfold ret. by rewrite outcome_bind_Ok, put_core. Qed.
Lemma via_throw {A} e : via (@throw _ A e) (throw e).
Proof. intros s. unfold throw. by rewrite outcome_bind_Ok, put_core. Qed.
Lemma via_bind {A B} (m : M St A) m0 (k : A -> M St B) k0 : via m m0 -> (forall a, via (k a) (k0 a)) -> via (bind m k) (bind m0 k0).
Proof.
  intros Hm Hk s. unfold bind. rewrite Hm. destruct (m0 (core_of s)) as [[[a|e] k1]|]; rewrite ?outcome_bind_Ok; [|done|done].
  rewrite Hk, core_of_put. destruct (k0 a k1) as [[r k2]|]; rewrite ?outcome_bind_Ok; [|done]. by rewrite put_twice.
Qed.
Lemma via_try {A} (r : A + PackError.t) : via (try_ r) (try_ r).
Proof. destruct r; [apply via_ret|apply via_throw]. Qed.
Lemma via_set_state f : via (modify (fun s => set_state (f (state s)) s)) (modify (fun s => set_state (f (state s)) s)).
Proof.
  intros s. unfold modify. rewrite outcome_bind_Ok. unfold put. cbn. do 2 f_equal.
  rewrite <- (put_same s) at 2. by rewrite put_state.
Qed.

Lemma put_set_cursor c s : set_cursor c s = put (c, state s) s.
Proof. unfold put. cbn. rewrite <- (put_same s) at 1. by rewrite put_cursor. Qed.

Lemma via_next_char : via next_char next_char.
Proof.
  intros s. unfold next_char, bind, get, lift, ret, modify. rewrite !outcome_bind_Ok. cbn [cursor core_formatted core_of fst].
  destruct (FormatCursor.next_char (cursor s)) as [[[ch c]|]|]; rewrite ?outcome_bind_Ok; [..|done].
  - by rewrite put_set_cursor.
  - by rewrite put_core.
Qed.
Lemma via_parse_number : via parse_number parse_number.
Proof.
  intros s. unfold parse_number, bind, get, try_, ret, throw, modify. rewrite !outcome_bind_Ok. cbn [cursor core_formatted core_of fst].
  destruct (FormatCursor.parse_number (cursor s)) as [[n c]|e]; rewrite ?outcome_bind_Ok.
  - by rewrite put_set_cursor.
  - by rewrite put_core.
Qed.
Lemma via_set_endianness e : via (set_endianness e) (set_endianness e).
Proof. apply (via_set_state (fun st => mk_FormatState e (max_alignment st))). Qed.
Lemma via_set_alignment : via set_alignment set_alignment.
Proof.
  apply via_bind; [apply via_parse_number|]. intros n. cbn zeta. case_match; [apply via_throw|].
  apply (via_set_state (fun st => mk_FormatState (endianness st) _)).
Qed.
Lemma via_align_size : via align_size align_size.
Proof.
  apply via_bind; [apply via_next_char|]. intros [op|]; [|apply via_throw].
  apply via_bind; [destruct (Conversion.of_char op); first [apply via_ret|apply via_parse_number]|]. intros n. apply via_try.
Qed.
Lemma via_parse_size d : via (parse_size d) (parse_size d).
Proof. apply via_bind; [apply via_parse_number|]. intros n. apply via_try. Qed.
End Via.

(** What one sequence does, the other does on the same core. *)
Lemma twin {St1 St2 A} `{CoreLaws St1} `{CoreLaws St2} (m1 : M St1 A) (m2 : M St2 A) m0 s1 s2 r s1' :
  via m1 m0 -> via m2 m0 -> core_of s1 = core_of s2 -> m1 s1 = Ok (r, s1') ->
  exists k, s1' = put k s1 /\ m2 s2 = Ok (r, put k s2).
Proof.
  intros V1 V2 Hc. rewrite (V1 s1), (V2 s2), <- Hc. destruct (m0 (core_of s1)) as [[r0 k]|]; [|done].
  rewrite !outcome_bind_Ok. intros [= <- <-]. by exists k.
Qed.
End CoreFacts.

(** ** Options, once they are read *)
Module PlanFacts.
Import Walk CursorFacts WalkFacts CoreFacts PackFacts.

(** The sequences first read an option, in the same way, and then do it. *)
Inductive kind : Type :=
  | KInt (size : Z)
  | KUInt (size : Z)
  | KFloat
  | KDouble
  | KChars (n : Z)
  | KZString
  | KLString (size : Z).
Inductive plan : Type :=
  | Nothing
  | OneByte
  | AlignedTo (size : Z)
  | Item (k : kind).

Section Plan.
Context {St : Type} `{Formatted St}.
Definition plan_of (ch : Z) : M St plan :=
  match Conversion.of_char ch with
  | Conversion.Little_ => bind (set_endianness Little) (fun _ => ret Nothing)
  | Conversion.Big_ => bind (set_endianness Big) (fun _ => ret Nothing)
  | Conversion.Native_ => bind (set_endianness Native) (fun _ => ret Nothing)
  | Conversion.Align => bind set_alignment (fun _ => ret Nothing)
  | Conversion.Blank => ret Nothing
  | Conversion.Zero => ret OneByte
  | Conversion.AlignTo => bind align_size (fun size => ret (AlignedTo size))
  | Conversion.I8 => ret (Item (KInt 1))
  | Conversion.U8 => ret (Item (KUInt 1))
  | Conversion.I16 => ret (Item (KInt 2))
  | Conversion.U16 => ret (Item (KUInt 2))
  | Conversion.I64 => ret (Item (KInt 8))
  | Conversion.U64 => ret (Item (KUInt 8))
  | Conversion.Int => bind (parse_size 4) (fun size => ret (Item (KInt size)))
  | Conversion.UInt => bind (parse_size 4) (fun size => ret (Item (KUInt size)))
  | Conversion.Float => ret (Item KFloat)
  | Conversion.Double => ret (Item KDouble)
  | Conversion.Chars => bind parse_number (fun n =>
      match n with Some n => ret (Item (KChars n)) | None => throw PackError.MissingSize end)
  | Conversion.ZString => ret (Item KZString)
  | Conversion.LString => bind (parse_size 8) (fun size => ret (Item (KLString size)))
  | Conversion.Invalid => throw (PackError.InvalidOption ch)
  end.
End Plan.

Lemma via_plan {St} `{CoreLaws St} ch : via (plan_of (St := St) ch) (plan_of ch).
Proof.
  unfold plan_of. destruct (Conversion.of_char ch); first [apply via_ret|apply via_throw|apply via_bind];
    try first [apply via_set_endianness|apply via_set_alignment|apply via_align_size|apply via_parse_size|apply via_parse_number|intros; apply via_ret].
  intros [n|]; [apply via_ret|apply via_throw].
Qed.

Lemma bind_assoc {St A B C} (m : M St A) (k : A -> M St B) (h : B -> M St C) s :
  bind (bind m k) h s = bind m (fun a => bind (k a) h) s.
Proof. unfold bind. destruct (m s) as [[[a|e] s1]|]; by rewrite ?outcome_bind_Ok. Qed.
Lemma bind_ext {St A B} (m : M St A) (k h : A -> M St B) s :
  (forall a s', k a s' = h a s') -> bind m k s = bind m h s.
Proof. intros Hk. unfold bind. destruct (m s) as [[[a|e] s1]|]; rewrite ?outcome_bind_Ok; auto. Qed.
Lemma bind_ret {St A B} (a : A) (k : A -> M St B) s : bind (ret a) k s = k a s.
Proof. reflexivity. Qed.
Lemma bind_throw {St A B} e (k : A -> M St B) s : bind (throw e) k s = throw e s.
Proof. reflexivity. Qed.
(** A bind that ends well *)
Lemma bind_done {St A B} (m : M St A) (k : A -> M St B) s b s2 : bind m k s = Ok (inl b, s2) ->
  exists a s1, m s = Ok (inl a, s1) /\ k a s1 = Ok (inl b, s2).
Proof. unfold bind. destruct (m s) as [[[a|e] s1]|]; rewrite ?outcome_bind_Ok; [eauto|done|done]. Qed.
Lemma bind_known {St A B} (m : M St A) (k : A -> M St B) s a s1 : m s = Ok (inl a, s1) -> bind m k s = k a s1.
Proof. unfold bind. by intros ->. Qed.

Section Pack.
Context `{Target} {S : Type} `{AsBytes S} `{DisplayFloat} (allocated : Z).

Definition write (k : kind) : M (Pack.t (S := S)) unit :=
  match k with
  | KInt size =>
      if size <? 8 then Pack.pack_signed allocated size (- 2 ^ (size * 8 - 1)) (2 ^ (size * 8 - 1) - 1)
      else bind Pack.take_integer (fun val => bind (Pack.push_padding allocated size) (fun _ => Pack.write_int val size))
  | KUInt size =>
      if size <? 8 then Pack.pack_unsigned allocated size (2 ^ (size * 8) - 1)
      else bind Pack.arg_num (fun n => bind Pack.take_integer (fun val =>
        if (8 <? size) && (val <? 0) then throw (PackError.UnsignedOverflow n)
        else bind (Pack.push_padding allocated size) (fun _ => Pack.write_int (wrap u64 val) size)))
  | KFloat => bind Pack.take_number (fun val => bind (Pack.push_padding allocated 4) (fun _ => Pack.write_bits 4 (F32.of_f64 val)))
  | KDouble => bind Pack.take_number (fun val => bind (Pack.push_padding allocated 8) (fun _ => Pack.write_bits 8 val))
  | KChars n =>
      if MAX_STRING_PACK_BYTES <? n then throw PackError.TooLarge
      else bind Pack.arg_num (fun arg => bind Pack.take_string (fun bytes =>
        if n <? Z.of_nat (length bytes) then throw (PackError.StringLonger arg)
        else bind (Pack.ensure_capacity allocated n) (fun _ => bind (Pack.extend bytes) (fun _ =>
          Pack.extend (Pack.zeros (n - Z.of_nat (length bytes)))))))
  | KZString => bind Pack.arg_num (fun arg => bind Pack.take_string (fun bytes =>
      if existsb (Z.eqb 0) bytes then throw (PackError.StringContainsZeros arg)
      else bind (Pack.ensure_capacity allocated (Z.of_nat (length bytes) + 1)) (fun _ =>
        bind (Pack.extend bytes) (fun _ => Pack.extend [0]))))
  | KLString size => bind Pack.take_string (fun bytes =>
      if (if 16 <=? size then 2 ^ 128 - 1 else 2 ^ (size * 8) - 1) <? Z.of_nat (length bytes) then throw PackError.StringLength
      else bind get (fun s => bind (padding (Pack.len s) size) (fun n =>
        bind (Pack.ensure_capacity allocated (n + size + Z.of_nat (length bytes))) (fun _ =>
        bind (Pack.extend (Pack.zeros n)) (fun _ => bind (Pack.write_int (Z.of_nat (length bytes)) size) (fun _ =>
        Pack.extend bytes))))))
  end.

Definition pack_plan (p : plan) : M (Pack.t (S := S)) unit :=
  match p with
  | Nothing => ret tt
  | OneByte => Pack.push_zeros allocated 1
  | AlignedTo size => Pack.push_padding allocated size
  | Item k => write k
  end.

Lemma bind_unit (m : M (Pack.t (S := S)) unit) s : bind m (fun _ => ret tt) s = m s.
Proof. unfold bind. by destruct (m s) as [[[[]|e] s1]|]. Qed.

Lemma pack_option ch s : Pack.process_option allocated ch s = bind (plan_of ch) pack_plan s.
Proof.
  unfold Pack.process_option, plan_of.
  destruct (Conversion.of_char ch); rewrite ?bind_assoc, ?bind_ret; try reflexivity; try (symmetry; exact (bind_unit _ s)).
  apply bind_ext. by intros [n|] s'.
Qed.

(** *** What an option writes *)
Definition align_of (k : kind) : Z :=
  match k with
  | KInt size | KUInt size | KLString size => size
  | KFloat => 4
  | KDouble => 8
  | KChars _ | KZString => 1
  end.

(** The lowest [size] bytes of an integer *)
Definition low_bytes (size v : Z) : list Z := take (Z.to_nat size) (to_le_bytes 16 v).

(** The bytes of an argument, after its padding *)
Inductive encoded (e : Endianness) (v : Value.t S) : kind -> list Z -> Prop :=
  | enc_int size i : Value.to_integer v = Some i -> (size < 8 -> - 2 ^ (size * 8 - 1) <= i < 2 ^ (size * 8 - 1)) ->
      encoded e v (KInt size) (in_order e (low_bytes size i))
  | enc_uint size i : Value.to_integer v = Some i -> (size < 8 -> 0 <= i < 2 ^ (size * 8)) -> (8 < size -> 0 <= i) ->
      encoded e v (KUInt size) (in_order e (low_bytes size (wrap u64 i)))
  | enc_float x : Value.to_number v = Some x -> encoded e v KFloat (in_order e (to_le_bytes 4 (F32.of_f64 x)))
  | enc_double x : Value.to_number v = Some x -> encoded e v KDouble (in_order e (to_le_bytes 8 x))
  | enc_chars n b : Pack.into_string v = Some b -> Z.of_nat (length b) <= n ->
      encoded e v (KChars n) (b ++ Pack.zeros (n - Z.of_nat (length b)))
  | enc_zstring b : Pack.into_string v = Some b -> 0 ∉ b -> encoded e v KZString (b ++ [0])
  | enc_lstring size b : Pack.into_string v = Some b -> (size < 16 -> Z.of_nat (length b) < 2 ^ (size * 8)) ->
      encoded e v (KLString size) (in_order e (low_bytes size (Z.of_nat (length b))) ++ b).

(** From [s] to [s'], [n] arguments are used and [b] is written. *)
Definition moves (s s' : Pack.t (S := S)) (n : nat) (b : list Z) : Prop :=
  core_of s' = core_of s /\ Pack.args s' = Pack.args s /\ Pack.arg_index s' = (Pack.arg_index s + n)%nat /\
  Pack.writer s' = Pack.writer s ++ b.

Lemma moves_trans s1 s2 s3 n1 n2 b1 b2 : moves s1 s2 n1 b1 -> moves s2 s3 n2 b2 -> moves s1 s3 (n1 + n2) (b1 ++ b2).
Proof.
  intros (A1 & A2 & A3 & A4) (B1 & B2 & B3 & B4). split; [congruence|]. split; [congruence|]. split; [lia|].
  by rewrite B4, A4, app_assoc.
Qed.

Lemma moves_len s s' n b : moves s s' n b -> Pack.len s' = Pack.len s + Z.of_nat (length b).
Proof. intros (_ & _ & _ & Hw). unfold Pack.len. rewrite Hw, length_app. lia. Qed.

Lemma ensure_done n s u s' : Pack.ensure_capacity allocated n s = Ok (inl u, s') -> 0 <= n ->
  moves s s' 0 [] /\ Pack.len s + n <= MAX_STRING_PACK_BYTES.
Proof.
  unfold Pack.ensure_capacity. intros E Hn. destruct (Z.ltb_spec MAX_STRING_PACK_BYTES (saturating usize (Pack.len s + n))) as [|Hl]; [done|].
  destruct (Memory.check _ _ _) as [r l]. injection E as _ <-. split.
  - split; [done|]. split; [done|]. split; [cbn; lia|]. cbn. by rewrite app_nil_r.
  - unfold saturating in Hl. unfold MAX_STRING_PACK_BYTES in *. revert Hl. assert (0 <= Pack.len s) by (unfold Pack.len; lia). int_lia.
Qed.

Lemma extend_done b s u s' : Pack.extend b s = Ok (inl u, s') -> moves s s' 0 b.
Proof. intros [= _ <-]. split; [done|]. split; [done|]. split; [cbn; lia|done]. Qed.

Lemma calculate_padding_nonneg p n m : 0 <= calculate_padding p n m.
Proof.
  unfold calculate_padding. case_match; [lia|]. cbn zeta. case_match; [lia|].
  apply Z.mod_pos_bound. bool_to_prop. lia.
Qed.

Definition pad (s : Pack.t (S := S)) (size : Z) : Z := calculate_padding (Pack.len s) size (max_alignment (Pack.state s)).

Lemma zeros_done n s u s' : Pack.push_zeros allocated n s = Ok (inl u, s') -> 0 <= n ->
  moves s s' 0 (Pack.zeros n) /\ Pack.len s + n <= MAX_STRING_PACK_BYTES.
Proof.
  intros (? & s1 & E1 & E2)%bind_done Hn. apply ensure_done in E1 as [M1 Hl]; [|done]. apply extend_done in E2 as M2.
  split; [exact (moves_trans _ _ _ _ _ _ _ M1 M2)|done].
Qed.

Lemma padding_done size s u s' : Pack.push_padding allocated size s = Ok (inl u, s') ->
  moves s s' 0 (Pack.zeros (pad s size)) /\ Pack.len s' <= MAX_STRING_PACK_BYTES.
Proof.
  intros E. change (Pack.push_zeros allocated (pad s size) s = Ok (inl u, s')) in E.
  assert (0 <= pad s size) by apply calculate_padding_nonneg.
  apply zeros_done in E as [Hm Hl]; [|done]. split; [done|].
  rewrite (moves_len _ _ _ _ Hm). unfold Pack.zeros. rewrite length_replicate. lia.
Qed.

Lemma write_int_done v size s u s' : 0 <= size <= 16 -> Pack.write_int v size s = Ok (inl u, s') ->
  moves s s' 0 (in_order (endianness (Pack.state s)) (low_bytes size v)).
Proof.
  intros Hs. unfold Pack.write_int, bind, get, lift. rewrite outcome_bind_Ok.
  rewrite SliceFacts.slice_in by (rewrite ?length_le; lia). rewrite !outcome_bind_Ok, Nat.sub_0_r. cbn [drop].
  apply extend_done.
Qed.
Lemma write_bits_done n v s u s' : Pack.write_bits n v s = Ok (inl u, s') ->
  moves s s' 0 (in_order (endianness (Pack.state s)) (to_le_bytes n v)).
Proof. apply extend_done. Qed.

Lemma take_done {A} (take : M (Pack.t (S := S)) A) (f : Value.t S -> option A) (e : Z -> Value.t S -> PackError.t) s a s' :
  take = bind Pack.arg_num (fun n => bind Pack.get_arg (fun v =>
    match f v with Some a => ret a | None => throw (e n v) end)) ->
  take s = Ok (inl a, s') -> exists v, Pack.args s !! Pack.arg_index s = Some v /\ f v = Some a /\ moves s s' 1 [].
Proof.
  intros ->. change (Pack.arg_num s) with (Pack.arg_num s). intros (n & s1 & E1 & E2)%bind_done.
  injection E1 as _ <-. apply bind_done in E2 as (v & s2 & E2 & E3). unfold Pack.get_arg, bind, get in E2.
  rewrite outcome_bind_Ok in E2. destruct (Pack.args s !! Pack.arg_index s) as [v'|] eqn:Ea; [|done].
  injection E2 as <- <-. destruct (f v') as [a'|] eqn:Ef; [|done]. injection E3 as <- <-.
  exists v'. do 2 (split; [done|]). split; [done|]. split; [done|]. split; [cbn; lia|]. cbn. by rewrite app_nil_r.
Qed.
Lemma integer_done s i s' : Pack.take_integer s = Ok (inl i, s') ->
  exists v, Pack.args s !! Pack.arg_index s = Some v /\ Value.to_integer v = Some i /\ moves s s' 1 [].
Proof. by apply (take_done _ Value.to_integer (fun n _ => PackError.NoInteger n)). Qed.
Lemma number_done s x s' : Pack.take_number s = Ok (inl x, s') ->
  exists v, Pack.args s !! Pack.arg_index s = Some v /\ Value.to_number v = Some x /\ moves s s' 1 [].
Proof. by apply (take_done _ Value.to_number (fun n v => PackError.NumberExpected n (Value.type_name v))). Qed.
Lemma string_done s b s' : Pack.take_string s = Ok (inl b, s') ->
  exists v, Pack.args s !! Pack.arg_index s = Some v /\ Pack.into_string v = Some b /\ moves s s' 1 [].
Proof. by apply (take_done _ Pack.into_string (fun n v => PackError.StringExpected n (Value.type_name v))). Qed.

(** Sizes the sequences let through *)
Definition kind_ok (k : kind) : Prop :=
  match k with
  | KInt size | KUInt size | KLString size => 1 <= size <= 16
  | KChars n => in_int usize n
  | _ => True
  end.
Definition plan_ok (p : plan) : Prop := match p with Item k => kind_ok k | _ => True end.

(** An argument taken, then padding, then bytes *)
Lemma padded_done v size s0 s1 e (write : M (Pack.t (S := S)) unit) chunk u s' :
  Pack.args s0 !! Pack.arg_index s0 = Some v -> moves s0 s1 1 [] -> e = endianness (Pack.state s0) ->
  (forall t t', write t = Ok (inl u, t') -> moves t t' 0 (chunk (endianness (Pack.state t)))) ->
  (length (chunk e) <= 16)%nat ->
  bind (Pack.push_padding allocated size) (fun _ => write) s1 = Ok (inl u, s') ->
  moves s0 s' 1 (Pack.zeros (pad s0 size) ++ chunk e) /\ Pack.len s' <= MAX_STRING_PACK_BYTES + 16.
Proof.
  intros Hv M0 -> Hw Hl (? & s2 & E1 & E2)%bind_done. apply padding_done in E1 as [M1 Hp]. apply Hw in E2 as M2.
  assert (Hs : Pack.state s1 = Pack.state s0) by (destruct M0 as [[= _ Hst] _]; exact Hst).
  assert (Hs2 : Pack.state s2 = Pack.state s0) by (destruct M1 as [[= _ Hst] _]; congruence).
  assert (Hpad : pad s1 size = pad s0 size).
  { unfold pad. rewrite Hs, (moves_len _ _ _ _ M0). cbn. by rewrite Z.add_0_r. }
  rewrite Hs2 in M2. rewrite Hpad in M1. split.
  - exact (moves_trans _ _ _ _ _ _ _ (moves_trans _ _ _ _ _ _ _ M0 M1) M2).
  - rewrite (moves_len _ _ _ _ M2). lia.
Qed.

Lemma length_low_bytes size v : 0 <= size <= 16 -> length (low_bytes size v) = Z.to_nat size.
Proof. intros Hs. unfold low_bytes. rewrite length_take, length_le. lia. Qed.

Lemma padded_int size val v s0 s1 u s' : 1 <= size <= 16 ->
  Pack.args s0 !! Pack.arg_index s0 = Some v -> moves s0 s1 1 [] ->
  bind (Pack.push_padding allocated size) (fun _ => Pack.write_int val size) s1 = Ok (inl u, s') ->
  moves s0 s' 1 (Pack.zeros (pad s0 size) ++ in_order (endianness (Pack.state s0)) (low_bytes size val)) /\
  Pack.len s' <= MAX_STRING_PACK_BYTES + 16.
Proof.
  intros Hs Hv M0. apply (padded_done v size s0 s1 _ _ (fun e => in_order e (low_bytes size val))); try done.
  - intros t t'. apply write_int_done. lia.
  - rewrite length_in_order, length_low_bytes by lia. lia.
Qed.

Lemma pad_1 s : pad s 1 = 0.
Proof. unfold pad, calculate_padding. by rewrite orb_true_r. Qed.

Definition wrote (k : kind) (s s' : Pack.t (S := S)) : Prop :=
  exists v chunk, Pack.args s !! Pack.arg_index s = Some v /\ encoded (endianness (Pack.state s)) v k chunk /\
    moves s s' 1 (Pack.zeros (pad s (align_of k)) ++ chunk) /\ Pack.len s' <= MAX_STRING_PACK_BYTES + 16.

Lemma signed_done size s u s' : 1 <= size < 8 ->
  Pack.pack_signed allocated size (- 2 ^ (size * 8 - 1)) (2 ^ (size * 8 - 1) - 1) s = Ok (inl u, s') -> wrote (KInt size) s s'.
Proof.
  intros Hs (n & s0 & [= <- <-] & E)%bind_done. apply bind_done in E as (i & s1 & E1 & E).
  apply integer_done in E1 as (v & Hv & Hi & M). case_match eqn:Er; [done|]. bool_to_prop.
  apply (padded_int size i v s) in E as [Hm Hl]; [|lia|done..].
  exists v, (in_order (endianness (Pack.state s)) (low_bytes size i)). split; [done|]. split; [constructor; [done|lia]|]. done.
Qed.
Lemma unsigned_done size s u s' : 1 <= size < 8 ->
  Pack.pack_unsigned allocated size (2 ^ (size * 8) - 1) s = Ok (inl u, s') -> wrote (KUInt size) s s'.
Proof.
  intros Hs (n & s0 & [= <- <-] & E)%bind_done. apply bind_done in E as (i & s1 & E1 & E).
  apply integer_done in E1 as (v & Hv & Hi & M). case_match eqn:Er; [done|]. bool_to_prop.
  apply (padded_int size (wrap u64 i) v s) in E as [Hm Hl]; [|lia|done..].
  exists v, (in_order (endianness (Pack.state s)) (low_bytes size (wrap u64 i))). split; [done|].
  split; [constructor; [done|lia|lia]|]. done.
Qed.

Lemma no_zeros b : existsb (Z.eqb 0) b = false -> 0 ∉ b.
Proof. intros E Hi. rewrite <- not_true_iff_false, existsb_exists in E. apply E. exists 0. by rewrite <- list_elem_of_In. Qed.

Lemma zstring_done s u s' : write KZString s = Ok (inl u, s') -> wrote KZString s s'.
Proof.
  intros (n & s0 & [= <- <-] & E)%bind_done. apply bind_done in E as (b & s1 & E1 & E).
  apply string_done in E1 as (v & Hv & Hb & M). destruct (existsb _ b) eqn:Ez; [done|].
  apply bind_done in E as (? & s2 & E2 & E). apply bind_done in E as (? & s3 & E3 & E4).
  apply ensure_done in E2 as [M2 Hl]; [|lia]. apply extend_done in E3 as M3, E4 as M4.
  pose proof (moves_trans _ _ _ _ _ _ _ M (moves_trans _ _ _ _ _ _ _ M2 (moves_trans _ _ _ _ _ _ _ M3 M4))) as Hm.
  exists v, (b ++ [0]). split; [done|]. split; [constructor; [done|by apply no_zeros]|]. cbn [align_of]. rewrite pad_1.
  split; [exact Hm|]. rewrite (moves_len _ _ _ _ Hm). rewrite (moves_len _ _ _ _ M) in Hl. cbn [app length] in *. rewrite length_app. cbn. lia.
Qed.

Lemma chars_done n s u s' : in_int usize n -> write (KChars n) s = Ok (inl u, s') -> wrote (KChars n) s s'.
Proof.
  intros Hn. cbn [write]. case_match; [done|]. intros (m & s0 & [= <- <-] & E)%bind_done. apply bind_done in E as (b & s1 & E1 & E).
  apply string_done in E1 as (v & Hv & Hb & M). destruct (Z.ltb_spec n (Z.of_nat (length b))); [done|].
  apply bind_done in E as (? & s2 & E2 & E). apply bind_done in E as (? & s3 & E3 & E4).
  apply ensure_done in E2 as [M2 Hl]; [|lia]. apply extend_done in E3 as M3, E4 as M4.
  pose proof (moves_trans _ _ _ _ _ _ _ M (moves_trans _ _ _ _ _ _ _ M2 (moves_trans _ _ _ _ _ _ _ M3 M4))) as Hm.
  exists v, (b ++ Pack.zeros (n - Z.of_nat (length b))). split; [done|]. split; [by constructor|]. cbn [align_of]. rewrite pad_1.
  split; [exact Hm|]. rewrite (moves_len _ _ _ _ Hm). rewrite (moves_len _ _ _ _ M) in Hl. unfold Pack.zeros.
  cbn [app length] in *. rewrite length_app, length_replicate. lia.
Qed.

Lemma lstring_done size s u s' : 1 <= size <= 16 -> write (KLString size) s = Ok (inl u, s') -> wrote (KLString size) s s'.
Proof.
  intros Hs (b & s1 & E1 & E)%bind_done. apply string_done in E1 as (v & Hv & Hb & M). cbv beta in E.
  destruct (Z.ltb_spec (if 16 <=? size then 2 ^ 128 - 1 else 2 ^ (size * 8) - 1) (Z.of_nat (length b))) as [|Hlen]; [done|].
  assert (Hsz : size < 16 -> Z.of_nat (length b) < 2 ^ (size * 8)).
  { intros Hlt. rewrite (proj2 (Z.leb_gt 16 size)) in Hlen by lia. lia. }
  assert (Hpad : pad s1 size = pad s size).
  { unfold pad. destruct M as ([= _ ->] & _ & _ & Hw). unfold Pack.len. by rewrite Hw, app_nil_r. }
  change (bind (Pack.ensure_capacity allocated (pad s1 size + size + Z.of_nat (length b))) (fun _ =>
    bind (Pack.extend (Pack.zeros (pad s1 size))) (fun _ => bind (Pack.write_int (Z.of_nat (length b)) size) (fun _ =>
        Pack.extend b))) s1 = Ok (inl u, s')) in E. rewrite Hpad in E.
  assert (0 <= pad s size) by apply calculate_padding_nonneg.
  apply bind_done in E as (? & s2 & E2 & E). apply bind_done in E as (? & s3 & E3 & E). apply bind_done in E as (? & s4 & E4 & E5).
  apply ensure_done in E2 as [M2 Hl]; [|lia]. apply extend_done in E3 as M3, E5 as M5. apply write_int_done in E4 as M4; [|lia].
  assert (Hst : Pack.state s3 = Pack.state s).
  { destruct M as ([= _ <-] & _), M2 as ([= _ <-] & _), M3 as ([= _ <-] & _). done. }
  rewrite Hst in M4.
  pose proof (moves_trans _ _ _ _ _ _ _ M (moves_trans _ _ _ _ _ _ _ M2 (moves_trans _ _ _ _ _ _ _ M3 (moves_trans _ _ _ _ _ _ _ M4 M5)))) as Hm.
  exists v, (in_order (endianness (Pack.state s)) (low_bytes size (Z.of_nat (length b))) ++ b). split; [done|]. split; [by constructor|].
  split; [exact Hm|]. rewrite (moves_len _ _ _ _ Hm). rewrite (moves_len _ _ _ _ M) in Hl. unfold Pack.zeros.
  cbn [app length] in *. rewrite !length_app, length_replicate, length_in_order, length_low_bytes by lia. lia.
Qed.

Lemma write_done k s u s' : kind_ok k -> write k s = Ok (inl u, s') -> wrote k s s'.
Proof.
  intros Hk. destruct k as [size|size| | |n| |size]; cbn [kind_ok] in Hk.
  - cbn [write]. destruct (Z.ltb_spec size 8); [apply signed_done; lia|].
    intros (i & s1 & E1 & E)%bind_done. apply integer_done in E1 as (v & Hv & Hi & M).
    apply (padded_int size i v s) in E as [Hm Hl]; [|done..].
    exists v, (in_order (endianness (Pack.state s)) (low_bytes size i)). split; [done|]. split; [constructor; [done|lia]|]. done.
  - cbn [write]. destruct (Z.ltb_spec size 8); [apply unsigned_done; lia|].
    intros (n & s0 & [= <- <-] & E)%bind_done. apply bind_done in E as (i & s1 & E1 & E).
    apply integer_done in E1 as (v & Hv & Hi & M). case_match eqn:Er; [done|].
    apply (padded_int size (wrap u64 i) v s) in E as [Hm Hl]; [|done..].
    exists v, (in_order (endianness (Pack.state s)) (low_bytes size (wrap u64 i))). split; [done|].
    split; [|done]. constructor; [done|lia|]. intros. apply andb_false_iff in Er as [Er|Er]; bool_to_prop; lia.
  - intros (x & s1 & E1 & E)%bind_done. apply number_done in E1 as (v & Hv & Hx & M).
    apply (padded_done v 4 s s1 _ _ (fun e => in_order e (to_le_bytes 4 (F32.of_f64 x))) _ _ Hv M eq_refl) in E as [Hm Hl];
      [|by intros t t'; apply write_bits_done|rewrite length_in_order, length_le; lia].
    exists v, (in_order (endianness (Pack.state s)) (to_le_bytes 4 (F32.of_f64 x))). split; [done|]. split; [by constructor|done].
  - intros (x & s1 & E1 & E)%bind_done. apply number_done in E1 as (v & Hv & Hx & M).
    apply (padded_done v 8 s s1 _ _ (fun e => in_order e (to_le_bytes 8 x)) _ _ Hv M eq_refl) in E as [Hm Hl];
      [|by intros t t'; apply write_bits_done|rewrite length_in_order, length_le; lia].
    exists v, (in_order (endianness (Pack.state s)) (to_le_bytes 8 x)). split; [done|]. split; [by constructor|done].
  - by apply chars_done.
  - by apply zstring_done.
  - by apply lstring_done.
Qed.
End Pack.
End PlanFacts.

(** ** Numbers as bytes *)
Module EndianFacts.
Section Endian.
Context `{Target}.

Lemma in_order_twice e l : in_order e (in_order e l) = l.
Proof. destruct e; cbn; [done|apply rev_involutive|]. case_match eqn:E; rewrite ?E; [done|apply rev_involutive]. Qed.
End Endian.

Definition byte_list : list Z -> Prop := Forall is_byte.

Lemma le_is_bytes n v : byte_list (to_le_bytes n v).
Proof. apply (Z_to_little_endian_bound (Z.of_nat n) 8 v); lia. Qed.

Lemma from_le_cons b l : is_byte b -> from_le_bytes (b :: l) = b + 2 ^ 8 * from_le_bytes l.
Proof.
  intros Hb. unfold from_le_bytes. cbn [little_endian_to_Z]. rewrite Z.lor_comm, Z.shiftl_mul_pow2 by lia.
  rewrite lor_tag; [lia|lia|exact Hb].
Qed.

Lemma from_le_app l k : byte_list l -> from_le_bytes (l ++ k) = from_le_bytes l + 2 ^ (8 * Z.of_nat (length l)) * from_le_bytes k.
Proof.
  induction 1 as [|b l Hb _ IH]; [change (from_le_bytes []) with 0; cbn [length app]; rewrite Z.mul_0_r, Z.pow_0_r; lia|]. rewrite <- app_comm_cons, !from_le_cons by done. rewrite IH.
  cbn [length]. replace (8 * Z.of_nat (S (length l))) with (8 + 8 * Z.of_nat (length l)) by lia. rewrite Z.pow_add_r by lia. ring.
Qed.

Lemma from_le_zeros n : from_le_bytes (replicate n 0) = 0.
Proof. induction n as [|n IH]; [done|]. cbn [replicate]. rewrite from_le_cons by done. lia. Qed.
Lemma from_le_ones n : from_le_bytes (replicate n 255) = 2 ^ (8 * Z.of_nat n) - 1.
Proof.
  induction n as [|n IH]; [done|]. cbn [replicate]. rewrite from_le_cons, IH by done.
  replace (8 * Z.of_nat (S n)) with (8 + 8 * Z.of_nat n) by lia. rewrite Z.pow_add_r by lia. lia.
Qed.

Lemma from_to_le n v : from_le_bytes (to_le_bytes n v) = v mod 2 ^ (8 * Z.of_nat n).
Proof.
  unfold from_le_bytes, to_le_bytes. rewrite little_endian_to_Z_to_little_endian by lia. f_equal. f_equal. lia.
Qed.

Lemma take_le n m v : (n <= m)%nat -> take n (to_le_bytes m v) = to_le_bytes n v.
Proof.
  unfold to_le_bytes. revert m v. induction n as [|n IH]; intros m v Hn; [done|]. destruct m as [|m]; [lia|].
  rewrite !Nat2Z.inj_succ, !Z_to_little_endian_succ by lia. cbn [take]. rewrite IH by lia. done.
Qed.

Lemma from_low_bytes size v : 0 <= size <= 16 -> from_le_bytes (PlanFacts.low_bytes size v) = v mod 2 ^ (8 * size).
Proof.
  intros Hs. unfold PlanFacts.low_bytes. rewrite take_le, from_to_le by lia. by rewrite Z2Nat.id by lia.
Qed.

Lemma low_is_bytes size v : byte_list (PlanFacts.low_bytes size v).
Proof. apply Forall_take, le_is_bytes. Qed.

(** The top bit of the bytes is that of the number. *)
Lemma top_byte size v : 1 <= size <= 16 -> exists top,
  PlanFacts.low_bytes size v !! Z.to_nat (size - 1) = Some top /\ (Z.land top 128 =? 0) = negb (Z.testbit v (8 * size - 1)).
Proof.
  intros Hs. eexists. split.
  - unfold PlanFacts.low_bytes, to_le_bytes. rewrite lookup_take_lt by lia.
    apply Z_to_little_endian_lookup_Some; [lia..|]. split; [lia|reflexivity].
  - change 128 with (2 ^ 7). rewrite Z.eqb_sym. apply eq_iff_eq_true. rewrite Z.eqb_eq, negb_true_iff.
    assert (Hb : Z.testbit (Z.land (v ≫ (Z.of_nat (Z.to_nat (size - 1)) * 8)) (Z.ones 8)) 7 = Z.testbit v (8 * size - 1)).
    { rewrite Z.land_spec, Z.ones_spec_low, andb_true_r, Z.shiftr_spec by lia. f_equal. lia. }
    rewrite <- Hb. set (x := Z.land (v ≫ _) _). split; intros E.
    + apply (f_equal (fun y => Z.testbit y 7)) in E. rewrite Z.land_spec, Z.pow2_bits_true, andb_true_r, Z.bits_0 in E by lia. done.
    + apply Z.bits_inj'. intros i Hi. rewrite Z.bits_0, Z.land_spec, Z.pow2_bits_eqb by lia.
      destruct (Z.eqb_spec 7 i) as [<-|]; [by rewrite E|by rewrite andb_false_r].
Qed.

Lemma sign_bit size v : 1 <= size -> - 2 ^ (8 * size - 1) <= v < 2 ^ (8 * size - 1) -> Z.testbit v (8 * size - 1) = (v <? 0).
Proof.
  intros Hs Hv. apply eq_iff_eq_true. rewrite Z.testbit_true, Z.ltb_lt by lia. destruct (Z.ltb_spec v 0).
  - replace (v / 2 ^ (8 * size - 1)) with (-1); [done|]. apply Z.div_unique with (v + 2 ^ (8 * size - 1)); lia.
  - rewrite Z.div_small by lia. split; [done|lia].
Qed.

#[local] Instance i128_wf : WfInt (IntTy true 128). Proof. reflexivity. Qed.

(** The bytes of an integer of [size] bytes, sign-extended, are the integer. *)
Lemma sign_extension size v : 1 <= size <= 16 -> - 2 ^ (8 * size - 1) <= v < 2 ^ (8 * size - 1) ->
  wrap (IntTy true 128) (from_le_bytes (Unpack.extended (PlanFacts.low_bytes size v) (if v <? 0 then 255 else 0))) = v.
Proof.
  intros Hs Hv. unfold Unpack.extended. rewrite from_le_app, from_low_bytes by (apply low_is_bytes || lia).
  rewrite PlanFacts.length_low_bytes by lia.
  assert (Hp : 2 ^ (8 * size) = 2 * 2 ^ (8 * size - 1)).
  { replace (8 * size) with (1 + (8 * size - 1)) at 1 by lia. rewrite Z.pow_add_r by lia. done. }
  assert (Hle : 2 ^ (8 * size - 1) <= 2 ^ 127) by (apply Z.pow_le_mono_r; lia).
  assert (Hin : in_int (IntTy true 128) v).
  { unfold in_int, int_min, int_max. cbn [int_signed int_width]. change (128 - 1) with 127. lia. }
  destruct (Z.ltb_spec v 0).
  - rewrite from_le_ones, Z2Nat.id by lia.
    rewrite <- (Z.mod_unique v (2 ^ (8 * size)) (-1) (v + 2 ^ (8 * size))) by lia.
    replace (v + 2 ^ (8 * size) + 2 ^ (8 * size) * (2 ^ (8 * Z.of_nat (16 - Z.to_nat size)) - 1)) with (v + 1 * 2 ^ 128).
    + etrans; [|apply (wrap_small (IntTy true 128) v Hin)]. apply wrap_congr. by rewrite Z_mod_plus_full.
    + rewrite Z.mul_sub_distr_l, <- Z.pow_add_r by lia. replace (8 * size + 8 * Z.of_nat (16 - Z.to_nat size)) with 128 by lia. lia.
  - rewrite from_le_zeros, Z.mod_small by lia. rewrite Z.mul_0_r, Z.add_0_r. by apply wrap_small.
Qed.

Lemma zero_extension size v : 0 <= size <= 16 ->
  from_le_bytes (Unpack.extended (PlanFacts.low_bytes size v) 0) = v mod 2 ^ (8 * size).
Proof.
  intros Hs. unfold Unpack.extended. rewrite from_le_app, from_low_bytes by (apply low_is_bytes || lia).
  rewrite from_le_zeros. lia.
Qed.
End EndianFacts.

(** ** Reading what was written *)
Module ReadFacts.
Import Walk CursorFacts WalkFacts CoreFacts PackFacts PlanFacts EndianFacts.

(** An [f32] is 32 bits wide. *)
Lemma f32_bits x : in_int u32 (F32.of_f64 x).
Proof.
  assert (Hp : forall s e m, 0 <= e < 256 -> 0 <= m < 2 ^ 23 -> in_int u32 (F32.from_parts s e m)).
  { intros s e m He Hm. unfold F32.from_parts. rewrite !Z.shiftl_mul_pow2, (lor_tag e 23) by lia.
    rewrite lor_tag by lia. destruct s; cbn [Z.b2z]; unfold_ints; lia. }
  assert (Hs : forall y, Rounding.representable 24 128 y -> in_int u32 (F32.of_sf y)).
  { intros [s|s| |s m e]; cbn [F32.of_sf Rounding.representable]; unfold emin; intros Hy;
      [apply Hp; lia|apply Hp; lia|apply in_intb_spec; reflexivity|].
    destruct (Z.leb_spec (2 ^ 23) (Zpos m)); apply Hp; lia. }
  unfold F32.of_f64. apply Hs. destruct (F64.to_sf x); try exact I. by apply Rounding.normalize_representable.
Qed.

Section Read.
Context `{BuildProfile} `{Target} {S : Type} `{AsBytes S} `{DisplayFloat} `{Interning S}.
#[local] Existing Instance unpack_laws.
Abbreviation value := (Value.t S).

Definition read (op : Z) (k : kind) : M (Unpack.t (S := S)) unit :=
  match k with
  | KInt size => Unpack.unpack_int size op
  | KUInt size => Unpack.unpack_uint size op
  | KFloat => bind (Unpack.skip_to 4) (fun _ => bind (Unpack.read_le 4 op) (fun le =>
      Unpack.push (Value.Number (F32.to_f64 (from_le_bytes le)))))
  | KDouble => bind (Unpack.skip_to 8) (fun _ => bind (Unpack.read_le 8 op) (fun le =>
      Unpack.push (Value.Number (from_le_bytes le))))
  | KChars n => bind (Unpack.read_exact n op) (fun slice => Unpack.push (Value.String (intern slice)))
  | KZString => bind get (fun s => bind (lift (Slice.slice (Unpack.bytes s) (Unpack.pos s) (length (Unpack.bytes s)))) (fun remaining =>
      match Unpack.until_zero remaining with
      | Some b => bind (Unpack.push (Value.String (intern b))) (fun _ => modify (Unpack.set_pos (Unpack.pos s + (length b + 1))))
      | None => throw PackError.MissingTerminator
      end))
  | KLString size => bind (Unpack.skip_to size) (fun _ => bind (Unpack.read_le size op) (fun le =>
      match checked usize (from_le_bytes (Unpack.extended le 0)) with
      | None => throw PackError.LengthTooLarge
      | Some n => bind (Unpack.read_exact n op) (fun slice => Unpack.push (Value.String (intern slice)))
      end))
  end.
Definition unpack_plan (op : Z) (p : plan) : M (Unpack.t (S := S)) unit :=
  match p with
  | Nothing => ret tt
  | OneByte => Unpack.skip_padding 1
  | AlignedTo size => Unpack.skip_to size
  | Item k => read op k
  end.

Lemma unpack_unit (m : M (Unpack.t (S := S)) unit) s : bind m (fun _ => ret tt) s = m s.
Proof. unfold bind. by destruct (m s) as [[[[]|e] s1]|]. Qed.

Lemma unpack_option ch s : Unpack.process_option ch s = bind (plan_of ch) (unpack_plan ch) s.
Proof.
  unfold Unpack.process_option, plan_of.
  destruct (Conversion.of_char ch); rewrite ?bind_assoc, ?bind_ret; try reflexivity; try (symmetry; exact (unpack_unit _ s)).
  apply bind_ext. by intros [n|] s'.
Qed.

(** [u] is at [pre] of [pre ++ chunk ++ rest]. *)
Definition at_chunk (u : Unpack.t (S := S)) (pre chunk rest : list Z) : Prop :=
  Unpack.bytes u = pre ++ chunk ++ rest /\ Unpack.pos u = length pre /\ Z.of_nat (length (Unpack.bytes u)) < int_max i64.

Definition past (u : Unpack.t (S := S)) (chunk : list Z) : Unpack.t := Unpack.set_pos (Unpack.pos u + length chunk) u.
Definition with_value (u : Unpack.t (S := S)) (chunk : list Z) (w : value) : Unpack.t :=
  Unpack.mk (Unpack.fmt u) (Unpack.state u) (Unpack.bytes u) (Unpack.pos u + length chunk) (Unpack.values u ++ [w]).

Lemma at_past u pre a b rest : at_chunk u pre (a ++ b) rest -> at_chunk (past u a) (pre ++ a) b rest.
Proof.
  intros (Hb & Hp & Hl). split; [|split; [|done]]; cbn.
  - by rewrite Hb, <- !app_assoc.
  - by rewrite Hp, length_app.
Qed.
Lemma at_first u pre a b rest : at_chunk u pre (a ++ b) rest -> at_chunk u pre a (b ++ rest).
Proof. intros (Hb & Hp & Hl). split; [by rewrite Hb, <- !app_assoc|done]. Qed.

Lemma advance_chunk u pre chunk rest e : at_chunk u pre chunk rest ->
  Unpack.advance (Z.of_nat (length chunk)) e u = Ok (inl (Unpack.pos u + length chunk)%nat, past u chunk).
Proof.
  intros (Hb & Hp & Hl). unfold Unpack.advance, bind, get, modify, ret. rewrite outcome_bind_Ok.
  assert (Hle : (Unpack.pos u + length chunk <= length (Unpack.bytes u))%nat) by (rewrite Hb, Hp, !length_app; lia).
  rewrite checked_in by (revert Hl; int_lia). rewrite (proj2 (Z.ltb_ge _ _)) by lia. rewrite outcome_bind_Ok.
  rewrite <- Nat2Z.inj_add, Nat2Z.id. done.
Qed.

Lemma exact_chunk u pre chunk rest op : at_chunk u pre chunk rest ->
  Unpack.read_exact (Z.of_nat (length chunk)) op u = Ok (inl chunk, past u chunk).
Proof.
  intros Hc. unfold Unpack.read_exact. rewrite (bind_known _ _ _ u u) by done.
  rewrite (bind_known _ _ _ _ _ (advance_chunk _ _ _ _ _ Hc)). unfold lift. destruct Hc as (Hb & Hp & Hl).
  rewrite SliceFacts.slice_in by (rewrite ?Hb, ?Hp, ?length_app; lia). rewrite outcome_bind_Ok, Hb, Hp, drop_app_length.
  replace (length pre + length chunk - length pre)%nat with (length chunk) by lia. by rewrite take_app_length.
Qed.

Lemma skip_chunk u pre n rest : at_chunk u pre (Pack.zeros n) rest -> 0 <= n ->
  Unpack.skip_padding n u = Ok (inl tt, past u (Pack.zeros n)).
Proof.
  intros Hc Hn. assert (Hlen : Z.of_nat (length (Pack.zeros n)) = n) by (unfold Pack.zeros; rewrite length_replicate; lia).
  unfold Unpack.skip_padding. destruct (Z.ltb_spec 0 n).
  - rewrite <- Hlen at 1. by rewrite (bind_known _ _ _ _ _ (advance_chunk _ _ _ _ _ Hc)).
  - assert (n = 0) as -> by lia. unfold ret, past. cbn. rewrite Nat.add_0_r. by destruct u.
Qed.

Definition gap (u : Unpack.t (S := S)) (size : Z) : Z :=
  calculate_padding (Z.of_nat (Unpack.pos u)) size (max_alignment (Unpack.state u)).
Lemma skip_to_chunk u pre size rest : at_chunk u pre (Pack.zeros (gap u size)) rest ->
  Unpack.skip_to size u = Ok (inl tt, past u (Pack.zeros (gap u size))).
Proof.
  intros Hc. change (Unpack.skip_padding (gap u size) u = Ok (inl tt, past u (Pack.zeros (gap u size)))).
  apply (skip_chunk _ _ _ _ Hc). apply calculate_padding_nonneg.
Qed.

Lemma le_chunk u pre le rest op : at_chunk u pre (in_order (endianness (Unpack.state u)) le) rest ->
  Unpack.read_le (Z.of_nat (length le)) op u = Ok (inl le, past u (in_order (endianness (Unpack.state u)) le)).
Proof.
  intros Hc. unfold Unpack.read_le. rewrite (bind_known _ _ _ u u) by done.
  pose proof (exact_chunk _ _ _ _ op Hc) as E. rewrite length_in_order in E.
  rewrite (bind_known _ _ _ _ _ E). unfold ret. by rewrite in_order_twice.
Qed.

(** *** Each kind of item *)
Definition packable (v : value) : Prop :=
  (forall i, Value.to_integer v = Some i -> in_int i64 i) /\ (forall x, Value.to_number v = Some x -> in_int u64 x).

(** A value Rust can hold *)
Definition fits (v : value) : Prop :=
  match v with
  | Value.Integer i => in_int i64 i
  | Value.Number x => in_int u64 x
  | _ => True
  end.
Lemma fits_packable v : fits v -> packable v.
Proof.
  intros Hv. unfold packable, Value.to_integer, Value.to_number. destruct (Value.to_constant v) as [c|] eqn:E; [|done].
  cbn [mbind option_bind]. apply ReadRange.numbers_in_int. destruct v; cbn in E; simplify_eq; done.
Qed.

(** What comes back of an argument *)
Inductive came_back (v : value) : value -> Prop :=
  | back_integer i : Value.to_integer v = Some i -> came_back v (Value.Integer i)
  | back_float x : Value.to_number v = Some x -> came_back v (Value.Number (F32.to_f64 (F32.of_f64 x)))
  | back_double x : Value.to_number v = Some x -> came_back v (Value.Number x)
  | back_string b n : Pack.into_string v = Some b -> came_back v (Value.String (intern (b ++ Pack.zeros n))).

Lemma read_int_chunk u pre size i rest op : 1 <= size <= 16 -> in_int i64 i ->
  (size < 8 -> - 2 ^ (size * 8 - 1) <= i < 2 ^ (size * 8 - 1)) ->
  at_chunk u pre (in_order (endianness (Unpack.state u)) (low_bytes size i)) rest ->
  Unpack.read_int size op u = Ok (inl i, past u (in_order (endianness (Unpack.state u)) (low_bytes size i))).
Proof.
  intros Hs Hi Hr Hc. assert (Hr' : - 2 ^ (8 * size - 1) <= i < 2 ^ (8 * size - 1)).
  { rewrite (Z.mul_comm 8). destruct (Z.lt_ge_cases size 8); [by apply Hr|].
    assert (2 ^ 63 <= 2 ^ (size * 8 - 1)) by (apply Z.pow_le_mono_r; lia). revert Hi. int_lia. }
  pose proof (le_chunk _ _ _ _ op Hc) as E. rewrite length_low_bytes, Z2Nat.id in E by lia.
  unfold Unpack.read_int. rewrite (bind_known _ _ _ _ _ E).
  destruct (top_byte size i Hs) as (top & Ht & Htop). rewrite (sign_bit size i) in Htop by lia.
  unfold lift. rewrite (bind_known _ _ _ top (past u (in_order (endianness (Unpack.state u)) (low_bytes size i)))).
  2:{ by rewrite (SliceFacts.get_Some _ _ _ Ht). }
  cbn zeta. rewrite Htop. replace (if negb (i <? 0) then 0 else 255) with (if i <? 0 then 255 else 0) by (by destruct (i <? 0)).
  rewrite sign_extension by done. by rewrite checked_in by done.
Qed.

Lemma read_uint_chunk u pre size i rest op : 1 <= size <= 16 -> in_int i64 i ->
  (size < 8 -> 0 <= i < 2 ^ (size * 8)) -> (8 < size -> 0 <= i) ->
  at_chunk u pre (in_order (endianness (Unpack.state u)) (low_bytes size (wrap u64 i))) rest ->
  Unpack.read_uint size op u = Ok (inl i, past u (in_order (endianness (Unpack.state u)) (low_bytes size (wrap u64 i)))).
Proof.
  intros Hs Hi Hr Hr' Hc.
  pose proof (le_chunk _ _ _ _ op Hc) as E. rewrite length_low_bytes, Z2Nat.id in E by lia.
  unfold Unpack.read_uint. rewrite (bind_known _ _ _ _ _ E). cbn zeta. rewrite zero_extension by lia.
  pose proof (wrap_in_int u64 i) as Hw.
  assert (Hback : wrap i64 (wrap u64 i) = i).
  { etrans; [|apply (wrap_small i64 i Hi)]. apply wrap_congr. apply (wrap_mod u64 i). }
  assert (Hm : wrap u64 i mod 2 ^ (8 * size) = wrap u64 i).
  { destruct (Z.lt_ge_cases size 8) as [Hlt|Hge].
    - specialize (Hr Hlt). assert (2 ^ (size * 8) <= 2 ^ 64) by (apply Z.pow_le_mono_r; lia).
      rewrite wrap_small by (try apply _; int_lia). rewrite (Z.mul_comm 8), Z.mod_small by lia. done.
    - assert (2 ^ 64 <= 2 ^ (8 * size)) by (apply Z.pow_le_mono_r; lia). apply Z.mod_small. revert Hw. int_lia. }
  rewrite Hm. destruct (Z.leb_spec size 8).
  - rewrite (wrap_small u64 (wrap u64 i)) by done. by rewrite Hback.
  - rewrite (wrap_small u64 i) in * by (specialize (Hr' ltac:(lia)); revert Hi; int_lia).
    rewrite (proj2 (Z.ltb_ge _ _)) by apply Hi. by rewrite wrap_small by done.
Qed.

Lemma until_zero_chunk b rest : 0 ∉ b -> Unpack.until_zero (b ++ 0 :: rest) = Some b.
Proof.
  induction b as [|c b IH]; intros Hb; [done|]. cbn. rewrite not_elem_of_cons in Hb. destruct Hb as [Hc Hb].
  rewrite (proj2 (Z.eqb_neq c 0)) by done. by rewrite IH.
Qed.

Lemma zeros_0 : Pack.zeros 0 = [].
Proof. reflexivity. Qed.

Lemma past_with u a b w : Unpack.push w (past (past u a) b) = Ok (inl tt, with_value u (a ++ b) w).
Proof. unfold Unpack.push, modify, with_value. cbn. by rewrite length_app, Nat.add_assoc. Qed.

Lemma gap_1 u : gap u 1 = 0.
Proof. unfold gap, calculate_padding. by rewrite orb_true_r. Qed.

Lemma read_item u pre rest op k v chunk : kind_ok k -> packable v ->
  encoded (endianness (Unpack.state u)) v k chunk ->
  at_chunk u pre (Pack.zeros (gap u (align_of k)) ++ chunk) rest ->
  exists w, read op k u = Ok (inl tt, with_value u (Pack.zeros (gap u (align_of k)) ++ chunk) w) /\ came_back v w.
Proof.
  intros Hk [Hvi Hvn] He Hc. pose proof (skip_to_chunk _ _ _ _ (at_first _ _ _ _ _ Hc)) as Hskip.
  pose proof (at_past _ _ _ _ _ Hc) as Hc2. set (a := Pack.zeros (gap u (align_of k))) in *.
  destruct He as [size i Hi Hr|size i Hi Hr Hr'|x Hx|x Hx|n b Hb Hn|b Hb Hz|size b Hb Hl]; cbn [align_of kind_ok read] in *.
  - exists (Value.Integer i). split; [|by constructor]. unfold Unpack.unpack_int. rewrite (bind_known _ _ _ _ _ Hskip).
    rewrite (bind_known _ _ _ _ _ (read_int_chunk (past u a) _ size i _ op Hk (Hvi i Hi) Hr Hc2)). apply past_with.
  - exists (Value.Integer i). split; [|by constructor]. unfold Unpack.unpack_uint. rewrite (bind_known _ _ _ _ _ Hskip).
    rewrite (bind_known _ _ _ _ _ (read_uint_chunk (past u a) _ size i _ op Hk (Hvi i Hi) Hr Hr' Hc2)). apply past_with.
  - exists (Value.Number (F32.to_f64 (F32.of_f64 x))). split; [|by constructor]. rewrite (bind_known _ _ _ _ _ Hskip).
    pose proof (le_chunk (past u a) _ _ _ op Hc2) as E. rewrite length_le in E. rewrite (bind_known _ _ _ _ _ E).
    rewrite from_to_le, Z.mod_small by (pose proof (f32_bits x) as Hb; revert Hb; int_lia). apply past_with.
  - exists (Value.Number x). split; [|by constructor]. rewrite (bind_known _ _ _ _ _ Hskip).
    pose proof (le_chunk (past u a) _ _ _ op Hc2) as E. rewrite length_le in E. rewrite (bind_known _ _ _ _ _ E).
    rewrite from_to_le, Z.mod_small by (pose proof (Hvn x Hx) as Hn; revert Hn; int_lia). apply past_with.
  - assert (Ha : a = []) by (unfold a; by rewrite gap_1). rewrite Ha in *. cbn [app] in *.
    exists (Value.String (intern (b ++ Pack.zeros (n - Z.of_nat (length b))))). split; [|by constructor].
    pose proof (exact_chunk _ _ _ _ op Hc) as E. rewrite length_app in E.
    assert (Hn' : Z.of_nat (length b + length (Pack.zeros (n - Z.of_nat (length b)))) = n).
    { unfold Pack.zeros. rewrite length_replicate. lia. }
    rewrite Hn' in E. rewrite (bind_known _ _ _ _ _ E). unfold Unpack.push, modify, with_value. done.
  - assert (Ha : a = []) by (unfold a; by rewrite gap_1). rewrite Ha in *. cbn [app] in *.
    exists (Value.String (intern (b ++ Pack.zeros 0))). split; [|by constructor]. rewrite zeros_0, app_nil_r.
    rewrite (bind_known _ _ _ u u) by done. destruct Hc as (Hb' & Hp & Hlen).
    unfold lift. rewrite (bind_known _ _ _ (b ++ 0 :: rest) u).
    2:{ rewrite SliceFacts.slice_end, outcome_bind_Ok by (rewrite Hb', Hp, !length_app; lia).
        by rewrite Hb', Hp, drop_app_length, <- app_assoc. }
    rewrite until_zero_chunk by done. unfold Unpack.push, modify, bind, with_value. rewrite outcome_bind_Ok. by rewrite length_app.
  - rewrite (bind_known _ _ _ _ _ Hskip).
    exists (Value.String (intern (b ++ Pack.zeros 0))). split; [|by constructor]. rewrite zeros_0, app_nil_r.
    pose proof (le_chunk (past u a) _ _ _ op (at_first _ _ _ _ _ Hc2)) as E. rewrite length_low_bytes, Z2Nat.id in E by lia.
    rewrite (bind_known _ _ _ _ _ E). rewrite zero_extension by lia.
    assert (Hlb : Z.of_nat (length b) <= Z.of_nat (length (Unpack.bytes u))).
    { destruct Hc as (-> & _ & _). rewrite !length_app. lia. }
    assert (Hlen : Z.of_nat (length b) < 2 ^ (8 * size)).
    { rewrite Z.mul_comm. destruct (Z.lt_ge_cases size 16); [auto|]. replace size with 16 by lia.
      destruct Hc as (_ & _ & Hl'). revert Hl'. unfold_ints. change (2 ^ (16 * 8)) with 340282366920938463463374607431768211456. lia. }
    rewrite Z.mod_small by lia. rewrite checked_in by (destruct Hc as (_ & _ & Hl'); revert Hl'; int_lia).
    pose proof (at_past _ _ _ _ _ Hc2) as Hc3. rewrite (bind_known _ _ _ _ _ (exact_chunk _ _ _ _ op Hc3)).
    rewrite past_with. unfold with_value, past, Unpack.set_pos. cbn. do 3 f_equal. rewrite !length_app. lia.
Qed.
End Read.
End ReadFacts.

(** ** From one walk to another *)
Module WholeWalks.
Import Walk CursorFacts WalkFacts CoreFacts PackFacts PlanFacts EndianFacts ReadFacts.
Section Whole.
Context `{BuildProfile} `{Target} {S : Type} `{AsBytes S} `{DisplayFloat} `{Interning S} (allocated : Z).
#[local] Existing Instance pack_laws.
#[local] Existing Instance unpack_laws.
#[local] Existing Instance packsize_laws.
#[local] Instance pack_core : CoreLaws (Pack.t (S := S)).
Proof. split; [by intros []|done|done]. Qed.
#[local] Instance unpack_core : CoreLaws (Unpack.t (S := S)).
Proof. split; [by intros []|done|done]. Qed.
#[local] Instance size_core : CoreLaws PackSize.t.
Proof. split; [by intros []|done|done]. Qed.
Abbreviation value := (Value.t S).
Abbreviation pack_walk := (walk (Pack.process_option (S := S) allocated)).
Abbreviation unpack_walk := (walk (Unpack.process_option (S := S))).
Abbreviation size_walk := (walk PackSize.process_option).
Abbreviation good := (good (St := Pack.t (S := S)) (fun _ => True)).

Lemma gives_plan ch s : good s -> gives (fun _ => True) s (plan_of ch) (fun p _ => plan_ok p).
Proof.
  intros Hg. unfold plan_of. destruct (Conversion.of_char ch); try (apply gives_ret; [done|cbn; lia || done]).
  1-3: step; [by apply (gives_set_state _ (fun _ _ _ => I) _ (fun s => mk_FormatState _ (max_alignment (Walk.state s))))|];
    intros ? ? ? _; by apply gives_ret.
  - step; [by apply gives_set_alignment|]. intros ? ? ? _. by apply gives_ret.
  - step; [by apply gives_align_size|]. intros ? ? ? _. by apply gives_ret.
  - eapply gives_bind; [by apply gives_parse_size|]. intros size ? ? Hs. by apply gives_ret.
  - eapply gives_bind; [by apply gives_parse_size|]. intros size ? ? Hs. by apply gives_ret.
  - eapply gives_bind; [by apply gives_parse_number|]. intros [n|] ? ? Hn; [|by apply gives_throw].
    apply gives_ret; [done|]. exact (Hn n eq_refl).
  - eapply gives_bind; [by apply gives_parse_size|]. intros size ? ? Hs. by apply gives_ret.
  - by apply gives_throw.
Qed.

(** What an option did to the state of [pack] *)
Definition did (p : plan) (s s' : Pack.t (S := S)) : Prop :=
  match p with
  | Nothing => s' = s
  | OneByte => moves s s' 0 (Pack.zeros 1) /\ Pack.len s' <= MAX_STRING_PACK_BYTES
  | AlignedTo size => moves s s' 0 (Pack.zeros (pad s size)) /\ Pack.len s' <= MAX_STRING_PACK_BYTES
  | Item k => wrote k s s'
  end.

Lemma pack_step ch s s' : good s -> Pack.process_option allocated ch s = Ok (inl tt, s') ->
  exists p k, plan_of ch s = Ok (inl p, put k s) /\ plan_ok p /\ did p (put k s) s'.
Proof.
  intros Hg. rewrite pack_option. intros (p & s1 & E1 & E2)%bind_done.
  destruct (gives_plan ch s Hg) as (r & s2 & E & _ & _ & Hp). rewrite E1 in E. injection E as <- <-.
  destruct (twin _ _ _ _ _ _ _ (via_plan ch) (via_plan ch) eq_refl E1) as (k & -> & _).
  exists p, k. split; [done|]. split; [done|]. destruct p as [| |size|k']; cbn [pack_plan did] in *.
  - by injection E2 as <-.
  - destruct (zeros_done _ _ _ _ _ E2 ltac:(lia)) as [Hm Hl]. split; [done|].
    rewrite (moves_len _ _ _ _ Hm). exact Hl.
  - by apply padding_done in E2.
  - by apply write_done in E2.
Qed.

Lemma did_moves p s s' : did p s s' -> exists n b, moves s s' n b.
Proof.
  destruct p; cbn [did].
  - intros ->. exists O, []. split; [done|]. split; [done|]. split; [lia|by rewrite app_nil_r].
  - intros [Hm _]. eauto.
  - intros [Hm _]. eauto.
  - intros (v & chunk & _ & _ & Hm & _). eauto.
Qed.

Lemma good_next s ch s1 : good s -> next_char s = Ok (inl (Some ch), s1) -> good s1 /\ exists k, s1 = put k s.
Proof.
  intros Hg E. destruct (gives_next_char (fun _ => True) (fun _ _ _ => I) s Hg) as (r & s2 & E' & Hg2 & _).
  rewrite E in E'. injection E' as <- <-. split; [done|].
  destruct (twin _ _ _ _ _ _ _ via_next_char via_next_char eq_refl E) as (k & -> & _). eauto.
Qed.
Lemma good_option s ch s1 : good s -> Pack.process_option allocated ch s = Ok (inl tt, s1) -> good s1.
Proof. intros Hg E. destruct (pack_process allocated ch s Hg) as (r & s2 & E' & Hg2 & _). congruence. Qed.

(** The bytes written stay. *)
Lemma walk_grows s r s' : pack_walk s r s' -> good s -> Pack.writer s `prefix_of` Pack.writer s' \/ exists e, r = inr e.
Proof.
  induction 1 as [| |s ch s1 s2 r s3 En Ep Hw IH]; [by left|by right; eexists|]. intros Hg.
  destruct (good_next _ _ _ Hg En) as [Hg1 [k1 ->]]. pose proof (good_option _ _ _ Hg1 Ep) as Hg2.
  destruct (IH Hg2) as [Hp|]; [left|by right].
  destruct (pack_step _ _ _ Hg1 Ep) as (p & k & _ & _ & Hd). apply did_moves in Hd as (n & b & _ & _ & _ & Hb).
  etrans; [|exact Hp]. rewrite Hb. by apply prefix_app_r.
Qed.

(** *** [unpack] after [pack] *)
Definition sim (out : list Z) (s : Pack.t (S := S)) (u : Unpack.t (S := S)) : Prop :=
  core_of u = core_of s /\ Unpack.bytes u = out /\ Unpack.pos u = length (Pack.writer s) /\
  (Pack.arg_index s <= length (Pack.args s))%nat /\
  Forall2 came_back (take (Pack.arg_index s) (Pack.args s)) (Unpack.values u).

Lemma sim_put out s u k : sim out s u -> sim out (put k s) (put k u).
Proof. intros (Hc & Hr). split; [by rewrite !core_of_put|exact Hr]. Qed.

Lemma sim_moves out s s' u b : sim out s u -> moves s s' 0 b -> sim out s' (past u b).
Proof.
  intros (Hc & Hb & Hp & Hi & Hf) (Mc & Ma & Mi & Mw). split; [by rewrite Mc|]. split; [done|].
  split; [cbn; rewrite Mw, length_app; lia|]. rewrite Ma, Mi, Nat.add_0_r. done.
Qed.

Lemma sim_item out s s' u b v w : sim out s u -> moves s s' 1 b -> Pack.args s !! Pack.arg_index s = Some v ->
  came_back v w -> sim out s' (with_value u b w).
Proof.
  intros (Hc & Hb & Hp & Hi & Hf) (Mc & Ma & Mi & Mw) Hv Hw. split; [by rewrite Mc|]. split; [done|].
  split; [cbn; rewrite Mw, length_app; lia|]. rewrite Ma, Mi, Nat.add_1_r. pose proof (lookup_lt_Some _ _ _ Hv).
  split; [lia|]. rewrite (take_S_r _ _ v) by done. cbn. by apply Forall2_app; [|constructor].
Qed.

Lemma sim_chunk out s s' u n b : sim out s u -> moves s s' n b -> Pack.writer s' `prefix_of` out ->
  Z.of_nat (length out) < int_max i64 -> exists rest, at_chunk u (Pack.writer s) b rest.
Proof.
  intros (Hc & Hb & Hp & _) (_ & _ & _ & Mw) [rest Hr] Hl. exists rest. split; [|by rewrite Hb].
  by rewrite Hb, Hr, Mw, <- app_assoc.
Qed.

Lemma sim_gap out s u size : sim out s u -> gap u size = pad s size.
Proof. intros ([= _ Hst] & _ & Hp & _). unfold gap, pad, Pack.len. cbn in Hst. by rewrite Hst, Hp. Qed.

Lemma unpack_step out ch s s' u : Forall packable (Pack.args s) -> Z.of_nat (length out) < int_max i64 -> good s ->
  sim out s u -> Pack.process_option allocated ch s = Ok (inl tt, s') -> Pack.writer s' `prefix_of` out ->
  exists u', Unpack.process_option ch u = Ok (inl tt, u') /\ sim out s' u'.
Proof.
  intros Hpk Hl Hg Hs E Hpre. destruct (pack_step _ _ _ Hg E) as (p & k & Ep & Hp & Hd).
  destruct (twin _ _ _ _ u _ _ (via_plan ch) (via_plan ch) (eq_sym (proj1 Hs)) Ep) as (k' & Ek & Eu).
  assert (k' = k) as ->. { apply (f_equal core_of) in Ek. by rewrite !core_of_put in Ek. }
  rewrite unpack_option. rewrite (bind_known _ _ _ _ _ Eu). apply (sim_put _ _ _ k) in Hs.
  change (Pack.args s) with (Pack.args (put k s)) in Hpk. revert Hs Hd Hpk. generalize (put k s), (put k u). clear - Hl Hp Hpre.
  intros s u Hs Hd Hpk. destruct p as [| |size|kd]; cbn [did unpack_plan] in *.
  - subst. by exists u.
  - destruct Hd as [Hm _]. destruct (sim_chunk _ _ _ _ _ _ Hs Hm Hpre Hl) as [rest Hc].
    eexists. split; [by apply (skip_chunk _ _ _ _ Hc)|]. by eapply sim_moves.
  - destruct Hd as [Hm _]. rewrite <- (sim_gap _ _ _ size Hs) in Hm. destruct (sim_chunk _ _ _ _ _ _ Hs Hm Hpre Hl) as [rest Hc].
    eexists. split; [by apply (skip_to_chunk _ _ _ _ Hc)|]. by eapply sim_moves.
  - destruct Hd as (v & chunk & Hv & He & Hm & _). rewrite <- (sim_gap _ _ _ _ Hs) in Hm.
    destruct (sim_chunk _ _ _ _ _ _ Hs Hm Hpre Hl) as [rest Hc].
    assert (Hst : Unpack.state u = Pack.state s) by (destruct Hs as ([= _ Hst] & _); exact Hst). rewrite <- Hst in He.
    destruct (read_item _ _ _ ch _ _ _ Hp (proj1 (Forall_lookup _ _) Hpk _ _ Hv) He Hc) as (w & Er & Hw).
    eexists. split; [exact Er|]. by eapply sim_item.
Qed.

Lemma unpack_walks s r s' : pack_walk s r s' -> r = inl tt -> good s ->
  forall out u, Pack.writer s' = out -> Z.of_nat (length out) < int_max i64 -> Forall packable (Pack.args s) -> sim out s u ->
  exists u', unpack_walk u (inl tt) u' /\ sim out s' u' /\ Pack.args s' = Pack.args s.
Proof.
  induction 1 as [s En| |s ch s1 s2 r s3 En Ep Hw IH]; intros Hr Hg out u Ho Hl Hpk Hs; [|done|].
  - exists u. split; [|done]. destruct (twin _ _ _ _ u _ _ via_next_char via_next_char (eq_sym (proj1 Hs)) En) as (k & Ek & Eu).
    apply walk_end. by rewrite (next_char_end _ _ Eu) in Eu.
  - destruct (good_next _ _ _ Hg En) as [Hg1 [k ->]]. pose proof (good_option _ _ _ Hg1 Ep) as Hg2.
    destruct (twin _ _ _ _ u _ _ via_next_char via_next_char (eq_sym (proj1 Hs)) En) as (k' & Ek & Eu).
    assert (k' = k) as ->. { apply (f_equal core_of) in Ek. by rewrite !core_of_put in Ek. }
    destruct (walk_grows _ _ _ Hw Hg2) as [Hpre|[e ->]]; [|done]. rewrite Ho in Hpre.
    assert (Hpk1 : Forall packable (Pack.args (put k s))) by exact Hpk.
    destruct (unpack_step out ch (put k s) s2 _ Hpk1 Hl Hg1 (sim_put _ _ _ k Hs) Ep Hpre) as (u2 & Eu2 & Hs2).
    assert (Ha : Pack.args s2 = Pack.args s).
    { destruct (pack_step _ _ _ Hg1 Ep) as (p & k2 & _ & _ & Hd). by apply did_moves in Hd as (n & b & _ & Ha & _). }
    destruct (IH Hr Hg2 out u2 Ho Hl) as (u3 & Hw3 & Hs3 & Ha3); [by rewrite Ha|done|].
    exists u3. split; [|split; [done|congruence]]. by eapply walk_next.
Qed.

(** *** [packsize] beside [pack] *)
Definition size_plan (op : Z) (p : plan) : M PackSize.t unit :=
  match p with
  | Nothing => ret tt
  | OneByte => PackSize.add 1
  | AlignedTo size => PackSize.add_padding size
  | Item (KInt size) | Item (KUInt size) => bind (PackSize.add_padding size) (fun _ => PackSize.add size)
  | Item KFloat => bind (PackSize.add_padding 4) (fun _ => PackSize.add 4)
  | Item KDouble => bind (PackSize.add_padding 8) (fun _ => PackSize.add 8)
  | Item (KChars n) => PackSize.add n
  | Item KZString | Item (KLString _) => throw (PackError.VariableLength op)
  end.

Lemma size_unit (m : M PackSize.t unit) s : bind m (fun _ => ret tt) s = m s.
Proof. unfold bind. by destruct (m s) as [[[[]|e] s1]|]. Qed.

Lemma size_option ch s p s1 : plan_of ch s = Ok (inl p, s1) ->
  (exists size, p = Item (KLString size) /\ PackSize.process_option ch s = Ok (inr (PackError.VariableLength ch), s)) \/
  PackSize.process_option ch s = size_plan ch p s1.
Proof.
  intros E. assert (Hp : forall m : M PackSize.t unit, m s = bind (plan_of ch) (size_plan ch) s -> m s = size_plan ch p s1).
  { intros m ->. by rewrite (bind_known _ _ _ _ _ E). }
  revert E Hp. unfold PackSize.process_option, plan_of. destruct (Conversion.of_char ch); intros E Hp;
    try (right; apply Hp; rewrite ?bind_assoc, ?bind_ret; first [reflexivity|symmetry; exact (size_unit _ s)]).
  - right. apply Hp. rewrite bind_assoc. apply bind_ext. by intros [n|] s'.
  - left. apply bind_done in E as (size & s2 & _ & [= <- _]). by exists size.
Qed.

Definition same_size (s : Pack.t (S := S)) (z : PackSize.t) : Prop :=
  core_of z = core_of s /\ PackSize.total_size z = Pack.len s.

Lemma add_known n z : 0 <= PackSize.total_size z -> 0 <= n -> PackSize.total_size z + n <= MAX_STRING_PACK_BYTES + 16 ->
  PackSize.add n z =
    Ok (if PackSize.total_size z + n <=? MAX_STRING_PACK_BYTES
        then (inl tt, PackSize.mk (PackSize.fmt z) (PackSize.state z) (PackSize.total_size z + n))
        else (inr PackError.TooLarge, z)).
Proof.
  intros Hz Hn Hl. unfold PackSize.add, bind, get. rewrite outcome_bind_Ok.
  rewrite checked_in by (revert Hl; unfold MAX_STRING_PACK_BYTES; int_lia). by destruct (_ <=? _).
Qed.

(** [packsize] goes along, or says why not. *)
Definition sized (s' : Pack.t (S := S)) (r : (unit + PackError.t) * PackSize.t) : Prop :=
  match r with
  | (inl _, z') => same_size s' z'
  | (inr PackError.TooLarge, _) => MAX_STRING_PACK_BYTES < Pack.len s'
  | (inr e, _) => exists op, e = PackError.VariableLength op
  end.

Lemma sized_add s s' z b n : same_size s z -> moves s s' n b -> Pack.len s' <= MAX_STRING_PACK_BYTES + 16 ->
  exists r, PackSize.add (Z.of_nat (length b)) z = Ok r /\ sized s' r.
Proof.
  intros [Hc Ht] Hm Hl. rewrite (moves_len _ _ _ _ Hm) in Hl. assert (0 <= Pack.len s) by (unfold Pack.len; lia).
  rewrite add_known by lia. eexists. split; [done|]. rewrite Ht. destruct (Z.leb_spec (Pack.len s + Z.of_nat (length b)) MAX_STRING_PACK_BYTES); cbn.
  - split; [by rewrite (proj1 Hm)|]. cbn. by rewrite (moves_len _ _ _ _ Hm).
  - rewrite (moves_len _ _ _ _ Hm). lia.
Qed.

Lemma length_zeros n : 0 <= n -> Z.of_nat (length (Pack.zeros n)) = n.
Proof. intros Hn. unfold Pack.zeros. rewrite length_replicate. lia. Qed.

Lemma add_padding_eq s z size : same_size s z -> PackSize.add_padding size z = PackSize.add (pad s size) z.
Proof.
  intros [[= _ Hst] Ht]. unfold PackSize.add_padding, padding, bind, get, ret. rewrite !outcome_bind_Ok. unfold pad.
  cbn in Hst |- *. by rewrite Ht, Hst.
Qed.

Lemma sized_padding s s' z size n chunk : same_size s z -> moves s s' n (Pack.zeros (pad s size) ++ chunk) ->
  Pack.len s' <= MAX_STRING_PACK_BYTES + 16 ->
  exists r, bind (PackSize.add_padding size) (fun _ => PackSize.add (Z.of_nat (length chunk))) z = Ok r /\ sized s' r.
Proof.
  intros Hs Hm Hl. assert (Hp : 0 <= pad s size) by apply calculate_padding_nonneg.
  pose proof (moves_len _ _ _ _ Hm) as Hlen. rewrite length_app, Nat2Z.inj_add, length_zeros in Hlen by done.
  unfold bind. rewrite (add_padding_eq _ _ _ Hs). destruct Hs as [Hc Ht]. assert (0 <= Pack.len s) by (unfold Pack.len; lia).
  rewrite add_known by lia. rewrite outcome_bind_Ok, Ht.
  destruct (Z.leb_spec (Pack.len s + pad s size) MAX_STRING_PACK_BYTES); [|eexists; split; [done|cbn; lia]].
  rewrite add_known; cbn [PackSize.total_size]; [|lia..]. eexists. split; [done|].
  destruct (Z.leb_spec (Pack.len s + pad s size + Z.of_nat (length chunk)) MAX_STRING_PACK_BYTES); cbn; [|lia].
  split; [by rewrite (proj1 Hm)|]. cbn. lia.
Qed.

Lemma encoded_length e v k chunk : encoded (S := S) e v k chunk -> kind_ok k ->
  match k with
  | KInt size | KUInt size => Z.of_nat (length chunk) = size
  | KFloat => length chunk = 4%nat
  | KDouble => length chunk = 8%nat
  | KChars n => Z.of_nat (length chunk) = n
  | _ => True
  end.
Proof.
  destruct 1; cbn [kind_ok]; intros Hk; try done; rewrite ?length_in_order, ?length_low_bytes, ?length_le by lia; try lia.
  rewrite length_app, Nat2Z.inj_add, length_zeros; lia.
Qed.

Lemma size_step ch s s' z : good s -> same_size s z -> Pack.process_option allocated ch s = Ok (inl tt, s') ->
  exists r, PackSize.process_option ch z = Ok r /\ sized s' r.
Proof.
  intros Hg Hs E. destruct (pack_step _ _ _ Hg E) as (p & k & Ep & Hp & Hd).
  destruct (twin _ _ _ _ z _ _ (via_plan ch) (via_plan ch) (eq_sym (proj1 Hs)) Ep) as (k' & Ek & Ez).
  assert (k' = k) as ->. { apply (f_equal core_of) in Ek. by rewrite !core_of_put in Ek. }
  assert (Hs' : same_size (put k s) (put k z)) by (destruct Hs as [_ Ht]; split; [by rewrite !core_of_put|exact Ht]).
  destruct (size_option ch z _ _ Ez) as [(size & _ & ->)| ->]; [eexists; split; [done|by exists ch]|].
  revert Hs' Hd. generalize (put k s), (put k z). clear - Hp. intros s z Hs Hd. destruct p as [| |size|kd]; cbn [did size_plan] in *.
  - subst. by eexists.
  - destruct Hd as [Hm Hl]. apply (sized_add _ _ _ _ _ Hs Hm). lia.
  - destruct Hd as [Hm Hl]. rewrite (add_padding_eq _ _ _ Hs).
    pose proof (sized_add _ _ _ _ _ Hs Hm) as Ha. rewrite length_zeros in Ha by apply calculate_padding_nonneg. apply Ha. lia.
  - destruct Hd as (v & chunk & _ & He & Hm & Hl). pose proof (encoded_length _ _ _ _ He Hp) as Hlen.
    pose proof (sized_padding _ _ _ _ _ _ Hs Hm Hl) as Hr.
    destruct kd as [size|size| | |n| |size]; cbn [align_of] in *; rewrite ?Hlen in Hr; try exact Hr.
    + rewrite pad_1 in Hm. rewrite <- Hlen. exact (sized_add _ _ _ _ _ Hs Hm Hl).
    + eexists. split; [done|by exists ch].
    + eexists. split; [done|by exists ch].
Qed.

Lemma size_walks s r s' : pack_walk s r s' -> r = inl tt -> good s -> Pack.len s <= MAX_STRING_PACK_BYTES + 16 ->
  forall z, same_size s z -> exists r z', size_walk z r z' /\
    match r with
    | inl _ => same_size s' z'
    | inr PackError.TooLarge => MAX_STRING_PACK_BYTES < Pack.len s'
    | inr e => exists op, e = PackError.VariableLength op
    end.
Proof.
  induction 1 as [s En| |s ch s1 s2 r s3 En Ep Hw IH]; intros Hr Hg Hl z Hs; [|done|].
  - exists (inl tt), z. split; [|done]. destruct (twin _ _ _ _ z _ _ via_next_char via_next_char (eq_sym (proj1 Hs)) En) as (k & Ek & Eu).
    apply walk_end. by rewrite (next_char_end _ _ Eu) in Eu.
  - destruct (good_next _ _ _ Hg En) as [Hg1 [k ->]]. pose proof (good_option _ _ _ Hg1 Ep) as Hg2.
    destruct (twin _ _ _ _ z _ _ via_next_char via_next_char (eq_sym (proj1 Hs)) En) as (k' & Ek & Ez).
    assert (k' = k) as ->. { apply (f_equal core_of) in Ek. by rewrite !core_of_put in Ek. }
    assert (Hs' : same_size (put k s) (put k z)) by (destruct Hs as [_ Ht]; split; [by rewrite !core_of_put|exact Ht]).
    destruct (size_step _ _ _ _ Hg1 Hs' Ep) as ([[[]|e] z2] & E2 & Hz2).
    + destruct (pack_step _ _ _ Hg1 Ep) as (p & k2 & _ & _ & Hd).
      assert (Hl2 : Pack.len s2 <= MAX_STRING_PACK_BYTES + 16).
      { destruct p; cbn [did] in Hd; [by rewrite Hd|destruct Hd; lia|destruct Hd; lia|]. by destruct Hd as (v & chunk & _ & _ & _ & Hd). }
      destruct (IH Hr Hg2 Hl2 z2 Hz2) as (r' & z' & Hw' & Hz'). exists r', z'. split; [|done]. by eapply walk_next.
    + exists (inr e), z2. split; [by eapply walk_error|]. destruct (walk_grows _ _ _ Hw Hg2) as [Hpre|[e' ->]]; [|done].
      apply prefix_length in Hpre. unfold sized, Pack.len in *. destruct e; try exact Hz2. lia.
Qed.

(** No more than one number is over the limit. *)
Lemma pack_length s r s' : pack_walk s r s' -> r = inl tt -> good s -> Pack.len s <= MAX_STRING_PACK_BYTES + 16 ->
  Pack.len s' <= MAX_STRING_PACK_BYTES + 16.
Proof.
  induction 1 as [s En| |s ch s1 s2 r s3 En Ep Hw IH]; intros Hr Hg Hl; [done|done|].
  destruct (good_next _ _ _ Hg En) as [Hg1 [k ->]]. apply IH; [done|by eapply good_option|].
  destruct (pack_step _ _ _ Hg1 Ep) as (p & k2 & _ & _ & Hd).
  destruct p; cbn [did] in Hd; [by rewrite Hd|destruct Hd; lia|destruct Hd; lia|]. by destruct Hd as (v & chunk & _ & _ & _ & Hd).
Qed.
End Whole.
End WholeWalks.

(** ** The results *)
Module PackTheorems.
Import Walk CursorFacts WalkFacts CoreFacts PackFacts PlanFacts EndianFacts ReadFacts WholeWalks.
Section Results.
Context `{BuildProfile} `{Target} {S : Type} `{AsBytes S} `{DisplayFloat} `{Interning S} (allocated : Z).
#[local] Existing Instance pack_laws.
#[local] Existing Instance unpack_laws.
#[local] Existing Instance packsize_laws.
#[local] Existing Instance pack_core.
Abbreviation value := (Value.t S).

Definition out_of_fuel (f : Fuel.t) : bool := negb (Fuel.should_continue f).

(** The calls, polled with one slice of fuel after the other *)
Definition pack (fmt : list Z) (args : list value) (l : Memory.MemoryLimit) (fs : list Fuel.t) :=
  polls (Pack.poll allocated) fs (Pack.create fmt args l).
Definition unpack (fmt data : list Z) (start : nat) (fs : list Fuel.t) :=
  polls (Unpack.poll (S := S)) fs (Unpack.create fmt data start).
Definition packsize (fmt : list Z) (fs : list Fuel.t) := polls PackSize.poll fs (PackSize.create fmt).

Lemma pack_good fmt (args : list value) l : Utf8.is_utf8 fmt = true -> good (fun _ => True) (Pack.create fmt args l).
Proof. intros Hu. split; [done|]. by apply create_ready. Qed.
Lemma size_good fmt : Utf8.is_utf8 fmt = true -> good (fun _ => True) (PackSize.create fmt).
Proof. intros Hu. split; [done|]. by apply create_ready. Qed.
Lemma unpack_good fmt data start : Utf8.is_utf8 fmt = true -> (start <= length data)%nat -> Z.of_nat (length data) < int_max i64 ->
  good inside (Unpack.create (S := S) fmt data start).
Proof. intros Hu Hs Hl. split; [done|]. by apply create_ready. Qed.

Lemma pack_walked fmt (args : list value) l fs out : Utf8.is_utf8 fmt = true -> (length fmt < length fs)%nat ->
  pack fmt args l fs = Ok (inl (Return out)) ->
  exists s, walk (Pack.process_option allocated) (Pack.create fmt args l) (inl tt) s /\ Pack.writer s = out.
Proof.
  intros Hu Hl E. destruct (polls_answer _ _ _ _ fs (pack_poll_ok allocated out_of_fuel) _ (pack_good fmt args l Hu)) as (r & E' & Hr);
    [cbn; lia|]. change (pack fmt args l fs = Ok r) in E'. rewrite E in E'. injection E' as <-. destruct Hr as (s & Hw & [= Ho]). by exists s.
Qed.

Definition finished {St A} (r : SequencePoll St A + PackError.t) : Prop :=
  match r with inl (Pending _) => False | _ => True end.

Lemma answers {St A} `{FormattedLaws St} process (I : St -> Prop) (result : St -> outcome A) poll s n :
  poll_ok process I result poll -> good I s -> (length (FormatCursor.bytes (cursor s)) - FormatCursor.pos (cursor s) = n)%nat ->
  exists r, finished r /\ forall fs, (n < length fs)%nat -> polls poll fs s = Ok r.
Proof.
  intros Hp Hg <-. set (n := (_ - _)%nat).
  destruct (polls_answer _ _ _ poll (replicate (Datatypes.S n) Fuel.empty) Hp s Hg) as (r & E & Hr); [rewrite length_replicate; unfold n; lia|].
  exists r. split; [by destruct r as [[]|]|]. intros fs Hl.
  eapply (polls_agree process I result poll poll); [done..| | |exact E]; [rewrite length_replicate; unfold n; lia|done].
Qed.

(** C38: a text as format, whatever the arguments and the data: each of [string.pack], [string.unpack]
    and [string.packsize] comes to an answer without a panic, in at most one poll for each byte of
    the format and one more, and the answer does not depend on how its fuel is sliced. *)
Theorem sequences_answer (fmt : list Z) (args : list value) l data start : Utf8.is_utf8 fmt = true ->
  (start <= length data)%nat -> Z.of_nat (length data) < int_max i64 ->
  (exists r, finished r /\ forall fs, (length fmt < length fs)%nat -> pack fmt args l fs = Ok r) /\
  (exists r, finished r /\ forall fs, (length fmt < length fs)%nat -> unpack fmt data start fs = Ok r) /\
  (exists r, finished r /\ forall fs, (length fmt < length fs)%nat -> packsize fmt fs = Ok r).
Proof.
  intros Hu Hs Hl. split; [|split].
  - by apply (answers _ _ _ _ _ (length fmt) (pack_poll_ok allocated out_of_fuel) (pack_good fmt args l Hu) (Nat.sub_0_r _)).
  - by apply (answers _ _ _ _ _ (length fmt) (unpack_poll_ok out_of_fuel) (unpack_good fmt data start Hu Hs Hl) (Nat.sub_0_r _)).
  - by apply (answers _ _ _ _ _ (length fmt) (size_poll_ok out_of_fuel) (size_good fmt Hu) (Nat.sub_0_r _)).
Qed.

(** C36: [string.unpack] gives back what [string.pack] wrote in the same format, in whatever slices
    the two run: the arguments that were used, as the integers, the numbers (rounded to an [f32] for
    the option [f]) and the strings (with the zeros of the option [c]) they stand for, and the
    position after the last byte. *)
Theorem pack_unpack (fmt : list Z) (args : list value) l fs gs out : Utf8.is_utf8 fmt = true -> Forall fits args ->
  (length fmt < length fs)%nat -> (length fmt < length gs)%nat ->
  pack fmt args l fs = Ok (inl (Return out)) ->
  exists n vs, (n <= length args)%nat /\ Forall2 came_back (take n args) vs /\
    unpack fmt out 0 gs = Ok (inl (Return (vs ++ [Value.Integer (Z.of_nat (length out) + 1)]))).
Proof.
  intros Hu Hf Hl Hl' E. destruct (pack_walked _ _ _ _ _ Hu Hl E) as (s & Hw & <-). set (out := Pack.writer s).
  pose proof (pack_good fmt args l Hu) as Hg.
  assert (Hlen : Z.of_nat (length out) < int_max i64).
  { pose proof (pack_length _ _ _ _ Hw eq_refl Hg) as Hp. unfold Pack.len, MAX_STRING_PACK_BYTES in Hp. cbn in Hp. fold out in Hp.
    specialize (Hp ltac:(lia)). int_lia. }
  destruct (unpack_walks allocated _ _ _ Hw eq_refl Hg out (Unpack.create fmt out 0) eq_refl Hlen) as (u & Hwu & Hs & Ha).
  { apply (Forall_impl _ _ _ Hf). apply fits_packable. }
  { split; [done|]. split; [done|]. split; [done|]. split; [cbn; lia|]. constructor. }
  destruct Hs as (_ & Hb & Hpos & Hi & Hv). rewrite Ha in Hi, Hv. cbn [Pack.args Pack.create] in Hi, Hv.
  exists (Pack.arg_index s), (Unpack.values u). split; [done|]. split; [done|].
  pose proof (unpack_good fmt out 0 Hu ltac:(lia) Hlen) as Hgu.
  destruct (polls_answer _ _ _ _ gs (unpack_poll_ok out_of_fuel) _ Hgu) as (r & Er & Hr); [cbn; lia|].
  change (unpack fmt out 0 gs = Ok r) in Er. rewrite Er. destruct r as [[|a]|e]; [done|..].
  - destruct Hr as (u' & Hwu' & Hres). destruct (walk_deterministic _ _ _ _ Hwu _ _ Hwu') as [_ <-].
    rewrite unpack_result in Hres by (split; [by rewrite Hb, Hpos|by rewrite Hb]). injection Hres as <-. by rewrite Hpos.
  - destruct Hr as (u' & Hwu'). by destruct (walk_deterministic _ _ _ _ Hwu _ _ Hwu').
Qed.

(** C37: when [string.pack] gives a string, [string.packsize] gives its length, unless the format has
    an item of variable size, or the string is longer than [MAX_STRING_PACK_BYTES], which it exceeds
    by 16 bytes at most. *)
Theorem packsize_exact (fmt : list Z) (args : list value) l fs gs out : Utf8.is_utf8 fmt = true ->
  (length fmt < length fs)%nat -> (length fmt < length gs)%nat ->
  pack fmt args l fs = Ok (inl (Return out)) ->
  Z.of_nat (length out) <= MAX_STRING_PACK_BYTES + 16 /\
  (packsize fmt gs = Ok (inl (Return (Z.of_nat (length out)))) \/
   (exists op, packsize fmt gs = Ok (inr (PackError.VariableLength op))) \/
   (packsize fmt gs = Ok (inr PackError.TooLarge) /\ MAX_STRING_PACK_BYTES < Z.of_nat (length out))).
Proof.
  intros Hu Hl Hl' E. destruct (pack_walked _ _ _ _ _ Hu Hl E) as (s & Hw & <-). pose proof (pack_good fmt args l Hu) as Hg.
  assert (Hstart : Pack.len (Pack.create fmt args l) <= MAX_STRING_PACK_BYTES + 16) by (unfold MAX_STRING_PACK_BYTES, Pack.len; cbn; lia).
  pose proof (pack_length _ _ _ _ Hw eq_refl Hg Hstart) as Hlen. split; [exact Hlen|].
  destruct (size_walks _ _ _ _ Hw eq_refl Hg Hstart (PackSize.create fmt)) as (r & z & Hwz & Hz); [done|].
  destruct (polls_answer _ _ _ _ gs (size_poll_ok out_of_fuel) _ (size_good fmt Hu)) as (r' & Er & Hr); [cbn; lia|].
  change (packsize fmt gs = Ok r') in Er. rewrite Er. destruct r' as [[|a]|e]; [done|..].
  - destruct Hr as (z' & Hwz' & Hres). destruct (walk_deterministic _ _ _ _ Hwz _ _ Hwz') as [-> <-]. left.
    destruct Hz as [_ Hz]. rewrite Hz in Hres. assert (Hi : in_int i64 (Pack.len s)).
    { revert Hlen. unfold Pack.len, MAX_STRING_PACK_BYTES. int_lia. }
    rewrite (wrap_small i64 _ Hi) in Hres. by injection Hres as <-.
  - destruct Hr as (z' & Hwz'). destruct (walk_deterministic _ _ _ _ Hwz _ _ Hwz') as [-> <-].
    right. destruct e; try (match type of Hz with ex _ => idtac end; destruct Hz as [? [=]]); [right; split; [done|exact Hz]|]. left. by eexists.
Qed.

(** *** A number past the limit *)
Lemma ensure_free n (s : Pack.t (S := S)) : Memory.max_bytes (Pack.limit s) = None -> 0 <= n -> Pack.len s + n <= MAX_STRING_PACK_BYTES ->
  Pack.ensure_capacity allocated n s = Ok (inl tt, Pack.set_limit (Memory.set_current allocated (Pack.limit s)) s).
Proof.
  intros Hm Hn Hl. assert (0 <= Pack.len s) by (unfold Pack.len; lia). unfold Pack.ensure_capacity.
  rewrite saturating_small by (revert Hl; unfold MAX_STRING_PACK_BYTES; int_lia).
  rewrite (proj2 (Z.ltb_ge _ _)) by done. unfold Memory.check. cbn [Memory.max_bytes Memory.set_current]. by rewrite Hm.
Qed.

(** One item more, of which the core and the arguments are known *)
Definition item_done (s s' : Pack.t (S := S)) (b : list Z) : Prop :=
  moves s s' 1 b /\ Memory.max_bytes (Pack.limit s') = None.

Lemma write_zeros n (s : Pack.t (S := S)) e : Pack.args s !! Pack.arg_index s = Some (Value.String e) -> as_bytes e = [] ->
  Memory.max_bytes (Pack.limit s) = None -> 0 <= n -> Pack.len s + n <= MAX_STRING_PACK_BYTES ->
  exists s', write allocated (KChars n) s = Ok (inl tt, s') /\ item_done s s' (Pack.zeros n).
Proof.
  intros Ha He Hm Hn Hl. assert (0 <= Pack.len s) by (unfold Pack.len; lia). cbn [write]. rewrite (proj2 (Z.ltb_ge _ _)) by lia.
  rewrite (bind_known _ _ _ (Z.of_nat (Pack.arg_index s) + 2) s) by done.
  rewrite (bind_known _ _ _ [] (Pack.set_arg_index (Datatypes.S (Pack.arg_index s)) s)).
  2:{ unfold Pack.take_string, Pack.get_arg, Pack.arg_num, bind, get, ret, modify. rewrite !outcome_bind_Ok, Ha, !outcome_bind_Ok.
      cbn [Pack.into_string]. by rewrite He. }
  cbn [length]. rewrite (proj2 (Z.ltb_ge _ _)) by lia.
  rewrite (bind_known _ _ _ _ _ (ensure_free n (Pack.set_arg_index (Datatypes.S (Pack.arg_index s)) s) Hm Hn Hl)). unfold Pack.extend, modify, bind. rewrite outcome_bind_Ok, Z.sub_0_r.
  eexists. split; [done|]. split; [|exact Hm]. split; [done|]. split; [done|]. split; [cbn; lia|]. cbn. by rewrite app_nil_r.
Qed.

Lemma write_byte i (s : Pack.t (S := S)) : Pack.args s !! Pack.arg_index s = Some (Value.Integer i) -> -128 <= i < 128 ->
  Memory.max_bytes (Pack.limit s) = None -> Pack.len s <= MAX_STRING_PACK_BYTES ->
  exists s' b, write allocated (KInt 1) s = Ok (inl tt, s') /\ item_done s s' [b].
Proof.
  intros Ha Hi Hm Hl. cbn [write]. change (1 <? 8) with true. cbn match. unfold Pack.pack_signed.
  rewrite (bind_known _ _ _ (Z.of_nat (Pack.arg_index s) + 2) s) by done.
  rewrite (bind_known _ _ _ i (Pack.set_arg_index (Datatypes.S (Pack.arg_index s)) s)).
  2:{ unfold Pack.take_integer, Pack.get_arg, Pack.arg_num, bind, get, ret, modify. by rewrite !outcome_bind_Ok, Ha, !outcome_bind_Ok. }
  change (2 ^ (1 * 8 - 1)) with 128. rewrite (proj2 (Z.ltb_ge i _)), (proj2 (Z.ltb_ge _ i)) by lia. cbn [orb].
  set (s1 := Pack.set_arg_index _ s).
  assert (Hp : Pack.push_padding allocated 1 s1 = Pack.push_zeros allocated 0 s1).
  { change (Pack.push_zeros allocated (pad s1 1) s1 = Pack.push_zeros allocated 0 s1). by rewrite pad_1. }
  unfold bind at 1. rewrite Hp. unfold Pack.push_zeros.
  rewrite (bind_known _ _ _ _ _ (ensure_free 0 s1 Hm ltac:(lia) ltac:(unfold s1, Pack.len in *; cbn; lia))).
  unfold Pack.extend at 1, modify at 1. rewrite outcome_bind_Ok. unfold Pack.write_int, bind, get, lift. rewrite outcome_bind_Ok.
  rewrite SliceFacts.slice_in by (rewrite ?length_le; lia). rewrite !outcome_bind_Ok.
  assert (Hb : exists b, forall e, in_order e (take (Z.to_nat 1 - 0) (drop 0 (to_le_bytes 16 i))) = [b]).
  { eexists. intros []; [done|done|]. cbn. by case_match. }
  destruct Hb as [b Hb]. eexists _, b. split; [done|]. split; [|exact Hm]. split; [done|]. split; [done|]. split; [cbn; lia|].
  unfold Pack.set_writer. cbn [Pack.writer Pack.set_limit Pack.state]. by rewrite Hb, zeros_0, app_nil_r.
Qed.

Lemma run_next n yields process f (s s1 s2 : Pack.t (S := S)) ch : next_char s = Ok (inl (Some ch), s1) ->
  process ch s1 = Ok (inl tt, s2) -> yields (Fuel.consume FUEL_PER_FORMAT_BYTE f) = false ->
  run (Datatypes.S n) yields process f s = run n yields process (Fuel.consume FUEL_PER_FORMAT_BYTE f) s2.
Proof. intros En Ep Hy. cbn [run]. by rewrite En, outcome_bind_Ok, Ep, outcome_bind_Ok, Hy. Qed.

(** The output of [string.pack] is not bounded by [MAX_STRING_PACK_BYTES]: room is asked for the
    padding of a number alone, so a number after a string of that many bytes is one too many. *)
Theorem pack_over_limit (e : S) : as_bytes e = [] ->
  exists out, pack (bs# "c16777216b") [Value.String e; Value.Integer 7] (Memory.new None) [Fuel.with_ 9] = Ok (inl (Return out)) /\
    Z.of_nat (length out) = MAX_STRING_PACK_BYTES + 1.
Proof.
  intros He. set (args := [Value.String e; Value.Integer 7]). set (s0 := Pack.create (bs# "c16777216b") args (Memory.new None)).
  assert (E1 : next_char s0 = Ok (inl (Some 99), put (FormatCursor.mk (bs# "c16777216b") 1, default_state) s0)) by reflexivity.
  set (s1 := put _ s0) in E1.
  assert (P1 : plan_of 99 s1 = Ok (inl (Item (KChars 16777216)), put (FormatCursor.mk (bs# "c16777216b") 9, default_state) s0)) by reflexivity.
  set (s2 := put _ s0) in P1.
  destruct (write_zeros 16777216 s2 e) as (s3 & W3 & (M3c & M3a & M3i & M3w) & M3l); [done|done|done|lia|done|].
  assert (Hz := length_zeros 16777216 ltac:(lia)). change (Pack.writer s2) with (@nil Z) in M3w. rewrite app_nil_l in M3w.
  revert M3w Hz. generalize (Pack.zeros 16777216). intros z M3w Hz.
  assert (E3 : next_char s3 = Ok (inl (Some 98), put (FormatCursor.mk (bs# "c16777216b") 10, default_state) s3)).
  { by rewrite (via_next_char s3), M3c. }
  set (s4 := put _ s3) in E3.
  destruct (write_byte 7 s4) as (s5 & b & W5 & (M5c & M5a & M5i & M5w) & M5l); [|lia|done| |].
  { change (Pack.args s3 !! Pack.arg_index s3 = Some (Value.Integer 7)). by rewrite M3a, M3i. }
  { unfold Pack.len. change (Pack.writer s4) with (Pack.writer s3). rewrite M3w, Hz. unfold MAX_STRING_PACK_BYTES. lia. }
  exists (Pack.writer s5). split.
  - assert (Q1 : Pack.process_option allocated 99 s1 = Ok (inl tt, s3)).
    { rewrite pack_option, (bind_known _ _ _ _ _ P1). exact W3. }
    assert (Q3 : Pack.process_option allocated 98 s4 = Ok (inl tt, s5)).
    { rewrite pack_option. rewrite (bind_known _ _ _ (Item (KInt 1)) s4) by done. exact W5. }
    assert (E5 : next_char s5 = Ok (inl None, s5)).
    { rewrite <- (put_core s5) at 2. by rewrite (via_next_char s5), M5c. }
    assert (Hd : FormatCursor.is_done (Pack.fmt s5) = true) by (injection M5c as -> _; done).
    unfold pack. change (Pack.create _ _ _) with s0. cbn [polls]. unfold Pack.poll, Pack.poll_with. change (turns s0) with 11%nat.
    rewrite (run_next _ _ _ _ _ _ _ _ E1 Q1), (run_next _ _ _ _ _ _ _ _ E3 Q3) by done. cbn [run]. rewrite E5, !outcome_bind_Ok.
    by rewrite Hd.
  - change (Pack.writer s4) with (Pack.writer s3) in M5w. rewrite M5w, M3w, length_app, Nat2Z.inj_add, Hz. unfold MAX_STRING_PACK_BYTES. cbn [length]. lia.
Qed.
End Results.

(** *** Witnesses: a little-endian target, strings that are their bytes *)
Section Witnesses.
#[local] Instance sample_profile : BuildProfile := {| overflow_checks := true |}.
#[local] Instance sample_target : Target := {| target_little_endian := true |}.
#[local] Instance sample_interning : Interning (list Z) := {| intern := fun b => b; intern_static := bytes_of_string |}.
#[local] Instance sample_display : DisplayFloat := fun _ => bs# "0.5".

Definition sample_args : list (Value.t (list Z)) :=
  [Value.Integer (-2); Value.Integer 65535; Value.String (bs# "ab"); Value.Number (4611686018427387904 : Z);
   Value.String (bs# "xyz"); Value.String (bs# "12")].
(** The fuel of a slice is spent at the first option. *)
Definition sample_slices : list Fuel.t := replicate 18 (Fuel.with_ 1).

Lemma sample_fits : Forall fits sample_args.
Proof. repeat constructor; done. Qed.

Lemma sequences_answer_witness : exists r, finished r /\ forall fs, (length (bs# "<!4 h>I3z<f s1B") < length fs)%nat ->
  pack 0 (bs# "<!4 h>I3z<f s1B") sample_args (Memory.new None) fs = Ok r.
Proof. apply (sequences_answer 0 (bs# "<!4 h>I3z<f s1B") sample_args (Memory.new None) [] 0); [reflexivity|cbn; lia|cbn; int_lia]. Defined.

Lemma pack_unpack_witness :
  let out := [254; 255; 0; 255; 255; 97; 98; 0; 0; 0; 0; 64; 3; 120; 121; 122; 12] in
  pack 0 (bs# "<!4 h>I3z<f s1B") sample_args (Memory.new None) sample_slices = Ok (inl (Return out)) /\
  exists n vs, (n <= length sample_args)%nat /\ Forall2 came_back (take n sample_args) vs /\
    unpack (bs# "<!4 h>I3z<f s1B") out 0 sample_slices = Ok (inl (Return (vs ++ [Value.Integer 18]))).
Proof.
  intros out. assert (E : pack 0 (bs# "<!4 h>I3z<f s1B") sample_args (Memory.new None) sample_slices = Ok (inl (Return out))) by reflexivity.
  split; [exact E|]. exact (pack_unpack 0 (bs# "<!4 h>I3z<f s1B") sample_args (Memory.new None) sample_slices sample_slices out eq_refl sample_fits ltac:(cbn; lia) ltac:(cbn; lia) E).
Defined.

Lemma packsize_exact_witness :
  let out := [254; 255; 0; 0; 0; 0; 0; 64] in
  let args := [Value.Integer (-2); Value.Number (4611686018427387904 : Z)] : list (Value.t (list Z)) in
  pack 0 (bs# "<!4 hf") args (Memory.new None) sample_slices = Ok (inl (Return out)) /\
  Z.of_nat (length out) <= MAX_STRING_PACK_BYTES + 16 /\
  (packsize (bs# "<!4 hf") sample_slices = Ok (inl (Return (Z.of_nat (length out)))) \/
   (exists op, packsize (bs# "<!4 hf") sample_slices = Ok (inr (PackError.VariableLength op))) \/
   (packsize (bs# "<!4 hf") sample_slices = Ok (inr PackError.TooLarge) /\ MAX_STRING_PACK_BYTES < Z.of_nat (length out))).
Proof.
  intros out args. assert (E : pack 0 (bs# "<!4 hf") args (Memory.new None) sample_slices = Ok (inl (Return out))) by reflexivity.
  split; [exact E|].
  exact (packsize_exact 0 (bs# "<!4 hf") args (Memory.new None) sample_slices sample_slices out eq_refl ltac:(cbn; lia) ltac:(cbn; lia) E).
Defined.

Lemma pack_over_limit_witness : exists out,
  pack 0 (bs# "c16777216b") [Value.String []; Value.Integer 7] (Memory.new None) [Fuel.with_ 9] = Ok (inl (Return out)) /\
  Z.of_nat (length out) = MAX_STRING_PACK_BYTES + 1.
Proof. exact (pack_over_limit 0 ([] : list Z) eq_refl). Defined.
End Witnesses.
End PackTheorems.
