(* ===== verification/RegisterAllocator.v ===== *)
(** * Register allocation: [compiler/register_allocator.rs]

    The allocator of the 256 registers of a function, its invariant, and its
    refinement of a plain set of used registers. *)

From S2P Require Import Prelude Opcode.

Module RegisterAllocator.

(** [registers: [bool; 256]] is the function of its elements; an access outside the
    array panics. *)
Record t : Type := mk {
  registers : Z -> bool;
  first_free : Z;
  stack_top : Z;
  stack_size : Z
}.

Definition default : t := mk (fun _ => false) 0 0 0.

Definition in_array (i : Z) : bool := (0 <=? i) && (i <? 256).
Definition get (regs : Z -> bool) (i : Z) : outcome bool :=
  if in_array i then Ok (regs i) else Panic.
Definition set (regs : Z -> bool) (i : Z) (b : bool) : outcome (Z -> bool) :=
  if in_array i then Ok (fun j => if j =? i then b else regs j) else Panic.

(** [for i in start..start + n { registers[i] = b }] *)
Fixpoint fill (n : nat) (start : Z) (b : bool) (regs : Z -> bool) : outcome (Z -> bool) :=
  match n with
  | O => Ok regs
  | S n => regs ← set regs start b; fill n (start + 1) b regs
  end.

(** [loop { if i == 256 || !registers[i] { break i } i += 1 }], from at most 256 *)
Fixpoint find_free (fuel : nat) (regs : Z -> bool) (i : Z) : option (outcome Z) :=
  match fuel with
  | O => None
  | S fuel =>
      if i =? 256 then Some (Ok i)
      else
        match get regs i with
        | Ok true => find_free fuel regs (i + 1)
        | Ok false => Some (Ok i)
        | Panic => Some Panic
        end
  end.

(** [for i in (first_free..top).rev() { if registers[i] { break } top = i }] *)
Fixpoint shrink (n : nat) (regs : Z -> bool) (top : Z) : outcome Z :=
  match n with
  | O => Ok top
  | S n =>
      b ← get regs (top - 1);
      if b : bool then Ok top else shrink n regs (top - 1)
  end.

Section RegisterAllocator.
Context `{BuildProfile}.

Definition allocate (r : t) : outcome (option RegisterIndex * t) :=
  if first_free r <? 256 then
    let register := wrap u8 (first_free r) in
    regs ← set (registers r) register true;
    '(top, size) ← (if first_free r =? stack_top r then
                      top ← arith u16 (stack_top r + 1);
                      Ok (top, Z.max (stack_size r) top)
                    else Ok (stack_top r, stack_size r));
    match find_free 257 regs (first_free r) with
    | Some ff => ff ← ff; Ok (Some (mk_RegisterIndex register), mk regs ff top size)
    | None => Panic
    end
  else Ok (None, r).

Definition pop_to (new_top : Z) (r : t) : outcome t :=
  if new_top <? stack_top r then
    regs ← fill (Z.to_nat (stack_top r - new_top)) new_top false (registers r);
    let ff := Z.min (first_free r) new_top in
    top ← shrink (Z.to_nat (new_top - ff)) regs new_top;
    Ok (mk regs ff top (stack_size r))
  else Ok r.

Definition free (register : RegisterIndex) (r : t) : outcome t :=
  let i := register_index register in
  b ← get (registers r) i;
  rust_assert b ;;
  next ← arith u16 (i + 1);
  if next =? stack_top r then pop_to i r
  else
    regs ← set (registers r) i false;
    Ok (mk regs (Z.min (first_free r) i) (stack_top r) (stack_size r)).

Definition push (size : Z) (r : t) : outcome (option RegisterIndex * t) :=
  if size =? 0 then Ok (None, r)
  else
    room ← arith u16 (256 - stack_top r);
    if size <=? room then
      let rbegin := wrap u8 (stack_top r) in
      rend ← arith u8 (rbegin + size);
      regs ← fill (Z.to_nat (rend - rbegin)) rbegin true (registers r);
      ff ← (if first_free r =? stack_top r then arith u16 (first_free r + size)
            else Ok (first_free r));
      top ← arith u16 (stack_top r + size);
      Ok (Some (mk_RegisterIndex rbegin), mk regs ff top (Z.max (stack_size r) top))
    else Ok (None, r).

(** ** The invariant *)

(** [first_free] is the least free register, [stack_top] one past the greatest used
    one, and [stack_size] has been at least that. *)
Record wf (r : t) : Prop := {
  wf_outside : forall i, in_array i = false -> registers r i = false;
  wf_free : 0 <= first_free r <= 256;
  wf_below : forall i, 0 <= i < first_free r -> registers r i = true;
  wf_first : registers r (first_free r) = false;
  wf_top : 0 <= stack_top r <= 256;
  wf_above : forall i, stack_top r <= i -> registers r i = false;
  wf_last : 0 < stack_top r -> registers r (stack_top r - 1) = true;
  wf_size : stack_top r <= stack_size r <= 256
}.

Lemma default_wf : wf default.
Proof. by split; cbn; try lia. Qed.

Lemma in_array_spec i : in_array i = true <-> 0 <= i < 256.
Proof. unfold in_array. rewrite andb_true_iff, Z.leb_le, Z.ltb_lt. done. Qed.

Lemma in_array_false i : in_array i = false <-> ~ 0 <= i < 256.
Proof. rewrite <- in_array_spec. by destruct (in_array i). Qed.

Lemma get_ok regs i : 0 <= i < 256 -> get regs i = Ok (regs i).
Proof. intros Hi. unfold get. by rewrite (proj2 (in_array_spec i) Hi). Qed.

Lemma set_ok regs i b : 0 <= i < 256 ->
  set regs i b = Ok (fun j => if j =? i then b else regs j).
Proof. intros Hi. unfold set. by rewrite (proj2 (in_array_spec i) Hi). Qed.

Lemma wf_used_range r i : wf r -> registers r i = true -> 0 <= i < stack_top r.
Proof.
  intros Hwf Hi. destruct (in_array i) eqn:E.
  - apply in_array_spec in E. split; [lia|].
    destruct (Z.lt_ge_cases i (stack_top r)) as [|Hge]; [done|].
    by rewrite (wf_above r Hwf i Hge) in Hi.
  - by rewrite (wf_outside r Hwf i E) in Hi.
Qed.

Lemma wf_free_le_top r : wf r -> first_free r <= stack_top r.
Proof.
  intros Hwf. destruct (Z.le_gt_cases (first_free r) (stack_top r)) as [|Hgt]; [done|].
  pose proof (wf_below r Hwf (stack_top r) ltac:(pose proof (wf_top r Hwf); lia)) as Hb.
  by rewrite (wf_above r Hwf (stack_top r) (Z.le_refl _)) in Hb.
Qed.

Lemma fill_ok n start b regs : 0 <= start -> start + Z.of_nat n <= 256 ->
  exists regs', fill n start b regs = Ok regs' /\
    forall i, regs' i = if (start <=? i) && (i <? start + Z.of_nat n) then b else regs i.
Proof.
  revert start regs. induction n as [|n IH]; intros start regs Hs Hn; cbn [fill].
  - exists regs. split; [done|]. intros i.
    destruct (Z.leb_spec start i), (Z.ltb_spec i (start + Z.of_nat 0)); (done || lia).
  - rewrite set_ok, outcome_bind_Ok by lia.
    destruct (IH (start + 1) (fun j => if j =? start then b else regs j)) as (regs' & -> & Hr);
      [lia..|].
    exists regs'. split; [done|]. intros i. rewrite Hr.
    destruct (Z.leb_spec (start + 1) i), (Z.ltb_spec i (start + 1 + Z.of_nat n)),
      (Z.leb_spec start i), (Z.ltb_spec i (start + Z.of_nat (S n))), (Z.eqb_spec i start);
      cbn; (done || lia).
Qed.

Lemma find_free_ok fuel regs i : 0 <= i <= 256 -> 256 - i < Z.of_nat fuel ->
  exists j, find_free fuel regs i = Some (Ok j) /\ i <= j <= 256 /\
    (forall x, i <= x < j -> regs x = true) /\ (j < 256 -> regs j = false).
Proof.
  revert i. induction fuel as [|fuel IH]; intros i Hi Hf; [lia|]. cbn [find_free].
  destruct (Z.eqb_spec i 256) as [->|Hne].
  { exists 256. split; [done|]. split; [lia|]. split; lia. }
  rewrite get_ok by lia. destruct (regs i) eqn:E.
  - destruct (IH (i + 1)) as (j & -> & Hj & Hb & Hf'); [lia..|].
    exists j. split; [done|]. split; [lia|]. split; [|done]. intros x Hx.
    destruct (decide (x = i)) as [->|]; [done|]. apply Hb. lia.
  - exists i. split; [done|]. split; [lia|]. split; [lia|done].
Qed.

Lemma shrink_ok n regs top : Z.of_nat n <= top <= 256 ->
  exists top', shrink n regs top = Ok top' /\ top - Z.of_nat n <= top' <= top /\
    (forall i, top' <= i < top -> regs i = false) /\
    (top' = top - Z.of_nat n \/ regs (top' - 1) = true).
Proof.
  revert top. induction n as [|n IH]; intros top Ht; cbn [shrink].
  - exists top. split; [done|]. split; [lia|]. split; [lia|]. left. lia.
  - rewrite get_ok, outcome_bind_Ok by lia. destruct (regs (top - 1)) eqn:E.
    + exists top. split; [done|]. split; [lia|]. split; [lia|]. by right.
    + destruct (IH (top - 1)) as (top' & -> & Hb & Hf & Hl); [lia|].
      exists top'. split; [done|]. split; [lia|]. split.
      * intros i Hi. destruct (decide (i = top - 1)) as [->|]; [done|]. apply Hf. lia.
      * destruct Hl; [left; lia|by right].
Qed.

(** ** The operations on the set of used registers *)

Lemma allocate_full r : wf r -> (first_free r <? 256) = false ->
  forall i, 0 <= i < 256 -> registers r i = true.
Proof.
  intros Hwf Hff i Hi. apply Z.ltb_ge in Hff. apply (wf_below r Hwf).
  pose proof (wf_free r Hwf). lia.
Qed.

(** [allocate] returns the least free register and marks it, or returns nothing
    when all 256 are in use; it never panics, keeps the invariant and changes no
    other register. *)
Theorem allocate_spec (r : t) : wf r ->
  exists res r', allocate r = Ok (res, r') /\ wf r' /\
    stack_size r' = Z.max (stack_size r) (stack_top r') /\
    match res with
    | Some reg =>
        let i := register_index reg in
        0 <= i < 256 /\ registers r i = false /\
        (forall j, 0 <= j < i -> registers r j = true) /\
        (forall j, registers r' j = (j =? i) || registers r j)
    | None => r' = r /\ forall j, 0 <= j < 256 -> registers r j = true
    end.
Proof.
  intros Hwf. unfold allocate. destruct (first_free r <? 256) eqn:Hff.
  2:{ exists None, r. pose proof (wf_size r Hwf). split; [done|]. split; [done|].
      split; [lia|]. split; [done|]. by apply allocate_full. }
  apply Z.ltb_lt in Hff. pose proof (wf_free r Hwf) as Hf0.
  pose proof (wf_top r Hwf). pose proof (wf_size r Hwf). pose proof (wf_free_le_top r Hwf).
  rewrite wrap_small by (apply _ || int_lia). rewrite set_ok, outcome_bind_Ok by lia.
  set (regs := fun j => if j =? first_free r then true else registers r j).
  set (top := if first_free r =? stack_top r then stack_top r + 1 else stack_top r).
  set (size := if first_free r =? stack_top r then Z.max (stack_size r) top else stack_size r).
  replace (if first_free r =? stack_top r then _ else _) with (Ok (top, size)).
  2:{ unfold size, top. destruct (Z.eqb_spec (first_free r) (stack_top r)); [|done].
      rewrite arith_in by int_lia. done. }
  rewrite outcome_bind_Ok.
  destruct (find_free_ok 257 regs (first_free r)) as (j & -> & Hj & Hb & Hfree); [lia..|].
  assert (Hout : forall i, in_array i = false -> regs i = false).
  { intros i Hi. unfold regs. destruct (Z.eqb_spec i (first_free r)) as [->|].
    - apply in_array_false in Hi. lia.
    - by apply (wf_outside r Hwf). }
  assert (Htop : stack_top r <= top <= 256 /\ first_free r < top).
  { unfold top. destruct (Z.eqb_spec (first_free r) (stack_top r)); lia. }
  eexists _, _. split; [reflexivity|]. split; [|split].
  - split; cbn; try done; try lia.
    + intros i Hi. destruct (Z.lt_ge_cases i (first_free r)) as [Hlt|Hge].
      * unfold regs. rewrite (proj2 (Z.eqb_neq _ _)) by lia. apply (wf_below r Hwf). lia.
      * apply Hb. lia.
    + destruct (decide (j = 256)) as [->|]; [by apply Hout|]. apply Hfree. lia.
    + intros i Hi. unfold regs. rewrite (proj2 (Z.eqb_neq _ _)) by lia.
      apply (wf_above r Hwf). lia.
    + intros _. unfold regs, top. destruct (Z.eqb_spec (first_free r) (stack_top r)) as [E|E].
      * by rewrite E, Z.add_simpl_r, Z.eqb_refl.
      * destruct (Z.eqb_spec (stack_top r - 1) (first_free r)); [done|].
        apply (wf_last r Hwf). lia.
    + unfold size, top. destruct (first_free r =? stack_top r); lia.
  - cbn. unfold size, top. destruct (first_free r =? stack_top r); lia.
  - cbn. split; [lia|]. split; [apply (wf_first r Hwf)|]. split; [apply (wf_below r Hwf)|].
    intros i. unfold regs. by destruct (i =? first_free r).
Qed.

Lemma pop_to_ok new_top r : wf r -> 0 <= new_top ->
  exists r', pop_to new_top r = Ok r' /\ wf r' /\ stack_size r' = stack_size r /\
    forall j, registers r' j = (j <? new_top) && registers r j.
Proof.
  intros Hwf Hn. unfold pop_to. destruct (Z.ltb_spec new_top (stack_top r)) as [Hlt|Hge].
  2:{ exists r. split; [done|]. split; [done|]. split; [done|]. intros j.
      destruct (Z.ltb_spec j new_top); [done|]. apply (wf_above r Hwf). lia. }
  pose proof (wf_top r Hwf). pose proof (wf_free r Hwf). pose proof (wf_size r Hwf).
  destruct (fill_ok (Z.to_nat (stack_top r - new_top)) new_top false (registers r))
    as (regs & -> & Hregs); [lia..|].
  rewrite outcome_bind_Ok.
  destruct (shrink_ok (Z.to_nat (new_top - Z.min (first_free r) new_top)) regs new_top)
    as (top & -> & Htop & Hfree & Hlast); [lia|].
  rewrite outcome_bind_Ok. eexists. split; [reflexivity|].
  assert (Hr : forall j, regs j = (j <? new_top) && registers r j).
  { intros j. rewrite Hregs. destruct (Z.ltb_spec j new_top) as [Hj|Hj]; cbn.
    - by rewrite (proj2 (Z.leb_gt _ _)) by lia.
    - rewrite (proj2 (Z.leb_le _ _)) by lia. cbn.
      destruct (Z.ltb_spec j (new_top + Z.of_nat (Z.to_nat (stack_top r - new_top)))); [done|].
      apply (wf_above r Hwf). lia. }
  split; [|by split].
  split; cbn; try done; try lia.
  - intros i Hi. rewrite Hr, (wf_outside r Hwf i Hi). apply andb_false_r.
  - intros i Hi. rewrite Hr, (proj2 (Z.ltb_lt _ _)) by lia. apply (wf_below r Hwf). lia.
  - rewrite Hr. destruct (Z.ltb_spec (Z.min (first_free r) new_top) new_top); [|done].
    rewrite Z.min_l by lia. apply (wf_first r Hwf).
  - intros i Hi. destruct (Z.lt_ge_cases i new_top) as [Hi'|Hi']; [apply Hfree; lia|].
    rewrite Hr. by rewrite (proj2 (Z.ltb_ge _ _)) by lia.
  - intros Hpos. destruct Hlast as [Hl|Hl]; [|done].
    rewrite Hr, (proj2 (Z.ltb_lt _ _)) by lia. apply (wf_below r Hwf). lia.
Qed.

(** [free] and [pop_to] remove exactly what they name from the used registers:
    [pop_to] everything from the new top on, [free] one register, which panics
    if and only if that register is not in use; both keep the invariant. *)
Theorem release_spec (r : t) : wf r ->
  (forall new_top, 0 <= new_top ->
     exists r', pop_to new_top r = Ok r' /\ wf r' /\ stack_size r' = stack_size r /\
       forall j, registers r' j = (j <? new_top) && registers r j) /\
  (forall i, 0 <= i < 256 ->
     match free (mk_RegisterIndex i) r with
     | Ok r' => registers r i = true /\ wf r' /\ stack_size r' = stack_size r /\
         forall j, registers r' j = negb (j =? i) && registers r j
     | Panic => registers r i = false
     end).
Proof.
  intros Hwf. split; [intros; by apply pop_to_ok|]. intros i Hi.
  unfold free. cbn [register_index]. rewrite get_ok, outcome_bind_Ok by done.
  destruct (registers r i) eqn:Hused; [|done]. cbn [rust_assert]. rewrite outcome_bind_Ok.
  pose proof (wf_used_range r i Hwf Hused). pose proof (wf_top r Hwf).
  rewrite arith_in, outcome_bind_Ok by int_lia.
  destruct (Z.eqb_spec (i + 1) (stack_top r)) as [Htop|Hntop].
  - destruct (pop_to_ok i r Hwf) as (r' & -> & Hwf' & Hs & Hr); [lia|].
    split; [done|]. split; [done|]. split; [done|]. intros j. rewrite Hr.
    destruct (Z.ltb_spec j i), (Z.eqb_spec j i); cbn; try done; try lia.
    symmetry. apply (wf_above r Hwf). lia.
  - rewrite set_ok, outcome_bind_Ok by done. pose proof (wf_free r Hwf).
    assert (Hr : forall j, (if j =? i then false else registers r j) =
      negb (j =? i) && registers r j) by (intros j; by destruct (j =? i)).
    split; [done|]. split; [|by split].
    split; cbn; try done; try lia.
    + intros j Hj. rewrite Hr, (wf_outside r Hwf j Hj). apply andb_false_r.
    + intros j Hj. rewrite Hr, (proj2 (Z.eqb_neq j i)) by lia. apply (wf_below r Hwf). lia.
    + destruct (Z.eqb_spec (Z.min (first_free r) i) i); [done|].
      rewrite Z.min_l by lia. apply (wf_first r Hwf).
    + intros j Hj. rewrite Hr, (wf_above r Hwf j Hj). apply andb_false_r.
    + intros Hpos. rewrite Hr, (proj2 (Z.eqb_neq _ _)) by lia. by apply (wf_last r Hwf).
    + apply (wf_size r Hwf).
Qed.

(** [push] reserves a block at the top of the used area: it succeeds exactly
    when the block is not empty and fits, the block was free and is used after,
    nothing else changes and the invariant is kept.  A block that ends at
    register 255 exactly is left to [push_to_end]. *)
Theorem push_spec (r : t) (size : Z) : wf r -> 0 <= size < 256 ->
  stack_top r + size <> 256 ->
  exists res r', push size r = Ok (res, r') /\ wf r' /\
    match res with
    | Some reg =>
        register_index reg = stack_top r /\ 0 < size /\ stack_top r + size < 256 /\
        stack_top r' = stack_top r + size /\
        (forall j, stack_top r <= j < stack_top r + size -> registers r j = false) /\
        (forall j, registers r' j =
           ((stack_top r <=? j) && (j <? stack_top r + size)) || registers r j)
    | None => r' = r /\ (size = 0 \/ 256 < stack_top r + size)
    end.
Proof.
  intros Hwf Hsize Hne. unfold push. destruct (Z.eqb_spec size 0) as [->|Hnz].
  { exists None, r. split; [done|]. split; [done|]. split; [done|by left]. }
  pose proof (wf_top r Hwf). pose proof (wf_free r Hwf). pose proof (wf_size r Hwf).
  pose proof (wf_free_le_top r Hwf).
  rewrite (arith_in u16 (256 - stack_top r)), outcome_bind_Ok by int_lia.
  destruct (Z.leb_spec size (256 - stack_top r)) as [Hfit|Hfit].
  2:{ exists None, r. split; [done|]. split; [done|]. split; [done|right; lia]. }
  rewrite (wrap_small u8) by (apply _ || int_lia).
  rewrite (arith_in u8 (stack_top r + size)), outcome_bind_Ok by int_lia.
  destruct (fill_ok (Z.to_nat (stack_top r + size - stack_top r)) (stack_top r) true (registers r))
    as (regs & -> & Hregs); [lia..|].
  rewrite outcome_bind_Ok.
  assert (Hr : forall j, regs j =
    ((stack_top r <=? j) && (j <? stack_top r + size)) || registers r j).
  { intros j. rewrite Hregs. replace (Z.of_nat _) with size by lia. by destruct (_ && _). }
  set (ff := if first_free r =? stack_top r then first_free r + size else first_free r).
  replace (if first_free r =? stack_top r then _ else _) with (Ok ff).
  2:{ unfold ff. destruct (_ =? _); [|done]. by rewrite arith_in by int_lia. }
  rewrite outcome_bind_Ok, (arith_in u16 (stack_top r + size)), outcome_bind_Ok by int_lia.
  assert (Hin : forall j, stack_top r <= j < stack_top r + size -> regs j = true).
  { intros j Hj. by rewrite Hr, (proj2 (Z.leb_le _ _)), (proj2 (Z.ltb_lt _ _)) by lia. }
  assert (Hnotin : forall j, ~ stack_top r <= j < stack_top r + size -> regs j = registers r j).
  { intros j Hj. rewrite Hr.
    destruct (Z.leb_spec (stack_top r) j), (Z.ltb_spec j (stack_top r + size)); (done || lia). }
  assert (Hffr : 0 <= ff <= 256 /\ first_free r <= ff).
  { unfold ff. destruct (Z.eqb_spec (first_free r) (stack_top r)); lia. }
  eexists _, _. split; [reflexivity|]. split.
  - split; cbn; try done; try lia.
    + intros i Hi. apply in_array_false in Hi as Hi'. rewrite Hnotin by lia.
      by apply (wf_outside r Hwf).
    + intros i Hi. destruct (Z.lt_ge_cases i (first_free r)).
      * destruct (decide (stack_top r <= i < stack_top r + size)); [by apply Hin|].
        rewrite Hnotin by done. apply (wf_below r Hwf). lia.
      * apply Hin. revert Hi. unfold ff. destruct (Z.eqb_spec (first_free r) (stack_top r)); lia.
    + unfold ff. destruct (Z.eqb_spec (first_free r) (stack_top r)) as [E|E].
      * rewrite Hnotin by lia. apply (wf_above r Hwf). lia.
      * rewrite Hnotin by lia. apply (wf_first r Hwf).
    + intros i Hi. rewrite Hnotin by lia. apply (wf_above r Hwf). lia.
    + intros _. apply Hin. lia.
  - cbn. split; [done|]. split; [lia|]. split; [lia|]. split; [done|]. split; [|done].
    intros j Hj. apply (wf_above r Hwf). lia.
Qed.

(** Two blocks, a hole, and two single registers *)
Definition full_function : outcome (option RegisterIndex * option RegisterIndex) :=
  '(_, r) ← push 250 default;
  r ← free (mk_RegisterIndex 0) r;
  '(block, r) ← push 6 r;
  '(_, r) ← allocate r;
  '(single, _) ← allocate r;
  Ok (block, single).

End RegisterAllocator.

Section findings.
Context `{BuildProfile}.

(** A block that ends exactly at register 255 overflows the [u8] end of the
    marking loop: with overflow checks [push] panics, without them it returns the
    block unmarked, and a later [allocate] hands out a register inside it. *)
Theorem push_to_end (r : t) (size : Z) : wf r -> 0 < size < 256 ->
  stack_top r + size = 256 ->
  (if overflow_checks then push size r = Panic
   else exists r', push size r = Ok (Some (mk_RegisterIndex (stack_top r)), r') /\
     registers r' = registers r /\ stack_top r' = 256) /\
  full_function = (if overflow_checks then Panic
                   else Ok (Some (mk_RegisterIndex 250), Some (mk_RegisterIndex 250))).
Proof.
  intros Hwf Hsize Htop. pose proof (wf_top r Hwf). split.
  2:{ destruct H as [[]]; vm_compute; reflexivity. }
  unfold push. rewrite (proj2 (Z.eqb_neq size 0)) by lia.
  rewrite (arith_in u16 (256 - stack_top r)), outcome_bind_Ok by int_lia.
  rewrite (proj2 (Z.leb_le _ _)) by lia. rewrite (wrap_small u8) by (apply _ || int_lia).
  assert (Ha : arith u8 (stack_top r + size) = if overflow_checks then Panic else Ok 0)
    by (rewrite Htop; reflexivity).
  rewrite Ha. destruct overflow_checks; [done|]. rewrite outcome_bind_Ok.
  replace (Z.to_nat (0 - stack_top r)) with O by lia. cbn [fill]. rewrite outcome_bind_Ok.
  pose proof (wf_free_le_top r Hwf). pose proof (wf_free r Hwf).
  set (ff := if first_free r =? stack_top r then first_free r + size else first_free r).
  replace (if first_free r =? stack_top r then _ else _) with (Ok ff).
  2:{ unfold ff. destruct (Z.eqb_spec (first_free r) (stack_top r)); [|done].
      by rewrite arith_in by int_lia. }
  rewrite outcome_bind_Ok, (arith_in u16 (stack_top r + size)), outcome_bind_Ok by int_lia.
  eexists. split; [reflexivity|]. by split.
Qed.
End findings.

(** ** Instances *)

#[local] Instance release : BuildProfile := {| overflow_checks := false |}.

Lemma allocate_spec_witness :
  exists res r', allocate default = Ok (res, r') /\ wf r' /\ res = Some (mk_RegisterIndex 0).
Proof.
  destruct (allocate_spec default default_wf) as (res & r' & E & Hwf & _).
  exists res, r'. split; [exact E|]. split; [exact Hwf|].
  assert (Hres : (fst <$> allocate default) = Ok (Some (mk_RegisterIndex 0))) by reflexivity.
  rewrite E in Hres. by injection Hres.
Defined.

Lemma release_spec_witness :
  wf default /\ free (mk_RegisterIndex 3) default = Panic.
Proof.
  split; [apply default_wf|]. destruct (release_spec default default_wf) as [_ Hfree].
  specialize (Hfree 3 ltac:(lia)). destruct (free (mk_RegisterIndex 3) default) as [r'|]; [|done].
  by destruct Hfree as [[=] _].
Defined.

Lemma push_spec_witness :
  exists reg r', push 7 default = Ok (Some reg, r') /\ stack_top r' = 7.
Proof.
  destruct (push_spec default 7 default_wf) as (res & r' & E & _ & Hres); [lia|cbn; lia|].
  destruct res as [reg|].
  - exists reg, r'. split; [exact E|]. by destruct Hres as (_ & _ & _ & Htop & _).
  - destruct Hres as [_ [Hz|Hz]]; cbn in Hz; lia.
Defined.

Definition one_below : t := mk (fun i => (0 <=? i) && (i <? 255)) 255 255 255.

Lemma one_below_wf : wf one_below.
Proof.
  split; cbn; try lia. intros i Hi. apply in_array_false in Hi. lia.
Qed.

Lemma push_to_end_witness :
  exists r', push 1 one_below = Ok (Some (mk_RegisterIndex 255), r') /\
    registers r' = registers one_below /\ stack_top r' = 256.
Proof. exact (proj1 (push_to_end one_below 1 one_below_wf ltac:(lia) eq_refl)). Defined.
End RegisterAllocator.
