(* ===== verification/CompilerState.v ===== *)
(** * The compiler's state: [compiler/compiler.rs]

    The data of the compiler and the operations below expressions and statements: emitting
    instructions, registers, scopes, jumps and labels, variables, constants, and the start and
    the end of a function.

    A stack of the source (locals, blocks, jump targets, pending jumps, upper functions) is a
    list with the newest element first; what is numbered from its first element (instructions,
    constants, upvalues, functions, lines) is a list in the order of the source. *)

From S2P Require Import Prelude Float64 Lexer Opcode Constant Operators Parser RegisterAllocator.
Import Ast.

Module CompileErrorKind.
Inductive t : Type :=
  | Registers | UpValues | FixedParameters | Functions | Constants | DuplicateLabel
  | GotoInvalid | JumpLocal | JumpOverflow | AssignToConst | MultipleClose | CloseUnsupported.
End CompileErrorKind.

(** The compiler runs in two ways.  [guarded = false] is the code.  With [guarded = true] it
    stops, with [Refused], at the places where the code is known to go wrong; each is a use
    of [guard] below, which does nothing in the code. *)
Class Guards : Type := { guarded : bool }.

Inductive Stop : Type :=
  | Error (kind : CompileErrorKind.t)
  | Refused.

Record CompileError : Type := mk_CompileError { kind : Stop; error_line : Z }.

Module FunctionRef.
Inductive t (S : Type) : Type :=
  | Named (name : S) (line : Z)
  | Expression (line : Z)
  | Chunk.
Arguments Named {S} name line.
Arguments Expression {S} line.
Arguments Chunk {S}.

Definition map_strings {S S2} (f : S -> S2) (r : t S) : t S2 :=
  match r with
  | Named name line => Named (f name) line
  | Expression line => Expression line
  | Chunk => Chunk
  end.
End FunctionRef.

(** ** Compiled functions *)
#[warnings="-register-all"]
Inductive CompiledPrototype (S : Type) : Type := mk_CompiledPrototype {
  reference : FunctionRef.t S;
  parameters : list S;
  fixed_params : Z;
  has_varargs : bool;
  stack_size : Z;
  constants : list (Constant.t S);
  opcodes : list OpCodeRepr.t;
  opcode_line_numbers : list (Z * Z);
  upvalues : list UpValueDescriptor;
  prototypes : list (CompiledPrototype S)
}.
Arguments mk_CompiledPrototype {S} _ _ _ _ _ _ _ _ _ _.
Arguments reference {S} _. Arguments parameters {S} _. Arguments fixed_params {S} _.
Arguments has_varargs {S} _. Arguments stack_size {S} _. Arguments constants {S} _.
Arguments opcodes {S} _. Arguments opcode_line_numbers {S} _. Arguments upvalues {S} _.
Arguments prototypes {S} _.

Fixpoint map_strings {S S2} (f : S -> S2) (p : CompiledPrototype S) : CompiledPrototype S2 :=
  mk_CompiledPrototype (FunctionRef.map_strings f (reference p)) (map f (parameters p))
    (fixed_params p) (has_varargs p) (stack_size p) (map (Constant.map_string f) (constants p))
    (opcodes p) (opcode_line_numbers p) (upvalues p) (map (map_strings f) (prototypes p)).

(** ** Expressions waiting for a place *)
Module VariableDescriptor.
Inductive t (S : Type) : Type :=
  | Local (register : RegisterIndex) (attrs : LocalAttributes)
  | UpValue (index : UpValueIndex) (attrs : LocalAttributes)
  | Global (name : S).
Arguments Local {S} register attrs.
Arguments UpValue {S} index attrs.
Arguments Global {S} name.
End VariableDescriptor.

Module ExprDescriptor.
#[warnings="-register-all"]
Inductive t (S : Type) : Type :=
  | Variable_ (v : VariableDescriptor.t S)
  | Constant (c : Constant.t S)
  | VarArgs
  | UnaryOperator (op : UnaryOperator.t) (expr : t S)
  | SimpleBinaryOperator (left_ : t S) (op : SimpleBinOp.t) (right_ : t S)
  | Comparison (left_ : t S) (op : ComparisonBinOp.t) (right_ : t S)
  | ShortCircuitBinOp (left_ : t S) (op : ShortCircuitBinOp.t) (right_ : t S)
  | TableConstructor (array_fields : list (t S)) (record_fields : list (t S * t S))
  | TableField (table key : t S)
  | Closure (proto : PrototypeIndex)
  | FunctionCall (func : t S) (args : list (t S))
  | MethodCall (table method : t S) (args : list (t S))
  | Concat (exprs : list (t S))
  | Group (expr : t S).
Arguments Variable_ {S} v. Arguments Constant {S} c. Arguments VarArgs {S}.
Arguments UnaryOperator {S} op expr. Arguments SimpleBinaryOperator {S} left_ op right_.
Arguments Comparison {S} left_ op right_. Arguments ShortCircuitBinOp {S} left_ op right_.
Arguments TableConstructor {S} array_fields record_fields. Arguments TableField {S} table key.
Arguments Closure {S} proto. Arguments FunctionCall {S} func args.
Arguments MethodCall {S} table method args. Arguments Concat {S} exprs. Arguments Group {S} expr.
End ExprDescriptor.

Module ExprDestination.
Inductive t : Type :=
  | Register (r : RegisterIndex)
  | AllocateNew
  | PushNew.
End ExprDestination.

Module CallMode.
Inductive t : Type :=
  | Call (returns : VarCount)
  | TailCall.
End CallMode.

(** ** Jumps *)
Module JumpLabel.
Inductive t (S : Type) : Type :=
  | Unique (id : Z)
  | Named (name : S)
  | Break.
Arguments Unique {S} id.
Arguments Named {S} name.
Arguments Break {S}.

Definition eqb {S} `{AsBytes S} (a b : t S) : bool :=
  match a, b with
  | Unique a, Unique b => a =? b
  | Named a, Named b => bool_decide (as_bytes a = as_bytes b)
  | Break, Break => true
  | _, _ => false
  end.
End JumpLabel.

Record BlockDescriptor : Type := mk_BlockDescriptor {
  stack_bottom : Z;
  bottom_jump_target : nat;
  owns_upvalues : bool
}.

Record JumpTarget (S : Type) : Type := mk_JumpTarget {
  label : JumpLabel.t S;
  instruction : nat;
  target_top : Z;
  target_block : nat
}.
Arguments mk_JumpTarget {S} label instruction target_top target_block.
Arguments label {S} _. Arguments instruction {S} _. Arguments target_top {S} _.
Arguments target_block {S} _.

Record PendingJump (S : Type) : Type := mk_PendingJump {
  target : JumpLabel.t S;
  jump_instruction : nat;
  jump_block : nat;
  jump_top : Z;
  close_upvalues : bool
}.
Arguments mk_PendingJump {S} target jump_instruction jump_block jump_top close_upvalues.
Arguments target {S} _. Arguments jump_instruction {S} _. Arguments jump_block {S} _.
Arguments jump_top {S} _. Arguments close_upvalues {S} _.

(** ** Functions being compiled

    [constant_table] is the map from a constant, under [IdenticalConstant], to its index. *)
Record CompilerFunction (S : Type) : Type := mk_CompilerFunction {
  f_reference : FunctionRef.t S;
  f_parameters : list S;
  f_constants : list (Constant.t S);
  constant_table : list (Constant.t S * ConstantIndex16);
  f_upvalues : list (S * UpValueDescriptor);
  functions : list (CompiledPrototype S);
  register_allocator : RegisterAllocator.t;
  f_has_varargs : bool;
  f_fixed_params : Z;
  locals : list (S * RegisterIndex * LocalAttributes);
  blocks : list BlockDescriptor;
  unique_jump_id : Z;
  jump_targets : list (JumpTarget S);
  pending_jumps : list (PendingJump S);
  operations : list Operation.t;
  current_line_number : Z;
  operation_lines : list (Z * Z)
}.
Arguments mk_CompilerFunction {S} _ _ _ _ _ _ _ _ _ _ _ _ _ _ _ _ _.
Arguments f_reference {S} _. Arguments f_parameters {S} _. Arguments f_constants {S} _.
Arguments constant_table {S} _. Arguments f_upvalues {S} _. Arguments functions {S} _.
Arguments register_allocator {S} _. Arguments f_has_varargs {S} _.
Arguments f_fixed_params {S} _. Arguments locals {S} _. Arguments blocks {S} _.
Arguments unique_jump_id {S} _. Arguments jump_targets {S} _. Arguments pending_jumps {S} _.
Arguments operations {S} _. Arguments current_line_number {S} _.
Arguments operation_lines {S} _.

(** One field replaced *)
Section setters.
Context {S : Type}.
Implicit Types f : CompilerFunction S.
Definition set_upvalues x f : CompilerFunction S :=
  mk_CompilerFunction (f_reference f) (f_parameters f) (f_constants f) (constant_table f) x
    (functions f) (register_allocator f) (f_has_varargs f) (f_fixed_params f) (locals f)
    (blocks f) (unique_jump_id f) (jump_targets f) (pending_jumps f) (operations f)
    (current_line_number f) (operation_lines f).
Definition set_functions x f : CompilerFunction S :=
  mk_CompilerFunction (f_reference f) (f_parameters f) (f_constants f) (constant_table f)
    (f_upvalues f) x (register_allocator f) (f_has_varargs f) (f_fixed_params f) (locals f)
    (blocks f) (unique_jump_id f) (jump_targets f) (pending_jumps f) (operations f)
    (current_line_number f) (operation_lines f).
Definition set_register_allocator x f : CompilerFunction S :=
  mk_CompilerFunction (f_reference f) (f_parameters f) (f_constants f) (constant_table f)
    (f_upvalues f) (functions f) x (f_has_varargs f) (f_fixed_params f) (locals f) (blocks f)
    (unique_jump_id f) (jump_targets f) (pending_jumps f) (operations f) (current_line_number
    f) (operation_lines f).
Definition set_locals x f : CompilerFunction S :=
  mk_CompilerFunction (f_reference f) (f_parameters f) (f_constants f) (constant_table f)
    (f_upvalues f) (functions f) (register_allocator f) (f_has_varargs f) (f_fixed_params f) x
    (blocks f) (unique_jump_id f) (jump_targets f) (pending_jumps f) (operations f)
    (current_line_number f) (operation_lines f).
Definition set_blocks x f : CompilerFunction S :=
  mk_CompilerFunction (f_reference f) (f_parameters f) (f_constants f) (constant_table f)
    (f_upvalues f) (functions f) (register_allocator f) (f_has_varargs f) (f_fixed_params f)
    (locals f) x (unique_jump_id f) (jump_targets f) (pending_jumps f) (operations f)
    (current_line_number f) (operation_lines f).
Definition set_unique_jump_id x f : CompilerFunction S :=
  mk_CompilerFunction (f_reference f) (f_parameters f) (f_constants f) (constant_table f)
    (f_upvalues f) (functions f) (register_allocator f) (f_has_varargs f) (f_fixed_params f)
    (locals f) (blocks f) x (jump_targets f) (pending_jumps f) (operations f)
    (current_line_number f) (operation_lines f).
Definition set_jump_targets x f : CompilerFunction S :=
  mk_CompilerFunction (f_reference f) (f_parameters f) (f_constants f) (constant_table f)
    (f_upvalues f) (functions f) (register_allocator f) (f_has_varargs f) (f_fixed_params f)
    (locals f) (blocks f) (unique_jump_id f) x (pending_jumps f) (operations f)
    (current_line_number f) (operation_lines f).
Definition set_pending_jumps x f : CompilerFunction S :=
  mk_CompilerFunction (f_reference f) (f_parameters f) (f_constants f) (constant_table f)
    (f_upvalues f) (functions f) (register_allocator f) (f_has_varargs f) (f_fixed_params f)
    (locals f) (blocks f) (unique_jump_id f) (jump_targets f) x (operations f)
    (current_line_number f) (operation_lines f).
Definition set_operations x f : CompilerFunction S :=
  mk_CompilerFunction (f_reference f) (f_parameters f) (f_constants f) (constant_table f)
    (f_upvalues f) (functions f) (register_allocator f) (f_has_varargs f) (f_fixed_params f)
    (locals f) (blocks f) (unique_jump_id f) (jump_targets f) (pending_jumps f) x
    (current_line_number f) (operation_lines f).
Definition set_constants constants table f : CompilerFunction S :=
  mk_CompilerFunction (f_reference f) (f_parameters f) constants table (f_upvalues f)
    (functions f) (register_allocator f) (f_has_varargs f) (f_fixed_params f) (locals f)
    (blocks f) (unique_jump_id f) (jump_targets f) (pending_jumps f) (operations f)
    (current_line_number f) (operation_lines f).
Definition set_lines line lines f : CompilerFunction S :=
  mk_CompilerFunction (f_reference f) (f_parameters f) (f_constants f) (constant_table f)
    (f_upvalues f) (functions f) (register_allocator f) (f_has_varargs f) (f_fixed_params f)
    (locals f) (blocks f) (unique_jump_id f) (jump_targets f) (pending_jumps f) (operations f)
    line lines.
End setters.

Module Compiler.
Section Compiler.
Context `{BuildProfile} `{FloatLib} `{StringInterner} `{Guards}.
Abbreviation function := (CompilerFunction IString).
Abbreviation descriptor := (ExprDescriptor.t IString).

Record compiler : Type := mk_compiler {
  string_interner : InternerState;
  current_function : function;
  upper_functions : list function
}.

(** ** The monad: state, and the errors that [?] passes on *)
Definition M (A : Type) : Type := compiler -> outcome ((A + Stop) * compiler).
Definition ret {A} (a : A) : M A := fun c => Ok (inl a, c).
Definition stop {A} (e : Stop) : M A := fun c => Ok (inr e, c).
Definition throw {A} (e : CompileErrorKind.t) : M A := stop (Error e).
Definition bind {A B} (m : M A) (k : A -> M B) : M B := fun c =>
  '(r, c) ← m c;
  match r with inl a => k a c | inr e => Ok (inr e, c) end.
#[local] Notation "'let*' x ':=' m 'in' k" := (bind m (fun x => k)) (at level 10, x pattern, m at level 100, k at level 200).
#[local] Notation "m ';;;' k" := (bind m (fun _ => k)) (at level 100, k at level 200, right associativity).

Definition lift {A} (o : outcome A) : M A := fun c => a ← o; Ok (inl a, c).
Definition ok_or {A} (o : option A) (e : CompileErrorKind.t) : M A :=
  match o with Some a => ret a | None => throw e end.
Definition rust_assert (b : bool) : M unit := lift (Prelude.rust_assert b).
Definition guard (b : bool) : M unit := if guarded && negb b then stop Refused else ret tt.

(** [self.current_function], read and modified *)
Definition current : M function := fun c => Ok (inl (current_function c), c).
Definition modify (f : function -> function) : M unit := fun c =>
  Ok (inl tt, mk_compiler (string_interner c) (f (current_function c)) (upper_functions c)).

Definition intern (s : bytes) : M IString := fun c =>
  let '(st, s) := Lexer.intern (string_interner c) s in
  Ok (inl s, mk_compiler st (current_function c) (upper_functions c)).

(** [for x in l { f(x)? }] and [l.iter().map(f).collect::<Result<_, _>>()?] *)
Fixpoint for_each {A} (f : A -> M unit) (l : list A) : M unit :=
  match l with
  | [] => ret tt
  | x :: l => f x ;;; for_each f l
  end.
Fixpoint collect {A B} (f : A -> M B) (l : list A) : M (list B) :=
  match l with
  | [] => ret []
  | x :: l => let* y := f x in let* ys := collect f l in ret (y :: ys)
  end.

(** [self.current_function.operations.push(op)] *)
Definition emit (op : Operation.t) : M unit :=
  modify (fun f => set_operations (operations f ++ [op]) f).
Definition operation_count : M nat := let* f := current in ret (length (operations f)).

Definition set_line_number (line_number : Z) (f : function) : function :=
  set_lines line_number (operation_lines f ++ [(Z.of_nat (length (operations f)), line_number)]) f.

(** ** Registers *)
Definition on_registers {A} (m : RegisterAllocator.t -> outcome (A * RegisterAllocator.t)) : M A :=
  let* f := current in
  let* (a, r) := lift (m (register_allocator f)) in
  modify (set_register_allocator r) ;;; ret a.
Definition stack_top : M Z :=
  let* f := current in ret (RegisterAllocator.stack_top (register_allocator f)).
Definition allocate : M (option RegisterIndex) := on_registers RegisterAllocator.allocate.
Definition free (r : RegisterIndex) : M unit :=
  on_registers (fun ra => ra ← RegisterAllocator.free r ra; Ok (tt, ra)).
Definition pop_to (top : Z) : M unit :=
  on_registers (fun ra => ra ← RegisterAllocator.pop_to top ra; Ok (tt, ra)).

(** A block that would end at the last register is where [push] goes wrong. *)
Definition push (size : Z) : M (option RegisterIndex) :=
  let* top := stack_top in
  guard (negb (top + size =? 256)) ;;;
  on_registers (RegisterAllocator.push size).

(** [push(size).ok_or(CompileErrorKind::Registers)?], and [allocate] alike *)
Definition push_or (size : Z) : M RegisterIndex :=
  let* r := push size in ok_or r CompileErrorKind.Registers.
Definition allocate_or : M RegisterIndex :=
  let* r := allocate in ok_or r CompileErrorKind.Registers.

(** [if let Some(to_free) = r { free(to_free) }] *)
Definition free_opt (r : option RegisterIndex) : M unit :=
  match r with Some r => free r | None => ret tt end.

(** [u8::try_from(top).ok().and_then(Opt254::try_some).ok_or(Registers)?] *)
Definition close_above (top : Z) : M Opt254 :=
  ok_or (top ← checked u8 top; Opt254.try_some top) CompileErrorKind.Registers.

(** ** Local variables *)
Definition declare (name : IString) (r : RegisterIndex) (attrs : LocalAttributes) : M unit :=
  modify (fun f => set_locals ((name, r, attrs) :: locals f) f).

(** The names of a list in consecutive registers: [RegisterIndex(base.0 + i)] *)
Fixpoint declare_all (names : list (IString * LocalAttributes)) (base : RegisterIndex) (i : Z) : M unit :=
  match names with
  | [] => ret tt
  | (name, attrs) :: names =>
      let* r := lift (arith u8 (register_index base + i)) in
      declare name (mk_RegisterIndex r) attrs ;;;
      declare_all names base (i + 1)
  end.

(** ** Blocks *)
Definition enter_block : M unit :=
  modify (fun f => set_blocks
    (mk_BlockDescriptor (RegisterAllocator.stack_top (register_allocator f)) (length (jump_targets f)) false
      :: blocks f) f).

(** [while let Some((_, last, _)) = locals.last()]: the locals from [bottom] on are freed. *)
Fixpoint free_locals (bottom : Z) (ls : list (IString * RegisterIndex * LocalAttributes))
    (r : RegisterAllocator.t)
  : outcome (list (IString * RegisterIndex * LocalAttributes) * RegisterAllocator.t) :=
  match ls with
  | (name, last, attrs) :: rest =>
      if bottom <=? register_index last then
        r ← RegisterAllocator.free last r; free_locals bottom rest r
      else Ok (ls, r)
  | [] => Ok ([], r)
  end.

(** [jump_targets.drain(bottom..)] *)
Definition drain_targets (bottom : nat) (ts : list (JumpTarget IString)) : outcome (list (JumpTarget IString)) :=
  if (bottom <=? length ts)%nat then Ok (drop (length ts - bottom) ts) else Panic.

(** The pending jumps of the block that ends move to the one around it; [n] blocks are left. *)
Fixpoint lower_jumps (n : nat) (top : Z) (owned : bool) (ps : list (PendingJump IString))
  : outcome (list (PendingJump IString)) :=
  match ps with
  | [] => Ok []
  | p :: rest =>
      if (jump_block p <? n)%nat then Ok ps
      else
        Prelude.rust_assert (top <=? jump_top p) ;;
        rest ← lower_jumps n top owned rest;
        Ok (mk_PendingJump (target p) (jump_instruction p) (n - 1) top (close_upvalues p || owned) :: rest)
  end.

Definition exit_block : M unit :=
  let* f := current in
  match blocks f with
  | [] => lift Panic
  | last_block :: rest =>
      let* (ls, r) := lift (free_locals (stack_bottom last_block) (locals f) (register_allocator f)) in
      let* ts := lift (drain_targets (bottom_jump_target last_block) (jump_targets f)) in
      modify (fun f => set_jump_targets ts (set_register_allocator r (set_locals ls (set_blocks rest f)))) ;;;
      (if owns_upvalues last_block && negb (bool_decide (rest = []))
       then let* close := close_above (stack_bottom last_block) in emit (Operation.Jump 0 close)
       else ret tt) ;;;
      if bool_decide (rest = []) then ret tt
      else
        let* top := stack_top in
        let* f := current in
        let* ps := lift (lower_jumps (length rest) top (owns_upvalues last_block) (pending_jumps f)) in
        modify (set_pending_jumps ps)
  end.

(** ** Jumps and labels *)
Definition jump_offset (source target : nat) : option Z :=
  if (source <? target)%nat then checked i16 (Z.of_nat target - (Z.of_nat source + 1))
  else i ← checked i16 (Z.of_nat source + 1 - Z.of_nat target); Some (- i).

(** [unique_jump_id] counts in a [u64]; more labels than that cannot be made. *)
Definition unique_jump_label : M (JumpLabel.t IString) :=
  let* f := current in
  modify (set_unique_jump_id (unique_jump_id f + 1)) ;;;
  ret (JumpLabel.Unique (unique_jump_id f)).

(** [blocks.len().checked_sub(1).unwrap()] *)
Definition current_block_index : M nat :=
  let* f := current in
  match blocks f with [] => lift Panic | _ :: outer => ret (length outer) end.

(** [jump_targets.iter().rev()], the first with the label *)
Fixpoint find_target (l : JumpLabel.t IString) (ts : list (JumpTarget IString)) : option (JumpTarget IString) :=
  match ts with
  | [] => None
  | t :: ts => if JumpLabel.eqb (label t) l then Some t else find_target l ts
  end.

(** [(i..=current).any(|i| blocks[i].owns_upvalues)]: the newest [n] blocks *)
Definition any_owner (n : nat) (bs : list BlockDescriptor) : bool := existsb owns_upvalues (take n bs).

Definition jump (l : JumpLabel.t IString) : M unit :=
  let* jmp_inst := operation_count in
  let* current_stack_top := stack_top in
  let* current_block := current_block_index in
  let* f := current in
  match find_target l (jump_targets f) with
  | Some t =>
      rust_assert (target_top t <=? current_stack_top) ;;;
      rust_assert (target_block t <=? current_block)%nat ;;;
      let needs_close := (target_top t <? current_stack_top) &&
        any_owner (S current_block - target_block t) (blocks f) in
      let* offset := ok_or (jump_offset jmp_inst (instruction t)) CompileErrorKind.JumpOverflow in
      let* close := (if needs_close then close_above (target_top t) else lift Opt254.none) in
      emit (Operation.Jump offset close)
  | None =>
      let* none := lift Opt254.none in
      emit (Operation.Jump 0 none) ;;;
      modify (fun f => set_pending_jumps
        (mk_PendingJump l jmp_inst current_block current_stack_top false :: pending_jumps f) f)
  end.

(** Whether the newest targets, down to the current block, have the label *)
Fixpoint defined_here (l : JumpLabel.t IString) (current_block : nat) (ts : list (JumpTarget IString)) : bool :=
  match ts with
  | [] => false
  | t :: ts =>
      if (target_block t <? current_block)%nat then false
      else if JumpLabel.eqb (label t) l then true else defined_here l current_block ts
  end.

(** [pending_jumps.retain(..)]: the jumps that stay, and those to resolve, oldest first *)
Definition resolves (l : JumpLabel.t IString) (current_block : nat) (p : PendingJump IString) : bool :=
  (jump_block p =? current_block)%nat && JumpLabel.eqb (target p) l.
Definition retained (l : JumpLabel.t IString) (current_block : nat) (ps : list (PendingJump IString))
  : list (PendingJump IString) := List.filter (fun p => negb (resolves l current_block p)) ps.
Definition resolving (l : JumpLabel.t IString) (current_block : nat) (ps : list (PendingJump IString))
  : list (PendingJump IString) := rev (List.filter (resolves l current_block) ps).

(** A jump out of a [for] keeps the stack top it had above the three registers of the loop,
    which is where the assertion can fail. *)
Definition resolve (target_instruction : nat) (current_stack_top : Z) (p : PendingJump IString) : M unit :=
  guard (jump_top p <=? current_stack_top) ;;;
  rust_assert (jump_top p <=? current_stack_top) ;;;
  if jump_top p <? current_stack_top then throw CompileErrorKind.JumpLocal
  else
    let* f := current in
    match operations f !! jump_instruction p with
    | Some (Operation.Jump offset close) =>
        if (offset =? 0) && Opt254.is_none close then
          let* offset := ok_or (jump_offset (jump_instruction p) target_instruction) CompileErrorKind.JumpOverflow in
          let* close := (if close_upvalues p then close_above current_stack_top else ret close) in
          modify (fun f => set_operations (<[jump_instruction p := Operation.Jump offset close]> (operations f)) f)
        else lift Panic
    | _ => lift Panic
    end.

Definition jump_target (l : JumpLabel.t IString) : M unit :=
  let* target_instruction := operation_count in
  let* current_stack_top := stack_top in
  let* current_block := current_block_index in
  let* f := current in
  if defined_here l current_block (jump_targets f) then throw CompileErrorKind.DuplicateLabel
  else
    modify (fun f => set_jump_targets
      (mk_JumpTarget l target_instruction current_stack_top current_block :: jump_targets f) f) ;;;
    rust_assert (forallb (fun p => jump_block p <=? current_block)%nat (pending_jumps f)) ;;;
    modify (set_pending_jumps (retained l current_block (pending_jumps f))) ;;;
    for_each (resolve target_instruction current_stack_top) (resolving l current_block (pending_jumps f)).

(** ** Variables *)

(** The newest local of that name *)
Fixpoint find_local (name : IString) (ls : list (IString * RegisterIndex * LocalAttributes))
  : option (RegisterIndex * LocalAttributes) :=
  match ls with
  | [] => None
  | (local_name, register, attrs) :: ls =>
      if bool_decide (as_ref name = as_ref local_name) then Some (register, attrs) else find_local name ls
  end.

(** The index of the first upvalue of that name *)
Fixpoint find_upvalue (name : IString) (us : list (IString * UpValueDescriptor)) : option nat :=
  match us with
  | [] => None
  | (n, _) :: us => if bool_decide (as_ref name = as_ref n) then Some O else S <$> find_upvalue name us
  end.

(** The block that declares the register now owns an upvalue. *)
Fixpoint mark_owner (register : Z) (bs : list BlockDescriptor) : list BlockDescriptor :=
  match bs with
  | [] => []
  | b :: bs =>
      if stack_bottom b <=? register
      then mk_BlockDescriptor (stack_bottom b) (bottom_jump_target b) true :: bs
      else b :: mark_owner register bs
  end.

(** A new upvalue, and its index *)
Definition capture (name : IString) (d : UpValueDescriptor) (f : function) : function * (UpValueIndex + Stop) :=
  (set_upvalues (f_upvalues f ++ [(name, d)]) f,
   match checked u8 (Z.of_nat (length (f_upvalues f))) with
   | Some i => inl (mk_UpValueIndex i)
   | None => inr (Error CompileErrorKind.UpValues)
   end).

(** The search starts at function [f] and goes on in the functions around it; the way back
    adds an upvalue to every function that is crossed. *)
Fixpoint resolve_variable (name : IString) (f : function) (upper : list function)
  : (VariableDescriptor.t IString + Stop) * function * list function :=
  match find_local name (locals f) with
  | Some (register, attrs) => (inl (VariableDescriptor.Local register attrs), f, upper)
  | None =>
      let f :=
        if bool_decide (upper = []) && bool_decide (as_ref name = bs# "_ENV") && bool_decide (f_upvalues f = [])
        then set_upvalues [(name, Environment)] f else f in
      match find_upvalue name (f_upvalues f) with
      | Some j =>
          match checked u8 (Z.of_nat j) with
          | Some j => (inl (VariableDescriptor.UpValue (mk_UpValueIndex j) NONE), f, upper)
          | None => (inr (Error CompileErrorKind.UpValues), f, upper)
          end
      | None =>
          match upper with
          | [] => (inl (VariableDescriptor.Global name), f, [])
          | parent :: outer =>
              let '(r, parent, outer) := resolve_variable name parent outer in
              match r with
              | inl (VariableDescriptor.Global name) =>
                  (inl (VariableDescriptor.Global name), f, parent :: outer)
              | inl (VariableDescriptor.Local register attrs) =>
                  let parent := set_blocks (mark_owner (register_index register) (blocks parent)) parent in
                  let '(f, i) := capture name (ParentLocal register) f in
                  (match i with inl i => inl (VariableDescriptor.UpValue i attrs) | inr e => inr e end,
                   f, parent :: outer)
              | inl (VariableDescriptor.UpValue index attrs) =>
                  let '(f, i) := capture name (Outer index) f in
                  (match i with inl i => inl (VariableDescriptor.UpValue i attrs) | inr e => inr e end,
                   f, parent :: outer)
              | inr e => (inr e, f, parent :: outer)
              end
          end
      end
  end.

Definition find_variable (name : IString) : M (VariableDescriptor.t IString) := fun c =>
  let '(r, f, upper) := resolve_variable name (current_function c) (upper_functions c) in
  Ok (r, mk_compiler (string_interner c) f upper).

Definition get_environment : M descriptor :=
  let* env := intern bs# "_ENV" in
  let* v := find_variable env in
  ret (ExprDescriptor.Variable_ v).

(** ** Constants *)
#[local] Instance name_bytes : AsBytes IString := as_ref.

Fixpoint lookup_constant (constant : Constant.t IString) (table : list (Constant.t IString * ConstantIndex16))
  : option ConstantIndex16 :=
  match table with
  | [] => None
  | (c, i) :: table => if Constant.identical_eq c constant then Some i else lookup_constant constant table
  end.

Definition get_constant (constant : Constant.t IString) : M ConstantIndex16 :=
  let* f := current in
  match lookup_constant constant (constant_table f) with
  | Some c => ret c
  | None =>
      let* c := ok_or (checked u16 (Z.of_nat (length (f_constants f)))) CompileErrorKind.Constants in
      modify (fun f => set_constants (f_constants f ++ [constant])
        ((constant, mk_ConstantIndex16 c) :: constant_table f) f) ;;;
      ret (mk_ConstantIndex16 c)
  end.

(** ** The start and the end of a function *)

(** [for i in 0..fixed_params]: parameter [i] is the local in register [i]. *)
Fixpoint parameter_locals (params : list IString) (i : Z)
    (ls : list (IString * RegisterIndex * LocalAttributes))
  : list (IString * RegisterIndex * LocalAttributes) :=
  match params with
  | [] => ls
  | p :: params => parameter_locals params (i + 1) ((p, mk_RegisterIndex i, NONE) :: ls)
  end.

Definition start (reference : FunctionRef.t IString) (parameters : list IString) (has_varargs : bool)
  : outcome (function + Stop) :=
  let line := match reference with
    | FunctionRef.Named _ ln => ln | FunctionRef.Expression ln => ln | FunctionRef.Chunk => 0 end in
  match checked u8 (Z.of_nat (length parameters)) with
  | None => Ok (inr (Error CompileErrorKind.FixedParameters))
  | Some fixed_params =>
      r ← (if fixed_params =? 0 then Ok RegisterAllocator.default
           else
             '(base, r) ← RegisterAllocator.push fixed_params RegisterAllocator.default;
             match base with Some _ => Ok r | None => Panic end);
      Ok (inl (mk_CompilerFunction reference parameters [] [] [] [] r has_varargs fixed_params
        (parameter_locals parameters 0 []) [] 0 [] [] [] line [(0, line)]))
  end.

(** [operation_lines.dedup_by(..)], from the second entry on *)
Fixpoint dedup_lines (curr : Z * Z) (lines : list (Z * Z)) : list (Z * Z) :=
  match lines with
  | [] => [curr]
  | (next_opi, next_ln) :: lines =>
      if curr.1 =? next_opi then dedup_lines (curr.1, next_ln) lines
      else if curr.2 =? next_ln then dedup_lines curr lines
      else curr :: dedup_lines (next_opi, next_ln) lines
  end.
Definition dedup (lines : list (Z * Z)) : list (Z * Z) :=
  match lines with [] => [] | l :: lines => dedup_lines l lines end.

(** [for (_, r, _) in locals.drain(..) { free(r) }], from the oldest *)
Fixpoint free_all (rs : list RegisterIndex) (r : RegisterAllocator.t) : outcome RegisterAllocator.t :=
  match rs with
  | [] => Ok r
  | reg :: rs => r ← RegisterAllocator.free reg r; free_all rs r
  end.

Definition finish (f : function) : outcome (CompiledPrototype IString + Stop) :=
  none ← VarCount.constant 0;
  let operations := operations f ++ [Operation.Return (mk_RegisterIndex 0) none] in
  Prelude.rust_assert (Z.of_nat (length (locals f)) =? f_fixed_params f) ;;
  r ← free_all (rev (map (fun l => l.1.2) (locals f))) (register_allocator f);
  Prelude.rust_assert (RegisterAllocator.stack_top r =? 0) ;;
  if negb (bool_decide (pending_jumps f = [])) then Ok (inr (Error CompileErrorKind.GotoInvalid))
  else
    Ok (inl (mk_CompiledPrototype (f_reference f) (f_parameters f) (f_fixed_params f) (f_has_varargs f)
      (RegisterAllocator.stack_size r) (f_constants f) (map OpCode.encode operations)
      (dedup (operation_lines f)) (map snd (f_upvalues f)) (functions f))).
End Compiler.
End Compiler.
