(* ===== verification/CompilerExpr.v ===== *)
(** * Expressions to registers: [compiler/compiler.rs]

    The functions that consume an expression descriptor: into a register, as an operand, as a
    list of arguments, as a number of values, as a test.  They recurse on the descriptor;
    [depth] bounds that recursion. *)

From S2P Require Import Prelude Float64 Lexer Opcode Constant Operators Parser RegisterAllocator CompilerState.
Import Ast Compiler.

(** ** The nesting of a descriptor

    A global variable becomes a field of another variable, the environment; a call takes one
    more level for [call_function] or [call_method]. *)
Fixpoint depth {S} (e : ExprDescriptor.t S) : nat :=
  match e with
  | ExprDescriptor.Variable_ _ => 3
  | ExprDescriptor.Constant _ => 1
  | ExprDescriptor.VarArgs => 1
  | ExprDescriptor.UnaryOperator _ e => 1 + depth e
  | ExprDescriptor.SimpleBinaryOperator l _ r => 1 + max (depth l) (depth r)
  | ExprDescriptor.Comparison l _ r => 1 + max (depth l) (depth r)
  | ExprDescriptor.ShortCircuitBinOp l _ r => 1 + max (depth l) (depth r)
  | ExprDescriptor.TableConstructor a r =>
      2 + max (list_max (map depth a)) (list_max (map (fun kv => max (depth kv.1) (depth kv.2)) r))
  | ExprDescriptor.TableField t k => 1 + max (depth t) (depth k)
  | ExprDescriptor.Closure _ => 1
  | ExprDescriptor.FunctionCall f args => 2 + max (depth f) (list_max (map depth args))
  | ExprDescriptor.MethodCall t m args =>
      2 + max (max (depth t) (depth m)) (list_max (map depth args))
  | ExprDescriptor.Concat es => 1 + list_max (map depth es)
  | ExprDescriptor.Group e => 1 + depth e
  end.
Definition call_depth {S} (func : ExprDescriptor.t S) (args : list (ExprDescriptor.t S)) : nat :=
  1 + max (depth func) (list_max (map depth args)).
Definition method_depth {S} (table method : ExprDescriptor.t S) (args : list (ExprDescriptor.t S)) : nat :=
  1 + max (max (depth table) (depth method)) (list_max (map depth args)).

Module Discharge.
#[local] Notation "'let*' x ':=' m 'in' k" := (bind m (fun x => k)) (at level 10, x pattern, m at level 100, k at level 200).
#[local] Notation "m ';;;' k" := (bind m (fun _ => k)) (at level 100, k at level 200, right associativity).

Definition FIELDS_PER_FLUSH : nat := 32.

Section Discharge.
Context `{BuildProfile} `{FloatLib} `{StringInterner} `{Guards}.
Abbreviation descriptor := (ExprDescriptor.t IString).

Definition new_destination (dest : ExprDestination.t) : M RegisterIndex :=
  match dest with
  | ExprDestination.Register dest => ret dest
  | ExprDestination.AllocateNew => allocate_or
  | ExprDestination.PushNew => push_or 1
  end.

Section bodies.
Variable expr_discharge : descriptor -> ExprDestination.t -> M RegisterIndex.
Variable call_function : descriptor -> list descriptor -> CallMode.t -> M RegisterIndex.
Variable call_method : descriptor -> descriptor -> list descriptor -> CallMode.t -> M RegisterIndex.

(** ** Operands *)

(** A register that holds the value, and whether it is temporary *)
Definition expr_any_register (expr : descriptor) : M (RegisterIndex * bool) :=
  match expr with
  | ExprDescriptor.Variable_ (VariableDescriptor.Local register _) => ret (register, false)
  | _ => let* r := expr_discharge expr ExprDestination.AllocateNew in ret (r, true)
  end.

Definition expr_any_register_or_constant (expr : descriptor) : M (RCIndex * option RegisterIndex) :=
  let* c8 := (match expr with
              | ExprDescriptor.Constant value =>
                  let* c := get_constant value in ret (checked u8 (constant_index16 c))
              | _ => ret None
              end) in
  match c8 with
  | Some c8 => ret (RCIndex.Constant (mk_ConstantIndex8 c8), None)
  | None =>
      let* (reg, is_temp) := expr_any_register expr in
      ret (RCIndex.Register reg, if is_temp : bool then Some reg else None)
  end.

(** The two operands of an instruction, whose registers are free again *)
Definition operands (left_ right_ : descriptor) : M (RCIndex * RCIndex) :=
  let* (left_rc, left_to_free) := expr_any_register_or_constant left_ in
  let* (right_rc, right_to_free) := expr_any_register_or_constant right_ in
  free_opt left_to_free ;;;
  free_opt right_to_free ;;;
  ret (left_rc, right_rc).

Definition get_table (table key : descriptor) (dest : ExprDestination.t) : M RegisterIndex :=
  match table with
  | ExprDescriptor.Variable_ (VariableDescriptor.UpValue table _) =>
      let* (key_rc, key_to_free) := expr_any_register_or_constant key in
      free_opt key_to_free ;;;
      let* dest := new_destination dest in
      emit (Operation.GetUpTable dest table key_rc) ;;;
      ret dest
  | table =>
      let* (table, table_is_temp) := expr_any_register table in
      let* (key_rc, key_to_free) := expr_any_register_or_constant key in
      (if table_is_temp : bool then free table else ret tt) ;;;
      free_opt key_to_free ;;;
      let* dest := new_destination dest in
      emit (Operation.GetTable dest table key_rc) ;;;
      ret dest
  end.

Definition set_uptable (table : UpValueIndex) (key value : descriptor) : M unit :=
  let* (key, value) := operands key value in
  emit (Operation.SetUpTable table key value).

Definition set_rtable (table : RegisterIndex) (key value : descriptor) : M unit :=
  let* (key, value) := operands key value in
  emit (Operation.SetTable table key value).

Definition set_table (table key value : descriptor) : M unit :=
  match table with
  | ExprDescriptor.Variable_ (VariableDescriptor.UpValue table _) => set_uptable table key value
  | table =>
      let* (table, table_is_temp) := expr_any_register table in
      set_rtable table key value ;;;
      (if table_is_temp : bool then free table else ret tt)
  end.

(** ** Calls *)

(** The last argument may stand for any number of values. *)
Definition push_last (top args_len : Z) (last_arg : descriptor) : M VarCount :=
  match last_arg with
  | ExprDescriptor.FunctionCall func args =>
      let* returns := lift VarCount.variable in
      call_function func args (CallMode.Call returns) ;;;
      lift VarCount.variable
  | ExprDescriptor.MethodCall table method args =>
      let* returns := lift VarCount.variable in
      call_method table method args (CallMode.Call returns) ;;;
      lift VarCount.variable
  | ExprDescriptor.VarArgs =>
      let* dest := ok_or (checked u8 (top + args_len - 1)) CompileErrorKind.Registers in
      let* count := lift VarCount.variable in
      emit (Operation.VarArgs (mk_RegisterIndex dest) count) ;;;
      lift VarCount.variable
  | last_arg =>
      expr_discharge last_arg ExprDestination.PushNew ;;;
      ok_or (n ← checked u8 args_len; VarCount.try_constant n) CompileErrorKind.Registers
  end.

Fixpoint push_args (top args_len : Z) (args : list descriptor) : M VarCount :=
  match args with
  | [] => lift (VarCount.constant 0)
  | [last_arg] => push_last top args_len last_arg
  | arg :: args =>
      expr_discharge arg ExprDestination.PushNew ;;;
      push_args top args_len args
  end.

Definition push_arguments (args : list descriptor) : M VarCount :=
  match args with
  | [] => lift (VarCount.constant 0)
  | _ =>
      let* top := stack_top in
      let* arg_count := push_args top (Z.of_nat (length args)) args in
      pop_to top ;;;
      ret arg_count
  end.

Definition emit_call (func : RegisterIndex) (args : VarCount) (mode : CallMode.t) : M unit :=
  match mode with
  | CallMode.Call returns => emit (Operation.Call func args returns)
  | CallMode.TailCall => emit (Operation.TailCall func args)
  end.

Definition call_function_body (func : descriptor) (args : list descriptor) (mode : CallMode.t)
  : M RegisterIndex :=
  let* func := expr_discharge func ExprDestination.PushNew in
  let* args := push_arguments args in
  emit_call func args mode ;;;
  free func ;;;
  ret func.

Definition call_method_body (table method : descriptor) (args : list descriptor) (mode : CallMode.t)
  : M RegisterIndex :=
  let* (table, table_is_temp) := expr_any_register table in
  let* (method, method_to_free) := expr_any_register_or_constant method in
  (if table_is_temp : bool then free table else ret tt) ;;;
  free_opt method_to_free ;;;
  let* base := push_or 2 in
  emit (Operation.Method base table method) ;;;
  let* args := push_arguments args in
  let* args := (match VarCount.to_constant args with
                | Some args =>
                    ok_or (args ← checked u8 (args + 1); VarCount.try_constant args) CompileErrorKind.Registers
                | None => lift VarCount.variable
                end) in
  emit_call base args mode ;;;
  pop_to (register_index base) ;;;
  ret base.

(** The one result of a call, moved to its place *)
Definition place_result (source : RegisterIndex) (dest : ExprDestination.t) : M RegisterIndex :=
  match dest with
  | ExprDestination.Register dest =>
      rust_assert (negb (bool_decide (dest = source))) ;;;
      emit (Operation.Move dest source) ;;;
      ret dest
  | ExprDestination.AllocateNew | ExprDestination.PushNew =>
      let* r := push_or 1 in
      rust_assert (bool_decide (r = source)) ;;;
      ret source
  end.

(** ** Table constructors *)

(** [for (i, expr) in chunk.into_iter().enumerate()] *)
Fixpoint discharge_chunk (reg_start : RegisterIndex) (i : Z) (chunk : list descriptor) : M unit :=
  match chunk with
  | [] => ret tt
  | expr :: chunk =>
      let* r := lift (arith u8 (register_index reg_start + i)) in
      expr_discharge expr (ExprDestination.Register (mk_RegisterIndex r)) ;;;
      discharge_chunk reg_start (i + 1) chunk
  end.

(** [while array_fields.len() > 0]: each turn takes at least one field. *)
Fixpoint flush_fields (fuel : nat) (table index : RegisterIndex) (array_fields : list descriptor) : M unit :=
  match array_fields with
  | [] => ret tt
  | _ =>
      match fuel with
      | O => lift Panic
      | S fuel =>
          let chunk := take FIELDS_PER_FLUSH array_fields in
          let array_fields := drop FIELDS_PER_FLUSH array_fields in
          let* count := (match array_fields with
                         | [] => push_arguments chunk
                         | _ =>
                             let field_count := wrap u8 (Z.of_nat (length chunk)) in
                             let* reg_start := push_or field_count in
                             let* next := lift (arith u8 (register_index index + 1)) in
                             rust_assert (register_index reg_start =? next) ;;;
                             discharge_chunk reg_start 0 chunk ;;;
                             lift (VarCount.constant field_count)
                         end) in
          emit (Operation.SetList table count) ;;;
          pop_to (register_index index + 1) ;;;
          flush_fields fuel table index array_fields
      end
  end.

Definition table_constructor (array_fields : list descriptor) (record_fields : list (descriptor * descriptor))
    (dest : ExprDestination.t) : M RegisterIndex :=
  let* table := push_or 1 in
  emit (Operation.NewTable table
    (default 255 (checked u8 (Z.of_nat (length array_fields))))
    (default 255 (checked u8 (Z.of_nat (length record_fields))))) ;;;
  for_each (fun '(key, value) => set_rtable table key value) record_fields ;;;
  let* index := push_or 1 in
  let* next := lift (arith u8 (register_index table + 1)) in
  rust_assert (register_index index =? next) ;;;
  expr_discharge (ExprDescriptor.Constant (Constant.Integer 0)) (ExprDestination.Register index) ;;;
  flush_fields (length array_fields) table index array_fields ;;;
  free index ;;;
  match dest with
  | ExprDestination.Register dest =>
      emit (Operation.Move dest table) ;;;
      free table ;;;
      ret dest
  | ExprDestination.AllocateNew => ret table
  | ExprDestination.PushNew => ret table
  end.

(** ** Concatenation

    [while !exprs.is_empty()], with the number of values on the stack.  A turn that finds no
    register leaves one value, so that the next one finds a register: two turns an operand.
    Where the one value left is in the last register, the code turns for ever. *)
Fixpoint concat_rest (fuel : nat) (source : RegisterIndex) (count : Z) (exprs : list descriptor) : M Z :=
  match exprs with
  | [] => ret count
  | next :: rest =>
      match fuel with
      | O => lift Panic
      | S fuel =>
          let* new := push 1 in
          match new with
          | Some new =>
              expr_discharge next (ExprDestination.Register new) ;;;
              let* count := lift (arith u8 (count + 1)) in
              concat_rest fuel source count rest
          | None =>
              emit (Operation.Concat source source count) ;;;
              pop_to (register_index source + 1) ;;;
              concat_rest fuel source 1 exprs
          end
      end
  end.

Definition concat (exprs : list descriptor) (dest : ExprDestination.t) : M RegisterIndex :=
  match exprs with
  | [] => lift Panic
  | first :: rest =>
      let* dest := new_destination dest in
      let* source := expr_discharge first ExprDestination.PushNew in
      let* count := concat_rest (2 * length rest) source 1 rest in
      emit (Operation.Concat dest source count) ;;;
      pop_to (register_index source) ;;;
      ret dest
  end.

(** ** [expr_discharge] *)

Definition discharge_constant (value : Constant.t IString) (dest : ExprDestination.t) : M RegisterIndex :=
  let* dest := new_destination dest in
  (match value with
   | Constant.Nil => emit (Operation.LoadNil dest 1)
   | Constant.Boolean value => emit (Operation.LoadBool dest value false)
   | val =>
       let* constant := get_constant val in
       emit (Operation.LoadConstant dest constant)
   end) ;;;
  ret dest.

Definition discharge_comparison (left_ : descriptor) (op : ComparisonBinOp.t) (right_ : descriptor)
    (dest : ExprDestination.t) : M RegisterIndex :=
  let* (left_rc, right_rc) := operands left_ right_ in
  let* dest := new_destination dest in
  let* none := lift Opt254.none in
  emit (Operators.comparison_binop_operation op left_rc right_rc false) ;;;
  emit (Operation.Jump 1 none) ;;;
  emit (Operation.LoadBool dest false true) ;;;
  emit (Operation.LoadBool dest true false) ;;;
  ret dest.

Definition short_circuit (left_ : descriptor) (op : ShortCircuitBinOp.t) (right_ : descriptor)
    (dest : ExprDestination.t) : M RegisterIndex :=
  let* (left_register, left_is_temp) := expr_any_register left_ in
  (if left_is_temp : bool then free left_register else ret tt) ;;;
  let* dest := new_destination dest in
  let test_op_true := match op with ShortCircuitBinOp.And => true | ShortCircuitBinOp.Or => false end in
  emit (if bool_decide (left_register = dest) then Operation.Test left_register test_op_true
        else Operation.TestSet dest left_register test_op_true) ;;;
  let* skip := unique_jump_label in
  jump skip ;;;
  expr_discharge right_ (ExprDestination.Register dest) ;;;
  jump_target skip ;;;
  ret dest.

Definition expr_discharge_body (expr : descriptor) (dest : ExprDestination.t) : M RegisterIndex :=
  match expr with
  | ExprDescriptor.Variable_ (VariableDescriptor.Local source _) =>
      let* dest := new_destination dest in
      emit (Operation.Move dest source) ;;;
      ret dest
  | ExprDescriptor.Variable_ (VariableDescriptor.UpValue source _) =>
      let* dest := new_destination dest in
      emit (Operation.GetUpValue dest source) ;;;
      ret dest
  | ExprDescriptor.Variable_ (VariableDescriptor.Global name) =>
      let* env := get_environment in
      get_table env (ExprDescriptor.Constant (Constant.String name)) dest
  | ExprDescriptor.Constant value => discharge_constant value dest
  | ExprDescriptor.VarArgs =>
      let* dest := new_destination dest in
      let* count := lift (VarCount.constant 1) in
      emit (Operation.VarArgs dest count) ;;;
      ret dest
  | ExprDescriptor.UnaryOperator op expr =>
      let* (source, source_is_temp) := expr_any_register expr in
      (if source_is_temp : bool then free source else ret tt) ;;;
      let* dest := new_destination dest in
      emit (Operators.unop_operation op dest source) ;;;
      ret dest
  | ExprDescriptor.SimpleBinaryOperator left_ op right_ =>
      let* (left_rc, right_rc) := operands left_ right_ in
      let* dest := new_destination dest in
      emit (Operators.simple_binop_operation op dest left_rc right_rc) ;;;
      ret dest
  | ExprDescriptor.Comparison left_ op right_ => discharge_comparison left_ op right_ dest
  | ExprDescriptor.ShortCircuitBinOp left_ op right_ => short_circuit left_ op right_ dest
  | ExprDescriptor.TableConstructor array_fields record_fields =>
      table_constructor array_fields record_fields dest
  | ExprDescriptor.TableField table key => get_table table key dest
  | ExprDescriptor.Closure proto =>
      let* dest := new_destination dest in
      emit (Operation.Closure dest proto) ;;;
      ret dest
  | ExprDescriptor.FunctionCall func args =>
      let* returns := lift (VarCount.constant 1) in
      let* source := call_function func args (CallMode.Call returns) in
      place_result source dest
  | ExprDescriptor.MethodCall table method args =>
      let* returns := lift (VarCount.constant 1) in
      let* source := call_method table method args (CallMode.Call returns) in
      place_result source dest
  | ExprDescriptor.Concat exprs => concat exprs dest
  | ExprDescriptor.Group expr => expr_discharge expr dest
  end.

(** ** A number of values, and a test *)
Definition expr_push_count (expr : descriptor) (count : Z) : M RegisterIndex :=
  rust_assert (negb (count =? 0)) ;;;
  match expr with
  | ExprDescriptor.FunctionCall func args =>
      let* returns := ok_or (VarCount.try_constant count) CompileErrorKind.Registers in
      let* dest := call_function func args (CallMode.Call returns) in
      push_or count ;;;
      ret dest
  | ExprDescriptor.MethodCall table method args =>
      let* returns := ok_or (VarCount.try_constant count) CompileErrorKind.Registers in
      let* dest := call_method table method args (CallMode.Call returns) in
      push_or count ;;;
      ret dest
  | ExprDescriptor.VarArgs =>
      let* dest := push_or count in
      let* n := ok_or (VarCount.try_constant count) CompileErrorKind.Registers in
      emit (Operation.VarArgs dest n) ;;;
      ret dest
  | ExprDescriptor.Constant Constant.Nil =>
      let* dest := push_or count in
      emit (Operation.LoadNil dest count) ;;;
      ret dest
  | expr =>
      let* dest := expr_discharge expr ExprDestination.PushNew in
      (if 1 <? count then
         let* nils := push_or (count - 1) in
         emit (Operation.LoadNil nils (count - 1))
       else ret tt) ;;;
      ret dest
  end.

Definition gen_comparison (left_ : descriptor) (op : ComparisonBinOp.t) (right_ : descriptor)
    (skip_if : bool) : M unit :=
  let* (left_rc, right_rc) := operands left_ right_ in
  emit (Operators.comparison_binop_operation op left_rc right_rc skip_if).

Definition gen_test (expr : descriptor) (is_true : bool) : M unit :=
  let* (test_reg, test_is_temp) := expr_any_register expr in
  (if test_is_temp : bool then free test_reg else ret tt) ;;;
  emit (Operation.Test test_reg is_true).

Definition expr_test (expr : descriptor) (skip_if : bool) : M unit :=
  match expr with
  | ExprDescriptor.Constant value =>
      if Bool.eqb (Constant.to_bool value) skip_if then
        let* none := lift Opt254.none in emit (Operation.Jump 1 none)
      else ret tt
  | ExprDescriptor.Comparison left_ op right_ => gen_comparison left_ op right_ skip_if
  | ExprDescriptor.UnaryOperator UnaryOperator.Not expr =>
      match expr with
      | ExprDescriptor.Comparison left_ op right_ => gen_comparison left_ op right_ (negb skip_if)
      | expr => gen_test expr (negb skip_if)
      end
  | expr => gen_test expr skip_if
  end.
End bodies.

(** ** The recursion *)
Fixpoint discharge (n : nat) (expr : descriptor) (dest : ExprDestination.t) : M RegisterIndex :=
  match n with
  | O => lift Panic
  | S n => expr_discharge_body (discharge n) (call n) (invoke n) expr dest
  end
with call (n : nat) (func : descriptor) (args : list descriptor) (mode : CallMode.t) : M RegisterIndex :=
  match n with
  | O => lift Panic
  | S n => call_function_body (discharge n) (call n) (invoke n) func args mode
  end
with invoke (n : nat) (table method : descriptor) (args : list descriptor) (mode : CallMode.t) : M RegisterIndex :=
  match n with
  | O => lift Panic
  | S n => call_method_body (discharge n) (call n) (invoke n) table method args mode
  end.

Definition expr_discharge (expr : descriptor) (dest : ExprDestination.t) : M RegisterIndex :=
  discharge (depth expr) expr dest.
Definition call_function (func : descriptor) (args : list descriptor) (mode : CallMode.t) : M RegisterIndex :=
  call (call_depth func args) func args mode.
Definition call_method (table method : descriptor) (args : list descriptor) (mode : CallMode.t) : M RegisterIndex :=
  invoke (method_depth table method args) table method args mode.
End Discharge.
End Discharge.
