(* ===== verification/Compiler.v ===== *)
(** * From the syntax tree to prototypes: [compiler/compiler.rs]

    Expressions of the tree become descriptors, statements become instructions, the body of
    a function becomes a prototype.  The three functions that recurse on the tree are tied
    at the end: [expression], [block_statements] and [statement]. *)

From S2P Require Import Prelude Float64 Lexer Opcode Constant Operators Parser RegisterAllocator CompilerState CompilerExpr.
Import Ast Compiler Discharge.

Module Compile.
#[local] Notation "'let*' x ':=' m 'in' k" := (bind m (fun x => k)) (at level 10, x pattern, m at level 100, k at level 200).
#[local] Notation "m ';;;' k" := (bind m (fun _ => k)) (at level 100, k at level 200, right associativity).

Section Compile.
Context `{BuildProfile} `{FloatLib} `{StringInterner} `{Guards}.
Abbreviation descriptor := (ExprDescriptor.t IString).
Abbreviation function := (CompilerFunction IString).
#[local] Existing Instance name_bytes.

Abbreviation any_register := (expr_any_register expr_discharge).
Abbreviation set_table_ := (set_table expr_discharge).
Abbreviation push_arguments_ := (push_arguments expr_discharge call_function call_method).
Abbreviation push_count := (expr_push_count expr_discharge call_function call_method).
Abbreviation test := (expr_test expr_discharge).

Definition string_constant (s : IString) : descriptor := ExprDescriptor.Constant (Constant.String s).

(** ** Operators *)

(** Folding [%] fails on [math.mininteger % -1] and, with overflow checks, on a sum that does
    not fit. *)
Definition fold_simple_binop (op : SimpleBinOp.t) (a b : Constant.t IString) : M (option (Constant.t IString)) :=
  let folded := Operators.simple_binop_const_fold op a b in
  guard (match folded with Ok _ => true | Panic => false end) ;;;
  lift folded.

Definition unary_operator_expression (unop : UnaryOperator.t) (expr : descriptor) : descriptor :=
  match expr with
  | ExprDescriptor.Constant v =>
      match Operators.unop_const_fold unop v with
      | Some v => ExprDescriptor.Constant v
      | None => ExprDescriptor.UnaryOperator unop expr
      end
  | _ => ExprDescriptor.UnaryOperator unop expr
  end.

Definition concat_expression (left_ right_ : descriptor) : descriptor :=
  match left_, right_ with
  | ExprDescriptor.Concat left_, ExprDescriptor.Concat right_ => ExprDescriptor.Concat (left_ ++ right_)
  | ExprDescriptor.Concat left_, right_ => ExprDescriptor.Concat (left_ ++ [right_])
  | left_, ExprDescriptor.Concat right_ => ExprDescriptor.Concat (left_ :: right_)
  | left_, right_ => ExprDescriptor.Concat [left_; right_]
  end.

Definition binary_operator_expression (left_ : descriptor) (binop : BinaryOperator.t) (right_ : descriptor)
  : M descriptor :=
  match Operators.categorize_binop binop with
  | BinOpCategory.Simple op =>
      let* folded := (match left_, right_ with
                      | ExprDescriptor.Constant a, ExprDescriptor.Constant b => fold_simple_binop op a b
                      | _, _ => ret None
                      end) in
      ret (match folded with
           | Some v => ExprDescriptor.Constant v
           | None => ExprDescriptor.SimpleBinaryOperator left_ op right_
           end)
  | BinOpCategory.Comparison op =>
      let folded := match left_, right_ with
        | ExprDescriptor.Constant a, ExprDescriptor.Constant b => Operators.comparison_binop_const_fold op a b
        | _, _ => None
        end in
      ret (match folded with
           | Some v => ExprDescriptor.Constant v
           | None => ExprDescriptor.Comparison left_ op right_
           end)
  | BinOpCategory.ShortCircuit op => ret (ExprDescriptor.ShortCircuitBinOp left_ op right_)
  | BinOpCategory.Concat => ret (concat_expression left_ right_)
  end.

(** ** Functions *)

(** [mem::replace(&mut self.current_function, ..)] and back *)
Definition push_function (f : function) : M unit := fun c =>
  Ok (inl tt, mk_compiler (string_interner c) f (current_function c :: upper_functions c)).
Definition pop_function : M function := fun c =>
  match upper_functions c with
  | [] => Panic
  | f :: upper => Ok (inl (current_function c), mk_compiler (string_interner c) f upper)
  end.
Definition of_result {A} (r : outcome (A + Stop)) : M A := fun c => r ← r; Ok (r, c).

Section bodies.
Variable expression : Expression IString -> M descriptor.
Variable block_statements : Block IString -> M unit.
Variable statement : Statement IString -> M unit.

Definition block (b : Block IString) : M unit :=
  enter_block ;;;
  block_statements b ;;;
  exit_block.

Definition new_prototype (reference : FunctionRef.t IString) (parameters : list IString)
    (has_varargs : bool) (body : Block IString) : M PrototypeIndex :=
  let* f := of_result (start reference parameters has_varargs) in
  push_function f ;;;
  block body ;;;
  let* f := pop_function in
  let* proto := of_result (finish f) in
  modify (fun f => set_functions (functions f ++ [proto]) f) ;;;
  let* f := current in
  let* i := ok_or (checked u8 (Z.of_nat (length (functions f)) - 1)) CompileErrorKind.Functions in
  ret (mk_PrototypeIndex i).

(** ** Expressions *)

Definition function_expression (d : FunctionDefinition IString) : M descriptor :=
  let '(mk_FunctionDefinition line parameters has_varargs body) := d in
  let* proto := new_prototype (FunctionRef.Expression line) parameters has_varargs body in
  ret (ExprDescriptor.Closure proto).

Definition field_key (field : FieldSuffix IString) : M descriptor :=
  match field with
  | FNamed name => ret (string_constant name)
  | FIndexed idx => expression idx
  end.

Definition record_key (key : RecordKey IString) : M descriptor :=
  match key with
  | KNamed key => ret (string_constant key)
  | KIndexed key => expression key
  end.

(** The array and the record fields, each in the order of the source *)
Fixpoint constructor_fields (fields : list (ConstructorField IString))
  : M (list descriptor * list (descriptor * descriptor)) :=
  match fields with
  | [] => ret ([], [])
  | Array value :: fields =>
      let* value := expression value in
      let* (array_fields, record_fields) := constructor_fields fields in
      ret (value :: array_fields, record_fields)
  | Record_ key value :: fields =>
      let* key := record_key key in
      let* value := expression value in
      let* (array_fields, record_fields) := constructor_fields fields in
      ret (array_fields, (key, value) :: record_fields)
  end.

Definition table_constructor_expression (fields : list (ConstructorField IString)) : M descriptor :=
  let* (array_fields, record_fields) := constructor_fields fields in
  ret (ExprDescriptor.TableConstructor array_fields record_fields).

Definition primary_expression (e : PrimaryExpression IString) : M descriptor :=
  match e with
  | PName name => let* v := find_variable name in ret (ExprDescriptor.Variable_ v)
  | GroupedExpression expr => let* e := expression expr in ret (ExprDescriptor.Group e)
  end.

Fixpoint suffixes (expr : descriptor) (parts : list (SuffixPart IString)) : M descriptor :=
  match parts with
  | [] => ret expr
  | Field field :: parts =>
      let* key := field_key field in
      suffixes (ExprDescriptor.TableField expr key) parts
  | Call (CFunction args) :: parts =>
      let* args := collect expression args in
      suffixes (ExprDescriptor.FunctionCall expr args) parts
  | Call (CMethod method args) :: parts =>
      let* args := collect expression args in
      suffixes (ExprDescriptor.MethodCall expr (string_constant method) args) parts
  end.

Definition suffixed_expression (e : SuffixedExpression IString) : M descriptor :=
  let '(mk_SuffixedExpression primary parts) := e in
  let* expr := primary_expression primary in
  suffixes expr parts.

Definition simple_expression (e : SimpleExpression IString) : M descriptor :=
  match e with
  | EFloat f => ret (ExprDescriptor.Constant (Constant.Number f))
  | EInteger i => ret (ExprDescriptor.Constant (Constant.Integer i))
  | EString s => ret (string_constant s)
  | ENil => ret (ExprDescriptor.Constant Constant.Nil)
  | ETrue => ret (ExprDescriptor.Constant (Constant.Boolean true))
  | EFalse => ret (ExprDescriptor.Constant (Constant.Boolean false))
  | EVarArgs => ret ExprDescriptor.VarArgs
  | ETableConstructor fields => table_constructor_expression fields
  | EFunction d => function_expression d
  | ESuffixed e => suffixed_expression e
  end.

Definition head_expression (e : HeadExpression IString) : M descriptor :=
  match e with
  | Simple e => simple_expression e
  | Unary unop e => let* e := expression e in ret (unary_operator_expression unop e)
  end.

Fixpoint operators (expr : descriptor) (tail : list (BinaryOperator.t * Expression IString)) : M descriptor :=
  match tail with
  | [] => ret expr
  | (binop, right_) :: tail =>
      let* right_ := expression right_ in
      let* expr := binary_operator_expression expr binop right_ in
      operators expr tail
  end.

Definition expression_body (e : Expression IString) : M descriptor :=
  let '(mk_Expression head tail) := e in
  let* expr := head_expression head in
  operators expr tail.

(** ** Statements *)

Definition return_statement (returns : list (Expression IString)) : M unit :=
  let* returns := collect expression returns in
  match returns with
  | [ExprDescriptor.FunctionCall func args] =>
      call_function func args CallMode.TailCall ;;; ret tt
  | [ExprDescriptor.MethodCall table method args] =>
      call_method table method args CallMode.TailCall ;;; ret tt
  | returns =>
      let* count := push_arguments_ returns in
      let* top := stack_top in
      let* start := lift (match checked u8 top with Some s => Ok s | None => Panic end) in
      emit (Operation.Return (mk_RegisterIndex start) count)
  end.

(** One condition with its block, from its label; the label of what follows *)
Definition if_part (end_label next_label : JumpLabel.t IString) (more : bool)
    (part : Expression IString * Block IString) : M (JumpLabel.t IString) :=
  let '(if_expr, b) := part in
  jump_target next_label ;;;
  let* next_label := unique_jump_label in
  let* if_expr := expression if_expr in
  test if_expr true ;;;
  jump next_label ;;;
  enter_block ;;;
  block_statements b ;;;
  (if more then jump end_label else ret tt) ;;;
  exit_block ;;;
  ret next_label.

Fixpoint else_if_parts (end_label next_label : JumpLabel.t IString) (has_else : bool)
    (parts : list (Expression IString * Block IString)) : M (JumpLabel.t IString) :=
  match parts with
  | [] => ret next_label
  | part :: parts =>
      let* next_label := if_part end_label next_label (negb (bool_decide (length parts = 0)%nat) || has_else) part in
      else_if_parts end_label next_label has_else parts
  end.

Definition if_statement (first : Expression IString * Block IString)
    (parts : list (Expression IString * Block IString)) (else_part : option (Block IString)) : M unit :=
  let* end_label := unique_jump_label in
  let* next_label := unique_jump_label in
  let has_else := match else_part with Some _ => true | None => false end in
  let* next_label := if_part end_label next_label (negb (bool_decide (length parts = 0)%nat) || has_else) first in
  let* next_label := else_if_parts end_label next_label has_else parts in
  jump_target next_label ;;;
  (match else_part with Some b => block b | None => ret tt end) ;;;
  jump_target end_label.

(** The placeholder of the loop's preparation gets its distance. *)
Definition patch_for_prep (for_prep_index for_loop_index : nat) (base : RegisterIndex) : M unit :=
  let* f := current in
  match operations f !! for_prep_index with
  | Some (Operation.NumericForPrep prep_base jump) =>
      rust_assert (bool_decide (prep_base = base) && (jump =? 0)) ;;;
      let* jump := ok_or (jump_offset for_prep_index for_loop_index) CompileErrorKind.JumpOverflow in
      modify (fun f => set_operations (<[for_prep_index := Operation.NumericForPrep prep_base jump]> (operations f)) f)
  | _ => lift Panic
  end.

Definition numeric_for (name : IString) (initial limit : Expression IString)
    (step : option (Expression IString)) (body : Block IString) : M unit :=
  let* initial := expression initial in
  let* base := expr_discharge initial ExprDestination.PushNew in
  let* limit := expression limit in
  expr_discharge limit ExprDestination.PushNew ;;;
  let* step := (match step with
                | Some step => expression step
                | None => ret (ExprDescriptor.Constant (Constant.Integer 1))
                end) in
  expr_discharge step ExprDestination.PushNew ;;;
  let* for_prep_index := operation_count in
  emit (Operation.NumericForPrep base 0) ;;;
  enter_block ;;;
  enter_block ;;;
  let* loop_var := push_or 1 in
  declare name loop_var NONE ;;;
  block_statements body ;;;
  exit_block ;;;
  let* for_loop_index := operation_count in
  let* back := ok_or (jump_offset for_loop_index (for_prep_index + 1)) CompileErrorKind.JumpOverflow in
  emit (Operation.NumericForLoop base back) ;;;
  patch_for_prep for_prep_index for_loop_index base ;;;
  jump_target JumpLabel.Break ;;;
  exit_block ;;;
  pop_to (register_index base).

(** The iterator, the state and the control value in three registers *)
Definition iterator_values (arguments : list (Expression IString)) : M RegisterIndex :=
  match arguments with
  | [] => lift Panic
  | [args] =>
      let* args := expression args in
      push_count args 3
  | iterator :: state :: rest =>
      let* iterator := expression iterator in
      let* top := expr_discharge iterator ExprDestination.PushNew in
      let* state := expression state in
      expr_discharge state ExprDestination.PushNew ;;;
      let* control := (match rest with
                       | control :: _ => expression control
                       | [] => ret (ExprDescriptor.Constant Constant.Nil)
                       end) in
      expr_discharge control ExprDestination.PushNew ;;;
      ret top
  end.

Definition generic_for (names : list IString) (arguments : list (Expression IString)) (body : Block IString)
  : M unit :=
  let* loop_label := unique_jump_label in
  let* base := iterator_values arguments in
  enter_block ;;;
  enter_block ;;;
  let* name_count := ok_or (checked u8 (Z.of_nat (length names))) CompileErrorKind.Registers in
  let* names_reg := push_or name_count in
  declare_all (map (fun n => (n, NONE)) names) names_reg 0 ;;;
  jump loop_label ;;;
  let* start_inst := operation_count in
  block_statements body ;;;
  exit_block ;;;
  jump_target loop_label ;;;
  emit (Operation.GenericForCall base name_count) ;;;
  let* loop_inst := operation_count in
  let* control := lift (arith u8 (register_index base + 2)) in
  let* back := ok_or (jump_offset loop_inst start_inst) CompileErrorKind.JumpOverflow in
  emit (Operation.GenericForLoop (mk_RegisterIndex control) back) ;;;
  jump_target JumpLabel.Break ;;;
  exit_block ;;;
  pop_to (register_index base).

Definition for_statement (f : ForStatement IString) : M unit :=
  match f with
  | Numeric name initial limit step body => numeric_for name initial limit step body
  | Generic names arguments body => generic_for names arguments body
  end.

Definition while_statement (condition : Expression IString) (b : Block IString) : M unit :=
  let* start_label := unique_jump_label in
  let* end_label := unique_jump_label in
  jump_target start_label ;;;
  let* condition := expression condition in
  test condition true ;;;
  jump end_label ;;;
  enter_block ;;;
  block_statements b ;;;
  jump start_label ;;;
  jump_target JumpLabel.Break ;;;
  exit_block ;;;
  jump_target end_label.

(** The statements of a list, in order: [n] of them after the first [skip], each on its line *)
Fixpoint statements (skip n : nat) (l : list (LineAnnotated (Statement IString))) : M unit :=
  match l with
  | [] => ret tt
  | s :: l =>
      match skip, n with
      | S skip, _ => statements skip n l
      | O, O => ret tt
      | O, S n =>
          modify (set_line_number (Ast.line_number s)) ;;;
          statement (inner s) ;;;
          statements O n l
      end
  end.

Fixpoint plain_statements (l : list (LineAnnotated (Statement IString))) : M unit :=
  match l with
  | [] => ret tt
  | s :: l => statement (inner s) ;;; plain_statements l
  end.

Definition repeat_statement (body : Block IString) (until : Expression IString) : M unit :=
  let '(mk_Block stmts return_stmt _) := body in
  let* start_label := unique_jump_label in
  enter_block ;;;
  enter_block ;;;
  jump_target start_label ;;;
  plain_statements stmts ;;;
  (match return_stmt with Some r => return_statement (inner r) | None => ret tt end) ;;;
  let* condition := expression until in
  test condition true ;;;
  jump start_label ;;;
  exit_block ;;;
  jump_target JumpLabel.Break ;;;
  exit_block.

(** The table a function is stored in, if any, and its name there *)
Fixpoint function_path (table : option descriptor) (name : IString) (fields : list IString)
  : M (option descriptor * IString) :=
  match fields with
  | [] => ret (table, name)
  | field :: fields =>
      let* table := (match table with
                     | Some table => ret (ExprDescriptor.TableField table (string_constant name))
                     | None => let* v := find_variable name in ret (ExprDescriptor.Variable_ v)
                     end) in
      function_path (Some table) field fields
  end.

Definition function_statement (name : IString) (fields : list IString) (method : option IString)
    (definition : FunctionDefinition IString) : M unit :=
  let '(mk_FunctionDefinition line parameters has_varargs body) := definition in
  let* (table, name) := function_path None name (fields ++ match method with Some m => [m] | None => [] end) in
  let* parameters := (match method with
                      | Some _ => let* self := intern bs# "self" in ret (self :: parameters)
                      | None => ret parameters
                      end) in
  let* proto := new_prototype (FunctionRef.Named name line) parameters has_varargs body in
  match table with
  | Some table => set_table_ table (string_constant name) (ExprDescriptor.Closure proto)
  | None =>
      let* v := find_variable name in
      match v with
      | VariableDescriptor.Local dest attrs =>
          if is_const attrs then throw CompileErrorKind.AssignToConst
          else
            expr_discharge (ExprDescriptor.Closure proto) (ExprDestination.Register dest) ;;; ret tt
      | VariableDescriptor.UpValue dest attrs =>
          if is_const attrs then throw CompileErrorKind.AssignToConst
          else
            let* source := expr_discharge (ExprDescriptor.Closure proto) ExprDestination.AllocateNew in
            emit (Operation.SetUpValue dest source) ;;;
            free source
      | VariableDescriptor.Global _ =>
          let* env := get_environment in
          set_table_ env (string_constant name) (ExprDescriptor.Closure proto)
      end
  end.

(** A value that no variable takes is computed and dropped. *)
Definition drop_value (expr : descriptor) : M unit :=
  let* reg := expr_discharge expr ExprDestination.AllocateNew in
  free reg.

Fixpoint local_values (names : list (IString * LocalAttributes)) (values : list (Expression IString)) : M unit :=
  match values with
  | [] => ret tt
  | value :: values =>
      let* expr := expression value in
      match names with
      | [] => drop_value expr ;;; local_values [] values
      | (name, attr) :: names' =>
          match values with
          | [] =>
              let* names_left := ok_or (checked u8 (Z.of_nat (length names))) CompileErrorKind.Registers in
              let* dest := push_count expr names_left in
              declare_all names dest 0
          | _ =>
              let* reg := expr_discharge expr ExprDestination.PushNew in
              declare name reg attr ;;;
              local_values names' values
          end
      end
  end.

Definition local_statement (names : list (IString * LocalAttributes)) (values : list (Expression IString)) : M unit :=
  let close_count := length (List.filter (fun n => is_close n.2) names) in
  if (1 <? close_count)%nat then throw CompileErrorKind.MultipleClose
  else if (close_count =? 1)%nat then throw CompileErrorKind.CloseUnsupported
  else
    match values with
    | [] =>
        let* count := ok_or (checked u8 (Z.of_nat (length names))) CompileErrorKind.Registers in
        let* dest := push_or count in
        emit (Operation.LoadNil dest count) ;;;
        declare_all names dest 0
    | _ => local_values names values
    end.

Definition function_call_statement (head : SuffixedExpression IString) (call : CallSuffix IString) : M unit :=
  let* head_expr := suffixed_expression head in
  match call with
  | CFunction args =>
      let* arg_exprs := collect expression args in
      let* returns := lift (VarCount.constant 0) in
      call_function head_expr arg_exprs (CallMode.Call returns) ;;; ret tt
  | CMethod method args =>
      let* arg_exprs := collect expression args in
      let* returns := lift (VarCount.constant 0) in
      call_method head_expr (string_constant method) arg_exprs (CallMode.Call returns) ;;; ret tt
  end.

Definition assign (target : AssignmentTarget IString) (expr : descriptor) : M unit :=
  match target with
  | TName name =>
      let* v := find_variable name in
      match v with
      | VariableDescriptor.Local dest attrs =>
          if is_const attrs then throw CompileErrorKind.AssignToConst
          else expr_discharge expr (ExprDestination.Register dest) ;;; ret tt
      | VariableDescriptor.UpValue dest attrs =>
          if is_const attrs then throw CompileErrorKind.AssignToConst
          else
            let* (source, source_is_temp) := any_register expr in
            emit (Operation.SetUpValue dest source) ;;;
            (if source_is_temp : bool then free source else ret tt)
      | VariableDescriptor.Global name =>
          let* env := get_environment in
          set_table_ env (string_constant name) expr
      end
  | TField table field =>
      let* table := suffixed_expression table in
      let* key := field_key field in
      set_table_ table key expr
  end.

Fixpoint drop_values (values : list (Expression IString)) : M unit :=
  match values with
  | [] => ret tt
  | value :: values =>
      let* expr := expression value in
      drop_value expr ;;;
      drop_values values
  end.

(** [(0..n).map(|j| RegisterIndex(base.0 + j))] *)
Fixpoint register_range (base : Z) (n : nat) : outcome (list RegisterIndex) :=
  match n with
  | O => Ok []
  | S n =>
      rs ← register_range base n;
      r ← arith u8 (base + Z.of_nat n);
      Ok (rs ++ [mk_RegisterIndex r])
  end.

(** The values of an assignment to several targets, [targets] of which are left *)
Fixpoint assignment_values (targets : nat) (values : list (Expression IString)) : M (list RegisterIndex) :=
  match values with
  | [] => ret []
  | value :: values =>
      let* expr := expression value in
      match targets with
      | O =>
          drop_value expr ;;;
          assignment_values O values
      | S targets' =>
          match values with
          | [] =>
              let* remaining := ok_or (checked u8 (Z.of_nat targets)) CompileErrorKind.Registers in
              let* results := push_count expr remaining in
              lift (register_range (register_index results) targets)
          | _ =>
              let* reg := expr_discharge expr ExprDestination.AllocateNew in
              let* registers := assignment_values targets' values in
              ret (reg :: registers)
          end
      end
  end.

(** [registers.zip(targets).rev()] *)
Fixpoint assign_registers (registers : list RegisterIndex) (targets : list (AssignmentTarget IString))
    {struct targets} : M unit :=
  match targets, registers with
  | target :: targets, reg :: registers =>
      assign_registers registers targets ;;;
      assign target (ExprDescriptor.Variable_ (VariableDescriptor.Local reg NONE)) ;;;
      free reg
  | _, _ => ret tt
  end.

Definition assignment_statement (targets : list (AssignmentTarget IString)) (values : list (Expression IString))
  : M unit :=
  match values with
  | [] => lift Panic
  | value :: rest =>
      match targets with
      | [target] =>
          let* expr := expression value in
          assign target expr ;;;
          drop_values rest
      | targets =>
          let* registers := assignment_values (length targets) values in
          assign_registers registers targets
      end
  end.

(** The variable is declared before the function is compiled, so that its body sees it. *)
Definition local_function_statement (name : IString) (definition : FunctionDefinition IString) : M unit :=
  let '(mk_FunctionDefinition line parameters has_varargs body) := definition in
  let* dest := push_or 1 in
  declare name dest NONE ;;;
  let* proto := new_prototype (FunctionRef.Named name line) parameters has_varargs body in
  emit (Operation.Closure dest proto).

Definition statement_body (s : Statement IString) : M unit :=
  match s with
  | SIf first parts else_part => if_statement first parts else_part
  | SWhile condition b => while_statement condition b
  | SDo b => block b
  | SFor f => for_statement f
  | SRepeat body until => repeat_statement body until
  | SFunction name fields method definition => function_statement name fields method definition
  | SLocalFunction name definition => local_function_statement name definition
  | SLocalStatement names values => local_statement names values
  | SLabel name => jump_target (JumpLabel.Named name)
  | SBreak => jump JumpLabel.Break
  | SGoto name => jump (JumpLabel.Named name)
  | SFunctionCall head call => function_call_statement head call
  | SAssignment targets values => assignment_statement targets values
  end.

(** ** Blocks *)

(** How many statements come before the labels that end the block *)
Fixpoint before_trailing_labels (l : list (LineAnnotated (Statement IString))) : nat :=
  match l with
  | [] => 0
  | s :: l =>
      match before_trailing_labels l, inner s with
      | O, SLabel _ => 0
      | n, _ => S n
      end
  end.

Definition block_statements_body (b : Block IString) : M unit :=
  let '(mk_Block stmts return_stmt closed_on) := b in
  (match return_stmt with
   | Some return_stmt =>
       statements 0 (length stmts) stmts ;;;
       modify (set_line_number (Ast.line_number return_stmt)) ;;;
       return_statement (inner return_stmt)
   | None =>
       let last := before_trailing_labels stmts in
       enter_block ;;;
       statements 0 last stmts ;;;
       exit_block ;;;
       statements last (length stmts - last) stmts
   end) ;;;
  modify (set_line_number closed_on).
End bodies.

(** ** The recursion on the tree *)
Fixpoint expression (e : Expression IString) {struct e} : M descriptor :=
  expression_body expression block_statements e
with block_statements (b : Block IString) {struct b} : M unit :=
  block_statements_body expression statement b
with statement (s : Statement IString) {struct s} : M unit :=
  statement_body expression block_statements statement s.

(** [compile_chunk] *)
Definition compile (chunk : Chunk IString) (create_string : InternerState)
  : outcome (CompiledPrototype IString + CompileError) :=
  f ← start FunctionRef.Chunk [] true;
  match f with
  | inr _ => Panic
  | inl f =>
      '(r, c) ← block block_statements (Ast.block chunk) (mk_compiler create_string f []);
      let line := current_line_number (current_function c) in
      match r with
      | inr e => Ok (inr (mk_CompileError e line))
      | inl _ =>
          p ← finish (current_function c);
          Ok (match p with inl p => inl p | inr e => inr (mk_CompileError e line) end)
      end
  end.
End Compile.

(** The code, and the code that stops before what is known to go wrong *)
Definition compile_chunk `{BuildProfile} `{FloatLib} `{StringInterner} :=
  let _ := {| guarded := false |} in compile.
Definition compile_guarded `{BuildProfile} `{FloatLib} `{StringInterner} :=
  let _ := {| guarded := true |} in compile.
End Compile.
