(* ===== verification/CompilerCode.v ===== *)
(** * Well-formed code

    What the machine needs of a compiled function: registers below the size of the stack,
    constants, upvalues and prototypes that exist, operands that fit their fields, and every
    place an instruction can go on to inside the code. *)

From S2P Require Import Prelude Float64 Lexer Opcode Constant Operators Parser RegisterAllocator CompilerState.

(** ** The tables an instruction refers to *)
Record sizes : Type := mk_sizes {
  s_registers : Z;
  s_constants : Z;
  s_upvalues : Z;
  s_prototypes : Z
}.
Definition sizes_le (a b : sizes) : Prop :=
  s_registers a <= s_registers b /\ s_constants a <= s_constants b /\
  s_upvalues a <= s_upvalues b /\ s_prototypes a <= s_prototypes b.

#[export] Instance sizes_le_preorder : PreOrder sizes_le.
Proof. split; [intros a|intros a b c]; unfold sizes_le; lia. Qed.

(** ** Operands *)
Definition reg_ok (s : sizes) (r : RegisterIndex) : Prop := 0 <= register_index r < s_registers s.
Definition rc_ok (s : sizes) (rc : RCIndex) : Prop :=
  match rc with
  | RCIndex.Register r => reg_ok s r
  | RCIndex.Constant c => in_int u8 (constant_index8 c) /\ constant_index8 c < s_constants s
  end.
Definition upvalue_ok (s : sizes) (u : UpValueIndex) : Prop :=
  in_int u8 (upvalue_index u) /\ upvalue_index u < s_upvalues s.
Definition prototype_ok (s : sizes) (p : PrototypeIndex) : Prop :=
  in_int u8 (prototype_index p) /\ prototype_index p < s_prototypes s.
Definition block_ok (s : sizes) (r n : Z) : Prop := 0 <= r /\ 0 <= n /\ r + n <= s_registers s.
(** A counted list of values in the registers from [r] on *)
Definition list_ok (s : sizes) (r : Z) (c : VarCount) : Prop :=
  VarCount.wf c /\ block_ok s r (default 0 (VarCount.to_constant c)).

(** The machine negates the offset of a jump back. *)
Definition offset_ok (offset : Z) : Prop := in_int i16 offset /\ in_int i16 (- offset).

Lemma offset_0_ok : offset_ok 0.
Proof. unfold offset_ok. int_lia. Qed.

Definition op_ok (s : sizes) (op : Operation.t) : Prop :=
  match op with
  | Operation.Move d r | Operation.Length d r | Operation.Not d r | Operation.Minus d r
  | Operation.BitNot d r => reg_ok s d /\ reg_ok s r
  | Operation.LoadConstant d c =>
      reg_ok s d /\ in_int u16 (constant_index16 c) /\ constant_index16 c < s_constants s
  | Operation.LoadBool d _ _ => reg_ok s d
  | Operation.LoadNil d n => in_int u8 n /\ block_ok s (register_index d) n
  | Operation.NewTable d a m => reg_ok s d /\ in_int u8 a /\ in_int u8 m
  | Operation.GetTable d t k => reg_ok s d /\ reg_ok s t /\ rc_ok s k
  | Operation.SetTable t k v => reg_ok s t /\ rc_ok s k /\ rc_ok s v
  | Operation.GetUpTable d t k => reg_ok s d /\ upvalue_ok s t /\ rc_ok s k
  | Operation.SetUpTable t k v => upvalue_ok s t /\ rc_ok s k /\ rc_ok s v
  | Operation.SetList b n => reg_ok s b /\ list_ok s (register_index b + 2) n
  | Operation.Call f a r => reg_ok s f /\ list_ok s (register_index f + 1) a /\ VarCount.wf r
  | Operation.TailCall f a => reg_ok s f /\ list_ok s (register_index f + 1) a
  | Operation.Return r n => list_ok s (register_index r) n
  | Operation.VarArgs r n => list_ok s (register_index r) n
  | Operation.Jump offset close => offset_ok offset /\ Opt254.wf close
  | Operation.Test r _ => reg_ok s r
  | Operation.TestSet d r _ => reg_ok s d /\ reg_ok s r
  | Operation.Closure d p => reg_ok s d /\ prototype_ok s p
  | Operation.NumericForPrep b jump => offset_ok jump /\ block_ok s (register_index b) 3
  | Operation.NumericForLoop b jump => offset_ok jump /\ block_ok s (register_index b) 4
  | Operation.GenericForCall b n => in_int u8 n /\ 0 < n /\ block_ok s (register_index b) (3 + n)
  | Operation.GenericForLoop b jump => offset_ok jump /\ block_ok s (register_index b) 2
  | Operation.Method b t k => block_ok s (register_index b) 2 /\ reg_ok s t /\ rc_ok s k
  | Operation.Concat d r n => reg_ok s d /\ in_int u8 n /\ 0 < n /\ block_ok s (register_index r) n
  | Operation.GetUpValue d u => reg_ok s d /\ upvalue_ok s u
  | Operation.SetUpValue u r => upvalue_ok s u /\ reg_ok s r
  | Operation.Eq _ l r | Operation.Less _ l r | Operation.LessEq _ l r => rc_ok s l /\ rc_ok s r
  | Operation.Add d l r | Operation.Sub d l r | Operation.Mul d l r | Operation.Div d l r
  | Operation.IDiv d l r | Operation.Mod d l r | Operation.Pow d l r | Operation.BitAnd d l r
  | Operation.BitOr d l r | Operation.BitXor d l r | Operation.ShiftLeft d l r
  | Operation.ShiftRight d l r => reg_ok s d /\ rc_ok s l /\ rc_ok s r
  end.

(** ** Where control can go

    The next instruction aside: the target of a jump, and the instruction after the next one
    for what may skip. *)
Definition op_target (i : Z) (op : Operation.t) : Z :=
  match op with
  | Operation.Jump offset _ => i + 1 + offset
  | Operation.NumericForPrep _ jump | Operation.NumericForLoop _ jump
  | Operation.GenericForLoop _ jump => i + 1 + jump
  | Operation.Test _ _ | Operation.TestSet _ _ _ | Operation.Eq _ _ _ | Operation.Less _ _ _
  | Operation.LessEq _ _ _ => i + 2
  | Operation.LoadBool _ _ true => i + 2
  | Operation.Return _ _ => i
  | _ => i + 1
  end.

(** Every instruction stays within the code, the code being [k] instructions longer. *)
Definition code_ok (k : Z) (ops : list Operation.t) : Prop :=
  forall i op, ops !! i = Some op -> 0 <= op_target (Z.of_nat i) op <= Z.of_nat (length ops) + k.

(** ** Upvalues and prototypes *)

(** What a function's upvalue may stand for in the function around it *)
Definition capture_ok (s : sizes) (d : UpValueDescriptor) : Prop :=
  match d with
  | Environment => False
  | ParentLocal r => reg_ok s r
  | Outer u => upvalue_ok s u
  end.

Definition prototype_sizes {S} (p : CompiledPrototype S) : sizes :=
  mk_sizes (stack_size p) (Z.of_nat (length (constants p))) (Z.of_nat (length (upvalues p)))
    (Z.of_nat (length (prototypes p))).

(** A prototype and, recursively, those of the functions inside it *)
Fixpoint prototype_wf {S} (p : CompiledPrototype S) : Prop :=
  let ops := map OpCode.decode (opcodes p) in
  0 <= fixed_params p <= stack_size p /\ stack_size p <= 256 /\
  Forall (op_ok (prototype_sizes p)) ops /\ code_ok (-1) (ops) /\
  last ops = Some (Operation.Return (mk_RegisterIndex 0) (VarCount.VarCount (Opt254.Opt254 0))) /\
  foldr (fun c P => (prototype_wf c /\ Forall (capture_ok (prototype_sizes p)) (upvalues c)) /\ P) True
    (prototypes p).

Definition inner_wf {S} (s : sizes) (c : CompiledPrototype S) : Prop :=
  prototype_wf c /\ Forall (capture_ok s) (upvalues c).

(** ** Facts *)

Lemma reg_ok_le s s' r : sizes_le s s' -> reg_ok s r -> reg_ok s' r.
Proof. unfold sizes_le, reg_ok. lia. Qed.
Lemma rc_ok_le s s' r : sizes_le s s' -> rc_ok s r -> rc_ok s' r.
Proof. destruct r; cbn; unfold sizes_le, reg_ok; [lia|]. intros ? [? ?]. split; [done|lia]. Qed.
Lemma upvalue_ok_le s s' r : sizes_le s s' -> upvalue_ok s r -> upvalue_ok s' r.
Proof. unfold sizes_le, upvalue_ok. intros ? [? ?]. split; [done|lia]. Qed.
Lemma prototype_ok_le s s' r : sizes_le s s' -> prototype_ok s r -> prototype_ok s' r.
Proof. unfold sizes_le, prototype_ok. intros ? [? ?]. split; [done|lia]. Qed.
Lemma block_ok_le s s' r n : sizes_le s s' -> block_ok s r n -> block_ok s' r n.
Proof. unfold sizes_le, block_ok. lia. Qed.
Lemma list_ok_le s s' r n : sizes_le s s' -> list_ok s r n -> list_ok s' r n.
Proof. intros Hs [? ?]. split; [done|]. by eapply block_ok_le. Qed.
Lemma capture_ok_le s s' d : sizes_le s s' -> capture_ok s d -> capture_ok s' d.
Proof. destruct d; cbn; eauto using reg_ok_le, upvalue_ok_le. Qed.
Lemma inner_wf_le {S} s s' (c : CompiledPrototype S) : sizes_le s s' -> inner_wf s c -> inner_wf s' c.
Proof.
  intros Hs [? Hc]. split; [done|]. eapply Forall_impl; [exact Hc|]. intros. by eapply capture_ok_le.
Qed.

Create HintDb code.
#[export] Hint Resolve reg_ok_le rc_ok_le upvalue_ok_le prototype_ok_le block_ok_le list_ok_le
  capture_ok_le inner_wf_le : code.

Lemma op_ok_le s s' op : sizes_le s s' -> op_ok s op -> op_ok s' op.
Proof.
  intros Hs. destruct op; cbn; intros Hop; destruct_and?; split_and?; eauto with code.
  all: unfold sizes_le in *; lia.
Qed.

Lemma code_ok_nil k : code_ok k [].
Proof. intros i op Hop. by rewrite lookup_nil in Hop. Qed.

Lemma code_ok_weaken k k' ops : k <= k' -> code_ok k ops -> code_ok k' ops.
Proof. intros Hk Hc i op Hop. specialize (Hc i op Hop). lia. Qed.

Lemma code_ok_snoc k k' ops op : code_ok k ops -> k <= k' + 1 ->
  0 <= op_target (Z.of_nat (length ops)) op <= Z.of_nat (length ops) + 1 + k' ->
  code_ok k' (ops ++ [op]).
Proof.
  intros Hc Hk Hop i op' Hi. rewrite length_app. cbn. rewrite lookup_app in Hi.
  destruct (ops !! i) as [o|] eqn:E.
  - injection Hi as <-. specialize (Hc i o E). lia.
  - apply lookup_ge_None in E. destruct (i - length ops)%nat as [|n] eqn:En; [|done].
    injection Hi as <-. replace i with (length ops) by lia. lia.
Qed.

Lemma code_ok_insert k ops i op : code_ok k ops ->
  0 <= op_target (Z.of_nat i) op <= Z.of_nat (length ops) + k -> code_ok k (<[i := op]> ops).
Proof.
  intros Hc Hop j op' Hj. rewrite length_insert. destruct (decide (i = j)) as [->|Hne].
  - destruct (decide (j < length ops)%nat) as [Hl|Hl].
    + rewrite list_lookup_insert_eq in Hj by done. by injection Hj as <-.
    + rewrite list_insert_ge in Hj by lia. by apply Hc.
  - rewrite list_lookup_insert_ne in Hj by done. by apply Hc.
Qed.

Lemma decode_encode op : OpCode.decode (OpCode.encode op) = op.
Proof. destruct op; cbn; repeat case_match; done. Qed.

Lemma map_decode_encode ops : map OpCode.decode (map OpCode.encode ops) = ops.
Proof. rewrite map_map. erewrite map_ext; [apply map_id|]. apply decode_encode. Qed.

Lemma inner_wf_all {S} s (ps : list (CompiledPrototype S)) :
  foldr (fun c P => (prototype_wf c /\ Forall (capture_ok s) (upvalues c)) /\ P) True ps <->
  Forall (inner_wf s) ps.
Proof. induction ps as [|p ps IH]; cbn; [done|]. by rewrite Forall_cons, IH. Qed.

Lemma prototype_wf_intro {S} (p : CompiledPrototype S) ops :
  map OpCode.decode (opcodes p) = ops ->
  0 <= fixed_params p <= stack_size p -> stack_size p <= 256 ->
  Forall (op_ok (prototype_sizes p)) ops -> code_ok (-1) ops ->
  last ops = Some (Operation.Return (mk_RegisterIndex 0) (VarCount.VarCount (Opt254.Opt254 0))) ->
  Forall (inner_wf (prototype_sizes p)) (prototypes p) -> prototype_wf p.
Proof. intros <-. destruct p. cbn. intros. split_and!; try done; try lia. by apply inner_wf_all. Qed.
