(* ===== verification/CompilerFacts.v ===== *)
(** * The compiler's invariant

    The state of the compiler between two operations: what holds of a function being compiled
    ([core], [scope]), of the functions around it ([chain]), and what an operation may change
    ([fext], [up_ext], [quiet]); with the effect of every operation on registers, constants
    and variables.  All of it is about the guarded compiler. *)

From stdpp Require Import sorting.
From S2P Require Import Prelude Float64 Lexer Opcode Constant Operators Parser RegisterAllocator CompilerState CompilerCode.
Import Ast Compiler.

Definition checking : Guards := {| guarded := true |}.

(** ** Lists *)
Lemma Forall2_refl {A} (R : A -> A -> Prop) `{!Reflexive R} l : Forall2 R l l.
Proof. by induction l; constructor. Qed.

Module CompilerFacts.
Section CompilerFacts.
Context `{BuildProfile} `{FloatLib} `{StringInterner}.
#[local] Existing Instance checking.
Abbreviation function := (CompilerFunction IString).
Implicit Types (f : function) (c : compiler) (b k : Z).

(** ** Weakest preconditions *)

(** The operation does not panic, and if it returns, [Q] holds of what it returns. *)
Definition wp {A} (m : M A) c (Q : A -> compiler -> Prop) : Prop :=
  match m c with
  | Ok (inl a, c') => Q a c'
  | Ok (inr _, _) => True
  | Panic => False
  end.

Lemma cwp_ret {A} (a : A) c Q : Q a c -> wp (ret a) c Q.
Proof. done. Qed.
Lemma cwp_throw {A} e c (Q : A -> compiler -> Prop) : wp (throw e) c Q.
Proof. done. Qed.
Lemma cwp_bind {A B} (m : M A) (g : A -> M B) c P Q :
  wp m c P -> (forall a c', P a c' -> wp (g a) c' Q) -> wp (bind m g) c Q.
Proof.
  unfold wp, bind. destruct (m c) as [[[a|e] c']|]; cbn; [|done..].
  intros HP HQ. apply (HQ a c' HP).
Qed.
Lemma wp_seq {A B} (m : M A) (g : A -> M B) c Q :
  wp m c (fun a c' => wp (g a) c' Q) -> wp (bind m g) c Q.
Proof. intros Hm. eapply cwp_bind; [exact Hm|]. done. Qed.
Lemma cwp_mono {A} (m : M A) c (P Q : A -> compiler -> Prop) :
  wp m c P -> (forall a c', P a c' -> Q a c') -> wp m c Q.
Proof. unfold wp. destruct (m c) as [[[a|e] c']|]; cbn; auto. Qed.
Lemma wp_read {A B} (m : M A) (g : A -> M B) a c Q :
  m c = Ok (inl a, c) -> wp (g a) c Q -> wp (bind m g) c Q.
Proof. unfold wp, bind. by intros ->. Qed.
Lemma wp_lift {A} (o : outcome A) a c Q : o = Ok a -> Q a c -> wp (lift o) c Q.
Proof. by intros ->. Qed.
Lemma cwp_ok_or {A} (o : option A) e c (Q : A -> compiler -> Prop) :
  (forall a, o = Some a -> Q a c) -> wp (ok_or o e) c Q.
Proof. destruct o; [|done]. intros HQ. by apply HQ. Qed.
Lemma wp_current c (Q : function -> compiler -> Prop) : Q (current_function c) c -> wp current c Q.
Proof. done. Qed.
Lemma wp_assert (p : bool) c (Q : unit -> compiler -> Prop) : p = true -> Q tt c -> wp (rust_assert p) c Q.
Proof. by intros ->. Qed.
Lemma wp_guard (p : bool) c (Q : unit -> compiler -> Prop) : (p = true -> Q tt c) -> wp (guard p) c Q.
Proof. destruct p; [|done]. intros HQ. by apply HQ. Qed.

(** ** What holds of one function *)
Definition fsizes f : sizes :=
  mk_sizes (RegisterAllocator.stack_size (register_allocator f)) (Z.of_nat (length (f_constants f)))
    (Z.of_nat (length (f_upvalues f))) (Z.of_nat (length (functions f))).
Definition freg f (j : Z) : bool := RegisterAllocator.registers (register_allocator f) j.
Definition ftop f : Z := RegisterAllocator.stack_top (register_allocator f).

(** The registers below [b] hold the variables in scope, and the code may be short of [k]
    instructions. *)
Record core b k f : Prop := {
  core_wf : RegisterAllocator.wf (register_allocator f);
  core_bound : 0 <= b <= 255;
  core_used : forall j, 0 <= j < b -> freg f j = true;
  core_ops : Forall (op_ok (fsizes f)) (operations f);
  core_code : code_ok k (operations f);
  core_locals : Forall (fun l => 0 <= register_index l.1.2 < b) (locals f);
  core_constants : Forall (fun e => in_int u16 (constant_index16 e.2) /\
    constant_index16 e.2 < s_constants (fsizes f)) (constant_table f);
  core_functions : Forall (inner_wf (fsizes f)) (functions f);
  core_params : 0 <= f_fixed_params f <= s_registers (fsizes f)
}.

Definition is_unique (l : JumpLabel.t IString) : Prop := exists id, l = JumpLabel.Unique id.
Definition placeholder (op : Operation.t) : Prop :=
  exists close, op = Operation.Jump 0 close /\ Opt254.is_none close = true.

(** The newest block is the last; [outer_bottom n] is the first register of block [n]. *)
Definition bottom_of f (n : nat) : option Z := stack_bottom <$> rev (blocks f) !! n.

Record target_ok b f (t : JumpTarget IString) : Prop := {
  to_block : (target_block t < length (blocks f))%nat;
  to_instruction : (instruction t <= length (operations f))%nat;
  to_id : forall id, label t = JumpLabel.Unique id -> id < unique_jump_id f;
  to_top : is_unique (label t) \/ target_top t <= b
}.

Record pending_ok f (p : PendingJump IString) : Prop := {
  po_bottom : exists z, bottom_of f (jump_block p) = Some z /\ z <= jump_top p;
  po_placeholder : exists op, operations f !! jump_instruction p = Some op /\ placeholder op;
  po_id : forall id, target p = JumpLabel.Unique id -> id < unique_jump_id f
}.

Record scope b f : Prop := {
  scope_bottoms : StronglySorted (fun x y => stack_bottom y <= stack_bottom x) (blocks f);
  scope_bottom : Forall (fun x => 0 <= stack_bottom x <= b) (blocks f);
  scope_targets : Forall (target_ok b f) (jump_targets f);
  scope_pending : Forall (pending_ok f) (pending_jumps f);
  scope_sorted : StronglySorted (fun p q => (jump_block q <= jump_block p)%nat) (pending_jumps f);
  scope_nodup : NoDup (map jump_instruction (pending_jumps f))
}.

(** ** What holds between a function and the one around it *)

(** A chunk captures its environment, once, or nothing. *)
Definition only_environment (us : list (IString * UpValueDescriptor)) : Prop :=
  Forall (fun u => u.2 = Environment /\ as_ref u.1 = bs# "_ENV") us /\ (length us <= 1)%nat.
Lemma only_environment_nil : only_environment [].
Proof. by split; [constructor|cbn; lia]. Qed.

Fixpoint chain (fs : list function) : Prop :=
  match fs with
  | [] => True
  | f :: rest =>
      match rest with
      | [] => only_environment (f_upvalues f)
      | parent :: _ => Forall (fun u => capture_ok (fsizes parent) u.2) (f_upvalues f)
      end /\ chain rest
  end.

Record inv b k c : Prop := {
  inv_core : core b k (current_function c);
  inv_scope : scope b (current_function c);
  inv_upper : Forall (fun f => exists b, core b 0 f) (upper_functions c);
  inv_chain : chain (current_function c :: upper_functions c)
}.
Definition entered c : Prop := blocks (current_function c) <> [].
Definition st b k c : Prop := inv b k c /\ entered c.

(** ** What an operation may change *)
Definition same_block (x y : BlockDescriptor) : Prop :=
  stack_bottom y = stack_bottom x /\ bottom_jump_target y = bottom_jump_target x.
Definition is_jump (op : Operation.t) : Prop := match op with Operation.Jump _ _ => True | _ => False end.
Definition ops_frame (ops ops' : list Operation.t) : Prop :=
  (length ops <= length ops')%nat /\
  forall i op, ops !! i = Some op -> ~ is_jump op -> ops' !! i = Some op.
Definition new_target (id : Z) (t : JumpTarget IString) : Prop :=
  forall i, label t = JumpLabel.Unique i -> id <= i.

(** The labels made for a purpose of the compiler's own, from [id] on, may be targets now. *)
Record fext_since id f f' : Prop := {
  fx_reference : f_reference f' = f_reference f;
  fx_parameters : f_parameters f' = f_parameters f;
  fx_varargs : f_has_varargs f' = f_has_varargs f;
  fx_params : f_fixed_params f' = f_fixed_params f;
  fx_blocks : Forall2 same_block (blocks f) (blocks f');
  fx_id : unique_jump_id f <= unique_jump_id f';
  fx_targets : exists ts, jump_targets f' = ts ++ jump_targets f /\ Forall (new_target id) ts;
  fx_ops : ops_frame (operations f) (operations f');
  fx_sizes : sizes_le (fsizes f) (fsizes f')
}.

Definition fext f f' : Prop := fext_since (unique_jump_id f) f f'.

(** A function around the current one gains upvalues and owners. *)
Definition up_ext f f' : Prop :=
  exists us bs, f' = set_upvalues us (set_blocks bs f) /\ (length (f_upvalues f) <= length us)%nat /\
    Forall2 same_block (blocks f) bs.

Definition cext_since id c c' : Prop :=
  fext_since id (current_function c) (current_function c') /\
  Forall2 up_ext (upper_functions c) (upper_functions c').
Definition cext c c' : Prop := cext_since (unique_jump_id (current_function c)) c c'.

(** Between statements besides: no variable and no pending jump is new. *)
Definition quiet_since id c c' : Prop :=
  cext_since id c c' /\ locals (current_function c') = locals (current_function c) /\
  pending_jumps (current_function c') = pending_jumps (current_function c).

Definition quiet c c' : Prop := quiet_since (unique_jump_id (current_function c)) c c'.

#[export] Instance same_block_preorder : PreOrder same_block.
Proof. split; [by intros []|]. intros x y z [? ?] [? ?]. split; congruence. Qed.
#[export] Instance ops_frame_preorder : PreOrder ops_frame.
Proof.
  split; [by intros ops|]. intros x y z [? Hxy] [? Hyz]. split; [lia|]. eauto.
Qed.
#[export] Instance fext_since_preorder id : PreOrder (fext_since id).
Proof.
  split.
  - intros f. split; try done. by exists [].
  - intros f g h [? ? ? ? ? ? (ts & E & Hts) ? ?] [? ? ? ? ? ? (ts' & E' & Hts') ? ?].
    split; try congruence; try lia; try by etrans.
    exists (ts' ++ ts). rewrite E', E, app_assoc. split; [done|]. by apply Forall_app.
Qed.
Lemma fext_since_le id id' f f' : id' <= id -> fext_since id f f' -> fext_since id' f f'.
Proof.
  intros Hid [? ? ? ? ? ? (ts & E & Hts) ? ?]. split; try done. exists ts. split; [done|].
  eapply Forall_impl; [exact Hts|]. intros t Ht i Hi. specialize (Ht i Hi). lia.
Qed.
#[export] Instance fext_preorder : PreOrder fext.
Proof.
  split; [intros f; apply fext_since_preorder|]. intros f g h Hfg Hgh.
  eapply (fext_since_preorder _); [exact Hfg|]. eapply fext_since_le; [|exact Hgh].
  apply (fx_id _ _ _ Hfg).
Qed.
Lemma up_ext_refl f : up_ext f f.
Proof. exists (f_upvalues f), (blocks f). split; [by destruct f|]. split; [done|]. apply Forall2_refl, _. Qed.
#[export] Instance up_ext_preorder : PreOrder up_ext.
Proof.
  split; [exact up_ext_refl|].
  intros f g h (us & bs & -> & ? & ?) (us' & bs' & -> & ? & Hb). cbn in *. exists us', bs'.
  split; [done|]. split; [lia|]. by etrans.
Qed.
#[export] Instance cext_since_preorder id : PreOrder (cext_since id).
Proof.
  split; [intros c; split; [done|by apply Forall2_refl, _]|].
  intros x y z [? ?] [? ?]. split; by etrans.
Qed.
Lemma cext_since_le id id' c c' : id' <= id -> cext_since id c c' -> cext_since id' c c'.
Proof. intros Hid [? ?]. split; [by eapply fext_since_le|done]. Qed.
#[export] Instance cext_preorder : PreOrder cext.
Proof.
  split; [intros c; apply cext_since_preorder|]. intros x y z [? ?] [? ?]. split; [|by etrans].
  change (fext (current_function x) (current_function z)). by etrans.
Qed.
#[export] Instance quiet_since_preorder id : PreOrder (quiet_since id).
Proof.
  split; [by intros c|]. intros x y z (? & ? & ?) (? & ? & ?). split_and!; [by etrans|congruence..].
Qed.
#[export] Instance quiet_preorder : PreOrder quiet.
Proof.
  split; [by intros c|]. intros x y z (? & ? & ?) (? & ? & ?).
  split_and!; [|congruence..]. change (cext x z). by etrans.
Qed.
Lemma quiet_since_le id id' c c' : id' <= id -> quiet_since id c c' -> quiet_since id' c c'.
Proof. intros Hid (? & ? & ?). split_and!; [by eapply cext_since_le|done..]. Qed.

Lemma up_ext_fext f f' : up_ext f f' -> fext f f'.
Proof.
  intros (us & bs & -> & Hus & Hbs). split; cbn; try done; try lia.
  - by exists [].
  - unfold sizes_le. cbn. lia.
Qed.

(** ** Preservation *)

Lemma up_ext_sizes f f' : up_ext f f' -> sizes_le (fsizes f) (fsizes f').
Proof. intros Hu. apply (fx_sizes _ _ _ (up_ext_fext _ _ Hu)). Qed.

Lemma core_mono b k f f' : core b k f ->
  RegisterAllocator.wf (register_allocator f') -> (forall j, 0 <= j < b -> freg f' j = true) ->
  sizes_le (fsizes f) (fsizes f') ->
  operations f' = operations f -> locals f' = locals f -> constant_table f' = constant_table f ->
  functions f' = functions f -> f_fixed_params f' = f_fixed_params f -> core b k f'.
Proof.
  intros [Hwf Hb Hu Hops Hcode Hl Hc Hf Hp] Hwf' Hu' Hs Eops El Ec Ef Ep. split; try done.
  - rewrite Eops. eapply Forall_impl; [exact Hops|]. intros. by eapply op_ok_le.
  - by rewrite Eops.
  - by rewrite El.
  - rewrite Ec. eapply Forall_impl; [exact Hc|]. intros e [? ?]. split; [done|].
    unfold sizes_le in Hs. lia.
  - rewrite Ef. eapply Forall_impl; [exact Hf|]. intros. by eapply inner_wf_le.
  - rewrite Ep. unfold sizes_le in Hs. lia.
Qed.

Lemma core_up_ext b k f f' : core b k f -> up_ext f f' -> core b k f'.
Proof.
  intros Hc Hu. pose proof (up_ext_sizes _ _ Hu) as Hs. destruct Hu as (us & bs & -> & ? & ?).
  eapply core_mono; try done; apply Hc.
Qed.

Lemma blocks_bottoms f f' : Forall2 same_block (blocks f) (blocks f') ->
  forall n, bottom_of f' n = bottom_of f n.
Proof.
  intros Hb n. unfold bottom_of.
  assert (E : map stack_bottom (blocks f') = map stack_bottom (blocks f)).
  { induction Hb as [|x y l l' [E _] _ IH]; cbn; congruence. }
  rewrite <- !list_lookup_fmap. f_equal. change (fmap stack_bottom) with (map stack_bottom).
  by rewrite !map_rev, E.
Qed.

Lemma scope_mono b f f' : scope b f -> Forall2 same_block (blocks f) (blocks f') ->
  jump_targets f' = jump_targets f -> pending_jumps f' = pending_jumps f ->
  unique_jump_id f <= unique_jump_id f' ->
  (forall p, p ∈ pending_jumps f -> operations f' !! jump_instruction p = operations f !! jump_instruction p) ->
  (length (operations f) <= length (operations f'))%nat -> scope b f'.
Proof.
  intros [Hs Hb Ht Hp Hso Hnd] Hbs Et Ep Hid Hops Hlen.
  pose proof (blocks_bottoms _ _ Hbs) as Hbot.
  pose proof (Forall2_length _ _ _ Hbs) as Elen. split.
  - clear -Hs Hbs. revert Hs. induction Hbs as [|x y l l' [Exy _] Hl IH]; intros Hs; [constructor|].
    apply StronglySorted_inv in Hs as [Hs Hx]. constructor; [by apply IH|]. rewrite Exy.
    clear -Hl Hx. induction Hl as [|u v l l' [E _] _ IH]; [constructor|].
    apply Forall_cons in Hx as [? ?]. constructor; [by rewrite E|by apply IH].
  - clear -Hb Hbs. induction Hbs as [|x y l l' [E _] _ IH]; [constructor|].
    apply Forall_cons in Hb as [? ?]. constructor; [by rewrite E|by apply IH].
  - rewrite Et. eapply Forall_impl; [exact Ht|]. intros t [? ? Hti ?].
    split; [lia|lia| |done]. intros i Hi. specialize (Hti i Hi). lia.
  - rewrite Ep. apply Forall_forall. intros p Hin.
    destruct (proj1 (Forall_forall _ _) Hp p Hin) as [Hpb Hpp Hpi]. split.
    + by rewrite Hbot.
    + by rewrite Hops.
    + intros i Hi. specialize (Hpi i Hi). lia.
  - by rewrite Ep.
  - by rewrite Ep.
Qed.

Lemma scope_up_ext b f f' : scope b f -> up_ext f f' -> scope b f'.
Proof.
  intros Hs (us & bs & -> & ? & ?). by eapply scope_mono.
Qed.

Lemma chain_up_ext fs fs' : Forall2 up_ext fs fs' -> chain fs ->
  Forall2 (fun f f' => f_upvalues f' = f_upvalues f) fs fs' -> chain fs'.
Proof.
  induction 1 as [|f f' fs fs' Hf Hfs IH]; [done|]. intros [Hc Hcs] Hu.
  apply Forall2_cons in Hu as [Eu Hus]. split; [|by apply IH].
  destruct Hfs as [|p p' fs fs' Hp _]; rewrite Eu; [done|].
  eapply Forall_impl; [exact Hc|]. intros u. apply capture_ok_le. by apply up_ext_sizes.
Qed.

(** The current function changes, its upvalues aside. *)
Lemma inv_current b k b' k' c f : inv b k c -> core b' k' f -> scope b' f ->
  f_upvalues f = f_upvalues (current_function c) ->
  inv b' k' (mk_compiler (string_interner c) f (upper_functions c)).
Proof.
  intros [_ _ Hu Hch] Hf Hs E. split; cbn; try done. cbn in Hch.
  rewrite E. exact Hch.
Qed.

Lemma st_weaken b k k' c : k <= k' -> st b k c -> st b k' c.
Proof.
  intros Hk [[[] ? ? ?] ?]. split; [|done]. split; try done. split; try done.
  by eapply code_ok_weaken.
Qed.

Lemma quiet_entered id c c' : quiet_since id c c' -> entered c -> entered c'.
Proof.
  intros [[Hf _] _]. unfold entered. pose proof (fx_blocks _ _ _ Hf) as Hb. by destruct Hb.
Qed.
Lemma cext_entered id c c' : cext_since id c c' -> entered c -> entered c'.
Proof.
  intros [Hf _]. unfold entered. pose proof (fx_blocks _ _ _ Hf) as Hb. by destruct Hb.
Qed.
End CompilerFacts.
End CompilerFacts.
