(* ===== verification/CompilerSteps.v ===== *)
(** * Instructions, registers, constants and variables

    What the operations that every expression is made of do to the compiler's state. *)

From stdpp Require Import sorting.
From S2P Require Import Prelude Float64 Lexer Opcode Constant Operators Parser RegisterAllocator CompilerState CompilerCode CompilerFacts.
Import Ast Compiler CompilerFacts.

Module CompilerSteps.
Section CompilerSteps.
Context `{BuildProfile} `{FloatLib} `{StringInterner}.
#[local] Existing Instance checking.
Abbreviation function := (CompilerFunction IString).
Implicit Types (f : function) (c : compiler) (b k : Z).

Definition regs c (j : Z) : bool := freg (current_function c) j.
Definition top c : Z := ftop (current_function c).
Definition csizes c : sizes := fsizes (current_function c).
Definition same_regs c c' : Prop := forall j, regs c' j = regs c j.

(** A step of an expression: the invariant holds after it, no variable is new. *)
Definition step b k c c' : Prop := st b k c' /\ quiet c c'.

Lemma step_trans b k' c c' c'' : quiet c c' -> step b k' c' c'' -> step b k' c c''.
Proof. intros Hq [? ?]. split; [done|by etrans]. Qed.

Lemma step_step b k b' k' c c' c'' : step b k c c' -> step b' k' c' c'' -> step b' k' c c''.
Proof. intros [_ Hq]. by apply step_trans. Qed.

Lemma quiet_sizes c c' : quiet c c' -> sizes_le (csizes c) (csizes c').
Proof. intros [[Hf _] _]. apply (fx_sizes _ _ _ Hf). Qed.
Lemma step_sizes b k c c' : step b k c c' -> sizes_le (csizes c) (csizes c').
Proof. intros [_ Hq]. by apply quiet_sizes. Qed.

(** ** The registers in use *)
Lemma regs_range b k c j : st b k c -> regs c j = true -> 0 <= j < top c.
Proof. intros [[[Hwf] _ _ _] _] Hj. by apply RegisterAllocator.wf_used_range. Qed.

Lemma top_bound b k c : st b k c -> b <= top c <= 256.
Proof.
  intros [[Hc _ _ _] _]. pose proof (RegisterAllocator.wf_top _ (core_wf _ _ _ Hc)).
  fold (ftop (current_function c)) in *. fold (top c) in *. split; [|lia].
  pose proof (core_bound _ _ _ Hc). destruct (decide (b = 0)) as [->|]; [lia|].
  pose proof (RegisterAllocator.wf_used_range _ (b - 1) (core_wf _ _ _ Hc)
    (core_used _ _ _ Hc (b - 1) ltac:(lia))) as Hr. fold (ftop (current_function c)) in Hr.
  fold (top c) in Hr. lia.
Qed.

Lemma top_sizes b k c : st b k c -> top c <= s_registers (csizes c) <= 256.
Proof.
  intros [[Hc _ _ _] _]. apply (RegisterAllocator.wf_size _ (core_wf _ _ _ Hc)).
Qed.

Lemma regs_reg_ok b k c j : st b k c -> regs c j = true -> reg_ok (csizes c) (mk_RegisterIndex j).
Proof.
  intros Hst Hj. pose proof (regs_range _ _ _ _ Hst Hj). pose proof (top_sizes _ _ _ Hst).
  unfold reg_ok. cbn [register_index]. lia.
Qed.

(** The top is determined by the registers in use. *)
Lemma top_unique b k c n : st b k c -> 0 <= n -> (forall j, regs c j = true -> j < n) ->
  (0 < n -> regs c (n - 1) = true) -> top c = n.
Proof.
  intros [[Hc _ _ _] _] Hn Hlt Hlast. pose proof (core_wf _ _ _ Hc) as Hwf.
  destruct (Z.lt_trichotomy (top c) n) as [Hc'|[|Hc']]; [|done|].
  - pose proof (RegisterAllocator.wf_top _ Hwf). unfold top, ftop in *.
    assert (0 < n) as Hpos by lia. specialize (Hlast Hpos).
    pose proof (RegisterAllocator.wf_used_range _ (n - 1) Hwf Hlast). lia.
  - pose proof (RegisterAllocator.wf_top _ Hwf). unfold top, ftop in *.
    specialize (Hlt _ (RegisterAllocator.wf_last _ Hwf ltac:(lia))). lia.
Qed.

Lemma same_regs_top b k b' k' c c' : st b k c -> st b' k' c' -> same_regs c c' -> top c' = top c.
Proof.
  intros Hst Hst' Hs. pose proof (top_bound _ _ _ Hst) as [_ ?].
  assert (0 <= top c).
  { destruct Hst as [[Hc _ _ _] _]. apply (RegisterAllocator.wf_top _ (core_wf _ _ _ Hc)). }
  apply (top_unique _ _ _ _ Hst'); [lia| |].
  - intros j. rewrite Hs. intros Hj. apply (regs_range _ _ _ _ Hst Hj).
  - intros Hpos. rewrite Hs. destruct Hst as [[Hc _ _ _] _].
    by apply (RegisterAllocator.wf_last _ (core_wf _ _ _ Hc)).
Qed.

(** ** Changes of the current function *)
Lemma wp_modify g c Q :
  Q tt (mk_compiler (string_interner c) (g (current_function c)) (upper_functions c)) -> wp (modify g) c Q.
Proof. done. Qed.

Lemma fext_step b k b' k' c g : inv b k c ->
  core b' k' (g (current_function c)) -> scope b' (g (current_function c)) ->
  f_upvalues (g (current_function c)) = f_upvalues (current_function c) ->
  let c' := mk_compiler (string_interner c) (g (current_function c)) (upper_functions c) in
  inv b' k' c' /\ (fext (current_function c) (g (current_function c)) -> cext c c').
Proof.
  intros Hinv Hc Hs E c'. split; [by eapply inv_current|].
  intros Hf. split; [done|]. cbn. apply Forall2_refl, _.
Qed.

(** ** Instructions *)
Definition emitted op c : compiler :=
  mk_compiler (string_interner c)
    (set_operations (operations (current_function c) ++ [op]) (current_function c)) (upper_functions c).

Lemma ops_frame_snoc ops op : ops_frame ops (ops ++ [op]).
Proof.
  split; [rewrite length_app; lia|]. intros i o Ho _. by apply lookup_app_l_Some.
Qed.

Lemma scope_emitted b f op : scope b f -> scope b (set_operations (operations f ++ [op]) f).
Proof.
  intros Hs. eapply scope_mono; [exact Hs|..]; cbn; try done.
  - intros p Hp. destruct (po_placeholder _ _ (proj1 (Forall_forall _ _) (scope_pending _ _ Hs) p Hp))
      as (o & Ho & _). rewrite Ho. by apply lookup_app_l_Some.
  - rewrite length_app. lia.
Qed.

Lemma step_emitted b k k' op c : st b k c -> op_ok (csizes c) op ->
  0 <= op_target (Z.of_nat (length (operations (current_function c)))) op <=
    Z.of_nat (length (operations (current_function c))) + 1 + k' ->
  k <= k' + 1 -> step b k' c (emitted op c).
Proof.
  intros [Hinv He] Hop Ht Hk. pose proof (inv_core _ _ _ Hinv) as Hc.
  destruct (fext_step b k b k' c (fun f => set_operations (operations f ++ [op]) f)) as [Hi Hx];
    cbn; [done| |by apply scope_emitted, Hinv|done|].
  - destruct Hc as [Hwf Hb Hu Hops Hcode Hl Hc Hf Hp]. split; try done; cbn.
    + apply Forall_app. split; [done|]. by apply Forall_singleton.
    + by eapply code_ok_snoc.
  - split; [by split|]. split; [|done]. apply Hx. split; cbn; try done.
    + by exists [].
    + apply ops_frame_snoc.
Qed.

Lemma wp_emit b k k' op c (Q : unit -> compiler -> Prop) : st b k c -> op_ok (csizes c) op ->
  0 <= op_target (Z.of_nat (length (operations (current_function c)))) op <=
    Z.of_nat (length (operations (current_function c))) + 1 + k' ->
  k <= k' + 1 ->
  (forall c', step b k' c c' -> same_regs c c' -> csizes c' = csizes c ->
     operations (current_function c') = operations (current_function c) ++ [op] ->
     jump_targets (current_function c') = jump_targets (current_function c) ->
     unique_jump_id (current_function c') = unique_jump_id (current_function c) -> Q tt c') ->
  wp (emit op) c Q.
Proof.
  intros Hst Hop Ht Hk HQ. apply wp_modify. apply HQ; try done. by eapply (step_emitted b k k').
Qed.

(** An instruction after which control goes to the next one *)
Definition plain (op : Operation.t) : Prop := forall i, i <= op_target i op <= i + 1.

Lemma wp_emit_plain b op c (Q : unit -> compiler -> Prop) : st b 0 c -> op_ok (csizes c) op -> plain op ->
  (forall c', step b 0 c c' -> same_regs c c' -> Q tt c') -> wp (emit op) c Q.
Proof.
  intros Hst Hop Hp HQ. specialize (Hp (Z.of_nat (length (operations (current_function c))))).
  eapply (wp_emit b 0 0); [done|done|lia|lia|]. eauto.
Qed.

(** ** Registers *)
Lemma step_registers b k c r : st b k c -> RegisterAllocator.wf r ->
  (forall j, 0 <= j < b -> RegisterAllocator.registers r j = true) ->
  s_registers (csizes c) <= RegisterAllocator.stack_size r ->
  step b k c (mk_compiler (string_interner c) (set_register_allocator r (current_function c)) (upper_functions c)).
Proof.
  intros [Hinv He] Hwf Hu Hs. pose proof (inv_core _ _ _ Hinv) as Hc.
  assert (Hle : sizes_le (csizes c) (fsizes (set_register_allocator r (current_function c)))).
  { unfold sizes_le. cbn. unfold csizes in Hs. cbn in Hs. lia. }
  destruct (fext_step b k b k c (set_register_allocator r)) as [Hi Hx]; cbn; [done| | |done|].
  - eapply core_mono; try done.
  - destruct (inv_scope _ _ _ Hinv). split; try done; (eapply Forall_impl; [eassumption|]; by intros ? []).
  - split; [by split|]. split; [|done]. apply Hx. split; cbn; try done.
    + by exists [].
Qed.

Lemma wp_on_registers {A} (m : RegisterAllocator.t -> outcome (A * RegisterAllocator.t)) b k c a r
    (Q : A -> compiler -> Prop) : st b k c ->
  m (register_allocator (current_function c)) = Ok (a, r) -> RegisterAllocator.wf r ->
  (forall j, 0 <= j < b -> RegisterAllocator.registers r j = true) ->
  s_registers (csizes c) <= RegisterAllocator.stack_size r ->
  (forall c', step b k c c' -> (forall j, regs c' j = RegisterAllocator.registers r j) ->
     csizes c' = mk_sizes (RegisterAllocator.stack_size r) (s_constants (csizes c)) (s_upvalues (csizes c))
       (s_prototypes (csizes c)) ->
     top c' = RegisterAllocator.stack_top r -> Q a c') ->
  wp (on_registers m) c Q.
Proof.
  intros Hst Hm Hwf Hu Hs HQ. unfold on_registers, wp, bind, lift, current. cbn. rewrite Hm. cbn.
  apply HQ; [|done..]. by apply step_registers.
Qed.

Lemma wp_stack_top c Q : Q (top c) c -> wp stack_top c Q.
Proof. done. Qed.

Lemma st_wf b k c : st b k c -> RegisterAllocator.wf (register_allocator (current_function c)).
Proof. intros [[Hc _ _ _] _]. apply Hc. Qed.
Lemma st_used b k c j : st b k c -> 0 <= j < b -> regs c j = true.
Proof. intros [[Hc _ _ _] _]. apply (core_used _ _ _ Hc). Qed.

Lemma wp_allocate_or b k c (Q : RegisterIndex -> compiler -> Prop) : st b k c ->
  (forall r c', step b k c c' -> regs c (register_index r) = false -> 0 <= register_index r < 256 ->
     (forall j, regs c' j = (j =? register_index r) || regs c j) -> Q r c') ->
  wp allocate_or c Q.
Proof.
  intros Hst HQ. unfold allocate_or. pose proof (st_wf _ _ _ Hst) as Hwf.
  destruct (RegisterAllocator.allocate_spec _ Hwf) as (res & r' & Hal & Hwf' & Hsize & Hres).
  eapply cwp_bind.
  - eapply (wp_on_registers _ b k _ res r' (fun res c' => match res with Some r => Q r c' | None => True end));
      [done|exact Hal|done| | |].
    + intros j Hj. destruct res as [reg|].
      * destruct Hres as (_ & _ & _ & Hr). rewrite Hr.
        pose proof (st_used _ _ _ j Hst Hj) as Hu. unfold regs, freg in Hu. rewrite Hu. apply orb_true_r.
      * destruct Hres as [-> _]. by apply (st_used _ _ _ j Hst Hj).
    + unfold csizes. cbn. lia.
    + intros c' Hstep Hregs Hsz Htop. destruct res as [reg|]; [|done].
      destruct Hres as (Hrange & Hfree & _ & Hr). apply HQ; [done..|]. intros j. by rewrite Hregs, Hr.
  - intros res' c' HQ'. apply cwp_ok_or. intros r ->. exact HQ'.
Qed.

Lemma cwp_push b k c size (Q : option RegisterIndex -> compiler -> Prop) : st b k c -> 0 <= size < 256 ->
  (forall r c', step b k c c' -> register_index r = top c -> 0 < size -> top c + size < 256 ->
     top c' = top c + size -> top c + size <= s_registers (csizes c') ->
     (forall j, regs c' j = ((top c <=? j) && (j <? top c + size)) || regs c j) -> Q (Some r) c') ->
  (size = 0 \/ 256 < top c + size -> Q None c) ->
  wp (push size) c Q.
Proof.
  intros Hst Hsize HQ HN. unfold push. pose proof (st_wf _ _ _ Hst) as Hwf.
  eapply (cwp_bind _ _ _ (fun t c' => t = top c /\ c' = c)); [by apply wp_stack_top|].
  intros t c0 [-> ->].
  eapply cwp_bind; [apply (wp_guard _ _ (fun _ c' => c' = c /\ top c + size <> 256))|].
  { intros Hg. split; [done|]. by apply negb_true_iff, Z.eqb_neq in Hg. }
  intros _ c0 [-> Hne].
  destruct (RegisterAllocator.push_spec _ size Hwf Hsize Hne) as (res & r' & Hp & Hwf' & Hres).
  destruct res as [reg|].
  - destruct Hres as (Hreg & Hpos & Hlt & Htop & Hfree & Hr).
    pose proof (RegisterAllocator.wf_size _ Hwf').
    eapply (wp_on_registers _ b k); [done|exact Hp|done| | |].
    + intros j Hj. rewrite Hr. pose proof (st_used _ _ _ j Hst Hj) as Hu. unfold regs, freg in Hu.
      rewrite Hu. apply orb_true_r.
    + unfold csizes. cbn. revert Hp. unfold RegisterAllocator.push.
      rewrite (proj2 (Z.eqb_neq size 0)) by lia. intros Hp.
      apply outcome_bind_inv in Hp as (room & _ & Hp). case_bool; [|done].
      apply outcome_bind_inv in Hp as (rend & _ & Hp). apply outcome_bind_inv in Hp as (rs & _ & Hp).
      apply outcome_bind_inv in Hp as (ff & _ & Hp). apply outcome_bind_inv in Hp as (tp & _ & Hp).
      injection Hp as _ <-. cbn. lia.
    + intros c' Hstep Hregs Hsz Htop'. apply HQ; try done.
      * by rewrite Htop'.
      * rewrite Hsz. cbn. unfold top, ftop in *. lia.
      * intros j. rewrite Hregs, Hr. done.
  - destruct Hres as [-> Hres]. unfold on_registers, wp, bind, lift, current, modify, ret. cbn.
    rewrite Hp. cbn. destruct c as [i [] u]. exact (HN Hres).
Qed.

Lemma wp_push_or b k c size (Q : RegisterIndex -> compiler -> Prop) : st b k c -> 0 <= size < 256 ->
  (forall r c', step b k c c' -> register_index r = top c -> 0 < size -> top c + size < 256 ->
     top c' = top c + size -> top c + size <= s_registers (csizes c') ->
     (forall j, regs c' j = ((top c <=? j) && (j <? top c + size)) || regs c j) -> Q r c') ->
  wp (push_or size) c Q.
Proof.
  intros Hst Hsize HQ. eapply cwp_bind.
  - apply (cwp_push b k c size (fun r c' => match r with Some r => Q r c' | None => True end)); [done..| |done].
    exact HQ.
  - intros res c' HQ'. apply cwp_ok_or. intros r ->. exact HQ'.
Qed.

(** A register above the variables is given back. *)
Lemma wp_free b k c r (Q : unit -> compiler -> Prop) : st b k c -> regs c (register_index r) = true ->
  b <= register_index r ->
  (forall c', step b k c c' -> (forall j, regs c' j = negb (j =? register_index r) && regs c j) -> Q tt c') ->
  wp (free r) c Q.
Proof.
  intros Hst Hr Hb HQ. pose proof (st_wf _ _ _ Hst) as Hwf. destruct r as [i]. cbn in Hr, Hb, HQ.
  pose proof (regs_range _ _ _ _ Hst Hr). pose proof (top_bound _ _ _ Hst).
  pose proof (proj2 (RegisterAllocator.release_spec _ Hwf) i ltac:(lia)) as Hf.
  destruct (RegisterAllocator.free (mk_RegisterIndex i) _) as [r'|] eqn:E.
  2:{ unfold regs, freg in Hr. by rewrite Hr in Hf. }
  destruct Hf as (_ & Hwf' & Hsize & Hregs).
  eapply (wp_on_registers _ b k); [done|by rewrite E|done| | |].
  - intros j Hj. rewrite Hregs, (proj2 (Z.eqb_neq j i)) by lia. by apply (st_used _ _ _ j Hst).
  - unfold csizes. cbn. lia.
  - intros c' Hstep Hc' _ _. apply HQ; [done|]. intros j. by rewrite Hc', Hregs.
Qed.

Lemma wp_pop_to b k c n (Q : unit -> compiler -> Prop) : st b k c -> b <= n ->
  (forall c', step b k c c' -> (forall j, regs c' j = (j <? n) && regs c j) -> Q tt c') ->
  wp (pop_to n) c Q.
Proof.
  intros Hst Hb HQ. pose proof (st_wf _ _ _ Hst) as Hwf.
  assert (0 <= n) by (destruct Hst as [[Hc _ _ _] _]; pose proof (core_bound _ _ _ Hc); lia).
  destruct (RegisterAllocator.pop_to_ok n _ Hwf) as (r' & E & Hwf' & Hsize & Hregs); [done|].
  eapply (wp_on_registers _ b k); [done|by rewrite E|done| | |].
  - intros j Hj. rewrite Hregs, (proj2 (Z.ltb_lt j n)) by lia. by apply (st_used _ _ _ j Hst).
  - unfold csizes. cbn. lia.
  - intros c' Hstep Hc' _ _. apply HQ; [done|]. intros j. by rewrite Hc', Hregs.
Qed.

(** ** Constants *)
Lemma wp_get_constant b k c v (Q : ConstantIndex16 -> compiler -> Prop) : st b k c ->
  (forall i c', step b k c c' -> same_regs c c' -> in_int u16 (constant_index16 i) ->
     constant_index16 i < s_constants (csizes c') -> Q i c') ->
  wp (get_constant v) c Q.
Proof.
  intros Hst HQ. unfold get_constant. eapply (cwp_bind _ _ _ (fun f c' => f = current_function c /\ c' = c)); [done|].
  intros f c0 [-> ->]. pose proof Hst as [Hinv He]. pose proof (inv_core _ _ _ Hinv) as Hc.
  destruct (lookup_constant v _) as [i|] eqn:El.
  - apply cwp_ret. pose proof (core_constants _ _ _ Hc) as Ht.
    assert (Hi : exists e, e ∈ constant_table (current_function c) /\ e.2 = i).
    { clear -El. induction (constant_table (current_function c)) as [|[c0 i0] l IH]; [done|]. cbn in El.
      case_bool; [injection El as ->; by exists (c0, i); split; [left|]|].
      destruct (IH El) as (e & ? & ?). exists e. by split; [right|]. }
    destruct Hi as (e & Hin & <-). destruct (proj1 (Forall_forall _ _) Ht e Hin). by apply HQ.
  - eapply (cwp_bind _ _ _ (fun i c' => c' = c /\ i = Z.of_nat (length (f_constants (current_function c))) /\ in_int u16 i)).
    { apply cwp_ok_or. intros i Hi. apply checked_Some in Hi as [? ->]. done. }
    intros i c0 (-> & -> & Hi). set (n := Z.of_nat (length (f_constants (current_function c)))) in *.
    set (g := fun f => set_constants (f_constants f ++ [v]) ((v, mk_ConstantIndex16 n) :: constant_table f) f).
    eapply (cwp_bind _ _ _ (fun _ c' => c' = mk_compiler (string_interner c) (g (current_function c)) (upper_functions c))); [done|].
    intros _ c0 ->. apply cwp_ret.
    assert (Hle : sizes_le (csizes c) (fsizes (g (current_function c)))).
    { unfold sizes_le. cbn. rewrite length_app. cbn. lia. }
    destruct (fext_step b k b k c g) as [Hi' Hx]; cbn; [done| | |done|].
    + destruct Hc as [Hwf Hb Hu Hops Hcode Hl Hct Hf Hp]. split; try done; cbn.
      * eapply Forall_impl; [exact Hops|]. intros. by eapply op_ok_le.
      * apply Forall_cons. split; cbn; [rewrite length_app; cbn; fold n; split; [done|lia]|].
        eapply Forall_impl; [exact Hct|]. intros e [? ?]. split; [done|]. rewrite length_app. cbn in *. lia.
    + destruct (inv_scope _ _ _ Hinv). split; try done; (eapply Forall_impl; [eassumption|]; by intros ? []).
    + apply HQ; try done; [|cbn; rewrite length_app; cbn; fold n; lia].
      split; [by split|]. split; [|done]. apply Hx. split; cbn; try done. by exists [].
Qed.

(** ** Variables *)

Definition locals_in f : Prop := Forall (fun l => reg_ok (fsizes f) l.1.2) (locals f).
Definition resolved name f f' (r : VariableDescriptor.t IString + Stop) : Prop :=
  match r with
  | inl (VariableDescriptor.Local r a) => exists n, (n, r, a) ∈ locals f
  | inl (VariableDescriptor.UpValue u _) => upvalue_ok (fsizes f') u
  | inl (VariableDescriptor.Global _) => as_ref name <> bs# "_ENV"
  | inr _ => True
  end.

Lemma core_locals_in b k f : core b k f -> locals_in f.
Proof.
  intros Hc. eapply Forall_impl; [apply (core_locals _ _ _ Hc)|]. intros l Hl.
  pose proof (core_wf _ _ _ Hc) as Hwf.
  pose proof (RegisterAllocator.wf_used_range _ _ Hwf (core_used _ _ _ Hc _ Hl)).
  pose proof (RegisterAllocator.wf_size _ Hwf). unfold reg_ok. cbn. lia.
Qed.

Lemma find_local_in name ls r a : find_local name ls = Some (r, a) -> exists n, (n, r, a) ∈ ls.
Proof.
  induction ls as [|[[n r'] a'] ls IH]; [done|]. cbn. case_bool.
  - intros [= -> ->]. exists n. by left.
  - intros Hf. destruct (IH Hf) as [m Hm]. exists m. by right.
Qed.

Lemma find_upvalue_lt name us j : find_upvalue name us = Some j -> (j < length us)%nat.
Proof.
  revert j. induction us as [|[n d] us IH]; intros j; [done|]. cbn. case_bool; [intros [= <-]; lia|].
  destruct (find_upvalue name us) as [i|]; [|done]. intros [= <-]. specialize (IH i eq_refl). lia.
Qed.

Lemma mark_owner_same r bs : Forall2 same_block bs (mark_owner r bs).
Proof. induction bs as [|x bs IH]; cbn; [done|]. case_bool; by constructor; [| done || apply Forall2_refl, _]. Qed.

(** Capturing in a function whose parent has been extended *)
Lemma capture_chain name d f parent parent' outer' f' i : capture name d f = (f', i) ->
  sizes_le (fsizes parent) (fsizes parent') ->
  Forall (fun u => capture_ok (fsizes parent) u.2) (f_upvalues f) ->
  capture_ok (fsizes parent') d -> chain (parent' :: outer') ->
  up_ext f f' /\ chain (f' :: parent' :: outer') /\
  forall u, i = inl u -> upvalue_ok (fsizes f') u.
Proof.
  intros [= <- <-] Hs Hus Hd Hc. split_and!.
  - exists (f_upvalues f ++ [(name, d)]), (blocks f). split; [by destruct f|]. rewrite length_app.
    split; [lia|apply Forall2_refl, _].
  - split; [|done]. cbn. apply Forall_app. split; [|by apply Forall_singleton].
    eapply Forall_impl; [exact Hus|]. intros u. by apply capture_ok_le.
  - intros u. destruct (checked u8 _) as [j|] eqn:E; [|done]. intros [= <-].
    apply checked_Some in E as [? ->]. split; [done|]. cbn. rewrite length_app. cbn. lia.
Qed.

Lemma resolve_variable_spec name upper : forall f, Forall locals_in upper -> chain (f :: upper) ->
  let '(r, f', upper') := resolve_variable name f upper in
  up_ext f f' /\ Forall2 up_ext upper upper' /\ chain (f' :: upper') /\ resolved name f f' r.
Proof.
  induction upper as [|parent outer IH]; intros f Hl Hch; cbn [resolve_variable];
    (destruct (find_local name (locals f)) as [[r a]|] eqn:Efl;
     [split_and!; try done; try apply up_ext_refl; try (apply Forall2_refl, _);
      cbn; by apply find_local_in in Efl|]).
  - rewrite bool_decide_eq_true_2 by done. cbn [andb].
    set (f0 := if _ && _ then _ else f).
    assert (H0' : up_ext f f0 /\ chain [f0] /\ (as_ref name = bs# "_ENV" -> f_upvalues f0 <> [])).
    { unfold f0. destruct (bool_decide_reflect (as_ref name = bs# "_ENV")) as [En|En]; cbn;
        [|split; [apply up_ext_refl|by split]].
      destruct (bool_decide_reflect (f_upvalues f = [])) as [Eu|Eu]; [|by split; [apply up_ext_refl|]].
      split; [|split; [|done]].
      - exists [(name, Environment)], (blocks f). rewrite Eu. split; [by destruct f|]. split; [cbn; lia|].
        apply Forall2_refl, _.
      - split; [|done]. split; [by apply Forall_singleton|cbn; lia]. }
    destruct H0' as (Hx & Hc0 & Hne).
    destruct (find_upvalue name (f_upvalues f0)) as [j|] eqn:Eup.
    + apply find_upvalue_lt in Eup. destruct (checked u8 (Z.of_nat j)) as [j'|] eqn:Ej; [|done].
      apply checked_Some in Ej as [? ->]. split_and!; try done. split; [done|]. cbn. lia.
    + split_and!; try done. cbn. intros En. destruct Hc0 as [[Hc0 _] _].
      specialize (Hne En). destruct (f_upvalues f0) as [|[n d] us]; [done|].
      apply Forall_cons in Hc0 as [[_ Hn] _]. cbn in Hn, Eup.
      rewrite bool_decide_eq_true_2 in Eup by congruence. done.
  - rewrite bool_decide_eq_false_2 by done. cbn [andb].
    apply Forall_cons in Hl as [Hlp Hlo]. destruct Hch as [Hus Hch]. cbn in Hus.
    destruct (find_upvalue name (f_upvalues f)) as [j|] eqn:Eup.
    { apply find_upvalue_lt in Eup.
      assert (Hrefl : up_ext f f /\ Forall2 up_ext (parent :: outer) (parent :: outer) /\ chain (f :: parent :: outer)).
      { split; [apply up_ext_refl|]. split; [apply Forall2_refl, _|]. by split. }
      destruct Hrefl as (? & ? & ?).
      destruct (checked u8 (Z.of_nat j)) as [j'|] eqn:Ej; [|by split_and!].
      apply checked_Some in Ej as [? ->]. split_and!; try done. split; [done|]. cbn. lia. }
    specialize (IH parent Hlo Hch). destruct (resolve_variable name parent outer) as [[r p'] o'].
    destruct IH as (Hp & Ho & Hc' & Hr). pose proof (up_ext_sizes _ _ Hp) as Hsz.
    destruct r as [[r a|u a|n]|e].
    + set (p'' := set_blocks (mark_owner (register_index r) (blocks p')) p').
      assert (Hpp : up_ext p' p'').
      { exists (f_upvalues p'), (mark_owner (register_index r) (blocks p')). split; [by destruct p'|].
        split; [done|apply mark_owner_same]. }
      assert (Hc'' : chain (p'' :: o')) by exact Hc'.
      destruct (capture name (ParentLocal r) f) as [f' i] eqn:Ec.
      destruct (capture_chain _ _ _ parent p'' o' _ _ Ec) as (Hff & Hcf & Hi); [exact Hsz|done| |done|].
      { cbn in Hr. destruct Hr as [n Hin]. apply (reg_ok_le (fsizes parent)); [exact Hsz|].
        by apply (proj1 (Forall_forall _ _) Hlp _ Hin). }
      split_and!; [done| |done|].
      * constructor; [by etrans|done].
      * destruct i as [u|e]; [|done]. by apply Hi.
    + destruct (capture name (Outer u) f) as [f' i] eqn:Ec.
      destruct (capture_chain _ _ _ parent p' o' _ _ Ec) as (Hff & Hcf & Hi); [exact Hsz|done|done|done|].
      split_and!; [done|by constructor|done|]. destruct i as [u'|e]; [|done]. by apply Hi.
    + split_and!; [apply up_ext_refl|by constructor| |done]. split; [|done].
      eapply Forall_impl; [exact Hus|]. intros x. by apply capture_ok_le.
    + split_and!; [apply up_ext_refl|by constructor| |done]. split; [|done].
      eapply Forall_impl; [exact Hus|]. intros x. by apply capture_ok_le.
Qed.

(** What a variable descriptor refers to exists. *)
Definition variable_ok c (v : VariableDescriptor.t IString) : Prop :=
  match v with
  | VariableDescriptor.Local r _ => regs c (register_index r) = true
  | VariableDescriptor.UpValue u _ => upvalue_ok (csizes c) u
  | VariableDescriptor.Global _ => True
  end.

Lemma step_resolved b k c f' upper' i : st b k c -> up_ext (current_function c) f' ->
  Forall2 up_ext (upper_functions c) upper' -> chain (f' :: upper') ->
  step b k c (mk_compiler i f' upper').
Proof.
  intros [[Hc Hs Hu Hch] He] Hf Hup Hch'. pose proof (up_ext_fext _ _ Hf) as Hx.
  assert (Hq : quiet c (mk_compiler i f' upper')).
  { split; [by split|]. destruct Hf as (us & bs & -> & ? & ?). done. }
  split; [|done]. split; [|by eapply quiet_entered].
  split; cbn; [by eapply core_up_ext|by eapply scope_up_ext| |done].
  clear -Hu Hup. induction Hup as [|x y l l' Hxy _ IH]; [done|].
  apply Forall_cons in Hu as [[b' Hb] Hu]. constructor; [|by apply IH]. exists b'.
  by eapply core_up_ext.
Qed.

Lemma wp_find_variable b k c name (Q : VariableDescriptor.t IString -> compiler -> Prop) : st b k c ->
  (forall v c', step b k c c' -> same_regs c c' -> variable_ok c' v ->
     (forall r a, v = VariableDescriptor.Local r a -> register_index r < b) ->
     (forall n, v = VariableDescriptor.Global n -> as_ref name <> bs# "_ENV") -> Q v c') ->
  wp (find_variable name) c Q.
Proof.
  intros Hst HQ. pose proof Hst as [[Hc Hs Hu Hch] He]. unfold find_variable, wp.
  pose proof (resolve_variable_spec name (upper_functions c) (current_function c)) as Hr.
  destruct (resolve_variable _ _ _) as [[r f'] upper'].
  destruct Hr as (Hf & Hup & Hch' & Hr).
  { eapply Forall_impl; [exact Hu|]. intros f [b' Hb]. by eapply core_locals_in. }
  { done. }
  pose proof (step_resolved _ _ _ _ _ (string_interner c) Hst Hf Hup Hch') as Hstep. destruct r as [v|e]; [|done].
  assert (Hsame : same_regs c (mk_compiler (string_interner c) f' upper')).
  { destruct Hf as (us & bs & -> & ? & ?). by intros j. }
  apply HQ; try done.
  - destruct v as [r a|u a|n]; [|done..]. cbn in Hr |- *. destruct Hr as [n Hin]. rewrite Hsame.
    apply (core_used _ _ _ Hc). apply (proj1 (Forall_forall _ _) (core_locals _ _ _ Hc) _ Hin).
  - intros r a ->. destruct Hr as [n Hin].
    apply (proj1 (Forall_forall _ _) (core_locals _ _ _ Hc) _ Hin).
  - by intros n ->.
Qed.

Lemma wp_intern b k c s (Q : IString -> compiler -> Prop) : st b k c ->
  (forall i c', step b k c c' -> same_regs c c' -> as_ref i = s -> Q i c') -> wp (intern s) c Q.
Proof.
  intros [Hinv He] HQ. unfold wp, intern. destruct (Lexer.intern _ s) as [i' t] eqn:E.
  apply HQ; try done.
  - destruct Hinv. split; [|by split]. split; [|done]. split; done.
  - pose proof (intern_as_ref (string_interner c) s) as Hr. by rewrite E in Hr.
Qed.

(** [_ENV] is always found: at the latest it is the upvalue of the chunk. *)
Lemma wp_get_environment b k c (Q : ExprDescriptor.t IString -> compiler -> Prop) : st b k c ->
  (forall v c', step b k c c' -> same_regs c c' -> variable_ok c' v ->
     (forall n, v <> VariableDescriptor.Global n) -> Q (ExprDescriptor.Variable_ v) c') ->
  wp get_environment c Q.
Proof.
  intros Hst HQ. unfold get_environment. eapply cwp_bind.
  { apply (wp_intern b k c _ (fun i c' => step b k c c' /\ same_regs c c' /\ as_ref i = bs# "_ENV")); [done|]. by intros. }
  intros i c1 (H1' & Hs1 & Hi). eapply cwp_bind.
  { apply (wp_find_variable b k c1 i (fun v c' => step b k c1 c' /\ same_regs c1 c' /\ variable_ok c' v /\
      forall n, v <> VariableDescriptor.Global n)); [apply H1'|].
    intros v c' ? ? ? _ Hg. split_and!; try done. intros n ->. by apply (Hg n). }
  intros v c2 (H2' & Hs2 & Hv & Hn). apply cwp_ret. apply HQ; try done.
  - split; [apply H2'|]. etrans; [apply H1'|apply H2'].
  - intros j. by rewrite Hs2, Hs1.
Qed.
End CompilerSteps.
End CompilerSteps.
