(* ===== verification/CompilerJumps.v ===== *)
(** * Labels, jumps and blocks

    Resolving jumps keeps every instruction but the placeholders, and leaving a block gives
    back exactly the registers of the variables declared in it. *)

From stdpp Require Import sorting.
From S2P Require Import Prelude Float64 Lexer Opcode Constant Operators Parser RegisterAllocator CompilerState CompilerCode CompilerFacts CompilerSteps.
Import Ast Compiler CompilerFacts CompilerSteps.

Module CompilerJumps.
Section CompilerJumps.
Context `{BuildProfile} `{FloatLib} `{StringInterner}.
#[local] Existing Instance checking.
#[local] Existing Instance name_bytes.
Abbreviation function := (CompilerFunction IString).
Implicit Types (f : function) (c : compiler) (b k : Z).

(** ** Offsets *)
Lemma jump_offset_spec source target off : jump_offset source target = Some off ->
  offset_ok off /\ Z.of_nat source + 1 + off = Z.of_nat target.
Proof.
  unfold jump_offset. destruct (Nat.ltb_spec source target).
  - intros Hc. apply checked_Some in Hc as [Hi ->]. split; [|lia]. unfold offset_ok. revert Hi. int_lia.
  - destruct (checked i16 _) as [i|] eqn:E; [|done]. intros [= <-].
    apply checked_Some in E as [Hi ->]. split; [|lia]. unfold offset_ok. revert Hi. int_lia.
Qed.

Lemma wp_close_above t c (Q : Opt254 -> compiler -> Prop) :
  (forall o, Opt254.wf o -> Q o c) -> wp (close_above t) c Q.
Proof.
  intros HQ. apply cwp_ok_or. intros o Ho. apply HQ.
  destruct (checked u8 t) as [t'|] eqn:E; [|done]. cbn in Ho. apply checked_Some in E as [? ->].
  eapply (Opt254.try_new_to_u8 (Some t)); [|exact Ho]. by intros ? [= <-].
Qed.

Lemma none_wf : Opt254.none = Ok (Opt254.Opt254 255) /\ Opt254.wf (Opt254.Opt254 255).
Proof. split; [done|]. unfold Opt254.wf. cbn. int_lia. Qed.

(** ** Labels *)
Lemma step_unique b k c : st b k c ->
  step b k c (mk_compiler (string_interner c)
    (set_unique_jump_id (unique_jump_id (current_function c) + 1) (current_function c)) (upper_functions c)).
Proof.
  intros [Hinv He]. destruct (fext_step b k b k c (fun f => set_unique_jump_id (unique_jump_id f + 1) f)) as [Hi Hx];
    [done| | |done|].
  - destruct (inv_core _ _ _ Hinv). by split.
  - eapply scope_mono; [apply (inv_scope _ _ _ Hinv)|..]; cbn; try done. lia.
  - split; [by split|]. split; [|done]. apply Hx. split; cbn; try done; [lia|by exists []].
Qed.

Lemma wp_unique_jump_label b k c (Q : JumpLabel.t IString -> compiler -> Prop) : st b k c ->
  (forall c', step b k c c' -> same_regs c c' ->
     unique_jump_id (current_function c') = unique_jump_id (current_function c) + 1 ->
     jump_targets (current_function c') = jump_targets (current_function c) ->
     Q (JumpLabel.Unique (unique_jump_id (current_function c))) c') ->
  wp unique_jump_label c Q.
Proof.
  intros Hst HQ. unfold unique_jump_label, wp, bind, current, modify, ret. cbn. apply HQ; try done.
  by apply step_unique.
Qed.

Lemma wp_current_block_index c (Q : nat -> compiler -> Prop) : entered c ->
  (forall n, length (blocks (current_function c)) = S n -> Q n c) -> wp current_block_index c Q.
Proof.
  unfold entered, current_block_index, wp, bind, current. cbn. intros He HQ.
  destruct (blocks (current_function c)) as [|x l]; [done|]. by apply HQ.
Qed.

Lemma eqb_label (l l' : JumpLabel.t IString) : JumpLabel.eqb l l' = true ->
  (forall i, l = JumpLabel.Unique i -> l' = JumpLabel.Unique i) /\ (is_unique l <-> is_unique l').
Proof.
  destruct l, l'; cbn; try done; intros E.
  - apply Z.eqb_eq in E as ->. by split.
  - split; [done|]. by split; intros [].
Qed.

Lemma find_target_in l ts t : find_target l ts = Some t -> t ∈ ts /\ JumpLabel.eqb (label t) l = true.
Proof.
  induction ts as [|t' ts IH]; cbn; [done|]. case_bool.
  - intros [= <-]. split; [by left|done].
  - intros Hf. destruct (IH Hf). split; [by right|done].
Qed.

Lemma find_target_skip id ts old : Forall (new_target (id + 1)) ts ->
  find_target (JumpLabel.Unique id) (ts ++ old) = find_target (JumpLabel.Unique id) old.
Proof.
  induction ts as [|t ts IH]; [done|]. intros Hts. apply Forall_cons in Hts as [Ht Hts]. cbn.
  destruct (label t) as [i|n|] eqn:E; cbn; [|by apply IH..].
  specialize (Ht i E). rewrite (proj2 (Z.eqb_neq i id)) by lia. by apply IH.
Qed.

(** ** Jumps *)

(** What a jump leaves: one more instruction, and if its label is not there yet, a pending
    jump for it. *)
Record jumped b (l : JumpLabel.t IString) c c' : Prop := {
  jd_st : st b 0 c';
  jd_ext : cext c c';
  jd_regs : same_regs c c';
  jd_locals : locals (current_function c') = locals (current_function c);
  jd_targets : jump_targets (current_function c') = jump_targets (current_function c);
  jd_id : unique_jump_id (current_function c') = unique_jump_id (current_function c);
  jd_pending : pending_jumps (current_function c') =
    match find_target l (jump_targets (current_function c)) with
    | Some _ => pending_jumps (current_function c)
    | None => mk_PendingJump l (length (operations (current_function c)))
        (length (blocks (current_function c)) - 1) (top c) false :: pending_jumps (current_function c)
    end
}.

Lemma bottom_of_lt f n z : bottom_of f n = Some z -> (n < length (blocks f))%nat.
Proof.
  unfold bottom_of. intros Hb. apply fmap_Some in Hb as (x & Hx & _).
  apply lookup_lt_Some in Hx. by rewrite length_rev in Hx.
Qed.

Lemma bottom_of_newest f x l : blocks f = x :: l -> bottom_of f (length l) = Some (stack_bottom x).
Proof.
  intros E. unfold bottom_of. rewrite E. cbn. rewrite lookup_app_r by (rewrite length_rev; lia).
  by rewrite length_rev, Nat.sub_diag.
Qed.

(** A new placeholder with its pending jump *)
Lemma scope_pend b f p : scope b f -> pending_ok f p ->
  jump_block p = (length (blocks f) - 1)%nat -> jump_instruction p ∉ map jump_instruction (pending_jumps f) ->
  scope b (set_pending_jumps (p :: pending_jumps f) f).
Proof.
  intros [Hs Hb Ht Hp Hso Hnd] Hok Hblock Hnew. split; try done; cbn.
  - eapply Forall_impl; [exact Ht|]. by intros ? [].
  - constructor; [by destruct Hok|]. eapply Forall_impl; [exact Hp|]. by intros ? [].
  - constructor; [done|]. apply Forall_forall. intros q Hq. rewrite Hblock.
    destruct (po_bottom _ _ (proj1 (Forall_forall _ _) Hp q Hq)) as (z & Hz & _).
    apply bottom_of_lt in Hz. lia.
  - by constructor.
Qed.

Lemma jumped_pending b k c l : st b k c -> 0 <= k <= 1 ->
  (forall id, l = JumpLabel.Unique id -> id < unique_jump_id (current_function c)) ->
  find_target l (jump_targets (current_function c)) = None ->
  let c1 := emitted (Operation.Jump 0 (Opt254.Opt254 255)) c in
  jumped b l c (mk_compiler (string_interner c1)
    (set_pending_jumps (mk_PendingJump l (length (operations (current_function c)))
      (length (blocks (current_function c)) - 1) (top c) false :: pending_jumps (current_function c1))
      (current_function c1)) (upper_functions c1)).
Proof.
  intros Hst Hk Hid Hnone c1.
  assert (Hs1 : step b 0 c c1).
  { apply (step_emitted b k 0); [done|split; [apply offset_0_ok|apply none_wf]|cbn [op_target]; lia|lia]. }
  destruct Hs1 as [[Hinv1 He1] [Hx1 _]].
  set (p := mk_PendingJump _ _ _ _ _).
  assert (Hp : pending_ok (current_function c1) p).
  { destruct (blocks (current_function c)) as [|x bs] eqn:E; [by destruct He1|]. split; cbn.
    - exists (stack_bottom x). cbn [length]. rewrite Nat.sub_0_r.
      split; [by apply bottom_of_newest|]. pose proof (scope_bottom _ _ (inv_scope _ _ _ Hinv1)) as Hb.
      cbn in Hb. rewrite E in Hb. apply Forall_cons in Hb as [Hb _].
      pose proof (top_bound _ _ _ Hst). lia.
    - exists (Operation.Jump 0 (Opt254.Opt254 255)). split; [|by eexists].
      rewrite lookup_app_r, Nat.sub_diag by lia. done.
    - done. }
  assert (Hnew : jump_instruction p ∉ map jump_instruction (pending_jumps (current_function c1))).
  { intros Hin. apply list_elem_of_fmap in Hin as (q & Eq & Hq).
    destruct Hst as [[_ Hs _ _] _].
    destruct (po_placeholder _ _ (proj1 (Forall_forall _ _) (scope_pending _ _ Hs) q Hq)) as (o & Ho & _).
    apply lookup_lt_Some in Ho. cbn in Eq. lia. }
  split; try done.
  - split; [|done]. eapply (inv_current b 0 b 0 c1); [done| | |done].
    + destruct (inv_core _ _ _ Hinv1). by split.
    + apply scope_pend; [apply (inv_scope _ _ _ Hinv1)|done|done|done].
  - destruct Hx1 as [[] Hup]. split; [|done]. by split.
  - by rewrite Hnone.
Qed.

Lemma wp_jump b k l c (Q : unit -> compiler -> Prop) : st b k c -> 0 <= k <= 1 ->
  (forall id, l = JumpLabel.Unique id -> id < unique_jump_id (current_function c)) ->
  (forall t, find_target l (jump_targets (current_function c)) = Some t -> target_top t <= top c) ->
  (forall c', jumped b l c c' -> Q tt c') -> wp (jump l) c Q.
Proof.
  intros Hst Hk Hid Htop HQ. unfold jump. eapply wp_read; [reflexivity|]. eapply wp_read; [reflexivity|].
  eapply (cwp_bind _ _ _ (fun n c' => c' = c /\ n = (length (blocks (current_function c)) - 1)%nat)).
  { apply wp_current_block_index; [apply Hst|]. intros n Hn. split; [done|lia]. }
  intros n c0 [-> ->]. eapply wp_read; [reflexivity|].
  destruct (find_target l _) as [t|] eqn:Ef.
  2:{ eapply cwp_bind; [by apply (wp_lift _ _ _ (fun o c' => o = Opt254.Opt254 255 /\ c' = c) (proj1 none_wf))|].
      intros o c0 [-> ->]. eapply (cwp_bind _ _ _ (fun _ c' => c' = emitted (Operation.Jump 0 (Opt254.Opt254 255)) c)).
      { by apply wp_modify. }
      intros [] c0 ->. apply wp_modify. apply HQ. by apply (jumped_pending b k). }
  pose proof (find_target_in _ _ _ Ef) as [Hin _]. pose proof Hst as [Hinv He].
  pose proof (proj1 (Forall_forall _ _) (scope_targets _ _ (inv_scope _ _ _ Hinv)) t Hin) as Hok.
  eapply wp_read; [|eapply wp_read].
  { unfold rust_assert, lift. fold (top c). rewrite (proj2 (Z.leb_le _ _)) by (by apply Htop). reflexivity. }
  { unfold rust_assert, lift. rewrite (proj2 (Nat.leb_le _ _)); [reflexivity|]. pose proof (to_block _ _ _ Hok). lia. }
  eapply (cwp_bind _ _ _ (fun off c' => c' = c /\ _)).
  { apply cwp_ok_or. intros off Hoff. split; [done|]. exact (jump_offset_spec _ _ _ Hoff). }
  intros off c0 (-> & Hoff & Htarget). eapply (cwp_bind _ _ _ (fun o c' => c' = c /\ Opt254.wf o)).
  { case_bool; [by apply wp_close_above|]. eapply wp_lift; [apply none_wf|]. split; [done|]. apply none_wf. }
  intros o c0 [-> Ho]. pose proof (to_instruction _ _ _ Hok).
  eapply (wp_emit b k 0); [done|by split|cbn [op_target]; lia|lia|].
  intros c' [Hst' (Hx & Hl & Hp)] Hr _ _ Et Ei. apply HQ. split; try done. by rewrite Ef.
Qed.

(** ** Labels that become targets *)
Definition with_ops ops c : compiler :=
  mk_compiler (string_interner c) (set_operations ops (current_function c)) (upper_functions c).

(** Only jumps have been rewritten. *)
Definition rewritten b c c' : Prop :=
  exists ops, c' = with_ops ops c /\ ops_frame (operations (current_function c)) ops /\
    length ops = length (operations (current_function c)) /\ st b 0 c'.

Definition has_placeholder c (p : PendingJump IString) : Prop :=
  exists op, operations (current_function c) !! jump_instruction p = Some op /\ placeholder op.

Lemma rewritten_insert b c i off close op : st b 0 c -> offset_ok off -> Opt254.wf close ->
  Z.of_nat i + 1 + off = Z.of_nat (length (operations (current_function c))) ->
  operations (current_function c) !! i = Some op -> is_jump op ->
  (forall q, q ∈ pending_jumps (current_function c) -> jump_instruction q <> i) ->
  rewritten b c (with_ops (<[i := Operation.Jump off close]> (operations (current_function c))) c).
Proof.
  intros [Hinv He] Hoff Hclose Htarget Hi Hj Hq. eexists. split; [done|]. rewrite length_insert.
  split; [|split; [done|]].
  - split; [by rewrite length_insert|]. intros j o Ho Hn. rewrite list_lookup_insert_ne; [done|].
    intros ->. rewrite Hi in Ho. by injection Ho as ->.
  - split; [|done]. eapply (inv_current b 0 b 0 c); [done| | |done].
    + destruct (inv_core _ _ _ Hinv) as [? ? ? Hops Hcode ? ? ? ?]. split; try done; cbn.
      * apply Forall_insert; [done|]. by split.
      * apply code_ok_insert; [done|]. cbn [op_target]. lia.
    + eapply scope_mono; [apply (inv_scope _ _ _ Hinv)|..]; cbn; try done.
      * intros q Hin. rewrite list_lookup_insert_ne; [done|]. intros E. by apply (Hq q Hin).
      * by rewrite length_insert.
Qed.

Lemma rewritten_trans b c c' c'' : rewritten b c c' -> rewritten b c' c'' -> rewritten b c c''.
Proof.
  intros (ops & E & Hf & Hl & _) (ops' & E' & Hf' & Hl' & Hst'). subst c' c''. exists ops'. cbn in *.
  split; [done|]. split; [by etrans|]. split; [congruence|done].
Qed.

Lemma wp_resolve b T p c (Q : unit -> compiler -> Prop) : st b 0 c -> has_placeholder c p ->
  (forall q, q ∈ pending_jumps (current_function c) -> jump_instruction q <> jump_instruction p) ->
  (forall c', rewritten b c c' ->
     (forall i, i <> jump_instruction p ->
        operations (current_function c') !! i = operations (current_function c) !! i) -> Q tt c') ->
  wp (resolve (length (operations (current_function c))) T p) c Q.
Proof.
  intros Hst (op & Hop & close0 & -> & Hnone) Hdis HQ. unfold resolve.
  eapply (cwp_bind _ _ _ (fun _ c' => c' = c /\ (jump_top p <=? T) = true)); [by apply wp_guard|].
  intros [] c0 [-> Hle]. eapply wp_read; [by rewrite Hle|]. case_bool; [done|].
  eapply wp_read; [reflexivity|]. cbn beta. rewrite Hop. cbn. rewrite Hnone.
  eapply (cwp_bind _ _ _ (fun off c' => c' = c /\ _)).
  { apply cwp_ok_or. intros off Hoff. split; [done|]. exact (jump_offset_spec _ _ _ Hoff). }
  intros off c0 (-> & Hoff & Htarget). eapply (cwp_bind _ _ _ (fun o c' => c' = c /\ Opt254.wf o)).
  { case_bool; [by apply wp_close_above|]. apply cwp_ret. split; [done|]. destruct Hst as [[Hc _ _ _] _].
    by destruct (proj1 (Forall_lookup _ _) (core_ops _ _ _ Hc) _ _ Hop). }
  intros o c0 [-> Ho]. apply wp_modify. apply HQ.
  - by eapply rewritten_insert.
  - intros i Hi. cbn. by rewrite list_lookup_insert_ne.
Qed.

Lemma wp_resolve_all b T ps : forall c, st b 0 c -> Forall (has_placeholder c) ps ->
  NoDup (map jump_instruction ps) ->
  (forall p q, p ∈ ps -> q ∈ pending_jumps (current_function c) -> jump_instruction q <> jump_instruction p) ->
  wp (for_each (resolve (length (operations (current_function c))) T) ps) c (fun _ c' => rewritten b c c').
Proof.
  induction ps as [|p ps IH]; intros c Hst Hp Hnd Hdis; cbn [for_each].
  - apply cwp_ret. exists (operations (current_function c)). destruct c as [i [] u]. by split_and!.
  - apply Forall_cons in Hp as [Hpp Hps]. apply NoDup_cons in Hnd as [Hnp Hnd].
    eapply cwp_bind.
    { apply (wp_resolve b T p c (fun _ c' => rewritten b c c' /\ forall i, i <> jump_instruction p ->
        operations (current_function c') !! i = operations (current_function c) !! i)); [done|done| |done].
      intros q Hq. apply Hdis; [by left|done]. }
    intros _ c1 [Hr Hi]. pose proof Hr as (ops & -> & _ & Hl & Hst1).
    change (length (operations (current_function c))) with (length (operations (current_function c))).
    rewrite <- Hl. eapply cwp_mono.
    + apply (IH (with_ops ops c)); [done| |done|].
      * apply Forall_forall. intros q Hq. destruct (proj1 (Forall_forall _ _) Hps q Hq) as (o & Ho & Hpl).
        exists o. split; [|done]. rewrite Hi; [done|]. intros E. apply Hnp. rewrite <- E.
        by apply list_elem_of_fmap_2.
      * intros p' q Hp' Hq. apply Hdis; [by right|done].
    + intros ? c' Hc'. by eapply rewritten_trans.
Qed.

Record targeted b (l : JumpLabel.t IString) c c' : Prop := {
  tg_st : st b 0 c';
  tg_ext : forall id, id <= unique_jump_id (current_function c) ->
    (forall i, l = JumpLabel.Unique i -> id <= i) -> cext_since id c c';
  tg_regs : same_regs c c';
  tg_locals : locals (current_function c') = locals (current_function c);
  tg_targets : jump_targets (current_function c') =
    mk_JumpTarget l (length (operations (current_function c))) (top c)
      (length (blocks (current_function c)) - 1) :: jump_targets (current_function c);
  tg_id : unique_jump_id (current_function c') = unique_jump_id (current_function c);
  tg_pending : pending_jumps (current_function c') =
    retained l (length (blocks (current_function c)) - 1) (pending_jumps (current_function c))
}.

Lemma NoDup_map_filter {A B} (g : A -> B) (h : A -> bool) l : NoDup (map g l) -> NoDup (map g (List.filter h l)).
Proof.
  induction l as [|x l IH]; cbn; [done|]. intros Hnd. apply NoDup_cons in Hnd as [Hx Hnd].
  case_bool; [|by apply IH]. cbn. constructor; [|by apply IH]. intros Hin. apply Hx.
  apply list_elem_of_fmap in Hin as (y & -> & Hy). apply list_elem_of_fmap_2.
  apply list_elem_of_In, filter_In in Hy as [Hy _]. by apply list_elem_of_In.
Qed.

Lemma StronglySorted_filter {A} (R : A -> A -> Prop) (h : A -> bool) l :
  StronglySorted R l -> StronglySorted R (List.filter h l).
Proof.
  induction 1 as [|x l Hl IH Hx]; cbn; [constructor|]. case_bool; [|done]. constructor; [done|].
  apply Forall_forall. intros y Hy. apply list_elem_of_In, filter_In in Hy as [Hy _].
  apply (proj1 (Forall_forall _ _) Hx). by apply list_elem_of_In.
Qed.

Lemma elem_of_filter_bool {A} (h : A -> bool) l x : x ∈ List.filter h l <-> x ∈ l /\ h x = true.
Proof. by rewrite !list_elem_of_In, filter_In. Qed.

Lemma resolving_in l n ps p : p ∈ resolving l n ps -> p ∈ ps /\ resolves l n p = true.
Proof.
  unfold resolving. rewrite list_elem_of_In, <- in_rev, <- list_elem_of_In. apply elem_of_filter_bool.
Qed.

Lemma NoDup_map_inj {A B} (g : A -> B) l x y : NoDup (map g l) -> x ∈ l -> y ∈ l -> g x = g y -> x = y.
Proof.
  induction l as [|z l IH]; cbn; intros Hnd Hx Hy E; [by apply not_elem_of_nil in Hx|].
  apply NoDup_cons in Hnd as [Hz Hnd]. apply elem_of_cons in Hx as [->|Hx], Hy as [->|Hy]; try done.
  - destruct Hz. rewrite E. by apply list_elem_of_fmap_2.
  - destruct Hz. rewrite <- E. by apply list_elem_of_fmap_2.
  - by apply IH.
Qed.

(** The label defined and its jumps taken off the list, before they are resolved *)
Definition defined l c : compiler :=
  let n := (length (blocks (current_function c)) - 1)%nat in
  mk_compiler (string_interner c)
    (set_pending_jumps (retained l n (pending_jumps (current_function c)))
      (set_jump_targets (mk_JumpTarget l (length (operations (current_function c))) (top c) n ::
        jump_targets (current_function c)) (current_function c))) (upper_functions c).

Lemma st_defined b l c : st b 0 c -> (is_unique l \/ top c <= b) ->
  (forall id, l = JumpLabel.Unique id -> id < unique_jump_id (current_function c)) -> st b 0 (defined l c).
Proof.
  intros [Hinv He] Htop Hid. split; [|done]. eapply (inv_current b 0 b 0 c); [done| | |done].
  - destruct (inv_core _ _ _ Hinv). by split.
  - destruct (inv_scope _ _ _ Hinv) as [Hs Hb Ht Hp Hso Hnd]. split; try done; cbn.
    + constructor; [|eapply Forall_impl; [exact Ht|]; by intros ? []]. split; cbn; try done.
      unfold entered in He. destruct (blocks (current_function c)); [done|]. cbn. lia.
    + apply Forall_forall. intros p Hin. apply elem_of_filter_bool in Hin as [Hin _].
      by destruct (proj1 (Forall_forall _ _) Hp p Hin).
    + by apply StronglySorted_filter.
    + by apply NoDup_map_filter.
Qed.

Lemma wp_jump_target b l c (Q : unit -> compiler -> Prop) : st b 0 c -> (is_unique l \/ top c <= b) ->
  (forall id, l = JumpLabel.Unique id -> id < unique_jump_id (current_function c)) ->
  (forall c', targeted b l c c' -> Q tt c') -> wp (jump_target l) c Q.
Proof.
  intros Hst Htop Hid HQ. unfold jump_target. eapply wp_read; [reflexivity|]. eapply wp_read; [reflexivity|].
  eapply (cwp_bind _ _ _ (fun n c' => c' = c /\ n = (length (blocks (current_function c)) - 1)%nat)).
  { apply wp_current_block_index; [apply Hst|]. intros n Hn. split; [done|lia]. }
  intros n c0 [-> ->]. eapply wp_read; [reflexivity|]. case_bool; [done|].
  set (n := (length (blocks (current_function c)) - 1)%nat).
  pose proof (st_defined b l c Hst Htop Hid) as Hd. pose proof Hst as [Hinv He].
  pose proof (inv_scope _ _ _ Hinv) as Hsc.
  eapply (cwp_bind _ _ _ (fun _ c' => c' = mk_compiler (string_interner c)
    (set_jump_targets (mk_JumpTarget l (length (operations (current_function c))) (top c) n ::
      jump_targets (current_function c)) (current_function c)) (upper_functions c))); [by apply wp_modify|].
  intros [] c0 ->. eapply wp_read.
  { unfold rust_assert, lift. rewrite (proj2 (forallb_forall _ _)); [reflexivity|]. intros p Hin.
    apply list_elem_of_In in Hin. apply Nat.leb_le.
    destruct (po_bottom _ _ (proj1 (Forall_forall _ _) (scope_pending _ _ Hsc) p Hin)) as (z & Hz & _).
    apply bottom_of_lt in Hz. lia. }
  eapply (cwp_bind _ _ _ (fun _ c' => c' = defined l c)); [by apply wp_modify|]. intros [] c0 ->.
  eapply cwp_mono.
  - apply (wp_resolve_all b (top c) (resolving l n (pending_jumps (current_function c))) (defined l c)); [done|..].
    + apply Forall_forall. intros p Hin. apply resolving_in in Hin as [Hin _].
      apply (po_placeholder _ _ (proj1 (Forall_forall _ _) (scope_pending _ _ Hsc) p Hin)).
    + unfold resolving. rewrite map_rev. apply NoDup_ListNoDup, List.NoDup_rev, NoDup_ListNoDup.
      apply NoDup_map_filter, Hsc.
    + intros p q Hp Hq. apply resolving_in in Hp as [Hp Hpr]. cbn in Hq.
      apply elem_of_filter_bool in Hq as [Hq Hqr]. intros E.
      assert (q = p) as -> by (eapply NoDup_map_inj; [apply (scope_nodup _ _ Hsc)|done..]).
      fold n in Hqr. by rewrite Hpr in Hqr.
  - intros [] c' (ops & -> & Hf & Hl & Hst'). apply HQ. split; try done.
    intros id Hle Hu. split; [|cbn; apply Forall2_refl, _]. split; cbn; try done.
    eexists [_]. split; [done|]. apply Forall_singleton. intros i. cbn. apply Hu.
Qed.

(** ** Blocks

    Between statements the registers in use are those of the variables in scope and of the
    loops around: the first [b]. *)
Definition contiguous b c : Prop := forall j, regs c j = (0 <=? j) && (j <? b).
Definition sst b c : Prop := st b 0 c /\ contiguous b c.

Lemma contiguous_top b k c : st b k c -> contiguous b c -> top c = b.
Proof.
  intros Hst Hc. pose proof Hst as [[Hcore _ _ _] _]. pose proof (core_bound _ _ _ Hcore).
  apply (top_unique _ _ _ _ Hst); [lia| |].
  - intros j. rewrite Hc. intros Hj. bool_to_prop. lia.
  - intros Hpos. rewrite Hc, (proj2 (Z.leb_le _ _)), (proj2 (Z.ltb_lt _ _)) by lia. done.
Qed.

Definition entered_block c : compiler :=
  mk_compiler (string_interner c)
    (set_blocks (mk_BlockDescriptor (top c) (length (jump_targets (current_function c))) false ::
      blocks (current_function c)) (current_function c)) (upper_functions c).

Lemma bottom_of_enter f x n z : bottom_of f n = Some z ->
  bottom_of (set_blocks (x :: blocks f) f) n = Some z.
Proof.
  unfold bottom_of. cbn. intros Hz. apply fmap_Some in Hz as (y & Hy & ->).
  by rewrite (lookup_app_l_Some _ _ _ _ Hy).
Qed.

Lemma st_enter b c : inv b 0 c -> top c = b -> st b 0 (entered_block c).
Proof.
  intros Hinv Htop. split; [|done]. eapply (inv_current b 0 b 0 c); [done| | |done].
  - destruct (inv_core _ _ _ Hinv). by split.
  - destruct (inv_scope _ _ _ Hinv) as [Hs Hb Ht Hp Hso Hnd].
    pose proof (core_bound _ _ _ (inv_core _ _ _ Hinv)). split; try done; cbn.
    + constructor; [done|]. cbn. eapply Forall_impl; [exact Hb|]. cbn. lia.
    + constructor; [cbn; lia|done].
    + eapply Forall_impl; [exact Ht|]. intros t [? ? ? ?]. split; cbn; (done || lia).
    + eapply Forall_impl; [exact Hp|]. intros p [(z & Hz & Hle) ? ?]. split; [|done..].
      exists z. split; [|done]. by apply bottom_of_enter.
Qed.

(** Consecutive registers, the highest first: those of the variables of a block *)
Fixpoint descending (b : Z) (n : nat) : list Z :=
  match n with O => [] | S n => b + Z.of_nat n :: descending b n end.

Definition local_register (l : IString * RegisterIndex * LocalAttributes) : Z := register_index l.1.2.

Lemma free_locals_spec b news : forall r old, RegisterAllocator.wf r ->
  map local_register news = descending b (length news) -> 0 <= b ->
  (forall j, RegisterAllocator.registers r j = (0 <=? j) && (j <? b + Z.of_nat (length news))) ->
  Forall (fun l => local_register l < b) old ->
  exists r', free_locals b (news ++ old) r = Ok (old, r') /\ RegisterAllocator.wf r' /\
    RegisterAllocator.stack_size r' = RegisterAllocator.stack_size r /\
    forall j, RegisterAllocator.registers r' j = (0 <=? j) && (j <? b).
Proof.
  induction news as [|[[n reg] a] news IH]; intros r old Hwf Hd Hb Hr Hold.
  - exists r. split; [|split_and!; try done].
    + destruct old as [|[[n reg] a] old]; [done|]. apply Forall_cons in Hold as [Hreg _]. cbn in *.
      unfold local_register in Hreg. cbn in Hreg. by rewrite (proj2 (Z.leb_gt _ _)).
    + intros j. rewrite Hr. cbn. by rewrite Z.add_0_r.
  - cbn in Hd. injection Hd as Hreg Hd. unfold local_register in Hreg. cbn in Hreg.
    cbn [app free_locals]. rewrite (proj2 (Z.leb_le _ _)) by lia.
    destruct reg as [i]. cbn in Hreg. subst i.
    assert (Hused : RegisterAllocator.registers r (b + Z.of_nat (length news)) = true).
    { rewrite Hr, (proj2 (Z.leb_le _ _)), (proj2 (Z.ltb_lt _ _)); cbn; lia || done. }
    pose proof (RegisterAllocator.wf_used_range _ _ Hwf Hused). pose proof (RegisterAllocator.wf_top _ Hwf).
    pose proof (proj2 (RegisterAllocator.release_spec _ Hwf) (b + Z.of_nat (length news)) ltac:(lia)) as Hf.
    destruct (RegisterAllocator.free _ r) as [r1|]; [|congruence].
    destruct Hf as (_ & Hwf1 & Hsz1 & Hr1). rewrite outcome_bind_Ok.
    destruct (IH r1 old Hwf1 Hd Hb) as (r' & -> & Hwf' & Hsz & Hr'); [|done|].
    + intros j. rewrite Hr1, Hr. cbn [length].
      destruct (Z.eqb_spec j (b + Z.of_nat (length news))), (Z.leb_spec 0 j),
        (Z.ltb_spec j (b + Z.of_nat (S (length news)))), (Z.ltb_spec j (b + Z.of_nat (length news)));
        cbn; (done || lia).
    + exists r'. split_and!; try done. congruence.
Qed.

(** What a sequence of statements leaves: new variables in consecutive registers *)
Record stmts id b b' c c' : Prop := {
  sm_st : sst b' c';
  sm_ext : cext_since id c c';
  sm_le : b <= b';
  sm_locals : exists news, locals (current_function c') = news ++ locals (current_function c) /\
    map local_register news = descending b (length news) /\ b' = b + Z.of_nat (length news)
}.

Lemma drain_targets_app ts (old : list (JumpTarget IString)) : drain_targets (length old) (ts ++ old) = Ok old.
Proof.
  unfold drain_targets. rewrite length_app, (proj2 (Nat.leb_le _ _)) by lia.
  by rewrite Nat.add_sub, drop_app_length.
Qed.

Lemma lower_jumps_spec n t owned ps :
  StronglySorted (fun p q : PendingJump IString => (jump_block q <= jump_block p)%nat) ps ->
  Forall (fun p => (jump_block p <= n)%nat /\ ((n <= jump_block p)%nat -> t <= jump_top p)) ps ->
  exists ps', lower_jumps n t owned ps = Ok ps' /\
    Forall2 (fun p p' => target p' = target p /\ jump_instruction p' = jump_instruction p /\
      if (jump_block p <? n)%nat then jump_block p' = jump_block p /\ jump_top p' = jump_top p
      else jump_block p' = (n - 1)%nat /\ jump_top p' = t) ps ps'.
Proof.
  induction 1 as [|p ps Hs IH Hp]; intros Hall; cbn [lower_jumps]; [by exists []|].
  apply Forall_cons in Hall as [[Hle Ht] Hall]. destruct (Nat.ltb_spec (jump_block p) n) as [Hlt|Hge].
  - exists (p :: ps). split; [done|]. constructor; [rewrite (proj2 (Nat.ltb_lt _ _) Hlt); done|].
    clear -Hp Hlt. induction Hp as [|q ps Hq _ IH]; [done|]. constructor; [|done].
    rewrite (proj2 (Nat.ltb_lt _ _)) by lia. done.
  - rewrite (proj2 (Z.leb_le _ _)) by (by apply Ht). cbn [Prelude.rust_assert]. rewrite outcome_bind_Ok.
    destruct (IH Hall) as (ps' & -> & Hps). rewrite outcome_bind_Ok. eexists. split; [reflexivity|].
    constructor; [|done]. by rewrite (proj2 (Nat.ltb_ge _ _) Hge).
Qed.


(** Leaving the block that was entered at [c0], where [b] registers were in use *)
Definition left_block r ps c0 c : compiler :=
  let f := current_function c in
  mk_compiler (string_interner c)
    (set_pending_jumps ps (set_jump_targets (jump_targets (current_function c0)) (set_register_allocator r
      (set_locals (locals (current_function c0)) (set_blocks (tail (blocks f)) f))))) (upper_functions c).

Record exits b c0 c x rest r : Prop := {
  ex_blocks : blocks (current_function c) = x :: rest;
  ex_rest : Forall2 same_block (blocks (current_function c0)) rest;
  ex_bottom : stack_bottom x = b;
  ex_free : free_locals b (locals (current_function c)) (register_allocator (current_function c)) =
    Ok (locals (current_function c0), r);
  ex_drain : drain_targets (bottom_jump_target x) (jump_targets (current_function c)) =
    Ok (jump_targets (current_function c0));
  ex_wf : RegisterAllocator.wf r;
  ex_size : RegisterAllocator.stack_size r = s_registers (csizes c);
  ex_regs : forall j, RegisterAllocator.registers r j = (0 <=? j) && (j <? b)
}.

Lemma stmts_exits id b b' c0 c : inv b 0 c0 -> top c0 = b -> stmts id b b' (entered_block c0) c ->
  exists x rest r, exits b c0 c x rest r.
Proof.
  intros Hinv Htop [[Hst Hcont] [Hx _] Hle (news & El & Hd & ->)].
  destruct (fx_targets _ _ _ Hx) as (ts & Et & _). pose proof (fx_blocks _ _ _ Hx) as Hb. cbn in Et, El, Hb.
  inversion Hb as [|y x bs rest [Eb Ej] Hrest E1 E2]. subst.
  pose proof (core_bound _ _ _ (inv_core _ _ _ Hinv)).
  destruct (free_locals_spec (top c0) news (register_allocator (current_function c)) (locals (current_function c0)))
    as (r & Hf & Hwf & Hsz & Hr); [by apply (st_wf _ _ _ Hst)|done|lia|exact Hcont| |].
  { eapply Forall_impl; [apply (core_locals _ _ _ (inv_core _ _ _ Hinv))|]. unfold local_register. intros l. cbn. lia. }
  exists x, rest, r. split; try done.
  - by rewrite El.
  - rewrite Et. cbn in Ej. rewrite Ej. apply drain_targets_app.
Qed.

Lemma fext_left id b b' r ps c0 c x rest : cext_since id (entered_block c0) c -> exits b c0 c x rest r ->
  st b' 0 c -> cext_since id c0 (left_block r ps c0 c).
Proof.
  intros [[] Hup] [Eb Hrest _ _ _ _ Hsz _] Hst. split; [|done]. split; cbn; try done.
  - by rewrite Eb.
  - by exists [].
  - unfold sizes_le, csizes in *. cbn in *. rewrite Hsz. done.
Qed.

Lemma core_left b b' r ps c0 c x rest : inv b 0 c0 -> st b' 0 c -> exits b c0 c x rest r ->
  core b 0 (current_function (left_block r ps c0 c)).
Proof.
  intros Hinv [[Hc _ _ _] _] [_ _ _ _ _ Hwf Hsz Hr].
  pose proof (inv_core _ _ _ Hinv) as Hc0. destruct Hc as [Hwf' Hb' Hu Hops Hcode Hl Hct Hf Hp].
  assert (Hs : sizes_le (csizes c) (fsizes (current_function (left_block r ps c0 c)))).
  { unfold sizes_le, csizes in *. cbn in *. lia. }
  split; cbn; try done.
  - apply Hc0.
  - intros j Hj. unfold freg. cbn. rewrite Hr, (proj2 (Z.leb_le _ _)), (proj2 (Z.ltb_lt _ _)) by lia. done.
  - eapply Forall_impl; [exact Hops|]. intros. by eapply op_ok_le.
  - apply Hc0.
  - eapply Forall_impl; [exact Hf|]. intros. by eapply inner_wf_le.
  - unfold csizes in Hsz. cbn in Hsz. rewrite Hsz. done.
Qed.

Lemma bottom_of_outer f x rest n : blocks f = x :: rest -> (n < length rest)%nat ->
  forall z, bottom_of f n = Some z -> stack_bottom <$> rev rest !! n = Some z.
Proof.
  intros E Hn z. unfold bottom_of. rewrite E. cbn. by rewrite lookup_app_l by (rewrite length_rev; lia).
Qed.

(** The pending jumps of a block that ends, lowered *)
Definition lowered n t (p p' : PendingJump IString) : Prop :=
  target p' = target p /\ jump_instruction p' = jump_instruction p /\
  if (jump_block p <? n)%nat then jump_block p' = jump_block p /\ jump_top p' = jump_top p
  else jump_block p' = (n - 1)%nat /\ jump_top p' = t.

Lemma lower_exits b b' c0 c x rest r : st b' 0 c -> exits b c0 c x rest r ->
  exists ps, lower_jumps (length rest) b (owns_upvalues x) (pending_jumps (current_function c)) = Ok ps /\
    Forall2 (lowered (length rest) b) (pending_jumps (current_function c)) ps.
Proof.
  intros [[_ Hs _ _] _] [Eb _ Hbot _ _ _ _ _]. apply lower_jumps_spec; [apply Hs|].
  eapply Forall_impl; [apply (scope_pending _ _ Hs)|]. intros p [(z & Hz & Hle) _ _].
  pose proof (bottom_of_lt _ _ _ Hz) as Hlt. rewrite Eb in Hlt. cbn in Hlt. split; [lia|]. intros Hge.
  replace (jump_block p) with (length rest) in Hz by lia.
  rewrite (bottom_of_newest _ _ _ Eb) in Hz. injection Hz as <-. lia.
Qed.

Lemma lowered_sorted n t ps ps' : Forall2 (lowered n t) ps ps' ->
  StronglySorted (fun p q : PendingJump IString => (jump_block q <= jump_block p)%nat) ps ->
  StronglySorted (fun p q : PendingJump IString => (jump_block q <= jump_block p)%nat) ps'.
Proof.
  assert (Hb : forall p p', lowered n t p p' -> jump_block p' = Nat.min (jump_block p) (n - 1)).
  { intros p p' (_ & _ & Hb). destruct (Nat.ltb_spec (jump_block p) n); destruct Hb as [-> _]; lia. }
  induction 1 as [|p p' ps ps' Hp Hps IH]; [constructor|]. intros Hs.
  apply StronglySorted_inv in Hs as [Hs Hall]. constructor; [by apply IH|].
  rewrite (Hb _ _ Hp). clear IH Hs. induction Hps as [|q q' ps ps' Hq _ IH]; [done|].
  apply Forall_cons in Hall as [? ?]. constructor; [rewrite (Hb _ _ Hq); lia|by apply IH].
Qed.

Lemma lowered_instructions n t ps ps' : Forall2 (lowered n t) ps ps' ->
  map jump_instruction ps' = map jump_instruction ps.
Proof. induction 1 as [|p p' ps ps' (_ & E & _) _ IH]; cbn; congruence. Qed.

Lemma scope_left b b' r ps c0 c x rest : sst b c0 -> st b' 0 c -> exits b c0 c x rest r ->
  fext_since (unique_jump_id (current_function c0) - 1) (current_function c0)
    (current_function (left_block r ps c0 c)) ->
  Forall2 (lowered (length rest) b) (pending_jumps (current_function c)) ps ->
  scope b (current_function (left_block r ps c0 c)).
Proof.
  intros [[Hinv0 He0] _] [[_ Hs _ _] _] Hex Hx Hps. destruct Hex as [Eb Hrest Hbot _ _ _ _ _].
  pose proof (inv_scope _ _ _ Hinv0) as Hs0. pose proof (Forall2_length _ _ _ Hrest) as Elen.
  assert (Hne : (0 < length rest)%nat).
  { rewrite <- Elen. unfold entered in He0. destruct (blocks (current_function c0)); [done|cbn; lia]. }
  destruct Hs as [Hss Hb Ht Hp Hso Hnd]. rewrite Eb in Hss. apply StronglySorted_inv in Hss as [Hss Hx'].
  rewrite Eb in Hb. apply Forall_cons in Hb as [Hxb Hb]. pose proof (fx_ops _ _ _ Hx) as [Hlen _].
  pose proof (fx_id _ _ _ Hx) as Hid. cbn in Hid, Hlen. split; cbn; rewrite ?Eb; cbn [tail]; try done.
  - apply Forall_forall. intros y Hy. pose proof (proj1 (Forall_forall _ _) Hx' y Hy).
    pose proof (proj1 (Forall_forall _ _) Hb y Hy). cbn in *. lia.
  - eapply Forall_impl; [apply (scope_targets _ _ Hs0)|]. intros t [? ? Hti ?].
    split; cbn; rewrite ?Eb; cbn; [lia|lia| |done]. intros i Hi. specialize (Hti i Hi). lia.
  - match goal with |- Forall (pending_ok ?g) _ => set (F := g) end.
    assert (Hok : forall p p', lowered (length rest) b p p' -> pending_ok (current_function c) p -> pending_ok F p').
    2:{ clear -Hok Hps Hp. clearbody F. induction Hps as [|p p' ps1 ps' Hpp _ IH]; [done|].
        apply Forall_cons in Hp as [? ?]. constructor; [by eapply Hok|by apply IH]. }
    intros p p' (Et & Ei & Hlow) [(z & Hz & Hle) Hpl Hpi].
    split; cbn; [|by rewrite Ei|by rewrite Et]. unfold F, bottom_of. cbn.
    destruct (Nat.ltb_spec (jump_block p) (length rest)) as [Hlt|Hge]; destruct Hlow as [-> ->].
    + exists z. split; [|done]. by eapply bottom_of_outer.
    + destruct (lookup_lt_is_Some_2 (rev rest) (length rest - 1)) as [y Hy]; [rewrite length_rev; lia|].
      rewrite Hy. exists (stack_bottom y). split; [done|].
      assert (y ∈ rest) as Hin by (rewrite list_elem_of_In, in_rev, <- list_elem_of_In; by eapply list_elem_of_lookup_2).
      pose proof (proj1 (Forall_forall _ _) Hx' y Hin). cbn in *. lia.
  - by eapply lowered_sorted.
  - by erewrite lowered_instructions.
Qed.

Record exited id b c0 c' : Prop := {
  xt_st : sst b c';
  xt_ext : cext_since id c0 c';
  xt_locals : locals (current_function c') = locals (current_function c0);
  xt_targets : jump_targets (current_function c') = jump_targets (current_function c0)
}.

Lemma exited_left id b b' r ps c0 c x rest : sst b c0 -> cext_since id (entered_block c0) c -> st b' 0 c ->
  exits b c0 c x rest r -> Forall2 (lowered (length rest) b) (pending_jumps (current_function c)) ps ->
  exited id b c0 (left_block r ps c0 c).
Proof.
  intros Hsst Hx Hst Hex Hps. pose proof (fext_left id b b' r ps c0 c x rest Hx Hex Hst) as Hx'.
  pose proof Hsst as [[Hinv0 He0] _]. split; try done.
  - split.
    + split; [|by eapply cext_entered]. pose proof Hst as [[_ _ Hu Hch] _]. split; [|..|done|exact Hch].
      * by eapply core_left.
      * eapply scope_left; try done. destruct Hx' as [[] _]. split; try done. by exists [].
    + intros j. apply Hex.
Qed.

Lemma exited_emitted id b c0 c o : exited id b c0 c -> Opt254.wf o ->
  exited id b c0 (emitted (Operation.Jump 0 o) c).
Proof.
  intros [[Hst Hc] Hx Hl Ht] Ho.
  assert (Hs : step b 0 c (emitted (Operation.Jump 0 o) c)).
  { apply (step_emitted b 0 0); [done|split; [apply offset_0_ok|done]|cbn [op_target]; lia|lia]. }
  destruct Hs as [Hst' [Hx' _]]. split; try done. etrans; [exact Hx|].
  destruct Hx' as [[] ?]. split; [|done]. split; try done. by exists [].
Qed.

(** The code and the tables have not shrunk. *)
Definition later c c' : Prop :=
  sizes_le (csizes c) (csizes c') /\ (length (operations (current_function c)) <= length (operations (current_function c')))%nat.

Lemma later_left b c0 c x rest r ps : exits b c0 c x rest r -> later c (left_block r ps c0 c).
Proof.
  intros [_ _ _ _ _ _ Hsz _]. split; [|done]. unfold sizes_le, csizes in *. cbn in *. lia.
Qed.

(** Leaving a block gives back the registers of its variables and forgets its labels. *)
Lemma wp_exit_block_later id b b' c0 c (Q : unit -> compiler -> Prop) : sst b c0 ->
  stmts id b b' (entered_block c0) c -> (forall c', exited id b c0 c' -> later c c' -> Q tt c') ->
  wp exit_block c Q.
Proof.
  intros Hsst Hsm HQ. pose proof Hsst as [Hst0 Hc0]. pose proof (contiguous_top _ _ _ Hst0 Hc0) as Htop.
  destruct (stmts_exits id b b' c0 c) as (x & rest & r & Hex); [apply Hst0|done|done|].
  destruct Hsm as [[Hst _] Hx _ _].
  destruct (lower_exits b b' c0 c x rest r Hst Hex) as (ps & Hlow & Hps).
  pose proof (exited_left id b b' r ps c0 c x rest Hsst Hx Hst Hex Hps) as Hexit.
  pose proof (later_left b c0 c x rest r ps Hex) as Hlater.
  destruct Hex as [Eb Hrest Hbot Hfree Hdrain Hwf Hsz Hr].
  assert (Hne : rest <> []).
  { intros ->. pose proof (Forall2_length _ _ _ Hrest). destruct Hst0 as [_ He]. unfold entered in He.
    by destruct (blocks (current_function c0)). }
  assert (Hrtop : RegisterAllocator.stack_top r = b).
  { destruct Hexit as [[Hst' Hc'] _ _ _]. exact (contiguous_top _ _ _ Hst' Hc'). }
  unfold exit_block. eapply wp_read; [reflexivity|]. cbn beta. rewrite Eb.
  eapply cwp_bind; [apply (wp_lift _ (locals (current_function c0), r) _ (fun a c' => a = (locals (current_function c0), r) /\ c' = c));
    [by rewrite Hbot|done]|]. intros a c1 [-> ->].
  eapply cwp_bind; [by apply (wp_lift _ _ _ (fun a c' => a = jump_targets (current_function c0) /\ c' = c) Hdrain)|].
  intros a c1 [-> ->]. rewrite bool_decide_eq_false_2 by done. rewrite andb_true_r.
  set (c2 := left_block r (pending_jumps (current_function c)) c0 c).
  eapply (cwp_bind _ _ _ (fun _ c' => c' = c2)); [apply wp_modify; unfold c2, left_block; by rewrite Eb|].
  intros [] c1 ->.
  eapply (cwp_bind _ _ _ (fun _ c' => c' = c2 \/ exists o, Opt254.wf o /\ c' = emitted (Operation.Jump 0 o) c2)).
  { destruct (owns_upvalues x); [|by left]. eapply cwp_bind.
    { apply (wp_close_above _ _ (fun o c' => Opt254.wf o /\ c' = c2)). done. }
    intros o c' [Ho ->]. apply wp_modify. right. by exists o. }
  intros [] c3 Hc3. assert (Etop : top c3 = b) by (by destruct Hc3 as [->|(o & _ & ->)]).
  assert (Epend : pending_jumps (current_function c3) = pending_jumps (current_function c))
    by (by destruct Hc3 as [->|(o & _ & ->)]).
  eapply wp_read; [reflexivity|]. eapply wp_read; [reflexivity|]. cbn beta.
  eapply cwp_bind; [apply (wp_lift _ ps _ (fun a c' => a = ps /\ c' = c3)); [|done]|].
  { rewrite Epend. fold (ftop (current_function c3)). fold (top c3). by rewrite Etop. }
  intros a c' [-> ->]. apply wp_modify. destruct Hc3 as [->|(o & Ho & ->)]; [by apply HQ|].
  apply HQ; [by apply (exited_emitted id b c0 (left_block r ps c0 c))|].
  destruct Hlater as [Hl1 Hl2]. split; [exact Hl1|]. cbn in *. rewrite length_app. cbn. lia.
Qed.

Lemma wp_exit_block id b b' c0 c (Q : unit -> compiler -> Prop) : sst b c0 ->
  stmts id b b' (entered_block c0) c -> (forall c', exited id b c0 c' -> Q tt c') -> wp exit_block c Q.
Proof. intros Hs Hst HQ. apply (wp_exit_block_later id b b' c0); [done..|]. auto. Qed.
End CompilerJumps.
End CompilerJumps.
