(* ===== verification/CompilerDischarge.v ===== *)
(** * Expressions keep the register discipline

    Every function that consumes a descriptor: it does not panic, the instructions it emits
    are well-formed, and the registers in use after it are those before it, with the result
    where the result is new. *)

From stdpp Require Import sorting.
From S2P Require Import Prelude Float64 Lexer Opcode Constant Operators Parser RegisterAllocator CompilerState CompilerExpr CompilerCode CompilerFacts CompilerSteps CompilerJumps.
Import Ast Compiler Discharge CompilerFacts CompilerSteps CompilerJumps.

Module CompilerDischarge.
Section CompilerDischarge.
Context `{BuildProfile} `{FloatLib} `{StringInterner}.
#[local] Existing Instance checking.
#[local] Existing Instance name_bytes.
Abbreviation descriptor := (ExprDescriptor.t IString).
Implicit Types (e : descriptor) (c : compiler) (b k : Z) (r : RegisterIndex).
Abbreviation ri := register_index.

(** ** Descriptors that refer to what exists *)
Fixpoint descriptor_ok (V : VariableDescriptor.t IString -> Prop) (P : PrototypeIndex -> Prop) e : Prop :=
  match e with
  | ExprDescriptor.Variable_ v => V v
  | ExprDescriptor.Constant _ | ExprDescriptor.VarArgs => True
  | ExprDescriptor.UnaryOperator _ e | ExprDescriptor.Group e => descriptor_ok V P e
  | ExprDescriptor.SimpleBinaryOperator x _ y | ExprDescriptor.Comparison x _ y
  | ExprDescriptor.ShortCircuitBinOp x _ y | ExprDescriptor.TableField x y =>
      descriptor_ok V P x /\ descriptor_ok V P y
  | ExprDescriptor.TableConstructor a kvs =>
      foldr (fun e Q => descriptor_ok V P e /\ Q) True a /\
      foldr (fun kv Q => (descriptor_ok V P kv.1 /\ descriptor_ok V P kv.2) /\ Q) True kvs
  | ExprDescriptor.Closure p => P p
  | ExprDescriptor.FunctionCall f args =>
      descriptor_ok V P f /\ foldr (fun e Q => descriptor_ok V P e /\ Q) True args
  | ExprDescriptor.MethodCall t m args =>
      descriptor_ok V P t /\ descriptor_ok V P m /\ foldr (fun e Q => descriptor_ok V P e /\ Q) True args
  | ExprDescriptor.Concat es => es <> [] /\ foldr (fun e Q => descriptor_ok V P e /\ Q) True es
  end.
Definition dok c e : Prop := descriptor_ok (variable_ok c) (prototype_ok (csizes c)) e.

Lemma foldr_Forall {A} (P : A -> Prop) l : foldr (fun x Q => P x /\ Q) True l <-> Forall P l.
Proof. induction l as [|x l IH]; cbn; [done|]. by rewrite Forall_cons, IH. Qed.

Lemma descriptor_ok_impl (V V' : VariableDescriptor.t IString -> Prop) (P P' : PrototypeIndex -> Prop) :
  (forall v, V v -> V' v) -> (forall p, P p -> P' p) -> forall e, descriptor_ok V P e -> descriptor_ok V' P' e.
Proof.
  intros HV HP. fix IH 1. intros [v|v| |op e|x op y|x op y|x op y|a kvs|x y|p|f args|t m args|es|e]; cbn; auto.
  1-3,5: intros [? ?]; split; by apply IH.
  - intros [Ha Hkv]. split.
    + induction a as [|e a IHa]; cbn in *; [done|]. destruct Ha. split; [by apply IH|by apply IHa].
    + induction kvs as [|[x y] kvs IHk]; cbn in *; [done|]. destruct Hkv as [[? ?] ?].
      split; [split; by apply IH|by apply IHk].
  - intros [Hf Ha]. split; [by apply IH|].
    induction args as [|e a IHa]; cbn in *; [done|]. destruct Ha. split; [by apply IH|by apply IHa].
  - intros (Ht & Hm & Ha). split; [by apply IH|]. split; [by apply IH|].
    induction args as [|e a IHa]; cbn in *; [done|]. destruct Ha. split; [by apply IH|by apply IHa].
  - intros [Hne Ha]. split; [done|]. clear Hne.
    induction es as [|e a IHa]; cbn in *; [done|]. destruct Ha. split; [by apply IH|by apply IHa].
Qed.

(** More registers in use, larger tables *)
Definition grows c c' : Prop := (forall j, regs c j = true -> regs c' j = true) /\ sizes_le (csizes c) (csizes c').
#[export] Instance grows_preorder : PreOrder grows.
Proof. split; [by intros c|]. intros x y z [? ?] [? ?]. split; [eauto|by etrans]. Qed.

Lemma dok_grows c c' e : grows c c' -> dok c e -> dok c' e.
Proof.
  intros [Hr Hs]. apply descriptor_ok_impl.
  - intros [r a|u a|n]; cbn; [apply Hr| |done]. by apply upvalue_ok_le.
  - intros p. by apply prototype_ok_le.
Qed.

(** ** Postconditions *)
Definition with_reg r c c' : Prop := forall j, regs c' j = (j =? ri r) || regs c j.
Definition fresh r c : Prop := regs c (ri r) = false /\ 0 <= ri r < 256.

Definition dest_ok c (dest : ExprDestination.t) : Prop :=
  match dest with ExprDestination.Register d => regs c (ri d) = true | _ => True end.
Definition placed b c (dest : ExprDestination.t) r c' : Prop :=
  step b 0 c c' /\
  match dest with
  | ExprDestination.Register d => r = d /\ same_regs c c'
  | ExprDestination.AllocateNew => fresh r c /\ with_reg r c c'
  | ExprDestination.PushNew => ri r = top c /\ top c < 255 /\ top c' = top c + 1 /\ with_reg r c c'
  end.

(** A register that holds a value, to be freed or not *)
Definition held b c (rt : RegisterIndex * bool) c' : Prop :=
  step b 0 c c' /\ regs c' (ri rt.1) = true /\
  if rt.2 then fresh rt.1 c /\ with_reg rt.1 c c' else same_regs c c'.
Definition operand b c (ro : RCIndex * option RegisterIndex) c' : Prop :=
  step b 0 c c' /\ rc_ok (csizes c') ro.1 /\
  match ro.2 with Some r => fresh r c /\ with_reg r c c' | None => same_regs c c' end.
(** A call leaves its results, not marked as used, from the top on. *)
Definition called b c r c' : Prop :=
  step b 0 c c' /\ same_regs c c' /\ ri r = top c /\ top c < 255 /\ reg_ok (csizes c') r.

Lemma with_reg_grows b r c c' : step b 0 c c' -> with_reg r c c' -> grows c c'.
Proof. intros Hs Hr. split; [|by eapply step_sizes]. intros j Hj. rewrite Hr, Hj. apply orb_true_r. Qed.
Lemma same_regs_grows b c c' : step b 0 c c' -> same_regs c c' -> grows c c'.
Proof. intros Hs Hr. split; [|by eapply step_sizes]. intros j. by rewrite Hr. Qed.
Lemma placed_grows b c dest r c' : placed b c dest r c' -> grows c c'.
Proof.
  intros [Hs Hp]. destruct dest; destruct_and?; eauto using with_reg_grows, same_regs_grows.
Qed.
Lemma held_grows b c rt c' : held b c rt c' -> grows c c'.
Proof. intros (Hs & _ & Hp). destruct rt as [r []]; cbn in *; destruct_and?; eauto using with_reg_grows, same_regs_grows. Qed.
Lemma operand_grows b c rt c' : operand b c rt c' -> grows c c'.
Proof. intros (Hs & _ & Hp). destruct rt as [r []]; cbn in *; destruct_and?; eauto using with_reg_grows, same_regs_grows. Qed.

Lemma with_reg_used r c c' : with_reg r c c' -> regs c' (ri r) = true.
Proof. intros Hr. by rewrite Hr, Z.eqb_refl. Qed.
Lemma placed_used b c dest r c' : placed b c dest r c' -> dest_ok c dest -> regs c' (ri r) = true.
Proof.
  intros [Hs Hp] Hd. destruct dest; cbn in *; destruct_and?; [|eauto using with_reg_used..].
  subst. by match goal with Hr : same_regs _ _ |- _ => rewrite Hr end.
Qed.
Lemma used_reg_ok b c c' r : step b 0 c c' -> regs c' (ri r) = true -> reg_ok (csizes c') r.
Proof. intros [Hst _] Hr. destruct r as [i]. by eapply regs_reg_ok. Qed.
Lemma placed_reg_ok b c dest r c' : placed b c dest r c' -> dest_ok c dest -> reg_ok (csizes c') r.
Proof. intros Hp Hd. eapply used_reg_ok; [apply Hp|]. by eapply placed_used. Qed.

(** A fresh register is above the variables. *)
Lemma fresh_above b k r c : st b k c -> fresh r c -> b <= ri r.
Proof.
  intros Hst [Hr ?]. destruct (Z.lt_ge_cases (ri r) b) as [Hlt|]; [|done].
  by rewrite (st_used _ _ _ _ Hst) in Hr by lia.
Qed.
Lemma top_fresh b k r c : st b k c -> ri r = top c -> top c < 255 -> fresh r c.
Proof.
  intros Hst E Ht. pose proof (top_bound _ _ _ Hst). destruct Hst as [Hi He].
  pose proof (core_bound _ _ _ (inv_core _ _ _ Hi)). split; [|lia].
  destruct (regs c (ri r)) eqn:Hr; [|done]. pose proof (regs_range b k c _ (conj Hi He) Hr). lia.
Qed.

(** Freeing what was fresh leads back. *)
Lemma wp_free_fresh b c0 c r (Q : unit -> compiler -> Prop) : st b 0 c0 -> st b 0 c -> fresh r c0 ->
  regs c (ri r) = true ->
  (forall c', step b 0 c c' -> (forall j, regs c' j = negb (j =? ri r) && regs c j) -> Q tt c') ->
  wp (free r) c Q.
Proof.
  intros Hst0 Hst Hf Hu HQ. eapply (wp_free b 0); [done|done|by apply (fresh_above b 0 r c0)|done].
Qed.
End CompilerDischarge.

(** The registers in use at the end of a chain of steps, from those at its start *)
Ltac regs_solve :=
  intros j;
  repeat match goal with
  | Hr : same_regs ?c ?d |- context [regs ?d _] => rewrite (Hr _)
  | Hr : with_reg _ ?c ?d |- context [regs ?d _] => rewrite (Hr _)
  | Hr : forall j, regs ?d j = _ |- context [regs ?d _] => rewrite (Hr _)
  end;
  repeat match goal with
  | |- context [?x =? ?y] => destruct (Z.eqb_spec x y); [subst|]
  end;
  cbn; try done; try congruence; try lia.

(** A step from a chain of steps, and the growth of the tables along it *)
Ltac steps :=
  match goal with
  | Hs : step ?b ?k ?c ?d |- step _ _ ?c ?e => first [exact Hs | eapply (step_step _ _ _ _ _ _ _ Hs); steps]
  end.
Ltac sizes := eapply step_sizes; steps.
Ltac plain_op := let i := fresh "i" in intros i; cbn; lia.

Section operations.
Context `{BuildProfile} `{FloatLib} `{StringInterner}.
#[local] Existing Instance checking.
#[local] Existing Instance name_bytes.
Abbreviation descriptor := (ExprDescriptor.t IString).
Implicit Types (e : descriptor) (c : compiler) (b : Z) (r : RegisterIndex).
Abbreviation ri := register_index.

Lemma top_step_le b c c' : st b 0 c -> st b 0 c' -> (forall j, regs c j = true -> regs c' j = true) -> top c <= top c'.
Proof.
  intros Hst Hst' Hr. pose proof (top_bound _ _ _ Hst) as [_ ?]. pose proof (top_bound _ _ _ Hst').
  pose proof (core_bound _ _ _ (inv_core _ _ _ (proj1 Hst))).
  destruct (Z.le_gt_cases (top c) (top c')) as [|Hgt]; [done|].
  pose proof (RegisterAllocator.wf_last _ (st_wf _ _ _ Hst)) as Hl. fold (ftop (current_function c)) in Hl.
  fold (top c) in Hl. specialize (Hl ltac:(lia)). specialize (Hr _ Hl).
  pose proof (regs_range _ _ _ _ Hst' Hr). lia.
Qed.

Lemma wp_new_destination b c dest (Q : RegisterIndex -> compiler -> Prop) : st b 0 c -> dest_ok c dest ->
  (forall r c', placed b c dest r c' -> Q r c') -> wp (new_destination dest) c Q.
Proof.
  intros Hst Hd HQ. destruct dest as [d| |]; cbn [new_destination].
  - apply cwp_ret. apply HQ. by split.
  - eapply (wp_allocate_or b 0); [done|]. intros r c' Hs Hf Hr Hw. apply HQ. by split.
  - eapply (wp_push_or b 0); [done|lia|]. intros r c' Hs Er _ Hlt Ht _ Hw. apply HQ. split; [done|].
    split_and!; [done|lia|done|]. intros j. rewrite Hw, Er.
    destruct (Z.eqb_spec j (top c)), (Z.leb_spec (top c) j), (Z.ltb_spec j (top c + 1)); (done || lia).
Qed.

(** The destination, then one instruction *)
Lemma wp_place b c dest (op : RegisterIndex -> Operation.t) (Q : RegisterIndex -> compiler -> Prop) :
  st b 0 c -> dest_ok c dest ->
  (forall r c', placed b c dest r c' -> grows c c' -> reg_ok (csizes c') r -> op_ok (csizes c') (op r) /\ plain (op r)) ->
  (forall r c', placed b c dest r c' -> Q r c') ->
  wp (bind (new_destination dest) (fun d => bind (emit (op d)) (fun _ => ret d))) c Q.
Proof.
  intros Hst Hd Hop HQ. apply wp_seq, (wp_new_destination b); [done..|]. intros r c1 Hp.
  destruct (Hop r c1 Hp) as [Hok Hpl]; [by eapply placed_grows|by eapply placed_reg_ok|].
  apply wp_seq, (wp_emit_plain b); [apply Hp|done..|]. intros c2 Hs2 Hr2. apply cwp_ret, HQ.
  destruct Hp as [Hs1 Hp]. split; [by eapply (step_step b 0); [exact Hs1|]|].
  assert (Ht : top c2 = top c1) by (eapply same_regs_top; [apply Hs1|apply Hs2|done]).
  destruct dest; destruct_and?; split_and?; try done; try congruence; try lia; regs_solve.
Qed.

Lemma placed_trans b c c' dest r c'' : st b 0 c -> step b 0 c c' -> same_regs c c' -> placed b c' dest r c'' ->
  placed b c dest r c''.
Proof.
  intros Hst Hs Hr [Hs' Hp]. split; [by eapply (step_step b 0); [exact Hs|]|].
  assert (Ht : top c' = top c) by (eapply same_regs_top; [exact Hst|apply Hs|done]).
  destruct dest; destruct_and?; split_and?; try congruence; try (unfold fresh in *; by rewrite <- Hr); regs_solve.
Qed.

(** Freeing what is held, and the rest as it was *)
Lemma wp_free_temp {A} b c0 c rt (k : M A) (Q : A -> compiler -> Prop) : st b 0 c0 -> held b c0 rt c ->
  (forall c', step b 0 c0 c' -> same_regs c0 c' -> reg_ok (csizes c') rt.1 -> wp k c' Q) ->
  wp (bind (if rt.2 then free rt.1 else ret tt) (fun _ => k)) c Q.
Proof.
  intros Hst (Hs & Hu & Hh) HQ. pose proof (used_reg_ok _ _ _ _ Hs Hu) as Hok. destruct rt as [r []]; cbn in *.
  - destruct Hh as [Hf Hw]. apply wp_seq, (wp_free_fresh b c0); [done|apply Hs|done..|].
    intros c' Hs' Hr'. apply HQ; [by eapply (step_step b 0); [exact Hs|]|destruct Hf; regs_solve|].
    eapply reg_ok_le; [by apply (step_sizes b 0)|done].
  - apply wp_seq, cwp_ret. by apply HQ.
Qed.

(** ** Optional temporaries *)
Definition has (o : option RegisterIndex) (j : Z) : bool := match o with Some r => j =? ri r | None => false end.

Lemma operand_has b c rc o c' : operand b c (rc, o) c' ->
  step b 0 c c' /\ rc_ok (csizes c') rc /\ (forall r, o = Some r -> fresh r c) /\
  forall j, regs c' j = has o j || regs c j.
Proof.
  intros (Hs & Hrc & Ho). cbn in *. destruct o as [r|]; split_and!; try done; try apply Ho.
  intros ? [= <-]. apply Ho.
Qed.

Lemma held_has b c r (t : bool) c' : held b c (r, t) c' ->
  step b 0 c c' /\ regs c' (ri r) = true /\ (forall r', (if t then Some r else None) = Some r' -> fresh r' c) /\
  forall j, regs c' j = has (if t then Some r else None) j || regs c j.
Proof.
  intros (Hs & Hu & Ho). cbn in *. destruct t; split_and!; try done; try apply Ho.
  intros ? [= <-]. apply Ho.
Qed.

Lemma wp_free_opt b c0 c o (Q : unit -> compiler -> Prop) : st b 0 c0 -> st b 0 c ->
  (forall r, o = Some r -> fresh r c0 /\ regs c (ri r) = true) ->
  (forall c', step b 0 c c' -> (forall j, regs c' j = negb (has o j) && regs c j) -> Q tt c') ->
  wp (free_opt o) c Q.
Proof.
  intros Hst0 Hst Ho HQ. destruct o as [r|]; cbn [free_opt].
  - destruct (Ho r eq_refl) as [Hf Hu]. by apply (wp_free_fresh b c0).
  - apply cwp_ret, HQ; [by split|done].
Qed.

Lemma has_fresh o c j : (forall r, o = Some r -> fresh r c) -> has o j = true -> regs c j = false.
Proof. intros Hf E. destruct o as [r|]; [|done]. apply Z.eqb_eq in E as ->. by apply (Hf r eq_refl). Qed.

Lemma wp_free_two {A} b c c1 c2 o1 o2 (m : M A) (Q : A -> compiler -> Prop) : st b 0 c ->
  step b 0 c c1 -> step b 0 c1 c2 ->
  (forall r, o1 = Some r -> fresh r c) -> (forall j, regs c1 j = has o1 j || regs c j) ->
  (forall r, o2 = Some r -> fresh r c1) -> (forall j, regs c2 j = has o2 j || regs c1 j) ->
  (forall c', step b 0 c2 c' -> step b 0 c c' -> same_regs c c' -> wp m c' Q) ->
  wp (bind (free_opt o1) (fun _ => bind (free_opt o2) (fun _ => m))) c2 Q.
Proof.
  intros Hst Hs1 Hs2 Hf1 Hw1 Hf2 Hw2 HQ. assert (Hs12 : step b 0 c c2) by by eapply step_step.
  assert (Hsep : forall r, o2 = Some r -> has o1 (ri r) = false /\ fresh r c).
  { intros r E. destruct (Hf2 r E) as [Hr ?]. rewrite Hw1 in Hr. by apply orb_false_iff in Hr as [? ?]. }
  apply wp_seq, (wp_free_opt b c); [done|apply Hs12| |].
  { intros r E. split; [by apply Hf1|]. rewrite Hw2, Hw1, E. cbn. by rewrite Z.eqb_refl, orb_true_r. }
  intros c3 Hs3 Hr3. apply wp_seq, (wp_free_opt b c); [done|apply Hs3| |].
  { intros r E. destruct (Hsep r E) as [Hn ?]. split; [done|]. rewrite Hr3, Hn, Hw2, E. cbn. by rewrite Z.eqb_refl. }
  intros c4 Hs4 Hr4. assert (Hs24 : step b 0 c2 c4) by by eapply step_step.
  apply HQ; [done|by eapply step_step|]. intros j. rewrite Hr4, Hr3, Hw2, Hw1.
  pose proof (has_fresh o1 c j Hf1). pose proof (has_fresh o2 c j (fun r E => proj2 (Hsep r E))).
  destruct (has o1 j), (has o2 j), (regs c j); cbn; intuition congruence.
Qed.

Lemma free_temp_opt (t : bool) r : (if t then free r else ret tt) = free_opt (if t then Some r else None).
Proof. by destruct t. Qed.

(** ** What the recursion promises

    The three functions that recurse on descriptors, on the descriptors of a depth that
    [within] allows. *)
Definition mode_ok (mode : CallMode.t) : Prop :=
  match mode with CallMode.Call returns => VarCount.wf returns | CallMode.TailCall => True end.

Class Recursion (within : nat -> Prop) (discharge_ : descriptor -> ExprDestination.t -> M RegisterIndex)
    (call_ : descriptor -> list descriptor -> CallMode.t -> M RegisterIndex)
    (invoke_ : descriptor -> descriptor -> list descriptor -> CallMode.t -> M RegisterIndex) : Prop := {
  within_le : forall m n, (m <= n)%nat -> within n -> within m;
  discharges : forall e b c dest, within (depth e) -> st b 0 c -> dok c e -> dest_ok c dest ->
    wp (discharge_ e dest) c (placed b c dest);
  calls : forall f args mode b c, within (call_depth f args) -> st b 0 c -> dok c f ->
    Forall (dok c) args -> mode_ok mode -> wp (call_ f args mode) c (called b c);
  invokes : forall t m args mode b c, within (method_depth t m args) -> st b 0 c -> dok c t -> dok c m ->
    Forall (dok c) args -> mode_ok mode -> wp (invoke_ t m args mode) c (called b c)
}.

Definition local_descriptor r a : descriptor := ExprDescriptor.Variable_ (VariableDescriptor.Local r a).

Section bodies.
Context {within : nat -> Prop} {discharge_ : descriptor -> ExprDestination.t -> M RegisterIndex}.
Context {call_ : descriptor -> list descriptor -> CallMode.t -> M RegisterIndex}.
Context {invoke_ : descriptor -> descriptor -> list descriptor -> CallMode.t -> M RegisterIndex}.
Context {recursion : Recursion within discharge_ call_ invoke_}.

Lemma wp_any_register b c e : within (depth e) \/ (exists r a, e = local_descriptor r a) -> st b 0 c -> dok c e ->
  wp (expr_any_register discharge_ e) c (held b c).
Proof.
  intros Hw Hst He.
  assert (Hgen : within (depth e) ->
    wp (bind (discharge_ e ExprDestination.AllocateNew) (fun r => ret (r, true))) c (held b c)).
  { intros Hd. eapply cwp_bind; [by apply (discharges e b c ExprDestination.AllocateNew)|].
    intros r c1 [Hs [Hf Hw1]]. apply cwp_ret. split_and!; [done|by eapply with_reg_used|done..]. }
  destruct Hw as [Hd|(r & a & ->)]; [|apply cwp_ret; by split_and!].
  destruct e as [[r a|u a|n]| | | | | | | | | | | | |]; try by apply Hgen.
  apply cwp_ret. by split_and!.
Qed.

Lemma wp_any_register_or_constant b c e : within (depth e) -> st b 0 c -> dok c e ->
  wp (expr_any_register_or_constant discharge_ e) c (operand b c).
Proof.
  intros Hw Hst He. unfold expr_any_register_or_constant.
  eapply (cwp_bind _ _ _ (fun o c' => step b 0 c c' /\ same_regs c c' /\
    forall i, o = Some i -> rc_ok (csizes c') (RCIndex.Constant (mk_ConstantIndex8 i)))).
  { destruct e; try (apply cwp_ret; by split_and!). apply wp_seq, (wp_get_constant b 0); [done|].
    intros i c' Hs Hr Hi Hlt. apply cwp_ret. split_and!; [done..|]. intros j Hj.
    apply checked_Some in Hj as [? ->]. done. }
  intros o c1 (Hs1 & Hr1 & Ho). destruct o as [i|].
  - apply cwp_ret. split_and!; [done|by apply Ho|done].
  - eapply cwp_bind; [apply (wp_any_register b c1 e); [by left|apply Hs1|by eapply dok_grows; [eapply same_regs_grows|]]|].
    intros [r t] c2 (Hs2 & Hu2 & Hh). apply cwp_ret. split; [by eapply (step_step b 0); [exact Hs1|]|].
    split; [cbn; by eapply used_reg_ok|]. destruct t; cbn in *.
    + destruct Hh as [[Hf ?] Hwr]. split; [split; [by rewrite <- Hr1|done]|regs_solve].
    + regs_solve.
Qed.

Lemma wp_operands b c x y (Q : RCIndex * RCIndex -> compiler -> Prop) : within (depth x) -> within (depth y) ->
  st b 0 c -> dok c x -> dok c y ->
  (forall rx ry c', step b 0 c c' -> same_regs c c' -> rc_ok (csizes c') rx -> rc_ok (csizes c') ry -> Q (rx, ry) c') ->
  wp (operands discharge_ x y) c Q.
Proof.
  intros Hwx Hwy Hst Hx Hy HQ. unfold operands.
  eapply cwp_bind; [by apply (wp_any_register_or_constant b c x)|]. intros [rx ox] c1 H1'.
  eapply cwp_bind; [apply (wp_any_register_or_constant b c1 y); [done|apply H1'|by eapply dok_grows; [eapply operand_grows|]]|].
  intros [ry oy] c2 H2'. apply operand_has in H1' as (Hs1 & Hrx & Hf1 & Hw1), H2' as (Hs2 & Hry & Hf2 & Hw2).
  apply (wp_free_two b c c1); [done..|]. intros c4 Hs24 Hs4 Hsame. apply cwp_ret.
  apply HQ; [done..|eapply rc_ok_le; [|exact Hrx]; etrans; by eapply step_sizes|
    eapply rc_ok_le; [|exact Hry]; by eapply step_sizes].
Qed.

(** A variable that is not global is at hand. *)
Definition at_hand e : Prop := exists v, e = ExprDescriptor.Variable_ v /\ forall n, v <> VariableDescriptor.Global n.

Lemma wp_get_table b c t k dest : within (depth t) \/ at_hand t -> within (depth k) -> st b 0 c -> dok c t -> dok c k ->
  dest_ok c dest -> wp (get_table discharge_ t k dest) c (placed b c dest).
Proof.
  intros Hwt Hwk Hst Ht Hk Hd.
  assert (Hgen : within (depth t) \/ (exists r a, t = local_descriptor r a) -> wp (bind (expr_any_register discharge_ t) (fun '(table, temp) =>
      bind (expr_any_register_or_constant discharge_ k) (fun '(rc, o) =>
      bind (if temp : bool then free table else ret tt) (fun _ =>
      bind (free_opt o) (fun _ => bind (new_destination dest) (fun d =>
      bind (emit (Operation.GetTable d table rc)) (fun _ => ret d))))))) c (placed b c dest)).
  { intros Hh. eapply cwp_bind; [by apply (wp_any_register b c t)|]. intros [rt tt_] c1 H1'.
    eapply cwp_bind; [apply (wp_any_register_or_constant b c1 k); [done|apply H1'|by eapply dok_grows; [eapply held_grows|]]|].
    intros [rc oc] c2 H2'. apply held_has in H1' as (Hs1 & Ht1 & Hf1 & Hw1). apply operand_has in H2' as (Hs2 & Hrc & Hf2 & Hw2).
    assert (Hrt : reg_ok (csizes c2) rt).
    { apply (used_reg_ok b c); [by eapply step_step|]. by rewrite Hw2, Ht1, orb_true_r. }
    rewrite free_temp_opt. apply (wp_free_two b c c1); [done..|]. intros c4 Hs24 Hs4 Hsame.
    apply (wp_place b c4 dest (fun d => Operation.GetTable d rt rc)); [apply Hs4| | |].
    - destruct dest; [|done..]. cbn. by rewrite Hsame.
    - intros r c' _ [_ Hg] Hr. split; [|plain_op]. cbn. split_and!; [done| |].
      + eapply reg_ok_le; [|exact Hrt]. etrans; [|exact Hg]. by eapply step_sizes.
      + eapply rc_ok_le; [|exact Hrc]. etrans; [|exact Hg]. by eapply step_sizes.
    - intros r c' Hp. by eapply placed_trans. }
  assert (Hh : within (depth t) \/ (exists u a, t = ExprDescriptor.Variable_ (VariableDescriptor.UpValue u a)) \/
    exists r a, t = local_descriptor r a).
  { destruct Hwt as [|([r a|u a|n] & -> & Hn)]; [by left|right; right; by exists r, a|right; left; by exists u, a|].
    by destruct (Hn n). }
  destruct t as [[r a|u a|n]| | | | | | | | | | | | |];
    try (apply Hgen; destruct Hh as [|[(? & ? & ?)|(? & ? & ?)]]; first [by left | right; by eexists _, _ | done]).
  clear Hgen Hh. cbn [get_table].
  eapply cwp_bind; [by apply (wp_any_register_or_constant b c k)|]. intros [rc oc] c1 H1'.
  apply operand_has in H1' as (Hs1 & Hrc & Hf1 & Hw1).
  apply wp_seq, (wp_free_opt b c); [done|apply Hs1| |].
  { intros r E. split; [by apply Hf1|]. rewrite Hw1, E. cbn. by rewrite Z.eqb_refl. }
  intros c2 Hs2 Hr2. assert (Hs12 : step b 0 c c2) by by eapply step_step.
  assert (Hsame : same_regs c c2).
  { intros j. rewrite Hr2, Hw1. pose proof (has_fresh oc c j Hf1).
    destruct (has oc j), (regs c j); cbn; intuition congruence. }
  apply (wp_place b c2 dest (fun d => Operation.GetUpTable d u rc)); [apply Hs12| | |].
  - destruct dest; [|done..]. cbn. by rewrite Hsame.
  - intros r c' _ [_ Hg] Hr. split; [|plain_op]. cbn. split_and!; [done| |].
    + eapply upvalue_ok_le; [|exact Ht]. etrans; [|exact Hg]. by eapply step_sizes.
    + eapply rc_ok_le; [|exact Hrc]. etrans; [|exact Hg]. by eapply step_sizes.
  - intros r c' Hp. by eapply placed_trans.
Qed.

Lemma wp_set_rtable b c table k v (Q : unit -> compiler -> Prop) : within (depth k) -> within (depth v) ->
  st b 0 c -> reg_ok (csizes c) table -> dok c k -> dok c v ->
  (forall c', step b 0 c c' -> same_regs c c' -> Q tt c') -> wp (set_rtable discharge_ table k v) c Q.
Proof.
  intros Hwk Hwv Hst Ht Hk Hv HQ. apply wp_seq, (wp_operands b); [done..|].
  intros rk rv c1 Hs1 Hr1 Hok Hov. apply (wp_emit_plain b); [apply Hs1| |plain_op|].
  - cbn. split_and!; [|done..]. eapply reg_ok_le; [by eapply step_sizes|done].
  - intros c2 Hs2 Hr2. apply HQ; [by eapply step_step|regs_solve].
Qed.

Lemma wp_set_uptable b c u k v (Q : unit -> compiler -> Prop) : within (depth k) -> within (depth v) ->
  st b 0 c -> upvalue_ok (csizes c) u -> dok c k -> dok c v ->
  (forall c', step b 0 c c' -> same_regs c c' -> Q tt c') -> wp (set_uptable discharge_ u k v) c Q.
Proof.
  intros Hwk Hwv Hst Hu Hk Hv HQ. apply wp_seq, (wp_operands b); [done..|].
  intros rk rv c1 Hs1 Hr1 Hok Hov. apply (wp_emit_plain b); [apply Hs1| |plain_op|].
  - cbn. split_and!; [|done..]. eapply upvalue_ok_le; [by eapply step_sizes|done].
  - intros c2 Hs2 Hr2. apply HQ; [by eapply step_step|regs_solve].
Qed.

Lemma wp_set_table b c t k v (Q : unit -> compiler -> Prop) : within (depth t) -> within (depth k) ->
  within (depth v) -> st b 0 c -> dok c t -> dok c k -> dok c v ->
  (forall c', step b 0 c c' -> same_regs c c' -> Q tt c') -> wp (set_table discharge_ t k v) c Q.
Proof.
  intros Hwt Hwk Hwv Hst Ht Hk Hv HQ.
  assert (Hgen : wp (bind (expr_any_register discharge_ t) (fun '(table, temp) =>
      bind (set_rtable discharge_ table k v) (fun _ => if temp : bool then free table else ret tt))) c Q).
  { eapply cwp_bind; [by apply (wp_any_register b c t); [left|..]|]. intros [rt temp] c1 H1'.
    pose proof (held_grows _ _ _ _ H1') as Hg. apply held_has in H1' as (Hs1 & Ht1 & Hf1 & Hw1).
    apply wp_seq, (wp_set_rtable b); [done|done|apply Hs1|by eapply used_reg_ok|by eapply dok_grows|by eapply dok_grows|].
    intros c2 Hs2 Hr2. rewrite free_temp_opt.
    apply (wp_free_opt b c); [done|apply Hs2| |].
    { intros r E. split; [by apply Hf1|]. rewrite Hr2, Hw1, E. cbn. by rewrite Z.eqb_refl. }
    intros c3 Hs3 Hr3. apply HQ; [eapply step_step; [|exact Hs3]; by eapply step_step|].
    intros j. rewrite Hr3, Hr2, Hw1. pose proof (has_fresh _ c j Hf1).
    destruct (has _ j), (regs c j); cbn; intuition congruence. }
  destruct t as [[r a|u a|n]| | | | | | | | | | | | |]; try exact Hgen. clear Hgen.
  by apply (wp_set_uptable b).
Qed.

(** ** Arguments *)
Lemma list_ok_0 s (z : Z) : 0 <= z <= s_registers s -> list_ok s z (VarCount.VarCount (Opt254.Opt254 255)).
Proof. intros Hr. split; [unfold VarCount.wf, Opt254.wf; cbn; int_lia|]. unfold block_ok. cbn. lia. Qed.

Lemma variable_eq : VarCount.variable = Ok (VarCount.VarCount (Opt254.Opt254 255)).
Proof. done. Qed.

Lemma list_ok_constant s (z : Z) v n : VarCount.wf v -> VarCount.to_constant v = Some n ->
  0 <= z -> 0 <= n -> z + n <= s_registers s -> list_ok s z v.
Proof. intros Hv E Hz Hn Hle. split; [done|]. by rewrite E. Qed.

Lemma constant_0_ok s (z : Z) : 0 <= z <= s_registers s -> list_ok s z (VarCount.VarCount (Opt254.Opt254 0)).
Proof.
  intros Hz. apply (list_ok_constant _ _ _ 0); [unfold VarCount.wf, Opt254.wf; cbn; int_lia|done|lia..].
Qed.

Lemma try_constant_ok n v : in_int u8 n -> VarCount.try_constant n = Some v ->
  VarCount.wf v /\ VarCount.to_constant v = Some n.
Proof.
  intros Hn. unfold VarCount.try_constant, Opt254.try_some. intros Hv.
  apply fmap_Some in Hv as (o & Ho & ->).
  destruct (Opt254.try_new_to_u8 (Some n) o) as [Ht Hw]; [by intros ? [= <-]|done|]. by split.
Qed.

Lemma dok_all c es : foldr (fun e Q => descriptor_ok (variable_ok c) (prototype_ok (csizes c)) e /\ Q) True es <->
  Forall (dok c) es.
Proof. apply foldr_Forall. Qed.

Lemma Forall_dok_grows c c' es : grows c c' -> Forall (dok c) es -> Forall (dok c') es.
Proof. intros Hg He. eapply Forall_impl; [exact He|]. intros e. by apply dok_grows. Qed.

(** The registers below [t] are as they were. *)
Definition below t c c' : Prop := forall j, j < t -> regs c' j = regs c j.

Lemma wp_push_last b c t n e : within (depth e) -> st b 0 c -> dok c e -> 0 <= t -> 0 <= n -> top c = t + n ->
  wp (push_last discharge_ call_ invoke_ t (n + 1) e) c (fun count c' =>
    step b 0 c c' /\ below t c c' /\ list_ok (csizes c') t count).
Proof.
  intros Hw Hst He Ht Hn Htop.
  assert (Hvar : forall c', step b 0 c c' -> list_ok (csizes c') t (VarCount.VarCount (Opt254.Opt254 255))).
  { intros c' Hs. apply list_ok_0. pose proof (top_sizes _ _ _ Hst). pose proof (step_sizes _ _ _ _ Hs) as Hle.
    unfold sizes_le in Hle. lia. }
  assert (Hgen : wp (bind (discharge_ e ExprDestination.PushNew) (fun _ =>
      ok_or (n ← checked u8 (n + 1); VarCount.try_constant n) CompileErrorKind.Registers)) c (fun count c' =>
      step b 0 c c' /\ below t c c' /\ list_ok (csizes c') t count)).
  { eapply cwp_bind; [by apply (discharges e b c ExprDestination.PushNew)|].
    intros r c1 (Hs1 & Er & Hlt & Ht1 & Hw1). apply cwp_ok_or. intros v Hv.
    destruct (checked u8 (n + 1)) as [m|] eqn:E; [|done]. apply checked_Some in E as [Hi ->]. cbn in Hv.
    destruct (try_constant_ok _ _ Hi Hv) as [Hwf Hc]. split; [done|]. split.
    - intros j Hj. rewrite Hw1, Er. by rewrite (proj2 (Z.eqb_neq j (top c))) by lia.
    - pose proof (top_sizes _ _ _ (proj1 Hs1)). apply (list_ok_constant _ _ _ (n + 1)); (done || lia). }
  destruct e as [v|v| |op x|x op y|x op y|x op y|a kvs|x y|p|f args|tb m args|es|x]; try exact Hgen; clear Hgen; cbn [push_last].
  - apply wp_seq, cwp_ok_or. intros d Hd. apply checked_Some in Hd as [Hi ->].
    apply wp_seq. eapply wp_lift; [reflexivity|]. apply wp_seq, (wp_emit_plain b); [done| |plain_op|].
    + cbn. replace (t + (n + 1) - 1) with (top c) by lia. apply list_ok_0. pose proof (top_sizes _ _ _ Hst). lia.
    + intros c1 Hs1 Hr1. eapply wp_lift; [reflexivity|]. split; [done|]. split; [|by apply Hvar]. intros j _. apply Hr1.
  - destruct He as [Hf Ha]. apply dok_all in Ha. apply wp_seq. eapply wp_lift; [exact variable_eq|].
    eapply cwp_bind; [apply (calls f args _ b c); try done|].
    + eapply within_le; [|exact Hw]. cbn. unfold call_depth. lia.
    + intros r c1 (Hs1 & Hr1 & _). eapply wp_lift; [exact variable_eq|]. split; [done|]. split; [|by apply Hvar].
      intros j _. apply Hr1.
  - destruct He as (Hf & Hm & Ha). apply dok_all in Ha. apply wp_seq. eapply wp_lift; [exact variable_eq|].
    eapply cwp_bind; [apply (invokes tb m args _ b c); try done|].
    + eapply within_le; [|exact Hw]. cbn. unfold method_depth. lia.
    + intros r c1 (Hs1 & Hr1 & _). eapply wp_lift; [exact variable_eq|]. split; [done|]. split; [|by apply Hvar].
      intros j _. apply Hr1.
Qed.

Lemma wp_push_args b t args : forall c n, Forall (fun e => within (depth e)) args -> st b 0 c -> Forall (dok c) args ->
  0 <= t -> 0 <= n -> top c = t + n ->
  wp (push_args discharge_ call_ invoke_ t (n + Z.of_nat (length args)) args) c (fun count c' =>
    step b 0 c c' /\ below t c c' /\ list_ok (csizes c') t count).
Proof.
  induction args as [|e args IH]; intros c n Hw Hst He Ht Hn Htop.
  - cbn [push_args]. eapply wp_lift; [reflexivity|]. split; [by split|]. split; [done|].
    pose proof (top_sizes _ _ _ Hst). apply constant_0_ok. lia.
  - apply Forall_cons in Hw as [Hwe Hw], He as [Hde He]. destruct args as [|e' args].
    + cbn [push_args length]. change (Z.of_nat 1) with 1. by apply wp_push_last.
    + change (push_args discharge_ call_ invoke_ t (n + Z.of_nat (length (e :: e' :: args))) (e :: e' :: args)) with
        (bind (discharge_ e ExprDestination.PushNew) (fun _ =>
          push_args discharge_ call_ invoke_ t (n + Z.of_nat (length (e :: e' :: args))) (e' :: args))).
      eapply cwp_bind; [by apply (discharges e b c ExprDestination.PushNew)|].
      intros r c1 Hp. pose proof (placed_grows _ _ _ _ _ Hp) as Hg. destruct Hp as (Hs1 & Er & Hlt & Ht1 & Hw1).
      replace (n + Z.of_nat (length (e :: e' :: args))) with (n + 1 + Z.of_nat (length (e' :: args))) by (cbn [length]; lia).
      eapply cwp_mono; [apply (IH c1 (n + 1)); [done|apply Hs1|by eapply Forall_dok_grows|lia..]|].
      intros count c2 (Hs2 & Hb2 & Hl). split; [by eapply step_step|]. split; [|done].
      intros j Hj. rewrite Hb2, Hw1, Er by done. by rewrite (proj2 (Z.eqb_neq j (top c))) by lia.
Qed.

Lemma wp_push_arguments b c args (Q : VarCount -> compiler -> Prop) : Forall (fun e => within (depth e)) args ->
  st b 0 c -> Forall (dok c) args ->
  (forall count c', step b 0 c c' -> same_regs c c' -> list_ok (csizes c') (top c) count -> Q count c') ->
  wp (push_arguments discharge_ call_ invoke_ args) c Q.
Proof.
  intros Hw Hst He HQ. pose proof (top_bound _ _ _ Hst). pose proof (core_bound _ _ _ (inv_core _ _ _ (proj1 Hst))).
  destruct args as [|e args].
  - eapply wp_lift; [reflexivity|]. apply HQ; [by split|done|].
    pose proof (top_sizes _ _ _ Hst). apply constant_0_ok. lia.
  - apply wp_seq, wp_stack_top. eapply cwp_bind; [apply (wp_push_args b (top c) (e :: args) c 0); (done || lia)|].
    intros count c1 (Hs1 & Hb1 & Hl). apply wp_seq, (wp_pop_to b 0); [apply Hs1|lia|].
    intros c2 Hs2 Hr2. apply cwp_ret, HQ; [by eapply step_step| |by eapply list_ok_le; [by eapply step_sizes|]].
    intros j. rewrite Hr2. destruct (Z.ltb_spec j (top c)); cbn; [by apply Hb1|].
    destruct (regs c j) eqn:E; [|done]. pose proof (regs_range _ _ _ _ Hst E). lia.
Qed.

(** ** Calls *)
Lemma wp_emit_call b c f args mode (Q : unit -> compiler -> Prop) : st b 0 c -> reg_ok (csizes c) f ->
  list_ok (csizes c) (ri f + 1) args -> mode_ok mode ->
  (forall c', step b 0 c c' -> same_regs c c' -> Q tt c') -> wp (emit_call f args mode) c Q.
Proof.
  intros Hst Hf Ha Hm HQ. destruct mode as [returns|]; cbn [emit_call];
    (apply (wp_emit_plain b); [done|by split_and!|plain_op|done]).
Qed.

Lemma Forall_within_args args n : Forall (fun e => (depth e <= n)%nat) args -> within n ->
  Forall (fun e => within (depth e)) args.
Proof. intros Ha Hn. eapply Forall_impl; [exact Ha|]. intros e He. exact (within_le _ _ He Hn). Qed.

Lemma args_depth args : Forall (fun e : descriptor => (depth e <= list_max (map depth args))%nat) args.
Proof.
  apply Forall_forall. intros e He. pose proof (proj1 (list_max_le (map depth args) _) (Nat.le_refl _)) as Hl.
  rewrite List.Forall_forall in Hl. apply Hl. apply in_map. by apply list_elem_of_In.
Qed.

Lemma within_args args n : (list_max (map depth args) <= n)%nat -> within n -> Forall (fun e : descriptor => within (depth e)) args.
Proof. intros Hl Hn. apply (Forall_within_args args (list_max (map depth args))); [apply args_depth|exact (within_le _ _ Hl Hn)]. Qed.

Lemma wp_call_function_body b c f args mode n : (call_depth f args <= S n)%nat -> within n -> st b 0 c ->
  dok c f -> Forall (dok c) args -> mode_ok mode ->
  wp (call_function_body discharge_ call_ invoke_ f args mode) c (called b c).
Proof.
  unfold call_depth. intros Hd Hn Hst Hf Ha Hm. unfold call_function_body.
  eapply cwp_bind; [apply (discharges f b c ExprDestination.PushNew); try done; eapply within_le; [|exact Hn]; lia|].
  intros r c1 Hp. pose proof (placed_grows _ _ _ _ _ Hp) as Hg. pose proof (placed_reg_ok _ _ _ _ _ Hp I) as Hok.
  destruct Hp as (Hs1 & Er & Hlt & Ht1 & Hw1).
  apply wp_seq, (wp_push_arguments b); [eapply within_args; [|exact Hn]; lia|apply Hs1|by eapply Forall_dok_grows|].
  intros count c2 Hs2 Hr2 Hl. apply wp_seq, (wp_emit_call b); [apply Hs2| | |done|].
  { eapply reg_ok_le; [by eapply step_sizes|done]. }
  { by rewrite Er, <- Ht1. }
  intros c3 Hs3 Hr3. pose proof (top_fresh b 0 r c Hst Er Hlt) as Hfr.
  assert (Hs13 : step b 0 c c3) by steps.
  apply wp_seq, (wp_free_fresh b c); [done|apply Hs13|done|by rewrite Hr3, Hr2, Hw1, Z.eqb_refl|].
  intros c4 Hs4 Hr4. apply cwp_ret. split; [steps|]. split.
  - destruct Hfr as [Hfr _]. regs_solve.
  - split_and!; [done..|]. eapply reg_ok_le; [|exact Hok]. sizes.
Qed.

Lemma wp_call_method_body b c t m args mode n : (method_depth t m args <= S n)%nat -> within n -> st b 0 c ->
  dok c t -> dok c m -> Forall (dok c) args -> mode_ok mode ->
  wp (call_method_body discharge_ call_ invoke_ t m args mode) c (called b c).
Proof.
  unfold method_depth. intros Hd Hn Hst Ht Hm Ha Hmode. unfold call_method_body.
  eapply cwp_bind; [apply (wp_any_register b c t); try done; left; eapply within_le; [|exact Hn]; lia|]. intros [rt temp] c1 H1'.
  eapply cwp_bind; [apply (wp_any_register_or_constant b c1 m); [eapply within_le; [|exact Hn]; lia|apply H1'|
    by eapply dok_grows; [eapply held_grows|]]|].
  intros [rc oc] c2 H2'. apply held_has in H1' as (Hs1 & Ht1 & Hf1 & Hw1). apply operand_has in H2' as (Hs2 & Hrc & Hf2 & Hw2).
  assert (Hrt : reg_ok (csizes c2) rt).
  { apply (used_reg_ok b c); [steps|]. by rewrite Hw2, Ht1, orb_true_r. }
  rewrite free_temp_opt. apply (wp_free_two b c c1); [done..|]. intros c4 Hs24 Hs4 Hsame.
  assert (Htop4 : top c4 = top c) by (eapply same_regs_top; [exact Hst|apply Hs4|done]).
  pose proof (step_sizes _ _ _ _ Hs24) as Hle4.
  apply wp_seq, (wp_push_or b 0); [apply Hs4|lia|]. intros base c5 Hs5 Er _ Hlt Ht5 Hsz5 Hw5.
  pose proof (step_sizes _ _ _ _ Hs5) as Hle5. pose proof (top_bound _ _ _ (proj1 Hs4)).
  pose proof (core_bound _ _ _ (inv_core _ _ _ (proj1 (proj1 Hs4)))).
  apply wp_seq, (wp_emit_plain b); [apply Hs5| |plain_op|].
  { cbn. split_and!; [unfold block_ok; cbn in *; lia| |]; [eapply reg_ok_le; [|exact Hrt]|eapply rc_ok_le; [|exact Hrc]]; by etrans. }
  intros c6 Hs6 Hr6. assert (Hs46 : step b 0 c4 c6) by steps.
  assert (Hg6 : grows c c6).
  { split; [|sizes]. intros j Hj. by rewrite Hr6, Hw5, Hsame, Hj, orb_true_r. }
  assert (Ht6 : top c6 = top c5) by (eapply same_regs_top; [apply Hs5|apply Hs6|done]).
  apply wp_seq, (wp_push_arguments b); [eapply within_args; [|exact Hn]; lia|apply Hs6|by eapply Forall_dok_grows|].
  intros count c7 Hs7 Hr7 Hl. rewrite Ht6, Ht5 in Hl.
  assert (Hs47 : step b 0 c4 c7) by steps.
  eapply (cwp_bind _ _ _ (fun count c' => c' = c7 /\ list_ok (csizes c7) (ri base + 1) count)).
  { destruct Hl as [Hwf Hl]. destruct (VarCount.to_constant count) as [k|] eqn:Ek.
    - apply cwp_ok_or. intros v Hv. split; [done|]. destruct (checked u8 (k + 1)) as [m'|] eqn:E; [|done].
      apply checked_Some in E as [Hi ->]. cbn in Hv. destruct (try_constant_ok _ _ Hi Hv) as [Hwfv Ev].
      destruct Hl as (? & ? & ?). cbn [from_option id] in *. apply (list_ok_constant _ _ _ (k + 1)); (done || lia).
    - eapply wp_lift; [exact variable_eq|]. split; [done|]. apply list_ok_0. destruct Hl as (? & ? & ?).
      cbn [from_option id] in *. lia. }
  intros count' c' [-> Hl']. assert (Hbase : reg_ok (csizes c7) base).
  { pose proof (step_sizes _ _ _ _ (step_step _ _ _ _ _ _ _ Hs6 Hs7)) as Hle7. unfold reg_ok, sizes_le in *. lia. }
  apply wp_seq, (wp_emit_call b); [apply Hs47|done|done|done|].
  intros c8 Hs8 Hr8. assert (Hs48 : step b 0 c4 c8) by steps.
  apply wp_seq, (wp_pop_to b 0); [apply Hs8|lia|]. intros c9 Hs9 Hr9. apply cwp_ret.
  split; [steps|]. split; [|split_and!; [lia..|]].
  2:{ eapply reg_ok_le; [|exact Hbase]. sizes. }
  intros j. rewrite Hr9, Hr8, Hr7, Hr6, Hw5, Hsame, Er, Htop4.
  destruct (Z.ltb_spec j (top c)); cbn; [by rewrite (proj2 (Z.leb_gt _ _)) by lia|].
  destruct (regs c j) eqn:E; [|done]. pose proof (regs_range _ _ _ _ Hst E). lia.
Qed.

Lemma wp_place_result b c0 c r dest : st b 0 c0 -> called b c0 r c -> dest_ok c0 dest ->
  wp (place_result r dest) c (placed b c0 dest).
Proof.
  intros Hst (Hs & Hr & Er & Hlt & Hok) Hd.
  assert (Htop : top c = top c0) by (eapply same_regs_top; [exact Hst|apply Hs|done]).
  assert (Hpush : wp (bind (push_or 1) (fun r' => bind (rust_assert (bool_decide (r' = r))) (fun _ => ret r))) c
    (fun r' c' => r' = r /\ step b 0 c0 c' /\ with_reg r c0 c' /\ top c' = top c0 + 1)).
  { apply wp_seq, (wp_push_or b 0); [apply Hs|lia|]. intros r' c1 Hs1 Er1 _ _ Ht1 _ Hw1.
    assert (r' = r) as -> by (destruct r', r; cbn in *; f_equal; congruence).
    apply wp_seq, wp_assert; [by apply bool_decide_eq_true_2|]. apply cwp_ret. split; [done|].
    split; [steps|]. split; [|lia]. intros j. rewrite Hw1, Hr, Er1.
    destruct (Z.eqb_spec j (top c)), (Z.leb_spec (top c) j), (Z.ltb_spec j (top c + 1)); (done || lia). }
  destruct dest as [d| |]; cbn [place_result].
  - cbn in Hd. pose proof (regs_range _ _ _ _ Hst Hd) as Hrange.
    apply wp_seq, wp_assert.
    { rewrite bool_decide_eq_false_2; [done|]. intros ->. lia. }
    apply wp_seq, (wp_emit_plain b); [apply Hs| |plain_op|].
    + split; [|done]. eapply (used_reg_ok b c0); [done|by rewrite Hr].
    + intros c1 Hs1 Hr1. apply cwp_ret. split; [steps|]. split; [done|regs_solve].
  - eapply cwp_mono; [exact Hpush|]. intros r' c1 (-> & Hs1 & Hw1 & _). split; [done|]. split; [by eapply top_fresh|done].
  - eapply cwp_mono; [exact Hpush|]. intros r' c1 (-> & Hs1 & Hw1 & Ht1). by split_and!.
Qed.

End bodies.
End operations.
End CompilerDischarge.
