(* ===== verification/CompilerValues.v ===== *)
(** * Tables, concatenations, tests: every descriptor is discharged

    The constructors with a number of operands, the recursion of [expr_discharge], and its
    uses: a number of values, a test. *)

From stdpp Require Import sorting.
From S2P Require Import Prelude Float64 Lexer Opcode Constant Operators Parser RegisterAllocator CompilerState CompilerExpr CompilerCode CompilerFacts CompilerSteps CompilerJumps CompilerDischarge.
Import Ast Compiler Discharge CompilerFacts CompilerSteps CompilerJumps CompilerDischarge.

Module CompilerValues.
Section CompilerValues.
Context `{BuildProfile} `{FloatLib} `{StringInterner}.
#[local] Existing Instance checking.
#[local] Existing Instance name_bytes.
Abbreviation descriptor := (ExprDescriptor.t IString).
Implicit Types (e : descriptor) (c : compiler) (b : Z) (r : RegisterIndex).
Abbreviation ri := register_index.

Section bodies.
Context {within : nat -> Prop} {discharge_ : descriptor -> ExprDestination.t -> M RegisterIndex}.
Context {call_ : descriptor -> list descriptor -> CallMode.t -> M RegisterIndex}.
Context {invoke_ : descriptor -> descriptor -> list descriptor -> CallMode.t -> M RegisterIndex}.
Context {recursion : Recursion within discharge_ call_ invoke_}.

(** ** Table constructors *)
Lemma wp_discharge_chunk b start chunk : forall c i, Forall (fun e => within (depth e)) chunk -> st b 0 c ->
  Forall (dok c) chunk -> 0 <= ri start + i -> ri start + i + Z.of_nat (length chunk) < 256 ->
  (forall j, ri start + i <= j < ri start + i + Z.of_nat (length chunk) -> regs c j = true) ->
  wp (discharge_chunk discharge_ start i chunk) c (fun _ c' => step b 0 c c' /\ same_regs c c').
Proof.
  induction chunk as [|e chunk IH]; intros c i Hw Hst He Hi Hlt Hu; cbn [discharge_chunk].
  - apply cwp_ret. by split.
  - cbn [length] in *. apply Forall_cons in Hw as [Hwe Hw], He as [Hde He].
    apply wp_seq. eapply wp_lift; [apply arith_in; int_lia|].
    eapply cwp_bind; [apply (discharges e b c (ExprDestination.Register (mk_RegisterIndex (ri start + i)))); try done|].
    { cbn [dest_ok register_index]. apply Hu. lia. }
    intros r c1 Hp. pose proof (placed_grows _ _ _ _ _ Hp) as Hg. destruct Hp as (Hs1 & _ & Hr1).
    eapply cwp_mono; [apply (IH c1 (i + 1)); [done|apply Hs1|by eapply Forall_dok_grows|lia|lia|]|].
    + intros j Hj. rewrite Hr1. apply Hu. lia.
    + intros [] c2 [Hs2 Hr2]. split; [steps|regs_solve].
Qed.

Lemma pop_to_top b c0 c (Q : unit -> compiler -> Prop) : st b 0 c0 -> step b 0 c0 c -> below (top c0) c0 c ->
  (forall c', step b 0 c0 c' -> same_regs c0 c' -> Q tt c') -> wp (pop_to (top c0)) c Q.
Proof.
  intros Hst Hs Hb HQ. pose proof (top_bound _ _ _ Hst). apply (wp_pop_to b 0); [apply Hs|lia|].
  intros c' Hs' Hr'. apply HQ; [steps|]. intros j. rewrite Hr'.
  destruct (Z.ltb_spec j (top c0)); cbn; [by apply Hb|].
  destruct (regs c0 j) eqn:E; [|done]. pose proof (regs_range _ _ _ _ Hst E). lia.
Qed.

Lemma constant_field n : 0 <= n < 255 -> exists v, VarCount.constant n = Ok v /\ VarCount.wf v /\ VarCount.to_constant v = Some n.
Proof.
  intros Hn. assert (Hi : in_int u8 n) by int_lia.
  destruct (VarCount.try_constant n) as [v|] eqn:E.
  - exists v. destruct (try_constant_ok _ _ Hi E) as [? ?]. split; [|done]. unfold VarCount.try_constant in E.
    apply fmap_Some in E as (o & Ho & ->). unfold VarCount.constant, Opt254.some, Opt254.new.
    unfold Opt254.try_some in Ho. by rewrite Ho.
  - unfold VarCount.try_constant, Opt254.try_some, Opt254.try_new in E.
    by rewrite (proj2 (Z.eqb_neq n 255)) in E by lia.
Qed.

(** One turn of the loop, then the loop on what is left *)
Lemma wp_flush_turn b c table index fields (rest : list descriptor) (Q : VarCount -> compiler -> Prop) :
  Forall (fun e => within (depth e)) fields -> st b 0 c -> Forall (dok c) fields -> (length fields <= 32)%nat ->
  top c = ri index + 1 -> ri index = ri table + 1 -> 0 <= ri table ->
  (forall count c', step b 0 c c' -> below (top c) c c' -> list_ok (csizes c') (top c) count -> Q count c') ->
  wp (match rest with
      | [] => push_arguments discharge_ call_ invoke_ fields
      | _ =>
          bind (push_or (wrap u8 (Z.of_nat (length fields)))) (fun reg_start =>
          bind (lift (arith u8 (ri index + 1))) (fun next =>
          bind (rust_assert (ri reg_start =? next)) (fun _ =>
          bind (discharge_chunk discharge_ reg_start 0 fields) (fun _ =>
          lift (VarCount.constant (wrap u8 (Z.of_nat (length fields))))))))
      end) c Q.
Proof.
  intros Hw Hst He Hlen Ht Hi Hpos HQ. pose proof (top_bound _ _ _ Hst).
  destruct rest as [|e' rest].
  - apply (wp_push_arguments b); [done..|]. intros count c1 Hs1 Hr1 Hl. apply HQ; [done| |done]. intros j _. apply Hr1.
  - rewrite (wrap_small u8) by (apply _ || int_lia). set (n := Z.of_nat (length fields)).
    apply wp_seq, (wp_push_or b 0); [done|lia|]. intros r c1 Hs1 Er Hn Hlt Ht1 Hsz Hw1.
    apply wp_seq. eapply wp_lift; [apply arith_in; int_lia|].
    apply wp_seq, wp_assert; [by apply Z.eqb_eq; lia|].
    assert (Hg : grows c c1).
    { split; [|by eapply step_sizes]. intros j Hj. rewrite Hw1, Hj. apply orb_true_r. }
    eapply cwp_bind; [apply (wp_discharge_chunk b r fields c1 0); [done|apply Hs1|by eapply Forall_dok_grows|lia|lia|]|].
    { intros j Hj. rewrite Hw1, (proj2 (Z.leb_le _ _)), (proj2 (Z.ltb_lt _ _)) by lia. done. }
    intros [] c2 [Hs2 Hr2]. destruct (constant_field n) as (v & Ev & Hwf & Hc); [lia|].
    eapply wp_lift; [exact Ev|]. apply HQ; [steps| |].
    + intros j Hj. by rewrite Hr2, Hw1, (proj2 (Z.leb_gt _ _)) by lia.
    + pose proof (step_sizes _ _ _ _ Hs2) as Hle. apply (list_ok_constant _ _ _ n); [done..|lia|lia|].
      unfold sizes_le in Hle. lia.
Qed.

Lemma wp_flush_fields b table index fuel : forall c fields, (length fields <= fuel)%nat ->
  Forall (fun e => within (depth e)) fields -> st b 0 c -> Forall (dok c) fields -> reg_ok (csizes c) table ->
  top c = ri index + 1 -> ri index = ri table + 1 ->
  wp (flush_fields discharge_ call_ invoke_ fuel table index fields) c (fun _ c' => step b 0 c c' /\ same_regs c c').
Proof.
  induction fuel as [|fuel IH]; intros c fields Hlen Hw Hst He Ht Htop Hi.
  { destruct fields; [|cbn in Hlen; lia]. apply cwp_ret. by split. }
  destruct fields as [|e fields]; [apply cwp_ret; by split|]. set (l := e :: fields) in *.
  change (flush_fields discharge_ call_ invoke_ (S fuel) table index l) with
    (bind (match drop FIELDS_PER_FLUSH l with
           | [] => push_arguments discharge_ call_ invoke_ (take FIELDS_PER_FLUSH l)
           | _ => bind (push_or (wrap u8 (Z.of_nat (length (take FIELDS_PER_FLUSH l))))) (fun reg_start =>
               bind (lift (arith u8 (ri index + 1))) (fun next =>
               bind (rust_assert (ri reg_start =? next)) (fun _ =>
               bind (discharge_chunk discharge_ reg_start 0 (take FIELDS_PER_FLUSH l)) (fun _ =>
               lift (VarCount.constant (wrap u8 (Z.of_nat (length (take FIELDS_PER_FLUSH l)))))))))
           end) (fun count => bind (emit (Operation.SetList table count)) (fun _ =>
       bind (pop_to (ri index + 1)) (fun _ =>
       flush_fields discharge_ call_ invoke_ fuel table index (drop FIELDS_PER_FLUSH l))))).
  apply wp_seq, (wp_flush_turn b c table index); [by apply Forall_take|done|by apply Forall_take| |done|done|by apply Ht|].
  { rewrite length_take. unfold FIELDS_PER_FLUSH. lia. }
  intros count c1 Hs1 Hb1 Hl. apply wp_seq, (wp_emit_plain b); [apply Hs1| |plain_op|].
  { split; [eapply reg_ok_le; [by eapply step_sizes|done]|]. by replace (ri table + 2) with (top c) by lia. }
  intros c2 Hs2 Hr2. rewrite <- Htop. apply wp_seq, (pop_to_top b c); [done|steps|..].
  { intros j Hj. rewrite Hr2. by apply Hb1. }
  intros c3 Hs3 Hr3. eapply cwp_mono; [apply IH|].
  - rewrite length_drop. unfold FIELDS_PER_FLUSH. cbn in *. lia.
  - by apply Forall_drop.
  - apply Hs3.
  - apply Forall_drop. eapply Forall_dok_grows; [by eapply same_regs_grows|done].
  - eapply reg_ok_le; [by eapply step_sizes|done].
  - rewrite <- Htop. eapply same_regs_top; [exact Hst|apply Hs3|done].
  - done.
  - intros [] c4 [Hs4 Hr4]. split; [steps|regs_solve].
Qed.

Lemma wp_records b table kvs : forall c, Forall (fun kv => within (depth kv.1) /\ within (depth kv.2)) kvs ->
  st b 0 c -> Forall (fun kv => dok c kv.1 /\ dok c kv.2) kvs -> reg_ok (csizes c) table ->
  wp (for_each (fun '(key, value) => set_rtable discharge_ table key value) kvs) c
    (fun _ c' => step b 0 c c' /\ same_regs c c').
Proof.
  induction kvs as [|[k v] kvs IH]; intros c Hw Hst He Ht; cbn [for_each]; [apply cwp_ret; by split|].
  apply Forall_cons in Hw as [[? ?] Hw], He as [[? ?] He].
  apply wp_seq, (wp_set_rtable b); [done..|]. intros c1 Hs1 Hr1.
  pose proof (same_regs_grows _ _ _ Hs1 Hr1) as Hg. eapply cwp_mono; [apply IH; [done|apply Hs1| |]|].
  - eapply Forall_impl; [exact He|]. intros kv [? ?]. split; by eapply dok_grows.
  - eapply reg_ok_le; [by eapply step_sizes|done].
  - intros [] c2 [Hs2 Hr2]. split; [steps|regs_solve].
Qed.

Lemma u8_or_255 n : in_int u8 (default 255 (checked u8 n)).
Proof. destruct (checked u8 n) eqn:E; cbn; [by apply checked_Some in E as [? ->]|int_lia]. Qed.

Lemma wp_table_constructor b c fields kvs dest : Forall (fun e => within (depth e)) fields ->
  Forall (fun kv => within (depth kv.1) /\ within (depth kv.2)) kvs -> within 1 -> st b 0 c ->
  Forall (dok c) fields -> Forall (fun kv => dok c kv.1 /\ dok c kv.2) kvs -> dest_ok c dest ->
  wp (table_constructor discharge_ call_ invoke_ fields kvs dest) c (placed b c dest).
Proof.
  intros Hwf Hwk Hw1 Hst Hf Hkv Hd. unfold table_constructor.
  pose proof (top_bound _ _ _ Hst). pose proof (core_bound _ _ _ (inv_core _ _ _ (proj1 Hst))).
  apply wp_seq, (wp_new_destination b c ExprDestination.PushNew); [done..|]. intros table c1 Hp1.
  pose proof (placed_grows _ _ _ _ _ Hp1) as Hg1. pose proof (placed_reg_ok _ _ _ _ _ Hp1 I) as Hok1.
  destruct Hp1 as (Hs1 & Et & Hlt & Ht1 & Hr1).
  apply wp_seq, (wp_emit_plain b); [apply Hs1|split_and!; [done|apply u8_or_255..]|plain_op|].
  intros c2 Hs2 Hr2. pose proof (same_regs_grows _ _ _ Hs2 Hr2) as Hg2.
  assert (Hok2 : reg_ok (csizes c2) table) by (eapply reg_ok_le; [by eapply step_sizes|done]).
  eapply cwp_bind; [apply (wp_records b table kvs c2); [done|apply Hs2| |done]|].
  { eapply Forall_impl; [exact Hkv|]. intros kv [? ?]. split; (eapply dok_grows; [|done]; by etrans). }
  intros [] c3 [Hs3 Hr3]. assert (Hs13 : step b 0 c1 c3) by steps.
  assert (Hr13 : same_regs c1 c3) by regs_solve.
  assert (Ht3 : top c3 = top c + 1) by (rewrite <- Ht1; eapply same_regs_top; [apply Hs1|apply Hs3|done]).
  apply wp_seq, (wp_new_destination b c3 ExprDestination.PushNew); [apply Hs3|done|]. intros index c4 Hp4.
  pose proof (placed_grows _ _ _ _ _ Hp4) as Hg4. pose proof (placed_used _ _ _ _ _ Hp4 I) as Hu4.
  destruct Hp4 as (Hs4 & Ei & Hlt4 & Ht4 & Hr4).
  apply wp_seq. eapply wp_lift; [apply arith_in; int_lia|]. apply wp_seq, wp_assert; [apply Z.eqb_eq; lia|].
  eapply cwp_bind; [by apply (discharges _ b c4 (ExprDestination.Register index)); [|apply Hs4|..]|].
  intros r c5 (Hs5 & _ & Hr5). assert (Hs45 : step b 0 c3 c5) by steps.
  assert (Hs15 : step b 0 c c5) by steps.
  assert (Hg15 : grows c c5).
  { split; [|sizes]. intros j Hj. rewrite Hr5, Hr4, Hr13, Hr1, Hj. by rewrite !orb_true_r. }
  assert (Hok5 : reg_ok (csizes c5) table) by (eapply reg_ok_le; [|exact Hok1]; sizes).
  eapply cwp_bind; [apply (wp_flush_fields b table index (length fields) c5 fields); try done; [apply Hs5|by eapply Forall_dok_grows| |lia]|].
  { assert (top c5 = top c4) by (eapply same_regs_top; [apply Hs4|apply Hs5|done]). lia. }
  intros [] c6 [Hs6 Hr6]. apply wp_seq, (wp_free_fresh b c3); [apply Hs3|apply Hs6| | |].
  { eapply top_fresh; [apply Hs3|done|done]. }
  { rewrite Hr6, Hr5, Hr4. by rewrite Z.eqb_refl. }
  intros c7 Hs7 Hr7. assert (Hs17 : step b 0 c c7) by steps.
  assert (Hf3 : regs c3 (ri index) = false) by (eapply (top_fresh b 0 index c3); [apply Hs3|done|done]).
  assert (Hr37 : same_regs c3 c7) by (clear Hr13 Hr3; regs_solve).
  assert (Hw7 : with_reg table c c7) by (intros j; rewrite Hr37, Hr13; apply Hr1).
  pose proof (top_fresh b 0 table c Hst Et Hlt) as Hft.
  destruct dest as [d| |].
  - apply wp_seq, (wp_emit_plain b); [apply Hs7| |plain_op|].
    { split; [|by eapply used_reg_ok; [|eapply with_reg_used]]. eapply used_reg_ok; [exact Hs17|].
      rewrite Hw7. cbn in Hd. by rewrite Hd, orb_true_r. }
    intros c8 Hs8 Hr8. apply wp_seq, (wp_free_fresh b c); [done|apply Hs8|done|by rewrite Hr8, Hw7, Z.eqb_refl|].
    intros c9 Hs9 Hr9. apply cwp_ret. split; [steps|]. split; [done|]. destruct Hft as [Hft _]. regs_solve.
  - apply cwp_ret. by split.
  - apply cwp_ret. split; [done|]. split_and!; try done.
    assert (top c7 = top c3) by (eapply same_regs_top; [apply Hs3|apply Hs7|done]). lia.
Qed.

(** ** Concatenation *)

(** What comes after the destination and leaves the registers alone *)
Lemma placed_after b c dest r c1 c' : st b 0 c -> placed b c dest r c1 -> step b 0 c1 c' -> same_regs c1 c' ->
  placed b c dest r c'.
Proof.
  intros Hst [Hs1 Hp] Hs Hr. split; [steps|].
  assert (Ht : top c' = top c1) by (eapply same_regs_top; [apply Hs1|apply Hs|done]).
  destruct dest; destruct_and?; split_and?; try done; try congruence; try lia; regs_solve.
Qed.

Lemma wp_place_by b c dest (m : RegisterIndex -> M unit) : st b 0 c -> dest_ok c dest ->
  (forall r c', placed b c dest r c' -> grows c c' -> st b 0 c' -> reg_ok (csizes c') r ->
     regs c' (ri r) = true -> wp (m r) c' (fun _ c'' => step b 0 c' c'' /\ same_regs c' c'')) ->
  wp (bind (new_destination dest) (fun d => bind (m d) (fun _ => ret d))) c (placed b c dest).
Proof.
  intros Hst Hd Hm. apply wp_seq, (wp_new_destination b); [done..|]. intros r c1 Hp.
  eapply cwp_bind; [apply Hm; [done|by eapply placed_grows|apply Hp|by eapply placed_reg_ok|by eapply placed_used]|].
  intros [] c2 [Hs2 Hr2]. apply cwp_ret. by eapply placed_after.
Qed.

Lemma wp_concat_rest b source rest (Q : Z -> compiler -> Prop) : forall fuel c count, (length rest <= fuel)%nat ->
  Forall (fun e => within (depth e)) rest -> st b 0 c -> Forall (dok c) rest ->
  top c = ri source + count -> top c <= 255 -> 1 <= count -> 0 <= ri source ->
  (forall n c', step b 0 c c' -> below (top c) c c' -> top c' = ri source + n -> top c' <= 255 -> 1 <= n -> Q n c') ->
  wp (concat_rest discharge_ fuel source count rest) c Q.
Proof.
  induction rest as [|e rest IH]; intros fuel c count Hlen Hw Hst He Htop Hle Hc Hsrc HQ.
  - destruct fuel; apply cwp_ret; (apply HQ; try done; by split).
  - destruct fuel as [|fuel]; [cbn in Hlen; lia|]. cbn [length concat_rest] in *.
    apply Forall_cons in Hw as [Hwe Hw], He as [Hde He].
    eapply cwp_bind; [apply (cwp_push b 0 c 1 (fun o c' => exists r', o = Some r' /\ step b 0 c c' /\ top c' = top c + 1 /\
      top c' <= 255 /\ regs c' (ri r') = true /\ below (top c) c c')); [done|lia| |lia]|].
    { intros r c' Hs Er _ Hlt Ht _ Hr. exists r. split_and!; [done..|lia| |].
      - rewrite Hr, Er, (proj2 (Z.leb_le _ _)), (proj2 (Z.ltb_lt _ _)) by lia. done.
      - intros j Hj. by rewrite Hr, (proj2 (Z.leb_gt _ _)) by lia. }
    intros ? c1 (r & -> & Hs1 & Ht1 & Hle1 & Hu1 & Hb1).
    assert (Hg1 : grows c c1).
    { split; [|by eapply step_sizes]. intros j Hj. rewrite Hb1; [done|]. eapply regs_range; [exact Hst|done]. }
    eapply cwp_bind; [apply (discharges e b c1 (ExprDestination.Register r)); [done|apply Hs1|by eapply dok_grows|done]|].
    intros r' c2 Hp. pose proof (placed_grows _ _ _ _ _ Hp) as Hg2. destruct Hp as (Hs2 & _ & Hr2).
    assert (Ht2 : top c2 = top c1) by (eapply same_regs_top; [apply Hs1|apply Hs2|done]).
    apply wp_seq. eapply wp_lift; [apply arith_in; int_lia|].
    apply IH; [lia|done|apply Hs2|eapply Forall_dok_grows; [|exact He]; by etrans|lia|lia|lia|done|].
    intros n c3 Hs3 Hb3 Ht3 Hle3 Hn. apply HQ; [steps| |done..]. intros j Hj.
    rewrite Hb3, Hr2 by lia. by apply Hb1.
Qed.

Lemma wp_concat b c es dest : es <> [] -> Forall (fun e => within (depth e)) es -> st b 0 c -> Forall (dok c) es ->
  dest_ok c dest -> wp (concat discharge_ es dest) c (placed b c dest).
Proof.
  intros Hne Hw Hst He Hd. destruct es as [|e es]; [done|]. apply Forall_cons in Hw as [Hwe Hw], He as [Hde He].
  cbn [concat]. apply wp_seq, (wp_new_destination b); [done..|]. intros d c1 Hp1.
  pose proof (placed_grows _ _ _ _ _ Hp1) as Hg1. pose proof (placed_reg_ok _ _ _ _ _ Hp1 Hd) as Hok1.
  pose proof Hp1 as [Hs1 _]. pose proof (top_bound _ _ _ (proj1 Hs1)).
  pose proof (core_bound _ _ _ (inv_core _ _ _ (proj1 (proj1 Hs1)))).
  eapply cwp_bind; [apply (discharges e b c1 ExprDestination.PushNew); [done|apply Hs1|by eapply dok_grows|done]|].
  intros src c2 Hp2. pose proof (placed_grows _ _ _ _ _ Hp2) as Hg2. destruct Hp2 as (Hs2 & Es & Hlt & Ht2 & Hr2).
  apply wp_seq, (wp_concat_rest b); [lia|done|apply Hs2|eapply Forall_dok_grows; [|exact He]; by etrans|lia..|].
  intros n c3 Hs3 Hb3 Ht3 Hle3 Hn. pose proof (top_sizes _ _ _ (proj1 Hs3)).
  apply wp_seq, (wp_emit_plain b); [apply Hs3| |plain_op|].
  { split; [eapply reg_ok_le; [|exact Hok1]; sizes|]. split; [int_lia|]. split; [lia|]. unfold block_ok. lia. }
  intros c4 Hs4 Hr4. rewrite Es. apply wp_seq, (pop_to_top b c1); [apply Hs1|steps| |].
  { intros j Hj. rewrite Hr4, Hb3, Hr2 by lia. by rewrite (proj2 (Z.eqb_neq _ _)) by lia. }
  intros c5 Hs5 Hr5. apply cwp_ret. by eapply placed_after.
Qed.

(** ** Constants and comparisons *)
Lemma wp_discharge_constant b c v dest : st b 0 c -> dest_ok c dest ->
  wp (discharge_constant v dest) c (placed b c dest).
Proof.
  intros Hst Hd. apply wp_place_by; [done..|]. intros r c1 _ _ Hst1 Hr Hu.
  assert (Hgen : wp (bind (get_constant v) (fun k => emit (Operation.LoadConstant r k))) c1
    (fun _ c' => step b 0 c1 c' /\ same_regs c1 c')).
  { apply wp_seq, (wp_get_constant b 0); [done|]. intros i c2 Hs2 Hr2 Hi Hlt.
    apply (wp_emit_plain b); [apply Hs2| |plain_op|].
    - split; [|done]. eapply reg_ok_le; [by eapply step_sizes|done].
    - intros c3 Hs3 Hr3. split; [steps|regs_solve]. }
  destruct v as [|v| | |]; try exact Hgen; apply (wp_emit_plain b); try done; try plain_op; cbn.
  split; [int_lia|]. unfold block_ok, reg_ok in *. lia.
Qed.

Lemma comparison_ok s op x y skip : rc_ok s x -> rc_ok s y ->
  op_ok s (Operators.comparison_binop_operation op x y skip) /\
  forall i, op_target i (Operators.comparison_binop_operation op x y skip) = i + 2.
Proof. by destruct op. Qed.

Lemma binop_ok s op d x y : reg_ok s d -> rc_ok s x -> rc_ok s y ->
  op_ok s (Operators.simple_binop_operation op d x y) /\ plain (Operators.simple_binop_operation op d x y).
Proof. destruct op; (split; [done|plain_op]). Qed.

Lemma unop_ok s op d r : reg_ok s d -> reg_ok s r ->
  op_ok s (Operators.unop_operation op d r) /\ plain (Operators.unop_operation op d r).
Proof. destruct op; (split; [done|plain_op]). Qed.

(** An instruction that may skip the next *)
Lemma wp_emit_skip b k op c (Q : unit -> compiler -> Prop) : st b k c -> 0 <= k <= 2 -> op_ok (csizes c) op ->
  (forall i, op_target i op = i + 2) -> (forall c', step b 1 c c' -> same_regs c c' -> Q tt c') -> wp (emit op) c Q.
Proof. intros Hst Hk Hop Ht HQ. eapply (wp_emit b k 1); [done|done|rewrite Ht; lia|lia|]. eauto. Qed.

Lemma wp_comparison b c x op y dest : within (depth x) -> within (depth y) -> st b 0 c -> dok c x -> dok c y ->
  dest_ok c dest -> wp (discharge_comparison discharge_ x op y dest) c (placed b c dest).
Proof.
  intros Hwx Hwy Hst Hx Hy Hd. apply wp_seq, (wp_operands b); [done..|]. intros rx ry c1 Hs1 Hr1 Hrx Hry.
  eapply cwp_mono; [|intros r c'; by eapply placed_trans].
  assert (Hd1 : dest_ok c1 dest) by (destruct dest; [cbn in *; by rewrite Hr1|done..]).
  apply wp_seq, (wp_new_destination b); [apply Hs1|done|]. intros r c2 Hp.
  pose proof (placed_grows _ _ _ _ _ Hp) as [_ Hle]. pose proof (placed_reg_ok _ _ _ _ _ Hp Hd1) as Hr.
  pose proof Hp as [Hs2 _]. apply wp_seq. eapply wp_lift; [apply none_wf|].
  destruct (comparison_ok (csizes c2) op rx ry false) as [Hok Ht]; [by eapply rc_ok_le..|].
  apply wp_seq, (wp_emit_skip b 0); [apply Hs2|lia|done|done|]. intros c3 Hs3 Hr3.
  apply wp_seq, (wp_emit_skip b 1); [apply Hs3|lia|split; [apply offset_0_ok|apply none_wf]|intros i; cbn [op_target]; lia|].
  intros c4 Hs4 Hr4.
  apply wp_seq, (wp_emit_skip b 1); [apply Hs4|lia|cbn|done|].
  { eapply reg_ok_le; [|exact Hr]. etrans; by eapply step_sizes. }
  intros c5 Hs5 Hr5.
  apply wp_seq. eapply (wp_emit b 1 0); [apply Hs5| |cbn [op_target]; lia|lia|].
  { cbn. eapply reg_ok_le; [|exact Hr]. sizes. }
  intros c6 Hs6 Hr6 _ _ _ _. apply cwp_ret. eapply placed_after; [apply Hs1|exact Hp|steps|regs_solve].
Qed.
(** ** Short circuits

    The label is new, so its one jump is the one that is pending when it is defined. *)
Lemma find_target_fresh b f id ts : Forall (target_ok b f) ts -> unique_jump_id f <= id ->
  find_target (JumpLabel.Unique id) ts = None.
Proof.
  intros Hts Hid. induction Hts as [|t ts Ht _ IH]; [done|]. cbn.
  destruct (label t) as [i|n|] eqn:E; cbn; [|done..]. pose proof (to_id _ _ _ Ht i E).
  by rewrite (proj2 (Z.eqb_neq i id)) by lia.
Qed.

Lemma retained_fresh f id n ps : Forall (pending_ok f) ps -> unique_jump_id f <= id ->
  retained (JumpLabel.Unique id) n ps = ps.
Proof.
  intros Hps Hid. unfold retained. induction Hps as [|p ps Hp _ IH]; [done|]. cbn. rewrite IH.
  assert (E : resolves (JumpLabel.Unique id) n p = false).
  { unfold resolves. destruct (target p) as [i|m|] eqn:E; cbn; rewrite ?andb_false_r; [|done..].
    pose proof (po_id _ _ Hp i E). by rewrite (proj2 (Z.eqb_neq i id)), andb_false_r by lia. }
  by rewrite E.
Qed.

Lemma wp_skip b c (m : M RegisterIndex) r (Q : RegisterIndex -> compiler -> Prop) : st b 1 c ->
  (forall c', st b 0 c' -> grows c c' -> same_regs c c' ->
     wp m c' (fun _ c'' => step b 0 c' c'' /\ same_regs c' c'')) ->
  (forall c', step b 0 c c' -> same_regs c c' -> Q r c') ->
  wp (bind unique_jump_label (fun skip => bind (jump skip) (fun _ =>
    bind m (fun _ => bind (jump_target skip) (fun _ => ret r))))) c Q.
Proof.
  intros Hst Hm HQ. set (id := unique_jump_id (current_function c)).
  apply wp_seq, (wp_unique_jump_label b 1); [done|]. fold id. intros c1 Hs1 Hr1 Hid1 Et1.
  pose proof Hs1 as [Hst1 [Hx1 [El1 Ep1]]]. pose proof Hst as [[_ Hsc _ _] _].
  assert (Hnone : find_target (JumpLabel.Unique id) (jump_targets (current_function c1)) = None).
  { rewrite Et1. eapply find_target_fresh; [apply (scope_targets _ _ Hsc)|lia]. }
  apply wp_seq, (wp_jump b 1); [done|lia|by intros ? [= <-]; lia|by rewrite Hnone|].
  intros c2 Hj. destruct Hj as [Hst2 Hx2 Hr2 El2 Et2 Hid2 Ep2]. rewrite Hnone in Ep2.
  assert (Hq12 : cext c c2) by (etrans; [exact Hx1|exact Hx2]).
  eapply cwp_bind; [apply Hm; [done| |regs_solve]|].
  { split; [intros j; by rewrite Hr2, Hr1|]. apply (fx_sizes _ _ _ (proj1 Hq12)). }
  intros r' c3 [Hs3 Hr3]. pose proof Hs3 as [Hst3 [Hx3 [El3 Ep3]]].
  assert (Hid3 : id < unique_jump_id (current_function c3)).
  { pose proof (fx_id _ _ _ (proj1 Hx3)). lia. }
  apply wp_seq, (wp_jump_target b); [done|by left; eexists|by intros ? [= <-]|].
  intros c4 [Hst4 Hx4 Hr4 El4 Et4 Hid4 Ep4]. apply cwp_ret. apply HQ; [|by intros j; rewrite Hr4, Hr3, Hr2, Hr1].
  split; [done|]. split; [|split; [congruence|]].
  - change (cext_since id c c4). etrans; [exact Hq12|]. etrans; [eapply cext_since_le; [|exact Hx3]; lia|].
    apply Hx4; [lia|]. intros i [= <-]. lia.
  - rewrite Ep4, Ep3, Ep2. unfold retained. cbn [List.filter].
    pose proof (Forall2_length _ _ _ (fx_blocks _ _ _ (proj1 Hx2))) as E2.
    pose proof (Forall2_length _ _ _ (fx_blocks _ _ _ (proj1 Hx3))) as E3.
    unfold resolves at 1. cbn [jump_block target]. rewrite <- E3, <- E2, Nat.eqb_refl. cbn [JumpLabel.eqb andb].
    rewrite Z.eqb_refl. cbn [negb]. rewrite <- Ep1. fold (retained (JumpLabel.Unique id) (length (blocks (current_function c1)) - 1) (pending_jumps (current_function c1))).
    rewrite Ep1. eapply retained_fresh; [apply (scope_pending _ _ Hsc)|lia].
Qed.

Lemma wp_short_circuit b c x op y dest : within (depth x) -> within (depth y) -> st b 0 c -> dok c x -> dok c y ->
  dest_ok c dest -> wp (short_circuit discharge_ x op y dest) c (placed b c dest).
Proof.
  intros Hwx Hwy Hst Hx Hy Hd. unfold short_circuit.
  eapply cwp_bind; [apply (wp_any_register b c x); [by left|done..]|]. intros [rt temp] c1 H1'.
  apply (wp_free_temp b c c1 (rt, temp)); [done|done|]. cbn [fst]. intros c2 Hs2 Hr2 Hrt.
  eapply cwp_mono; [|intros r c'; by eapply placed_trans].
  assert (Hd2 : dest_ok c2 dest) by (destruct dest; [cbn in *; by rewrite Hr2|done..]).
  pose proof (same_regs_grows _ _ _ Hs2 Hr2) as Hg2.
  apply wp_seq, (wp_new_destination b); [apply Hs2|done|]. intros r c3 Hp.
  pose proof (placed_grows _ _ _ _ _ Hp) as Hg3. pose proof (placed_reg_ok _ _ _ _ _ Hp Hd2) as Hr.
  pose proof (placed_used _ _ _ _ _ Hp Hd2) as Hu. pose proof Hp as [Hs3 _].
  assert (Hrt3 : reg_ok (csizes c3) rt) by (eapply reg_ok_le; [apply Hg3|done]).
  apply wp_seq, (wp_emit_skip b 0); [apply Hs3|lia|by case_bool|by case_bool; intros i|].
  intros c4 Hs4 Hr4. assert (Hg34 : grows c3 c4).
  { split; [intros j; by rewrite Hr4|by eapply step_sizes]. }
  apply (wp_skip b c4); [apply Hs4| |].
  - intros c5 Hst5 Hg5 Hr5. eapply cwp_mono.
    + apply (discharges y b c5 (ExprDestination.Register r)); [done|done| |].
      * eapply dok_grows; [|exact Hy]. etrans; [exact Hg2|]. etrans; [exact Hg3|]. by etrans.
      * cbn. by rewrite Hr5, Hr4.
    + intros r' c6 (? & _ & ?). done.
  - intros c5 Hs5 Hr5. eapply placed_after; [apply Hs2|exact Hp|steps|regs_solve].
Qed.

(** ** Every descriptor *)
Lemma global_field b c name dest : within 1 -> st b 0 c -> dest_ok c dest ->
  wp (bind get_environment (fun env => get_table discharge_ env (ExprDescriptor.Constant (Constant.String name)) dest))
    c (placed b c dest).
Proof.
  intros Hw Hst Hd. apply wp_seq, (wp_get_environment b 0); [done|]. intros v c1 Hs1 Hr1 Hv Hn.
  eapply cwp_mono; [apply (wp_get_table b); try done|intros r c'; by eapply placed_trans].
  - right. by exists v.
  - apply Hs1.
  - destruct dest; [cbn in *; by rewrite Hr1|done..].
Qed.

Lemma within_pairs (kvs : list (descriptor * descriptor)) n :
  (list_max (map (fun kv => max (depth kv.1) (depth kv.2)) kvs) <= n)%nat -> within n ->
  Forall (fun kv => within (depth kv.1) /\ within (depth kv.2)) kvs.
Proof.
  intros Hl Hn. apply list_max_le in Hl. apply Forall_forall. intros kv Hin.
  rewrite List.Forall_forall in Hl. specialize (Hl (max (depth kv.1) (depth kv.2))).
  cbn in Hl. assert (max (depth kv.1) (depth kv.2) <= n)%nat.
  { apply Hl. apply (in_map (fun kv : descriptor * descriptor => max (depth kv.1) (depth kv.2))).
    by apply list_elem_of_In. }
  split; (eapply within_le; [|exact Hn]; lia).
Qed.

Lemma dok_pairs c (kvs : list (descriptor * descriptor)) :
  foldr (fun kv Q => (descriptor_ok (variable_ok c) (prototype_ok (csizes c)) kv.1 /\
    descriptor_ok (variable_ok c) (prototype_ok (csizes c)) kv.2) /\ Q) True kvs <->
  Forall (fun kv => dok c kv.1 /\ dok c kv.2) kvs.
Proof. induction kvs as [|kv kvs IH]; cbn; [done|]. by rewrite Forall_cons, IH. Qed.

Lemma wp_expr_discharge_body b c e dest n : (depth e <= S n)%nat -> within n -> st b 0 c -> dok c e ->
  dest_ok c dest -> wp (expr_discharge_body discharge_ call_ invoke_ e dest) c (placed b c dest).
Proof.
  intros Hd Hn Hst He Hdest.
  assert (Hle : forall m, (m <= n)%nat -> within m) by (intros m Hm; by eapply within_le).
  destruct e as [v|v| |op x|x op y|x op y|x op y|a kvs|x y|p|f args|t m args|es|x]; cbn [depth] in Hd;
    cbn [expr_discharge_body].
  - destruct v as [r a|u a|name]; [| |apply global_field; [apply Hle; lia|done..]];
      (eapply wp_place_by; [done..|]; intros d c1 _ [Hgr Hgs] Hst1 Hok Hu;
       apply (wp_emit_plain b); [done|split; [done|]|plain_op|done]).
    + eapply (used_reg_ok b c1); [by split|]. by apply Hgr.
    + by eapply upvalue_ok_le.
  - by apply wp_discharge_constant.
  - apply wp_seq, (wp_new_destination b); [done..|]. intros r c1 Hp. pose proof Hp as [Hs1 _].
    pose proof (placed_reg_ok _ _ _ _ _ Hp Hdest) as Hr. destruct (constant_field 1) as (v & Ev & Hwf & Hc); [lia|].
    apply wp_seq. eapply wp_lift; [exact Ev|]. apply wp_seq, (wp_emit_plain b); [apply Hs1| |plain_op|].
    + apply (list_ok_constant _ _ _ 1); [done..|unfold reg_ok in Hr; lia|lia|unfold reg_ok in Hr; lia].
    + intros c2 Hs2 Hr2. apply cwp_ret. by eapply placed_after.
  - eapply cwp_bind; [apply (wp_any_register b c x); [left; apply Hle; lia|done..]|]. intros [rt temp] c1 H1'.
    apply (wp_free_temp b c c1 (rt, temp)); [done|done|]. cbn [fst]. intros c2 Hs2 Hr2 Hrt.
    eapply cwp_mono; [|intros r c'; by eapply placed_trans].
    apply wp_place_by; [apply Hs2|destruct dest; [cbn in *; by rewrite Hr2|done..]|].
    intros r c3 _ [_ Hg] Hst3 Hr Hu. destruct (unop_ok (csizes c3) op r rt); [done|by eapply reg_ok_le|].
    by apply (wp_emit_plain b).
  - destruct He as [Hx Hy]. apply wp_seq, (wp_operands b); [apply Hle; lia|apply Hle; lia|done..|].
    intros rx ry c1 Hs1 Hr1 Hrx Hry. eapply cwp_mono; [|intros r c'; by eapply placed_trans].
    apply wp_place_by; [apply Hs1|destruct dest; [cbn in *; by rewrite Hr1|done..]|].
    intros r c3 _ [_ Hg] Hst3 Hr Hu. destruct (binop_ok (csizes c3) op r rx ry); [done|by eapply rc_ok_le..|].
    by apply (wp_emit_plain b).
  - destruct He as [Hx Hy]. apply wp_comparison; try done; apply Hle; lia.
  - destruct He as [Hx Hy]. apply wp_short_circuit; try done; apply Hle; lia.
  - destruct He as [Ha Hk]. apply dok_all in Ha. apply dok_pairs in Hk.
    apply wp_table_constructor; try done; [| |apply Hle; lia].
    + eapply within_args; [|exact Hn]. lia.
    + eapply within_pairs; [|exact Hn]. lia.
  - destruct He as [Hx Hy]. apply wp_get_table; try done; [left|]; apply Hle; lia.
  - apply wp_place_by; [done..|]. intros r c1 _ [_ Hg] Hst1 Hr Hu.
    apply (wp_emit_plain b); [done| |plain_op|done]. split; [done|]. by eapply prototype_ok_le.
  - destruct He as [Hf Ha]. apply dok_all in Ha. destruct (constant_field 1) as (v & Ev & Hwf & Hc); [lia|].
    apply wp_seq. eapply wp_lift; [exact Ev|].
    eapply cwp_bind; [apply (calls f args (CallMode.Call v) b c); try done; apply Hle; unfold call_depth; lia|].
    intros r c1 Hc1. by apply wp_place_result.
  - destruct He as (Ht & Hm & Ha). apply dok_all in Ha. destruct (constant_field 1) as (v & Ev & Hwf & Hc); [lia|].
    apply wp_seq. eapply wp_lift; [exact Ev|].
    eapply cwp_bind; [apply (invokes t m args (CallMode.Call v) b c); try done; apply Hle; unfold method_depth; lia|].
    intros r c1 Hc1. by apply wp_place_result.
  - destruct He as [Hne He]. apply dok_all in He. apply wp_concat; try done. eapply within_args; [|exact Hn]. lia.
  - apply discharges; try done. apply Hle. lia.
Qed.
(** ** A number of values *)
Definition pushed b n c r c' : Prop :=
  step b 0 c c' /\ ri r = top c /\ top c + n < 256 /\ top c' = top c + n /\
  forall j, regs c' j = ((top c <=? j) && (j <? top c + n)) || regs c j.

Lemma wp_push_pushed b c n : st b 0 c -> 0 < n < 256 -> wp (push_or n) c (pushed b n c).
Proof. intros Hst Hn. apply (wp_push_or b 0); [done|lia|]. intros r c' ? ? ? ? ? ? ?. by split_and!. Qed.

Lemma pushed_block b n c r c' : st b 0 c -> pushed b n c r c' -> 0 <= n -> block_ok (csizes c') (ri r) n.
Proof.
  intros Hst (Hs & Er & Hlt & Ht & Hr) Hn. pose proof (top_sizes _ _ _ (proj1 Hs)).
  pose proof (top_bound _ _ _ Hst). pose proof (core_bound _ _ _ (inv_core _ _ _ (proj1 Hst))).
  unfold block_ok. lia.
Qed.

Lemma pushed_after b n c0 c r r' c' : st b 0 c0 -> step b 0 c0 c -> same_regs c0 c -> ri r = top c0 ->
  pushed b n c r' c' -> pushed b n c0 r c'.
Proof.
  intros Hst Hs Hr Er (Hs' & _ & Hlt & Ht & Hr'). assert (E : top c = top c0) by (eapply same_regs_top; [exact Hst|apply Hs|done]).
  rewrite E in *. split_and!; [steps|done..|]. intros j. by rewrite Hr', Hr.
Qed.

Lemma pushed_then b n c r c1 c' : pushed b n c r c1 -> step b 0 c1 c' -> same_regs c1 c' -> pushed b n c r c'.
Proof.
  intros (Hs & Er & Hlt & Ht & Hr) Hs' Hr'. split_and!; [steps|done..| |intros j; by rewrite Hr', Hr].
  rewrite <- Ht. eapply same_regs_top; [apply Hs|apply Hs'|done].
Qed.

Lemma pushed_more b m n c r r' c1 c' : 0 <= m -> 0 <= n -> pushed b m c r c1 -> pushed b n c1 r' c' -> pushed b (m + n) c r c'.
Proof.
  intros Hm Hn (Hs & Er & Hlt & Ht & Hr) (Hs' & Er' & Hlt' & Ht' & Hr'). split_and!; [steps|done|lia|lia|].
  intros j. rewrite Hr', Hr, Ht.
  destruct (Z.leb_spec (top c) j), (Z.ltb_spec j (top c + m)), (Z.leb_spec (top c + m) j),
    (Z.ltb_spec j (top c + m + n)), (Z.ltb_spec j (top c + (m + n))); cbn; (done || lia).
Qed.

Lemma placed_pushed b c r c' : placed b c ExprDestination.PushNew r c' -> pushed b 1 c r c'.
Proof.
  intros (Hs & Er & Hlt & Ht & Hr). split_and!; [done..|lia|done|]. intros j. rewrite Hr, Er.
  destruct (Z.eqb_spec j (top c)), (Z.leb_spec (top c) j), (Z.ltb_spec j (top c + 1)); (done || lia).
Qed.

(** The values of a call that has left them above the top *)
Lemma wp_keep_results b c0 c r n : st b 0 c0 -> called b c0 r c -> 0 < n < 256 ->
  wp (bind (push_or n) (fun _ => ret r)) c (pushed b n c0).
Proof.
  intros Hst (Hs & Hr & Er & Hlt & Hok) Hn. eapply cwp_bind; [apply (wp_push_pushed b); [apply Hs|done]|].
  intros r' c1 Hp. apply cwp_ret. by eapply pushed_after.
Qed.

Lemma wp_expr_push_count b c e n : within (depth e) -> st b 0 c -> dok c e -> 0 < n < 256 ->
  wp (expr_push_count discharge_ call_ invoke_ e n) c (pushed b n c).
Proof.
  intros Hw Hst He Hn. assert (Hi : in_int u8 n) by int_lia. unfold expr_push_count.
  apply wp_seq, wp_assert; [by rewrite (proj2 (Z.eqb_neq n 0)) by lia|].
  assert (Hgen : wp (bind (discharge_ e ExprDestination.PushNew) (fun dest =>
      bind (if 1 <? n then bind (push_or (n - 1)) (fun nils => emit (Operation.LoadNil nils (n - 1))) else ret tt)
        (fun _ => ret dest))) c (pushed b n c)).
  { eapply cwp_bind; [by apply (discharges e b c ExprDestination.PushNew)|]. intros r c1 Hp1.
    apply placed_pushed in Hp1. pose proof Hp1 as [Hs1 _]. destruct (Z.ltb_spec 1 n).
    - apply wp_seq. eapply cwp_bind; [apply (wp_push_pushed b); [apply Hs1|lia]|]. intros r' c2 Hp2.
      pose proof Hp2 as [Hs2 _]. apply (wp_emit_plain b); [apply Hs2| |plain_op|].
      + split; [int_lia|]. eapply pushed_block; [apply Hs1|exact Hp2|lia].
      + intros c3 Hs3 Hr3. apply cwp_ret. eapply pushed_then; [|exact Hs3|exact Hr3].
        replace n with (1 + (n - 1)) by lia. eapply pushed_more; [lia..|exact Hp1|exact Hp2].
    - apply wp_seq, cwp_ret, cwp_ret. by replace n with 1 by lia. }
  assert (Hnil : wp (bind (push_or n) (fun dest => bind (emit (Operation.LoadNil dest n)) (fun _ => ret dest)))
    c (pushed b n c)).
  { eapply cwp_bind; [by apply (wp_push_pushed b)|]. intros r c1 Hp. pose proof Hp as [Hs1 _].
    apply wp_seq, (wp_emit_plain b); [apply Hs1| |plain_op|].
    - split; [done|]. eapply pushed_block; [exact Hst|exact Hp|lia].
    - intros c2 Hs2 Hr2. apply cwp_ret. by eapply pushed_then. }
  destruct e as [v|v| |op x|x op y|x op y|x op y|a kvs|x y|p|f args|t m args|es|x]; try exact Hgen; cbn [depth] in Hw.
  - destruct v; try exact Hgen. exact Hnil.
  - eapply cwp_bind; [by apply (wp_push_pushed b)|]. intros r c1 Hp. pose proof Hp as [Hs1 _].
    apply wp_seq, cwp_ok_or. intros v Hv. destruct (try_constant_ok _ _ Hi Hv) as [Hwf Ev].
    apply wp_seq, (wp_emit_plain b); [apply Hs1| |plain_op|].
    + split; [done|]. rewrite Ev. eapply pushed_block; [exact Hst|exact Hp|cbn; lia].
    + intros c2 Hs2 Hr2. apply cwp_ret. by eapply pushed_then.
  - destruct He as [Hf Ha]. apply dok_all in Ha. apply wp_seq, cwp_ok_or. intros v Hv.
    destruct (try_constant_ok _ _ Hi Hv) as [Hwf _].
    eapply cwp_bind; [apply (calls f args (CallMode.Call v) b c); try done; eapply within_le; [|exact Hw]; unfold call_depth; lia|].
    intros r c1 Hc1. by apply wp_keep_results.
  - destruct He as (Ht & Hm & Ha). apply dok_all in Ha. apply wp_seq, cwp_ok_or. intros v Hv.
    destruct (try_constant_ok _ _ Hi Hv) as [Hwf _].
    eapply cwp_bind; [apply (invokes t m args (CallMode.Call v) b c); try done; eapply within_le; [|exact Hw]; unfold method_depth; lia|].
    intros r c1 Hc1. by apply wp_keep_results.
Qed.

(** ** Tests *)
Definition tested b c c' : Prop := step b 1 c c' /\ same_regs c c'.

Lemma wp_gen_comparison b c x op y skip : within (depth x) -> within (depth y) -> st b 0 c -> dok c x -> dok c y ->
  wp (gen_comparison discharge_ x op y skip) c (fun _ => tested b c).
Proof.
  intros Hwx Hwy Hst Hx Hy. apply wp_seq, (wp_operands b); [done..|]. intros rx ry c1 Hs1 Hr1 Hrx Hry.
  destruct (comparison_ok (csizes c1) op rx ry skip) as [Hok Ht]; [done..|].
  apply (wp_emit_skip b 0); [apply Hs1|lia|done|done|]. intros c2 Hs2 Hr2. split; [steps|regs_solve].
Qed.

Lemma wp_gen_test b c e skip : within (depth e) -> st b 0 c -> dok c e ->
  wp (gen_test discharge_ e skip) c (fun _ => tested b c).
Proof.
  intros Hw Hst He. eapply cwp_bind; [apply (wp_any_register b c e); [by left|done..]|]. intros [rt temp] c1 H1'.
  apply (wp_free_temp b c c1 (rt, temp)); [done|done|]. cbn [fst]. intros c2 Hs2 Hr2 Hrt.
  apply (wp_emit_skip b 0); [apply Hs2|lia|done|done|]. intros c3 Hs3 Hr3. split; [steps|regs_solve].
Qed.

Lemma wp_expr_test b c e skip : within (depth e) -> st b 0 c -> dok c e ->
  wp (expr_test discharge_ e skip) c (fun _ => tested b c).
Proof.
  intros Hw Hst He.
  destruct e as [v|v| |op x|x op y|x op y|x op y|a kvs|x y|p|f args|t m args|es|x]; try by apply wp_gen_test.
  - cbn [expr_test]. case_bool; [|apply cwp_ret; split; [split; [by apply (st_weaken b 0)|done]|done]].
    apply wp_seq. eapply wp_lift; [apply none_wf|].
    apply (wp_emit_skip b 0); [done|lia|split; [apply offset_0_ok|apply none_wf]|intros i; cbn [op_target]; lia|]. by split.
  - assert (Hx : within (depth x)) by (eapply within_le; [|exact Hw]; cbn; lia).
    destruct op; try by apply wp_gen_test. destruct x; try by apply wp_gen_test.
    cbn in He, Hx. destruct He as [? ?]. apply wp_gen_comparison; try done; eapply within_le; try exact Hx; lia.
  - destruct He as [? ?]. cbn in Hw. apply wp_gen_comparison; try done; eapply within_le; try exact Hw; lia.
Qed.
End bodies.

(** ** The recursion *)
#[export] Instance recursion_upto n : Recursion (fun m => (m <= n)%nat) (discharge n) (call n) (invoke n).
Proof.
  induction n as [|n IH].
  - split; [lia|..].
    + intros e b c dest Hd. destruct e; cbn in Hd; lia.
    + unfold call_depth. lia.
    + unfold method_depth. lia.
  - split; [lia|..].
    + intros e b c dest Hd Hst He Hdest. apply (wp_expr_discharge_body b c e dest n); (done || lia).
    + intros f args mode b c Hd Hst Hf Ha Hm. apply (wp_call_function_body b c f args mode n); (done || lia).
    + intros t m args mode b c Hd Hst Ht Hmm Ha Hm. apply (wp_call_method_body b c t m args mode n); (done || lia).
Qed.

#[export] Instance recursion_whole : Recursion (fun _ => True) expr_discharge call_function call_method.
Proof.
  split; [done|..].
  - intros e b c dest _. by apply (discharges (Recursion := recursion_upto (depth e))).
  - intros f args mode b c _. by apply (calls (Recursion := recursion_upto (call_depth f args))).
  - intros t m args mode b c _. by apply (invokes (Recursion := recursion_upto (method_depth t m args))).
Qed.
End CompilerValues.
End CompilerValues.
