(* ===== verification/CompilerFunctions.v ===== *)
(** * Blocks and functions

    What statements leave behind composes; a block gives everything back; and the body of a
    function, between [start] and [finish], becomes a well-formed prototype. *)

From stdpp Require Import sorting.
From S2P Require Import Prelude Float64 Lexer Opcode Constant Operators Parser RegisterAllocator CompilerState CompilerExpr Compiler CompilerCode CompilerFacts CompilerSteps CompilerJumps CompilerDischarge CompilerValues.
Import Ast Compiler Discharge Compile CompilerFacts CompilerSteps CompilerJumps CompilerDischarge CompilerValues.

Module CompilerFunctions.
Section CompilerFunctions.
Context `{BuildProfile} `{FloatLib} `{StringInterner}.
#[local] Existing Instance checking.
#[local] Existing Instance name_bytes.
Abbreviation function := (CompilerFunction IString).
Abbreviation cur := current_function.
Implicit Types (f : function) (c : compiler) (b k id : Z).

Definition uid c : Z := unique_jump_id (cur c).

(** ** What statements leave behind *)

(** Nothing new but code and labels *)
Definition kept id b c c' : Prop := sst b c' /\ cext_since id c c' /\ locals (cur c') = locals (cur c).

Lemma kept_same id b c : sst b c -> kept id b c c.
Proof. intros Hs. by split. Qed.
Lemma kept_kept id b c c1 c2 : kept id b c c1 -> kept id b c1 c2 -> kept id b c c2.
Proof. intros (? & ? & ?) (? & ? & ?). split_and!; [done|by etrans|congruence]. Qed.
Lemma kept_le id id' b c c' : id' <= id -> kept id b c c' -> kept id' b c c'.
Proof. intros Hid (? & ? & ?). split_and!; [done|by eapply cext_since_le|done]. Qed.
Lemma stmts_le id id' b b' c c' : id' <= id -> stmts id b b' c c' -> stmts id' b b' c c'.
Proof. intros Hid [? ? ? ?]. split; [done|by eapply cext_since_le|done..]. Qed.

Lemma kept_stmts id b c c' : kept id b c c' -> stmts id b b c c'.
Proof. intros (? & ? & E). split; [done..|lia|]. exists []. rewrite E. split_and!; [done..|cbn; lia]. Qed.

Lemma descending_app b n m : descending b (n + m) = descending (b + Z.of_nat n) m ++ descending b n.
Proof.
  induction m as [|m IH]; [by rewrite Nat.add_0_r|]. rewrite Nat.add_succ_r. cbn [descending app].
  rewrite IH. f_equal. lia.
Qed.

Lemma stmts_trans id b b1 b2 c c1 c2 : stmts id b b1 c c1 -> stmts id b1 b2 c1 c2 -> stmts id b b2 c c2.
Proof.
  intros [_ Hx Hle (ns & El & Hd & Eb)] [Hs Hx' Hle' (ns' & El' & Hd' & Eb')].
  split; [done|by etrans|lia|]. exists (ns' ++ ns).
  rewrite El', El, app_assoc, map_app, length_app, Hd, Hd', Eb', Eb. split_and!; [done| |lia].
  by rewrite (Nat.add_comm (length ns')), descending_app.
Qed.

(** Some statements, with some new variables *)
Definition ran id b c c' : Prop := exists b', stmts id b b' c c'.

Lemma ran_kept id b c c' : kept id b c c' -> ran id b c c'.
Proof. intros Hk. exists b. by apply kept_stmts. Qed.

Lemma uid_le id c c' : cext_since id c c' -> uid c <= uid c'.
Proof. intros [Hx _]. apply (fx_id _ _ _ Hx). Qed.

Lemma kept_step id b c c' : sst b c -> step b 0 c c' -> same_regs c c' -> id <= uid c -> kept id b c c'.
Proof.
  intros [_ Hc] [Hst (Hx & El & _)] Hr Hid. split_and!; [|by eapply cext_since_le|done].
  split; [done|]. intros j. by rewrite Hr.
Qed.
Lemma kept_jumped id b l c c' : sst b c -> jumped b l c c' -> id <= uid c -> kept id b c c'.
Proof.
  intros [_ Hc] [Hst Hx Hr El _ _ _] Hid. split_and!; [|by eapply cext_since_le|done].
  split; [done|]. intros j. by rewrite Hr.
Qed.
Lemma kept_targeted id b l c c' : sst b c -> targeted b l c c' -> id <= uid c ->
  (forall i, l = JumpLabel.Unique i -> id <= i) -> kept id b c c'.
Proof.
  intros [_ Hc] [Hst Hx Hr El _ _ _] Hid Hl. split_and!; [|by apply Hx|done].
  split; [done|]. intros j. by rewrite Hr.
Qed.
Lemma kept_exited id b c c' : exited id b c c' -> kept id b c c'.
Proof. intros [? ? ? ?]. by split. Qed.

Lemma sst_top b c : sst b c -> top c = b.
Proof. intros [? ?]. by eapply contiguous_top. Qed.
Lemma sst_bound b c : sst b c -> 0 <= b <= 255.
Proof. intros [[Hinv _] _]. apply (core_bound _ _ _ (inv_core _ _ _ Hinv)). Qed.

Lemma sst_enter b c : sst b c -> sst b (entered_block c).
Proof. intros Hs. pose proof (sst_top _ _ Hs). destruct Hs as [[Hi _] Hc]. split; [by apply st_enter|done]. Qed.

Lemma wp_enter_block c (Q : unit -> compiler -> Prop) : Q tt (entered_block c) -> wp enter_block c Q.
Proof. done. Qed.

(** A label of the compiler's own that can be jumped to: as a target, if it is one, it is at
    most at [t]. *)
Definition ready id t c : Prop := id < uid c /\
  forall x, find_target (JumpLabel.Unique id) (jump_targets (cur c)) = Some x -> target_top x <= t.

Lemma ready_new b k t c : st b k c ->
  forall x, find_target (JumpLabel.Unique (uid c)) (jump_targets (cur c)) = Some x -> target_top x <= t.
Proof.
  intros [[_ Hs _ _] _] x. by rewrite (find_target_fresh b (cur c)) by (apply (scope_targets _ _ Hs) || done).
Qed.

Lemma ready_ext id t c c' : ready id t c -> cext_since (id + 1) c c' -> ready id t c'.
Proof.
  intros [Hid Hn] Hx. split; [apply uid_le in Hx; lia|]. destruct Hx as [Hx _].
  destruct (fx_targets _ _ _ Hx) as (ts & -> & Hts). by rewrite find_target_skip.
Qed.

(** A new label *)
Lemma wp_new_label b c (Q : JumpLabel.t IString -> compiler -> Prop) : sst b c ->
  (forall c', kept (uid c) b c c' -> ready (uid c) b c' -> uid c' = uid c + 1 -> Q (JumpLabel.Unique (uid c)) c') ->
  wp unique_jump_label c Q.
Proof.
  intros Hs HQ. apply (wp_unique_jump_label b 0); [apply Hs|]. intros c' Hstep Hr Hid Et.
  apply HQ; [by apply kept_step| |done]. split; [unfold uid; lia|]. rewrite Et.
  eapply ready_new, Hs.
Qed.

Lemma wp_jump_ready b k i t c (Q : unit -> compiler -> Prop) : st b k c -> 0 <= k <= 1 -> ready i t c -> t <= top c ->
  (forall c', jumped b (JumpLabel.Unique i) c c' -> Q tt c') -> wp (jump (JumpLabel.Unique i)) c Q.
Proof.
  intros Hst Hk [Hid Hn] Ht HQ. apply (wp_jump b k); [done..| | |done]; [by intros ? [= <-]|].
  intros x Hx. specialize (Hn x Hx). lia.
Qed.

(** A jump to a label of the source: as a target it is at most as high as the variables. *)
Definition source_label (l : JumpLabel.t IString) : Prop := ~ is_unique l.

Lemma wp_jump_source b l c (Q : unit -> compiler -> Prop) : st b 0 c -> source_label l ->
  (forall c', jumped b l c c' -> Q tt c') -> wp (jump l) c Q.
Proof.
  intros Hst Hl HQ. apply (wp_jump b 0); [done|lia| | |done].
  - intros i ->. destruct Hl. by eexists.
  - intros t Hf. apply find_target_in in Hf as [Hin He]. pose proof Hst as [[_ Hs _ _] _].
    pose proof (top_bound _ _ _ Hst).
    destruct (to_top _ _ _ (proj1 (Forall_forall _ _) (scope_targets _ _ Hs) t Hin)) as [Hu|]; [|lia].
    destruct Hl. by apply (eqb_label _ _ He).
Qed.

Lemma wp_target_source id b l c (Q : unit -> compiler -> Prop) : sst b c -> source_label l -> id <= uid c ->
  (forall c', kept id b c c' -> Q tt c') -> wp (jump_target l) c Q.
Proof.
  intros Hs Hl Hid HQ. apply (wp_jump_target b); [apply Hs|right; rewrite (sst_top b c Hs); lia| |].
  - intros i ->. destruct Hl. by eexists.
  - intros c' Ht. apply HQ. eapply kept_targeted; [done..|]. intros i ->. destruct Hl. by eexists.
Qed.

Lemma wp_target_own id b i c (Q : unit -> compiler -> Prop) : sst b c -> i < uid c -> id <= i ->
  (forall c', kept id b c c' -> ready i b c' -> (forall j t, j <> i -> ready j t c -> ready j t c') ->
     uid c' = uid c -> Q tt c') ->
  wp (jump_target (JumpLabel.Unique i)) c Q.
Proof.
  intros Hs Hi Hid HQ. apply (wp_jump_target b); [apply Hs|left; by eexists|by intros ? [= <-]|].
  intros c' Ht. pose proof (tg_id _ _ _ _ Ht) as E. apply HQ; [| | |exact E].
  - eapply kept_targeted; [done..|lia|]. by intros ? [= <-].
  - split; [unfold uid in *; lia|]. intros x. rewrite (tg_targets _ _ _ _ Ht). cbn [find_target label JumpLabel.eqb].
    rewrite Z.eqb_refl. intros [= <-]. cbn. by rewrite (sst_top b c Hs).
  - intros j t Hj [? Hn]. split; [unfold uid in *; lia|]. intros x. rewrite (tg_targets _ _ _ _ Ht).
    cbn [find_target label JumpLabel.eqb]. rewrite (proj2 (Z.eqb_neq i j)) by done. apply Hn.
Qed.

(** [set_line_number] *)
Lemma cwp_line b c n (Q : unit -> compiler -> Prop) : sst b c ->
  (forall c', kept (uid c) b c c' -> uid c' = uid c -> Q tt c') -> wp (modify (set_line_number n)) c Q.
Proof.
  intros [Hst Hc] HQ. apply wp_modify. pose proof Hst as [Hinv He].
  destruct (fext_step b 0 b 0 c (set_line_number n)) as [Hi Hx]; [done| | |done|].
  - destruct (inv_core _ _ _ Hinv). by split.
  - by eapply scope_mono; [apply (inv_scope _ _ _ Hinv)|..].
  - apply HQ; [|done]. split_and!; [by split|apply Hx|done]. split; cbn; try done. by exists [].
Qed.

(** [block]: a block inside another *)
Lemma wp_in_block id b c (body : M unit) (Q : unit -> compiler -> Prop) : sst b c ->
  wp body (entered_block c) (fun _ c' => ran id b (entered_block c) c') ->
  (forall c', exited id b c c' -> Q tt c') ->
  wp (bind enter_block (fun _ => bind body (fun _ => exit_block))) c Q.
Proof.
  intros Hs Hb HQ. apply wp_seq, wp_enter_block. eapply cwp_bind; [exact Hb|].
  intros [] c1 [b' Hc1]. by apply (wp_exit_block id b b' c).
Qed.
(** ** The outermost block of a function *)

(** The state of a function that ends: its parameters are the only registers in use. *)
Record ends id b c0 c' : Prop := {
  en_core : core b 0 (cur c');
  en_regs : contiguous b c';
  en_locals : locals (cur c') = locals (cur c0);
  en_ext : cext_since id c0 c';
  en_upper : Forall (fun f => exists b, core b 0 f) (upper_functions c');
  en_chain : chain (cur c' :: upper_functions c')
}.

Lemma wp_exit_last id b b' c0 c (Q : unit -> compiler -> Prop) : inv b 0 c0 -> contiguous b c0 -> top c0 = b ->
  blocks (cur c0) = [] -> stmts id b b' (entered_block c0) c ->
  (forall c', ends id b c0 c' -> Q tt c') -> wp exit_block c Q.
Proof.
  intros Hinv Hc0 Htop Eblocks Hsm HQ.
  destruct (stmts_exits id b b' c0 c) as (x & rest & r & Hex); [done..|].
  destruct Hsm as [[Hst _] Hx _ _].
  pose proof (fext_left id b b' r (pending_jumps (cur c)) c0 c x rest Hx Hex Hst) as Hx'.
  pose proof (core_left b b' r (pending_jumps (cur c)) c0 c x rest Hinv Hst Hex) as Hcore.
  destruct Hex as [Eb Hrest Hbot Hfree Hdrain Hwf Hsz Hr]. rewrite Eblocks in Hrest. inversion Hrest. subst rest.
  unfold exit_block. eapply wp_read; [reflexivity|]. cbn beta. rewrite Eb.
  eapply cwp_bind; [apply (wp_lift _ (locals (cur c0), r) _ (fun a c' => a = (locals (cur c0), r) /\ c' = c));
    [by rewrite Hbot|done]|]. intros a c1 [-> ->].
  eapply cwp_bind; [by apply (wp_lift _ _ _ (fun a c' => a = jump_targets (cur c0) /\ c' = c) Hdrain)|].
  intros a c1 [-> ->]. rewrite bool_decide_eq_true_2 by done. rewrite andb_false_r.
  eapply (cwp_bind _ _ _ (fun _ c' => c' = left_block r (pending_jumps (cur c)) c0 c));
    [apply wp_modify; unfold left_block; by rewrite Eb|].
  intros [] c1 ->. apply wp_seq, cwp_ret, cwp_ret. apply HQ. destruct Hst as [[_ _ Hu Hch] _]. by split.
Qed.

(** ** [start] *)
Lemma parameter_locals_spec params : forall i ls,
  exists news, parameter_locals params i ls = news ++ ls /\ length news = length params /\
    map local_register news = descending i (length params).
Proof.
  induction params as [|p params IH]; intros i ls; cbn [parameter_locals]; [by exists []|].
  destruct (IH (i + 1) ((p, mk_RegisterIndex i, NONE) :: ls)) as (news & -> & Hl & Hd).
  exists (news ++ [(p, mk_RegisterIndex i, NONE)]). rewrite <- app_assoc, length_app, map_app, Hd. cbn.
  split_and!; [done|lia|]. change (descending (i + 1) (length params) ++ [i] = descending i (1 + length params)).
  rewrite descending_app. f_equal. cbn. by rewrite Z.add_0_r.
Qed.

Lemma descending_range b n j : j ∈ descending b n -> b <= j < b + Z.of_nat n.
Proof.
  induction n as [|n IH]; cbn [descending]; [by intros ?%not_elem_of_nil|].
  rewrite elem_of_cons. intros [->|Hj]; [lia|]. specialize (IH Hj). lia.
Qed.

(** A function that starts: its parameters in the first registers *)
Record starts n f : Prop := {
  sr_core : core n 0 f;
  sr_scope : scope n f;
  sr_regs : forall j, freg f j = (0 <=? j) && (j <? n);
  sr_blocks : blocks f = [];
  sr_upvalues : f_upvalues f = [];
  sr_params : f_fixed_params f = n;
  sr_locals : map local_register (locals f) = descending 0 (length (locals f));
  sr_count : Z.of_nat (length (locals f)) = n
}.

Lemma started_registers n : 0 <= n <= 255 ->
  exists r, (if n =? 0 then Ok RegisterAllocator.default
    else '(base, r) ← RegisterAllocator.push n RegisterAllocator.default;
         match base with Some _ => Ok r | None => Panic end) = Ok r /\
    RegisterAllocator.wf r /\ n <= RegisterAllocator.stack_size r /\
    forall j, RegisterAllocator.registers r j = (0 <=? j) && (j <? n).
Proof.
  intros Hn. pose proof RegisterAllocator.default_wf as Hwf. destruct (Z.eqb_spec n 0) as [->|Hne].
  - exists RegisterAllocator.default. split_and!; [done..|]. intros j. cbn.
    destruct (Z.leb_spec 0 j), (Z.ltb_spec j 0); cbn; (done || lia).
  - destruct (RegisterAllocator.push_spec _ n Hwf) as (res & r & E & Hwf' & Hres); [lia|cbn; lia|].
    rewrite E, outcome_bind_Ok. destruct res as [base|].
    + exists r. destruct Hres as (Eb & H2' & H3' & H4' & H5' & H6').
      pose proof (RegisterAllocator.wf_size _ Hwf'). cbn [RegisterAllocator.stack_top RegisterAllocator.default] in *.
      split_and!; [done|done|lia|]. intros j. rewrite H6'. by rewrite orb_false_r.
    + destruct Hres as (_ & [?|?]); cbn in *; lia.
Qed.

Lemma start_function_spec reference params va : exists r, start reference params va = Ok r /\
  forall f, r = inl f -> starts (Z.of_nat (length params)) f.
Proof.
  unfold start. destruct (checked u8 _) as [n|] eqn:E; [|by eexists].
  apply checked_Some in E as [Hi ->]. destruct (started_registers (Z.of_nat (length params))) as (r & -> & Hwf & Hs & Hr); [int_lia|].
  rewrite outcome_bind_Ok. eexists. split; [reflexivity|]. intros f [= <-].
  destruct (parameter_locals_spec params 0 []) as (news & El & Hlen & Hd). rewrite app_nil_r in El.
  split; cbn; rewrite ?El; try done; try congruence; try lia.
  - split; cbn; rewrite ?El; try done; try apply Forall_nil_2; try apply code_ok_nil; try lia; try int_lia.
    + intros j Hj. unfold freg. cbn. rewrite Hr, (proj2 (Z.leb_le _ _)), (proj2 (Z.ltb_lt _ _)) by lia. done.
    + apply Forall_forall. intros l Hl. assert (Hin : local_register l ∈ map local_register news) by by apply list_elem_of_fmap_2.
      rewrite Hd in Hin. apply descending_range in Hin. unfold local_register in Hin. lia.
  - split; cbn; try done; constructor.
Qed.

(** ** [finish] *)
Lemma free_all_spec rs : forall r, RegisterAllocator.wf r -> NoDup (map register_index rs) ->
  Forall (fun i => RegisterAllocator.registers r (register_index i) = true) rs ->
  exists r', free_all rs r = Ok r' /\ RegisterAllocator.wf r' /\
    RegisterAllocator.stack_size r' = RegisterAllocator.stack_size r /\
    forall j, RegisterAllocator.registers r' j =
      negb (bool_decide (j ∈ map register_index rs)) && RegisterAllocator.registers r j.
Proof.
  induction rs as [|[i] rs IH]; intros r Hwf Hnd Hu; cbn [free_all map] in *.
  - exists r. by split_and!.
  - apply NoDup_cons in Hnd as [Hi Hnd]. apply Forall_cons in Hu as [Hui Hu]. cbn [register_index] in *.
    pose proof (RegisterAllocator.wf_used_range _ _ Hwf Hui). pose proof (RegisterAllocator.wf_top _ Hwf).
    pose proof (proj2 (RegisterAllocator.release_spec _ Hwf) i ltac:(lia)) as Hf.
    destruct (RegisterAllocator.free (mk_RegisterIndex i) r) as [r1|]; [|congruence].
    destruct Hf as (_ & Hwf1 & Hsz1 & Hr1). rewrite outcome_bind_Ok.
    destruct (IH r1 Hwf1 Hnd) as (r' & -> & Hwf' & Hsz & Hr').
    { apply Forall_forall. intros x Hx. rewrite Hr1. rewrite (proj1 (Forall_forall _ _) Hu x Hx).
      rewrite (proj2 (Z.eqb_neq _ _)); [done|]. intros E. apply Hi. rewrite <- E. by apply list_elem_of_fmap_2. }
    exists r'. split_and!; [done..|congruence|]. intros j. rewrite Hr', Hr1, andb_assoc. f_equal.
    destruct (Z.eqb_spec j i) as [->|Hne].
    + rewrite (bool_decide_eq_true_2 (i ∈ i :: _)) by by left. by rewrite andb_false_r.
    + rewrite andb_true_r. f_equal. apply bool_decide_ext. rewrite elem_of_cons. intuition.
Qed.

Lemma NoDup_descending b n : NoDup (descending b n).
Proof.
  induction n as [|n IH]; cbn [descending]; constructor; [|done].
  intros Hin%descending_range. lia.
Qed.

Lemma finish_spec n f : core n 0 f -> (forall j, freg f j = (0 <=? j) && (j <? n)) ->
  map local_register (locals f) = descending 0 (length (locals f)) -> Z.of_nat (length (locals f)) = n ->
  f_fixed_params f = n ->
  exists r, finish f = Ok r /\ forall p, r = inl p -> prototype_wf p /\ upvalues p = map snd (f_upvalues f).
Proof.
  intros Hc Hr Hd Hn Hp. set (rs := rev (map (fun l => l.1.2) (locals f))).
  assert (Ers : map register_index rs = rev (descending 0 (length (locals f)))).
  { unfold rs. by rewrite map_rev, map_map, <- Hd. }
  assert (Hin : forall j, j ∈ map register_index rs <-> 0 <= j < n).
  { intros j. rewrite Ers, list_elem_of_In, <- in_rev, <- list_elem_of_In. split; [intros Hj%descending_range; lia|].
    rewrite <- Hn. clear. induction (length (locals f)) as [|m IH]; [lia|]. intros Hj. cbn [descending].
    apply elem_of_cons. destruct (decide (j = 0 + Z.of_nat m)); [by left|right; apply IH; lia]. }
  destruct (free_all_spec rs (register_allocator f)) as (r & Ef & Hwf & Hsz & Hreg).
  { apply Hc. }
  { rewrite Ers. apply NoDup_ListNoDup, List.NoDup_rev, NoDup_ListNoDup, NoDup_descending. }
  { apply Forall_forall. intros i Hi. fold (freg f (register_index i)). rewrite Hr.
    assert (0 <= register_index i < n) by (apply Hin; by apply list_elem_of_fmap_2).
    rewrite (proj2 (Z.leb_le _ _)), (proj2 (Z.ltb_lt _ _)) by lia. done. }
  assert (Htop : RegisterAllocator.stack_top r = 0).
  { pose proof (RegisterAllocator.wf_top _ Hwf). destruct (Z.eq_dec (RegisterAllocator.stack_top r) 0); [done|].
    pose proof (RegisterAllocator.wf_last _ Hwf ltac:(lia)) as Hl. rewrite Hreg in Hl.
    fold (freg f (RegisterAllocator.stack_top r - 1)) in Hl. rewrite Hr in Hl. apply andb_true_iff in Hl as [Hl1 Hl2].
    apply negb_true_iff, bool_decide_eq_false in Hl1. destruct Hl1. apply Hin. bool_to_prop. lia. }
  unfold finish. change (VarCount.constant 0) with (Ok (VarCount.VarCount (Opt254.Opt254 0))). rewrite outcome_bind_Ok.
  rewrite (proj2 (Z.eqb_eq _ _)) by congruence. cbn [Prelude.rust_assert]. rewrite outcome_bind_Ok.
  fold rs. rewrite Ef, outcome_bind_Ok, Htop. cbn [Z.eqb Prelude.rust_assert]. rewrite outcome_bind_Ok.
  case_bool; [by eexists|]. eexists. split; [reflexivity|]. intros p [= <-]. split; [|done].
  set (ret := Operation.Return _ _).
  set (p := mk_CompiledPrototype _ _ _ _ _ _ _ _ _ _).
  assert (Es : prototype_sizes p = fsizes f).
  { unfold prototype_sizes, fsizes, p. cbn. by rewrite Hsz, length_map. }
  pose proof (RegisterAllocator.wf_size _ (core_wf _ _ _ Hc)). pose proof (core_params _ _ _ Hc).
  apply (prototype_wf_intro p _ (map_decode_encode _)); rewrite ?Es; cbn; rewrite ?Hsz.
  - done.
  - lia.
  - apply Forall_app. split; [apply Hc|]. apply Forall_singleton. apply (constant_0_ok (fsizes f) 0). cbn in *. lia.
  - eapply code_ok_snoc; [apply Hc|lia|]. cbn [op_target ret]. lia.
  - by rewrite last_snoc.
  - apply Hc.
Qed.
(** ** [new_prototype] *)
Lemma starts_top n f : starts n f -> ftop f = n.
Proof.
  intros Hs. pose proof (core_wf _ _ _ (sr_core _ _ Hs)) as Hwf. pose proof (core_bound _ _ _ (sr_core _ _ Hs)).
  pose proof (RegisterAllocator.wf_top _ Hwf). fold (ftop f) in *.
  destruct (Z.lt_trichotomy (ftop f) n) as [Hlt|[|Hgt]]; [|done|].
  - pose proof (RegisterAllocator.wf_above _ Hwf (n - 1) ltac:(fold (ftop f); lia)) as Hr.
    fold (freg f (n - 1)) in Hr. rewrite (sr_regs _ _ Hs), (proj2 (Z.leb_le _ _)), (proj2 (Z.ltb_lt _ _)) in Hr by lia. done.
  - pose proof (RegisterAllocator.wf_last _ Hwf ltac:(fold (ftop f); lia)) as Hr. fold (ftop f) in Hr.
    fold (freg f (ftop f - 1)) in Hr. rewrite (sr_regs _ _ Hs), (proj2 (Z.ltb_ge _ _)), andb_false_r in Hr by lia. done.
Qed.

(** The body of a function, in a function that starts *)
Lemma wp_function_body n c (bs : M unit) (Q : unit -> compiler -> Prop) : inv n 0 c -> starts n (cur c) ->
  (forall b c, sst b c -> wp bs c (fun _ c' => ran (uid c) b c c')) ->
  (forall c', ends (uid c) n c c' -> Q tt c') ->
  wp (bind enter_block (fun _ => bind bs (fun _ => exit_block))) c Q.
Proof.
  intros Hinv Hs Hb HQ. assert (Htop : top c = n) by by apply starts_top.
  assert (Hc : contiguous n c) by (intros j; apply (sr_regs _ _ Hs)).
  apply wp_seq, wp_enter_block. eapply cwp_bind; [apply (Hb n); split; [by apply st_enter|done]|].
  intros [] c1 [b' Hc1]. apply (wp_exit_last (uid c) n b' c); try done. apply (sr_blocks _ _ Hs).
Qed.

(** A function that ends has what [finish] asks for. *)
Lemma finish_ends id n c c' : starts n (cur c) -> ends id n c c' ->
  exists r, finish (cur c') = Ok r /\ forall p, r = inl p ->
    prototype_wf p /\ upvalues p = map snd (f_upvalues (cur c')).
Proof.
  intros Hs He. apply (finish_spec n); [apply He|apply He|..]; rewrite ?(en_locals _ _ _ _ He).
  - apply Hs.
  - apply Hs.
  - destruct (en_ext _ _ _ _ He) as [Hx _]. rewrite (fx_params _ _ _ Hx). apply Hs.
Qed.

Lemma wp_add_function b c p (Q : PrototypeIndex -> compiler -> Prop) : st b 0 c -> inner_wf (csizes c) p ->
  (forall i c', step b 0 c c' -> same_regs c c' -> prototype_ok (csizes c') i -> Q i c') ->
  wp (bind (modify (fun f => set_functions (functions f ++ [p]) f)) (fun _ => bind current (fun f =>
      bind (ok_or (checked u8 (Z.of_nat (length (functions f)) - 1)) CompileErrorKind.Functions) (fun i =>
      ret (mk_PrototypeIndex i))))) c Q.
Proof.
  intros [Hinv He] Hp HQ. set (g := fun f : function => set_functions (functions f ++ [p]) f).
  eapply (cwp_bind _ _ _ (fun _ c' => c' = mk_compiler (string_interner c) (g (cur c)) (upper_functions c))); [done|].
  intros [] c1 ->. eapply wp_read; [reflexivity|]. apply wp_seq, cwp_ok_or. intros i Hi. apply cwp_ret.
  apply checked_Some in Hi as [Hi ->]. cbn in Hi |- *.
  assert (Hle : sizes_le (csizes c) (fsizes (g (cur c)))).
  { unfold sizes_le. cbn. rewrite length_app. cbn. lia. }
  destruct (fext_step b 0 b 0 c g) as [Hi' Hx]; cbn; [done| | |done|].
  - destruct (inv_core _ _ _ Hinv) as [Hwf Hb Hu Hops Hcode Hl Hct Hf Hpar]. split; try done; cbn.
    + eapply Forall_impl; [exact Hops|]. intros. by eapply op_ok_le.
    + apply Forall_app. split; [|by apply Forall_singleton; eapply inner_wf_le].
      eapply Forall_impl; [exact Hf|]. intros. by eapply inner_wf_le.
  - by eapply scope_mono; [apply (inv_scope _ _ _ Hinv)|..].
  - apply HQ; [|done|].
    + split; [by split|]. split; [|done]. apply Hx. split; cbn; try done. by exists [].
    + split; [done|]. cbn. lia.
Qed.

Lemma wp_new_prototype b c bs reference params va body (Q : PrototypeIndex -> compiler -> Prop) :
  (forall b c, sst b c -> wp (bs body) c (fun _ c' => ran (uid c) b c c')) -> st b 0 c ->
  (forall i c', step b 0 c c' -> same_regs c c' -> prototype_ok (csizes c') i -> Q i c') ->
  wp (new_prototype bs reference params va body) c Q.
Proof.
  intros Hb Hst HQ. pose proof Hst as [[Hcore Hscope Hup Hch] He]. unfold new_prototype.
  destruct (start_function_spec reference params va) as (r & Er & Hs). set (n := Z.of_nat (length params)) in Hs.
  eapply (cwp_bind _ _ _ (fun f c' => c' = c /\ starts n f)).
  { unfold of_result, wp. rewrite Er. destruct r as [f|]; [|done]. cbn. split; [done|by apply Hs]. }
  intros f c0 [-> Hf]. set (c1 := mk_compiler (string_interner c) f (cur c :: upper_functions c)).
  eapply (cwp_bind _ _ _ (fun _ c' => c' = c1)); [done|]. intros [] c0 ->.
  apply wp_seq. apply (wp_function_body n); [|done|done|].
  { split; [apply Hf|apply Hf| |].
    - cbn. constructor; [by exists b|done].
    - split; [|exact Hch]. cbn. rewrite (sr_upvalues _ _ Hf). constructor. }
  intros c2 He2. destruct (finish_ends _ n c1 c2 Hf He2) as (res & Ef & Hres).
  destruct (en_ext _ _ _ _ He2) as [_ Hup2]. cbn in Hup2.
  destruct (upper_functions c2) as [|parent upper] eqn:Eu; [by inversion Hup2|].
  apply Forall2_cons in Hup2 as [Hpar Hout]. pose proof (en_chain _ _ _ _ He2) as Hch2. rewrite Eu in Hch2.
  destruct Hch2 as [Hcap Hch2]. set (c3 := mk_compiler (string_interner c2) parent upper).
  assert (H3 : step b 0 c c3) by by apply step_resolved.
  assert (Hr3 : same_regs c c3) by (destruct Hpar as (us & bs' & -> & _); by intros j).
  eapply (cwp_bind _ _ _ (fun f c' => f = cur c2 /\ c' = c3)).
  { unfold pop_function, wp. by rewrite Eu. }
  intros f' c' [-> ->]. eapply (cwp_bind _ _ _ (fun p c' => c' = c3 /\ res = inl p)).
  { unfold of_result, wp. rewrite Ef. by destruct res. }
  intros p c' [-> ->]. destruct (Hres p eq_refl) as [Hwf Eup].
  apply (wp_add_function b); [apply H3| |].
  { split; [done|]. rewrite Eup. apply Forall_map. exact Hcap. }
  intros i c4 H4 Hr4 Hi. apply HQ; [by eapply step_step|by intros j; rewrite Hr4, Hr3|done].
Qed.
End CompilerFunctions.
End CompilerFunctions.
