(* ===== verification/CompilerTree.v ===== *)
(** * Expressions of the tree become descriptors

    An expression changes nothing but tables, functions inside and captured variables, and
    its descriptor refers to what exists.  The trees are those the parser makes
    ([Canonical]); what holds of the parts one level down is assumed here and tied in
    [CompilerTheorems]. *)

From stdpp Require Import sorting.
From S2P Require Import Prelude Float64 Lexer Opcode Constant Operators Parser ParserFacts RegisterAllocator CompilerState CompilerExpr Compiler CompilerCode CompilerFacts CompilerSteps CompilerJumps CompilerDischarge CompilerValues CompilerFunctions.
Import Ast Compiler Discharge Compile CompilerFacts CompilerSteps CompilerJumps CompilerDischarge CompilerValues CompilerFunctions.

Module CompilerTree.
Section CompilerTree.
Context `{BuildProfile} `{FloatLib} `{StringInterner}.
#[local] Existing Instance checking.
#[local] Existing Instance name_bytes.
Abbreviation descriptor := (ExprDescriptor.t IString).
Abbreviation cur := current_function.
Implicit Types (c : compiler) (b k id : Z) (d : descriptor).

(** ** Nothing new but code *)
Definition still b c c' : Prop := step b 0 c c' /\ same_regs c c'.

Lemma still_refl b c : st b 0 c -> still b c c.
Proof. intros Hst. by split; [split|]. Qed.
Lemma still_trans b c c1 c2 : still b c c1 -> still b c1 c2 -> still b c c2.
Proof. intros [? Hr] [? Hr']. split; [by eapply step_step|]. intros j. by rewrite Hr', Hr. Qed.
Lemma still_st b c c' : still b c c' -> st b 0 c'.
Proof. intros [[? _] _]. done. Qed.
Lemma still_grows b c c' : still b c c' -> grows c c'.
Proof. intros [? ?]. by eapply same_regs_grows. Qed.
Lemma still_kept id b c c' : sst b c -> still b c c' -> id <= uid c -> kept id b c c'.
Proof. intros ? [? ?] ?. by apply kept_step. Qed.
Lemma still_top b c c' : st b 0 c -> still b c c' -> top c' = top c.
Proof. intros Hst [Hs ?]. eapply same_regs_top; [done|apply Hs|done]. Qed.

Lemma dok_still b c c' d : still b c c' -> dok c d -> dok c' d.
Proof. intros Hs. apply dok_grows. by eapply still_grows. Qed.
Lemma Forall_dok_still b c c' ds : still b c c' -> Forall (dok c) ds -> Forall (dok c') ds.
Proof. intros Hs. apply Forall_dok_grows. by eapply still_grows. Qed.

(** The computation makes a descriptor. *)
Definition makes (m : M descriptor) : Prop :=
  forall b c, st b 0 c -> wp m c (fun d c' => still b c c' /\ dok c' d).

Lemma cwp_makes {B} b c (m : M descriptor) (g : descriptor -> M B) (Q : B -> compiler -> Prop) : makes m -> st b 0 c ->
  (forall d c', still b c c' -> dok c' d -> wp (g d) c' Q) -> wp (bind m g) c Q.
Proof. intros Hm Hst HQ. eapply cwp_bind; [by apply (Hm b)|]. intros d c' [? ?]. by apply HQ. Qed.

Lemma makes_ret d : (forall c, dok c d) -> makes (ret d).
Proof. intros Hd b c Hst. apply cwp_ret. split; [by apply still_refl|done]. Qed.

(** ** Operators *)
Lemma wp_fold op x y c (Q : option (Constant.t IString) -> compiler -> Prop) : (forall v, Q v c) ->
  wp (fold_simple_binop op x y) c Q.
Proof.
  intros HQ. unfold fold_simple_binop. eapply (cwp_bind _ _ _ (fun _ c' => c' = c /\
    exists v, Operators.simple_binop_const_fold op x y = Ok v)).
  - apply wp_guard. destruct (Operators.simple_binop_const_fold op x y) as [v|]; [|done]. intros _. split; [done|by exists v].
  - intros [] c' (-> & v & E). by eapply wp_lift.
Qed.

Lemma dok_unary c op d : dok c d -> dok c (unary_operator_expression op d).
Proof. intros Hd. destruct d; try exact Hd. cbn. by destruct (Operators.unop_const_fold _ _). Qed.

Lemma dok_concat c x y : dok c x -> dok c y -> dok c (concat_expression x y).
Proof.
  intros Hx Hy.
  assert (Happ : forall xs ys, (xs ++ ys <> []) -> Forall (dok c) xs -> Forall (dok c) ys ->
    dok c (ExprDescriptor.Concat (xs ++ ys))).
  { intros xs ys Hne ? ?. split; [done|]. apply dok_all. by apply Forall_app. }
  assert (Hparts : forall es, dok c (ExprDescriptor.Concat es) -> es <> [] /\ Forall (dok c) es).
  { intros es [? He]. split; [done|by apply dok_all in He]. }
  assert (Hone : forall z, dok c z -> Forall (dok c) [z]) by (intros; by apply Forall_singleton).
  destruct x as [v|v| |op x|x op x'|x op x'|x op x'|a kvs|x x'|p|f args|t m args|es|x];
    destruct y as [w|w| |op2 y|y op2 y'|y op2 y'|y op2 y'|a2 kvs2|y y'|p2|f2 args2|t2 m2 args2|es2|y];
    cbn [concat_expression];
    try (match goal with |- dok c (ExprDescriptor.Concat [?u; ?v]) => apply (Happ [u] [v]); [done|by apply Hone..] end);
    try (match goal with |- dok c (ExprDescriptor.Concat (?u :: es2)) =>
      apply (Happ [u] es2); [done|by apply Hone|by apply Hparts] end);
    try (match goal with |- dok c (ExprDescriptor.Concat (es ++ [?u])) =>
      apply (Happ es [u]); [by destruct es|by apply Hparts|by apply Hone] end).
  destruct (Hparts _ Hx), (Hparts _ Hy). apply Happ; [by destruct es|done..].
Qed.

Lemma wp_binary c x op y (Q : descriptor -> compiler -> Prop) : dok c x -> dok c y ->
  (forall d, dok c d -> Q d c) -> wp (binary_operator_expression x op y) c Q.
Proof.
  intros Hx Hy HQ. unfold binary_operator_expression.
  destruct (Operators.categorize_binop op) as [sop|cop|lop|].
  - eapply (cwp_bind _ _ _ (fun _ c' => c' = c)).
    { destruct x; try by apply cwp_ret. destruct y; try by apply cwp_ret. by apply wp_fold. }
    intros v c' ->. apply cwp_ret, HQ. by destruct v.
  - apply cwp_ret, HQ. destruct (match x with ExprDescriptor.Constant _ => _ | _ => None end); done.
  - by apply cwp_ret, HQ.
  - by apply cwp_ret, HQ, dok_concat.
Qed.

(** ** The parts of an expression *)
Section parts.
Context (S_ok : Z -> Statement IString -> Prop) (E_ok : Z -> Expression IString -> Prop).
Hypothesis HE : forall p e, E_ok p e -> makes (expression e).
Hypothesis HB : forall blk, Canonical.block_ S_ok E_ok blk -> forall b c, sst b c ->
  wp (block_statements blk) c (fun _ c' => ran (uid c) b c c').

Lemma wp_collect b es : forall c, Forall (fun e => makes (expression e)) es -> st b 0 c ->
  wp (collect expression es) c (fun ds c' => still b c c' /\ Forall (dok c') ds).
Proof.
  induction es as [|e es IH]; intros c He Hst; cbn [collect].
  - apply cwp_ret. split; [by apply still_refl|done].
  - apply Forall_cons in He as [He Hes]. apply (cwp_makes b); [done..|]. intros d c1 H1' Hd.
    eapply cwp_bind; [apply (IH c1 Hes); by eapply still_st|]. intros ds c2 [H2' Hds]. apply cwp_ret.
    split; [by eapply still_trans|]. constructor; [by eapply dok_still|done].
Qed.

Lemma makes_all es : Forall (Canonical.expr E_ok) es -> Forall (fun e => makes (expression e)) es.
Proof. intros He. eapply Forall_impl; [exact He|]. intros e. apply HE. Qed.

Lemma builds_function fd : Canonical.definition S_ok E_ok fd -> makes (function_expression block_statements fd).
Proof.
  intros Hd b c Hst. destruct fd as [line params va body]. apply wp_seq, (wp_new_prototype b); [by apply HB|done|].
  intros i c' Hs Hr Hi. apply cwp_ret. by split.
Qed.

Lemma wp_fields b fields : forall c, Forall (Canonical.field E_ok) fields -> st b 0 c ->
  wp (constructor_fields expression fields) c (fun r c' => still b c c' /\ Forall (dok c') r.1 /\
    Forall (fun kv => dok c' kv.1 /\ dok c' kv.2) r.2).
Proof.
  induction fields as [|f fields IH]; intros c Hf Hst; cbn [constructor_fields].
  - apply cwp_ret. split; [by apply still_refl|done].
  - apply Forall_cons in Hf as [Hf Hfs]. destruct f as [e|k e].
    + apply (cwp_makes b); [by eapply HE|done|]. intros d c1 H1' Hd.
      eapply cwp_bind; [apply (IH c1 Hfs); by eapply still_st|]. intros [a r] c2 (H2' & Ha & Hr). apply cwp_ret.
      split; [by eapply still_trans|]. split; [|done]. constructor; [by eapply dok_still|done].
    + destruct Hf as [Hk He].
      apply (cwp_makes b); [destruct k; [by apply makes_ret|by eapply HE]|done|]. intros dk c1 H1' Hdk.
      apply (cwp_makes b); [by eapply HE|by eapply still_st|]. intros dv c2 H2' Hdv.
      eapply cwp_bind; [apply (IH c2 Hfs); by eapply still_st|]. intros [a r] c3 (H3' & Ha & Hr). apply cwp_ret.
      assert (H23 : still b c1 c3) by by eapply still_trans.
      split; [by eapply still_trans|]. split; [done|]. constructor; [|done].
      split; [exact (dok_still _ _ _ _ H23 Hdk)|exact (dok_still _ _ _ _ H3' Hdv)].
Qed.

Lemma builds_table fields : Forall (Canonical.field E_ok) fields -> makes (table_constructor_expression expression fields).
Proof.
  intros Hf b c Hst. eapply cwp_bind; [by apply (wp_fields b)|]. intros [a r] c' (Hs & Ha & Hr). apply cwp_ret.
  split; [done|]. split; [by apply dok_all|by apply dok_pairs].
Qed.

(** A table or a string that is the only argument is not an expression of its own level. *)
Lemma builds_arguments args : Canonical.arguments E_ok args -> Forall (fun e => makes (expression e)) args.
Proof.
  intros Ha.
  assert (Hgen : Forall (Canonical.expr E_ok) args -> Forall (fun e => makes (expression e)) args) by apply makes_all.
  destruct args as [|[head tail] rest]; [done|]. destruct head as [e|op x]; [|by apply Hgen].
  destruct e as [| |s| | | | |fields| |]; try by apply Hgen.
  all: destruct tail; [|by apply Hgen]; destruct rest; [|by apply Hgen].
  - apply Forall_singleton. by apply makes_ret.
  - apply Forall_singleton. intros b c Hst. cbn. apply (cwp_makes b); [by apply builds_table|done|].
    intros d c' Hs Hd. by apply cwp_ret.
Qed.

Lemma makes_field_key field : Canonical.field_suffix E_ok field -> makes (field_key expression field).
Proof. intros Hf. destruct field; [by apply makes_ret|by eapply HE]. Qed.

Lemma wp_suffixes b parts : forall c d, Forall (Canonical.suffix E_ok) parts -> st b 0 c -> dok c d ->
  wp (suffixes expression d parts) c (fun d' c' => still b c c' /\ dok c' d').
Proof.
  induction parts as [|part parts IH]; intros c d Hp Hst Hd.
  - apply cwp_ret. split; [by apply still_refl|done].
  - apply Forall_cons in Hp as [Hp Hps].
    assert (Hrest : forall c1 d1, still b c c1 -> dok c1 d1 ->
      wp (suffixes expression d1 parts) c1 (fun d' c' => still b c c' /\ dok c' d')).
    { intros c1 d1 Hs Hd1. eapply cwp_mono; [apply (IH c1 d1); [done|by eapply still_st|done]|].
      intros d' c' [? ?]. split; [by eapply still_trans|done]. }
    destruct part as [k|[m args|args]]; cbn [suffixes].
    + apply (cwp_makes b); [by apply makes_field_key|done|]. intros dk c1 Hs Hdk. apply Hrest; [done|].
      split; [by eapply dok_still|done].
    + eapply cwp_bind; [apply (wp_collect b); [by apply builds_arguments|done]|]. intros ds c1 [Hs Hds].
      apply Hrest; [done|]. split; [by eapply dok_still|]. split; [done|by apply dok_all].
    + eapply cwp_bind; [apply (wp_collect b); [by apply builds_arguments|done]|]. intros ds c1 [Hs Hds].
      apply Hrest; [done|]. split; [by eapply dok_still|by apply dok_all].
Qed.

Lemma makes_variable name : makes (bind (find_variable name) (fun v => ret (ExprDescriptor.Variable_ v))).
Proof.
  intros b c Hst. apply wp_seq, (wp_find_variable b 0); [done|]. intros v c' Hs Hr Hv _ _. apply cwp_ret. by split.
Qed.

Lemma makes_primary e : Canonical.primary E_ok e -> makes (primary_expression expression e).
Proof.
  intros He. destruct e as [name|e]; [by apply makes_variable|]. intros b c Hst.
  apply (cwp_makes b); [by eapply HE|done|]. intros d c' Hs Hd. by apply cwp_ret.
Qed.

Lemma builds_suffixed e : Canonical.suffixed E_ok e -> makes (suffixed_expression expression e).
Proof.
  destruct e as [p parts]. intros [Hp Hps] b c Hst. apply (cwp_makes b); [by apply makes_primary|done|].
  intros d c1 Hs Hd. eapply cwp_mono; [apply (wp_suffixes b); [done|by eapply still_st|done]|].
  intros d' c' [? ?]. split; [by eapply still_trans|done].
Qed.

Lemma builds_simple e : Canonical.simple S_ok E_ok e -> makes (simple_expression expression block_statements e).
Proof.
  intros He. destruct e; try by apply makes_ret.
  - by apply builds_table.
  - by apply builds_function.
  - by apply builds_suffixed.
Qed.

Lemma wp_operators b p tail : forall limit c d, Canonical.chain E_ok p limit tail -> st b 0 c -> dok c d ->
  wp (operators expression d tail) c (fun d' c' => still b c c' /\ dok c' d').
Proof.
  induction tail as [|[op e] tail IH]; intros limit c d Ht Hst Hd; cbn [operators].
  - apply cwp_ret. split; [by apply still_refl|done].
  - destruct Ht as (_ & He & Ht). apply (cwp_makes b); [by eapply HE|done|]. intros y c1 Hs Hy.
    apply wp_seq, wp_binary; [by eapply dok_still|done|]. intros d1 Hd1.
    eapply cwp_mono; [apply (IH _ c1 d1 Ht); [by eapply still_st|done]|].
    intros d' c' [? ?]. split; [by eapply still_trans|done].
Qed.

Lemma builds_expression p e : Canonical.expression_body S_ok E_ok p e -> makes (expression e).
Proof.
  destruct e as [head tail]. intros He b c Hst. cbn [expression expression_body].
  assert (Hhead : makes (head_expression expression block_statements head) /\ exists limit, Canonical.chain E_ok p limit tail).
  { destruct head as [e|op e]; destruct He as [He Ht].
    - split; [by apply builds_simple|by eexists].
    - split; [|by eexists]. intros b' c' Hst'. apply (cwp_makes b'); [by eapply HE|done|].
      intros d c1 Hs Hd. apply cwp_ret. split; [done|by apply dok_unary]. }
  destruct Hhead as (Hh & limit & Ht). apply (cwp_makes b); [exact Hh|done|]. intros d c1 Hs Hd.
  eapply cwp_mono; [eapply (wp_operators b); [exact Ht|by eapply still_st|done]|].
  intros d' c' [? ?]. split; [by eapply still_trans|done].
Qed.
End parts.
End CompilerTree.
End CompilerTree.
