(* ===== verification/CompilerStatements.v ===== *)
(** * Statements without variables: blocks, branches, loops of conditions

    Between statements the registers in use are the first [b]; a statement may raise [b] by
    new variables ([ran]) and most leave it as it was ([kept]). *)

From stdpp Require Import sorting.
From S2P Require Import Prelude Float64 Lexer Opcode Constant Operators Parser ParserFacts RegisterAllocator CompilerState CompilerExpr Compiler CompilerCode CompilerFacts CompilerSteps CompilerJumps CompilerDischarge CompilerValues CompilerFunctions CompilerTree.
Import Ast Compiler Discharge Compile CompilerFacts CompilerSteps CompilerJumps CompilerDischarge CompilerValues CompilerFunctions CompilerTree.

Module CompilerStatements.
Section CompilerStatements.
Context `{BuildProfile} `{FloatLib} `{StringInterner}.
#[local] Existing Instance checking.
#[local] Existing Instance name_bytes.
Abbreviation descriptor := (ExprDescriptor.t IString).
Abbreviation cur := current_function.
Implicit Types (c : compiler) (b k id : Z) (d : descriptor).

Definition runs (m : M unit) : Prop := forall b c, sst b c -> wp m c (fun _ c' => ran (uid c) b c c').

(** ** Sequences *)
Lemma kept_uid id b c c' : kept id b c c' -> uid c <= uid c'.
Proof. intros (_ & Hx & _). by eapply uid_le. Qed.
Lemma ran_uid id b c c' : ran id b c c' -> uid c <= uid c'.
Proof. intros [b' [_ Hx _ _]]. by eapply uid_le. Qed.
Lemma stmts_uid id b b' c c' : stmts id b b' c c' -> uid c <= uid c'.
Proof. intros [_ Hx _ _]. by eapply uid_le. Qed.
Lemma kept_sst id b c c' : kept id b c c' -> sst b c'.
Proof. by intros [? _]. Qed.

Lemma kept_ran id b c c1 c2 : kept id b c c1 -> ran id b c1 c2 -> ran id b c c2.
Proof. intros Hk [b' Hs]. exists b'. eapply stmts_trans; [by apply kept_stmts|done]. Qed.
Lemma ran_le id id' b c c' : id' <= id -> ran id b c c' -> ran id' b c c'.
Proof. intros Hid [b' Hs]. exists b'. by eapply stmts_le. Qed.

(** One statement, then others *)
Lemma wp_ran_seq b c m m' (Q : unit -> compiler -> Prop) : sst b c -> runs m ->
  (forall b' c', stmts (uid c) b b' c c' -> wp m' c' Q) -> wp (bind m (fun _ => m')) c Q.
Proof.
  intros Hs Hm HQ. eapply cwp_bind; [by apply Hm|]. intros [] c' [b' Hc']. by apply (HQ b').
Qed.

Lemma ran_seq b b' c c' c'' : stmts (uid c) b b' c c' -> ran (uid c') b' c' c'' -> ran (uid c) b c c''.
Proof.
  intros Hs [b'' Hs']. exists b''. eapply stmts_trans; [exact Hs|]. eapply stmts_le; [|exact Hs'].
  by eapply stmts_uid.
Qed.

Lemma runs_seq m m' : runs m -> runs m' -> runs (bind m (fun _ => m')).
Proof.
  intros Hm Hm' b c Hs. apply (wp_ran_seq b); [done..|]. intros b' c' Hc'.
  eapply cwp_mono; [apply (Hm' b'); by destruct Hc'|]. intros [] c''. by apply (ran_seq b b').
Qed.

Lemma compiles_line n : runs (modify (set_line_number n)).
Proof. intros b c Hs. apply (cwp_line b); [done|]. intros c' Hk _. by apply ran_kept. Qed.

Lemma compiles_ret : runs (ret tt).
Proof. intros b c Hs. apply cwp_ret, ran_kept. by apply kept_same. Qed.

(** A block gives back what it has taken. *)
Lemma compiles_block m : runs m -> runs (bind enter_block (fun _ => bind m (fun _ => exit_block))).
Proof.
  intros Hm b c Hs. apply (wp_in_block (uid c) b); [done|exact (Hm b (entered_block c) (sst_enter _ _ Hs))|].
  intros c' He. by apply ran_kept, kept_exited.
Qed.

(** ** Lists of statements *)
Lemma runs_statements l : Forall (fun s => runs (statement (inner s))) l -> forall skip n,
  runs (statements statement skip n l).
Proof.
  induction 1 as [|s l Hs Hl IH]; intros skip n; cbn [statements]; [apply compiles_ret|].
  destruct skip as [|skip]; [|apply IH]. destruct n as [|n]; [apply compiles_ret|].
  apply runs_seq; [apply compiles_line|]. by apply runs_seq.
Qed.

Lemma runs_plain l : Forall (fun s => runs (statement (inner s))) l -> runs (plain_statements statement l).
Proof. induction 1; cbn [plain_statements]; [apply compiles_ret|by apply runs_seq]. Qed.

(** ** Labels and jumps of the source *)
Lemma compiles_label name : runs (jump_target (JumpLabel.Named name)).
Proof.
  intros b c Hs. apply (wp_target_source (uid c) b); [done|by intros [? ?]|done|].
  intros c'. apply ran_kept.
Qed.

Lemma runs_jump l : source_label l -> runs (jump l).
Proof.
  intros Hl b c Hs. apply (wp_jump_source b); [apply Hs|done|]. intros c' Hj.
  by eapply ran_kept, kept_jumped.
Qed.

(** ** Tests *)
Lemma kept_test_jump id b l c c1 c2 : sst b c -> tested b c c1 -> jumped b l c1 c2 -> id <= uid c ->
  kept id b c c2.
Proof.
  intros [_ Hc] [[Hst (Hx & El & _)] Hr] [Hst2 Hx2 Hr2 El2 _ _ _] Hid.
  split; [split; [done|intros j; by rewrite Hr2, Hr]|]. split; [|congruence].
  etrans; [by eapply cext_since_le|]. eapply cext_since_le; [|exact Hx2].
  pose proof (uid_le _ _ _ Hx). unfold uid in *. lia.
Qed.

(** A condition, and a jump to a label *)
Lemma wp_condition {A} b t i c m skip (k : M A) (Q : A -> compiler -> Prop) : makes m -> sst b c -> ready i t c ->
  t <= b -> (forall c', kept (uid c) b c c' -> wp k c' Q) ->
  wp (bind m (fun d => bind (expr_test expr_discharge d skip) (fun _ =>
    bind (jump (JumpLabel.Unique i)) (fun _ => k)))) c Q.
Proof.
  intros Hm Hs Ha Hle HQ. apply (cwp_makes b); [done|apply Hs|]. intros d c1 H1' Hd.
  assert (Hk1 : kept (uid c) b c c1) by by apply still_kept.
  eapply cwp_bind; [apply (wp_expr_test b); [done|by eapply still_st|done]|]. intros [] c2 Ht.
  assert (Ha2 : ready i t c2).
  { eapply ready_ext; [exact Ha|]. destruct Ha as [Hi _]. destruct Hk1 as (_ & Hx1 & _).
    pose proof (uid_le _ _ _ Hx1). destruct Ht as [[_ (Hx2 & _)] _].
    etrans; [eapply cext_since_le; [|exact Hx1]; lia|]. eapply cext_since_le; [|exact Hx2]. unfold uid in *. lia. }
  assert (Etop : top c2 = b).
  { rewrite <- (sst_top b c1 (kept_sst _ _ _ _ Hk1)). destruct Ht as [[Hst2 _] Hr].
    by eapply same_regs_top; [eapply still_st, H1'|..]. }
  apply wp_seq, (wp_jump_ready b 1 i t); [apply Ht|lia|done|lia|]. intros c3 Hj. apply HQ.
  eapply kept_kept; [exact Hk1|]. eapply kept_test_jump; [apply Hk1|exact Ht|exact Hj|by eapply kept_uid].
Qed.

(** Into a block and through its statements; and out of it *)
Lemma wp_enter_then {A} b c m (k : M A) (Q : A -> compiler -> Prop) : sst b c -> runs m ->
  (forall b' c', b <= b' -> sst b' c' -> stmts (uid c) b b' (entered_block c) c' -> wp k c' Q) ->
  wp (bind enter_block (fun _ => bind m (fun _ => k))) c Q.
Proof.
  intros Hs Hm HQ. apply wp_seq, wp_enter_block.
  eapply cwp_bind; [exact (Hm b (entered_block c) (sst_enter _ _ Hs))|]. intros [] c1 [b' H1'].
  apply (HQ b'); [apply H1'|apply H1'|exact H1'].
Qed.

Lemma wp_exit_then {A} id b b' c0 c (k : M A) (Q : A -> compiler -> Prop) : sst b c0 ->
  stmts id b b' (entered_block c0) c -> (forall c', exited id b c0 c' -> wp k c' Q) ->
  wp (bind exit_block (fun _ => k)) c Q.
Proof. intros Hs Hst HQ. by apply wp_seq, (wp_exit_block id b b' c0). Qed.

Lemma stmts_then_kept id id' b b' c c1 c2 : stmts id b b' c c1 -> kept id' b' c1 c2 -> id <= id' -> stmts id b b' c c2.
Proof. intros Hs Hk Hid. eapply stmts_trans; [exact Hs|]. by eapply kept_stmts, kept_le. Qed.

(** ** [if]

    [e] is the number of the label at the end, [i] that of the label before the part. *)
Definition after_part e i b c (l : JumpLabel.t IString) c' : Prop :=
  exists j, l = JumpLabel.Unique j /\ i < j < uid c' /\ kept (e + 1) b c c'.

Lemma wp_if_part e i b more cond blk c : sst b c -> ready e b c -> e < i < uid c -> makes (expression cond) ->
  runs (block_statements blk) ->
  wp (if_part expression block_statements (JumpLabel.Unique e) (JumpLabel.Unique i) more (cond, blk)) c
    (after_part e i b c).
Proof.
  intros Hs He Hi Hc Hb. unfold if_part. apply wp_seq, (wp_target_own (e + 1) b); [done|lia|lia|].
  intros c1 H1' _ _ E1. apply wp_seq, (wp_new_label b); [apply H1'|]. intros c2 H2' Hr2 E2.
  apply (wp_condition b b); [done|apply H2'|done|done|]. intros c3 H3'.
  pose proof (kept_uid _ _ _ _ H3') as Hu3. assert (H03 : kept (e + 1) b c c3).
  { eapply kept_kept; [exact H1'|]. eapply kept_kept; eapply kept_le; [|exact H2'| |exact H3']; lia. }
  apply (wp_enter_then b); [apply H3'|done|]. intros b' c4 Hle Hs4 H4'. pose proof (stmts_uid _ _ _ _ _ H4') as Hu4.
  change (uid (entered_block c3)) with (uid c3) in Hu4.
  eapply (cwp_bind _ _ _ (fun _ c' => kept (uid c4) b' c4 c')).
  { destruct more; [|by apply cwp_ret, kept_same].
    apply (wp_jump_ready b' 0 e b); [apply Hs4|lia| |by rewrite (sst_top b' c4)|].
    - eapply (ready_ext e b (entered_block c3)); [|eapply cext_since_le; [|apply H4']; lia].
      exact (ready_ext e b c c3 He (proj1 (proj2 H03))).
    - intros c5 Hj. by eapply kept_jumped. }
  intros [] c5 H5'. apply (wp_exit_then (e + 1) b b' c3); [apply H3'| |].
  { eapply stmts_then_kept; [eapply stmts_le; [|exact H4']; lia|exact H5'|lia]. }
  intros c6 H6'%kept_exited. apply cwp_ret. exists (uid c1). split; [done|]. split; [|by eapply kept_kept].
  pose proof (kept_uid _ _ _ _ H6'). lia.
Qed.

Lemma wp_else_if_parts e b has_else parts : forall i c, sst b c -> ready e b c -> e < i < uid c ->
  Forall (fun part => makes (expression part.1) /\ runs (block_statements part.2)) parts ->
  wp (else_if_parts expression block_statements (JumpLabel.Unique e) (JumpLabel.Unique i) has_else parts) c
    (fun l c' => exists j, l = JumpLabel.Unique j /\ i <= j < uid c' /\ kept (e + 1) b c c').
Proof.
  induction parts as [|[cond blk] parts IH]; intros i c Hs He Hi Hp; cbn [else_if_parts].
  - apply cwp_ret. exists i. split_and!; [done|lia|lia|by apply kept_same].
  - apply Forall_cons in Hp as [[Hc Hb] Hp].
    eapply cwp_bind; [by apply (wp_if_part e i b)|]. intros l c1 (j & -> & Hj & Hk).
    eapply cwp_mono; [apply (IH j c1); [apply Hk|by eapply ready_ext; [|apply Hk]|lia|done]|].
    intros l c2 (j' & -> & Hj' & Hk'). exists j'. split_and!; [done|lia|lia|by eapply kept_kept].
Qed.

Lemma compiles_if first parts else_part : makes (expression first.1) -> runs (block_statements first.2) ->
  Forall (fun part => makes (expression part.1) /\ runs (block_statements part.2)) parts ->
  match else_part with Some blk => runs (block_statements blk) | None => True end ->
  runs (if_statement expression block_statements first parts else_part).
Proof.
  intros Hc Hb Hp Helse b c Hs. unfold if_statement. set (e := uid c).
  apply wp_seq, (wp_new_label b); [done|]. intros c1 H1' Hr1 E1.
  apply wp_seq, (wp_new_label b); [apply H1'|]. intros c2 H2' Hr2 E2. fold e in H1', Hr1, E1 |- *.
  assert (H02 : kept e b c c2) by (eapply kept_kept; [exact H1'|]; eapply kept_le; [|exact H2']; lia).
  assert (He2 : ready e b c2) by (eapply ready_ext; [exact Hr1|]; rewrite <- E1; apply H2').
  destruct first as [cond blk]. eapply cwp_bind; [apply (wp_if_part e (uid c1) b); try done; [apply H2'|lia]|].
  intros l c3 (i & -> & Hi & H3'). pose proof (kept_uid _ _ _ _ H3').
  assert (He3 : ready e b c3) by (eapply ready_ext; [exact He2|apply H3']).
  eapply cwp_bind; [apply (wp_else_if_parts e b); try done; [apply H3'|lia]|].
  intros l c4 (j & -> & Hj & H4'). pose proof (kept_uid _ _ _ _ H4').
  apply wp_seq, (wp_target_own (e + 1) b); [apply H4'|lia|lia|]. intros c5 H5' _ _ E5.
  assert (H05 : kept e b c c5).
  { eapply kept_kept; [exact H02|]. eapply kept_le with (id := e + 1); [lia|].
    eapply kept_kept; [exact H3'|]. by eapply kept_kept. }
  eapply (cwp_bind _ _ _ (fun _ c' => kept (e + 1) b c5 c')).
  { destruct else_part as [blk'|]; [|by apply cwp_ret, kept_same, H5'].
    apply (wp_in_block (e + 1) b); [apply H5'| |by intros c'; apply kept_exited].
    eapply cwp_mono; [exact (Helse b (entered_block c5) (sst_enter _ _ (kept_sst _ _ _ _ H5')))|].
    intros [] c'. apply ran_le. change (uid (entered_block c5)) with (uid c5). lia. }
  intros [] c6 H6'. pose proof (kept_uid _ _ _ _ H6').
  apply (wp_target_own e b); [apply H6'|lia|done|]. intros c7 H7' _ _ _. apply ran_kept.
  eapply kept_kept; [exact H05|]. eapply kept_kept; [eapply kept_le; [|exact H6']; lia|exact H7'].
Qed.

(** ** [while] *)
Lemma compiles_while cond blk : makes (expression cond) -> runs (block_statements blk) ->
  runs (while_statement expression block_statements cond blk).
Proof.
  intros Hc Hb b c Hs. unfold while_statement. set (s := uid c).
  apply wp_seq, (wp_new_label b); [done|]. intros c1 H1' _ E1. fold s in H1', E1 |- *.
  apply wp_seq, (wp_new_label b); [apply H1'|]. intros c2 H2' Hr2 E2.
  apply wp_seq, (wp_target_own s b); [apply H2'|lia|done|]. intros c3 H3' Hs3 Ho3 E3.
  assert (H03 : kept s b c c3).
  { eapply kept_kept; [exact H1'|]. eapply kept_kept; [eapply kept_le; [|exact H2']; lia|exact H3']. }
  apply (wp_condition b b); [done|apply H3'|apply Ho3; [lia|done]|done|]. intros c4 H4'.
  pose proof (kept_uid _ _ _ _ H4'). assert (H04 : kept s b c c4).
  { eapply kept_kept; [exact H03|]. eapply kept_le; [|exact H4']. lia. }
  apply (wp_enter_then b); [apply H4'|done|]. intros b' c5 Hle Hs5 H5'. pose proof (stmts_uid _ _ _ _ _ H5').
  change (uid (entered_block c4)) with (uid c4) in *.
  apply wp_seq, (wp_jump_ready b' 0 s b); [apply Hs5|lia| |by rewrite (sst_top b' c5)|].
  { eapply (ready_ext s b (entered_block c4)); [|eapply cext_since_le; [|apply H5']; lia].
    apply (ready_ext s b c3 c4 Hs3). eapply cext_since_le; [|apply H4']. lia. }
  intros c6 Hj. assert (H6' : kept (uid c5) b' c5 c6) by by eapply kept_jumped.
  apply wp_seq, (wp_target_source (uid c5) b'); [apply H6'|by intros [? ?]|by eapply kept_uid|]. intros c7 H7'.
  apply (wp_exit_then (s + 1) b b' c4); [apply H4'| |].
  { eapply stmts_then_kept; [eapply stmts_le; [|exact H5']; lia|by eapply kept_kept|lia]. }
  intros c8 H8'%kept_exited. pose proof (kept_uid _ _ _ _ H8').
  apply (wp_target_own s b); [apply H8'|lia|lia|]. intros c9 H9' _ _ _. apply ran_kept.
  eapply kept_kept; [exact H04|]. eapply kept_kept; [eapply kept_le; [|exact H8']; lia|exact H9'].
Qed.

(** ** [return] *)
Lemma still_sst b c c' : sst b c -> still b c c' -> sst b c'.
Proof. intros [_ Hc] [[Hst _] Hr]. split; [done|]. intros j. by rewrite Hr. Qed.

Lemma called_still b c r c' : called b c r c' -> still b c c'.
Proof. by intros (? & ? & _). Qed.

Lemma compiles_return returns : Forall (fun e => makes (expression e)) returns ->
  runs (return_statement expression returns).
Proof.
  intros Hr b c Hs. unfold return_statement. eapply cwp_bind; [apply (wp_collect b); [done|apply Hs]|].
  intros ds c1 [H1' Hds]. pose proof (still_sst _ _ _ Hs H1') as Hs1.
  assert (Hkept : forall c2, still b c1 c2 -> ran (uid c) b c c2).
  { intros c2 H2'. eapply ran_kept, still_kept; [done|by eapply still_trans|done]. }
  assert (Hgen : wp (bind (push_arguments expr_discharge call_function call_method ds) (fun count =>
      bind stack_top (fun top => bind (lift (match checked u8 top with Some s => Ok s | None => Panic end)) (fun start =>
      emit (Operation.Return (mk_RegisterIndex start) count))))) c1 (fun _ c' => ran (uid c) b c c')).
  { apply wp_seq, (wp_push_arguments (within := fun _ => True) b); [by apply Forall_true|apply Hs1|done|].
    intros count c2 Hs2 Hr2 Hl. assert (H2' : still b c1 c2) by done.
    pose proof (sst_top _ _ Hs1) as Ht1. pose proof (sst_bound _ _ Hs1).
    assert (Ht2 : top c2 = b) by (rewrite <- Ht1; eapply still_top; [apply Hs1|done]).
    apply wp_seq, wp_stack_top. rewrite Ht2. apply wp_seq.
    eapply wp_lift; [by rewrite checked_in by int_lia|].
    apply (wp_emit_plain b); [apply Hs2|cbn [op_ok register_index]; by rewrite <- Ht1|intros i; cbn; lia|].
    intros c3 Hs3 Hr3. apply Hkept. by eapply still_trans. }
  assert (Hone : forall d0, ds = [d0] -> dok c1 d0) by (intros d0 ->; by apply Forall_cons in Hds as [? _]).
  destruct ds as [|d0 [|d1 ds]]; [exact Hgen| |destruct d0; exact Hgen].
  specialize (Hone d0 eq_refl). destruct d0; try exact Hgen; clear Hgen.
  - destruct Hone as [Hf Ha]. apply dok_all in Ha. eapply cwp_bind; [by apply (calls (Recursion := recursion_whole) _ _ CallMode.TailCall b c1); [|apply Hs1|..]|].
    intros r c2 Hc2. apply cwp_ret, Hkept. by eapply called_still.
  - destruct Hone as (Ht & Hm & Ha). apply dok_all in Ha. eapply cwp_bind; [by apply (invokes (Recursion := recursion_whole) _ _ _ CallMode.TailCall b c1); [|apply Hs1|..]|].
    intros r c2 Hc2. apply cwp_ret, Hkept. by eapply called_still.
Qed.

(** ** [repeat] *)
Lemma compiles_repeat stmts_ returns line until : Forall (fun s => runs (statement (inner s))) stmts_ ->
  match returns with Some r => Forall (fun e => makes (expression e)) (inner r) | None => True end ->
  makes (expression until) -> runs (repeat_statement expression statement (mk_Block stmts_ returns line) until).
Proof.
  intros Hb Hret Hu b c Hs. unfold repeat_statement. set (s := uid c).
  apply wp_seq, (wp_new_label b); [done|]. intros c1 H1' _ E1. fold s in H1', E1 |- *.
  apply wp_seq, wp_enter_block, wp_seq, wp_enter_block.
  assert (Hs1 : sst b (entered_block c1)) by apply sst_enter, H1'.
  pose proof (sst_enter _ _ Hs1) as Hs2. set (c2 := entered_block (entered_block c1)) in *.
  change (uid c1) with (uid c2) in E1.
  apply wp_seq, (wp_target_own s b); [done|lia|done|]. intros c3 H3' Hs3 _ E3.
  apply wp_seq. eapply cwp_mono; [apply (runs_plain _ Hb b c3), H3'|]. intros [] c4 [b1 H4'].
  eapply (cwp_bind _ _ _ (fun _ c' => ran (uid c4) b1 c4 c')).
  { destruct returns as [r|]; [apply (compiles_return _ Hret b1), H4'|apply cwp_ret, ran_kept, kept_same, H4']. }
  intros [] c5 [b2 H5']. pose proof (stmts_uid _ _ _ _ _ H4'). pose proof (stmts_uid _ _ _ _ _ H5').
  assert (H35 : stmts (s + 1) b b2 c3 c5).
  { eapply stmts_trans; (eapply stmts_le; [|done]; lia). }
  apply (wp_condition b2 b); [done|apply H5'| |apply H35|].
  { eapply (ready_ext s b c3); [exact Hs3|apply H35]. }
  intros c6 H6'. apply (wp_exit_then s b b2 (entered_block c1)); [done| |].
  { eapply stmts_trans; [by apply kept_stmts, H3'|]. eapply stmts_then_kept; [eapply stmts_le; [|exact H35]; lia|exact H6'|lia]. }
  intros c7 H7'%kept_exited. pose proof (kept_uid _ _ _ _ H7'). change (uid (entered_block c1)) with (uid c2) in *.
  apply wp_seq, (wp_target_source s b); [apply H7'|by intros [? ?]|lia|]. intros c8 H8'.
  apply (wp_exit_block s b b c1); [apply H1'| |].
  { eapply kept_stmts, kept_kept; [exact H7'|done]. }
  intros c9 H9'%kept_exited. apply ran_kept. by eapply kept_kept.
Qed.

(** ** Blocks *)
Lemma runs_block_statements stmts_ returns line : Forall (fun s => runs (statement (inner s))) stmts_ ->
  match returns with Some r => Forall (fun e => makes (expression e)) (inner r) | None => True end ->
  runs (block_statements (mk_Block stmts_ returns line)).
Proof.
  intros Hb Hr. cbn [block_statements block_statements_body]. apply runs_seq; [|apply compiles_line].
  destruct returns as [r|].
  - apply runs_seq; [by apply runs_statements|]. apply runs_seq; [apply compiles_line|by apply compiles_return].
  - assert (Hst : forall skip n, runs (statements statement skip n stmts_)) by (intros; by apply runs_statements).
    intros b c Hs. apply (wp_enter_then b); [done|apply Hst|]. intros b' c1 Hle Hs1 H1'.
    apply (wp_exit_then (uid c) b b' c); [done|done|]. intros c2 H2'%kept_exited.
    eapply cwp_mono; [apply (Hst _ _ b), H2'|]. intros [] c3 H3'. eapply kept_ran; [exact H2'|].
    eapply ran_le; [|exact H3']. by eapply kept_uid.
Qed.
End CompilerStatements.
End CompilerStatements.
