(* ===== verification/CompilerLoops.v ===== *)
(** * Variables and the loops that have them

    A statement may take registers in order; as variables they are in scope after it, as the
    registers of a [for] they are given back at its end. *)

From stdpp Require Import sorting.
From S2P Require Import Prelude Float64 Lexer Opcode Constant Operators Parser ParserFacts RegisterAllocator CompilerState CompilerExpr Compiler CompilerCode CompilerFacts CompilerSteps CompilerJumps CompilerDischarge CompilerValues CompilerFunctions CompilerTree CompilerStatements.
Import Ast Compiler Discharge Compile CompilerFacts CompilerSteps CompilerJumps CompilerDischarge CompilerValues CompilerFunctions CompilerTree CompilerStatements.

Module CompilerLoops.
Section CompilerLoops.
Context `{BuildProfile} `{FloatLib} `{StringInterner}.
#[local] Existing Instance checking.
#[local] Existing Instance name_bytes.
Abbreviation descriptor := (ExprDescriptor.t IString).
Abbreviation function := (CompilerFunction IString).
Abbreviation cur := current_function.
Abbreviation ri := register_index.
Implicit Types (c : compiler) (b k id : Z) (d : descriptor) (r : RegisterIndex) (f : function).

(** ** More registers below the bound *)
Lemma core_raise b b' k f : core b k f -> b <= b' <= 255 -> (forall j, 0 <= j < b' -> freg f j = true) -> core b' k f.
Proof.
  intros [] Hb Hu. split; try done; try lia. eapply Forall_impl; [eassumption|]. cbn. lia.
Qed.

Lemma scope_raise b b' f : scope b f -> b <= b' -> scope b' f.
Proof.
  intros [] Hb. split; try done.
  - eapply Forall_impl; [eassumption|]. cbn. lia.
  - eapply Forall_impl; [eassumption|]. intros t [? ? ? [?|?]]; split; try done; [by left|right; lia].
Qed.

Lemma contiguous_pushed b n c r c' : sst b c -> pushed b n c r c' -> 0 <= n -> contiguous (b + n) c'.
Proof.
  intros Hs (_ & _ & _ & _ & Hr) Hn j. rewrite Hr, (sst_top b c Hs). destruct Hs as [Hst Hc]. rewrite Hc.
  destruct Hst as [[Hcore _ _ _] _]. pose proof (core_bound _ _ _ Hcore).
  destruct (Z.leb_spec b j), (Z.ltb_spec j (b + n)), (Z.leb_spec 0 j), (Z.ltb_spec j b); cbn; (done || lia).
Qed.

Lemma sst_pushed b n c r c' : sst b c -> pushed b n c r c' -> 0 <= n -> sst (b + n) c'.
Proof.
  intros Hs Hp Hn. pose proof (contiguous_pushed _ _ _ _ _ Hs Hp Hn) as Hc. pose proof (sst_bound _ _ Hs).
  pose proof (sst_top _ _ Hs). destruct Hp as ([[[Hcore Hsc Hu Hch] He] _] & _ & Hlt & _). split; [|done].
  split; [|done]. split; [| |done..].
  - eapply core_raise; [exact Hcore|lia|]. intros j Hj. fold (regs c' j).
    rewrite Hc, (proj2 (Z.leb_le _ _)), (proj2 (Z.ltb_lt _ _)) by lia. done.
  - eapply scope_raise; [exact Hsc|lia].
Qed.

(** ** Variables in new registers *)
Definition with_locals ls c : compiler :=
  mk_compiler (string_interner c) (set_locals ls (cur c)) (upper_functions c).

Lemma wp_declare_all names : forall base i c (Q : unit -> compiler -> Prop), 0 <= ri base + i ->
  ri base + i + Z.of_nat (length names) <= 256 ->
  (forall news, length news = length names -> map local_register news = descending (ri base + i) (length names) ->
     Q tt (with_locals (news ++ locals (cur c)) c)) ->
  wp (declare_all names base i) c Q.
Proof.
  induction names as [|[name attrs] names IH]; intros base i c Q Hi Hn HQ; cbn [declare_all length] in *.
  - apply cwp_ret. specialize (HQ [] eq_refl eq_refl). destruct c as [st [] u]. exact HQ.
  - apply wp_seq. eapply wp_lift; [apply arith_in; int_lia|]. apply wp_seq, wp_modify. apply IH; [lia|lia|].
    intros news Hl Hd. set (l := (name, mk_RegisterIndex (ri base + i), attrs)).
    specialize (HQ (news ++ [l])). cbn in HQ |- *. rewrite <- app_assoc in HQ. apply HQ.
    + rewrite length_app. cbn. lia.
    + rewrite map_app, Hd. change (ri base + i + Z.of_nat (length names) :: descending (ri base + i) (length names))
        with (descending (ri base + i) (1 + length names)). rewrite descending_app.
      replace (ri base + (i + 1)) with (ri base + i + Z.of_nat 1) by lia. f_equal. cbn. by rewrite Z.add_0_r.
Qed.

Lemma stmts_declared id b n c r c' news : sst b c -> pushed b n c r c' -> n = Z.of_nat (length news) ->
  map local_register news = descending b (length news) -> id <= uid c ->
  stmts id b (b + n) c (with_locals (news ++ locals (cur c')) c').
Proof.
  intros Hs Hp En Hd Hid. pose proof (sst_pushed _ _ _ _ _ Hs Hp ltac:(lia)) as [[[Hc Hsc Hu Hch] He] Hcont].
  destruct Hp as ([_ (Hx & El & _)] & _). pose proof (sst_bound _ _ Hs). split.
  - split; [|exact Hcont]. split; [|done]. split; [| |done..].
    + destruct Hc. split; try done. cbn. apply Forall_app. split; [|done]. apply Forall_forall. intros l Hl.
      assert (Hin : local_register l ∈ map local_register news) by by apply list_elem_of_fmap_2.
      rewrite Hd in Hin. apply descending_range in Hin. unfold local_register in Hin. lia.
    + destruct Hsc as [? ? Ht Hp ? ?]. split; try done; (eapply Forall_impl; [eassumption|]; by intros ? []).
  - destruct Hx as [Hx Hup]. split; [|done]. eapply fext_since_le; [exact Hid|]. destruct Hx. by split.
  - lia.
  - exists news. cbn. rewrite El. by subst n.
Qed.

(** A name in a new register *)
Lemma wp_declare id b c r c' name attrs (Q : unit -> compiler -> Prop) : sst b c -> pushed b 1 c r c' -> id <= uid c ->
  (forall c'', stmts id b (b + 1) c c'' -> csizes c'' = csizes c' -> Q tt c'') -> wp (declare name r attrs) c' Q.
Proof.
  intros Hs Hp Hid HQ. apply wp_modify. apply HQ; [|done].
  apply (stmts_declared id b 1 c r c' [(name, r, attrs)]); try done. destruct Hp as (_ & Er & _).
  unfold local_register. cbn. rewrite Er, (sst_top b c Hs). f_equal. lia.
Qed.

(** Names in new registers *)
Lemma wp_declare_names id b c r c' names (Q : unit -> compiler -> Prop) : sst b c ->
  pushed b (Z.of_nat (length names)) c r c' -> id <= uid c ->
  (forall c'', stmts id b (b + Z.of_nat (length names)) c c'' -> csizes c'' = csizes c' -> Q tt c'') ->
  wp (declare_all names r 0) c' Q.
Proof.
  intros Hs Hp Hid HQ. pose proof (sst_bound _ _ Hs). pose proof (sst_top _ _ Hs). pose proof Hp as (_ & Er & Hlt & _).
  apply wp_declare_all; [lia|lia|]. intros news Hl Hd. apply HQ; [|done].
  replace (ri r + 0) with b in Hd by lia. rewrite <- Hl in *. by eapply stmts_declared.
Qed.

(** ** Values in new registers, one after the other *)
Lemma pushed_0 b c : sst b c -> pushed b 0 c (mk_RegisterIndex b) c.
Proof.
  intros Hs. pose proof (sst_top _ _ Hs) as Ht. pose proof (sst_bound _ _ Hs).
  split; [by split; [apply Hs|]|]. split; [done|]. split; [lia|]. split; [lia|].
  intros j. destruct (Z.leb_spec (top c) j), (Z.ltb_spec j (top c + 0)); cbn; (done || lia).
Qed.

Lemma pushed_still b n c r c1 c2 : pushed b n c r c1 -> still b c1 c2 -> pushed b n c r c2.
Proof. intros Hp [? ?]. by eapply pushed_then. Qed.

Lemma wp_push_value {A} b n c r c1 m (k : RegisterIndex -> M A) (Q : A -> compiler -> Prop) : 0 <= n ->
  pushed b n c r c1 -> makes m ->
  (forall r' c2, ri r' = top c + n -> pushed b (n + 1) c r c2 -> wp (k r') c2 Q) ->
  wp (bind m (fun d => bind (expr_discharge d ExprDestination.PushNew) k)) c1 Q.
Proof.
  intros Hn Hp Hm HQ. apply (cwp_makes b); [done|apply Hp|]. intros d c2 H2' Hd.
  pose proof (pushed_still _ _ _ _ _ _ Hp H2') as Hp2.
  eapply cwp_bind; [by apply (discharges (Recursion := recursion_whole) d b c2 ExprDestination.PushNew); [|eapply still_st|..]|].
  intros r' c3 Hp3%placed_pushed. apply HQ; [|by eapply pushed_more; [..|exact Hp2|exact Hp3]].
  destruct Hp3 as (_ & -> & _). by destruct Hp2 as (_ & _ & _ & -> & _).
Qed.

Lemma makes_constant v : makes (ret (ExprDescriptor.Constant v)).
Proof. by apply makes_ret. Qed.

Lemma same_index r r' : ri r = ri r' -> r = r'.
Proof. destruct r, r'. cbn. congruence. Qed.

(** Three values for a loop *)
Lemma wp_three b c m1 m2 m3 (Q : RegisterIndex -> compiler -> Prop) : makes m1 -> makes m2 -> makes m3 -> sst b c ->
  (forall c', pushed b 3 c (mk_RegisterIndex b) c' -> Q (mk_RegisterIndex b) c') ->
  wp (bind m1 (fun d => bind (expr_discharge d ExprDestination.PushNew) (fun base =>
      bind m2 (fun d => bind (expr_discharge d ExprDestination.PushNew) (fun _ =>
      bind m3 (fun d => bind (expr_discharge d ExprDestination.PushNew) (fun _ => ret base))))))) c Q.
Proof.
  intros Hm1 Hm2 Hm3 Hs HQ. apply (wp_push_value b 0 c (mk_RegisterIndex b)); [lia|by apply pushed_0|done|].
  intros r1 c1 E1 Hp1. apply (wp_push_value b 1 c (mk_RegisterIndex b)); [lia|exact Hp1|done|]. intros r2 c2 _ Hp2.
  apply (wp_push_value b 2 c (mk_RegisterIndex b)); [lia|exact Hp2|done|]. intros r3 c3 _ Hp3. apply cwp_ret.
  assert (r1 = mk_RegisterIndex b) as -> by (apply same_index; rewrite E1, (sst_top b c Hs); cbn; lia).
  by apply HQ.
Qed.

Lemma wp_iterator_values b c args (Q : RegisterIndex -> compiler -> Prop) : args <> [] ->
  Forall (fun e => makes (expression e)) args -> sst b c ->
  (forall c', pushed b 3 c (mk_RegisterIndex b) c' -> Q (mk_RegisterIndex b) c') ->
  wp (iterator_values expression args) c Q.
Proof.
  intros Hne Hm Hs HQ. destruct args as [|iterator [|state rest]]; [done| |].
  - apply Forall_cons in Hm as [Hm _]. apply (cwp_makes b); [done|apply Hs|]. intros d c1 H1' Hd.
    eapply cwp_mono; [apply (wp_expr_push_count (within := fun _ => True) b); [done|by eapply still_st|done|lia]|].
    intros r c2 Hp. pose proof Hp as (_ & Er & _). destruct H1' as [Hs1 Hr1].
    assert (Et : top c1 = top c) by (eapply still_top; [apply Hs|by split]).
    assert (r = mk_RegisterIndex b) as -> by (apply same_index; cbn; rewrite Er, Et; by apply sst_top).
    apply HQ. eapply (pushed_after b 3 c c1); [apply Hs|done..| |exact Hp]. by rewrite Er.
  - apply Forall_cons in Hm as [Hm1 Hm]. apply Forall_cons in Hm as [Hm2 Hm].
    apply (wp_three b c (expression iterator) (expression state)
      (match rest with control :: _ => expression control | [] => ret (ExprDescriptor.Constant Constant.Nil) end)); try done.
    destruct rest; [apply makes_constant|]. by apply Forall_cons in Hm as [? _].
Qed.

(** ** The registers of a loop given back *)
Lemma st_lower b b' id c1 c2 : st b 0 c1 -> exited id b' c1 c2 -> b <= b' -> st b 0 c2.
Proof.
  intros [[Hc1 Hs1 _ _] He1] [[[[Hc2 Hs2 Hu Hch] He2] Hcont] [Hx _] El Et] Hb. split; [|done]. split; [| |done..].
  - destruct Hc2. split; try done.
    + pose proof (core_bound _ _ _ Hc1). lia.
    + intros j Hj. fold (regs c2 j). rewrite Hcont, (proj2 (Z.leb_le _ _)), (proj2 (Z.ltb_lt _ _)) by lia. done.
    + rewrite El. apply (core_locals _ _ _ Hc1).
  - destruct Hs2. split; try done.
    + pose proof (scope_bottom _ _ Hs1) as Hbot. pose proof (fx_blocks _ _ _ Hx) as Hbl. clear -Hbot Hbl.
      induction Hbl as [|x y l l' [E _] _ IH]; [constructor|]. apply Forall_cons in Hbot as [? ?].
      constructor; [by rewrite E|by apply IH].
    + rewrite Et. pose proof (fx_blocks _ _ _ Hx) as Hbl. apply Forall2_length in Hbl.
      pose proof (fx_ops _ _ _ Hx) as [Hlen _]. pose proof (fx_id _ _ _ Hx).
      eapply Forall_impl; [apply (scope_targets _ _ Hs1)|]. intros t [? ? Hid ?].
      split; [lia|lia| |done]. intros i Hi. specialize (Hid i Hi). lia.
Qed.

Lemma wp_give_back id b n c c1 c2 (Q : unit -> compiler -> Prop) : sst b c -> step b 0 c c1 -> 0 <= n ->
  exited id (b + n) c1 c2 -> id <= uid c -> (forall c3, kept id b c c3 -> Q tt c3) -> wp (pop_to b) c2 Q.
Proof.
  intros Hs Hs1 Hn Hex Hid HQ. pose proof (st_lower _ _ _ _ _ (proj1 Hs1) Hex ltac:(lia)) as Hst2.
  apply (wp_pop_to b 0); [done|lia|]. intros c3 [Hst3 (Hx3 & El3 & _)] Hr3. apply HQ.
  destruct Hex as [[_ Hcont] Hx2 El2 _]. destruct Hs1 as [_ (Hx1 & El1 & _)]. split_and!; [|..|congruence].
  - split; [done|]. intros j. rewrite Hr3, Hcont. pose proof (sst_bound _ _ Hs).
    destruct (Z.ltb_spec j b), (Z.leb_spec 0 j), (Z.ltb_spec j (b + n)); cbn; (done || lia).
  - pose proof (uid_le _ _ _ Hx1). pose proof (uid_le _ _ _ Hx2).
    etrans; [by eapply cext_since_le|]. etrans; [exact Hx2|]. eapply cext_since_le; [|exact Hx3].
    unfold uid in *. lia.
Qed.
(** ** The numeric loop *)
Definition patched op i c : compiler :=
  mk_compiler (string_interner c) (set_operations (<[i := op]> (operations (cur c))) (cur c)) (upper_functions c).

Lemma sst_patched b c i base jump : sst b c -> operations (cur c) !! i = Some (Operation.NumericForPrep base 0) ->
  offset_ok jump -> 0 <= Z.of_nat i + 1 + jump <= Z.of_nat (length (operations (cur c))) ->
  sst b (patched (Operation.NumericForPrep base jump) i c).
Proof.
  intros [[Hinv He] Hc] Hi Hj Ht. split; [|done]. split; [|done]. eapply (inv_current b 0 b 0 c); [done| | |done].
  - destruct (inv_core _ _ _ Hinv) as [? ? ? Hops Hcode ? ? ? ?]. split; try done; cbn.
    + apply Forall_insert; [done|]. split; [done|].
      by destruct (proj1 (Forall_lookup _ _) Hops _ _ Hi).
    + apply code_ok_insert; [done|]. cbn [op_target]. lia.
  - eapply scope_mono; [apply (inv_scope _ _ _ Hinv)|..]; cbn; try done; [|by rewrite length_insert].
    intros q Hin. rewrite list_lookup_insert_ne; [done|]. intros ->.
    destruct (po_placeholder _ _ (proj1 (Forall_forall _ _) (scope_pending _ _ (inv_scope _ _ _ Hinv)) q Hin)) as (o & Ho & cl & -> & _).
    congruence.
Qed.

Lemma cext_patched id c0 c op i : cext_since id c0 c -> (length (operations (cur c0)) <= i)%nat ->
  cext_since id c0 (patched op i c).
Proof.
  intros [Hx Hup] Hi. pose proof (fx_ops _ _ _ Hx) as [Hlen Hops]. destruct Hx. split; [|done]. split; try done. cbn.
  split; [by rewrite length_insert|]. intros j o Hj Hn. rewrite list_lookup_insert_ne; [by apply Hops|].
  apply lookup_lt_Some in Hj. lia.
Qed.

Lemma wp_patch_for_prep b i loop base c0 id c (Q : unit -> compiler -> Prop) : sst b c ->
  operations (cur c) !! i = Some (Operation.NumericForPrep base 0) -> (length (operations (cur c0)) <= i)%nat ->
  (loop <= length (operations (cur c)))%nat -> cext_since id c0 c ->
  (forall c', sst b c' -> cext_since id c0 c' -> locals (cur c') = locals (cur c) -> uid c' = uid c -> Q tt c') ->
  wp (patch_for_prep i loop base) c Q.
Proof.
  intros Hs Hi Hlen Hloop Hx HQ. unfold patch_for_prep. eapply wp_read; [reflexivity|]. cbn beta. rewrite Hi.
  apply wp_seq, wp_assert; [by rewrite bool_decide_eq_true_2|]. apply wp_seq, cwp_ok_or. intros jump Hj.
  apply jump_offset_spec in Hj as [Hj Ht]. apply wp_modify.
  apply (HQ (patched (Operation.NumericForPrep base jump) i c)); [|by apply cext_patched|done..].
  apply sst_patched; [done..|lia].
Qed.

Lemma cext_entered_block id c c' : cext_since id c c' -> top c' = top c ->
  jump_targets (cur c') = jump_targets (cur c) -> cext_since id (entered_block c) (entered_block c').
Proof.
  intros [[] Hup] Et Ej. split; [|done]. split; try done. cbn. constructor; [|done]. by rewrite Et, Ej.
Qed.

Lemma cext_sizes id c c' : cext_since id c c' -> sizes_le (csizes c) (csizes c').
Proof. intros [Hx _]. apply (fx_sizes _ _ _ Hx). Qed.
Lemma cext_ops id c c' : cext_since id c c' -> ops_frame (operations (cur c)) (operations (cur c')).
Proof. intros [Hx _]. apply (fx_ops _ _ _ Hx). Qed.

(** One register that is pushed and becomes a variable *)
Lemma wp_push_variable {A} b c name (k : M A) (Q : A -> compiler -> Prop) : sst b c ->
  (forall c', stmts (uid c) b (b + 1) c c' -> b + 1 <= s_registers (csizes c') -> wp k c' Q) ->
  wp (bind (push_or 1) (fun r => bind (declare name r NONE) (fun _ => k))) c Q.
Proof.
  intros Hs HQ. eapply cwp_bind; [apply (wp_push_pushed b); [apply Hs|lia]|]. intros r c1 Hp.
  apply wp_seq, (wp_declare (uid c) b c r c1); [done..|]. intros c2 H2' Es. apply HQ; [done|].
  rewrite Es. destruct Hp as ([Hst1 _] & _ & _ & Ht & _). pose proof (top_sizes _ _ _ Hst1).
  rewrite (sst_top b c Hs) in Ht. lia.
Qed.

(** The body of the loop, between the two instructions *)
Lemma wp_numeric_body {A} b c name blk (k : M A) (Q : A -> compiler -> Prop) : sst b c -> runs (block_statements blk) ->
  (forall c', exited (uid c) b c c' -> b + 1 <= s_registers (csizes c') -> wp k c' Q) ->
  wp (bind enter_block (fun _ => bind (push_or 1) (fun r => bind (declare name r NONE) (fun _ =>
      bind (block_statements blk) (fun _ => bind exit_block (fun _ => k)))))) c Q.
Proof.
  intros Hs Hb HQ. apply wp_seq, wp_enter_block. apply (wp_push_variable b); [by apply sst_enter|].
  intros c1 H1' Hsz. eapply cwp_bind; [apply (Hb (b + 1)), H1'|]. intros [] c2 [b' H2'].
  apply wp_seq, (wp_exit_block_later (uid c) b b' c); [done| |].
  - eapply stmts_trans; [exact H1'|]. eapply stmts_le; [|exact H2']. by eapply stmts_uid in H1'.
  - intros c3 He [Hsz3 _]. apply HQ; [done|]. destruct H2' as [_ Hx2 _ _]. apply cext_sizes in Hx2.
    unfold sizes_le in *. lia.
Qed.

Lemma runs_numeric name initial limit step_ blk : makes (expression initial) -> makes (expression limit) ->
  match step_ with Some e => makes (expression e) | None => True end -> runs (block_statements blk) ->
  runs (numeric_for expression block_statements name initial limit step_ blk).
Proof.
  intros Hi Hl Hst Hb b c Hs. unfold numeric_for. pose proof (sst_bound _ _ Hs).
  apply (wp_push_value b 0 c (mk_RegisterIndex b)); [lia|by apply pushed_0|done|]. intros base c1 E1 Hp1.
  assert (base = mk_RegisterIndex b) as -> by (apply same_index; rewrite E1, (sst_top b c Hs); cbn; lia).
  apply (wp_push_value b 1 c (mk_RegisterIndex b)); [lia|exact Hp1|done|]. intros _ c2 _ Hp2.
  apply (wp_push_value b 2 c (mk_RegisterIndex b)); [lia|exact Hp2| |].
  { by destruct step_; [|apply makes_constant]. }
  intros _ c3 _ Hp3. pose proof (sst_pushed _ _ _ _ _ Hs Hp3 ltac:(lia)) as Hs3. pose proof Hp3 as [Hstep3 _].
  pose proof (top_sizes _ _ _ (proj1 Hs3)) as Hsz3. rewrite (sst_top _ _ Hs3) in Hsz3.
  assert (Hid3 : uid c <= uid c3) by (destruct Hstep3 as [_ (Hx3 & _)]; by apply uid_le in Hx3).
  eapply wp_read; [reflexivity|]. set (prep := length (operations (cur c3))).
  apply wp_seq. eapply (wp_emit (b + 3) 0 0); [apply Hs3|split; [apply offset_0_ok|unfold block_ok; cbn [register_index]; lia]|cbn [op_target]; lia|lia|].
  intros c4 Hs4 Hr4 _ Eops4 Et4 Eid4. assert (Hstill4 : still (b + 3) c3 c4) by done.
  pose proof (still_sst _ _ _ Hs3 Hstill4) as Hsst4.
  assert (Hx34 : cext_since (uid c) (entered_block c3) (entered_block c4)).
  { apply cext_entered_block; [|by eapply still_top; [apply Hs3|]|done]. destruct Hs4 as [_ (Hx & _)].
    destruct Hstep3 as [_ (Hx3 & _)]. eapply cext_since_le; [|exact Hx]. by apply uid_le in Hx3. }
  apply wp_seq, wp_enter_block. apply (wp_numeric_body (b + 3)); [by apply sst_enter|done|].
  intros c5 [Hs5 Hx5 El5 Et5] Hsz5. assert (H5 : kept (uid (entered_block c4)) (b + 3) (entered_block c4) c5) by by split.
  assert (Hprep5 : operations (cur c5) !! prep = Some (Operation.NumericForPrep (mk_RegisterIndex b) 0)).
  { apply (cext_ops _ _ _ Hx5); [|by intros []]. cbn. rewrite Eops4. unfold prep. by rewrite lookup_app_r, Nat.sub_diag by lia. }
  eapply wp_read; [reflexivity|]. apply wp_seq, cwp_ok_or. intros back Hback. apply jump_offset_spec in Hback as [Hback Htarget].
  pose proof (lookup_lt_Some _ _ _ Hprep5) as Hlt5.
  apply wp_seq. eapply (wp_emit (b + 3) 0 0); [apply Hs5| |cbn [op_target]; lia|lia|].
  { split; [done|]. unfold block_ok. cbn [register_index]. lia. }
  intros c6 Hs6 Hr6 _ Eops6 Et6 Eid6. assert (Hsst6 : sst (b + 3) c6) by by apply (still_sst _ c5).
  assert (Hx36 : cext_since (uid c) (entered_block c3) c6).
  { etrans; [exact Hx34|]. destruct Hs6 as [_ (Hx6 & _)]. pose proof (uid_le _ _ _ Hx34). pose proof (uid_le _ _ _ Hx5).
    change (uid (entered_block c3)) with (uid c3) in *. unfold uid in *.
    etrans; eapply cext_since_le; [|exact Hx5| |exact Hx6]; lia. }
  apply wp_seq, (wp_patch_for_prep (b + 3) prep _ _ (entered_block c3) (uid c)); [done| |cbn; lia| |done|].
  { rewrite Eops6. by apply lookup_app_l_Some. }
  { rewrite Eops6, length_app. lia. }
  intros c7 Hsst7 Hx37 El7 Eid7.
  assert (H37 : kept (uid c) (b + 3) (entered_block c3) c7).
  { split; [done|]. split; [done|]. rewrite El7. destruct Hs6 as [_ (_ & -> & _)]. rewrite El5. cbn.
    by destruct Hs4 as [_ (_ & -> & _)]. }
  apply wp_seq, (wp_target_source (uid c) (b + 3)); [done|by intros [? ?]|etrans; [exact Hid3|exact (kept_uid _ _ _ _ H37)]|]. intros c8 H8'.
  apply (wp_exit_then (uid c) (b + 3) (b + 3) c3); [done|by eapply kept_stmts, kept_kept|].
  intros c9 H9'. apply (wp_give_back (uid c) b 3 c c3); [done..|lia|done|done|]. intros c10. apply ran_kept.
Qed.
(** ** The loop over an iterator *)

(** The variables of the loop *)
Lemma wp_loop_variables {A} b c (names : list IString) (k : Z -> M A) (Q : A -> compiler -> Prop) : sst b c ->
  (forall n c', 0 < n < 256 -> stmts (uid c) b (b + n) c c' -> b + n <= s_registers (csizes c') -> wp (k n) c' Q) ->
  wp (bind (ok_or (checked u8 (Z.of_nat (length names))) CompileErrorKind.Registers) (fun n =>
      bind (push_or n) (fun r => bind (declare_all (map (fun n => (n, NONE)) names) r 0) (fun _ => k n)))) c Q.
Proof.
  intros Hs HQ. apply wp_seq, cwp_ok_or. intros n Hn. apply checked_Some in Hn as [Hi ->].
  apply wp_seq, (wp_push_or b 0); [apply Hs|int_lia|]. intros r c1 Hs1 Er Hpos Hlt Ht Hsz Hr.
  assert (Hp : pushed b (Z.of_nat (length (map (fun n => (n, NONE)) names))) c r c1).
  { rewrite length_map. by split_and!. }
  apply wp_seq, (wp_declare_names (uid c) b c r c1); [done..|]. rewrite length_map. intros c2 H2' Es.
  apply HQ; [int_lia|done|]. rewrite Es. pose proof (sst_top _ _ Hs). lia.
Qed.

(** The block of the variables: a jump to the call at the end, and the statements *)
Lemma wp_generic_body {A} l t b c n (blk : Block IString) (k : nat -> M A) (Q : A -> compiler -> Prop) c0 :
  sst b c0 -> stmts (uid c0) b (b + n) (entered_block c0) c -> ready l t c -> t <= b -> 0 <= n ->
  runs (block_statements blk) -> b + n <= s_registers (csizes c) ->
  (forall start c', exited (uid c0) b c0 c' -> b + n <= s_registers (csizes c') ->
     (start <= length (operations (cur c')))%nat -> wp (k start) c' Q) ->
  wp (bind (jump (JumpLabel.Unique l)) (fun _ => bind operation_count (fun start =>
      bind (block_statements blk) (fun _ => bind exit_block (fun _ => k start))))) c Q.
Proof.
  intros Hs Hst Hl Ht Hn Hb Hsz HQ. pose proof (sm_st _ _ _ _ _ Hst) as Hs1.
  apply wp_seq, (wp_jump_ready (b + n) 0 l t); [apply Hs1|lia|done|rewrite (sst_top _ _ Hs1); lia|]. intros c1 Hj.
  assert (H1' : kept (uid c) (b + n) c c1) by by eapply kept_jumped.
  eapply wp_read; [reflexivity|]. set (start := length (operations (cur c1))).
  eapply cwp_bind; [apply (Hb (b + n)), H1'|]. intros [] c2 [b' H2'].
  pose proof (stmts_uid _ _ _ _ _ Hst). pose proof (kept_uid _ _ _ _ H1'). change (uid (entered_block c0)) with (uid c0) in *.
  apply wp_seq, (wp_exit_block_later (uid c0) b b' c0); [done| |].
  - eapply stmts_trans; [by eapply stmts_then_kept|]. eapply stmts_le; [|exact H2']. lia.
  - intros c3 He [Hsz3 Hops3]. destruct H1' as (_ & Hx1 & _). destruct H2' as [_ Hx2 _ _].
    pose proof (cext_sizes _ _ _ Hx1). pose proof (cext_sizes _ _ _ Hx2). pose proof (cext_ops _ _ _ Hx2) as [? _].
    apply HQ; [done|unfold sizes_le in *; lia|unfold start; lia].
Qed.

(** The two instructions at the end *)
Lemma wp_generic_end {A} b c n start (k : M A) (Q : A -> compiler -> Prop) : sst (b + 3) c -> 0 <= b -> 0 < n < 256 ->
  b + 3 + n <= s_registers (csizes c) -> (start <= length (operations (cur c)))%nat ->
  (forall c', kept (uid c) (b + 3) c c' -> wp k c' Q) ->
  wp (bind (emit (Operation.GenericForCall (mk_RegisterIndex b) n)) (fun _ => bind operation_count (fun loop =>
      bind (lift (arith u8 (ri (mk_RegisterIndex b) + 2))) (fun control =>
      bind (ok_or (jump_offset loop start) CompileErrorKind.JumpOverflow) (fun back =>
      bind (emit (Operation.GenericForLoop (mk_RegisterIndex control) back)) (fun _ => k)))))) c Q.
Proof.
  intros Hs Hb Hn Hsz Hstart HQ. pose proof (sst_bound _ _ Hs).
  apply wp_seq, (wp_emit_plain (b + 3)); [apply Hs| |intros i; cbn; lia|].
  { split; [int_lia|]. split; [lia|]. unfold block_ok. cbn [register_index]. lia. }
  intros c1 Hs1 Hr1. assert (Hst1 : still (b + 3) c c1) by done.
  eapply wp_read; [reflexivity|]. cbn [register_index]. apply wp_seq. eapply wp_lift; [apply arith_in; int_lia|].
  apply wp_seq, cwp_ok_or. intros back Hback. apply jump_offset_spec in Hback as [Hback Ht].
  pose proof (step_sizes _ _ _ _ Hs1) as Hle. destruct Hs1 as [Hst1' Hq1].
  destruct Hq1 as [Hx1 Hq1]. pose proof (cext_ops _ _ _ Hx1) as [Hops1 _].
  apply wp_seq. eapply (wp_emit (b + 3) 0 0); [done| |cbn [op_target]; lia|lia|].
  { split; [done|]. unfold block_ok, sizes_le in *. cbn [register_index]. lia. }
  intros c2 Hs2 Hr2 _ _ _ _. apply HQ, still_kept; [done| |done]. eapply still_trans; [exact Hst1|]. by split.
Qed.

Lemma runs_generic names arguments blk : arguments <> [] -> Forall (fun e => makes (expression e)) arguments ->
  runs (block_statements blk) -> runs (generic_for expression block_statements names arguments blk).
Proof.
  intros Hne Ha Hb b c Hs. unfold generic_for. set (l := uid c). pose proof (sst_bound _ _ Hs).
  apply wp_seq, (wp_new_label b); [done|]. intros c1 H1' Hl1 E1. fold l in H1', Hl1, E1 |- *.
  pose proof (kept_sst _ _ _ _ H1') as Hs1.
  apply wp_seq, (wp_iterator_values b); [done..|]. intros c2 Hp.
  pose proof (sst_pushed _ _ _ _ _ Hs1 Hp ltac:(lia)) as Hs2. destruct Hp as [Hstep _].
  assert (Hx12 : cext_since (uid c1) c1 c2) by (destruct Hstep as [_ (Hx & _)]; exact Hx).
  pose proof (uid_le _ _ _ Hx12) as Hid2.
  apply wp_seq, wp_enter_block, wp_seq, wp_enter_block. pose proof (sst_enter _ _ Hs2) as Hs3.
  apply (wp_loop_variables (b + 3)); [by apply sst_enter|]. intros n c3 Hn H3' Hsz3.
  assert (Hl3 : ready l b c3).
  { eapply (ready_ext l b (entered_block (entered_block c2))).
    - apply (ready_ext l b c1 c2 Hl1). eapply cext_since_le; [|exact Hx12]. lia.
    - destruct H3' as [_ Hx _ _]. eapply cext_since_le; [|exact Hx]. change (l + 1 <= uid c2). lia. }
  apply (wp_generic_body l b (b + 3) c3 n blk _ _ (entered_block c2)); [done|done|done|lia|lia|done|lia|].
  intros start c4 He4 Hsz4 Hstart. pose proof (kept_exited _ _ _ _ He4) as H4'. pose proof (kept_uid _ _ _ _ H4') as Hid4.
  change (uid (entered_block c2)) with (uid c2) in *.
  apply wp_seq, (wp_target_own l (b + 3)); [apply H4'|lia|done|]. intros c5 H5' _ _ E5.
  pose proof H5' as (Hs5 & Hx5 & _). pose proof (cext_sizes _ _ _ Hx5) as Hsz5. pose proof (cext_ops _ _ _ Hx5) as [Hops5 _].
  apply (wp_generic_end b c5 n start); [done|lia|done|unfold sizes_le in *; lia|lia|]. intros c6 H6'.
  pose proof (kept_uid _ _ _ _ H6').
  apply wp_seq, (wp_target_source l (b + 3)); [apply H6'|by intros [? ?]|lia|]. intros c7 H7'.
  apply (wp_exit_then l (b + 3) (b + 3) c2); [done| |].
  { apply kept_stmts. eapply kept_kept; [eapply kept_le; [|exact H4']; lia|]. eapply kept_kept; [exact H5'|].
    eapply kept_kept; [eapply kept_le; [|exact H6']; lia|exact H7']. }
  intros c8 H8'. apply (wp_give_back l b 3 c1 c2); [done|done|lia|done|lia|]. intros c9 H9'. apply ran_kept.
  by eapply kept_kept.
Qed.

Lemma compiles_for loop (S_ok : Z -> Statement IString -> Prop) (E_ok : Z -> Expression IString -> Prop) :
  (forall p e, E_ok p e -> makes (expression e)) ->
  (forall blk, Canonical.block_ S_ok E_ok blk -> runs (block_statements blk)) ->
  Canonical.for_statement S_ok E_ok loop -> runs (for_statement expression block_statements loop).
Proof.
  intros HE HB Hf. destruct loop as [name initial limit step_ blk|names arguments blk].
  - destruct Hf as (Hi & Hl & Hs & Hb). apply runs_numeric; [by eapply HE..| |by apply HB].
    destruct step_; [by eapply HE|done].
  - destruct Hf as (_ & [Hne Ha] & Hb). apply runs_generic; [done| |by apply HB].
    eapply Forall_impl; [exact Ha|]. intros e. by apply HE.
Qed.
End CompilerLoops.
End CompilerLoops.
