(* ===== verification/CompilerAssign.v ===== *)
(** * Declarations, assignments and calls *)

From stdpp Require Import sorting.
From S2P Require Import Prelude Float64 Lexer Opcode Constant Operators Parser ParserFacts RegisterAllocator CompilerState CompilerExpr Compiler CompilerCode CompilerFacts CompilerSteps CompilerJumps CompilerDischarge CompilerValues CompilerFunctions CompilerTree CompilerStatements CompilerLoops.
Import Ast Compiler Discharge Compile CompilerFacts CompilerSteps CompilerJumps CompilerDischarge CompilerValues CompilerFunctions CompilerTree CompilerStatements CompilerLoops.

Module CompilerAssign.
Section CompilerAssign.
Context `{BuildProfile} `{FloatLib} `{StringInterner}.
#[local] Existing Instance checking.
#[local] Existing Instance name_bytes.
Abbreviation descriptor := (ExprDescriptor.t IString).
Abbreviation cur := current_function.
Abbreviation ri := register_index.
Implicit Types (c : compiler) (b id : Z) (d : descriptor) (r : RegisterIndex).

(** A computation that changes nothing but code, as a statement *)
Lemma runs_still m : (forall b c, st b 0 c -> wp m c (fun _ c' => still b c c')) -> runs m.
Proof.
  intros Hm b c Hs. eapply cwp_mono; [apply (Hm b), Hs|]. intros [] c' Hst. by apply ran_kept, still_kept.
Qed.

Lemma wp_after b c c1 (m : M unit) : still b c c1 -> wp m c1 (fun _ c' => still b c1 c') ->
  wp m c1 (fun _ c' => still b c c').
Proof. intros Hs Hm. eapply cwp_mono; [exact Hm|]. intros [] c'. by apply still_trans. Qed.

(** ** Values put where they belong *)
Lemma wp_to_register b c dest d : st b 0 c -> regs c (ri dest) = true -> dok c d ->
  wp (bind (expr_discharge d (ExprDestination.Register dest)) (fun _ => ret tt)) c (fun _ c' => still b c c').
Proof.
  intros Hst Hr Hd. eapply cwp_bind; [by apply (discharges (Recursion := recursion_whole) d b c (ExprDestination.Register dest))|].
  intros r c' (Hs & _ & Hr'). by apply cwp_ret.
Qed.

Lemma wp_to_table b c t k v : st b 0 c -> dok c t -> dok c k -> dok c v ->
  wp (set_table expr_discharge t k v) c (fun _ c' => still b c c').
Proof. intros. apply (wp_set_table (within := fun _ => True) b); [done..|]. by intros c' ? ?. Qed.

Lemma wp_to_environment b c name d : st b 0 c -> dok c d ->
  wp (bind get_environment (fun env => set_table expr_discharge env (string_constant name) d)) c
    (fun _ c' => still b c c').
Proof.
  intros Hst Hd. apply wp_seq, (wp_get_environment b 0); [done|]. intros v c1 Hs1 Hr1 Hv _.
  assert (H1' : still b c c1) by done. eapply cwp_mono; [apply (wp_to_table b); [by eapply still_st|exact Hv|done|by eapply dok_still]|].
  intros [] c'. by apply still_trans.
Qed.

Lemma wp_drop_value b c d : st b 0 c -> dok c d -> wp (drop_value d) c (fun _ c' => still b c c').
Proof.
  intros Hst Hd. eapply cwp_bind; [by apply (discharges (Recursion := recursion_whole) d b c ExprDestination.AllocateNew)|].
  intros r c1 [Hs1 [Hf Hw]]. apply (wp_free_fresh b c); [done|apply Hs1|done|by eapply with_reg_used|].
  intros c2 Hs2 Hr2. split; [steps|]. destruct Hf as [Hf _]. regs_solve.
Qed.

(** The value to the upvalue, from a register that is given back *)
Lemma wp_to_upvalue b c u d : st b 0 c -> dok c d -> upvalue_ok (csizes c) u ->
  wp (bind (expr_any_register expr_discharge d) (fun '(source, temp) =>
      bind (emit (Operation.SetUpValue u source)) (fun _ => if temp : bool then free source else ret tt))) c
    (fun _ c' => still b c c').
Proof.
  intros Hst Hd Hu. eapply cwp_bind; [apply (wp_any_register (within := fun _ => True) b c d); [by left|done..]|].
  intros [r temp] c1 H1'. apply held_has in H1' as (Hs1 & Hr1 & Hf1 & Hw1).
  apply wp_seq, (wp_emit_plain b); [apply Hs1| |intros i; cbn; lia|].
  { split; [eapply upvalue_ok_le; [by eapply step_sizes|done]|by eapply used_reg_ok]. }
  intros c2 Hs2 Hr2. rewrite free_temp_opt. apply (wp_free_opt b c); [done|apply Hs2| |].
  { intros r' E. split; [by apply Hf1|]. rewrite Hr2, Hw1, E. cbn. by rewrite Z.eqb_refl. }
  intros c3 Hs3 Hr3. split; [steps|]. intros j. rewrite Hr3, Hr2, Hw1. pose proof (has_fresh _ c j Hf1).
  destruct (has _ j), (regs c j); cbn; intuition congruence.
Qed.

Lemma wp_new_to_upvalue b c u d : st b 0 c -> dok c d -> upvalue_ok (csizes c) u ->
  wp (bind (expr_discharge d ExprDestination.AllocateNew) (fun source =>
      bind (emit (Operation.SetUpValue u source)) (fun _ => free source))) c (fun _ c' => still b c c').
Proof.
  intros Hst Hd Hu. eapply cwp_bind; [by apply (discharges (Recursion := recursion_whole) d b c ExprDestination.AllocateNew)|].
  intros r c1 Hp. pose proof (placed_reg_ok _ _ _ _ _ Hp I) as Hok. destruct Hp as [Hs1 [Hf Hw]].
  apply wp_seq, (wp_emit_plain b); [apply Hs1| |intros i; cbn; lia|].
  { split; [eapply upvalue_ok_le; [by eapply step_sizes|done]|done]. }
  intros c2 Hs2 Hr2. apply (wp_free_fresh b c); [done|apply Hs2|done|by rewrite Hr2; eapply with_reg_used|].
  intros c3 Hs3 Hr3. split; [steps|]. destruct Hf as [Hf _]. regs_solve.
Qed.

Section parts.
Context (S_ok : Z -> Statement IString -> Prop) (E_ok : Z -> Expression IString -> Prop).
Hypothesis HE : forall p e, E_ok p e -> makes (expression e).
Hypothesis HB : forall blk, Canonical.block_ S_ok E_ok blk -> runs (block_statements blk).

(** ** Assignment *)
Lemma wp_assign b c target d : Canonical.target E_ok target -> st b 0 c -> dok c d ->
  wp (assign expression target d) c (fun _ c' => still b c c').
Proof.
  intros Ht Hst Hd. destruct target as [name|table field]; cbn [assign].
  - apply wp_seq, (wp_find_variable b 0); [done|]. intros v c1 Hs1 Hr1 Hv _ _. assert (H1' : still b c c1) by done.
    pose proof (still_st _ _ _ H1') as Hst1. pose proof (dok_still _ _ _ _ H1' Hd) as Hd1.
    apply (wp_after b c c1); [done|].
    destruct v as [dest a|dest a|g]; [case_bool; [done|by apply wp_to_register]|case_bool; [done|by apply wp_to_upvalue]|].
    by apply wp_to_environment.
  - destruct Ht as [Ht Hf]. apply (cwp_makes b); [by eapply (builds_suffixed E_ok)|done|]. intros dt c1 H1' Hdt.
    apply (cwp_makes b); [by eapply (makes_field_key E_ok)|by eapply still_st|]. intros dk c2 H2' Hdk.
    pose proof (still_trans _ _ _ _ H1' H2') as H02.
    eapply cwp_mono; [apply (wp_to_table b); [by eapply still_st|by eapply dok_still; [exact H2'|]|done|by eapply dok_still]|].
    intros [] c'. by apply still_trans.
Qed.

Lemma wp_drop_values b values : forall c, Forall (fun e => makes (expression e)) values -> st b 0 c ->
  wp (drop_values expression values) c (fun _ c' => still b c c').
Proof.
  induction values as [|e values IH]; intros c He Hst; cbn [drop_values]; [by apply cwp_ret, still_refl|].
  apply Forall_cons in He as [He Hes]. apply (cwp_makes b); [done..|]. intros d c1 H1' Hd.
  eapply cwp_bind; [apply (wp_drop_value b); [by eapply still_st|done]|]. intros [] c2 H2'.
  pose proof (still_trans _ _ _ _ H1' H2') as H02.
  eapply cwp_mono; [apply (IH c2 Hes); by eapply still_st|]. intros [] c'. by apply still_trans.
Qed.

(** Registers taken for the values of several targets *)
Definition taken (rs : list RegisterIndex) (F : Z -> bool) c : Prop :=
  NoDup (map ri rs) /\ (forall r, r ∈ rs -> F (ri r) = false) /\
  forall j, regs c j = bool_decide (j ∈ map ri rs) || F j.

Lemma taken_nil c : taken [] (regs c) c.
Proof. split; [constructor|]. split; [by intros r ?%not_elem_of_nil|]. intros j. by rewrite bool_decide_eq_false_2 by apply not_elem_of_nil. Qed.

Lemma taken_ext rs F F' c : (forall j, F j = F' j) -> taken rs F c -> taken rs F' c.
Proof. intros E (Hn & Hf & Hr). split; [done|]. split; [intros; by rewrite <- E; apply Hf|]. intros j. by rewrite Hr, E. Qed.

Lemma taken_cons r rs F c : F (ri r) = false -> taken rs (fun j => (j =? ri r) || F j) c -> taken (r :: rs) F c.
Proof.
  intros Hr (Hn & Hf & Hj). split_and!.
  - constructor; [|done]. intros Hin. apply list_elem_of_fmap in Hin as (r' & E & Hin).
    specialize (Hf r' Hin). cbn in Hf. by rewrite <- E, Z.eqb_refl in Hf.
  - intros r' [->|Hin]%elem_of_cons; [done|]. specialize (Hf r' Hin). by apply orb_false_iff in Hf as [_ ?].
  - intros j. rewrite Hj. cbn [map]. destruct (Z.eqb_spec j (ri r)) as [->|Hne].
    + rewrite (bool_decide_eq_true_2 (ri r ∈ ri r :: _)) by by left. by rewrite orb_true_r.
    + cbn. f_equal. apply bool_decide_ext. rewrite elem_of_cons. intuition.
Qed.

Lemma taken_uncons r rs F c : taken (r :: rs) F c ->
  F (ri r) = false /\ taken rs (fun j => (j =? ri r) || F j) c.
Proof.
  intros (Hn & Hf & Hj). cbn [map] in *. apply NoDup_cons in Hn as [Hnr Hn]. split; [apply Hf; by left|]. split_and!; [done| |].
  - intros r' Hin. rewrite (Hf r') by by right. rewrite (proj2 (Z.eqb_neq _ _)); [done|].
    intros E. apply Hnr. rewrite <- E. by apply list_elem_of_fmap_2.
  - intros j. rewrite Hj. destruct (Z.eqb_spec j (ri r)) as [->|Hne].
    + rewrite (bool_decide_eq_true_2 (ri r ∈ ri r :: _)) by by left. by rewrite orb_true_r.
    + cbn. f_equal. apply bool_decide_ext. rewrite elem_of_cons. intuition.
Qed.

Lemma register_range_spec base n : 0 <= base -> base + Z.of_nat n <= 256 ->
  exists rs, register_range base n = Ok rs /\ length rs = n /\ NoDup (map ri rs) /\
    forall j, j ∈ map ri rs <-> base <= j < base + Z.of_nat n.
Proof.
  intros Hb. induction n as [|n IH]; intros Hn; cbn [register_range].
  - exists []. split_and!; [done|done|constructor|]. intros j. cbn. rewrite elem_of_nil. lia.
  - destruct IH as (rs & -> & Hl & Hnd & Hin); [lia|]. rewrite outcome_bind_Ok, arith_in, outcome_bind_Ok by int_lia.
    eexists. split; [reflexivity|]. rewrite length_app, map_app. cbn. split; [lia|]. split.
    + apply NoDup_app. split; [done|]. split; [|by apply NoDup_singleton]. intros j Hj ->%list_elem_of_singleton.
      apply Hin in Hj. lia.
    + intros j. rewrite elem_of_app, Hin, list_elem_of_singleton. lia.
Qed.
Lemma wp_assignment_values b values : forall targets c, Forall (fun e => makes (expression e)) values -> st b 0 c ->
  wp (assignment_values expression targets values) c (fun rs c' => step b 0 c c' /\ taken rs (regs c) c' /\
    (values <> [] \/ targets = O -> length rs = targets)).
Proof.
  induction values as [|e values IH]; intros targets c He Hst; cbn [assignment_values].
  - apply cwp_ret. split; [by split|]. split; [apply taken_nil|]. by intros [?| ->].
  - apply Forall_cons in He as [He Hes]. apply (cwp_makes b); [done..|]. intros d c1 H1' Hd.
    pose proof (still_st _ _ _ H1') as Hst1. pose proof H1' as [Hs1 Hr1]. destruct targets as [|targets].
    { eapply cwp_bind; [by apply (wp_drop_value b)|]. intros [] c2 [Hs2 Hr2].
      eapply cwp_mono; [apply (IH O c2 Hes), Hs2|]. intros rs c3 (Hs3 & Ht3 & Hl3).
      split; [steps|]. split; [|intros _; apply Hl3; by right]. eapply taken_ext; [|exact Ht3].
      intros j. by rewrite Hr2, Hr1. }
    destruct values as [|e' values].
    + apply wp_seq, cwp_ok_or. intros n Hn. apply checked_Some in Hn as [Hi ->].
      eapply cwp_bind; [apply (wp_expr_push_count (within := fun _ => True) b); [done..|int_lia]|]. intros r c2 (Hs2 & Er & Hlt & Ht & Hr2).
      pose proof (top_bound _ _ _ Hst1). pose proof (core_bound _ _ _ (inv_core _ _ _ (proj1 Hst1))).
      destruct (register_range_spec (ri r) (S targets)) as (rs & E & Hl & Hnd & Hin); [lia|lia|].
      eapply wp_lift; [exact E|]. split; [steps|]. split; [|done]. rewrite Er in Hin. split; [done|]. split.
      * intros r' Hr'. rewrite <- Hr1. destruct (regs c1 (ri r')) eqn:Eu; [|done].
        pose proof (regs_range _ _ _ _ Hst1 Eu). assert (Hj : ri r' ∈ map ri rs) by by apply list_elem_of_fmap_2.
        apply Hin in Hj. lia.
      * intros j. rewrite Hr2, Hr1. f_equal. destruct (bool_decide_reflect (j ∈ map ri rs)) as [Hj|Hj]; rewrite Hin in Hj;
          destruct (Z.leb_spec (top c1) j), (Z.ltb_spec j (top c1 + Z.of_nat (S targets))); cbn; (done || lia).
    + eapply cwp_bind; [by apply (discharges (Recursion := recursion_whole) d b c1 ExprDestination.AllocateNew)|].
      intros r c2 [Hs2 [Hf Hw]]. eapply cwp_bind; [apply (IH targets c2 Hes), Hs2|]. intros rs c3 (Hs3 & Ht3 & Hl3).
      apply cwp_ret. split; [steps|]. split; [|intros _; cbn; f_equal; by apply Hl3; left].
      apply taken_cons; [destruct Hf as [Hf _]; by rewrite <- Hr1|]. eapply taken_ext; [|exact Ht3].
      intros j. by rewrite Hw, Hr1.
Qed.

(** The registers go to the targets from the last one on and are given back. *)
Lemma wp_assign_registers b targets : forall rs F c, Forall (Canonical.target E_ok) targets -> st b 0 c ->
  length rs = length targets -> taken rs F c -> (forall j, 0 <= j < b -> F j = true) ->
  wp (assign_registers expression rs targets) c (fun _ c' => step b 0 c c' /\ forall j, regs c' j = F j).
Proof.
  induction targets as [|t targets IH]; intros rs F c Ht Hst Hl Hk Hb; destruct rs as [|r rs]; try done.
  - apply cwp_ret. split; [by split|]. intros j. destruct Hk as (_ & _ & ->). cbn. by rewrite bool_decide_eq_false_2 by apply not_elem_of_nil.
  - apply Forall_cons in Ht as [Ht Hts]. cbn [assign_registers]. apply taken_uncons in Hk as [HFr Hk].
    eapply cwp_bind; [apply (IH rs (fun j => (j =? ri r) || F j) c Hts Hst); [by injection Hl|exact Hk|]|].
    { intros j Hj. rewrite (Hb j Hj). apply orb_true_r. }
    intros [] c1 [Hs1 Hr1]. assert (Hu1 : regs c1 (ri r) = true) by by rewrite Hr1, Z.eqb_refl.
    eapply cwp_bind; [by apply (wp_assign b c1); [|apply Hs1|]|]. intros [] c2 [Hs2 Hr2].
    assert (b <= ri r).
    { pose proof (regs_range _ _ _ _ (proj1 Hs1) Hu1). destruct (Z.lt_ge_cases (ri r) b); [|done].
      rewrite Hb in HFr by lia. done. }
    apply (wp_free b 0); [apply Hs2|by rewrite Hr2|done|]. intros c3 Hs3 Hr3. split; [steps|].
    intros j. rewrite Hr3, Hr2, Hr1. destruct (Z.eqb_spec j (ri r)) as [->|]; [by rewrite HFr|done].
Qed.

Lemma compiles_assignment targets values : Forall (Canonical.target E_ok) targets -> values <> [] ->
  Forall (fun e => makes (expression e)) values -> runs (assignment_statement expression targets values).
Proof.
  intros Ht Hne Hv. apply runs_still. intros b c Hst. unfold assignment_statement.
  destruct values as [|e values]; [done|]. set (vs := e :: values).
  assert (Hgen : wp (bind (assignment_values expression (length targets) vs) (fun rs => assign_registers expression rs targets)) c
    (fun _ c' => still b c c')).
  { eapply cwp_bind; [by apply (wp_assignment_values b vs)|]. intros rs c1 (Hs1 & Hk & Hl).
    eapply cwp_mono; [apply (wp_assign_registers b targets rs (regs c) c1 Ht); [apply Hs1|apply Hl; by left|done|]|].
    - intros j Hj. by apply (st_used _ _ _ _ Hst).
    - intros [] c2 [Hs2 Hr2]. split; [steps|done]. }
  destruct targets as [|t [|t' targets]]; [exact Hgen| |exact Hgen]. clear Hgen.
  apply Forall_cons in Ht as [Ht _]. apply Forall_cons in Hv as [Hv Hvs].
  apply (cwp_makes b); [done..|]. intros d c1 H1' Hd.
  eapply cwp_bind; [apply (wp_assign b c1); [done|by eapply still_st|done]|]. intros [] c2 H2'.
  pose proof (still_trans _ _ _ _ H1' H2') as H02. apply (wp_after b c c2); [done|].
  apply wp_drop_values; [done|by eapply still_st].
Qed.

(** ** Local variables *)
Lemma pushed_from b n c c1 r c2 : st b 0 c -> still b c c1 -> pushed b n c1 r c2 -> pushed b n c r c2.
Proof.
  intros Hst Hs Hp. pose proof (still_top _ _ _ Hst Hs) as Et. destruct Hs as [Hs Hr].
  eapply (pushed_after b n c c1 r r c2); [done..| |exact Hp]. destruct Hp as (_ & -> & _). exact Et.
Qed.

Lemma runs_local_values values : forall names, Forall (fun e => makes (expression e)) values ->
  runs (local_values expression names values).
Proof.
  induction values as [|e values IH]; intros names He; cbn [local_values]; [apply compiles_ret|].
  apply Forall_cons in He as [He Hes]. intros b c Hs. pose proof (proj1 Hs) as Hst.
  apply (cwp_makes b); [done..|]. intros d c1 H1' Hd. pose proof (still_st _ _ _ H1') as Hst1.
  destruct names as [|[name attr] names].
  - eapply cwp_bind; [by apply (wp_drop_value b)|]. intros [] c2 H2'.
    assert (Hk : kept (uid c) b c c2) by (apply still_kept; [done|by eapply still_trans|done]).
    eapply cwp_mono; [apply (IH [] Hes b), Hk|]. intros [] c3 H3'. eapply kept_ran; [exact Hk|].
    eapply ran_le; [|exact H3']. by eapply kept_uid.
  - destruct values as [|e' values].
    + apply wp_seq, cwp_ok_or. intros n Hn. apply checked_Some in Hn as [Hi ->].
      eapply cwp_bind; [apply (wp_expr_push_count (within := fun _ => True) b); [done..|cbn [length] in *; int_lia]|].
      intros r c2 Hp. apply (wp_declare_names (uid c) b c r c2); [done|by eapply pushed_from|done|].
      intros c3 H3' _. by eexists.
    + eapply cwp_bind; [by apply (discharges (Recursion := recursion_whole) d b c1 ExprDestination.PushNew)|].
      intros r c2 Hp%placed_pushed. apply wp_seq, (wp_declare (uid c) b c r c2); [done|by eapply pushed_from|done|].
      intros c3 H3' _. eapply cwp_mono; [apply (IH names Hes (b + 1)), H3'|]. intros [] c4. by apply ran_seq.
Qed.

Lemma compiles_local names values : Forall (fun e => makes (expression e)) values ->
  runs (local_statement expression names values).
Proof.
  intros Hv b c Hs. unfold local_statement. case_bool; [done|]. case_bool; [done|].
  destruct values as [|e values]; [|by apply (runs_local_values _ names Hv b)].
  apply wp_seq, cwp_ok_or. intros n Hn. apply checked_Some in Hn as [Hi ->].
  apply wp_seq, (wp_push_or b 0); [apply Hs|int_lia|]. intros r c1 Hs1 Er Hpos Hlt Ht Hsz Hr.
  assert (Hp : pushed b (Z.of_nat (length names)) c r c1) by by split_and!.
  apply wp_seq, (wp_emit_plain b); [apply Hs1| |intros i; cbn; lia|].
  { split; [done|]. eapply pushed_block; [apply Hs|exact Hp|lia]. }
  intros c2 Hs2 Hr2. apply (wp_declare_names (uid c) b c r c2); [done|by eapply pushed_then|done|].
  intros c3 H3' _. by eexists.
Qed.

(** ** Functions *)
Lemma wp_function_path b fields : forall table name c, st b 0 c ->
  match table with Some t => dok c t | None => True end ->
  wp (function_path table name fields) c (fun x c' => still b c c' /\ match x.1 with Some t => dok c' t | None => True end).
Proof.
  induction fields as [|field fields IH]; intros table name c Hst Ht; cbn [function_path].
  - apply cwp_ret. split; [by apply still_refl|done].
  - assert (Hm : wp (match table with
      | Some table => ret (ExprDescriptor.TableField table (string_constant name))
      | None => bind (find_variable name) (fun v => ret (ExprDescriptor.Variable_ v)) end) c
      (fun d c' => still b c c' /\ dok c' d)).
    { destruct table as [t|]; [|by apply makes_variable]. apply cwp_ret. split; [by apply still_refl|done]. }
    eapply cwp_bind; [exact Hm|]. intros d c1 [H1' Hd].
    eapply cwp_mono; [apply (IH (Some d) field c1); [by eapply still_st|done]|].
    intros r c2 [H2' Hr]. split; [by eapply still_trans|done].
Qed.

Lemma wp_prototype {A} b c reference params va body (k : PrototypeIndex -> M A) (Q : A -> compiler -> Prop) :
  Canonical.block_ S_ok E_ok body -> st b 0 c ->
  (forall p c', still b c c' -> dok c' (ExprDescriptor.Closure p) -> wp (k p) c' Q) ->
  wp (bind (new_prototype block_statements reference params va body) k) c Q.
Proof.
  intros Hb Hst HQ. apply wp_seq, (wp_new_prototype b); [by apply HB|done|]. intros p c' Hs Hr Hp. by apply HQ.
Qed.

Lemma compiles_function name fields method definition : Canonical.definition S_ok E_ok definition ->
  runs (function_statement block_statements name fields method definition).
Proof.
  destruct definition as [line params va body]. intros Hd. apply runs_still. intros b c Hst. unfold function_statement.
  eapply cwp_bind; [by apply (wp_function_path b)|]. intros [table name'] c1 [H1' Ht]. cbn [fst] in Ht.
  eapply (cwp_bind _ _ _ (fun _ c' => still b c1 c')).
  { pose proof (still_st _ _ _ H1'). destruct method; [|by apply cwp_ret, still_refl].
    apply wp_seq, (wp_intern b 0); [done|]. intros self c' ? ? _. by apply cwp_ret. }
  intros params' c2 H2'. apply (wp_prototype b); [done|by eapply still_st|]. intros p c3 H3' Hp.
  pose proof (still_trans _ _ _ _ H2' H3') as H13. pose proof (still_trans _ _ _ _ H1' H13) as H03.
  pose proof (still_st _ _ _ H03) as Hst3. apply (wp_after b c c3); [done|]. destruct table as [t|].
  - apply wp_to_table; [done|exact (dok_still _ _ _ _ H13 Ht)|done|done].
  - apply wp_seq, (wp_find_variable b 0); [done|]. intros v c4 Hs4 Hr4 Hv _ _. assert (H4' : still b c3 c4) by done.
    pose proof (still_st _ _ _ H4') as Hst4. pose proof (dok_still _ _ _ _ H4' Hp) as Hp4.
    apply (wp_after b c3 c4); [done|].
    destruct v as [dest a|dest a|g]; [case_bool; [done|by apply wp_to_register]|case_bool; [done|]|by apply wp_to_environment].
    by apply wp_new_to_upvalue.
Qed.

Lemma compiles_local_function name definition : Canonical.definition S_ok E_ok definition ->
  runs (local_function_statement block_statements name definition).
Proof.
  destruct definition as [line params va body]. intros Hd b c Hs. unfold local_function_statement.
  eapply cwp_bind; [apply (wp_push_pushed b); [apply Hs|lia]|]. intros r c1 Hp.
  apply wp_seq, (wp_declare (uid c) b c r c1); [done..|]. intros c2 H2' Es.
  pose proof (sm_st _ _ _ _ _ H2') as Hs2. apply (wp_prototype (b + 1)); [done|apply Hs2|]. intros p c3 H3' Hpr.
  assert (Hr : reg_ok (csizes c3) r).
  { eapply reg_ok_le; [by apply still_grows in H3' as [_ ?]|]. rewrite Es.
    pose proof (pushed_block _ _ _ _ _ (proj1 Hs) Hp ltac:(lia)) as Hbl. unfold block_ok, reg_ok in *. lia. }
  apply (wp_emit_plain (b + 1)); [by eapply still_st|by split|intros i; cbn; lia|]. intros c4 Hs4 Hr4.
  exists (b + 1). eapply stmts_then_kept; [exact H2'| |by eapply stmts_uid].
  apply (still_kept (uid c2)); [done| |done]. eapply still_trans; [exact H3'|by split].
Qed.

(** ** Calls *)
Lemma compiles_call head call_ : Canonical.suffixed E_ok head -> Canonical.call_suffix E_ok call_ ->
  runs (function_call_statement expression head call_).
Proof.
  intros Hh Hc. apply runs_still. intros b c Hst. unfold function_call_statement.
  apply (cwp_makes b); [by eapply (builds_suffixed E_ok)|done|]. intros d c1 H1' Hd. pose proof (still_st _ _ _ H1') as Hst1.
  destruct (constant_field 0) as (v & Ev & Hwf & _); [lia|].
  destruct call_ as [m args|args]; (eapply cwp_bind; [apply (wp_collect b); [by eapply (builds_arguments E_ok)|done]|]);
    intros ds c2 [H2' Hds]; pose proof (still_st _ _ _ H2') as Hst2; pose proof (dok_still _ _ _ _ H2' Hd) as Hd2;
    (apply wp_seq; eapply wp_lift; [exact Ev|]).
  - eapply cwp_bind; [by apply (invokes (Recursion := recursion_whole) d (string_constant m) ds (CallMode.Call v) b c2)|].
    intros r c3 H3'%called_still. apply cwp_ret. eapply still_trans; [exact H1'|by eapply still_trans].
  - eapply cwp_bind; [by apply (calls (Recursion := recursion_whole) d ds (CallMode.Call v) b c2)|].
    intros r c3 H3'%called_still. apply cwp_ret. eapply still_trans; [exact H1'|by eapply still_trans].
Qed.
End parts.
End CompilerAssign.
End CompilerAssign.
