(* ===== verification/CompilerGuards.v ===== *)
(** * The guarded compiler and the code

    Where the guarded compiler does not refuse, the code does the same: every operation with
    the guards on is the operation with the guards off, up to the first guard that stops it. *)

From S2P Require Import Prelude Float64 Lexer Opcode Constant Operators Parser ParserFacts RegisterAllocator CompilerState CompilerExpr Compiler CompilerFacts.
Import Ast Compiler Discharge Compile.

(** The compiler of the source: no guard stops it. *)
Definition unguarded : Guards := {| guarded := false |}.

Module CompilerGuards.
Section CompilerGuards.
Context `{BuildProfile} `{FloatLib} `{StringInterner}.
Abbreviation descriptor := (ExprDescriptor.t IString).

(** [m], with the guards on and off *)
Definition refines {A} (m : Guards -> M A) : Prop :=
  forall c, (exists c', m checking c = Ok (inr Refused, c')) \/ m checking c = m unguarded c.

Lemma refines_same {A} (m : M A) : refines (fun _ => m).
Proof. by right. Qed.

Lemma refines_bind {A B} (m : Guards -> M A) (k : Guards -> A -> M B) :
  refines m -> (forall a, refines (fun g => k g a)) -> refines (fun g => bind (m g) (k g)).
Proof.
  intros Hm Hk c. unfold bind. destruct (Hm c) as [(c' & E)|E]; rewrite E.
  - left. by exists c'.
  - destruct (m unguarded c) as [[[a|e] c']|]; cbn; [|by right..]. apply (Hk a c').
Qed.

Lemma refines_guard p : refines (fun _ => guard p).
Proof. intros c. destruct p; [by right|]. left. by exists c. Qed.
End CompilerGuards.

Create HintDb guards.
#[export] Hint Resolve refines_guard : guards.

Ltac refines :=
  repeat match goal with
  | |- refines (fun _ => ?m) => apply (refines_same m)
  | |- _ => solve [eauto 3 with guards nocore]
  | |- refines (fun g => bind _ _) => apply refines_bind; [|intros ?]
  | |- refines (fun g => match ?x with _ => _ end) => destruct x
  end.

Section operations.
Context `{BuildProfile} `{FloatLib} `{StringInterner}.
Abbreviation descriptor := (ExprDescriptor.t IString).

Lemma refines_push size : refines (fun _ => push size).
Proof. unfold push. refines. Qed.
#[local] Hint Resolve refines_push : guards.
Lemma refines_push_or size : refines (fun _ => push_or size).
Proof. unfold push_or. refines. Qed.
#[local] Hint Resolve refines_push_or : guards.
Lemma refines_new_destination dest : refines (fun _ => new_destination dest).
Proof. unfold new_destination. refines. Qed.
#[local] Hint Resolve refines_new_destination : guards.
Lemma refines_for_each {A} (f : Guards -> A -> M unit) l : (forall x, refines (fun g => f g x)) ->
  refines (fun g => for_each (f g) l).
Proof. intros Hf. induction l as [|x l IH]; cbn [for_each]; refines. Qed.
#[local] Hint Resolve refines_for_each : guards.
Lemma refines_resolve n t p : refines (fun _ => resolve n t p).
Proof. unfold resolve. refines. Qed.
#[local] Hint Resolve refines_resolve : guards.
Lemma refines_jump_target l : refines (fun _ => jump_target l).
Proof. unfold jump_target. refines. Qed.
#[local] Hint Resolve refines_jump_target : guards.

(** ** Descriptors *)
Section bodies.
Context (discharge_ : Guards -> descriptor -> ExprDestination.t -> M RegisterIndex).
Context (call_ : Guards -> descriptor -> list descriptor -> CallMode.t -> M RegisterIndex).
Context (invoke_ : Guards -> descriptor -> descriptor -> list descriptor -> CallMode.t -> M RegisterIndex).
Hypothesis Hdischarge : forall e dest, refines (fun g => discharge_ g e dest).
Hypothesis Hcall : forall f args mode, refines (fun g => call_ g f args mode).
Hypothesis Hinvoke : forall t m args mode, refines (fun g => invoke_ g t m args mode).
#[local] Hint Resolve Hdischarge Hcall Hinvoke : guards.

Lemma refines_any_register e : refines (fun g => expr_any_register (discharge_ g) e).
Proof. unfold expr_any_register. refines. Qed.
#[local] Hint Resolve refines_any_register : guards.
Lemma refines_register_or_constant e : refines (fun g => expr_any_register_or_constant (discharge_ g) e).
Proof. unfold expr_any_register_or_constant. refines. Qed.
#[local] Hint Resolve refines_register_or_constant : guards.
Lemma refines_operands x y : refines (fun g => operands (discharge_ g) x y).
Proof. unfold operands. refines. Qed.
#[local] Hint Resolve refines_operands : guards.
Lemma refines_get_table t k dest : refines (fun g => get_table (discharge_ g) t k dest).
Proof. unfold get_table. refines. Qed.
#[local] Hint Resolve refines_get_table : guards.
Lemma refines_set_rtable t k v : refines (fun g => set_rtable (discharge_ g) t k v).
Proof. unfold set_rtable. refines. Qed.
#[local] Hint Resolve refines_set_rtable : guards.
Lemma refines_set_uptable t k v : refines (fun g => set_uptable (discharge_ g) t k v).
Proof. unfold set_uptable. refines. Qed.
#[local] Hint Resolve refines_set_uptable : guards.
Lemma refines_set_table t k v : refines (fun g => set_table (discharge_ g) t k v).
Proof. unfold set_table. refines. Qed.
#[local] Hint Resolve refines_set_table : guards.
Lemma refines_push_last t n e : refines (fun g => push_last (discharge_ g) (call_ g) (invoke_ g) t n e).
Proof. unfold push_last. refines. Qed.
#[local] Hint Resolve refines_push_last : guards.
Lemma refines_push_args t n args : refines (fun g => push_args (discharge_ g) (call_ g) (invoke_ g) t n args).
Proof. induction args as [|e [|e' args] IH]; cbn [push_args]; refines. Qed.
#[local] Hint Resolve refines_push_args : guards.
Lemma refines_push_arguments args : refines (fun g => push_arguments (discharge_ g) (call_ g) (invoke_ g) args).
Proof. unfold push_arguments. refines. Qed.
#[local] Hint Resolve refines_push_arguments : guards.
Lemma refines_call_function_body f args mode :
  refines (fun g => call_function_body (discharge_ g) (call_ g) (invoke_ g) f args mode).
Proof. unfold call_function_body. refines. Qed.
Lemma refines_call_method_body t m args mode :
  refines (fun g => call_method_body (discharge_ g) (call_ g) (invoke_ g) t m args mode).
Proof. unfold call_method_body. refines. Qed.
Lemma refines_place_result source dest : refines (fun _ => place_result source dest).
Proof. unfold place_result. refines. Qed.
#[local] Hint Resolve refines_place_result : guards.
Lemma refines_discharge_chunk r i chunk : refines (fun g => discharge_chunk (discharge_ g) r i chunk).
Proof. revert i. induction chunk as [|e chunk IH]; intros i; cbn [discharge_chunk]; refines. Qed.
#[local] Hint Resolve refines_discharge_chunk : guards.
Lemma refines_flush_fields fuel t i fields :
  refines (fun g => flush_fields (discharge_ g) (call_ g) (invoke_ g) fuel t i fields).
Proof. revert fields. induction fuel as [|fuel IH]; intros [|e fields]; cbn [flush_fields]; refines. Qed.
#[local] Hint Resolve refines_flush_fields : guards.
Lemma refines_table_constructor a kvs dest :
  refines (fun g => table_constructor (discharge_ g) (call_ g) (invoke_ g) a kvs dest).
Proof. unfold table_constructor. refines. apply refines_for_each. intros [k v]. refines. Qed.
#[local] Hint Resolve refines_table_constructor : guards.
Lemma refines_concat_rest fuel source count es : refines (fun g => concat_rest (discharge_ g) fuel source count es).
Proof. revert count es. induction fuel as [|fuel IH]; intros count [|e es]; cbn [concat_rest]; refines. Qed.
#[local] Hint Resolve refines_concat_rest : guards.
Lemma refines_concat es dest : refines (fun g => concat (discharge_ g) es dest).
Proof. unfold concat. refines. Qed.
#[local] Hint Resolve refines_concat : guards.
Lemma refines_discharge_constant v dest : refines (fun _ => discharge_constant v dest).
Proof. unfold discharge_constant. refines. Qed.
#[local] Hint Resolve refines_discharge_constant : guards.
Lemma refines_comparison x op y dest : refines (fun g => discharge_comparison (discharge_ g) x op y dest).
Proof. unfold discharge_comparison. refines. Qed.
#[local] Hint Resolve refines_comparison : guards.
Lemma refines_short_circuit x op y dest : refines (fun g => short_circuit (discharge_ g) x op y dest).
Proof. unfold short_circuit. refines. Qed.
#[local] Hint Resolve refines_short_circuit : guards.
Lemma refines_expr_discharge_body e dest :
  refines (fun g => expr_discharge_body (discharge_ g) (call_ g) (invoke_ g) e dest).
Proof. unfold expr_discharge_body. refines. Qed.
Lemma refines_push_count e n : refines (fun g => expr_push_count (discharge_ g) (call_ g) (invoke_ g) e n).
Proof. unfold expr_push_count. refines. Qed.
Lemma refines_gen_comparison x op y skip : refines (fun g => gen_comparison (discharge_ g) x op y skip).
Proof. unfold gen_comparison. refines. Qed.
#[local] Hint Resolve refines_gen_comparison : guards.
Lemma refines_gen_test e skip : refines (fun g => gen_test (discharge_ g) e skip).
Proof. unfold gen_test. refines. Qed.
#[local] Hint Resolve refines_gen_test : guards.
Lemma refines_test e skip : refines (fun g => expr_test (discharge_ g) e skip).
Proof. unfold expr_test. refines. Qed.
End bodies.
Lemma refines_recursion n : (forall e dest, refines (fun _ => discharge n e dest)) /\
  (forall f args mode, refines (fun _ => call n f args mode)) /\
  (forall t m args mode, refines (fun _ => invoke n t m args mode)).
Proof.
  induction n as [|n (IHd & IHc & IHi)]; [by split_and!; intros; apply (refines_same (lift Panic))|].
  split_and!; intros; cbn [discharge call invoke].
  - by apply refines_expr_discharge_body.
  - by apply refines_call_function_body.
  - by apply refines_call_method_body.
Qed.
Lemma refines_discharge e dest : refines (fun _ => expr_discharge e dest).
Proof. apply (refines_recursion (depth e)). Qed.
Lemma refines_call_function f args mode : refines (fun _ => call_function f args mode).
Proof. apply (refines_recursion (call_depth f args)). Qed.
Lemma refines_call_method t m args mode : refines (fun _ => call_method t m args mode).
Proof. apply (refines_recursion (method_depth t m args)). Qed.
End operations.
#[export] Hint Resolve refines_push refines_push_or refines_new_destination refines_for_each refines_jump_target
  refines_discharge refines_call_function refines_call_method refines_any_register refines_set_table
  refines_push_arguments refines_push_count refines_test : guards.

(** ** The tree *)
Section tree.
Context `{BuildProfile} `{FloatLib} `{StringInterner}.
#[local] Existing Instance name_bytes.
Abbreviation descriptor := (ExprDescriptor.t IString).

Definition expression_ok (e : Expression IString) : Prop := refines (fun _ => expression e).
Definition block_ok (b : Block IString) : Prop := refines (fun _ => block_statements b).
Definition statement_ok (s : Statement IString) : Prop := refines (fun _ => statement s).
#[local] Hint Unfold expression_ok block_ok statement_ok : guards.

Lemma refines_fold op x y : refines (fun _ => fold_simple_binop op x y).
Proof. unfold fold_simple_binop. refines. Qed.
#[local] Hint Resolve refines_fold : guards.
Lemma refines_binary x op y : refines (fun _ => binary_operator_expression x op y).
Proof. unfold binary_operator_expression. refines. Qed.
#[local] Hint Resolve refines_binary : guards.

Lemma refines_collect es : Forall expression_ok es -> refines (fun _ => collect expression es).
Proof. induction 1; cbn [collect]; refines. Qed.
#[local] Hint Resolve refines_collect : guards.

Lemma refines_block b : block_ok b -> refines (fun _ => block block_statements b).
Proof. intros Hb. unfold block. refines. Qed.
#[local] Hint Resolve refines_block : guards.
Lemma refines_new_prototype reference params va body : block_ok body ->
  refines (fun _ => new_prototype block_statements reference params va body).
Proof. intros Hb. unfold new_prototype. refines. Qed.
#[local] Hint Resolve refines_new_prototype : guards.

(** ** Statements *)
Lemma refines_return es : Forall expression_ok es -> refines (fun _ => return_statement expression es).
Proof. intros He. unfold return_statement. refines. Qed.
#[local] Hint Resolve refines_return : guards.

Definition part_ok (part : Expression IString * Block IString) : Prop := expression_ok part.1 /\ block_ok part.2.
Lemma refines_if_part e i more part : part_ok part -> refines (fun _ => if_part expression block_statements e i more part).
Proof. destruct part as [cond blk]. intros [Hc Hb]. unfold if_part. refines. Qed.
#[local] Hint Resolve refines_if_part : guards.
Lemma refines_else_if_parts e has_else parts : Forall part_ok parts -> forall i,
  refines (fun _ => else_if_parts expression block_statements e i has_else parts).
Proof. induction 1; intros i; cbn [else_if_parts]; refines. Qed.
#[local] Hint Resolve refines_else_if_parts : guards.
Lemma refines_if first parts else_part : part_ok first -> Forall part_ok parts ->
  match else_part with Some b => block_ok b | None => True end ->
  refines (fun _ => if_statement expression block_statements first parts else_part).
Proof. intros Hf Hp He. unfold if_statement. destruct else_part; refines. Qed.

Lemma refines_while cond blk : expression_ok cond -> block_ok blk ->
  refines (fun _ => while_statement expression block_statements cond blk).
Proof. intros Hc Hb. unfold while_statement. refines. Qed.

Lemma refines_numeric name initial limit step blk : expression_ok initial -> expression_ok limit ->
  match step with Some e => expression_ok e | None => True end -> block_ok blk ->
  refines (fun _ => numeric_for expression block_statements name initial limit step blk).
Proof. intros Hi Hl Hs Hb. unfold numeric_for. destruct step; refines. Qed.

Lemma refines_iterator_values args : Forall expression_ok args -> refines (fun _ => iterator_values expression args).
Proof.
  intros Ha. destruct Ha as [|e1 args H1' Ha]; [apply (refines_same (lift Panic))|].
  destruct Ha as [|e2 args H2' Ha]; cbn [iterator_values]; [refines|]. destruct Ha; refines.
Qed.
#[local] Hint Resolve refines_iterator_values : guards.
Lemma refines_generic names args blk : Forall expression_ok args -> block_ok blk ->
  refines (fun _ => generic_for expression block_statements names args blk).
Proof. intros Ha Hb. unfold generic_for. refines. Qed.

Lemma refines_statements l : Forall (fun s => statement_ok (inner s)) l -> forall skip n,
  refines (fun _ => statements statement skip n l).
Proof. induction 1; intros skip n; cbn [statements]; refines. Qed.
#[local] Hint Resolve refines_statements : guards.
Lemma refines_plain l : Forall (fun s => statement_ok (inner s)) l -> refines (fun _ => plain_statements statement l).
Proof. induction 1; cbn [plain_statements]; refines. Qed.
#[local] Hint Resolve refines_plain : guards.

Lemma refines_repeat stmts_ returns line until : Forall (fun s => statement_ok (inner s)) stmts_ ->
  match returns with Some r => Forall expression_ok (inner r) | None => True end -> expression_ok until ->
  refines (fun _ => repeat_statement expression statement (mk_Block stmts_ returns line) until).
Proof. intros Hs Hr Hu. unfold repeat_statement. destruct returns; refines. Qed.

Lemma refines_block_statements stmts_ returns line : Forall (fun s => statement_ok (inner s)) stmts_ ->
  match returns with Some r => Forall expression_ok (inner r) | None => True end ->
  block_ok (mk_Block stmts_ returns line).
Proof. intros Hs Hr. unfold block_ok. cbn [block_statements block_statements_body]. destruct returns; refines. Qed.

Lemma refines_drop_value d : refines (fun _ => drop_value d).
Proof. unfold drop_value. refines. Qed.
#[local] Hint Resolve refines_drop_value : guards.
Lemma refines_drop_values es : Forall expression_ok es -> refines (fun _ => drop_values expression es).
Proof. induction 1; cbn [drop_values]; refines. Qed.
#[local] Hint Resolve refines_drop_values : guards.
Lemma refines_local_values es : Forall expression_ok es -> forall names,
  refines (fun _ => local_values expression names es).
Proof. induction 1; intros names; cbn [local_values]; refines. Qed.
#[local] Hint Resolve refines_local_values : guards.
Lemma refines_local names es : Forall expression_ok es -> refines (fun _ => local_statement expression names es).
Proof. intros He. unfold local_statement. refines. Qed.
Lemma refines_assignment_values es : Forall expression_ok es -> forall n,
  refines (fun _ => assignment_values expression n es).
Proof. induction 1; intros n; cbn [assignment_values]; refines. Qed.
#[local] Hint Resolve refines_assignment_values : guards.
(** ** The parts that contain expressions *)
Section parts.
Context (S_ok : Z -> Statement IString -> Prop) (E_ok : Z -> Expression IString -> Prop).
Hypothesis HE : forall p e, E_ok p e -> expression_ok e.
Hypothesis HS : forall line s, S_ok line s -> statement_ok s.
#[local] Hint Unfold Canonical.expr : guards.

Lemma expressions_ok es : Forall (Canonical.expr E_ok) es -> Forall expression_ok es.
Proof. intros He. eapply Forall_impl; [exact He|]. intros e. apply HE. Qed.

Lemma block_of b : Canonical.block_ S_ok E_ok b -> block_ok b.
Proof.
  destruct b as [stmts_ returns line]. intros [Hs Hr]. apply refines_block_statements.
  - eapply Forall_impl; [exact Hs|]. intros s. apply HS.
  - destruct returns; [by apply expressions_ok|done].
Qed.

Lemma refines_key k : Canonical.key E_ok k -> refines (fun _ => record_key expression k).
Proof. intros Hk. destruct k as [s|e]; cbn [record_key]; [refines|by eapply HE]. Qed.
#[local] Hint Resolve refines_key : guards.
Lemma refines_fields fields : Forall (Canonical.field E_ok) fields -> refines (fun _ => constructor_fields expression fields).
Proof.
  induction 1 as [|[e|k e] fields Hf Hfs IH]; cbn [constructor_fields]; [refines|..].
  - apply HE in Hf. refines.
  - destruct Hf as [Hk He%HE]. refines.
Qed.
#[local] Hint Resolve refines_fields : guards.
Lemma refines_table fields : Forall (Canonical.field E_ok) fields -> refines (fun _ => table_constructor_expression expression fields).
Proof. intros Hf. unfold table_constructor_expression. refines. Qed.
#[local] Hint Resolve refines_table : guards.

Lemma refines_arguments args : Canonical.arguments E_ok args -> Forall expression_ok args.
Proof.
  intros Ha. assert (Hgen : Forall (Canonical.expr E_ok) args -> Forall expression_ok args) by apply expressions_ok.
  destruct args as [|[head tail] rest]; [done|]. destruct head as [e|op x]; [|by apply Hgen].
  destruct e as [| |s| | | | |fields| |]; try by apply Hgen.
  all: destruct tail; [|by apply Hgen]; destruct rest; [|by apply Hgen].
  all: apply Forall_singleton; unfold expression_ok; cbn; refines.
Qed.

Lemma refines_field_key k : Canonical.field_suffix E_ok k -> refines (fun _ => field_key expression k).
Proof. intros Hk. destruct k as [s|e]; cbn [field_key]; [refines|by eapply HE]. Qed.
#[local] Hint Resolve refines_field_key : guards.

Lemma refines_suffixes parts : Forall (Canonical.suffix E_ok) parts -> forall d,
  refines (fun _ => suffixes expression d parts).
Proof.
  induction 1 as [|[k|[m args|args]] parts Hp Hps IH]; intros d; cbn [suffixes]; [refines..| |].
  all: apply refines_arguments in Hp; refines.
Qed.
#[local] Hint Resolve refines_suffixes : guards.

Lemma refines_suffixed e : Canonical.suffixed E_ok e -> refines (fun _ => suffixed_expression expression e).
Proof.
  destruct e as [p parts]. intros [Hp Hps]. unfold suffixed_expression, primary_expression.
  destruct p as [name|e]; [refines|]. apply HE in Hp. refines.
Qed.
#[local] Hint Resolve refines_suffixed : guards.

Lemma refines_simple e : Canonical.simple S_ok E_ok e -> refines (fun _ => simple_expression expression block_statements e).
Proof.
  intros He. destruct e as [| | | | | | |fields|d|e]; cbn [simple_expression]; try refines.
  destruct d as [line params va body]. apply block_of in He. unfold function_expression. refines.
Qed.
#[local] Hint Resolve refines_simple : guards.

Lemma refines_operators p tail : forall limit d, Canonical.chain E_ok p limit tail ->
  refines (fun _ => operators expression d tail).
Proof.
  induction tail as [|[op e] tail IH]; intros limit d Ht; cbn [operators]; [refines|].
  destruct Ht as (_ & He%HE & Ht). refines.
Qed.

Lemma refines_expression p e : Canonical.expression_body S_ok E_ok p e -> expression_ok e.
Proof.
  destruct e as [head tail]. intros He. unfold expression_ok. cbn [expression expression_body].
  destruct head as [e|op e]; destruct He as [He Ht]; cbn [head_expression];
    (apply refines_bind; [|intros d; by eapply refines_operators]); [refines|]. apply HE in He. refines.
Qed.

(** ** Statements with expressions inside *)
Lemma refines_assign t d : Canonical.target E_ok t -> refines (fun _ => assign expression t d).
Proof. intros Ht. destruct t as [name|e f]; cbn [assign]; [refines|]. destruct Ht. refines. Qed.
#[local] Hint Resolve refines_assign : guards.
Lemma refines_assign_registers ts : Forall (Canonical.target E_ok) ts -> forall rs,
  refines (fun _ => assign_registers expression rs ts).
Proof. induction 1; intros [|r rs]; cbn [assign_registers]; refines. Qed.
#[local] Hint Resolve refines_assign_registers : guards.
Lemma refines_assignment ts es : Forall (Canonical.target E_ok) ts -> Forall expression_ok es ->
  refines (fun _ => assignment_statement expression ts es).
Proof.
  intros Ht He. unfold assignment_statement. destruct es as [|e es]; [refines|]. pose proof He as [He' Hes]%Forall_cons.
  destruct ts as [|t [|t' ts]]; [|apply Forall_cons in Ht as [Ht _]|]; refines.
Qed.

Lemma refines_function name fields method d : Canonical.definition S_ok E_ok d ->
  refines (fun _ => function_statement block_statements name fields method d).
Proof. destruct d as [line params va body]. intros Hb%block_of. unfold function_statement. refines. Qed.
Lemma refines_local_function name d : Canonical.definition S_ok E_ok d ->
  refines (fun _ => local_function_statement block_statements name d).
Proof. destruct d as [line params va body]. intros Hb%block_of. unfold local_function_statement. refines. Qed.

Lemma refines_call head call : Canonical.suffixed E_ok head -> Canonical.call_suffix E_ok call ->
  refines (fun _ => function_call_statement expression head call).
Proof.
  intros Hh Hc. unfold function_call_statement. destruct call as [m args|args]; apply refines_arguments in Hc; refines.
Qed.

Lemma refines_statement line s : Canonical.statement_body S_ok E_ok line s -> statement_ok s.
Proof.
  destruct s as [[cond blk] parts else_part|cond blk|blk|loop|body until|name fields method d|name d|names values|name| |name|head call_|targets values];
    cbn [Canonical.statement_body]; intros Hs; unfold statement_ok; cbn [statement statement_body].
  - destruct Hs as ([Hc Hb] & Hp & He). apply refines_if; [split; [by eapply HE|by apply block_of]| |].
    + eapply Forall_impl; [exact Hp|]. intros part [? ?]. split; [by eapply HE|by apply block_of].
    + destruct else_part; [by apply block_of|done].
  - destruct Hs. apply refines_while; [by eapply HE|by apply block_of].
  - by apply refines_block, block_of.
  - destruct loop as [name initial limit step blk|names args blk].
    + destruct Hs as (Hi & Hl & Hst & Hb). apply refines_numeric; [by eapply HE..| |by apply block_of].
      destruct step; [by eapply HE|done].
    + destruct Hs as (_ & [_ Ha] & Hb). apply refines_generic; [by apply expressions_ok|by apply block_of].
  - destruct body as [stmts_ returns line']. destruct Hs as [[Hb Hr] Hu]. apply refines_repeat; [| |by eapply HE].
    + eapply Forall_impl; [exact Hb|]. intros s. apply HS.
    + destruct returns; [by apply expressions_ok|done].
  - destruct Hs as [_ Hd]. by apply refines_function.
  - by apply refines_local_function.
  - destruct Hs as (_ & _ & Hv). by apply refines_local, expressions_ok.
  - refines.
  - refines.
  - refines.
  - destruct Hs. by apply refines_call.
  - destruct Hs as [[_ Ht] [_ Hv]]. by apply refines_assignment; [|apply expressions_ok].
Qed.
End parts.

Lemma canonical_refines g :
  (forall line s, Canonical.canonical_statement g line s -> statement_ok s) /\
  (forall p e, Canonical.canonical_expression g p e -> expression_ok e).
Proof.
  induction g as [|g [IHs IHe]]; [done|]. split.
  - intros line s. by apply refines_statement.
  - intros p e. by eapply refines_expression.
Qed.

(** ** A chunk *)
Definition refused (r : CompiledPrototype IString + CompileError) : Prop :=
  exists line, r = inr (mk_CompileError Refused line).

Lemma compile_refines chunk strings r : Canonical.canonical_chunk chunk -> compile_guarded chunk strings = Ok r ->
  refused r \/ compile_chunk chunk strings = Ok r.
Proof.
  intros Hc. unfold compile_guarded, compile_chunk, compile.
  destruct (start FunctionRef.Chunk [] true) as [[f|e]|]; [|done..]. rewrite !outcome_bind_Ok.
  destruct (canonical_refines Parser.guards) as [HS HE].
  pose proof (refines_block _ (block_of _ _ HE HS _ Hc) (mk_compiler strings f [])) as Hr.
  unfold checking, unguarded in Hr. destruct Hr as [(c' & E)|E]; rewrite E; [|intros Hq; right; exact Hq].
  rewrite outcome_bind_Ok. intros [= <-]. left. by eexists.
Qed.
End tree.
End CompilerGuards.
