(* ===== verification/CompilerTheorems.v ===== *)
(** * The compiler is safe

    On every tree the parser makes: each statement and each expression keeps the compiler's
    invariant, and what comes out is well-formed. *)

From stdpp Require Import sorting.
From S2P Require Import Prelude Float64 Lexer LexerTheorems Opcode Constant Operators Parser ParserFacts RegisterAllocator CompilerState CompilerExpr Compiler CompilerCode CompilerFacts CompilerSteps CompilerJumps CompilerDischarge CompilerValues CompilerFunctions CompilerTree CompilerStatements CompilerLoops CompilerAssign CompilerGuards.
Import Ast Compiler Discharge Compile CompilerFacts CompilerSteps CompilerJumps CompilerDischarge CompilerValues CompilerFunctions CompilerTree CompilerStatements CompilerLoops CompilerAssign CompilerGuards.

Module CompilerTheorems.
Section CompilerTheorems.
Context `{BuildProfile} `{FloatLib} `{StringInterner}.
#[local] Existing Instance checking.
#[local] Existing Instance name_bytes.
Abbreviation cur := current_function.

(** ** Every tree *)
Lemma runs_block_ (S_ok : Z -> Statement IString -> Prop) (E_ok : Z -> Expression IString -> Prop) blk :
  (forall line s, S_ok line s -> runs (statement s)) -> (forall p e, E_ok p e -> makes (expression e)) ->
  Canonical.block_ S_ok E_ok blk -> runs (block_statements blk).
Proof.
  intros HS HE. destruct blk as [stmts_ returns line]. intros [Hs Hr]. apply runs_block_statements.
  - eapply Forall_impl; [exact Hs|]. intros s. apply HS.
  - destruct returns; [|done]. eapply Forall_impl; [exact Hr|]. intros e. apply HE.
Qed.

Lemma compiles_statement (S_ok : Z -> Statement IString -> Prop) (E_ok : Z -> Expression IString -> Prop) line s :
  (forall line s, S_ok line s -> runs (statement s)) -> (forall p e, E_ok p e -> makes (expression e)) ->
  Canonical.statement_body S_ok E_ok line s -> runs (statement s).
Proof.
  intros HS HE. assert (HB : forall blk, Canonical.block_ S_ok E_ok blk -> runs (block_statements blk)).
  { intros blk. by apply runs_block_. }
  destruct s as [[cond blk] parts else_part|cond blk|blk|loop|body until|name fields method d|name d|names values|name| |name|head call_|targets values];
    cbn [Canonical.statement_body]; intros Hs; cbn [statement statement_body].
  - destruct Hs as ([Hc Hb] & Hp & He). apply compiles_if; [by eapply HE|by apply HB| |by destruct else_part; [apply HB|]].
    eapply Forall_impl; [exact Hp|]. intros part [? ?]. split; [by eapply HE|by apply HB].
  - destruct Hs. apply compiles_while; [by eapply HE|by apply HB].
  - by apply compiles_block, HB.
  - by apply (compiles_for loop S_ok E_ok).
  - destruct body as [stmts_ returns line']. destruct Hs as [[Hb Hr] Hu]. apply compiles_repeat; [| |by eapply HE].
    + eapply Forall_impl; [exact Hb|]. intros s. apply HS.
    + destruct returns; [|done]. eapply Forall_impl; [exact Hr|]. intros e. apply HE.
  - destruct Hs as [_ Hd]. by apply (compiles_function S_ok E_ok).
  - by apply (compiles_local_function S_ok E_ok).
  - destruct Hs as (_ & _ & Hv). apply compiles_local. by eapply makes_all.
  - apply compiles_label.
  - apply runs_jump. by intros [? ?].
  - apply runs_jump. by intros [? ?].
  - destruct Hs. by apply (compiles_call E_ok).
  - destruct Hs as [[_ Ht] [Hne Hv]]. apply (compiles_assignment E_ok); [done..|]. by eapply makes_all.
Qed.

Lemma canonical_compiles g :
  (forall line s, Canonical.canonical_statement g line s -> runs (statement s)) /\
  (forall p e, Canonical.canonical_expression g p e -> makes (expression e)).
Proof.
  induction g as [|g [IHs IHe]]; [done|]. split.
  - intros line s. by apply compiles_statement.
  - intros p e. apply builds_expression; [exact IHe|]. intros blk Hb b c Hs. by apply (runs_block_ _ _ blk IHs IHe Hb b).
Qed.

(** ** A chunk *)
Lemma started : exists f, start FunctionRef.Chunk [] true = Ok (inl f) /\ starts 0 f.
Proof.
  destruct (start_function_spec FunctionRef.Chunk [] true) as (r & E & Hs). cbn in E. injection E as <-.
  eexists. split; [reflexivity|]. by apply Hs.
Qed.

(** A chunk captures nothing but its environment. *)
Definition chunk_upvalues (p : CompiledPrototype IString) : Prop := upvalues p = [] \/ upvalues p = [Environment].

Lemma compile_guarded_ok chunk strings : Canonical.canonical_chunk chunk ->
  exists r, compile chunk strings = Ok r /\ forall p, r = inl p -> prototype_wf p /\ chunk_upvalues p.
Proof.
  intros Hc. destruct started as (f & Ef & Hf). unfold compile. rewrite Ef, outcome_bind_Ok.
  set (c0 := mk_compiler strings f []).
  assert (Hw : wp (Compile.block block_statements (Ast.block chunk)) c0 (fun _ c' => ends (uid c0) 0 c0 c')).
  { apply (wp_function_body 0); [|done| |done].
    - split; [apply Hf|apply Hf|constructor|]. split; [|done]. cbn. rewrite (sr_upvalues _ _ Hf). apply only_environment_nil.
    - destruct (canonical_compiles Parser.guards) as [HS HE]. by apply (runs_block_ _ _ _ HS HE). }
  unfold wp in Hw. destruct (Compile.block block_statements (Ast.block chunk) c0) as [[[[]|e] c1]|]; [| |done].
  - destruct (finish_ends _ 0 c0 c1 Hf Hw) as (r & Er & Hr). rewrite outcome_bind_Ok, Er, outcome_bind_Ok.
    eexists. split; [reflexivity|]. intros p. destruct r as [p'|]; [|done]. intros [= <-].
    destruct (Hr p' eq_refl) as [Hwf Eu]. split; [done|]. unfold chunk_upvalues. rewrite Eu.
    pose proof (en_ext _ _ _ _ Hw) as [_ Hup]. pose proof (en_chain _ _ _ _ Hw) as Hch. cbn in Hup.
    destruct (upper_functions c1); [|by inversion Hup]. destruct Hch as [[Hch Hlen] _].
    destruct (f_upvalues _) as [|u [|]]; cbn in *; [by left| |lia]. right. f_equal. by apply Forall_cons in Hch as [[? _] _].
  - rewrite outcome_bind_Ok. eexists. split; [reflexivity|]. done.
Qed.

(** What becomes of text that the parser accepts *)
Lemma compiled_text (text : list Z) (interner strings : InternerState) (chunk : Chunk IString) :
  Z.of_nat (length text) < 2 ^ 31 -> parse_source text interner = Ok (inl chunk) ->
  (exists r, compile_guarded chunk strings = Ok r /\ refused r) \/
  exists r, compile_chunk chunk strings = Ok r /\ forall p, r = inl p -> prototype_wf p /\ chunk_upvalues p.
Proof.
  intros Hlen Hparse.
  destruct (ParserFacts.parse_chunk_ok (Lexer.new text interner : @source IString lexer_source)) as (r' & E & Hc).
  { by apply LexerTheorems.new_wf. }
  assert (Er : Ok (inl chunk) = Ok r') by (rewrite <- Hparse; exact E). injection Er as <-.
  destruct (compile_guarded_ok chunk strings Hc) as (r & E2 & Hr).
  destruct (compile_refines chunk strings r Hc E2) as [?|E']; [left; by exists r|right]. by exists r.
Qed.

(** C11: text that the parser accepts is compiled, unless one of the guards would refuse it: the
    code answers, without a panic, with an error or with a prototype, and the prototype is
    well-formed, with all the functions inside it: registers below the size of the stack,
    constants, upvalues and functions that exist, operands that fit their fields, a jump only
    to an instruction of the function, and a return at the end.  Nothing is captured by a chunk but its
    environment. *)
Theorem compiled_well_formed (text : list Z) (interner strings : InternerState) (chunk : Chunk IString) :
  Z.of_nat (length text) < 2 ^ 31 -> parse_source text interner = Ok (inl chunk) ->
  (exists r, compile_guarded chunk strings = Ok r /\ refused r) \/
  exists r, compile_chunk chunk strings = Ok r /\ forall p, r = inl p -> prototype_wf p /\ chunk_upvalues p.
Proof. apply compiled_text. Qed.

(** C14: the guards only refuse.  On a tree of the parser the compiler with the guards never
    panics, and it does what the code does or stops at the first guard: at a block of
    registers that would end with the last one, at a jump out of a loop to a label below its
    registers, at a constant expression whose value does not fit.  So the code goes wrong
    nowhere else. *)
Theorem guards_only_refuse (chunk : Chunk IString) (strings : InternerState) :
  Canonical.canonical_chunk chunk ->
  exists r, compile_guarded chunk strings = Ok r /\ (refused r \/ compile_chunk chunk strings = Ok r).
Proof.
  intros Hc. destruct (compile_guarded_ok chunk strings Hc) as (r & E & _). exists r. split; [done|].
  by apply compile_refines.
Qed.

End CompilerTheorems.

(** ** Witnesses and findings *)
Section Witnesses.
#[local] Instance checked_build : BuildProfile := {| overflow_checks := true |}.
#[local] Instance example_libm : FloatLib := {| powf := fun x _ => x |}.
#[local] Existing Instances BasicInterner name_bytes checking.
Abbreviation no_strings := (no_strings : InternerState).

Definition parsed (text : list Z) : option (Chunk IString) :=
  match parse_source text no_strings with Ok (inl chunk) => Some chunk | _ => None end.
Definition compiled (text : list Z) : outcome (CompiledPrototype IString + CompileError) :=
  match parsed text with Some chunk => compile_chunk chunk no_strings | None => Panic end.

Lemma parsed_chunk text chunk : Z.of_nat (length text) < 2 ^ 31 -> parsed text = Some chunk ->
  Canonical.canonical_chunk chunk.
Proof.
  intros Hlen. unfold parsed.
  destruct (ParserFacts.parse_chunk_ok (Lexer.new text no_strings : @source IString lexer_source)) as (r & E & Hc).
  { by apply LexerTheorems.new_wf. }
  change (parse_source text no_strings = Ok r) in E. rewrite E. destruct r; [|done]. by intros [= <-].
Qed.

Definition counting : list Z := bs# "local n = 0; for i = 1, 10 do n = n + i end; return function() return n end".

Lemma compiled_well_formed_witness : exists p, compiled counting = Ok (inl p) /\ prototype_wf p.
Proof.
  destruct (parsed counting) as [chunk|] eqn:Ep; [|by vm_compute in Ep].
  assert (Eq : parse_source counting no_strings = Ok (inl chunk)).
  { revert Ep. unfold parsed. destruct (parse_source counting no_strings) as [[c|e]|]; [|done..]. by intros [= ->]. }
  unfold compiled. rewrite Ep. vm_compute in Ep. injection Ep as <-.
  destruct (compiled_well_formed counting no_strings no_strings _ eq_refl Eq) as [(r & E & line & ->)|(r & E & Hr)].
  - exfalso. vm_compute in E. discriminate E.
  - destruct r as [p|e].
    + exists p. split; [exact E|]. by apply Hr.
    + exfalso. vm_compute in E. discriminate E.
Defined.

Lemma guards_only_refuse_witness : exists chunk r, parsed counting = Some chunk /\
  compile_guarded chunk no_strings = Ok r /\ (refused r \/ compile_chunk chunk no_strings = Ok r).
Proof.
  destruct (parsed counting) as [chunk|] eqn:Ep; [|by vm_compute in Ep].
  destruct (guards_only_refuse chunk no_strings) as (r & E & Hr); [exact (parsed_chunk counting chunk eq_refl Ep)|].
  exists chunk, r. split; [exact eq_refl|]. split; [exact E|exact Hr].
Defined.




(** A jump out of a [for] to a label that follows it and is not the last statement *)
Lemma goto_out_of_for : compiled (bs# "for i = 1, 2 do goto done end ::done:: print(1)") = Panic.
Proof. vm_compute. reflexivity. Qed.

(** The instructions of a text *)
Definition code_of (text : list Z) : option (list Operation.t) :=
  match compiled text with Ok (inl p) => Some (map OpCode.decode (opcodes p)) | _ => None end.

(** A [<const>] of a function around may be assigned once it has been read. *)
Lemma const_forgotten :
  code_of (bs# "local x <const> = 1; function f() x = 2 end") = None /\
  is_Some (code_of (bs# "local x <const> = 1; function f() local y = x; x = 2 end")).
Proof. vm_compute. split; [reflexivity|]. eexists. reflexivity. Qed.

(** The second value is read from the first new variable, in register 1, not from the old [a]. *)
Lemma local_sees_itself : option_map (fun l => l !! 2%nat) (code_of (bs# "local a = 5; local a, b = 1, a")) =
  Some (Some (Operation.Move (mk_RegisterIndex 2) (mk_RegisterIndex 1))).
Proof. vm_compute. reflexivity. Qed.

(** The jump back to [top], instruction 8, closes nothing: the closure that captures [x] comes
    after it. *)
Lemma goto_leaves_open : option_map (fun l =>
      match l !! 8%nat with Some (Operation.Jump offset close) => Some (offset, Opt254.to_u8 close) | _ => None end)
    (code_of (bs# "while true do ::top:: local x; while c do if x then goto top end; x = function() return x end end end")) =
  Some (Some (-7, None)).
Proof. vm_compute. reflexivity. Qed.
End Witnesses.
End CompilerTheorems.
