(* ===== verification/Closure.v ===== *)
(** * From source text to a closure: [closure.rs]

    A compiled function becomes a prototype of the machine, and the prototype of a chunk a
    closure over its environment. *)

From S2P Require Import Prelude Float64 Lexer Constant Value Limits MetaOps Opcode Operators Vm Thread Parser RegisterAllocator CompilerState CompilerExpr Compiler.

Inductive CompilerError (S : Type) : Type :=
  | Parsing (e : ParseError S)
  | Compilation (e : CompileError).
Arguments Parsing {S} e.
Arguments Compilation {S} e.

Inductive ClosureError : Type :=
  | HasUpValues
  | RequiresEnv.

Module FunctionPrototype.
Section FunctionPrototype.
Context {A S : Type} (map_string : A -> S).

(** [from_compiled_map_strings]; names, parameters and line numbers, which running the
    function does not need, are left out, and the instructions are decoded once. *)
Fixpoint from_compiled_map_strings (f : CompiledPrototype A) : Thread.FunctionPrototype (S := S) :=
  Thread.mk_FunctionPrototype (fixed_params f) (has_varargs f) (stack_size f)
    (map (Constant.map_string map_string) (constants f)) (map OpCode.decode (opcodes f))
    (upvalues f) (map from_compiled_map_strings (prototypes f)).
End FunctionPrototype.

Section Compile.
Context `{BuildProfile} `{FloatLib} `{StringInterner}.

Definition from_compiled (f : CompiledPrototype IString) : Thread.FunctionPrototype (S := IString) :=
  from_compiled_map_strings (fun s => s) f.

(** [FunctionPrototype::compile]: the interner is a handle of the context, here as it is
    before reading the text and as it is after. *)
Definition compile (source : list Z) (reading compiling : InternerState)
  : outcome (Thread.FunctionPrototype (S := IString) + CompilerError IString) :=
  chunk ← parse_source source reading;
  match chunk with
  | inr e => Ok (inr (Parsing e))
  | inl chunk =>
      compiled ← Compile.compile_chunk chunk compiling;
      match compiled with
      | inr e => Ok (inr (Compilation e))
      | inl f => Ok (inl (from_compiled f))
      end
  end.
End Compile.
End FunctionPrototype.

Module Closure.
Section Closure.
Context {S Sequence Error : Type}.
Abbreviation World := (@Thread.World S Sequence Error).

(** [proto.upvalues[0] != UpValueDescriptor::Environment], negated *)
Definition is_environment (d : UpValueDescriptor) : bool :=
  match d with Environment => true | _ => false end.

(** [Closure::new]: the closure of a chunk; [environment] is its [_ENV] table. *)
Definition new (proto : Thread.FunctionPrototype (S := S)) (environment : option obj) (w : World)
  : (obj + ClosureError) * World :=
  let finish us w :=
    let c := fresh (dom (Thread.closures w)) in
    (inl c, Thread.mk_World (Thread.threads w) (Thread.upvalues w)
       (<[c := Thread.mk_ClosureInner proto us]> (Thread.closures w)) (Thread.memory w)) in
  match Thread.upvalue_descriptors proto with
  | [] => finish [] w
  | d :: ds =>
      if (0 <? length ds)%nat || negb (is_environment d) then (inr HasUpValues, w)
      else
        match environment with
        | None => (inr RequiresEnv, w)
        | Some environment =>
            let '(u, w) := Thread.new_upvalue (Thread.Closed (Value.Table environment)) w in
            finish [u] w
        end
  end.
End Closure.

Section Load.
Context `{BuildProfile} `{FloatLib} `{StringInterner} {Sequence Error : Type}.
Abbreviation World := (@Thread.World IString Sequence Error).

(** [Closure::load_with_env]; [load] gives it the table of globals. *)
Definition load_with_env (source : list Z) (env : obj) (reading compiling : InternerState) (w : World)
  : outcome ((obj + CompilerError IString) * World) :=
  proto ← FunctionPrototype.compile source reading compiling;
  match proto with
  | inr e => Ok (inr e, w)
  | inl proto =>
      match new proto (Some env) w with
      | (inl c, w) => Ok (inl c, w)
      | (inr _, _) => Panic
      end
  end.
End Load.
End Closure.
