(* ===== verification/CompilerRuns.v ===== *)
(** * Compiled code runs

    What the compiler guarantees of its instructions is what the machine needs of them: on a
    frame of a compiled function the next instruction is there, its operands exist, it ends
    without a panic, and the counter stays in the code. *)

From S2P Require Import Prelude Slices Float64 StringUtils Constant ConstantFacts Value Limits RawTable MetaOps Opcode Operators Vm VmFacts VmControl Thread ThreadFacts ThreadCalls ThreadSteps Table RunVm Lexer Parser RegisterAllocator CompilerState CompilerCode Closure RunVmTheorems.

Module CompilerRuns.
Section CompilerRuns.
Context `{BuildProfile} `{FloatLib} {S : Type} `{AsBytes S} {A : Type} (map_string : A -> S).
Abbreviation value := (Value.t S).
Abbreviation registers := (@Vm.registers S).
Implicit Types (q p : CompiledPrototype A) (regs : registers) (op : Operation.t).

(** ** Functions inside a function *)
Inductive inside p : CompiledPrototype A -> Prop :=
  | inside_self : inside p p
  | inside_in q r : inside p q -> r ∈ prototypes q -> inside p r.

Lemma prototype_wf_inv q : prototype_wf q ->
  0 <= fixed_params q <= stack_size q /\ stack_size q <= 256 /\
  Forall (op_ok (prototype_sizes q)) (map OpCode.decode (opcodes q)) /\
  code_ok (-1) (map OpCode.decode (opcodes q)) /\
  last (map OpCode.decode (opcodes q)) = Some (Operation.Return (mk_RegisterIndex 0) (VarCount.VarCount (Opt254.Opt254 0))) /\
  Forall (inner_wf (prototype_sizes q)) (prototypes q).
Proof. destruct q. cbn. intros (? & ? & ? & ? & ? & Hi). split_and!; try done; try lia. by apply inner_wf_all. Qed.

Lemma inside_wf p q : prototype_wf p -> inside p q -> prototype_wf q.
Proof.
  intros Hp. induction 1 as [|q r Hq IH Hr]; [done|]. apply prototype_wf_inv in IH as (_ & _ & _ & _ & _ & Hi).
  by apply (proj1 (Forall_forall _ _) Hi) in Hr as [? _].
Qed.

(** The code of a function, and an instruction in it *)
Definition code q : list Operation.t := map OpCode.decode (opcodes q).
Definition size q : Z := Z.of_nat (length (code q)).

Lemma instruction q i op : prototype_wf q -> code q !! i = Some op ->
  op_ok (prototype_sizes q) op /\ 0 <= op_target (Z.of_nat i) op < size q /\
  (Z.of_nat i + 1 < size q \/ op = Operation.Return (mk_RegisterIndex 0) (VarCount.VarCount (Opt254.Opt254 0))).
Proof.
  intros Hq Hi. apply prototype_wf_inv in Hq as (_ & _ & Hops & Hcode & Hlast & _). fold (code q) in *.
  split; [by apply (Forall_lookup_1 _ _ _ _ Hops Hi)|]. unfold size. split; [specialize (Hcode i op Hi); lia|].
  pose proof (lookup_lt_Some _ _ _ Hi). destruct (decide (i = length (code q) - 1)%nat) as [->|]; [right|left; lia].
  rewrite last_lookup in Hlast. replace (pred (length (code q))) with (length (code q) - 1)%nat in Hlast by lia. congruence.
Qed.

(** ** Operands *)

(** The registers of a frame that is as large as the function asked for *)
Definition full q regs : Prop := length (Vm.stack_frame regs) = Z.to_nat (stack_size q).
Definition constants_of q : list (Constant.t S) := map (Constant.map_string map_string) (constants q).

Lemma full_lookup q regs i : full q regs -> 0 <= i < stack_size q -> is_Some (Vm.stack_frame regs !! Z.to_nat i).
Proof. intros Hf Hi. apply lookup_lt_is_Some. unfold full in Hf. lia. Qed.

Lemma register_exists q regs r : full q regs -> reg_ok (prototype_sizes q) r -> VmFacts.register_ok regs r.
Proof.
  intros Hf Hr. destruct (full_lookup q regs (register_index r) Hf Hr) as [v Hv]. exists v.
  unfold Vm.get_register, Vm.index. by rewrite Hv.
Qed.

Lemma constant_exists q i : 0 <= i < Z.of_nat (length (constants q)) ->
  exists c, Vm.index (constants_of q) i = Ok c.
Proof.
  intros Hi. unfold Vm.index, constants_of. rewrite list_lookup_fmap.
  destruct (lookup_lt_is_Some_2 (constants q) (Z.to_nat i)) as [c ->]; [lia|]. by eexists.
Qed.

Lemma operand_exists q regs rc : full q regs -> rc_ok (prototype_sizes q) rc ->
  VmFacts.operand_ok (constants_of q) regs rc.
Proof.
  intros Hf. destruct rc as [r|c]; cbn; [by apply register_exists|]. intros [Hc Hlt].
  destruct (constant_exists q (constant_index8 c)) as [v Hv]; [revert Hc Hlt; cbn; int_lia|].
  exists (Value.from_constant v). unfold Vm.get_rc. by rewrite Hv.
Qed.

(** ** Instructions on values and on the counter *)

(** The frame is full and the counter in the code. *)
Definition stays q regs : Prop := full q regs /\ 0 <= Vm.pc regs < size q.

Lemma set_written regs d v : VmFacts.register_ok regs d ->
  Vm.set_register regs d v = Ok (Vm.mk_registers (<[Z.to_nat (register_index d) := v]> (Vm.stack_frame regs)) (Vm.pc regs)).
Proof. intros [w Hw]. unfold Vm.set_register. by rewrite Hw. Qed.
Lemma full_insert q regs i v n : full q regs -> full q (Vm.mk_registers (<[i := v]> (Vm.stack_frame regs)) n).
Proof. unfold full. cbn. by rewrite length_insert. Qed.

Lemma set_stays q regs d v : stays q regs -> reg_ok (prototype_sizes q) d ->
  exists r, Vm.set_register regs d v = Ok r /\ stays q r /\ Vm.pc r = Vm.pc regs.
Proof.
  intros [Hf Hp] Hd. rewrite set_written by by eapply register_exists. eexists. split; [reflexivity|].
  by split; [split; [apply full_insert|]|].
Qed.

Context q (Hq : prototype_wf q) (Hsize : stack_size q < 256) (Hcode : size q < 2 ^ 63).

Lemma at_stays regs i v : stays q regs -> 0 <= i < stack_size q ->
  (exists w, Control.get_at regs i = Ok w) /\
  exists r, Control.set_at regs i v = Ok r /\ stays q r /\ Vm.pc r = Vm.pc regs.
Proof.
  intros [Hf Hp] Hi. destruct (full_lookup _ _ _ Hf Hi) as [w Hw]. rewrite (Control.set_at_Ok _ _ _ _ Hw).
  rewrite (Control.get_at_Ok _ _ _ Hw). split; [by eexists|]. eexists. split; [reflexivity|].
  by split; [split; [apply full_insert|]|].
Qed.

Lemma jump_stays regs offset : full q regs -> 0 <= Vm.pc regs <= size q -> offset_ok offset ->
  0 <= Vm.pc regs + offset < size q -> exists r, Control.jump regs offset = Ok r /\ stays q r.
Proof.
  intros Hf Hp [Ho Hn] Ht. exists (Control.set_pc regs (Vm.pc regs + offset)). split; [|by split].
  unfold Control.jump, Control.add_offset. destruct (Z.ltb_spec 0 offset).
  - rewrite wrap_small by (apply _ || (revert Ho; int_lia)). rewrite checked_in by (revert Ho; int_lia). done.
  - destruct (Z.ltb_spec offset 0); cbn.
    + rewrite arith_in by done. rewrite outcome_bind_Ok, wrap_small by (apply _ || (revert Ho; int_lia)).
      rewrite checked_in by (revert Ho; int_lia). cbn. do 2 f_equal. lia.
    + do 2 f_equal. lia.
Qed.

Lemma skip_stays regs : full q regs -> 0 <= Vm.pc regs + 1 < size q -> 0 <= Vm.pc regs ->
  exists r, Vm.skip regs = Ok r /\ stays q r.
Proof.
  intros Hf Ht Hp. unfold Vm.skip. rewrite arith_in by int_lia. eexists. split; [reflexivity|]. by split.
Qed.

Lemma nil_stays n : forall i regs, stays q regs -> 0 <= i -> i + Z.of_nat n <= stack_size q ->
  exists r, Control.fill_nil n i regs = Ok r /\ stays q r.
Proof.
  induction n as [|n IH]; intros i regs Hs Hi Hn; cbn [Control.fill_nil]; [by eexists|].
  destruct (at_stays regs i Value.Nil Hs) as (_ & r & -> & Hr & _); [lia|]. rewrite outcome_bind_Ok.
  apply IH; [done|lia..].
Qed.

Definition control_ok (s : outcome (@Control.step S)) : Prop :=
  exists st, s = Ok st /\
  match st with Control.Next r | Control.Close _ r => stays q r | Control.Raise _ => True end.

Lemma next_ok (o : outcome registers) : (exists r, o = Ok r /\ stays q r) -> control_ok (Control.Next <$> o).
Proof. intros (r & -> & Hr). by eexists. Qed.

Lemma for_prep_runs regs base jump : stays q regs -> offset_ok jump -> 0 <= base -> base + 3 <= stack_size q ->
  0 <= Vm.pc regs + jump < size q -> control_ok (Control.exec_for_prep base jump regs).
Proof.
  intros Hs Hj Hb Hn Ht. unfold Control.exec_for_prep.
  destruct (at_stays regs base Value.Nil Hs) as [[init ->] _]; [lia|]. rewrite outcome_bind_Ok.
  destruct (at_stays regs (base + 2) Value.Nil Hs) as [[step ->] _]; [lia|]. rewrite outcome_bind_Ok.
  destruct (Control.for_prep init step) as [v|]; [|by eexists].
  destruct (at_stays regs base v Hs) as (_ & r & -> & [Hf Hp] & Hpc); [lia|]. rewrite outcome_bind_Ok.
  apply next_ok, jump_stays; [done|lia|done|lia].
Qed.

Lemma for_loop_runs regs base jump : stays q regs -> offset_ok jump -> 0 <= base -> base + 4 <= stack_size q ->
  0 <= Vm.pc regs + jump < size q -> control_ok (Control.exec_for_loop base jump regs).
Proof.
  intros Hs Hj Hb Hn Ht. unfold Control.exec_for_loop.
  destruct (at_stays regs base Value.Nil Hs) as [[index ->] _]; [lia|]. rewrite outcome_bind_Ok.
  destruct (at_stays regs (base + 1) Value.Nil Hs) as [[limit ->] _]; [lia|]. rewrite outcome_bind_Ok.
  destruct (at_stays regs (base + 2) Value.Nil Hs) as [[step ->] _]; [lia|]. rewrite outcome_bind_Ok.
  destruct (Control.for_step index limit step) as [[i over]|]; [|by eexists].
  destruct (at_stays regs base i Hs) as (_ & r & -> & Hr & Hpc); [lia|]. rewrite outcome_bind_Ok.
  destruct over; [by eexists|].
  destruct (jump_stays r jump) as (r' & -> & Hr'); [apply Hr|destruct Hr; lia|done|lia|]. rewrite outcome_bind_Ok.
  apply next_ok. destruct (at_stays r' (base + 3) i Hr') as (_ & r2 & -> & Hr2 & _); [lia|]. by exists r2.
Qed.

Lemma test_runs regs (b is_true : bool) (o : outcome (@Control.step S)) : stays q regs -> Vm.pc regs + 1 < size q ->
  control_ok o -> control_ok (if eqb b is_true then Control.Next <$> Vm.skip regs else o).
Proof. intros [Hf Hp] Hpc Ho. destruct (eqb b is_true); [|done]. apply next_ok, skip_stays; [done|lia..]. Qed.

(** Loads, jumps, tests and loops *)
Lemma control_runs regs op i s : code q !! i = Some op -> full q regs -> Vm.pc regs = Z.of_nat i + 1 ->
  Control.exec (constants_of q) op regs = Some s -> control_ok s.
Proof.
  intros Hi Hf Hpc. destruct (instruction q i op Hq Hi) as (Hop & Ht & Hnext).
  intros E. assert (Hs : stays q regs).
  { split; [done|]. destruct Hnext as [Hlt|Er]; [lia|]. by rewrite Er in E. }
  destruct op; cbn [Control.exec] in E; try discriminate E; injection E as <-; cbn [op_ok] in Hop; cbn [op_target] in Ht.
  - destruct Hop as [Hd Hr]. destruct (register_exists q regs source Hf Hr) as [v ->]. rewrite outcome_bind_Ok.
    apply next_ok. destruct (set_stays q regs dest v Hs Hd) as (r & ? & ? & _). by exists r.
  - destruct Hop as (Hd & Hc & Hlt). destruct (constant_exists q (constant_index16 constant)) as [c ->].
    { revert Hc Hlt. cbn. int_lia. }
    rewrite outcome_bind_Ok. apply next_ok. destruct (set_stays q regs dest (Value.from_constant c) Hs Hd) as (r & ? & ? & _). by exists r.
  - destruct (set_stays q regs dest (Value.Boolean value) Hs Hop) as (r & -> & [Hr Hr'] & Hpr). rewrite outcome_bind_Ok.
    destruct skip_next; [|by eexists]. apply next_ok, skip_stays; [done|lia..].
  - destruct Hop as (Hn & Hb & Hn0 & Hle). apply next_ok. unfold Control.load_nil. cbn in Hle.
    rewrite arith_in by int_lia. rewrite outcome_bind_Ok. apply nil_stays; [done|lia..].
  - destruct Hop as [Ho _]. destruct (jump_stays regs offset) as (r & -> & Hr); [done|destruct Hs; lia|done|lia|].
    rewrite outcome_bind_Ok. eexists. split; [reflexivity|]. by destruct (Opt254.to_u8 close_upvalues).
  - destruct (register_exists q regs value Hf Hop) as [v ->]. rewrite outcome_bind_Ok.
    apply test_runs; [done|lia|by eexists].
  - destruct Hop as [Hd Hr]. destruct (register_exists q regs value Hf Hr) as [v ->]. rewrite outcome_bind_Ok.
    apply test_runs; [done|lia|]. apply next_ok. destruct (set_stays q regs dest v Hs Hd) as (r & ? & ? & _). by exists r.
  - destruct Hop as (Hj & Hb & _ & Hle). apply for_prep_runs; [done..|cbn in Hle; lia|lia].
  - destruct Hop as (Hj & Hb & _ & Hle). apply for_loop_runs; [done..|cbn in Hle; lia|lia].
  - destruct Hop as (Hj & Hb & _ & Hle). cbn in Hle.
    destruct (at_stays regs (register_index base + 1) Value.Nil Hs) as [[v ->] _]; [lia|]. rewrite outcome_bind_Ok.
    destruct (Value.to_bool v); [|by eexists].
    destruct (at_stays regs (register_index base) v Hs) as (_ & r & -> & [Hr Hr'] & Hp); [lia|]. rewrite outcome_bind_Ok.
    apply next_ok, jump_stays; [done|lia|done|lia].
Qed.

(** What an instruction on values may do on [regs] *)
Definition value_ok regs (st : @Vm.step S) : Prop :=
  match st with
  | Vm.Next r => stays q r
  | Vm.CallMeta _ ret r => r = regs /\
      match ret with
      | MetaReturn.None => True
      | MetaReturn.Register d => reg_ok (prototype_sizes q) d
      | MetaReturn.SkipIf _ => in_int usize (Vm.pc regs + 1)
      end
  | Vm.Raise _ => True
  end.

Lemma set_value_ok regs d v st : stays q regs -> reg_ok (prototype_sizes q) d ->
  Vm.Next <$> Vm.set_register regs d v = Ok st -> value_ok regs st.
Proof. intros Hs Hd. destruct (set_stays q regs d v Hs Hd) as (r & -> & Hr & _). by intros [= <-]. Qed.

Lemma finish_value_ok regs d m st : stays q regs -> reg_ok (prototype_sizes q) d ->
  Vm.finish_register d regs m = Ok st -> value_ok regs st.
Proof. intros Hs Hd. destruct m as [[v|c]|e]; cbn; [by apply set_value_ok|by intros [= <-]..]. Qed.

Lemma binary_value_ok path meta constants regs d l r st : stays q regs -> reg_ok (prototype_sizes q) d ->
  Vm.exec_binary path meta constants d l r regs = Ok st -> value_ok regs st.
Proof.
  intros Hs Hd. unfold Vm.exec_binary. intros E. apply outcome_bind_inv in E as (a & _ & E).
  apply outcome_bind_inv in E as (b & _ & E). apply outcome_bind_inv in E as ([v|] & _ & E); [by eapply set_value_ok|].
  apply outcome_bind_inv in E as (m & _ & E). by eapply finish_value_ok.
Qed.

Lemma unary_value_ok path meta regs d s st : stays q regs -> reg_ok (prototype_sizes q) d ->
  Vm.exec_unary path meta d s regs = Ok st -> value_ok regs st.
Proof.
  intros Hs Hd. unfold Vm.exec_unary. intros E. apply outcome_bind_inv in E as (a & _ & E).
  destruct (path a); [by eapply set_value_ok|by eapply finish_value_ok].
Qed.

Lemma skip_value_ok regs b c st : stays q regs -> Vm.pc regs + 1 < size q -> Vm.skip_if_equal b c regs = Ok st -> value_ok regs st.
Proof.
  intros [Hf Hp] Ht. unfold Vm.skip_if_equal. destruct (skip_stays regs) as (r & -> & Hr); [done|lia..|].
  destruct (eqb b c); by intros [= <-].
Qed.

Lemma compare_value_ok path meta constants regs c l r st : stays q regs -> Vm.pc regs + 1 < size q ->
  Vm.exec_compare path meta constants c l r regs = Ok st -> value_ok regs st.
Proof.
  intros Hs Ht. unfold Vm.exec_compare. intros E. apply outcome_bind_inv in E as (a & _ & E).
  apply outcome_bind_inv in E as (b & _ & E). destruct (path a b); [by eapply skip_value_ok|].
  apply outcome_bind_inv in E as (m & _ & E). destruct m as [[v|k]|e]; cbn in E; [by eapply skip_value_ok| |].
  - injection E as <-. split; [done|]. cbn. destruct Hs as [_ Hp]. revert Hp Hcode. int_lia.
  - by injection E as <-.
Qed.

Lemma operands_exist regs op : full q regs -> op_ok (prototype_sizes q) op ->
  VmFacts.operands_ok (constants_of q) regs op.
Proof.
  intros Hf Hop. destruct op; cbn in *; try done; destruct_and?; split_and!;
    first [by apply (operand_exists q) | by apply (register_exists q)].
Qed.

(** Arithmetic and comparison *)
Lemma value_runs h regs op i s : code q !! i = Some op -> full q regs -> Vm.pc regs = Z.of_nat i + 1 ->
  VmFacts.wf_frame (constants_of q) regs -> Vm.exec h (constants_of q) op regs = Some s ->
  exists st, s = Ok st /\ value_ok regs st.
Proof.
  intros Hi Hf Hpc Hwf E. destruct (instruction q i op Hq Hi) as (Hop & Ht & Hnext).
  assert (Hs : stays q regs).
  { split; [done|]. destruct Hnext as [Hlt|Er]; [lia|]. by rewrite Er in E. }
  pose proof (VmFacts.exec_answers h (constants_of q) regs op Hwf (operands_exist regs op Hf Hop)) as Hx.
  rewrite E in Hx. destruct Hx as [st ->]; [destruct Hs; lia|]. exists st. split; [done|].
  destruct op; cbn [Vm.exec] in E; try discriminate E; injection E as E; cbn [op_ok] in Hop; cbn [op_target] in Ht;
    first [ eapply compare_value_ok; [done|lia|exact E]
          | destruct Hop as (Hd & _); first [ eapply binary_value_ok; [done|done|exact E]
                                            | eapply unary_value_ok; [done|done|exact E]
                                            | apply outcome_bind_inv in E as (v & _ & E); by eapply set_value_ok ] ].
Qed.
End CompilerRuns.
End CompilerRuns.

(** * A frame of compiled code

    The machine takes an instruction of a frame of compiled code: what it does to the frame,
    and that the frame stays one of that code. *)

Import CompilerRuns ThreadFacts ThreadCalls ThreadSteps.

Module CompilerFrames.
Section CompilerFrames.
Context `{BuildProfile} {S : Type} `{AsBytes S} {A : Type} (map_string : A -> S).
Context {Sequence Error : Type}.
Abbreviation value := (Value.t S).
Abbreviation Frame := (@Thread.Frame S Sequence Error).
Abbreviation LuaFrame := (@Thread.LuaFrame S Sequence Error).
Abbreviation world := Thread.world.
Abbreviation state := Thread.state.
Implicit Types (q : CompiledPrototype A) (m : LuaFrame) (fr : Thread.lua_frame) (rest : list Frame).
Implicit Types (ci : Thread.ClosureInner (S := S)).

(** [fr] runs the function [q], by the closure [ci]. *)
Record code_frame q ci m fr rest : Prop := {
  cf_running : running m fr rest;
  cf_closure : Thread.closures (world m) !! Thread.closure fr = Some ci;
  cf_proto : Thread.proto ci = FunctionPrototype.from_compiled_map_strings map_string q;
  cf_upvalues : length (Thread.closure_upvalues ci) = length (upvalues q);
  cf_size : Thread.stack_size fr = Z.to_nat (stack_size q)
}.

Lemma from_compiled_fields q : let p := FunctionPrototype.from_compiled_map_strings map_string q in
  Thread.constants p = constants_of map_string q /\ Thread.opcodes p = code q /\
  Thread.prototypes p = map (FunctionPrototype.from_compiled_map_strings map_string) (prototypes q) /\
  Thread.upvalue_descriptors p = upvalues q.
Proof. by destruct q. Qed.

(** The registers of a frame that is not variable *)
Lemma cf_full q ci m fr rest : code_frame q ci m fr rest -> Thread.is_variable fr = false ->
  full q (Vm.mk_registers (drop (Thread.base fr) (Thread.stack (state m))) (Thread.pc fr)).
Proof.
  intros Hc Hv. pose proof (cf_running _ _ _ _ _ Hc) as Hr. destruct (running_facts _ _ _ Hr) as (_ & Hb & Hl & _).
  unfold full. cbn. rewrite length_drop, <- (cf_size _ _ _ _ _ Hc). specialize (Hl Hv). unfold len in *. lia.
Qed.

(** The frame may change in its counter, and in being variable once it is as long as that. *)
Lemma running_changed m m' fr fr' rest : running m fr rest -> Thread.thread m' = Thread.thread m ->
  world m' = world m -> Thread.open_upvalues (state m') = Thread.open_upvalues (state m) ->
  Thread.frames (state m') = Thread.Lua fr' :: rest -> len m' = len m ->
  Thread.bottom fr' = Thread.bottom fr -> Thread.closure fr' = Thread.closure fr -> Thread.base fr' = Thread.base fr ->
  Thread.is_variable fr' = Thread.is_variable fr -> Thread.stack_size fr' = Thread.stack_size fr ->
  Thread.expected_return fr' = Thread.expected_return fr -> running m' fr' rest.
Proof.
  intros [Hf [Hw Ho Hfr Hc]] Et Ew Eo Ef El Eb Ec Ebase Ev Es Ee. split; [done|].
  unfold len in El. rewrite Et, Ew. split.
  - assert (E : state m' = Thread.mk_ThreadState (Thread.frames (state m')) (Thread.stack (state m')) (Thread.open_upvalues (state m')))
      by by destruct (state m').
    destruct Hw as [H1 H2 H3 H4 H5]. split; try done. by rewrite El, Eo.
  - rewrite Eo. unfold open_limit in *. rewrite Ef. rewrite Hf in Ho. by rewrite El.
  - rewrite Ef, El. rewrite Hf in Hfr. cbn in *. by rewrite Eb, Ebase, Ev, Es, Ee.
  - rewrite Ef. rewrite Hf in Hc. apply Forall_cons in Hc as [Hc Hcs]. constructor; [|done].
    cbn in *. by rewrite Ec, Eb.
Qed.

Lemma put_frame q ci m fr rest (r : @Vm.registers S) : code_frame q ci m fr rest ->
  (length (Vm.stack_frame r) = len m - Thread.base fr)%nat ->
  exists m', Thread.put_registers r m = Ok m' /\ code_frame q ci m' (Thread.set_pc (Vm.pc r) fr) rest /\
    world m' = world m /\ Thread.thread m' = Thread.thread m /\
    Thread.stack (state m') = take (Thread.base fr) (Thread.stack (state m)) ++ Vm.stack_frame r.
Proof.
  intros Hc Hl. pose proof Hc as [Hr Hcl Hp Hu Hs]. destruct (running_facts _ _ _ Hr) as (Ht & Hb & _).
  unfold Thread.put_registers. rewrite Ht, outcome_bind_Ok. eexists. split; [reflexivity|].
  split; [|done]. split; try done. eapply running_changed; [exact Hr|try done..].
  unfold len in *. cbn. rewrite length_app, length_take, Hl. lia.
Qed.

Lemma full_length q ci m fr rest (r : @Vm.registers S) : code_frame q ci m fr rest -> Thread.is_variable fr = false -> full q r ->
  (length (Vm.stack_frame r) = len m - Thread.base fr)%nat.
Proof.
  intros Hc Hv Hf. destruct (running_facts _ _ _ (cf_running _ _ _ _ _ Hc)) as (_ & _ & Hl & _).
  rewrite (Hl Hv), (cf_size _ _ _ _ _ Hc), Hf. lia.
Qed.

(** Closing variables, from a register of the frame on *)
Lemma close_frame q ci m fr rest r : code_frame q ci m fr rest ->
  exists m', Thread.registers_close_upvalues r m = Ok m' /\ code_frame q ci m' fr rest.
Proof.
  intros [Hr Hcl Hp Hu Hs]. destruct (running_facts _ _ _ Hr) as (Ht & Hb & Hl & He & Hn & Hw & Hcap & Hcap1).
  destruct Hr as [Hf Hwf]. unfold Thread.registers_close_upvalues. rewrite Ht, outcome_bind_Ok.
  destruct (close_wf _ (Thread.base fr + Thread.reg r) _ _ Hwf) as (us & w' & -> & Hw' & Ho & Ec & _ & Eth & Hcs & Hnest & _).
  rewrite outcome_bind_Ok. eexists. split; [reflexivity|]. split; cbn; try done; [|by rewrite Ec].
  split; [done|]. split; cbn.
  - done.
  - pose proof (ww_open _ _ _ Hw') as Hwo. unfold open_limit. cbn in *. by rewrite Hf.
  - pose proof (wt_frames _ _ _ Hwf) as Hfr. rewrite Hf in *. cbn in *. destruct Hfr as (? & ? & ? & ?). split_and!; try done. by apply Hnest.
  - by rewrite Hf in *.
Qed.

(** ** Instructions of the thread that go on *)

(** The same frames, and no closure lost *)
Record same_frames m m' : Prop := {
  sf_frames : Thread.frames (state m') = Thread.frames (state m);
  sf_closures : Thread.closures (world m) ⊆ Thread.closures (world m')
}.
#[global] Instance same_frames_preorder : PreOrder same_frames.
Proof. split; [by intros m|]. intros a b c [H1 H2] [H3 H4]. split; [congruence|by etrans]. Qed.

Ltac ok_inv :=
  repeat match goal with
    | E : (_ ≫= _) = Ok _ |- _ => apply outcome_bind_inv in E as (? & ? & E)
    | E : (_ <$> _) = Ok _ |- _ => apply outcome_bind_inv in E as (? & ? & E)
    | p : (_ * _)%type |- _ => destruct p
    | E : Ok _ = Ok _ |- _ => injection E as E
    end; simplify_eq/=.

Lemma top_frames m fr rest : Thread.top m = Ok (fr, rest) -> Thread.frames (state m) = Thread.Lua fr :: rest.
Proof. unfold Thread.top. by repeat case_match; intros [= <- <-]. Qed.

Lemma write_frames r v m m' : Thread.write r v m = Ok m' -> same_frames m m'.
Proof.
  unfold Thread.write, Thread.registers, Thread.put_registers, Vm.set_register. intros E. ok_inv.
  repeat match goal with E : Thread.top _ = Ok _ |- _ => apply top_frames in E end.
  match goal with E1 : Thread.frames (state m) = _, E2 : Thread.frames (state m) = Thread.Lua ?fr :: _ |- _ =>
    rewrite E1 in E2; injection E2 as -> ->; split; [cbn; rewrite E1; by destruct fr|done] end.
Qed.

Lemma set_upvalue_frames u v m m' : Thread.set_upvalue u v m = Ok m' -> same_frames m m'.
Proof. unfold Thread.set_upvalue. intros E. ok_inv. repeat case_match; try done; ok_inv; by split. Qed.

Lemma capture_frames outer ds : forall m us m', Thread.capture outer ds m = Ok (us, m') -> same_frames m m'.
Proof.
  induction ds as [|[|r|i] ds IH]; intros m us m'; cbn [Thread.capture]; intros E; ok_inv; [done..| |by eapply IH].
  etrans; [|by eapply IH]. match goal with E : Thread.open_upvalue _ _ = Ok _ |- _ => revert E end.
  unfold Thread.open_upvalue. intros E. ok_inv. case_match; ok_inv; by split.
Qed.

Lemma closure_frames al a b p r m m' : Thread.exec_closure al a b p r m = Ok (inl tt, m') -> same_frames m m'.
Proof.
  unfold Thread.exec_closure, Thread.try_from_parts. intros E. ok_inv. case_match; [|done].
  destruct (Memory.check _ _ _) as [[|] limit]; unfold Thread.done in *; ok_inv.
  etrans; [by eapply capture_frames|]. etrans; [|by eapply write_frames]. split; [done|].
  cbn. apply insert_subseteq, not_elem_of_dom, is_fresh.
Qed.

Lemma varargs_frames r count m fr rest m' : Thread.top m = Ok (fr, rest) ->
  Thread.varargs r count m = Ok (inl tt, m') ->
  Thread.frames (state m') = Thread.Lua (if VarCount.is_variable count then Thread.set_variable true fr else fr) :: rest /\
  world m' = world m.
Proof.
  intros Ht. pose proof (top_frames _ _ _ Ht) as Hf. unfold Thread.varargs. rewrite Ht, outcome_bind_Ok, is_variable_constant.
  destruct (Thread.is_variable fr); [done|]. intros E. ok_inv.
  destruct (VarCount.to_constant count); unfold Thread.done in *; ok_inv; by split.
Qed.

(** ** What an instruction needs that its function does not decide

    Whether the frame is variable, where its values end, which variables are open, and that
    what is called exists *)
Context (h : MetaOps.Heap S).

Definition expects (op : Operation.t) : bool :=
  match op with
  | Operation.Call _ args _ | Operation.TailCall _ args => VarCount.is_variable args
  | Operation.Return _ count | Operation.SetList _ count => VarCount.is_variable count
  | _ => false
  end.
Definition produces (op : Operation.t) : bool :=
  match op with Operation.VarArgs _ count => VarCount.is_variable count | _ => false end.

Definition above m fr (from : nat) (count : VarCount.t) : Prop :=
  VarCount.is_variable count = true -> (Thread.base fr + from <= len m)%nat.

Definition ready m fr (op : Operation.t) : Prop :=
  match op with
  | Operation.Call func args _ => above m fr (Thread.reg func + 1) args /\
      target_ok h m (Thread.base fr + Thread.reg func) /\ open_below m (Thread.base fr + Thread.reg func)
  | Operation.TailCall func args => above m fr (Thread.reg func + 1) args /\
      target_ok h m (Thread.base fr + Thread.reg func)
  | Operation.Return start count => above m fr (Thread.reg start) count
  | Operation.VarArgs dest count => VarCount.is_variable count = true -> open_below m (Thread.base fr + Thread.reg dest)
  | Operation.GenericForCall base _ => target_ok h m (Thread.base fr + Thread.reg base) /\
      open_below m (Thread.base fr + Thread.reg base + 3)
  | _ => True
  end.

Lemma list_range q m fr r from count : Thread.stack_size fr = Z.to_nat (stack_size q) ->
  list_ok (prototype_sizes q) from count -> r = Z.to_nat from ->
  Thread.is_variable fr = VarCount.is_variable count -> above m fr r count -> range_ok fr m r count.
Proof.
  intros Hs [Hw Hb] -> Hv Ha. split; [done|]. unfold above in Ha. rewrite is_variable_constant in *.
  unfold block_ok in Hb. destruct (VarCount.to_constant count) as [c|]; [|by apply Ha].
  cbn in Hb. lia.
Qed.

Lemma register_below q ci m fr rest r : code_frame q ci m fr rest -> Thread.is_variable fr = false ->
  reg_ok (prototype_sizes q) r -> (Thread.base fr + Thread.reg r < len m)%nat.
Proof.
  intros Hc Hv Hr. destruct (running_facts _ _ _ (cf_running _ _ _ _ _ Hc)) as (_ & _ & Hl & _).
  rewrite (Hl Hv), (cf_size _ _ _ _ _ Hc). unfold reg_ok, Thread.reg in *. cbn in Hr. lia.
Qed.

(** Calls, returns, upvalues and closures: what the compiler guarantees is what they need. *)
Lemma compiled_fits q ci m fr rest i op : prototype_wf q -> code q !! i = Some op ->
  code_frame q ci m fr rest -> Thread.is_variable fr = expects op -> ready m fr op ->
  (exists al a b res, Thread.exec h al a b op m = Some res) -> fits h fr m op.
Proof.
  intros Hq Hi Hc Hv Hready Hex. destruct (instruction q i op Hq Hi) as (Hop & _). pose proof Hc as [Hr Hcl Hp Hu Hs].
  destruct op; try (by destruct Hex as (? & ? & ? & ? & E)); cbn [fits expects op_ok ready] in *.
  - destruct Hready as (Ha & Ht & Ho), Hop as (Hf & Hl & _). split; [|done]. split_and!; [|eapply list_range; try done|done].
    + unfold reg_ok, Thread.reg in *. cbn in Hf. lia.
    + unfold reg_ok, Thread.reg in *. lia.
  - destruct Hready as (Ha & Ht), Hop as (Hf & Hl). split_and!; [|eapply list_range; try done|done].
    + unfold reg_ok, Thread.reg in *. cbn in Hf. lia.
    + unfold reg_ok, Thread.reg in *. lia.
  - by eapply list_range.
  - split; [done|]. destruct Hop as [_ [H1 [H2 H3]]]. rewrite is_variable_constant in Hready.
    destruct (VarCount.to_constant count); cbn in H2, H3; unfold Thread.reg in *; [lia|]. split; [lia|by apply Hready].
  - destruct Hop as [Hd Hpr]. split; [by eapply register_below|]. destruct (from_compiled_fields q) as (_ & _ & Eps & _).
    destruct Hpr as [Hpr Hlt]. cbn in Hlt. destruct (lookup_lt_is_Some_2 (prototypes q) (Z.to_nat (prototype_index proto))) as [p' Hp'].
    { revert Hpr Hlt. int_lia. }
    exists ci, (FunctionPrototype.from_compiled_map_strings map_string p'). split; [done|]. split.
    { rewrite Hp, Eps, list_lookup_fmap, Hp'. done. }
    destruct (from_compiled_fields p') as (_ & _ & _ & ->). apply prototype_wf_inv in Hq as (_ & _ & _ & _ & _ & Hin).
    destruct (Forall_lookup_1 _ _ _ _ Hin Hp') as [_ Hcap]. eapply Forall_impl; [exact Hcap|].
    intros [|r|u]; cbn; [done|by eapply register_below|]. rewrite Hu. intros [Hur Hul]. revert Hur Hul. cbn. int_lia.
  - destruct Hop as (Hn & Hpos & [Hb1 [Hb2 Hb3]]), Hready. unfold Thread.reg in *. cbn in Hb3.
    apply prototype_wf_inv in Hq as (_ & Hmax & _). split_and!; try done; lia.
  - destruct Hop as [Hd [Hur Hul]]. split; [by eapply register_below|]. exists ci. split; [done|].
    rewrite Hu. revert Hur Hul. cbn. int_lia.
  - destruct Hop as [[Hur Hul] Hd]. split; [by eapply register_below|]. exists ci. split; [done|].
    rewrite Hu. revert Hur Hul. cbn. int_lia.
Qed.

Lemma thread_runs q ci m fr rest i op al a b res : prototype_wf q -> code q !! i = Some op ->
  code_frame q ci m fr rest -> Thread.is_variable fr = expects op -> ready m fr op ->
  Thread.exec h al a b op m = Some res ->
  exists r m', res = Ok (r, m') /\ left_ok r m' /\
    (r = inl tt -> RunVm.leaves_frame op = false ->
     code_frame q ci m' (if produces op then Thread.set_variable true fr else fr) rest).
Proof.
  intros Hq Hi Hc Hv Hready E. pose proof (cf_running _ _ _ _ _ Hc) as Hr.
  assert (Hfit : fits h fr m op) by (eapply compiled_fits; try done; by eauto).
  destruct (exec_ok h m fr rest op al a b Hr Hfit) as (res' & E' & r & m' & -> & Hl).
  rewrite E in E'. injection E' as ->. exists r, m'. split; [done|]. split; [done|]. intros -> Hleave.
  destruct (running_facts _ _ _ Hr) as (Ht & _). pose proof (proj1 Hr) as Hf.
  assert (Hsame : Thread.frames (state m') = Thread.Lua (if produces op then Thread.set_variable true fr else fr) :: rest /\
      Thread.closures (world m) ⊆ Thread.closures (world m')).
  { destruct op; try discriminate Hleave; cbn [Thread.exec] in E; try discriminate E; injection E as E; cbn [produces].
    - destruct (varargs_frames _ _ _ _ _ _ Ht E) as [-> ->]. done.
    - apply closure_frames in E as [-> ?]. done.
    - ok_inv. match goal with E : Thread.write _ _ _ = Ok _ |- _ => apply write_frames in E as [Ef ?] end.
      unfold Thread.done in *. simplify_eq/=. rewrite Ef. done.
    - ok_inv. match goal with E : Thread.set_upvalue _ _ _ = Ok _ |- _ => apply set_upvalue_frames in E as [Ef ?] end.
      unfold Thread.done in *. simplify_eq/=. rewrite Ef. done. }
  destruct Hsame as [Hf' Hcl]. destruct Hc as [_ Hcl0 Hp Hu Hs]. split; try done.
  - eapply lookup_weaken; [|exact Hcl]. by destruct (produces op).
  - by destruct (produces op).
Qed.
End CompilerFrames.
End CompilerFrames.
