(* ===== verification/ProgramTheorems.v ===== *)
(** * From text to the machine

    Loading text gives a closure of well-formed code, and the machine runs that code: the
    lexer, the parser, the compiler, the prototypes and the instructions put together. *)

From S2P Require Import Prelude Slices Float64 StringUtils Constant ConstantFacts Value Limits RawTable MetaOps Opcode Operators Vm VmFacts VmControl Thread ThreadFacts ThreadCalls ThreadSteps Table RunVm RawTableTheorems Buckets TableTheorems Lexer LexerTheorems Parser ParserFacts RegisterAllocator CompilerState CompilerExpr Compiler CompilerCode CompilerGuards CompilerTheorems Closure CompilerRuns.
Import CompilerRuns CompilerFrames ThreadFacts ThreadCalls ThreadSteps.

Module ProgramTheorems.
Section Machine.
Context `{BuildProfile} `{FloatLib} {S : Type} `{AsBytes S} `{StringAddress S} `{Platform S} `{Interning S} `{DisplayFloat}.
Context {A : Type} (map_string : A -> S) {Sequence Error : Type}.
Abbreviation LuaFrame := (Thread.LuaFrame (S:=S) (Sequence:=Sequence) (Error:=Error)).
Abbreviation Machine := (RunVm.Machine (S:=S) (Sequence:=Sequence) (Error:=Error)).
Abbreviation Frame := (@Thread.Frame S Sequence Error).
Context (allocated : Machine -> Z) (size_of_inner size_of_upvalue : Z).
Abbreviation exec := (RunVm.exec allocated size_of_inner size_of_upvalue).
Abbreviation code_frame := (code_frame map_string).
Implicit Types (m : LuaFrame) (mc : Machine) (fr : Thread.lua_frame) (rest : list Frame).
Implicit Types (q : CompiledPrototype A) (op : Operation.t).




(** ** One instruction *)




Context q (Hq : prototype_wf q) (Hsize : stack_size q < 256) (Hcode : size q < 2 ^ 63).







End Machine.

Section Programs.
Context `{BuildProfile} `{FloatLib} `{StringInterner} {Sequence Error : Type}.
#[local] Existing Instance Compiler.name_bytes.
Abbreviation World := (@Thread.World IString Sequence Error).
Implicit Types (w : World).

(** The compiler would stop at one of its guards. *)
Definition stops (chunk : Ast.Chunk IString) (strings : InternerState) : Prop :=
  exists r, Compile.compile_guarded chunk strings = Ok r /\ CompilerGuards.refused r.

(** The closure of a chunk over its environment: its code, and its upvalue if it has one *)
Record loaded (env : obj) w (c : obj) w' : Prop := {
  ld_new : Thread.closures w !! c = None;
  ld_prototype : exists p ci, Thread.closures w' = <[c := ci]> (Thread.closures w) /\ prototype_wf p /\
    Thread.proto ci = FunctionPrototype.from_compiled p /\
    length (Thread.closure_upvalues ci) = length (upvalues p) /\
    Forall (fun u => Thread.upvalues w' !! u = Some (Thread.Closed (Value.Table env))) (Thread.closure_upvalues ci);
  ld_upvalues : Thread.upvalues w ⊆ Thread.upvalues w';
  ld_threads : Thread.threads w' = Thread.threads w
}.

Lemma new_loaded p env w : prototype_wf p -> CompilerTheorems.chunk_upvalues p ->
  exists c w', Closure.new (FunctionPrototype.from_compiled p) (Some env) w = (inl c, w') /\ loaded env w c w'.
Proof.
  intros Hp Hu. unfold Closure.new, FunctionPrototype.from_compiled.
  destruct (from_compiled_fields (fun s => s) p) as (_ & _ & _ & ->).
  assert (Hfresh : forall (w : World), Thread.closures w !! fresh (dom (Thread.closures w)) = None)
    by (intros; apply not_elem_of_dom, is_fresh).
  destruct Hu as [Eu|Eu]; rewrite Eu; cbn.
  - eexists _, _. split; [reflexivity|]. split; cbn; [done| |done|done].
    eexists p, _. split_and!; [done..|by rewrite Eu|constructor].
  - eexists _, _. split; [reflexivity|]. split; cbn; [done| | |done].
    + eexists p, _. split_and!; [done..|by rewrite Eu|]. repeat constructor. cbn. by rewrite lookup_insert_eq.
    + apply insert_subseteq, not_elem_of_dom, is_fresh.
Qed.

(** C13: loading text always answers: with an error of the parser or the compiler, and then
    nothing has changed, or with a new closure of well-formed code whose only upvalue, if it
    has one, holds the environment.  In particular the [unwrap] of [Closure::new] cannot
    fail: a chunk captures nothing else.  (Unless one of the guards would stop the
    compiler.) *)
Theorem load_answers (text : list Z) (env : obj) (reading compiling : InternerState) w :
  Z.of_nat (length text) < 2 ^ 31 ->
  (exists chunk, parse_source text reading = Ok (inl chunk) /\ stops chunk compiling) \/
  exists r w', Closure.load_with_env text env reading compiling w = Ok (r, w') /\
    match r with inl c => loaded env w c w' | inr _ => w' = w end.
Proof.
  intros Hlen. unfold Closure.load_with_env, FunctionPrototype.compile.
  destruct (ParserFacts.parse_chunk_ok (Lexer.new text reading : @source IString lexer_source)) as (r & E & _).
  { by apply LexerTheorems.new_wf. }
  change (parse_source text reading = Ok r) in E. rewrite E, outcome_bind_Ok.
  destruct r as [chunk|e]; [|right; by eexists _, _].
  destruct (CompilerTheorems.compiled_text text reading compiling chunk Hlen E) as [Hstop|(r & -> & Hr)];
    [left; by exists chunk|right]. rewrite outcome_bind_Ok. destruct r as [p|e]; [|by eexists _, _].
  destruct (Hr p eq_refl) as [Hp Hu]. rewrite outcome_bind_Ok.
  destruct (new_loaded p env w Hp Hu) as (c & w' & -> & Hl). by eexists _, _.
Qed.
End Programs.

(** ** Running *)
Section Running.
Context `{BuildProfile} `{FloatLib} `{StringInterner}.
Context {S : Type} `{AsBytes S} `{StringAddress S} `{Platform S} `{Interning S} `{DisplayFloat}.
Context (map_string : IString -> S) {Sequence Error : Type}.
Abbreviation Machine := (RunVm.Machine (S:=S) (Sequence:=Sequence) (Error:=Error)).
Context (allocated : Machine -> Z) (size_of_inner size_of_upvalue : Z).
Abbreviation set_pc := Thread.set_pc.


End Running.

(** ** A program *)
Section Witnesses.
Import Buckets.Machine RawTableTheorems TableTheorems.
#[local] Existing Instances BasicInterner Compiler.name_bytes.
Abbreviation no_strings := (LexerTheorems.no_strings : InternerState).
Definition nowhere : @Thread.World IString unit unit := Thread.mk_World ∅ ∅ ∅ (Memory.new None).

Lemma counting_passes : match parse_source CompilerTheorems.counting no_strings with
  | Ok (inl chunk) => match Compile.compile_guarded chunk no_strings with Ok (inl _) => true | _ => false end
  | _ => false
  end = true.
Proof. vm_compute. reflexivity. Qed.

Lemma counting_runs chunk : parse_source CompilerTheorems.counting no_strings = Ok (inl chunk) -> ~ stops chunk no_strings.
Proof. intros E (r & Er & line & ->). pose proof counting_passes as Hp. by rewrite E, Er in Hp. Qed.

Lemma load_answers_witness : exists r w',
  Closure.load_with_env CompilerTheorems.counting 7%positive no_strings no_strings nowhere = Ok (r, w') /\
  match r with inl c => loaded 7%positive nowhere c w' | inr _ => w' = nowhere end.
Proof.
  destruct (load_answers CompilerTheorems.counting 7%positive no_strings no_strings nowhere) as [(chunk & E & Hs)|Hl];
    [reflexivity| |exact Hl].
  exfalso. exact (counting_runs chunk E Hs).
Defined.






End Witnesses.
End ProgramTheorems.
