(* ===== verification/GcMetrics.v ===== *)
(** * Collection pacing and accounting: [phodopus-gc-arena], [metrics.rs]

    The byte counters of an arena and the allocation debt that times incremental
    collection, computed in [f64] as the code does. *)

From Stdlib Require Import Floats.SpecFloat.
From S2P Require Import Prelude Float64.

Module Pacing.
Record t : Type := mk { pause_factor : f64; debit_factor : f64; min_sleep : Z }.

(** [1.0 + 1.0 / timing_factor], for a factor that is not negative or NaN *)
Definition timing_to_debit_factor (timing_factor : f64) : outcome f64 :=
  rust_assert (F64.leb F64.ZERO timing_factor) ;;
  Ok (F64.add (F64.from_int 1) (F64.div (F64.from_int 1) timing_factor)).

Definition PAUSE_FACTOR : f64 := F64.of_decimal false 5 (-1).
Definition TIMING_FACTOR : f64 := F64.of_decimal false 15 (-1).
Definition MIN_SLEEP : Z := 4096.

Definition default : outcome t :=
  d ← timing_to_debit_factor TIMING_FACTOR; Ok (mk PAUSE_FACTOR d MIN_SLEEP).

Definition with_pause_factor (pause : f64) (p : t) : outcome t :=
  rust_assert (F64.leb F64.ZERO pause) ;; Ok (mk pause (debit_factor p) (min_sleep p)).
Definition with_timing_factor (timing : f64) (p : t) : outcome t :=
  d ← timing_to_debit_factor timing; Ok (mk (pause_factor p) d (min_sleep p)).
Definition with_min_sleep (sleep : Z) (p : t) : t := mk (pause_factor p) (debit_factor p) sleep.
End Pacing.

Module Metrics.
Record t : Type := mk {
  pacing : Pacing.t;
  total_gcs : Z;
  total_gc_bytes : Z;
  total_external_bytes : Z;
  wakeup_amount : f64;
  allocated_gc_bytes : Z;
  traced_gcs : Z;
  traced_gc_bytes : Z;
  freed_gc_bytes : Z;
  remembered_gcs : Z;
  remembered_gc_bytes : Z;
  allocated_external_bytes : Z;
  freed_external_bytes : Z
}.

Section Metrics.
Context `{BuildProfile}.

Definition start_cycle (m : t) : t :=
  let p := pacing m in
  let wakeup :=
    if total_gcs m =? 0 then F64.from_int (Pacing.min_sleep p)
    else
      let external := F64.mul (F64.div (F64.from_int (remembered_gcs m))
                                 (F64.from_int (total_gcs m)))
                        (F64.from_int (total_external_bytes m)) in
      let remembered := F64.add (F64.from_int (remembered_gc_bytes m)) external in
      F64.max (F64.mul remembered (Pacing.pause_factor p))
        (F64.from_int (Pacing.min_sleep p)) in
  mk p (total_gcs m) (total_gc_bytes m) (total_external_bytes m) wakeup 0 0 0 0 0 0 0 0.

Definition new : outcome t :=
  p ← Pacing.default; Ok (start_cycle (mk p 0 0 0 F64.ZERO 0 0 0 0 0 0 0 0)).

Definition set_pacing (p : Pacing.t) (m : t) : t :=
  mk p (total_gcs m) (total_gc_bytes m) (total_external_bytes m) (wakeup_amount m)
    (allocated_gc_bytes m) (traced_gcs m) (traced_gc_bytes m) (freed_gc_bytes m)
    (remembered_gcs m) (remembered_gc_bytes m) (allocated_external_bytes m)
    (freed_external_bytes m).

Definition total_allocation (m : t) : Z :=
  saturating usize (total_gc_bytes m + total_external_bytes m).

Definition allocation_debt (m : t) : f64 :=
  if total_gcs m =? 0 then F64.ZERO
  else
    let raw_cycle_debits := F64.add (F64.from_int (allocated_gc_bytes m))
                              (F64.from_int (allocated_external_bytes m)) in
    let cycle_debits := F64.sub raw_cycle_debits (wakeup_amount m) in
    if F64.leb cycle_debits F64.ZERO then F64.ZERO
    else
      let traced_external_estimate :=
        F64.mul (F64.div (F64.from_int (traced_gcs m)) (F64.from_int (total_gcs m)))
          (F64.from_int (total_external_bytes m)) in
      let cycle_credits :=
        F64.add (F64.add (F64.add (F64.from_int (traced_gc_bytes m))
                            (F64.from_int (freed_gc_bytes m)))
                   traced_external_estimate)
          (F64.from_int (freed_external_bytes m)) in
      let debt := F64.sub (F64.mul cycle_debits (Pacing.debit_factor (pacing m)))
                    cycle_credits in
      F64.max debt F64.ZERO.

Definition mark_external_allocation (bytes : Z) (m : t) : t :=
  mk (pacing m) (total_gcs m) (total_gc_bytes m)
    (saturating usize (total_external_bytes m + bytes)) (wakeup_amount m)
    (allocated_gc_bytes m) (traced_gcs m) (traced_gc_bytes m) (freed_gc_bytes m)
    (remembered_gcs m) (remembered_gc_bytes m)
    (saturating usize (allocated_external_bytes m + bytes)) (freed_external_bytes m).

Definition mark_external_deallocation (bytes : Z) (m : t) : t :=
  mk (pacing m) (total_gcs m) (total_gc_bytes m)
    (saturating usize (total_external_bytes m - bytes)) (wakeup_amount m)
    (allocated_gc_bytes m) (traced_gcs m) (traced_gc_bytes m) (freed_gc_bytes m)
    (remembered_gcs m) (remembered_gc_bytes m) (allocated_external_bytes m)
    (saturating usize (freed_external_bytes m + bytes)).

Definition mark_gc_allocated (bytes : Z) (m : t) : outcome t :=
  gcs ← arith usize (total_gcs m + 1);
  total ← arith usize (total_gc_bytes m + bytes);
  Ok (mk (pacing m) gcs total (total_external_bytes m) (wakeup_amount m)
        (saturating usize (allocated_gc_bytes m + bytes)) (traced_gcs m)
        (traced_gc_bytes m) (freed_gc_bytes m) (remembered_gcs m) (remembered_gc_bytes m)
        (allocated_external_bytes m) (freed_external_bytes m)).

Definition mark_gc_traced (bytes : Z) (m : t) : t :=
  mk (pacing m) (total_gcs m) (total_gc_bytes m) (total_external_bytes m)
    (wakeup_amount m) (allocated_gc_bytes m) (saturating usize (traced_gcs m + 1))
    (saturating usize (traced_gc_bytes m + bytes)) (freed_gc_bytes m) (remembered_gcs m)
    (remembered_gc_bytes m) (allocated_external_bytes m) (freed_external_bytes m).

Definition mark_gc_deallocated (bytes : Z) (m : t) : outcome t :=
  gcs ← arith usize (total_gcs m - 1);
  total ← arith usize (total_gc_bytes m - bytes);
  Ok (mk (pacing m) gcs total (total_external_bytes m) (wakeup_amount m)
        (allocated_gc_bytes m) (traced_gcs m) (traced_gc_bytes m)
        (saturating usize (freed_gc_bytes m + bytes)) (remembered_gcs m)
        (remembered_gc_bytes m) (allocated_external_bytes m) (freed_external_bytes m)).

Definition mark_gc_remembered (bytes : Z) (m : t) : outcome t :=
  gcs ← arith usize (remembered_gcs m + 1);
  total ← arith usize (remembered_gc_bytes m + bytes);
  Ok (mk (pacing m) (total_gcs m) (total_gc_bytes m) (total_external_bytes m)
        (wakeup_amount m) (allocated_gc_bytes m) (traced_gcs m) (traced_gc_bytes m)
        (freed_gc_bytes m) gcs total (allocated_external_bytes m)
        (freed_external_bytes m)).
End Metrics.

(** ** The debt against the targets the collector uses *)

Definition NEG_INFINITY : f64 := F64.neg F64.INFINITY.

Lemma max_zero_above x : F64.ltb NEG_INFINITY (F64.max x F64.ZERO) = true.
Proof.
  unfold F64.max. destruct (F64.is_nan x) eqn:Hn; [done|].
  change (F64.is_nan F64.ZERO) with false. cbv iota.
  destruct (F64.ltb x F64.ZERO) eqn:Hlt; [done|].
  unfold F64.ltb, SFltb in *. change (F64.to_sf NEG_INFINITY) with (S754_infinity true).
  change (F64.to_sf F64.ZERO) with (S754_zero false) in Hlt.
  destruct (F64.to_sf x) as [[]|[]| |[] m e] eqn:E; try done.
  exfalso. revert Hn E. unfold F64.is_nan, F64.to_sf.
  destruct (F64.fields_bounds x) as [_ Hm].
  destruct (F64.exp_field x =? 0); [by destruct (F64.mant_field x)|].
  destruct (F64.exp_field x =? 2047); cbn [andb].
  - destruct (F64.mant_field x =? 0); done.
  - destruct (F64.mant_field x + 2 ^ 52) eqn:Em; [lia|done|lia].
Qed.

(** Work always remains when the target is minus infinity, and never when it is
    infinity. *)
Lemma debt_above_neg_infinity m : F64.ltb NEG_INFINITY (allocation_debt m) = true.
Proof.
  unfold allocation_debt. destruct (total_gcs m =? 0); [done|].
  destruct (F64.leb _ F64.ZERO); [done|]. apply max_zero_above.
Qed.

Lemma debt_below_infinity x : F64.ltb F64.INFINITY x = false.
Proof.
  unfold F64.ltb, SFltb. change (F64.to_sf F64.INFINITY) with (S754_infinity false).
  by destruct (F64.to_sf x) as [[]|[]| |[] m e].
Qed.
End Metrics.
