(* ===== verification/GcArena.v ===== *)
(** * The incremental garbage collector: [phodopus-gc-arena], [context.rs] and [arena.rs]

    The heap of [GcBox]es with its intrusive list of allocations, the tri-colour
    mark and sweep machine, the write barriers and weak pointers, and the arena
    operations that drive them.

    What a value of the program is to the collector is the list of pointers its
    [Collect::trace] visits: a strong [Gc] or a weak [GcWeak] each.  [trace] itself
    is taken not to panic (a panic in it is outside this model).  The [debug_assert!]s
    of the collector are checked, as in a build with debug assertions, and the gray
    box of a sweep is its failing assertion; [GcSafety] shows that none fails, so that
    builds without them behave the same. *)

From S2P Require Import Prelude Float64 GcMetrics.

(** ** [types.rs]: boxes *)

Abbreviation loc := positive (only parsing).

Module GcColor.
Inductive t : Type := White | WhiteWeak | Gray | Black.
#[global] Instance eq_dec : EqDecision t.
Proof. solve_decision. Defined.
End GcColor.
Abbreviation GcColor := GcColor.t.

(** The header word: a vtable pointer aligned to 16 with the colour in bits 0 and 1,
    [needs_trace] in bit 2 and [is_live] in bit 3 ([tagged_ptr::get], [set],
    [set_bool]). *)
Module Header.
Definition get (mask w : Z) : Z := Z.land w mask.
Definition set (mask w tag : Z) : Z := Z.lor (Z.land w (Z.lnot mask)) (Z.land tag mask).
Definition set_bool (mask w : Z) (value : bool) : Z :=
  Z.lor (Z.land w (Z.lnot mask)) (if value then mask else 0).

Definition color (w : Z) : GcColor :=
  if get 3 w =? 0 then GcColor.White
  else if get 3 w =? 1 then GcColor.WhiteWeak
  else if get 3 w =? 2 then GcColor.Gray
  else GcColor.Black.
Definition set_color (w : Z) (c : GcColor) : Z :=
  set 3 w (match c with
           | GcColor.White => 0 | GcColor.WhiteWeak => 1
           | GcColor.Gray => 2 | GcColor.Black => 3 end).
Definition needs_trace (w : Z) : bool := negb (get 4 w =? 0).
Definition set_needs_trace (w : Z) (b : bool) : Z := set_bool 4 w b.
Definition is_live (w : Z) : bool := negb (get 8 w =? 0).
Definition set_live (w : Z) (b : bool) : Z := set_bool 8 w b.
Definition vtable (w : Z) : Z := Z.land w (Z.lnot 15).
End Header.

(** A pointer held by a value *)
Inductive edge : Type :=
  | Strong (l : loc)
  | Weak (l : loc).
#[export] Instance edge_eq_dec : EqDecision edge.
Proof. solve_decision. Defined.

Record gc_box : Type := mk_box {
  next : option loc;
  color : GcColor;
  needs_trace : bool;
  live : bool;
  box_size : Z;
  edges : list edge
}.

Definition set_next (n : option loc) (b : gc_box) : gc_box :=
  mk_box n (color b) (needs_trace b) (live b) (box_size b) (edges b).
Definition set_color (c : GcColor) (b : gc_box) : gc_box :=
  mk_box (next b) c (needs_trace b) (live b) (box_size b) (edges b).
Definition set_live (l : bool) (b : gc_box) : gc_box :=
  mk_box (next b) (color b) (needs_trace b) l (box_size b) (edges b).
Definition set_edges (es : list edge) (b : gc_box) : gc_box :=
  mk_box (next b) (color b) (needs_trace b) (live b) (box_size b) es.

(** ** [context.rs] *)

Inductive Phase : Type := Mark | Sweep | Sleep | Drop.
#[export] Instance Phase_eq_dec : EqDecision Phase.
Proof. solve_decision. Defined.

Inductive EarlyStop : Type := BeforeSweep | AfterSweep.
#[export] Instance EarlyStop_eq_dec : EqDecision EarlyStop.
Proof. solve_decision. Defined.

Record Context_ : Type := mk_ctx {
  heap : gmap loc gc_box;
  metrics : Metrics.t;
  phase : Phase;
  root_needs_trace : bool;
  all : option loc;
  sweep : option loc;
  sweep_prev : option loc;
  gray : list loc;
  gray_again : list loc
}.

Module Gc.
Section Gc.
Context `{BuildProfile}.
Abbreviation ctx := Context_.

Definition with_heap (h : gmap loc gc_box) (c : ctx) : ctx :=
  mk_ctx h (metrics c) (phase c) (root_needs_trace c) (all c) (sweep c) (sweep_prev c)
    (gray c) (gray_again c).
Definition with_metrics (m : Metrics.t) (c : ctx) : ctx :=
  mk_ctx (heap c) m (phase c) (root_needs_trace c) (all c) (sweep c) (sweep_prev c)
    (gray c) (gray_again c).
Definition with_phase (p : Phase) (c : ctx) : ctx :=
  mk_ctx (heap c) (metrics c) p (root_needs_trace c) (all c) (sweep c) (sweep_prev c)
    (gray c) (gray_again c).
Definition with_root_needs_trace (b : bool) (c : ctx) : ctx :=
  mk_ctx (heap c) (metrics c) (phase c) b (all c) (sweep c) (sweep_prev c)
    (gray c) (gray_again c).
Definition with_all (l : option loc) (c : ctx) : ctx :=
  mk_ctx (heap c) (metrics c) (phase c) (root_needs_trace c) l (sweep c) (sweep_prev c)
    (gray c) (gray_again c).
Definition with_sweep (l : option loc) (c : ctx) : ctx :=
  mk_ctx (heap c) (metrics c) (phase c) (root_needs_trace c) (all c) l (sweep_prev c)
    (gray c) (gray_again c).
Definition with_sweep_prev (l : option loc) (c : ctx) : ctx :=
  mk_ctx (heap c) (metrics c) (phase c) (root_needs_trace c) (all c) (sweep c) l
    (gray c) (gray_again c).
Definition with_gray (l : list loc) (c : ctx) : ctx :=
  mk_ctx (heap c) (metrics c) (phase c) (root_needs_trace c) (all c) (sweep c)
    (sweep_prev c) l (gray_again c).
Definition with_gray_again (l : list loc) (c : ctx) : ctx :=
  mk_ctx (heap c) (metrics c) (phase c) (root_needs_trace c) (all c) (sweep c)
    (sweep_prev c) (gray c) l.

(** Reading a box behind a pointer: a dangling pointer is a panic of the model, as
    in the code it would be a use after free. *)
Definition get_box (c : ctx) (l : loc) : outcome gc_box :=
  match heap c !! l with Some b => Ok b | None => Panic end.
Definition put_box (l : loc) (b : gc_box) (c : ctx) : ctx :=
  with_heap (<[l := b]> (heap c)) c.

Definition new : outcome ctx :=
  m ← Metrics.new; Ok (mk_ctx ∅ m Sleep true None None None [] []).

Definition root_barrier (c : ctx) : ctx :=
  if decide (phase c = Mark) then with_root_needs_trace true c else c.

Definition gray_remaining (c : ctx) : bool :=
  match gray c, gray_again c with
  | [], [] => root_needs_trace c
  | _, _ => true
  end.

Definition is_white (c : GcColor) : bool :=
  match c with GcColor.White | GcColor.WhiteWeak => true | _ => false end.

Definition trace (l : loc) (c : ctx) : outcome ctx :=
  b ← get_box c l;
  if is_white (color b) then
    if needs_trace b then
      rust_assert (live b) ;;
      Ok (with_gray (gray c ++ [l]) (put_box l (set_color GcColor.Gray b) c))
    else
      Ok (with_metrics (Metrics.mark_gc_traced (box_size b) (metrics c))
            (put_box l (set_color GcColor.Black b) c))
  else Ok c.

Definition trace_weak (l : loc) (c : ctx) : outcome ctx :=
  b ← get_box c l;
  if decide (color b = GcColor.White) then Ok (put_box l (set_color GcColor.WhiteWeak b) c)
  else Ok c.

Definition trace_edge (e : edge) (c : ctx) : outcome ctx :=
  match e with Strong l => trace l c | Weak l => trace_weak l c end.

(** [Collect::trace] of a value: its pointers in order *)
Fixpoint trace_value (es : list edge) (c : ctx) : outcome ctx :=
  match es with
  | [] => Ok c
  | e :: es => c ← trace_edge e c; trace_value es c
  end.

Definition allocate (l : loc) (needs_trace : bool) (size : Z) (es : list edge) (c : ctx)
  : outcome ctx :=
  m ← Metrics.mark_gc_allocated size (metrics c);
  let b := mk_box (all c) GcColor.White needs_trace true size es in
  let c := with_all (Some l) (put_box l b (with_metrics m c)) in
  Ok (if decide (phase c = Sweep /\ sweep_prev c = None) then with_sweep_prev (all c) c
      else c).

Definition backward_barrier (parent : loc) (child : option loc) (c : ctx) : outcome ctx :=
  p ← get_box c parent;
  if decide (phase c = Mark /\ color p = GcColor.Black) then
    white ← match child with
            | Some l => k ← get_box c l; Ok (is_white (color k))
            | None => Ok true
            end;
    if white : bool then
      Ok (with_gray_again (gray_again c ++ [parent])
            (put_box parent (set_color GcColor.Gray p) c))
    else Ok c
  else Ok c.

Definition forward_barrier (parent : option loc) (child : loc) (c : ctx) : outcome ctx :=
  if decide (phase c = Mark) then
    black ← match parent with
            | Some l => p ← get_box c l; Ok (bool_decide (color p = GcColor.Black))
            | None => Ok true
            end;
    if black : bool then trace child c else Ok c
  else Ok c.

Definition upgrade (l : loc) (c : ctx) : outcome bool :=
  b ← get_box c l;
  Ok (if live b then
        negb (bool_decide (phase c = Sweep /\ color b = GcColor.WhiteWeak))
      else false).

(** [GcWeak::resurrect] with [Context::resurrect] *)
Definition resurrect (l : loc) (c : ctx) : outcome (bool * ctx) :=
  b ← get_box c l;
  if live b then
    rust_assert (bool_decide (phase c = Mark)) ;;
    Ok (true,
        if is_white (color b) then
          with_gray (gray c ++ [l]) (put_box l (set_color GcColor.Gray b) c)
        else c)
  else Ok (false, c).

(** [Gc::is_dead] and [GcWeak::is_dead], of a finalization *)
Definition is_dead (l : loc) (c : ctx) : outcome bool :=
  b ← get_box c l; Ok (is_white (color b)).

(** [drop_in_place] drops the value and [dealloc] frees the box: the first leaves a
    box whose value must no longer be reached, the second no box at all. *)
Definition dealloc (l : loc) (c : ctx) : ctx := with_heap (delete l (heap c)) c.

(** ** Collection *)

(** The end of a round of the loop: [continue], or the debt check with a target *)
Inductive control : Type :=
  | Continue
  | Check (target_debt : f64).

Definition mark_round (root : list edge) (target : f64) (early_stop : option EarlyStop)
    (c : ctx) : outcome (ctx * control) :=
  next_gray ← match last (gray c) with
              | Some l =>
                  b ← get_box c l;
                  Ok (Some l, with_metrics (Metrics.mark_gc_traced (box_size b) (metrics c))
                                (with_gray (removelast (gray c)) c))
              | None =>
                  match last (gray_again c) with
                  | Some l => Ok (Some l, with_gray_again (removelast (gray_again c)) c)
                  | None => Ok (None, c)
                  end
              end;
  match next_gray with
  | (Some l, c) =>
      b ← get_box c l;
      rust_assert (live b) ;;
      c ← trace_value (edges b) c;
      b ← get_box c l;
      Ok (put_box l (set_color GcColor.Black b) c, Check target)
  | (None, c) =>
      if root_needs_trace c then
        c ← trace_value root c;
        Ok (with_root_needs_trace false c, Check target)
      else if decide (early_stop = Some BeforeSweep) then Ok (c, Check F64.INFINITY)
      else Ok (with_sweep (all c) (with_phase Sweep c), Continue)
  end.

Definition sweep_round (target : f64) (early_stop : option EarlyStop) (c : ctx)
  : outcome (ctx * control) :=
  if decide (early_stop = Some AfterSweep) then Ok (c, Check F64.INFINITY)
  else
    match sweep c with
    | Some l =>
        b ← get_box c l;
        let c := with_sweep (next b) c in
        match color b with
        | GcColor.White =>
            c ← match sweep_prev c with
                | Some p => q ← get_box c p; Ok (put_box p (set_next (next b) q) c)
                | None =>
                    rust_assert (bool_decide (all c = Some l)) ;;
                    Ok (with_all (next b) c)
                end;
            m ← Metrics.mark_gc_deallocated (box_size b) (metrics c);
            Ok (dealloc l (with_metrics m c), Check target)
        | GcColor.WhiteWeak =>
            let c := with_sweep_prev (Some l) c in
            Ok (put_box l (set_live false (set_color GcColor.White b)) c, Check target)
        | GcColor.Black =>
            let c := with_sweep_prev (Some l) c in
            m ← Metrics.mark_gc_remembered (box_size b) (metrics c);
            Ok (put_box l (set_color GcColor.White b) (with_metrics m c), Check target)
        | GcColor.Gray => Panic
        end
    | None =>
        let c := with_phase Sleep (with_root_needs_trace true (with_sweep_prev None c)) in
        Ok (with_metrics (Metrics.start_cycle (metrics c)) c, Check F64.INFINITY)
    end.

Definition collect_round (root : list edge) (target : f64) (early_stop : option EarlyStop)
    (c : ctx) : outcome (ctx * control) :=
  match phase c with
  | Sleep => Ok (with_phase Mark c, Continue)
  | Mark => mark_round root target early_stop c
  | Sweep => sweep_round target early_stop c
  | Drop => Panic
  end.

Fixpoint collect_loop (fuel : nat) (root : list edge) (target : f64)
    (early_stop : option EarlyStop) (c : ctx) : option (outcome ctx) :=
  match fuel with
  | O => None
  | S fuel =>
      match collect_round root target early_stop c with
      | Ok (c, Continue) => collect_loop fuel root target early_stop c
      | Ok (c, Check target) =>
          if F64.ltb target (Metrics.allocation_debt (metrics c)) then
            collect_loop fuel root target early_stop c
          else Some (Ok c)
      | Panic => Some Panic
      end
  end.

Definition do_collection (fuel : nat) (root : list edge) (target : f64)
    (early_stop : option EarlyStop) (c : ctx) : option (outcome ctx) :=
  if F64.ltb target (Metrics.allocation_debt (metrics c)) then
    collect_loop fuel root target early_stop c
  else Some (Ok c).

(** [Context::drop]: every box of the list is freed, in order ([DropAll]; that it
    resumes after a panic of a destructor is outside the model). *)
Fixpoint drop_all (fuel : nat) (cur : option loc) (c : ctx) : option (outcome ctx) :=
  match cur with
  | None => Some (Ok c)
  | Some l =>
      match fuel with
      | O => None
      | S fuel =>
          match b ← get_box c l;
                m ← Metrics.mark_gc_deallocated (box_size b) (metrics c);
                Ok (next b, dealloc l (with_metrics m c)) with
          | Ok (next, c) => drop_all fuel next c
          | Panic => Some Panic
          end
      end
  end.
Definition drop (c : ctx) : option (outcome ctx) :=
  drop_all (size (heap c)) (all c) (with_phase Drop c).

(** ** [arena.rs] *)

Inductive CollectionPhase : Type := Sleeping | Marking | Marked | Sweeping.

Definition collection_phase (c : ctx) : outcome CollectionPhase :=
  match phase c with
  | Mark => Ok (if gray_remaining c then Marking else Marked)
  | Sweep => Ok Sweeping
  | Sleep => Ok Sleeping
  | Drop => Panic
  end.

(** Enough rounds for any collection: see [GcSafety.do_collection_returns] *)
Definition rounds (c : ctx) : nat := (3 * size (heap c) + 6)%nat.

Definition collect_debt (root : list edge) (c : ctx) : option (outcome ctx) :=
  do_collection (rounds c) root F64.ZERO None c.
Definition collect_all (root : list edge) (c : ctx) : option (outcome ctx) :=
  do_collection (rounds c) root Metrics.NEG_INFINITY None c.

(** [mark_debt] and [mark_all]; the boolean tells whether a [MarkedArena] is
    returned. *)
Definition mark_to (target : f64) (root : list edge) (c : ctx)
  : option (outcome (ctx * bool)) :=
  let marked c := (c, bool_decide (phase c = Mark) && negb (gray_remaining c)) in
  if bool_decide (phase c = Mark) || bool_decide (phase c = Sleep) then
    (fun o : outcome ctx => marked <$> o) <$>
      do_collection (rounds c) root target (Some BeforeSweep) c
  else Some (Ok (marked c)).
Definition mark_debt := mark_to F64.ZERO.
Definition mark_all := mark_to Metrics.NEG_INFINITY.

Definition start_sweeping (root : list edge) (c : ctx) : option (outcome ctx) :=
  (fun o : outcome ctx => c ← o; rust_assert (bool_decide (phase c = Sweep)) ;; Ok c) <$>
    do_collection (rounds c) root Metrics.NEG_INFINITY (Some AfterSweep) c.
End Gc.
End Gc.
