(* ===== verification/GcFacts.v ===== *)
(** * The invariant of the collector and its preservation by collection

    The allocation list, the tri-colour invariant of marking, the partition of
    sweeping, the closure of what is kept, and the accounting. *)

From S2P Require Import Prelude Float64 GcMetrics GcArena.
Import Gc.

(** ** Lists of boxes *)

(** The list linked by [next] from [start] *)
Fixpoint chain (h : gmap loc gc_box) (start : option loc) (l : list loc) : Prop :=
  match l with
  | [] => start = None
  | x :: l => start = Some x /\ exists b, h !! x = Some b /\ chain h (next b) l
  end.

Lemma chain_head h s l : chain h s l -> s = head l.
Proof. destruct l; cbn; [done|by intros [-> _]]. Qed.

Lemma chain_ext h h' s l :
  (forall x, x ∈ l -> next <$> h' !! x = next <$> h !! x) -> chain h s l -> chain h' s l.
Proof.
  revert s. induction l as [|x l IH]; intros s He; cbn; [done|].
  intros (-> & b & Hb & Hc). split; [done|].
  pose proof (He x ltac:(left)) as Ex. rewrite Hb in Ex. cbn in Ex.
  destruct (h' !! x) as [b'|]; [|done]. injection Ex as Ex. exists b'. split; [done|].
  rewrite Ex. apply IH; [|done]. intros y Hy. apply He. by right.
Qed.

Lemma chain_lookup h s l x : chain h s l -> x ∈ l -> is_Some (h !! x).
Proof.
  revert s. induction l as [|y l IH]; intros s; cbn; [by intros _ ?%elem_of_nil|].
  intros (_ & b & Hb & Hc) [->|Hx]%elem_of_cons; [by eexists|by eapply IH].
Qed.

Lemma chain_suffix h s l1 l2 : chain h s (l1 ++ l2) -> exists s', chain h s' l2.
Proof.
  revert s. induction l1 as [|x l1 IH]; intros s; cbn; [by eexists|].
  intros (_ & b & _ & Hc). by eapply IH.
Qed.

Lemma chain_unlink h s pre p x post bp bx :
  NoDup (pre ++ p :: x :: post) -> chain h s (pre ++ p :: x :: post) ->
  h !! p = Some bp -> h !! x = Some bx ->
  chain (<[p := set_next (next bx) bp]> h) s (pre ++ p :: post).
Proof.
  intros Hnd Hc Hp Hx. revert s Hnd Hc. induction pre as [|y pre IH]; intros s Hnd; cbn.
  - intros (-> & b & Hb & _ & b' & Hb' & Hc). simplify_eq. split; [done|].
    eexists. rewrite lookup_insert_eq. split; [done|]. cbn.
    eapply chain_ext; [|exact Hc]. intros z Hz. rewrite lookup_insert_ne; [done|].
    intros ->. apply NoDup_cons in Hnd as [Hn _]. apply Hn. by right.
  - cbn in Hnd. apply NoDup_cons in Hnd as [Hy Hnd]. intros (-> & b & Hb & Hc).
    split; [done|]. exists b. split; [|by apply IH].
    rewrite lookup_insert_ne; [done|]. intros ->. apply Hy. set_solver.
Qed.

(** A sum over boxes *)
Definition weigh (w : gc_box -> Z) (h : gmap loc gc_box) (x : loc) : Z :=
  match h !! x with Some b => w b | None => 0 end.
Fixpoint total (w : gc_box -> Z) (h : gmap loc gc_box) (l : list loc) : Z :=
  match l with
  | [] => 0
  | x :: l => weigh w h x + total w h l
  end.

Lemma total_app w h l1 l2 : total w h (l1 ++ l2) = total w h l1 + total w h l2.
Proof. induction l1 as [|x l1 IH]; cbn; lia. Qed.

Lemma total_le w w' h h' l :
  (forall x, x ∈ l -> weigh w h x <= weigh w' h' x) -> total w h l <= total w' h' l.
Proof.
  induction l as [|x l IH]; intros Hle; cbn; [lia|].
  pose proof (Hle x ltac:(left)). pose proof (IH (fun y Hy => Hle y ltac:(by right))). lia.
Qed.

Lemma total_ext w h h' l :
  (forall x, x ∈ l -> weigh w h x = weigh w h' x) -> total w h l = total w h' l.
Proof. intros He. apply Z.le_antisymm; apply total_le; intros x Hx; by rewrite He. Qed.

Lemma total_lt w h h' l x : x ∈ l -> weigh w h x < weigh w h' x ->
  (forall y, y ∈ l -> weigh w h y <= weigh w h' y) -> total w h l < total w h' l.
Proof.
  intros Hx Hlt Hle. apply list_elem_of_split in Hx as (l1 & l2 & ->).
  rewrite !total_app. cbn. pose proof (total_le w w h h' l1 ltac:(set_solver)).
  pose proof (total_le w w h h' l2 ltac:(set_solver)). lia.
Qed.

Lemma total_bound w h l n : (forall b, 0 <= w b <= n) -> 0 <= n ->
  0 <= total w h l <= n * Z.of_nat (length l).
Proof.
  intros Hw Hn. induction l as [|x l IH]; cbn [total length]; [lia|].
  assert (0 <= weigh w h x <= n) by (unfold weigh; destruct (h !! x); [apply Hw|lia]). lia.
Qed.

(** ** Colours *)

Definition rank (c : GcColor) : Z :=
  match c with GcColor.White => 0 | GcColor.WhiteWeak => 1 | GcColor.Gray => 2
             | GcColor.Black => 3 end.

(** The work left in a box during marking *)
Definition work (b : gc_box) : Z :=
  match color b with GcColor.White | GcColor.WhiteWeak => 2 | GcColor.Gray => 1
                   | GcColor.Black => 0 end.

(** What marking does not change of a box *)
Definition shape (b : gc_box) : option loc * bool * bool * Z * list edge :=
  (next b, needs_trace b, live b, box_size b, edges b).

(** The heap changes in colours only, and colours only get darker. *)
Definition darkens (h h' : gmap loc gc_box) : Prop :=
  forall l, match h !! l, h' !! l with
            | Some b, Some b' => shape b' = shape b /\ rank (color b) <= rank (color b')
            | None, None => True
            | _, _ => False
            end.

Lemma darkens_refl h : darkens h h.
Proof. intros l. destruct (h !! l); [split; [done|lia]|done]. Qed.

Lemma darkens_trans h1 h2 h3 : darkens h1 h2 -> darkens h2 h3 -> darkens h1 h3.
Proof.
  intros H1 H2 l. specialize (H1 l). specialize (H2 l).
  destruct (h1 !! l), (h2 !! l), (h3 !! l); try done. destruct H1, H2.
  split; [congruence|lia].
Qed.

Lemma darkens_lookup h h' l b : darkens h h' -> h !! l = Some b ->
  exists b', h' !! l = Some b' /\ shape b' = shape b /\ rank (color b) <= rank (color b').
Proof.
  intros Hd Hb. specialize (Hd l). rewrite Hb in Hd. destruct (h' !! l) as [b'|]; [|done].
  by exists b'.
Qed.

Lemma darkens_lookup_inv h h' l b' : darkens h h' -> h' !! l = Some b' ->
  exists b, h !! l = Some b /\ shape b' = shape b /\ rank (color b) <= rank (color b').
Proof.
  intros Hd Hb. specialize (Hd l). rewrite Hb in Hd. destruct (h !! l) as [b|]; [|done].
  by exists b.
Qed.

Lemma darkens_insert h l b c : h !! l = Some b -> rank (color b) <= rank c ->
  darkens h (<[l := set_color c b]> h).
Proof.
  intros Hb Hc x. destruct (decide (x = l)) as [->|Hne].
  - by rewrite Hb, lookup_insert_eq.
  - rewrite lookup_insert_ne by done. apply darkens_refl.
Qed.

Lemma shape_eq b b' : shape b = shape b' ->
  next b = next b' /\ needs_trace b = needs_trace b' /\ live b = live b' /\
  box_size b = box_size b' /\ edges b = edges b'.
Proof. intros [= ]. done. Qed.

Lemma darkens_chain h h' s l : darkens h h' -> chain h s l -> chain h' s l.
Proof.
  intros Hd. apply chain_ext. intros x _. specialize (Hd x).
  destruct (h !! x), (h' !! x); try done. cbn. destruct Hd as [Hs _].
  apply shape_eq in Hs. f_equal. tauto.
Qed.

Lemma darkens_size h h' l : darkens h h' -> total box_size h l = total box_size h' l.
Proof.
  intros Hd. apply total_ext. intros x _. unfold weigh. specialize (Hd x).
  destruct (h !! x), (h' !! x); try done. destruct Hd as [Hs _].
  apply shape_eq in Hs. symmetry. tauto.
Qed.

Lemma work_rank b b' : rank (color b) <= rank (color b') -> work b' <= work b.
Proof. unfold work. destruct (color b), (color b'); cbn; lia. Qed.

Lemma darkens_work h h' l : darkens h h' -> total work h' l <= total work h l.
Proof.
  intros Hd. apply total_le. intros x _. unfold weigh. specialize (Hd x).
  destruct (h !! x), (h' !! x); try done. apply work_rank, Hd.
Qed.

(** The heap changes in colours only. *)
Definition same_shapes (h h' : gmap loc gc_box) : Prop :=
  forall l, shape <$> h' !! l = shape <$> h !! l.

Lemma same_shapes_sym h h' : same_shapes h h' -> same_shapes h' h.
Proof. intros Hs l. symmetry. apply Hs. Qed.

Lemma same_shapes_lookup h h' l b : same_shapes h h' -> h !! l = Some b ->
  exists b', h' !! l = Some b' /\ shape b' = shape b.
Proof.
  intros Hs Hb. specialize (Hs l). rewrite Hb in Hs. destruct (h' !! l) as [b'|]; [|done].
  exists b'. split; [done|]. by apply (inj Some) in Hs.
Qed.

Lemma darkens_shapes h h' : darkens h h' -> same_shapes h h'.
Proof.
  intros Hd l. specialize (Hd l). destruct (h !! l), (h' !! l); try done. cbn. f_equal. tauto.
Qed.

Lemma same_shapes_chain h h' s l : same_shapes h h' -> chain h s l -> chain h' s l.
Proof.
  intros Hs. apply chain_ext. intros x _. specialize (Hs x).
  destruct (h !! x), (h' !! x); try done. cbn in *. apply (inj Some), shape_eq in Hs. f_equal. tauto.
Qed.

Lemma same_shapes_size h h' l : same_shapes h h' -> total box_size h' l = total box_size h l.
Proof.
  intros Hs. apply total_ext. intros x _. unfold weigh. specialize (Hs x).
  destruct (h !! x), (h' !! x); try done. cbn in *. apply (inj Some), shape_eq in Hs. tauto.
Qed.

(** ** Marking *)

(** A pointer whose target the marking has reached *)
Definition marked (h : gmap loc gc_box) (e : edge) : Prop :=
  match e with
  | Strong l => exists b, h !! l = Some b /\ 2 <= rank (color b)
  | Weak l => exists b, h !! l = Some b /\ 1 <= rank (color b)
  end.

(** A pointer that can be followed: the target of a strong one is alive, the box of
    a weak one is allocated *)
Definition pointee (h : gmap loc gc_box) (e : edge) : Prop :=
  match e with
  | Strong l => exists b, h !! l = Some b /\ live b = true
  | Weak l => is_Some (h !! l)
  end.

Lemma marked_darkens h h' e : darkens h h' -> marked h e -> marked h' e.
Proof.
  intros Hd. destruct e; cbn; intros (b & Hb & Hr);
    destruct (darkens_lookup h h' l b Hd Hb) as (b' & Hb' & _ & Hr'); exists b'; split; (done || lia).
Qed.

Lemma pointee_darkens h h' e : darkens h h' -> pointee h e -> pointee h' e.
Proof.
  intros Hd. destruct e; cbn.
  - intros (b & Hb & Hr). destruct (darkens_lookup h h' l b Hd Hb) as (b' & Hb' & Hs & _).
    exists b'. apply shape_eq in Hs. split; [done|]. by rewrite (proj1 (proj2 (proj2 Hs))).
  - intros [b Hb]. destruct (darkens_lookup h h' l b Hd Hb) as (b' & Hb' & _). by eexists.
Qed.

(** [cur] holds the box being traced, gray and already off its queue. *)
Record marking (cur : list loc) (c : Context_) : Prop := {
  mk_gray : forall l, (exists b, heap c !! l = Some b /\ color b = GcColor.Gray) <->
    l ∈ cur ++ gray c ++ gray_again c;
  mk_nodup : NoDup (cur ++ gray c ++ gray_again c);
  mk_live : forall l b, heap c !! l = Some b -> 2 <= rank (color b) -> live b = true;
  mk_black : forall l b, heap c !! l = Some b -> color b = GcColor.Black ->
    Forall (marked (heap c)) (edges b);
  mk_leaf : forall l b, heap c !! l = Some b -> needs_trace b = false -> edges b = []
}.

Definition accounts (m : Metrics.t) : Z * Z * Z * Z :=
  (Metrics.total_gcs m, Metrics.total_gc_bytes m, Metrics.remembered_gcs m,
   Metrics.remembered_gc_bytes m).

(** What tracing leaves alone *)
Record marks (c c' : Context_) : Prop := {
  ms_darkens : darkens (heap c) (heap c');
  ms_accounts : accounts (metrics c') = accounts (metrics c);
  ms_phase : phase c' = phase c;
  ms_root : root_needs_trace c' = root_needs_trace c;
  ms_all : all c' = all c;
  ms_sweep : sweep c' = sweep c;
  ms_prev : sweep_prev c' = sweep_prev c
}.

Lemma marks_refl c : marks c c.
Proof. split; (done || apply darkens_refl). Qed.

Lemma marks_trans c1 c2 c3 : marks c1 c2 -> marks c2 c3 -> marks c1 c3.
Proof. intros [] []. split; [by eapply darkens_trans|congruence..]. Qed.

Lemma marking_perm cur cur' c c' : heap c' = heap c ->
  cur' ++ gray c' ++ gray_again c' ≡ₚ cur ++ gray c ++ gray_again c ->
  marking cur c -> marking cur' c'.
Proof.
  intros Eh Hp [H1 H2 H3 H4 H5]. split; rewrite ?Eh; try done.
  - intros l. rewrite Hp. apply H1.
  - by rewrite Hp.
Qed.

Lemma marking_same cur c c' : heap c' = heap c -> gray c' = gray c ->
  gray_again c' = gray_again c -> marking cur c -> marking cur c'.
Proof. intros E1 E2 E3. apply marking_perm; [done|]. by rewrite E2, E3. Qed.

(** Only targets of the traced pointers become reached. *)
Definition reached (h : gmap loc gc_box) (l : loc) : Prop := marked h (Strong l).
Definition reaches_only (h h' : gmap loc gc_box) (es : list edge) : Prop :=
  forall l, reached h' l -> reached h l \/ Strong l ∈ es.

Lemma reached_insert h l b c x : h !! l = Some b ->
  reached (<[l := set_color c b]> h) x -> reached h x \/ (x = l /\ 2 <= rank c).
Proof.
  intros Hb (b' & Hb' & Hr). destruct (decide (x = l)) as [->|Hne].
  - rewrite lookup_insert_eq in Hb'. injection Hb' as <-. by right.
  - rewrite lookup_insert_ne in Hb' by done. left. by exists b'.
Qed.

(** Changing the colour of a white box *)
Lemma marking_recolor cur c l b k : marking cur c -> heap c !! l = Some b ->
  color b <> GcColor.Gray -> rank (color b) <= rank k ->
  k <> GcColor.Gray -> (2 <= rank k -> live b = true) ->
  (k = GcColor.Black -> Forall (marked (heap c)) (edges b)) ->
  marking cur (put_box l (set_color k b) c).
Proof.
  intros Hm Hb Hng Hrank Hk Hlive Hblack.
  pose proof (darkens_insert _ l b k Hb Hrank) as Hd.
  split; cbn [heap gray gray_again put_box with_heap].
  - intros x. rewrite <- (mk_gray _ _ Hm). destruct (decide (x = l)) as [->|Hne].
    + rewrite lookup_insert_eq, Hb. split; intros (b' & [= <-] & Hc); done.
    + by rewrite lookup_insert_ne.
  - apply Hm.
  - intros x b'. destruct (decide (x = l)) as [->|Hne].
    + rewrite lookup_insert_eq. intros [= <-]. apply Hlive.
    + rewrite lookup_insert_ne by done. apply Hm.
  - intros x b'. destruct (decide (x = l)) as [->|Hne].
    + rewrite lookup_insert_eq. intros [= <-] Hc. eapply Forall_impl; [by apply Hblack|].
      intros e. by apply marked_darkens.
    + rewrite lookup_insert_ne by done. intros Hx Hc. eapply Forall_impl; [by eapply mk_black|].
      intros e. by apply marked_darkens.
  - intros x b'. destruct (decide (x = l)) as [->|Hne].
    + rewrite lookup_insert_eq. intros [= <-]. exact (mk_leaf _ _ Hm l b Hb).
    + rewrite lookup_insert_ne by done. apply Hm.
Qed.

Lemma marked_gray h l b e : marked h e -> marked (<[l := set_color GcColor.Gray b]> h) e.
Proof.
  destruct e as [x|x]; cbn; intros (b' & Hb' & Hr); destruct (decide (x = l)) as [->|Hne].
  all: first [rewrite lookup_insert_eq; eexists; split; [done|cbn; lia]
    | rewrite lookup_insert_ne by done; by exists b'].
Qed.

Lemma recolor_shapes h l b k : h !! l = Some b -> same_shapes h (<[l := set_color k b]> h).
Proof.
  intros Hb x. destruct (decide (x = l)) as [->|Hne];
    [by rewrite lookup_insert_eq, Hb|by rewrite lookup_insert_ne].
Qed.

(** Turning a box gray and queueing it, in either queue *)
Lemma marking_gray cur c l b g ga : marking cur c -> heap c !! l = Some b ->
  color b <> GcColor.Gray -> live b = true -> l :: gray c ++ gray_again c ≡ₚ g ++ ga ->
  marking cur (with_gray_again ga (with_gray g (put_box l (set_color GcColor.Gray b) c))).
Proof.
  intros Hm Hb Hng Hlive Hperm.
  split; cbn [heap gray gray_again put_box with_heap with_gray with_gray_again].
  - intros x. rewrite !elem_of_app. trans (x ∈ cur \/ x ∈ l :: gray c ++ gray_again c).
    2:{ rewrite Hperm. set_solver. }
    rewrite elem_of_cons. pose proof (mk_gray _ _ Hm x) as Hx. rewrite elem_of_app in Hx.
    destruct (decide (x = l)) as [->|Hne].
    + rewrite lookup_insert_eq. split; intros _; [right; by left|by eexists].
    + rewrite lookup_insert_ne, Hx by done. tauto.
  - assert (Hl : l ∉ cur ++ gray c ++ gray_again c).
    { intros Hin. apply (mk_gray _ _ Hm) in Hin as (b' & Hb' & Hc). congruence. }
    pose proof (mk_nodup _ _ Hm) as Hnd. rewrite <- Hperm, <- Permutation_middle.
    apply NoDup_cons. split; [done|]. done.
  - intros x b'. destruct (decide (x = l)) as [->|Hne].
    + rewrite lookup_insert_eq. by intros [= <-].
    + rewrite lookup_insert_ne by done. apply Hm.
  - intros x b'. destruct (decide (x = l)) as [->|Hne].
    + rewrite lookup_insert_eq. by intros [= <-].
    + rewrite lookup_insert_ne by done. intros Hx Hc. eapply Forall_impl; [by eapply mk_black|].
      intros e. apply marked_gray.
  - intros x b'. destruct (decide (x = l)) as [->|Hne].
    + rewrite lookup_insert_eq. intros [= <-]. exact (mk_leaf _ _ Hm l b Hb).
    + rewrite lookup_insert_ne by done. apply Hm.
Qed.

Lemma marks_recolor c l b k g ga : heap c !! l = Some b -> rank (color b) <= rank k ->
  marks c (with_gray_again ga (with_gray g (put_box l (set_color k b) c))).
Proof. intros Hb Hr. split; try done. cbn. by apply darkens_insert. Qed.

Lemma is_white_rank k : is_white k = true <-> rank k <= 1.
Proof. destruct k; cbn; split; (done || lia). Qed.

Lemma trace_spec cur c l b : marking cur c -> heap c !! l = Some b -> live b = true ->
  exists c', trace l c = Ok c' /\ marks c c' /\ marking cur c' /\
    marked (heap c') (Strong l) /\ reaches_only (heap c) (heap c') [Strong l] /\
    gray_again c' = gray_again c.
Proof.
  intros Hm Hb Hlive. unfold trace, get_box. rewrite Hb, outcome_bind_Ok.
  destruct (is_white (color b)) eqn:Hw.
  2:{ assert (2 <= rank (color b)) by (destruct (color b); cbn in *; (done || lia)).
      exists c. split; [done|]. split; [apply marks_refl|]. split; [done|].
      split; [by exists b|]. split; [|done]. intros x Hx. by left. }
  apply is_white_rank in Hw as Hr.
  assert (Hng : color b <> GcColor.Gray) by (intros E; by rewrite E in Hw).
  destruct (needs_trace b) eqn:Hn.
  - rewrite Hlive. cbn [rust_assert]. rewrite outcome_bind_Ok. eexists. split; [reflexivity|].
    assert (Hreach : reaches_only (heap c) (<[l := set_color GcColor.Gray b]> (heap c)) [Strong l]).
    { intros x Hx. apply (reached_insert (heap c) l b GcColor.Gray) in Hx as [?|[-> _]]; [by left| |done].
      right. set_solver. }
    split; [|split; [|split; [|by split]]].
    + apply (marks_recolor c l b GcColor.Gray (gray c ++ [l]) (gray_again c) Hb). cbn. lia.
    + apply (marking_gray cur c l b (gray c ++ [l]) (gray_again c) Hm Hb Hng Hlive).
      by rewrite <- app_assoc, Permutation_middle.
    + cbn. eexists. rewrite lookup_insert_eq. split; [done|cbn; lia].
  - eexists. split; [reflexivity|].
    assert (Hd : darkens (heap c) (<[l := set_color GcColor.Black b]> (heap c)))
      by (apply darkens_insert; [done|cbn; lia]).
    assert (Hreach : reaches_only (heap c) (<[l := set_color GcColor.Black b]> (heap c)) [Strong l]).
    { intros x Hx. apply (reached_insert (heap c) l b GcColor.Black) in Hx as [?|[-> _]]; [by left| |done].
      right. set_solver. }
    split; [by split|]. split.
    + apply (marking_same cur (put_box l (set_color GcColor.Black b) c)); [done..|].
      apply (marking_recolor cur c l b GcColor.Black Hm Hb Hng); [cbn; lia|done|done|].
      intros _. by rewrite (mk_leaf _ _ Hm l b Hb Hn).
    + split; [|by split]. cbn. eexists. rewrite lookup_insert_eq. split; [done|cbn; lia].
Qed.

Lemma trace_weak_spec cur c l : marking cur c -> is_Some (heap c !! l) ->
  exists c', trace_weak l c = Ok c' /\ marks c c' /\ marking cur c' /\
    marked (heap c') (Weak l) /\ reaches_only (heap c) (heap c') [] /\
    gray_again c' = gray_again c.
Proof.
  intros Hm [b Hb]. unfold trace_weak, get_box. rewrite Hb, outcome_bind_Ok.
  destruct (decide (color b = GcColor.White)) as [Hw|Hnw].
  - eexists. split; [reflexivity|]. split; [|split; [|split; [|split]]].
    + apply (marks_recolor c l b GcColor.WhiteWeak (gray c) (gray_again c) Hb). by rewrite Hw.
    + apply (marking_recolor cur c l b GcColor.WhiteWeak Hm Hb); rewrite ?Hw; cbn; (done || lia).
    + cbn. eexists. rewrite lookup_insert_eq. split; [done|cbn; lia].
    + intros x Hx. apply (reached_insert (heap c) l b GcColor.WhiteWeak) in Hx
        as [?|[_ Hx]]; [by left| |done]. cbn in Hx. lia.
    + done.
  - exists c. split; [done|]. split; [apply marks_refl|]. split; [done|]. split.
    + exists b. split; [done|]. destruct (color b); cbn; (done || lia).
    + split; [|done]. intros x Hx. by left.
Qed.

Lemma trace_value_spec cur es c : marking cur c -> Forall (pointee (heap c)) es ->
  exists c', trace_value es c = Ok c' /\ marks c c' /\ marking cur c' /\
    Forall (marked (heap c')) es /\ reaches_only (heap c) (heap c') es /\
    gray_again c' = gray_again c.
Proof.
  revert c. induction es as [|e es IH]; intros c Hm Hes; cbn [trace_value].
  { exists c. split; [done|]. split; [apply marks_refl|]. split; [done|]. split; [done|].
    split; [|done]. intros x Hx. by left. }
  apply Forall_cons in Hes as [He Hes].
  assert (Hedge : exists c', trace_edge e c = Ok c' /\ marks c c' /\ marking cur c' /\
    marked (heap c') e /\ reaches_only (heap c) (heap c') [e] /\ gray_again c' = gray_again c).
  { destruct e as [l|l]; cbn [trace_edge].
    - destruct He as (b & Hb & Hlive). by eapply trace_spec.
    - destruct (trace_weak_spec cur c l Hm He) as (c' & E & H1 & H2 & H3 & H4 & H5).
      exists c'. do 4 (split; [done|]). split; [|done]. intros x Hx.
      destruct (H4 x Hx) as [?|[]%elem_of_nil]. by left. }
  destruct Hedge as (c1 & -> & Hs1 & Hm1 & He1 & Hr1 & Hg1). rewrite outcome_bind_Ok.
  destruct (IH c1 Hm1) as (c2 & E2 & Hs2 & Hm2 & He2 & Hr2 & Hg2).
  { eapply Forall_impl; [exact Hes|]. intros x. apply pointee_darkens, Hs1. }
  exists c2. split; [done|]. split; [by eapply marks_trans|]. split; [done|]. split.
  { apply Forall_cons. split; [|done]. eapply marked_darkens; [apply Hs2|done]. }
  split; [|congruence]. intros x Hx. destruct (Hr2 x Hx) as [Hx1|Hx2]; [|right; by right].
  destruct (Hr1 x Hx1) as [?|[->|[]%elem_of_nil]%elem_of_cons]; [by left|right; by left].
Qed.

(** ** The invariant *)

Definition kept (c : Context_) (pre : list loc) (l : loc) : Prop :=
  exists b, heap c !! l = Some b /\ live b = true /\
    (phase c = Sweep -> l ∈ pre \/ color b = GcColor.Black).

Definition weak_ok (c : Context_) (pre : list loc) (l : loc) : Prop :=
  exists b, heap c !! l = Some b /\
    (phase c = Sweep -> l ∈ pre \/ color b <> GcColor.White).

(** A pointer that may be held: it survives the rest of this cycle. *)
Definition edge_ok (c : Context_) (pre : list loc) (e : edge) : Prop :=
  match e with Strong l => kept c pre l | Weak l => weak_ok c pre l end.

(** The boxes are those of the allocation list, in [pre] before the sweep cursor and
    in [post] from it on. *)
Record placed (c : Context_) (pre post : list loc) : Prop := {
  pl_chain : chain (heap c) (all c) (pre ++ post);
  pl_nodup : NoDup (pre ++ post);
  pl_dom : forall l, is_Some (heap c !! l) -> l ∈ pre ++ post
}.

Definition cursor (c : Context_) (pre post : list loc) : Prop :=
  match phase c with
  | Sweep => sweep c = head post /\ sweep_prev c = last pre
  | Mark | Sleep => pre = [] /\ sweep c = None /\ sweep_prev c = None
  | Drop => False
  end.

(** The counters are exact. *)
Record accounted (c : Context_) (pre post : list loc) : Prop := {
  ac_gcs : Metrics.total_gcs (metrics c) = Z.of_nat (length (pre ++ post));
  ac_bytes : Metrics.total_gc_bytes (metrics c) = total box_size (heap c) (pre ++ post);
  ac_size : forall l b, heap c !! l = Some b -> 1 <= box_size b;
  ac_bound : Metrics.total_gc_bytes (metrics c) <= int_max usize;
  ac_remembered : match phase c with
    | Sweep =>
        0 <= Metrics.remembered_gcs (metrics c) <=
          Metrics.total_gcs (metrics c) - Z.of_nat (length post) /\
        0 <= Metrics.remembered_gc_bytes (metrics c) <=
          Metrics.total_gc_bytes (metrics c) - total box_size (heap c) post
    | _ => Metrics.remembered_gcs (metrics c) = 0 /\ Metrics.remembered_gc_bytes (metrics c) = 0
    end
}.

Definition coloured (root : list edge) (c : Context_) (pre : list loc) : Prop :=
  match phase c with
  | Sleep =>
      (forall l b, heap c !! l = Some b -> color b = GcColor.White) /\
      gray c = [] /\ gray_again c = [] /\ root_needs_trace c = true
  | Mark =>
      marking [] c /\ (root_needs_trace c = false -> Forall (marked (heap c)) root)
  | Sweep =>
      gray c = [] /\ gray_again c = [] /\
      forall l b, heap c !! l = Some b ->
        color b <> GcColor.Gray /\ (l ∈ pre -> color b = GcColor.White) /\
        (color b = GcColor.Black -> live b = true)
  | Drop => False
  end.

(** [held] is what the program holds: the root, and the pointers of a running
    callback. *)
Record inv (root held : list edge) (c : Context_) (pre post : list loc) : Prop := {
  inv_placed : placed c pre post;
  inv_cursor : cursor c pre post;
  inv_accounted : accounted c pre post;
  inv_coloured : coloured root c pre;
  inv_leaf : forall l b, heap c !! l = Some b -> needs_trace b = false -> edges b = [];
  inv_closed : forall l b, heap c !! l = Some b -> kept c pre l ->
    Forall (edge_ok c pre) (edges b);
  inv_root : Forall (edge_ok c pre) root;
  inv_held : Forall (edge_ok c pre) held
}.

Lemma edge_ok_pointee c pre e : edge_ok c pre e -> pointee (heap c) e.
Proof.
  destruct e; cbn; intros (b & Hb & Hr).
  - exists b. tauto.
  - by exists b.
Qed.

Lemma inv_box_in root held c pre post l b : inv root held c pre post ->
  heap c !! l = Some b -> l ∈ pre ++ post.
Proof. intros Hi Hb. apply (pl_dom _ _ _ (inv_placed _ _ _ _ _ Hi)). by exists b. Qed.

(** Outside the sweep the invariant depends on the colours only through [coloured]. *)
Lemma kept_shapes c c' pre l : same_shapes (heap c) (heap c') -> phase c' <> Sweep ->
  kept c pre l -> kept c' pre l.
Proof.
  intros Hd Hp (b & Hb & Hl & _). destruct (same_shapes_lookup _ _ l b Hd Hb) as (b' & Hb' & Hs).
  exists b'. apply shape_eq in Hs. split; [done|]. split; [|done]. destruct Hs as (_ & _ & -> & _). done.
Qed.

Lemma edge_ok_shapes c c' pre e : same_shapes (heap c) (heap c') -> phase c' <> Sweep ->
  edge_ok c pre e -> edge_ok c' pre e.
Proof.
  intros Hd Hp. destruct e; cbn; [by apply kept_shapes|]. intros (b & Hb & _).
  destruct (same_shapes_lookup _ _ l b Hd Hb) as (b' & Hb' & _). by exists b'.
Qed.

Lemma inv_shapes root held c c' pre post :
  inv root held c pre post -> phase c = Mark -> phase c' = Mark ->
  same_shapes (heap c) (heap c') -> accounts (metrics c') = accounts (metrics c) ->
  all c' = all c -> sweep c' = sweep c -> sweep_prev c' = sweep_prev c ->
  marking [] c' -> (root_needs_trace c' = false -> Forall (marked (heap c')) root) ->
  inv root held c' pre post.
Proof.
  intros [[Hch Hnd Hdom] Hcur Hacc Hcol Hleaf Hclo Hroot Hheld] Hp Hp' Hd Ha Hall Hsw Hpr Hm Hrt.
  assert (Hns : phase c' <> Sweep) by (by rewrite Hp').
  pose proof (same_shapes_sym _ _ Hd) as Hd'.
  split.
  - split; [rewrite Hall; by eapply same_shapes_chain|done|].
    intros l [b Hb]. apply Hdom. destruct (same_shapes_lookup _ _ l b Hd' Hb) as (b' & -> & _).
    by eexists.
  - revert Hcur. unfold cursor. rewrite Hp, Hp', Hsw, Hpr. done.
  - destruct Hacc as [H1 H2 H3 H4 H5]. injection Ha as Ha1 Ha2 Ha3 Ha4.
    split; rewrite ?Ha1, ?Ha2, ?Ha3, ?Ha4, ?(same_shapes_size _ _ _ Hd); try done.
    + intros l b Hb. destruct (same_shapes_lookup _ _ l b Hd' Hb) as (b' & Hb' & Hs).
      apply shape_eq in Hs as (_ & _ & _ & Hs & _). rewrite <- Hs. by eapply H3.
    + rewrite Hp'. by rewrite Hp in H5.
  - unfold coloured. by rewrite Hp'.
  - apply Hm.
  - intros l b Hb Hk. destruct (same_shapes_lookup _ _ l b Hd' Hb) as (b' & Hb' & Hs).
    apply shape_eq in Hs as (_ & _ & _ & _ & Hs). rewrite <- Hs. eapply Forall_impl.
    + eapply Hclo; [exact Hb'|]. eapply kept_shapes; [exact Hd'|by rewrite Hp|done].
    + intros e. by apply edge_ok_shapes.
  - eapply Forall_impl; [exact Hroot|]. intros e. by apply edge_ok_shapes.
  - eapply Forall_impl; [exact Hheld|]. intros e. by apply edge_ok_shapes.
Qed.

Lemma inv_marks root held c c' pre post :
  inv root held c pre post -> phase c = Mark -> phase c' = Mark ->
  darkens (heap c) (heap c') -> accounts (metrics c') = accounts (metrics c) ->
  all c' = all c -> sweep c' = sweep c -> sweep_prev c' = sweep_prev c ->
  marking [] c' -> (root_needs_trace c' = false -> Forall (marked (heap c')) root) ->
  inv root held c' pre post.
Proof. intros Hi Hp Hp' Hd%darkens_shapes. by apply (inv_shapes root held c c'). Qed.

(** The traced box turns black and leaves the gray set. *)
Lemma marking_finish l c b : marking [l] c -> heap c !! l = Some b ->
  Forall (marked (heap c)) (edges b) ->
  marking [] (put_box l (set_color GcColor.Black b) c).
Proof.
  intros Hm Hb He.
  assert (Hg : color b = GcColor.Gray).
  { destruct (proj2 (mk_gray _ _ Hm l)) as (b' & Hb' & Hc); [by left|]. congruence. }
  assert (Hd : darkens (heap c) (<[l := set_color GcColor.Black b]> (heap c)))
    by (apply darkens_insert; [done|rewrite Hg; cbn; lia]).
  pose proof (mk_nodup _ _ Hm) as Hnd. cbn in Hnd. apply NoDup_cons in Hnd as [Hl Hnd].
  split; cbn [heap gray gray_again put_box with_heap].
  - intros x. pose proof (mk_gray _ _ Hm x) as Hx. cbn in Hx. rewrite elem_of_cons in Hx.
    destruct (decide (x = l)) as [->|Hne].
    + rewrite lookup_insert_eq. split; [by intros (b' & [= <-] & ?)|done].
    + rewrite lookup_insert_ne, Hx by done. cbn. tauto.
  - done.
  - intros x b'. destruct (decide (x = l)) as [->|Hne].
    + rewrite lookup_insert_eq. intros [= <-] _. apply (mk_live _ _ Hm l b Hb). rewrite Hg. cbn. lia.
    + rewrite lookup_insert_ne by done. apply Hm.
  - intros x b'. destruct (decide (x = l)) as [->|Hne].
    + rewrite lookup_insert_eq. intros [= <-] _. eapply Forall_impl; [exact He|].
      intros e. by apply marked_darkens.
    + rewrite lookup_insert_ne by done. intros Hx Hc. eapply Forall_impl; [by eapply mk_black|].
      intros e. by apply marked_darkens.
  - intros x b'. destruct (decide (x = l)) as [->|Hne].
    + rewrite lookup_insert_eq. intros [= <-]. exact (mk_leaf _ _ Hm l b Hb).
    + rewrite lookup_insert_ne by done. apply Hm.
Qed.

(** ** Rounds of the collection loop *)

Definition measure (c : Context_) (pre post : list loc) : Z :=
  let n := Z.of_nat (length (pre ++ post)) in
  match phase c with
  | Sleep => 3 * n + 4
  | Mark => total work (heap c) (pre ++ post) + Z.b2z (root_needs_trace c) + n + 2
  | Sweep => Z.of_nat (length post) + 1
  | Drop => 0
  end.

(** Nothing is reached in the heap but from the root. *)
Inductive reachable (h : gmap loc gc_box) (root : list edge) : loc -> Prop :=
  | reach_root l : Strong l ∈ root -> reachable h root l
  | reach_edge l b l' : reachable h root l -> h !! l = Some b -> Strong l' ∈ edges b ->
      reachable h root l'.

Lemma reachable_darkens h h' root l : darkens h h' -> reachable h root l -> reachable h' root l.
Proof.
  intros Hd. induction 1 as [|l b l' _ IH Hb Hl']; [by apply reach_root|].
  destruct (darkens_lookup _ _ l b Hd Hb) as (b' & Hb' & Hs & _).
  apply shape_eq in Hs as (_ & _ & _ & _ & Hs). eapply reach_edge; [exact IH|exact Hb'|].
  by rewrite Hs.
Qed.

(** A round of the marking phase: [only] says that it reaches nothing unreachable. *)
Definition precise (root : list edge) (c : Context_) : Prop :=
  forall l, reached (heap c) l -> reachable (heap c) root l.

Section rounds.
Context `{BuildProfile}.

Lemma trace_box_round root c pre post l b c0 :
  inv root [] c pre post -> phase c = Mark ->
  heap c0 = heap c -> accounts (metrics c0) = accounts (metrics c) -> phase c0 = phase c ->
  root_needs_trace c0 = root_needs_trace c -> all c0 = all c -> sweep c0 = sweep c ->
  sweep_prev c0 = sweep_prev c ->
  l :: gray c0 ++ gray_again c0 ≡ₚ gray c ++ gray_again c -> heap c !! l = Some b ->
  exists c', (c1 ← trace_value (edges b) c0; b ← get_box c1 l;
              Ok (put_box l (set_color GcColor.Black b) c1)) = Ok c' /\
    inv root [] c' pre post /\ phase c' = Mark /\ live b = true /\
    root_needs_trace c' = root_needs_trace c /\
    total work (heap c') (pre ++ post) < total work (heap c) (pre ++ post) /\
    darkens (heap c) (heap c') /\ reaches_only (heap c) (heap c') (edges b).
Proof.
  intros Hi Hp Eh Ea Ep Er Eall Esw Epr Hperm Hb.
  pose proof (inv_coloured _ _ _ _ _ Hi) as Hcol. unfold coloured in Hcol. rewrite Hp in Hcol.
  destruct Hcol as [Hm Hrt].
  assert (Hm0 : marking [l] c0) by (eapply marking_perm; [exact Eh| |exact Hm]; done).
  assert (Hg : color b = GcColor.Gray).
  { destruct (proj2 (mk_gray _ _ Hm0 l)) as (b' & Hb' & Hc); [by left|]. congruence. }
  assert (Hlive : live b = true) by (apply (mk_live _ _ Hm l b Hb); rewrite Hg; cbn; lia).
  assert (Hk : kept c pre l) by (exists b; split_and!; [done|done|by rewrite Hp]).
  destruct (trace_value_spec [l] (edges b) c0 Hm0) as (c1 & -> & Hs & Hm1 & He & Hr & _).
  { eapply Forall_impl; [by eapply (inv_closed _ _ _ _ _ Hi)|]. intros e.
    rewrite Eh. apply edge_ok_pointee. }
  rewrite outcome_bind_Ok.
  assert (Hd1 : darkens (heap c) (heap c1)) by (rewrite <- Eh; apply Hs).
  destruct (darkens_lookup _ _ l b Hd1 Hb) as (b1 & Hb1 & Hsh & _).
  unfold get_box. rewrite Hb1, outcome_bind_Ok.
  assert (Hg1 : color b1 = GcColor.Gray).
  { destruct (proj2 (mk_gray _ _ Hm1 l)) as (b' & Hb' & Hc); [by left|]. congruence. }
  apply shape_eq in Hsh as (_ & _ & _ & _ & Hedges).
  assert (Hm2 : marking [] (put_box l (set_color GcColor.Black b1) c1))
    by (apply marking_finish; [done|done|by rewrite Hedges]).
  assert (Hd2 : darkens (heap c1) (<[l := set_color GcColor.Black b1]> (heap c1)))
    by (apply darkens_insert; [done|rewrite Hg1; cbn; lia]).
  assert (Hd : darkens (heap c) (<[l := set_color GcColor.Black b1]> (heap c1)))
    by (by eapply darkens_trans).
  eexists. split; [reflexivity|]. cbn [heap put_box with_heap phase root_needs_trace].
  destruct Hs as [_ Hs1 Hs2 Hs3 Hs4 Hs5 Hs6].
  split; [|split; [|split; [|split; [|split; [|split]]]]]; try done.
  - eapply inv_marks; [exact Hi|done|cbn; congruence|exact Hd|cbn; congruence..|exact Hm2|].
    cbn. rewrite Hs3, Er. intros Hf. eapply Forall_impl; [by apply Hrt|].
    intros e. by apply marked_darkens.
  - congruence.
  - congruence.
  - apply (total_lt _ _ _ _ l).
    + by eapply inv_box_in.
    + unfold weigh. rewrite lookup_insert_eq, Hb. unfold work. cbn. rewrite Hg. lia.
    + intros x _. unfold weigh. specialize (Hd x).
      destruct (heap c !! x), (<[l := set_color GcColor.Black b1]> (heap c1) !! x); try done.
      apply work_rank, Hd.
  - intros x Hx. apply (reached_insert _ l b1 GcColor.Black x Hb1) in Hx as [Hx|[-> _]].
    + destruct (Hr x Hx) as [Hx'|]; [left; by rewrite <- Eh|by right].
    + left. exists b. split; [done|]. rewrite Hg. cbn. lia.
Qed.

Definition exact (root : list edge) (c : Context_) (pre : list loc) : Prop :=
  match phase c with
  | Mark => precise root c
  | Sweep | Sleep => forall l, kept c pre l -> reachable (heap c) root l
  | Drop => True
  end.

(** Where a round may force the loop to stop *)
Definition stopped_at (early : option EarlyStop) (c : Context_) : Prop :=
  phase c = Sleep \/
  (early = Some BeforeSweep /\ phase c = Mark /\ gray_remaining c = false) \/
  (early = Some AfterSweep /\ phase c = Sweep).

(** The outcome of a round: progress, or a forced stop *)
Definition round_ok (root : list edge) (target : f64) (early : option EarlyStop)
    (c : Context_) (pre post : list loc) (r : outcome (Context_ * control)) : Prop :=
  exists c' ctl pre' post', r = Ok (c', ctl) /\ inv root [] c' pre' post' /\
    ((ctl = Check F64.INFINITY /\ stopped_at early c') \/
     ((ctl = Continue \/ ctl = Check target) /\ measure c' pre' post' < measure c pre post)) /\
    (phase c = Sleep \/ exact root c pre -> exact root c' pre').

Lemma precise_step root c c' es : darkens (heap c) (heap c') ->
  reaches_only (heap c) (heap c') es ->
  (forall l, Strong l ∈ es -> reachable (heap c) root l) ->
  precise root c -> precise root c'.
Proof.
  intros Hd Hr Hes Hp l Hl. eapply reachable_darkens; [exact Hd|].
  destruct (Hr l Hl); [by apply Hp|by apply Hes].
Qed.

Lemma mark_box_ok root target early c pre post l c0 :
  inv root [] c pre post -> phase c = Mark ->
  heap c0 = heap c -> accounts (metrics c0) = accounts (metrics c) -> phase c0 = phase c ->
  root_needs_trace c0 = root_needs_trace c -> all c0 = all c -> sweep c0 = sweep c ->
  sweep_prev c0 = sweep_prev c -> l :: gray c0 ++ gray_again c0 ≡ₚ gray c ++ gray_again c ->
  round_ok root target early c pre post
    (b ← get_box c0 l; rust_assert (live b) ;; c1 ← trace_value (edges b) c0;
     b ← get_box c1 l; Ok (put_box l (set_color GcColor.Black b) c1, Check target)).
Proof.
  intros Hi Hp Eh Ea Ep Er Eall Esw Epr Hperm.
  pose proof (inv_coloured _ _ _ _ _ Hi) as Hcol. unfold coloured in Hcol. rewrite Hp in Hcol.
  destruct Hcol as [Hm _].
  destruct (proj2 (mk_gray _ _ Hm l)) as (b & Hb & Hg).
  { cbn. rewrite <- Hperm. by left. }
  destruct (trace_box_round root c pre post l b c0) as
    (c' & E & Hi' & Hp' & Hlive & Hrt & Hw & Hd & Hr); [done..|].
  assert (Hbox : get_box c0 l = Ok b) by (unfold get_box; by rewrite Eh, Hb).
  rewrite Hbox, outcome_bind_Ok, Hlive. cbn [rust_assert]. rewrite outcome_bind_Ok.
  exists c', (Check target), pre, post. split; [|split; [done|split]].
  - apply outcome_bind_inv in E as (c1 & -> & E). rewrite outcome_bind_Ok.
    apply outcome_bind_inv in E as (b1 & -> & E). rewrite outcome_bind_Ok.
    by injection E as <-.
  - right. split; [by right|]. unfold measure. rewrite Hp, Hp', Hrt. lia.
  - unfold exact. rewrite Hp, Hp'. intros [|Hx]; [done|].
    eapply precise_step; [exact Hd|exact Hr| |exact Hx]. intros l' Hl'.
    eapply reach_edge; [|exact Hb|exact Hl']. apply Hx. exists b. split; [done|].
    rewrite Hg. cbn. lia.
Qed.

Lemma mark_root_ok root target early c pre post :
  inv root [] c pre post -> phase c = Mark -> root_needs_trace c = true ->
  round_ok root target early c pre post
    (c ← trace_value root c; Ok (with_root_needs_trace false c, Check target)).
Proof.
  intros Hi Hp Hrt. pose proof (inv_coloured _ _ _ _ _ Hi) as Hcol.
  unfold coloured in Hcol. rewrite Hp in Hcol. destruct Hcol as [Hm _].
  destruct (trace_value_spec [] root c Hm) as (c1 & -> & Hs & Hm1 & He & Hr & _).
  { eapply Forall_impl; [apply (inv_root _ _ _ _ _ Hi)|]. intros e. apply edge_ok_pointee. }
  rewrite outcome_bind_Ok. destruct Hs as [Hd Hs1 Hs2 Hs3 Hs4 Hs5 Hs6].
  eexists _, (Check target), pre, post. split; [reflexivity|]. split; [|split].
  - eapply inv_marks; [exact Hi|done|cbn; congruence|exact Hd|done..| |done].
    by apply (marking_same [] c1).
  - right. split; [by right|]. unfold measure. cbn. rewrite Hs2, Hp, Hrt. cbn.
    pose proof (darkens_work _ _ (pre ++ post) Hd). lia.
  - unfold exact. cbn. rewrite Hs2, Hp. intros [|Hx]; [done|].
    apply (precise_step root c c1 root); [done|done| |done]. intros l. apply reach_root.
Qed.

(** Marking is over: black is closed, and what is black is kept. *)
Lemma black_edge_kept (c : Context_) (es : list edge) : marking [] c ->
  gray c ++ gray_again c = [] -> Forall (marked (heap c)) es ->
  Forall (edge_ok (with_sweep (all c) (with_phase Sweep c)) []) es.
Proof.
  intros Hm Hg Hes. eapply Forall_impl; [exact Hes|]. intros e. destruct e as [l|l]; cbn; intros (b & Hb & Hr).
  - exists b. split; [done|]. split; [by eapply (mk_live _ _ Hm)|]. intros _. right.
    destruct (color b) eqn:Hc; cbn in Hr; try lia; [|done].
    exfalso. assert (Hin : l ∈ [] ++ gray c ++ gray_again c)
      by (apply (mk_gray _ _ Hm); by exists b). rewrite Hg in Hin. by apply elem_of_nil in Hin.
  - exists b. split; [done|]. intros _. right. intros Hc. rewrite Hc in Hr. cbn in Hr. lia.
Qed.

Lemma mark_done_ok root target early c pre post :
  inv root [] c pre post -> phase c = Mark -> root_needs_trace c = false ->
  gray c = [] -> gray_again c = [] ->
  round_ok root target early c pre post
    (if decide (early = Some BeforeSweep) then Ok (c, Check F64.INFINITY)
     else Ok (with_sweep (all c) (with_phase Sweep c), Continue)).
Proof.
  intros Hi Hp Hrt Hg Hga. destruct (decide (early = Some BeforeSweep)) as [->|Hne].
  { exists c, (Check F64.INFINITY), pre, post. split; [done|]. split; [done|]. split.
    - left. split; [done|]. right. left. split_and!; [done|done|].
      unfold gray_remaining. by rewrite Hg, Hga.
    - unfold exact. rewrite Hp. by intros [|?]. }
  pose proof (inv_coloured _ _ _ _ _ Hi) as Hcol.
  unfold coloured in Hcol. rewrite Hp in Hcol. destruct Hcol as [Hm Hroot].
  specialize (Hroot Hrt). assert (Hgg : gray c ++ gray_again c = []) by (by rewrite Hg, Hga).
  pose proof (inv_cursor _ _ _ _ _ Hi) as Hcur. unfold cursor in Hcur. rewrite Hp in Hcur.
  destruct Hcur as (-> & Hsw & Hprev).
  assert (Hnogray : forall l b, heap c !! l = Some b -> color b <> GcColor.Gray).
  { intros l b Hb Hc. assert (Hin : l ∈ [] ++ gray c ++ gray_again c)
      by (apply (mk_gray _ _ Hm); by exists b). rewrite Hgg in Hin. by apply elem_of_nil in Hin. }
  exists (with_sweep (all c) (with_phase Sweep c)), Continue, [], post.
  split; [done|]. split; [|split].
  - destruct Hi as [[Hch Hnd Hdom] _ [A1 A2 A3 A4 A5] _ Hleaf Hclo _ _]. split.
    + by split.
    + unfold cursor. cbn. split; [|done]. by eapply chain_head.
    + rewrite Hp in A5. destruct A5 as [A5 A6]. split; cbn; try done. rewrite A5, A6, A1, A2. cbn.
      lia.
    + unfold coloured. cbn. split_and!; [done|done|]. intros l b Hb. split; [by eapply Hnogray|].
      split; [by intros ?%elem_of_nil|]. intros Hc. eapply (mk_live _ _ Hm); [exact Hb|].
      rewrite Hc. cbn. lia.
    + done.
    + intros l b Hb (b' & Hb' & Hl & Hk). cbn in *. simplify_eq.
      destruct (Hk eq_refl) as [?%elem_of_nil|Hc]; [done|].
      apply (black_edge_kept c (edges b)); [done|done|]. by eapply (mk_black _ _ Hm).
    + by apply (black_edge_kept c root).
    + done.
  - right. split; [by left|]. unfold measure. cbn. rewrite Hp.
    pose proof (total_bound work (heap c) post 2 ltac:(intros b; unfold work; destruct (color b); lia) ltac:(lia)).
    rewrite Hrt. cbn. lia.
  - unfold exact. cbn. rewrite Hp. intros [|Hx]; [done|]. intros l (b & Hb & Hl & Hk). cbn in *.
    apply Hx. exists b. split; [done|]. destruct (Hk eq_refl) as [?%elem_of_nil|Hc]; [done|].
    rewrite Hc. cbn. lia.
Qed.

Lemma removelast_snoc (l : list loc) x : last l = Some x -> l = removelast l ++ [x].
Proof. intros (l' & ->)%last_Some. by rewrite removelast_last. Qed.

Lemma mark_round_ok root target early c pre post :
  inv root [] c pre post -> phase c = Mark ->
  round_ok root target early c pre post (mark_round root target early c).
Proof.
  intros Hi Hp. unfold mark_round. destruct (last (gray c)) as [l|] eqn:Hlast.
  - pose proof (removelast_snoc _ l Hlast) as Hg.
    assert (Hin : l ∈ gray c) by (rewrite Hg; set_solver).
    pose proof (inv_coloured _ _ _ _ _ Hi) as Hcol. unfold coloured in Hcol.
    rewrite Hp in Hcol. destruct Hcol as [Hm _].
    destruct (proj2 (mk_gray _ _ Hm l)) as (b & Hb & _); [set_solver|].
    assert (Hbox : get_box c l = Ok b) by (unfold get_box; by rewrite Hb).
    rewrite Hbox, !outcome_bind_Ok. eapply mark_box_ok; try done. cbn.
    rewrite Hg at 2. rewrite <- app_assoc. apply Permutation_middle.
  - apply last_None in Hlast as Hg. destruct (last (gray_again c)) as [l|] eqn:Hlast'.
    + pose proof (removelast_snoc _ l Hlast') as Hga. rewrite outcome_bind_Ok.
      eapply mark_box_ok; try done. cbn. rewrite Hg. cbn. rewrite Hga at 2.
      apply Permutation_cons_append.
    + apply last_None in Hlast' as Hga. rewrite outcome_bind_Ok.
      destruct (root_needs_trace c) eqn:Hrt; [by apply mark_root_ok|by apply mark_done_ok].
Qed.
End rounds.
