(* ===== verification/GcSweep.v ===== *)
(** * Sweeping, the collection loop and its termination

    The rounds of the sweep phase keep the invariant, every round makes progress,
    and so [do_collection] returns within [rounds] rounds from any state. *)

From S2P Require Import Prelude Float64 GcMetrics GcArena GcFacts.
Import Gc.

(** ** Moving the cursor over a box that stays *)

Lemma head_cons {A} (x : A) l : head (x :: l) = Some x.
Proof. reflexivity. Qed.

Section sweeping.
Context `{BuildProfile}.
Implicit Types (c : Context_) (pre post : list loc).

(** Facts of the box under the cursor *)
Lemma sweep_box root held c pre l post : inv root held c pre (l :: post) ->
  exists b, heap c !! l = Some b /\ next b = head post /\ l ∉ pre /\ l ∉ post.
Proof.
  intros Hi. destruct (inv_placed _ _ _ _ _ Hi) as [Hch Hnd _].
  destruct (chain_suffix _ _ _ _ Hch) as (s & _ & b & Hb & Hc).
  exists b. split; [done|]. split; [by eapply chain_head|].
  apply NoDup_app in Hnd as (_ & Hdis & Hnd). apply NoDup_cons in Hnd as [Hl _].
  split; [|done]. intros Hin. apply (Hdis l Hin). by left.
Qed.

(** The box under the cursor becomes white and moves to the swept part; it was
    black and stays as it is, or white-weak and loses its value. *)
Definition stays (b b' : gc_box) : Prop :=
  next b' = next b /\ box_size b' = box_size b /\ edges b' = edges b /\
  needs_trace b' = needs_trace b /\ color b' = GcColor.White /\
  ((color b = GcColor.Black /\ live b' = live b) \/
   (color b = GcColor.WhiteWeak /\ live b' = false)).

Lemma kept_moves c c' pre l b b' x : heap c !! l = Some b -> stays b b' ->
  heap c' = <[l := b']> (heap c) -> phase c = Sweep -> phase c' = Sweep -> l ∉ pre ->
  (kept c' (pre ++ [l]) x <-> kept c pre x).
Proof.
  intros Hb (Hn & _ & _ & _ & Hc & Hcase) Eh Hp Hp' Hl. unfold kept. rewrite Eh, Hp, Hp'.
  destruct (decide (x = l)) as [->|Hne].
  - rewrite lookup_insert_eq, Hb. split.
    + intros (? & [= <-] & Hlive & _). exists b. split; [done|].
      destruct Hcase as [[Hk El]|[Hk El]]; [|congruence]. split; [congruence|]. by right.
    + intros (? & [= <-] & Hlive & Hk). exists b'. split; [done|].
      destruct Hcase as [[Hk' El]|[Hk' El]].
      * split; [congruence|]. intros _. left. set_solver.
      * destruct (Hk eq_refl) as [?|Hk2]; [done|congruence].
  - rewrite lookup_insert_ne by done.
    assert (Hin : x ∈ pre ++ [l] <-> x ∈ pre) by (rewrite elem_of_app, list_elem_of_singleton; tauto).
    split; intros (d & Hd & Hlive & Hk); exists d; (split; [done|]); (split; [done|]);
      intros _; rewrite ?Hin in *; by apply Hk.
Qed.

Lemma edge_ok_moves c c' pre l b b' e : heap c !! l = Some b -> stays b b' ->
  heap c' = <[l := b']> (heap c) -> phase c = Sweep -> phase c' = Sweep -> l ∉ pre ->
  edge_ok c pre e -> edge_ok c' (pre ++ [l]) e.
Proof.
  intros Hb Hs Eh Hp Hp' Hl. destruct e as [x|x]; cbn.
  { by apply (kept_moves c c' pre l b b' x). }
  intros (d & Hd & Hk). unfold weak_ok. rewrite Eh.
  destruct (decide (x = l)) as [->|Hne].
  - rewrite lookup_insert_eq. exists b'. split; [done|]. intros _. left. set_solver.
  - rewrite lookup_insert_ne by done. exists d. split; [done|]. intros _.
    destruct (Hk Hp) as [?|?]; [left; set_solver|by right].
Qed.

Lemma inv_moves root c c' pre l post b b' :
  inv root [] c pre (l :: post) -> phase c = Sweep -> heap c !! l = Some b -> stays b b' ->
  heap c' = <[l := b']> (heap c) -> phase c' = Sweep -> all c' = all c ->
  sweep c' = next b -> sweep_prev c' = Some l -> gray c' = [] -> gray_again c' = [] ->
  accounted c' (pre ++ [l]) post ->
  inv root [] c' (pre ++ [l]) post /\ (exact root c pre -> exact root c' (pre ++ [l])).
Proof.
  intros Hi Hp Hb Hs Eh Hp' Eall Esw Epr Eg Ega Hacc.
  destruct (sweep_box _ _ _ _ _ _ Hi) as (b0 & Hb0 & Hn & Hl & Hl'). simplify_eq.
  destruct Hs as (Hs1 & Hs2 & Hs3 & Hs4 & Hs5 & Hs6) eqn:Es; clear Es.
  assert (Hstays : stays b b') by (by split_and!).
  assert (Hkept : forall x, kept c' (pre ++ [l]) x <-> kept c pre x)
    by (intros; by eapply kept_moves).
  assert (Hedge : forall e, edge_ok c pre e -> edge_ok c' (pre ++ [l]) e)
    by (intros; by eapply edge_ok_moves).
  assert (Hedges : forall x d', heap c' !! x = Some d' ->
    exists d, heap c !! x = Some d /\ edges d' = edges d /\ needs_trace d' = needs_trace d).
  { intros x d'. rewrite Eh. destruct (decide (x = l)) as [->|Hne].
    - rewrite lookup_insert_eq. intros [= <-]. by exists b.
    - rewrite lookup_insert_ne by done. by exists d'. }
  destruct Hi as [[Hch Hnd Hdom] _ _ Hcol Hleaf Hclo Hroot _].
  assert (Happ : (pre ++ [l]) ++ post = pre ++ l :: post) by (by rewrite <- app_assoc).
  split; [split|].
  - split; rewrite Happ; [|done|].
    + rewrite Eall. eapply chain_ext; [|exact Hch]. intros x _. rewrite Eh.
      destruct (decide (x = l)) as [->|Hne]; [|by rewrite lookup_insert_ne].
      rewrite lookup_insert_eq, Hb. cbn. by rewrite Hs1.
    + intros x [d Hd]. destruct (Hedges x d Hd) as (d0 & Hd0 & _). apply Hdom. by eexists.
  - unfold cursor. rewrite Hp', Esw, Epr, last_snoc. done.
  - done.
  - unfold coloured in *. rewrite Hp'. rewrite Hp in Hcol. destruct Hcol as (_ & _ & Hcol).
    split_and!; [done|done|]. intros x d. rewrite Eh. destruct (decide (x = l)) as [->|Hne].
    + rewrite lookup_insert_eq. intros [= <-]. rewrite Hs5. by split_and!.
    + rewrite lookup_insert_ne by done. intros Hd. destruct (Hcol x d Hd) as (H1 & H2 & H3).
      split; [done|]. split; [|done].
      intros [Hx|Hx%list_elem_of_singleton]%elem_of_app; [by apply H2|done].
  - intros x d Hd Hf. destruct (Hedges x d Hd) as (d0 & Hd0 & -> & En). rewrite En in Hf. by eapply Hleaf.
  - intros x d Hd Hk. destruct (Hedges x d Hd) as (d0 & Hd0 & -> & _). apply Hkept in Hk.
    eapply Forall_impl; [by eapply Hclo|exact Hedge].
  - eapply Forall_impl; [exact Hroot|exact Hedge].
  - done.
  - unfold exact. rewrite Hp, Hp'. intros Hx x Hk. apply Hkept in Hk. specialize (Hx x Hk).
    clear Hk. induction Hx as [x Hx|x d x' _ IH Hd Hx']; [by apply reach_root|].
    destruct (decide (x = l)) as [->|Hne].
    + rewrite Hb in Hd. injection Hd as <-. eapply reach_edge; [exact IH| |rewrite Hs3; exact Hx'].
      by rewrite Eh, lookup_insert_eq.
    + eapply reach_edge; [exact IH| |exact Hx']. by rewrite Eh, lookup_insert_ne.
Qed.

(** ** Freeing the box under the cursor *)

(** The boxes other than [l] keep everything but [next]. *)
Definition relinked (h h' : gmap loc gc_box) (l : loc) : Prop :=
  h' !! l = None /\
  forall x, x <> l -> match h !! x, h' !! x with
    | Some b, Some b' => b' = set_next (next b') b
    | None, None => True
    | _, _ => False
    end.

Lemma relinked_inv h h' l x b' : relinked h h' l -> h' !! x = Some b' ->
  exists b, h !! x = Some b /\ b' = set_next (next b') b /\ x <> l.
Proof.
  intros [Hl Hx] Hb. assert (Hne : x <> l) by congruence. specialize (Hx x Hne).
  rewrite Hb in Hx. destruct (h !! x) as [b|]; [|done]. by exists b.
Qed.

Lemma relinked_lookup h h' l x b : relinked h h' l -> h !! x = Some b -> x <> l ->
  exists b', h' !! x = Some b' /\ b' = set_next (next b') b.
Proof.
  intros [Hl Hx] Hb Hne. specialize (Hx x Hne).
  rewrite Hb in Hx. destruct (h' !! x) as [b'|]; [|done]. by exists b'.
Qed.

Lemma kept_frees c c' pre l b x : heap c !! l = Some b -> color b = GcColor.White ->
  l ∉ pre -> relinked (heap c) (heap c') l -> phase c = Sweep -> phase c' = Sweep ->
  (kept c' pre x <-> kept c pre x).
Proof.
  intros Hb Hw Hl Hr Hp Hp'. split.
  - intros (d' & Hd' & Hlive & Hk). destruct (relinked_inv _ _ _ _ _ Hr Hd') as (d & Hd & E & _).
    exists d. rewrite E in Hlive, Hk. split; [done|]. split; [done|]. intros _. by apply Hk.
  - intros (d & Hd & Hlive & Hk). specialize (Hk Hp).
    assert (Hne : x <> l) by (intros ->; destruct Hk; [done|congruence]).
    destruct (relinked_lookup _ _ _ _ _ Hr Hd Hne) as (d' & Hd' & E).
    exists d'. split; [done|]. rewrite E. by split_and?.
Qed.

Lemma edge_ok_frees c c' pre l b e : heap c !! l = Some b -> color b = GcColor.White ->
  l ∉ pre -> relinked (heap c) (heap c') l -> phase c = Sweep -> phase c' = Sweep ->
  edge_ok c pre e -> edge_ok c' pre e.
Proof.
  intros Hb Hw Hl Hr Hp Hp'. destruct e as [x|x]; cbn.
  { by apply (kept_frees c c' pre l b x). }
  intros (d & Hd & Hk). specialize (Hk Hp).
  assert (Hne : x <> l) by (intros ->; destruct Hk; [done|congruence]).
  destruct (relinked_lookup _ _ _ _ _ Hr Hd Hne) as (d' & Hd' & E).
  exists d'. split; [done|]. rewrite E. by intros _.
Qed.

Lemma inv_frees root c c' pre l post b :
  inv root [] c pre (l :: post) -> phase c = Sweep -> heap c !! l = Some b ->
  color b = GcColor.White -> relinked (heap c) (heap c') l -> phase c' = Sweep ->
  chain (heap c') (all c') (pre ++ post) -> sweep c' = head post ->
  sweep_prev c' = last pre -> gray c' = [] -> gray_again c' = [] -> accounted c' pre post ->
  inv root [] c' pre post /\ (exact root c pre -> exact root c' pre).
Proof.
  intros Hi Hp Hb Hw Hr Hp' Hch' Esw Epr Eg Ega Hacc.
  destruct (sweep_box _ _ _ _ _ _ Hi) as (b0 & Hb0 & _ & Hl & Hl'). simplify_eq.
  assert (Hkept : forall x, kept c' pre x <-> kept c pre x) by (intros; by eapply kept_frees).
  assert (Hedge : forall e, edge_ok c pre e -> edge_ok c' pre e)
    by (intros; by eapply edge_ok_frees).
  destruct Hi as [[Hch Hnd Hdom] _ _ Hcol Hleaf Hclo Hroot _].
  split; [split|].
  - split; [done| |].
    + apply NoDup_app in Hnd as (H1 & H2 & [_ H3]%NoDup_cons). apply NoDup_app.
      split_and!; [done| |done]. intros x Hx Hx'. apply (H2 x Hx). by right.
    + intros x [d Hd]. destruct (relinked_inv _ _ _ _ _ Hr Hd) as (d0 & Hd0 & _ & Hne).
      assert (Hx : x ∈ pre ++ l :: post) by (apply Hdom; by exists d0).
      apply elem_of_app in Hx as [Hx|Hx]; apply elem_of_app; [by left|right].
      by apply elem_of_cons in Hx as [?|?].
  - unfold cursor. by rewrite Hp', Esw, Epr.
  - done.
  - unfold coloured in *. rewrite Hp'. rewrite Hp in Hcol. destruct Hcol as (_ & _ & Hcol).
    split_and!; [done|done|]. intros x d Hd.
    destruct (relinked_inv _ _ _ _ _ Hr Hd) as (d0 & Hd0 & -> & _). by apply (Hcol x d0).
  - intros x d Hd Hf. destruct (relinked_inv _ _ _ _ _ Hr Hd) as (d0 & Hd0 & E & _).
    rewrite E in Hf |- *. exact (Hleaf x d0 Hd0 Hf).
  - intros x d Hd Hk. destruct (relinked_inv _ _ _ _ _ Hr Hd) as (d0 & Hd0 & -> & _).
    apply Hkept in Hk. eapply Forall_impl; [by apply (Hclo x d0)|exact Hedge].
  - eapply Forall_impl; [exact Hroot|exact Hedge].
  - done.
  - unfold exact. rewrite Hp, Hp'. intros Hx x Hk%Hkept.
    assert (Hreach : forall y, reachable (heap c) root y -> kept c pre y).
    { intros y. induction 1 as [y Hy|y d y' _ IH Hd Hy'].
      - by apply (proj1 (Forall_forall _ _) Hroot (Strong y)).
      - by apply (proj1 (Forall_forall _ _) (Hclo y d Hd IH) (Strong y')). }
    specialize (Hx x Hk). clear Hk. induction Hx as [x Hx|x d x' Hx IH Hd Hx'];
      [by apply reach_root|].
    assert (Hne : x <> l).
    { intros ->. apply Hreach, Hkept in Hx as (d' & Hd' & _). destruct Hr. congruence. }
    destruct (relinked_lookup _ _ _ _ _ Hr Hd Hne) as (d' & Hd' & E).
    eapply reach_edge; [exact IH|exact Hd'|]. by rewrite E.
Qed.

Lemma relinked_delete h l : relinked h (delete l h) l.
Proof.
  split; [apply lookup_delete_eq|]. intros x Hne. rewrite lookup_delete_ne by done.
  destruct (h !! x) as [b|]; [by destruct b|done].
Qed.

Lemma relinked_unlink h p q n l : h !! p = Some q -> p <> l ->
  relinked h (delete l (<[p := set_next n q]> h)) l.
Proof.
  intros Hq Hne. split; [apply lookup_delete_eq|]. intros x Hx.
  rewrite lookup_delete_ne by done. destruct (decide (x = p)) as [->|Hxp].
  - by rewrite lookup_insert_eq, Hq.
  - rewrite lookup_insert_ne by done. destruct (h !! x) as [b|]; [by destruct b|done].
Qed.

Lemma chain_delete h s l x : x ∉ l -> chain h s l -> chain (delete x h) s l.
Proof.
  intros Hx. apply chain_ext. intros y Hy. rewrite lookup_delete_ne; [done|]. by intros ->.
Qed.

Lemma total_nonneg h l : (forall x b, h !! x = Some b -> 1 <= box_size b) ->
  0 <= total box_size h l.
Proof.
  intros Hs. induction l as [|x l IH]; cbn; [lia|]. unfold weigh.
  destruct (h !! x) as [b|] eqn:Hb; [specialize (Hs x b Hb)|]; lia.
Qed.

(** There are no more boxes than bytes. *)
Lemma gcs_bound c pre post : placed c pre post -> accounted c pre post ->
  Metrics.total_gcs (metrics c) <= Metrics.total_gc_bytes (metrics c).
Proof.
  intros [Hch _ _] [-> -> Hs _ _].
  assert (Hx : forall x, x ∈ pre ++ post -> 1 <= weigh box_size (heap c) x).
  { intros x Hx. destruct (chain_lookup _ _ _ _ Hch Hx) as [b Hb]. unfold weigh. rewrite Hb.
    by apply (Hs x). }
  clear Hch. induction (pre ++ post) as [|x l IH]; cbn [total length]; [lia|].
  pose proof (Hx x ltac:(left)). pose proof (IH (fun y Hy => Hx y ltac:(by right))). lia.
Qed.

(** The box under the cursor leaves the allocation list. *)
Definition unlink (l : loc) (n : option loc) (c : Context_) : outcome Context_ :=
  match sweep_prev c with
  | Some p => q ← get_box c p; Ok (put_box p (set_next n q) c)
  | None => rust_assert (bool_decide (all c = Some l)) ;; Ok (with_all n c)
  end.

Lemma unlink_ok root c pre l post b : inv root [] c pre (l :: post) -> phase c = Sweep ->
  heap c !! l = Some b ->
  exists h a, unlink l (next b) (with_sweep (next b) c) =
      Ok (with_all a (with_heap h (with_sweep (next b) c))) /\
    chain (delete l h) a (pre ++ post) /\ relinked (heap c) (delete l h) l.
Proof.
  intros Hi Hp Hb. destruct (sweep_box _ _ _ _ _ _ Hi) as (b0 & Hb0 & Hn & Hl & Hl'). simplify_eq.
  pose proof (inv_placed _ _ _ _ _ Hi) as [Hch Hnd _].
  pose proof (inv_cursor _ _ _ _ _ Hi) as Hcur. unfold cursor in Hcur. rewrite Hp in Hcur.
  destruct Hcur as [_ Hprev]. unfold unlink. cbn [sweep_prev with_sweep]. rewrite Hprev.
  destruct pre as [|p pre _] using rev_ind.
  - cbn in Hch |- *. destruct Hch as (-> & b' & Hb' & Hch). simplify_eq.
    rewrite bool_decide_eq_true_2 by done. exists (heap c), (next b).
    split; [done|]. split; [by apply chain_delete|apply relinked_delete].
  - rewrite last_snoc. rewrite <- app_assoc in Hch, Hnd. cbn in Hch, Hnd.
    destruct (chain_lookup _ _ _ p Hch ltac:(set_solver)) as [q Hq].
    assert (Hne : p <> l) by set_solver.
    unfold get_box. cbn [heap with_sweep]. rewrite Hq, outcome_bind_Ok.
    exists (<[p := set_next (next b) q]> (heap c)), (all c). split; [by destruct c|].
    split; [|by apply relinked_unlink]. rewrite <- app_assoc. cbn. apply chain_delete; [set_solver|].
    by eapply chain_unlink.
Qed.

Lemma relinked_total h h' l ls : relinked h h' l -> l ∉ ls ->
  total box_size h' ls = total box_size h ls.
Proof.
  intros [_ Hr] Hl. apply total_ext. intros x Hx. unfold weigh.
  specialize (Hr x ltac:(by intros ->)). destruct (h !! x), (h' !! x); try done. by rewrite Hr.
Qed.

Lemma dealloc_metrics n m : 1 <= Metrics.total_gcs m <= int_max usize ->
  0 <= n <= Metrics.total_gc_bytes m -> Metrics.total_gc_bytes m <= int_max usize ->
  Metrics.mark_gc_deallocated n m =
    Ok (Metrics.mk (Metrics.pacing m) (Metrics.total_gcs m - 1) (Metrics.total_gc_bytes m - n)
          (Metrics.total_external_bytes m) (Metrics.wakeup_amount m)
          (Metrics.allocated_gc_bytes m) (Metrics.traced_gcs m) (Metrics.traced_gc_bytes m)
          (saturating usize (Metrics.freed_gc_bytes m + n)) (Metrics.remembered_gcs m)
          (Metrics.remembered_gc_bytes m) (Metrics.allocated_external_bytes m)
          (Metrics.freed_external_bytes m)).
Proof.
  intros H1 H2 H3. unfold Metrics.mark_gc_deallocated.
  rewrite (arith_in _ (_ - 1)), outcome_bind_Ok by int_lia.
  by rewrite arith_in, outcome_bind_Ok by int_lia.
Qed.

Lemma dealloc_counts c pre l post b : placed c pre (l :: post) ->
  accounted c pre (l :: post) -> heap c !! l = Some b ->
  exists m, Metrics.mark_gc_deallocated (box_size b) (metrics c) = Ok m.
Proof.
  intros Hpl Hacc Hb. pose proof (gcs_bound _ _ _ Hpl Hacc).
  destruct Hacc as [A1 A2 A3 A4 _]. rewrite total_app in A2. cbn [total] in A2.
  rewrite length_app in A1. cbn [length] in A1. unfold weigh in A2. rewrite Hb in A2.
  pose proof (A3 l b Hb). pose proof (total_nonneg (heap c) pre A3).
  pose proof (total_nonneg (heap c) post A3).
  rewrite dealloc_metrics by int_lia. by eexists.
Qed.

Lemma free_accounted c c' m pre l post b : accounted c pre (l :: post) -> phase c = Sweep ->
  Metrics.total_gcs (metrics c) <= Metrics.total_gc_bytes (metrics c) ->
  heap c !! l = Some b -> l ∉ pre -> l ∉ post -> relinked (heap c) (heap c') l ->
  phase c' = Sweep -> metrics c' = m ->
  Metrics.mark_gc_deallocated (box_size b) (metrics c) = Ok m -> accounted c' pre post.
Proof.
  intros [A1 A2 A3 A4 A5] Hp Hgcs Hb Hl Hl' Hr Hp' Em. rewrite Hp in A5.
  destruct A5 as [A5 A6]. rewrite total_app in A2. cbn [total] in A2, A6.
  rewrite length_app in A1. cbn [length] in A1, A5. unfold weigh in A2, A6. rewrite Hb in A2, A6.
  pose proof (A3 l b Hb) as Hsize. pose proof (total_nonneg (heap c) pre A3).
  pose proof (total_nonneg (heap c) post A3).
  rewrite dealloc_metrics by int_lia. intros [= <-].
  assert (Hnl : l ∉ pre ++ post) by (rewrite elem_of_app; tauto).
  split; rewrite ?Em, ?Hp'; cbn [Metrics.total_gcs Metrics.total_gc_bytes
    Metrics.remembered_gcs Metrics.remembered_gc_bytes].
  - rewrite length_app, A1. lia.
  - rewrite (relinked_total _ _ _ _ Hr Hnl), total_app, A2. lia.
  - intros x d Hd. destruct (relinked_inv _ _ _ _ _ Hr Hd) as (d0 & Hd0 & -> & _).
    by apply (A3 x d0).
  - lia.
  - rewrite (relinked_total _ _ _ _ Hr Hl'). lia.
Qed.

(** The box under the cursor is black: it is remembered. *)
Lemma remember_metrics c pre l post b : placed c pre (l :: post) ->
  accounted c pre (l :: post) -> phase c = Sweep -> heap c !! l = Some b ->
  exists m, Metrics.mark_gc_remembered (box_size b) (metrics c) = Ok m /\
    Metrics.total_gcs m = Metrics.total_gcs (metrics c) /\
    Metrics.total_gc_bytes m = Metrics.total_gc_bytes (metrics c) /\
    Metrics.remembered_gcs m = Metrics.remembered_gcs (metrics c) + 1 /\
    Metrics.remembered_gc_bytes m = Metrics.remembered_gc_bytes (metrics c) + box_size b.
Proof.
  intros Hpl Hacc Hp Hb. pose proof (gcs_bound _ _ _ Hpl Hacc).
  destruct Hacc as [A1 A2 A3 A4 A5]. rewrite Hp in A5. destruct A5 as [A5 A6].
  cbn [total length] in A5, A6. unfold weigh in A6. rewrite Hb in A6.
  pose proof (A3 l b Hb). pose proof (total_nonneg (heap c) post A3).
  unfold Metrics.mark_gc_remembered.
  rewrite (arith_in _ (_ + 1)), outcome_bind_Ok by int_lia.
  rewrite arith_in, outcome_bind_Ok by int_lia. by eexists.
Qed.

Lemma stays_accounted c c' pre l post b b' k n : accounted c pre (l :: post) ->
  phase c = Sweep -> heap c !! l = Some b -> stays b b' -> l ∉ post ->
  heap c' = <[l := b']> (heap c) -> phase c' = Sweep ->
  0 <= k <= 1 -> 0 <= n <= box_size b ->
  Metrics.total_gcs (metrics c') = Metrics.total_gcs (metrics c) ->
  Metrics.total_gc_bytes (metrics c') = Metrics.total_gc_bytes (metrics c) ->
  Metrics.remembered_gcs (metrics c') = Metrics.remembered_gcs (metrics c) + k ->
  Metrics.remembered_gc_bytes (metrics c') = Metrics.remembered_gc_bytes (metrics c) + n ->
  accounted c' (pre ++ [l]) post.
Proof.
  intros [A1 A2 A3 A4 A5] Hp Hb (_ & Hs & _) Hl Eh Hp' Hk Hn E1 E2 E3 E4. rewrite Hp in A5.
  destruct A5 as [A5 A6]. cbn [total length] in A5, A6. unfold weigh in A6. rewrite Hb in A6.
  assert (Hw : forall x, weigh box_size (heap c') x = weigh box_size (heap c) x).
  { intros x. unfold weigh. rewrite Eh. destruct (decide (x = l)) as [->|Hne];
      [by rewrite lookup_insert_eq, Hb|by rewrite lookup_insert_ne]. }
  assert (Happ : (pre ++ [l]) ++ post = pre ++ l :: post) by (by rewrite <- app_assoc).
  split; rewrite ?Happ, ?E1, ?E2, ?E3, ?E4, ?Hp'; try done.
  - rewrite A2. apply total_ext. done.
  - intros x d. rewrite Eh. destruct (decide (x = l)) as [->|Hne].
    + rewrite lookup_insert_eq. intros [= <-]. rewrite Hs. by apply (A3 l).
    + rewrite lookup_insert_ne by done. apply A3.
  - rewrite (total_ext _ (heap c') (heap c) post) by done. lia.
Qed.

Lemma measure_sweep c pre post : phase c = Sweep ->
  measure c pre post = Z.of_nat (length post) + 1.
Proof. intros Hp. unfold measure. by rewrite Hp. Qed.

Lemma sweep_box_ok root target early c pre l post :
  inv root [] c pre (l :: post) -> phase c = Sweep -> early <> Some AfterSweep ->
  round_ok root target early c pre (l :: post) (sweep_round target early c).
Proof.
  intros Hi Hp He. destruct (sweep_box _ _ _ _ _ _ Hi) as (b & Hb & Hn & Hl & Hl').
  pose proof (inv_cursor _ _ _ _ _ Hi) as Hcur. unfold cursor in Hcur. rewrite Hp in Hcur.
  destruct Hcur as [Hsw Hprev]. cbn in Hsw.
  pose proof (inv_coloured _ _ _ _ _ Hi) as Hcol. unfold coloured in Hcol. rewrite Hp in Hcol.
  destruct Hcol as (Hg & Hga & Hcol). destruct (Hcol l b Hb) as (Hng & _ & Hlive).
  pose proof (inv_accounted _ _ _ _ _ Hi) as Hacc. pose proof (inv_placed _ _ _ _ _ Hi) as Hpl.
  assert (Hround : forall c', inv root [] c' (pre ++ [l]) post /\
      (exact root c pre -> exact root c' (pre ++ [l])) -> phase c' = Sweep ->
    round_ok root target early c pre (l :: post) (Ok (c', Check target))).
  { intros c' [Hi' Hx] Hp'. exists c', (Check target), (pre ++ [l]), post.
    split; [done|]. split; [done|]. split.
    - right. split; [by right|]. rewrite !measure_sweep by done. cbn. lia.
    - intros [|?]; [congruence|by apply Hx]. }
  assert (Hbox : get_box c l = Ok b) by (unfold get_box; by rewrite Hb).
  unfold sweep_round. rewrite decide_False, Hsw by done.
  rewrite Hbox, outcome_bind_Ok. destruct (color b) eqn:Hc; [| |done|].
  - destruct (unlink_ok _ _ _ _ _ _ Hi Hp Hb) as (h & a & Hun & Hch & Hr).
    unfold unlink in Hun. rewrite Hun, outcome_bind_Ok. cbn [metrics with_all with_heap with_sweep].
    destruct (dealloc_counts _ _ _ _ _ Hpl Hacc Hb) as [m Hm].
    rewrite Hm, outcome_bind_Ok.
    set (c' := dealloc l (with_metrics m (with_all a (with_heap h (with_sweep (next b) c))))).
    exists c', (Check target), pre, post. split; [done|].
    assert (Hi' : inv root [] c' pre post /\ (exact root c pre -> exact root c' pre)).
    { eapply inv_frees; try done. eapply (free_accounted c _ m); try done.
      by eapply gcs_bound. }
    destruct Hi' as [Hi' Hx]. split; [done|]. split.
    + right. split; [by right|]. rewrite !measure_sweep by done. cbn. lia.
    + intros [|?]; [congruence|by apply Hx].
  - apply Hround; [|done].
    assert (Hs : stays b (set_live false (set_color GcColor.White b)))
      by (split_and!; try done; by right).
    eapply inv_moves; try done. pose proof (inv_accounted _ _ _ _ _ Hi) as [_ _ Hsz _ _].
    eapply (stays_accounted c _ pre l post b _ 0 0); try done; cbn; try lia.
    specialize (Hsz l b Hb). lia.
  - destruct (remember_metrics _ _ _ _ _ Hpl Hacc Hp Hb) as (m & Hm & E1 & E2 & E3 & E4).
    cbn [metrics with_sweep_prev with_sweep]. rewrite Hm, outcome_bind_Ok.
    apply Hround; [|done].
    assert (Hs : stays b (set_color GcColor.White b)) by (split_and!; try done; by left).
    eapply inv_moves; try done. pose proof (inv_accounted _ _ _ _ _ Hi) as [_ _ Hsz _ _].
    specialize (Hsz l b Hb).
    eapply (stays_accounted c _ pre l post b _ 1 (box_size b)); try done; cbn; lia.
Qed.

(** The sweep is over: the heap is white again. *)
Lemma sweep_end_ok root target early c pre :
  inv root [] c pre [] -> phase c = Sweep -> early <> Some AfterSweep ->
  round_ok root target early c pre [] (sweep_round target early c).
Proof.
  intros Hi Hp He. pose proof (inv_cursor _ _ _ _ _ Hi) as Hcur. unfold cursor in Hcur.
  rewrite Hp in Hcur. destruct Hcur as [Hsw _]. cbn in Hsw.
  unfold sweep_round. rewrite decide_False, Hsw by done.
  set (c' := with_metrics _ _).
  destruct Hi as [[Hch Hnd Hdom] _ [A1 A2 A3 A4 A5] Hcol Hleaf Hclo Hroot _].
  rewrite app_nil_r in Hch, Hnd, Hdom, A1, A2. unfold coloured in Hcol. rewrite Hp in Hcol.
  destruct Hcol as (Hg & Hga & Hcol).
  assert (Hkept : forall l, kept c' [] l <-> kept c pre l).
  { intros l. split; intros (b & Hb & Hl & Hk); exists b; (split; [done|]); (split; [done|]); [|done].
    intros _. left. apply Hdom. by exists b. }
  assert (Hedge : forall e, edge_ok c pre e -> edge_ok c' [] e).
  { intros [l|l]; cbn; [by apply Hkept|].
    intros (b & Hb & _). exists b. by split. }
  exists c', (Check F64.INFINITY), [], pre. split; [done|]. split; [split|split].
  - by split.
  - done.
  - split; done.
  - unfold coloured. cbn. split_and!; [|done..]. intros l b Hb. apply (Hcol l b Hb), Hdom. by exists b.
  - done.
  - intros l b Hb Hk%Hkept. eapply Forall_impl; [by apply (Hclo l b)|exact Hedge].
  - eapply Forall_impl; [exact Hroot|exact Hedge].
  - done.
  - left. split; [done|]. by left.
  - unfold exact. rewrite Hp. cbn. intros [|Hx]; [done|]. intros l Hk%Hkept. by apply Hx.
Qed.

Lemma sweep_round_ok root target early c pre post :
  inv root [] c pre post -> phase c = Sweep ->
  round_ok root target early c pre post (sweep_round target early c).
Proof.
  intros Hi Hp. destruct (decide (early = Some AfterSweep)) as [->|He].
  - exists c, (Check F64.INFINITY), pre, post. split; [done|]. split; [done|]. split.
    + left. split; [done|]. by right; right.
    + intros [|?]; [congruence|done].
  - destruct post as [|l post]; [by apply sweep_end_ok|by apply sweep_box_ok].
Qed.

Lemma sleep_round_ok root target early c pre post :
  inv root [] c pre post -> phase c = Sleep ->
  round_ok root target early c pre post (Ok (with_phase Mark c, Continue)).
Proof.
  intros Hi Hp. exists (with_phase Mark c), Continue, pre, post. split; [done|].
  destruct Hi as [Hpl Hcur Hacc Hcol Hleaf Hclo Hroot _].
  unfold cursor in Hcur. rewrite Hp in Hcur. unfold coloured in Hcol. rewrite Hp in Hcol.
  destruct Hcol as (Hw & Hg & Hga & Hrt).
  assert (Hedge : forall e, edge_ok c pre e -> edge_ok (with_phase Mark c) pre e).
  { intros [l|l]; cbn; [intros (b & Hb & Hl & _)|intros (b & Hb & _)]; exists b; by split_and?. }
  split; [split|split].
  - by destruct Hpl.
  - done.
  - destruct Hacc as [A1 A2 A3 A4 A5]. rewrite Hp in A5. by split.
  - unfold coloured. cbn. split; [|by rewrite Hrt]. split; cbn; rewrite ?Hg, ?Hga.
    + intros l. split; [|by intros ?%elem_of_nil]. intros (b & Hb & Hc).
      by rewrite (Hw l b Hb) in Hc.
    + constructor.
    + intros l b Hb Hr. rewrite (Hw l b Hb) in Hr. cbn in Hr. lia.
    + intros l b Hb Hc. by rewrite (Hw l b Hb) in Hc.
    + done.
  - done.
  - intros l b Hb (b' & Hb' & Hl & _). cbn in *. simplify_eq.
    eapply Forall_impl; [apply (Hclo l b Hb)|exact Hedge]. exists b. split_and!; [done|done|].
    by rewrite Hp.
  - eapply Forall_impl; [exact Hroot|exact Hedge].
  - done.
  - right. split; [by left|]. unfold measure. cbn. rewrite Hp, Hrt. cbn.
    pose proof (total_bound work (heap c) (pre ++ post) 2
      ltac:(intros b; unfold work; destruct (color b); lia) ltac:(lia)). lia.
  - intros _. unfold exact. cbn. intros l (b & Hb & Hr). cbn in Hb. rewrite (Hw l b Hb) in Hr.
    cbn in Hr. lia.
Qed.

Lemma collect_round_ok root target early c pre post : inv root [] c pre post ->
  round_ok root target early c pre post (collect_round root target early c).
Proof.
  intros Hi. unfold collect_round. destruct (phase c) eqn:Hp.
  - by apply mark_round_ok.
  - by apply sweep_round_ok.
  - by apply sleep_round_ok.
  - exfalso. pose proof (inv_cursor _ _ _ _ _ Hi) as Hcur. unfold cursor in Hcur.
    by rewrite Hp in Hcur.
Qed.
End sweeping.
