(* ===== verification/GcMutator.v ===== *)
(** * What a program does with an arena

    The callbacks of [Arena::mutate], [mutate_root], [map_root] and
    [MarkedArena::finalize] as sequences of actions on the pointers they hold, with
    the collections between callbacks, and the invariant through each action.

    [may] is what the borrow checker and the lifetime ['gc] impose: an action uses
    pointers that the callback holds, pointers do not outlive the callback, and
    collection only happens between callbacks. *)

From S2P Require Import Prelude Float64 GcMetrics GcArena GcFacts GcSweep.
Import Gc.

Record Arena : Type := mk_arena {
  context : Context_;
  root : list edge;
  held : list edge  (** the pointers of the running callback *)
}.

Inductive action : Type :=
  (** [Gc::new]: the allocator returns [l] for a box of [size] bytes *)
  | Alloc (l : loc) (needs_trace : bool) (size : Z) (value : list edge)
  | ReadRoot
  | Load (l : loc)               (** dereferences a [Gc] *)
  | Downgrade (l : loc)          (** [Gc::downgrade] *)
  | Upgrade (l : loc)            (** [GcWeak::upgrade] *)
  | Write (l : loc) (value : list edge)     (** [Gc::write], then a new value *)
  | AdoptBackward (parent child : loc)      (** [backward_barrier(parent, Some(child))] *)
  | AdoptForward (parent child : loc)       (** [forward_barrier(Some(parent), child)] *)
  | AdoptAny (parent child : loc)           (** [forward_barrier(None, child)] *)
  | WriteRoot (value : list edge)           (** [mutate_root], [map_root] *)
  | Resurrect (l : loc)          (** [GcWeak::resurrect] of a finalization *)
  | External (allocated : bool) (bytes : Z)
      (** [mark_external_allocation] and [mark_external_deallocation] *)
  | SetPacing (p : Pacing.t)
  | Return                       (** the end of the callback *)
  | Collect (target : f64) (early_stop : option EarlyStop).

Section mutator.
Context `{BuildProfile}.
Implicit Types (c : Context_) (a : Arena).

Definition strong (l : loc) (es : list edge) : Prop := Strong l ∈ es.
Definition weak (l : loc) (es : list edge) : Prop := Weak l ∈ es.

(** A type whose [NEEDS_TRACE] is false holds no pointers. *)
Definition fits (es : list edge) (l : loc) (c : Context_) : Prop :=
  match heap c !! l with Some b => needs_trace b = false -> es = [] | None => True end.

Definition may (act : action) (a : Arena) : Prop :=
  let c := context a in
  match act with
  | Alloc l nt size value =>
      heap c !! l = None /\ 1 <= size /\
      Metrics.total_gc_bytes (metrics c) + size <= int_max usize /\
      value ⊆ held a /\ (nt = false -> value = [])
  | ReadRoot | Return | External _ _ | SetPacing _ => True
  | Load l | Downgrade l => Strong l ∈ held a
  | Upgrade l => Weak l ∈ held a
  | Write l value => Strong l ∈ held a /\ value ⊆ held a /\ fits value l c
  | AdoptBackward p k | AdoptForward p k | AdoptAny p k =>
      Strong p ∈ held a /\ Strong k ∈ held a /\ fits [Strong k] p c
  | WriteRoot value => value ⊆ held a
  | Resurrect l => Weak l ∈ held a /\ phase c = Mark
  | Collect _ _ => held a = []
  end.

(** The parent's value gets [child] besides what it holds. *)
Definition adopt (parent child : loc) (c : Context_) : outcome Context_ :=
  p ← get_box c parent;
  Ok (put_box parent (set_edges (Strong child :: edges p) p) c).

Definition perform (act : action) (a : Arena) : outcome Arena :=
  let c := context a in
  match act with
  | Alloc l nt size value =>
      c ← allocate l nt size value c; Ok (mk_arena c (root a) (Strong l :: held a))
  | ReadRoot => Ok (mk_arena c (root a) (root a ++ held a))
  | Load l =>
      b ← get_box c l; rust_assert (live b) ;;
      Ok (mk_arena c (root a) (edges b ++ held a))
  | Downgrade l => Ok (mk_arena c (root a) (Weak l :: held a))
  | Upgrade l =>
      up ← upgrade l c;
      Ok (if up : bool then mk_arena c (root a) (Strong l :: held a) else a)
  | Write l value =>
      c ← backward_barrier l None c;
      b ← get_box c l;
      Ok (mk_arena (put_box l (set_edges value b) c) (root a) (held a))
  | AdoptBackward p k =>
      c ← backward_barrier p (Some k) c; c ← adopt p k c; Ok (mk_arena c (root a) (held a))
  | AdoptForward p k =>
      c ← forward_barrier (Some p) k c; c ← adopt p k c; Ok (mk_arena c (root a) (held a))
  | AdoptAny p k =>
      c ← forward_barrier None k c; c ← adopt p k c; Ok (mk_arena c (root a) (held a))
  | WriteRoot value => Ok (mk_arena (root_barrier c) value (held a))
  | Resurrect l =>
      r ← resurrect l c;
      Ok (mk_arena r.2 (root a) (if r.1 : bool then Strong l :: held a else held a))
  | External alloc n =>
      let m := (if alloc then Metrics.mark_external_allocation
                else Metrics.mark_external_deallocation) n (metrics c) in
      Ok (mk_arena (with_metrics m c) (root a) (held a))
  | SetPacing p =>
      Ok (mk_arena (with_metrics (Metrics.set_pacing p (metrics c)) c) (root a) (held a))
  | Return => Ok (mk_arena c (root a) [])
  | Collect target early =>
      match do_collection (rounds c) (root a) target early c with
      | Some o => c ← o; Ok (mk_arena c (root a) (held a))
      | None => Panic  (* more rounds than [rounds] allows *)
      end
  end.

(** [Arena::new]: the first callback builds the root. *)
Definition Arena_new : outcome Arena := c ← new; Ok (mk_arena c [] []).

Inductive runs_to : Arena -> Prop :=
  | runs_new a : Arena_new = Ok a -> runs_to a
  | runs_action a act a' : runs_to a -> may act a -> perform act a = Ok a' -> runs_to a'.

(** ** The invariant *)

Definition arena_inv (a : Arena) : Prop :=
  exists pre post, inv (root a) (held a) (context a) pre post.

Lemma inv_held_sub r h h' c pre post : inv r h c pre post ->
  Forall (edge_ok c pre) h' -> inv r h' c pre post.
Proof. intros [] Hh. by split. Qed.

Lemma held_ok r h c pre post e : inv r h c pre post -> e ∈ h -> edge_ok c pre e.
Proof. intros Hi. by apply (proj1 (Forall_forall _ _) (inv_held _ _ _ _ _ Hi)). Qed.

Lemma held_all_ok r h c pre post es : inv r h c pre post -> es ⊆ h ->
  Forall (edge_ok c pre) es.
Proof. intros Hi Hs. apply Forall_forall. intros e He. eapply held_ok; [exact Hi|by apply Hs]. Qed.

(** ** A new value for a box *)

Lemma set_edges_shape (h : gmap loc gc_box) l b es x : h !! l = Some b ->
  match h !! x, <[l := set_edges es b]> h !! x with
  | Some d, Some d' => next d' = next d /\ color d' = color d /\ live d' = live d /\
      needs_trace d' = needs_trace d /\ box_size d' = box_size d /\
      (edges d' = edges d \/ (x = l /\ edges d' = es))
  | None, None => True
  | _, _ => False
  end.
Proof.
  intros Hb. destruct (decide (x = l)) as [->|Hne].
  - rewrite lookup_insert_eq, Hb. split_and!; try done. by right.
  - rewrite lookup_insert_ne by done. destruct (h !! x); [|done]. split_and!; try done. by left.
Qed.

Lemma set_edges_marking cur c l b es : marking cur c -> heap c !! l = Some b ->
  (needs_trace b = false -> es = []) ->
  (color b = GcColor.Black -> Forall (marked (heap c)) es) ->
  marking cur (put_box l (set_edges es b) c).
Proof.
  intros Hm Hb Hleaf Hblack.
  assert (Hmark : forall e, marked (heap c) e -> marked (<[l := set_edges es b]> (heap c)) e).
  { intros e. destruct e as [x|x]; cbn; intros (d & Hd & Hr);
      pose proof (set_edges_shape _ _ _ es x Hb) as Hx; rewrite Hd in Hx;
      (destruct (<[l:=set_edges es b]> (heap c) !! x) as [d'|]; [|done]); exists d';
      (split; [done|]); destruct Hx as (_ & -> & _); done. }
  split; cbn [heap gray gray_again put_box with_heap].
  - intros x. rewrite <- (mk_gray _ _ Hm). destruct (decide (x = l)) as [->|Hne].
    + rewrite lookup_insert_eq, Hb. split; intros (d & [= <-] & Hc); by eexists.
    + by rewrite lookup_insert_ne.
  - apply Hm.
  - intros x d. destruct (decide (x = l)) as [->|Hne].
    + rewrite lookup_insert_eq. intros [= <-]. exact (mk_live _ _ Hm l b Hb).
    + rewrite lookup_insert_ne by done. apply Hm.
  - intros x d. destruct (decide (x = l)) as [->|Hne].
    + rewrite lookup_insert_eq. intros [= <-] Hc. eapply Forall_impl; [by apply Hblack|done].
    + rewrite lookup_insert_ne by done. intros Hd Hc.
      eapply Forall_impl; [by eapply mk_black|done].
  - intros x d. destruct (decide (x = l)) as [->|Hne].
    + rewrite lookup_insert_eq. intros [= <-]. exact Hleaf.
    + rewrite lookup_insert_ne by done. apply Hm.
Qed.

Lemma write_inv r h c pre post l b es : inv r h c pre post -> heap c !! l = Some b ->
  Forall (edge_ok c pre) es -> (needs_trace b = false -> es = []) ->
  (phase c = Mark -> color b = GcColor.Black -> Forall (marked (heap c)) es) ->
  inv r h (put_box l (set_edges es b) c) pre post.
Proof.
  intros [[Hch Hnd Hdom] Hcur Hacc Hcol Hleaf Hclo Hroot Hheld] Hb Hes Hfit Hblack.
  set (h' := <[l := set_edges es b]> (heap c)).
  assert (Hsh := fun x => set_edges_shape (heap c) l b es x Hb). fold h' in Hsh.
  assert (Hinv : forall x d', h' !! x = Some d' -> exists d, heap c !! x = Some d /\
    color d' = color d /\ live d' = live d /\ needs_trace d' = needs_trace d /\
    box_size d' = box_size d /\ (edges d' = edges d \/ (x = l /\ edges d' = es))).
  { intros x d' Hd'. specialize (Hsh x). rewrite Hd' in Hsh. destruct (heap c !! x) as [d|]; [|done].
    exists d. tauto. }
  assert (Hedge : forall e, edge_ok c pre e -> edge_ok (put_box l (set_edges es b) c) pre e).
  { intros e. destruct e as [x|x]; cbn; intros (d & Hd & Hr); specialize (Hsh x);
      rewrite Hd in Hsh; (destruct (h' !! x) as [d'|] eqn:Ed; [|done]); exists d';
      (split; [done|]); destruct Hsh as (_ & -> & Hsh & _); rewrite ?Hsh; done. }
  assert (Hw : forall ls, total box_size h' ls = total box_size (heap c) ls).
  { intros ls. apply total_ext. intros x _. unfold weigh. specialize (Hsh x).
    destruct (heap c !! x), (h' !! x); try done. tauto. }
  split.
  - split; [|done|].
    + eapply chain_ext; [|exact Hch]. intros x _. specialize (Hsh x). cbn. fold h'.
      destruct (heap c !! x), (h' !! x); try done. cbn. f_equal. tauto.
    + intros x [d' Hd']. destruct (Hinv x d' Hd') as (d & Hd & _). apply Hdom. by exists d.
  - done.
  - destruct Hacc as [A1 A2 A3 A4 A5]. split; cbn; fold h'; rewrite ?Hw; try done.
    intros x d' Hd'. destruct (Hinv x d' Hd') as (d & Hd & _ & _ & _ & -> & _). by apply (A3 x).
  - unfold coloured in *. cbn. destruct (phase c).
    + destruct Hcol as [Hm Hrt]. split; [apply set_edges_marking; auto|]. intros Hf.
      eapply Forall_impl; [by apply Hrt|]. intros [x|x]; cbn; intros (d & Hd & Hr);
        specialize (Hsh x); rewrite Hd in Hsh; (destruct (h' !! x) as [d'|] eqn:Ed; [|done]);
        exists d'; (split; [done|]); destruct Hsh as (_ & -> & _); done.
    + destruct Hcol as (Hg & Hga & Hcol). split_and!; [done|done|]. intros x d' Hd'.
      destruct (Hinv x d' Hd') as (d & Hd & -> & -> & _). by apply Hcol.
    + destruct Hcol as (Hw' & Hg). split; [|done]. intros x d' Hd'.
      destruct (Hinv x d' Hd') as (d & Hd & -> & _). by eapply Hw'.
    + done.
  - intros x d' Hd' Hf. destruct (Hinv x d' Hd') as (d & Hd & _ & _ & En & _ & [->|[-> ->]]);
      rewrite En in Hf; [by eapply Hleaf|simplify_eq; auto].
  - intros x d' Hd' (k & Hk & Hl & Hp). cbn in Hk, Hp, Hd'. fold h' in Hk, Hd'. simplify_eq.
    destruct (Hinv x d' Hd') as (d & Hd & Ec & El & _ & _ & He).
    eapply Forall_impl; [|exact Hedge]. destruct He as [->|[-> ->]]; [|done].
    apply (Hclo x d Hd). exists d. rewrite <- El. split_and!; [done|done|]. by rewrite <- Ec.
  - eapply Forall_impl; [exact Hroot|exact Hedge].
  - eapply Forall_impl; [exact Hheld|exact Hedge].
Qed.

(** ** Barriers *)

Lemma kept_box c pre l : kept c pre l -> exists b, heap c !! l = Some b /\ live b = true /\
  get_box c l = Ok b.
Proof. intros (b & Hb & Hl & _). exists b. split_and!; [done|done|]. unfold get_box. by rewrite Hb. Qed.

(** A gray box is queued: marking goes on. *)
Lemma gray_inv r h c pre post l b g ga : inv r h c pre post -> phase c = Mark ->
  heap c !! l = Some b -> color b <> GcColor.Gray -> live b = true ->
  l :: gray c ++ gray_again c ≡ₚ g ++ ga ->
  inv r h (with_gray_again ga (with_gray g (put_box l (set_color GcColor.Gray b) c))) pre post.
Proof.
  intros Hi Hp Hb Hg Hl Hperm. pose proof (inv_coloured _ _ _ _ _ Hi) as Hcol.
  unfold coloured in Hcol. rewrite Hp in Hcol. destruct Hcol as [Hm Hrt].
  eapply inv_shapes; [exact Hi|done|done|by apply recolor_shapes|done..| |].
  - by apply marking_gray.
  - intros Hf. eapply Forall_impl; [by apply Hrt|]. intros e. apply marked_gray.
Qed.

(** After the barrier, a parent that is black only adopts what marking has reached. *)
Definition barred (c : Context_) (parent : loc) (adopts : loc -> Prop) : Prop :=
  phase c = Mark -> forall b, heap c !! parent = Some b -> color b = GcColor.Black ->
    forall l, adopts l -> marked (heap c) (Strong l).

Lemma backward_ok r h c pre post p k : inv r h c pre post -> Strong p ∈ h ->
  match k with Some k => Strong k ∈ h | None => True end ->
  exists c', backward_barrier p k c = Ok c' /\ inv r h c' pre post /\
    same_shapes (heap c) (heap c') /\
    match k with
    | Some k => barred c' p (eq k)
    | None => phase c' = Mark -> forall b, heap c' !! p = Some b -> color b <> GcColor.Black
    end.
Proof.
  intros Hi Hp Hk. destruct (kept_box c pre p) as (b & Hb & Hlive & Hbox);
    [by apply (held_ok r h c pre post (Strong p))|].
  unfold backward_barrier. rewrite Hbox, outcome_bind_Ok.
  destruct (decide (phase c = Mark /\ color b = GcColor.Black)) as [[Hph Hc]|Hno].
  2:{ exists c. split_and!; [done|done|done|].
      destruct k; intros Hph b' Hb' Hc; simplify_eq; tauto. }
  assert (Hgray : exists c', Ok (with_gray_again (gray_again c ++ [p])
      (put_box p (set_color GcColor.Gray b) c)) = Ok c' /\ inv r h c' pre post /\
      same_shapes (heap c) (heap c') /\
      forall b, heap c' !! p = Some b -> color b <> GcColor.Black).
  { eexists. split; [done|]. split; [|split].
    - apply (gray_inv r h c pre post p b (gray c) (gray_again c ++ [p])); try done; [congruence|].
      rewrite app_assoc. apply Permutation_cons_append.
    - by apply recolor_shapes.
    - intros b'. cbn. rewrite lookup_insert_eq. by intros [= <-]. }
  destruct k as [k|].
  2:{ destruct Hgray as (c' & E & Hi' & Hs & Hn). exists c'. by split_and!. }
  destruct (kept_box c pre k) as (d & Hd & _ & Hbox'); [by apply (held_ok r h c pre post (Strong k))|].
  rewrite Hbox', outcome_bind_Ok. cbn [mret outcome_ret]. rewrite outcome_bind_Ok.
  destruct (is_white (color d)) eqn:Hw.
  { destruct Hgray as (c' & E & Hi' & Hs & Hn). exists c'. split_and!; try done.
    intros _ b' Hb' Hc'. by apply Hn in Hc'. }
  exists c. split_and!; [done|done|done|]. intros _ b' Hb' Hc' l <-. exists d.
  split; [done|]. destruct (color d); cbn in *; (done || lia).
Qed.

Lemma trace_ok r h c pre post k : inv r h c pre post -> phase c = Mark -> Strong k ∈ h ->
  exists c', trace k c = Ok c' /\ inv r h c' pre post /\ darkens (heap c) (heap c') /\
    marked (heap c') (Strong k) /\ phase c' = Mark.
Proof.
  intros Hi Hp Hk. destruct (kept_box c pre k) as (b & Hb & Hlive & _);
    [by apply (held_ok r h c pre post (Strong k))|].
  pose proof (inv_coloured _ _ _ _ _ Hi) as Hcol. unfold coloured in Hcol. rewrite Hp in Hcol.
  destruct Hcol as [Hm Hrt].
  destruct (trace_spec [] c k b Hm Hb Hlive) as (c' & E & [Hd H1 H2 H3 H4 H5 H6] & Hm' & Hk' & _).
  exists c'. split; [done|]. split; [|split_and!; [done|done|congruence]].
  eapply inv_marks; try done; [congruence|]. rewrite H3. intros Hf.
  eapply Forall_impl; [by apply Hrt|]. intros e. by apply marked_darkens.
Qed.

Lemma forward_ok r h c pre post p k : inv r h c pre post -> Strong k ∈ h ->
  match p with Some p => Strong p ∈ h | None => True end ->
  exists c', forward_barrier p k c = Ok c' /\ inv r h c' pre post /\
    same_shapes (heap c) (heap c') /\
    forall q, match p with Some p => q = p | None => True end -> barred c' q (eq k).
Proof.
  intros Hi Hk Hp. unfold forward_barrier. destruct (decide (phase c = Mark)) as [Hph|Hph].
  2:{ exists c. split_and!; [done|done|done|]. by intros q _ Hph'. }
  assert (Htrace : exists c', trace k c = Ok c' /\ inv r h c' pre post /\
    same_shapes (heap c) (heap c') /\ forall q, barred c' q (eq k)).
  { destruct (trace_ok r h c pre post k) as (c' & E & Hi' & Hd & Hm & _); try done.
    exists c'. split_and!; [done|done|by apply darkens_shapes|]. by intros q _ b _ _ l <-. }
  destruct p as [p|].
  2:{ rewrite outcome_bind_Ok. destruct Htrace as (c' & -> & Hr). exists c'. split; [done|].
      split_and!; [apply Hr|apply Hr|]. intros q _. apply Hr. }
  destruct (kept_box c pre p) as (b & Hb & _ & Hbox); [by apply (held_ok r h c pre post (Strong p))|].
  rewrite Hbox, !outcome_bind_Ok. case_bool_decide as Hc.
  - destruct Htrace as (c' & -> & Hr). exists c'. split; [done|].
    split_and!; [apply Hr|apply Hr|]. intros q _. apply Hr.
  - exists c. split_and!; [done|done|done|]. intros q -> _ b' Hb' Hc'. congruence.
Qed.

(** Adopting a child, or any new value, under the barrier *)
Lemma adopt_ok r h c pre post p k : inv r h c pre post -> Strong p ∈ h -> Strong k ∈ h ->
  (forall b, heap c !! p = Some b -> needs_trace b = false -> [Strong k] = []) ->
  barred c p (eq k) -> exists c', adopt p k c = Ok c' /\ inv r h c' pre post.
Proof.
  intros Hi Hp Hk Hfit Hbar. pose proof (held_ok _ _ _ _ _ _ Hi Hp) as Hkept.
  destruct (kept_box c pre p Hkept) as (b & Hb & Hlive & Hbox).
  unfold adopt. rewrite Hbox, outcome_bind_Ok. eexists. split; [done|].
  eapply write_inv; [done|done| | |].
  - apply Forall_cons. split; [by eapply held_ok|]. by apply (inv_closed _ _ _ _ _ Hi p b).
  - intros Hn. by specialize (Hfit b Hb Hn).
  - intros Hph Hc. apply Forall_cons. split; [by apply (Hbar Hph b)|].
    pose proof (inv_coloured _ _ _ _ _ Hi) as Hcol. unfold coloured in Hcol. rewrite Hph in Hcol.
    by apply (mk_black _ _ (proj1 Hcol) p b).
Qed.

(** ** Allocation *)

(** A fresh box enters the list before all others, swept already. *)
Definition alloc_pre (c : Context_) (l : loc) (pre : list loc) : list loc :=
  if decide (phase c = Sweep) then l :: pre else pre.
Definition alloc_post (c : Context_) (l : loc) (post : list loc) : list loc :=
  if decide (phase c = Sweep) then post else l :: post.

Lemma alloc_split c l pre post : (phase c <> Sweep -> pre = []) ->
  alloc_pre c l pre ++ alloc_post c l post = l :: pre ++ post.
Proof.
  intros Hp. unfold alloc_pre, alloc_post. destruct (decide _) as [|Hne]; [done|].
  by rewrite (Hp Hne).
Qed.

Section fresh.
Context (c c' : Context_) (l : loc) (pre post : list loc) (b : gc_box).
Context (Hfresh : heap c !! l = None) (Hheap : heap c' = <[l := b]> (heap c))
  (Hphase : phase c' = phase c) (Hwhite : color b = GcColor.White) (Hlive : live b = true).

Lemma fresh_other x d : heap c !! x = Some d -> x <> l /\ heap c' !! x = Some d.
Proof.
  intros Hd. assert (Hne : x <> l) by congruence. split; [done|].
  by rewrite Hheap, lookup_insert_ne.
Qed.

Lemma fresh_inv x d : heap c' !! x = Some d -> (x = l /\ d = b) \/ (x <> l /\ heap c !! x = Some d).
Proof.
  rewrite Hheap. destruct (decide (x = l)) as [->|Hne].
  - rewrite lookup_insert_eq. intros [= <-]. by left.
  - rewrite lookup_insert_ne by done. by right.
Qed.

Lemma alloc_pre_in x : x ∈ pre -> x ∈ alloc_pre c l pre.
Proof. unfold alloc_pre. destruct (decide _); [by right|done]. Qed.

Lemma kept_fresh x : kept c' (alloc_pre c l pre) x <-> x = l \/ kept c pre x.
Proof.
  split.
  - intros (d & Hd & Hl & Hk). destruct (fresh_inv x d Hd) as [[-> ->]|[Hne Hd']]; [by left|].
    right. exists d. split; [done|]. split; [done|]. intros Hp. rewrite Hphase in Hk.
    destruct (Hk Hp) as [Hx|]; [left|by right]. unfold alloc_pre in Hx.
    rewrite decide_True in Hx by done. by apply elem_of_cons in Hx as [?|?].
  - intros [->|(d & Hd & Hl & Hk)].
    + exists b. rewrite Hheap, lookup_insert_eq. split_and!; [done|done|]. intros Hp. left.
      unfold alloc_pre. rewrite decide_True by congruence. by left.
    + exists d. destruct (fresh_other x d Hd) as [_ Hd']. split_and!; [done|done|].
      rewrite Hphase. intros Hp. destruct (Hk Hp); [left; by apply alloc_pre_in|by right].
Qed.

Lemma edge_ok_fresh e : edge_ok c pre e -> edge_ok c' (alloc_pre c l pre) e.
Proof.
  destruct e as [x|x]; cbn; [intros Hk; apply kept_fresh; by right|]. intros (d & Hd & Hk).
  exists d. destruct (fresh_other x d Hd) as [_ Hd']. split; [done|].
  rewrite Hphase. intros Hp. destruct (Hk Hp); [left; by apply alloc_pre_in|by right].
Qed.

Lemma marked_fresh e : marked (heap c) e -> marked (heap c') e.
Proof.
  destruct e as [x|x]; cbn; intros (d & Hd & Hr); destruct (fresh_other x d Hd); by exists d.
Qed.

Lemma marking_fresh : marking [] c -> gray c' = gray c -> gray_again c' = gray_again c ->
  (needs_trace b = false -> edges b = []) -> marking [] c'.
Proof.
  intros Hm Eg Ega Hleaf. split; rewrite ?Eg, ?Ega.
  - intros x. rewrite <- (mk_gray _ _ Hm). split.
    + intros (d & Hd & Hc). destruct (fresh_inv x d Hd) as [[-> ->]|[_ Hd']]; [congruence|].
      by exists d.
    + intros (d & Hd & Hc). exists d. by destruct (fresh_other x d Hd).
  - apply Hm.
  - intros x d Hd Hr. destruct (fresh_inv x d Hd) as [[-> ->]|[_ Hd']].
    + rewrite Hwhite in Hr. cbn in Hr. lia.
    + by eapply (mk_live _ _ Hm).
  - intros x d Hd Hc. destruct (fresh_inv x d Hd) as [[-> ->]|[_ Hd']]; [congruence|].
    eapply Forall_impl; [by apply (mk_black _ _ Hm x d)|]. intros e. apply marked_fresh.
  - intros x d Hd Hn. destruct (fresh_inv x d Hd) as [[-> ->]|[_ Hd']]; [by apply Hleaf|].
    by apply (mk_leaf _ _ Hm x d).
Qed.

Lemma total_fresh ls : l ∉ ls -> total box_size (heap c') ls = total box_size (heap c) ls.
Proof.
  intros Hl. apply total_ext. intros x Hx. unfold weigh. rewrite Hheap, lookup_insert_ne; [done|].
  by intros ->.
Qed.
End fresh.

Lemma alloc_metrics n m : 0 <= Metrics.total_gcs m <= Metrics.total_gc_bytes m ->
  1 <= n -> Metrics.total_gc_bytes m + n <= int_max usize ->
  exists m', Metrics.mark_gc_allocated n m = Ok m' /\
    Metrics.total_gcs m' = Metrics.total_gcs m + 1 /\
    Metrics.total_gc_bytes m' = Metrics.total_gc_bytes m + n /\
    Metrics.remembered_gcs m' = Metrics.remembered_gcs m /\
    Metrics.remembered_gc_bytes m' = Metrics.remembered_gc_bytes m.
Proof.
  intros Hg Hn Hb. unfold Metrics.mark_gc_allocated.
  rewrite (arith_in _ (_ + 1)), outcome_bind_Ok by int_lia.
  rewrite arith_in, outcome_bind_Ok by int_lia. by eexists.
Qed.

Lemma alloc_accounted c c' l b pre post : accounted c pre post -> placed c pre post ->
  (phase c <> Sweep -> pre = []) -> heap c !! l = None -> heap c' = <[l := b]> (heap c) ->
  phase c' = phase c -> 1 <= box_size b ->
  Metrics.total_gc_bytes (metrics c) + box_size b <= int_max usize ->
  Metrics.total_gcs (metrics c') = Metrics.total_gcs (metrics c) + 1 ->
  Metrics.total_gc_bytes (metrics c') = Metrics.total_gc_bytes (metrics c) + box_size b ->
  Metrics.remembered_gcs (metrics c') = Metrics.remembered_gcs (metrics c) ->
  Metrics.remembered_gc_bytes (metrics c') = Metrics.remembered_gc_bytes (metrics c) ->
  accounted c' (alloc_pre c l pre) (alloc_post c l post).
Proof.
  intros [A1 A2 A3 A4 A5] [Hch _ _] Hpre Hf Eh Hp Hs Hb E1 E2 E3 E4.
  assert (Hl : l ∉ pre ++ post).
  { intros Hin. destruct (chain_lookup _ _ _ _ Hch Hin). congruence. }
  assert (Hsplit := alloc_split c l pre post Hpre).
  split; rewrite ?Hsplit, ?E1, ?E2, ?E3, ?E4.
  - rewrite A1. cbn [length]. lia.
  - cbn [total]. rewrite (total_fresh c c' l b Hf Eh _ Hl). unfold weigh.
    rewrite Eh, lookup_insert_eq. lia.
  - intros x d. rewrite Eh. destruct (decide (x = l)) as [->|Hne].
    + rewrite lookup_insert_eq. by intros [= <-].
    + rewrite lookup_insert_ne by done. apply A3.
  - done.
  - rewrite Hp. unfold alloc_post. destruct (phase c) eqn:Hph; try done.
    rewrite decide_True by done. rewrite (total_fresh c c' l b Hf Eh); [lia|].
    rewrite elem_of_app in Hl. tauto.
Qed.

Lemma pre_nil r h c pre post : inv r h c pre post -> phase c <> Sweep -> pre = [].
Proof.
  intros Hi Hp. pose proof (inv_cursor _ _ _ _ _ Hi) as Hcur. unfold cursor in Hcur.
  destruct (phase c); tauto.
Qed.

Lemma head_app_nil {A} (l k : list A) : l = [] -> head (l ++ k) = head k.
Proof. by intros ->. Qed.

Lemma alloc_cursor c c' l pre post : cursor c pre post -> phase c' = phase c ->
  sweep c' = sweep c ->
  sweep_prev c' = (if decide (phase c = Sweep /\ sweep_prev c = None) then Some l
                   else sweep_prev c) ->
  cursor c' (alloc_pre c l pre) (alloc_post c l post).
Proof.
  unfold cursor, alloc_pre, alloc_post. intros Hcur Ep Es ->. rewrite Ep, Es.
  destruct (phase c) eqn:Hp; try done.
  destruct Hcur as [Hs Hprev]. rewrite (decide_True (P := Sweep = Sweep)) by done.
  split; [done|]. destruct (decide (Sweep = Sweep /\ sweep_prev c = None)) as [[_ Hn]|Hn].
  - rewrite Hn in Hprev. symmetry in Hprev. apply last_None in Hprev as ->. done.
  - destruct pre as [|x pre]; [tauto|done].
Qed.

(** What [allocate] does to the context *)
Lemma alloc_inv r h c pre post l nt n es : inv r h c pre post -> heap c !! l = None ->
  1 <= n -> Metrics.total_gc_bytes (metrics c) + n <= int_max usize -> es ⊆ h ->
  (nt = false -> es = []) ->
  exists c', allocate l nt n es c = Ok c' /\
    inv r (Strong l :: h) c' (alloc_pre c l pre) (alloc_post c l post).
Proof.
  intros Hi Hf Hn Hmax Hes Hleaf.
  pose proof (gcs_bound _ _ _ (inv_placed _ _ _ _ _ Hi) (inv_accounted _ _ _ _ _ Hi)) as Hgcs.
  destruct (alloc_metrics n (metrics c)) as (m & Hm & E1 & E2 & E3 & E4); [|done..|].
  { split; [|done]. rewrite (ac_gcs _ _ _ (inv_accounted _ _ _ _ _ Hi)). lia. }
  unfold allocate. rewrite Hm, outcome_bind_Ok.
  set (b := mk_box (all c) GcColor.White nt true n es). eexists. split; [reflexivity|].
  set (c' := if decide _ then _ else _).
  assert (Hc' : heap c' = <[l := b]> (heap c) /\ metrics c' = m /\ phase c' = phase c /\
    all c' = Some l /\ sweep c' = sweep c /\ gray c' = gray c /\ gray_again c' = gray_again c /\
    root_needs_trace c' = root_needs_trace c /\
    sweep_prev c' = if decide (phase c = Sweep /\ sweep_prev c = None) then Some l
                    else sweep_prev c).
  { unfold c'. cbn. by destruct (decide (phase c = Sweep /\ sweep_prev c = None)). }
  clearbody c'. destruct Hc' as (Eh & Em & Ep & Eall & Esw & Eg & Ega & Er & Epr).
  pose proof (pre_nil _ _ _ _ _ Hi) as Hpre. pose proof (alloc_split c l pre post Hpre) as Hsplit.
  assert (Hedge : forall e, edge_ok c pre e -> edge_ok c' (alloc_pre c l pre) e)
    by (intros; by eapply edge_ok_fresh).
  pose proof (held_all_ok _ _ _ _ _ _ Hi Hes) as Hval.
  destruct Hi as [Hpl Hcur Hacc Hcol Hl Hclo Hroot Hheld].
  split.
  - destruct Hpl as [Hch Hnd Hdom]. assert (Hnin : l ∉ pre ++ post).
    { intros Hin. destruct (chain_lookup _ _ _ _ Hch Hin). congruence. }
    split; rewrite Hsplit.
    + rewrite Eall. cbn. split; [done|]. exists b. rewrite Eh, lookup_insert_eq. split; [done|].
      eapply chain_ext; [|exact Hch]. intros x Hx. rewrite lookup_insert_ne; [done|].
      by intros ->.
    + by apply NoDup_cons.
    + intros x [d Hd]. destruct (fresh_inv c c' l b Eh x d Hd) as [[-> _]|[_ Hd']];
        [by left|right]. apply Hdom. by exists d.
  - eapply alloc_cursor; [exact Hcur|by rewrite Ep|done..].
  - eapply alloc_accounted; rewrite ?Em; try done.
  - unfold coloured in *. rewrite Ep, Eg, Ega, Er. destruct (phase c) eqn:Hp.
    + destruct Hcol as [Hmk Hrt]. split; [by apply (marking_fresh c c' l b)|]. intros Hfalse.
      eapply Forall_impl; [by apply Hrt|]. intros e. by apply (marked_fresh c c' l b).
    + destruct Hcol as (Hg & Hga & Hcol). split_and!; [done|done|]. intros x d Hd.
      destruct (fresh_inv c c' l b Eh x d Hd) as [[-> ->]|[Hne Hd']]; [done|].
      destruct (Hcol x d Hd') as (H1 & H2 & H3). split_and!; [done| |done].
      unfold alloc_pre. rewrite decide_True by done. intros [?|Hx]%elem_of_cons; [done|by apply H2].
    + destruct Hcol as (Hw & Hg). split; [|done]. intros x d Hd.
      destruct (fresh_inv c c' l b Eh x d Hd) as [[-> ->]|[Hne Hd']]; [done|by eapply Hw].
    + done.
  - intros x d Hd Hnt. destruct (fresh_inv c c' l b Eh x d Hd) as [[-> ->]|[_ Hd']]; [by apply Hleaf|].
    by eapply Hl.
  - intros x d Hd Hk. destruct (fresh_inv c c' l b Eh x d Hd) as [[-> ->]|[Hne Hd']].
    + eapply Forall_impl; [exact Hval|exact Hedge].
    + apply (kept_fresh c c' l pre b) in Hk as [?|Hk]; try done.
      eapply Forall_impl; [by apply (Hclo x d)|exact Hedge].
  - eapply Forall_impl; [exact Hroot|exact Hedge].
  - apply Forall_cons. split; [|eapply Forall_impl; [exact Hheld|exact Hedge]].
    apply (kept_fresh c c' l pre b); try done. by left.
Qed.

(** ** The other actions *)

Lemma write_root_inv r h c pre post es : inv r h c pre post -> es ⊆ h ->
  inv es h (root_barrier c) pre post.
Proof.
  intros Hi Hes. pose proof (held_all_ok _ _ _ _ _ _ Hi Hes) as Hval.
  destruct Hi as [Hpl Hcur Hacc Hcol Hl Hclo Hroot Hheld]. unfold root_barrier.
  unfold coloured in Hcol. destruct (decide (phase c = Mark)) as [Hp|Hp].
  - rewrite Hp in Hcol. destruct Hcol as [Hm _].
    assert (Hedge : forall e, edge_ok c pre e -> edge_ok (with_root_needs_trace true c) pre e)
      by (intros [?|?]; done).
    split; [by destruct Hpl|done|by destruct Hacc| |done| | |].
    + unfold coloured. cbn. rewrite Hp. split; [by apply (marking_same [] c)|done].
    + intros x d Hd Hk. eapply Forall_impl; [by apply (Hclo x d)|exact Hedge].
    + eapply Forall_impl; [exact Hval|exact Hedge].
    + eapply Forall_impl; [exact Hheld|exact Hedge].
  - split; try done. unfold coloured. destruct (phase c); try done.
Qed.

Lemma upgrade_inv r h c pre post l : inv r h c pre post -> Weak l ∈ h ->
  exists up, upgrade l c = Ok up /\ (up = true <-> kept c pre l).
Proof.
  intros Hi Hl. apply (held_ok _ _ _ _ _ _ Hi) in Hl as (b & Hb & Hw). unfold upgrade, get_box.
  rewrite Hb, outcome_bind_Ok. eexists. split; [reflexivity|].
  pose proof (inv_coloured _ _ _ _ _ Hi) as Hcol. unfold coloured in Hcol.
  destruct (live b) eqn:Hlive.
  2:{ split; [done|]. intros (b' & Hb' & Hl' & _). congruence. }
  case_bool_decide as Hc; cbn [negb]; split; try done.
  - destruct Hc as [Hp Hc]. rewrite Hp in Hcol. destruct Hcol as (_ & _ & Hcol).
    intros (b' & Hb' & _ & Hk). simplify_eq. destruct (Hcol l b Hb) as (_ & Hpre & _).
    destruct (Hk Hp) as [Hx|Hx]; [rewrite (Hpre Hx) in Hc; done|congruence].
  - intros _. exists b. split_and!; [done|done|]. intros Hp. rewrite Hp in Hcol.
    destruct Hcol as (_ & _ & Hcol). destruct (Hcol l b Hb) as (Hg & _).
    destruct (Hw Hp) as [?|Hnw]; [by left|right]. destruct (color b); try done. tauto.
Qed.

Lemma resurrect_inv r h c pre post l : inv r h c pre post -> Weak l ∈ h -> phase c = Mark ->
  exists up c', resurrect l c = Ok (up, c') /\
    inv r (if up : bool then Strong l :: h else h) c' pre post.
Proof.
  intros Hi Hl Hp. apply (held_ok _ _ _ _ _ _ Hi) in Hl as (b & Hb & Hw).
  unfold resurrect, get_box. rewrite Hb, outcome_bind_Ok.
  destruct (live b) eqn:Hlive; [|by exists false, c].
  rewrite bool_decide_eq_true_2 by done. cbn [rust_assert]. rewrite outcome_bind_Ok.
  assert (Hadd : forall c', inv r h c' pre post -> phase c' = Mark ->
    (exists d, heap c' !! l = Some d /\ live d = true) -> inv r (Strong l :: h) c' pre post).
  { intros c' Hi' Hp' (d & Hd & Hld). eapply inv_held_sub; [exact Hi'|].
    apply Forall_cons. split; [|apply Hi']. exists d. split_and!; [done|done|].
    by rewrite Hp'. }
  destruct (is_white (color b)) eqn:Hwh.
  - exists true. eexists. split; [reflexivity|]. apply Hadd; [|done|].
    + apply (gray_inv r h c pre post l b (gray c ++ [l]) (gray_again c)); try done.
      * intros Hc. by rewrite Hc in Hwh.
      * by rewrite <- app_assoc, Permutation_middle.
    + cbn. rewrite lookup_insert_eq. by eexists.
  - exists true, c. split; [done|]. apply Hadd; [done|done|by exists b].
Qed.

Lemma metrics_inv r h c m pre post : inv r h c pre post ->
  accounts m = accounts (metrics c) -> inv r h (with_metrics m c) pre post.
Proof.
  intros [Hpl Hcur Hacc Hcol Hl Hclo Hroot Hheld] Ha. injection Ha as E1 E2 E3 E4.
  assert (Hedge : forall e, edge_ok c pre e -> edge_ok (with_metrics m c) pre e)
    by (intros [?|?]; done).
  split; [by destruct Hpl|done| | |done| | |].
  - destruct Hacc as [A1 A2 A3 A4 A5]. split; cbn; by rewrite ?E1, ?E2, ?E3, ?E4.
  - unfold coloured in *. cbn. destruct (phase c); try done. split; [|apply Hcol].
    by apply (marking_same [] c); [..|apply Hcol].
  - intros x d Hd Hk. eapply Forall_impl; [by apply (Hclo x d)|exact Hedge].
  - eapply Forall_impl; [exact Hroot|exact Hedge].
  - eapply Forall_impl; [exact Hheld|exact Hedge].
Qed.

Lemma fits_shapes es l c c' b : fits es l c -> same_shapes (heap c) (heap c') ->
  heap c' !! l = Some b -> needs_trace b = false -> es = [].
Proof.
  intros Hfit Hs Hb Hn. unfold fits in Hfit.
  destruct (same_shapes_lookup _ _ l b (same_shapes_sym _ _ Hs) Hb) as (d & Hd & Hsh).
  rewrite Hd in Hfit. apply shape_eq in Hsh as (_ & Hsh & _). apply Hfit. congruence.
Qed.
End mutator.
