(* ===== verification/GcLoop.v ===== *)
(** * The collection loop and the runs of an arena

    Rounds make progress, so the loop of [do_collection] ends; every action of a
    program succeeds and keeps the invariant; what a collection leaves unchanged. *)

From S2P Require Import Prelude Float64 GcMetrics GcArena GcFacts GcSweep GcMutator.
Import Gc.

Section gc_loop.
Context `{BuildProfile}.
Implicit Types (c : Context_) (a : Arena).

(** ** Termination *)

Lemma measure_nonneg c pre post : 0 <= measure c pre post.
Proof.
  unfold measure. pose proof (total_bound work (heap c) (pre ++ post) 2
    ltac:(intros b; unfold work; destruct (color b); lia) ltac:(lia)).
  destruct (phase c), (root_needs_trace c); cbn; lia.
Qed.

(** The result of a collection *)
Definition collected (r : list edge) (target : f64) (early : option EarlyStop)
    (o : option (outcome Context_)) (P : Context_ -> list loc -> Prop) : Prop :=
  exists c' pre' post', o = Some (Ok c') /\ inv r [] c' pre' post' /\
    (stopped_at early c' \/ F64.ltb target (Metrics.allocation_debt (metrics c')) = false) /\
    P c' pre'.

Lemma collect_loop_ok fuel r target early c pre post :
  inv r [] c pre post -> measure c pre post < Z.of_nat fuel ->
  collected r target early (collect_loop fuel r target early c)
    (fun c' pre' => phase c = Sleep \/ exact r c pre -> exact r c' pre').
Proof.
  revert c pre post. induction fuel as [|fuel IH]; intros c pre post Hi Hm.
  { pose proof (measure_nonneg c pre post). lia. }
  cbn [collect_loop].
  destruct (collect_round_ok r target early c pre post Hi) as
    (c1 & ctl & pre1 & post1 & -> & Hi1 & Hprog & Hx).
  assert (Hnext : measure c1 pre1 post1 < measure c pre post ->
    collected r target early (collect_loop fuel r target early c1)
      (fun c' pre' => phase c = Sleep \/ exact r c pre -> exact r c' pre')).
  { intros Hlt. destruct (IH c1 pre1 post1 Hi1 ltac:(lia)) as (c' & pre' & post' & E & Hi' & Hs & Hx').
    exists c', pre', post'. split_and!; [done|done|done|]. intros H0. apply Hx'. right.
    by apply Hx. }
  destruct Hprog as [[-> Hstop]|[[->| ->] Hlt]].
  - rewrite Metrics.debt_below_infinity. exists c1, pre1, post1. split_and!; try done. by left.
  - by apply Hnext.
  - destruct (F64.ltb target (Metrics.allocation_debt (metrics c1))) eqn:Hd; [by apply Hnext|].
    exists c1, pre1, post1. split_and!; try done. by right.
Qed.

Lemma heap_size r h c pre post : inv r h c pre post -> size (heap c) = length (pre ++ post).
Proof.
  intros Hi. destruct (inv_placed _ _ _ _ _ Hi) as [Hch Hnd Hdom].
  rewrite <- size_dom. assert (E : dom (heap c) = list_to_set (C := gset loc) (pre ++ post)).
  { apply set_eq. intros l. rewrite elem_of_dom, elem_of_list_to_set. split; [apply Hdom|].
    by apply (chain_lookup _ _ _ _ Hch). }
  rewrite E. by apply size_list_to_set.
Qed.

Lemma rounds_enough r h c pre post : inv r h c pre post ->
  measure c pre post < Z.of_nat (rounds c).
Proof.
  intros Hi. unfold rounds, measure. rewrite (heap_size _ _ _ _ _ Hi).
  pose proof (total_bound work (heap c) (pre ++ post) 2
    ltac:(intros b; unfold work; destruct (color b); lia) ltac:(lia)).
  rewrite length_app in *. destruct (phase c), (root_needs_trace c); cbn; lia.
Qed.

Lemma do_collection_ok r target early c pre post : inv r [] c pre post ->
  collected r target early (do_collection (rounds c) r target early c)
    (fun c' pre' => F64.ltb target (Metrics.allocation_debt (metrics c)) = true ->
       phase c = Sleep \/ exact r c pre -> exact r c' pre').
Proof.
  intros Hi. unfold do_collection.
  destruct (F64.ltb target (Metrics.allocation_debt (metrics c))) eqn:Hd.
  - destruct (collect_loop_ok (rounds c) r target early c pre post Hi) as
      (c' & pre' & post' & E & Hi' & Hs & Hx); [by eapply rounds_enough|].
    by exists c', pre', post'.
  - exists c, pre, post. split_and!; try done. by right.
Qed.

(** With the target minus infinity only a forced stop ends the loop. *)
Lemma full_collection_ok r early c pre post : inv r [] c pre post ->
  exists c' pre' post',
    do_collection (rounds c) r Metrics.NEG_INFINITY early c = Some (Ok c') /\
    inv r [] c' pre' post' /\ stopped_at early c' /\
    (phase c = Sleep \/ exact r c pre -> exact r c' pre').
Proof.
  intros Hi. destruct (do_collection_ok r Metrics.NEG_INFINITY early c pre post Hi) as
    (c' & pre' & post' & E & Hi' & [Hs|Hs] & Hx).
  - exists c', pre', post'. split_and!; try done. apply Hx, Metrics.debt_above_neg_infinity.
  - by rewrite Metrics.debt_above_neg_infinity in Hs.
Qed.

(** ** Actions *)

Lemma perform_ok act a : arena_inv a -> may act a ->
  exists a', perform act a = Ok a' /\ arena_inv a'.
Proof.
  destruct a as [c r h]. intros (pre & post & Hi) Hmay. cbn in Hi.
  assert (Hdone : forall c' r' h' pre' post', inv r' h' c' pre' post' ->
    exists a', Ok (mk_arena c' r' h') = Ok a' /\ arena_inv a')
    by (intros c' r' h' pre' post' Hi'; eexists; split; [done|]; by exists pre', post').
  assert (Hadd : forall es, Forall (edge_ok c pre) es ->
    exists a', Ok (mk_arena c r (es ++ h)) = Ok a' /\ arena_inv a').
  { intros es Hes. eapply Hdone, inv_held_sub; [exact Hi|]. apply Forall_app. split; [done|]. apply Hi. }
  assert (Hadopt : forall c' p k, inv r h c' pre post -> Strong p ∈ h -> Strong k ∈ h ->
    (forall b, heap c' !! p = Some b -> needs_trace b = false -> [Strong k] = []) ->
    barred c' p (eq k) -> exists a', (c ← adopt p k c'; Ok (mk_arena c r h)) = Ok a' /\ arena_inv a').
  { intros c' p k Hi' Hp Hk Hfit Hbar.
    destruct (adopt_ok r h c' pre post p k Hi' Hp Hk Hfit Hbar) as (c'' & -> & Hi'').
    rewrite outcome_bind_Ok. by eapply Hdone. }
  destruct act as [l nt n es| |l|l|l|l es|p k|p k|p k|es|l|b n|p| |target early];
    cbn [perform may context root held] in *.
  - destruct Hmay as (Hf & Hn & Hmax & Hsub & Hleaf).
    destruct (alloc_inv r h c pre post l nt n es) as (c' & E & Hi'); [done..|].
    rewrite E, outcome_bind_Ok. by eapply Hdone.
  - apply Hadd, Hi.
  - pose proof (held_ok _ _ _ _ _ _ Hi Hmay) as Hk. destruct (kept_box c pre l Hk) as (b & Hb & Hl & ->).
    rewrite outcome_bind_Ok, Hl. cbn [rust_assert]. rewrite outcome_bind_Ok.
    apply Hadd. by apply (inv_closed _ _ _ _ _ Hi l b).
  - apply (Hadd [Weak l]). apply Forall_singleton.
    pose proof (held_ok _ _ _ _ _ _ Hi Hmay) as (b & Hb & _ & Hk). exists b. split; [done|].
    intros Hp. destruct (Hk Hp) as [?|Hc]; [by left|right]. by rewrite Hc.
  - destruct (upgrade_inv r h c pre post l Hi Hmay) as (up & -> & Hup). rewrite outcome_bind_Ok.
    destruct up; [|by eapply Hdone]. apply (Hadd [Strong l]). apply Forall_singleton. by apply Hup.
  - destruct Hmay as (Hl & Hsub & Hfit).
    destruct (backward_ok r h c pre post l None Hi Hl I) as (c' & -> & Hi' & Hs & Hbar).
    rewrite outcome_bind_Ok.
    destruct (kept_box c' pre l (held_ok _ _ _ _ _ _ Hi' Hl)) as (b & Hb & _ & ->).
    rewrite outcome_bind_Ok. eapply Hdone, write_inv; [done|done|by eapply held_all_ok| |].
    + by apply (fits_shapes es l c c' b).
    + intros Hp Hc. by apply (Hbar Hp b) in Hc.
  - destruct Hmay as (Hp & Hk & Hfit).
    destruct (backward_ok r h c pre post p (Some k) Hi Hp Hk) as (c' & -> & Hi' & Hs & Hbar).
    rewrite outcome_bind_Ok. eapply Hadopt; try done. intros b. by apply (fits_shapes _ p c c' b).
  - destruct Hmay as (Hp & Hk & Hfit).
    destruct (forward_ok r h c pre post (Some p) k Hi Hk Hp) as (c' & -> & Hi' & Hs & Hbar).
    rewrite outcome_bind_Ok. eapply Hadopt; try done; [|by apply Hbar].
    intros b. by apply (fits_shapes _ p c c' b).
  - destruct Hmay as (Hp & Hk & Hfit).
    destruct (forward_ok r h c pre post None k Hi Hk I) as (c' & -> & Hi' & Hs & Hbar).
    rewrite outcome_bind_Ok. eapply Hadopt; try done; [|by apply Hbar].
    intros b. by apply (fits_shapes _ p c c' b).
  - eapply Hdone. by eapply write_root_inv.
  - destruct Hmay as [Hl Hp].
    destruct (resurrect_inv r h c pre post l Hi Hl Hp) as (up & c' & -> & Hi').
    rewrite outcome_bind_Ok. by eapply Hdone.
  - eapply Hdone. apply metrics_inv; [done|]. by destruct b.
  - eapply Hdone. by apply metrics_inv.
  - eapply Hdone, inv_held_sub; [exact Hi|done].
  - subst h. destruct (do_collection_ok r target early c pre post Hi) as
      (c' & pre' & post' & -> & Hi' & _). rewrite outcome_bind_Ok. by eapply Hdone.
Qed.

(** ** What a collection leaves unchanged *)

Definition survives (h h' : gmap loc gc_box) : Prop :=
  forall l b', h' !! l = Some b' -> exists b, h !! l = Some b /\ edges b' = edges b /\
    box_size b' = box_size b /\ (live b' = true -> live b = true).

Lemma survives_refl h : survives h h.
Proof. intros l b Hb. by exists b. Qed.

Lemma survives_trans h1 h2 h3 : survives h1 h2 -> survives h2 h3 -> survives h1 h3.
Proof.
  intros H1 H2 l b3 Hb3. destruct (H2 l b3 Hb3) as (b2 & Hb2 & E1 & E2 & L2).
  destruct (H1 l b2 Hb2) as (b1 & Hb1 & E3 & E4 & L1). exists b1.
  split_and!; [done|congruence|congruence|auto].
Qed.

Lemma survives_put h l b b' : h !! l = Some b -> edges b' = edges b -> box_size b' = box_size b ->
  (live b' = true -> live b = true) -> survives h (<[l := b']> h).
Proof.
  intros Hb He Hs Hl x d. destruct (decide (x = l)) as [->|Hne].
  - rewrite lookup_insert_eq. intros [= <-]. by exists b.
  - rewrite lookup_insert_ne by done. apply survives_refl.
Qed.

Lemma survives_delete (h : gmap loc gc_box) l : survives h (delete l h).
Proof. intros x d [_ Hd]%lookup_delete_Some. by exists d. Qed.

Lemma get_box_inv c l b : get_box c l = Ok b -> heap c !! l = Some b.
Proof. unfold get_box. destruct (heap c !! l); congruence. Qed.

Ltac survive :=
  first [ apply survives_refl
        | eapply survives_put; [by apply get_box_inv|done|done|done] ].

Lemma trace_edge_survives e c c' : trace_edge e c = Ok c' -> survives (heap c) (heap c').
Proof.
  destruct e as [l|l]; cbn; unfold trace, trace_weak; intros (b & Hb & E)%outcome_bind_inv.
  - destruct (is_white (color b)); [|injection E as <-; survive].
    destruct (needs_trace b).
    + apply outcome_bind_inv in E as (_ & _ & [= <-]). survive.
    + injection E as <-. survive.
  - destruct (decide _); injection E as <-; survive.
Qed.

Lemma trace_value_survives es c c' : trace_value es c = Ok c' -> survives (heap c) (heap c').
Proof.
  revert c. induction es as [|e es IH]; intros c; cbn; [intros [= <-]; survive|].
  intros (c1 & H1 & H2)%outcome_bind_inv.
  eapply survives_trans; [by eapply trace_edge_survives|by apply IH].
Qed.

Lemma mark_round_survives r target early c c' ctl :
  mark_round r target early c = Ok (c', ctl) -> survives (heap c) (heap c').
Proof.
  unfold mark_round. intros ([ng c1] & H1 & H2)%outcome_bind_inv.
  assert (Eh : heap c1 = heap c).
  { destruct (last (gray c)) as [l|]; [|destruct (last (gray_again c)); by injection H1 as <- <-].
    apply outcome_bind_inv in H1 as (b & _ & [= <- <-]). done. }
  rewrite <- Eh. destruct ng as [l|].
  - apply outcome_bind_inv in H2 as (b & _ & H2). apply outcome_bind_inv in H2 as (_ & _ & H2).
    apply outcome_bind_inv in H2 as (c2 & Ht & H2).
    apply outcome_bind_inv in H2 as (b2 & Hb2 & [= <- <-]).
    eapply survives_trans; [by eapply trace_value_survives|survive].
  - destruct (root_needs_trace c1).
    + apply outcome_bind_inv in H2 as (c2 & Ht & [= <- <-]). by apply trace_value_survives in Ht.
    + destruct (decide _); injection H2 as <- <-; survive.
Qed.

Lemma sweep_round_survives target early c c' ctl :
  sweep_round target early c = Ok (c', ctl) -> survives (heap c) (heap c').
Proof.
  unfold sweep_round. destruct (decide _); [intros [= <- <-]; survive|].
  destruct (sweep c) as [l|]; [|intros [= <- <-]; survive].
  intros (b & Hb & E)%outcome_bind_inv. destruct (color b).
  - apply outcome_bind_inv in E as (c1 & H1 & E). apply outcome_bind_inv in E as (m & _ & [= <- <-]).
    cbn. eapply survives_trans; [|apply survives_delete].
    cbn [sweep_prev with_sweep] in H1. destruct (sweep_prev c) as [p|].
    + apply outcome_bind_inv in H1 as (q & Hq & [= <-]). survive.
    + apply outcome_bind_inv in H1 as (_ & _ & [= <-]). survive.
  - injection E as <- <-. survive.
  - done.
  - apply outcome_bind_inv in E as (m & _ & [= <- <-]). survive.
Qed.

Lemma collect_round_survives r target early c c' ctl :
  collect_round r target early c = Ok (c', ctl) -> survives (heap c) (heap c').
Proof.
  unfold collect_round. destruct (phase c).
  - apply mark_round_survives.
  - apply sweep_round_survives.
  - intros [= <- <-]. survive.
  - done.
Qed.

Lemma do_collection_survives fuel r target early c c' :
  do_collection fuel r target early c = Some (Ok c') -> survives (heap c) (heap c').
Proof.
  unfold do_collection. destruct (F64.ltb _ _); [|intros [= <-]; survive].
  revert c target. induction fuel as [|fuel IH]; intros c target; cbn; [done|].
  destruct (collect_round r target early c) as [[c1 ctl]|] eqn:E; [|done].
  apply collect_round_survives in E.
  destruct ctl as [|t]; [|destruct (F64.ltb t _); [|by intros [= <-]]];
    intros Hc; (eapply survives_trans; [exact E|by eapply IH]).
Qed.

(** ** Runs *)

Lemma metrics_new_accounts m : Metrics.new = Ok m -> accounts m = (0, 0, 0, 0).
Proof. unfold Metrics.new. by intros (p & _ & [= <-])%outcome_bind_inv. Qed.

Lemma arena_new_inv a : Arena_new = Ok a -> arena_inv a.
Proof.
  unfold Arena_new, new. intros (c & Hc & [= <-])%outcome_bind_inv.
  apply outcome_bind_inv in Hc as (m & Hm%metrics_new_accounts & [= <-]).
  injection Hm as E1 E2 E3 E4. exists [], []. split; cbn.
  - split; [done|constructor|]. intros l [b Hb]. done.
  - done.
  - split; cbn; rewrite ?E1, ?E2, ?E3, ?E4; done.
  - done.
  - done.
  - done.
  - done.
  - done.
Qed.

Lemma runs_inv a : runs_to a -> arena_inv a.
Proof.
  induction 1 as [a Ha|a act a' _ IH Hmay E]; [by apply arena_new_inv|].
  destruct (perform_ok act a IH Hmay) as (a1 & E1 & Hi). congruence.
Qed.

(** ** Reachability *)

Lemma reachable_kept r h c pre post l : inv r h c pre post ->
  reachable (heap c) (r ++ h) l -> kept c pre l.
Proof.
  intros Hi. induction 1 as [l Hl|l b l' _ IH Hb Hl'].
  - apply elem_of_app in Hl as [Hl|Hl]; [|by apply (held_ok r h c pre post (Strong l))].
    by apply (proj1 (Forall_forall _ _) (inv_root _ _ _ _ _ Hi) (Strong l)).
  - by apply (proj1 (Forall_forall _ _) (inv_closed _ _ _ _ _ Hi l b Hb IH) (Strong l')).
Qed.

Lemma reachable_survives h h' r l : survives h h' -> reachable h' r l -> reachable h r l.
Proof.
  intros Hs. induction 1 as [l Hl|l b l' _ IH Hb Hl']; [by apply reach_root|].
  destruct (Hs l b Hb) as (b0 & Hb0 & E & _). eapply reach_edge; [exact IH|exact Hb0|]. by rewrite <- E.
Qed.

(** What is reachable before a collection is kept by it. *)
Lemma reachable_collected h r c' pre' post' l : survives h (heap c') ->
  inv r [] c' pre' post' -> reachable h r l -> kept c' pre' l.
Proof.
  intros Hs Hi. induction 1 as [l Hl|l b l' _ IH Hb Hl'].
  - by apply (proj1 (Forall_forall _ _) (inv_root _ _ _ _ _ Hi) (Strong l)).
  - pose proof IH as (b' & Hb' & _). destruct (Hs l b' Hb') as (b0 & Hb0 & E & _).
    simplify_eq. rewrite <- E in Hl'.
    by apply (proj1 (Forall_forall _ _) (inv_closed _ _ _ _ _ Hi l b' Hb' IH) (Strong l')).
Qed.

(** ** Phases of a collection *)

Lemma trace_edge_phase e c c' : trace_edge e c = Ok c' -> phase c' = phase c.
Proof.
  destruct e as [l|l]; cbn; unfold trace, trace_weak; intros (b & Hb & E)%outcome_bind_inv.
  - destruct (is_white (color b)); [|by injection E as <-].
    destruct (needs_trace b); [|by injection E as <-].
    by apply outcome_bind_inv in E as (_ & _ & [= <-]).
  - destruct (decide _); by injection E as <-.
Qed.

Lemma trace_value_phase es c c' : trace_value es c = Ok c' -> phase c' = phase c.
Proof.
  revert c. induction es as [|e es IH]; intros c; cbn; [by intros [= <-]|].
  intros (c1 & H1%trace_edge_phase & H2%IH)%outcome_bind_inv. congruence.
Qed.

(** A round of marking goes on marking, or begins the sweep. *)
Lemma mark_round_phase r target early c c' ctl : mark_round r target early c = Ok (c', ctl) ->
  phase c = Mark -> phase c' = Mark \/ (early <> Some BeforeSweep /\ phase c' = Sweep).
Proof.
  unfold mark_round. intros ([ng c1] & H1 & H2)%outcome_bind_inv Hp.
  assert (Hp1 : phase c1 = Mark).
  { destruct (last (gray c)) as [l|]; [|destruct (last (gray_again c)); by injection H1 as <- <-].
    by apply outcome_bind_inv in H1 as (b & _ & [= <- <-]). }
  destruct ng as [l|].
  - apply outcome_bind_inv in H2 as (b & _ & H2). apply outcome_bind_inv in H2 as (_ & _ & H2).
    apply outcome_bind_inv in H2 as (c2 & Ht%trace_value_phase & H2).
    apply outcome_bind_inv in H2 as (b2 & _ & [= <- <-]). left. cbn. congruence.
  - destruct (root_needs_trace c1).
    + apply outcome_bind_inv in H2 as (c2 & Ht%trace_value_phase & [= <- <-]). left. cbn. congruence.
    + destruct (decide _) as [|Hne]; injection H2 as <- <-; [by left|by right].
Qed.

(** The phases that rounds stay in, for each early stop *)
Lemma loop_phase (P : Phase -> Prop) fuel r target early c c' :
  (forall target c c' ctl, P (phase c) -> collect_round r target early c = Ok (c', ctl) ->
     P (phase c')) ->
  P (phase c) -> do_collection fuel r target early c = Some (Ok c') -> P (phase c').
Proof.
  intros Hround Hc. unfold do_collection. destruct (F64.ltb _ _); [|by intros [= <-]].
  revert c target Hc. induction fuel as [|fuel IH]; intros c target Hc; cbn; [done|].
  destruct (collect_round r target early c) as [[c1 ctl]|] eqn:E; [|done].
  apply Hround in E; [|done]. destruct ctl as [|t]; [by apply IH|].
  destruct (F64.ltb t _); [by apply IH|by intros [= <-]].
Qed.

Lemma before_sweep_phase fuel r target c c' : phase c = Mark \/ phase c = Sleep ->
  do_collection fuel r target (Some BeforeSweep) c = Some (Ok c') ->
  phase c' = Mark \/ phase c' = Sleep.
Proof.
  apply (loop_phase (fun p => p = Mark \/ p = Sleep)). intros t d d' ctl [Hp|Hp];
    unfold collect_round; rewrite Hp.
  - intros E. apply mark_round_phase in E as [?|[? _]]; [by left|done|done].
  - intros [= <- <-]. by left.
Qed.

Lemma after_sweep_phase fuel r target c c' : phase c = Mark \/ phase c = Sweep ->
  do_collection fuel r target (Some AfterSweep) c = Some (Ok c') ->
  phase c' = Mark \/ phase c' = Sweep.
Proof.
  apply (loop_phase (fun p => p = Mark \/ p = Sweep)). intros t d d' ctl [Hp|Hp];
    unfold collect_round; rewrite Hp.
  - intros E. apply mark_round_phase in E as [?|[_ ?]]; [by left|by right|done].
  - unfold sweep_round. rewrite decide_True by done. intros [= <- <-]. by right.
Qed.

(** Marking that starts asleep does not end asleep: at least one round is run. *)
Lemma full_mark_phase r c c' : phase c = Mark \/ phase c = Sleep ->
  do_collection (rounds c) r Metrics.NEG_INFINITY (Some BeforeSweep) c = Some (Ok c') ->
  phase c' = Mark.
Proof.
  intros Hp. unfold do_collection. rewrite Metrics.debt_above_neg_infinity.
  assert (Hloop : forall fuel target d d', phase d = Mark ->
    collect_loop fuel r target (Some BeforeSweep) d = Some (Ok d') -> phase d' = Mark).
  { induction fuel as [|fuel IH]; intros target d d' Hd; cbn; [done|].
    destruct (collect_round r target (Some BeforeSweep) d) as [[d1 ctl]|] eqn:E; [|done].
    unfold collect_round in E. rewrite Hd in E.
    apply mark_round_phase in E as [Hd1|[? _]]; [|done|done].
    destruct ctl as [|t]; [by apply IH|]. destruct (F64.ltb t _); [by apply IH|by intros [= <-]]. }
  destruct Hp as [Hp|Hp]; [by apply Hloop|].
  assert (Hn : exists n, rounds c = S n) by (unfold rounds; rewrite Nat.add_comm; by eexists).
  destruct Hn as [n ->]. cbn [collect_loop]. unfold collect_round at 1. rewrite Hp. by apply Hloop.
Qed.

(** ** The counters *)

Lemma total_perm w h l k : l ≡ₚ k -> total w h l = total w h k.
Proof. induction 1; cbn; lia. Qed.

Definition heap_bytes (h : gmap loc gc_box) : Z := map_fold (fun _ b n => box_size b + n) 0 h.

Lemma total_map_fold r h c pre post : inv r h c pre post ->
  total box_size (heap c) (pre ++ post) = heap_bytes (heap c).
Proof.
  intros Hi. destruct (inv_placed _ _ _ _ _ Hi) as [Hch Hnd Hdom].
  assert (Hperm : pre ++ post ≡ₚ (map_to_list (heap c)).*1).
  { apply NoDup_Permutation; [done|apply NoDup_fst_map_to_list|]. intros l. split.
    - intros Hl. destruct (chain_lookup _ _ _ _ Hch Hl) as [b Hb]. apply list_elem_of_fmap.
      exists (l, b). split; [done|]. by apply elem_of_map_to_list.
    - intros ([l' b] & -> & Hb%elem_of_map_to_list)%list_elem_of_fmap. apply Hdom. by exists b. }
  rewrite (total_perm _ _ _ _ Hperm). clear Hperm. unfold heap_bytes. rewrite map_fold_foldr.
  assert (Hin : forall p, p ∈ map_to_list (heap c) -> heap c !! p.1 = Some p.2)
    by (intros [l b]; apply elem_of_map_to_list).
  induction (map_to_list (heap c)) as [|[l b] ls IH]; [done|]. cbn [fmap list_fmap total foldr fst].
  pose proof (Hin (l, b) ltac:(left)) as Hlb. cbn in Hlb. unfold weigh. rewrite Hlb. cbn.
  f_equal. apply IH. intros p Hp. apply Hin. by right.
Qed.

(** ** Dropping an arena *)

Lemma drop_all_ok ls : forall fuel (c : Context_),
  (length ls <= fuel)%nat -> chain (heap c) (head ls) ls -> NoDup ls ->
  (forall l, is_Some (heap c !! l) -> l ∈ ls) ->
  Metrics.total_gcs (metrics c) = Z.of_nat (length ls) ->
  Metrics.total_gc_bytes (metrics c) = total box_size (heap c) ls ->
  (forall l b, heap c !! l = Some b -> 1 <= box_size b) ->
  Metrics.total_gc_bytes (metrics c) <= int_max usize ->
  Metrics.total_gcs (metrics c) <= int_max usize ->
  exists c', drop_all fuel (head ls) c = Some (Ok c') /\ heap c' = ∅ /\
    Metrics.total_gcs (metrics c') = 0 /\ Metrics.total_gc_bytes (metrics c') = 0.
Proof.
  induction ls as [|l ls IH]; intros fuel c Hfuel Hch Hnd Hdom Hg Hb Hs Hmax Hgmax.
  - exists c. split_and!; [by destruct fuel| |done|done]. apply map_empty. intros l.
    apply eq_None_not_Some. intros Hl%Hdom. by apply elem_of_nil in Hl.
  - destruct fuel as [|fuel]; [cbn in Hfuel; lia|]. cbn in Hfuel.
    cbn [head] in Hch |- *. destruct Hch as (_ & b & Hl & Hch).
    apply NoDup_cons in Hnd as [Hnin Hnd]. cbn [drop_all]. unfold get_box. rewrite Hl.
    rewrite outcome_bind_Ok. cbn [total length] in Hb, Hg. unfold weigh in Hb. rewrite Hl in Hb.
    pose proof (Hs l b Hl). pose proof (total_nonneg (heap c) ls Hs).
    rewrite dealloc_metrics, outcome_bind_Ok by lia.
    rewrite (chain_head _ _ _ Hch) in Hch |- *.
    apply (IH fuel); cbn [heap dealloc with_heap with_metrics metrics
      Metrics.total_gcs Metrics.total_gc_bytes]; try lia; try done.
    + by apply chain_delete.
    + intros x [d [Hne Hd]%lookup_delete_Some].
      assert (Hx : x ∈ l :: ls) by (apply Hdom; by exists d).
      by apply elem_of_cons in Hx as [->|?].
    + rewrite Hb. rewrite (total_ext _ (delete l (heap c)) (heap c)); [lia|].
      intros x Hx. unfold weigh. rewrite lookup_delete_ne; [done|]. by intros ->.
    + intros x d [_ Hd]%lookup_delete_Some. by eapply Hs.
Qed.
End gc_loop.
