(* ===== verification/GcSafety.v ===== *)
(** * Safety and precision of the garbage collector

    What a program that uses an arena can rely on, in every state it can reach:
    no pointer dangles, no assertion of the collector fails, collections end, the
    counters are exact, and a full collection keeps exactly what is reachable. *)

From S2P Require Import Prelude Float64 GcMetrics GcArena GcFacts GcSweep GcMutator GcLoop.
Import Gc.

(** ** Runs by evaluation *)

#[export] Instance subseteq_list_dec {A} `{EqDecision A} (l k : list A) : Decision (l ⊆ k).
Proof.
  refine (cast_if (decide (Forall (fun x => x ∈ k) l))); rewrite Forall_forall in *;
    abstract (intros; firstorder).
Defined.

(** ** The header word *)

Module HeaderFacts.
Import Header.

(** Writing a field leaves the bits outside its mask, *)
Lemma set_other mask mask' w tag : Z.land mask mask' = 0 ->
  Z.land (Z.lor (Z.land w (Z.lnot mask)) (Z.land tag mask)) mask' = Z.land w mask'.
Proof.
  intros Hd. apply Z.bits_inj'. intros n Hn.
  pose proof (f_equal (fun z => Z.testbit z n) Hd) as Hb. cbn beta in Hb.
  rewrite Z.land_spec, Z.bits_0 in Hb.
  rewrite !Z.land_spec, Z.lor_spec, !Z.land_spec, Z.lnot_spec by done.
  destruct (Z.testbit w n), (Z.testbit mask n), (Z.testbit mask' n), (Z.testbit tag n); done.
Qed.

(** and the field reads back. *)
Lemma set_same mask w tag :
  Z.land (Z.lor (Z.land w (Z.lnot mask)) (Z.land tag mask)) mask = Z.land tag mask.
Proof.
  apply Z.bits_inj'. intros n Hn.
  rewrite !Z.land_spec, Z.lor_spec, !Z.land_spec, Z.lnot_spec by done.
  destruct (Z.testbit w n), (Z.testbit mask n), (Z.testbit tag n); done.
Qed.

Lemma bool_tag mask (v : bool) : (if v then mask else 0) = Z.land (if v then mask else 0) mask.
Proof. destruct v; [by rewrite Z.land_diag|done]. Qed.

Lemma set_bool_eq mask w v :
  set_bool mask w v = Z.lor (Z.land w (Z.lnot mask)) (Z.land (if v then mask else 0) mask).
Proof. unfold set_bool. by rewrite <- bool_tag. Qed.

(** The fields packed in the tag bits of a header word are independent: each setter
    is read back by its getter and leaves the other fields and the vtable pointer as
    they were, for any word. *)
Theorem fields_independent w k v :
  (color (Header.set_color w k) = k /\ needs_trace (Header.set_color w k) = needs_trace w /\
   is_live (Header.set_color w k) = is_live w /\ vtable (Header.set_color w k) = vtable w) /\
  (needs_trace (set_needs_trace w v) = v /\ color (set_needs_trace w v) = color w /\
   is_live (set_needs_trace w v) = is_live w /\ vtable (set_needs_trace w v) = vtable w) /\
  (is_live (Header.set_live w v) = v /\ color (Header.set_live w v) = color w /\
   needs_trace (Header.set_live w v) = needs_trace w /\ vtable (Header.set_live w v) = vtable w).
Proof.
  unfold color, needs_trace, is_live, vtable, Header.set_color, set_needs_trace, Header.set_live, get, set.
  rewrite !set_bool_eq, !set_same, !(set_other 3 4), !(set_other 3 8), !(set_other 3 (Z.lnot 15)),
    !(set_other 4 3), !(set_other 4 8), !(set_other 4 (Z.lnot 15)), !(set_other 8 3),
    !(set_other 8 4), !(set_other 8 (Z.lnot 15)) by done.
  split_and!; try done; destruct k, v; done.
Qed.
End HeaderFacts.

Section gc_safety.
Context `{BuildProfile}.
Implicit Types (c : Context_) (a : Arena).

#[export] Instance may_dec act a : Decision (may act a).
Proof.
  destruct act; cbn; unfold fits; try (destruct (heap (context a) !! _)); apply _.
Defined.

(** The actions of a callback, in order *)
Fixpoint perform_all (acts : list action) (a : Arena) : option Arena :=
  match acts with
  | [] => Some a
  | act :: acts =>
      if decide (may act a) then
        match perform act a with Ok a => perform_all acts a | Panic => None end
      else None
  end.
Definition run (acts : list action) : option Arena :=
  match Arena_new with Ok a => perform_all acts a | Panic => None end.

Lemma perform_all_runs acts a a' : runs_to a -> perform_all acts a = Some a' -> runs_to a'.
Proof.
  revert a. induction acts as [|act acts IH]; intros a Ha; cbn; [by intros [= <-]|].
  destruct (decide (may act a)) as [Hm|]; [|done].
  destruct (perform act a) as [a1|] eqn:E; [|done]. apply IH. by eapply runs_action.
Qed.

Lemma run_runs acts a : run acts = Some a -> runs_to a.
Proof.
  unfold run. destruct Arena_new as [a0|] eqn:E; [|done]. by apply perform_all_runs, runs_new.
Qed.

(** Where a callback can follow strong pointers to *)
Definition in_reach (a : Arena) (l : loc) : Prop :=
  reachable (heap (context a)) (root a ++ held a) l.
(** and the pointers it can find on the way *)
Definition found (a : Arena) (e : edge) : Prop :=
  e ∈ root a ++ held a \/
  exists p b, in_reach a p /\ heap (context a) !! p = Some b /\ e ∈ edges b.

Lemma found_ok a pre post e : inv (root a) (held a) (context a) pre post ->
  found a e -> edge_ok (context a) pre e.
Proof.
  intros Hi [[He|He]%elem_of_app|(p & b & Hp & Hb & He)].
  - by apply (proj1 (Forall_forall _ _) (inv_root _ _ _ _ _ Hi) e).
  - by apply (held_ok (root a) (held a) (context a) pre post e).
  - apply (reachable_kept _ _ _ _ _ _ Hi) in Hp.
    by apply (proj1 (Forall_forall _ _) (inv_closed _ _ _ _ _ Hi p b Hb Hp) e).
Qed.

(** C1: no pointer that a program can find dangles: in every state that a program can
    reach, through any interleaving of callbacks and incremental collections, the
    target of a strong pointer is allocated and its value has not been dropped, and
    the box of a weak pointer is still allocated. *)
Theorem no_dangling a : runs_to a ->
  (forall l, found a (Strong l) -> exists b, heap (context a) !! l = Some b /\ live b = true) /\
  (forall l, found a (Weak l) -> is_Some (heap (context a) !! l)).
Proof.
  intros (pre & post & Hi)%runs_inv. split; intros l Hl; apply (found_ok _ _ _ _ Hi) in Hl;
    destruct Hl as (b & Hb & Hl); exists b; tauto.
Qed.

(** C2: every action that the borrow checker allows succeeds: no pointer is read after
    it was freed, no counter overflows or underflows, no assertion of the collector
    ([trace], [resurrect], the sweep of an unlinked, gray or unexpected head box)
    fails, and a collection started by it returns. *)
Theorem perform_succeeds a act : runs_to a -> may act a -> exists a', perform act a = Ok a'.
Proof.
  intros Hi%runs_inv Hm. destruct (perform_ok act a Hi Hm) as (a' & E & _). by exists a'.
Qed.

(** C4: between callbacks, a collection with any target debt and any early stop, whatever
    the floating point debts are, returns within [3 n + 6] rounds for [n] boxes; it
    stops where it was asked to, at the end of a cycle, or without the debt left. *)
Theorem do_collection_returns a target early : runs_to a -> held a = [] ->
  exists c', do_collection (rounds (context a)) (root a) target early (context a) = Some (Ok c') /\
    (stopped_at early c' \/
     F64.ltb target (Metrics.allocation_debt (metrics c')) = false).
Proof.
  intros (pre & post & Hi)%runs_inv Hh. rewrite Hh in Hi.
  destruct (do_collection_ok (root a) target early (context a) pre post Hi) as
    (c' & pre' & post' & E & _ & Hs & _). by exists c'.
Qed.

(** C5: the tri-colour invariant.  While marking, a black box points strongly at no
    white box and weakly at no unmarked one; the gray boxes are those of the two
    queues, each queued once; the root too points at no white box once traced. *)
Theorem tricolour a : runs_to a -> phase (context a) = Mark ->
  let c := context a in
  (forall l b, heap c !! l = Some b -> color b = GcColor.Black ->
     forall e, e ∈ edges b -> match e with
       | Strong k => exists d, heap c !! k = Some d /\ is_white (color d) = false
       | Weak k => exists d, heap c !! k = Some d /\ color d <> GcColor.White
       end) /\
  (forall l, (exists b, heap c !! l = Some b /\ color b = GcColor.Gray) <->
     l ∈ gray c ++ gray_again c) /\
  NoDup (gray c ++ gray_again c) /\
  (root_needs_trace c = false -> forall k, Strong k ∈ root a ->
     exists d, heap c !! k = Some d /\ is_white (color d) = false).
Proof.
  intros (pre & post & Hi)%runs_inv Hp c. pose proof (inv_coloured _ _ _ _ _ Hi) as Hcol.
  unfold coloured in Hcol. fold c in Hcol. unfold c in Hcol at 1. rewrite Hp in Hcol.
  destruct Hcol as [Hm Hrt].
  assert (Hmark : forall e, marked (heap c) e -> match e with
       | Strong k => exists d, heap c !! k = Some d /\ is_white (color d) = false
       | Weak k => exists d, heap c !! k = Some d /\ color d <> GcColor.White
       end).
  { intros [k|k]; cbn; intros (d & Hd & Hr); exists d; (split; [done|]);
      destruct (color d); cbn in *; (done || lia). }
  split; [|split; [apply Hm|split; [apply Hm|]]].
  - intros l b Hb Hc e He. apply Hmark.
    by apply (proj1 (Forall_forall _ _) (mk_black _ _ Hm l b Hb Hc) e).
  - intros Hf k Hk. apply (Hmark (Strong k)).
    by apply (proj1 (Forall_forall _ _) (Hrt Hf) (Strong k)).
Qed.

(** C3: [collect_all] reclaims exactly the garbage: started between cycles it ends
    between cycles, the values alive afterwards are those that were reachable from the
    root by strong pointers before (cycles of garbage included in what goes), and
    what stays keeps its pointers. *)
Theorem collect_all_exact a : runs_to a -> held a = [] -> phase (context a) = Sleep ->
  exists c', collect_all (root a) (context a) = Some (Ok c') /\ phase c' = Sleep /\
    (forall l, (exists b, heap c' !! l = Some b /\ live b = true) <->
       reachable (heap (context a)) (root a) l) /\
    (forall l b, heap c' !! l = Some b ->
       exists b0, heap (context a) !! l = Some b0 /\ edges b = edges b0).
Proof.
  intros (pre & post & Hi)%runs_inv Hh Hp. rewrite Hh in Hi.
  destruct (full_collection_ok (root a) None (context a) pre post Hi) as
    (c' & pre' & post' & E & Hi' & Hs & Hx).
  pose proof (do_collection_survives _ _ _ _ _ _ E) as Hsurv.
  assert (Hp' : phase c' = Sleep) by (destruct Hs as [?|[[? _]|[? _]]]; done).
  exists c'. split_and!; [done|done| |].
  - intros l. split.
    + intros (b & Hb & Hl). eapply reachable_survives; [exact Hsurv|].
      specialize (Hx (or_introl Hp)). unfold exact in Hx. rewrite Hp' in Hx. apply Hx.
      exists b. split_and!; [done|done|congruence].
    + intros Hl. destruct (reachable_collected _ _ _ _ _ l Hsurv Hi' Hl) as (b & Hb & Hlive & _).
      by exists b.
  - intros l b Hb. destruct (Hsurv l b Hb) as (b0 & Hb0 & He & _). by exists b0.
Qed.

Lemma marked_reachable r c l : marking [] c -> gray c ++ gray_again c = [] ->
  Forall (marked (heap c)) r -> reachable (heap c) r l -> marked (heap c) (Strong l).
Proof.
  intros Hm Hg Hr. induction 1 as [l Hl|l b l' _ IH Hb Hl'].
  - by apply (proj1 (Forall_forall _ _) Hr (Strong l)).
  - destruct IH as (b' & Hb' & Hrank). assert (b' = b) as -> by congruence.
    assert (Hc : color b = GcColor.Black).
    { destruct (color b) eqn:Ec; cbn in Hrank; try lia; [|done]. exfalso.
      assert (Hin : l ∈ [] ++ gray c ++ gray_again c) by (apply (mk_gray _ _ Hm); by exists b).
      rewrite Hg in Hin. by apply elem_of_nil in Hin. }
    by apply (proj1 (Forall_forall _ _) (mk_black _ _ Hm l b Hb Hc) (Strong l')).
Qed.

Lemma gray_remaining_false c : gray_remaining c = false ->
  gray c ++ gray_again c = [] /\ root_needs_trace c = false.
Proof. unfold gray_remaining. by destruct (gray c), (gray_again c). Qed.

(** [mark_all] started between cycles gives the marked arena, in which a pointer is
    dead exactly when its target was not reachable; and [start_sweeping] of a marked
    arena always satisfies its own assertion. *)
Theorem mark_all_exact a : runs_to a -> held a = [] -> phase (context a) = Sleep ->
  exists c', mark_all (root a) (context a) = Some (Ok (c', true)) /\
    (forall l, is_Some (heap c' !! l) -> exists dead, is_dead l c' = Ok dead /\
       (dead = false <-> reachable (heap (context a)) (root a) l)) /\
    (forall l, reachable (heap (context a)) (root a) l -> is_Some (heap c' !! l)) /\
    exists c'', start_sweeping (root a) c' = Some (Ok c'').
Proof.
  intros (pre & post & Hi)%runs_inv Hh Hp. rewrite Hh in Hi.
  destruct (full_collection_ok (root a) (Some BeforeSweep) (context a) pre post Hi) as
    (c' & pre' & post' & E & Hi' & Hs & Hx).
  pose proof (do_collection_survives _ _ _ _ _ _ E) as Hsurv.
  assert (Hp' : phase c' = Mark) by (by apply (full_mark_phase _ _ _ (or_intror Hp)) in E).
  assert (Hg : gray_remaining c' = false)
    by (destruct Hs as [?|[(_ & _ & ?)|[? _]]]; [congruence|done|done]).
  destruct (gray_remaining_false c' Hg) as [Hgray Hroot].
  pose proof (inv_coloured _ _ _ _ _ Hi') as Hcol. unfold coloured in Hcol. rewrite Hp' in Hcol.
  destruct Hcol as [Hm Hrt]. specialize (Hx (or_introl Hp)). unfold exact in Hx. rewrite Hp' in Hx.
  assert (Hback : forall l, reachable (heap (context a)) (root a) l -> reachable (heap c') (root a) l).
  { intros l. induction 1 as [l Hl|l b l' Hr IH Hb Hl']; [by apply reach_root|].
    destruct (reachable_collected _ _ _ _ _ l Hsurv Hi' Hr) as (b' & Hb' & _).
    destruct (Hsurv l b' Hb') as (b0 & Hb0 & He & _). simplify_eq.
    eapply reach_edge; [exact IH|exact Hb'|by rewrite He]. }
  exists c'. split; [|split; [|split]].
  - unfold mark_all, mark_to. rewrite (bool_decide_eq_true_2 _ Hp), orb_true_r, E. cbn.
    by rewrite bool_decide_eq_true_2, Hg.
  - intros l [b Hb]. unfold is_dead, get_box. rewrite Hb, outcome_bind_Ok. eexists.
    split; [reflexivity|]. split.
    + intros Hw. eapply reachable_survives; [exact Hsurv|]. apply Hx. exists b.
      split; [done|]. destruct (color b); cbn in *; (done || lia).
    + intros Hl%Hback. apply (marked_reachable _ _ _ Hm Hgray (Hrt Hroot)) in Hl as (b' & Hb' & Hr).
      assert (b' = b) as -> by congruence. destruct (color b); cbn in *; (done || lia).
  - intros l Hl. destruct (reachable_collected _ _ _ _ _ l Hsurv Hi' Hl) as (b & Hb & _). by exists b.
  - destruct (full_collection_ok (root a) (Some AfterSweep) c' pre' post' Hi') as
      (c2 & pre2 & post2 & E2 & _ & Hs2 & _).
    pose proof (after_sweep_phase _ _ _ _ _ (or_introl Hp') E2) as Hp2.
    unfold start_sweeping. rewrite E2. cbn. exists c2.
    rewrite bool_decide_eq_true_2; [done|]. destruct Hs2 as [?|[[? _]|[_ ?]]]; [|done|done].
    destruct Hp2; congruence.
Qed.

(** C6: weak pointers: in every state of a run, upgrading a weak pointer the callback
    holds answers; it gives a strong pointer whenever the value is still strongly
    reachable, and never one to a value that was dropped. *)
Theorem weak_upgrade a l : runs_to a -> Weak l ∈ held a ->
  exists up, upgrade l (context a) = Ok up /\
    (in_reach a l -> up = true) /\
    (up = true -> exists b, heap (context a) !! l = Some b /\ live b = true).
Proof.
  intros (pre & post & Hi)%runs_inv Hl.
  destruct (upgrade_inv _ _ _ _ _ l Hi Hl) as (up & E & Hup). exists up. split_and!; [done| |].
  - intros Hr. apply Hup. by apply (reachable_kept _ _ _ _ _ _ Hi).
  - intros Hk%Hup. destruct Hk as (b & Hb & Hlive & _). by exists b.
Qed.

(** C7: the counters are exact in every state of a run: [total_gcs] is the number of
    allocated boxes, [total_gc_bytes] the sum of their sizes; and dropping the arena
    frees every box and brings both to zero. *)
Theorem counters_exact a : runs_to a ->
  Metrics.total_gcs (metrics (context a)) = Z.of_nat (size (heap (context a))) /\
  Metrics.total_gc_bytes (metrics (context a)) = heap_bytes (heap (context a)) /\
  exists c', drop (context a) = Some (Ok c') /\ heap c' = ∅ /\
    Metrics.total_gcs (metrics c') = 0 /\ Metrics.total_gc_bytes (metrics c') = 0.
Proof.
  intros (pre & post & Hi)%runs_inv.
  pose proof (gcs_bound _ _ _ (inv_placed _ _ _ _ _ Hi) (inv_accounted _ _ _ _ _ Hi)) as Hle.
  pose proof (heap_size _ _ _ _ _ Hi) as Hsize. pose proof (total_map_fold _ _ _ _ _ Hi) as Hbytes.
  destruct (inv_placed _ _ _ _ _ Hi) as [Hch Hnd Hdom].
  destruct (inv_accounted _ _ _ _ _ Hi) as [A1 A2 A3 A4 _].
  split; [by rewrite Hsize|]. split; [by rewrite <- Hbytes|].
  unfold drop. rewrite (chain_head _ _ _ Hch) in Hch |- *.
  apply drop_all_ok; try done; [by rewrite Hsize|].
  cbn [metrics with_phase]. lia.
Qed.
End gc_safety.

(** ** Witnesses *)

(** A cycle of two boxes behind the root, a weak pointer of the root to a third box
    that nothing else holds, and a fourth that nothing holds. *)
Definition cycle : list action :=
  [Alloc 1 true 32 []; Alloc 2 true 48 [Strong 1]; Write 1 [Strong 2];
   Alloc 3 false 24 []; Downgrade 3; Alloc 4 true 16 [Strong 2];
   WriteRoot [Strong 2; Weak 3]; Return].
Definition full : action := Collect Metrics.NEG_INFINITY None.
Definition mark_fully : action := Collect Metrics.NEG_INFINITY (Some BeforeSweep).

#[local] Instance checked_build : BuildProfile := {| overflow_checks := true |}.
Definition after (acts : list action) : Arena :=
  default (mk_arena (mk_ctx ∅ (Metrics.mk (Pacing.mk 0 0 0) 0 0 0 0 0 0 0 0 0 0 0 0) Drop false
    None None None [] []) [] []) (run acts).

Ltac ran :=
  match goal with |- runs_to (after ?acts) => apply (run_runs acts); vm_compute; reflexivity end.

Example run_full :
  map_to_list (live <$> heap (context (after (cycle ++ [full])))) =
    [(3%positive, false); (2%positive, true); (1%positive, true)].
Proof. vm_compute. reflexivity. Qed.

Lemma no_dangling_witness :
  (exists l, found (after (cycle ++ [mark_fully; ReadRoot])) (Strong l)) /\
  exists b, heap (context (after (cycle ++ [mark_fully; ReadRoot]))) !! 2%positive = Some b /\
    live b = true.
Proof.
  assert (Hr : runs_to (after (cycle ++ [mark_fully; ReadRoot]))) by ran.
  assert (Hf : found (after (cycle ++ [mark_fully; ReadRoot])) (Strong 2))
    by (left; vm_compute; left).
  split; [by exists 2%positive|]. exact (proj1 (no_dangling _ Hr) 2%positive Hf).
Defined.

Lemma perform_succeeds_witness :
  may (AdoptForward 2 1) (after (cycle ++ [mark_fully; ReadRoot; Load 2])) /\
  exists a', perform (AdoptForward 2 1) (after (cycle ++ [mark_fully; ReadRoot; Load 2])) = Ok a'.
Proof.
  assert (Hr : runs_to (after (cycle ++ [mark_fully; ReadRoot; Load 2]))) by ran.
  assert (Hm : may (AdoptForward 2 1) (after (cycle ++ [mark_fully; ReadRoot; Load 2])))
    by (vm_compute; split_and!; [right; left|left|done]).
  split; [exact Hm|]. exact (perform_succeeds _ _ Hr Hm).
Defined.

Lemma do_collection_returns_witness :
  exists c', do_collection 18 (root (after cycle)) F64.ZERO None (context (after cycle)) =
    Some (Ok c').
Proof.
  assert (Hr : runs_to (after cycle)) by ran.
  assert (Hh : held (after cycle) = []) by (vm_compute; reflexivity).
  destruct (do_collection_returns _ F64.ZERO None Hr Hh) as (c' & E & _). exists c'. exact E.
Defined.

Lemma tricolour_witness : NoDup (gray (context (after (cycle ++ [mark_fully; ReadRoot; Write 2 []]))) ++
  gray_again (context (after (cycle ++ [mark_fully; ReadRoot; Write 2 []])))).
Proof.
  assert (Hr : runs_to (after (cycle ++ [mark_fully; ReadRoot; Write 2 []]))) by ran.
  assert (Hp : phase (context (after (cycle ++ [mark_fully; ReadRoot; Write 2 []]))) = Mark)
    by (vm_compute; reflexivity).
  exact (proj1 (proj2 (proj2 (tricolour _ Hr Hp)))).
Defined.

Lemma collect_all_exact_witness :
  exists c', collect_all (root (after cycle)) (context (after cycle)) = Some (Ok c') /\
    phase c' = Sleep.
Proof.
  assert (Hr : runs_to (after cycle)) by ran.
  assert (Hh : held (after cycle) = []) by (vm_compute; reflexivity).
  assert (Hp : phase (context (after cycle)) = Sleep) by (vm_compute; reflexivity).
  destruct (collect_all_exact _ Hr Hh Hp) as (c' & E & Hc & _). exists c'. split; [exact E|exact Hc].
Defined.

Lemma mark_all_exact_witness :
  exists c', mark_all (root (after cycle)) (context (after cycle)) = Some (Ok (c', true)).
Proof.
  assert (Hr : runs_to (after cycle)) by ran.
  assert (Hh : held (after cycle) = []) by (vm_compute; reflexivity).
  assert (Hp : phase (context (after cycle)) = Sleep) by (vm_compute; reflexivity).
  destruct (mark_all_exact _ Hr Hh Hp) as (c' & E & _). exists c'. exact E.
Defined.

Lemma weak_upgrade_witness :
  exists up, upgrade 3 (context (after (cycle ++ [full; ReadRoot]))) = Ok up /\ up = false.
Proof.
  assert (Hr : runs_to (after (cycle ++ [full; ReadRoot]))) by ran.
  assert (Hw : Weak 3 ∈ held (after (cycle ++ [full; ReadRoot]))) by (vm_compute; right; left).
  destruct (weak_upgrade _ _ Hr Hw) as (up & E & _ & Hup). exists up. split; [exact E|].
  destruct up; [|reflexivity]. exfalso. destruct (Hup eq_refl) as (b & Hb & Hl).
  vm_compute in Hb. injection Hb as <-. discriminate Hl.
Defined.

Lemma counters_exact_witness :
  Metrics.total_gc_bytes (metrics (context (after cycle))) = 120 /\
  Metrics.total_gc_bytes (metrics (context (after cycle))) =
    heap_bytes (heap (context (after cycle))).
Proof.
  assert (Hr : runs_to (after cycle)) by ran.
  split; [vm_compute; reflexivity|]. exact (proj1 (proj2 (counters_exact _ Hr))).
Defined.
